(* ===== verification/_CoqProject ===== *)
-Q . S2P
Prelude.v
Nbuf.v
Cksum.v
Addr.v
Cache.v
Rewrite.v
Tcpopt.v
StateTcp.v
State.v
IfMap.v
ConnKey.v
Thmap.v
Portmap.v
Ruleset.v
Tableset.v
Conn.v
Sendpkt.v
Bpf.v
NpfBpf.v
NpfVar.v
BpfComp.v
NpfBuild.v
NpfData.v
Npt66.v
Stats.v
Worker.v
Params.v
Nvlist.v
Rproc.v
Alg.v
NpfNat.v
NatRefs.v
NatSys.v
Handler.v
HandlerFlow.v
AlgIcmp.v
AlgPptp.v
NatFlow.v
NatConfig.v
Libnpf.v
NpfCtl.v
CtlSave.v
CtlTables.v
NpfConf.v
CtlOps.v
NpfGroups.v
ConfigFlow.v
ExtRatelimit.v
ExtNormalize.v
ExtLog.v
NpfExt.v
NpfMaps.v
IfAddr.v
NpfShow.v
NpfClient.v
ClientFlow.v
NpfOs.v
