(* ===== verification/Prelude.v ===== *)
(** * NPF: a verification library (root file)

    NPF is a stateful packet filter with network address translation.  It has
    a kernel part (src/kern), which decides on packets; libnpf (src/libnpf),
    which holds a configuration as name/value lists and sends it to the kernel;
    npfctl (src/npfctl) with its extension modules (src/lib), which compiles
    npf.conf into such a configuration, BPF code included, and prints it again.
    This library models these three parts as Rocq functions over explicit
    state, and proves what makes them correct.

    ** The program and the files that model it

    A packet enters [npfk_packet_handler] (npf_handler.c): Handler.  The handler
    calls, in this order:
    - the packet cache (npf_inet.c, npf_mbuf.c): Nbuf (buffers and the cursor),
      Cksum (incremental checksums), Addr (addresses and masks), Cache (parsing
      of IP, TCP, UDP and ICMP headers), Tcpopt (TCP options and segments), and
      Rewrite (NAPT and NPTv6 rewriting of a packet);
    - connection tracking: ConnKey (npf_connkey.c), Conn (npf_conn.c,
      npf_conndb.c: objects, database, garbage collection), State (npf_state.c)
      with StateTcp (npf_state_tcp.c: transition table and window checks);
    - the ruleset: Ruleset (npf_ruleset.c), whose filters run on Bpf
      (stand/bpf_filter.c: interpreter and validator) with the coprocessor
      NpfBpf (npf_bpf.c), which looks addresses up in Tableset (npf_tableset.c);
    - translation: NpfNat (npf_nat.c), its references NatRefs, its composition
      with the connections NatSys, the packets of a translated connection
      NatFlow, and policies as lists NatConfig; ports are from Portmap
      (npf_portmap.c, the lock-free bitmap as a step machine);
    - rule procedures: Rproc (npf_rproc.c), ExtRatelimit (npf_ext_ratelimit.c,
      npf_ext_rndblock.c), ExtNormalize (npf_ext_normalize.c), ExtLog
      (npf_ext_log.c); application gateways: Alg (npf_alg.c), AlgIcmp
      (npf_alg_icmp.c), AlgPptp (npf_alg_pptp.c); answers to blocked packets: Sendpkt (npf_sendpkt.c).
    HandlerFlow follows the packets of a stateful rule through two calls of the
    handler.

    Around it in the kernel: IfMap (npf_if.c), IfAddr (npf_ifaddr.c), Params
    (npf_params.c and the tables of all components), Worker (npf_worker.c),
    Stats (the counters of npf.c), NpfOs (npf_os.c: hooks, switch and device),
    and the control interface (npf_ctl.c, npf_conf.c): NpfCtl (rules from lists),
    CtlTables (tables from lists, table commands), CtlSave (rules to lists),
    NpfConf (configurations, dynamic rules), CtlOps (saving and the dispatch of
    requests).

    In user space: NpfVar (npf_var.c, the variables of the grammar), NpfData
    (npf_data.c, words of npf.conf to data), Npt66 (the NPTv6 adjustment),
    BpfComp (npf_bpf_comp.c, code blocks), NpfBuild (npf_build.c, the code of a
    rule), NpfGroups (groups and rules), NpfMaps (map statements, procedures,
    tables), NpfExt (npf_extmod.c and the modules of src/lib), NpfShow
    (npf_show.c), NpfClient (npf_cmd.c and the requests of libnpf), and Libnpf
    (libnpf/npf.c).  ConfigFlow composes a written configuration with npfctl,
    libnpf, the control interface and the inspection of a packet; ClientFlow
    composes the commands of npfctl with the kernel.

    ** How the code is rendered

    - An integer of w bits is a [Z]; [wrap] and [swrap] write the wrap-around
      out ([u8], [u16], [u32], [u64], [s32]).  Addresses are lists of 32-bit
      words as they are in memory (little-endian host), packets lists of bytes.
    - Objects with identity (connections, rules, tables, procedures, policies)
      are in heaps, finite maps from addresses; lists and arrays of the source
      hold addresses.  Reference counts are fields.  A use of a freed object or
      a failed KASSERT is [None] or a recorded fault, so that theorems that a
      result exists exclude it.
    - Error codes are the numbers of the source; npfctl ends on an error, which
      is the sum [comp] with the ways to end ([E_errx], [E_yyerror], [E_assert],
      [E_abort], [E_segv]).
    - Concurrency: the port bitmap and the workers are step machines whose steps
      are the atomic accesses or the critical sections, and a condition variable
      is the set of the threads asleep on it; the rest runs under its locks or
      in a read section, as one step.
    - Code outside of the repository is a class of operations with its
      documented laws and a concrete instance: thmap (Thmap), nvlist (Nvlist,
      NpfConf, CtlOps, NpfClient), lpm and cdb (Tableset), the network stack
      (Sendpkt), the host's resolver (NpfData), the interface layer (IfMap).
      Components that a file only calls are classes as well ([rule_env],
      [conn_env], [load_env], [save_env], [conf_env], [export_env]), which the files that compose
      instantiate.
    - Random numbers, times, what other threads read, the content of memory that
      is not initialised and what an outdated pointer reads are arguments.

    ** What the theorems show

    The main theorems are numbered in their doc comments (C and a number).
    - Packet path: the handler follows its policy on every path and balances
      the references of connections and procedures; parsing stays in bounds;
      rewriting leaves valid checksums; a validated BPF program runs without
      leaving its program, memory or packet.
    - State: connections, policies, entries, ports, tables and procedures keep
      their invariants under every operation and every sequence of them;
      counts are exact; garbage collection frees exactly what is expired and
      unreferenced, and is complete; TCP state follows the handshake and the
      window.
    - Compilation: the code of a rule is accepted by the validator and, for the
      options that are compiled as they read (NpfBuild says which are not),
      matches exactly the packets that the options describe; groups, rules, maps
      and tables of a configuration reach the kernel with their meaning; a
      verdict of the kernel is the meaning of the written configuration.
    - Control: static rules without procedures, parameters and tables that are
      not constant load again after they were saved; dynamic rules have one
      owner; table commands act as on a set; a listing is complete; workers
      complete a discharge, with the callers woken.
    - Theorems with a negative statement document defects of the code; they are
      small concrete cases beside the operation they are about.

    ** Fuel and bounds

    Recursion that is not structural has fuel, and a theorem or a comment says
    why it is enough: [ip6_fuel] and [cache_fuel] exceed the bytes of the packet,
    each turn consumes one; the BPF interpreter gets the length of the program,
    as jumps go forward; inspection of a ruleset the number of rules, as skips go
    forward (proved total for loaded rulesets; a ruleset with a bad skip mark
    does not end, which is a theorem too); lists of the heap their size
    ([list_fuel]); searches of the port map the size of the range; folding a
    32-bit sum three turns; decimal numbers of 64 bits twenty digits and
    hexadecimal ones sixteen; the flattening of nested rules the nesting depth;
    the listing of a table 54 buffers, up to 2^62 bytes.

    ** Not modelled

    The creation and destruction of an instance in npf.c, which call the start
    and end functions of the components, and the wrappers of npf_os.c around
    interfaces and epoch-based reclamation of the operating system; the
    logging pseudo-interface (if_npflog.c: glue of the operating system), the
    generated lexer and parser
    (npf_scan.l, npf_parse.y; the actions they call are modelled), the main
    program of npfctl (npfctl.c: options, statistics, debugging), the BPF JIT,
    the portability headers under src/kern/stand beyond what the code uses, the
    tests, and the demonstration router (app/).  The memory model of the
    hardware, epoch-based reclamation (a reader never sees freed memory, which is
    what the grace periods are for) and allocation failure inside of library
    calls that may sleep are assumed.  The PPTP gateway is modelled, but not as
    one of the gateways that the handler calls (see Alg). *)

From Stdlib Require Export ZArith Lia.
From stdpp Require Export base numbers list gmap.

Declare Scope npf_scope.
Delimit Scope npf_scope with npf.
Open Scope Z_scope.

(** ** Machine integers

    A C unsigned integer of width [w] is a [Z] in [0, 2^w); every operation
    of the source that can leave that range is followed by an explicit
    [wrap].  [swrap] is the two's-complement reading of the same bits. *)

Definition wrap (w x : Z) : Z := x mod 2 ^ w.
Definition swrap (w x : Z) : Z := (x + 2 ^ (w - 1)) mod 2 ^ w - 2 ^ (w - 1).
Definition inw (w x : Z) : Prop := 0 <= x < 2 ^ w.

Abbreviation u8 := (wrap 8).
Abbreviation u16 := (wrap 16).
Abbreviation u32 := (wrap 32).
Abbreviation u64 := (wrap 64).
Abbreviation s32 := (swrap 32).
Abbreviation s64 := (swrap 64).

Infix "&&&" := Z.land (at level 40, left associativity) : npf_scope.
Infix "|||" := Z.lor (at level 50, left associativity) : npf_scope.
Infix "^^^" := Z.lxor (at level 45, left associativity) : npf_scope.
Infix "<<<" := Z.shiftl (at level 36, left associativity) : npf_scope.
Infix ">>>" := Z.shiftr (at level 36, left associativity) : npf_scope.
Open Scope npf_scope.

(** [flag x m] is the C condition [(x & m) != 0]. *)
Definition flag (x m : Z) : bool := negb (x &&& m =? 0).

(** C's [!x] and the conversion of a comparison to [int]. *)
Definition b2z (b : bool) : Z := if b then 1 else 0.

(** Host byte order is little-endian; [htons]/[ntohs] and [htonl]/[ntohl]
    are byte swaps. *)
Definition bswap16 (x : Z) : Z := ((x &&& 255) <<< 8) ||| (x >>> 8).
Definition bswap32 (x : Z) : Z :=
  ((x &&& 255) <<< 24) ||| (((x >>> 8) &&& 255) <<< 16)
  ||| (((x >>> 16) &&& 255) <<< 8) ||| (x >>> 24).
Abbreviation htons := bswap16.
Abbreviation ntohs := bswap16.
Abbreviation htonl := bswap32.
Abbreviation ntohl := bswap32.

(** ** Error numbers, decisions and packet directions *)

Definition NPF_DECISION_BLOCK : Z := 0.
Definition NPF_DECISION_PASS : Z := 1.

Definition EPERM : Z := 1.
Definition ENOENT : Z := 2.
Definition ESRCH : Z := 3.
Definition ENOMEM : Z := 12.
Definition EBUSY : Z := 16.
Definition EEXIST : Z := 17.
Definition EINVAL : Z := 22.
Definition ENOSPC : Z := 28.
Definition ENAMETOOLONG : Z := 36.
Definition ENOTSUP : Z := 95.
Definition ENETUNREACH : Z := 101.
Definition EISCONN : Z := 106.

Definition PFIL_IN : Z := 1.
Definition PFIL_OUT : Z := 2.
Definition PFIL_ALL : Z := 3.

(** ** Flow direction and the source/destination selector *)

Inductive npf_flow_t := NPF_FLOW_FORW | NPF_FLOW_BACK.

Definition flow_neg (f : npf_flow_t) : npf_flow_t :=
  match f with NPF_FLOW_FORW => NPF_FLOW_BACK | NPF_FLOW_BACK => NPF_FLOW_FORW end.

Definition flow_z (f : npf_flow_t) : Z :=
  match f with NPF_FLOW_FORW => 0 | NPF_FLOW_BACK => 1 end.

#[global] Instance npf_flow_eq_dec : EqDecision npf_flow_t.
Proof. solve_decision. Defined.

Inductive npf_which := NPF_SRC | NPF_DST.

#[global] Instance npf_which_eq_dec : EqDecision npf_which.
Proof. solve_decision. Defined.

(** ** Tactics and hint databases *)

Create HintDb npf.

(** Turn boolean comparisons in the context and the goal into propositions. *)
Ltac bool_to_prop :=
  repeat match goal with
  | H : _ && _ = true |- _ => apply andb_prop in H; destruct H
  | H : _ || _ = false |- _ => apply orb_false_iff in H; destruct H
  | H : negb _ = true |- _ => apply negb_true_iff in H
  | H : negb _ = false |- _ => apply negb_false_iff in H
  | H : (_ =? _) = true |- _ => apply Z.eqb_eq in H
  | H : (_ =? _) = false |- _ => apply Z.eqb_neq in H
  | H : (_ <? _) = true |- _ => apply Z.ltb_lt in H
  | H : (_ <? _) = false |- _ => apply Z.ltb_ge in H
  | H : (_ <=? _) = true |- _ => apply Z.leb_le in H
  | H : (_ <=? _) = false |- _ => apply Z.leb_gt in H
  end.

(** Case analysis on the test of every [if] of the goal. *)
Ltac case_if :=
  match goal with
  | |- context [if ?b then _ else _] =>
      lazymatch type of b with bool => destruct b eqn:? end
  end.

(** Membership in a list written out. *)
Ltac in_list := repeat first [apply list_elem_of_here | apply list_elem_of_further].

Ltac destruct_ands :=
  repeat match goal with H : _ ∧ _ |- _ => destruct H end.

(** ** Generic lemmas on machine integers *)

Lemma wrap_small w x : inw w x → wrap w x = x.
Proof. unfold inw, wrap. intros. by apply Z.mod_small. Qed.

Lemma wrap_range w x : 0 <= w → inw w (wrap w x).
Proof. intros. unfold inw, wrap. apply Z.mod_pos_bound. lia. Qed.

Lemma wrap_wrap w x : wrap w (wrap w x) = wrap w x.
Proof. unfold wrap. apply Zmod_mod. Qed.

Lemma swrap_small w x : 0 < w → - 2 ^ (w - 1) <= x < 2 ^ (w - 1) → swrap w x = x.
Proof.
  intros Hw Hx. unfold swrap.
  assert (2 ^ w = 2 * 2 ^ (w - 1)) as E
    by (rewrite <- Z.pow_succ_r by lia; f_equal; lia).
  rewrite Z.mod_small; lia.
Qed.

Lemma swrap_range w x : 0 < w → - 2 ^ (w - 1) <= swrap w x < 2 ^ (w - 1).
Proof.
  intros Hw. unfold swrap.
  assert (2 ^ w = 2 * 2 ^ (w - 1)) as E
    by (rewrite <- Z.pow_succ_r by lia; f_equal; lia).
  pose proof (Z.mod_pos_bound (x + 2 ^ (w - 1)) (2 ^ w) ltac:(lia)). lia.
Qed.

#[global] Hint Resolve wrap_range : npf.

Lemma land_ones_mod w x : 0 <= w → x &&& (2 ^ w - 1) = x mod 2 ^ w.
Proof. intros. rewrite <- Z.land_ones by done. f_equal. rewrite Z.ones_equiv. lia. Qed.

Lemma land_ffff x : x &&& 65535 = x mod 65536.
Proof. exact (land_ones_mod 16 x ltac:(lia)). Qed.

Lemma land_ff x : x &&& 255 = x mod 256.
Proof. exact (land_ones_mod 8 x ltac:(lia)). Qed.

Lemma shiftr_16 x : x >>> 16 = x / 65536.
Proof. by rewrite Z.shiftr_div_pow2. Qed.

Lemma lnot_ffff x : inw 16 x → Z.lnot x &&& 65535 = 65535 - x.
Proof.
  intros H. unfold inw in H. rewrite land_ffff. unfold Z.lnot.
  symmetry. apply (Z.mod_unique_pos _ _ (-1)); lia.
Qed.

(** Bits above the width of a bounded number are clear. *)
Lemma testbit_inw w x i : inw w x → 0 <= w <= i → Z.testbit x i = false.
Proof.
  intros Hx Hi. rewrite <- (wrap_small w x Hx). unfold wrap.
  apply Z.mod_pow2_bits_high. lia.
Qed.

(** An [or] of two numbers with disjoint bits is their sum. *)
Lemma lor_add_disjoint a b n :
  0 <= n → inw n b → (a <<< n) ||| b = a * 2 ^ n + b.
Proof.
  intros Hn Hb. rewrite <- Z.shiftl_mul_pow2 by lia.
  rewrite <- Z.lxor_lor.
  - symmetry. apply Z.add_nocarry_lxor.
    apply Z.bits_inj'. intros i Hi. rewrite Z.land_spec, Z.bits_0.
    destruct (Z.lt_ge_cases i n).
    + by rewrite Z.shiftl_spec_low.
    + rewrite (testbit_inw n b i) by (done || lia). apply andb_false_r.
  - apply Z.bits_inj'. intros i Hi. rewrite Z.land_spec, Z.bits_0.
    destruct (Z.lt_ge_cases i n).
    + by rewrite Z.shiftl_spec_low.
    + rewrite (testbit_inw n b i) by (done || lia). apply andb_false_r.
Qed.

Lemma inw_lt w x b : 0 <= x < b → b <= 2 ^ w → inw w x.
Proof. unfold inw. lia. Qed.

Lemma bswap16_range x : inw 16 x → inw 16 (bswap16 x).
Proof.
  unfold bswap16. intros Hx. unfold inw in *. rewrite land_ff.
  rewrite lor_add_disjoint; rewrite ?Z.shiftr_div_pow2 by lia; unfold inw;
    change (2 ^ 8) with 256; change (2 ^ 16) with 65536 in *;
    Z.to_euclidean_division_equations; lia.
Qed.

Lemma bswap16_involutive x : inw 16 x → bswap16 (bswap16 x) = x.
Proof.
  intros Hx. unfold bswap16. unfold inw in Hx.
  change (2 ^ 16) with 65536 in Hx.
  rewrite !land_ff, !(Z.shiftr_div_pow2 _ 8) by lia.
  change (2 ^ 8) with 256.
  assert (x / 256 < 256) by (apply Z.div_lt_upper_bound; lia).
  assert (0 <= x / 256) by (apply Z.div_pos; lia).
  rewrite (lor_add_disjoint (x mod 256) (x / 256) 8); [|lia|unfold inw; lia].
  change (2 ^ 8) with 256.
  rewrite (Z.add_comm (_ * 256)), Z.mod_add, (Z.mod_small (x / 256)) by lia.
  rewrite Z.div_add, (Z.div_small (x / 256)) by lia.
  rewrite Z.add_0_l, lor_add_disjoint;
    [change (2 ^ 8) with 256; pose proof (Z.div_mod x 256); lia|lia|].
  unfold inw. apply Z.mod_pos_bound. lia.
Qed.
Lemma byte_testbit x k i : 0 <= k → Z.testbit (((x >>> k) &&& 255) ) i = (0 <=? i) && (i <? 8) && Z.testbit x (i + k).
Proof.
  intros Hk. destruct (0 <=? i) eqn:E; bool_to_prop; simpl.
  2:{ by rewrite Z.testbit_neg_r by lia. }
  rewrite Z.land_spec, Z.shiftr_spec by lia. change 255 with (Z.ones 8).
  rewrite Z.testbit_ones_nonneg by lia. apply andb_comm.
Qed.

Lemma bswap32_testbit x i : inw 32 x → 0 <= i →
  Z.testbit (bswap32 x) i = (i <? 32) && Z.testbit x (24 - 8 * (i / 8) + i mod 8).
Proof.
  intros Hx Hi. unfold bswap32.
  rewrite <- (Z.shiftr_0_r x) at 1.
  replace (x >>> 24) with ((x >>> 24) &&& 255).
  2:{ rewrite land_ff, Z.mod_small; [done|]. unfold inw in Hx.
      rewrite Z.shiftr_div_pow2 by lia. split; [apply Z.div_pos; lia|].
      apply Z.div_lt_upper_bound; lia. }
  rewrite !Z.lor_spec, !Z.shiftl_spec, !byte_testbit by lia.
  assert (i < 8 ∨ 8 <= i < 16 ∨ 16 <= i < 24 ∨ 24 <= i < 32 ∨ 32 <= i) as H by lia.
  pose proof (Z.div_mod i 8 ltac:(lia)). pose proof (Z.mod_pos_bound i 8 ltac:(lia)).
  repeat match goal with |- context [?a <=? ?b] => destruct (Z.leb_spec a b) end;
  repeat match goal with |- context [?a <? ?b] => destruct (Z.ltb_spec a b) end; simpl; try lia;
  rewrite ?orb_false_r; try done; f_equal; lia.
Qed.

Lemma inw_testbit w x :
  0 <= w → 0 <= x → (∀ i, w <= i → Z.testbit x i = false) → inw w x.
Proof.
  intros Hw Hx Hb. assert (wrap w x = x) as <-; [|by apply wrap_range].
  unfold wrap. apply Z.bits_inj'. intros i Hi. destruct (Z.lt_ge_cases i w).
  - by apply Z.mod_pow2_bits_low.
  - rewrite Z.mod_pow2_bits_high by lia. by rewrite Hb.
Qed.

Lemma bswap32_nonneg x : 0 <= x → 0 <= bswap32 x.
Proof.
  intros Hx. unfold bswap32.
  rewrite !Z.lor_nonneg, !Z.shiftl_nonneg, !Z.land_nonneg, !Z.shiftr_nonneg. lia.
Qed.

Lemma bswap32_range x : inw 32 x → inw 32 (bswap32 x).
Proof.
  intros Hx. apply inw_testbit; [lia|apply bswap32_nonneg, Hx|].
  intros i Hi. rewrite bswap32_testbit by (done || lia).
  by rewrite (proj2 (Z.ltb_ge i 32)) by lia.
Qed.

(** Bitwise operations stay within the width. *)
Lemma lor_inw n a b : 0 <= n → inw n a → inw n b → inw n (a ||| b).
Proof.
  intros Hn Ha Hb. apply inw_testbit; [done|apply Z.lor_nonneg; unfold inw in *; lia|].
  intros i Hi. rewrite Z.lor_spec. by rewrite (testbit_inw n a), (testbit_inw n b).
Qed.

Lemma land_inw n a b : 0 <= n → inw n a → inw n b → inw n (a &&& b).
Proof.
  intros Hn Ha Hb. apply inw_testbit; [done|apply Z.land_nonneg; unfold inw in *; lia|].
  intros i Hi. rewrite Z.land_spec. by rewrite (testbit_inw n a).
Qed.

Lemma lxor_inw n a b : 0 <= n → inw n a → inw n b → inw n (a ^^^ b).
Proof.
  intros Hn Ha Hb. apply inw_testbit; [done|apply Z.lxor_nonneg; unfold inw in *; lia|].
  intros i Hi. rewrite Z.lxor_spec. by rewrite (testbit_inw n a), (testbit_inw n b).
Qed.

(** Equality of two bounded numbers from their low bits. *)
Lemma bits_inj_inw w x y :
  inw w x → inw w y → (∀ i, 0 <= i < w → Z.testbit x i = Z.testbit y i) → x = y.
Proof.
  intros Hx Hy Hb. apply Z.bits_inj'. intros i Hi.
  destruct (Z.lt_ge_cases i w); [by apply Hb|].
  assert (0 <= w) by (destruct (Z.lt_ge_cases w 0); [|done];
    unfold inw in Hx; rewrite Z.pow_neg_r in Hx by done; lia).
  by rewrite !(testbit_inw w) by (done || lia).
Qed.

Lemma bswap32_involutive x : inw 32 x → bswap32 (bswap32 x) = x.
Proof.
  intros Hx. apply (bits_inj_inw 32); auto using bswap32_range.
  intros i Hi.
  pose proof (Z.div_mod i 8 ltac:(lia)). pose proof (Z.mod_pos_bound i 8 ltac:(lia)).
  assert (0 <= i / 8 < 4) by (split; [apply Z.div_pos; lia|apply Z.div_lt_upper_bound; lia]).
  rewrite !bswap32_testbit by (auto using bswap32_range; lia).
  rewrite !(proj2 (Z.ltb_lt _ 32)) by lia. simpl. f_equal.
  replace (24 - 8 * (i / 8) + i mod 8) with (i mod 8 + (3 - i / 8) * 8) by lia.
  rewrite Z.div_add, Z.mod_add, Z.div_small, Z.mod_mod by lia. lia.
Qed.

(** A flag of a union. *)
Lemma flag_lor x y m : flag (x ||| y) m = flag x m || flag y m.
Proof.
  unfold flag. rewrite Z.land_lor_distr_l.
  destruct (x &&& m =? 0) eqn:E1, (y &&& m =? 0) eqn:E2; bool_to_prop; simpl;
    [apply negb_false_iff, Z.eqb_eq, Z.lor_eq_0_iff; done| | |];
    apply negb_true_iff, Z.eqb_neq; intros [? ?]%Z.lor_eq_0_iff; done.
Qed.

(** ** Modular arithmetic of wrapped numbers *)

Lemma swrap_mod w x y : x mod 2 ^ w = y mod 2 ^ w → swrap w x = swrap w y.
Proof.
  intros H. unfold swrap. f_equal.
  by rewrite <- Zplus_mod_idemp_l, H, Zplus_mod_idemp_l.
Qed.

Lemma swrap_sub_wrap_l w a b : swrap w (wrap w a - b) = swrap w (a - b).
Proof. apply swrap_mod. unfold wrap. apply Zminus_mod_idemp_l. Qed.

Lemma swrap_sub_wrap_r w a b : swrap w (a - wrap w b) = swrap w (a - b).
Proof. apply swrap_mod. unfold wrap. apply Zminus_mod_idemp_r. Qed.

Lemma wrap_add_wrap_l w a b : wrap w (wrap w a + b) = wrap w (a + b).
Proof. unfold wrap. apply Zplus_mod_idemp_l. Qed.

Lemma wrap_sub_wrap_l w a b : wrap w (wrap w a - b) = wrap w (a - b).
Proof. unfold wrap. apply Zminus_mod_idemp_l. Qed.

Lemma wrap_sub_wrap_r w a b : wrap w (a - wrap w b) = wrap w (a - b).
Proof. unfold wrap. apply Zminus_mod_idemp_r. Qed.

Create HintDb wrap_db.
#[export] Hint Rewrite swrap_sub_wrap_l swrap_sub_wrap_r wrap_add_wrap_l wrap_sub_wrap_l
  wrap_sub_wrap_r : wrap_db.

(** ** Sums over finite maps

    Reference counts are sums over the objects that hold the references. *)

Definition msum {V} (f : V → Z) (m : gmap Z V) : Z := map_fold (λ _ v acc, f v + acc) 0 m.

Section msum.
Context {V : Type} (f : V → Z).

Lemma msum_empty : msum f ∅ = 0.
Proof. apply map_fold_empty. Qed.

Lemma msum_insert_new m k v : m !! k = None → msum f (<[k := v]> m) = f v + msum f m.
Proof. intros Hk. unfold msum. rewrite map_fold_insert_L; [done|intros; lia|done]. Qed.

Lemma msum_delete m k v : m !! k = Some v → msum f (delete k m) = msum f m - f v.
Proof.
  intros Hk. rewrite <- (insert_delete_id m k v Hk) at 2. rewrite msum_insert_new by apply lookup_delete_eq. lia.
Qed.

Lemma msum_insert m k v w : m !! k = Some w → msum f (<[k := v]> m) = msum f m - f w + f v.
Proof.
  intros Hk. rewrite <- insert_delete_eq, msum_insert_new, (msum_delete m k w Hk) by apply lookup_delete_eq. lia.
Qed.

Lemma msum_alter m k g w : m !! k = Some w → msum f (alter g k m) = msum f m - f w + f (g w).
Proof.
  intros Hk. replace (alter g k m) with (<[k := g w]> m) by (symmetry; by apply alter_insert_Some || (apply map_eq; intros i;
    destruct (decide (i = k)) as [->|]; [by rewrite lookup_insert_eq, lookup_alter_eq, Hk|by rewrite lookup_insert_ne, lookup_alter_ne])).
  by apply msum_insert.
Qed.

Lemma msum_nonneg m : (∀ k v, m !! k = Some v → 0 <= f v) → 0 <= msum f m.
Proof.
  induction m as [|k v m Hk IH] using map_ind; intros Hf; [by rewrite msum_empty|].
  rewrite msum_insert_new by done.
  assert (0 <= f v) by (apply (Hf k); by rewrite lookup_insert_eq).
  assert (0 <= msum f m); [|lia]. apply IH. intros k' w Hw. apply (Hf k').
  rewrite lookup_insert_ne; [done|]. intros ->. congruence.
Qed.

(** One term is at most the sum of non-negative terms. *)
Lemma msum_elem m k v : (∀ k v, m !! k = Some v → 0 <= f v) → m !! k = Some v → f v <= msum f m.
Proof.
  intros Hf Hk. assert (0 <= msum f (delete k m)).
  { apply msum_nonneg. intros k' w Hw. apply (Hf k'). by apply lookup_delete_Some in Hw as [_ ?]. }
  rewrite (msum_delete m k v Hk) in *. lia.
Qed.

Lemma msum_le m b : (∀ k v, m !! k = Some v → f v <= b) → msum f m <= b * Z.of_nat (size m).
Proof.
  induction m as [|k v m Hk IH] using map_ind; intros Hf; [rewrite msum_empty, map_size_empty; lia|].
  rewrite msum_insert_new, map_size_insert_None by done.
  assert (f v <= b) by (apply (Hf k); by rewrite lookup_insert_eq).
  assert (msum f m <= b * Z.of_nat (size m)); [|lia]. apply IH. intros k' w Hw. apply (Hf k').
  rewrite lookup_insert_ne; [done|]. intros ->. congruence.
Qed.

Lemma msum_zero m : (∀ k v, m !! k = Some v → f v = 0) → msum f m = 0.
Proof.
  induction m as [|k v m Hk IH] using map_ind; intros Hf; [apply msum_empty|].
  rewrite msum_insert_new, IH, (Hf k v); [done|by rewrite lookup_insert_eq| |done].
  intros k' w Hw. apply (Hf k'). rewrite lookup_insert_ne; [done|]. intros ->. congruence.
Qed.
End msum.

(** A sum depends only on what each key contributes. *)
Lemma msum_omap {V} (f : V → Z) (m : gmap Z V) :
  msum f m = msum id (omap (λ v, if decide (f v = 0) then None else Some (f v)) m).
Proof.
  induction m as [|k v m Hk IH] using map_ind; [by rewrite omap_empty|]. rewrite msum_insert_new, IH by done.
  set (g := λ v, if decide (f v = 0) then None else Some (f v)).
  assert (omap g m !! k = None) as Hg by (by rewrite lookup_omap, Hk). destruct (decide (f v = 0)) as [E|E].
  - rewrite omap_insert_None by (unfold g; by rewrite decide_True). rewrite delete_id by done. lia.
  - rewrite (omap_insert_Some g _ _ _ (f v)) by (unfold g; by rewrite decide_False). by rewrite msum_insert_new by done.
Qed.

Lemma msum_ext {V W} (f : V → Z) (g : W → Z) (m : gmap Z V) (m' : gmap Z W) :
  (∀ k, default 0 (f <$> m !! k) = default 0 (g <$> m' !! k)) → msum f m = msum g m'.
Proof.
  intros H. rewrite (msum_omap f), (msum_omap g). f_equal. apply map_eq. intros k. rewrite !lookup_omap. specialize (H k).
  destruct (m !! k), (m' !! k); simpl in *; repeat case_decide; congruence.
Qed.

(** Deciding a lookup in an updated map. *)
Lemma lookup_insert_if {V} (m : gmap Z V) k v q : <[k := v]> m !! q = if decide (q = k) then Some v else m !! q.
Proof. case_decide as E; [subst; apply lookup_insert_eq|by apply lookup_insert_ne]. Qed.

Lemma lookup_delete_if {V} (m : gmap Z V) k q : delete k m !! q = if decide (q = k) then None else m !! q.
Proof. case_decide as E; [subst; apply lookup_delete_eq|by apply lookup_delete_ne]. Qed.

Lemma lookup_alter_if {V} (m : gmap Z V) g k q : alter g k m !! q = if decide (q = k) then g <$> m !! q else m !! q.
Proof. case_decide as E; [subst; apply lookup_alter_eq|by apply lookup_alter_ne]. Qed.
