(* ===== verification/Nbuf.v ===== *)
(** * Nbuf: the network buffer (src/kern/npf_mbuf.c)

    An [nbuf] is a cursor over a chain of mbufs.  The chain is a list of
    byte lists; the cursor is the index of the current mbuf and an offset
    into it.  The mbuf operations are callbacks supplied by the user of
    npfkern ([npf_mbufops_t] of src/kern/npfkern.h): the two that matter here
    are members of the class [npf_mbufops_t], and what NPF relies on is the
    class [mbufops_laws].  A data pointer is modelled by the offset of the
    byte it points to from the start of the packet. *)

From S2P Require Import Prelude.
Open Scope Z_scope.
Open Scope npf_scope.

Module Nbuf.

Abbreviation mbuf := (list Z).

(** Result of the [ensure_contig] callback: success, whether the head mbuf
    pointer is the one passed in, and the (possibly re-arranged) chain. *)
Record contig_result := {
  cr_ok : bool;
  cr_same : bool;
  cr_chain : list mbuf;
}.

Class npf_mbufops_t := {
  ensure_contig : list mbuf → Z → contig_result;
  get_tag : option (list mbuf → Z * Z);  (* NULL when not provided *)
  (* no callback: the byte at an offset of the old chain, read through a
     pointer that was obtained before the chain was re-arranged *)
  stale_byte : list mbuf → Z → Z;
}.

Record nbuf_t := mk_nbuf {
  nb_mbuf0 : list mbuf;    (* the chain; [] is the NULL head *)
  nb_mbuf : nat;           (* index of the current mbuf *)
  nb_nptr : Z;             (* offset of the data pointer in that mbuf *)
  nb_ifid : Z;
  nb_flags : Z;
}.

Definition NBUF_DATAREF_RESET : Z := 1.
Definition NBUF_ENSURE_ALIGN : Z := 64.
Definition NBUF_ENSURE_ROUNDUP (x : Z) : Z :=
  (x + NBUF_ENSURE_ALIGN) &&& Z.lnot (NBUF_ENSURE_ALIGN - 1).

(** [m_buflen(m)] and [m_length(m)], the latter of a chain suffix. *)
Definition m_buflen (m : mbuf) : Z := Z.of_nat (length m).
Definition m_length (c : list mbuf) : Z := Z.of_nat (length (concat c)).

Arguments m_buflen : simpl never.
Arguments m_length : simpl never.

Definition cur_mbuf (nb : nbuf_t) : mbuf := default [] (nb_mbuf0 nb !! nb_mbuf nb).
Definition packet (nb : nbuf_t) : list Z := concat (nb_mbuf0 nb).

Definition nbuf_reset (nb : nbuf_t) : nbuf_t :=
  mk_nbuf (nb_mbuf0 nb) 0 0 (nb_ifid nb) (nb_flags nb).

(** [nbuf_init]: the interface id comes from [npf_ifmap_getid]. *)
Definition nbuf_init (nb : nbuf_t) (m : list mbuf) (ifid : Z) : nbuf_t :=
  nbuf_reset (mk_nbuf m (nb_mbuf nb) (nb_nptr nb) ifid (nb_flags nb)).

Definition nbuf_datalen (nb : nbuf_t) : Z := m_length (nb_mbuf0 nb).

Definition nbuf_offset (nb : nbuf_t) : Z :=
  let off := u32 (nb_nptr nb) in
  s32 (m_length (nb_mbuf0 nb) - m_length (drop (nb_mbuf nb) (nb_mbuf0 nb)) + off).

Definition nbuf_dataptr (nb : nbuf_t) : Z := nbuf_offset nb.

Definition nbuf_head_mbuf (nb : nbuf_t) : list mbuf := nb_mbuf0 nb.

Definition nbuf_flag_p (nb : nbuf_t) (f : Z) : bool := flag (nb_flags nb) f.

Definition nbuf_unset_flag (nb : nbuf_t) (f : Z) : nbuf_t :=
  mk_nbuf (nb_mbuf0 nb) (nb_mbuf nb) (nb_nptr nb) (nb_ifid nb)
    (nb_flags nb &&& Z.lnot f).

(** The loop of [nbuf_advance]: [next] is the chain after mbuf [i] and
    [wmark] the packet bytes up to the end of that mbuf, counted from the
    start of the mbuf the cursor was in. *)
Fixpoint nbuf_advance_find (next : list mbuf) (i : nat) (wmark off : Z) :
    option (nat * Z) :=
  if wmark <=? off then
    match next with
    | [] => None
    | m :: next' => nbuf_advance_find next' (S i) (u32 (wmark + m_buflen m)) off
    end
  else Some (i, wmark).

Section ops.
Context {M : npf_mbufops_t}.

Definition nbuf_ensure_contig (nb : nbuf_t) (len : Z) : option Z * nbuf_t :=
  let n := cur_mbuf nb in
  let off := nb_nptr nb in
  if m_buflen n <? off + len then
    let m := nb_mbuf0 nb in
    let foff := nbuf_offset nb in
    let plen := m_length m in
    let mlen := m_buflen (default [] (head m)) in
    let target :=
      if plen <? NBUF_ENSURE_ROUNDUP (foff + len) then foff + len
      else NBUF_ENSURE_ROUNDUP (foff + len) in
    let r := ensure_contig m target in
    let m' := cr_chain r in
    if cr_same r && (m_buflen (default [] (head m')) =? mlen) then
      (if cr_ok r then Some (nbuf_dataptr nb) else None, nb)
    else
      let nb' := mk_nbuf m' 0 foff (nb_ifid nb)
                   (nb_flags nb ||| NBUF_DATAREF_RESET) in
      if negb (cr_ok r) then (None, nb') else (Some (nbuf_dataptr nb'), nb')
  else (Some (nbuf_dataptr nb), nb).

(** Does [nbuf_ensure_contig] re-arrange the chain?  Then the pointers into it
    that were obtained before are outdated. *)
Definition nbuf_rearranges (nb : nbuf_t) (len : Z) : bool :=
  let m := nb_mbuf0 nb in
  let foff := nbuf_offset nb in
  let target :=
    if m_length m <? NBUF_ENSURE_ROUNDUP (foff + len) then foff + len
    else NBUF_ENSURE_ROUNDUP (foff + len) in
  let r := ensure_contig m target in
  (m_buflen (cur_mbuf nb) <? nb_nptr nb + len) &&
  negb (cr_same r && (m_buflen (default [] (head (cr_chain r))) =? m_buflen (default [] (head m)))).

Definition nbuf_advance (nb : nbuf_t) (len ensure : Z) : option Z * nbuf_t :=
  let off := u32 (nb_nptr nb + len) in
  let wmark := u32 (m_buflen (cur_mbuf nb)) in
  match nbuf_advance_find (drop (S (nb_mbuf nb)) (nb_mbuf0 nb))
          (nb_mbuf nb) wmark off with
  | None => (None, nb)
  | Some (i, wmark') =>
      let m := default [] (nb_mbuf0 nb !! i) in
      let nb' := mk_nbuf (nb_mbuf0 nb) i (off - (wmark' - m_buflen m))
                   (nb_ifid nb) (nb_flags nb) in
      if ensure =? 0 then (Some (nbuf_dataptr nb'), nb')
      else nbuf_ensure_contig nb' ensure
  end.

(** [nbuf_cksum_barrier] outside the NetBSD kernel: nothing is deferred. *)
Definition nbuf_cksum_barrier (nb : nbuf_t) (di : Z) : bool := false.

(** [nbuf_find_tag] of the standalone build: error number and tag value. *)
Definition nbuf_find_tag (nb : nbuf_t) : Z * Z :=
  match get_tag with
  | None => (ENOTSUP, 0)
  | Some f => f (nb_mbuf0 nb)
  end.

End ops.

(** ** What NPF relies on in the callbacks *)

Class mbufops_laws `{!npf_mbufops_t} := {
  (** Re-arranging keeps the packet's bytes. *)
  ensure_contig_data c t : concat (cr_chain (ensure_contig c t)) = concat c;
  (** The chain never becomes NULL. *)
  ensure_contig_nonnil c t : c ≠ [] → cr_chain (ensure_contig c t) ≠ [];
  (** Success: the first [t] bytes are in the head mbuf. *)
  ensure_contig_ok c t :
    cr_ok (ensure_contig c t) = true →
    ∃ m c', cr_chain (ensure_contig c t) = m :: c' ∧ t <= m_buflen m;
  (** The same head mbuf with the same length: nothing was re-arranged. *)
  ensure_contig_same c t :
    cr_same (ensure_contig c t) = true →
    m_buflen (default [] (head (cr_chain (ensure_contig c t))))
      = m_buflen (default [] (head c)) →
    cr_chain (ensure_contig c t) = c;
  (** Whatever an outdated pointer reads is a byte. *)
  stale_byte_range c o : 0 <= stale_byte c o < 256;
}.

(** A concrete set of callbacks: linearise the chain into one mbuf. *)
Definition linear_mbufops : npf_mbufops_t := {|
  ensure_contig c t :=
    if t <=? m_length c then {| cr_ok := true; cr_same := false; cr_chain := [concat c] |}
    else {| cr_ok := false; cr_same := true; cr_chain := c |};
  get_tag := None;
  stale_byte c o := 0;
|}.

Lemma linear_mbufops_laws : @mbufops_laws linear_mbufops.
Proof.
  split; simpl; [intros c t; destruct (t <=? m_length c) eqn:E; simpl; try done..|lia].
  - apply app_nil_r.
  - intros _. exists (concat c), []. split; [done|]. bool_to_prop. done.
Qed.

(** ** Well-formed cursors *)

(** Packet bytes before the mbuf of index [i]. *)
Definition bytes_before (c : list mbuf) (i : nat) : Z := m_length (take i c).

(** The cursor stands in an mbuf of the chain and inside the packet (after a
    failed [ensure_contig] it may stand past the end of its mbuf), and the
    packet is shorter than 2 GB (the source keeps offsets in [unsigned] and
    [int]). *)
Definition nbuf_wf (nb : nbuf_t) : Prop :=
  (nb_mbuf nb < length (nb_mbuf0 nb))%nat ∧
  0 <= nb_nptr nb <= m_length (drop (nb_mbuf nb) (nb_mbuf0 nb)) ∧
  m_length (nb_mbuf0 nb) < 2 ^ 31.

Lemma m_length_app c d : m_length (c ++ d) = m_length c + m_length d.
Proof. unfold m_length. rewrite concat_app, length_app. lia. Qed.

Lemma m_length_cons m c : m_length (m :: c) = m_buflen m + m_length c.
Proof. unfold m_length, m_buflen. simpl. rewrite length_app. lia. Qed.

Lemma m_length_nonneg c : 0 <= m_length c.
Proof. unfold m_length. lia. Qed.

Lemma m_buflen_nonneg m : 0 <= m_buflen m.
Proof. unfold m_buflen. lia. Qed.

#[global] Hint Resolve m_length_nonneg m_buflen_nonneg : npf.

Lemma m_length_split c i : bytes_before c i + m_length (drop i c) = m_length c.
Proof. unfold bytes_before. by rewrite <- m_length_app, take_drop. Qed.

Lemma bytes_before_S c i m :
  c !! i = Some m → bytes_before c (S i) = bytes_before c i + m_buflen m.
Proof.
  intros H. unfold bytes_before. rewrite (take_S_r _ _ m H), m_length_app.
  rewrite m_length_cons. change (m_length []) with 0. lia.
Qed.

Lemma cur_mbuf_lookup nb :
  (nb_mbuf nb < length (nb_mbuf0 nb))%nat → nb_mbuf0 nb !! nb_mbuf nb = Some (cur_mbuf nb).
Proof.
  intros H. unfold cur_mbuf. by destruct (lookup_lt_is_Some_2 _ _ H) as [m ->].
Qed.

(** The absolute offset of a well-formed cursor. *)
Lemma nbuf_offset_wf nb :
  nbuf_wf nb → nbuf_offset nb = bytes_before (nb_mbuf0 nb) (nb_mbuf nb) + nb_nptr nb
    ∧ 0 <= nbuf_offset nb <= m_length (nb_mbuf0 nb).
Proof.
  intros (Hi & Hp & Hl). unfold nbuf_offset.
  pose proof (m_length_split (nb_mbuf0 nb) (nb_mbuf nb)) as Hs.
  pose proof (m_length_split (nb_mbuf0 nb) (S (nb_mbuf nb))) as Hs'.
  rewrite (bytes_before_S _ _ _ (cur_mbuf_lookup nb Hi)) in Hs'.
  assert (0 <= bytes_before (nb_mbuf0 nb) (nb_mbuf nb)) by (unfold bytes_before; auto with npf).
  pose proof (m_length_nonneg (drop (S (nb_mbuf nb)) (nb_mbuf0 nb))).
  rewrite (wrap_small 32 (nb_nptr nb)) by (unfold inw; lia).
  rewrite swrap_small by lia. lia.
Qed.

(** The search loop: it stops at the mbuf that holds the byte at [off]. *)
Lemma nbuf_advance_find_spec c b off : ∀ next i,
  drop (S i) c = next →
  (i < length c)%nat →
  m_length c < 2 ^ 31 →
  0 <= b <= bytes_before c i →
  b + off >= bytes_before c i →
  match nbuf_advance_find next i (bytes_before c (S i) - b) off with
  | Some (j, w) =>
      (j < length c)%nat ∧ w = bytes_before c (S j) - b ∧
      bytes_before c j <= b + off < bytes_before c (S j)
  | None => m_length c <= b + off
  end.
Proof.
  induction next as [|m next IH]; intros i Hdrop Hi Hlen Hb Hoff; simpl.
  - destruct (_ <=? off) eqn:E; bool_to_prop.
    + rewrite <- (m_length_split c (S i)), Hdrop. change (m_length []) with 0. lia.
    + repeat split; lia.
  - destruct (_ <=? off) eqn:E; bool_to_prop; [|repeat split; lia].
    assert (c !! S i = Some m) as Hm.
    { rewrite <- (Nat.add_0_r (S i)), <- lookup_drop, Hdrop. done. }
    pose proof (bytes_before_S _ _ _ Hm) as HS.
    pose proof (m_length_split c (S (S i))).
    pose proof (m_length_nonneg (drop (S (S i)) c)).
    pose proof (m_buflen_nonneg m).
    replace (u32 (bytes_before c (S i) - b + m_buflen m))
      with (bytes_before c (S (S i)) - b).
    2:{ rewrite wrap_small; [lia|]. unfold inw.
        assert (bytes_before c i <= bytes_before c (S i)); [|lia].
        destruct (lookup_lt_is_Some_2 _ _ Hi) as [x Hx].
        rewrite (bytes_before_S _ _ _ Hx). pose proof (m_buflen_nonneg x). lia. }
    apply IH.
    + replace (S (S i)) with (S i + 1)%nat by lia.
      by rewrite <- drop_drop, Hdrop.
    + apply lookup_lt_Some in Hm. lia.
    + done.
    + assert (bytes_before c i <= bytes_before c (S i)); [|lia].
      destruct (lookup_lt_is_Some_2 _ _ Hi) as [x Hx].
      rewrite (bytes_before_S _ _ _ Hx). pose proof (m_buflen_nonneg x). lia.
    + lia.
Qed.

Section laws.
Context {M : npf_mbufops_t} {ML : mbufops_laws}.

(** The cursor over a chain [c] at absolute offset [o], reading from one mbuf. *)
Definition contig_at (nb : nbuf_t) (o len : Z) : Prop :=
  nbuf_offset nb = o ∧ nb_nptr nb + len <= m_buflen (cur_mbuf nb).

Lemma NBUF_ENSURE_ROUNDUP_ge x : 0 <= x → x <= NBUF_ENSURE_ROUNDUP x.
Proof.
  intros Hx. unfold NBUF_ENSURE_ROUNDUP, NBUF_ENSURE_ALIGN.
  change (64 - 1) with (Z.ones 6).
  rewrite <- Z.ldiff_land, Z.ldiff_ones_r, Z.shiftl_mul_pow2, Z.shiftr_div_pow2 by lia.
  change (2 ^ 6) with 64. Z.to_euclidean_division_equations; lia.
Qed.

(** Length of the head mbuf; it grows with every successful re-arrangement,
    which is what the data-reference flag records. *)
Definition head_len (nb : nbuf_t) : Z := m_buflen (default [] (head (nb_mbuf0 nb))).

Record nbuf_grows (nb nb' : nbuf_t) : Prop := {
  grows_head : head_len nb <= head_len nb';
  grows_flag : nbuf_flag_p nb' NBUF_DATAREF_RESET = true →
    nbuf_flag_p nb NBUF_DATAREF_RESET = true ∨ head_len nb < head_len nb';
  grows_mono : nbuf_flag_p nb NBUF_DATAREF_RESET = true →
    nbuf_flag_p nb' NBUF_DATAREF_RESET = true;
  grows_same : nbuf_flag_p nb' NBUF_DATAREF_RESET = false → nb_mbuf0 nb' = nb_mbuf0 nb;
}.

#[export] Instance nbuf_grows_refl : Reflexive nbuf_grows.
Proof. split; auto; lia. Qed.

#[export] Instance nbuf_grows_trans : Transitive nbuf_grows.
Proof.
  intros a b c [H1 F1 M1 S1] [H2 F2 M2 S2]. split; [lia| |by auto|].
  - intros F. destruct (F2 F) as [Fb|]; [|right; lia]. destruct (F1 Fb); [by left|right; lia].
  - intros F. rewrite S2 by done. apply S1.
    destruct (nbuf_flag_p b NBUF_DATAREF_RESET) eqn:E; [|done]. rewrite M2 in F; done.
Qed.

Lemma flag_set_reset f : flag (f ||| NBUF_DATAREF_RESET) NBUF_DATAREF_RESET = true.
Proof.
  unfold flag, NBUF_DATAREF_RESET. apply negb_true_iff, Z.eqb_neq. intros H.
  apply (f_equal (λ z, Z.testbit z 0)) in H.
  rewrite Z.land_spec, Z.lor_spec, Z.bits_0 in H. simpl in H. by rewrite orb_true_r in H.
Qed.

(** When the requested area is not contiguous, the head mbuf is shorter than
    the end of the area. *)
Lemma not_contig_head nb len :
  nbuf_wf nb → m_buflen (cur_mbuf nb) < nb_nptr nb + len → head_len nb < nbuf_offset nb + len.
Proof.
  intros Hwf Hlt. pose proof (nbuf_offset_wf nb Hwf) as [-> _].
  pose proof Hwf as (Hi & _ & _). unfold head_len, bytes_before, cur_mbuf in *.
  destruct (nb_mbuf0 nb) as [|m c]; [simpl in Hi; lia|]. simpl.
  destruct (nb_mbuf nb) as [|i]; simpl in *.
  - change (m_length []) with 0. lia.
  - rewrite m_length_cons. pose proof (m_length_nonneg (take i c)).
    pose proof (m_buflen_nonneg (default [] (c !! i))). lia.
Qed.

(** The cursor after the chain was replaced by one with the same bytes. *)
Lemma rearranged_wf nb c fl :
  nbuf_wf nb → c ≠ [] → concat c = concat (nb_mbuf0 nb) →
  let nb' := mk_nbuf c 0 (nbuf_offset nb) (nb_ifid nb) fl in
  nbuf_wf nb' ∧ nbuf_offset nb' = nbuf_offset nb.
Proof.
  intros Hwf Hc Hd nb'. pose proof (nbuf_offset_wf nb Hwf) as [_ Hor].
  assert (m_length c = m_length (nb_mbuf0 nb)) as Hl by (unfold m_length; by rewrite Hd).
  assert (nbuf_wf nb') as Hwf'.
  { destruct Hwf as (_ & _ & H31). unfold nbuf_wf. simpl. rewrite drop_0, Hl.
    repeat split; try lia. destruct c; [done|simpl; lia]. }
  split; [done|]. pose proof (nbuf_offset_wf nb' Hwf') as [-> _].
  unfold bytes_before. simpl. rewrite take_0. change (m_length []) with 0. lia.
Qed.

Lemma nbuf_ensure_contig_spec nb len :
  nbuf_wf nb → 0 <= len →
  let '(r, nb') := nbuf_ensure_contig nb len in
  nbuf_wf nb' ∧ packet nb' = packet nb ∧ nbuf_offset nb' = nbuf_offset nb ∧
  nb_ifid nb' = nb_ifid nb ∧
  (∀ o, r = Some o → o = nbuf_offset nb ∧ contig_at nb' o len ∧ nbuf_grows nb nb').
Proof.
  intros Hwf Hlen. unfold nbuf_ensure_contig.
  destruct (m_buflen (cur_mbuf nb) <? nb_nptr nb + len) eqn:Hlt; bool_to_prop.
  2:{ repeat split; try apply Hwf; simplify_eq; auto. done. }
  set (target := if _ <? _ then _ else _).
  pose proof (nbuf_offset_wf nb Hwf) as [_ Hor].
  assert (nbuf_offset nb + len <= target) as Ht.
  { unfold target. case_if; [lia|]. apply NBUF_ENSURE_ROUNDUP_ge. lia. }
  pose proof (not_contig_head nb len Hwf Hlt) as Hhead.
  pose proof (ensure_contig_data (nb_mbuf0 nb) target) as Hd.
  pose proof (ensure_contig_nonnil (nb_mbuf0 nb) target) as Hnn.
  pose proof (ensure_contig_ok (nb_mbuf0 nb) target) as Hok.
  case_if.
  - repeat split; try apply Hwf; try done; destruct (cr_ok _); simplify_eq; auto; exfalso;
      destruct (Hok eq_refl) as (m & c' & Hc & Hm); bool_to_prop; rewrite Hc in *;
      unfold head_len in Hhead; simpl in *; lia.
  - destruct (rearranged_wf nb (cr_chain (ensure_contig (nb_mbuf0 nb) target))
      (nb_flags nb ||| NBUF_DATAREF_RESET) Hwf) as [Hwf' Ho']; auto.
    { apply Hnn. intros E. destruct Hwf as (Hi & _). rewrite E in Hi. simpl in Hi. lia. }
    destruct (cr_ok _); simpl; repeat split; try apply Hwf'; try done; simplify_eq; auto;
      destruct (Hok eq_refl) as (m & c' & Hc & Hm); unfold cur_mbuf, head_len in *;
      unfold nbuf_dataptr; rewrite ?Ho'; simpl; rewrite ?Hc; simpl; try lia;
      unfold nbuf_flag_p; simpl; by rewrite flag_set_reset.
Qed.

Lemma nbuf_advance_step nb len :
  nbuf_wf nb → 0 <= len < 2 ^ 31 →
  let off := u32 (nb_nptr nb + len) in
  match nbuf_advance_find (drop (S (nb_mbuf nb)) (nb_mbuf0 nb)) (nb_mbuf nb)
          (u32 (m_buflen (cur_mbuf nb))) off with
  | None => nbuf_datalen nb <= nbuf_offset nb + len
  | Some (i, w) =>
      let nb' := mk_nbuf (nb_mbuf0 nb) i
                   (off - (w - m_buflen (default [] (nb_mbuf0 nb !! i))))
                   (nb_ifid nb) (nb_flags nb) in
      nbuf_wf nb' ∧ nbuf_offset nb' = nbuf_offset nb + len ∧
      nbuf_offset nb + len < nbuf_datalen nb ∧ nb_nptr nb' <= m_buflen (cur_mbuf nb')
  end.
Proof.
  intros Hwf Hlen off. pose proof (nbuf_offset_wf nb Hwf) as [Ho Hor].
  pose proof Hwf as (Hi & Hp & Hl).
  pose proof (cur_mbuf_lookup nb Hi) as Hcur.
  pose proof (bytes_before_S _ _ _ Hcur) as HS.
  assert (0 <= bytes_before (nb_mbuf0 nb) (nb_mbuf nb)) by (unfold bytes_before; auto with npf).
  pose proof (m_length_split (nb_mbuf0 nb) (nb_mbuf nb)).
  pose proof (m_length_split (nb_mbuf0 nb) (S (nb_mbuf nb))).
  pose proof (m_length_nonneg (drop (S (nb_mbuf nb)) (nb_mbuf0 nb))).
  pose proof (m_buflen_nonneg (cur_mbuf nb)).
  assert (off = nb_nptr nb + len) as Hoff.
  { unfold off. apply wrap_small. unfold inw. lia. }
  pose proof (nbuf_advance_find_spec (nb_mbuf0 nb) (bytes_before (nb_mbuf0 nb) (nb_mbuf nb)) off
    _ _ eq_refl Hi Hl ltac:(lia) ltac:(lia)) as Hf.
  replace (bytes_before _ (S _) - bytes_before _ _) with (u32 (m_buflen (cur_mbuf nb))) in Hf
    by (rewrite wrap_small; [lia|unfold inw; lia]).
  destruct (nbuf_advance_find _ _ _ _) as [[j w]|].
  - destruct Hf as (Hj & Hw & Hr). intros nb'.
    destruct (lookup_lt_is_Some_2 _ _ Hj) as [mj Hmj].
    pose proof (bytes_before_S _ _ _ Hmj) as HSj.
    pose proof (m_length_split (nb_mbuf0 nb) j).
    pose proof (m_length_split (nb_mbuf0 nb) (S j)).
    pose proof (m_length_nonneg (drop (S j) (nb_mbuf0 nb))).
    assert (nbuf_wf nb') as Hwf'.
    { unfold nb', nbuf_wf, cur_mbuf. simpl. rewrite Hmj. simpl. repeat split; try lia. }
    split; [done|]. pose proof (nbuf_offset_wf nb' Hwf') as [Ho' _].
    rewrite Ho'. unfold nbuf_datalen, nb', cur_mbuf. simpl. rewrite Hmj. simpl.
    split; [|split]; lia.
  - unfold nbuf_datalen. lia.
Qed.

(** [nbuf_advance] with no contiguity request moves the cursor exactly
    [len] bytes when that stays inside the packet and fails otherwise; the
    packet itself is never changed. *)
Theorem nbuf_advance_exact nb len :
  nbuf_wf nb → 0 <= len < 2 ^ 31 →
  (nbuf_offset nb + len < nbuf_datalen nb →
     ∃ nb', nbuf_advance nb len 0 = (Some (nbuf_offset nb + len), nb') ∧
       nbuf_wf nb' ∧ nbuf_offset nb' = nbuf_offset nb + len ∧ packet nb' = packet nb) ∧
  (nbuf_datalen nb <= nbuf_offset nb + len → nbuf_advance nb len 0 = (None, nb)).
Proof.
  intros Hwf Hlen. pose proof (nbuf_advance_step nb len Hwf Hlen) as Hs. cbv zeta in Hs.
  unfold nbuf_advance. destruct (nbuf_advance_find _ _ _ _) as [[i w]|].
  - destruct Hs as (Hwf' & Ho & Hlt & _). split; [|lia].
    intros _. simpl. eexists. split; [unfold nbuf_dataptr; by rewrite Ho|]. done.
  - split; [lia|done].
Qed.

(** Contiguous bytes are inside the packet. *)
Lemma contig_in nb o len : nbuf_wf nb → contig_at nb o len → o + len <= nbuf_datalen nb.
Proof.
  intros Hw [Hoff Hc]. pose proof (nbuf_offset_wf nb Hw) as [Ho _].
  unfold nbuf_datalen.
  pose proof (m_length_split (nb_mbuf0 nb) (S (nb_mbuf nb))) as Hs.
  rewrite (bytes_before_S _ _ _ (cur_mbuf_lookup nb (proj1 Hw))) in Hs.
  pose proof (m_length_nonneg (drop (S (nb_mbuf nb)) (nb_mbuf0 nb))). lia.
Qed.

(** [nbuf_advance] on every branch. *)
Lemma nbuf_advance_spec nb len ensure :
  nbuf_wf nb → 0 <= len < 2 ^ 31 → 0 <= ensure →
  let '(r, nb') := nbuf_advance nb len ensure in
  nbuf_wf nb' ∧ packet nb' = packet nb ∧
  match r with
  | Some o => o = nbuf_offset nb + len ∧ o < nbuf_datalen nb ∧ contig_at nb' o ensure ∧
      nbuf_grows nb nb'
  | None => (nb' = nb ∧ nbuf_datalen nb <= nbuf_offset nb + len) ∨
      (0 < ensure ∧ nbuf_offset nb' = nbuf_offset nb + len)
  end.
Proof.
  intros Hwf Hlen Hens. pose proof (nbuf_advance_step nb len Hwf Hlen) as Hs. cbv zeta in Hs.
  unfold nbuf_advance. destruct (nbuf_advance_find _ _ _ _) as [[i w]|].
  2:{ split; [done|]. auto. }
  set (nb1 := mk_nbuf _ _ _ _ _) in *. destruct Hs as (Hwf1 & Ho1 & Hlt & Hn1).
  assert (∀ nb2, nbuf_grows nb1 nb2 → nbuf_grows nb nb2) as Hg by (intros nb2 [? ? ? ?]; by split).
  destruct (ensure =? 0) eqn:E0; bool_to_prop.
  - subst ensure. unfold nbuf_dataptr. rewrite Ho1. split; [done|]. split; [done|].
    split; [done|]. split; [done|]. split; [split; [done|lia]|]. by apply Hg.
  - pose proof (nbuf_ensure_contig_spec nb1 ensure Hwf1 Hens) as Hc.
    destruct (nbuf_ensure_contig nb1 ensure) as [r nb2].
    destruct Hc as (Hw2 & Hp2 & Ho2 & _ & Hr). split; [done|]. split; [done|].
    destruct r as [o|]; [|right; split; [lia|congruence]].
    destruct (Hr o eq_refl) as (-> & Hc & Hgr). rewrite Ho1 in *. auto.
Qed.

(** The bytes from the cursor to the end of its mbuf are the packet's. *)
Lemma cursor_bytes nb n :
  nbuf_wf nb → nb_nptr nb + Z.of_nat n <= m_buflen (cur_mbuf nb) →
  take n (drop (Z.to_nat (nb_nptr nb)) (cur_mbuf nb))
    = take n (drop (Z.to_nat (nbuf_offset nb)) (packet nb)).
Proof.
  intros Hwf Hn. pose proof (nbuf_offset_wf nb Hwf) as [Ho _].
  pose proof Hwf as (Hi & Hp & _). pose proof (cur_mbuf_lookup nb Hi) as Hcur.
  unfold packet. rewrite <- (take_drop_middle _ _ _ Hcur) at 1.
  rewrite concat_app. cbn [concat].
  replace (Z.to_nat (nbuf_offset nb))
    with (length (concat (take (nb_mbuf nb) (nb_mbuf0 nb))) + Z.to_nat (nb_nptr nb))%nat
    by (rewrite Ho; unfold bytes_before, m_length; lia).
  rewrite drop_app_add, drop_app_le by (unfold m_buflen in *; lia).
  rewrite take_app_le; [done|]. rewrite length_drop. unfold m_buflen in *. lia.
Qed.

(** A successful [nbuf_advance] with a contiguity request of [ensure]
    bytes lands [len] bytes ahead; the [ensure] bytes read through the
    returned pointer, all in the current mbuf, are the packet's bytes at that
    offset; the packet is unchanged, and if the data-reference flag is clear
    afterwards the chain was not re-arranged. *)
Theorem nbuf_advance_contig nb len ensure o nb' :
  nbuf_wf nb → 0 <= len < 2 ^ 31 → 0 <= ensure →
  nbuf_advance nb len ensure = (Some o, nb') →
  o = nbuf_offset nb + len ∧ nbuf_wf nb' ∧ packet nb' = packet nb ∧
  o + ensure <= nbuf_datalen nb ∧
  take (Z.to_nat ensure) (drop (Z.to_nat (nb_nptr nb')) (cur_mbuf nb'))
    = take (Z.to_nat ensure) (drop (Z.to_nat o) (packet nb)) ∧
  (nbuf_flag_p nb' NBUF_DATAREF_RESET = false → nb_mbuf0 nb' = nb_mbuf0 nb).
Proof.
  intros Hwf Hlen Hens H.
  pose proof (nbuf_advance_spec nb len ensure Hwf Hlen Hens) as Hs. rewrite H in Hs.
  destruct Hs as (Hwf' & Hp & -> & _ & Hc & Hg).
  pose proof (contig_in _ _ _ Hwf' Hc) as Hin. destruct Hc as [Ho Hc].
  split; [done|]. split; [done|]. split; [done|].
  split; [unfold nbuf_datalen, m_length, packet in *; by rewrite <- Hp|].
  split; [|apply Hg]. rewrite <- Ho, <- Hp. apply cursor_bytes; [done|]. lia.
Qed.

End laws.

(** A packet of five bytes in three mbufs. *)
Definition sample_nbuf : nbuf_t := mk_nbuf [[1; 2]; []; [3; 4; 5]] 0 1 7 0.

Lemma nbuf_advance_exact_witness :
  nbuf_offset sample_nbuf = 1 ∧
  ∃ nb', @nbuf_advance linear_mbufops sample_nbuf 2 0 = (Some 3, nb') ∧ packet nb' = [1; 2; 3; 4; 5].
Proof.
  split; [reflexivity|].
  destruct (@nbuf_advance_exact linear_mbufops sample_nbuf 2) as [H _].
  - repeat split; simpl; unfold m_buflen, m_length; simpl; lia.
  - lia.
  - destruct H as (nb' & H & _ & _ & Hp); [reflexivity|]. exists nb'. split; [exact H|exact Hp].
Defined.

Lemma nbuf_advance_contig_witness :
  let nb' := mk_nbuf [[1; 2; 3; 4; 5]] 0 1 7 1 in
  @nbuf_advance linear_mbufops sample_nbuf 0 4 = (Some 1, nb') ∧
  take 4 (drop (Z.to_nat (nb_nptr nb')) (cur_mbuf nb')) = take 4 (drop 1 (packet sample_nbuf)).
Proof.
  split; [reflexivity|].
  apply (@nbuf_advance_contig linear_mbufops linear_mbufops_laws sample_nbuf 0 4 1).
  - repeat split; simpl; unfold m_buflen, m_length; simpl; lia.
  - lia.
  - lia.
  - reflexivity.
Defined.

End Nbuf.
