(* ===== verification/Cksum.v ===== *)
(** * Cksum: incremental Internet checksum (src/kern/npf_inet.c)

    [npf_fixup16_cksum], [npf_fixup32_cksum] and [npf_addr_cksum], with the
    one's-complement sum of RFC 1071 as the reference they are checked
    against: a packet whose checksum verifies still verifies after a word is
    replaced and the checksum word is fixed up. *)

From S2P Require Import Prelude.
Open Scope Z_scope.
Open Scope npf_scope.

Module Cksum.

(** ** The code *)

Definition npf_fixup16_cksum (cksum odatum ndatum : Z) : Z :=
  let sum := Z.lnot cksum &&& 0xffff in
  let sum := u32 (sum + u32 ((Z.lnot odatum &&& 0xffff) + ndatum)) in
  let sum := u32 ((sum >>> 16) + (sum &&& 0xffff)) in
  let sum := u32 (sum + (sum >>> 16)) in
  u16 (Z.lnot sum &&& 0xffff).

Definition npf_fixup32_cksum (cksum odatum ndatum : Z) : Z :=
  let sum := Z.lnot cksum &&& 0xffff in
  let sum := u32 (sum + u32 ((u32 (Z.lnot odatum) &&& 0xffff) + (ndatum &&& 0xffff))) in
  let sum := u32 (sum + u32 ((u32 (Z.lnot odatum) >>> 16) + (ndatum >>> 16))) in
  let sum := u32 ((sum >>> 16) + (sum &&& 0xffff)) in
  let sum := u32 (sum + (sum >>> 16)) in
  u16 (Z.lnot sum &&& 0xffff).

(** The do/while loop over [sz / 4] words; [sz] is a positive multiple of 4
    (4 or 16), so it runs at least once. *)
Fixpoint addr_cksum_loop (n : nat) (cksum : Z) (oip32 nip32 : list Z) : Z :=
  match n with
  | O => cksum
  | S n' =>
      addr_cksum_loop n'
        (npf_fixup32_cksum cksum (hd 0 oip32) (hd 0 nip32)) (tl oip32) (tl nip32)
  end.

Definition npf_addr_cksum (cksum sz : Z) (oaddr naddr : list Z) : Z :=
  addr_cksum_loop (Z.to_nat (sz / 4)) cksum oaddr naddr.

(** ** The reference: RFC 1071 *)

(** One's-complement addition of 16-bit words (end-around carry). *)
Definition ocadd (a b : Z) : Z := (a + b) mod 65536 + (a + b) / 65536.
Definition ocsum (ws : list Z) : Z := foldl ocadd 0 ws.

(** A range of 16-bit words, checksum field included, verifies. *)
Definition cksum_verifies (ws : list Z) : Prop := ocsum ws = 0xffff.

(** A plain integer sum with the verification condition on it. *)
Definition zsum (ws : list Z) : Z := foldr Z.add 0 ws.
Definition sum_ok (s : Z) : Prop := 0 < s ∧ s mod 65535 = 0.

(** The two 16-bit halves of a 32-bit word, in memory order. *)
Definition halves (x : Z) : list Z := [x mod 65536; x / 65536].

(** ** One's-complement arithmetic *)

Lemma ocadd_range a b : inw 16 a → inw 16 b → inw 16 (ocadd a b).
Proof.
  unfold ocadd, inw. change (2 ^ 16) with 65536. intros.
  Z.to_euclidean_division_equations; lia.
Qed.

(** [rep s] is the 16-bit representative of a sum: 0 only for 0. *)
Definition rep (s : Z) : Z := if s =? 0 then 0 else (s - 1) mod 65535 + 1.

Lemma ocadd_rep s b : 0 <= s → inw 16 b → ocadd (rep s) b = rep (s + b).
Proof.
  unfold ocadd, inw. change (2 ^ 16) with 65536. intros Hs Hb.
  assert (∀ x, 0 <= x < 131071 → x mod 65536 + x / 65536 = rep x) as Hstep.
  { intros x Hx. unfold rep. destruct (x =? 0) eqn:E; bool_to_prop; [by subst|].
    Z.to_euclidean_division_equations; lia. }
  unfold rep at 1 2. destruct (s =? 0) eqn:E; bool_to_prop.
  - subst. rewrite !Z.add_0_l. apply Hstep. lia.
  - pose proof (Z.mod_pos_bound (s - 1) 65535 ltac:(lia)).
    rewrite Hstep by lia. unfold rep.
    replace ((s - 1) mod 65535 + 1 + b =? 0) with false by (symmetry; apply Z.eqb_neq; lia).
    replace (s + b =? 0) with false by (symmetry; apply Z.eqb_neq; lia).
    f_equal. replace ((s - 1) mod 65535 + 1 + b - 1) with ((s - 1) mod 65535 + b) by lia.
    rewrite Zplus_mod_idemp_l. f_equal. lia.
Qed.

Lemma foldl_ocadd_rep ws : ∀ s, 0 <= s → Forall (inw 16) ws →
  foldl ocadd (rep s) ws = rep (s + zsum ws).
Proof.
  induction ws as [|w ws IH]; intros s Hs Hws; simpl.
  - by rewrite Z.add_0_r.
  - apply Forall_cons in Hws as [Hw Hws].
    rewrite ocadd_rep by done. unfold inw in Hw. rewrite IH by (done || lia). f_equal. lia.
Qed.

Lemma zsum_nonneg ws : Forall (inw 16) ws → 0 <= zsum ws.
Proof. induction 1 as [|w ws Hw _ IH]; simpl; unfold inw in *; lia. Qed.

Lemma zsum_app a b : zsum (a ++ b) = zsum a + zsum b.
Proof. induction a; simpl; lia. Qed.

(** Verification only depends on the plain sum of the words. *)
Lemma cksum_verifies_iff ws : Forall (inw 16) ws → cksum_verifies ws ↔ sum_ok (zsum ws).
Proof.
  intros Hws. unfold cksum_verifies, ocsum, sum_ok.
  change (foldl ocadd 0 ws) with (foldl ocadd (rep 0) ws).
  rewrite (foldl_ocadd_rep ws 0) by (done || lia). rewrite Z.add_0_l.
  pose proof (zsum_nonneg ws Hws). unfold rep.
  destruct (zsum ws =? 0) eqn:E; bool_to_prop; [lia|].
  Z.to_euclidean_division_equations; lia.
Qed.

(** ** The fix-up *)

(** Both fix-ups fold a small sum [s] and complement it. *)
Lemma fold_complement s :
  0 < s < 327680 →
  let s1 := u32 ((s >>> 16) + (s &&& 0xffff)) in
  let s2 := u32 (s1 + (s1 >>> 16)) in
  u16 (Z.lnot s2 &&& 0xffff) = 65535 - rep s.
Proof.
  intros Hs. cbv zeta. rewrite !shiftr_16, !land_ffff.
  rewrite (wrap_small 32 (s / 65536 + _)) by (unfold inw; Z.to_euclidean_division_equations; lia).
  set (s1 := s / 65536 + s mod 65536).
  assert (0 <= s1 <= 65540) by (unfold s1; Z.to_euclidean_division_equations; lia).
  rewrite (wrap_small 32) by (unfold inw; Z.to_euclidean_division_equations; lia).
  rewrite wrap_small.
  2:{ unfold inw. change (2 ^ 16) with 65536. apply Z.mod_pos_bound. lia. }
  unfold Z.lnot, rep. replace (s =? 0) with false by (symmetry; apply Z.eqb_neq; lia).
  unfold s1. Z.to_euclidean_division_equations; lia.
Qed.

Lemma npf_fixup16_cksum_rep c o n :
  inw 16 c → inw 16 o → inw 16 n →
  npf_fixup16_cksum c o n = 65535 - rep ((65535 - c) + (65535 - o) + n)
  ∨ (c = 65535 ∧ o = 65535 ∧ n = 0 ∧ npf_fixup16_cksum c o n = 65535).
Proof.
  intros Hc Ho Hn. unfold npf_fixup16_cksum.
  rewrite (lnot_ffff c Hc), (lnot_ffff o Ho). unfold inw in Hc, Ho, Hn.
  change (2 ^ 16) with 65536 in *.
  rewrite (wrap_small 32 (65535 - o + n)) by (unfold inw; lia).
  rewrite (wrap_small 32 (65535 - c + _)) by (unfold inw; lia).
  destruct (decide (c = 65535 ∧ o = 65535 ∧ n = 0)) as [(-> & -> & ->)|].
  - right. repeat split; reflexivity.
  - left. replace (65535 - c + (65535 - o + n)) with (65535 - c + (65535 - o) + n) by lia.
    apply (fold_complement (65535 - c + (65535 - o) + n)). lia.
Qed.

Lemma npf_fixup16_cksum_range c o n : inw 16 (npf_fixup16_cksum c o n).
Proof. apply wrap_range. lia. Qed.

Lemma npf_fixup32_cksum_range c o n : inw 16 (npf_fixup32_cksum c o n).
Proof. apply wrap_range. lia. Qed.

#[global] Hint Resolve npf_fixup16_cksum_range npf_fixup32_cksum_range : npf.

(** The new checksum makes up for the change of the datum, modulo 65535. *)
Lemma npf_fixup16_cksum_mod c o n :
  inw 16 c → inw 16 o → inw 16 n →
  (npf_fixup16_cksum c o n + n) mod 65535 = (c + o) mod 65535.
Proof.
  intros Hc Ho Hn. pose proof (npf_fixup16_cksum_rep c o n Hc Ho Hn) as [->|(-> & -> & -> & ->)].
  - unfold rep, inw in *. change (2 ^ 16) with 65536 in *.
    case_if; bool_to_prop; Z.to_euclidean_division_equations; lia.
  - reflexivity.
Qed.

(** [npf_fixup32_cksum] fixes up the two halves of the datum. *)
Lemma npf_fixup32_cksum_mod c o n :
  inw 16 c → inw 32 o → inw 32 n →
  (npf_fixup32_cksum c o n + zsum (halves n)) mod 65535 = (c + zsum (halves o)) mod 65535.
Proof.
  intros Hc Ho Hn. unfold npf_fixup32_cksum, halves, zsum. simpl foldr.
  rewrite (lnot_ffff c Hc).
  assert (u32 (Z.lnot o) = 4294967295 - o) as Hlo.
  { unfold wrap, Z.lnot, inw in *. change (2 ^ 32) with 4294967296 in *.
    symmetry. apply (Z.mod_unique_pos _ _ (-1)); lia. }
  rewrite Hlo, (shiftr_16 (4294967295 - o)), (shiftr_16 n), (land_ffff (4294967295 - o)),
    (land_ffff n).
  unfold inw in *. change (2 ^ 32) with 4294967296 in *. change (2 ^ 16) with 65536 in *.
  set (a := (4294967295 - o) mod 65536 + n mod 65536).
  set (b := (4294967295 - o) / 65536 + n / 65536).
  assert (0 <= a <= 131070 ∧ 0 <= b <= 131070 ∧
    a = 65535 - o mod 65536 + n mod 65536 ∧ b = 65535 - o / 65536 + n / 65536)
    as (Ha & Hb & Ea & Eb).
  { unfold a, b. Z.to_euclidean_division_equations; lia. }
  rewrite (wrap_small 32 a) by (unfold inw; lia).
  rewrite (wrap_small 32 (65535 - c + a)) by (unfold inw; lia).
  rewrite (wrap_small 32 b) by (unfold inw; lia).
  rewrite (wrap_small 32 (65535 - c + a + b)) by (unfold inw; lia).
  destruct (decide (65535 - c + a + b = 0)) as [E|E].
  - rewrite E. change (u16 _) with 65535.
    assert (0 <= o mod 65536 < 65536) by (apply Z.mod_pos_bound; lia).
    assert (0 <= n mod 65536 < 65536) by (apply Z.mod_pos_bound; lia).
    assert (0 <= n / 65536) by (apply Z.div_pos; lia).
    assert (o / 65536 < 65536) by (apply Z.div_lt_upper_bound; lia).
    assert (c = 65535 ∧ o mod 65536 = 65535 ∧ n mod 65536 = 0 ∧ n / 65536 = 0 ∧ o / 65536 = 65535)
      as (-> & -> & -> & -> & ->) by lia. reflexivity.
  - rewrite fold_complement by lia. unfold rep.
    replace (65535 - c + a + b =? 0) with false by (symmetry; apply Z.eqb_neq; lia).
    rewrite Ea, Eb. Z.to_euclidean_division_equations; lia.
Qed.
(** ** Replacing words under a fixed-up checksum *)

Lemma sum_ok_mod a b : sum_ok a → 0 < b → b mod 65535 = a mod 65535 → sum_ok b.
Proof. unfold sum_ok. intros [_ H] Hb E. split; [done|congruence]. Qed.

Lemma zsum_pos ws : Forall (inw 16) ws → Exists (λ w, w ≠ 0) ws → 0 < zsum ws.
Proof.
  intros Hf He. induction He as [w ws Hw|w ws He IH];
    apply Forall_cons in Hf as [Hw' Hws]; simpl; unfold inw in *.
  - pose proof (zsum_nonneg ws Hws). lia.
  - specialize (IH Hws). lia.
Qed.

(** The common shape of the fix-ups: [c'] makes up for replacing the words
    [os] by [ns] somewhere after the checksum word. *)
Lemma cksum_verifies_replace c c' os ns ws1 ws2 :
  Forall (inw 16) (c :: ws1 ++ os ++ ws2) → Forall (inw 16) (c' :: ns) →
  (c' + zsum ns) mod 65535 = (c + zsum os) mod 65535 →
  Exists (λ w, w ≠ 0) (ws1 ++ ns ++ ws2) →
  cksum_verifies (c :: ws1 ++ os ++ ws2) → cksum_verifies (c' :: ws1 ++ ns ++ ws2).
Proof.
  intros Hall Hnew Hmod Hex Hv. pose proof Hall as Hall'.
  rewrite Forall_cons, !Forall_app in Hall. destruct Hall as (Hc & H1 & Ho & H2).
  apply Forall_cons in Hnew as [Hc' Hn].
  assert (Forall (inw 16) (ws1 ++ ns ++ ws2)) as Hf by (rewrite !Forall_app; auto).
  apply cksum_verifies_iff in Hv; [|done].
  apply cksum_verifies_iff; [by constructor|].
  pose proof (zsum_pos _ Hf Hex) as Hpos. unfold inw in Hc'.
  eapply sum_ok_mod; [exact Hv|simpl; lia|]. simpl. rewrite !zsum_app.
  replace (c' + (zsum ws1 + (zsum ns + zsum ws2)))
    with ((c' + zsum ns) + (zsum ws1 + zsum ws2)) by lia.
  replace (c + (zsum ws1 + (zsum os + zsum ws2)))
    with ((c + zsum os) + (zsum ws1 + zsum ws2)) by lia.
  rewrite <- (Zplus_mod_idemp_l (c' + _)), Hmod, Zplus_mod_idemp_l. done.
Qed.

(** Replacing any 16-bit word covered by a checksum that verifies, and
    fixing the checksum up with [npf_fixup16_cksum], leaves a range that
    verifies, unless every covered word is now zero. *)
Theorem npf_fixup16_cksum_verifies c o n ws1 ws2 :
  Forall (inw 16) (c :: ws1 ++ o :: ws2) → inw 16 n →
  Exists (λ w, w ≠ 0) (ws1 ++ n :: ws2) →
  cksum_verifies (c :: ws1 ++ o :: ws2) →
  cksum_verifies (npf_fixup16_cksum c o n :: ws1 ++ n :: ws2).
Proof.
  intros Hall Hn Hex. pose proof Hall as Hall'.
  rewrite Forall_cons, Forall_app, Forall_cons in Hall'. destruct Hall' as (Hc & _ & Ho & _).
  apply (cksum_verifies_replace c _ [o] [n]); auto with npf.
  simpl. rewrite !Z.add_0_r. by apply npf_fixup16_cksum_mod.
Qed.

(** The words of an address as 16-bit checksum words. *)
Definition addr_halves (a : list Z) : list Z := concat (halves <$> a).

Arguments addr_halves : simpl never.
Arguments halves : simpl never.

Lemma halves_range x : inw 32 x → Forall (inw 16) (halves x).
Proof.
  unfold inw, halves. change (2 ^ 32) with 4294967296. change (2 ^ 16) with 65536. intros H.
  repeat constructor; try apply Z.mod_pos_bound; try apply Z.div_pos;
    try apply Z.div_lt_upper_bound; lia.
Qed.

Lemma addr_halves_range a : Forall (inw 32) a → Forall (inw 16) (addr_halves a).
Proof.
  induction 1 as [|x a Hx _ IH]; [constructor|].
  change (addr_halves (x :: a)) with (halves x ++ addr_halves a).
  apply Forall_app. split; [by apply halves_range|exact IH].
Qed.

Lemma addr_cksum_loop_range n : ∀ c o a, inw 16 c → inw 16 (addr_cksum_loop n c o a).
Proof. induction n as [|n IH]; intros; simpl; auto with npf. Qed.

Lemma addr_cksum_loop_mod o : ∀ a c,
  length o = length a → inw 16 c → Forall (inw 32) o → Forall (inw 32) a →
  (addr_cksum_loop (length o) c o a + zsum (addr_halves a)) mod 65535
    = (c + zsum (addr_halves o)) mod 65535.
Proof.
  induction o as [|x o IH]; intros [|y a] c Hl Hc Ho Ha; [done..|].
  apply Forall_cons in Ho as [Hx Ho]. apply Forall_cons in Ha as [Hy Ha].
  injection Hl as Hl.
  change (addr_halves (y :: a)) with (halves y ++ addr_halves a).
  change (addr_halves (x :: o)) with (halves x ++ addr_halves o).
  rewrite !zsum_app. cbn [length addr_cksum_loop hd tl].
  assert (∀ p q r : Z, p + (q + r) = (p + r) + q) as Hsh by (intros; lia).
  rewrite Hsh, <- Zplus_mod_idemp_l, IH by auto with npf.
  rewrite Zplus_mod_idemp_l, <- Z.add_assoc, (Z.add_comm (zsum _)), Z.add_assoc.
  rewrite <- Zplus_mod_idemp_l, npf_fixup32_cksum_mod, Zplus_mod_idemp_l by done.
  f_equal. lia.
Qed.

(** Rewriting an address (IPv4: one 32-bit word, IPv6: four) inside a
    range that verifies and fixing the checksum up with [npf_addr_cksum]
    leaves a range that verifies, unless every covered word is now zero. *)
Theorem npf_addr_cksum_verifies c sz oaddr naddr ws1 ws2 :
  sz = 4 * Z.of_nat (length oaddr) → length naddr = length oaddr →
  Forall (inw 32) oaddr → Forall (inw 32) naddr →
  Forall (inw 16) (c :: ws1 ++ ws2) →
  Exists (λ w, w ≠ 0) (ws1 ++ addr_halves naddr ++ ws2) →
  cksum_verifies (c :: ws1 ++ addr_halves oaddr ++ ws2) →
  cksum_verifies (npf_addr_cksum c sz oaddr naddr :: ws1 ++ addr_halves naddr ++ ws2).
Proof.
  intros -> Hl Ho Hn Hall. rewrite Forall_cons, Forall_app in Hall. destruct Hall as (Hc & H1 & H2).
  unfold npf_addr_cksum. rewrite Z.mul_comm, Z.div_mul, Nat2Z.id by lia.
  apply cksum_verifies_replace.
  - constructor; [done|]. rewrite !Forall_app. auto using addr_halves_range.
  - constructor; [by apply addr_cksum_loop_range|by apply addr_halves_range].
  - by apply addr_cksum_loop_mod.
Qed.

Lemma npf_fixup16_cksum_verifies_witness :
  cksum_verifies (npf_fixup16_cksum 0x8c6d 0x1234 0xbeef :: [0x4500; 0x1c2e] ++ 0xbeef :: [0x0030]).
Proof.
  apply npf_fixup16_cksum_verifies.
  - repeat constructor; unfold inw; lia.
  - unfold inw; lia.
  - simpl. constructor. lia.
  - reflexivity.
Defined.

Lemma npf_addr_cksum_verifies_witness :
  cksum_verifies (npf_addr_cksum 0xc0c7 4 [0x0100a8c0] [0x0a0a0a0a]
    :: [0x0045] ++ addr_halves [0x0a0a0a0a] ++ [0x9532]).
Proof.
  apply (npf_addr_cksum_verifies 0xc0c7 4 [0x0100a8c0] [0x0a0a0a0a] [0x0045] [0x9532]).
  - reflexivity.
  - reflexivity.
  - repeat constructor; unfold inw; lia.
  - repeat constructor; unfold inw; lia.
  - repeat constructor; unfold inw; lia.
  - simpl. constructor. lia.
  - vm_compute. reflexivity.
Defined.

End Cksum.
