(* ===== verification/Addr.v ===== *)
(** * Addr: addresses and netmasks (src/kern/npf_inet.c)

    An [npf_addr_t] is the list of its 32-bit words as a little-endian host
    loads them from the packet (one word used for IPv4, four for IPv6).  The
    reference is the address read as one big-endian integer, split by a
    prefix length into its network and its host part. *)

From S2P Require Import Prelude.
Open Scope Z_scope.
Open Scope npf_scope.

Module Addr.

Abbreviation npf_addr_t := (list Z).

Definition NPF_NO_NETMASK : Z := 255.
Definition NPF_MAX_NETMASK : Z := 128.

(** ** The code *)

Fixpoint addr_mix_loop (n : nat) (mix : Z) (a1 a2 : npf_addr_t) : Z :=
  match n with
  | O => mix
  | S n' => addr_mix_loop n' ((mix ^^^ hd 0 a1) ^^^ hd 0 a2) (tl a1) (tl a2)
  end.

Definition npf_addr_mix (alen : Z) (a1 a2 : npf_addr_t) : Z :=
  addr_mix_loop (Z.to_nat (alen >>> 2)) 0 a1 a2.

(** The word mask of one step of the mask loops and the remaining length. *)
Definition next_wordmask (length : Z) : Z * Z :=
  if 32 <=? length then (htonl 0xffffffff, length - 32)
  else if negb (length =? 0) then (htonl (u32 (0xffffffff <<< (32 - length))), 0)
  else (0, length).

Fixpoint addr_mask_loop (n : nat) (addr : npf_addr_t) (length : Z) (out : npf_addr_t) :
    npf_addr_t :=
  match n with
  | O => out
  | S n' =>
      let '(wordmask, length') := next_wordmask length in
      (hd 0 addr &&& wordmask) :: addr_mask_loop n' (tl addr) length' (tl out)
  end.

Definition npf_addr_mask (addr : npf_addr_t) (mask alen : Z) (out : npf_addr_t) : npf_addr_t :=
  addr_mask_loop (Z.to_nat (alen >>> 2)) addr mask out.

Fixpoint addr_bitor_loop (n : nat) (addr : npf_addr_t) (length : Z) (out : npf_addr_t) :
    npf_addr_t :=
  match n with
  | O => out
  | S n' =>
      let '(wordmask, length') := next_wordmask length in
      (hd 0 out ||| (hd 0 addr &&& u32 (Z.lnot wordmask)))
        :: addr_bitor_loop n' (tl addr) length' (tl out)
  end.

Definition npf_addr_bitor (addr : npf_addr_t) (mask alen : Z) (out : npf_addr_t) : npf_addr_t :=
  addr_bitor_loop (Z.to_nat (alen >>> 2)) addr mask out.

(** The bytes of a word in memory order, and [memcmp] (its sign). *)
Definition word_bytes (w : Z) : list Z :=
  [w &&& 255; (w >>> 8) &&& 255; (w >>> 16) &&& 255; (w >>> 24) &&& 255].

Fixpoint memcmp (a b : list Z) : Z :=
  match a, b with
  | x :: a', y :: b' => if x <? y then -1 else if y <? x then 1 else memcmp a' b'
  | _, _ => 0
  end.

Definition addr_bytes (alen : Z) (a : npf_addr_t) : list Z :=
  take (Z.to_nat alen) (concat (word_bytes <$> a)).

Definition npf_addr_cmp (addr1 : npf_addr_t) (mask1 : Z) (addr2 : npf_addr_t) (mask2 alen : Z) : Z :=
  let addr1 := if negb (mask1 =? NPF_NO_NETMASK)
    then npf_addr_mask addr1 mask1 alen [0; 0; 0; 0] else addr1 in
  let addr2 := if negb (mask2 =? NPF_NO_NETMASK)
    then npf_addr_mask addr2 mask2 alen [0; 0; 0; 0] else addr2 in
  memcmp (addr_bytes alen addr1) (addr_bytes alen addr2).

Definition npf_netmask_check (alen mask : Z) : Z :=
  if alen =? 4 then
    if (32 <? mask) && negb (mask =? NPF_NO_NETMASK) then EINVAL else 0
  else if alen =? 16 then
    if (128 <? mask) && negb (mask =? NPF_NO_NETMASK) then EINVAL else 0
  else EINVAL.

(** ** The reference *)

(** The address as a big-endian integer. *)
Fixpoint addr_int (ws : npf_addr_t) : Z :=
  match ws with
  | [] => 0
  | w :: ws' => ntohl w * 2 ^ (32 * Z.of_nat (length ws')) + addr_int ws'
  end.

(** Network and host part of a [W]-bit integer under a prefix length. *)
Definition net_part (W len x : Z) : Z := x / 2 ^ (W - len) * 2 ^ (W - len).
Definition host_part (W len x : Z) : Z := x mod 2 ^ (W - len).

(** A well-formed address of [n] words. *)
Definition addr_wf (n : nat) (a : npf_addr_t) : Prop := length a = n ∧ Forall (inw 32) a.

Lemma addr_wf_cons n w a : addr_wf (S n) (w :: a) ↔ inw 32 w ∧ addr_wf n a.
Proof. unfold addr_wf. rewrite Forall_cons. simpl. split; intros; destruct_ands; auto. Qed.

Lemma addr_int_range n a : addr_wf n a → inw (32 * Z.of_nat n) (addr_int a).
Proof.
  revert n. induction a as [|w a IH]; intros n [Hl Hf]; simpl in Hl; subst n.
  - unfold inw. simpl. lia.
  - apply Forall_cons in Hf as [Hw Hf]. specialize (IH (length a) (conj eq_refl Hf)).
    pose proof (bswap32_range w Hw) as Hb. unfold inw in *. simpl addr_int.
    rewrite Nat2Z.inj_succ. set (N := 32 * Z.of_nat (length a)) in *.
    replace (32 * Z.succ (Z.of_nat (length a))) with (32 + N) by lia.
    rewrite Z.pow_add_r by lia. nia.
Qed.

(** ** Byte swapping commutes with the bitwise operations *)

Lemma bit_index i : 0 <= i < 32 → 0 <= 24 - 8 * (i / 8) + i mod 8 < 32.
Proof. intros. Z.to_euclidean_division_equations; lia. Qed.

Lemma u32_lnot_testbit x i : 0 <= i < 32 → Z.testbit (u32 (Z.lnot x)) i = negb (Z.testbit x i).
Proof. intros. unfold wrap. rewrite Z.mod_pow2_bits_low, Z.lnot_spec by lia. done. Qed.

Ltac bswap_bits :=
  intros; apply (bits_inj_inw 32);
  [ auto using bswap32_range with npf ..
  | let i := fresh "i" in let Hi := fresh "Hi" in
    intros i Hi; pose proof (bit_index i Hi);
    repeat first [rewrite bswap32_testbit by (auto with npf; lia) | rewrite Z.land_spec
      | rewrite Z.lor_spec | rewrite u32_lnot_testbit by lia];
    rewrite ?(proj2 (Z.ltb_lt i 32)) by lia; try done ].

Lemma land_range w x y : 0 <= w → inw w x → inw w y → inw w (x &&& y).
Proof.
  intros Hw Hx Hy. apply inw_testbit; [done|apply Z.land_nonneg; left; apply Hx|].
  intros i Hi. by rewrite Z.land_spec, (testbit_inw w) by (done || lia).
Qed.

Lemma lor_range w x y : 0 <= w → inw w x → inw w y → inw w (x ||| y).
Proof.
  intros Hw Hx Hy. apply inw_testbit; [done|apply Z.lor_nonneg; split; [apply Hx|apply Hy]|].
  intros i Hi. by rewrite Z.lor_spec, !(testbit_inw w) by (done || lia).
Qed.

#[local] Hint Extern 1 (inw _ (_ &&& _)) => apply land_range; [lia| |] : npf.
#[local] Hint Extern 1 (inw _ (_ ||| _)) => apply lor_range; [lia| |] : npf.
#[local] Hint Extern 1 (inw _ (wrap _ _)) => apply wrap_range; lia : npf.
#[local] Hint Resolve bswap32_range : npf.

Lemma bswap32_land x y : inw 32 x → inw 32 y → bswap32 (x &&& y) = bswap32 x &&& bswap32 y.
Proof. bswap_bits. Qed.

Lemma bswap32_lor x y : inw 32 x → inw 32 y → bswap32 (x ||| y) = bswap32 x ||| bswap32 y.
Proof. bswap_bits. Qed.

Lemma bswap32_lnot x : inw 32 x → bswap32 (u32 (Z.lnot x)) = u32 (Z.lnot (bswap32 x)).
Proof. bswap_bits. Qed.
(** ** The mask of one word *)

Lemma next_wordmask_range l : inw 32 (fst (next_wordmask l)).
Proof. unfold next_wordmask. repeat case_if; simpl; auto with npf; by unfold inw. Qed.

#[local] Hint Resolve next_wordmask_range : npf.

(** Bits of the mask in host order: the top [min length 32] bits are set. *)
Lemma next_wordmask_bits l i :
  0 <= l → 0 <= i < 32 → Z.testbit (ntohl (fst (next_wordmask l))) i = (32 - l <=? i).
Proof.
  intros Hl Hi. unfold next_wordmask. repeat case_if; bool_to_prop; simpl fst.
  - change (ntohl (htonl 0xffffffff)) with (Z.ones 32). rewrite Z.ones_spec_low by lia.
    symmetry. apply Z.leb_le. lia.
  - rewrite bswap32_involutive by auto with npf. unfold wrap.
    rewrite Z.mod_pow2_bits_low by lia. destruct (32 - l <=? i) eqn:E; bool_to_prop.
    + rewrite Z.shiftl_spec by lia. change 0xffffffff with (Z.ones 32).
      apply Z.ones_spec_low. lia.
    + apply Z.shiftl_spec_low. lia.
  - subst l. change (ntohl 0) with 0. rewrite Z.bits_0. symmetry. apply Z.leb_gt. lia.
Qed.

Lemma next_wordmask_rest l : 0 <= l → snd (next_wordmask l) = Z.max 0 (l - 32).
Proof. intros. unfold next_wordmask. repeat case_if; bool_to_prop; simpl; lia. Qed.

Lemma net_part_bits W l x i :
  0 <= l → l <= W → 0 <= i → Z.testbit (net_part W l x) i = (W - l <=? i) && Z.testbit x i.
Proof.
  intros Hl HW Hi. unfold net_part.
  rewrite <- Z.shiftr_div_pow2, <- Z.shiftl_mul_pow2 by lia.
  destruct (W - l <=? i) eqn:E; bool_to_prop; simpl.
  - rewrite Z.shiftl_spec, Z.shiftr_spec by lia. f_equal. lia.
  - apply Z.shiftl_spec_low. lia.
Qed.

Lemma host_part_bits W l x i :
  0 <= l → l <= W → 0 <= i → Z.testbit (host_part W l x) i = (i <? W - l) && Z.testbit x i.
Proof.
  intros Hl HW Hi. unfold host_part. destruct (i <? W - l) eqn:E; bool_to_prop; simpl.
  - apply Z.mod_pow2_bits_low. lia.
  - apply Z.mod_pow2_bits_high. lia.
Qed.

Lemma net_part_range W l w x : l <= W → inw w x → inw w (net_part W l x).
Proof.
  unfold inw, net_part. intros Hl Hx.
  assert (0 < 2 ^ (W - l)) by (apply Z.pow_pos_nonneg; lia).
  pose proof (Z.mul_div_le x (2 ^ (W - l)) ltac:(done)).
  assert (0 <= x / 2 ^ (W - l)) by (apply Z.div_pos; lia). nia.
Qed.

Lemma host_part_range W l w x : l <= W → inw w x → inw w (host_part W l x).
Proof.
  unfold inw, host_part. intros Hl Hx.
  assert (0 < 2 ^ (W - l)) by (apply Z.pow_pos_nonneg; lia).
  pose proof (Z.mod_le x (2 ^ (W - l)) ltac:(lia) ltac:(done)).
  pose proof (Z.mod_pos_bound x (2 ^ (W - l)) ltac:(done)). lia.
Qed.

(** Masking a word keeps, and masking with the complement drops, its top bits. *)
Lemma word_net w l : inw 32 w → 0 <= l →
  ntohl (w &&& fst (next_wordmask l)) = net_part 32 (Z.min l 32) (ntohl w).
Proof.
  intros Hw Hl. rewrite bswap32_land by auto with npf.
  apply (bits_inj_inw 32); auto with npf.
  - apply net_part_range; auto with npf; lia.
  - intros i Hi. rewrite Z.land_spec, next_wordmask_bits, net_part_bits, andb_comm by lia.
    f_equal. apply eq_true_iff_eq. rewrite !Z.leb_le. lia.
Qed.

Lemma word_host w l : inw 32 w → 0 <= l →
  ntohl (w &&& u32 (Z.lnot (fst (next_wordmask l)))) = host_part 32 (Z.min l 32) (ntohl w).
Proof.
  intros Hw Hl. rewrite bswap32_land, bswap32_lnot by auto with npf.
  apply (bits_inj_inw 32); auto with npf.
  - apply host_part_range; auto with npf; lia.
  - intros i Hi. rewrite Z.land_spec, u32_lnot_testbit, next_wordmask_bits, host_part_bits,
      andb_comm by lia.
    f_equal. apply eq_true_iff_eq. rewrite negb_true_iff, Z.ltb_lt, Z.leb_gt. lia.
Qed.

(** ** Parts of an integer made of a head word and a tail *)

Lemma net_part_cons N l h r : 0 <= l → l <= 32 + N → 0 <= N → inw 32 h → inw N r →
  net_part (32 + N) l (h * 2 ^ N + r)
    = net_part 32 (Z.min l 32) h * 2 ^ N + net_part N (Z.max 0 (l - 32)) r.
Proof.
  intros Hl HlN HN Hh Hr. unfold net_part, inw in *.
  destruct (Z.le_gt_cases 32 l).
  - rewrite Z.min_r, Z.max_r, Z.sub_diag, Z.pow_0_r, Z.div_1_r, Z.mul_1_r by lia.
    replace (32 + N - l) with (N - (l - 32)) by lia. set (k := N - (l - 32)).
    replace (2 ^ N) with (2 ^ (l - 32) * 2 ^ k) by (rewrite <- Z.pow_add_r by lia; f_equal; lia).
    rewrite Z.mul_assoc, Z.div_add_l by (apply Z.pow_nonzero; lia). lia.
  - rewrite Z.min_l, Z.max_l, Z.sub_0_r by lia.
    rewrite (Z.div_small r) by lia. rewrite Z.mul_0_l, Z.add_0_r.
    replace (32 + N - l) with (N + (32 - l)) by lia. rewrite Z.pow_add_r by lia.
    rewrite <- Z.div_div, Z.div_add_l by (try apply Z.pow_nonzero; try apply Z.pow_pos_nonneg; lia).
    rewrite (Z.div_small r) by lia. rewrite Z.add_0_r. ring.
Qed.

Lemma host_part_cons N l h r : 0 <= l → l <= 32 + N → 0 <= N → inw 32 h → inw N r →
  host_part (32 + N) l (h * 2 ^ N + r)
    = host_part 32 (Z.min l 32) h * 2 ^ N + host_part N (Z.max 0 (l - 32)) r.
Proof.
  intros Hl HlN HN Hh Hr. unfold host_part.
  pose proof (net_part_cons N l h r Hl HlN HN Hh Hr) as H. unfold net_part in H.
  rewrite !Z.mod_eq by (apply Z.pow_nonzero; lia). lia.
Qed.

Lemma lor_cons N a b r s : 0 <= N → inw N r → inw N s →
  (a * 2 ^ N + r) ||| (b * 2 ^ N + s) = (a ||| b) * 2 ^ N + (r ||| s).
Proof.
  intros HN Hr Hs.
  rewrite <- !lor_add_disjoint by (done || apply lor_range; done).
  rewrite Z.shiftl_lor, !Z.lor_assoc. f_equal.
  rewrite <- !Z.lor_assoc. f_equal. apply Z.lor_comm.
Qed.

(** ** The address loops *)

Lemma next_wordmask_eq l : 0 <= l →
  next_wordmask l = (fst (next_wordmask l), Z.max 0 (l - 32)).
Proof. intros. rewrite <- next_wordmask_rest by done. by destruct (next_wordmask l). Qed.

Lemma addr_mask_loop_spec n : ∀ addr l out,
  addr_wf n addr → length out = n → 0 <= l <= 32 * Z.of_nat n →
  addr_wf n (addr_mask_loop n addr l out) ∧
  addr_int (addr_mask_loop n addr l out) = net_part (32 * Z.of_nat n) l (addr_int addr).
Proof.
  induction n as [|n IH]; intros addr l out Ha Ho Hl.
  - destruct addr; [|by destruct Ha]. destruct out; [|done].
    split; [by split|]. unfold net_part. by rewrite Z.div_0_l by (apply Z.pow_nonzero; lia).
  - destruct addr as [|w addr]; [by destruct Ha|]. destruct out as [|o out]; [done|].
    apply addr_wf_cons in Ha as [Hw Ha]. injection Ho as Ho. cbn [addr_mask_loop hd tl].
    rewrite next_wordmask_eq by lia.
    destruct (IH addr (Z.max 0 (l - 32)) out Ha Ho ltac:(lia)) as [Hwf Hint].
    split; [apply addr_wf_cons; auto with npf|].
    cbn [addr_int]. rewrite (proj1 Hwf), (proj1 Ha), Hint, word_net by (done || lia).
    replace (32 * Z.of_nat (S n)) with (32 + 32 * Z.of_nat n) by lia.
    rewrite net_part_cons; auto using bswap32_range, addr_int_range; lia.
Qed.

Lemma addr_bitor_loop_spec n : ∀ addr l out,
  addr_wf n addr → addr_wf n out → 0 <= l <= 32 * Z.of_nat n →
  addr_wf n (addr_bitor_loop n addr l out) ∧
  addr_int (addr_bitor_loop n addr l out)
    = addr_int out ||| host_part (32 * Z.of_nat n) l (addr_int addr).
Proof.
  induction n as [|n IH]; intros addr l out Ha Ho Hl.
  - destruct addr; [|by destruct Ha]. destruct out; [|by destruct Ho].
    split; [by split|]. unfold host_part. by rewrite Z.mod_0_l by (apply Z.pow_nonzero; lia).
  - destruct addr as [|w addr]; [by destruct Ha|]. destruct out as [|o out]; [by destruct Ho|].
    apply addr_wf_cons in Ha as [Hw Ha]. apply addr_wf_cons in Ho as [Hwo Ho].
    cbn [addr_bitor_loop hd tl]. rewrite next_wordmask_eq by lia.
    destruct (IH addr (Z.max 0 (l - 32)) out Ha Ho ltac:(lia)) as [Hwf Hint].
    split; [apply addr_wf_cons; split; [|done]; auto with npf|].
    cbn [addr_int].
    rewrite (proj1 Hwf), (proj1 Ha), (proj1 Ho), Hint, bswap32_lor, word_host
      by (auto with npf; lia).
    replace (32 * Z.of_nat (S n)) with (32 + 32 * Z.of_nat n) by lia.
    rewrite host_part_cons, lor_cons; auto using bswap32_range, addr_int_range; try lia.
    apply host_part_range; [lia|]. by apply addr_int_range.
Qed.

(** Addresses are 4 or 16 bytes long. *)
Definition alen_ok (alen : Z) : Prop := alen = 4 ∨ alen = 16.
Definition nwords (alen : Z) : nat := Z.to_nat (alen / 4).

Lemma nwords_alen alen : alen_ok alen →
  Z.to_nat (alen >>> 2) = nwords alen ∧ 32 * Z.of_nat (nwords alen) = 8 * alen.
Proof. by intros [-> | ->]. Qed.

(** [npf_addr_mask] keeps exactly the first [mask] bits of the address,
    for IPv4 and IPv6 and every prefix length up to the address width. *)
Theorem npf_addr_mask_network alen addr mask out :
  alen_ok alen → addr_wf (nwords alen) addr → length out = nwords alen →
  0 <= mask <= 8 * alen →
  addr_wf (nwords alen) (npf_addr_mask addr mask alen out) ∧
  addr_int (npf_addr_mask addr mask alen out) = net_part (8 * alen) mask (addr_int addr).
Proof.
  intros Hal Ha Ho Hm. destruct (nwords_alen alen Hal) as [E1 E2].
  unfold npf_addr_mask. rewrite E1, <- E2. apply addr_mask_loop_spec; auto. lia.
Qed.

(** The NETMAP translation of npf_nat.c, [npf_addr_mask] of the
    translation address followed by [npf_addr_bitor] of the packet's address,
    is the network part of the one joined with the host part of the other. *)
Theorem npf_addr_netmap alen taddr paddr mask out :
  alen_ok alen → addr_wf (nwords alen) taddr → addr_wf (nwords alen) paddr →
  length out = nwords alen → 0 <= mask <= 8 * alen →
  addr_int (npf_addr_bitor paddr mask alen (npf_addr_mask taddr mask alen out))
    = net_part (8 * alen) mask (addr_int taddr) + host_part (8 * alen) mask (addr_int paddr).
Proof.
  intros Hal Ht Hp Ho Hm. destruct (nwords_alen alen Hal) as [E1 E2].
  unfold npf_addr_mask, npf_addr_bitor. rewrite E1, <- E2.
  destruct (addr_mask_loop_spec (nwords alen) taddr mask out) as [Hw Hi]; auto; [lia|].
  destruct (addr_bitor_loop_spec (nwords alen) paddr mask
    (addr_mask_loop (nwords alen) taddr mask out)) as [_ ->]; auto; [lia|].
  rewrite Hi. unfold net_part. rewrite <- Z.shiftl_mul_pow2, lor_add_disjoint,
    Z.shiftl_mul_pow2 by (try lia; apply wrap_range; lia). done.
Qed.

(** ** Comparison *)

(** A list of bytes as a big-endian integer. *)
Fixpoint be_int (l : list Z) : Z :=
  match l with [] => 0 | x :: l' => x * 256 ^ Z.of_nat (length l') + be_int l' end.

Lemma be_int_range l : Forall (inw 8) l → 0 <= be_int l < 256 ^ Z.of_nat (length l).
Proof.
  induction 1 as [|x l Hx _ IH]; [done|]. unfold inw in Hx. change (2 ^ 8) with 256 in Hx.
  cbn [be_int length]. rewrite Nat2Z.inj_succ, Z.pow_succ_r by lia. nia.
Qed.

Lemma memcmp_be_int a : ∀ b, length a = length b → Forall (inw 8) a → Forall (inw 8) b →
  memcmp a b = Z.sgn (be_int a - be_int b).
Proof.
  induction a as [|x a IH]; intros [|y b] Hl Ha Hb; try done.
  injection Hl as Hl. apply Forall_cons in Ha as [Hx Ha]. apply Forall_cons in Hb as [Hy Hb].
  pose proof (be_int_range a Ha). pose proof (be_int_range b Hb).
  cbn [memcmp be_int]. rewrite Hl in *. set (P := 256 ^ Z.of_nat (length b)) in *.
  destruct (Z.ltb_spec x y); [symmetry; apply Z.sgn_neg; nia|].
  destruct (Z.ltb_spec y x); [symmetry; apply Z.sgn_pos; nia|].
  rewrite IH by done. f_equal. assert (x = y) as -> by lia. lia.
Qed.

Lemma be_int_app a b : be_int (a ++ b) = be_int a * 256 ^ Z.of_nat (length b) + be_int b.
Proof.
  induction a as [|x a IH]; [done|]. simpl. rewrite IH, length_app, Nat2Z.inj_add.
  rewrite Z.pow_add_r by lia. ring.
Qed.

Lemma word_bytes_range w : Forall (inw 8) (word_bytes w).
Proof. unfold word_bytes. repeat constructor; rewrite land_ff; apply (wrap_range 8); lia. Qed.

Lemma bswap32_bytes w : inw 32 w → be_int (word_bytes w) = ntohl w.
Proof.
  intros Hw. unfold inw in Hw. change (2 ^ 32) with 4294967296 in Hw.
  unfold bswap32, word_bytes. cbn [be_int length]. rewrite <- !Z.lor_assoc, !land_ff.
  rewrite !Z.shiftr_div_pow2 by lia.
  change (2 ^ 8) with 256; change (2 ^ 16) with 65536; change (2 ^ 24) with 16777216.
  assert (0 <= w / 16777216 < 256) by (Z.to_euclidean_division_equations; lia).
  rewrite (Z.mod_small (w / 16777216)) by lia.
  assert (∀ x, 0 <= x mod 256 < 256) as Hm by (intros; apply Z.mod_pos_bound; lia).
  pose proof (Hm w). pose proof (Hm (w / 256)). pose proof (Hm (w / 65536)).
  rewrite (lor_add_disjoint (w / 65536 mod 256)) by (unfold inw; lia).
  rewrite (lor_add_disjoint (w / 256 mod 256)) by (unfold inw; lia).
  rewrite (lor_add_disjoint (w mod 256)) by (unfold inw; lia). simpl. lia.
Qed.

Lemma concat_word_bytes_length a : length (concat (word_bytes <$> a)) = (4 * length a)%nat.
Proof.
  induction a as [|w a IH]; [done|]. rewrite fmap_cons. cbn [concat].
  rewrite length_app, IH. change (length (word_bytes w)) with 4%nat. cbn [length]. lia.
Qed.

Lemma addr_bytes_int alen a : alen_ok alen → addr_wf (nwords alen) a →
  length (addr_bytes alen a) = Z.to_nat alen ∧ Forall (inw 8) (addr_bytes alen a) ∧
  be_int (addr_bytes alen a) = addr_int a.
Proof.
  intros Hal [Hl Hf]. unfold addr_bytes.
  assert (length (concat (word_bytes <$> a)) = Z.to_nat alen) as Hlen
    by (rewrite concat_word_bytes_length, Hl; by destruct Hal as [-> | ->]).
  rewrite take_ge by lia. split; [done|]. clear Hl Hlen.
  induction Hf as [|w a Hw Hf [IH1 IH2]]; [done|]. rewrite fmap_cons. cbn [concat].
  split; [apply Forall_app; split; [apply word_bytes_range|done]|].
  rewrite be_int_app, IH2, concat_word_bytes_length, bswap32_bytes by done. cbn [addr_int].
  do 2 f_equal. change 256 with (2 ^ 8). rewrite <- Z.pow_mul_r by lia. f_equal. lia.
Qed.

Lemma addr_mask_loop_app n : ∀ addr l o r, length o = n →
  addr_mask_loop n addr l (o ++ r) = addr_mask_loop n addr l o ++ r.
Proof.
  induction n as [|n IH]; intros addr l [|x o] r Ho; try done.
  injection Ho as Ho. simpl. destruct (next_wordmask l). by rewrite IH.
Qed.

(** The masked copy that [npf_addr_cmp] makes in a 16-byte buffer. *)
Lemma masked_bytes alen a m : alen_ok alen → addr_wf (nwords alen) a → 0 <= m <= 8 * alen →
  let b := addr_bytes alen (npf_addr_mask a m alen [0; 0; 0; 0]) in
  length b = Z.to_nat alen ∧ Forall (inw 8) b ∧ be_int b = net_part (8 * alen) m (addr_int a).
Proof.
  intros Hal Ha Hm. destruct (nwords_alen alen Hal) as [E1 E2]. cbv zeta.
  assert (∃ o r, [0; 0; 0; 0] = o ++ r ∧ length o = nwords alen) as (o & r & -> & Ho)
    by (destruct Hal as [-> | ->]; [by exists [0], [0; 0; 0]|by exists [0; 0; 0; 0], []]).
  unfold npf_addr_mask. rewrite E1, addr_mask_loop_app, <- E2 by done.
  destruct (addr_mask_loop_spec (nwords alen) a m o) as [Hw <-]; auto; [lia|].
  replace (addr_bytes alen (_ ++ r)) with (addr_bytes alen (addr_mask_loop (nwords alen) a m o));
    [by apply addr_bytes_int|].
  unfold addr_bytes. rewrite fmap_app, concat_app, take_app_le; [done|].
  rewrite concat_word_bytes_length, (proj1 Hw). by destruct Hal as [-> | ->].
Qed.

(** The integer [npf_addr_cmp] compares: the network part, or all of it. *)
Definition cmp_part (W mask x : Z) : Z := if mask =? NPF_NO_NETMASK then x else net_part W mask x.

(** [npf_addr_cmp] is the three-way comparison of the two addresses'
    network parts as big-endian integers (whole addresses under
    [NPF_NO_NETMASK]); in particular it is 0 exactly when they are equal. *)
Theorem npf_addr_cmp_compare alen a1 m1 a2 m2 :
  alen_ok alen → addr_wf (nwords alen) a1 → addr_wf (nwords alen) a2 →
  (m1 = NPF_NO_NETMASK ∨ 0 <= m1 <= 8 * alen) → (m2 = NPF_NO_NETMASK ∨ 0 <= m2 <= 8 * alen) →
  npf_addr_cmp a1 m1 a2 m2 alen
    = Z.sgn (cmp_part (8 * alen) m1 (addr_int a1) - cmp_part (8 * alen) m2 (addr_int a2)).
Proof.
  intros Hal H1 H2 Hm1 Hm2.
  assert (∀ a m, addr_wf (nwords alen) a → (m = NPF_NO_NETMASK ∨ 0 <= m <= 8 * alen) →
    let a' := if negb (m =? NPF_NO_NETMASK) then npf_addr_mask a m alen [0; 0; 0; 0] else a in
    length (addr_bytes alen a') = Z.to_nat alen ∧ Forall (inw 8) (addr_bytes alen a') ∧
    be_int (addr_bytes alen a') = cmp_part (8 * alen) m (addr_int a)) as Hpart.
  { intros a m Ha Hm. unfold cmp_part. destruct (m =? NPF_NO_NETMASK) eqn:E; simpl;
      bool_to_prop; [by apply addr_bytes_int|]. destruct Hm as [|Hm]; [done|].
    destruct (masked_bytes alen a m Hal Ha Hm) as (? & ? & ?). auto. }
  destruct (Hpart a1 m1 H1 Hm1) as (L1 & F1 & I1). destruct (Hpart a2 m2 H2 Hm2) as (L2 & F2 & I2).
  unfold npf_addr_cmp. cbv zeta in *. rewrite memcmp_be_int by congruence. congruence.
Qed.

(** 192.168.1.77, 10.1.2.3 and 2001:db8::/32 as loaded from the packet. *)
Definition ip_192_168_1_77 : npf_addr_t := [0x4d01a8c0].
Definition ip_10_1_2_3 : npf_addr_t := [0x0302010a].
Definition ip6_2001_db8 : npf_addr_t := [0xb80d0120; 0; 0; 0x01000000].

Ltac addr_wf_concrete := split; [reflexivity|]; repeat (constructor; [by unfold inw|]); constructor.

Lemma npf_addr_mask_network_witness :
  addr_int (npf_addr_mask ip6_2001_db8 29 16 [0; 0; 0; 0])
    = net_part (8 * 16) 29 (addr_int ip6_2001_db8)
  ∧ npf_addr_mask ip_192_168_1_77 24 4 [0] = [0x0001a8c0].
Proof.
  split; [|reflexivity].
  apply (npf_addr_mask_network 16 ip6_2001_db8 29 [0; 0; 0; 0]);
    [by right|addr_wf_concrete|done|lia].
Defined.

Lemma npf_addr_netmap_witness :
  addr_int (npf_addr_bitor ip_192_168_1_77 20 4 (npf_addr_mask ip_10_1_2_3 20 4 [0]))
    = 0x0a010000 + 0x14d.
Proof.
  rewrite (npf_addr_netmap 4 ip_10_1_2_3 ip_192_168_1_77 20 [0]);
    [reflexivity|by left|addr_wf_concrete|addr_wf_concrete|done|lia].
Defined.

Lemma npf_addr_cmp_compare_witness :
  npf_addr_cmp ip_10_1_2_3 NPF_NO_NETMASK ip_192_168_1_77 16 4 = -1.
Proof.
  rewrite (npf_addr_cmp_compare 4 ip_10_1_2_3 NPF_NO_NETMASK ip_192_168_1_77 16);
    [reflexivity|by left|addr_wf_concrete|addr_wf_concrete|by left|right; lia].
Defined.

End Addr.
