(* ===== verification/Cache.v ===== *)
(** * Cache: the packet information cache (src/kern/npf.h, src/kern/npf_inet.c)

    [npf_cache_all] parses the IPv4/IPv6 header and finds the TCP, UDP or
    ICMP header through the nbuf interface, and records pointers to them in
    the [npf_cache_t].  A pointer is an offset from the start of the packet;
    a header field is read from the packet's bytes at that offset. *)

From S2P Require Import Prelude Nbuf.
Open Scope Z_scope.
Open Scope npf_scope.

Module Cache.
Export Nbuf.

(** ** Fields of a packet *)

Definition rd8 (p : list Z) (o : Z) : Z := default 0 (p !! Z.to_nat o).
Definition rd16 (p : list Z) (o : Z) : Z := rd8 p o + 256 * rd8 p (o + 1).
Definition rd32 (p : list Z) (o : Z) : Z := rd16 p o + 65536 * rd16 p (o + 2).

Definition ip_hl p o := rd8 p o &&& 15.
Definition ip_len p o := rd16 p (o + 2).
Definition ip_off p o := rd16 p (o + 6).
Definition ip_p p o := rd8 p (o + 9).
Definition ip_sum p o := rd16 p (o + 10).
Definition ip6_plen p o := rd16 p (o + 4).
Definition ip6_nxt p o := rd8 p (o + 6).
Definition ip6e_nxt p o := rd8 p o.
Definition ip6e_len p o := rd8 p (o + 1).
Definition ip6f_offlg p o := rd16 p (o + 2).
Definition th_sport p o := rd16 p o.
Definition th_dport p o := rd16 p (o + 2).
Definition th_seq p o := rd32 p (o + 4).
Definition th_ack p o := rd32 p (o + 8).
Definition th_off p o := rd8 p (o + 12) >>> 4.
Definition th_flags p o := rd8 p (o + 13).
Definition th_win p o := rd16 p (o + 14).
Definition th_sum p o := rd16 p (o + 16).
Definition uh_sport p o := rd16 p o.
Definition uh_dport p o := rd16 p (o + 2).
Definition uh_sum p o := rd16 p (o + 6).

(** Sizes and constants of the protocol headers. *)
Definition sizeof_ip : Z := 20.
Definition sizeof_ip6_hdr : Z := 40.
Definition sizeof_ip6_ext : Z := 2.
Definition sizeof_ip6_frag : Z := 8.
Definition sizeof_tcphdr : Z := 20.
Definition sizeof_udphdr : Z := 8.
Definition ICMP_MINLEN : Z := 8.
Definition sizeof_icmp6_hdr : Z := 8.

Definition IPPROTO_HOPOPTS : Z := 0.
Definition IPPROTO_ICMP : Z := 1.
Definition IPPROTO_TCP : Z := 6.
Definition IPPROTO_UDP : Z := 17.
Definition IPPROTO_ROUTING : Z := 43.
Definition IPPROTO_FRAGMENT : Z := 44.
Definition IPPROTO_ICMPV6 : Z := 58.
Definition IPPROTO_DSTOPTS : Z := 60.

Definition IP_RF : Z := 0x8000.
Definition IP_DF : Z := 0x4000.
(** In network order as a little-endian host sees them. *)
Definition IP6F_OFF_MASK : Z := 0xf8ff.
Definition IP6F_MORE_FRAG : Z := 0x0100.

(** ** The cache *)

Definition NPC_IP4 : Z := 0x01.
Definition NPC_IP6 : Z := 0x02.
Definition NPC_IPFRAG : Z := 0x04.
Definition NPC_LAYER4 : Z := 0x08.
Definition NPC_TCP : Z := 0x10.
Definition NPC_UDP : Z := 0x20.
Definition NPC_ICMP : Z := 0x40.
Definition NPC_ICMP_ID : Z := 0x80.
Definition NPC_ALG_EXEC : Z := 0x100.
Definition NPC_FMTERR : Z := 0x200.
Definition NPC_IP46 : Z := NPC_IP4 ||| NPC_IP6.

(** The parameters of the NPF instance that parsing consults. *)
Record npf_ip_params := mk_ip_params {
  ip4_drop_options : bool;
  ip6_drop_options : bool;
}.

Record npf_cache_t := mk_npc {
  npc_ctx : npf_ip_params;
  npc_info : Z;
  npc_nbuf : nbuf_t;
  npc_src : Z;               (* npc_ips[NPF_SRC] *)
  npc_dst : Z;               (* npc_ips[NPF_DST] *)
  npc_alen : Z;
  npc_hlen : Z;
  npc_proto : Z;
  npc_ip : Z;                (* npc_ip.v4, npc_ip.v6 *)
  npc_l4 : option Z;         (* npc_l4.hdr; None is NULL *)
  npc_ckey : option (list Z);
}.

Definition npc_ips (npc : npf_cache_t) (which : npf_which) : Z :=
  match which with NPF_SRC => npc_src npc | NPF_DST => npc_dst npc end.

Definition npf_iscached (npc : npf_cache_t) (inf : Z) : bool := flag (npc_info npc) inf.

(** The packet's bytes, through the cache. *)
Definition pkt (npc : npf_cache_t) : list Z := packet (npc_nbuf npc).

Definition set_info (npc : npf_cache_t) (i : Z) : npf_cache_t :=
  mk_npc (npc_ctx npc) i (npc_nbuf npc) (npc_src npc) (npc_dst npc) (npc_alen npc)
    (npc_hlen npc) (npc_proto npc) (npc_ip npc) (npc_l4 npc) (npc_ckey npc).
Definition set_nbuf (npc : npf_cache_t) (nb : nbuf_t) : npf_cache_t :=
  mk_npc (npc_ctx npc) (npc_info npc) nb (npc_src npc) (npc_dst npc) (npc_alen npc)
    (npc_hlen npc) (npc_proto npc) (npc_ip npc) (npc_l4 npc) (npc_ckey npc).
Definition set_proto_hlen (npc : npf_cache_t) (proto hlen : Z) : npf_cache_t :=
  mk_npc (npc_ctx npc) (npc_info npc) (npc_nbuf npc) (npc_src npc) (npc_dst npc) (npc_alen npc)
    hlen proto (npc_ip npc) (npc_l4 npc) (npc_ckey npc).
Definition set_l3 (npc : npf_cache_t) (alen src dst ip : Z) : npf_cache_t :=
  mk_npc (npc_ctx npc) (npc_info npc) (npc_nbuf npc) src dst alen
    (npc_hlen npc) (npc_proto npc) ip (npc_l4 npc) (npc_ckey npc).
Definition set_l4 (npc : npf_cache_t) (l4 : option Z) : npf_cache_t :=
  mk_npc (npc_ctx npc) (npc_info npc) (npc_nbuf npc) (npc_src npc) (npc_dst npc) (npc_alen npc)
    (npc_hlen npc) (npc_proto npc) (npc_ip npc) l4 (npc_ckey npc).
Definition set_ckey (npc : npf_cache_t) (ck : option (list Z)) : npf_cache_t :=
  mk_npc (npc_ctx npc) (npc_info npc) (npc_nbuf npc) (npc_src npc) (npc_dst npc) (npc_alen npc)
    (npc_hlen npc) (npc_proto npc) (npc_ip npc) (npc_l4 npc) ck.

Section parse.
Context {M : npf_mbufops_t}.

(** ** Layer 3 *)

Definition npf_cache_ip4 (npc : npf_cache_t) : Z * npf_cache_t :=
  match nbuf_ensure_contig (npc_nbuf npc) sizeof_ip with
  | (None, nb) => (NPC_FMTERR, set_nbuf npc nb)
  | (Some ip, nb) =>
      let npc := set_nbuf npc nb in
      if (ip_hl (pkt npc) ip <<< 2) <? sizeof_ip then (NPC_FMTERR, npc)
      else if negb (ip_hl (pkt npc) ip =? 5) && ip4_drop_options (npc_ctx npc) then
        (NPC_FMTERR, npc)
      else
        match nbuf_ensure_contig nb (ip_hl (pkt npc) ip <<< 2) with
        | (None, nb) => (NPC_FMTERR, set_nbuf npc nb)
        | (Some ip, nb) =>
            let npc := set_nbuf npc nb in
            let flags :=
              if flag (ip_off (pkt npc) ip) (Z.lnot (htons (IP_DF ||| IP_RF)))
              then NPC_IPFRAG else 0 in
            let npc := set_l3 npc 4 (ip + 12) (ip + 16) ip in
            let npc := set_proto_hlen npc (ip_p (pkt npc) ip) (ip_hl (pkt npc) ip <<< 2) in
            (flags ||| NPC_IP4, npc)
        end
  end.

(** What the body of the extension-header loop decides. *)
Inductive ip6_next :=
  | IP6_FMTERR (nb : nbuf_t)                (* return NPC_FMTERR *)
  | IP6_STOP (nb : nbuf_t) (flags : Z)      (* hlen == 0: leave the loop *)
  | IP6_SKIP (nb : nbuf_t) (hlen nxt : Z).  (* a header of hlen bytes, then nxt *)

(** [ip6e->ip6e_nxt] is read after the fragment header has been made
    contiguous, through the pointer obtained before that. *)
Definition npf_ip6_ext_step (npc : npf_cache_t) (ip6e : Z) (frag_present : Z) (flags : Z) :
    ip6_next * Z :=
  let nb := npc_nbuf npc in
  let proto := npc_proto npc in
  if (proto =? IPPROTO_HOPOPTS) || (proto =? IPPROTO_DSTOPTS) || (proto =? IPPROTO_ROUTING) then
    if ip6_drop_options (npc_ctx npc) then (IP6_FMTERR nb, frag_present)
    else (IP6_SKIP nb ((ip6e_len (packet nb) ip6e + 1) <<< 3) (ip6e_nxt (packet nb) ip6e), frag_present)
  else if proto =? IPPROTO_FRAGMENT then
    if negb (frag_present =? 0) then (IP6_FMTERR nb, frag_present + 1)
    else
      match nbuf_ensure_contig nb sizeof_ip6_frag with
      | (None, nb') => (IP6_FMTERR nb', frag_present + 1)
      | (Some ip6f, nb') =>
          let offlg := ip6f_offlg (packet nb') ip6f in
          if (ntohs (offlg &&& IP6F_OFF_MASK) =? 0) && negb (flag offlg IP6F_MORE_FRAG)
          then
            let nxt := if nbuf_rearranges nb sizeof_ip6_frag then stale_byte (nb_mbuf0 nb) ip6e
                       else ip6e_nxt (packet nb') ip6e in
            (IP6_SKIP nb' sizeof_ip6_frag nxt, frag_present + 1)
          else (IP6_STOP nb' (flags ||| NPC_IPFRAG), frag_present + 1)
      end
  else (IP6_STOP nb flags, frag_present).

(** The extension-header loop; the result is [None] out of fuel, else the
    cache and either the flags or [None] for a format error. *)
Fixpoint npf_ip6_ext_loop (fuel : nat) (npc : npf_cache_t) (hlen frag_present flags : Z) :
    option (npf_cache_t * option Z) :=
  match fuel with
  | O => None
  | S fuel' =>
      match nbuf_advance (npc_nbuf npc) hlen sizeof_ip6_ext with
      | (None, nb) => Some (set_nbuf npc nb, None)
      | (Some ip6e, nb) =>
          let npc := set_nbuf npc nb in
          match npf_ip6_ext_step npc ip6e frag_present flags with
          | (IP6_FMTERR nb', _) => Some (set_nbuf npc nb', None)
          | (IP6_STOP nb' flags', _) => Some (set_nbuf npc nb', Some flags')
          | (IP6_SKIP nb' hlen' nxt, frag') =>
              let npc := set_nbuf npc nb' in
              let npc := set_proto_hlen npc nxt (u32 (npc_hlen npc + hlen')) in
              npf_ip6_ext_loop fuel' npc hlen' frag' flags
          end
      end
  end.

(** Each turn of the loop advances over at least 8 bytes of the packet. *)
Definition ip6_fuel (nb : nbuf_t) : nat := S (S (length (packet nb))).

Definition npf_cache_ip6 (npc : npf_cache_t) : option (Z * npf_cache_t) :=
  match nbuf_ensure_contig (npc_nbuf npc) sizeof_ip6_hdr with
  | (None, nb) => Some (NPC_FMTERR, set_nbuf npc nb)
  | (Some ip6, nb) =>
      let npc := set_nbuf npc nb in
      let npc := set_proto_hlen npc (ip6_nxt (pkt npc) ip6) sizeof_ip6_hdr in
      let off := nbuf_offset nb in
      match npf_ip6_ext_loop (ip6_fuel nb) npc sizeof_ip6_hdr 0 0 with
      | None => None
      | Some (npc, None) => Some (NPC_FMTERR, npc)
      | Some (npc, Some flags) =>
          let nb := nbuf_reset (npc_nbuf npc) in
          let ip6 := nbuf_dataptr nb in
          let nb := if negb (off =? 0) then snd (nbuf_advance nb off 0) else nb in
          let npc := set_l3 (set_nbuf npc nb) 16 (ip6 + 8) (ip6 + 24) ip6 in
          Some (flags ||| NPC_IP6, npc)
      end
  end.

Definition npf_cache_ip (npc : npf_cache_t) : option (Z * npf_cache_t) :=
  let nptr := nbuf_dataptr (npc_nbuf npc) in
  let ver := rd8 (pkt npc) nptr in
  if ver >>> 4 =? 4 then Some (npf_cache_ip4 npc)
  else if ver >>> 4 =? 6 then npf_cache_ip6 npc
  else Some (0, npc).

(** ** Layer 4 *)

Definition npf_cache_tcp (npc : npf_cache_t) (hlen : Z) : Z * npf_cache_t :=
  match nbuf_advance (npc_nbuf npc) hlen sizeof_tcphdr with
  | (None, nb) => (NPC_FMTERR, set_nbuf npc nb)
  | (Some th, nb) =>
      let npc := set_nbuf npc nb in
      if th_off (pkt npc) th <? 5 then (NPC_FMTERR, npc)
      else (NPC_LAYER4 ||| NPC_TCP, set_l4 npc (Some th))
  end.

(** The other protocols: advance and store the pointer, NULL included. *)
Definition npf_cache_l4_adv (npc : npf_cache_t) (hlen size l4flags : Z) : Z * npf_cache_t :=
  let '(p, nb) := nbuf_advance (npc_nbuf npc) hlen size in
  (l4flags, set_l4 (set_nbuf npc nb) p).

Definition npf_cache_l4 (npc : npf_cache_t) : Z * npf_cache_t :=
  let hlen := npc_hlen npc in
  let proto := npc_proto npc in
  if proto =? IPPROTO_TCP then npf_cache_tcp npc hlen
  else if proto =? IPPROTO_UDP then
    npf_cache_l4_adv npc hlen sizeof_udphdr (NPC_LAYER4 ||| NPC_UDP)
  else if proto =? IPPROTO_ICMP then
    npf_cache_l4_adv npc hlen ICMP_MINLEN (NPC_LAYER4 ||| NPC_ICMP)
  else if proto =? IPPROTO_ICMPV6 then
    npf_cache_l4_adv npc hlen sizeof_icmp6_hdr (NPC_LAYER4 ||| NPC_ICMP)
  else (0, npc).

(** The labels [err:] and [out:] of [npf_cache_all]. *)
Definition npf_cache_out (npc : npf_cache_t) (flags : Z) : Z * npf_cache_t :=
  let npc := set_nbuf npc (nbuf_unset_flag (npc_nbuf npc) NBUF_DATAREF_RESET) in
  (flags, set_info npc (npc_info npc ||| flags)).

Fixpoint npf_cache_again (fuel : nat) (npc : npf_cache_t) : option (Z * npf_cache_t) :=
  match fuel with
  | O => None
  | S fuel' =>
      let npc := set_nbuf npc (nbuf_unset_flag (npc_nbuf npc) NBUF_DATAREF_RESET) in
      match npf_cache_ip npc with
      | None => None
      | Some (flags, npc) =>
          if (flags &&& NPC_IP46 =? 0) || flag flags NPC_IPFRAG || flag flags NPC_FMTERR
          then Some (npf_cache_out npc flags)
          else
            let '(l4flags, npc) := npf_cache_l4 npc in
            if negb (l4flags =? 0) && negb (bool_decide (is_Some (npc_l4 npc)))
            then Some (npf_cache_out npc NPC_FMTERR)
            else if nbuf_flag_p (npc_nbuf npc) NBUF_DATAREF_RESET
            then npf_cache_again fuel' npc
            else
              let flags := flags ||| l4flags in
              Some (flags, set_info npc (npc_info npc ||| flags))
      end
  end.

(** A turn of [again:] either starts further into the packet or follows a
    re-arrangement that made the head mbuf longer. *)
Definition cache_fuel (npc : npf_cache_t) : nat :=
  let n := S (length (pkt npc)) in (n * n)%nat.

Definition npf_cache_all (npc : npf_cache_t) : option (Z * npf_cache_t) :=
  npf_cache_again (cache_fuel npc) npc.

Definition npf_recache (npc : npf_cache_t) : option npf_cache_t :=
  let npc := set_nbuf npc (nbuf_reset (npc_nbuf npc)) in
  let npc := set_info npc 0 in
  match npf_cache_all npc with
  | None => None
  | Some (_, npc) => Some npc
  end.

End parse.

(** ** The packet's bytes are never changed by parsing *)

Section laws.
Context {M : npf_mbufops_t} {ML : mbufops_laws}.

Lemma nbuf_ensure_contig_packet nb len : packet (snd (nbuf_ensure_contig nb len)) = packet nb.
Proof.
  unfold nbuf_ensure_contig. repeat case_if; simpl; try done; apply ensure_contig_data.
Qed.

Lemma nbuf_advance_packet nb len e : packet (snd (nbuf_advance nb len e)) = packet nb.
Proof.
  unfold nbuf_advance. destruct (nbuf_advance_find _ _ _ _) as [[i w]|]; [|done].
  case_if; [done|]. by rewrite nbuf_ensure_contig_packet.
Qed.

Lemma datalen_packet nb nb' : packet nb' = packet nb → nbuf_datalen nb' = nbuf_datalen nb.
Proof. unfold nbuf_datalen, m_length, packet. by intros ->. Qed.

(** The length of the packet under a cache. *)
Definition plen (npc : npf_cache_t) : Z := nbuf_datalen (npc_nbuf npc).

(** ** Layer 3: what a successful parse establishes *)

(** The cached layer-3 pointers are inside the packet, and so is the header. *)
Definition l3_bounds (npc : npf_cache_t) : Prop :=
  (npc_alen npc = 4 ∧ npc_src npc = npc_ip npc + 12 ∧ npc_dst npc = npc_ip npc + 16 ∧
     0 <= npc_ip npc ∧ npc_ip npc + npc_hlen npc <= plen npc ∧ 20 <= npc_hlen npc <= 60)
  ∨ (npc_alen npc = 16 ∧ npc_src npc = npc_ip npc + 8 ∧ npc_dst npc = npc_ip npc + 24 ∧
     npc_ip npc = 0 ∧ 40 <= npc_hlen npc < plen npc).

Record l3_parsed (npc npc' : npf_cache_t) (flags : Z) : Prop := {
  l3_flags : flags ∈ [NPC_IP4; NPC_IP4 ||| NPC_IPFRAG; NPC_IP6; NPC_IP6 ||| NPC_IPFRAG];
  l3_alen : npc_alen npc' = if flag flags NPC_IP4 then 4 else 16;
  l3_in : l3_bounds npc';
  l3_grows : nbuf_grows (npc_nbuf npc) (npc_nbuf npc');
}.

Lemma ip_hl_range p o : 0 <= ip_hl p o < 16.
Proof.
  unfold ip_hl. change 15 with (2 ^ 4 - 1). rewrite land_ones_mod by lia.
  apply Z.mod_pos_bound. lia.
Qed.

(** Case analysis on a contiguity request, with its specification. *)
Ltac ensure_cases :=
  match goal with
  | |- context [nbuf_ensure_contig ?b ?len] =>
      let Hs := fresh "Hs" in
      pose proof (nbuf_ensure_contig_spec b len) as Hs;
      destruct (nbuf_ensure_contig b len) as [[?o|] ?nb];
      (destruct Hs as (?Hw & ?Hp & ?Ho & _ & ?Hr); [assumption|lia|..])
  end.

Lemma npf_cache_ip4_spec npc : nbuf_wf (npc_nbuf npc) →
  let '(flags, npc') := npf_cache_ip4 npc in
  nbuf_wf (npc_nbuf npc') ∧ pkt npc' = pkt npc ∧
  nbuf_offset (npc_nbuf npc') = nbuf_offset (npc_nbuf npc) ∧
  npc_info npc' = npc_info npc ∧ npc_l4 npc' = npc_l4 npc ∧
  (flags = NPC_FMTERR ∨ l3_parsed npc npc' flags).
Proof.
  intros Hwf. unfold npf_cache_ip4, sizeof_ip. ensure_cases; [|by auto 10].
  destruct (Hr o eq_refl) as (-> & _ & Hg1).
  set (npc1 := set_nbuf npc nb). set (o := nbuf_offset (npc_nbuf npc)) in *.
  destruct (_ <? 20) eqn:E2; [by auto 10|]. case_if; [by auto 10|]. bool_to_prop.
  pose proof (ip_hl_range (pkt npc1) o) as Hhl. rewrite Z.shiftl_mul_pow2 in * by lia.
  unfold pkt in *. cbn [npc_nbuf npc1 set_nbuf] in *.
  ensure_cases; [|rewrite <- Hp, <- Hp0, <- Ho, <- Ho0; by auto 10].
  destruct (Hr0 o0 eq_refl) as (-> & Hc & Hg2).
  pose proof (contig_in _ _ _ Hw0 Hc) as Hin. destruct Hc as [Ho2 _]. rewrite Ho in *.
  cbn [npc_nbuf set_nbuf set_l3 set_proto_hlen npc_info npc_l4 npc1].
  split; [done|]. split; [congruence|]. split; [done|]. split; [done|]. split; [done|]. right.
  split; cbn [npc_nbuf set_nbuf set_l3 set_proto_hlen npc_alen npc1].
  - case_if; repeat constructor.
  - by destruct (flag (ip_off _ _) _).
  - left. unfold plen. cbn. rewrite Hp0, Z.shiftl_mul_pow2 by lia.
    pose proof (nbuf_offset_wf _ Hwf) as [_ Hr']. fold o in Hr'. lia.
  - by etrans.
Qed.

(** ** The IPv6 extension headers *)

(** The packet is a sequence of bytes. *)
Definition bytes_ok (p : list Z) : Prop := Forall (inw 8) p.

Lemma rd8_range p o : bytes_ok p → 0 <= rd8 p o < 256.
Proof.
  intros Hp. unfold rd8. destruct (p !! Z.to_nat o) as [b|] eqn:E; simpl; [|lia].
  eapply Forall_lookup_1 in E; [|exact Hp]. exact E.
Qed.

Definition ip6_next_nbuf (n : ip6_next) : nbuf_t :=
  match n with IP6_FMTERR nb => nb | IP6_STOP nb _ => nb | IP6_SKIP nb _ _ => nb end.

Lemma npf_ip6_ext_step_spec npc e fr fl :
  nbuf_wf (npc_nbuf npc) → bytes_ok (pkt npc) →
  let n := fst (npf_ip6_ext_step npc e fr fl) in
  let nb := ip6_next_nbuf n in
  nbuf_wf nb ∧ packet nb = pkt npc ∧ nbuf_offset nb = nbuf_offset (npc_nbuf npc) ∧
  match n with
  | IP6_FMTERR _ => True
  | IP6_STOP _ fl' => (fl' = fl ∨ fl' = fl ||| NPC_IPFRAG) ∧ nbuf_grows (npc_nbuf npc) nb
  | IP6_SKIP _ h _ => 8 <= h <= 2048 ∧ nbuf_grows (npc_nbuf npc) nb
  end.
Proof.
  intros Hwf Hb. unfold npf_ip6_ext_step, pkt, sizeof_ip6_frag in *. case_if.
  { case_if; simpl; [done|]. pose proof (rd8_range _ (e + 1) Hb).
    unfold ip6e_len. rewrite Z.shiftl_mul_pow2 by lia. split_and!; try done; auto; lia. }
  case_if; [|simpl; split_and!; try done; auto]. case_if; [done|].
  ensure_cases; [|done]. destruct (Hr o eq_refl) as (-> & _ & Hg).
  case_if; simpl; split_and!; try done; auto; lia.
Qed.

(** The loop ends, within fuel: it either reports a format error or stops at
    the upper-layer header, [npc_hlen] bytes after the start [off]. *)
Lemma npf_ip6_ext_loop_spec off fuel : ∀ npc hlen fr,
  nbuf_wf (npc_nbuf npc) → bytes_ok (pkt npc) →
  0 <= off <= nbuf_offset (npc_nbuf npc) → 8 <= hlen <= 2048 →
  npc_hlen npc = nbuf_offset (npc_nbuf npc) + hlen - off →
  40 <= npc_hlen npc →
  plen npc - (nbuf_offset (npc_nbuf npc) + hlen) < Z.of_nat fuel → (0 < fuel)%nat →
  ∃ npc' r, npf_ip6_ext_loop fuel npc hlen fr 0 = Some (npc', r) ∧
    nbuf_wf (npc_nbuf npc') ∧ pkt npc' = pkt npc ∧ npc_info npc' = npc_info npc ∧
    npc_l4 npc' = npc_l4 npc ∧
    (∀ fl, r = Some fl → 40 <= npc_hlen npc' ∧ off + npc_hlen npc' < plen npc' ∧
      (fl = 0 ∨ fl = NPC_IPFRAG) ∧ nbuf_grows (npc_nbuf npc) (npc_nbuf npc')).
Proof.
  induction fuel as [|fuel IH]; intros npc hlen fr Hwf Hb Hoff Hh Hhl H40 Hfuel Hpos; [lia|].
  cbn [npf_ip6_ext_loop].
  pose proof (nbuf_advance_spec (npc_nbuf npc) hlen sizeof_ip6_ext Hwf ltac:(lia) ltac:(done)) as Ha.
  destruct (nbuf_advance _ _ _) as [[o|] nb]; destruct Ha as (Hwf1 & Hp & Ha).
  2:{ exists (set_nbuf npc nb), None. by split_and!. }
  destruct Ha as (-> & Hlt & [Ho1 _] & Hg). pose proof (datalen_packet _ _ Hp) as Hd.
  set (o := nbuf_offset (npc_nbuf npc) + hlen) in *.
  pose proof (npf_ip6_ext_step_spec (set_nbuf npc nb) o fr 0
    Hwf1 ltac:(unfold pkt in *; simpl; by rewrite Hp)) as Hst.
  unfold pkt, plen in *; cbn [npc_nbuf set_nbuf] in *. rewrite Hp in Hst.
  destruct (npf_ip6_ext_step _ _ _ _) as [n fr']; cbn [fst] in Hst.
  assert (nbuf_datalen (ip6_next_nbuf n) = nbuf_datalen (npc_nbuf npc)) as Hd'
    by (apply datalen_packet, Hst).
  destruct n as [nb'|nb' fl'|nb' h nxt]; simpl in Hst, Hd'; destruct Hst as (Hw' & Hp' & Ho' & Hst).
  - exists (set_nbuf (set_nbuf npc nb) nb'), None. by split_and!.
  - destruct Hst as [Hf' Hg']. exists (set_nbuf (set_nbuf npc nb) nb'), (Some fl').
    split; [done|]. split; [done|]. split; [done|]. split; [done|]. split; [done|].
    intros ? [= <-]. cbn [npc_hlen npc_nbuf set_nbuf]. split; [lia|]. split; [lia|].
    split; [by destruct Hf' as [-> | ->]; auto|by etrans].
  - destruct Hst as [Hh' Hg']. destruct Hwf as (_ & _ & H31). unfold nbuf_datalen in *.
    cbn [npc_hlen set_nbuf]. rewrite wrap_small by (unfold inw; lia).
    edestruct (IH (set_proto_hlen (set_nbuf (set_nbuf npc nb) nb')
       nxt (npc_hlen npc + h)) h fr')
      as (npc' & r & E & W & P & Q & L & R); try done;
      cbn [npc_nbuf set_nbuf set_proto_hlen npc_hlen] in *; try lia.
    + by rewrite Hp'.
    + exists npc', r. split; [exact E|]. split; [done|]. split; [congruence|]. split; [done|].
      split; [done|]. intros fl Hfl. destruct (R fl Hfl) as (? & ? & ? & ?).
      split_and!; auto; do 2 (etrans; [eassumption|]); done.
Qed.

Lemma nbuf_reset_wf nb : nbuf_wf nb → nbuf_wf (nbuf_reset nb) ∧ nbuf_offset (nbuf_reset nb) = 0.
Proof.
  intros Hwf. pose proof Hwf as (Hi & Hp & Hl).
  assert (nbuf_wf (nbuf_reset nb)) as Hwf'.
  { unfold nbuf_wf, nbuf_reset. simpl. pose proof (m_length_nonneg (drop 0 (nb_mbuf0 nb))).
    repeat split; auto; lia. }
  split; [done|]. pose proof (nbuf_offset_wf _ Hwf') as [-> _].
  unfold bytes_before. simpl. by rewrite take_0.
Qed.

Lemma npf_cache_ip6_spec npc : nbuf_wf (npc_nbuf npc) → bytes_ok (pkt npc) →
  ∃ flags npc', npf_cache_ip6 npc = Some (flags, npc') ∧
  nbuf_wf (npc_nbuf npc') ∧ pkt npc' = pkt npc ∧
  npc_info npc' = npc_info npc ∧ npc_l4 npc' = npc_l4 npc ∧
  (flags = NPC_FMTERR ∨ (l3_parsed npc npc' flags ∧
    nbuf_offset (npc_nbuf npc') = nbuf_offset (npc_nbuf npc))).
Proof.
  intros Hwf Hb. unfold npf_cache_ip6, sizeof_ip6_hdr. ensure_cases.
  2:{ eexists _, _. split; [done|]. simpl. by auto 10. }
  destruct (Hr o eq_refl) as (-> & Hc & Hg). pose proof (contig_in _ _ _ Hw Hc) as Hin.
  pose proof (nbuf_offset_wf _ Hw) as [_ Hor].
  pose proof (datalen_packet _ _ Hp) as Hd. unfold pkt in *. cbn [npc_nbuf set_nbuf].
  edestruct (npf_ip6_ext_loop_spec (nbuf_offset nb) (ip6_fuel nb)
    (set_proto_hlen (set_nbuf npc nb) (ip6_nxt (packet nb) (nbuf_offset (npc_nbuf npc))) 40) 40 0)
    as (npc1 & r & E & W & P & Q & L & R); cbn [npc_nbuf set_nbuf set_proto_hlen npc_hlen] in *;
    try done; try lia.
  { unfold pkt. simpl. by rewrite Hp. }
  { unfold ip6_fuel, plen, nbuf_datalen, m_length, packet. simpl. lia. }
  { unfold ip6_fuel. lia. }
  unfold pkt, plen in *. cbn [npc_nbuf set_nbuf set_proto_hlen npc_info npc_l4] in *.
  rewrite E. destruct r as [fl|].
  2:{ eexists _, _. split; [done|]. split; [done|]. split; [congruence|]. auto 10. }
  destruct (R fl eq_refl) as (H40 & Hlt & Hfl & Hg1). clear R.
  destruct (nbuf_reset_wf _ W) as [Wr Or].
  assert (nbuf_grows nb (nbuf_reset (npc_nbuf npc1))) as Hg2 by (destruct Hg1; by split).
  set (nbr := if negb _ then _ else _).
  assert (nbuf_wf nbr ∧ packet nbr = packet (npc_nbuf npc1) ∧ nbuf_offset nbr = nbuf_offset nb ∧
    nbuf_grows nb nbr) as (W3 & P3 & O3 & G3).
  { unfold nbr. destruct (nbuf_offset nb =? 0) eqn:E0; simpl; bool_to_prop.
    - rewrite E0. auto.
    - pose proof (nbuf_advance_spec (nbuf_reset (npc_nbuf npc1)) (nbuf_offset nb) 0 Wr) as Ha.
      pose proof Hw as (_ & _ & H31). unfold nbuf_datalen in *.
      destruct (nbuf_advance _ _ _) as [[o3|] nb3]; destruct Ha as (W4 & P4 & Ha); try lia;
        simpl; rewrite Or, Z.add_0_l in Ha.
      + destruct Ha as (-> & _ & [O4 _] & G4). split_and!; auto; by etrans.
      + exfalso. destruct Ha as [[-> Ha]|[Ha _]]; [|lia].
        unfold nbuf_datalen in *; simpl in *; lia. }
  eexists _, _. split; [done|]. cbn [npc_nbuf set_nbuf set_l3 npc_info npc_l4].
  split; [done|]. split; [congruence|]. split; [done|]. split; [done|]. right.
  split; [|congruence]. pose proof (datalen_packet _ _ P3) as Hd3.
  split; cbn [npc_nbuf set_nbuf set_l3 npc_alen].
  - destruct Hfl as [-> | ->]; repeat constructor.
  - by destruct Hfl as [-> | ->].
  - right. unfold plen, nbuf_dataptr. cbn. rewrite Or. lia.
  - by etrans.
Qed.

Lemma npf_cache_ip_spec npc : nbuf_wf (npc_nbuf npc) → bytes_ok (pkt npc) →
  ∃ flags npc', npf_cache_ip npc = Some (flags, npc') ∧
  nbuf_wf (npc_nbuf npc') ∧ pkt npc' = pkt npc ∧
  npc_info npc' = npc_info npc ∧ npc_l4 npc' = npc_l4 npc ∧
  (flags = 0 ∨ flags = NPC_FMTERR ∨ (l3_parsed npc npc' flags ∧
    nbuf_offset (npc_nbuf npc') = nbuf_offset (npc_nbuf npc))).
Proof.
  intros Hwf Hb. unfold npf_cache_ip. case_if; [|case_if].
  - pose proof (npf_cache_ip4_spec npc Hwf) as H. destruct (npf_cache_ip4 npc) as [fl npc'].
    destruct_ands. exists fl, npc'. split_and!; auto.
    match goal with H : _ ∨ _ |- _ => destruct H; auto end.
  - destruct (npf_cache_ip6_spec npc Hwf Hb) as (fl & npc' & ? & ? & ? & ? & ? & ?). eauto 10.
  - exists 0, npc. auto 10.
Qed.

(** ** Layer 4 *)

(** The cached layer-4 header is inside the packet. *)
Definition l4_bounds (npc : npf_cache_t) (fl : Z) : Prop :=
  ∃ o, npc_l4 npc = Some o ∧ 0 <= o ∧
    o + (if flag fl NPC_TCP then 20 else 8) <= plen npc ∧
    (flag fl NPC_TCP = true → 5 <= th_off (pkt npc) o).

Definition same_l3 (npc npc' : npf_cache_t) : Prop :=
  npc_src npc' = npc_src npc ∧ npc_dst npc' = npc_dst npc ∧ npc_alen npc' = npc_alen npc ∧
  npc_ip npc' = npc_ip npc ∧ npc_hlen npc' = npc_hlen npc.

Definition l4_flags : list Z :=
  [0; NPC_FMTERR; NPC_LAYER4 ||| NPC_TCP; NPC_LAYER4 ||| NPC_UDP; NPC_LAYER4 ||| NPC_ICMP].

Record l4_parsed (npc npc' : npf_cache_t) (fl : Z) : Prop := {
  l4_wf : nbuf_wf (npc_nbuf npc');
  l4_pkt : pkt npc' = pkt npc;
  l4_info : npc_info npc' = npc_info npc;
  l4_l3 : same_l3 npc npc';
  l4_fl : fl ∈ l4_flags;
  l4_in : flag fl NPC_LAYER4 = true → is_Some (npc_l4 npc') → l4_bounds npc' fl;
  l4_off : (nbuf_grows (npc_nbuf npc) (npc_nbuf npc') ∧
      nbuf_offset (npc_nbuf npc') = nbuf_offset (npc_nbuf npc)) ∨
    nbuf_offset (npc_nbuf npc') = nbuf_offset (npc_nbuf npc) + npc_hlen npc;
}.

Lemma advance_l4 npc size :
  nbuf_wf (npc_nbuf npc) → 20 <= npc_hlen npc < 2 ^ 31 → 0 <= size →
  let '(r, nb) := nbuf_advance (npc_nbuf npc) (npc_hlen npc) size in
  nbuf_wf nb ∧ packet nb = pkt npc ∧ nbuf_datalen nb = plen npc ∧
  (∀ o, r = Some o → 0 <= o ∧ o + size <= plen npc) ∧
  ((nbuf_grows (npc_nbuf npc) nb ∧ nbuf_offset nb = nbuf_offset (npc_nbuf npc)) ∨
   nbuf_offset nb = nbuf_offset (npc_nbuf npc) + npc_hlen npc).
Proof.
  intros Hwf Hh Hs.
  pose proof (nbuf_advance_spec (npc_nbuf npc) (npc_hlen npc) size Hwf ltac:(lia) Hs) as Ha.
  destruct (nbuf_advance _ _ _) as [r nb]. destruct Ha as (Hw & Hp & Ha).
  pose proof (datalen_packet _ _ Hp) as Hd. pose proof (nbuf_offset_wf _ Hwf) as [_ Hor].
  split; [done|]. split; [done|]. split; [done|]. destruct r as [o|].
  - destruct Ha as (-> & _ & Hc & _). pose proof (contig_in _ _ _ Hw Hc).
    split; [intros ? [= <-]; unfold plen; lia|]. right. apply Hc.
  - split; [done|]. destruct Ha as [[-> _]|[_ ?]]; [left; split; [reflexivity|done]|by right].
Qed.

Lemma npf_cache_l4_spec npc : nbuf_wf (npc_nbuf npc) → 20 <= npc_hlen npc < 2 ^ 31 →
  l4_parsed npc (snd (npf_cache_l4 npc)) (fst (npf_cache_l4 npc)).
Proof.
  intros Hwf Hh. unfold npf_cache_l4, npf_cache_tcp, npf_cache_l4_adv.
  unfold sizeof_tcphdr, sizeof_udphdr, ICMP_MINLEN, sizeof_icmp6_hdr.
  case_if; [|case_if; [|case_if; [|case_if]]].
  5:{ split; simpl; try done; [repeat constructor|left; split; [reflexivity|done]]. }
  all: lazymatch goal with |- context [nbuf_advance _ _ ?sz] =>
    pose proof (advance_l4 npc sz Hwf Hh ltac:(lia)) as Ha end;
    destruct (nbuf_advance _ _ _) as [[o|] nb]; destruct Ha as (Hw & Hp & Hd & Hin & Hoff);
    try (specialize (Hin o eq_refl)).
  all: repeat case_if; split; simpl; try done; try (repeat constructor; fail);
    try (by intros _ []).
  all: intros _ _; exists o; bool_to_prop; split; [done|]; split; [apply Hin|].
  all: unfold plen, pkt in *; cbn [npc_nbuf set_l4 set_nbuf] in *; rewrite Hd.
  all: by split; [apply Hin|].
Qed.

(** ** The whole cache *)

(** What the flags of [npf_cache_all] promise about the cache. *)
Definition cache_ok (npc : npf_cache_t) (fl : Z) : Prop :=
  (flag fl NPC_IP46 = true →
     npc_alen npc = (if flag fl NPC_IP4 then 4 else 16) ∧ l3_bounds npc) ∧
  (flag fl NPC_LAYER4 = true → l4_bounds npc fl).

Definition again_measure (npc : npf_cache_t) : Z :=
  (plen npc - nbuf_offset (npc_nbuf npc)) * (plen npc + 1) + (plen npc - head_len (npc_nbuf npc)).

Lemma head_len_le nb : nbuf_wf nb → 0 <= head_len nb <= nbuf_datalen nb.
Proof.
  intros (Hi & _). unfold head_len, nbuf_datalen. destruct (nb_mbuf0 nb) as [|m c]; simpl in *; [lia|].
  rewrite m_length_cons. pose proof (m_buflen_nonneg m). pose proof (m_length_nonneg c). lia.
Qed.

(** Unsetting the flag leaves the cursor alone. *)
Lemma unset_flag_wf nb f : nbuf_wf nb → nbuf_wf (nbuf_unset_flag nb f).
Proof. done. Qed.

Lemma unset_reset nb : nbuf_flag_p (nbuf_unset_flag nb NBUF_DATAREF_RESET) NBUF_DATAREF_RESET = false.
Proof.
  unfold nbuf_flag_p, flag, NBUF_DATAREF_RESET. simpl. apply negb_false_iff, Z.eqb_eq.
  apply Z.bits_inj'. intros i Hi. rewrite !Z.land_spec, Z.lnot_spec, Z.bits_0 by done.
  destruct (Z.testbit 1 i); by rewrite ?andb_false_r.
Qed.

(** The exits through [out:]. *)
Lemma npf_cache_out_spec npc npc1 f :
  nbuf_wf (npc_nbuf npc1) → pkt npc1 = pkt npc → npc_info npc1 = npc_info npc →
  f = 0 ∨ f = NPC_FMTERR ∨ (flag f NPC_LAYER4 = false ∧
    npc_alen npc1 = (if flag f NPC_IP4 then 4 else 16) ∧ l3_bounds npc1) →
  ∃ fl' npc', Some (npf_cache_out npc1 f) = Some (fl', npc') ∧
    nbuf_wf (npc_nbuf npc') ∧ pkt npc' = pkt npc ∧ npc_info npc' = npc_info npc ||| fl' ∧
    nbuf_flag_p (npc_nbuf npc') NBUF_DATAREF_RESET = false ∧ cache_ok npc' fl'.
Proof.
  intros W P I Hf. eexists _, _. split; [done|]. simpl. rewrite I.
  split; [done|]. split; [done|]. split; [done|]. split; [apply unset_reset|].
  destruct Hf as [-> |[-> |[Hf H1]]]; [done..|]. split; [intros _; exact H1|by rewrite Hf].
Qed.

Lemma l3_hlen npc npc1 fl :
  nbuf_wf (npc_nbuf npc1) → l3_parsed npc npc1 fl → 20 <= npc_hlen npc1 < 2 ^ 31.
Proof.
  intros (_ & _ & H31) Hl3. destruct (l3_in _ _ _ Hl3) as [H|H]; destruct_ands;
    unfold plen, nbuf_datalen in *; lia.
Qed.

(** Going [again:] decreases the measure. *)
Lemma again_measure_decr npc0 npc1 npc2 fl l4 :
  nbuf_wf (npc_nbuf npc0) → nbuf_wf (npc_nbuf npc1) → pkt npc1 = pkt npc0 →
  nbuf_offset (npc_nbuf npc1) = nbuf_offset (npc_nbuf npc0) →
  l3_parsed npc0 npc1 fl → l4_parsed npc1 npc2 l4 →
  nbuf_flag_p (npc_nbuf npc0) NBUF_DATAREF_RESET = false →
  nbuf_flag_p (npc_nbuf npc2) NBUF_DATAREF_RESET = true →
  again_measure npc2 < again_measure npc0.
Proof.
  intros W0 W1 P1 O1 Hl3 Hl4 F0 F2.
  pose proof (l3_hlen _ _ _ W1 Hl3) as Hh. destruct Hl4 as [W2 P2 _ _ _ _ Hoff].
  pose proof (nbuf_offset_wf _ W2) as [_ Hr2]. pose proof (head_len_le _ W2) as Hh2.
  pose proof (nbuf_offset_wf _ W0) as [_ Hr0]. pose proof (head_len_le _ W0) as Hh0.
  assert (plen npc2 = plen npc0) as Hd by (apply datalen_packet; unfold pkt in *; congruence).
  unfold again_measure, plen, nbuf_datalen in *. rewrite O1 in Hoff.
  destruct Hoff as [[Hg ->] | ->]; [|nia].
  pose proof (transitivity (l3_grows _ _ _ Hl3) Hg) as Hgr.
  destruct (grows_flag _ _ Hgr F2); [congruence|]. nia.
Qed.

(** Leaving with a layer-3 and a layer-4 result. *)
Lemma cache_ok_join npc0 npc1 npc2 fl l4 i :
  l3_parsed npc0 npc1 fl → l4_parsed npc1 npc2 l4 →
  (fl &&& NPC_IP46 =? 0) || flag fl NPC_IPFRAG || flag fl NPC_FMTERR = false →
  negb (l4 =? 0) && negb (bool_decide (is_Some (npc_l4 npc2))) = false →
  cache_ok (set_info npc2 i) (fl ||| l4).
Proof.
  intros [Hfl Hal Hin _] [_ P2 _ (Hs & Hd & Ha & Hi & Hh) Hl4 Hb _] Hg Herr.
  assert (l3_bounds (set_info npc2 i)) as Hb3.
  { unfold l3_bounds, plen in *. simpl. rewrite Hs, Hd, Ha, Hi, Hh.
    by rewrite (datalen_packet (npc_nbuf npc1)) by done. }
  assert (flag l4 NPC_LAYER4 = true → l4_bounds npc2 l4) as Hb4.
  { intros Hf. apply Hb; [done|]. destruct (bool_decide_reflect (is_Some (npc_l4 npc2))); [done|].
    destruct (l4 =? 0) eqn:E; bool_to_prop; [by subst|done]. }
  assert (fl = NPC_IP4 ∨ fl = NPC_IP6) as [-> | ->]
    by (set_unfold in Hfl; destruct_or!; subst; auto; done).
  all: unfold l4_flags in Hl4; set_unfold in Hl4; destruct_or!; subst l4; simpl in *.
  all: split; [intros _; split; [simpl; congruence|done]|].
  all: try done; intros _; destruct (Hb4 eq_refl) as (o & ? & ? & ? & ?); exists o; auto.
Qed.

Lemma npf_cache_again_spec fuel : ∀ npc,
  nbuf_wf (npc_nbuf npc) → bytes_ok (pkt npc) → again_measure npc < Z.of_nat fuel →
  ∃ fl npc', npf_cache_again fuel npc = Some (fl, npc') ∧
    nbuf_wf (npc_nbuf npc') ∧ pkt npc' = pkt npc ∧ npc_info npc' = npc_info npc ||| fl ∧
    nbuf_flag_p (npc_nbuf npc') NBUF_DATAREF_RESET = false ∧ cache_ok npc' fl.
Proof.
  induction fuel as [|fuel IH]; intros npc Hwf Hb Hm.
  { pose proof (nbuf_offset_wf _ Hwf) as [_ Hor]. pose proof (head_len_le _ Hwf) as Hhd.
    unfold again_measure, plen, nbuf_datalen in *. nia. }
  cbn [npf_cache_again]. set (npc0 := set_nbuf npc _).
  assert (nbuf_wf (npc_nbuf npc0)) as Hwf0 by done.
  destruct (npf_cache_ip_spec npc0 Hwf0 Hb) as (fl & npc1 & -> & W1 & P1 & I1 & L1 & Hfl).
  change (pkt npc0) with (pkt npc) in P1. change (npc_info npc0) with (npc_info npc) in I1.
  destruct (_ || _ || _) eqn:Ebad.
  { apply (npf_cache_out_spec npc npc1 fl); auto.
    destruct Hfl as [-> |[-> |[Hl3 _]]]; [by auto..|]. right. right. split; [|by destruct Hl3].
    pose proof (l3_flags _ _ _ Hl3) as Hin. clear -Hin Ebad.
    set_unfold in Hin. destruct_or!; subst; done. }
  destruct Hfl as [-> |[-> |[Hl3 Ho1]]]; [done..|].
  pose proof (l3_hlen _ _ _ W1 Hl3) as Hh.
  pose proof (npf_cache_l4_spec npc1 W1 Hh) as Hl4.
  destruct (npf_cache_l4 npc1) as [l4 npc2]. cbn [fst snd] in Hl4.
  destruct (negb (l4 =? 0) && _) eqn:Eerr.
  { apply (npf_cache_out_spec npc npc2 NPC_FMTERR); auto; destruct Hl4; congruence. }
  destruct (nbuf_flag_p (npc_nbuf npc2) NBUF_DATAREF_RESET) eqn:Eflag.
  - destruct (IH npc2) as (fl' & npc' & ? & ? & ? & ? & ? & ?).
    + apply Hl4.
    + rewrite (l4_pkt _ _ _ Hl4). by rewrite P1.
    + pose proof (again_measure_decr npc0 npc1 npc2 fl l4 Hwf0 W1 P1 Ho1 Hl3 Hl4
        (unset_reset _) Eflag) as Hd. change (again_measure npc0) with (again_measure npc) in Hd. lia.
    + exists fl', npc'. destruct Hl4. split_and!; auto; congruence.
  - eexists _, _. split; [done|]. cbn [npc_nbuf npc_info set_info].
    split; [apply Hl4|]. split; [rewrite <- P1; apply Hl4|].
    split; [rewrite (l4_info _ _ _ Hl4), I1; done|]. split; [done|].
    by apply (cache_ok_join npc0 npc1 npc2).
Qed.

Lemma npf_cache_all_spec npc : nbuf_wf (npc_nbuf npc) → bytes_ok (pkt npc) →
  ∃ fl npc', npf_cache_all npc = Some (fl, npc') ∧
    nbuf_wf (npc_nbuf npc') ∧ pkt npc' = pkt npc ∧ npc_info npc' = npc_info npc ||| fl ∧
    nbuf_flag_p (npc_nbuf npc') NBUF_DATAREF_RESET = false ∧ cache_ok npc' fl.
Proof.
  intros Hwf Hb. apply npf_cache_again_spec; [done..|].
  pose proof (nbuf_offset_wf _ Hwf) as [_ Hor]. pose proof (head_len_le _ Hwf) as Hhd.
  unfold again_measure, cache_fuel, plen. unfold nbuf_datalen, m_length in *. fold (packet (npc_nbuf npc)) in *.
  fold (pkt npc) in *. nia.
Qed.

(** C17: [npf_cache_all] terminates on every packet and mbuf chain, never
    changes a byte of the packet, leaves no data reference outdated, and
    every pointer it reports is safe: when an IP header is reported, the whole
    header of the reported length (IPv4 with its options, IPv6 with its
    extension headers, at least 20 or 40 bytes) and the address fields in it
    lie inside the packet, and when a layer 4 header is, the fixed part of the
    TCP header (with a data offset of at least 5 words), UDP or ICMP header
    does. *)
Theorem npf_cache_all_in_bounds npc :
  nbuf_wf (npc_nbuf npc) → bytes_ok (pkt npc) →
  ∃ fl npc', npf_cache_all npc = Some (fl, npc') ∧ pkt npc' = pkt npc ∧
    nbuf_flag_p (npc_nbuf npc') NBUF_DATAREF_RESET = false ∧
    (flag fl NPC_IP46 = true →
       (npc_alen npc' = 4 ∧ 20 <= npc_hlen npc' ∨ npc_alen npc' = 16 ∧ 40 <= npc_hlen npc') ∧
       0 <= npc_ip npc' ∧ npc_ip npc' + npc_hlen npc' <= plen npc ∧
       ∀ which, npc_ip npc' <= npc_ips npc' which ∧ npc_ips npc' which + npc_alen npc' <= npc_ip npc' + npc_hlen npc') ∧
    (flag fl NPC_LAYER4 = true → ∃ o, npc_l4 npc' = Some o ∧ 0 <= o ∧ o + 8 <= plen npc ∧
       (flag fl NPC_TCP = true → o + 20 <= plen npc ∧ 5 <= th_off (pkt npc) o)).
Proof.
  intros Hwf Hb. destruct (npf_cache_all_spec npc Hwf Hb) as (fl & npc' & E & W & P & _ & F & H3 & H4).
  assert (plen npc' = plen npc) as Hd by (apply datalen_packet, P).
  exists fl, npc'. split; [done|]. split; [done|]. split; [done|]. split.
  - intros Hf. destruct (H3 Hf) as [_ Hin]. unfold l3_bounds in Hin. rewrite Hd in Hin.
    split_and!; [destruct Hin; destruct_ands; lia..|]. intros []; simpl; destruct Hin; destruct_ands; lia.
  - intros Hf. destruct (H4 Hf) as (o & Ho & Hp & Hin & Hoff). rewrite Hd, P in *.
    exists o. split; [done|]. split; [done|]. destruct (flag fl NPC_TCP); [|by auto].
    split; [lia|]. auto.
Qed.

(** ** Contiguous packets: the reference parser *)

(** A packet in a single mbuf, cursor at its start, fresh cache. *)
Definition flat_npc (ctx : npf_ip_params) (p : list Z) (ifid : Z) : npf_cache_t :=
  mk_npc ctx 0 (mk_nbuf [p] 0 0 ifid 0) 0 0 0 0 0 0 None None.

Definition blen (p : list Z) : Z := Z.of_nat (length p).

(** RFC 791: more fragments to come, or not the first one. *)
Definition ip4_is_fragment (p : list Z) : bool := negb (ntohs (ip_off p 0) mod 2 ^ 14 =? 0).

Definition flat_l4 (p : list Z) (proto hl : Z) : Z :=
  if proto =? IPPROTO_TCP then
    if (hl + 20 <=? blen p) && (5 <=? th_off p hl) then NPC_IP4 ||| NPC_LAYER4 ||| NPC_TCP
    else NPC_FMTERR
  else if proto =? IPPROTO_UDP then
    if hl + 8 <=? blen p then NPC_IP4 ||| NPC_LAYER4 ||| NPC_UDP else NPC_FMTERR
  else if (proto =? IPPROTO_ICMP) || (proto =? IPPROTO_ICMPV6) then
    if hl + 8 <=? blen p then NPC_IP4 ||| NPC_LAYER4 ||| NPC_ICMP else NPC_FMTERR
  else NPC_IP4.

Definition flat_cache4 (ctx : npf_ip_params) (p : list Z) : Z :=
  let hl := 4 * (rd8 p 0 mod 16) in
  if (blen p <? 20) || (hl <? 20) || (negb (hl =? 20) && ip4_drop_options ctx) || (blen p <? hl)
  then NPC_FMTERR
  else if ip4_is_fragment p then NPC_IP4 ||| NPC_IPFRAG
  else flat_l4 p (ip_p p 0) hl.

(** The flags alone; the mbuf operations on a chain of one mbuf. *)
Lemma flat_ensure p k i fl len : 0 <= k <= blen p → blen p < 2 ^ 31 → 0 <= len →
  let nb := mk_nbuf [p] 0 k i fl in
  (k + len <= blen p → nbuf_ensure_contig nb len = (Some k, nb)) ∧
  (blen p < k + len → fst (nbuf_ensure_contig nb len) = None).
Proof.
  intros Hk H31 Hl nb.
  assert (nbuf_wf nb) as Hwf.
  { unfold nbuf_wf, nb. simpl. rewrite m_length_cons.
    change (m_length []) with 0. unfold m_buflen. unfold blen in *. lia. }
  assert (nbuf_offset nb = k) as Ho.
  { destruct (nbuf_offset_wf nb Hwf) as [-> _]. unfold bytes_before, nb. simpl. done. }
  split.
  - intros Hin. unfold nbuf_ensure_contig. rewrite (proj2 (Z.ltb_ge _ _)).
    + unfold nbuf_dataptr. by rewrite Ho.
    + unfold cur_mbuf, nb, m_buflen, blen in *. simpl. lia.
  - intros Hout. pose proof (nbuf_ensure_contig_spec nb len Hwf Hl) as Hs.
    destruct (nbuf_ensure_contig nb len) as [[o|] nb']; [|done]. exfalso.
    destruct Hs as (Hw' & Hp & _ & _ & Hr). destruct (Hr o eq_refl) as (-> & Hc & _).
    apply contig_in in Hc; [|done]. rewrite (datalen_packet nb nb' Hp), Ho in Hc.
    unfold nbuf_datalen, nb in Hc. simpl in Hc. rewrite m_length_cons in Hc.
    change (m_length []) with 0 in Hc. unfold m_buflen, blen in *. lia.
Qed.

Lemma flat_advance p i len e : blen p < 2 ^ 31 → 0 <= len < 2 ^ 31 → 0 < e →
  let nb := mk_nbuf [p] 0 0 i 0 in
  (len + e <= blen p → nbuf_advance nb len e = (Some len, mk_nbuf [p] 0 len i 0)) ∧
  (blen p < len + e → fst (nbuf_advance nb len e) = None).
Proof.
  intros H31 Hl He nb. unfold nbuf_advance, nb. simpl.
  unfold cur_mbuf. simpl. rewrite !(wrap_small 32) by (unfold inw, m_buflen, blen in *; lia).
  change (m_buflen p) with (blen p).
  rewrite !Z.add_0_l.
  destruct (blen p <=? len) eqn:E; bool_to_prop; [split; [lia|done]|].
  rewrite (proj2 (Z.eqb_neq e 0)) by lia.
  simpl. change (m_buflen p) with (blen p). replace (len - (blen p - blen p)) with len by lia.
  apply flat_ensure; lia.
Qed.
Lemma ip4_fragment_test p : bytes_ok p →
  flag (ip_off p 0) (Z.lnot (htons (IP_DF ||| IP_RF))) = ip4_is_fragment p.
Proof.
  intros Hb. unfold ip4_is_fragment, flag. f_equal.
  assert (inw 16 (ip_off p 0)) as Hx.
  { unfold ip_off, rd16, inw. pose proof (rd8_range p (0 + 6) Hb).
    pose proof (rd8_range p (0 + 6 + 1) Hb). lia. }
  set (x := ip_off p 0) in *. change (htons (IP_DF ||| IP_RF)) with 192.
  apply eq_true_iff_eq. rewrite !Z.eqb_eq. unfold bswap16, inw in *.
  change (2 ^ 16) with 65536 in *. rewrite land_ff, lor_add_disjoint, Z.shiftr_div_pow2;
    [|lia|lia|unfold inw; rewrite Z.shiftr_div_pow2 by lia; Z.to_euclidean_division_equations; lia].
  change (2 ^ 8) with 256. change (2 ^ 14) with 16384.
  rewrite <- Z.ldiff_land. split.
  - intros H. assert (x = Z.land x 192) as E.
    { apply Z.bits_inj'. intros i Hi. apply (f_equal (λ z, Z.testbit z i)) in H.
      rewrite Z.ldiff_spec, Z.bits_0 in H. rewrite Z.land_spec.
      by destruct (Z.testbit x i), (Z.testbit 192 i). }
    change 192 with (Z.ones 2 * 2 ^ 6) in E. rewrite <- Z.shiftl_mul_pow2 in E by lia.
    assert (x = ((x / 64) mod 4) * 64) as E'.
    { rewrite E at 1. apply Z.bits_inj'. intros i Hi.
      rewrite <- (Z.shiftl_mul_pow2 _ 6), <- (Z.land_ones _ 2), Z.land_spec by lia.
      destruct (Z.lt_ge_cases i 6); [rewrite !Z.shiftl_spec_low by lia; apply andb_false_r|].
      rewrite !Z.shiftl_spec, Z.land_spec by lia. f_equal.
      rewrite <- (Z.shiftr_div_pow2 _ 6), Z.shiftr_spec by lia. f_equal. lia. }
    Z.to_euclidean_division_equations; lia.
  - intros H. assert (x = ((x / 64) mod 4) * 64) as E' by (Z.to_euclidean_division_equations; lia).
    assert (∃ k, 0 <= k < 4 ∧ x = k * 64) as (k & Hk & ->)
      by (exists (x / 64 mod 4); split; [apply Z.mod_pos_bound; lia|done]).
    assert (k = 0 ∨ k = 1 ∨ k = 2 ∨ k = 3) as Hc by lia. by destruct_or!; subst.
Qed.

Lemma flat_npc_wf ctx p ifid : blen p < 2 ^ 31 → nbuf_wf (npc_nbuf (flat_npc ctx p ifid)).
Proof.
  intros H. unfold nbuf_wf, flat_npc. simpl. rewrite m_length_cons.
  change (m_length []) with 0. unfold m_buflen, blen in *. lia.
Qed.

(** Layer 3 of a contiguous IPv4 packet. *)
Lemma flat_cache_ip4 ctx p ifid : bytes_ok p → blen p < 2 ^ 31 → rd8 p 0 >>> 4 = 4 →
  let hl := 4 * (rd8 p 0 mod 16) in
  let '(fl, npc') := npf_cache_ip4 (flat_npc ctx p ifid) in
  if (blen p <? 20) || (hl <? 20) || (negb (hl =? 20) && ip4_drop_options ctx) || (blen p <? hl)
  then fl = NPC_FMTERR
  else fl = (if ip4_is_fragment p then NPC_IPFRAG else 0) ||| NPC_IP4 ∧
    npc' = mk_npc ctx 0 (mk_nbuf [p] 0 0 ifid 0) 12 16 4 hl (ip_p p 0) 0 None None.
Proof.
  intros Hb H31 Hver hl. unfold npf_cache_ip4, flat_npc. cbn [npc_nbuf].
  assert (∀ nb, packet (mk_nbuf [p] 0 0 nb 0) = p) as Hpk by (intros; apply app_nil_r).
  assert (0 <= blen p) as H0 by (unfold blen; lia).
  destruct (flat_ensure p 0 ifid 0 sizeof_ip ltac:(lia) H31 ltac:(done)) as [Hok Hno].
  unfold sizeof_ip in *. destruct (blen p <? 20) eqn:E1; bool_to_prop; simpl orb.
  { destruct (nbuf_ensure_contig _ _) as [r nb]. simpl in Hno. by rewrite Hno by lia. }
  rewrite Hok by lia. unfold pkt. cbn [npc_nbuf set_nbuf set_l3 npc_ctx]. rewrite !Hpk.
  assert (ip_hl p 0 <<< 2 = hl) as Hhl.
  { unfold ip_hl, hl. change 15 with (2 ^ 4 - 1). rewrite land_ones_mod, Z.shiftl_mul_pow2 by lia.
    change (2 ^ 4) with 16. lia. }
  rewrite Hhl. destruct (hl <? 20) eqn:E2; simpl orb; [done|].
  replace (ip_hl p 0 =? 5) with (hl =? 20).
  2:{ rewrite <- Hhl, Z.shiftl_mul_pow2 by lia. apply eq_true_iff_eq. rewrite !Z.eqb_eq. lia. }
  destruct (negb (hl =? 20) && ip4_drop_options ctx); simpl orb; [done|]. bool_to_prop.
  destruct (flat_ensure p 0 ifid 0 hl ltac:(lia) H31 ltac:(lia)) as [Hok2 Hno2].
  destruct (blen p <? hl) eqn:E3; bool_to_prop.
  { destruct (nbuf_ensure_contig _ hl) as [r nb]. simpl in Hno2. by rewrite Hno2 by lia. }
  rewrite Hok2 by lia. cbn [npc_nbuf set_nbuf set_l3 set_proto_hlen npc_ctx]. rewrite !Hpk.
  split; [|by rewrite Hhl]. by rewrite ip4_fragment_test.
Qed.

(** Layer 4 after it: the result agrees with the reference flags [fl]. *)
Definition flat_l4_agrees (npc : npf_cache_t) (fl : Z) (res : Z * npf_cache_t) : Prop :=
  let '(l4, npc') := res in
  npc_info npc' = npc_info npc ∧
  if flag fl NPC_FMTERR then l4 ≠ 0 ∧ npc_l4 npc' = None ∧ fl = NPC_FMTERR
  else fl = NPC_IP4 ||| l4 ∧ nbuf_flag_p (npc_nbuf npc') NBUF_DATAREF_RESET = false ∧
    npc_hlen npc' = npc_hlen npc ∧ npc_proto npc' = npc_proto npc ∧
    npc_src npc' = npc_src npc ∧ npc_dst npc' = npc_dst npc ∧
    (l4 = 0 ∨ npc_l4 npc' = Some (npc_hlen npc)).

Section flat_l4.
Context (p : list Z) (npc : npf_cache_t) (ifid : Z).
Hypothesis Hnb : npc_nbuf npc = mk_nbuf [p] 0 0 ifid 0.
Hypothesis Hl4 : npc_l4 npc = None.
Hypothesis H31 : blen p < 2 ^ 31.
Hypothesis Hh : 20 <= npc_hlen npc < 2 ^ 31.

Lemma flat_cache_l4_adv k : k ≠ 0 → flag (NPC_IP4 ||| NPC_LAYER4 ||| k) NPC_FMTERR = false →
  flat_l4_agrees npc
    (if npc_hlen npc + 8 <=? blen p then NPC_IP4 ||| NPC_LAYER4 ||| k else NPC_FMTERR)
    (npf_cache_l4_adv npc (npc_hlen npc) 8 (NPC_LAYER4 ||| k)).
Proof.
  intros Hk Hf. unfold npf_cache_l4_adv. rewrite Hnb.
  destruct (flat_advance p ifid (npc_hlen npc) 8 H31 ltac:(lia) ltac:(lia)) as [U1 U2].
  destruct (npc_hlen npc + 8 <=? blen p) eqn:E; bool_to_prop.
  - rewrite U1 by lia. unfold flat_l4_agrees. rewrite Hf, Z.lor_assoc. split_and!; auto.
  - destruct (nbuf_advance _ _ 8) as [r nb]. simpl in U2. rewrite U2 by lia. simpl.
    split_and!; try done. intros H. apply Z.lor_eq_0_iff in H as [? _]. done.
Qed.

Lemma flat_cache_tcp :
  flat_l4_agrees npc
    (if (npc_hlen npc + 20 <=? blen p) && (5 <=? th_off p (npc_hlen npc))
     then NPC_IP4 ||| NPC_LAYER4 ||| NPC_TCP else NPC_FMTERR)
    (npf_cache_tcp npc (npc_hlen npc)).
Proof.
  unfold npf_cache_tcp, sizeof_tcphdr. rewrite Hnb.
  destruct (flat_advance p ifid (npc_hlen npc) 20 H31 ltac:(lia) ltac:(lia)) as [T1 T2].
  destruct (npc_hlen npc + 20 <=? blen p) eqn:E; bool_to_prop; simpl andb.
  - rewrite T1 by lia. unfold pkt. cbn [npc_nbuf set_nbuf].
    replace (packet (mk_nbuf [p] 0 (npc_hlen npc) ifid 0)) with p by (symmetry; apply app_nil_r).
    rewrite (Z.ltb_antisym 5). destruct (5 <=? th_off p (npc_hlen npc)); simpl; [|done].
    split_and!; auto.
  - destruct (nbuf_advance _ _ 20) as [r nb]. simpl in T2. by rewrite T2 by lia.
Qed.

Lemma flat_cache_l4 :
  flat_l4_agrees npc (flat_l4 p (npc_proto npc) (npc_hlen npc)) (npf_cache_l4 npc).
Proof.
  unfold npf_cache_l4, flat_l4.
  destruct (npc_proto npc =? IPPROTO_TCP); [apply flat_cache_tcp|].
  destruct (npc_proto npc =? IPPROTO_UDP); [by apply flat_cache_l4_adv|].
  destruct (npc_proto npc =? IPPROTO_ICMP); [by apply flat_cache_l4_adv|].
  destruct (npc_proto npc =? IPPROTO_ICMPV6); [by apply flat_cache_l4_adv|].
  simpl. rewrite Hnb. split_and!; auto.
Qed.
End flat_l4.

(** C40: on a contiguous IPv4 packet [npf_cache_all] computes what the
    reference parser [flat_cache4] says: format errors for truncated or
    malformed headers (or IP options, when they are to be dropped), fragments
    recognised as in RFC 791 and not looked into, and otherwise the layer-4
    header found at the end of the IP header. *)
Theorem npf_cache_all_flat4 ctx p ifid :
  bytes_ok p → blen p < 2 ^ 31 → rd8 p 0 >>> 4 = 4 →
  ∃ npc', npf_cache_all (flat_npc ctx p ifid) = Some (flat_cache4 ctx p, npc') ∧
    npc_info npc' = flat_cache4 ctx p ∧
    (flag (flat_cache4 ctx p) NPC_IP4 = true →
      npc_src npc' = 12 ∧ npc_dst npc' = 16 ∧ npc_proto npc' = ip_p p 0 ∧
      npc_hlen npc' = 4 * (rd8 p 0 mod 16)) ∧
    (flag (flat_cache4 ctx p) NPC_LAYER4 = true →
      npc_l4 npc' = Some (4 * (rd8 p 0 mod 16))).
Proof.
  intros Hb H31 Hver. unfold npf_cache_all, cache_fuel.
  change (S (length (pkt (flat_npc ctx p ifid))) * S (length (pkt (flat_npc ctx p ifid))))%nat
    with (S (length (pkt (flat_npc ctx p ifid)) +
      length (pkt (flat_npc ctx p ifid)) * S (length (pkt (flat_npc ctx p ifid)))))%nat.
  cbn [npf_cache_again].
  change (set_nbuf (flat_npc ctx p ifid) _) with (flat_npc ctx p ifid).
  assert (npf_cache_ip (flat_npc ctx p ifid) = Some (npf_cache_ip4 (flat_npc ctx p ifid))) as ->.
  { unfold npf_cache_ip. replace (pkt (flat_npc ctx p ifid)) with p by (symmetry; apply app_nil_r).
    replace (nbuf_dataptr (npc_nbuf (flat_npc ctx p ifid))) with 0; [by rewrite Hver|].
    unfold nbuf_dataptr, nbuf_offset. simpl. rewrite Z.sub_diag. reflexivity. }
  pose proof (flat_cache_ip4 ctx p ifid Hb H31 Hver) as Hip. unfold flat_cache4.
  pose proof (npf_cache_ip4_spec (flat_npc ctx p ifid)) as Hsp.
  destruct (npf_cache_ip4 _) as [fl npc1]. cbv zeta in Hip. set (hl := 4 * (rd8 p 0 mod 16)) in *.
  destruct Hsp as (_ & _ & _ & Hinfo & _); [apply flat_npc_wf; done|].
  destruct (_ || _ || _ || _) eqn:Ebad.
  { subst fl. eexists. split; [done|]. simpl. by rewrite Hinfo. }
  destruct Hip as [-> Hnpc]. destruct (ip4_is_fragment p).
  { subst npc1. eexists. split; [done|]. simpl. by split_and!. }
  subst npc1. set (npc1 := mk_npc _ _ _ _ _ _ _ _ _ _ _).
  bool_to_prop. pose proof (flat_cache_l4 p npc1 ifid eq_refl eq_refl H31 ltac:(simpl; lia)) as Hl4.
  change (npc_proto npc1) with (ip_p p 0) in Hl4. change (npc_hlen npc1) with hl in Hl4.
  change (npf_cache_l4 _) with (npf_cache_l4 npc1).
  destruct (npf_cache_l4 npc1) as [l4 npc2]. destruct Hl4 as [Hi2 Hl4].
  change (_ || _ || _) with false. cbv iota.
  destruct (flag (flat_l4 p (ip_p p 0) hl) NPC_FMTERR) eqn:Ef.
  - destruct Hl4 as (Hn & -> & ->). rewrite (proj2 (Z.eqb_neq _ _) Hn). simpl.
    eexists. split; [done|]. simpl. by rewrite Hi2.
  - destruct Hl4 as (-> & -> & Hh & Hp & Hs & Hd & Hl4).
    replace (negb (l4 =? 0) && _) with false.
    2:{ symmetry. apply andb_false_iff. destruct Hl4 as [-> | ->]; auto. }
    eexists. split; [done|]. simpl. rewrite Hi2, Hh, Hp, Hs, Hd. split_and!; try done.
    intros Hf. destruct Hl4 as [-> |]; [|done]. done.
Qed.
End laws.

(** ** Sample packets *)

(** A TCP SYN from 10.0.0.1:12345 to 10.0.0.2:80. *)
Definition sample_tcp4 : list Z :=
  [0x45; 0; 0; 40; 0; 1; 0; 0; 64; 6; 0x66; 0xcd; 10; 0; 0; 1; 10; 0; 0; 2;
   0x30; 0x39; 0; 80; 0; 0; 0; 1; 0; 0; 0; 0; 0x50; 2; 0x20; 0; 0x4b; 0x56; 0; 0].

(** An IPv6 packet with a hop-by-hop header and 8 bytes of UDP. *)
Definition sample_udp6 : list Z :=
  [0x60; 0; 0; 0; 0; 16; 0; 64] ++ replicate 15 0 ++ [1] ++ replicate 15 0 ++ [2] ++
  [17; 0; 1; 4; 0; 0; 0; 0] ++ [0; 53; 0; 53; 0; 8; 0; 0].

Definition no_drop : npf_ip_params := mk_ip_params false false.

(** The packet in the mbufs [c], cursor at its start, fresh cache. *)
Definition chain_npc (c : list mbuf) : npf_cache_t :=
  mk_npc no_drop 0 (mk_nbuf c 0 0 1 0) 0 0 0 0 0 0 None None.

Lemma bytes_ok_concrete p : forallb (λ b, (0 <=? b) && (b <? 256)) p = true → bytes_ok p.
Proof.
  intros H. apply Forall_forall. intros b Hb. rewrite forallb_forall in H.
  apply list_elem_of_In, H in Hb. apply andb_prop in Hb as [H1 H2]. bool_to_prop.
  unfold inw. change (2 ^ 8) with 256. lia.
Qed.

Lemma npf_cache_all_in_bounds_witness :
  ∃ fl npc', @npf_cache_all linear_mbufops (flat_npc no_drop sample_udp6 1) = Some (fl, npc') ∧
    pkt npc' = pkt (flat_npc no_drop sample_udp6 1).
Proof.
  destruct (@npf_cache_all_in_bounds linear_mbufops linear_mbufops_laws
    (flat_npc no_drop sample_udp6 1)) as (fl & npc' & H & Hp & _).
  - apply flat_npc_wf. vm_compute. reflexivity.
  - apply bytes_ok_concrete. vm_compute. reflexivity.
  - exists fl, npc'. split; [exact H|exact Hp].
Defined.

Example sample_udp6_cached :
  match @npf_cache_all linear_mbufops (flat_npc no_drop sample_udp6 1) with
  | Some (fl, npc) => fl = NPC_IP6 ||| NPC_LAYER4 ||| NPC_UDP ∧ npc_l4 npc = Some 48
  | None => False
  end.
Proof. vm_compute. done. Qed.

(** A dummy fragment (RFC 6946) of a UDP datagram: in one mbuf it is parsed as
    UDP; when the fragment header is split between mbufs, the next header is
    read through a pointer from before the re-arrangement, here to memory that
    was cleared, and the packet is not. *)
Definition sample_atomic6 : list Z :=
  [0x60; 0; 0; 0; 0; 16; 44; 64] ++ replicate 15 0 ++ [1] ++ replicate 15 0 ++ [2] ++
  [17; 0; 0; 0; 0; 0; 0; 7] ++ [0; 53; 0; 53; 0; 8; 0; 0].

Theorem ip6_dummy_fragment_stale :
  fst <$> @npf_cache_all linear_mbufops (flat_npc no_drop sample_atomic6 1) = Some (NPC_IP6 ||| NPC_LAYER4 ||| NPC_UDP) ∧
  fst <$> @npf_cache_all linear_mbufops (chain_npc [take 42 sample_atomic6; drop 42 sample_atomic6]) = Some NPC_FMTERR.
Proof. vm_compute. split; reflexivity. Qed.

Lemma npf_cache_all_flat4_witness :
  ∃ npc', @npf_cache_all linear_mbufops (flat_npc no_drop sample_tcp4 1)
      = Some (NPC_IP4 ||| NPC_LAYER4 ||| NPC_TCP, npc') ∧ npc_l4 npc' = Some 20.
Proof.
  destruct (@npf_cache_all_flat4 linear_mbufops linear_mbufops_laws no_drop sample_tcp4 1)
    as (npc' & H & _ & _ & Hl4).
  - apply bytes_ok_concrete. vm_compute. reflexivity.
  - vm_compute. reflexivity.
  - reflexivity.
  - exists npc'. split; [exact H|exact (Hl4 eq_refl)].
Defined.

(** The jump to [again:] does not rewind the cursor: when making the layer-4
    header contiguous re-arranges the chain, the second pass parses the
    layer-4 header as if it were an IP header.  The same bytes in one mbuf and
    in two give different caches: in two, not even IPv4 is recognised. *)
Theorem npf_cache_all_again_not_rewound :
  pkt (chain_npc [take 30 sample_tcp4; drop 30 sample_tcp4]) = pkt (chain_npc [sample_tcp4]) ∧
  fst <$> @npf_cache_all linear_mbufops (chain_npc [sample_tcp4])
    = Some (NPC_IP4 ||| NPC_LAYER4 ||| NPC_TCP) ∧
  fst <$> @npf_cache_all linear_mbufops (chain_npc [take 30 sample_tcp4; drop 30 sample_tcp4])
    = Some 0.
Proof. vm_compute. done. Qed.

End Cache.
