(* ===== verification/Rewrite.v ===== *)
(** * Rewrite: packet rewriting for NAT (src/kern/npf_inet.c)

    [npf_rwrip], [npf_rwrport], [npf_rwrcksum], [npf_napt_rwr] and
    [npf_npt66_rwr] on the packet's bytes.  A store through a cached pointer
    replaces bytes of the packet at that offset and keeps the mbuf layout. *)

From S2P Require Import Prelude Nbuf Cksum Addr Cache.
Open Scope Z_scope.
Open Scope npf_scope.

Module Rewrite.
Export Cache Addr Cksum.

(** ** Stores *)

Definition put8 (p : list Z) (o v : Z) : list Z := <[Z.to_nat o := v]> p.
Definition put16 (p : list Z) (o v : Z) : list Z :=
  put8 (put8 p o (v &&& 0xff)) (o + 1) (v >>> 8).
Definition put32 (p : list Z) (o v : Z) : list Z :=
  put16 (put16 p o (v &&& 0xffff)) (o + 2) (v >>> 16).
Fixpoint put_words (p : list Z) (o : Z) (ws : list Z) : list Z :=
  match ws with [] => p | w :: ws' => put_words (put32 p o w) (o + 4) ws' end.

Fixpoint rd_words (p : list Z) (o : Z) (n : nat) : list Z :=
  match n with O => [] | S n' => rd32 p o :: rd_words p (o + 4) n' end.

(** The chain [c] with the packet's bytes replaced by [p]. *)
Fixpoint resplit (c : list mbuf) (p : list Z) : list mbuf :=
  match c with
  | [] => []
  | m :: c' => take (length m) p :: resplit c' (drop (length m) p)
  end.

Definition set_pkt (npc : npf_cache_t) (p : list Z) : npf_cache_t :=
  let nb := npc_nbuf npc in
  set_nbuf npc (mk_nbuf (resplit (nb_mbuf0 nb) p) (nb_mbuf nb) (nb_nptr nb) (nb_ifid nb) (nb_flags nb)).

(** The layer-4 pointer as used after a check that it is cached. *)
Definition l4ptr (npc : npf_cache_t) : Z := default 0 (npc_l4 npc).

(** ** The code *)

Definition npf_rwrip (npc : npf_cache_t) (which : npf_which) (addr : npf_addr_t) :
    bool * npf_cache_t :=
  (true, set_pkt npc (put_words (pkt npc) (npc_ips npc which)
                        (take (Z.to_nat (npc_alen npc / 4)) addr))).

Definition npf_rwrport (npc : npf_cache_t) (which : npf_which) (port : Z) : bool * npf_cache_t :=
  let proto := npc_proto npc in
  let oport :=
    if proto =? IPPROTO_TCP then
      match which with NPF_SRC => l4ptr npc | NPF_DST => l4ptr npc + 2 end
    else
      match which with NPF_SRC => l4ptr npc | NPF_DST => l4ptr npc + 2 end in
  (true, set_pkt npc (put16 (pkt npc) oport port)).

Definition npf_rwrcksum (npc : npf_cache_t) (which : npf_which) (addr : npf_addr_t) (port : Z) :
    bool * npf_cache_t :=
  let proto := npc_proto npc in
  let alen := npc_alen npc in
  let oaddr := rd_words (pkt npc) (npc_ips npc which) (Z.to_nat (alen / 4)) in
  let npc :=
    if npf_iscached npc NPC_IP4 then
      let ipsum := ip_sum (pkt npc) (npc_ip npc) in
      set_pkt npc (put16 (pkt npc) (npc_ip npc + 10) (npf_addr_cksum ipsum alen oaddr addr))
    else npc in
  let finish ocksum oport :=
    let cksum := npf_addr_cksum (rd16 (pkt npc) ocksum) alen oaddr addr in
    let cksum := if negb (port =? 0) then npf_fixup16_cksum cksum oport port else cksum in
    (true, set_pkt npc (put16 (pkt npc) ocksum cksum)) in
  if proto =? IPPROTO_TCP then
    let th := l4ptr npc in
    finish (th + 16)
      (match which with NPF_SRC => th_sport (pkt npc) th | NPF_DST => th_dport (pkt npc) th end)
  else if proto =? IPPROTO_UDP then
    let uh := l4ptr npc in
    if uh_sum (pkt npc) uh =? 0 then (true, npc)
    else finish (uh + 6)
      (match which with NPF_SRC => uh_sport (pkt npc) uh | NPF_DST => uh_dport (pkt npc) uh end)
  else (true, npc).

Definition npf_napt_rwr (npc : npf_cache_t) (which : npf_which) (addr : npf_addr_t) (port : Z) :
    Z * npf_cache_t :=
  let proto := npc_proto npc in
  let '(ok, npc) := npf_rwrcksum npc which addr port in
  if negb ok then (EINVAL, npc) else
  let '(ok, npc) := npf_rwrip npc which addr in
  if negb ok then (EINVAL, npc) else
  if port =? 0 then (0, npc) else
  if (proto =? IPPROTO_TCP) || (proto =? IPPROTO_UDP) then
    let '(ok, npc) := npf_rwrport npc which port in
    if negb ok then (EINVAL, npc) else (0, npc)
  else if (proto =? IPPROTO_ICMP) || (proto =? IPPROTO_ICMPV6) then (0, npc)
  else (ENOTSUP, npc).

(** [addr->word16[i]] of an address in memory. *)
Definition word16 (a : npf_addr_t) (i : nat) : Z :=
  let w := default 0 (a !! Nat.div2 i) in if Nat.even i then w &&& 0xffff else w >>> 16.

(** [for (word = 4; word < 8; word++)]: the first word that is not 0xffff. *)
Fixpoint npt66_find_word (p : list Z) (addr : Z) (fuel : nat) (word : Z) : Z :=
  match fuel with
  | O => word
  | S f => if negb (rd16 p (addr + 2 * word) =? 0xffff) then word
           else npt66_find_word p addr f (word + 1)
  end.

Fixpoint npt66_prefix_loop (p : list Z) (addr : Z) (pref : npf_addr_t) (i n : nat) : list Z :=
  match n with
  | O => p
  | S n' =>
      npt66_prefix_loop (put16 p (addr + 2 * Z.of_nat i) (word16 pref i)) addr pref (S i) n'
  end.

(** [while (sum >> 16)]: a 17-bit sum folds in at most two turns. *)
Fixpoint npt66_fold (fuel : nat) (sum : Z) : Z :=
  match fuel with
  | O => sum
  | S f => if negb (sum >>> 16 =? 0) then npt66_fold f ((sum >>> 16) + (sum &&& 0xffff)) else sum
  end.

Definition npf_npt66_rwr (npc : npf_cache_t) (which : npf_which) (pref : npf_addr_t) (len adj : Z) :
    Z * npf_cache_t :=
  let addr := npc_ips npc which in
  let preflen := len >>> 4 in
  let p := pkt npc in
  if negb (npf_iscached npc NPC_IP6) then (EINVAL, npc) else
  let rewrite word :=
    let p := npt66_prefix_loop p addr pref 0 (Z.to_nat preflen) in
    let remnant := len - (preflen <<< 4) in
    let p :=
      if negb (remnant =? 0) then
        let wordmask := u16 ((1 <<< remnant) - 1) in
        let i := preflen in
        put16 p (addr + 2 * i)
          ((word16 pref (Z.to_nat i) &&& wordmask) |||
           (rd16 p (addr + 2 * i) &&& u16 (Z.lnot wordmask)))
      else p in
    let sum := npt66_fold 3 (rd16 p (addr + 2 * word) + adj) in
    let sum := if sum =? 0xffff then 0 else sum in
    (0, set_pkt npc (put16 p (addr + 2 * word) sum)) in
  if len <=? 48 then
    if rd16 p (addr + 2 * 3) =? 0xffff then (EINVAL, npc) else rewrite 3
  else if (rd32 p (addr + 8) =? 0) && (rd32 p (addr + 12) =? 0) ||
          (rd32 p (addr + 8) =? 0xffffffff) && (rd32 p (addr + 12) =? 0xffffffff)
  then (EINVAL, npc)
  else rewrite (npt66_find_word p addr 4 4).

(** ** Loads after stores *)

Lemma put8_length p o v : length (put8 p o v) = length p.
Proof. apply length_insert. Qed.

Lemma put16_length p o v : length (put16 p o v) = length p.
Proof. unfold put16. by rewrite !put8_length. Qed.

Lemma put_words_length ws : ∀ p o, length (put_words p o ws) = length p.
Proof.
  induction ws as [|w ws IH]; intros p o; [done|]. simpl. rewrite IH. unfold put32.
  by rewrite !put16_length.
Qed.

Lemma rd8_put8_eq p o v : 0 <= o < blen p → rd8 (put8 p o v) o = v.
Proof. intros H. unfold rd8, put8, blen in *. rewrite list_lookup_insert_eq; [done|lia]. Qed.

Lemma rd8_put8_ne p o q v : 0 <= o → 0 <= q → o ≠ q → rd8 (put8 p o v) q = rd8 p q.
Proof. intros. unfold rd8, put8. rewrite list_lookup_insert_ne; [done|lia]. Qed.

Lemma rd8_put16_ne p o q v :
  0 <= o → 0 <= q → q ≠ o → q ≠ o + 1 → rd8 (put16 p o v) q = rd8 p q.
Proof. intros. unfold put16. rewrite !rd8_put8_ne by lia. done. Qed.

Lemma rd16_put16_eq p o v : 0 <= o → o + 1 < blen p → inw 16 v → rd16 (put16 p o v) o = v.
Proof.
  intros Ho Hb Hv. unfold rd16, put16.
  rewrite (rd8_put8_ne _ (o + 1) o), rd8_put8_eq, rd8_put8_eq
    by (unfold blen in *; rewrite ?put8_length; lia).
  rewrite land_ff, Z.shiftr_div_pow2 by lia. change (2 ^ 8) with 256.
  pose proof (Z.div_mod v 256). lia.
Qed.

Lemma rd16_put16_ne p o q v :
  0 <= o → 0 <= q → q + 2 <= o ∨ o + 2 <= q → rd16 (put16 p o v) q = rd16 p q.
Proof. intros. unfold rd16. rewrite !rd8_put16_ne by lia. done. Qed.

Lemma bytes_ok_put16 p o v : bytes_ok p → inw 16 v → bytes_ok (put16 p o v).
Proof.
  intros Hp Hv. unfold put16, put8, inw in *. change (2 ^ 16) with 65536 in Hv.
  rewrite land_ff, Z.shiftr_div_pow2 by lia. change (2 ^ 8) with 256.
  repeat apply Forall_insert; try done; unfold inw; change (2 ^ 8) with 256;
    Z.to_euclidean_division_equations; lia.
Qed.

Lemma rd16_range p o : bytes_ok p → inw 16 (rd16 p o).
Proof.
  intros Hb. unfold rd16, inw. pose proof (rd8_range p o Hb).
  pose proof (rd8_range p (o + 1) Hb). lia.
Qed.

#[local] Hint Resolve rd16_range bytes_ok_put16 : npf.

Lemma rd32_range p o : bytes_ok p → inw 32 (rd32 p o).
Proof.
  intros Hb. unfold rd32, inw. pose proof (rd16_range p o Hb) as H1.
  pose proof (rd16_range p (o + 2) Hb) as H2. unfold inw in *. lia.
Qed.

Lemma halves_rd32 p o : bytes_ok p → halves (rd32 p o) = [rd16 p o; rd16 p (o + 2)].
Proof.
  intros Hb. unfold halves, rd32. pose proof (rd16_range p o Hb) as H1.
  unfold inw in H1. change (2 ^ 16) with 65536 in H1.
  f_equal; [|f_equal]; Z.to_euclidean_division_equations; lia.
Qed.

(** Storing through the cache keeps the layout of the chain. *)
Lemma concat_resplit c : ∀ p, length p = length (concat c) → concat (resplit c p) = p.
Proof.
  induction c as [|m c IH]; intros p Hl; simpl in *.
  - by destruct p.
  - rewrite length_app in Hl. rewrite IH by (rewrite length_drop; lia). apply take_drop.
Qed.

Lemma pkt_set_pkt npc p : length p = length (pkt npc) → pkt (set_pkt npc p) = p.
Proof. intros H. unfold pkt, packet. simpl. by apply concat_resplit. Qed.

Lemma resplit_id c : resplit c (concat c) = c.
Proof.
  induction c as [|m c IH]; [done|]. simpl.
  rewrite take_app_le, take_ge, drop_app_length by lia. by rewrite IH.
Qed.

Lemma resplit_resplit c : ∀ p q,
  length p = length (concat c) → resplit (resplit c p) q = resplit c q.
Proof.
  induction c as [|m c IH]; intros p q Hp; [done|]. simpl in *. rewrite length_app in Hp.
  rewrite length_take_le by lia. rewrite IH; [done|]. rewrite length_drop. lia.
Qed.

Lemma set_pkt_id npc : set_pkt npc (pkt npc) = npc.
Proof.
  destruct npc as [? ? [? ? ? ? ?] ? ? ? ? ? ? ? ?]. unfold set_pkt, set_nbuf, pkt, packet. simpl.
  by rewrite resplit_id.
Qed.

Lemma set_pkt_set_pkt npc p q :
  length p = length (pkt npc) → set_pkt (set_pkt npc p) q = set_pkt npc q.
Proof. intros H. unfold set_pkt, set_nbuf. simpl. by rewrite resplit_resplit. Qed.

(** ** Sums of 16-bit words *)

Fixpoint words_at (p : list Z) (o : Z) (n : nat) : list Z :=
  match n with O => [] | S n' => rd16 p o :: words_at p (o + 2) n' end.

Lemma words_at_range p n : ∀ o, bytes_ok p → Forall (inw 16) (words_at p o n).
Proof. induction n as [|n IH]; intros; simpl; constructor; auto with npf. Qed.

Lemma words_at_put16_disjoint p q v n : ∀ o,
  0 <= q → 0 <= o → q + 2 <= o ∨ o + 2 * Z.of_nat n <= q →
  words_at (put16 p q v) o n = words_at p o n.
Proof.
  induction n as [|n IH]; intros o Hq Ho Hd; [done|]. cbn [words_at].
  rewrite rd16_put16_ne, IH by lia. done.
Qed.

Lemma zsum_words_put16 p q v n : ∀ o k,
  q = o + 2 * Z.of_nat k → (k < n)%nat → 0 <= o → q + 1 < blen p → inw 16 v →
  zsum (words_at (put16 p q v) o n) = zsum (words_at p o n) - rd16 p q + v.
Proof.
  induction n as [|n IH]; intros o k Hq Hk Ho Hb Hv; [lia|].
  simpl. destruct k as [|k].
  - replace q with o in * by lia. rewrite rd16_put16_eq by (done || lia).
    rewrite words_at_put16_disjoint by lia. lia.
  - rewrite rd16_put16_ne by lia.
    rewrite (IH (o + 2) k) by (done || lia). lia.
Qed.

Lemma zsum_words_put32 p q w n o k :
  q = o + 2 * Z.of_nat k → (k + 1 < n)%nat → 0 <= o → q + 3 < blen p → inw 32 w →
  bytes_ok p →
  zsum (words_at (put32 p q w) o n)
    = zsum (words_at p o n) - zsum (halves (rd32 p q)) + zsum (halves w).
Proof.
  intros Hq Hk Ho Hb Hw Hp. pose proof (halves_range w Hw) as Hh.
  unfold halves in Hh. rewrite !Forall_cons in Hh. destruct Hh as (H1 & H2 & _).
  unfold put32. rewrite land_ffff, shiftr_16.
  rewrite (zsum_words_put16 _ _ _ n o (S k)), (zsum_words_put16 _ _ _ n o k)
    by (unfold blen in *; rewrite ?put16_length; (done || lia)).
  rewrite rd16_put16_ne, halves_rd32 by (done || lia). unfold halves, zsum. simpl. lia.
Qed.

Lemma bytes_ok_put32 p o w : bytes_ok p → inw 32 w → bytes_ok (put32 p o w).
Proof.
  intros Hp Hw. pose proof (halves_range w Hw) as Hh. unfold halves in Hh.
  rewrite !Forall_cons in Hh. destruct Hh as (H1 & H2 & _).
  unfold put32. rewrite land_ffff, shiftr_16. auto with npf.
Qed.

Lemma bytes_ok_put_words ws : ∀ p o, bytes_ok p → Forall (inw 32) ws → bytes_ok (put_words p o ws).
Proof.
  induction ws as [|w ws IH]; intros p o Hp Hws; [done|]. apply Forall_cons in Hws as [Hw Hws].
  simpl. apply IH; [by apply bytes_ok_put32|done].
Qed.

Lemma put32_length p o v : length (put32 p o v) = length p.
Proof. unfold put32. by rewrite !put16_length. Qed.

Lemma rd8_put32_ne p o q v : 0 <= o → 0 <= q → q < o ∨ o + 4 <= q → rd8 (put32 p o v) q = rd8 p q.
Proof. intros. unfold put32. rewrite !rd8_put16_ne by lia. done. Qed.

Lemma rd8_put_words_ne ws : ∀ p o q,
  0 <= o → 0 <= q → q < o ∨ o + 4 * Z.of_nat (length ws) <= q →
  rd8 (put_words p o ws) q = rd8 p q.
Proof.
  induction ws as [|w ws IH]; intros p o q Ho Hq Hd; [done|]. simpl in *.
  rewrite IH, rd8_put32_ne by lia. done.
Qed.

(** Loads only depend on the bytes they read. *)
Lemma rd16_ext p p' o : rd8 p o = rd8 p' o → rd8 p (o + 1) = rd8 p' (o + 1) → rd16 p o = rd16 p' o.
Proof. unfold rd16. by intros -> ->. Qed.

Lemma words_at_ext p p' n : ∀ o,
  (∀ i, o <= i < o + 2 * Z.of_nat n → rd8 p i = rd8 p' i) → words_at p o n = words_at p' o n.
Proof.
  induction n as [|n IH]; intros o H; [done|]. cbn [words_at].
  rewrite (rd16_ext p p'), (IH (o + 2)); [done|intros; apply H; lia|apply H; lia..].
Qed.

Lemma rd_words_length p n : ∀ o, length (rd_words p o n) = n.
Proof. induction n as [|n IH]; intros o; simpl; [done|]. by rewrite IH. Qed.

Lemma rd_words_ext p p' n : ∀ o,
  (∀ i, o <= i < o + 4 * Z.of_nat n → rd8 p i = rd8 p' i) → rd_words p o n = rd_words p' o n.
Proof.
  induction n as [|n IH]; intros o H; [done|]. cbn [rd_words]. unfold rd32.
  rewrite (rd16_ext p p' o), (rd16_ext p p' (o + 2)), (IH (o + 4));
    [done|intros; apply H; lia|apply H; lia..].
Qed.

Lemma rd32_put32_eq p o w : 0 <= o → o + 3 < blen p → inw 32 w → rd32 (put32 p o w) o = w.
Proof.
  intros Ho Hb Hw. pose proof (halves_range w Hw) as Hh. unfold halves in Hh.
  rewrite !Forall_cons in Hh. destruct Hh as (H1 & H2 & _).
  unfold rd32, put32. rewrite land_ffff, shiftr_16.
  rewrite rd16_put16_ne, !rd16_put16_eq by (unfold blen in *; rewrite ?put16_length; (done || lia)).
  pose proof (Z.div_mod w 65536). lia.
Qed.

Lemma rd_words_put_words ws : ∀ p o,
  0 <= o → o + 4 * Z.of_nat (length ws) <= blen p → Forall (inw 32) ws →
  rd_words (put_words p o ws) o (length ws) = ws.
Proof.
  induction ws as [|w ws IH]; intros p o Ho Hb Hws; [done|].
  apply Forall_cons in Hws as [Hw Hws]. cbn [put_words length rd_words] in *. f_equal.
  - unfold rd32. rewrite !(rd16_ext (put_words _ _ _) (put32 p o w))
      by (apply rd8_put_words_ne; lia). apply rd32_put32_eq; (done || lia).
  - apply IH; [lia|unfold blen in *; rewrite put32_length; lia|done].
Qed.

Lemma zsum_words_put_words ws : ∀ p q n o k,
  q = o + 2 * Z.of_nat k → (k + 2 * length ws <= n)%nat → 0 <= o →
  q + 4 * Z.of_nat (length ws) <= blen p → Forall (inw 32) ws → bytes_ok p →
  zsum (words_at (put_words p q ws) o n)
    = zsum (words_at p o n) - zsum (addr_halves (rd_words p q (length ws)))
      + zsum (addr_halves ws).
Proof.
  induction ws as [|w ws IH]; intros p q n o k Hq Hk Ho Hb Hws Hp; [simpl; lia|].
  apply Forall_cons in Hws as [Hw Hws]. cbn [put_words length rd_words] in *.
  rewrite (IH _ _ n o (S (S k))); try (done || lia);
    [|unfold blen in *; rewrite put32_length; lia|by apply bytes_ok_put32].
  rewrite (zsum_words_put32 _ _ _ n o k) by (done || lia).
  rewrite (rd_words_ext (put32 p q w) p) by (intros; apply rd8_put32_ne; lia).
  change (addr_halves (w :: ws)) with (halves w ++ addr_halves ws).
  change (addr_halves (rd32 p q :: rd_words p (q + 4) (length ws)))
    with (halves (rd32 p q) ++ addr_halves (rd_words p (q + 4) (length ws))).
  rewrite !zsum_app. lia.
Qed.

(** ** Address and port translation *)

(** A cached TCP or UDP packet, as [npf_cache_all] leaves it. *)
Record napt_pre (npc : npf_cache_t) : Prop := {
  np_bytes : bytes_ok (pkt npc);
  np_ip : 0 <= npc_ip npc;
  np_l3 :
    (npf_iscached npc NPC_IP4 = true ∧ npc_alen npc = 4 ∧ npc_src npc = npc_ip npc + 12 ∧
       npc_dst npc = npc_ip npc + 16 ∧ 20 <= npc_hlen npc ∧ npc_hlen npc mod 4 = 0) ∨
    (npf_iscached npc NPC_IP4 = false ∧ npc_alen npc = 16 ∧ npc_src npc = npc_ip npc + 8 ∧
       npc_dst npc = npc_ip npc + 24 ∧ 40 <= npc_hlen npc);
  np_l4 : npc_l4 npc = Some (npc_ip npc + npc_hlen npc);
  np_proto :
    (npc_proto npc = IPPROTO_TCP ∧ npc_ip npc + npc_hlen npc + 20 <= blen (pkt npc)) ∨
    (npc_proto npc = IPPROTO_UDP ∧ npc_ip npc + npc_hlen npc + 8 <= blen (pkt npc));
}.

(** Offsets of the layer-4 checksum and of the port. *)
Definition sum_off (npc : npf_cache_t) : Z :=
  l4ptr npc + if npc_proto npc =? IPPROTO_TCP then 16 else 6.
Definition port_off (npc : npf_cache_t) (which : npf_which) : Z :=
  l4ptr npc + match which with NPF_SRC => 0 | NPF_DST => 2 end.

(** UDP without a checksum: it is left alone. *)
Definition no_cksum (npc : npf_cache_t) : bool :=
  (npc_proto npc =? IPPROTO_UDP) && (rd16 (pkt npc) (sum_off npc) =? 0).

Lemma rd16_port (w : npf_which) p th :
  match w with NPF_SRC => rd16 p th | NPF_DST => rd16 p (th + 2) end
    = rd16 p (th + match w with NPF_SRC => 0 | NPF_DST => 2 end).
Proof. destruct w; by rewrite ?Z.add_0_r. Qed.

Lemma port_offset (w : npf_which) th :
  match w with NPF_SRC => th | NPF_DST => th + 2 end
    = th + match w with NPF_SRC => 0 | NPF_DST => 2 end.
Proof. destruct w; by rewrite ?Z.add_0_r. Qed.

Lemma rd_words_wf p n : ∀ o, bytes_ok p →
  length (rd_words p o n) = n ∧ Forall (inw 32) (rd_words p o n).
Proof.
  induction n as [|m IH]; intros o Hb; [done|]. simpl. destruct (IH (o + 4) Hb) as [-> ?].
  split; [done|]. constructor; [|done]. by apply rd32_range.
Qed.

(** The address fields start at an even distance from the IP header. *)
Lemma napt_ips_even npc which :
  napt_pre npc → ∃ k, npc_ips npc which = npc_ip npc + 2 * Z.of_nat k.
Proof.
  intros [_ _ Hl3 _ _]. unfold npc_ips.
  destruct Hl3 as [(_ & _ & -> & -> & _)|(_ & _ & -> & -> & _)]; destruct which;
    [by exists 6%nat|by exists 8%nat|by exists 4%nat|by exists 12%nat].
Qed.

(** The translation as a function of the packet's bytes. *)
Section bytes.
Context (npc : npf_cache_t) (which : npf_which) (addr : npf_addr_t) (port : Z).
Let p := pkt npc.
Let n := Z.to_nat (npc_alen npc / 4).
Let oaddr := rd_words p (npc_ips npc which) n.

Definition napt_ipsum : Z := npf_addr_cksum (rd16 p (npc_ip npc + 10)) (npc_alen npc) oaddr addr.
Definition napt_l4sum : Z :=
  let c := npf_addr_cksum (rd16 p (sum_off npc)) (npc_alen npc) oaddr addr in
  if port =? 0 then c else npf_fixup16_cksum c (rd16 p (port_off npc which)) port.

Definition napt_p1 : list Z :=
  if npf_iscached npc NPC_IP4 then put16 p (npc_ip npc + 10) napt_ipsum else p.
Definition napt_p2 : list Z :=
  if no_cksum npc then napt_p1 else put16 napt_p1 (sum_off npc) napt_l4sum.
Definition napt_p3 : list Z := put_words napt_p2 (npc_ips npc which) addr.
Definition napt_p4 : list Z :=
  if port =? 0 then napt_p3 else put16 napt_p3 (port_off npc which) port.

Lemma napt_p1_length : length napt_p1 = length p.
Proof. unfold napt_p1. case_if; [apply put16_length|done]. Qed.

Lemma napt_p2_length : length napt_p2 = length p.
Proof. unfold napt_p2. case_if; rewrite ?put16_length; apply napt_p1_length. Qed.

Lemma napt_p3_length : length napt_p3 = length p.
Proof. unfold napt_p3. rewrite put_words_length. apply napt_p2_length. Qed.

Lemma napt_p4_length : length napt_p4 = length p.
Proof. unfold napt_p4. case_if; rewrite ?put16_length; apply napt_p3_length. Qed.

Context (Hpre : napt_pre npc) (Hlen : length addr = n).

Ltac napt_cases :=
  destruct Hpre as [Hb Hip Hl3 Hl4 Hpr]; unfold sum_off, port_off, npc_ips, l4ptr in *;
  rewrite Hl4 in *; simpl default in *.

(** The stored fields lie inside the packet and do not overlap. *)
Lemma napt_layout :
  0 <= npc_ips npc which ∧ npc_ips npc which + 4 * Z.of_nat n <= npc_ip npc + npc_hlen npc ∧
  npc_ip npc + npc_hlen npc = l4ptr npc ∧ npc_ip npc + 20 <= l4ptr npc ∧
  npc_ip npc + 8 <= npc_ips npc which ∧
  (npf_iscached npc NPC_IP4 = true → npc_ip npc + 12 <= npc_ips npc which) ∧
  l4ptr npc + 6 <= sum_off npc ∧ sum_off npc + 2 <= blen p ∧
  l4ptr npc <= port_off npc which ∧ port_off npc which + 4 <= sum_off npc + 2 ∧
  port_off npc which <= l4ptr npc + 2.
Proof.
  subst n p. napt_cases. assert (0 <= npc_ip npc) by done.
  destruct Hl3 as [(Hi & Ha & Hs & Hd & Hh & _)|(Hi & Ha & Hs & Hd & Hh)]; rewrite Ha, Hi;
    (destruct Hpr as [[Hp Hin]|[Hp Hin]]; rewrite Hp; simpl;
      destruct which; rewrite ?Hs, ?Hd; simpl;
      change (4 / 4) with 1; change (16 / 4) with 4; split_and!; (lia || done)).
Qed.

Lemma napt_p1_sum : rd16 napt_p1 (sum_off npc) = rd16 p (sum_off npc).
Proof.
  pose proof napt_layout as HL. destruct_ands. pose proof (np_ip _ Hpre).
  unfold napt_p1. case_if; [|done]. apply rd16_put16_ne; lia.
Qed.

Lemma napt_p1_port : rd16 napt_p1 (port_off npc which) = rd16 p (port_off npc which).
Proof.
  pose proof napt_layout as HL. destruct_ands. pose proof (np_ip _ Hpre).
  unfold napt_p1. case_if; [|done]. apply rd16_put16_ne; lia.
Qed.

(** The code's stores are these. *)
Lemma npf_rwrcksum_bytes : npf_rwrcksum npc which addr port = (true, set_pkt npc napt_p2).
Proof.
  unfold npf_rwrcksum. fold p n oaddr.
  set (npc1 := if npf_iscached npc NPC_IP4 then _ else _).
  assert (npc1 = set_pkt npc napt_p1) as ->.
  { unfold npc1, napt_p1. case_if; [done|]. by rewrite set_pkt_id. }
  rewrite (pkt_set_pkt _ _ napt_p1_length).
  change (l4ptr (set_pkt npc napt_p1)) with (l4ptr npc).
  pose proof napt_p1_sum as Hs1. pose proof napt_p1_port as Hp1.
  unfold napt_p2, no_cksum, napt_l4sum. fold p n oaddr.
  assert (∀ q, set_pkt (set_pkt npc napt_p1) q = set_pkt npc q) as Hss
    by (intros; apply set_pkt_set_pkt, napt_p1_length).
  unfold uh_sum, th_sport, th_dport, uh_sport, uh_dport in *. rewrite !Hss.
  destruct (np_proto _ Hpre) as [[Hp _]|[Hp _]]; unfold sum_off, port_off in *; rewrite Hp in *;
    simpl in *.
  - rewrite Hs1, rd16_port, Hp1. by destruct (port =? 0).
  - rewrite Hs1, rd16_port, Hp1. case_if; [done|]. by destruct (port =? 0).
Qed.

Lemma npf_napt_rwr_bytes :
  npf_napt_rwr npc which addr port = (0, set_pkt npc napt_p4).
Proof.
  unfold npf_napt_rwr, npf_rwrip, npf_rwrport. rewrite npf_rwrcksum_bytes. simpl negb. cbv iota.
  rewrite (pkt_set_pkt _ _ napt_p2_length).
  change (npc_ips (set_pkt npc napt_p2) which) with (npc_ips npc which).
  change (npc_alen (set_pkt npc napt_p2)) with (npc_alen npc). fold n.
  rewrite (take_ge addr) by lia. fold napt_p3.
  rewrite (set_pkt_set_pkt _ _ _ napt_p2_length). unfold napt_p4.
  destruct (port =? 0); [done|]. rewrite (pkt_set_pkt _ _ napt_p3_length).
  rewrite (set_pkt_set_pkt _ _ _ napt_p3_length).
  change (npc_proto (set_pkt npc napt_p3)) with (npc_proto npc).
  change (l4ptr (set_pkt npc napt_p3)) with (l4ptr npc). unfold port_off.
  destruct (np_proto _ Hpre) as [[-> _]|[-> _]]; simpl; by rewrite port_offset.
Qed.

(** Bytes outside the four stored fields are kept. *)
Lemma napt_frame i :
  0 <= i →
  (i < npc_ips npc which ∨ npc_ips npc which + 4 * Z.of_nat n <= i) →
  (npf_iscached npc NPC_IP4 = true → i ≠ npc_ip npc + 10 ∧ i ≠ npc_ip npc + 11) →
  (no_cksum npc = false → i ≠ sum_off npc ∧ i ≠ sum_off npc + 1) →
  (port ≠ 0 → i ≠ port_off npc which ∧ i ≠ port_off npc which + 1) →
  rd8 napt_p4 i = rd8 p i.
Proof.
  intros Hi Ha Hs4 Hs Hp. pose proof napt_layout as HL. destruct_ands. pose proof (np_ip _ Hpre).
  assert (rd8 napt_p3 i = rd8 p i) as E3.
  { unfold napt_p3. rewrite rd8_put_words_ne by (rewrite ?Hlen; lia).
    assert (rd8 napt_p1 i = rd8 p i) as E1.
    { unfold napt_p1. destruct (npf_iscached npc NPC_IP4); [|done].
      destruct (Hs4 eq_refl). apply rd8_put16_ne; lia. }
    unfold napt_p2. destruct (no_cksum npc); [done|]. destruct (Hs eq_refl).
    rewrite rd8_put16_ne by lia. done. }
  unfold napt_p4. destruct (port =? 0) eqn:E; bool_to_prop; [done|].
  destruct (Hp E). rewrite rd8_put16_ne by lia. done.
Qed.

Context (Hws : Forall (inw 32) addr) (Hport : inw 16 port).

Lemma napt_addr_field : rd_words napt_p4 (npc_ips npc which) n = addr.
Proof.
  pose proof napt_layout as HL. destruct_ands.
  rewrite (rd_words_ext napt_p4 napt_p3).
  - rewrite <- Hlen. apply rd_words_put_words; [done| |done].
    unfold blen in *. rewrite napt_p2_length, Hlen. fold p. lia.
  - intros i Hi. unfold napt_p4. case_if; [done|]. apply rd8_put16_ne; lia.
Qed.

Lemma napt_port_field : port ≠ 0 → rd16 napt_p4 (port_off npc which) = port.
Proof.
  intros Hp. pose proof napt_layout as HL. destruct_ands. unfold napt_p4.
  rewrite (proj2 (Z.eqb_neq _ _) Hp). apply rd16_put16_eq; [lia| |done].
  unfold blen in *. rewrite napt_p3_length. fold p. lia.
Qed.

Lemma napt_p1_bytes : bytes_ok napt_p1.
Proof.
  unfold napt_p1. pose proof (np_bytes _ Hpre). case_if; [|done].
  apply bytes_ok_put16; [done|]. apply addr_cksum_loop_range. auto with npf.
Qed.

Lemma napt_p2_bytes : bytes_ok napt_p2.
Proof.
  unfold napt_p2. pose proof (np_bytes _ Hpre). case_if; [apply napt_p1_bytes|].
  apply bytes_ok_put16; [apply napt_p1_bytes|]. unfold napt_l4sum.
  case_if; [apply addr_cksum_loop_range; auto with npf|apply npf_fixup16_cksum_range].
Qed.

(** Neither checksum store touches the old address. *)
Lemma napt_p2_oaddr : rd_words napt_p2 (npc_ips npc which) n = oaddr.
Proof.
  pose proof napt_layout as HL. destruct_ands. pose proof (np_ip _ Hpre).
  apply rd_words_ext. intros i Hi. unfold napt_p2, napt_p1. destruct (npf_iscached npc NPC_IP4).
  - assert (npc_ip npc + 12 <= npc_ips npc which) by auto.
    case_if; rewrite ?rd8_put16_ne by lia; done.
  - case_if; rewrite ?rd8_put16_ne by lia; done.
Qed.

Lemma oaddr_wf : length oaddr = n ∧ Forall (inw 32) oaddr.
Proof. apply rd_words_wf, Hpre. Qed.

(** The address part of both fix-ups. *)
Lemma napt_addr_mod c : inw 16 c →
  (npf_addr_cksum c (npc_alen npc) oaddr addr + zsum (addr_halves addr)) mod 65535
    = (c + zsum (addr_halves oaddr)) mod 65535.
Proof.
  intros Hc. destruct oaddr_wf as [Hl Hf]. unfold npf_addr_cksum. fold n. rewrite <- Hl.
  apply addr_cksum_loop_mod; [congruence|done..].
Qed.

(** The sum over the IPv4 header. *)
Lemma napt_ip_zsum m :
  npf_iscached npc NPC_IP4 = true → 2 * Z.of_nat m = npc_hlen npc →
  zsum (words_at napt_p4 (npc_ip npc) m)
    = zsum (words_at p (npc_ip npc) m) - rd16 p (npc_ip npc + 10) + napt_ipsum
      - zsum (addr_halves oaddr) + zsum (addr_halves addr).
Proof.
  intros H4 Hm. pose proof napt_layout as HL. destruct_ands. pose proof (np_ip _ Hpre).
  assert (zsum (words_at napt_p4 (npc_ip npc) m) = zsum (words_at napt_p3 (npc_ip npc) m)) as ->.
  { unfold napt_p4. case_if; [done|]. by rewrite words_at_put16_disjoint by lia. }
  destruct (napt_ips_even npc which Hpre) as [k Hk].
  unfold napt_p3.
  rewrite (zsum_words_put_words _ _ _ _ _ k Hk);
    [|rewrite Hlen; lia|done|unfold blen in *; rewrite napt_p2_length, Hlen; fold p; lia
     |done|apply napt_p2_bytes].
  rewrite Hlen, napt_p2_oaddr.
  assert (words_at napt_p2 (npc_ip npc) m = words_at napt_p1 (npc_ip npc) m) as ->.
  { unfold napt_p2. case_if; [done|]. by rewrite words_at_put16_disjoint by lia. }
  unfold napt_p1. rewrite H4.
  rewrite (zsum_words_put16 _ _ _ _ _ 5); [lia|lia|lia|lia|lia|].
  apply addr_cksum_loop_range. apply rd16_range, Hpre.
Qed.

Lemma napt_p4_bytes : bytes_ok napt_p4.
Proof.
  unfold napt_p4, napt_p3. pose proof (bytes_ok_put_words addr _ (npc_ips npc which) napt_p2_bytes Hws).
  case_if; auto with npf.
Qed.

(** The sum over the TCP or UDP segment. *)
Lemma napt_l4_zsum m :
  no_cksum npc = false → l4ptr npc + 2 * Z.of_nat m >= blen p →
  zsum (words_at napt_p4 (l4ptr npc) m)
    = zsum (words_at p (l4ptr npc) m) - rd16 p (sum_off npc) + napt_l4sum
      + (if port =? 0 then 0 else port - rd16 p (port_off npc which)).
Proof.
  intros Hnc Hm. pose proof napt_layout as HL. destruct_ands. pose proof (np_ip _ Hpre).
  assert (words_at napt_p3 (l4ptr npc) m = words_at napt_p2 (l4ptr npc) m) as E3.
  { apply words_at_ext. intros i Hi. apply rd8_put_words_ne; rewrite ?Hlen; lia. }
  assert (words_at napt_p1 (l4ptr npc) m = words_at p (l4ptr npc) m) as E1.
  { unfold napt_p1. case_if; [|done]. apply words_at_put16_disjoint; lia. }
  assert (∃ k, sum_off npc = l4ptr npc + 2 * Z.of_nat k) as [k Hk].
  { unfold sum_off. destruct (_ =? IPPROTO_TCP); [by exists 8%nat|by exists 3%nat]. }
  assert (∃ j, port_off npc which = l4ptr npc + 2 * Z.of_nat j) as [j Hj].
  { unfold port_off. clear. destruct which; [by exists 0%nat|by exists 1%nat]. }
  assert (zsum (words_at napt_p2 (l4ptr npc) m)
    = zsum (words_at p (l4ptr npc) m) - rd16 p (sum_off npc) + napt_l4sum) as E2.
  { unfold napt_p2. rewrite Hnc, (zsum_words_put16 _ _ _ _ _ k Hk), E1, napt_p1_sum; [done|lia|lia| |].
    - unfold blen in *. rewrite napt_p1_length. lia.
    - unfold napt_l4sum. case_if; [|apply npf_fixup16_cksum_range].
      apply addr_cksum_loop_range, rd16_range, Hpre. }
  unfold napt_p4. case_if; [rewrite E3, E2; lia|].
  rewrite (zsum_words_put16 _ _ _ _ _ j Hj), E3, E2; [|lia|lia| |done].
  - replace (rd16 napt_p3 (port_off npc which)) with (rd16 p (port_off npc which)); [lia|].
    rewrite <- napt_p1_port.
    transitivity (rd16 napt_p2 (port_off npc which)).
    + unfold napt_p2. rewrite Hnc. rewrite rd16_put16_ne by lia. done.
    + apply rd16_ext; symmetry; apply rd8_put_words_ne; rewrite ?Hlen; lia.
  - unfold blen in *. rewrite napt_p3_length. fold p. lia.
Qed.

End bytes.

(** The 16-bit words the IPv4 header checksum covers. *)
Definition ip_cksum_words (npc : npf_cache_t) (q : list Z) : list Z :=
  words_at q (npc_ip npc) (Z.to_nat (npc_hlen npc / 2)).

(** The words the TCP or UDP checksum covers: the pseudo-header, and the
    segment up to the end of the packet, padded with a zero byte. *)
Definition l4_cksum_words (npc : npf_cache_t) (q : list Z) : list Z :=
  let n := Z.to_nat (npc_alen npc / 4) in
  let tlen := blen q - l4ptr npc in
  words_at q (npc_src npc) (2 * n) ++ words_at q (npc_dst npc) (2 * n) ++
  [htons (npc_proto npc); htons (u16 tlen)] ++
  words_at q (l4ptr npc) (Z.to_nat ((tlen + 1) / 2)).

Lemma words_at_addr q n : ∀ o, bytes_ok q → words_at q o (2 * n) = addr_halves (rd_words q o n).
Proof.
  induction n as [|n IH]; intros o Hb; [done|].
  replace (2 * S n)%nat with (S (S (2 * n))) by lia. cbn [words_at rd_words].
  rewrite <- Z.add_assoc. change (2 + 2) with 4. rewrite IH by done.
  change (addr_halves (rd32 q o :: rd_words q (o + 4) n))
    with (halves (rd32 q o) ++ addr_halves (rd_words q (o + 4) n)).
  by rewrite halves_rd32.
Qed.

(** The address that is not translated keeps its words. *)
Lemma napt_other_addr npc which addr port :
  napt_pre npc → length addr = Z.to_nat (npc_alen npc / 4) →
  let other := npc_ips npc (match which with NPF_SRC => NPF_DST | NPF_DST => NPF_SRC end) in
  rd_words (napt_p4 npc which addr port) other (Z.to_nat (npc_alen npc / 4))
    = rd_words (pkt npc) other (Z.to_nat (npc_alen npc / 4)).
Proof.
  intros Hpre Hlen other. pose proof (napt_layout npc which addr Hpre Hlen) as HL. destruct_ands.
  pose proof (np_ip _ Hpre). apply rd_words_ext. intros i Hr.
  assert (npc_ip npc + 8 <= other ∧ (npf_iscached npc NPC_IP4 = true → npc_ip npc + 12 <= other) ∧
    other + 4 * Z.of_nat (Z.to_nat (npc_alen npc / 4)) <= l4ptr npc ∧
    (other + 4 * Z.of_nat (Z.to_nat (npc_alen npc / 4)) <= npc_ips npc which ∨
     npc_ips npc which + 4 * Z.of_nat (Z.to_nat (npc_alen npc / 4)) <= other)) as (B8 & B12 & Bl & Bd).
  { unfold other in *.
    destruct (np_l3 _ Hpre) as [(E4 & Ea & Es & Ed & Eh & _)|(E4 & Ea & Es & Ed & Eh)];
      rewrite Ea, E4 in *; change (4 / 4) with 1 in *; change (16 / 4) with 4 in *;
      destruct which; simpl in *; rewrite ?Es, ?Ed in *; split_and!; (done || lia). }
  apply (napt_frame npc which addr port Hpre Hlen); try lia; intros; try lia.
  specialize (B12 ltac:(done)). lia.
Qed.

(** The words of both addresses, after against before. *)
Lemma napt_addr_words_sum npc which addr port :
  napt_pre npc → addr_wf (Z.to_nat (npc_alen npc / 4)) addr → inw 16 port →
  let n := Z.to_nat (npc_alen npc / 4) in
  let p4 := napt_p4 npc which addr port in
  zsum (words_at p4 (npc_src npc) (2 * n)) + zsum (words_at p4 (npc_dst npc) (2 * n))
  = zsum (words_at (pkt npc) (npc_src npc) (2 * n)) + zsum (words_at (pkt npc) (npc_dst npc) (2 * n))
    - zsum (addr_halves (rd_words (pkt npc) (npc_ips npc which) n)) + zsum (addr_halves addr).
Proof.
  intros Hpre [Hlen Hws] Hport n p4.
  assert (bytes_ok p4) as Hb4 by (eapply napt_p4_bytes; eauto).
  pose proof (np_bytes _ Hpre) as Hb. rewrite !words_at_addr by done.
  assert (rd_words p4 (npc_ips npc which) n = addr) as Hf by (eapply napt_addr_field; eauto).
  pose proof (napt_other_addr npc which addr port Hpre Hlen) as Ho. fold p4 n in Ho.
  destruct which; simpl in *; rewrite Hf, Ho; lia.
Qed.

(** [npf_napt_rwr] on a TCP or UDP packet stores the given address and,
    when it is not zero, the given port in the selected fields, and changes
    no byte of the packet other than these and the checksum fields. *)
Theorem npf_napt_rwr_translates npc which addr port :
  napt_pre npc → addr_wf (Z.to_nat (npc_alen npc / 4)) addr → inw 16 port →
  ∃ npc', npf_napt_rwr npc which addr port = (0, npc') ∧
    length (pkt npc') = length (pkt npc) ∧
    rd_words (pkt npc') (npc_ips npc which) (Z.to_nat (npc_alen npc / 4)) = addr ∧
    (port ≠ 0 → rd16 (pkt npc') (port_off npc which) = port) ∧
    ∀ i, 0 <= i →
      (i < npc_ips npc which ∨ npc_ips npc which + npc_alen npc <= i) →
      (npf_iscached npc NPC_IP4 = true → i ≠ npc_ip npc + 10 ∧ i ≠ npc_ip npc + 11) →
      i ≠ sum_off npc ∧ i ≠ sum_off npc + 1 →
      (port ≠ 0 → i ≠ port_off npc which ∧ i ≠ port_off npc which + 1) →
      rd8 (pkt npc') i = rd8 (pkt npc) i.
Proof.
  intros Hpre [Hlen Hws] Hport. exists (set_pkt npc (napt_p4 npc which addr port)).
  assert (length (napt_p4 npc which addr port) = length (pkt npc)) as Hl by apply napt_p4_length.
  rewrite (pkt_set_pkt _ _ Hl).
  split; [by apply npf_napt_rwr_bytes|]. split; [done|].
  split; [by apply napt_addr_field|]. split; [by apply napt_port_field|].
  intros i Hi Ha Hs4 Hs Hp. apply napt_frame; auto.
  destruct (np_l3 _ Hpre) as [(_ & E & _)|(_ & E & _)]; rewrite E in *;
    [change (4 / 4) with 1|change (16 / 4) with 4]; lia.
Qed.

Lemma mod_replace s c o c' o' :
  (c' + o') mod 65535 = (c + o) mod 65535 → (s - c - o + c' + o') mod 65535 = s mod 65535.
Proof.
  intros H. replace (s - c - o + c' + o') with ((c' + o') + (s - c - o)) by lia.
  rewrite <- Zplus_mod_idemp_l, H, Zplus_mod_idemp_l. f_equal. lia.
Qed.

(** The IPv4 header checksum. *)
Lemma napt_ip_cksum npc which addr port :
  napt_pre npc → addr_wf (Z.to_nat (npc_alen npc / 4)) addr → inw 16 port →
  npf_iscached npc NPC_IP4 = true → rd8 (pkt npc) (npc_ip npc) ≠ 0 →
  cksum_verifies (ip_cksum_words npc (pkt npc)) →
  cksum_verifies (ip_cksum_words npc (napt_p4 npc which addr port)).
Proof.
  intros Hpre [Hlen Hws] Hport H4 Hver. unfold ip_cksum_words.
  assert (bytes_ok (napt_p4 npc which addr port)) as Hb4 by (eapply napt_p4_bytes; eauto).
  pose proof (np_bytes _ Hpre) as Hb. pose proof (np_ip _ Hpre) as Hip.
  pose proof (napt_layout npc which addr Hpre Hlen) as HL. destruct_ands.
  assert (20 <= npc_hlen npc ∧ npc_hlen npc mod 4 = 0) as [Hh Hm4].
  { destruct (np_l3 _ Hpre); destruct_ands; [auto|congruence]. }
  set (m := Z.to_nat (npc_hlen npc / 2)).
  assert (2 * Z.of_nat m = npc_hlen npc) as Hm 
    by (unfold m; clear -Hh Hm4; Z.to_euclidean_division_equations; lia).
  rewrite !cksum_verifies_iff by (by apply words_at_range). intros Hok.
  eapply sum_ok_mod; [exact Hok| |].
  - apply zsum_pos; [by apply words_at_range|]. destruct m as [|m']; [lia|]. constructor.
    unfold rd16. rewrite (napt_frame npc which addr port Hpre Hlen (npc_ip npc)) by (intros; lia).
    pose proof (rd8_range (pkt npc) (npc_ip npc) Hb). pose proof (rd8_range _ (npc_ip npc + 1) Hb4). lia.
  - rewrite (napt_ip_zsum npc which addr port Hpre Hlen Hws m H4 Hm).
    pose proof (napt_addr_mod npc which addr Hpre Hlen Hws (rd16 (pkt npc) (npc_ip npc + 10))
      ltac:(auto with npf)) as Hmod.
    rewrite <- (mod_replace (zsum (words_at (pkt npc) _ _)) _ _ _ _ Hmod). f_equal.
    unfold napt_ipsum. lia.
Qed.

(** Both parts of the layer-4 fix-up. *)
Lemma napt_l4_mod npc which addr port :
  napt_pre npc → addr_wf (Z.to_nat (npc_alen npc / 4)) addr → inw 16 port →
  let p := pkt npc in
  let oaddr := rd_words p (npc_ips npc which) (Z.to_nat (npc_alen npc / 4)) in
  (napt_l4sum npc which addr port +
     (zsum (addr_halves addr) + if port =? 0 then 0 else port)) mod 65535
  = (rd16 p (sum_off npc) +
     (zsum (addr_halves oaddr) + if port =? 0 then 0 else rd16 p (port_off npc which))) mod 65535.
Proof.
  intros Hpre [Hlen Hws] Hport p oaddr. pose proof (np_bytes _ Hpre) as Hb.
  pose proof (napt_addr_mod npc which addr Hpre Hlen Hws (rd16 p (sum_off npc))
    ltac:(auto with npf)) as Hmod. fold p oaddr in Hmod.
  unfold napt_l4sum. fold p oaddr. set (c := npf_addr_cksum _ _ _ _) in *.
  destruct (port =? 0); [by rewrite !Z.add_0_r|].
  assert (inw 16 c) as Hc by (apply addr_cksum_loop_range; auto with npf).
  pose proof (npf_fixup16_cksum_mod c (rd16 p (port_off npc which)) port Hc
    ltac:(auto with npf) Hport) as Hfix.
  set (x := npf_fixup16_cksum _ _ _) in *. set (op := rd16 p (port_off npc which)) in *.
  replace (x + (zsum (addr_halves addr) + port)) with ((x + port) + zsum (addr_halves addr)) by lia.
  rewrite <- Zplus_mod_idemp_l, Hfix, Zplus_mod_idemp_l.
  replace (c + op + zsum (addr_halves addr)) with ((c + zsum (addr_halves addr)) + op) by lia.
  rewrite <- Zplus_mod_idemp_l, Hmod, Zplus_mod_idemp_l. f_equal. lia.
Qed.

Lemma napt_l4_cksum npc which addr port :
  napt_pre npc → addr_wf (Z.to_nat (npc_alen npc / 4)) addr → inw 16 port →
  no_cksum npc = false →
  cksum_verifies (l4_cksum_words npc (pkt npc)) →
  cksum_verifies (l4_cksum_words npc (napt_p4 npc which addr port)).
Proof.
  intros Hpre Haddr Hport Hnc. pose proof Haddr as [Hlen Hws]. unfold l4_cksum_words.
  assert (bytes_ok (napt_p4 npc which addr port)) as Hb4 by (eapply napt_p4_bytes; eauto).
  pose proof (np_bytes _ Hpre) as Hb.
  assert (blen (napt_p4 npc which addr port) = blen (pkt npc)) as Hbl
    by (unfold blen; by rewrite napt_p4_length).
  pose proof (napt_layout npc which addr Hpre Hlen) as HL. destruct_ands.
  rewrite Hbl. set (tlen := blen (pkt npc) - l4ptr npc).
  assert (Forall (inw 16) [htons (npc_proto npc); htons (u16 tlen)]) as Hps.
  { constructor; [|constructor; [|constructor]]; apply bswap16_range; [|apply wrap_range; lia].
    by destruct (np_proto _ Hpre) as [[-> _]|[-> _]]. }
  rewrite !cksum_verifies_iff by (rewrite !Forall_app; auto using words_at_range).
  intros Hok. eapply sum_ok_mod; [exact Hok| |].
  - apply zsum_pos; [rewrite !Forall_app; auto using words_at_range|].
    do 2 (apply Exists_app; right). constructor.
    by destruct (np_proto _ Hpre) as [[-> _]|[-> _]].
  - rewrite !zsum_app.
    rewrite (napt_l4_zsum npc which addr port Hpre Hlen Hport) by
      (try done; unfold tlen; Z.to_euclidean_division_equations; lia).
    pose proof (napt_addr_words_sum npc which addr port Hpre Haddr Hport) as Hs. cbv zeta in Hs.
    pose proof (napt_l4_mod npc which addr port Hpre Haddr Hport) as Hmod. cbv zeta in Hmod.
    match goal with |- _ = ?s mod 65535 => rewrite <- (mod_replace s _ _ _ _ Hmod) end. f_equal.
    set (W := words_at (napt_p4 npc which addr port)) in *. destruct (port =? 0); lia.
Qed.

(** C25: a translated packet keeps valid checksums.  If the IPv4 header
    checksum of a TCP or UDP packet verifies, it verifies after
    [npf_napt_rwr]; and if the TCP or UDP checksum (pseudo-header included)
    verifies, it verifies after the translation, for either address, with or
    without a port, over IPv4 and IPv6; a UDP packet without a checksum stays
    one. *)
Theorem npf_napt_rwr_cksums npc which addr port :
  napt_pre npc → addr_wf (Z.to_nat (npc_alen npc / 4)) addr → inw 16 port →
  ∃ npc', npf_napt_rwr npc which addr port = (0, npc') ∧
    (npf_iscached npc NPC_IP4 = true → rd8 (pkt npc) (npc_ip npc) ≠ 0 →
      cksum_verifies (ip_cksum_words npc (pkt npc)) →
      cksum_verifies (ip_cksum_words npc (pkt npc'))) ∧
    (no_cksum npc = false →
      cksum_verifies (l4_cksum_words npc (pkt npc)) →
      cksum_verifies (l4_cksum_words npc (pkt npc'))) ∧
    (no_cksum npc = true → rd16 (pkt npc') (sum_off npc) = 0).
Proof.
  intros Hpre Haddr Hport. pose proof Haddr as [Hlen Hws].
  exists (set_pkt npc (napt_p4 npc which addr port)).
  assert (length (napt_p4 npc which addr port) = length (pkt npc)) as Hl by apply napt_p4_length.
  rewrite (pkt_set_pkt _ _ Hl).
  split; [by apply npf_napt_rwr_bytes|]. split; [intros; by apply napt_ip_cksum|].
  split; [intros; by apply napt_l4_cksum|].
  intros Hnc. pose proof (napt_layout npc which addr Hpre Hlen) as HL. destruct_ands.
  pose proof (np_ip _ Hpre). pose proof Hnc as Hz. unfold no_cksum in Hz. apply andb_prop in Hz as [_ Hz].
  rewrite (rd16_ext _ (pkt npc)); [by apply Z.eqb_eq|..];
    (apply (napt_frame npc which addr port Hpre Hlen); [lia|lia|lia|congruence|lia]).
Qed.

(** ** IPv6 prefix translation *)

Definition pref_words (pref : npf_addr_t) (n : nat) : list Z := word16 pref <$> seq 0 n.

Lemma word16_range pref i : addr_wf 4 pref → (i < 8)%nat → inw 16 (word16 pref i).
Proof.
  intros [Hl Hf] Hi. unfold word16.
  destruct (lookup_lt_is_Some_2 pref (Nat.div2 i)) as [w Hw].
  { rewrite Hl. do 8 (destruct i as [|i]; [simpl; lia|]). lia. }
  rewrite Hw. simpl. pose proof (Forall_lookup_1 _ _ _ _ Hf Hw) as Hr. apply halves_range in Hr.
  unfold halves in Hr. rewrite !Forall_cons in Hr. destruct Hr as (H1 & H2 & _).
  rewrite land_ffff, shiftr_16. by case_if.
Qed.

(** The prefix loop from word [i]: [n] words are replaced, in order. *)
Lemma npt66_prefix_loop_spec addr pref n : ∀ p i,
  bytes_ok p → 0 <= addr → addr + 16 <= blen p → addr_wf 4 pref → (i + n <= 8)%nat →
  let p' := npt66_prefix_loop p addr pref i n in
  length p' = length p ∧ bytes_ok p' ∧
  (∀ j, 0 <= j → j < addr + 2 * Z.of_nat i ∨ addr + 2 * Z.of_nat (i + n) <= j → rd8 p' j = rd8 p j) ∧
  words_at p' (addr + 2 * Z.of_nat i) n = word16 pref <$> seq i n.
Proof.
  induction n as [|n IH]; intros p i Hb Ha Hl Hp Hi; [by simpl|].
  cbn [npt66_prefix_loop seq words_at]. pose proof (word16_range pref i Hp ltac:(lia)) as Hw.
  set (p1 := put16 p (addr + 2 * Z.of_nat i) (word16 pref i)).
  destruct (IH p1 (S i)) as (L & B & F & W); try done; try lia;
    [by apply bytes_ok_put16|unfold blen in *; unfold p1; by rewrite put16_length|].
  split; [rewrite L; apply put16_length|]. split; [done|]. split.
  - intros j Hj Hd. rewrite F by lia. apply rd8_put16_ne; lia.
  - rewrite fmap_cons. f_equal.
    + rewrite (rd16_ext _ p1) by (apply F; lia). apply rd16_put16_eq; [lia|unfold blen in *; lia|done].
    + rewrite <- W. f_equal. lia.
Qed.

Lemma npt66_fold_small f y : 0 <= y < 65536 → npt66_fold f y = y.
Proof.
  intros Hy. destruct f as [|f]; [done|]. cbn [npt66_fold].
  by rewrite shiftr_16, Z.div_small by lia.
Qed.

(** One turn on a sum with a carry. *)
Lemma npt66_fold_carry f x : 65536 <= x < 131072 → npt66_fold (S f) x = npt66_fold f (x - 65535).
Proof.
  intros Hx. cbn [npt66_fold]. rewrite shiftr_16, land_ffff.
  assert (x / 65536 = 1) as -> by (Z.to_euclidean_division_equations; lia).
  assert (x mod 65536 = x - 65536) as -> by (Z.to_euclidean_division_equations; lia).
  cbv [Z.eqb Pos.eqb negb]. f_equal. lia.
Qed.

Lemma npt66_fold_spec x : 0 <= x < 2 ^ 17 →
  inw 16 (npt66_fold 3 x) ∧ npt66_fold 3 x mod 65535 = x mod 65535.
Proof.
  intros Hx. change (2 ^ 17) with 131072 in Hx. unfold inw.
  destruct (Z.lt_ge_cases x 65536); [rewrite npt66_fold_small by lia; lia|].
  rewrite npt66_fold_carry by lia.
  assert ((x - 65535) mod 65535 = x mod 65535) as Hm
    by (replace (x - 65535) with (x + (-1) * 65535) by lia; apply Z.mod_add; lia).
  destruct (Z.lt_ge_cases (x - 65535) 65536); [rewrite npt66_fold_small by lia; lia|].
  assert (x = 131071) as -> by lia. split; [vm_compute; split; [discriminate|reflexivity]|reflexivity].
Qed.

(** The refusal conditions. *)
Definition npt66_allowed (p : list Z) (addr len : Z) : bool :=
  if len <=? 48 then negb (rd16 p (addr + 6) =? 0xffff)
  else negb ((rd32 p (addr + 8) =? 0) && (rd32 p (addr + 12) =? 0)) &&
       negb ((rd32 p (addr + 8) =? 0xffffffff) && (rd32 p (addr + 12) =? 0xffffffff)).

Lemma npt66_find_word_range p addr : bytes_ok p →
  (rd32 p (addr + 8) =? 0xffffffff) && (rd32 p (addr + 12) =? 0xffffffff) = false →
  4 <= npt66_find_word p addr 4 4 < 8.
Proof.
  intros Hb Hn. cbn [npt66_find_word].
  repeat (case_if; [lia|]). exfalso. bool_to_prop. unfold rd32 in Hn.
  replace (addr + 8 + 2) with (addr + 10) in Hn by lia.
  replace (addr + 12 + 2) with (addr + 14) in Hn by lia.
  repeat match goal with H : rd16 p ?e = 65535 |- _ =>
    let e' := eval cbn in e in change e with e' in H end.
  change (addr + 8) with (addr + 2 * 4) in Hn. change (addr + 10) with (addr + 2 * (4 + 1)) in Hn.
  change (addr + 12) with (addr + 2 * (4 + 1 + 1)) in Hn.
  change (addr + 14) with (addr + 2 * (4 + 1 + 1 + 1)) in Hn.
  repeat match goal with H : rd16 p _ = 65535 |- _ => rewrite H in Hn; clear H end. done.
Qed.

Lemma words_at_app p n : ∀ o m,
  words_at p o (n + m) = words_at p o n ++ words_at p (o + 2 * Z.of_nat n) m.
Proof.
  induction n as [|n IH]; intros o m; cbn [words_at Nat.add app]; [f_equal; lia|].
  rewrite IH. do 3 f_equal. lia.
Qed.

(** The rewriting part, for a prefix of [n] whole words and a word to adjust
    behind it. *)
Lemma npt66_rewrite_spec p addr pref n word adj :
  bytes_ok p → 0 <= addr → addr + 16 <= blen p → addr_wf 4 pref →
  Z.of_nat n <= word < 8 → inw 16 adj →
  (adj + zsum (pref_words pref n)) mod 65535 = zsum (words_at p addr n) mod 65535 →
  let p1 := npt66_prefix_loop p addr pref 0 n in
  let s := npt66_fold 3 (rd16 p1 (addr + 2 * word) + adj) in
  let p2 := put16 p1 (addr + 2 * word) (if s =? 0xffff then 0 else s) in
  length p2 = length p ∧ words_at p2 addr n = pref_words pref n ∧
  zsum (words_at p2 addr 8) mod 65535 = zsum (words_at p addr 8) mod 65535 ∧
  (∀ i, 0 <= i < addr ∨ addr + 16 <= i → rd8 p2 i = rd8 p i).
Proof.
  intros Hb Ha Hl Hp Hw Hadj Hneutral p1 s p2.
  destruct (npt66_prefix_loop_spec addr pref n p 0) as (L1 & B1 & F1 & W1); try done; [lia|].
  fold p1 in L1, B1, F1, W1. rewrite Z.add_0_r in *. fold (pref_words pref n) in W1.
  pose proof (rd16_range p1 (addr + 2 * word) B1) as Hr.
  destruct (npt66_fold_spec (rd16 p1 (addr + 2 * word) + adj)) as [Hs Hm]; [unfold inw in *; lia|].
  fold s in Hs, Hm. set (v := if s =? 0xffff then 0 else s) in p2.
  assert (inw 16 v ∧ v mod 65535 = s mod 65535) as [Hv Hvm].
  { unfold v. destruct (s =? 65535) eqn:E; bool_to_prop; [rewrite E|]; done. }
  split; [unfold p2; by rewrite put16_length|].
  split; [rewrite <- W1; apply words_at_put16_disjoint; lia|]. split.
  - unfold p2. rewrite (zsum_words_put16 _ _ _ _ _ (Z.to_nat word))
      by (try done; unfold blen in *; lia).
    assert (zsum (words_at p1 addr 8)
      = zsum (words_at p addr 8) - zsum (words_at p addr n) + zsum (pref_words pref n)) as ->.
    { replace 8%nat with (n + (8 - n))%nat by lia. rewrite !words_at_app, !zsum_app, W1.
      rewrite (words_at_ext p1 p (8 - n)) by (intros; apply F1; lia). lia. }
    set (r := rd16 p1 _) in *. set (W := zsum (words_at p addr 8)).
    replace (W - zsum (words_at p addr n) + zsum (pref_words pref n) - r + v)
      with (v + (W - zsum (words_at p addr n) + zsum (pref_words pref n) - r)) by lia.
    rewrite <- Zplus_mod_idemp_l, Hvm, Hm, Zplus_mod_idemp_l.
    replace (r + adj + (W - zsum (words_at p addr n) + zsum (pref_words pref n) - r))
      with ((adj + zsum (pref_words pref n)) + (W - zsum (words_at p addr n))) by lia.
    rewrite <- Zplus_mod_idemp_l, Hneutral, Zplus_mod_idemp_l. f_equal. lia.
  - intros i Hi. unfold p2. rewrite rd8_put16_ne by lia. apply F1; lia.
Qed.

(** IPv6 prefix translation (RFC 6296) for a prefix of whole 16-bit words:
    it is refused exactly for the addresses the RFC excludes; otherwise the
    address gets the new prefix, no byte outside the address changes, and with
    the adjustment of the RFC (the difference of the prefixes' sums) the
    one's-complement sum of the address is unchanged, so that every checksum
    that covers it stays valid. *)
Theorem npf_npt66_rwr_neutral npc which pref len adj :
  npf_iscached npc NPC_IP6 = true → bytes_ok (pkt npc) →
  0 <= npc_ips npc which → npc_ips npc which + 16 <= blen (pkt npc) →
  len ∈ [16; 32; 48; 64] → addr_wf 4 pref → inw 16 adj →
  (adj + zsum (pref_words pref (Z.to_nat (len / 16)))) mod 65535
    = zsum (words_at (pkt npc) (npc_ips npc which) (Z.to_nat (len / 16))) mod 65535 →
  if npt66_allowed (pkt npc) (npc_ips npc which) len then
    ∃ npc', npf_npt66_rwr npc which pref len adj = (0, npc') ∧
      words_at (pkt npc') (npc_ips npc which) (Z.to_nat (len / 16))
        = pref_words pref (Z.to_nat (len / 16)) ∧
      zsum (words_at (pkt npc') (npc_ips npc which) 8) mod 65535
        = zsum (words_at (pkt npc) (npc_ips npc which) 8) mod 65535 ∧
      (∀ i, 0 <= i < npc_ips npc which ∨ npc_ips npc which + 16 <= i →
        rd8 (pkt npc') i = rd8 (pkt npc) i)
  else npf_npt66_rwr npc which pref len adj = (EINVAL, npc).
Proof.
  intros H6 Hb Ha Hl Hlen Hp Hadj Hneutral. unfold npf_npt66_rwr, npt66_allowed. rewrite H6.
  set (addr := npc_ips npc which) in *. set (p := pkt npc) in *. simpl negb. cbv iota.
  assert (∀ word, Z.of_nat (Z.to_nat (len / 16)) <= word < 8 →
    let p1 := npt66_prefix_loop p addr pref 0 (Z.to_nat (len / 16)) in
    let s := npt66_fold 3 (rd16 p1 (addr + 2 * word) + adj) in
    ∃ npc', (0, set_pkt npc (put16 p1 (addr + 2 * word) (if s =? 0xffff then 0 else s))) = (0, npc') ∧
      words_at (pkt npc') addr (Z.to_nat (len / 16)) = pref_words pref (Z.to_nat (len / 16)) ∧
      zsum (words_at (pkt npc') addr 8) mod 65535 = zsum (words_at p addr 8) mod 65535 ∧
      (∀ i, 0 <= i < addr ∨ addr + 16 <= i → rd8 (pkt npc') i = rd8 p i)) as Hrw.
  { intros word Hw p1 s. eexists. split; [done|].
    destruct (npt66_rewrite_spec p addr pref (Z.to_nat (len / 16)) word adj) as (L & W & Z & F); try done.
    rewrite pkt_set_pkt by exact L. done. }
  set_unfold in Hlen. destruct_or!; subst len; cbn [Z.leb Z.compare Pos.compare Pos.compare_cont] in *;
    change (16 >>> 4) with 1 in *; change (32 >>> 4) with 2 in *; change (48 >>> 4) with 3 in *;
    change (64 >>> 4) with 4 in *.
  1-3: change (2 * 3) with 6; destruct (rd16 p (addr + 6) =? 65535); cbv [negb]; [done|];
    apply (Hrw 3); vm_compute; split; (discriminate || reflexivity).
  destruct ((rd32 p (addr + 8) =? 0) && (rd32 p (addr + 12) =? 0)) eqn:E1,
    ((rd32 p (addr + 8) =? 0xffffffff) && (rd32 p (addr + 12) =? 0xffffffff)) eqn:E2;
    cbn [negb andb orb]; [done..|]. apply Hrw.
  change (Z.of_nat (Z.to_nat (64 / 16))) with 4. by apply npt66_find_word_range.
Qed.

(** ** Sample translations *)

(** The sample SYN, parsed. *)
Definition sample_npc4 : npf_cache_t :=
  mk_npc no_drop (NPC_IP4 ||| NPC_LAYER4 ||| NPC_TCP) (mk_nbuf [take 30 sample_tcp4; drop 30 sample_tcp4] 0 0 1 0)
    12 16 4 20 IPPROTO_TCP 0 (Some 20) None.

Lemma sample_npc4_pre : napt_pre sample_npc4.
Proof.
  split.
  - apply bytes_ok_concrete. vm_compute. reflexivity.
  - simpl. lia.
  - left. vm_compute. repeat split; try reflexivity; discriminate.
  - reflexivity.
  - left. split; [reflexivity|]. vm_compute. discriminate.
Qed.

Lemma npf_napt_rwr_translates_witness :
  ∃ npc', npf_napt_rwr sample_npc4 NPF_SRC ip_192_168_1_77 0x5678 = (0, npc') ∧
    rd_words (pkt npc') 12 1 = ip_192_168_1_77 ∧ rd16 (pkt npc') 20 = 0x5678.
Proof.
  destruct (npf_napt_rwr_translates sample_npc4 NPF_SRC ip_192_168_1_77 0x5678)
    as (npc' & H & _ & Ha & Hp & _).
  - exact sample_npc4_pre.
  - addr_wf_concrete.
  - by unfold inw.
  - exists npc'. split; [exact H|]. split; [exact Ha|]. apply Hp. done.
Defined.

Lemma npf_napt_rwr_cksums_witness :
  ∃ npc', npf_napt_rwr sample_npc4 NPF_SRC ip_192_168_1_77 0x5678 = (0, npc') ∧
    cksum_verifies (ip_cksum_words sample_npc4 (pkt npc')) ∧
    cksum_verifies (l4_cksum_words sample_npc4 (pkt npc')).
Proof.
  destruct (npf_napt_rwr_cksums sample_npc4 NPF_SRC ip_192_168_1_77 0x5678)
    as (npc' & H & H4 & Hl4 & _).
  - exact sample_npc4_pre.
  - addr_wf_concrete.
  - by unfold inw.
  - exists npc'. split; [exact H|]. split.
    + apply H4; [reflexivity|done|vm_compute; reflexivity].
    + apply Hl4; vm_compute; reflexivity.
Defined.

Definition sample_npc6 : npf_cache_t :=
  mk_npc no_drop (NPC_IP6 ||| NPC_LAYER4 ||| NPC_UDP) (mk_nbuf [sample_udp6] 0 0 1 0)
    8 24 16 48 IPPROTO_UDP 0 (Some 48) None.

(** fd00:: *)
Definition ip6_fd00 : npf_addr_t := [0x000000fd; 0; 0; 0].

Lemma npf_npt66_rwr_neutral_witness :
  ∃ npc', npf_npt66_rwr sample_npc6 NPF_SRC ip6_fd00 48 0xff02 = (0, npc') ∧
    words_at (pkt npc') 8 3 = [0xfd; 0; 0].
Proof.
  pose proof (npf_npt66_rwr_neutral sample_npc6 NPF_SRC ip6_fd00 48 0xff02) as H.
  destruct H as (npc' & H & Hw & _).
  - reflexivity.
  - apply bytes_ok_concrete. vm_compute. reflexivity.
  - vm_compute. discriminate.
  - vm_compute. discriminate.
  - set_solver.
  - addr_wf_concrete.
  - by unfold inw.
  - vm_compute. reflexivity.
  - exists npc'. split; [exact H|exact Hw].
Defined.

(** A UDP checksum can become 0 by the fix-up, which on the wire means "no
    checksum" (RFC 768 sends 0xffff instead): here the packet's checksum is
    0x0100 and the address 0.0.0.0 is replaced by 1.0.0.0. *)
Theorem npf_fixup_can_yield_zero : npf_addr_cksum 0x0001 4 [0] [0x00000001] = 0.
Proof. reflexivity. Qed.

(** fd00:0:f0:: as a /44 prefix; its last nibble is the high one of byte 5. *)
Definition ip6_pref44 : npf_addr_t := [0x000000fd; 0x0000f000; 0; 0].

(** For a prefix length that is not a multiple of 8 the word mask keeps the
    low bits of the word, not its leading ones: the last nibble of the /44
    prefix is not written. *)
Theorem npf_npt66_rwr_bit_prefix :
  ∃ npc', npf_npt66_rwr sample_npc6 NPF_SRC ip6_pref44 44 0 = (0, npc') ∧
    rd8 (pkt npc') (8 + 5) = 0 ∧ word16 ip6_pref44 2 >>> 8 = 0xf0.
Proof. eexists. vm_compute. done. Qed.

End Rewrite.
