(* ===== verification/Tcpopt.v ===== *)
(** * Tcpopt: TCP fields and options (src/kern/npf_inet.c)

    [npf_tcpsaw], [npf_fetch_tcpopts] and [npf_set_mss].  Output parameters
    of the C functions are threaded through as values; a NULL [mss] pointer is
    [None]. *)

From S2P Require Import Prelude Nbuf Cache Rewrite.
Open Scope Z_scope.
Open Scope npf_scope.

Module Tcpopt.
Export Rewrite.

Definition TCPOPT_EOL : Z := 0.
Definition TCPOPT_NOP : Z := 1.
Definition TCPOPT_MAXSEG : Z := 2.
Definition TCPOLEN_MAXSEG : Z := 4.
Definition TCPOPT_WINDOW : Z := 3.
Definition TCPOLEN_WINDOW : Z := 3.
Definition TCP_MAX_WINSHIFT : Z := 14.

(** ** SEQ, ACK, WIN and the data length *)

Record tcp_saw := mk_saw { saw_seq : Z; saw_ack : Z; saw_win : Z; saw_len : Z }.

Definition npf_tcpsaw (npc : npf_cache_t) : tcp_saw :=
  let p := pkt npc in
  let th := l4ptr npc in
  let thlen := th_off p th <<< 2 in
  mk_saw (ntohl (th_seq p th)) (ntohl (th_ack p th)) (ntohs (th_win p th))
    (if npf_iscached npc NPC_IP4 then
       s32 (ntohs (ip_len p (npc_ip npc)) - npc_hlen npc - thlen)
     else if npf_iscached npc NPC_IP6 then
       s32 (ntohs (ip6_plen p (npc_ip npc)) - (npc_hlen npc - sizeof_ip6_hdr) - thlen)
     else 0).

(** ** Scanning the options *)

(** The length of the option at [cp], or [None] where the loops break. *)
Definition tcpopt_len (p : list Z) (cp cnt : Z) : option Z :=
  if rd8 p cp =? TCPOPT_EOL then None
  else if rd8 p cp =? TCPOPT_NOP then Some 1
  else if cnt <? 2 then None
  else let optlen := rd8 p (cp + 1) in
       if (optlen <? 2) || (cnt <? optlen) then None else Some optlen.

Fixpoint fetch_tcpopts_loop (fuel : nat) (p : list Z) (cp cnt : Z) (mss : option Z) (wscale : Z) :
    option (option Z * Z) :=
  match fuel with
  | O => None
  | S fuel' =>
      if cnt <=? 0 then Some (mss, wscale) else
      match tcpopt_len p cp cnt with
      | None => Some (mss, wscale)
      | Some optlen =>
          let opt := rd8 p cp in
          let '(mss, wscale) :=
            if opt =? TCPOPT_MAXSEG then
              if negb (optlen =? TCPOLEN_MAXSEG) then (mss, wscale)
              else ((λ _, rd16 p (cp + 2)) <$> mss, wscale)
            else if opt =? TCPOPT_WINDOW then
              if negb (optlen =? TCPOLEN_WINDOW) then (mss, wscale)
              else
                let val := rd8 p (cp + 2) in
                (mss, if TCP_MAX_WINSHIFT <? val then TCP_MAX_WINSHIFT else val)
            else (mss, wscale) in
          fetch_tcpopts_loop fuel' p (cp + optlen) (cnt - optlen) mss wscale
      end
  end.

Record mss_out := mk_mss_out { mss_mid : bool; mss_old : Z * Z; mss_new : Z * Z }.

Fixpoint set_mss_loop (fuel : nat) (p : list Z) (base cp cnt mss : Z) (out : mss_out) :
    option (list Z * mss_out) :=
  match fuel with
  | O => None
  | S fuel' =>
      if cnt <=? 0 then Some (p, out) else
      match tcpopt_len p cp cnt with
      | None => Some (p, out)
      | Some optlen =>
          let opt := rd8 p cp in
          let '(p, out) :=
            if opt =? TCPOPT_MAXSEG then
              if negb (optlen =? TCPOLEN_MAXSEG) then (p, out)
              else if negb (((cp + 2) - base) mod 2 =? 0) then
                let old := (rd16 p (cp + 1), rd16 p (cp + 3)) in
                let p := put16 p (cp + 2) mss in
                (p, mk_mss_out true old (rd16 p (cp + 1), rd16 p (cp + 3)))
              else (put16 p (cp + 2) mss, mk_mss_out false (mss_old out) (mss_new out))
            else (p, out) in
          set_mss_loop fuel' p base (cp + optlen) (cnt - optlen) mss out
      end
  end.

Section ops.
Context {M : npf_mbufops_t}.

(** The number of option bytes. *)
Definition tcpopt_cnt (npc : npf_cache_t) : Z := s32 ((th_off (pkt npc) (l4ptr npc) <<< 2) - sizeof_tcphdr).

(** The exit of both functions: re-cache when the chain was re-arranged. *)
Definition tcpopt_done (npc : npf_cache_t) : option npf_cache_t :=
  if nbuf_flag_p (npc_nbuf npc) NBUF_DATAREF_RESET then npf_recache npc else Some npc.

Definition npf_fetch_tcpopts (npc : npf_cache_t) (mss : option Z) (wscale : Z) :
    option (bool * option Z * Z * npf_cache_t) :=
  let cnt := tcpopt_cnt npc in
  if cnt <=? 0 then Some (false, mss, wscale, npc) else
  let step := npc_hlen npc + sizeof_tcphdr in
  match nbuf_advance (nbuf_reset (npc_nbuf npc)) step cnt with
  | (None, nb) =>
      npc ← tcpopt_done (set_nbuf npc nb); Some (false, mss, wscale, npc)
  | (Some cp, nb) =>
      '(mss, wscale) ← fetch_tcpopts_loop (S (Z.to_nat cnt)) (packet nb) cp cnt mss wscale;
      npc ← tcpopt_done (set_nbuf npc nb); Some (true, mss, wscale, npc)
  end.

Definition npf_set_mss (npc : npf_cache_t) (mss : Z) (out : mss_out) :
    option (bool * mss_out * npf_cache_t) :=
  let cnt := tcpopt_cnt npc in
  if cnt <=? 0 then Some (false, out, npc) else
  let step := npc_hlen npc + sizeof_tcphdr in
  match nbuf_advance (nbuf_reset (npc_nbuf npc)) step cnt with
  | (None, nb) =>
      npc ← tcpopt_done (set_nbuf npc nb); Some (false, out, npc)
  | (Some base, nb) =>
      '(p, out) ← set_mss_loop (S (Z.to_nat cnt)) (packet nb) base base cnt mss out;
      npc ← tcpopt_done (set_pkt (set_nbuf npc nb) p); Some (true, out, npc)
  end.

End ops.

(** ** The scan terminates and reads only the option bytes *)

Lemma tcpopt_len_range p cp cnt l :
  bytes_ok p → 0 < cnt → tcpopt_len p cp cnt = Some l → 1 <= l <= cnt ∧ l < 256.
Proof.
  intros Hb Hc. unfold tcpopt_len. pose proof (rd8_range p (cp + 1) Hb).
  repeat case_if; intros [= <-]; bool_to_prop; lia.
Qed.

(** The options' effect on the two outputs. *)
Lemma fetch_tcpopts_loop_total fuel : ∀ p cp cnt mss ws,
  bytes_ok p → 0 <= ws <= TCP_MAX_WINSHIFT → Z.max 0 cnt < Z.of_nat fuel →
  ∃ mss' ws', fetch_tcpopts_loop fuel p cp cnt mss ws = Some (mss', ws') ∧
    0 <= ws' <= TCP_MAX_WINSHIFT.
Proof.
  induction fuel as [|fuel IH]; intros p cp cnt mss ws Hb Hws Hf; [lia|].
  cbn [fetch_tcpopts_loop]. destruct (cnt <=? 0) eqn:E; bool_to_prop; [eauto|].
  destruct (tcpopt_len p cp cnt) as [l|] eqn:El; [|eauto].
  apply tcpopt_len_range in El; [|done|done].
  destruct (if rd8 p cp =? TCPOPT_MAXSEG then _ else _) as [mss1 ws1] eqn:Eo.
  apply IH; [done| |lia]. pose proof (rd8_range p (cp + 2) Hb).
  revert Eo. repeat case_if; intros [= <- <-]; bool_to_prop; unfold TCP_MAX_WINSHIFT in *; lia.
Qed.

Lemma tcpopt_len_ext p p' cp cnt :
  0 < cnt → (∀ i, cp <= i < cp + cnt → rd8 p i = rd8 p' i) → tcpopt_len p cp cnt = tcpopt_len p' cp cnt.
Proof.
  intros Hc H. unfold tcpopt_len. rewrite (H cp) by lia.
  case_if; [done|]. case_if; [done|]. destruct (cnt <? 2) eqn:E; [done|]. bool_to_prop.
  by rewrite (H (cp + 1)) by lia.
Qed.

(** The scan depends on the [cnt] bytes of the options only. *)
Lemma fetch_tcpopts_loop_ext fuel : ∀ p p' cp cnt mss ws,
  bytes_ok p → (∀ i, cp <= i < cp + cnt → rd8 p i = rd8 p' i) →
  fetch_tcpopts_loop fuel p cp cnt mss ws = fetch_tcpopts_loop fuel p' cp cnt mss ws.
Proof.
  induction fuel as [|fuel IH]; intros p p' cp cnt mss ws Hb H; [done|].
  cbn [fetch_tcpopts_loop]. destruct (cnt <=? 0) eqn:E; bool_to_prop; [done|].
  rewrite <- (tcpopt_len_ext p p') by (done || lia).
  destruct (tcpopt_len p cp cnt) as [l|] eqn:El; [|done].
  apply tcpopt_len_range in El; [|done|done]. rewrite <- (H cp) by lia.
  assert ((if rd8 p cp =? TCPOPT_MAXSEG then
      if negb (l =? TCPOLEN_MAXSEG) then (mss, ws) else ((λ _, rd16 p (cp + 2)) <$> mss, ws)
    else if rd8 p cp =? TCPOPT_WINDOW then
      if negb (l =? TCPOLEN_WINDOW) then (mss, ws)
      else (mss, if TCP_MAX_WINSHIFT <? rd8 p (cp + 2) then TCP_MAX_WINSHIFT else rd8 p (cp + 2))
    else (mss, ws)) = (if rd8 p cp =? TCPOPT_MAXSEG then
      if negb (l =? TCPOLEN_MAXSEG) then (mss, ws) else ((λ _, rd16 p' (cp + 2)) <$> mss, ws)
    else if rd8 p cp =? TCPOPT_WINDOW then
      if negb (l =? TCPOLEN_WINDOW) then (mss, ws)
      else (mss, if TCP_MAX_WINSHIFT <? rd8 p' (cp + 2) then TCP_MAX_WINSHIFT else rd8 p' (cp + 2))
    else (mss, ws))) as ->.
  { unfold TCPOLEN_MAXSEG, TCPOLEN_WINDOW in *.
    destruct (rd8 p cp =? TCPOPT_MAXSEG); [|destruct (rd8 p cp =? TCPOPT_WINDOW); [|done]].
    - destruct (l =? 4) eqn:E4; [|done]. bool_to_prop.
      unfold rd16. by rewrite !H by lia.
    - destruct (l =? 3) eqn:E3; [|done]. bool_to_prop. by rewrite !H by lia. }
  destruct (if rd8 p cp =? TCPOPT_MAXSEG then _ else _) as [mss1 ws1].
  apply IH; [done|]. intros i Hi. apply H. lia.
Qed.

(** ** Reference: encoded options *)

Inductive tcpopt := TNop | TOpt (kind : Z) (data : list Z).

Definition encode_opt (o : tcpopt) : list Z :=
  match o with TNop => [TCPOPT_NOP] | TOpt k d => k :: (2 + blen d) :: d end.
Definition encode_opts (os : list tcpopt) : list Z := concat (encode_opt <$> os).

Definition opt_wf (o : tcpopt) : Prop :=
  match o with TNop => True | TOpt k d => k ≠ TCPOPT_EOL ∧ k ≠ TCPOPT_NOP ∧ blen d <= 253 end.

(** What an option means to NPF: the last MSS and the last (clamped) scale. *)
Definition opt_effect (st : option Z * Z) (o : tcpopt) : option Z * Z :=
  match o with
  | TOpt 2 [a; b] => ((λ _, a + 256 * b) <$> fst st, snd st)
  | TOpt 3 [v] => (fst st, Z.min v TCP_MAX_WINSHIFT)
  | _ => st
  end.

Lemma rd8_app_r pre l i : 0 <= i → rd8 (pre ++ l) (blen pre + i) = rd8 l i.
Proof.
  intros Hi. unfold rd8, blen. rewrite lookup_app_r by lia. do 2 f_equal. lia.
Qed.

Lemma rd8_app_r0 pre x l : rd8 (pre ++ x :: l) (blen pre) = x.
Proof. rewrite <- (Z.add_0_r (blen pre)), rd8_app_r by lia. done. Qed.

(** One turn of the loop over an encoded option. *)
Lemma fetch_encoded_opt fuel pre o post cnt mss ws :
  opt_wf o → blen (encode_opt o) <= cnt →
  let p := pre ++ encode_opt o ++ post in
  fetch_tcpopts_loop (S fuel) p (blen pre) cnt mss ws =
  fetch_tcpopts_loop fuel p (blen pre + blen (encode_opt o)) (cnt - blen (encode_opt o))
    (fst (opt_effect (mss, ws) o)) (snd (opt_effect (mss, ws) o)).
Proof.
  intros Hwf Hc p. unfold p. cbn [fetch_tcpopts_loop].
  assert (0 < blen (encode_opt o)) by (destruct o; unfold blen; simpl; lia).
  rewrite (proj2 (Z.leb_gt cnt 0)) by lia. destruct o as [|k d].
  - unfold tcpopt_len. cbn [encode_opt app]. rewrite rd8_app_r0. done.
  - destruct Hwf as (Hk0 & Hk1 & Hd). cbn [encode_opt app] in *.
    assert (blen (k :: (2 + blen d) :: d) = 2 + blen d) as Hbl by (unfold blen; simpl; lia).
    rewrite Hbl in *. assert (0 <= blen d) by (unfold blen; lia).
    assert (∀ i, 0 <= i → rd8 (pre ++ k :: (2 + blen d) :: d ++ post) (blen pre + 2 + i)
      = rd8 (d ++ post) i) as Hdata.
    { intros i Hi. rewrite <- Z.add_assoc, rd8_app_r by lia. unfold rd8.
      replace (Z.to_nat (2 + i)) with (S (S (Z.to_nat i))) by lia. done. }
    pose proof (Hdata 0 ltac:(lia)) as Hdata0. rewrite Z.add_0_r in Hdata0.
    unfold tcpopt_len. rewrite rd8_app_r0.
    rewrite (proj2 (Z.eqb_neq _ _) Hk0), (proj2 (Z.eqb_neq _ _) Hk1).
    rewrite (proj2 (Z.ltb_ge _ _)) by lia.
    rewrite rd8_app_r by lia. change (rd8 (k :: (2 + blen d) :: d ++ post) 1) with (2 + blen d).
    rewrite (proj2 (Z.ltb_ge _ 2)), (proj2 (Z.ltb_ge cnt _)) by lia. cbn [orb].
    destruct (k =? TCPOPT_MAXSEG) eqn:E2; [|destruct (k =? TCPOPT_WINDOW) eqn:E3].
    all: bool_to_prop; unfold TCPOPT_MAXSEG, TCPOPT_WINDOW, TCPOLEN_MAXSEG, TCPOLEN_WINDOW in *.
    + subst k. destruct d as [|a [|b [|c d]]]; try (rewrite (proj2 (Z.eqb_neq _ _))
        by (unfold blen; simpl; lia); done).
      change (2 + blen [a; b] =? 4) with true. cbn [negb]. unfold rd16.
      by rewrite Hdata0, (Hdata 1) by lia.
    + subst k. destruct d as [|a [|b d]]; try (rewrite (proj2 (Z.eqb_neq _ _))
        by (unfold blen; simpl; lia); done).
      change (2 + blen [a] =? 3) with true. cbn [negb].
      rewrite Hdata0. cbn [opt_effect fst snd].
      change (rd8 ([a] ++ post) 0) with a. f_equal. case_if; bool_to_prop; lia.
    + destruct k as [|[[]|[]|]|]; done.
Qed.

(** The loop over a whole encoded list, up to the end or an EOL. *)
Lemma fetch_encoded os : ∀ fuel pre post cnt mss ws,
  Forall opt_wf os → Z.max 0 cnt < Z.of_nat fuel → blen (encode_opts os) <= cnt →
  (blen (encode_opts os) < cnt → head post = Some TCPOPT_EOL) →
  fetch_tcpopts_loop fuel (pre ++ encode_opts os ++ post) (blen pre) cnt mss ws
    = Some (foldl opt_effect (mss, ws) os).
Proof.
  induction os as [|o os IH]; intros fuel pre post cnt mss ws Hwf Hf Hc Heol.
  - destruct fuel as [|fuel]; [lia|]. change (encode_opts []) with (@nil Z) in *.
    change (blen []) with 0 in *. cbn [fetch_tcpopts_loop].
    destruct (cnt <=? 0) eqn:E; bool_to_prop; [done|]. specialize (Heol E).
    destruct post as [|x post]; [done|]. injection Heol as ->. cbn [app].
    unfold tcpopt_len. by rewrite rd8_app_r0.
  - apply Forall_cons in Hwf as [Ho Hwf].
    change (encode_opts (o :: os)) with (encode_opt o ++ encode_opts os) in *.
    assert (∀ a b : list Z, blen (a ++ b) = blen a + blen b) as Happ
      by (intros; unfold blen; rewrite length_app; lia).
    rewrite Happ in *. assert (0 <= blen (encode_opts os)) by (unfold blen; lia).
    assert (0 < blen (encode_opt o)) by (destruct o; unfold blen; simpl; lia).
    destruct fuel as [|fuel]; [lia|]. rewrite <- app_assoc.
    rewrite fetch_encoded_opt by (done || lia). rewrite app_assoc, <- Happ.
    rewrite IH; [|done|lia|lia|intros; apply Heol; lia].
    cbn [foldl]. by destruct (opt_effect (mss, ws) o).
Qed.

(** ** Setting the MSS *)

(** The store of one turn of the loop. *)
Definition set_mss_at (p : list Z) (cp optlen mss : Z) : list Z :=
  if (rd8 p cp =? TCPOPT_MAXSEG) && (optlen =? TCPOLEN_MAXSEG) then put16 p (cp + 2) mss else p.

Lemma set_mss_loop_step fuel p base cp cnt mss out l :
  0 < cnt → tcpopt_len p cp cnt = Some l →
  ∃ out', set_mss_loop (S fuel) p base cp cnt mss out
    = set_mss_loop fuel (set_mss_at p cp l mss) base (cp + l) (cnt - l) mss out'.
Proof.
  intros Hc El. cbn [set_mss_loop]. rewrite (proj2 (Z.leb_gt cnt 0)), El by lia.
  unfold set_mss_at. destruct (rd8 p cp =? TCPOPT_MAXSEG); [|cbn; eauto].
  destruct (l =? TCPOLEN_MAXSEG); [|cbn; eauto]. cbn [negb andb]. case_if; eauto.
Qed.

Lemma set_mss_at_spec p cp l mss :
  bytes_ok p → inw 16 mss → 0 <= cp → 1 <= l → cp + l <= blen p →
  length (set_mss_at p cp l mss) = length p ∧ bytes_ok (set_mss_at p cp l mss) ∧
  (∀ i, 0 <= i → i < cp + 2 ∨ cp + l <= i → rd8 (set_mss_at p cp l mss) i = rd8 p i) ∧
  ((rd8 p cp =? TCPOPT_MAXSEG) && (l =? TCPOLEN_MAXSEG) = true →
    rd16 (set_mss_at p cp l mss) (cp + 2) = mss).
Proof.
  intros Hb Hm Hcp Hl Hin. unfold set_mss_at, TCPOLEN_MAXSEG.
  destruct ((rd8 p cp =? TCPOPT_MAXSEG) && (l =? 4)) eqn:E; [|done].
  apply andb_prop in E as [_ E]. bool_to_prop.
  split; [apply put16_length|]. split; [by apply bytes_ok_put16|]. split.
  - intros i Hi Hd. apply rd8_put16_ne; lia.
  - intros _. apply rd16_put16_eq; [lia|lia|done].
Qed.

Lemma set_mss_loop_frame fuel : ∀ p base cp cnt mss out p' out',
  bytes_ok p → inw 16 mss → 0 <= cp → cp + cnt <= blen p →
  set_mss_loop fuel p base cp cnt mss out = Some (p', out') →
  length p' = length p ∧ bytes_ok p' ∧
  (∀ i, 0 <= i → i < cp + 2 ∨ cp + cnt <= i → rd8 p' i = rd8 p i).
Proof.
  induction fuel as [|fuel IH]; intros p base cp cnt mss out p' out' Hb Hm Hcp Hin; [done|].
  destruct (cnt <=? 0) eqn:Ec; [cbn [set_mss_loop]; rewrite Ec; by intros [= <- <-]|].
  bool_to_prop. destruct (tcpopt_len p cp cnt) as [l|] eqn:El.
  2:{ cbn [set_mss_loop]. rewrite (proj2 (Z.leb_gt cnt 0)), El by lia. by intros [= <- <-]. }
  destruct (set_mss_loop_step fuel p base cp cnt mss out l) as [out1 ->]; [lia|done|].
  apply tcpopt_len_range in El; [|done|done].
  destruct (set_mss_at_spec p cp l mss) as (L & B & F & _); try done; try lia.
  intros H. apply IH in H as (L' & B' & F'); try done; try lia; [|unfold blen in *; lia].
  split; [congruence|]. split; [done|]. intros i Hi Hd. rewrite F', F by lia. done.
Qed.

Lemma set_mss_loop_total fuel : ∀ p base cp cnt mss out,
  bytes_ok p → inw 16 mss → 0 <= cp → cp + cnt <= blen p → Z.max 0 cnt < Z.of_nat fuel →
  is_Some (set_mss_loop fuel p base cp cnt mss out).
Proof.
  induction fuel as [|fuel IH]; intros p base cp cnt mss out Hb Hm Hcp Hin Hf; [lia|].
  destruct (cnt <=? 0) eqn:Ec; [cbn [set_mss_loop]; by rewrite Ec|].
  bool_to_prop. destruct (tcpopt_len p cp cnt) as [l|] eqn:El.
  2:{ cbn [set_mss_loop]. by rewrite (proj2 (Z.leb_gt cnt 0)), El by lia. }
  destruct (set_mss_loop_step fuel p base cp cnt mss out l) as [out1 ->]; [lia|done|].
  apply tcpopt_len_range in El; [|done|done].
  destruct (set_mss_at_spec p cp l mss) as (L & B & _ & _); try done; try lia.
  apply IH; try done; try lia. unfold blen in *. lia.
Qed.

(** The scan before and after: an option area has an MSS option or not ([b]);
    if it has, the scan after [set_mss] finds the new value in its place. *)
Lemma set_mss_loop_fetch fuel : ∀ p base cp cnt mss out p' out' ws,
  bytes_ok p → inw 16 mss → 0 <= cp → cp + cnt <= blen p → Z.max 0 cnt < Z.of_nat fuel →
  set_mss_loop fuel p base cp cnt mss out = Some (p', out') →
  ∃ (b : bool) x w, ∀ d,
    fetch_tcpopts_loop fuel p cp cnt (Some d) ws = Some (Some (if b then x else d), w) ∧
    fetch_tcpopts_loop fuel p' cp cnt (Some d) ws = Some (Some (if b then mss else d), w).
Proof.
  induction fuel as [|fuel IH]; intros p base cp cnt mss out p' out' ws Hb Hm Hcp Hin Hf; [done|].
  intros Hset. pose proof Hset as Hfr. apply set_mss_loop_frame in Hfr as (L & B & F); try done.
  destruct (cnt <=? 0) eqn:Ec.
  { exists false, 0, ws. intros d. cbn [fetch_tcpopts_loop]. by rewrite Ec. }
  bool_to_prop. destruct (tcpopt_len p cp cnt) as [l|] eqn:El.
  2:{ exists false, 0, ws. intros d. cbn [set_mss_loop fetch_tcpopts_loop] in *.
      rewrite (proj2 (Z.leb_gt cnt 0)), El in * by lia. injection Hset as <- <-. by rewrite El. }
  destruct (set_mss_loop_step fuel p base cp cnt mss out l) as [out1 E1]; [lia|done|].
  rewrite E1 in Hset. clear E1.
  assert (tcpopt_len p' cp cnt = Some l) as El'.
  { rewrite <- El. unfold tcpopt_len. by rewrite !F by lia. }
  pose proof (tcpopt_len_range _ _ _ _ Hb Ec El) as Hl.
  destruct (set_mss_at_spec p cp l mss) as (L1 & B1 & F1 & V1); try done; try lia.
  set (p1 := set_mss_at p cp l mss) in *.
  pose proof Hset as Hfr. apply set_mss_loop_frame in Hfr as (_ & _ & F2); try done;
    try lia; [|unfold blen in *; lia].
  assert (∀ i, 0 <= i → i < cp + l → rd8 p' i = rd8 p1 i) as F2' by (intros; apply F2; lia).
  set (ws1 := if (rd8 p cp =? TCPOPT_WINDOW) && (l =? TCPOLEN_WINDOW)
    then Z.min (rd8 p (cp + 2)) TCP_MAX_WINSHIFT else ws).
  apply (IH _ _ _ _ _ _ _ _ ws1) in Hset as (b & x & w & Hrec); try done; try lia;
    [|unfold blen in *; lia].
  set (isms := (rd8 p cp =? TCPOPT_MAXSEG) && (l =? TCPOLEN_MAXSEG)).
  assert (∀ q d, (q = p ∨ q = p') → fetch_tcpopts_loop (S fuel) q cp cnt (Some d) ws =
    fetch_tcpopts_loop fuel q (cp + l) (cnt - l)
      (Some (if isms then rd16 q (cp + 2) else d)) ws1) as Hstep.
  { intros q d Hq. cbn [fetch_tcpopts_loop]. rewrite (proj2 (Z.leb_gt cnt 0)) by lia.
    assert (tcpopt_len q cp cnt = Some l) as -> by (by destruct Hq as [-> | ->]).
    assert (rd8 q cp = rd8 p cp) as -> by (destruct Hq as [-> | ->]; [done|apply F; lia]).
    unfold isms, ws1. destruct (rd8 p cp =? TCPOPT_MAXSEG) eqn:E2.
    - bool_to_prop. rewrite E2. change (TCPOPT_MAXSEG =? TCPOPT_WINDOW) with false.
      by destruct (l =? TCPOLEN_MAXSEG).
    - destruct (rd8 p cp =? TCPOPT_WINDOW) eqn:E3; [|done].
      destruct (l =? TCPOLEN_WINDOW) eqn:E4; [|done]. bool_to_prop. cbn [negb andb].
      assert (rd8 q (cp + 2) = rd8 p (cp + 2)) as ->.
      { destruct Hq as [-> | ->]; [done|]. rewrite F2' by (unfold TCPOLEN_WINDOW in *; lia).
        unfold p1, set_mss_at. rewrite E3. done. }
      f_equal. case_if; bool_to_prop; lia. }
  exists (isms || b), (if b then x else rd16 p (cp + 2)), w. intros d.
  rewrite (Hstep p d), (Hstep p' d) by auto. split.
  - rewrite <- (fetch_tcpopts_loop_ext fuel p1) by (try done; intros; apply F1; lia).
    destruct (Hrec (if isms then rd16 p (cp + 2) else d)) as [-> _]. by destruct isms, b.
  - assert (isms = true → rd16 p' (cp + 2) = mss) as Hv.
    { intros Hi. rewrite <- V1 by done. apply andb_prop in Hi as [_ Hi]. bool_to_prop.
      unfold TCPOLEN_MAXSEG in Hi. apply rd16_ext; apply F2'; lia. }
    destruct (Hrec (if isms then rd16 p' (cp + 2) else d)) as [_ ->].
    destruct isms, b; simpl; try done. by rewrite Hv.
Qed.

Section laws.
Context {M : npf_mbufops_t} {ML : mbufops_laws}.

Lemma tcpopt_done_total npc : nbuf_wf (npc_nbuf npc) → bytes_ok (pkt npc) →
  ∃ npc', tcpopt_done npc = Some npc' ∧ pkt npc' = pkt npc.
Proof.
  intros Hwf Hb. unfold tcpopt_done, npf_recache. case_if; [|eauto].
  destruct (npf_cache_all_spec (set_info (set_nbuf npc (nbuf_reset (npc_nbuf npc))) 0))
    as (fl & npc' & -> & _ & Hp & _); [by apply nbuf_reset_wf|done|eauto].
Qed.

Lemma npf_fetch_tcpopts_spec npc mss ws :
  nbuf_wf (npc_nbuf npc) → bytes_ok (pkt npc) → 0 <= npc_hlen npc < 2 ^ 30 →
  0 <= ws <= TCP_MAX_WINSHIFT →
  ∃ ok mss' ws' npc', npf_fetch_tcpopts npc mss ws = Some (ok, mss', ws', npc') ∧
    0 <= ws' <= TCP_MAX_WINSHIFT ∧ pkt npc' = pkt npc.
Proof.
  intros Hwf Hb Hh Hws. unfold npf_fetch_tcpopts, sizeof_tcphdr.
  destruct (tcpopt_cnt npc <=? 0) eqn:Ec; bool_to_prop; [by eauto 10|].
  destruct (nbuf_reset_wf _ Hwf) as [Wr _].
  pose proof (nbuf_advance_spec _ (npc_hlen npc + 20) (tcpopt_cnt npc) Wr ltac:(lia) ltac:(lia)) as Ha.
  destruct (nbuf_advance _ _ _) as [[cp|] nb]; destruct Ha as (Wn & Pn & _).
  - destruct (fetch_tcpopts_loop_total (S (Z.to_nat (tcpopt_cnt npc))) (packet nb) cp
      (tcpopt_cnt npc) mss ws) as (mss' & ws' & -> & Hw'); [by rewrite Pn|done|lia|].
    destruct (tcpopt_done_total (set_nbuf npc nb)) as (npc' & E & P); [done|by unfold pkt in *; simpl; rewrite Pn|].
    simpl. rewrite E. simpl. exists true, mss', ws', npc'. split_and!; try done; try lia.
    etrans; [exact P|exact Pn].
  - destruct (tcpopt_done_total (set_nbuf npc nb)) as (npc' & E & P); [done|by unfold pkt in *; simpl; rewrite Pn|].
    simpl. rewrite E. simpl. exists false, mss, ws, npc'. split_and!; try done; try lia.
    etrans; [exact P|exact Pn].
Qed.

(** [npf_fetch_tcpopts] always terminates with a result, whatever the
    option bytes are; it leaves the packet's bytes alone, and the window
    scale it reports is at most 14 (the limit of RFC 7323).  On a packet that
    has no options, or whose options cannot be made contiguous, both outputs
    keep their values. *)
Theorem npf_fetch_tcpopts_total npc mss ws :
  nbuf_wf (npc_nbuf npc) → bytes_ok (pkt npc) → 0 <= npc_hlen npc < 2 ^ 30 →
  0 <= ws <= TCP_MAX_WINSHIFT →
  ∃ ok mss' ws' npc', npf_fetch_tcpopts npc mss ws = Some (ok, mss', ws', npc') ∧
    0 <= ws' <= TCP_MAX_WINSHIFT ∧ pkt npc' = pkt npc ∧
    (ok = false → mss' = mss ∧ ws' = ws).
Proof.
  intros Hwf Hb Hh Hws.
  destruct (npf_fetch_tcpopts_spec npc mss ws Hwf Hb Hh Hws) as (ok & m & w & n & E & Hw & Hp).
  exists ok, m, w, n. split_and!; try done; try lia. intros ->. revert E. unfold npf_fetch_tcpopts.
  case_if; [by intros [= <- <- <-]|].
  destruct (nbuf_advance _ _ _) as [[cp|] nb].
  - destruct (fetch_tcpopts_loop _ _ _ _ _ _) as [[? ?]|]; [|done]. simpl.
    by destruct (tcpopt_done _).
  - destruct (tcpopt_done _); [|done]. simpl. by intros [= <- <- <-].
Qed.

(** On a contiguous packet whose option area holds any list of encoded
    TCP options, ended by EOL padding or by the end of the area,
    [npf_fetch_tcpopts] returns the value of the last MSS option and of the
    last window-scale option (clamped to 14), skipping all others. *)
Theorem npf_fetch_tcpopts_encoded npc p ifid pre os post mss ws :
  nb_mbuf0 (npc_nbuf npc) = [p] → nb_flags (npc_nbuf npc) = 0 → nb_ifid (npc_nbuf npc) = ifid →
  p = pre ++ encode_opts os ++ post → blen p < 2 ^ 31 →
  blen pre = npc_hlen npc + 20 → 0 <= npc_hlen npc → Forall opt_wf os →
  0 < tcpopt_cnt npc → blen (encode_opts os) <= tcpopt_cnt npc →
  blen pre + tcpopt_cnt npc <= blen p →
  (blen (encode_opts os) < tcpopt_cnt npc → head post = Some TCPOPT_EOL) →
  ∃ npc', npf_fetch_tcpopts npc mss ws
    = Some (true, fst (foldl opt_effect (mss, ws) os), snd (foldl opt_effect (mss, ws) os), npc').
Proof.
  intros Hc Hfl Hif -> H31 Hpre Hh Hwf Hcnt Hlen Hin Heol. unfold npf_fetch_tcpopts, sizeof_tcphdr.
  rewrite (proj2 (Z.leb_gt _ 0)) by lia.
  replace (nbuf_reset (npc_nbuf npc)) with (mk_nbuf [pre ++ encode_opts os ++ post] 0 0 ifid 0)
    by (unfold nbuf_reset; by rewrite Hc, Hfl, Hif).
  destruct (flat_advance (pre ++ encode_opts os ++ post) ifid (npc_hlen npc + 20) (tcpopt_cnt npc))
    as [Hadv _]; [lia|lia|lia|]. rewrite Hadv by lia. rewrite <- Hpre.
  replace (packet _) with (pre ++ encode_opts os ++ post) by (unfold packet; simpl; by rewrite app_nil_r).
  rewrite fetch_encoded by (done || lia). unfold tcpopt_done. simpl.
  destruct (foldl opt_effect (mss, ws) os). simpl. eauto.
Qed.

(** [npf_set_mss] on a contiguous packet with TCP options succeeds; a scan
    of the options afterwards finds the new MSS exactly where it found an MSS
    before (and none if there was none), the same window scale, and no byte
    outside the option area is changed. *)
Theorem npf_set_mss_fetch npc p mss out :
  nb_mbuf0 (npc_nbuf npc) = [p] → nb_flags (npc_nbuf npc) = 0 → bytes_ok p → blen p < 2 ^ 31 →
  0 <= npc_hlen npc → 0 < tcpopt_cnt npc → npc_hlen npc + 20 + tcpopt_cnt npc <= blen p →
  inw 16 mss →
  let scan q d := fetch_tcpopts_loop (S (Z.to_nat (tcpopt_cnt npc))) q (npc_hlen npc + 20)
                    (tcpopt_cnt npc) (Some d) 0 in
  ∃ out' npc' (b : bool) x w, npf_set_mss npc mss out = Some (true, out', npc') ∧
    (∀ d, scan p d = Some (Some (if b then x else d), w) ∧
          scan (pkt npc') d = Some (Some (if b then mss else d), w)) ∧
    (∀ i, 0 <= i < npc_hlen npc + 20 ∨ npc_hlen npc + 20 + tcpopt_cnt npc <= i →
      rd8 (pkt npc') i = rd8 p i).
Proof.
  intros Hc Hfl Hb H31 Hh Hcnt Hin Hm scan. unfold npf_set_mss, sizeof_tcphdr.
  rewrite (proj2 (Z.leb_gt _ 0)) by lia.
  replace (nbuf_reset (npc_nbuf npc)) with (mk_nbuf [p] 0 0 (nb_ifid (npc_nbuf npc)) 0)
    by (unfold nbuf_reset; by rewrite Hc, Hfl).
  destruct (flat_advance p (nb_ifid (npc_nbuf npc)) (npc_hlen npc + 20) (tcpopt_cnt npc))
    as [Hadv _]; [lia|lia|lia|]. rewrite Hadv by lia.
  replace (packet _) with p by (unfold packet; simpl; by rewrite app_nil_r).
  destruct (set_mss_loop_total (S (Z.to_nat (tcpopt_cnt npc))) p (npc_hlen npc + 20)
    (npc_hlen npc + 20) (tcpopt_cnt npc) mss out) as [[p' out'] E]; try done; try lia.
  rewrite E. unfold tcpopt_done.
  destruct (set_mss_loop_fetch (S (Z.to_nat (tcpopt_cnt npc))) p (npc_hlen npc + 20)
    (npc_hlen npc + 20) (tcpopt_cnt npc) mss out p' out' 0) as (b & x & w & Hscan); try done; try lia.
  destruct (set_mss_loop_frame (S (Z.to_nat (tcpopt_cnt npc))) p (npc_hlen npc + 20)
    (npc_hlen npc + 20) (tcpopt_cnt npc) mss out p' out') as (L & _ & F); try done; try lia.
  exists out', (set_pkt (set_nbuf npc
    (mk_nbuf [p] 0 (npc_hlen npc + 20) (nb_ifid (npc_nbuf npc)) 0)) p'), b, x, w.
  split; [reflexivity|].
  rewrite pkt_set_pkt by (unfold pkt, packet; simpl; rewrite app_nil_r; done).
  split; [exact Hscan|]. intros i Hi. apply F; lia.
Qed.

End laws.

(** ** Samples *)

(** A SYN with MSS 1460, NOP and window scale 15 (to be clamped). *)
Definition sample_syn_opts : list tcpopt := [TOpt 2 [0x05; 0xb4]; TNop; TOpt 3 [15]].
Definition sample_syn_pre : list Z :=
  [0x45; 0; 0; 48; 0; 1; 0; 0; 64; 6; 0; 0; 10; 0; 0; 1; 10; 0; 0; 2;
   0x30; 0x39; 0; 80; 0; 0; 0; 1; 0; 0; 0; 0; 0x70; 2; 0x20; 0; 0; 0; 0; 0].
Definition sample_syn : list Z := sample_syn_pre ++ encode_opts sample_syn_opts.
Definition sample_syn_npc : npf_cache_t :=
  mk_npc no_drop (NPC_IP4 ||| NPC_LAYER4 ||| NPC_TCP) (mk_nbuf [sample_syn] 0 0 1 0)
    12 16 4 20 IPPROTO_TCP 0 (Some 20) None.

Lemma npf_fetch_tcpopts_total_witness :
  ∃ ok mss' ws' npc', @npf_fetch_tcpopts linear_mbufops sample_syn_npc (Some 0) 0
    = Some (ok, mss', ws', npc') ∧ 0 <= ws' <= TCP_MAX_WINSHIFT.
Proof.
  destruct (@npf_fetch_tcpopts_total linear_mbufops linear_mbufops_laws sample_syn_npc (Some 0) 0)
    as (ok & m & w & n & H & Hw & _ & _).
  - apply (flat_npc_wf no_drop sample_syn 1). vm_compute. reflexivity.
  - apply bytes_ok_concrete. vm_compute. reflexivity.
  - simpl. lia.
  - unfold TCP_MAX_WINSHIFT. lia.
  - exists ok, m, w, n. split; [exact H|exact Hw].
Defined.

Lemma npf_fetch_tcpopts_encoded_witness :
  ∃ npc', @npf_fetch_tcpopts linear_mbufops sample_syn_npc (Some 0) 0
    = Some (true, Some 0xb405, 14, npc').
Proof.
  apply (@npf_fetch_tcpopts_encoded linear_mbufops linear_mbufops_laws sample_syn_npc sample_syn 1
    sample_syn_pre sample_syn_opts [] (Some 0) 0); try reflexivity; try discriminate.
  repeat constructor; discriminate.
Defined.

Lemma npf_set_mss_fetch_witness :
  ∃ out' npc', @npf_set_mss linear_mbufops sample_syn_npc 0x1234 (mk_mss_out false (0, 0) (0, 0))
    = Some (true, out', npc').
Proof.
  destruct (@npf_set_mss_fetch linear_mbufops linear_mbufops_laws sample_syn_npc sample_syn 0x1234
    (mk_mss_out false (0, 0) (0, 0))) as (out' & npc' & b & x & w & H & _); try reflexivity;
    try discriminate.
  - apply bytes_ok_concrete. vm_compute. reflexivity.
  - by unfold inw.
  - exists out', npc'. exact H.
Defined.

End Tcpopt.
