(* ===== verification/StateTcp.v ===== *)
(** * StateTcp: TCP state tracking (src/kern/npf_state_tcp.c)

    The transition table, the window check of Rooij's "Real stateful TCP
    packet filtering", and [npf_state_tcp] which composes them.  Sequence
    numbers are 32-bit with the wrap-around written out; an [int] difference
    of sequence numbers is [s32] of it. *)

From S2P Require Import Prelude Nbuf Cache Rewrite Tcpopt.
Open Scope Z_scope.
Open Scope npf_scope.

Module StateTcp.
Export Tcpopt.

(** ** States, flag cases and the transition table *)

Definition NPF_TCPS_OK : Z := 255.
Definition NPF_TCPS_CLOSED : Z := 0.
Definition NPF_TCPS_SYN_SENT : Z := 1.
Definition NPF_TCPS_SIMSYN_SENT : Z := 2.
Definition NPF_TCPS_SYN_RECEIVED : Z := 3.
Definition NPF_TCPS_ESTABLISHED : Z := 4.
Definition NPF_TCPS_FIN_SENT : Z := 5.
Definition NPF_TCPS_FIN_RECEIVED : Z := 6.
Definition NPF_TCPS_CLOSE_WAIT : Z := 7.
Definition NPF_TCPS_FIN_WAIT : Z := 8.
Definition NPF_TCPS_CLOSING : Z := 9.
Definition NPF_TCPS_LAST_ACK : Z := 10.
Definition NPF_TCPS_TIME_WAIT : Z := 11.
Definition NPF_TCP_NSTATES : Z := 12.

Definition NPF_TCPT_NEW : Z := 0.
Definition NPF_TCPT_ESTABLISHED : Z := 1.
Definition NPF_TCPT_HALFCLOSE : Z := 2.
Definition NPF_TCPT_CLOSE : Z := 3.
Definition NPF_TCPT_TIMEWAIT : Z := 4.

Definition TH_FIN : Z := 0x01.
Definition TH_SYN : Z := 0x02.
Definition TH_RST : Z := 0x04.
Definition TH_ACK : Z := 0x10.

Definition TCPFC_INVALID : Z := 0.
Definition TCPFC_SYN : Z := 1.
Definition TCPFC_SYNACK : Z := 2.
Definition TCPFC_ACK : Z := 3.
Definition TCPFC_FIN : Z := 4.
Definition TCPFC_COUNT : Z := 5.

Record npf_state_tcp_params_t := mk_tcp_params {
  max_ack_win : Z;
  strict_order_rst : bool;
  tcp_timeouts : list Z;       (* indexed by NPF_TCPT_* *)
}.

Definition npf_tcpfl2case (tcpfl : Z) : Z :=
  let i := (tcpfl &&& (TH_SYN ||| TH_FIN)) ||| ((tcpfl &&& TH_ACK) >>> 2) in
  (0x2430140 >>> (i <<< 2)) &&& 7.

(** The initialisers of [npf_tcp_fsm]; cells that are not listed are 0. *)
Definition npf_tcp_fsm_init : list (Z * npf_flow_t * Z * Z) :=
  [ (NPF_TCPS_CLOSED, NPF_FLOW_FORW, TCPFC_SYN, NPF_TCPS_SYN_SENT);
    (NPF_TCPS_SYN_SENT, NPF_FLOW_FORW, TCPFC_SYN, NPF_TCPS_OK);
    (NPF_TCPS_SYN_SENT, NPF_FLOW_BACK, TCPFC_SYNACK, NPF_TCPS_SYN_RECEIVED);
    (NPF_TCPS_SYN_SENT, NPF_FLOW_BACK, TCPFC_SYN, NPF_TCPS_SIMSYN_SENT);
    (NPF_TCPS_SIMSYN_SENT, NPF_FLOW_FORW, TCPFC_SYN, NPF_TCPS_OK);
    (NPF_TCPS_SIMSYN_SENT, NPF_FLOW_FORW, TCPFC_SYNACK, NPF_TCPS_SYN_RECEIVED);
    (NPF_TCPS_SIMSYN_SENT, NPF_FLOW_BACK, TCPFC_SYN, NPF_TCPS_OK);
    (NPF_TCPS_SIMSYN_SENT, NPF_FLOW_BACK, TCPFC_SYNACK, NPF_TCPS_SYN_RECEIVED);
    (NPF_TCPS_SIMSYN_SENT, NPF_FLOW_BACK, TCPFC_FIN, NPF_TCPS_FIN_RECEIVED);
    (NPF_TCPS_SYN_RECEIVED, NPF_FLOW_FORW, TCPFC_ACK, NPF_TCPS_ESTABLISHED);
    (NPF_TCPS_SYN_RECEIVED, NPF_FLOW_FORW, TCPFC_FIN, NPF_TCPS_FIN_SENT);
    (NPF_TCPS_SYN_RECEIVED, NPF_FLOW_FORW, TCPFC_SYN, NPF_TCPS_OK);
    (NPF_TCPS_SYN_RECEIVED, NPF_FLOW_BACK, TCPFC_SYNACK, NPF_TCPS_OK);
    (NPF_TCPS_SYN_RECEIVED, NPF_FLOW_BACK, TCPFC_ACK, NPF_TCPS_OK);
    (NPF_TCPS_SYN_RECEIVED, NPF_FLOW_BACK, TCPFC_FIN, NPF_TCPS_FIN_RECEIVED);
    (NPF_TCPS_ESTABLISHED, NPF_FLOW_FORW, TCPFC_ACK, NPF_TCPS_OK);
    (NPF_TCPS_ESTABLISHED, NPF_FLOW_FORW, TCPFC_FIN, NPF_TCPS_FIN_SENT);
    (NPF_TCPS_ESTABLISHED, NPF_FLOW_BACK, TCPFC_ACK, NPF_TCPS_OK);
    (NPF_TCPS_ESTABLISHED, NPF_FLOW_BACK, TCPFC_FIN, NPF_TCPS_FIN_RECEIVED);
    (NPF_TCPS_FIN_SENT, NPF_FLOW_FORW, TCPFC_ACK, NPF_TCPS_OK);
    (NPF_TCPS_FIN_SENT, NPF_FLOW_FORW, TCPFC_FIN, NPF_TCPS_OK);
    (NPF_TCPS_FIN_SENT, NPF_FLOW_BACK, TCPFC_ACK, NPF_TCPS_FIN_WAIT);
    (NPF_TCPS_FIN_SENT, NPF_FLOW_BACK, TCPFC_FIN, NPF_TCPS_CLOSING);
    (NPF_TCPS_FIN_RECEIVED, NPF_FLOW_FORW, TCPFC_ACK, NPF_TCPS_CLOSE_WAIT);
    (NPF_TCPS_FIN_RECEIVED, NPF_FLOW_FORW, TCPFC_FIN, NPF_TCPS_CLOSING);
    (NPF_TCPS_FIN_RECEIVED, NPF_FLOW_BACK, TCPFC_ACK, NPF_TCPS_OK);
    (NPF_TCPS_FIN_RECEIVED, NPF_FLOW_BACK, TCPFC_FIN, NPF_TCPS_OK);
    (NPF_TCPS_CLOSE_WAIT, NPF_FLOW_FORW, TCPFC_ACK, NPF_TCPS_OK);
    (NPF_TCPS_CLOSE_WAIT, NPF_FLOW_FORW, TCPFC_FIN, NPF_TCPS_LAST_ACK);
    (NPF_TCPS_CLOSE_WAIT, NPF_FLOW_BACK, TCPFC_ACK, NPF_TCPS_OK);
    (NPF_TCPS_CLOSE_WAIT, NPF_FLOW_BACK, TCPFC_FIN, NPF_TCPS_LAST_ACK);
    (NPF_TCPS_FIN_WAIT, NPF_FLOW_FORW, TCPFC_ACK, NPF_TCPS_OK);
    (NPF_TCPS_FIN_WAIT, NPF_FLOW_FORW, TCPFC_FIN, NPF_TCPS_LAST_ACK);
    (NPF_TCPS_FIN_WAIT, NPF_FLOW_BACK, TCPFC_ACK, NPF_TCPS_OK);
    (NPF_TCPS_FIN_WAIT, NPF_FLOW_BACK, TCPFC_FIN, NPF_TCPS_LAST_ACK);
    (NPF_TCPS_CLOSING, NPF_FLOW_FORW, TCPFC_ACK, NPF_TCPS_LAST_ACK);
    (NPF_TCPS_CLOSING, NPF_FLOW_BACK, TCPFC_ACK, NPF_TCPS_LAST_ACK);
    (NPF_TCPS_LAST_ACK, NPF_FLOW_FORW, TCPFC_ACK, NPF_TCPS_TIME_WAIT);
    (NPF_TCPS_LAST_ACK, NPF_FLOW_BACK, TCPFC_ACK, NPF_TCPS_TIME_WAIT);
    (NPF_TCPS_TIME_WAIT, NPF_FLOW_FORW, TCPFC_SYN, NPF_TCPS_SYN_SENT) ].

Definition fsm_cell (s : Z) (f : npf_flow_t) (c : Z) (e : Z * npf_flow_t * Z * Z) : option Z :=
  let '(s', f', c', n) := e in
  if (s =? s') && bool_decide (f = f') && (c =? c') then Some n else None.

Definition npf_tcp_fsm (state : Z) (flow : npf_flow_t) (flagcase : Z) : Z :=
  default 0 (head (omap (fsm_cell state flow flagcase) npf_tcp_fsm_init)).

(** ** State of a connection *)

Record npf_tcpstate_t := mk_tcpst {
  nst_end : Z;
  nst_maxend : Z;
  nst_maxwin : Z;
  nst_wscale : Z;
}.

Record npf_state_t := mk_nst {
  nst_state : Z;
  nst_tcpst_forw : npf_tcpstate_t;   (* nst_tcpst[NPF_FLOW_FORW] *)
  nst_tcpst_back : npf_tcpstate_t;   (* nst_tcpst[NPF_FLOW_BACK] *)
}.

Definition nst_tcpst (nst : npf_state_t) (flow : npf_flow_t) : npf_tcpstate_t :=
  match flow with NPF_FLOW_FORW => nst_tcpst_forw nst | NPF_FLOW_BACK => nst_tcpst_back nst end.

Definition set_tcpst (nst : npf_state_t) (flow : npf_flow_t) (f t : npf_tcpstate_t) : npf_state_t :=
  match flow with
  | NPF_FLOW_FORW => mk_nst (nst_state nst) f t
  | NPF_FLOW_BACK => mk_nst (nst_state nst) t f
  end.

Definition set_nst_state (nst : npf_state_t) (s : Z) : npf_state_t :=
  mk_nst s (nst_tcpst_forw nst) (nst_tcpst_back nst).

(** ** Sequence number arithmetic *)

Definition seq_diff (a b : Z) : Z := s32 (a - b).
Definition SEQ_LT (a b : Z) : bool := seq_diff a b <? 0.
Definition SEQ_LEQ (a b : Z) : bool := seq_diff a b <=? 0.
Definition SEQ_GT (a b : Z) : bool := 0 <? seq_diff a b.
Definition SEQ_GEQ (a b : Z) : bool := 0 <=? seq_diff a b.

(** ** The window check *)

(** The statistics counters [npf_tcp_inwindow] may bump. *)
Inductive tcp_stat := NPF_STAT_INVALID_STATE_TCP1 | NPF_STAT_INVALID_STATE_TCP2
  | NPF_STAT_INVALID_STATE_TCP3.

(** What the function reads from the segment. *)
Record tcp_seg := mk_seg { sg_fl : Z; sg_seq : Z; sg_ack : Z; sg_win : Z; sg_len : Z }.

Definition npf_tcp_seg (npc : npf_cache_t) : tcp_seg :=
  let s := npf_tcpsaw npc in
  mk_seg (th_flags (pkt npc) (l4ptr npc)) (saw_seq s) (saw_ack s) (saw_win s) (saw_len s).

Definition tcp_end (sg : tcp_seg) : Z :=
  let e := u32 (sg_seq sg + sg_len sg) in
  let e := if flag (sg_fl sg) TH_SYN then u32 (e + 1) else e in
  if flag (sg_fl sg) TH_FIN then u32 (e + 1) else e.

Definition tcp_win (sg : tcp_seg) (wscale : Z) : Z :=
  if negb (sg_win sg =? 0) then u32 (sg_win sg <<< wscale) else 1.

(** The part of the function after the initialisations: the boundary checks
    and the update of both sides.  [f] is the sender's side, [t] the other. *)
Definition tcp_boundaries (params : npf_state_tcp_params_t) (state : Z) (f t : npf_tcpstate_t)
    (sg : tcp_seg) (win : Z) : bool * option tcp_stat * npf_tcpstate_t * npf_tcpstate_t :=
  let tcpfl := sg_fl sg in
  let seq := sg_seq sg in
  let end_ := tcp_end sg in
  let ack :=
    if negb (flag tcpfl TH_ACK) then nst_end t
    else if (tcpfl &&& (TH_ACK ||| TH_RST) =? TH_ACK ||| TH_RST) && (sg_ack sg =? 0) then nst_end t
    else sg_ack sg in
  let '(seq, end_) :=
    if flag tcpfl TH_RST && (seq =? 0) && (state =? NPF_TCPS_SYN_SENT)
    then (nst_end f, nst_end f) else (seq, end_) in
  if flag tcpfl TH_RST && strict_order_rst params && (1 <? u32 (nst_end f - seq))
  then (false, None, f, t)
  else if negb (SEQ_LEQ end_ (nst_maxend f))
  then (false, Some NPF_STAT_INVALID_STATE_TCP1, f, t)
  else if negb (SEQ_GEQ seq (u32 (nst_end f - nst_maxwin t)))
  then (false, Some NPF_STAT_INVALID_STATE_TCP2, f, t)
  else
    let ackskew := s32 (nst_end t - ack) in
    if (ackskew <? - max_ack_win params) || (s32 (max_ack_win params <<< nst_wscale f) <? ackskew)
    then (false, Some NPF_STAT_INVALID_STATE_TCP3, f, t)
    else
      let t := if ackskew <? 0 then mk_tcpst ack (nst_maxend t) (nst_maxwin t) (nst_wscale t) else t in
      let f := if nst_maxwin f <? win then mk_tcpst (nst_end f) (nst_maxend f) win (nst_wscale f) else f in
      let f := if SEQ_GT end_ (nst_end f)
               then mk_tcpst end_ (nst_maxend f) (nst_maxwin f) (nst_wscale f) else f in
      let t := if SEQ_GEQ (u32 (ack + win)) (nst_maxend t)
               then mk_tcpst (nst_end t) (u32 (ack + win)) (nst_maxwin t) (nst_wscale t) else t in
      (true, None, f, t).

Section ops.
Context {M : npf_mbufops_t}.

Definition npf_tcp_inwindow (params : npf_state_tcp_params_t) (npc : npf_cache_t)
    (nst : npf_state_t) (flow : npf_flow_t) :
    option (bool * option tcp_stat * npf_state_t * npf_cache_t) :=
  let sg := npf_tcp_seg npc in
  let end_ := tcp_end sg in
  let f := nst_tcpst nst flow in
  let t := nst_tcpst nst (flow_neg flow) in
  let win := tcp_win sg (nst_wscale f) in
  if nst_maxwin f =? 0 then
    '(_, _, wscale, npc) ← npf_fetch_tcpopts npc None 0;
    Some (true, None, set_tcpst nst flow (mk_tcpst end_ end_ win wscale) (mk_tcpst 0 0 1 0), npc)
  else
    '(f, npc) ←
      (if nst_end f =? 0 then
         if flag (sg_fl sg) TH_SYN then
           '(_, _, wscale, npc) ← npf_fetch_tcpopts npc None 0;
           Some (mk_tcpst end_ (u32 (end_ + 1)) win wscale, npc)
         else Some (mk_tcpst end_ (u32 (end_ + 1)) win 0, npc)
       else Some (f, npc));
    let '(ok, stat, f, t) := tcp_boundaries params (nst_state nst) f t sg win in
    Some (ok, stat, set_tcpst nst flow f t, npc).

(** The transition looked up for a segment with the given flags. *)
Definition tcp_next_state (state : Z) (flow : npf_flow_t) (tcpfl : Z) : Z :=
  if negb (flag tcpfl TH_RST) then npf_tcp_fsm state flow (npf_tcpfl2case tcpfl)
  else if state =? NPF_TCPS_TIME_WAIT then NPF_TCPS_OK
  else NPF_TCPS_CLOSED.

Definition npf_state_tcp (params : npf_state_tcp_params_t) (npc : npf_cache_t)
    (nst : npf_state_t) (flow : npf_flow_t) :
    option (bool * option tcp_stat * npf_state_t * npf_cache_t) :=
  let tcpfl := th_flags (pkt npc) (l4ptr npc) in
  let nstate := tcp_next_state (nst_state nst) flow tcpfl in
  '(ok, stat, nst, npc) ← npf_tcp_inwindow params npc nst flow;
  if negb ok then Some (false, stat, nst, npc)
  else if nstate =? NPF_TCPS_OK then Some (true, stat, nst, npc)
  else Some (true, stat, set_nst_state nst nstate, npc).

End ops.

(** ** Timeouts *)

Definition state_timeout_idx (state : Z) : Z :=
  if state =? NPF_TCPS_CLOSED then NPF_TCPT_CLOSE
  else if (state =? NPF_TCPS_SYN_SENT) || (state =? NPF_TCPS_SIMSYN_SENT)
       || (state =? NPF_TCPS_SYN_RECEIVED) then NPF_TCPT_NEW
  else if state =? NPF_TCPS_ESTABLISHED then NPF_TCPT_ESTABLISHED
  else if (state =? NPF_TCPS_FIN_SENT) || (state =? NPF_TCPS_FIN_RECEIVED)
       || (state =? NPF_TCPS_CLOSE_WAIT) || (state =? NPF_TCPS_FIN_WAIT) then NPF_TCPT_HALFCLOSE
  else if (state =? NPF_TCPS_CLOSING) || (state =? NPF_TCPS_LAST_ACK) then NPF_TCPT_CLOSE
  else if state =? NPF_TCPS_TIME_WAIT then NPF_TCPT_TIMEWAIT
  else 0.

Definition npf_state_tcp_timeout (params : npf_state_tcp_params_t) (nst : npf_state_t) : Z :=
  default 0 (tcp_timeouts params !! Z.to_nat (state_timeout_idx (nst_state nst))).

(** The registered defaults of [npf_state_tcp_sysinit]. *)
Definition tcp_default_params : npf_state_tcp_params_t :=
  mk_tcp_params 66000 true [30; 60 * 60 * 24; 60 * 60 * 6; 10; 60 * 2 * 2].

(** ** The tracker on segments

    [tcp_step] is [npf_state_tcp] with the segment's fields and the window
    scale of its options given: the specification the properties of the
    tracker are stated on.  [npf_state_tcp_refines] connects the two. *)

Definition tcp_inwindow (params : npf_state_tcp_params_t) (nst : npf_state_t) (flow : npf_flow_t)
    (sg : tcp_seg) (ws : Z) : bool * option tcp_stat * npf_state_t :=
  let f := nst_tcpst nst flow in
  let t := nst_tcpst nst (flow_neg flow) in
  let win := tcp_win sg (nst_wscale f) in
  if nst_maxwin f =? 0 then
    (true, None, set_tcpst nst flow (mk_tcpst (tcp_end sg) (tcp_end sg) win ws) (mk_tcpst 0 0 1 0))
  else
    let f := if nst_end f =? 0
      then mk_tcpst (tcp_end sg) (u32 (tcp_end sg + 1)) win (if flag (sg_fl sg) TH_SYN then ws else 0)
      else f in
    let '(ok, stat, f, t) := tcp_boundaries params (nst_state nst) f t sg win in
    (ok, stat, set_tcpst nst flow f t).

Definition tcp_step (params : npf_state_tcp_params_t) (nst : npf_state_t) (flow : npf_flow_t)
    (sg : tcp_seg) (ws : Z) : bool * option tcp_stat * npf_state_t :=
  let nstate := tcp_next_state (nst_state nst) flow (sg_fl sg) in
  let '(ok, stat, nst) := tcp_inwindow params nst flow sg ws in
  (ok, stat, if negb ok || (nstate =? NPF_TCPS_OK) then nst else set_nst_state nst nstate).

Section refine.
Context {M : npf_mbufops_t} {ML : mbufops_laws}.

(** The code computes [tcp_step] of the segment's fields and of the window
    scale its options carry. *)
Lemma npf_state_tcp_spec params npc nst flow :
  nbuf_wf (npc_nbuf npc) → bytes_ok (pkt npc) → 0 <= npc_hlen npc < 2 ^ 30 →
  ∃ o m ws npc1, npf_fetch_tcpopts npc None 0 = Some (o, m, ws, npc1) ∧ 0 <= ws <= TCP_MAX_WINSHIFT ∧
  ∃ npc', npf_state_tcp params npc nst flow
      = (let '(ok, stat, nst') := tcp_step params nst flow (npf_tcp_seg npc) ws in
         Some (ok, stat, nst', npc')) ∧ pkt npc' = pkt npc.
Proof.
  intros Hwf Hb Hh.
  destruct (npf_fetch_tcpopts_spec npc None 0 Hwf Hb Hh ltac:(by unfold TCP_MAX_WINSHIFT))
    as (o & m & ws & npc1 & E & Hws & Hp).
  exists o, m, ws, npc1. split; [done|]. split; [done|].
  unfold npf_state_tcp, tcp_step, npf_tcp_inwindow, tcp_inwindow. rewrite E.
  change (th_flags (pkt npc) (l4ptr npc)) with (sg_fl (npf_tcp_seg npc)).
  set (sg := npf_tcp_seg npc). set (nx := tcp_next_state _ _ _).
  destruct (nst_maxwin _ =? 0).
  { exists npc1. cbn. split; [|done]. by destruct (nx =? NPF_TCPS_OK). }
  destruct (nst_end _ =? 0); [destruct (flag (sg_fl sg) TH_SYN)|];
    cbn -[tcp_boundaries]; destruct (tcp_boundaries _ _ _ _ _ _) as [[[ok stat] f'] t'];
    [exists npc1|exists npc|exists npc]; (split; [|done]); cbn;
    destruct ok; cbn; try done; by destruct (nx =? NPF_TCPS_OK).
Qed.
End refine.

(** ** Flags *)

(** The meaning of the flag bits (RST aside). *)
Definition flags_case (syn fin ack : bool) : Z :=
  match syn, fin, ack with
  | true, false, false => TCPFC_SYN
  | true, false, true => TCPFC_SYNACK
  | false, false, true => TCPFC_ACK
  | false, true, _ => TCPFC_FIN
  | _, _, _ => TCPFC_INVALID
  end.

(** The bit trick of [npf_tcpfl2case] classifies every flags byte as the
    comment above it says: SYN, SYN-ACK, ACK, FIN with or without ACK, and
    "invalid" (0) for everything else, SYN-FIN included. *)
Theorem npf_tcpfl2case_spec tcpfl :
  inw 8 tcpfl →
  npf_tcpfl2case tcpfl = flags_case (flag tcpfl TH_SYN) (flag tcpfl TH_FIN) (flag tcpfl TH_ACK).
Proof.
  intros H. unfold inw in H.
  assert (forallb (λ n, npf_tcpfl2case (Z.of_nat n) =? flags_case (flag (Z.of_nat n) TH_SYN)
    (flag (Z.of_nat n) TH_FIN) (flag (Z.of_nat n) TH_ACK)) (seq 0 256) = true) as Hall
    by (vm_compute; reflexivity).
  rewrite forallb_forall in Hall. specialize (Hall (Z.to_nat tcpfl)).
  rewrite Z2Nat.id in Hall by lia. apply Z.eqb_eq, Hall. apply in_seq. lia.
Qed.

Lemma npf_tcpfl2case_spec_witness : npf_tcpfl2case 0x12 = TCPFC_SYNACK.
Proof. rewrite (npf_tcpfl2case_spec 0x12); [reflexivity|by unfold inw]. Defined.

(** ** The state invariant *)

Definition tcpst_wf (st : npf_tcpstate_t) : Prop :=
  inw 32 (nst_end st) ∧ inw 32 (nst_maxend st) ∧ inw 32 (nst_maxwin st) ∧
  0 <= nst_wscale st <= TCP_MAX_WINSHIFT.

Record nst_wf (nst : npf_state_t) : Prop := {
  nst_wf_state : 0 <= nst_state nst < NPF_TCP_NSTATES;
  nst_wf_forw : tcpst_wf (nst_tcpst_forw nst);
  nst_wf_back : tcpst_wf (nst_tcpst_back nst);
}.

Definition seg_wf (sg : tcp_seg) : Prop :=
  inw 8 (sg_fl sg) ∧ inw 32 (sg_seq sg) ∧ inw 32 (sg_ack sg) ∧ inw 16 (sg_win sg).

(** Every cell of the table is a state or [NPF_TCPS_OK]. *)
Lemma npf_tcp_fsm_range s f c :
  0 <= npf_tcp_fsm s f c < NPF_TCP_NSTATES ∨ npf_tcp_fsm s f c = NPF_TCPS_OK.
Proof.
  unfold npf_tcp_fsm.
  assert (Forall (λ e : Z * npf_flow_t * Z * Z,
    0 <= snd e < NPF_TCP_NSTATES ∨ snd e = NPF_TCPS_OK) npf_tcp_fsm_init) as Hall
    by (repeat (constructor; [vm_compute; (left; split; [discriminate|reflexivity]) || (right; reflexivity)|]); constructor).
  induction Hall as [|[[[s' f'] c'] n] l He _ IH]; [left; vm_compute; split; done|].
  cbn [omap list_omap].
  assert (fsm_cell s f c (s', f', c', n) = Some n ∨ fsm_cell s f c (s', f', c', n) = None) as [-> | ->]
    by (unfold fsm_cell; case_if; auto); [exact He|exact IH].
Qed.

Lemma tcp_next_state_range s f fl :
  tcp_next_state s f fl ≠ NPF_TCPS_OK → 0 <= tcp_next_state s f fl < NPF_TCP_NSTATES.
Proof.
  unfold tcp_next_state. intros H. repeat case_if.
  - destruct (npf_tcp_fsm_range s f (npf_tcpfl2case fl)); [done|congruence].
  - done.
  - vm_compute. done.
Qed.

Lemma tcp_end_range sg : inw 32 (tcp_end sg).
Proof. unfold tcp_end. repeat case_if; apply wrap_range; lia. Qed.

Lemma tcp_win_range sg ws : inw 32 (tcp_win sg ws).
Proof. unfold tcp_win. case_if; [apply wrap_range; lia|by unfold inw]. Qed.

#[local] Hint Resolve tcp_end_range tcp_win_range : npf.
#[local] Hint Extern 1 (inw 32 (wrap 32 _)) => apply wrap_range; lia : npf.

Lemma tcp_boundaries_wf params s f t sg win :
  tcpst_wf f → tcpst_wf t → seg_wf sg → inw 32 win →
  let '(_, _, f', t') := tcp_boundaries params s f t sg win in tcpst_wf f' ∧ tcpst_wf t'.
Proof.
  intros Hf Ht (Hfl & Hs & Ha & _) Hw. unfold tcp_boundaries.
  set (ack := if negb _ then _ else _).
  assert (inw 32 ack) as Hack by (unfold ack; destruct Ht; repeat case_if; done).
  destruct (if flag (sg_fl sg) TH_RST && (sg_seq sg =? 0) && (s =? NPF_TCPS_SYN_SENT)
    then (nst_end f, nst_end f) else (sg_seq sg, tcp_end sg)) as [q e] eqn:Eq.
  assert (inw 32 e) as He.
  { destruct Hf. revert Eq. case_if; intros [= <- <-]; auto with npf. }
  repeat case_if; try done; destruct Hf as (? & ? & ? & ?), Ht as (? & ? & ? & ?);
    unfold tcpst_wf; simpl; split_and!; auto with npf; lia.
Qed.

Lemma tcp_inwindow_wf params nst flow sg ws :
  nst_wf nst → seg_wf sg → 0 <= ws <= TCP_MAX_WINSHIFT →
  let '(_, _, nst') := tcp_inwindow params nst flow sg ws in
  nst_wf nst' ∧ nst_state nst' = nst_state nst.
Proof.
  intros Hn Hs Hws. unfold tcp_inwindow.
  assert (tcpst_wf (nst_tcpst nst flow) ∧ tcpst_wf (nst_tcpst nst (flow_neg flow))) as [Hf Ht]
    by (destruct Hn, flow; done).
  assert (∀ f t, tcpst_wf f → tcpst_wf t →
    nst_wf (set_tcpst nst flow f t) ∧ nst_state (set_tcpst nst flow f t) = nst_state nst) as Hset.
  { intros f t ? ?. destruct Hn, flow; split; done. }
  case_if.
  - apply Hset; unfold tcpst_wf; simpl; split_and!; auto with npf; try lia; by unfold inw.
  - set (f' := if nst_end _ =? 0 then _ else _).
    assert (tcpst_wf f') as Hf'.
    { unfold f'. case_if; [|done]. unfold tcpst_wf; simpl; split_and!; auto with npf; case_if; lia. }
    pose proof (tcp_boundaries_wf params (nst_state nst) f' (nst_tcpst nst (flow_neg flow)) sg
      (tcp_win sg (nst_wscale (nst_tcpst nst flow))) Hf' Ht Hs ltac:(auto with npf)) as Hb.
    destruct (tcp_boundaries _ _ _ _ _ _) as [[[ok st] f2] t2]. destruct Hb. by apply Hset.
Qed.

Lemma tcp_step_wf params nst flow sg ws :
  nst_wf nst → seg_wf sg → 0 <= ws <= TCP_MAX_WINSHIFT →
  nst_wf (snd (tcp_step params nst flow sg ws)).
Proof.
  intros Hn Hs Hws. unfold tcp_step.
  pose proof (tcp_inwindow_wf params nst flow sg ws Hn Hs Hws) as H.
  destruct (tcp_inwindow params nst flow sg ws) as [[ok st] nst']. destruct H as [Hn' _]. simpl.
  destruct (negb ok || _) eqn:E; [done|]. apply orb_false_iff in E as [_ E]. bool_to_prop.
  destruct Hn'. split; simpl; try done. by apply tcp_next_state_range.
Qed.

(** The fields read from a packet are in range. *)
Lemma npf_tcp_seg_wf npc : bytes_ok (pkt npc) → seg_wf (npf_tcp_seg npc).
Proof.
  intros Hb. unfold npf_tcp_seg, npf_tcpsaw, seg_wf. simpl. split_and!.
  - apply (rd8_range _ _ Hb).
  - by apply bswap32_range, rd32_range.
  - by apply bswap32_range, rd32_range.
  - by apply bswap16_range, rd16_range.
Qed.

(** The initial state: [memset] to zero. *)
Definition nst_zero : npf_state_t := mk_nst 0 (mk_tcpst 0 0 0 0) (mk_tcpst 0 0 0 0).

Lemma nst_zero_wf : nst_wf nst_zero.
Proof. by repeat split. Qed.

Section invariant.
Context {M : npf_mbufops_t} {ML : mbufops_laws}.

(** [npf_state_tcp] always returns a verdict, and keeps the tracking state
    well-formed: the state number indexes the transition table, sequence
    numbers and windows are 32-bit, the window scales are at most 14.  It does
    not change the packet, and a rejected segment does not move the
    connection to another state. *)
Theorem npf_state_tcp_invariant params npc nst flow :
  nbuf_wf (npc_nbuf npc) → bytes_ok (pkt npc) → 0 <= npc_hlen npc < 2 ^ 30 → nst_wf nst →
  ∃ ok stat nst' npc', npf_state_tcp params npc nst flow = Some (ok, stat, nst', npc') ∧
    nst_wf nst' ∧ pkt npc' = pkt npc ∧ (ok = false → nst_state nst' = nst_state nst).
Proof.
  intros Hwf Hb Hh Hn.
  destruct (npf_state_tcp_spec params npc nst flow Hwf Hb Hh) as (o & m & ws & npc1 & _ & Hws & npc' & E & P).
  pose proof (npf_tcp_seg_wf npc Hb) as Hs.
  pose proof (tcp_step_wf params nst flow (npf_tcp_seg npc) ws Hn Hs Hws) as Hw.
  pose proof (tcp_inwindow_wf params nst flow (npf_tcp_seg npc) ws Hn Hs Hws) as Hi.
  unfold tcp_step in *. destruct (tcp_inwindow _ _ _ _ _) as [[ok st] nst1]. destruct Hi as [_ Hi].
  eexists ok, st, _, npc'. split; [exact E|]. split; [exact Hw|]. split; [done|].
  intros ->. exact Hi.
Qed.

End invariant.

(** ** Opening a connection *)

Lemma s32_small x : - 2 ^ 31 <= x < 2 ^ 31 → s32 x = x.
Proof. intros. apply swrap_small; lia. Qed.

(** The three segments of the handshake. *)
Definition seg_syn (isn win : Z) : tcp_seg := mk_seg TH_SYN isn 0 win 0.
Definition seg_synack (isn ack win : Z) : tcp_seg := mk_seg (TH_SYN ||| TH_ACK) isn ack win 0.
Definition seg_ack (seq ack win len : Z) : tcp_seg := mk_seg TH_ACK seq ack win len.

Lemma tcp_win_pos sg ws : inw 16 (sg_win sg) → 0 <= ws <= TCP_MAX_WINSHIFT →
  1 <= tcp_win sg ws < 2 ^ 30.
Proof.
  intros Hw Hs. unfold tcp_win, inw, TCP_MAX_WINSHIFT in *. case_if; [|lia]. bool_to_prop.
  rewrite Z.shiftl_mul_pow2 by lia.
  assert (1 <= 2 ^ ws <= 2 ^ 14) by (split; [apply (Z.pow_le_mono_r 2 0)|apply Z.pow_le_mono_r]; lia).
  rewrite wrap_small; [nia|unfold inw; nia].
Qed.

Lemma ack_rst_false fl : flag fl TH_RST = false →
  (fl &&& (TH_ACK ||| TH_RST) =? TH_ACK ||| TH_RST) = false.
Proof.
  intros Hrst. apply Z.eqb_neq. intros E. unfold flag in Hrst. bool_to_prop.
  apply (f_equal (λ z, z &&& TH_RST)) in E. rewrite <- Z.land_assoc in E.
  change ((TH_ACK ||| TH_RST) &&& TH_RST) with TH_RST in E. by rewrite Hrst in E.
Qed.

(** A segment at the expected sequence number, in both directions, is in the
    window. *)
Lemma tcp_boundaries_in_order params s f t sg win :
  flag (sg_fl sg) TH_RST = false → flag (sg_fl sg) TH_ACK = true → sg_ack sg = nst_end t →
  0 <= max_ack_win params → 0 <= nst_wscale f → max_ack_win params <<< nst_wscale f < 2 ^ 31 →
  seq_diff (tcp_end sg) (nst_maxend f) <= 0 →
  0 <= seq_diff (sg_seq sg) (u32 (nst_end f - nst_maxwin t)) →
  ∃ f' t', tcp_boundaries params s f t sg win = (true, None, f', t') ∧
    nst_end t' = nst_end t ∧ nst_maxwin t' = nst_maxwin t ∧ nst_wscale t' = nst_wscale t ∧
    nst_maxend t' = (if SEQ_GEQ (u32 (nst_end t + win)) (nst_maxend t)
                     then u32 (nst_end t + win) else nst_maxend t) ∧
    nst_maxend f' = nst_maxend f ∧ nst_wscale f' = nst_wscale f ∧
    nst_maxwin f' = Z.max (nst_maxwin f) win ∧
    nst_end f' = (if SEQ_GT (tcp_end sg) (nst_end f) then tcp_end sg else nst_end f).
Proof.
  intros Hrst Hack Ha Hm Hws Hsh H1 H2. unfold tcp_boundaries. rewrite Hrst, Hack, Ha. cbn [negb andb].
  rewrite (ack_rst_false _ Hrst).
  cbn [andb]. unfold SEQ_LEQ, SEQ_GEQ at 1. rewrite (proj2 (Z.leb_le _ _) H1), (proj2 (Z.leb_le _ _) H2).
  cbn [negb]. rewrite Z.sub_diag. change (s32 0) with 0.
  assert (0 <= max_ack_win params <<< nst_wscale f) by (by apply Z.shiftl_nonneg).
  rewrite (s32_small (_ <<< _)) by lia.
  rewrite (proj2 (Z.ltb_ge 0 _)), (proj2 (Z.ltb_ge _ 0)) by lia. cbn [orb].
  rewrite (proj2 (Z.ltb_ge 0 0)) by lia.
  eexists _, _. split; [reflexivity|].
  destruct (Z.ltb_spec (nst_maxwin f) win); simpl;
    (destruct (SEQ_GEQ _ _); destruct (SEQ_GT _ _); simpl; split_and!; (done || lia)).
Qed.

(** Differences of numbers at known distances. *)
Lemma seq_diff_dist x a b y z :
  y = u32 (x + a) → z = u32 (x + b) → - 2 ^ 31 <= a - b < 2 ^ 31 → seq_diff y z = a - b.
Proof.
  intros -> -> H. unfold seq_diff. autorewrite with wrap_db.
  replace (x + a - (x + b)) with (a - b) by lia. by apply s32_small.
Qed.

Lemma u32_id x : inw 32 x → x = u32 (x + 0).
Proof. intros. by rewrite Z.add_0_r, wrap_small. Qed.

Lemma shiftl_max_ack m ws : 0 <= m <= 131071 → 0 <= ws <= TCP_MAX_WINSHIFT → m <<< ws < 2 ^ 31.
Proof.
  intros Hm Hs. unfold TCP_MAX_WINSHIFT in Hs. rewrite Z.shiftl_mul_pow2 by lia.
  assert (2 ^ ws <= 2 ^ 14) by (apply Z.pow_le_mono_r; lia). nia.
Qed.

(** A run of the tracker over a sequence of segments, all of which must be
    accepted. *)
Fixpoint tcp_run (params : npf_state_tcp_params_t) (nst : npf_state_t)
    (l : list (npf_flow_t * tcp_seg * Z)) : option npf_state_t :=
  match l with
  | [] => Some nst
  | (flow, sg, ws) :: l' =>
      let '(ok, _, nst') := tcp_step params nst flow sg ws in
      if ok then tcp_run params nst' l' else None
  end.

Section handshake.
Context (params : npf_state_tcp_params_t) (Hmax : 0 <= max_ack_win params <= 131071).
Context (c s w1 w2 w3 ws1 ws2 ws3 : Z) (Hc : inw 32 c) (Hs : inw 32 s).
Context (H1 : inw 16 w1) (H2 : inw 16 w2) (H3 : inw 16 w3).
Context (Hws1 : 0 <= ws1 <= TCP_MAX_WINSHIFT) (Hws2 : 0 <= ws2 <= TCP_MAX_WINSHIFT).

Let W1 := tcp_win (seg_syn c w1) 0.
Let W2 := tcp_win (seg_synack s (u32 (c + 1)) w2) 0.

Lemma handshake_syn :
  tcp_step params nst_zero NPF_FLOW_FORW (seg_syn c w1) ws1
    = (true, None, mk_nst NPF_TCPS_SYN_SENT (mk_tcpst (u32 (c + 1)) (u32 (c + 1)) W1 ws1)
         (mk_tcpst 0 0 1 0)).
Proof.
  unfold tcp_step, tcp_inwindow. cbn [nst_tcpst nst_zero nst_tcpst_forw nst_maxwin Z.eqb].
  replace (tcp_end (seg_syn c w1)) with (u32 (c + 1)); [reflexivity|].
  unfold tcp_end, seg_syn. cbn [sg_fl sg_seq sg_len]. change (flag TH_SYN TH_SYN) with true.
  change (flag TH_SYN TH_FIN) with false. by rewrite Z.add_0_r, wrap_add_wrap_l.
Qed.

(** The server's side after the SYN-ACK, and the client's. *)
Lemma handshake_synack : ∃ f t,
  tcp_step params (mk_nst NPF_TCPS_SYN_SENT (mk_tcpst (u32 (c + 1)) (u32 (c + 1)) W1 ws1)
      (mk_tcpst 0 0 1 0)) NPF_FLOW_BACK (seg_synack s (u32 (c + 1)) w2) ws2
    = (true, None, mk_nst NPF_TCPS_SYN_RECEIVED t f) ∧
  nst_end t = u32 (c + 1) ∧ nst_maxend t = u32 (c + 1 + W2) ∧ nst_maxwin t = W1 ∧ nst_wscale t = ws1 ∧
  nst_end f = u32 (s + 1) ∧ 1 <= nst_maxwin f < 2 ^ 30 ∧ nst_wscale f = ws2.
Proof.
  pose proof (tcp_win_pos (seg_syn c w1) 0 H1 ltac:(by unfold TCP_MAX_WINSHIFT)) as HW1. fold W1 in HW1.
  pose proof (tcp_win_pos (seg_synack s (u32 (c + 1)) w2) 0 H2 ltac:(by unfold TCP_MAX_WINSHIFT)) as HW2.
  fold W2 in HW2.
  assert (tcp_end (seg_synack s (u32 (c + 1)) w2) = u32 (s + 1)) as He.
  { unfold tcp_end, seg_synack. cbn [sg_fl sg_seq sg_len].
    change (flag (TH_SYN ||| TH_ACK) TH_SYN) with true. change (flag (TH_SYN ||| TH_ACK) TH_FIN) with false.
    by rewrite Z.add_0_r, wrap_add_wrap_l. }
  unfold tcp_step, tcp_inwindow.
  cbn [nst_tcpst nst_tcpst_back nst_tcpst_forw flow_neg nst_maxwin nst_end nst_wscale nst_state Z.eqb].
  change (tcp_win (seg_synack s (u32 (c + 1)) w2) 0) with W2. rewrite He.
  change (flag (sg_fl (seg_synack s (u32 (c + 1)) w2)) TH_SYN) with true. cbv iota.
  set (f0 := mk_tcpst _ _ _ ws2). set (t0 := mk_tcpst _ _ W1 ws1).
  destruct (tcp_boundaries_in_order params NPF_TCPS_SYN_SENT f0 t0 (seg_synack s (u32 (c + 1)) w2) W2)
    as (f' & t' & E & Te & Tw & Ts & Tm & Fm & Fs & Fw & Fe); try done; try lia.
  - simpl. lia.
  - by apply shiftl_max_ack.
  - rewrite He. unfold f0. simpl. rewrite (seq_diff_dist s 1 2); [lia|done|by rewrite wrap_add_wrap_l, <- Z.add_assoc|lia].
  - unfold f0, t0. simpl. rewrite (seq_diff_dist s 0 (1 - W1)); [lia|by apply u32_id| |lia].
    rewrite wrap_sub_wrap_l. f_equal. lia.
  - rewrite E. exists f', t'. split; [reflexivity|].
    rewrite Te, Tw, Ts, Tm, Fs, Fw, Fe, He. unfold f0, t0, SEQ_GEQ, SEQ_GT. simpl.
    rewrite (seq_diff_dist c (1 + W2) 1); [|by rewrite wrap_add_wrap_l, <- Z.add_assoc|done|lia].
    rewrite (proj2 (Z.leb_le _ _)), wrap_add_wrap_l by lia.
    split_and!; try done; try lia. by destruct (0 <? _).
Qed.

End handshake.

(** The three-way handshake is followed whatever the initial sequence
    numbers, wrap-around included, the advertised windows and the window
    scales are: with a maximum ACK window of at most 131071 (the default is
    66000) the SYN, the SYN-ACK and the ACK are accepted and the connection is
    ESTABLISHED, with each side's next sequence number noted. *)
Theorem tcp_handshake_establishes params c s w1 w2 w3 ws1 ws2 ws3 :
  0 <= max_ack_win params <= 131071 → inw 32 c → inw 32 s →
  inw 16 w1 → inw 16 w2 → inw 16 w3 →
  0 <= ws1 <= TCP_MAX_WINSHIFT → 0 <= ws2 <= TCP_MAX_WINSHIFT → 0 <= ws3 <= TCP_MAX_WINSHIFT →
  ∃ nst, tcp_run params nst_zero
      [ (NPF_FLOW_FORW, seg_syn c w1, ws1);
        (NPF_FLOW_BACK, seg_synack s (u32 (c + 1)) w2, ws2);
        (NPF_FLOW_FORW, seg_ack (u32 (c + 1)) (u32 (s + 1)) w3 0, ws3) ] = Some nst ∧
    nst_state nst = NPF_TCPS_ESTABLISHED ∧
    nst_end (nst_tcpst_forw nst) = u32 (c + 1) ∧ nst_end (nst_tcpst_back nst) = u32 (s + 1).
Proof.
  intros Hmax Hc Hs H1 H2 H3 Hws1 Hws2 Hws3. cbn [tcp_run].
  rewrite handshake_syn.
  destruct (handshake_synack params Hmax c s w1 w2 ws1 ws2 Hs H1 H2 Hws2)
    as (f & t & -> & Te & Tm & Tw & Ts & Fe & Fw & Fs).
  pose proof (tcp_win_pos (seg_syn c w1) 0 H1 ltac:(by unfold TCP_MAX_WINSHIFT)) as HW1.
  pose proof (tcp_win_pos (seg_synack s (u32 (c + 1)) w2) 0 H2 ltac:(by unfold TCP_MAX_WINSHIFT)) as HW2.
  set (sg := seg_ack (u32 (c + 1)) (u32 (s + 1)) w3 0).
  assert (tcp_end sg = u32 (c + 1)) as He.
  { unfold tcp_end, sg, seg_ack. cbn [sg_fl sg_seq sg_len]. change (flag TH_ACK TH_SYN) with false.
    change (flag TH_ACK TH_FIN) with false. by rewrite Z.add_0_r, wrap_wrap. }
  unfold tcp_step, tcp_inwindow. cbn [nst_tcpst nst_tcpst_back nst_tcpst_forw flow_neg nst_state].
  rewrite Tw, (proj2 (Z.eqb_neq _ 0)) by lia.
  set (f1 := if nst_end t =? 0 then _ else t). set (W3 := tcp_win sg _).
  assert (nst_end f1 = u32 (c + 1) ∧ 0 <= nst_wscale f1 <= TCP_MAX_WINSHIFT ∧
    seq_diff (u32 (c + 1)) (nst_maxend f1) <= 0) as (E1 & E2 & E3).
  { unfold f1. rewrite He. case_if; simpl.
    - split; [done|]. split; [by unfold TCP_MAX_WINSHIFT|].
      rewrite (seq_diff_dist c 1 2); [lia|done|by rewrite wrap_add_wrap_l, <- Z.add_assoc|lia].
    - rewrite Te, Ts, Tm. split; [done|]. split; [done|].
      rewrite (seq_diff_dist c 1 (1 + tcp_win (seg_synack s (u32 (c + 1)) w2) 0)); [lia|done| |lia].
      by rewrite Z.add_assoc. }
  destruct (tcp_boundaries_in_order params NPF_TCPS_SYN_RECEIVED f1 f sg W3)
    as (f' & t' & E & T1 & _ & _ & _ & _ & _ & _ & F1); try done; try lia.
  - by apply shiftl_max_ack.
  - by rewrite He.
  - rewrite E1. change (sg_seq sg) with (u32 (c + 1)).
    rewrite (seq_diff_dist c 1 (1 - nst_maxwin f)); [lia|done| |lia].
    rewrite wrap_sub_wrap_l. f_equal. lia.
  - rewrite E. cbn. eexists. split; [reflexivity|]. split; [done|]. simpl.
    rewrite T1, F1, He, E1. split; [by case_if|done].
Qed.

Lemma tcp_handshake_establishes_witness :
  ∃ nst, tcp_run tcp_default_params nst_zero
      [ (NPF_FLOW_FORW, seg_syn 0xffffffff 8192, 7);
        (NPF_FLOW_BACK, seg_synack 12345 (u32 (0xffffffff + 1)) 65535, 2);
        (NPF_FLOW_FORW, seg_ack (u32 (0xffffffff + 1)) (u32 (12345 + 1)) 0 0, 0) ] = Some nst ∧
    nst_state nst = NPF_TCPS_ESTABLISHED.
Proof.
  destruct (tcp_handshake_establishes tcp_default_params 0xffffffff 12345 8192 65535 0 7 2 0)
    as (nst & E & S & _);
    [cbn; lia|unfold inw; lia..|unfold TCP_MAX_WINSHIFT; lia|unfold TCP_MAX_WINSHIFT; lia
    |unfold TCP_MAX_WINSHIFT; lia|].
  exists nst. split; [exact E|exact S].
Defined.

(** ** How a connection becomes established *)

(** What happened: direction and flags byte of an accepted segment. *)
Definition tcp_event : Type := npf_flow_t * Z.

(** The flags that make a handshake. *)
Definition TH_HS : Z := TH_SYN ||| TH_FIN ||| TH_RST ||| TH_ACK.

(** The event is a segment of that direction with exactly those of the
    handshake flags set. *)
Definition seg_is (e p : tcp_event) : Prop := fst e = fst p ∧ snd e &&& TH_HS = snd p.

(** Segments of those kinds are in the trace, in that order. *)
Definition saw (pat tr : list tcp_event) : Prop := ∃ l, sublist l tr ∧ Forall2 seg_is l pat.

Section reach.
Context {M : npf_mbufops_t}.

(** The states [npf_state_tcp] takes a fresh connection to, by any packets
    from either side, with the accepted ones recorded in order; a rejected
    packet leaves no record but may change the state. *)
Inductive tcp_reach (params : npf_state_tcp_params_t) : list tcp_event → npf_state_t → Prop :=
  | reach_init : tcp_reach params [] nst_zero
  | reach_inspect tr nst npc flow ok st nst' npc' :
      tcp_reach params tr nst → bytes_ok (pkt npc) →
      npf_state_tcp params npc nst flow = Some (ok, st, nst', npc') →
      tcp_reach params (if ok then tr ++ [(flow, th_flags (pkt npc) (l4ptr npc))] else tr) nst'.

End reach.

Definition syn_ev (f : npf_flow_t) : tcp_event := (f, TH_SYN).
Definition synack_ev (f : npf_flow_t) : tcp_event := (f, TH_SYN ||| TH_ACK).
Definition ack_ev (f : npf_flow_t) : tcp_event := (f, TH_ACK).

(** The first half of a handshake: SYN and SYN-ACK of the responder, or a
    simultaneous open (a SYN of each side and a SYN-ACK of one of them). *)
Definition half_open (rest tr : list tcp_event) : Prop :=
  saw ([syn_ev NPF_FLOW_FORW; synack_ev NPF_FLOW_BACK] ++ rest) tr ∨
  ∃ fl, saw ([syn_ev NPF_FLOW_FORW; syn_ev NPF_FLOW_BACK; synack_ev fl] ++ rest) tr.

(** What must have happened, in this order, before each opening state. *)
Record opened (s : Z) (tr : list tcp_event) : Prop := {
  opened_syn : s = NPF_TCPS_SYN_SENT → saw [syn_ev NPF_FLOW_FORW] tr;
  opened_simsyn : s = NPF_TCPS_SIMSYN_SENT → saw [syn_ev NPF_FLOW_FORW; syn_ev NPF_FLOW_BACK] tr;
  opened_synack : s = NPF_TCPS_SYN_RECEIVED → half_open [] tr;
  opened_ack : s = NPF_TCPS_ESTABLISHED → half_open [ack_ev NPF_FLOW_FORW] tr;
}.

Lemma saw_mono pat tr e : saw pat tr → saw pat (tr ++ [e]).
Proof. intros (l & Hl & HF). exists l. split; [by apply sublist_inserts_r|done]. Qed.

Lemma saw_snoc pat tr e p : saw pat tr → seg_is e p → saw (pat ++ [p]) (tr ++ [e]).
Proof.
  intros (l & Hl & HF) He. exists (l ++ [e]). split; [by apply sublist_app|].
  apply Forall2_app; [done|constructor; [done|constructor]].
Qed.

Lemma half_open_mono rest tr e : half_open rest tr → half_open rest (tr ++ [e]).
Proof. intros [?|[fl ?]]; [left|right; exists fl]; by apply saw_mono. Qed.

Lemma half_open_snoc tr e p : half_open [] tr → seg_is e p → half_open [p] (tr ++ [e]).
Proof.
  intros [H|[fl H]] He; [left|right; exists fl]; exact (saw_snoc _ _ _ _ H He).
Qed.

(** The flag cases, on the flags themselves. *)
Lemma npf_tcpfl2case_flags fl :
  inw 8 fl → flag fl TH_RST = false →
  (npf_tcpfl2case fl = TCPFC_SYN → fl &&& TH_HS = TH_SYN) ∧
  (npf_tcpfl2case fl = TCPFC_SYNACK → fl &&& TH_HS = TH_SYN ||| TH_ACK) ∧
  (npf_tcpfl2case fl = TCPFC_ACK → fl &&& TH_HS = TH_ACK).
Proof.
  intros H Hr. unfold inw in H.
  assert (forallb (λ n, flag (Z.of_nat n) TH_RST ||
    ((negb (npf_tcpfl2case (Z.of_nat n) =? TCPFC_SYN) || (Z.of_nat n &&& TH_HS =? TH_SYN)) &&
     (negb (npf_tcpfl2case (Z.of_nat n) =? TCPFC_SYNACK) || (Z.of_nat n &&& TH_HS =? TH_SYN ||| TH_ACK)) &&
     (negb (npf_tcpfl2case (Z.of_nat n) =? TCPFC_ACK) || (Z.of_nat n &&& TH_HS =? TH_ACK))))
    (seq 0 256) = true) as Hall by (vm_compute; reflexivity).
  rewrite forallb_forall in Hall. specialize (Hall (Z.to_nat fl) ltac:(apply in_seq; lia)).
  rewrite Z2Nat.id, Hr in Hall by lia. cbn [orb] in Hall.
  apply andb_true_iff in Hall as [[H1 H2]%andb_true_iff H3].
  split_and!; intros Hc; [rewrite Hc in H1|rewrite Hc in H2|rewrite Hc in H3]; by apply Z.eqb_eq.
Qed.

(** A non-zero cell is one of the initialisers. *)
Lemma npf_tcp_fsm_in s f c : npf_tcp_fsm s f c ≠ 0 →
  (s, f, c, npf_tcp_fsm s f c) ∈ npf_tcp_fsm_init.
Proof.
  unfold npf_tcp_fsm. induction npf_tcp_fsm_init as [|[[[s' f'] c'] n] l IH]; [done|].
  cbn [omap list_omap]. destruct (fsm_cell s f c (s', f', c', n)) as [m|] eqn:E.
  - intros _. simpl. unfold fsm_cell in E. revert E. case_if; intros [= <-].
    bool_to_prop. rewrite bool_decide_eq_true in *. subst. apply list_elem_of_here.
  - intros H. apply list_elem_of_further, IH, H.
Qed.

(** The transitions into the opening states. *)
Lemma npf_tcp_fsm_opening s f c :
  let n := npf_tcp_fsm s f c in
  (n = NPF_TCPS_SYN_SENT → f = NPF_FLOW_FORW ∧ c = TCPFC_SYN) ∧
  (n = NPF_TCPS_SIMSYN_SENT → s = NPF_TCPS_SYN_SENT ∧ f = NPF_FLOW_BACK ∧ c = TCPFC_SYN) ∧
  (n = NPF_TCPS_SYN_RECEIVED →
    (s = NPF_TCPS_SYN_SENT ∧ f = NPF_FLOW_BACK ∨ s = NPF_TCPS_SIMSYN_SENT) ∧ c = TCPFC_SYNACK) ∧
  (n = NPF_TCPS_ESTABLISHED → s = NPF_TCPS_SYN_RECEIVED ∧ f = NPF_FLOW_FORW ∧ c = TCPFC_ACK).
Proof.
  intros n. destruct (decide (n = 0)) as [->|Hn]; [by split_and!; intros|].
  pose proof (npf_tcp_fsm_in s f c Hn) as Hin. fold n in Hin.
  unfold npf_tcp_fsm_init in Hin. rewrite list_elem_of_In in Hin. cbn [In] in Hin.
  clear Hn. clearbody n.
  repeat (destruct Hin as [Hin|Hin]; [injection Hin as <- <- <- <-; split_and!; intros [=]; auto|]).
  done.
Qed.

Lemma opened_mono s tr e : opened s tr → opened s (tr ++ [e]).
Proof. intros [H1 H2 H3 H4]. split; intros Hs; auto using saw_mono, half_open_mono. Qed.

(** Appending the event of a table transition. *)
Lemma opened_step s tr f fl :
  inw 8 fl → flag fl TH_RST = false → opened s tr →
  opened (npf_tcp_fsm s f (npf_tcpfl2case fl)) (tr ++ [(f, fl)]).
Proof.
  intros Hfl Hr [H1 H2 H3 H4]. destruct (npf_tcpfl2case_flags fl Hfl Hr) as (F1 & F2 & F3).
  pose proof (npf_tcp_fsm_opening s f (npf_tcpfl2case fl)) as (O1 & O2 & O3 & O4). split; intros Hn.
  - destruct (O1 Hn) as [-> Hc]. exists [(NPF_FLOW_FORW, fl)].
    split; [by apply sublist_inserts_l|]. repeat constructor. exact (F1 Hc).
  - destruct (O2 Hn) as (Hs & -> & Hc). apply (saw_snoc [_]); [by apply H1|split; [done|exact (F1 Hc)]].
  - destruct (O3 Hn) as [[[Hs ->]|Hs] Hc]; [left|right; exists f].
    + apply (saw_snoc [_]); [by apply H1|split; [done|exact (F2 Hc)]].
    + apply (saw_snoc [_; _]); [by apply H2|split; [done|exact (F2 Hc)]].
  - destruct (O4 Hn) as (Hs & -> & Hc). apply half_open_snoc; [by apply H3|split; [done|exact (F3 Hc)]].
Qed.

Lemma tcp_step_state params nst flow sg ws ok st nst' :
  tcp_step params nst flow sg ws = (ok, st, nst') →
  nst_state nst' = (if negb ok || (tcp_next_state (nst_state nst) flow (sg_fl sg) =? NPF_TCPS_OK)
    then nst_state nst else tcp_next_state (nst_state nst) flow (sg_fl sg)).
Proof.
  unfold tcp_step. assert (nst_state (snd (tcp_inwindow params nst flow sg ws)) = nst_state nst) as Hst.
  { unfold tcp_inwindow. case_if; [by destruct flow|].
    destruct (tcp_boundaries _ _ _ _ _ _) as [[[? ?] ?] ?]. by destruct flow. }
  destruct (tcp_inwindow params nst flow sg ws) as [[ok' st'] n1]. intros [= <- <- <-].
  simpl in Hst. by case_if.
Qed.

Section established.
Context {M : npf_mbufops_t}.

(** The window check leaves the state number alone. *)
Lemma npf_tcp_inwindow_state params npc nst flow ok st nst' npc' :
  npf_tcp_inwindow params npc nst flow = Some (ok, st, nst', npc') → nst_state nst' = nst_state nst.
Proof.
  unfold npf_tcp_inwindow. case_if.
  - destruct (npf_fetch_tcpopts npc None 0) as [[[[? ?] ?] ?]|]; cbn; [|done].
    intros [= <- <- <- <-]. by destruct flow.
  - destruct (if nst_end _ =? 0 then _ else _) as [[f npc1]|]; cbn -[tcp_boundaries]; [|done].
    destruct (tcp_boundaries _ _ _ _ _ _) as [[[? ?] ?] ?]. intros [= <- <- <- <-]. by destruct flow.
Qed.

(** A packet moves the state number only if it is accepted, and then as the
    table says for its flags. *)
Lemma npf_state_tcp_state params npc nst flow ok st nst' npc' :
  npf_state_tcp params npc nst flow = Some (ok, st, nst', npc') →
  let n := tcp_next_state (nst_state nst) flow (th_flags (pkt npc) (l4ptr npc)) in
  nst_state nst' = (if negb ok || (n =? NPF_TCPS_OK) then nst_state nst else n).
Proof.
  unfold npf_state_tcp.
  destruct (npf_tcp_inwindow params npc nst flow) as [[[[ok1 st1] n1] npc1]|] eqn:E; cbn; [|done].
  apply npf_tcp_inwindow_state in E.
  destruct ok1; cbn; [|by intros [= <- <- <- <-]].
  case_if; by intros [= <- <- <- <-].
Qed.

(** C24: a connection is ESTABLISHED only after a complete handshake.  Let
    [npf_state_tcp] (the transition table, the window check and the update of
    the state) inspect any packets, of any content, from either side, on a
    connection that starts in the initial (zeroed) state; some are accepted
    and some rejected.  If the tracked state is ESTABLISHED, then the packets
    it accepted contain, in this order: a SYN of the initiator, the SYN-ACK
    of the responder and an ACK of the initiator; or, in a simultaneous open,
    a SYN of the initiator, a SYN of the responder, a SYN-ACK of either side
    and an ACK of the initiator.  Each of these carries exactly those of the
    flags SYN, FIN, RST and ACK.  (Connections restored with their state from
    a saved configuration do not start in the initial state.) *)
Theorem tcp_established_handshake params tr nst :
  tcp_reach params tr nst → nst_state nst = NPF_TCPS_ESTABLISHED →
  saw [syn_ev NPF_FLOW_FORW; synack_ev NPF_FLOW_BACK; ack_ev NPF_FLOW_FORW] tr ∨
  ∃ fl, saw [syn_ev NPF_FLOW_FORW; syn_ev NPF_FLOW_BACK; synack_ev fl; ack_ev NPF_FLOW_FORW] tr.
Proof.
  intros Hr. cut (opened (nst_state nst) tr); [intros [_ _ _ H4]; exact H4|].
  induction Hr as [|tr nst npc flow ok st nst' npc' _ IH Hb E]; [by split|].
  rewrite (npf_state_tcp_state _ _ _ _ _ _ _ _ E). destruct ok; cbn [negb orb]; [|done].
  case_if; [by apply opened_mono|]. unfold tcp_next_state.
  destruct (flag (th_flags (pkt npc) (l4ptr npc)) TH_RST) eqn:Hrst; cbn [negb].
  - case_if; by split.
  - apply opened_step; [apply (rd8_range _ _ Hb)|done|done].
Qed.

End established.

Lemma npf_state_tcp_invariant_witness :
  ∃ ok stat nst' npc', @npf_state_tcp linear_mbufops tcp_default_params sample_syn_npc nst_zero
    NPF_FLOW_FORW = Some (ok, stat, nst', npc') ∧ nst_wf nst'.
Proof.
  destruct (@npf_state_tcp_invariant linear_mbufops linear_mbufops_laws tcp_default_params
    sample_syn_npc nst_zero NPF_FLOW_FORW) as (ok & st & n & c & E & W & _).
  - apply (flat_npc_wf no_drop sample_syn 1). vm_compute. reflexivity.
  - apply bytes_ok_concrete. vm_compute. reflexivity.
  - simpl. lia.
  - exact nst_zero_wf.
  - exists ok, st, n, c. split; [exact E|exact W].
Defined.

(** A handshake with ISNs 100 and 300, as a sequence of states. *)
Definition hs1 : npf_state_t :=
  snd (tcp_step tcp_default_params nst_zero NPF_FLOW_FORW (seg_syn 100 8192) 0).
Definition hs2 : npf_state_t :=
  snd (tcp_step tcp_default_params hs1 NPF_FLOW_BACK (seg_synack 300 101 8192) 0).
Definition hs3 : npf_state_t :=
  snd (tcp_step tcp_default_params hs2 NPF_FLOW_FORW (seg_ack 101 301 8192 0) 0).

Lemma hs3_wf : nst_wf hs3.
Proof.
  do 3 (apply tcp_step_wf; [|by repeat split|by unfold TCP_MAX_WINSHIFT]). exact nst_zero_wf.
Qed.

(** The same handshake as packets: an IPv4 header of 20 bytes and a TCP
    header without options; the cache as the parser leaves it. *)
Definition hs_npc (seq ack fl : Z) : npf_cache_t :=
  let p := [0x45; 0; 0; 40; 0; 0; 0; 0; 64; 6; 0; 0; 10; 0; 0; 1; 10; 0; 0; 2;
            0x10; 0; 0; 80; 0; 0; seq / 256; seq mod 256; 0; 0; ack / 256; ack mod 256;
            0x50; fl; 0x20; 0; 0; 0; 0; 0] in
  mk_npc no_drop (NPC_IP4 ||| NPC_LAYER4 ||| NPC_TCP) (mk_nbuf [p] 0 0 1 0) 12 16 4 20 IPPROTO_TCP 0 (Some 20) None.

(** The verdict and the state after a packet. *)
Definition hs_next (nst : npf_state_t) (flow : npf_flow_t) (npc : npf_cache_t) : option (bool * npf_state_t) :=
  match npf_state_tcp (M := linear_mbufops) tcp_default_params npc nst flow with
  | Some (ok, _, nst', _) => Some (ok, nst')
  | None => None
  end.

Lemma hs_reach tr nst flow npc ok nst' :
  tcp_reach (M := linear_mbufops) tcp_default_params tr nst →
  forallb (λ b, (0 <=? b) && (b <? 256)) (pkt npc) = true → hs_next nst flow npc = Some (ok, nst') →
  tcp_reach (M := linear_mbufops) tcp_default_params
    (if ok then tr ++ [(flow, th_flags (pkt npc) (l4ptr npc))] else tr) nst'.
Proof.
  unfold hs_next. intros Hr Hb.
  destruct (npf_state_tcp _ _ _ _) as [[[[? ?] ?] ?]|] eqn:E; [|done]. intros [= <- <-].
  exact (reach_inspect _ _ _ _ _ _ _ _ _ Hr (bytes_ok_concrete _ Hb) E).
Qed.

(** The SYN, an ACK outside of the window (rejected), the SYN-ACK, the ACK. *)
Lemma hs3_reach :
  tcp_reach (M := linear_mbufops) tcp_default_params
    [(NPF_FLOW_FORW, TH_SYN); (NPF_FLOW_BACK, TH_SYN ||| TH_ACK); (NPF_FLOW_FORW, TH_ACK)] hs3.
Proof.
  apply (hs_reach [(NPF_FLOW_FORW, TH_SYN); (NPF_FLOW_BACK, TH_SYN ||| TH_ACK)] hs2
    NPF_FLOW_FORW (hs_npc 101 301 TH_ACK) true); [|reflexivity|vm_compute; reflexivity].
  apply (hs_reach [(NPF_FLOW_FORW, TH_SYN)] hs1 NPF_FLOW_BACK (hs_npc 300 101 (TH_SYN ||| TH_ACK)) true);
    [|reflexivity|vm_compute; reflexivity].
  apply (hs_reach [(NPF_FLOW_FORW, TH_SYN)] hs1 NPF_FLOW_FORW (hs_npc 40000 301 TH_ACK) false);
    [|reflexivity|vm_compute; reflexivity].
  apply (hs_reach [] nst_zero NPF_FLOW_FORW (hs_npc 100 0 TH_SYN) true);
    [constructor|reflexivity|vm_compute; reflexivity].
Qed.

Lemma tcp_established_handshake_witness :
  hs_next hs2 NPF_FLOW_FORW (hs_npc 101 301 TH_ACK) = Some (true, hs3) ∧
  nst_state hs3 = NPF_TCPS_ESTABLISHED ∧
  let tr := [(NPF_FLOW_FORW, TH_SYN); (NPF_FLOW_BACK, TH_SYN ||| TH_ACK); (NPF_FLOW_FORW, TH_ACK)] in
  tcp_reach (M := linear_mbufops) tcp_default_params tr hs3 ∧
  (saw [syn_ev NPF_FLOW_FORW; synack_ev NPF_FLOW_BACK; ack_ev NPF_FLOW_FORW] tr ∨
   ∃ fl, saw [syn_ev NPF_FLOW_FORW; syn_ev NPF_FLOW_BACK; synack_ev fl; ack_ev NPF_FLOW_FORW] tr).
Proof.
  split; [vm_compute; reflexivity|]. split; [vm_compute; reflexivity|]. intros tr. split; [exact hs3_reach|].
  exact (tcp_established_handshake (M := linear_mbufops) tcp_default_params _ hs3 hs3_reach
    ltac:(vm_compute; reflexivity)).
Defined.

(** ** Independence of the initial sequence numbers *)

Definition shift (k x : Z) : Z := u32 (x + k).
Definition shift_st (k : Z) (st : npf_tcpstate_t) : npf_tcpstate_t :=
  mk_tcpst (shift k (nst_end st)) (shift k (nst_maxend st)) (nst_maxwin st) (nst_wscale st).
Definition shift_seg (k j : Z) (sg : tcp_seg) : tcp_seg :=
  mk_seg (sg_fl sg) (shift k (sg_seq sg)) (shift j (sg_ack sg)) (sg_win sg) (sg_len sg).

(** Both sides renumbered, seen from the sender of a segment. *)
Definition shift_nst (flow : npf_flow_t) (k j : Z) (nst : npf_state_t) : npf_state_t :=
  set_tcpst nst flow (shift_st k (nst_tcpst nst flow)) (shift_st j (nst_tcpst nst (flow_neg flow))).

Lemma seq_diff_shift k a b : seq_diff (shift k a) (shift k b) = seq_diff a b.
Proof. unfold seq_diff, shift. autorewrite with wrap_db. f_equal. lia. Qed.

Lemma shift_sub k a b : u32 (shift k a - b) = shift k (u32 (a - b)).
Proof. unfold shift. autorewrite with wrap_db. f_equal. lia. Qed.

Lemma shift_add k a b : u32 (shift k a + b) = shift k (u32 (a + b)).
Proof. unfold shift. autorewrite with wrap_db. f_equal. lia. Qed.

Lemma tcp_end_shift k j sg : tcp_end (shift_seg k j sg) = shift k (tcp_end sg).
Proof.
  unfold tcp_end, shift_seg. cbn [sg_fl sg_seq sg_len].
  destruct (flag (sg_fl sg) TH_SYN), (flag (sg_fl sg) TH_FIN); by rewrite ?shift_add.
Qed.

Lemma tcp_boundaries_shift params s f t sg win k j :
  flag (sg_fl sg) TH_RST = false →
  tcp_boundaries params s (shift_st k f) (shift_st j t) (shift_seg k j sg) win
  = (let '(ok, st, f', t') := tcp_boundaries params s f t sg win in
     (ok, st, shift_st k f', shift_st j t')).
Proof.
  intros Hrst. unfold tcp_boundaries. rewrite tcp_end_shift.
  cbn [shift_st shift_seg sg_fl sg_seq sg_ack nst_end nst_maxend nst_maxwin nst_wscale].
  rewrite Hrst. cbn [andb].
  rewrite (ack_rst_false _ Hrst).
  cbn [andb]. set (ack := if negb _ then nst_end t else sg_ack sg).
  assert ((if negb (flag (sg_fl sg) TH_ACK) then shift j (nst_end t) else shift j (sg_ack sg))
    = shift j ack) as -> by (unfold ack; by case_if).
  unfold SEQ_LEQ, SEQ_GEQ, SEQ_GT. fold (seq_diff (nst_end t) ack).
  fold (seq_diff (shift j (nst_end t)) (shift j ack)).
  rewrite shift_sub, !seq_diff_shift, shift_add.
  destruct (negb (_ <=? 0)); [done|]. destruct (negb (0 <=? _)); [done|].
  destruct (_ || _); [done|].
  destruct (seq_diff (nst_end t) ack <? 0), (nst_maxwin f <? win);
    cbn [shift_st nst_end nst_maxend nst_maxwin nst_wscale]; rewrite ?seq_diff_shift;
    destruct (0 <? seq_diff (tcp_end sg) (nst_end f)),
      (0 <=? seq_diff (u32 (ack + win)) (nst_maxend t)); reflexivity.
Qed.

(** Apart from the two sentinels of the code (a side whose next sequence
    number is 0 counts as unseen, and RST segments with a zero number), the
    tracker does not depend on where a side's sequence numbers start:
    renumbering each side of the connection by any amount, modulo 2^32,
    renumbers the resulting state and leaves the verdict and the connection
    state the same. *)
Theorem tcp_step_isn_invariant params nst flow sg ws k j :
  flag (sg_fl sg) TH_RST = false →
  nst_maxwin (nst_tcpst nst flow) ≠ 0 → nst_end (nst_tcpst nst flow) ≠ 0 →
  shift k (nst_end (nst_tcpst nst flow)) ≠ 0 →
  tcp_step params (shift_nst flow k j nst) flow (shift_seg k j sg) ws
  = (let '(ok, st, nst') := tcp_step params nst flow sg ws in (ok, st, shift_nst flow k j nst')).
Proof.
  intros Hrst Hw He Hk. unfold tcp_step, tcp_inwindow.
  assert (nst_tcpst (shift_nst flow k j nst) flow = shift_st k (nst_tcpst nst flow)) as -> by (by destruct flow).
  assert (nst_tcpst (shift_nst flow k j nst) (flow_neg flow) = shift_st j (nst_tcpst nst (flow_neg flow)))
    as -> by (by destruct flow).
  assert (nst_state (shift_nst flow k j nst) = nst_state nst) as -> by (by destruct flow).
  cbn [shift_st nst_maxwin nst_end nst_wscale]. change (sg_fl (shift_seg k j sg)) with (sg_fl sg).
  rewrite (proj2 (Z.eqb_neq _ _) Hw), (proj2 (Z.eqb_neq _ _) He), (proj2 (Z.eqb_neq _ _) Hk).
  change (tcp_win (shift_seg k j sg) (nst_wscale (nst_tcpst nst flow)))
    with (tcp_win sg (nst_wscale (nst_tcpst nst flow))).
  change (mk_tcpst (shift k (nst_end (nst_tcpst nst flow))) _ _ _) with (shift_st k (nst_tcpst nst flow)).
  rewrite tcp_boundaries_shift by done.
  destruct (tcp_boundaries _ _ _ _ _ _) as [[[ok st] f'] t'].
  destruct flow; cbn; by case_if.
Qed.

Lemma tcp_step_isn_invariant_witness :
  fst (tcp_step tcp_default_params (shift_nst NPF_FLOW_BACK 5000 0xfffffff0 hs3) NPF_FLOW_BACK
    (shift_seg 5000 0xfffffff0 (seg_ack 301 101 8192 1000)) 0) = (true, None).
Proof.
  rewrite (tcp_step_isn_invariant tcp_default_params hs3 NPF_FLOW_BACK (seg_ack 301 101 8192 1000) 0
    5000 0xfffffff0); [reflexivity|reflexivity|vm_compute; discriminate..].
Defined.

(** ** Reset segments *)

(** With strict RST ordering (RFC 5961, the default) a RST segment is
    accepted only at the sequence number next expected from that side or the
    one before it, so that a blind reset has two chances in 2^32; a RST that
    is not accepted changes nothing at all, and one that is closes the
    connection, except that it cannot cut TIME-WAIT short (RFC 1337). *)
Theorem tcp_rst_strict params nst flow sg ws ok st nst' :
  nst_wf nst → seg_wf sg → strict_order_rst params = true → flag (sg_fl sg) TH_RST = true →
  nst_maxwin (nst_tcpst nst flow) ≠ 0 → nst_end (nst_tcpst nst flow) ≠ 0 →
  sg_seq sg ≠ 0 ∨ nst_state nst ≠ NPF_TCPS_SYN_SENT →
  tcp_step params nst flow sg ws = (ok, st, nst') →
  (ok = false → nst' = nst) ∧
  (ok = true →
     (sg_seq sg = nst_end (nst_tcpst nst flow) ∨ sg_seq sg = u32 (nst_end (nst_tcpst nst flow) - 1)) ∧
     nst_state nst' = (if nst_state nst =? NPF_TCPS_TIME_WAIT then NPF_TCPS_TIME_WAIT
                       else NPF_TCPS_CLOSED)).
Proof.
  intros Hn (_ & Hq & _) Hstrict Hrst Hw He Hsyn Hstep.
  pose proof (tcp_step_state _ _ _ _ _ _ _ _ Hstep) as Hst. revert Hstep.
  unfold tcp_step, tcp_inwindow.
  rewrite (proj2 (Z.eqb_neq _ _) Hw), (proj2 (Z.eqb_neq _ _) He).
  set (f := nst_tcpst nst flow) in *. set (t := nst_tcpst nst (flow_neg flow)).
  assert (set_tcpst nst flow f t = nst) as Hid by (unfold f, t; by destruct nst, flow).
  assert (inw 32 (nst_end f)) as Hef by (unfold f; destruct Hn as [_ (? & _) (? & _)]; by destruct flow).
  destruct (tcp_boundaries _ _ _ _ _ _) as [[[ok' st'] f'] t'] eqn:Eb. intros [= <- <- <-].
  unfold tcp_boundaries in Eb. rewrite Hrst, Hstrict in Eb. cbn [andb] in Eb.
  assert ((sg_seq sg =? 0) && (nst_state nst =? NPF_TCPS_SYN_SENT) = false) as Hns.
  { destruct Hsyn as [?|?]; [by rewrite (proj2 (Z.eqb_neq _ _))|].
    rewrite (proj2 (Z.eqb_neq (nst_state nst) _)) by done. apply andb_false_r. }
  rewrite Hns in Eb.
  destruct (1 <? u32 (nst_end f - sg_seq sg)) eqn:E1; [by injection Eb as <- <- <- <-|]. bool_to_prop.
  split.
  - intros ->. revert Eb. repeat case_if; intros [= <- <- <-]; done.
  - intros ->. split.
    + pose proof (wrap_range 32 (nst_end f - sg_seq sg) ltac:(lia)) as Hr.
      unfold inw, wrap in *. set (d := nst_end f - sg_seq sg) in *.
      pose proof (Z.div_mod d (2 ^ 32) ltac:(lia)).
      assert (d / 2 ^ 32 = 0 ∨ d / 2 ^ 32 = -1) by (Z.to_euclidean_division_equations; lia).
      assert (d mod 2 ^ 32 = 0 ∨ d mod 2 ^ 32 = 1) as [Hd|Hd] by lia; [left; lia|right].
      assert (nst_end f - 1 = sg_seq sg + (d / 2 ^ 32) * 2 ^ 32) as -> by lia.
      rewrite Z.mod_add, Z.mod_small by lia. done.
    + rewrite Hst. cbn [negb orb]. unfold tcp_next_state. rewrite Hrst. cbn [negb].
      destruct (nst_state nst =? NPF_TCPS_TIME_WAIT) eqn:Ew; [|done]. by bool_to_prop.
Qed.

Lemma tcp_rst_strict_witness :
  ∃ st, tcp_step tcp_default_params hs3 NPF_FLOW_BACK (mk_seg TH_RST 5000 0 0 0) 0 = (false, st, hs3).
Proof.
  destruct (tcp_step tcp_default_params hs3 NPF_FLOW_BACK (mk_seg TH_RST 5000 0 0 0) 0)
    as [[ok st] n] eqn:E.
  exists st. assert (ok = false) as -> by (revert E; vm_compute; by intros [= <- <- <-]).
  f_equal. apply (tcp_rst_strict tcp_default_params hs3 NPF_FLOW_BACK (mk_seg TH_RST 5000 0 0 0) 0 false st n).
  - exact hs3_wf.
  - by repeat split.
  - reflexivity.
  - reflexivity.
  - vm_compute. discriminate.
  - vm_compute. discriminate.
  - left. discriminate.
  - exact E.
  - reflexivity.
Defined.

(** ** Timeouts and the limits of the parameters *)

(** Every state has a timeout in the table. *)
Lemma state_timeout_idx_range s : 0 <= state_timeout_idx s < 5.
Proof. unfold state_timeout_idx. repeat case_if; vm_compute; split; (discriminate || reflexivity). Qed.

(** The parameter [state.tcp.max_ack_win] may be set up to INT_MAX, but from
    131072 on its shift by a window scale of 14 overflows: the upper bound of
    check (IV) becomes negative and a segment that acknowledges exactly what
    was sent is rejected. *)
Theorem tcp_max_ack_win_overflow :
  s32 (131072 <<< 14) = - 2 ^ 31 ∧
  fst (fst (tcp_boundaries (mk_tcp_params 131072 true []) NPF_TCPS_ESTABLISHED
    (mk_tcpst 101 9000 8192 14) (mk_tcpst 301 9000 8192 0) (seg_ack 101 301 8192 0) 8192))
  = (false, Some NPF_STAT_INVALID_STATE_TCP3).
Proof. vm_compute. done. Qed.

End StateTcp.
