(* ===== verification/State.v ===== *)
(** * State: connection state for all protocols (src/kern/npf_state.c)

    [npf_state_init], [npf_state_inspect] and [npf_state_etime] dispatch to
    TCP tracking or to the generic machine of UDP, ICMP and GRE. *)

From S2P Require Import Prelude Nbuf Cache Rewrite Tcpopt StateTcp.
Open Scope Z_scope.
Open Scope npf_scope.

Module State.
Export StateTcp.

Definition IPPROTO_GRE : Z := 47.

Definition NPF_ANY_CONN_CLOSED : Z := 0.
Definition NPF_ANY_CONN_NEW : Z := 1.
Definition NPF_ANY_CONN_ESTABLISHED : Z := 2.
Definition NPF_ANY_CONN_NSTATES : Z := 3.

Record npf_state_params_t := mk_state_params {
  st_timeouts : list Z;        (* indexed by NPF_ANY_CONN_* *)
  gre_timeout : Z;
}.

(** Both parameter groups of an NPF instance. *)
Record npf_all_state_params := mk_all_params {
  params_generic : npf_state_params_t;
  params_tcp : npf_state_tcp_params_t;
}.

Definition npf_generic_fsm (state : Z) (flow : npf_flow_t) : Z :=
  if state =? NPF_ANY_CONN_CLOSED then
    match flow with NPF_FLOW_FORW => NPF_ANY_CONN_NEW | NPF_FLOW_BACK => 0 end
  else if state =? NPF_ANY_CONN_NEW then
    match flow with NPF_FLOW_FORW => NPF_ANY_CONN_NEW | NPF_FLOW_BACK => NPF_ANY_CONN_ESTABLISHED end
  else if state =? NPF_ANY_CONN_ESTABLISHED then NPF_ANY_CONN_ESTABLISHED
  else 0.

(** The protocols of the generic machine. *)
Definition generic_proto (proto : Z) : bool :=
  (proto =? IPPROTO_UDP) || (proto =? IPPROTO_ICMP) || (proto =? IPPROTO_GRE).

Section ops.
Context {M : npf_mbufops_t}.

Definition npf_state_init (p : npf_all_state_params) (npc : npf_cache_t) :
    option (bool * option tcp_stat * npf_state_t * npf_cache_t) :=
  let proto := npc_proto npc in
  let nst := nst_zero in
  if proto =? IPPROTO_TCP then npf_state_tcp (params_tcp p) npc nst NPF_FLOW_FORW
  else if generic_proto proto then
    Some (true, None, set_nst_state nst (npf_generic_fsm (nst_state nst) NPF_FLOW_FORW), npc)
  else Some (false, None, nst, npc).

Definition npf_state_destroy (nst : npf_state_t) : npf_state_t := set_nst_state nst 0.

Definition npf_state_inspect (p : npf_all_state_params) (npc : npf_cache_t) (nst : npf_state_t)
    (flow : npf_flow_t) : option (bool * option tcp_stat * npf_state_t * npf_cache_t) :=
  let proto := npc_proto npc in
  if proto =? IPPROTO_TCP then npf_state_tcp (params_tcp p) npc nst flow
  else if generic_proto proto then
    Some (true, None, set_nst_state nst (npf_generic_fsm (nst_state nst) flow), npc)
  else Some (false, None, nst, npc).

End ops.

Definition npf_state_etime (p : npf_all_state_params) (nst : npf_state_t) (proto : Z) : Z :=
  if proto =? IPPROTO_TCP then npf_state_tcp_timeout (params_tcp p) nst
  else if (proto =? IPPROTO_UDP) || (proto =? IPPROTO_ICMP) then
    default 0 (st_timeouts (params_generic p) !! Z.to_nat (nst_state nst))
  else if proto =? IPPROTO_GRE then gre_timeout (params_generic p)
  else 0.

(** The registered defaults of [npf_state_sysinit]. *)
Definition default_state_params : npf_all_state_params :=
  mk_all_params (mk_state_params [0; 30; 60] (24 * 60 * 60)) tcp_default_params.

(** ** Properties *)

(** Whose state a connection state is: a protocol and a valid state of it. *)
Definition conn_state_ok (proto : Z) (nst : npf_state_t) : Prop :=
  (proto = IPPROTO_TCP ∧ nst_wf nst) ∨
  (generic_proto proto = true ∧ 0 <= nst_state nst < NPF_ANY_CONN_NSTATES).

Lemma npf_generic_fsm_range s f : 0 <= npf_generic_fsm s f < NPF_ANY_CONN_NSTATES.
Proof. unfold npf_generic_fsm. repeat case_if; destruct f; vm_compute; split; done. Qed.

Section laws.
Context {M : npf_mbufops_t} {ML : mbufops_laws}.

(** Both [npf_state_init] and [npf_state_inspect] go through this step. *)
Lemma state_step_ok p npc nst flow ok st nst' npc' :
  nbuf_wf (npc_nbuf npc) → bytes_ok (pkt npc) → 0 <= npc_hlen npc < 2 ^ 30 →
  conn_state_ok (npc_proto npc) nst →
  npf_state_inspect p npc nst flow = Some (ok, st, nst', npc') →
  conn_state_ok (npc_proto npc) nst' ∧ pkt npc' = pkt npc.
Proof.
  intros Hwf Hb Hh Hok. unfold npf_state_inspect. destruct Hok as [[Hp Hn]|[Hg Hs]].
  - rewrite Hp. cbn [Z.eqb Pos.eqb]. change (IPPROTO_TCP =? IPPROTO_TCP) with true. cbv iota.
    destruct (npf_state_tcp_spec (params_tcp p) npc nst flow Hwf Hb Hh)
      as (o & m & ws & npc1 & _ & Hws & npc2 & -> & P).
    pose proof (tcp_step_wf (params_tcp p) nst flow (npf_tcp_seg npc) ws Hn (npf_tcp_seg_wf npc Hb) Hws) as W.
    destruct (tcp_step _ _ _ _ _) as [[ok1 st1] n1]. intros [= <- <- <- <-].
    split; [left; split; [done|exact W]|done].
  - assert ((npc_proto npc =? IPPROTO_TCP) = false) as ->.
    { apply Z.eqb_neq. intros E. by rewrite E in Hg. }
    rewrite Hg. intros [= <- <- <- <-]. split; [|done]. right. split; [done|].
    apply npf_generic_fsm_range.
Qed.

(** The connection state stays valid for its protocol from
    [npf_state_init] on through every [npf_state_inspect], for TCP (state
    machine, window bounds) and for the generic protocols, so that the timeout
    lookups of [npf_state_etime] stay inside their tables; a freshly
    initialised state has seen no reply, and unsupported protocols are
    refused. *)
Theorem npf_state_valid p npc0 npc nst flow :
  nbuf_wf (npc_nbuf npc0) → bytes_ok (pkt npc0) → 0 <= npc_hlen npc0 < 2 ^ 30 →
  nbuf_wf (npc_nbuf npc) → bytes_ok (pkt npc) → 0 <= npc_hlen npc < 2 ^ 30 →
  (∀ st npc', npf_state_init p npc0 = Some (true, st, nst, npc') →
     conn_state_ok (npc_proto npc0) nst ∧
     (npc_proto npc0 = IPPROTO_TCP ∨ nst_state nst = NPF_ANY_CONN_NEW)) ∧
  (∀ ok st nst' npc', conn_state_ok (npc_proto npc) nst →
     npf_state_inspect p npc nst flow = Some (ok, st, nst', npc') →
     conn_state_ok (npc_proto npc) nst') ∧
  (conn_state_ok (npc_proto npc) nst →
     length (tcp_timeouts (params_tcp p)) = 5%nat →
     length (st_timeouts (params_generic p)) = 3%nat →
     npf_state_etime p nst (npc_proto npc) ∈
       gre_timeout (params_generic p) :: tcp_timeouts (params_tcp p) ++ st_timeouts (params_generic p)).
Proof.
  intros Hwf0 Hb0 Hh0 Hwf Hb Hh. split; [|split].
  - intros st npc' E. split.
    + assert (npf_state_inspect p npc0 nst_zero NPF_FLOW_FORW = Some (true, st, nst, npc')) as E' by done.
      destruct (npc_proto npc0 =? IPPROTO_TCP) eqn:Et; bool_to_prop.
      * eapply state_step_ok; [..|exact E']; try done. left. split; [done|apply nst_zero_wf].
      * destruct (generic_proto (npc_proto npc0)) eqn:Eg.
        -- eapply state_step_ok; [..|exact E']; try done. by right.
        -- unfold npf_state_init in E. rewrite (proj2 (Z.eqb_neq _ _) Et), Eg in E. done.
    + unfold npf_state_init in E. destruct (npc_proto npc0 =? IPPROTO_TCP) eqn:Et; bool_to_prop;
        [by left|right].
      destruct (generic_proto _); [|done]. injection E as <- <- <-. done.
  - intros ok st nst' npc' Hok E. eapply state_step_ok; eauto.
  - intros Hok Ht Hg. unfold npf_state_etime.
    assert (∀ (l : list Z) i, 0 <= i < Z.of_nat (length l) → default 0 (l !! Z.to_nat i) ∈ l) as Hin.
    { intros l i Hi. destruct (lookup_lt_is_Some_2 l (Z.to_nat i)) as [x Hx]; [lia|].
      rewrite Hx. simpl. by eapply list_elem_of_lookup_2. }
    destruct Hok as [[Hp Hn]|[Hgen Hs]].
    + rewrite Hp. change (IPPROTO_TCP =? IPPROTO_TCP) with true. cbv iota.
      apply list_elem_of_further, elem_of_app. left. apply Hin. rewrite Ht.
      apply state_timeout_idx_range.
    + assert ((npc_proto npc =? IPPROTO_TCP) = false) as ->.
      { apply Z.eqb_neq. intros E. by rewrite E in Hgen. }
      unfold generic_proto in Hgen.
      destruct ((npc_proto npc =? IPPROTO_UDP) || (npc_proto npc =? IPPROTO_ICMP)); cbn [orb] in Hgen.
      * apply list_elem_of_further, elem_of_app. right. apply Hin. rewrite Hg.
        unfold NPF_ANY_CONN_NSTATES in Hs. lia.
      * rewrite Hgen. apply list_elem_of_here.
Qed.

End laws.

Lemma npf_state_valid_witness :
  ∃ st nst npc', @npf_state_init linear_mbufops default_state_params sample_syn_npc
      = Some (true, st, nst, npc') ∧ conn_state_ok IPPROTO_TCP nst.
Proof.
  assert (nbuf_wf (npc_nbuf sample_syn_npc)) as Hwf
    by (apply (flat_npc_wf no_drop sample_syn 1); vm_compute; reflexivity).
  assert (bytes_ok (pkt sample_syn_npc)) as Hb
    by (apply bytes_ok_concrete; vm_compute; reflexivity).
  assert (0 <= npc_hlen sample_syn_npc < 2 ^ 30) as Hh by (simpl; lia).
  destruct (@npf_state_init linear_mbufops default_state_params sample_syn_npc)
    as [[[[ok st] nst] npc']|] eqn:E; [|exfalso; revert E; vm_compute; discriminate].
  assert (ok = true) as -> by (revert E; vm_compute; by intros [= <- _ _ _]).
  exists st, nst, npc'. split; [reflexivity|].
  destruct (@npf_state_valid linear_mbufops linear_mbufops_laws default_state_params sample_syn_npc
    sample_syn_npc nst NPF_FLOW_BACK Hwf Hb Hh Hwf Hb Hh) as [H _].
  exact (proj1 (H st npc' E)).
Defined.

End State.
