(* ===== verification/IfMap.v ===== *)
(** * IfMap: interface identifiers (src/kern/npf_if.c)

    NPF gives every interface name it meets an ID from a linear counter and
    stores the ID in the interface's metadata through the callbacks of
    [npf_ifops_t] (src/kern/npfkern.h).  The callbacks and the interfaces
    they work on are the class [npf_ifops_t] with the laws NPF relies on. *)

From Stdlib Require Import String.
From stdpp Require Import strings.
From S2P Require Import Prelude.
Open Scope Z_scope.
Open Scope npf_scope.

Module IfMap.

Definition IFNAMSIZ : nat := 16.
Definition NPF_MAX_IFMAP : Z := 64.
Definition UINT_MAX : Z := 2 ^ 32 - 1.
Definition NPF_IFMAP_NOID : Z := 0.

(** The interface callbacks; [W] is the state of the network stack they act
    on and [ifnet] an interface handle. *)
Class npf_ifops_t (W ifnet : Type) := {
  if_getname : W → ifnet → string;
  if_lookup : W → string → option ifnet;
  if_flush : W → Z → W;
  if_getmeta : W → ifnet → Z;
  if_setmeta : W → ifnet → Z → W;
}.

Class ifops_laws (W ifnet : Type) `{!EqDecision ifnet, !npf_ifops_t W ifnet} := {
  getmeta_setmeta w i j v :
    if_getmeta (if_setmeta w i v) j = if decide (i = j) then v else if_getmeta w j;
  getmeta_flush w i : if_getmeta (if_flush w 0) i = 0;
  lookup_name w n i : if_lookup w n = Some i → if_getname w i = n;
}.

(** [strlcpy(dst, src, n)]. *)
Definition strlcpy (src : string) (n : nat) : string := substring 0 (n - 1) src.

(** The slots in use, in order, and the ID offset. *)
Record ifmap_t := mk_ifmap { ifmap_names : list string; ifmap_off : Z }.

Definition ifmap_cnt (m : ifmap_t) : Z := Z.of_nat (List.length (ifmap_names m)).
Definition NPF_IFMAP_SLOT2ID (m : ifmap_t) (slot : Z) : Z := u32 (ifmap_off m + slot + 1).
Definition NPF_IFMAP_ID2SLOT (m : ifmap_t) (id : Z) : Z := u32 (id - ifmap_off m - 1).

Fixpoint ifmap_find (names : list string) (i : Z) (ifname : string) : option Z :=
  match names with
  | [] => None
  | n :: names' => if decide (n = ifname) then Some i else ifmap_find names' (i + 1) ifname
  end.

Definition npf_ifmap_lookup (m : ifmap_t) (ifname : string) : Z :=
  match ifmap_find (ifmap_names m) 0 ifname with
  | Some i => NPF_IFMAP_SLOT2ID m i
  | None => NPF_IFMAP_NOID
  end.

Section ops.
Context {W ifnet : Type} {IO : npf_ifops_t W ifnet}.

Definition npf_ifmap_init (w : W) : ifmap_t * W := (mk_ifmap [] 0, if_flush w 0).

Definition npf_ifmap_register (m : ifmap_t) (w : W) (ifname : string) : Z * ifmap_t * W :=
  let id := npf_ifmap_lookup m ifname in
  if negb (id =? NPF_IFMAP_NOID) then (id, m, w)
  else if ifmap_cnt m =? NPF_MAX_IFMAP then (NPF_IFMAP_NOID, m, w)
  else
    let i := ifmap_cnt m in
    let m := mk_ifmap (ifmap_names m ++ [strlcpy ifname IFNAMSIZ]) (ifmap_off m) in
    let id := NPF_IFMAP_SLOT2ID m i in
    match if_lookup w ifname with
    | Some ifp => (id, m, if_setmeta w ifp id)
    | None => (id, m, w)
    end.

Definition npf_ifmap_flush (m : ifmap_t) (w : W) : ifmap_t * W :=
  (mk_ifmap [] (if ifmap_off m <? UINT_MAX - NPF_MAX_IFMAP then u32 (ifmap_off m + NPF_MAX_IFMAP) else 0),
   if_flush w NPF_IFMAP_NOID).

Definition npf_ifmap_getid (w : W) (ifp : ifnet) : Z := if_getmeta w ifp.

(** The slots beyond those in use hold empty names. *)
Definition npf_ifmap_copyname (m : ifmap_t) (id : Z) : string :=
  let i := NPF_IFMAP_ID2SLOT m id in
  if negb (id =? NPF_IFMAP_NOID) && (i <? NPF_MAX_IFMAP)
  then strlcpy (default ""%string (ifmap_names m !! Z.to_nat i)) IFNAMSIZ
  else "???"%string.

Definition npfk_ifmap_attach (m : ifmap_t) (w : W) (ifp : ifnet) : W :=
  if_setmeta w ifp (npf_ifmap_lookup m (if_getname w ifp)).

Definition npfk_ifmap_detach (w : W) (ifp : ifnet) : W := if_setmeta w ifp NPF_IFMAP_NOID.

End ops.

(** ** Invariant *)

(** Names fit their slots and the IDs of this generation do not wrap. *)
Record ifmap_wf (m : ifmap_t) : Prop := {
  ifmap_wf_cnt : ifmap_cnt m <= NPF_MAX_IFMAP;
  ifmap_wf_off : 0 <= ifmap_off m ∧ ifmap_off m + NPF_MAX_IFMAP <= UINT_MAX;
  ifmap_wf_names : Forall (λ n, (String.length n < IFNAMSIZ)%nat) (ifmap_names m);
}.

Lemma SLOT2ID_small m i : ifmap_wf m → 0 <= i < NPF_MAX_IFMAP →
  NPF_IFMAP_SLOT2ID m i = ifmap_off m + i + 1.
Proof.
  intros [_ H _] Hi. unfold NPF_IFMAP_SLOT2ID. apply wrap_small.
  unfold inw, NPF_MAX_IFMAP, UINT_MAX in *. lia.
Qed.

Lemma ifmap_find_spec names n : ∀ k i,
  ifmap_find names k n = Some i → k <= i < k + Z.of_nat (List.length names) ∧
    names !! Z.to_nat (i - k) = Some n.
Proof.
  induction names as [|x names IH]; intros k i; simpl; [done|]. case_decide as E.
  - intros [= <-]. rewrite Z.sub_diag. subst. split; [lia|done].
  - intros H. apply IH in H as [Hr Hl]. split; [lia|].
    replace (Z.to_nat (i - k)) with (S (Z.to_nat (i - (k + 1)))) by lia. done.
Qed.

Lemma ifmap_find_app names n x : ∀ k,
  ifmap_find names k n = None →
  ifmap_find (names ++ [x]) k n = if decide (x = n) then Some (k + Z.of_nat (List.length names)) else None.
Proof.
  induction names as [|y names IH]; intros k; simpl.
  - intros _. case_decide; [f_equal; lia|done].
  - destruct (decide (y = n)); [done|]. intros H. rewrite IH by done. case_decide; [f_equal; lia|done].
Qed.

(** A non-zero lookup result is the ID of a slot that holds the name. *)
Lemma npf_ifmap_lookup_spec m n :
  ifmap_wf m → npf_ifmap_lookup m n ≠ NPF_IFMAP_NOID →
  ∃ i, 0 <= i < ifmap_cnt m ∧ npf_ifmap_lookup m n = ifmap_off m + i + 1 ∧
    ifmap_names m !! Z.to_nat i = Some n.
Proof.
  intros Hm. unfold npf_ifmap_lookup. destruct (ifmap_find _ _ _) as [i|] eqn:E; [|done]. intros _.
  apply ifmap_find_spec in E as [Hr Hl]. rewrite Z.sub_0_r in Hl. exists i.
  pose proof (ifmap_wf_cnt m Hm). unfold ifmap_cnt in *.
  split; [lia|]. split; [apply SLOT2ID_small; [done|lia]|done].
Qed.

Lemma npf_ifmap_lookup_zero m n :
  ifmap_wf m → npf_ifmap_lookup m n = NPF_IFMAP_NOID → ifmap_find (ifmap_names m) 0 n = None.
Proof.
  intros Hm. unfold npf_ifmap_lookup. destruct (ifmap_find _ _ _) as [i|] eqn:E; [|done].
  apply ifmap_find_spec in E as [Hr _]. pose proof (ifmap_wf_cnt m Hm). unfold ifmap_cnt in *.
  destruct (ifmap_wf_off m Hm).
  rewrite SLOT2ID_small by (done || lia). unfold NPF_IFMAP_NOID. lia.
Qed.

Lemma substring_ge n : ∀ s, (String.length s <= n)%nat → substring 0 n s = s.
Proof.
  induction n as [|n IH]; intros [|c s] H; simpl in *; try done; [lia|]. f_equal. apply IH. lia.
Qed.

Lemma strlcpy_fits s : (String.length s < IFNAMSIZ)%nat → strlcpy s IFNAMSIZ = s.
Proof. intros H. apply substring_ge. unfold IFNAMSIZ in *. lia. Qed.

Section laws.
Context {W ifnet : Type} `{!EqDecision ifnet} {IO : npf_ifops_t W ifnet} {IL : ifops_laws W ifnet}.

(** What a successful registration establishes. *)
Lemma npf_ifmap_register_spec m (w : W) n id m' w' :
  ifmap_wf m → (String.length n < IFNAMSIZ)%nat →
  npf_ifmap_register m w n = (id, m', w') → id ≠ NPF_IFMAP_NOID →
  ifmap_wf m' ∧ npf_ifmap_lookup m' n = id ∧ ifmap_off m' = ifmap_off m ∧
  (∀ n', npf_ifmap_lookup m n' ≠ NPF_IFMAP_NOID → npf_ifmap_lookup m' n' = npf_ifmap_lookup m n').
Proof.
  intros Hm Hn. unfold npf_ifmap_register.
  destruct (npf_ifmap_lookup m n =? NPF_IFMAP_NOID) eqn:E0; bool_to_prop; simpl.
  2:{ intros [= <- <- <-] _. auto. }
  destruct (ifmap_cnt m =? NPF_MAX_IFMAP) eqn:Ec; bool_to_prop; [by intros [= <- <- <-]|].
  rewrite strlcpy_fits by done. set (m1 := mk_ifmap _ _).
  assert (ifmap_wf m1) as Hm1.
  { destruct Hm as [Hc Ho Hf]. split; unfold m1; simpl; try done.
    - unfold ifmap_cnt in *. simpl. rewrite length_app. simpl. lia.
    - apply Forall_app. auto. }
  assert (npf_ifmap_lookup m1 n = NPF_IFMAP_SLOT2ID m1 (ifmap_cnt m)) as Hl.
  { unfold npf_ifmap_lookup, m1. simpl. apply npf_ifmap_lookup_zero in E0; [|done].
    rewrite ifmap_find_app by done. by rewrite decide_True. }
  intros H Hid.
  assert (id = NPF_IFMAP_SLOT2ID m1 (ifmap_cnt m) ∧ m' = m1) as [-> ->]
    by (destruct (if_lookup w n); by injection H as <- <- <-).
  split; [done|]. split; [done|]. split; [done|]. intros n' Hn'.
  unfold npf_ifmap_lookup in *. destruct (ifmap_find (ifmap_names m) 0 n') as [i|] eqn:E; [|done].
  unfold m1. simpl. replace (ifmap_find (ifmap_names m ++ [n]) 0 n') with (Some i); [done|].
  symmetry. clear -E. revert E. generalize 0 as k. induction (ifmap_names m) as [|x l IH]; intros k; simpl; [done|].
  case_decide; [done|]. apply IH.
Qed.

(** An interface name keeps its ID: registering it again returns the same
    ID and changes nothing, the ID translates back to the name, no other name
    has it, no other registered name loses its own, and the interface of that
    name reports the ID, whether it was present at registration or is attached
    later. *)
Theorem npf_ifmap_register_stable m (w : W) n id m' w' :
  ifmap_wf m → (String.length n < IFNAMSIZ)%nat →
  npf_ifmap_register m w n = (id, m', w') → id ≠ NPF_IFMAP_NOID →
  (∀ w2, npf_ifmap_register m' w2 n = (id, m', w2)) ∧
  npf_ifmap_copyname m' id = n ∧
  (∀ n', npf_ifmap_lookup m' n' = id → n' = n) ∧
  (∀ n', npf_ifmap_lookup m n' ≠ NPF_IFMAP_NOID → npf_ifmap_lookup m' n' = npf_ifmap_lookup m n') ∧
  (∀ ifp, npf_ifmap_lookup m n = NPF_IFMAP_NOID → if_lookup w n = Some ifp →
     npf_ifmap_getid w' ifp = id) ∧
  (∀ w2 ifp, if_getname w2 ifp = n → npf_ifmap_getid (npfk_ifmap_attach m' w2 ifp) ifp = id).
Proof.
  intros Hm Hn E Hid.
  destruct (npf_ifmap_register_spec m w n id m' w' Hm Hn E Hid) as (Hm' & Hl & _ & Hold).
  assert (npf_ifmap_lookup m' n ≠ NPF_IFMAP_NOID) as Hnz by congruence.
  destruct (npf_ifmap_lookup_spec m' n Hm' Hnz) as (i & Hi & Hid' & Hlk).
  pose proof (ifmap_wf_cnt m' Hm'). destruct (ifmap_wf_off m' Hm') as [Ho1 Ho2].
  split; [|split; [|split; [|split; [done|split]]]].
  - intros w2. unfold npf_ifmap_register. by rewrite Hl, (proj2 (Z.eqb_neq _ _) Hid).
  - unfold npf_ifmap_copyname, NPF_IFMAP_ID2SLOT. rewrite <- Hl, Hid'.
    replace (ifmap_off m' + i + 1 - ifmap_off m' - 1) with i by lia.
    rewrite wrap_small by (unfold inw, NPF_MAX_IFMAP in *; lia).
    rewrite (proj2 (Z.eqb_neq _ _)) by (unfold NPF_IFMAP_NOID; lia).
    rewrite (proj2 (Z.ltb_lt _ _)) by lia. cbn [negb andb]. rewrite Hlk. simpl.
    by apply strlcpy_fits.
  - intros n' Hn'. assert (npf_ifmap_lookup m' n' ≠ NPF_IFMAP_NOID) as Hnz' by congruence.
    destruct (npf_ifmap_lookup_spec m' n' Hm' Hnz') as (j & Hj & Hjd & Hlj).
    assert (i = j) as -> by lia. congruence.
  - intros ifp H0 Hif. revert E. unfold npf_ifmap_register, npf_ifmap_getid. rewrite H0, Hif. simpl.
    case_if; [by intros [= <- _ _]|]. intros [= <- _ <-]. by rewrite getmeta_setmeta, decide_True.
  - intros w2 ifp Hname. unfold npf_ifmap_getid, npfk_ifmap_attach.
    by rewrite getmeta_setmeta, decide_True, Hname.
Qed.

(** IDs are not reused across a flush: an ID given after
    [npf_ifmap_flush] is larger than any ID that was valid before it, so a
    packet or a connection that still carries an old ID matches nothing (as
    long as the counter is not reset). *)
Theorem npf_ifmap_flush_fresh m (w : W) n n' id m1 w1 :
  ifmap_wf m → ifmap_off m + 2 * NPF_MAX_IFMAP <= UINT_MAX →
  npf_ifmap_lookup m n ≠ NPF_IFMAP_NOID → (String.length n' < IFNAMSIZ)%nat →
  npf_ifmap_register (fst (npf_ifmap_flush m w)) (snd (npf_ifmap_flush m w)) n' = (id, m1, w1) →
  id ≠ NPF_IFMAP_NOID → npf_ifmap_lookup m n < id.
Proof.
  intros Hm Hoff Hn Hn' E Hid.
  assert (fst (npf_ifmap_flush m w) = mk_ifmap [] (ifmap_off m + NPF_MAX_IFMAP)) as Hf.
  { unfold npf_ifmap_flush. simpl. destruct Hm as [_ [? ?] _].
    unfold NPF_MAX_IFMAP, UINT_MAX in *. rewrite (proj2 (Z.ltb_lt _ _)) by lia.
    rewrite wrap_small; [done|unfold inw; lia]. }
  assert (ifmap_wf (mk_ifmap [] (ifmap_off m + NPF_MAX_IFMAP))) as Hw1.
  { destruct Hm as [_ [? ?] _]. split; simpl; unfold ifmap_cnt, NPF_MAX_IFMAP in *; simpl; try lia; done. }
  rewrite Hf in E.
  destruct (npf_ifmap_register_spec _ _ _ _ _ _ Hw1 Hn' E Hid) as (Hm1 & Hl & Ho & _).
  assert (npf_ifmap_lookup m1 n' ≠ NPF_IFMAP_NOID) as Hnz by congruence.
  destruct (npf_ifmap_lookup_spec m1 n' Hm1 Hnz) as (i & Hi & Hid' & _).
  destruct (npf_ifmap_lookup_spec m n Hm Hn) as (j & Hj & -> & _).
  pose proof (ifmap_wf_cnt m Hm). simpl in Ho. lia.
Qed.

End laws.

(** ** An instance of the callbacks: interfaces in a finite map *)

Abbreviation net_world := (gmap Z (string * Z)).

#[export] Instance net_ifops : npf_ifops_t net_world Z := {|
  if_getname w i := match w !! i with Some (n, _) => n | None => ""%string end;
  if_lookup w n := fst <$> head (filter (λ e, fst (snd e) = n) (map_to_list w));
  if_flush w v := (λ e, (fst e, v)) <$> w;
  if_getmeta w i := match w !! i with Some (_, v) => v | None => 0 end;
  if_setmeta w i v := <[i := (match w !! i with Some (n, _) => n | None => ""%string end, v)]> w;
|}.

#[export] Instance net_ifops_laws : ifops_laws net_world Z.
Proof.
  split; simpl.
  - intros w i j v. case_decide as E; [subst; by rewrite lookup_insert_eq|].
    by rewrite lookup_insert_ne.
  - intros w i. rewrite lookup_fmap.
    match goal with |- context [_ <$> ?o] => by destruct o as [[n u]|] end.
  - intros w n i. match goal with |- context [head ?l] => destruct l as [|[k [n' u]] l'] eqn:E end;
      [done|]. intros [= ->].
    assert ((i, (n', u)) ∈ (i, (n', u)) :: l') as H by apply list_elem_of_here.
    rewrite <- E in H. apply list_elem_of_filter in H as [Hn H].
    apply elem_of_map_to_list in H. simpl in Hn.
    by rewrite H.
Qed.

Definition sample_world : net_world := {[ 1 := ("wm0"%string, 0); 2 := ("wm1"%string, 0) ]}.

Lemma npf_ifmap_register_stable_witness :
  ∃ m' w', npf_ifmap_register (mk_ifmap [] 0) sample_world "wm1" = (1, m', w') ∧
    npf_ifmap_getid w' 2 = 1 ∧ npf_ifmap_copyname m' 1 = "wm1"%string.
Proof.
  destruct (npf_ifmap_register (mk_ifmap [] 0) sample_world "wm1") as [[id m'] w'] eqn:E.
  assert (id = 1 ∧ npf_ifmap_getid w' 2 = 1) as [-> Hg].
  { revert E. vm_compute. intros [= <- <- <-]. split; reflexivity. }
  exists m', w'. split; [reflexivity|]. split; [exact Hg|].
  destruct (npf_ifmap_register_stable (mk_ifmap [] 0) sample_world "wm1" 1 m' w') as (_ & H & _).
  - split; simpl; unfold ifmap_cnt, NPF_MAX_IFMAP, UINT_MAX; simpl; try lia. constructor.
  - vm_compute. lia.
  - exact E.
  - discriminate.
  - exact H.
Defined.

Lemma npf_ifmap_flush_fresh_witness :
  ∃ id m1 w1, npf_ifmap_register (fst (npf_ifmap_flush (mk_ifmap ["wm0"%string] 0) sample_world))
    (snd (npf_ifmap_flush (mk_ifmap ["wm0"%string] 0) sample_world)) "wm1" = (id, m1, w1) ∧ 1 < id.
Proof.
  destruct (npf_ifmap_register (fst (npf_ifmap_flush (mk_ifmap ["wm0"%string] 0) sample_world))
    (snd (npf_ifmap_flush (mk_ifmap ["wm0"%string] 0) sample_world)) "wm1") as [[id m1] w1] eqn:E.
  exists id, m1, w1. split; [reflexivity|].
  apply (npf_ifmap_flush_fresh (mk_ifmap ["wm0"%string] 0) sample_world "wm0" "wm1" id m1 w1).
  - split; simpl; unfold ifmap_cnt, NPF_MAX_IFMAP, UINT_MAX; simpl; try lia. repeat constructor.
  - unfold NPF_MAX_IFMAP, UINT_MAX. simpl. lia.
  - vm_compute. discriminate.
  - vm_compute. lia.
  - exact E.
  - revert E. vm_compute. by intros [= <- _ _].
Defined.

End IfMap.
