(* ===== verification/ConnKey.v ===== *)
(** * ConnKey: connection keys (src/kern/npf_connkey.c)

    A key is the list of its 32-bit words: address length, protocol and the
    configurable area in word 0, the two IDs in word 1, then the addresses.
    Two IDs or addresses are pairs, source first. *)

From Stdlib Require Import String.
From stdpp Require Import strings.
From S2P Require Import Prelude Nbuf Addr Cache Rewrite IfMap.
Open Scope Z_scope.
Open Scope npf_scope.

Module ConnKey.
Export Rewrite IfMap.

Abbreviation npf_connkey_t := (list Z).

(** Word [i] of a key; the array is as long as the longest key. *)
Definition kw (k : npf_connkey_t) (i : nat) : Z := default 0 (k !! i).

Definition NPF_CONNKEY_ALEN (k : npf_connkey_t) : Z := (kw k 0 >>> 28) <<< 2.
Definition NPF_CONNKEY_LEN (k : npf_connkey_t) : Z := 8 + NPF_CONNKEY_ALEN k * 2.

Definition swap_flow {A} (flow : npf_flow_t) (p : A * A) : A * A :=
  match flow with NPF_FLOW_FORW => p | NPF_FLOW_BACK => (snd p, fst p) end.

Definition npf_connkey_setkey (alen proto : Z) (ips : npf_addr_t * npf_addr_t) (id : Z * Z)
    (flow : npf_flow_t) : npf_connkey_t * Z :=
  let '(asrc, adst) := swap_flow flow ips in
  let '(isrc, idst) := swap_flow flow id in
  let k0 := u32 ((alen >>> 2) <<< 28) ||| (proto <<< 20) in
  let k1 := (isrc <<< 16) ||| idst in
  if alen =? 4 then
    ([k0; k1; hd 0 asrc; hd 0 adst], 4 * 4)
  else
    let nwords := Z.to_nat (alen >>> 2) in
    (k0 :: k1 :: take nwords asrc ++ take nwords adst, (2 + (Z.of_nat nwords * 2)) * 4).

(** [npf_connkey_getkey]: address length, protocol, addresses, IDs. *)
Definition npf_connkey_getkey (k : npf_connkey_t) :
    Z * Z * (npf_addr_t * npf_addr_t) * (Z * Z) :=
  let alen := (kw k 0 >>> 28) <<< 2 in
  let proto := (kw k 0 >>> 16) &&& 0xff in
  let id := (kw k 1 >>> 16, kw k 1 &&& 0xffff) in
  let n := Z.to_nat (alen >>> 2) in
  (alen, proto, (take n (drop 2 k), take n (drop (2 + n) k)), id).

Definition npf_connkey_setckey (k : npf_connkey_t) (ifid di : Z) : npf_connkey_t :=
  let k := if negb (ifid =? 0) then <[0%nat := kw k 0 ||| ifid]> k else k in
  if negb (di =? 0) then <[0%nat := kw k 0 ||| u32 (di <<< 18)]> k else k.

Definition npf_connkey_getckey (k : npf_connkey_t) : Z * Z :=
  (kw k 0 &&& ((1 <<< 20) - 1), (kw k 0 >>> 18) &&& PFIL_ALL).

(** [memcpy] of [n] words to word [i] of a key. *)
Definition kcopy (k : npf_connkey_t) (i : nat) (ws : list Z) : npf_connkey_t :=
  take i k ++ ws ++ drop (i + List.length ws) k.

Definition npf_conn_adjkey (k : npf_connkey_t) (naddr : npf_addr_t) (id : Z) (which : npf_which) :
    npf_connkey_t :=
  let alen := NPF_CONNKEY_ALEN k in
  let n := Z.to_nat (alen >>> 2) in
  let k := match which with
           | NPF_SRC => kcopy k 2 (take n naddr)
           | NPF_DST => kcopy k (2 + n) (take n naddr)
           end in
  if negb (id =? 0) then
    let oid := kw k 1 in
    let shift := match which with NPF_SRC => 16 | NPF_DST => 0 end in
    let mask := 0xffff0000 >>> shift in
    <[1%nat := (id <<< shift) ||| (oid &&& mask)]> k
  else k.

Definition npf_connkey_copy (sk : npf_connkey_t) (invert : bool) : npf_connkey_t * Z :=
  let klen := NPF_CONNKEY_LEN sk in
  let n := Z.to_nat (NPF_CONNKEY_ALEN sk >>> 2) in
  if invert then
    (kw sk 1 :: ((kw sk 1 >>> 16) ||| u32 (kw sk 1 <<< 16))
       :: take n (drop (2 + n) sk) ++ take n (drop 2 sk), klen)
  else (take (Z.to_nat (klen / 4)) sk, klen).

(** The parameters of the key: use the interface, use the direction. *)
Record npf_connkey_params := mk_connkey_params {
  connkey_interface : bool;
  connkey_direction : bool;
}.

(** [icmp_id] and [icmp6_id]: bytes 4 and 5 of the ICMP header. *)
Definition icmp_id (p : list Z) (o : Z) : Z := rd16 p (o + 4).

Definition npc_addrs (npc : npf_cache_t) : npf_addr_t * npf_addr_t :=
  let n := Z.to_nat (npc_alen npc / 4) in
  (rd_words (pkt npc) (npc_src npc) n, rd_words (pkt npc) (npc_dst npc) n).

(** The IDs of the packet, or [None] where the function returns 0. *)
Definition conkey_ids (npc : npf_cache_t) : option (Z * Z) :=
  let proto := npc_proto npc in
  let o := l4ptr npc in
  if proto =? IPPROTO_TCP then Some (th_sport (pkt npc) o, th_dport (pkt npc) o)
  else if proto =? IPPROTO_UDP then Some (uh_sport (pkt npc) o, uh_dport (pkt npc) o)
  else if (proto =? IPPROTO_ICMP) || (proto =? IPPROTO_ICMPV6) then
    if npf_iscached npc NPC_ICMP_ID then Some (icmp_id (pkt npc) o, icmp_id (pkt npc) o) else None
  else None.

(** [npf_conn_conkey]: the key and its length; [None] is the result 0. *)
Definition npf_conn_conkey (params : npf_connkey_params) (npc : npf_cache_t) (di : Z)
    (flow : npf_flow_t) : option (npf_connkey_t * Z) :=
  match npc_ckey npc with
  | Some ck => Some (npf_connkey_copy ck (bool_decide (flow ≠ NPF_FLOW_FORW)))
  | None =>
      match conkey_ids npc with
      | None => None
      | Some id =>
          let '(key, ret) := npf_connkey_setkey (npc_alen npc) (npc_proto npc) (npc_addrs npc) id flow in
          Some (npf_connkey_setckey key
                  (if connkey_interface params then nb_ifid (npc_nbuf npc) else 0)
                  (if connkey_direction params then di &&& PFIL_ALL else 0), ret)
      end
  end.

(** ** Export and import *)

(** The serialised key ([nvlist]); absent members are [None]. *)
Record key_nv := mk_key_nv {
  nv_proto : Z; nv_sport : Z; nv_dport : Z;
  nv_saddr : npf_addr_t; nv_daddr : npf_addr_t; nv_alen : Z * Z;
  nv_ifname : option string; nv_di : option Z;
}.

Definition npf_connkey_export (m : ifmap_t) (k : npf_connkey_t) : key_nv :=
  let '(alen, proto, ips, ids) := npf_connkey_getkey k in
  let '(ifid, di) := npf_connkey_getckey k in
  mk_key_nv proto (fst ids) (snd ids) (fst ips) (snd ips) (alen, alen)
    (if negb (ifid =? 0) then Some (npf_ifmap_copyname m ifid) else None)
    (if negb (di =? 0) then Some di else None).

Definition IPPROTO_MAX : Z := 256.

Section import.
Context {W ifnet : Type} {IO : npf_ifops_t W ifnet}.

(** The key and its length ([None] is the result 0), and the interface map. *)
Definition npf_connkey_import (m : ifmap_t) (w : W) (nv : key_nv) :
    option (npf_connkey_t * Z) * ifmap_t * W :=
  if IPPROTO_MAX <=? nv_proto nv then (None, m, w) else
  let ids := (u16 (nv_sport nv), u16 (nv_dport nv)) in
  let '(alen1, alen2) := nv_alen nv in
  if (alen1 =? 0) || (16 <? alen1) || negb (alen1 =? alen2) then (None, m, w) else
  let '(key, ret) := npf_connkey_setkey alen1 (nv_proto nv) (nv_saddr nv, nv_daddr nv) ids NPF_FLOW_FORW in
  if ret =? 0 then (None, m, w) else
  let di := default 0 (nv_di nv) &&& PFIL_ALL in
  match nv_ifname nv with
  | None => (Some (npf_connkey_setckey key 0 di, ret), m, w)
  | Some ifname =>
      let '(ifid, m, w) := npf_ifmap_register m w ifname in
      if ifid =? 0 then (None, m, w)
      else (Some (npf_connkey_setckey key ifid di, ret), m, w)
  end.

End import.

(** ** The layout of a key *)

(** The tuple a key stands for. *)
Record conn_tuple := mk_tuple {
  tp_alen : Z; tp_proto : Z;
  tp_ips : npf_addr_t * npf_addr_t; tp_ids : Z * Z;
  tp_ifid : Z; tp_di : Z;
}.

Record tuple_wf (t : conn_tuple) : Prop := {
  tw_alen : alen_ok (tp_alen t);
  tw_proto : 0 <= tp_proto t < 256;
  tw_src : addr_wf (nwords (tp_alen t)) (fst (tp_ips t));
  tw_dst : addr_wf (nwords (tp_alen t)) (snd (tp_ips t));
  tw_isrc : inw 16 (fst (tp_ids t));
  tw_idst : inw 16 (snd (tp_ids t));
  tw_ifid : 0 <= tp_ifid t < 2 ^ 18;
  tw_di : 0 <= tp_di t < 4;
}.

(** The reply to a connection's packet. *)
Definition tuple_swap (t : conn_tuple) : conn_tuple :=
  mk_tuple (tp_alen t) (tp_proto t) (snd (tp_ips t), fst (tp_ips t)) (snd (tp_ids t), fst (tp_ids t))
    (tp_ifid t) (tp_di t).

(** The key the code builds for a tuple and a flow. *)
Definition tuple_key (t : conn_tuple) (flow : npf_flow_t) : npf_connkey_t :=
  npf_connkey_setckey
    (fst (npf_connkey_setkey (tp_alen t) (tp_proto t) (tp_ips t) (tp_ids t) flow)) (tp_ifid t) (tp_di t).

Lemma tuple_swap_wf t : tuple_wf t → tuple_wf (tuple_swap t).
Proof. by intros []. Qed.

Lemma tuple_key_back t : tuple_key t NPF_FLOW_BACK = tuple_key (tuple_swap t) NPF_FLOW_FORW.
Proof. by destruct t as [? ? [? ?] [? ?] ? ?]. Qed.

(** Word 0 as a sum of its fields. *)
Definition key_word0 (t : conn_tuple) : Z :=
  tp_alen t / 4 * 2 ^ 28 + tp_proto t * 2 ^ 20 + tp_di t * 2 ^ 18 + tp_ifid t.

Lemma lor_add a b n : inw n b → 0 <= n → (∃ q, a = q * 2 ^ n) → a ||| b = a + b.
Proof.
  intros Hb Hn [q ->]. rewrite <- (Z.shiftl_mul_pow2 q n) by done.
  rewrite lor_add_disjoint by done. by rewrite Z.shiftl_mul_pow2.
Qed.

Lemma setkey_word0 alen proto : alen_ok alen → 0 <= proto < 256 →
  u32 ((alen >>> 2) <<< 28) ||| (proto <<< 20) = alen / 4 * 2 ^ 28 + proto * 2 ^ 20.
Proof.
  intros Ha Hp. rewrite (Z.shiftl_mul_pow2 proto), Z.shiftr_div_pow2, Z.shiftl_mul_pow2 by lia.
  change (2 ^ 2) with 4.
  assert (0 <= alen / 4 <= 4) by (destruct Ha as [-> | ->]; done).
  rewrite wrap_small by (unfold inw; lia).
  rewrite (lor_add _ _ 28); [done|unfold inw; lia|lia|by eexists].
Qed.

(** The code's key, written out. *)
Lemma tuple_key_forw t : tuple_wf t →
  tuple_key t NPF_FLOW_FORW
    = key_word0 t :: (fst (tp_ids t) * 65536 + snd (tp_ids t)) :: fst (tp_ips t) ++ snd (tp_ips t).
Proof.
  intros [Ha Hp Hs Hd Hi Hj Hif Hdi]. unfold tuple_key, npf_connkey_setkey, key_word0.
  destruct t as [alen proto [a b] [i j] ifid di]. cbn [tp_alen tp_proto tp_ips tp_ids tp_ifid tp_di fst snd swap_flow] in *.
  rewrite setkey_word0 by done.
  assert ((i <<< 16) ||| j = i * 65536 + j) as Hw1 by (by rewrite lor_add_disjoint).
  rewrite Hw1.
  assert (∀ l, npf_connkey_setckey ((alen / 4 * 2 ^ 28 + proto * 2 ^ 20) :: l) ifid di
    = (alen / 4 * 2 ^ 28 + proto * 2 ^ 20 + di * 2 ^ 18 + ifid) :: l) as Hck.
  { intros l. unfold npf_connkey_setckey.
    assert (0 <= alen / 4 <= 4) by (destruct Ha as [-> | ->]; done).
    set (x := alen / 4 * 2 ^ 28 + proto * 2 ^ 20).
    assert (x = (alen / 4 * 2 ^ 8 + proto) * 2 ^ 20) as Hx by (unfold x; lia).
    assert ((if negb (ifid =? 0) then <[0%nat := kw (x :: l) 0 ||| ifid]> (x :: l) else x :: l)
      = (x + ifid) :: l) as ->.
    { destruct (ifid =? 0) eqn:E; bool_to_prop; simpl; [by rewrite E, Z.add_0_r|].
      unfold kw. simpl. f_equal. apply (lor_add _ _ 20); [unfold inw; lia|lia|by eexists]. }
    destruct (di =? 0) eqn:E; bool_to_prop; simpl; [subst di; f_equal; lia|].
    rewrite wrap_small by (unfold inw; rewrite Z.shiftl_mul_pow2; lia).
    rewrite (Z.shiftl_mul_pow2 di) by lia. unfold kw. simpl. f_equal.
    replace (x + di * 2 ^ 18 + ifid) with (x + (di * 2 ^ 18 + ifid)) by lia.
    rewrite <- (lor_add x (di * 2 ^ 18 + ifid) 20); [|unfold inw; lia|lia|by eexists].
    rewrite <- (lor_add x ifid 20); [|unfold inw; lia|lia|by eexists].
    rewrite <- (lor_add (di * 2 ^ 18) ifid 18); [|unfold inw; lia|lia|by eexists].
    rewrite <- Z.lor_assoc. f_equal. apply Z.lor_comm. }
  destruct Hs as [Hls _], Hd as [Hld _].
  destruct Ha as [-> | ->]; simpl.
  - destruct a as [|x [|]], b as [|y [|]]; try done.
  - change (nwords 16) with 4%nat in *. change (Z.to_nat (16 >>> 2)) with 4%nat.
    rewrite !take_ge by lia. by rewrite Hck.
Qed.

(** A key determines its connection tuple: two packets get the same key
    only if address family, protocol, both addresses, both ports (or IDs) and
    the configured interface and direction are all equal; and a packet's
    forward key equals another one's backward key exactly when the one is a
    reply to the other. *)
Theorem tuple_key_injective t t' :
  tuple_wf t → tuple_wf t' →
  (tuple_key t NPF_FLOW_FORW = tuple_key t' NPF_FLOW_FORW ↔ t = t') ∧
  (tuple_key t NPF_FLOW_FORW = tuple_key t' NPF_FLOW_BACK ↔ t = tuple_swap t').
Proof.
  intros Ht Ht'.
  assert (∀ u v, tuple_wf u → tuple_wf v → tuple_key u NPF_FLOW_FORW = tuple_key v NPF_FLOW_FORW → u = v)
    as Hinj; [|split; [split; [auto|by intros ->]|]].
  { intros u v Hu Hv. rewrite !tuple_key_forw by done. intros [= H0 H1 H2].
    destruct Hu as [Ha Hp [Hs _] [Hd _] Hi Hj Hif Hdi], Hv as [Ha' Hp' [Hs' _] [Hd' _] Hi' Hj' Hif' Hdi'].
    destruct u as [alen proto [a b] [i j] ifid di], v as [alen' proto' [a' b'] [i' j'] ifid' di'].
    unfold key_word0, inw in *. cbn [tp_alen tp_proto tp_ips tp_ids tp_ifid tp_di fst snd] in *.
    assert (alen / 4 = alen' / 4 ∧ proto = proto' ∧ di = di' ∧ ifid = ifid') as (E1 & -> & -> & ->) by lia.
    assert (alen = alen') as -> by (destruct Ha as [-> | ->], Ha' as [-> | ->]; done).
    assert (i = i' ∧ j = j') as [-> ->] by lia.
    apply app_inj_1 in H2 as [-> ->]; [done|congruence]. }
  rewrite tuple_key_back. split; [intros H; apply Hinj; auto using tuple_swap_wf|by intros ->].
Qed.

(** ** Adjusting a key for translation *)

Definition tuple_adjust (t : conn_tuple) (naddr : npf_addr_t) (id : Z) (which : npf_which) : conn_tuple :=
  let '(a, b) := tp_ips t in
  let '(i, j) := tp_ids t in
  match which with
  | NPF_SRC => mk_tuple (tp_alen t) (tp_proto t) (naddr, b) (if id =? 0 then i else id, j) (tp_ifid t) (tp_di t)
  | NPF_DST => mk_tuple (tp_alen t) (tp_proto t) (a, naddr) (i, if id =? 0 then j else id) (tp_ifid t) (tp_di t)
  end.

Lemma tuple_key_alen t : tuple_wf t →
  NPF_CONNKEY_ALEN (tuple_key t NPF_FLOW_FORW) = tp_alen t ∧
  Z.to_nat (tp_alen t >>> 2) = nwords (tp_alen t).
Proof.
  intros Ht. rewrite tuple_key_forw by done. destruct Ht as [Ha Hp _ _ _ _ Hif Hdi].
  split; [|by apply nwords_alen]. unfold NPF_CONNKEY_ALEN, kw, key_word0. simpl.
  rewrite Z.shiftl_mul_pow2, Z.shiftr_div_pow2 by lia.
  assert ((tp_alen t / 4 * 2 ^ 28 + tp_proto t * 2 ^ 20 + tp_di t * 2 ^ 18 + tp_ifid t) / 2 ^ 28
    = tp_alen t / 4) as ->.
  { symmetry. apply (Z.div_unique_pos _ _ _ (tp_proto t * 2 ^ 20 + tp_di t * 2 ^ 18 + tp_ifid t)); lia. }
  by destruct Ha as [-> | ->].
Qed.

Lemma npf_conn_adjkey_spec t naddr id which :
  tuple_wf t → addr_wf (nwords (tp_alen t)) naddr → inw 16 id →
  npf_conn_adjkey (tuple_key t NPF_FLOW_FORW) naddr id which
    = tuple_key (tuple_adjust t naddr id which) NPF_FLOW_FORW.
Proof.
  intros Ht Hn Hid. destruct (tuple_key_alen t Ht) as [Hal Hnw].
  assert (tuple_wf (tuple_adjust t naddr id which)) as Ht'.
  { destruct Ht, t as [? ? [? ?] [? ?] ? ?], which; split; simpl in *; auto; by case_if. }
  unfold npf_conn_adjkey. rewrite Hal, Hnw, !tuple_key_forw by done.
  destruct Ht as [Ha Hp [Hls _] [Hld _] Hi Hj Hif Hdi], Hn as [Hln _].
  destruct t as [alen proto [a b] [i j] ifid di]. unfold kcopy, kw, key_word0, inw in *.
  cbn [tp_alen tp_proto tp_ips tp_ids tp_ifid tp_di fst snd tuple_adjust] in *.
  rewrite (take_ge naddr) by lia.
  assert ((i * 65536 + j) &&& (0xffff0000 >>> 16) = j) as Hm1.
  { change (0xffff0000 >>> 16) with 0xffff. rewrite land_ffff, Z.add_comm, Z.mod_add, Z.mod_small by lia. done. }
  assert ((i * 65536 + j) &&& (0xffff0000 >>> 0) = i * 65536) as Hm2.
  { change (i * 65536 + j) with (i * 2 ^ 16 + j). rewrite <- (lor_add_disjoint i j 16) by (unfold inw; lia).
    rewrite Z.shiftr_0_r, Z.land_lor_distr_l. change 0xffff0000 with (0xffff <<< 16).
    rewrite <- Z.shiftl_land, land_ffff, Z.mod_small by lia.
    replace (j &&& (0xffff <<< 16)) with 0; [rewrite Z.lor_0_r, Z.shiftl_mul_pow2; lia|].
    apply Z.bits_inj'. intros n Hn'. rewrite Z.land_spec, Z.bits_0.
    destruct (Z.lt_ge_cases n 16); [rewrite Z.shiftl_spec_low by done; by rewrite andb_false_r|].
    by rewrite (testbit_inw 16 j) by (unfold inw; lia). }
  destruct which; simpl.
  - rewrite drop_app_length' by congruence. destruct (id =? 0); simpl; [done|].
    rewrite Hm1. do 2 f_equal. by rewrite lor_add_disjoint by (unfold inw; lia).
  - rewrite (take_app_length' a) by congruence.
    replace (drop (nwords alen + List.length naddr) (a ++ b)) with (@nil Z)
      by (symmetry; apply drop_ge; rewrite length_app; lia).
    rewrite app_nil_r. destruct (id =? 0); simpl; [done|]. rewrite Hm2. do 2 f_equal.
    rewrite Z.shiftl_0_r, Z.lor_comm. apply (lor_add _ _ 16); [done|lia|]. by exists i.
Qed.

(** [npf_conn_adjkey] on a connection's key gives the key of the
    translated connection: the selected address replaced, and the port too
    unless it is 0; everything else is kept. *)
Theorem npf_conn_adjkey_tuple t naddr id which :
  tuple_wf t → addr_wf (nwords (tp_alen t)) naddr → inw 16 id →
  npf_conn_adjkey (tuple_key t NPF_FLOW_FORW) naddr id which
    = tuple_key (tuple_adjust t naddr id which) NPF_FLOW_FORW.
Proof. apply npf_conn_adjkey_spec. Qed.

(** ** Reading a key back *)

Lemma key_word0_slice t n m : tuple_wf t → 0 <= n → 0 <= m →
  (kw (tuple_key t NPF_FLOW_FORW) 0 >>> n) &&& (2 ^ m - 1) = key_word0 t / 2 ^ n mod 2 ^ m.
Proof.
  intros Ht Hn Hm. rewrite tuple_key_forw by done. unfold kw. simpl.
  by rewrite Z.shiftr_div_pow2, land_ones_mod by done.
Qed.

(** Reading a key back.  [npf_connkey_getkey] recovers the address length,
    the addresses and the IDs; the protocol it reports is cut from bit 16,
    four bits below the field, so it is the low protocol bits with the
    direction and the high bits of the interface ID.  [npf_connkey_getckey]
    recovers the direction, and reports the interface ID with the direction
    bits still in it. *)
Theorem npf_connkey_getkey_tuple t :
  tuple_wf t →
  npf_connkey_getkey (tuple_key t NPF_FLOW_FORW)
    = (tp_alen t, (tp_proto t * 16 + tp_di t * 4 + tp_ifid t / 2 ^ 16) mod 256, tp_ips t, tp_ids t) ∧
  npf_connkey_getckey (tuple_key t NPF_FLOW_FORW) = (tp_ifid t + tp_di t * 2 ^ 18, tp_di t).
Proof.
  intros Ht. destruct (tuple_key_alen t Ht) as [Hal Hnw]. unfold NPF_CONNKEY_ALEN in Hal.
  unfold npf_connkey_getkey, npf_connkey_getckey. rewrite Hal, Hnw.
  change 0xff with (2 ^ 8 - 1). change PFIL_ALL with (2 ^ 2 - 1).
  change ((1 <<< 20) - 1) with (2 ^ 20 - 1).
  rewrite <- (Z.shiftr_0_r (kw _ 0 )) at 2. rewrite !key_word0_slice by done || lia.
  rewrite !tuple_key_forw by done. unfold kw. simpl.
  destruct Ht as [Ha Hp [Hls _] [Hld _] Hi Hj Hif Hdi].
  destruct t as [alen proto [a b] [i j] ifid di]. unfold key_word0, inw in *.
  cbn [tp_alen tp_proto tp_ips tp_ids tp_ifid tp_di fst snd] in *.
  rewrite land_ffff, shiftr_16.
  assert (0 <= alen / 4 <= 4) by (destruct Ha as [-> | ->]; done).
  rewrite drop_0, take_app_length' by congruence.
  rewrite drop_app_length' by congruence. rewrite take_ge by lia.
  assert (alen mod 4 = 0) by (destruct Ha as [-> | ->]; done).
  generalize dependent (alen / 4). intros q Hq.
  change (2 ^ 28) with 268435456. change (2 ^ 20) with 1048576. change (2 ^ 18) with 262144 in *.
  change (2 ^ 16) with 65536 in *. change (2 ^ 8) with 256. change (2 ^ 0) with 1. change (2 ^ 2) with 4.
  rewrite !pair_equal_spec. split_and!; try done; Z.to_euclidean_division_equations; lia.
Qed.

(** ** Witnesses and cases *)

(** A TCP connection 192.168.1.77:1234 - 10.1.2.3:80 on interface 3, inbound. *)
Definition sample_tuple : conn_tuple :=
  mk_tuple 4 IPPROTO_TCP (ip_192_168_1_77, ip_10_1_2_3) (htons 1234, htons 80) 3 PFIL_IN.

Lemma sample_tuple_wf : tuple_wf sample_tuple.
Proof. split; try done; try (by left); addr_wf_concrete. Qed.

Lemma tuple_key_injective_witness :
  tuple_wf sample_tuple ∧
  tuple_key sample_tuple NPF_FLOW_FORW = tuple_key (tuple_swap sample_tuple) NPF_FLOW_BACK.
Proof.
  split; [exact sample_tuple_wf|].
  by apply (tuple_key_injective sample_tuple (tuple_swap sample_tuple) sample_tuple_wf
    (tuple_swap_wf _ sample_tuple_wf)).
Defined.

Lemma npf_conn_adjkey_tuple_witness :
  npf_conn_adjkey (tuple_key sample_tuple NPF_FLOW_FORW) [0x01010a0a] (htons 5000) NPF_SRC
    = tuple_key (mk_tuple 4 IPPROTO_TCP ([0x01010a0a], ip_10_1_2_3) (htons 5000, htons 80) 3 PFIL_IN)
        NPF_FLOW_FORW.
Proof.
  apply (npf_conn_adjkey_tuple sample_tuple [0x01010a0a] (htons 5000) NPF_SRC sample_tuple_wf).
  - addr_wf_concrete.
  - done.
Defined.

Lemma npf_connkey_getkey_tuple_witness :
  npf_connkey_getkey (tuple_key sample_tuple NPF_FLOW_FORW)
    = (4, 100, (ip_192_168_1_77, ip_10_1_2_3), (htons 1234, htons 80)).
Proof. apply (npf_connkey_getkey_tuple sample_tuple sample_tuple_wf). Defined.

(** A key exported and imported again is another key: the protocol 6 comes
    back as 96. *)
Theorem npf_connkey_export_import_tcp :
  let k := tuple_key (mk_tuple 4 IPPROTO_TCP (ip_192_168_1_77, ip_10_1_2_3) (htons 1234, htons 80) 0 0)
             NPF_FLOW_FORW in
  let nv := npf_connkey_export (mk_ifmap [] 0) k in
  nv_proto nv = 96 ∧
  fst <$> fst (fst (npf_connkey_import (mk_ifmap [] 0) sample_world nv)) ≠ Some k.
Proof. split; [done|]. vm_compute. congruence. Qed.

(** The overriding key of an ALG, inverted: word 0 receives the IDs instead of
    the protocol and length word, so it is not the backwards key. *)
Theorem npf_connkey_copy_invert_word0 :
  fst (npf_connkey_copy (tuple_key sample_tuple NPF_FLOW_FORW) true)
    ≠ tuple_key sample_tuple NPF_FLOW_BACK ∧
  drop 1 (fst (npf_connkey_copy (tuple_key sample_tuple NPF_FLOW_FORW) true))
    = drop 1 (tuple_key sample_tuple NPF_FLOW_BACK).
Proof. split; [vm_compute; congruence|done]. Qed.

(** An interface ID beyond 18 bits (4096 configuration reloads with 64
    interfaces) runs into the direction field. *)
Theorem npf_connkey_ifid_overflow :
  npf_connkey_setckey [0; 0; 0; 0] (2 ^ 18 + 1) 0 = npf_connkey_setckey [0; 0; 0; 0] 1 PFIL_IN.
Proof. done. Qed.

End ConnKey.
