(* ===== verification/Thmap.v ===== *)
(** * Thmap: the concurrent trie-hash map the program links against

    [thmap] is a library of its own; the program calls [thmap_create],
    [thmap_get], [thmap_put] and [thmap_del] with keys that are byte strings.
    The class [thmap_ops] names those operations and [thmap_laws] states the
    documented behaviour the callers rely on; the components are verified
    against the class.  [gmap_thmap] is a concrete instance. *)

From S2P Require Import Prelude.
Open Scope Z_scope.
Open Scope npf_scope.

Module Thmap.

(** Keys are word (or byte) sequences. *)
Abbreviation thmap_key := (list Z).

Class thmap_ops (V M : Type) := {
  thmap_create : M;
  thmap_get : M → thmap_key → option V;
  (** The value now associated with the key, [None] when out of memory. *)
  thmap_put : M → thmap_key → V → option V * M;
  thmap_del : M → thmap_key → option V * M;
}.

(** [thmap_put] never replaces: it returns the value already there. *)
Class thmap_laws (V M : Type) `{thmap_ops V M} := {
  thmap_get_create : ∀ k, thmap_get (V := V) thmap_create k = None;
  thmap_put_exists : ∀ m k v w, thmap_get m k = Some w → thmap_put m k v = (Some w, m);
  thmap_put_new : ∀ m k v r m', thmap_get m k = None → thmap_put m k v = (r, m') →
    (r = Some v ∧ ∀ k', thmap_get m' k' = if decide (k' = k) then Some v else thmap_get m k') ∨
    (r = None ∧ m' = m);
  thmap_del_get : ∀ m k,
    fst (thmap_del m k) = thmap_get m k ∧
    ∀ k', thmap_get (snd (thmap_del m k)) k' = if decide (k' = k) then None else thmap_get m k';
}.

#[global] Instance gmap_thmap V : thmap_ops V (gmap thmap_key V) := {
  thmap_create := ∅;
  thmap_get m k := m !! k;
  thmap_put m k v := match m !! k with Some w => (Some w, m) | None => (Some v, <[k := v]> m) end;
  thmap_del m k := (m !! k, delete k m);
}.

#[global] Instance gmap_thmap_laws V : thmap_laws V (gmap thmap_key V).
Proof.
  split; simpl.
  - done.
  - intros m k v w ->. done.
  - intros m k v r m' ->. intros [= <- <-]. left. split; [done|]. intros k'.
    destruct (decide (k' = k)) as [->|]; [by rewrite lookup_insert_eq|by rewrite lookup_insert_ne].
  - intros m k. split; [done|]. intros k'.
    destruct (decide (k' = k)) as [->|]; [by rewrite lookup_delete_eq|by rewrite lookup_delete_ne].
Qed.

End Thmap.
