(* ===== verification/Portmap.v ===== *)
(** * Portmap: the NAT port map (src/kern/npf_portmap.c)

    For each address a two-level bitmap of 65536 ports.  Level 0 has 64 words:
    a word packs up to five 10-bit values (each plus one) in 12-bit fields, or
    is a tagged pointer to a level 1 block of 16 plain words.  A level 1 block
    is referenced by one level 0 word only and is never replaced while the map
    is in use, so the tagged pointer is the constructor [L0_l1] with the block.

    [bitmap_set] and [bitmap_clr] are lock-free.  They are modelled as state
    machines that do one access to shared memory per step; a run of one machine
    alone is the sequential operation, and [bm_sys] interleaves many. *)

From S2P Require Import Prelude Addr Thmap.
Open Scope Z_scope.
Open Scope npf_scope.

Module Portmap.
Export Addr Thmap.

Definition PORTMAP_MAX_BITS : Z := 65536.
Definition PORTMAP_L0_SHIFT : Z := 10.
Definition PORTMAP_L0_MASK : Z := (1 <<< PORTMAP_L0_SHIFT) - 1.
Definition PORTMAP_L0_WORDS : Z := PORTMAP_MAX_BITS >>> PORTMAP_L0_SHIFT.
Definition PORTMAP_L1_SHIFT : Z := 6.
Definition PORTMAP_L1_MASK : Z := (1 <<< PORTMAP_L1_SHIFT) - 1.
Definition PORTMAP_L1_WORDS : Z := (PORTMAP_MAX_BITS / PORTMAP_L0_WORDS) >>> PORTMAP_L1_SHIFT.

Definition NPF_PORTMAP_MINPORT : Z := 1024.
Definition NPF_PORTMAP_MAXPORT : Z := 65535.

(** ** Packed words *)

Definition bitmap_word_isset (x bit : Z) : bool :=
  let bit := u32 (bit + 1) in
  let m := (x >>> 4) ^^^ u64 (0x1001001001001 * bit) in
  let r := u64 (m - 0x1001001001001) &&& (u64 (Z.lnot m) &&& 0x800800800800800) in
  negb (r =? 0).

Definition bitmap_word_cax (x exp bit : Z) : Z :=
  let e := u32 (exp + 1) in
  let bit := bit + 1 in
  if (x >>> 52) &&& 0xfff =? e then x ^^^ (bit <<< 52)
  else if (x >>> 40) &&& 0xfff =? e then x ^^^ (bit <<< 40)
  else if (x >>> 28) &&& 0xfff =? e then x ^^^ (bit <<< 28)
  else if (x >>> 16) &&& 0xfff =? e then x ^^^ (bit <<< 16)
  else if (x >>> 4) &&& 0xfff =? e then x ^^^ (bit <<< 4)
  else 0.

(** The shifts of the five fields, most significant first. *)
Definition fld_shifts : list Z := [52; 40; 28; 16; 4].
Definition fld (x s : Z) : Z := (x >>> s) &&& 0xfff.

(** [bitvals[0 .. n)]. *)
Definition bitmap_word_unpack (x : Z) : list Z :=
  (λ s, fld x s - 1) <$> filter (λ s, fld x s ≠ 0) fld_shifts.

(** ** The bitmap *)

Inductive l0word :=
| L0_packed (x : Z)
| L0_l1 (bits1 : list Z).

Record bitmap_t := mk_bitmap {
  bm_addr : npf_addr_t;
  bm_addr_len : Z;
  bits0 : list l0word;
}.

Definition l0_idx (bit : Z) : nat := Z.to_nat (bit >>> PORTMAP_L0_SHIFT).
Definition l0_bit (bit : Z) : Z := bit &&& PORTMAP_L0_MASK.
Definition l1_idx (cb : Z) : nat := Z.to_nat (cb >>> PORTMAP_L1_SHIFT).
Definition l1_bit (cb : Z) : Z := 1 <<< (cb &&& PORTMAP_L1_MASK).

(** [atomic_cas_64] on a level 0 word with an untagged expected value, and on
    a word of the level 1 block of a level 0 word. *)
Definition cas0 (bits : list l0word) (i : nat) (bval : Z) (new : l0word) : bool * list l0word :=
  match bits !! i with
  | Some (L0_packed x) => if x =? bval then (true, <[i := new]> bits) else (false, bits)
  | _ => (false, bits)
  end.

Definition cas1 (bits : list l0word) (i j : nat) (oval nval : Z) : bool * list l0word :=
  match bits !! i with
  | Some (L0_l1 b1) =>
      if default 0 (b1 !! j) =? oval then (true, <[i := L0_l1 (<[j := nval]> b1)]> bits) else (false, bits)
  | _ => (false, bits)
  end.

(** The level 1 block made of a full packed word. *)
Definition l1_set (b1 : list Z) (v : Z) : list Z :=
  <[l1_idx v := default 0 (b1 !! l1_idx v) ||| l1_bit v]> b1.
Definition l1_unpack (bval : Z) : list Z :=
  fold_left l1_set (rev (bitmap_word_unpack bval)) (replicate (Z.to_nat PORTMAP_L1_WORDS) 0).

(** Where a running [bitmap_set] or [bitmap_clr] is: at [again], before the
    CAS of level 0, before the CAS that installs level 1, before the load of
    level 1, before the CAS of level 1, or returned. *)
Inductive bm_pc :=
| PC_again
| PC_cas0 (bval nval : Z)
| PC_casl1 (bval : Z) (bm1 : list Z)
| PC_l1
| PC_cas1 (oval nval : Z)
| PC_done (ret : bool).

(** One step of [bitmap_set]; [alloc] tells whether the allocation of a level
    1 block succeeds. *)
Definition bitmap_set_step (bit : Z) (alloc : bool) (pc : bm_pc) (bits : list l0word) :
    bm_pc * list l0word :=
  let i := l0_idx bit in
  let chunk_bit := l0_bit bit in
  let j := l1_idx chunk_bit in
  let b := l1_bit chunk_bit in
  match pc with
  | PC_again =>
      match bits !! i with
      | Some (L0_packed bval) =>
          if bitmap_word_isset bval chunk_bit then (PC_done false, bits) else
          let nval := bitmap_word_cax bval (-1) chunk_bit in
          if negb (nval =? 0) then (PC_cas0 bval nval, bits)
          else if alloc then (PC_casl1 bval (l1_unpack bval), bits)
          else (PC_done false, bits)
      | _ => (PC_l1, bits)
      end
  | PC_cas0 bval nval =>
      let '(ok, bits) := cas0 bits i bval (L0_packed nval) in
      (if ok then PC_done true else PC_again, bits)
  | PC_casl1 bval bm1 =>
      let '(ok, bits) := cas0 bits i bval (L0_l1 bm1) in
      (if ok then PC_l1 else PC_again, bits)
  | PC_l1 =>
      match bits !! i with
      | Some (L0_l1 bm1) =>
          let oval := default 0 (bm1 !! j) in
          if flag oval b then (PC_done false, bits) else (PC_cas1 oval (oval ||| b), bits)
      | _ => (PC_l1, bits)
      end
  | PC_cas1 oval nval =>
      let '(ok, bits) := cas1 bits i j oval nval in
      (if ok then PC_done true else PC_again, bits)
  | PC_done ret => (PC_done ret, bits)
  end.

Definition bitmap_clr_step (bit : Z) (pc : bm_pc) (bits : list l0word) : bm_pc * list l0word :=
  let i := l0_idx bit in
  let chunk_bit := l0_bit bit in
  let j := l1_idx chunk_bit in
  let b := l1_bit chunk_bit in
  match pc with
  | PC_again =>
      match bits !! i with
      | Some (L0_packed bval) =>
          if negb (bitmap_word_isset bval chunk_bit) then (PC_done false, bits)
          else (PC_cas0 bval (bitmap_word_cax bval chunk_bit chunk_bit), bits)
      | _ => (PC_l1, bits)
      end
  | PC_cas0 bval nval =>
      let '(ok, bits) := cas0 bits i bval (L0_packed nval) in
      (if ok then PC_done true else PC_again, bits)
  | PC_l1 =>
      match bits !! i with
      | Some (L0_l1 bm1) =>
          let oval := default 0 (bm1 !! j) in
          if negb (flag oval b) then (PC_done false, bits)
          else (PC_cas1 oval (oval &&& u64 (Z.lnot b)), bits)
      | _ => (PC_l1, bits)
      end
  | PC_cas1 oval nval =>
      let '(ok, bits) := cas1 bits i j oval nval in
      (if ok then PC_done true else PC_again, bits)
  | pc => (pc, bits)
  end.

(** Run a machine alone; [None] when it has not returned. *)
Fixpoint bm_run (step : bm_pc → list l0word → bm_pc * list l0word) (fuel : nat) (pc : bm_pc)
    (bits : list l0word) : option (bool * list l0word) :=
  match pc, fuel with
  | PC_done ret, _ => Some (ret, bits)
  | _, O => None
  | _, S fuel => let '(pc, bits) := step pc bits in bm_run step fuel pc bits
  end.

(** Undisturbed, four steps are enough ([bitmap_set_spec]). *)
Definition bitmap_set (alloc : bool) (bits : list l0word) (bit : Z) : option (bool * list l0word) :=
  bm_run (bitmap_set_step bit alloc) 4 PC_again bits.
Definition bitmap_clr (bits : list l0word) (bit : Z) : option (bool * list l0word) :=
  bm_run (bitmap_clr_step bit) 4 PC_again bits.

(** ** The packed word is a set of at most five values *)

Definition word_mem (w : l0word) (cb : Z) : bool :=
  match w with
  | L0_packed x => existsb (λ s, fld x s =? cb + 1) fld_shifts
  | L0_l1 b1 => flag (default 0 (b1 !! l1_idx cb)) (l1_bit cb)
  end.

Record packed_wf (x : Z) : Prop := {
  pw_range : inw 64 x;
  pw_fld : ∀ s, s ∈ fld_shifts → fld x s <= 1024;
  pw_nodup : ∀ s s', s ∈ fld_shifts → s' ∈ fld_shifts → s ≠ s' → fld x s = fld x s' → fld x s = 0;
}.

Lemma fld_lxor x y s : fld (x ^^^ y) s = fld x s ^^^ fld y s.
Proof.
  unfold fld. apply Z.bits_inj'. intros i Hi.
  rewrite Z.land_spec, Z.shiftr_lxor, !Z.lxor_spec, !Z.land_spec.
  by destruct (Z.testbit 0xfff i), (Z.testbit (x >>> s) i), (Z.testbit (y >>> s) i).
Qed.

Lemma fld_div x s : 0 <= s → fld x s = x / 2 ^ s mod 4096.
Proof.
  intros Hs. unfold fld. rewrite Z.shiftr_div_pow2 by done.
  change 0xfff with (2 ^ 12 - 1). by rewrite land_ones_mod.
Qed.

Lemma fld_range x s : 0 <= s → 0 <= fld x s < 4096.
Proof. intros. rewrite fld_div by done. by apply Z.mod_pos_bound. Qed.

Lemma fld_shifted b s t : s ∈ fld_shifts → t ∈ fld_shifts → 0 <= b < 4096 →
  fld (b <<< s) t = if decide (s = t) then b else 0.
Proof.
  unfold fld_shifts. rewrite !elem_of_cons, !elem_of_nil. intros Hs Ht Hb.
  rewrite fld_div, Z.shiftl_mul_pow2 by lia.
  destruct_or!; try done; subst; simpl;
    Z.to_euclidean_division_equations; lia.
Qed.

(** The five-field form of a 60-bit number. *)
Lemma fields_sum m : 0 <= m < 2 ^ 60 →
  m = m mod 4096 + 4096 * (m / 2 ^ 12 mod 4096) + 4096 ^ 2 * (m / 2 ^ 24 mod 4096)
    + 4096 ^ 3 * (m / 2 ^ 36 mod 4096) + 4096 ^ 4 * (m / 2 ^ 48 mod 4096).
Proof. intros. Z.to_euclidean_division_equations; lia. Qed.

(** The high bits of the fields. *)
Definition fld_high : list Z := [11; 23; 35; 47; 59].

Lemma fld_high_bits i : 0 <= i → Z.testbit 0x800800800800800 i = true → i ∈ fld_high.
Proof.
  intros Hi Hb. destruct (Z.lt_ge_cases i 60).
  - assert (Forall (λ i, Z.testbit 0x800800800800800 i = true → i ∈ fld_high) (seqZ 0 60)) as HF.
    { apply (bool_decide_unpack _). vm_compute. done. }
    rewrite Forall_forall in HF. apply HF; [|done]. apply elem_of_seqZ. lia.
  - by rewrite (testbit_inw 60) in Hb by (done || (unfold inw; lia)).
Qed.

Lemma land_high x y :
  negb (x &&& (y &&& 0x800800800800800) =? 0) = existsb (λ t, Z.testbit x t && Z.testbit y t) fld_high.
Proof.
  destruct (existsb _ _) eqn:E.
  - apply existsb_exists in E as (t & Ht & E). apply andb_prop in E as [E1 E2].
    apply negb_true_iff, Z.eqb_neq. intros H0.
    assert (Z.testbit (x &&& (y &&& 0x800800800800800)) t = true) as Hb; [|by rewrite H0, Z.bits_0 in Hb].
    rewrite !Z.land_spec, E1, E2. simpl. by repeat destruct Ht as [<-|Ht].
  - apply negb_false_iff, Z.eqb_eq. apply Z.bits_inj'. intros i Hi. rewrite Z.bits_0, !Z.land_spec.
    destruct (Z.testbit 0x800800800800800 i) eqn:Eh; [|by rewrite !andb_false_r].
    apply fld_high_bits in Eh; [|done]. rewrite andb_true_r.
    destruct (Z.testbit x i && Z.testbit y i) eqn:Exy; [|done].
    assert (existsb (λ t, Z.testbit x t && Z.testbit y t) fld_high = true); [|congruence].
    apply existsb_exists. exists i. by rewrite <- list_elem_of_In.
Qed.

Lemma testbit_div x t : 0 <= t → Z.testbit x t = (x / 2 ^ t mod 2 =? 1).
Proof.
  intros Ht. destruct (_ =? _) eqn:E; bool_to_prop.
  - by apply Z.testbit_true.
  - apply Z.testbit_false; [done|]. pose proof (Z.mod_pos_bound (x / 2 ^ t) 2). lia.
Qed.

(** A number as the list of its 12-bit fields, least significant first. *)
Fixpoint fields_val (fs : list Z) : Z :=
  match fs with [] => 0 | f :: fs => f + 4096 * fields_val fs end.

Lemma testbit_field a q t : 0 <= a < 4096 → 12 <= t → Z.testbit (a + 4096 * q) t = Z.testbit q (t - 12).
Proof.
  intros Ha Ht. rewrite <- (Z.sub_add 12 t) at 1. rewrite <- Z.div_pow2_bits by lia.
  f_equal. change (2 ^ 12) with 4096. rewrite (Z.mul_comm 4096), Z.div_add, Z.div_small by lia. lia.
Qed.

Lemma testbit_11 a q : 0 <= a < 4096 → Z.testbit (a + 4096 * q) 11 = (2048 <=? a).
Proof.
  intros Ha. rewrite testbit_div by lia. change (2 ^ 11) with 2048.
  destruct (2048 <=? a) eqn:E; bool_to_prop; [apply Z.eqb_eq|apply Z.eqb_neq];
    Z.to_euclidean_division_equations; lia.
Qed.

(** The zero-field test of the "bit twiddling" idiom, by borrow reasoning:
    the field above the lowest zero field is the first one that borrows. *)
Lemma haszero fs : Forall (λ f, 0 <= f < 4096) fs →
  existsb (λ t, Z.testbit (fields_val fs - fields_val (replicate (List.length fs) 1)) t
                && negb (Z.testbit (fields_val fs) t))
    ((λ k, 12 * Z.of_nat k + 11) <$> seq 0 (List.length fs))
  = existsb (λ f, f =? 0) fs.
Proof.
  induction 1 as [|f fs Hf Hfs IH]; [done|]. simpl List.length.
  cbn [seq replicate existsb fields_val fmap list_fmap]. rewrite <- fmap_S_seq, <- list_fmap_compose.
  set (D := fields_val fs - fields_val (replicate (List.length fs) 1)) in *.
  replace (f + 4096 * fields_val fs - (1 + 4096 * fields_val (replicate (List.length fs) 1)))
    with ((f - 1) + 4096 * D) by (unfold D; lia).
  change (12 * Z.of_nat 0 + 11) with 11.
  destruct (f =? 0) eqn:E; bool_to_prop; cbn [orb].
  - subst f. replace (0 - 1 + 4096 * D) with (4095 + 4096 * (D - 1)) by lia.
    rewrite (testbit_11 4095), (testbit_11 0) by lia. done.
  - rewrite !testbit_11 by lia.
    replace ((2048 <=? f - 1) && negb (2048 <=? f)) with false; simpl.
    2:{ symmetry. apply andb_false_iff. destruct (Z.leb_spec 2048 f); [by right|left; apply Z.leb_gt; lia]. }
    rewrite <- IH. clear IH. induction (seq 0 (List.length fs)) as [|k ks IHk]; [done|].
    cbn [existsb fmap list_fmap]. rewrite <- IHk. f_equal. unfold compose.
    rewrite !testbit_field by lia. by replace (12 * Z.of_nat (S k) + 11 - 12) with (12 * Z.of_nat k + 11) by lia.
Qed.

Lemma fld_shifts_nonneg s : s ∈ fld_shifts → 4 <= s <= 52.
Proof. unfold fld_shifts. rewrite !elem_of_cons, elem_of_nil. lia. Qed.

Lemma bitmap_word_isset_spec x bit : inw 64 x → 0 <= bit < 1024 →
  bitmap_word_isset x bit = word_mem (L0_packed x) bit.
Proof.
  intros Hx Hb. unfold bitmap_word_isset, word_mem.
  rewrite (wrap_small 32), (wrap_small 64 (_ * _)) by (unfold inw; lia).
  set (m := (x >>> 4) ^^^ (0x1001001001001 * (bit + 1))).
  assert (∀ k, k ∈ [0; 12; 24; 36; 48] → m / 2 ^ k mod 4096 = fld x (k + 4) ^^^ (bit + 1)) as Hf.
  { intros k Hk. assert (0 <= k) by (rewrite !elem_of_cons, elem_of_nil in Hk; lia).
    rewrite <- fld_div by done. unfold m. rewrite fld_lxor. f_equal.
    - unfold fld. rewrite Z.shiftr_shiftr by done. do 2 f_equal. lia.
    - rewrite fld_div by done. rewrite !elem_of_cons, elem_of_nil in Hk.
      destruct_or!; try done; subst; simpl; Z.to_euclidean_division_equations; lia. }
  assert (0 <= m < 2 ^ 60) as Hm.
  { apply inw_testbit; [lia| |].
    - apply Z.lxor_nonneg. rewrite Z.shiftr_nonneg. unfold inw in Hx. lia.
    - intros i Hi. unfold m. rewrite Z.lxor_spec, Z.shiftr_spec by lia.
      rewrite (testbit_inw 64 x), (testbit_inw 60 (_ * _)) by (done || unfold inw; lia). done. }
  set (fs := (λ k, m / 2 ^ k mod 4096) <$> [0; 12; 24; 36; 48]).
  assert (Forall (λ f, 0 <= f < 4096) fs) as Hfs.
  { apply Forall_fmap, Forall_true. intros k. by apply Z.mod_pos_bound. }
  assert (m = fields_val fs) as Em.
  { rewrite (fields_sum m Hm) at 1. unfold fs. simpl. rewrite Z.div_1_r. ring. }
  rewrite land_high. etransitivity; [|etransitivity; [apply (haszero fs Hfs)|]].
  - rewrite <- Em. change (fields_val (replicate (List.length fs) 1)) with 0x1001001001001.
    change ((λ k, 12 * Z.of_nat k + 11) <$> seq 0 (List.length fs)) with fld_high.
    unfold fld_high, existsb, wrap. rewrite !Z.mod_pow2_bits_low, !Z.lnot_spec by lia. done.
  - unfold fs. cbn [existsb fmap list_fmap]. rewrite !Hf by in_list.
    unfold fld_shifts, existsb.
    assert (∀ s, (fld x s ^^^ (bit + 1) =? 0) = (fld x s =? bit + 1)) as E.
    { intros s. destruct (_ =? _) eqn:E; symmetry; bool_to_prop.
      - apply Z.eqb_eq. by apply Z.lxor_eq.
      - apply Z.eqb_neq. intros E'. by rewrite E', Z.lxor_nilpotent in E. }
    change (0 + 4) with 4. change (12 + 4) with 16. change (24 + 4) with 28. change (36 + 4) with 40.
    change (48 + 4) with 52. rewrite (E 4), (E 16), (E 28), (E 40), (E 52), !orb_false_r.
    destruct (fld x 4 =? _), (fld x 16 =? _), (fld x 28 =? _), (fld x 40 =? _), (fld x 52 =? _); done.
Qed.

(** [bitmap_word_cax] changes a field that holds the expected value. *)
Lemma bitmap_word_cax_spec x exp bit : -1 <= exp < 1024 →
  (∃ s, s ∈ fld_shifts ∧ fld x s = exp + 1 ∧ bitmap_word_cax x exp bit = x ^^^ ((bit + 1) <<< s)) ∨
  (bitmap_word_cax x exp bit = 0 ∧ ∀ s, s ∈ fld_shifts → fld x s ≠ exp + 1).
Proof.
  intros He. unfold bitmap_word_cax. rewrite wrap_small by (unfold inw; lia).
  repeat (case_if; bool_to_prop; [left; eexists; split_and!; [..|reflexivity]; [unfold fld_shifts; in_list|done]|]).
  right. split; [done|]. intros s. unfold fld_shifts. rewrite !elem_of_cons, elem_of_nil.
  intros Hs. by destruct_or!; subst.
Qed.

Lemma lxor_range w x y : 0 <= w → inw w x → inw w y → inw w (x ^^^ y).
Proof.
  intros Hw Hx Hy. apply inw_testbit; [done|apply Z.lxor_nonneg; unfold inw in *; lia|].
  intros i Hi. by rewrite Z.lxor_spec, !(testbit_inw w) by (done || lia).
Qed.

(** Exchanging the value of a field. *)
Lemma fld_update x s v t : s ∈ fld_shifts → t ∈ fld_shifts → 0 <= v < 4096 →
  fld (x ^^^ (v <<< s)) t = if decide (s = t) then fld x t ^^^ v else fld x t.
Proof.
  intros Hs Ht Hv. rewrite fld_lxor, fld_shifted by done.
  case_decide; [done|apply Z.lxor_0_r].
Qed.

Lemma fld_update_range x s v : inw 64 x → s ∈ fld_shifts → 0 <= v < 4096 → inw 64 (x ^^^ (v <<< s)).
Proof.
  intros Hx Hs Hv. apply lxor_range; [lia|done|]. rewrite Z.shiftl_mul_pow2 by (apply fld_shifts_nonneg in Hs; lia).
  unfold fld_shifts in Hs. rewrite !elem_of_cons, elem_of_nil in Hs. unfold inw.
  destruct_or!; subst; lia.
Qed.

Lemma word_mem_packed x cb : word_mem (L0_packed x) cb = true ↔ ∃ s, s ∈ fld_shifts ∧ fld x s = cb + 1.
Proof.
  unfold word_mem. rewrite existsb_exists. setoid_rewrite <- list_elem_of_In. by setoid_rewrite Z.eqb_eq.
Qed.

(** Setting a value in a word with a free field. *)
Lemma cax_set x bit n : packed_wf x → 0 <= bit < 1024 → word_mem (L0_packed x) bit = false →
  bitmap_word_cax x (-1) bit = n → n ≠ 0 →
  packed_wf n ∧ ∀ c, 0 <= c → word_mem (L0_packed n) c = word_mem (L0_packed x) c || (c =? bit).
Proof.
  intros [Hx Hf Hd] Hb Hm Hn Hn0.
  destruct (bitmap_word_cax_spec x (-1) bit) as [(s & Hs & Hsx & E)|[E _]]; [lia| |congruence].
  rewrite Hn in E. clear Hn Hn0. subst n.
  assert (∀ t, t ∈ fld_shifts → fld x t ≠ bit + 1) as Hnm.
  { intros t Ht E. assert (word_mem (L0_packed x) bit = true); [apply word_mem_packed; eauto|congruence]. }
  assert (∀ t, t ∈ fld_shifts →
    fld (x ^^^ ((bit + 1) <<< s)) t = if decide (s = t) then bit + 1 else fld x t) as Hu.
  { intros t Ht. rewrite fld_update by (done || lia). case_decide as E; [|done]. subst t.
    rewrite Hsx. apply Z.lxor_0_l. }
  split; [split|].
  - apply fld_update_range; [done|done|lia].
  - intros t Ht. rewrite Hu by done. case_decide; [lia|auto].
  - intros t t' Ht Ht' Hne. rewrite !Hu by done. intros E.
    repeat case_decide; subst; try done; [by destruct (Hnm t')|by destruct (Hnm t)|by eapply Hd].
  - intros c Hc. apply eq_true_iff_eq. rewrite orb_true_iff, !word_mem_packed, Z.eqb_eq. split.
    + intros (t & Ht & E). rewrite Hu in E by done. case_decide; [right; lia|left; eauto].
    + intros [(t & Ht & E) | ->].
      * exists t. split; [done|]. rewrite Hu by done. case_decide; [subst; lia|done].
      * exists s. split; [done|]. rewrite Hu by done. by rewrite decide_True.
Qed.

Lemma cax_clr x bit : packed_wf x → 0 <= bit < 1024 → word_mem (L0_packed x) bit = true →
  packed_wf (bitmap_word_cax x bit bit) ∧
  ∀ c, 0 <= c → word_mem (L0_packed (bitmap_word_cax x bit bit)) c = word_mem (L0_packed x) c && negb (c =? bit).
Proof.
  intros [Hx Hf Hd] Hb Hm. apply word_mem_packed in Hm as (s0 & Hs0 & E0).
  destruct (bitmap_word_cax_spec x bit bit) as [(s & Hs & Hsx & ->)|[_ Hno]]; [lia| |by destruct (Hno s0)].
  assert (∀ t, t ∈ fld_shifts →
    fld (x ^^^ ((bit + 1) <<< s)) t = if decide (s = t) then 0 else fld x t) as Hu.
  { intros t Ht. rewrite fld_update by (done || lia). case_decide as E; [|done]. subst t.
    rewrite Hsx. apply Z.lxor_nilpotent. }
  split; [split|].
  - apply fld_update_range; [done|done|lia].
  - intros t Ht. rewrite Hu by done. case_decide; [lia|auto].
  - intros t t' Ht Ht' Hne. rewrite !Hu by done. intros E. repeat case_decide; subst; try done. by eapply Hd.
  - intros c Hc. apply eq_true_iff_eq. rewrite andb_true_iff, negb_true_iff, !word_mem_packed, Z.eqb_neq. split.
    + intros (t & Ht & E). rewrite Hu in E by done. case_decide as D; [lia|]. split; [eauto|].
      intros ->. destruct (decide (s = t)) as [|Hne]; [done|].
      pose proof (Hd s t Hs Ht Hne ltac:(congruence)). lia.
    + intros [(t & Ht & E) Hne]. exists t. split; [done|]. rewrite Hu by done.
      case_decide; [subst; lia|done].
Qed.

(** ** The level 1 block is a set of values *)

Lemma flag_bit w n : 0 <= n → flag w (1 <<< n) = Z.testbit w n.
Proof.
  intros Hn. unfold flag. rewrite Z.shiftl_1_l.
  destruct (Z.testbit w n) eqn:E.
  - apply negb_true_iff, Z.eqb_neq. intros H0.
    assert (Z.testbit (w &&& 2 ^ n) n = true) as H1; [|by rewrite H0, Z.bits_0 in H1].
    by rewrite Z.land_spec, E, Z.pow2_bits_true.
  - apply negb_false_iff, Z.eqb_eq, Z.bits_inj'. intros i Hi. rewrite Z.land_spec, Z.bits_0.
    destruct (decide (i = n)) as [->|]; [by rewrite E|by rewrite Z.pow2_bits_false, andb_false_r by lia].
Qed.

Lemma l1_idx_div c : 0 <= c → l1_idx c = Z.to_nat (c / 64).
Proof. intros. unfold l1_idx. by rewrite Z.shiftr_div_pow2. Qed.

Lemma l1_bit_mod c : l1_bit c = 1 <<< (c mod 64).
Proof. unfold l1_bit. f_equal. exact (land_ones_mod 6 c ltac:(lia)). Qed.

Definition l1_wf (b1 : list Z) : Prop := List.length b1 = 16%nat ∧ Forall (inw 64) b1.

Lemma l1_word_wf b1 j : l1_wf b1 → inw 64 (default 0 (b1 !! j)).
Proof.
  intros [_ Hf]. destruct (b1 !! j) eqn:E; simpl; [|done]. by eapply Forall_lookup_1 in Hf.
Qed.

Lemma word_mem_l1 b1 c : 0 <= c → word_mem (L0_l1 b1) c = Z.testbit (default 0 (b1 !! l1_idx c)) (c mod 64).
Proof. intros. unfold word_mem. rewrite l1_bit_mod, flag_bit; [done|]. by apply Z.mod_pos_bound. Qed.

(** Exchanging the word that holds value [v] for one that differs in its bit. *)
Lemma l1_update b1 v w (f : bool → bool) : l1_wf b1 → 0 <= v < 1024 → inw 64 w →
  (∀ i, 0 <= i < 64 → Z.testbit w i =
     if decide (i = v mod 64) then f (Z.testbit (default 0 (b1 !! l1_idx v)) i)
     else Z.testbit (default 0 (b1 !! l1_idx v)) i) →
  l1_wf (<[l1_idx v := w]> b1) ∧
  ∀ c, 0 <= c < 1024 → word_mem (L0_l1 (<[l1_idx v := w]> b1)) c =
    if decide (c = v) then f (word_mem (L0_l1 b1) c) else word_mem (L0_l1 b1) c.
Proof.
  intros [Hl Hf] Hv Hw Hb. split; [split; [by rewrite length_insert|by apply Forall_insert]|].
  intros c Hc. rewrite !word_mem_l1 by lia. pose proof (Z.mod_pos_bound c 64 ltac:(lia)).
  rewrite !l1_idx_div in * by lia.
  assert (v / 64 < 16) by (apply Z.div_lt_upper_bound; lia).
  destruct (decide (c / 64 = v / 64)) as [E|E].
  - rewrite E, list_lookup_insert_eq by (rewrite Hl; lia). cbn [default from_option id].
    rewrite Hb by lia. destruct (decide (c = v)) as [->|].
    + by rewrite decide_True.
    + rewrite decide_False; [done|]. intros E'. pose proof (Z.div_mod c 64). pose proof (Z.div_mod v 64). lia.
  - rewrite list_lookup_insert_ne; [|pose proof (Z.div_pos v 64); pose proof (Z.div_pos c 64); lia].
    by rewrite decide_False by congruence.
Qed.

Lemma l1_or_bits o v : 0 <= v → inw 64 o →
  inw 64 (o ||| l1_bit v) ∧
  ∀ i, 0 <= i < 64 → Z.testbit (o ||| l1_bit v) i = if decide (i = v mod 64) then true else Z.testbit o i.
Proof.
  intros Hv Ho. rewrite l1_bit_mod, Z.shiftl_1_l. pose proof (Z.mod_pos_bound v 64 ltac:(lia)) as Hm. split.
  - apply lor_range; [lia|done|]. split; [lia|]. apply Z.pow_lt_mono_r; lia.
  - intros i Hi. rewrite Z.lor_spec. case_decide as E; [subst|].
    + by rewrite Z.pow2_bits_true, orb_true_r by lia.
    + by rewrite Z.pow2_bits_false, orb_false_r by lia.
Qed.

Lemma l1_clr_bits o v : 0 <= v → inw 64 o →
  inw 64 (o &&& u64 (Z.lnot (l1_bit v))) ∧
  ∀ i, 0 <= i < 64 → Z.testbit (o &&& u64 (Z.lnot (l1_bit v))) i
    = if decide (i = v mod 64) then false else Z.testbit o i.
Proof.
  intros Hv Ho. rewrite l1_bit_mod, Z.shiftl_1_l. pose proof (Z.mod_pos_bound v 64 ltac:(lia)) as Hm. split.
  - apply land_range; [lia|done|]. by apply wrap_range.
  - intros i Hi. unfold wrap. rewrite Z.land_spec, Z.mod_pow2_bits_low, Z.lnot_spec by lia. case_decide as E; [subst|].
    + by rewrite Z.pow2_bits_true, andb_false_r by lia.
    + by rewrite Z.pow2_bits_false, andb_true_r by lia.
Qed.

Lemma l1_set_spec b1 v : l1_wf b1 → 0 <= v < 1024 →
  l1_wf (l1_set b1 v) ∧
  ∀ c, 0 <= c < 1024 → word_mem (L0_l1 (l1_set b1 v)) c = word_mem (L0_l1 b1) c || (c =? v).
Proof.
  intros Hb Hv. destruct (l1_or_bits (default 0 (b1 !! l1_idx v)) v) as [Hr Hi]; [lia|by apply l1_word_wf|].
  destruct (l1_update b1 v _ (λ _, true) Hb Hv Hr Hi) as [Hw Hm]. split; [done|].
  intros c Hc. unfold l1_set. rewrite Hm by done. case_decide as E; [subst|].
  - by rewrite Z.eqb_refl, orb_true_r.
  - by rewrite (proj2 (Z.eqb_neq c v)), orb_false_r.
Qed.

Lemma l1_set_fold vs : ∀ b1, l1_wf b1 → Forall (λ v, 0 <= v < 1024) vs →
  l1_wf (fold_left l1_set vs b1) ∧
  ∀ c, 0 <= c < 1024 →
    word_mem (L0_l1 (fold_left l1_set vs b1)) c = word_mem (L0_l1 b1) c || bool_decide (c ∈ vs).
Proof.
  induction vs as [|v vs IH]; intros b1 Hb Hvs; cbn [fold_left].
  - split; [done|]. intros c Hc. rewrite bool_decide_false by apply not_elem_of_nil. by rewrite orb_false_r.
  - inv Hvs. destruct (l1_set_spec b1 v) as [Hw Hm]; [done..|].
    destruct (IH (l1_set b1 v) Hw) as [Hw' Hm']; [done|]. split; [done|].
    intros c Hc. rewrite Hm', Hm by done. rewrite <- orb_assoc. f_equal. apply eq_true_iff_eq.
    rewrite orb_true_iff, !bool_decide_eq_true, Z.eqb_eq, elem_of_cons. done.
Qed.

(** Unpacking a word keeps its set. *)
Lemma l1_unpack_spec x : packed_wf x →
  l1_wf (l1_unpack x) ∧
  ∀ c, 0 <= c < 1024 → word_mem (L0_l1 (l1_unpack x)) c = word_mem (L0_packed x) c.
Proof.
  intros [Hx Hf Hd]. unfold l1_unpack. change (Z.to_nat PORTMAP_L1_WORDS) with 16%nat.
  destruct (l1_set_fold (rev (bitmap_word_unpack x)) (replicate 16 0)) as [Hw Hm].
  - split; [done|]. by apply Forall_replicate.
  - apply Forall_rev, Forall_fmap, Forall_forall. intros s Hs. apply list_elem_of_filter in Hs as [Hn Hs].
    pose proof (fld_range x s ltac:(apply fld_shifts_nonneg in Hs; lia)). specialize (Hf s Hs). simpl. lia.
  - split; [done|]. intros c Hc. rewrite Hm by done. rewrite word_mem_l1 by lia.
    assert (default 0 (replicate 16 0 !! l1_idx c) = 0) as ->.
    { destruct (_ !! _) eqn:E; [|done]. by apply lookup_replicate in E as [-> _]. }
    rewrite Z.bits_0, orb_false_l. apply eq_true_iff_eq. rewrite bool_decide_eq_true, word_mem_packed.
    rewrite list_elem_of_In, <- in_rev, <- list_elem_of_In. unfold bitmap_word_unpack.
    rewrite list_elem_of_fmap. setoid_rewrite list_elem_of_filter. split.
    + intros (s & -> & Hn & Hs). exists s. split; [done|]. lia.
    + intros (s & Hs & E). exists s. split_and!; [lia|lia|done].
Qed.

(** ** The bitmap as a set of ports *)

Definition word_wf (w : l0word) : Prop :=
  match w with L0_packed x => packed_wf x | L0_l1 b1 => l1_wf b1 end.

Definition bits_wf (bits : list l0word) : Prop := List.length bits = 64%nat ∧ Forall word_wf bits.

Definition port_ok (p : Z) : Prop := 0 <= p < PORTMAP_MAX_BITS.

Definition bm_mem (bits : list l0word) (p : Z) : bool :=
  match bits !! l0_idx p with Some w => word_mem w (l0_bit p) | None => false end.

Lemma l0_split p : port_ok p →
  l0_idx p = Z.to_nat (p / 1024) ∧ l0_bit p = p mod 1024 ∧ 0 <= p / 1024 < 64 ∧ 0 <= p mod 1024 < 1024.
Proof.
  unfold port_ok, PORTMAP_MAX_BITS. intros Hp. unfold l0_idx, l0_bit.
  rewrite Z.shiftr_div_pow2 by done. split_and!; try done; try (by apply Z.mod_pos_bound).
  - exact (land_ones_mod 10 p ltac:(lia)).
  - apply Z.div_pos; lia.
  - apply Z.div_lt_upper_bound; lia.
Qed.

Lemma l0_bit_range p : 0 <= l0_bit p < 1024.
Proof.
  unfold l0_bit. change PORTMAP_L0_MASK with (2 ^ 10 - 1). rewrite land_ones_mod by done.
  by apply Z.mod_pos_bound.
Qed.

Lemma l0_inj p q : port_ok p → port_ok q → l0_idx p = l0_idx q → l0_bit p = l0_bit q → p = q.
Proof.
  intros Hp Hq. destruct (l0_split p Hp) as (-> & -> & ? & ?), (l0_split q Hq) as (-> & -> & ? & ?).
  intros E1 E2. rewrite (Z.div_mod p 1024), (Z.div_mod q 1024) by done. lia.
Qed.

(** Exchanging the word of port [p] for one whose set differs at [p] only. *)
Lemma bits_update bits p w w' b : bits_wf bits → port_ok p →
  bits !! l0_idx p = Some w → word_wf w' →
  (∀ c, 0 <= c < 1024 → word_mem w' c = if decide (c = l0_bit p) then b else word_mem w c) →
  bits_wf (<[l0_idx p := w']> bits) ∧
  ∀ q, port_ok q → bm_mem (<[l0_idx p := w']> bits) q = if decide (q = p) then b else bm_mem bits q.
Proof.
  intros [Hl Hf] Hp Hw Hw' Hm. split; [split; [by rewrite length_insert|by apply Forall_insert]|].
  intros q Hq. unfold bm_mem. destruct (decide (l0_idx q = l0_idx p)) as [E|E].
  - rewrite E, list_lookup_insert_eq by (by eapply lookup_lt_Some). rewrite Hw.
    rewrite Hm by apply l0_bit_range. destruct (decide (q = p)) as [->|Hne]; [by rewrite decide_True|].
    rewrite decide_False; [done|]. intros E'. apply Hne. by apply l0_inj.
  - rewrite list_lookup_insert_ne by done. rewrite decide_False; [done|]. congruence.
Qed.

Lemma bits_lookup bits p : bits_wf bits → port_ok p → ∃ w, bits !! l0_idx p = Some w ∧ word_wf w.
Proof.
  intros [Hl Hf] Hp. destruct (l0_split p Hp) as (-> & _ & ? & _).
  destruct (lookup_lt_is_Some_2 bits (Z.to_nat (p / 1024))) as [w Hw]; [lia|].
  exists w. split; [done|]. by eapply Forall_lookup_1 in Hf.
Qed.

(** ** One step of the lock-free operations *)

Inductive bm_op := BM_SET | BM_CLR.

Definition bm_step (op : bm_op) (bit : Z) (alloc : bool) : bm_pc → list l0word → bm_pc * list l0word :=
  match op with BM_SET => bitmap_set_step bit alloc | BM_CLR => bitmap_clr_step bit end.

(** The value a successful operation gives to the membership of its bit. *)
Definition op_val (op : bm_op) : bool := match op with BM_SET => true | BM_CLR => false end.

Definition has_l1 (bits : list l0word) (i : nat) : Prop := ∃ b1, bits !! i = Some (L0_l1 b1).

(** What a running operation knows of the values it has read. *)
Definition pc_ok (op : bm_op) (bit : Z) (pc : bm_pc) (bits : list l0word) : Prop :=
  match pc with
  | PC_cas0 bval nval =>
      packed_wf bval → packed_wf nval ∧ word_mem (L0_packed bval) (l0_bit bit) = negb (op_val op) ∧
      ∀ c, 0 <= c < 1024 → word_mem (L0_packed nval) c =
        if decide (c = l0_bit bit) then op_val op else word_mem (L0_packed bval) c
  | PC_casl1 bval bm1 => op = BM_SET ∧ bm1 = l1_unpack bval
  | PC_l1 => has_l1 bits (l0_idx bit)
  | PC_cas1 oval nval =>
      has_l1 bits (l0_idx bit) ∧ Z.testbit oval (l0_bit bit mod 64) = negb (op_val op) ∧
      (inw 64 oval → inw 64 nval ∧ ∀ i, 0 <= i < 64 → Z.testbit nval i =
        if decide (i = l0_bit bit mod 64) then op_val op else Z.testbit oval i)
  | _ => True
  end.

(** Level 1 blocks stay. *)
Definition l1_stable (bits bits' : list l0word) : Prop := ∀ i, has_l1 bits i → has_l1 bits' i.

Lemma pc_ok_stable op bit pc bits bits' : l1_stable bits bits' → pc_ok op bit pc bits → pc_ok op bit pc bits'.
Proof.
  intros Hs. destruct pc; cbn [pc_ok];
    first [exact (λ H, H) | exact (Hs _) | exact (λ H, conj (Hs _ (proj1 H)) (proj2 H))].
Qed.

Lemma l1_stable_insert bits i b1 : l1_stable bits (<[i := L0_l1 b1]> bits).
Proof.
  intros j [b Hb]. destruct (decide (i = j)) as [->|].
  - exists b1. apply list_lookup_insert_eq. by eapply lookup_lt_Some.
  - exists b. by rewrite list_lookup_insert_ne.
Qed.

Lemma l1_stable_packed bits i x y : bits !! i = Some (L0_packed x) → l1_stable bits (<[i := y]> bits).
Proof.
  intros Hx j [b Hb]. destruct (decide (i = j)) as [->|]; [congruence|].
  exists b. by rewrite list_lookup_insert_ne.
Qed.

(** The outcome of a step from [bits] that ends in [pc']: an unfinished
    operation has not changed the set; a successful one changes the membership
    of its bit now; an unsuccessful one finds its bit as it would leave it, or
    had no memory. *)
Definition step_outcome (op : bm_op) (bit : Z) (alloc : bool) (bits : list l0word) (pc' : bm_pc)
    (bits' : list l0word) : Prop :=
  match pc' with
  | PC_done true => bm_mem bits bit = negb (op_val op) ∧
      ∀ q, port_ok q → bm_mem bits' q = if decide (q = bit) then op_val op else bm_mem bits q
  | PC_done false => (bm_mem bits bit = op_val op ∨ (op = BM_SET ∧ alloc = false)) ∧ bits' = bits
  | _ => ∀ q, port_ok q → bm_mem bits' q = bm_mem bits q
  end.

Definition step_ok (op : bm_op) (bit : Z) (alloc : bool) (bits : list l0word) (r : bm_pc * list l0word) : Prop :=
  bits_wf (snd r) ∧ pc_ok op bit (fst r) (snd r) ∧ l1_stable bits (snd r) ∧
  step_outcome op bit alloc bits (fst r) (snd r).

Lemma step_ok_same op bit alloc bits pc :
  bits_wf bits → pc_ok op bit pc bits → (match pc with PC_done _ => False | _ => True end) →
  step_ok op bit alloc bits (pc, bits).
Proof.
  intros Hb Hp Hd. unfold step_ok. cbn [fst snd]. split_and!; [exact Hb|exact Hp|exact (λ _ H, H)|].
  by destruct pc.
Qed.

Lemma step_ok_false op bit alloc bits :
  bits_wf bits → bm_mem bits bit = op_val op ∨ (op = BM_SET ∧ alloc = false) →
  step_ok op bit alloc bits (PC_done false, bits).
Proof. intros Hb Hm. exact (conj Hb (conj I (conj (λ _ H, H) (conj Hm eq_refl)))). Qed.

Lemma bm_mem_lookup bits bit w : bits !! l0_idx bit = Some w → bm_mem bits bit = word_mem w (l0_bit bit).
Proof. intros H. unfold bm_mem. by rewrite H. Qed.

(** The step of a successful compare-and-swap. *)
Lemma step_ok_update op bit alloc bits w w' : bits_wf bits → port_ok bit →
  bits !! l0_idx bit = Some w → word_wf w' → l1_stable bits (<[l0_idx bit := w']> bits) →
  word_mem w (l0_bit bit) = negb (op_val op) →
  (∀ c, 0 <= c < 1024 → word_mem w' c = if decide (c = l0_bit bit) then op_val op else word_mem w c) →
  step_ok op bit alloc bits (PC_done true, <[l0_idx bit := w']> bits).
Proof.
  intros Hb Hp Hw Hw' Hs Hm Hm'. destruct (bits_update bits bit w w' (op_val op)) as [Hwf Hq]; [done..|].
  rewrite <- (bm_mem_lookup bits bit w Hw) in Hm.
  exact (conj Hwf (conj I (conj Hs (conj Hm Hq)))).
Qed.

(** Every step of either operation, from any point it may have reached. *)
Lemma bm_step_cas0 op bit alloc bits bval nval : bits_wf bits → port_ok bit →
  pc_ok op bit (PC_cas0 bval nval) bits →
  step_ok op bit alloc bits
    (let '(ok, bits') := cas0 bits (l0_idx bit) bval (L0_packed nval) in
     (if ok then PC_done true else PC_again, bits')).
Proof.
  intros Hb Hp Hok. unfold cas0. destruct (bits_lookup bits bit Hb Hp) as (w & Hw & Hwf). rewrite Hw.
  destruct w as [x|b1]; [|by apply step_ok_same].
  destruct (x =? bval) eqn:E; bool_to_prop; [subst x|by apply step_ok_same].
  destruct (Hok Hwf) as (Hn & Hm & Hc).
  by apply (step_ok_update _ _ _ _ (L0_packed bval)); try done; eapply l1_stable_packed.
Qed.

Lemma bm_step_cas1 op bit alloc bits oval nval : bits_wf bits → port_ok bit →
  pc_ok op bit (PC_cas1 oval nval) bits →
  step_ok op bit alloc bits
    (let '(ok, bits') := cas1 bits (l0_idx bit) (l1_idx (l0_bit bit)) oval nval in
     (if ok then PC_done true else PC_again, bits')).
Proof.
  intros Hb Hp (_ & Hm & Hok). unfold cas1. destruct (bits_lookup bits bit Hb Hp) as (w & Hw & Hwf). rewrite Hw.
  destruct w as [x|b1]; [by apply step_ok_same|]. pose proof (l0_bit_range bit) as Hr.
  destruct (_ =? oval) eqn:E; bool_to_prop; [|by apply step_ok_same].
  destruct Hok as [Hn Hi]; [rewrite <- E; by apply l1_word_wf|].
  destruct (l1_update b1 (l0_bit bit) nval (λ _, op_val op)) as [Hw' Hc]; [done|done|done|by rewrite E|].
  apply (step_ok_update _ _ _ _ (L0_l1 b1)); try done; [apply l1_stable_insert|].
  by rewrite word_mem_l1, E by lia.
Qed.

Lemma bm_step_l1 op bit alloc bits b1 : bits_wf bits → port_ok bit →
  bits !! l0_idx bit = Some (L0_l1 b1) →
  let o := default 0 (b1 !! l1_idx (l0_bit bit)) in
  step_ok op bit alloc bits
    (if Bool.eqb (flag o (l1_bit (l0_bit bit))) (op_val op) then (PC_done false, bits)
     else (PC_cas1 o (match op with BM_SET => o ||| l1_bit (l0_bit bit)
                      | BM_CLR => o &&& u64 (Z.lnot (l1_bit (l0_bit bit))) end), bits)).
Proof.
  intros Hb Hp Hw o. pose proof (l0_bit_range bit) as Hr.
  assert (bm_mem bits bit = flag o (l1_bit (l0_bit bit))) as Hm by (by rewrite (bm_mem_lookup _ _ _ Hw)).
  destruct (Bool.eqb _ _) eqn:E.
  - apply Bool.eqb_prop in E. apply step_ok_false; [done|left; congruence].
  - apply step_ok_same; [done| |exact I]. cbn [pc_ok]. split; [by eexists|].
    rewrite l1_bit_mod, flag_bit in E by (by apply Z.mod_pos_bound). split.
    + destruct (Z.testbit _ _), op; done.
    + intros Ho. destruct op; [by apply l1_or_bits; [lia|]|by apply l1_clr_bits; [lia|]].
Qed.

Lemma bm_step_casl1 bit alloc bits bval : bits_wf bits → port_ok bit →
  step_ok BM_SET bit alloc bits
    (let '(ok, bits') := cas0 bits (l0_idx bit) bval (L0_l1 (l1_unpack bval)) in
     (if ok then PC_l1 else PC_again, bits')).
Proof.
  intros Hb Hp. unfold cas0. destruct (bits_lookup bits bit Hb Hp) as (w & Hw & Hwf). rewrite Hw.
  destruct w as [x|b1]; [|by apply step_ok_same].
  destruct (x =? bval) eqn:E; bool_to_prop; [subst x|by apply step_ok_same].
  destruct (l1_unpack_spec bval Hwf) as [Hl Hm].
  destruct (bits_update bits bit (L0_packed bval) (L0_l1 (l1_unpack bval))
    (word_mem (L0_packed bval) (l0_bit bit))) as [Hwf' Hq]; try done.
  { intros c Hc. rewrite Hm by done. by case_decide; subst. }
  refine (conj Hwf' (conj _ (conj (l1_stable_insert _ _ _) _))); cbn [fst snd].
  - exists (l1_unpack bval). apply list_lookup_insert_eq. by eapply lookup_lt_Some.
  - intros q Hq'. rewrite Hq by done. case_decide; [|done]. subst q. by rewrite (bm_mem_lookup _ _ _ Hw).
Qed.

Lemma bm_step_again op bit alloc bits : bits_wf bits → port_ok bit →
  step_ok op bit alloc bits (bm_step op bit alloc PC_again bits).
Proof.
  intros Hb Hp. destruct (bits_lookup bits bit Hb Hp) as (w & Hw & Hwf).
  pose proof (l0_bit_range bit) as Hr. pose proof (bm_mem_lookup _ _ _ Hw) as Hm.
  destruct op; cbn [bm_step bitmap_set_step bitmap_clr_step]; rewrite Hw;
    (destruct w as [x|b1]; [|by apply step_ok_same; [done|exists b1|]]);
    rewrite bitmap_word_isset_spec by (done || apply Hwf);
    destruct (word_mem (L0_packed x) (l0_bit bit)) eqn:E; cbn [negb].
  - apply step_ok_false; [done|by left].
  - destruct (bitmap_word_cax x (-1) (l0_bit bit) =? 0) eqn:E0; bool_to_prop; cbn [negb].
    + destruct alloc; [by apply step_ok_same|]. apply step_ok_false; [done|by right].
    + apply step_ok_same; [done| |exact I]. intros _. destruct (cax_set x (l0_bit bit) _ Hwf Hr E eq_refl E0) as [Hn Hc].
      split_and!; [done|done|]. intros c Hc'. rewrite Hc by lia. case_decide as D; [subst c|].
      * by rewrite Z.eqb_refl, orb_true_r.
      * by rewrite (proj2 (Z.eqb_neq _ _) D), orb_false_r.
  - apply step_ok_same; [done| |exact I]. intros _. destruct (cax_clr x (l0_bit bit) Hwf Hr E) as [Hn Hc].
    split_and!; [done|done|]. intros c Hc'. rewrite Hc by lia. case_decide as D; [subst c|].
    + by rewrite Z.eqb_refl, andb_false_r.
    + by rewrite (proj2 (Z.eqb_neq _ _) D), andb_true_r.
  - apply step_ok_false; [done|by left].
Qed.

Lemma bm_step_spec op bit alloc pc bits : bits_wf bits → port_ok bit → pc_ok op bit pc bits →
  (match pc with PC_done _ => False | _ => True end) →
  step_ok op bit alloc bits (bm_step op bit alloc pc bits).
Proof.
  intros Hb Hp Hpc Hd. destruct pc as [|bval nval|bval bm1| |oval nval|ret]; [by apply bm_step_again| | | | |done].
  - destruct op; by apply bm_step_cas0.
  - destruct Hpc as [-> ->]. by apply bm_step_casl1.
  - destruct Hpc as [b1 Hb1]. pose proof (bm_step_l1 op bit alloc bits b1 Hb Hp Hb1) as H.
    destruct op; cbn [bm_step bitmap_set_step bitmap_clr_step op_val] in *; rewrite Hb1;
      destruct (flag _ _); exact H.
  - destruct op; by apply bm_step_cas1.
Qed.

(** ** The sequential operations *)

(** The steps an undisturbed operation still takes. *)
Definition pc_rank (pc : bm_pc) : nat :=
  match pc with PC_again => 4 | PC_casl1 _ _ => 3 | PC_l1 => 2 | PC_cas0 _ _ | PC_cas1 _ _ => 1 | PC_done _ => 0 end.

(** Undisturbed, the compare-and-swap finds the value that was just read. *)
Definition pc_current (bit : Z) (pc : bm_pc) (bits : list l0word) : Prop :=
  match pc with
  | PC_cas0 bval _ | PC_casl1 bval _ => bits !! l0_idx bit = Some (L0_packed bval)
  | PC_cas1 oval _ => ∃ b1, bits !! l0_idx bit = Some (L0_l1 b1) ∧ default 0 (b1 !! l1_idx (l0_bit bit)) = oval
  | _ => True
  end.

Lemma bm_step_rank op bit alloc pc bits pc' bits' : bits_wf bits → port_ok bit → pc_ok op bit pc bits →
  pc_current bit pc bits → (match pc with PC_done _ => False | _ => True end) →
  bm_step op bit alloc pc bits = (pc', bits') →
  (pc_rank pc' < pc_rank pc)%nat ∧ pc_current bit pc' bits'.
Proof.
  intros Hb Hp Hpc Hcur Hd. destruct (bits_lookup bits bit Hb Hp) as (w & Hw & Hwf).
  destruct pc as [|bval nval|bval bm1| |oval nval|ret]; [..|done].
  - destruct op; cbn [bm_step bitmap_set_step bitmap_clr_step]; rewrite Hw;
      (destruct w; [|intros [= <- <-]; simpl; split; [lia|done]]);
      repeat case_if; intros [= <- <-]; simpl; split; (lia || done).
  - cbn [pc_current] in Hcur. destruct op; cbn [bm_step bitmap_set_step bitmap_clr_step]; unfold cas0;
      rewrite Hcur, Z.eqb_refl; intros [= <- <-]; simpl; split; (lia || done).
  - destruct Hpc as [-> _]. cbn [pc_current] in Hcur. cbn [bm_step bitmap_set_step]. unfold cas0.
    rewrite Hcur, Z.eqb_refl. intros [= <- <-]. simpl. split; (lia || done).
  - destruct Hpc as [b1 Hb1]. destruct op; cbn [bm_step bitmap_set_step bitmap_clr_step]; rewrite Hb1;
      case_if; intros [= <- <-]; split; cbn [pc_rank pc_current]; eauto; lia.
  - destruct Hcur as (b1 & Hb1 & Hc). destruct op; cbn [bm_step bitmap_set_step bitmap_clr_step]; unfold cas1;
      rewrite Hb1, Hc, Z.eqb_refl; intros [= <- <-]; simpl; split; (lia || done).
Qed.

(** The result of an undisturbed operation. *)
Definition op_result (op : bm_op) (bit : Z) (alloc : bool) (bits : list l0word) (ret : bool)
    (bits' : list l0word) : Prop :=
  bits_wf bits' ∧
  (∀ q, port_ok q → bm_mem bits' q = if decide (q = bit ∧ ret = true) then op_val op else bm_mem bits q) ∧
  (if ret then bm_mem bits bit = negb (op_val op)
   else bm_mem bits bit = op_val op ∨ (op = BM_SET ∧ alloc = false)).

Lemma bm_run_spec op bit alloc fuel : ∀ pc bits, bits_wf bits → port_ok bit → pc_ok op bit pc bits →
  pc_current bit pc bits → (match pc with PC_done _ => False | _ => True end) → (pc_rank pc <= fuel)%nat →
  ∃ ret bits', bm_run (bm_step op bit alloc) fuel pc bits = Some (ret, bits') ∧
    op_result op bit alloc bits ret bits'.
Proof.
  induction fuel as [|fuel IH]; intros pc bits Hb Hp Hpc Hcur Hd Hr; [destruct pc; cbn [pc_rank] in Hr; (lia || done)|].
  destruct (bm_step op bit alloc pc bits) as [pc' bits'] eqn:E.
  destruct (bm_step_rank op bit alloc pc bits pc' bits') as [Hr' Hcur']; [done..|].
  pose proof (bm_step_spec op bit alloc pc bits Hb Hp Hpc Hd) as (Hb' & Hpc' & _ & Ho).
  rewrite E in Hb', Hpc', Ho. cbn [fst snd] in Hb', Hpc', Ho.
  assert (bm_run (bm_step op bit alloc) (S fuel) pc bits = bm_run (bm_step op bit alloc) fuel pc' bits') as ->.
  { destruct pc; try done; cbn [bm_run]; by rewrite E. }
  assert ((∃ ret, pc' = PC_done ret) ∨ (match pc' with PC_done _ => False | _ => True end)) as [[ret ->]|Hd'].
  { destruct pc'; eauto. }
  - exists ret, bits'. split; [by destruct fuel|]. split; [done|]. destruct ret.
    + destruct Ho as [Hm Hq]. split; [|done]. intros q Hq'. rewrite Hq by done.
      destruct (decide (q = bit)) as [->|]; [by rewrite decide_True|rewrite decide_False; [done|by intros []]].
    + destruct Ho as [Hm ->]. split; [|done]. intros q Hq'. rewrite decide_False; [done|by intros []].
  - assert (∀ q, port_ok q → bm_mem bits' q = bm_mem bits q) as Hsame by (destruct pc'; done).
    destruct (IH pc' bits') as (ret & bits'' & Hrun & Hb'' & Hq & Hm); try done; [lia|].
    exists ret, bits''. split; [done|]. split; [done|]. rewrite !Hsame in Hm by done.
    split; [|done]. intros q Hq'. rewrite Hq by done. by rewrite Hsame.
Qed.

Lemma bitmap_set_spec alloc bits bit : bits_wf bits → port_ok bit →
  ∃ ret bits', bitmap_set alloc bits bit = Some (ret, bits') ∧ op_result BM_SET bit alloc bits ret bits'.
Proof. intros. by apply (bm_run_spec BM_SET bit alloc 4 PC_again). Qed.

Lemma bitmap_clr_spec bits bit : bits_wf bits → port_ok bit →
  ∃ ret bits', bitmap_clr bits bit = Some (ret, bits') ∧ op_result BM_CLR bit false bits ret bits'.
Proof. intros. by apply (bm_run_spec BM_CLR bit false 4 PC_again). Qed.

(** ** Interleaved operations *)

Record bm_thread := mk_thread { t_op : bm_op; t_bit : Z; t_pc : bm_pc }.

(** The shared level 0 words and the operations in progress. *)
Record bm_sys := mk_sys { s_bits : list l0word; s_threads : list bm_thread }.

(** An operation that returned: which, its bit, its result, and whether its
    allocation would succeed. *)
Record bm_event := mk_event { e_op : bm_op; e_bit : Z; e_ret : bool; e_alloc : bool }.

#[global] Instance bm_op_eq_dec : EqDecision bm_op.
Proof. solve_decision. Defined.

#[global] Instance bm_event_eq_dec : EqDecision bm_event.
Proof. solve_decision. Defined.

Inductive bm_sys_step : bm_sys → option bm_event → bm_sys → Prop :=
| sys_call s op bit :
    port_ok bit →
    bm_sys_step s None (mk_sys (s_bits s) (s_threads s ++ [mk_thread op bit PC_again]))
| sys_step s i t alloc pc' bits' :
    s_threads s !! i = Some t →
    bm_step (t_op t) (t_bit t) alloc (t_pc t) (s_bits s) = (pc', bits') →
    (∀ r, t_pc t ≠ PC_done r) →
    bm_sys_step s
      (match pc' with PC_done ret => Some (mk_event (t_op t) (t_bit t) ret alloc) | _ => None end)
      (mk_sys bits' (<[i := mk_thread (t_op t) (t_bit t) pc']> (s_threads s))).

(** Executions from the empty bitmap, with the events in order of return. *)
Inductive bm_exec : list bm_event → bm_sys → Prop :=
| exec_init : bm_exec [] (mk_sys (replicate 64 (L0_packed 0)) [])
| exec_step tr s ev s' : bm_exec tr s → bm_sys_step s ev s' →
    bm_exec (tr ++ match ev with Some e => [e] | None => [] end) s'.

(** The specification: a set of ports, each operation one atomic action;
    [None] is a result the specification does not allow. *)
Definition port_action (X : gset Z) (e : bm_event) : option (gset Z) :=
  let used := bool_decide (e_bit e ∈ X) in
  match e_op e, e_ret e with
  | BM_SET, true => if used then None else Some ({[e_bit e]} ∪ X)
  | BM_SET, false => if used || negb (e_alloc e) then Some X else None
  | BM_CLR, true => if used then Some (X ∖ {[e_bit e]}) else None
  | BM_CLR, false => if used then None else Some X
  end.

Fixpoint port_spec (X : gset Z) (tr : list bm_event) : option (gset Z) :=
  match tr with [] => Some X | e :: tr => port_action X e ≫= λ Y, port_spec Y tr end.

Definition bm_abs (bits : list l0word) (X : gset Z) : Prop :=
  ∀ q, port_ok q → bm_mem bits q = bool_decide (q ∈ X).

Definition sys_inv (s : bm_sys) : Prop :=
  bits_wf (s_bits s) ∧
  ∀ t, t ∈ s_threads s → port_ok (t_bit t) ∧ pc_ok (t_op t) (t_bit t) (t_pc t) (s_bits s).

Lemma word0_wf : packed_wf 0.
Proof.
  assert (∀ s, s ∈ fld_shifts → fld 0 s = 0) as H0 by (intros s Hs; unfold fld; by rewrite Z.shiftr_0_l).
  split; [done|intros s Hs; by rewrite H0|intros s s' Hs _ _ _; by apply H0].
Qed.

Lemma bits_empty : bits_wf (replicate 64 (L0_packed 0)) ∧ ∀ q, bm_mem (replicate 64 (L0_packed 0)) q = false.
Proof.
  split; [split; [done|apply Forall_replicate; exact word0_wf]|].
  intros q. unfold bm_mem. destruct (_ !! _) eqn:E; [|done]. apply lookup_replicate in E as [-> _].
  pose proof (l0_bit_range q). destruct (word_mem _ _) eqn:E; [|done].
  apply word_mem_packed in E as (s & Hs & E). unfold fld in E. rewrite Z.shiftr_0_l in E.
  change (0 &&& 0xfff) with 0 in E. lia.
Qed.

(** One system step keeps the invariant and is a step of the specification. *)
Lemma sys_step_inv s i t alloc : sys_inv s → s_threads s !! i = Some t →
  (∀ r, t_pc t ≠ PC_done r) →
  let r := bm_step (t_op t) (t_bit t) alloc (t_pc t) (s_bits s) in
  sys_inv (mk_sys (snd r) (<[i := mk_thread (t_op t) (t_bit t) (fst r)]> (s_threads s))) ∧
  step_outcome (t_op t) (t_bit t) alloc (s_bits s) (fst r) (snd r).
Proof.
  intros [Hb Ht] Hi Hd r. destruct (Ht t) as [Hp Hpc]; [by eapply list_elem_of_lookup_2|].
  assert (match t_pc t with PC_done _ => False | _ => True end) as Hd'
    by (destruct (t_pc t) eqn:E; try done; by destruct (Hd ret)).
  destruct (bm_step_spec (t_op t) (t_bit t) alloc (t_pc t) (s_bits s) Hb Hp Hpc Hd') as (Hb' & Hpc' & Hst & Ho).
  split; [|done]. split; [done|]. cbn [s_threads s_bits]. intros t' Ht'.
  apply list_elem_of_lookup in Ht' as [j Hj]. destruct (decide (i = j)) as [->|Hne].
  - rewrite list_lookup_insert_eq in Hj by (by eapply lookup_lt_Some). by injection Hj as <-.
  - rewrite list_lookup_insert_ne in Hj by done. destruct (Ht t') as [Hp' Hpc'']; [by eapply list_elem_of_lookup_2|].
    split; [done|]. by eapply pc_ok_stable.
Qed.

Lemma port_spec_app tr tr' : ∀ X, port_spec X (tr ++ tr') = port_spec X tr ≫= λ Y, port_spec Y tr'.
Proof.
  induction tr as [|e tr IH]; intros X; [done|]. cbn [port_spec app].
  destruct (port_action X e) as [Y|]; [apply IH|done].
Qed.

Lemma bm_abs_step op bit alloc ret bits bits' X : port_ok bit → bm_abs bits X →
  step_outcome op bit alloc bits (PC_done ret) bits' →
  ∃ Y, port_action X (mk_event op bit ret alloc) = Some Y ∧ bm_abs bits' Y.
Proof.
  intros Hp Habs Ho. pose proof (Habs bit Hp) as Hbit. unfold port_action. cbn [e_op e_bit e_ret e_alloc].
  destruct ret, op; destruct Ho as [Hm Hq]; cbn [op_val negb] in *; rewrite <- Hbit.
  - rewrite Hm. eexists. split; [done|]. intros q Hq'. rewrite Hq, Habs by done.
    destruct (decide (q = bit)) as [E|E]; [rewrite bool_decide_true; [done|]|apply bool_decide_ext]; clear -E; set_solver.
  - rewrite Hm. eexists. split; [done|]. intros q Hq'. rewrite Hq, Habs by done.
    destruct (decide (q = bit)) as [E|E]; [rewrite bool_decide_false; [done|]|apply bool_decide_ext]; clear -E; set_solver.
  - subst bits'. exists X. split; [|done]. destruct Hm as [-> | [_ ->]]; [done|by rewrite orb_true_r].
  - subst bits'. exists X. split; [|done]. destruct Hm as [-> | [? _]]; done.
Qed.

Lemma bm_exec_spec tr s : bm_exec tr s → sys_inv s ∧ ∃ X, port_spec ∅ tr = Some X ∧ bm_abs (s_bits s) X.
Proof.
  induction 1 as [|tr s ev s' Hex (Hinv & X & Hspec & Habs) Hstep].
  - destruct bits_empty as [Hwf Hm]. split; [split; [done|]; intros t Ht; by apply not_elem_of_nil in Ht|].
    exists ∅. split; [done|]. intros q Hq. by rewrite Hm, bool_decide_false by apply not_elem_of_empty.
  - destruct Hstep as [s op bit Hp|s i t alloc pc' bits' Hi Hst Hd].
    + split; [|exists X; by rewrite app_nil_r].
      destruct Hinv as [Hb Ht]. split; [done|]. intros t [Hin|Hin]%elem_of_app; [by apply Ht|].
      apply list_elem_of_singleton in Hin as ->. done.
    + assert (port_ok (t_bit t)) as Hp by (apply Hinv; by eapply list_elem_of_lookup_2).
      destruct (sys_step_inv s i t alloc Hinv Hi Hd) as [Hinv' Ho]. rewrite Hst in Hinv', Ho.
      split; [exact Hinv'|]. cbn [fst snd s_bits] in *. rewrite port_spec_app, Hspec.
      destruct pc' as [| | | | |ret].
      1-5: exists X; split; [done|]; intros q Hq; rewrite Ho by done; by apply Habs.
      destruct (bm_abs_step _ _ _ _ _ _ X Hp Habs Ho) as (Y & HY & HA).
      exists Y. simpl. by rewrite HY.
Qed.

(** A port in use stays in use until it is cleared. *)
Lemma port_spec_keeps p tr : ∀ X Y, port_spec X tr = Some Y → p ∈ X →
  (∀ a, mk_event BM_CLR p true a ∉ tr) → p ∈ Y.
Proof.
  induction tr as [|[op q ret a] tr IH]; intros X Y; simpl; [by intros [= <-]|].
  intros H HX Hn. destruct (port_action X _) as [X'|] eqn:E; [|done].
  apply (IH X'); [done| |intros b Hb; apply (Hn b); by apply list_elem_of_further].
  unfold port_action in E. simpl in E.
  destruct op, ret; destruct (bool_decide (q ∈ X)); try destruct (negb a); simplify_eq/=; try done.
  1-2: by apply elem_of_union_r.
  all: apply elem_of_difference; split; [done|]; intros ->%elem_of_singleton;
    apply (Hn a), list_elem_of_here.
Qed.

(** C26: the lock-free bitmap is linearisable.  In every interleaving of
    [bitmap_set] and [bitmap_clr] calls from the empty bitmap, the results are
    those of atomic operations on a set of ports in the order of return, and
    the words always represent that set.  So a port is handed out twice only
    if it was cleared in between. *)
Theorem bitmap_linearizable tr s :
  bm_exec tr s →
  (∃ X, port_spec ∅ tr = Some X ∧ ∀ p, port_ok p → bm_mem (s_bits s) p = bool_decide (p ∈ X)) ∧
  ∀ p a b tr1 tr2 tr3,
    tr = tr1 ++ mk_event BM_SET p true a :: tr2 ++ mk_event BM_SET p true b :: tr3 →
    ∃ c, mk_event BM_CLR p true c ∈ tr2.
Proof.
  intros Hex. destruct (bm_exec_spec tr s Hex) as (_ & X & HX & Habs). split; [by exists X|].
  intros p a b tr1 tr2 tr3 ->. rewrite port_spec_app in HX.
  destruct (port_spec ∅ tr1) as [X1|]; [|done]. simpl in HX.
  destruct (port_action X1 _) as [X2|] eqn:E2; [|done]. simpl in HX. rewrite port_spec_app in HX.
  destruct (port_spec X2 tr2) as [X3|] eqn:E3; [|done]. simpl in HX.
  destruct (port_action X3 _) as [X4|] eqn:E4; [|done].
  destruct (decide (mk_event BM_CLR p true true ∈ tr2)) as [|H1]; [eauto|].
  destruct (decide (mk_event BM_CLR p true false ∈ tr2)) as [|H2]; [eauto|].
  assert (p ∈ X3) as H3.
  { eapply (port_spec_keeps p tr2 X2); [done| |by intros []].
    unfold port_action in E2. simpl in E2. case_bool_decide; [done|]. injection E2 as <-.
    by apply elem_of_union_l, elem_of_singleton. }
  unfold port_action in E4. simpl in E4. by rewrite bool_decide_true in E4.
Qed.

(** ** The port map *)

Section portmap.
Context {M : Type} `{TL : thmap_laws Z M}.

(** The bitmaps live in a store indexed by their address; [addr_map] maps an
    IP address to its bitmap and [bitmap_list] links all of them. *)
Record npf_portmap := mk_portmap {
  addr_map : M;
  pm_bitmaps : gmap Z bitmap_t;
  bitmap_list : list Z;
  pm_next : Z;
  min_port : Z;
  max_port : Z;
}.

Definition npf_portmap_create (minp maxp : Z) : npf_portmap :=
  mk_portmap thmap_create ∅ [] 1 minp maxp.

(** The [alen] bytes of an address, as a key. *)
Definition addr_key (alen : Z) (addr : npf_addr_t) : list Z := take (nwords alen) addr.
Definition bm_key (bm : bitmap_t) : list Z := addr_key (bm_addr_len bm) (bm_addr bm).

(** A zeroed bitmap with the address copied in. *)
Definition new_bitmap (alen : Z) (addr : npf_addr_t) : bitmap_t :=
  mk_bitmap (addr_key alen addr ++ replicate (4 - nwords alen) 0) alen
    (replicate (Z.to_nat PORTMAP_L0_WORDS) (L0_packed 0)).

(** [kmem] tells whether the allocation of the bitmap succeeds. *)
Definition npf_portmap_autoget (kmem : bool) (pm : npf_portmap) (alen : Z) (addr : npf_addr_t) :
    option Z * npf_portmap :=
  match thmap_get (addr_map pm) (addr_key alen addr) with
  | Some bm => (Some bm, pm)
  | None =>
      if kmem then
        let id := pm_next pm in
        let bm := new_bitmap alen addr in
        let '(ret, map) := thmap_put (addr_map pm) (bm_key bm) id in
        if decide (ret = Some id) then
          (Some id, mk_portmap map (<[id := bm]> (pm_bitmaps pm)) (id :: bitmap_list pm)
                      (id + 1) (min_port pm) (max_port pm))
        else (ret, mk_portmap map (pm_bitmaps pm) (bitmap_list pm) (id + 1) (min_port pm) (max_port pm))
      else (None, pm)
  end.

Definition set_bits (pm : npf_portmap) (id : Z) (bits : list l0word) : npf_portmap :=
  mk_portmap (addr_map pm)
    (alter (λ bm, mk_bitmap (bm_addr bm) (bm_addr_len bm) bits) id (pm_bitmaps pm))
    (bitmap_list pm) (pm_next pm) (min_port pm) (max_port pm).

Definition get_bits (pm : npf_portmap) (id : Z) : list l0word :=
  match pm_bitmaps pm !! id with Some bm => bits0 bm | None => [] end.

Fixpoint flush_loop (bms : list Z) (pm : npf_portmap) : npf_portmap :=
  match bms with
  | [] => mk_portmap (addr_map pm) (pm_bitmaps pm) [] (pm_next pm) (min_port pm) (max_port pm)
  | id :: bms =>
      let key := match pm_bitmaps pm !! id with Some bm => bm_key bm | None => [] end in
      flush_loop bms
        (mk_portmap (snd (thmap_del (addr_map pm) key)) (delete id (pm_bitmaps pm)) bms
           (pm_next pm) (min_port pm) (max_port pm))
  end.
Definition npf_portmap_flush (pm : npf_portmap) : npf_portmap := flush_loop (bitmap_list pm) pm.

(** The loop [next:] of [npf_portmap_get]; [alloc] tells, for each port
    tried, whether a level 1 block could be allocated. *)
Fixpoint portmap_next (fuel : nat) (alloc : Z → bool) (bits : list l0word)
    (minp port_delta target bit : Z) : option (Z * list l0word) :=
  match fuel with
  | O => None
  | S fuel =>
      match bitmap_set (alloc bit) bits bit with
      | None => None
      | Some (true, bits) => Some (htons bit, bits)
      | Some (false, bits) =>
          let bit := u32 (minp + u32 (bit + 1) mod port_delta) in
          if negb (target =? bit) then portmap_next fuel alloc bits minp port_delta target bit
          else Some (0, bits)
      end
  end.

(** [rnd] is the value of [cprng_fast32]; the loop visits at most
    [port_delta] ports ([portmap_next_spec]). *)
Definition npf_portmap_get (kmem : bool) (alloc : Z → bool) (rnd : Z) (pm : npf_portmap) (alen : Z)
    (addr : npf_addr_t) : option (Z * npf_portmap) :=
  let minp := u32 (min_port pm) in
  let maxp := u32 (max_port pm) in
  let port_delta := u32 (maxp - minp + 1) in
  if maxp <? minp then Some (0, pm) else
  match npf_portmap_autoget kmem pm alen addr with
  | (None, pm) => Some (0, pm)
  | (Some bm, pm) =>
      let target := u32 (minp + rnd mod port_delta) in
      match portmap_next (Z.to_nat port_delta) alloc (get_bits pm bm) minp port_delta target target with
      | None => None
      | Some (port, bits) => Some (port, set_bits pm bm bits)
      end
  end.

Definition npf_portmap_take (kmem alloc : bool) (pm : npf_portmap) (alen : Z) (addr : npf_addr_t)
    (port : Z) : option (bool * npf_portmap) :=
  let '(bm, pm) := npf_portmap_autoget kmem pm alen addr in
  let port := ntohs port in
  match bm with
  | None => Some (false, pm)
  | Some bm =>
      if (port <? min_port pm) || (max_port pm <? port) then Some (false, pm)
      else match bitmap_set alloc (get_bits pm bm) port with
           | None => None
           | Some (ret, bits) => Some (ret, set_bits pm bm bits)
           end
  end.

Definition npf_portmap_put (kmem : bool) (pm : npf_portmap) (alen : Z) (addr : npf_addr_t) (port : Z) :
    option npf_portmap :=
  match npf_portmap_autoget kmem pm alen addr with
  | (None, pm) => Some pm
  | (Some bm, pm) =>
      let port := ntohs port in
      match bitmap_clr (get_bits pm bm) port with
      | None => None
      | Some (_, bits) => Some (set_bits pm bm bits)
      end
  end.

(** ** The ports in use, per address *)

Definition pm_used (pm : npf_portmap) (key : list Z) (p : Z) : bool :=
  match thmap_get (addr_map pm) key with
  | Some id => bm_mem (get_bits pm id) p
  | None => false
  end.

Record pm_wf (pm : npf_portmap) : Prop := {
  pm_map_wf : ∀ k id, thmap_get (addr_map pm) k = Some id →
    id ∈ bitmap_list pm ∧ ∃ bm, pm_bitmaps pm !! id = Some bm ∧ bits_wf (bits0 bm) ∧ bm_key bm = k;
  pm_fresh : ∀ id bm, pm_bitmaps pm !! id = Some bm → id < pm_next pm;
  pm_ports : 1 <= min_port pm <= 65535 ∧ 1 <= max_port pm <= 65535;
}.

Definition same_params (pm pm' : npf_portmap) : Prop :=
  min_port pm' = min_port pm ∧ max_port pm' = max_port pm.

(** An address as the callers pass it: at least its [alen] bytes. *)
Definition addr_arg (alen : Z) (addr : npf_addr_t) : Prop :=
  alen_ok alen ∧ (nwords alen <= List.length addr)%nat.

Lemma new_bitmap_key alen addr : addr_arg alen addr → bm_key (new_bitmap alen addr) = addr_key alen addr.
Proof.
  intros [Ha Hl]. unfold bm_key, new_bitmap, addr_key. simpl.
  rewrite take_app_le by (rewrite length_take; lia). by rewrite take_take, Nat.min_id.
Qed.

Lemma npf_portmap_autoget_spec kmem pm alen addr r pm' : pm_wf pm → addr_arg alen addr →
  npf_portmap_autoget kmem pm alen addr = (r, pm') →
  pm_wf pm' ∧ same_params pm pm' ∧ (∀ k q, pm_used pm' k q = pm_used pm k q) ∧
  (∀ id, r = Some id → thmap_get (addr_map pm') (addr_key alen addr) = Some id) ∧
  (∀ id, thmap_get (addr_map pm) (addr_key alen addr) = Some id → r = Some id ∧ pm' = pm).
Proof.
  intros Hwf Harg. unfold npf_portmap_autoget.
  destruct (thmap_get (addr_map pm) (addr_key alen addr)) as [id|] eqn:Eg.
  { intros [= <- <-]. split_and!; try done; naive_solver. }
  destruct kmem; [|intros [= <- <-]; split_and!; (done || naive_solver)].
  rewrite new_bitmap_key by done.
  destruct (thmap_put (addr_map pm) (addr_key alen addr) (pm_next pm)) as [ret map] eqn:Ep.
  destruct (thmap_put_new _ _ _ _ _ Eg Ep) as [[-> Hget] | [-> ->]].
  - rewrite decide_True by done. intros [= <- <-]. destruct Hwf as [Hmap Hfr Hpo].
    assert (∀ id bm, pm_bitmaps pm !! id = Some bm → pm_next pm ≠ id) as Hne.
    { intros id bm Hid. pose proof (Hfr _ _ Hid). lia. }
    split; [split|split_and!]; cbn [addr_map pm_bitmaps bitmap_list pm_next min_port max_port]; try done.
    + intros k id. rewrite Hget. case_decide as Ek.
      * intros [= <-]. split; [apply list_elem_of_here|]. eexists. rewrite lookup_insert_eq.
        split; [done|]. split; [apply bits_empty|]. subst k. by apply new_bitmap_key.
      * intros Hk. destruct (Hmap k id Hk) as (Hin & bm & Hbm & Hb & Hbk). split; [by apply list_elem_of_further|].
        exists bm. rewrite lookup_insert_ne by eauto. done.
    + intros id bm. destruct (decide (pm_next pm = id)) as [->|]; [lia|].
      rewrite lookup_insert_ne by done. intros Hid. pose proof (Hfr _ _ Hid). lia.
    + intros k q. unfold pm_used, get_bits. cbn [addr_map pm_bitmaps]. rewrite Hget. case_decide as Ek.
      * subst k. rewrite Eg, lookup_insert_eq. apply bits_empty.
      * destruct (thmap_get (addr_map pm) k) as [id|] eqn:Ek'; [|done].
        destruct (Hmap k id Ek') as (_ & bm & Hbm & _). by rewrite lookup_insert_ne by eauto.
    + intros id [= <-]. rewrite Hget. by rewrite decide_True.
  - rewrite decide_False by done. intros [= <- <-]. destruct Hwf as [Hmap Hfr Hpo].
    split; [split|split_and!]; cbn [addr_map pm_bitmaps bitmap_list pm_next min_port max_port]; try done.
    intros id bm Hid. pose proof (Hfr _ _ Hid). lia.
Qed.

Lemma set_bits_spec pm key id bits : pm_wf pm → thmap_get (addr_map pm) key = Some id → bits_wf bits →
  pm_wf (set_bits pm id bits) ∧
  ∀ k q, pm_used (set_bits pm id bits) k q = if decide (k = key) then bm_mem bits q else pm_used pm k q.
Proof.
  intros [Hmap Hfr Hpo] Hk Hb. split.
  - split; cbn [set_bits addr_map pm_bitmaps bitmap_list pm_next min_port max_port]; [|..|done].
    + intros k id' Hk'. destruct (Hmap k id' Hk') as (Hin & bm & Hbm & Hbw & Hbk). split; [done|].
      destruct (decide (id = id')) as [<-|Hne].
      * eexists. rewrite lookup_alter_eq, Hbm. split; [reflexivity|]. done.
      * exists bm. by rewrite lookup_alter_ne.
    + intros id' bm. rewrite lookup_alter_Some. intros [(-> & bm' & Hbm' & _)|[_ Hbm']]; by eapply Hfr.
  - intros k q. unfold pm_used, get_bits. cbn [set_bits addr_map pm_bitmaps].
    case_decide as E.
    + subst k. rewrite Hk, lookup_alter_eq. destruct (Hmap key id Hk) as (_ & bm & -> & _). done.
    + destruct (thmap_get (addr_map pm) k) as [id'|] eqn:Ek; [|done].
      rewrite lookup_alter_ne; [done|]. intros ->.
      destruct (Hmap k id' Ek) as (_ & bm & Hbm & _ & E1), (Hmap key id' Hk) as (_ & bm' & Hbm' & _ & E2). congruence.
Qed.

Lemma pm_bits pm key id : pm_wf pm → thmap_get (addr_map pm) key = Some id →
  bits_wf (get_bits pm id) ∧ ∀ q, pm_used pm key q = bm_mem (get_bits pm id) q.
Proof.
  intros [Hmap _ _] Hk. destruct (Hmap key id Hk) as (_ & bm & Hbm & Hb & _).
  unfold pm_used. rewrite Hk. split; [|done]. unfold get_bits. by rewrite Hbm.
Qed.

(** ** The order in which ports are tried *)

(** The [k]-th port tried, from [target]: the code steps by [min_port + 1]
    modulo the size of the range. *)
Definition port_orbit (minp delta target k : Z) : Z := minp + (target - minp + k * (minp + 1)) mod delta.

Section orbit.
Context (minp maxp target : Z).
Context (Hmin : 1 <= minp) (Hmax : minp <= maxp <= 65535) (Ht : minp <= target <= maxp).
Let delta := maxp - minp + 1.

Lemma orbit_range k : minp <= port_orbit minp delta target k <= maxp.
Proof. unfold port_orbit. pose proof (Z.mod_pos_bound (target - minp + k * (minp + 1)) delta). lia. Qed.

Lemma orbit_0 : port_orbit minp delta target 0 = target.
Proof. unfold port_orbit. rewrite Z.mod_small; lia. Qed.

Lemma orbit_delta : port_orbit minp delta target delta = target.
Proof.
  unfold port_orbit. rewrite (Z.mul_comm delta), Z.mod_add by lia. rewrite Z.mod_small; lia.
Qed.

Lemma orbit_next k :
  u32 (minp + u32 (port_orbit minp delta target k + 1) mod delta) = port_orbit minp delta target (k + 1).
Proof.
  pose proof (orbit_range k) as Hk. rewrite (wrap_small 32 (_ + 1)) by (unfold inw; lia).
  assert ((port_orbit minp delta target k + 1) mod delta = (target - minp + (k + 1) * (minp + 1)) mod delta) as ->.
  { unfold port_orbit. rewrite <- Z.add_assoc, Z.add_comm, <- Z.add_assoc, Zplus_mod_idemp_l by lia. f_equal. lia. }
  apply wrap_small. pose proof (orbit_range (k + 1)). unfold port_orbit in *. unfold inw. lia.
Qed.

(** When the step is coprime to the size of the range, every port is tried
    before the first one comes again. *)
Lemma orbit_complete K p : Z.gcd (minp + 1) delta = 1 → 0 < K → port_orbit minp delta target K = target →
  minp <= p <= maxp → ∃ j, 0 <= j < K ∧ port_orbit minp delta target j = p.
Proof.
  intros Hg HK HKt Hp. destruct (Z.gcd_bezout (minp + 1) delta 1 Hg) as (u & v & Huv).
  exists (((p - target) * u) mod delta).
  assert (delta <= K) as HdK.
  { unfold port_orbit in HKt.
    assert ((K * (minp + 1)) mod delta = 0) as HK0.
    { replace (K * (minp + 1)) with (target - minp + K * (minp + 1) - (target - minp)) by lia.
      rewrite <- Zminus_mod_idemp_l. replace ((target - minp + K * (minp + 1)) mod delta) with (target - minp) by lia.
      by rewrite Z.sub_diag, Z.mod_0_l by lia. }
    apply Z.mod_divide in HK0; [|lia]. apply Z.divide_pos_le; [done|].
    apply (Z.gauss _ (minp + 1)); [by rewrite Z.mul_comm|by rewrite Z.gcd_comm]. }
  pose proof (Z.mod_pos_bound ((p - target) * u) delta). split; [lia|].
  unfold port_orbit. rewrite <- Zplus_mod_idemp_r, Zmult_mod_idemp_l, Zplus_mod_idemp_r by lia.
  replace (target - minp + (p - target) * u * (minp + 1))
    with (p - minp + ((target - p) * v) * delta) by nia.
  rewrite Z.mod_add, Z.mod_small by lia. lia.
Qed.

Lemma portmap_next_spec alloc fuel : ∀ k bits, 0 <= k → k + Z.of_nat fuel = delta → (0 < fuel)%nat → bits_wf bits →
  ∃ port bits', portmap_next fuel alloc bits minp delta target (port_orbit minp delta target k) = Some (port, bits') ∧
    bits_wf bits' ∧
    ((port = 0 ∧ (∀ q, port_ok q → bm_mem bits' q = bm_mem bits q) ∧
      ∃ K, k < K ∧ port_orbit minp delta target K = target ∧
        ∀ j, k <= j < K → bm_mem bits (port_orbit minp delta target j) = true ∨
                          alloc (port_orbit minp delta target j) = false) ∨
     (∃ p, port = htons p ∧ minp <= p <= maxp ∧ bm_mem bits p = false ∧
       ∀ q, port_ok q → bm_mem bits' q = if decide (q = p) then true else bm_mem bits q)).
Proof.
  induction fuel as [|fuel IH]; intros k bits Hk Hf Hpos Hb; [lia|]. clear Hpos.
  set (bit := port_orbit minp delta target k).
  assert (minp <= bit <= maxp) as Hr by apply orbit_range.
  assert (port_ok bit) as Hpo by (unfold port_ok, PORTMAP_MAX_BITS; lia).
  destruct (bitmap_set_spec (alloc bit) bits bit Hb Hpo) as (ret & bits1 & Hset & Hb1 & Hq & Hret).
  cbn [portmap_next]. rewrite Hset. destruct ret.
  - exists (htons bit), bits1. split_and!; [done..|]. right. exists bit. split_and!; try done; try lia.
    intros q Hq'. rewrite Hq by done. destruct (decide (q = bit)); [by rewrite decide_True|].
    rewrite decide_False; [done|by intros []].
  - assert (∀ q, port_ok q → bm_mem bits1 q = bm_mem bits q) as Hsame.
    { intros q Hq'. rewrite Hq by done. rewrite decide_False; [done|by intros []]. }
    assert (bm_mem bits bit = true ∨ alloc bit = false) as Hbusy by (simpl in Hret; naive_solver).
    unfold bit at 1 2. rewrite orbit_next.
    destruct (target =? port_orbit minp delta target (k + 1)) eqn:E; bool_to_prop; cbn [negb].
    + exists 0, bits1. split_and!; [done..|]. left. split_and!; [done..|].
      exists (k + 1). split_and!; [lia|done|]. intros j Hj. by replace j with k by lia.
    + assert (k + 1 ≠ delta) by (intros E'; rewrite E', orbit_delta in E; done).
      destruct (IH (k + 1) bits1) as (port & bits' & Hrun & Hb' & Hres); [lia|lia|lia|done|].
      exists port, bits'. split_and!; [done..|].
      destruct Hres as [(-> & Hm & K & HK & HKt & Hj) | (p & -> & Hp & Hm & Hq2)].
      * left. split_and!; [done|intros q Hq'; rewrite Hm, Hsame by done; done|].
        exists K. split_and!; [lia|done|]. intros j Hj'. destruct (decide (j = k)) as [->|]; [done|].
        rewrite <- Hsame; [apply Hj; lia|]. pose proof (orbit_range j). unfold port_ok, PORTMAP_MAX_BITS. lia.
      * right. assert (port_ok p) by (unfold port_ok, PORTMAP_MAX_BITS; lia).
        exists p. rewrite <- Hsame by done. split_and!; [done|lia|lia|done|].
        intros q Hq'. rewrite Hq2 by done. destruct (decide (q = p)); [done|]. by apply Hsame.
Qed.

End orbit.

Lemma htons_nonzero p : 0 < p < 65536 → htons p ≠ 0.
Proof.
  intros Hp H0. assert (htons (htons p) = htons 0) as H1 by (by rewrite H0).
  rewrite bswap16_involutive in H1 by (unfold inw; lia). change (htons 0) with 0 in H1. lia.
Qed.

(** The result of [npf_portmap_get]. *)
Lemma npf_portmap_get_spec kmem alloc rnd pm alen addr :
  pm_wf pm → addr_arg alen addr → 0 <= rnd →
  let key := addr_key alen addr in
  ∃ port pm', npf_portmap_get kmem alloc rnd pm alen addr = Some (port, pm') ∧
    pm_wf pm' ∧ same_params pm pm' ∧
    ((port = 0 ∧ ∀ k q, port_ok q → pm_used pm' k q = pm_used pm k q) ∨
     (∃ p, port = htons p ∧ port ≠ 0 ∧ min_port pm <= p <= max_port pm ∧ pm_used pm key p = false ∧
       ∀ k q, port_ok q → pm_used pm' k q = if decide (k = key ∧ q = p) then true else pm_used pm k q)) ∧
    (port = 0 → min_port pm <= max_port pm →
     is_Some (thmap_get (addr_map pm) key) → (∀ p, alloc p = true) →
     Z.gcd (min_port pm + 1) (max_port pm - min_port pm + 1) = 1 →
     ∀ p, min_port pm <= p <= max_port pm → pm_used pm key p = true).
Proof.
  intros Hwf Harg Hrnd key. unfold npf_portmap_get. pose proof (pm_ports pm Hwf) as [Hmin Hmax].
  rewrite (wrap_small 32 (min_port pm)), (wrap_small 32 (max_port pm)) by (unfold inw; lia).
  destruct (max_port pm <? min_port pm) eqn:E; bool_to_prop.
  { exists 0, pm. split_and!; [done|done|done|by left|lia]. }
  rewrite (wrap_small 32 (_ + 1)) by (unfold inw; lia).
  destruct (npf_portmap_autoget kmem pm alen addr) as [r pm1] eqn:Eg.
  destruct (npf_portmap_autoget_spec _ _ _ _ _ _ Hwf Harg Eg) as (Hwf1 & [Hp1 Hp2] & Hu1 & Hr & Hold).
  fold key in Hr, Hold. destruct r as [id|].
  2:{ exists 0, pm1. split_and!; [done|done|done|left; split; [done|by intros; apply Hu1]|].
      intros _ _ [id Hid]. by destruct (Hold id Hid). }
  set (delta := max_port pm - min_port pm + 1).
  pose proof (Z.mod_pos_bound rnd delta). rewrite wrap_small by (unfold inw; lia).
  set (target := min_port pm + rnd mod delta). specialize (Hr id eq_refl).
  destruct (pm_bits pm1 key id Hwf1 Hr) as [Hb Hu].
  destruct (portmap_next_spec (min_port pm) (max_port pm) target ltac:(lia) ltac:(lia) ltac:(lia)
    alloc (Z.to_nat delta) 0 (get_bits pm1 id)) as (port & bits' & Hrun & Hb' & Hres); [lia|lia|lia|done|].
  rewrite orbit_0 in Hrun by lia. fold delta in Hrun, Hres. rewrite Hrun.
  destruct (set_bits_spec pm1 key id bits' Hwf1 Hr Hb') as [Hwf2 Hu2].
  exists port, (set_bits pm1 id bits'). split_and!; [done|done|done| |].
  - destruct Hres as [(-> & Hm & _) | (p & -> & Hp & Hm & Hq)]; [left|right].
    + split; [done|]. intros k q Hq. rewrite Hu2. destruct (decide (k = key)) as [->|]; [|done].
      by rewrite Hm, <- Hu, Hu1.
    + exists p. split_and!; try done; try lia.
      * apply htons_nonzero; lia.
      * by rewrite <- Hu1, Hu.
      * intros k q Hq'. rewrite Hu2. destruct (decide (k = key)) as [->|Hne].
        -- rewrite Hq, <- Hu, Hu1 by done. destruct (decide (q = p)) as [->|]; [by rewrite decide_True|].
           rewrite decide_False; [done|naive_solver].
        -- rewrite decide_False; [done|naive_solver].
  - intros -> Hle _ Hal Hg p Hp.
    destruct Hres as [(_ & _ & K & HK & HKt & Hj) | (p' & Hp' & Hr' & _)].
    + destruct (orbit_complete (min_port pm) (max_port pm) target) with (K := K) (p := p)
        as (j & Hj' & Ej); [lia..|done|done|done|done|]. rewrite <- Hu1, Hu, <- Ej. fold delta in Hj |- *.
      destruct (Hj j Hj') as [|Hfalse]; [done|by rewrite Hal in Hfalse].
    + by destruct (htons_nonzero p' ltac:(lia)).
Qed.

(** [npf_portmap_get] returns, for every random value, either 0 and takes
    no port, or a port of the configured range that was free for the address
    and is now taken, with every other port of every address as before.  If
    [min_port + 1] is coprime to the size of the range (as with the default
    range) and memory is available, 0 means that all ports of the range are
    taken. *)
Theorem npf_portmap_get_allocates kmem alloc rnd pm alen addr :
  pm_wf pm → addr_arg alen addr → 0 <= rnd →
  let key := addr_key alen addr in
  ∃ port pm', npf_portmap_get kmem alloc rnd pm alen addr = Some (port, pm') ∧
    pm_wf pm' ∧ same_params pm pm' ∧
    ((port = 0 ∧ ∀ k q, port_ok q → pm_used pm' k q = pm_used pm k q) ∨
     (∃ p, port = htons p ∧ port ≠ 0 ∧ min_port pm <= p <= max_port pm ∧ pm_used pm key p = false ∧
       ∀ k q, port_ok q → pm_used pm' k q = if decide (k = key ∧ q = p) then true else pm_used pm k q)) ∧
    (port = 0 → min_port pm <= max_port pm →
     is_Some (thmap_get (addr_map pm) key) → (∀ p, alloc p = true) →
     Z.gcd (min_port pm + 1) (max_port pm - min_port pm + 1) = 1 →
     ∀ p, min_port pm <= p <= max_port pm → pm_used pm key p = true).
Proof. apply npf_portmap_get_spec. Qed.

Lemma op_result_used pm key id op p alloc ret bits' : pm_wf pm → port_ok p →
  thmap_get (addr_map pm) key = Some id → op_result op p alloc (get_bits pm id) ret bits' →
  pm_wf (set_bits pm id bits') ∧
  ∀ k q, port_ok q → pm_used (set_bits pm id bits') k q =
    if decide (ret = true ∧ k = key ∧ q = p) then op_val op else pm_used pm k q.
Proof.
  intros Hwf Hp Hk (Hb & Hq & _). destruct (set_bits_spec pm key id bits' Hwf Hk Hb) as [Hwf' Hu].
  split; [done|]. intros k q Hq'. rewrite Hu. destruct (pm_bits pm key id Hwf Hk) as [_ Hpm].
  destruct (decide (k = key)) as [->|Hne].
  - rewrite Hq, <- Hpm by done. by destruct (decide (q = p ∧ ret = true)), (decide (ret = true ∧ key = key ∧ q = p)); try naive_solver.
  - rewrite decide_False; [done|naive_solver].
Qed.

Lemma flush_loop_spec bms : ∀ pm,
  (∀ k id, thmap_get (addr_map pm) k = Some id →
     id ∈ bms ∧ ∃ bm, pm_bitmaps pm !! id = Some bm ∧ bm_key bm = k) →
  ∀ k, thmap_get (addr_map (flush_loop bms pm)) k = None.
Proof.
  induction bms as [|id bms IH]; intros pm Hmap k; cbn [flush_loop].
  - simpl. destruct (thmap_get (addr_map pm) k) as [id|] eqn:E; [|done].
    destruct (Hmap k id E) as [[]%not_elem_of_nil _].
  - apply IH. cbn [addr_map pm_bitmaps]. intros k' id'.
    set (key := match pm_bitmaps pm !! id with Some bm => bm_key bm | None => [] end).
    destruct (thmap_del_get (addr_map pm) key) as [_ Hdel]. rewrite Hdel. case_decide as Ek; [done|].
    intros Hk'. destruct (Hmap k' id' Hk') as (Hin & bm & Hbm & Hkey).
    assert (id' ≠ id) as Hne by (intros ->; unfold key in Ek; by rewrite Hbm in Ek).
    apply elem_of_cons in Hin as [?|Hin]; [done|]. split; [done|]. exists bm. by rewrite lookup_delete_ne.
Qed.

Lemma npf_portmap_create_wf minp maxp : 1 <= minp <= 65535 → 1 <= maxp <= 65535 → pm_wf (npf_portmap_create minp maxp).
Proof. by split; cbn [npf_portmap_create addr_map pm_bitmaps]; [intros k id; rewrite thmap_get_create|intros id bm; rewrite lookup_empty|]. Qed.

(** Releasing a port of an address that has a bitmap. *)
Lemma npf_portmap_put_spec kmem pm alen addr p :
  let key := addr_key alen addr in
  pm_wf pm → port_ok p → is_Some (thmap_get (addr_map pm) key) →
  ∃ pm', npf_portmap_put kmem pm alen addr (htons p) = Some pm' ∧ pm_wf pm' ∧ same_params pm pm' ∧
    ∀ k q, port_ok q → pm_used pm' k q = if decide (k = key ∧ q = p) then false else pm_used pm k q.
Proof.
  intros key Hwf Hp [id Hid].
  assert (∀ kmem, npf_portmap_autoget kmem pm alen addr = (Some id, pm)) as Hget
    by (intros km; unfold npf_portmap_autoget; fold key; by rewrite Hid).
  assert (ntohs (htons p) = p) as Hnp
    by (apply bswap16_involutive; unfold port_ok, PORTMAP_MAX_BITS in Hp; unfold inw; lia).
  destruct (pm_bits pm key id Hwf Hid) as [Hb Hu].
  unfold npf_portmap_put. rewrite Hget, Hnp. destruct (bitmap_clr_spec _ p Hb Hp) as (ret & bits' & -> & Hres).
  destruct (op_result_used pm key id _ _ _ _ _ Hwf Hp Hid Hres) as [Hwf' Hu'].
  exists (set_bits pm id bits'). split_and!; [done|done|done|]. intros k q Hq. rewrite Hu' by done.
  destruct Hres as (_ & _ & Hret). destruct ret.
  - destruct (decide (k = key ∧ q = p)) as [[-> ->]|Hn]; [by rewrite decide_True|].
    rewrite decide_False; [done|naive_solver].
  - rewrite decide_False by naive_solver. destruct (decide (k = key ∧ q = p)) as [[-> ->]|Hn]; [|done].
    rewrite Hu. destruct Hret as [Hret|[? _]]; done.
Qed.

(** Releasing a port has a result for every address, whether it has a bitmap or
    not. *)
Lemma npf_portmap_put_total kmem pm alen addr port : pm_wf pm → addr_arg alen addr → inw 16 port →
  ∃ pm', npf_portmap_put kmem pm alen addr port = Some pm' ∧ pm_wf pm' ∧
    ∀ k q, port_ok q → ¬ (k = addr_key alen addr ∧ q = ntohs port) → pm_used pm' k q = pm_used pm k q.
Proof.
  intros Hwf Harg Hport. unfold npf_portmap_put. destruct (npf_portmap_autoget kmem pm alen addr) as [r pm1] eqn:Eg.
  destruct (npf_portmap_autoget_spec _ _ _ _ _ _ Hwf Harg Eg) as (Hwf1 & _ & Hu1 & Hr & _).
  destruct r as [id|]; [|by exists pm1]. specialize (Hr id eq_refl).
  assert (port_ok (ntohs port)) as Hp by (pose proof (bswap16_range port Hport) as Hb; exact Hb).
  destruct (pm_bits pm1 _ id Hwf1 Hr) as [Hb _]. destruct (bitmap_clr_spec _ _ Hb Hp) as (ret & bits' & -> & Hres).
  destruct (op_result_used pm1 _ id _ _ _ _ _ Hwf1 Hp Hr Hres) as [Hwf' Hu'].
  exists (set_bits pm1 id bits'). split_and!; [done|done|]. intros k q Hq Hne. rewrite Hu', Hu1 by done.
  rewrite decide_False; [done|naive_solver].
Qed.

(** Taking, releasing and flushing.  On an address with a bitmap,
    [npf_portmap_take] succeeds exactly for a free port of the configured
    range and marks it taken, and [npf_portmap_put] makes a port free; neither
    touches any other port or address.  After [npf_portmap_flush] every port
    of every address is free. *)
Theorem npf_portmap_take_put_flush kmem pm alen addr p :
  let key := addr_key alen addr in
  pm_wf pm → addr_arg alen addr → port_ok p → is_Some (thmap_get (addr_map pm) key) →
  (∃ ret pm', npf_portmap_take kmem true pm alen addr (htons p) = Some (ret, pm') ∧ pm_wf pm' ∧
     (ret = true ↔ min_port pm <= p <= max_port pm ∧ pm_used pm key p = false) ∧
     ∀ k q, port_ok q → pm_used pm' k q =
       if decide (ret = true ∧ k = key ∧ q = p) then true else pm_used pm k q) ∧
  (∃ pm', npf_portmap_put kmem pm alen addr (htons p) = Some pm' ∧ pm_wf pm' ∧
     ∀ k q, port_ok q → pm_used pm' k q = if decide (k = key ∧ q = p) then false else pm_used pm k q) ∧
  (∀ k q, pm_used (npf_portmap_flush pm) k q = false).
Proof.
  intros key Hwf Harg Hp [id Hid].
  assert (∀ kmem, npf_portmap_autoget kmem pm alen addr = (Some id, pm)) as Hget
    by (intros km; unfold npf_portmap_autoget; fold key; by rewrite Hid).
  assert (ntohs (htons p) = p) as Hnp
    by (apply bswap16_involutive; unfold port_ok, PORTMAP_MAX_BITS in Hp; unfold inw; lia).
  destruct (pm_bits pm key id Hwf Hid) as [Hb Hu]. split_and!.
  - unfold npf_portmap_take. rewrite Hget, Hnp.
    destruct ((p <? min_port pm) || (max_port pm <? p)) eqn:E.
    + exists false, pm. split_and!; [done|done| |].
      * split; [done|]. intros [Hr _]. apply orb_true_iff in E as [E|E]; bool_to_prop; lia.
      * intros k q _. rewrite decide_False; [done|naive_solver].
    + bool_to_prop. destruct (bitmap_set_spec true _ p Hb Hp) as (ret & bits' & -> & Hres).
      destruct (op_result_used pm key id _ _ _ _ _ Hwf Hp Hid Hres) as [Hwf' Hu'].
      exists ret, (set_bits pm id bits'). split_and!; [done|done| |exact Hu'].
      rewrite Hu. destruct Hres as (_ & _ & Hret). destruct ret; [simpl in Hret; intuition lia|].
      destruct Hret as [Hret|[_ ?]]; [|done]. simpl in Hret. rewrite Hret. naive_solver.
  - destruct (npf_portmap_put_spec kmem pm alen addr p Hwf Hp ltac:(eauto)) as (pm' & ? & ? & _ & ?). eauto.
  - intros k q. unfold pm_used, npf_portmap_flush. rewrite flush_loop_spec; [done|].
    intros k' id' Hk'. destruct (pm_map_wf pm Hwf k' id' Hk') as (Hin & bm & Hbm & _ & Hbk). eauto.
Qed.

End portmap.

(** ** Witnesses and cases *)

Abbreviation pm0 := (npf_portmap_create (M := gmap (list Z) Z)).

Lemma pm0_wf minp maxp : 1 <= minp <= 65535 → 1 <= maxp <= 65535 → pm_wf (pm0 minp maxp).
Proof. by split. Qed.

(** Extend an execution [H] by a step of thread [i], which is [t] now. *)
Tactic Notation "exec_thread" constr(H) constr(i) constr(t) "as" ident(H') :=
  match type of H with bm_exec _ ?s =>
    let r := eval vm_compute in (bm_step (t_op t) (t_bit t) true (t_pc t) (s_bits s)) in
    match r with (?pc, ?bits) =>
      pose proof (exec_step _ _ _ _ H (sys_step s i t true pc bits ltac:(by vm_compute) ltac:(by vm_compute)
        ltac:(done))) as H'
    end
  end.

Lemma bitmap_linearizable_witness :
  ∃ s, bm_exec [mk_event BM_SET 80 true true; mk_event BM_SET 80 false true] s ∧
    ∃ X, port_spec ∅ [mk_event BM_SET 80 true true; mk_event BM_SET 80 false true] = Some X.
Proof.
  assert (port_ok 80) as Hp by done.
  pose proof (exec_step _ _ _ _ exec_init (sys_call _ BM_SET 80 Hp)) as H1.
  pose proof (exec_step _ _ _ _ H1 (sys_call _ BM_SET 80 Hp)) as H2.
  exec_thread H2 0%nat (mk_thread BM_SET 80 PC_again) as H3.
  exec_thread H3 0%nat (mk_thread BM_SET 80 (PC_cas0 0 (81 <<< 52))) as H4.
  exec_thread H4 1%nat (mk_thread BM_SET 80 PC_again) as H5.
  eexists. split; [exact H5|].
  destruct (bitmap_linearizable _ _ H5) as [(X & HX & _) _]. by exists X.
Defined.

Lemma npf_portmap_get_allocates_witness :
  ∃ port pm', npf_portmap_get true (λ _, true) 7 (pm0 1024 49151) 4 ip_10_1_2_3 = Some (port, pm') ∧
    port = htons 1031 ∧ pm_used pm' ip_10_1_2_3 1031 = true.
Proof.
  destruct (npf_portmap_get_allocates true (λ _, true) 7 (pm0 1024 49151) 4 ip_10_1_2_3)
    as (port & pm' & Hget & Hwf & _ & Hres & _); [by apply pm0_wf|split; [by left|simpl; vm_compute; lia]|lia|].
  exists port, pm'. split; [done|].
  assert (fst <$> npf_portmap_get true (λ _, true) 7 (pm0 1024 49151) 4 ip_10_1_2_3 = Some (htons 1031)) as E
    by (by vm_compute).
  rewrite Hget in E. injection E as ->. split; [done|].
  destruct Hres as [[? _]|(p & Ep & _ & Hr & _ & Hq)]; [done|].
  assert (p = 1031) as ->.
  { change (min_port (pm0 1024 49151)) with 1024 in Hr. change (max_port (pm0 1024 49151)) with 49151 in Hr.
    rewrite <- (bswap16_involutive p), <- Ep by (unfold inw; lia). done. }
  rewrite Hq by (by unfold port_ok). by rewrite decide_True.
Defined.

(** The map after the first address got its bitmap. *)
Definition pm1 : npf_portmap := snd (npf_portmap_autoget true (pm0 1024 49151) 4 ip_10_1_2_3).

Lemma npf_portmap_take_put_flush_witness :
  ∃ pm', npf_portmap_take true true pm1 4 ip_10_1_2_3 (htons 5000) = Some (true, pm') ∧
    pm_used pm' ip_10_1_2_3 5000 = true.
Proof.
  assert (addr_arg 4 ip_10_1_2_3) as Harg by (split; [by left|vm_compute; lia]).
  assert (pm_wf pm1) as Hwf.
  { by apply (npf_portmap_autoget_spec true (pm0 1024 49151) 4 ip_10_1_2_3 (Some 1) pm1); [apply pm0_wf|..]. }
  destruct (npf_portmap_take_put_flush true pm1 4 ip_10_1_2_3 5000) as [(ret & pm' & Htake & _ & Hret & Hq) _];
    [done|done|done|by exists 1|].
  assert (ret = true) as -> by (by apply Hret).
  exists pm'. split; [done|]. rewrite Hq by done. by rewrite decide_True.
Defined.

(** The default range is tried completely. *)
Lemma default_range_coprime : Z.gcd (1024 + 1) (49151 - 1024 + 1) = 1 ∧ Z.gcd (1024 + 1) (65535 - 1024 + 1) = 1.
Proof. done. Qed.

(** With the range 1024-1028 the step 1025 is a multiple of its size: only the
    random target is tried, and the second allocation with the same random
    value fails although four ports are free. *)
Theorem npf_portmap_get_misses_free :
  match npf_portmap_get true (λ _, true) 0 (pm0 1024 1028) 4 ip_10_1_2_3 with
  | Some (port, pm) => port = htons 1024 ∧ pm_used pm ip_10_1_2_3 1025 = false ∧
      fst <$> npf_portmap_get true (λ _, true) 0 pm 4 ip_10_1_2_3 = Some 0
  | None => False
  end.
Proof. vm_compute. done. Qed.

End Portmap.
