(* ===== verification/Ruleset.v ===== *)
(** * Ruleset: rules and rulesets (src/kern/npf_ruleset.c)

    Rules are heap objects: a ruleset holds an array of its static rules, the
    lists of all, dynamic and garbage rules, and each dynamic group heads a
    singly linked list (through [r_next]) of the rules added at run time.
    The heap maps a rule's address to its contents and [None] is [NULL].
    NAT policies and rule procedures belong to other components and are used
    through the class [rule_env]. *)

From Stdlib Require Import String.
From stdpp Require Import strings.
From S2P Require Import Prelude IfMap.
Open Scope Z_scope.
Open Scope npf_scope.

Module Ruleset.
Export IfMap.

Definition NPF_RULE_PASS : Z := 0x1.
Definition NPF_RULE_GROUP : Z := 0x2.
Definition NPF_RULE_FINAL : Z := 0x4.
Definition NPF_RULE_STATEFUL : Z := 0x8.
Definition NPF_RULE_RETRST : Z := 0x10.
Definition NPF_RULE_RETICMP : Z := 0x20.
Definition NPF_RULE_DYNAMIC : Z := 0x40.
Definition NPF_RULE_GSTATEFUL : Z := 0x80.
Definition NPF_DYNAMIC_GROUP : Z := NPF_RULE_GROUP ||| NPF_RULE_DYNAMIC.
Definition NPF_RULE_IN : Z := 0x10000000.
Definition NPF_RULE_OUT : Z := 0x20000000.
Definition NPF_RULE_DIMASK : Z := NPF_RULE_IN ||| NPF_RULE_OUT.
Definition NPF_RULE_PRIVMASK : Z := 0x0f000000.
Definition NPF_RULE_MAXNAMELEN : nat := 64.
Definition NPF_RULE_MAXKEYLEN : nat := 32.
Definition NPF_PRI_FIRST : Z := -2.
Definition NPF_PRI_LAST : Z := -1.
Definition NPF_RULE_KEEPNAT : Z := 0x01000000 &&& NPF_RULE_PRIVMASK.
Definition SKIPTO_ADJ_FLAG : Z := 1 <<< 31.
Definition SKIPTO_MASK : Z := SKIPTO_ADJ_FLAG - 1.

(** A rule.  The fields of the union of dynamic groups ([r_subset]) and
    dynamic rules ([r_priority], [r_parent], [r_next]) are kept apart. *)
Record npf_rule := mk_rule {
  r_attr : Z;
  r_ifid : Z;
  r_skip_to : Z;
  r_code : option Z;
  r_natp : option Z;
  r_rproc : option Z;
  r_subset : option Z;
  r_priority : Z;
  r_parent : option Z;
  r_next : option Z;
  r_id : Z;
  r_name : string;
  r_key : list Z;
  r_info : option (list Z);
}.

Definition NPF_DYNAMIC_GROUP_P (attr : Z) : bool := attr &&& NPF_DYNAMIC_GROUP =? NPF_DYNAMIC_GROUP.
Definition NPF_DYNAMIC_RULE_P (attr : Z) : bool := attr &&& NPF_DYNAMIC_GROUP =? NPF_RULE_DYNAMIC.

Record npf_ruleset := mk_ruleset {
  rs_all : list Z;
  rs_dynamic : list Z;
  rs_gc : list Z;
  rs_idcnt : Z;
  rs_slots : Z;
  rs_rules : list Z;
}.

Abbreviation rheap := (gmap Z npf_rule).

(** Field updates. *)
Definition set_attr (a : Z) (r : npf_rule) : npf_rule :=
  mk_rule a (r_ifid r) (r_skip_to r) (r_code r) (r_natp r) (r_rproc r) (r_subset r) (r_priority r)
    (r_parent r) (r_next r) (r_id r) (r_name r) (r_key r) (r_info r).
Definition set_skip_to (s : Z) (r : npf_rule) : npf_rule :=
  mk_rule (r_attr r) (r_ifid r) s (r_code r) (r_natp r) (r_rproc r) (r_subset r) (r_priority r)
    (r_parent r) (r_next r) (r_id r) (r_name r) (r_key r) (r_info r).
Definition set_natp (np : option Z) (r : npf_rule) : npf_rule :=
  mk_rule (r_attr r) (r_ifid r) (r_skip_to r) (r_code r) np (r_rproc r) (r_subset r) (r_priority r)
    (r_parent r) (r_next r) (r_id r) (r_name r) (r_key r) (r_info r).
Definition set_subset (p : option Z) (r : npf_rule) : npf_rule :=
  mk_rule (r_attr r) (r_ifid r) (r_skip_to r) (r_code r) (r_natp r) (r_rproc r) p (r_priority r)
    (r_parent r) (r_next r) (r_id r) (r_name r) (r_key r) (r_info r).
Definition set_priority (p : Z) (r : npf_rule) : npf_rule :=
  mk_rule (r_attr r) (r_ifid r) (r_skip_to r) (r_code r) (r_natp r) (r_rproc r) (r_subset r) p
    (r_parent r) (r_next r) (r_id r) (r_name r) (r_key r) (r_info r).
Definition set_parent (p : option Z) (r : npf_rule) : npf_rule :=
  mk_rule (r_attr r) (r_ifid r) (r_skip_to r) (r_code r) (r_natp r) (r_rproc r) (r_subset r) (r_priority r)
    p (r_next r) (r_id r) (r_name r) (r_key r) (r_info r).
Definition set_next (p : option Z) (r : npf_rule) : npf_rule :=
  mk_rule (r_attr r) (r_ifid r) (r_skip_to r) (r_code r) (r_natp r) (r_rproc r) (r_subset r) (r_priority r)
    (r_parent r) p (r_id r) (r_name r) (r_key r) (r_info r).
Definition set_id (i : Z) (r : npf_rule) : npf_rule :=
  mk_rule (r_attr r) (r_ifid r) (r_skip_to r) (r_code r) (r_natp r) (r_rproc r) (r_subset r) (r_priority r)
    (r_parent r) (r_next r) i (r_name r) (r_key r) (r_info r).
Definition set_rproc (rp : option Z) (r : npf_rule) : npf_rule :=
  mk_rule (r_attr r) (r_ifid r) (r_skip_to r) (r_code r) (r_natp r) rp (r_subset r) (r_priority r)
    (r_parent r) (r_next r) (r_id r) (r_name r) (r_key r) (r_info r).
Definition set_code (c : option Z) (r : npf_rule) : npf_rule :=
  mk_rule (r_attr r) (r_ifid r) (r_skip_to r) c (r_natp r) (r_rproc r) (r_subset r) (r_priority r)
    (r_parent r) (r_next r) (r_id r) (r_name r) (r_key r) (r_info r).

(** What rules use of NAT policies and rule procedures; [X] is their state. *)
Class rule_env (X : Type) := {
  natpolicy_cmp : X → Z → Z → bool;
  nat_setid : X → Z → Z → X;
  nat_getid : X → Z → Z;
  natpolicy_destroy : X → Z → X;
  rproc_acquire : X → Z → X;
  rproc_release : X → Z → X;
}.

(** ** Static rules *)

Definition npf_ruleset_create (slots : Z) : npf_ruleset := mk_ruleset [] [] [] 0 slots [].

Definition npf_ruleset_insert (H : rheap) (rs : npf_ruleset) (rl : Z) : rheap * npf_ruleset :=
  match H !! rl with
  | None => (H, rs)
  | Some r =>
      let n := Z.of_nat (List.length (rs_rules rs)) in
      let grp := NPF_DYNAMIC_GROUP_P (r_attr r) in
      let r := if grp then r else set_attr (r_attr r &&& u32 (Z.lnot NPF_RULE_DYNAMIC)) r in
      let idcnt := u64 (rs_idcnt rs + 1) in
      let r := set_id idcnt r in
      let n := n + 1 in
      let r := if r_skip_to r <? n then set_skip_to (SKIPTO_ADJ_FLAG ||| n) r else r in
      (<[rl := r]> H,
       mk_ruleset (rl :: rs_all rs) (if grp then rl :: rs_dynamic rs else rs_dynamic rs) (rs_gc rs)
         idcnt (rs_slots rs) (rs_rules rs ++ [rl]))
  end.

(** ** Dynamic rules *)

(** [strncmp(a, b, NPF_RULE_MAXNAMELEN) == 0]. *)
Definition name_eq (a b : string) : bool :=
  bool_decide (substring 0 NPF_RULE_MAXNAMELEN a = substring 0 NPF_RULE_MAXNAMELEN b).

Fixpoint find_group (H : rheap) (l : list Z) (name : string) : option Z :=
  match l with
  | [] => None
  | rg :: l =>
      match H !! rg with
      | Some r => if name_eq (r_name r) name then Some rg else find_group H l name
      | None => find_group H l name
      end
  end.

Definition npf_ruleset_lookup (H : rheap) (rs : npf_ruleset) (name : string) : option Z :=
  find_group H (rs_dynamic rs) name.

(** The rule after which one of priority [prio] goes: the last of the leading
    rules with a priority not above; the outer [None] is a broken list. *)
Fixpoint add_target (fuel : nat) (H : rheap) (prio : Z) (target it : option Z) : option (option Z) :=
  match fuel, it with
  | _, None => Some target
  | O, _ => None
  | S fuel, Some p =>
      match H !! p with
      | None => None
      | Some r => if r_priority r <=? prio then add_target fuel H prio (Some p) (r_next r) else Some target
      end
  end.

(** Lists are never longer than the heap. *)
Definition list_fuel (H : rheap) : nat := size H.

Definition npf_ruleset_add (H : rheap) (rs : npf_ruleset) (rname : string) (rl : Z) :
    option (Z * rheap * npf_ruleset) :=
  match H !! rl with
  | None => None
  | Some r =>
      if negb (NPF_DYNAMIC_RULE_P (r_attr r)) then Some (EINVAL, H, rs) else
      match npf_ruleset_lookup H rs rname with
      | None => Some (ESRCH, H, rs)
      | Some rg =>
          let idcnt := u64 (rs_idcnt rs + 1) in
          let priocmd := r_priority r in
          let prio := if priocmd <? 0 then 0 else priocmd in
          let H := <[rl := set_priority prio (set_parent (Some rg) (set_id idcnt r))]> H in
          let rs := mk_ruleset (rl :: rs_all rs) (rs_dynamic rs) (rs_gc rs) idcnt (rs_slots rs) (rs_rules rs) in
          match H !! rg with
          | None => None
          | Some g =>
              let first := alter (set_subset (Some rl)) rg (alter (set_next (r_subset g)) rl H) in
              if priocmd =? NPF_PRI_FIRST then Some (0, first, rs)
              else
                match add_target (list_fuel H) H prio None (r_subset g) with
                | None => None
                | Some None => Some (0, first, rs)
                | Some (Some t) =>
                    match H !! t with
                    | None => None
                    | Some tr => Some (0, alter (set_next (Some rl)) t (alter (set_next (r_next tr)) rl H), rs)
                    end
                end
          end
      end
  end.

Definition list_remove (x : Z) (l : list Z) : list Z := filter (λ y, y ≠ x) l.

(** [npf_ruleset_unlink] and the insertion into the G/C list that follows it. *)
Definition npf_ruleset_unlink (H : rheap) (rs : npf_ruleset) (rl : Z) (r : npf_rule) (prev : option Z) :
    rheap * npf_ruleset :=
  let H := match prev with
           | Some p => alter (set_next (r_next r)) p H
           | None => match r_parent r with
                     | Some rg => alter (set_subset (r_next r)) rg H
                     | None => H
                     end
           end in
  (H, mk_ruleset (list_remove rl (rs_all rs)) (rs_dynamic rs) (rl :: rs_gc rs) (rs_idcnt rs) (rs_slots rs)
        (rs_rules rs)).

Fixpoint remove_loop (fuel : nat) (H : rheap) (rs : npf_ruleset) (id : Z) (prev it : option Z) :
    option (Z * rheap * npf_ruleset) :=
  match fuel, it with
  | _, None => Some (ENOENT, H, rs)
  | O, _ => None
  | S fuel, Some p =>
      match H !! p with
      | None => None
      | Some r =>
          if r_id r =? id then let '(H, rs) := npf_ruleset_unlink H rs p r prev in Some (0, H, rs)
          else remove_loop fuel H rs id (Some p) (r_next r)
      end
  end.

Definition npf_ruleset_remove (H : rheap) (rs : npf_ruleset) (rname : string) (id : Z) :
    option (Z * rheap * npf_ruleset) :=
  match npf_ruleset_lookup H rs rname with
  | None => Some (ESRCH, H, rs)
  | Some rg =>
      match H !! rg with
      | None => None
      | Some g => remove_loop (list_fuel H) H rs id None (r_subset g)
      end
  end.

(** The last rule with the key, with its predecessor. *)
Fixpoint remkey_loop (fuel : nat) (H : rheap) (key : list Z) (last : option (Z * npf_rule * option Z))
    (prev it : option Z) : option (option (Z * npf_rule * option Z)) :=
  match fuel, it with
  | _, None => Some last
  | O, _ => None
  | S fuel, Some p =>
      match H !! p with
      | None => None
      | Some r =>
          remkey_loop fuel H key
            (if decide (take (List.length key) (r_key r) = key) then Some (p, r, prev) else last)
            (Some p) (r_next r)
      end
  end.

Definition npf_ruleset_remkey (H : rheap) (rs : npf_ruleset) (rname : string) (key : list Z) :
    option (Z * rheap * npf_ruleset) :=
  match npf_ruleset_lookup H rs rname with
  | None => Some (ESRCH, H, rs)
  | Some rg =>
      match H !! rg with
      | None => None
      | Some g =>
          match remkey_loop (list_fuel H) H key None None (r_subset g) with
          | None => None
          | Some None => Some (ENOENT, H, rs)
          | Some (Some (rl, r, prev)) => let '(H, rs) := npf_ruleset_unlink H rs rl r prev in Some (0, H, rs)
          end
      end
  end.

(** The rules of a list, in order. *)
Fixpoint walk (fuel : nat) (H : rheap) (it : option Z) : option (list Z) :=
  match fuel, it with
  | _, None => Some []
  | O, _ => None
  | S fuel, Some p => match H !! p with None => None | Some r => cons p <$> walk fuel H (r_next r) end
  end.

Definition npf_ruleset_flush (H : rheap) (rs : npf_ruleset) (rname : string) :
    option (Z * rheap * npf_ruleset) :=
  match npf_ruleset_lookup H rs rname with
  | None => Some (ESRCH, H, rs)
  | Some rg =>
      match H !! rg with
      | None => None
      | Some g =>
          match walk (list_fuel H) H (r_subset g) with
          | None => None
          | Some l =>
              Some (0, alter (set_subset None) rg H,
                    mk_ruleset (foldl (λ a x, list_remove x a) (rs_all rs) l) (rs_dynamic rs)
                      (rev l ++ rs_gc rs) 0 (rs_slots rs) (rs_rules rs))
          end
      end
  end.

Section env.
Context {X : Type} {RE : rule_env X}.

Definition npf_rule_free (H : rheap) (x : X) (rl : Z) : rheap * X :=
  match H !! rl with
  | None => (H, x)
  | Some r =>
      let x := match r_natp r with
               | Some np => if flag (r_attr r) NPF_RULE_KEEPNAT then x else natpolicy_destroy x np
               | None => x
               end in
      let x := match r_rproc r with Some rp => rproc_release x rp | None => x end in
      (delete rl H, x)
  end.

Fixpoint free_all (l : list Z) (H : rheap) (x : X) : rheap * X :=
  match l with [] => (H, x) | rl :: l => let '(H, x) := npf_rule_free H x rl in free_all l H x end.

Definition npf_ruleset_gc (H : rheap) (rs : npf_ruleset) (x : X) : rheap * npf_ruleset * X :=
  let '(H, x) := free_all (rs_gc rs) H x in
  (H, mk_ruleset (rs_all rs) (rs_dynamic rs) [] (rs_idcnt rs) (rs_slots rs) (rs_rules rs), x).

Definition npf_ruleset_destroy (H : rheap) (rs : npf_ruleset) (x : X) : rheap * X :=
  let '(H, x) := free_all (rs_all rs) H x in
  let '(H, _, x) := npf_ruleset_gc H rs x in (H, x).

(** *** Reload *)

(** Migrate the rules of a shared list to the new group. *)
Fixpoint migrate (l : list Z) (rg : Z) (H : rheap) (newall oldall : list Z) : rheap * list Z * list Z :=
  match l with
  | [] => (H, newall, oldall)
  | rl :: l => migrate l rg (alter (set_parent (Some rg)) rl H) (rl :: newall) (list_remove rl oldall)
  end.

Definition set_all (rs : npf_ruleset) (all : list Z) : npf_ruleset :=
  mk_ruleset all (rs_dynamic rs) (rs_gc rs) (rs_idcnt rs) (rs_slots rs) (rs_rules rs).

Fixpoint reload_groups (l : list Z) (H : rheap) (newset oldset : npf_ruleset) :
    option (rheap * npf_ruleset * npf_ruleset) :=
  match l with
  | [] => Some (H, newset, oldset)
  | rg :: l =>
      match H !! rg with
      | None => None
      | Some g =>
          match npf_ruleset_lookup H oldset (r_name g) with
          | None => reload_groups l H newset oldset
          | Some active =>
              match H !! active with
              | None => None
              | Some a =>
                  match walk (list_fuel H) H (r_subset a) with
                  | None => None
                  | Some rules =>
                      let H := alter (set_subset (r_subset a)) rg H in
                      let '(H, na, oa) := migrate rules rg H (rs_all newset) (rs_all oldset) in
                      reload_groups l H (set_all newset na) (set_all oldset oa)
                  end
              end
          end
      end
  end.

(** The first rule of the active ruleset with an equal NAT policy that was
    not inherited already. *)
Fixpoint find_policy (l : list Z) (H : rheap) (x : X) (np : Z) : option (Z * Z) :=
  match l with
  | [] => None
  | actrl :: l =>
      match H !! actrl with
      | Some a =>
          match r_natp a with
          | Some anp =>
              if negb (flag (r_attr a) NPF_RULE_KEEPNAT) && natpolicy_cmp x anp np
              then Some (actrl, anp) else find_policy l H x np
          | None => find_policy l H x np
          end
      | None => find_policy l H x np
      end
  end.

Fixpoint reload_policies (l : list Z) (H : rheap) (oldall : list Z) (nid : Z) (x : X) : rheap * X :=
  match l with
  | [] => (H, x)
  | rl :: l =>
      match H !! rl ≫= r_natp with
      | None => reload_policies l H oldall nid x
      | Some np =>
          let nid := u64 (nid + 1) in
          match find_policy oldall H x np with
          | None => reload_policies l H oldall nid (nat_setid x np nid)
          | Some (actrl, anp) =>
              let H := alter (set_natp (Some anp)) rl H in
              let x := nat_setid x anp nid in
              let H := alter (λ a, set_attr (r_attr a ||| NPF_RULE_KEEPNAT) a) actrl H in
              reload_policies l H oldall nid (natpolicy_destroy x np)
          end
      end
  end.

Definition npf_ruleset_reload (H : rheap) (newset oldset : npf_ruleset) (load : bool) (x : X) :
    option (rheap * npf_ruleset * npf_ruleset * X) :=
  match reload_groups (rs_dynamic newset) H newset oldset with
  | None => None
  | Some (H, newset, oldset) =>
      if load then Some (H, newset, oldset, x)
      else
        let '(H, x) := reload_policies (rs_all newset) H (rs_all oldset) 0 x in
        Some (H, mk_ruleset (rs_all newset) (rs_dynamic newset) (rs_gc newset) (rs_idcnt oldset)
                   (rs_slots newset) (rs_rules newset), oldset, x)
  end.

Fixpoint npf_ruleset_findnat (H : rheap) (x : X) (all : list Z) (id : Z) : option Z :=
  match all with
  | [] => None
  | rl :: all =>
      match H !! rl ≫= r_natp with
      | Some np => if nat_getid x np =? id then Some np else npf_ruleset_findnat H x all id
      | None => npf_ruleset_findnat H x all id
      end
  end.

Definition npf_rule_setrproc (r : npf_rule) (x : X) (rp : Z) : npf_rule * X :=
  (set_rproc (Some rp) r, rproc_acquire x rp).

Definition npf_rule_getrproc (r : npf_rule) (x : X) : option Z * X :=
  match r_rproc r with Some rp => (Some rp, rproc_acquire x rp) | None => (None, x) end.

End env.

(** ** Inspection *)

Section inspect.
(** The result of the byte-code of a rule on the packet ([npf_bpf_filter]),
    and the direction and interface of the packet. *)
Context (bpf : Z → bool) (di_mask ifid : Z).

Definition npf_rule_inspect (r : npf_rule) : bool :=
  if negb (r_ifid r =? 0) && negb (r_ifid r =? ifid) then false
  else if negb (r_attr r &&& NPF_RULE_DIMASK =? NPF_RULE_DIMASK) && (r_attr r &&& di_mask =? 0) then false
  else match r_code r with None => true | Some code => bpf code end.

Fixpoint reinspect_loop (fuel : nat) (H : rheap) (final it : option Z) : option (option Z) :=
  match fuel, it with
  | _, None => Some final
  | O, _ => None
  | S fuel, Some p =>
      match H !! p with
      | None => None
      | Some r =>
          if negb (npf_rule_inspect r) then reinspect_loop fuel H final (r_next r)
          else if flag (r_attr r) NPF_RULE_FINAL then Some (Some p)
          else reinspect_loop fuel H (Some p) (r_next r)
      end
  end.
Definition npf_rule_reinspect (H : rheap) (rg : npf_rule) : option (option Z) :=
  reinspect_loop (list_fuel H) H None (r_subset rg).

(** The loop of [npf_ruleset_inspect]; the outer [None] is non-termination
    within the fuel or a broken list. *)
Fixpoint inspect_loop (fuel : nat) (H : rheap) (rules : list Z) (n : Z) (final : option Z) :
    option (option Z) :=
  if Z.of_nat (List.length rules) <=? n then Some final else
  match fuel with
  | O => None
  | S fuel =>
      match rules !! Z.to_nat n with
      | None => None
      | Some rl =>
          match H !! rl with
          | None => None
          | Some r =>
              let skip_to := r_skip_to r &&& SKIPTO_MASK in
              let attr := r_attr r in
              if flag attr NPF_RULE_GROUP && bool_decide (is_Some final) then Some final
              else if negb (npf_rule_inspect r) then inspect_loop fuel H rules skip_to final
              else
                let next final :=
                  if flag attr NPF_RULE_FINAL then Some final else inspect_loop fuel H rules (n + 1) final in
                if NPF_DYNAMIC_GROUP_P attr then
                  match npf_rule_reinspect H r with
                  | None => None
                  | Some (Some sub) => Some (Some sub)
                  | Some None => next final
                  end
                else if negb (flag attr NPF_RULE_GROUP) then next (Some rl)
                else next final
          end
      end
  end.
End inspect.

(** Each slot is visited at most once ([inspect_total]). *)
Definition npf_ruleset_inspect (bpf : Z → bool) (di ifid : Z) (H : rheap) (rs : npf_ruleset) :
    option (option Z) :=
  let di_mask := if flag di PFIL_IN then NPF_RULE_IN else NPF_RULE_OUT in
  inspect_loop bpf di_mask ifid (List.length (rs_rules rs)) H (rs_rules rs) 0 None.

Record npf_match_info := mk_match_info { mi_retfl : Z; mi_rid : Z; mi_di : Z }.

Definition npf_rule_conclude (r : npf_rule) (mi : npf_match_info) : Z * npf_match_info :=
  (if flag (r_attr r) NPF_RULE_PASS then 0 else ENETUNREACH, mk_match_info (r_attr r) (r_id r) (mi_di mi)).

(** ** Linked lists in the heap *)

Fixpoint chain (H : rheap) (p : option Z) (l : list Z) : Prop :=
  match l with
  | [] => p = None
  | x :: l => p = Some x ∧ ∃ r, H !! x = Some r ∧ chain H (r_next r) l
  end.

Lemma chain_det H l : ∀ p l', chain H p l → chain H p l' → l = l'.
Proof.
  induction l as [|x l IH]; intros p [|x' l']; simpl; try done.
  - by intros -> [? _].
  - by intros [-> _] ?.
  - intros [-> (r & Hr & Hc)] [[= <-] (r' & Hr' & Hc')]. simplify_eq. f_equal. by eapply IH.
Qed.

Lemma chain_app H l1 : ∀ p x l2, chain H p (l1 ++ x :: l2) → chain H (Some x) (x :: l2).
Proof.
  induction l1 as [|y l1 IH]; intros p x l2; simpl.
  - intros [-> H0]. done.
  - intros [_ (r & _ & Hc)]. by eapply IH.
Qed.

Lemma chain_nodup H l : ∀ p, chain H p l → NoDup l.
Proof.
  induction l as [|x l IH]; intros p Hc; [constructor|].
  assert (chain H (Some x) (x :: l)) as Hx by (by destruct Hc as [-> ?]).
  destruct Hc as [-> (r & Hr & Hc)]. constructor; [|by eapply IH].
  intros [l1 [l2 ->]]%list_elem_of_split.
  assert (chain H (Some x) (x :: l2)) as Hx2 by (by eapply chain_app).
  pose proof (chain_det _ _ _ _ Hx Hx2) as [= E].
  assert (List.length (l1 ++ x :: l2) = List.length l2) as E' by congruence.
  rewrite length_app in E'. simpl in E'. lia.
Qed.

Lemma chain_dom H l : ∀ p, chain H p l → ∀ x, x ∈ l → ∃ r, H !! x = Some r.
Proof.
  induction l as [|y l IH]; intros p; [set_solver|]. intros [-> (r & Hr & Hc)] x [->|Hx]%elem_of_cons; eauto.
Qed.

Lemma chain_fuel H p l : chain H p l → (List.length l <= list_fuel H)%nat.
Proof.
  intros Hc. unfold list_fuel. rewrite <- size_dom.
  assert (size (list_to_set l : gset Z) = List.length l) as <-
    by (apply size_list_to_set; by eapply chain_nodup).
  apply subseteq_size. intros x Hx%elem_of_list_to_set.
  destruct (chain_dom H l p Hc x Hx) as [r Hr]. by eapply elem_of_dom_2.
Qed.

Lemma walk_spec fuel H l : ∀ p, chain H p l → (List.length l <= fuel)%nat → walk fuel H p = Some l.
Proof.
  revert l. induction fuel as [|fuel IH]; intros [|x l] p; simpl; try lia; try by intros ->.
  intros [-> (r & Hr & Hc)] Hf. rewrite Hr, (IH l) by (done || lia). done.
Qed.

(** A list is unchanged by writes to other objects and to other fields. *)
Lemma chain_frame H H' l : ∀ p, chain H p l →
  (∀ x r, x ∈ l → H !! x = Some r → ∃ r', H' !! x = Some r' ∧ r_next r' = r_next r) → chain H' p l.
Proof.
  induction l as [|x l IH]; intros p; [done|]. intros [-> (r & Hr & Hc)] Hf. split; [done|].
  destruct (Hf x r) as (r' & Hr' & E); [apply list_elem_of_here|done|]. exists r'. split; [done|].
  rewrite E. apply IH; [done|]. intros y ry Hy. apply Hf. by apply list_elem_of_further.
Qed.

(** ** Verdicts *)

Section verdict.
Context (bpf : Z → bool) (di_mask ifid : Z) (H : rheap).

Definition rl_matches (rl : Z) : bool :=
  match H !! rl with Some r => npf_rule_inspect bpf di_mask ifid r | None => false end.
Definition rl_attr (rl : Z) : Z := match H !! rl with Some r => r_attr r | None => 0 end.
Definition rl_final (rl : Z) : bool := flag (rl_attr rl) NPF_RULE_FINAL.

(** A list of dynamic rules: the first matching final rule, or the last
    matching one. *)
Definition subset_verdict (l : list Z) : option Z :=
  match list_find (λ rl, rl_matches rl && rl_final rl = true) l with
  | Some (_, rl) => Some rl
  | None => last (filter (λ rl, rl_matches rl = true) l)
  end.

Lemma list_find_cons_bool (f : Z → bool) x l :
  list_find (λ y, f y = true) (x :: l) =
    if f x then Some (0%nat, x) else prod_map S id <$> list_find (λ y, f y = true) l.
Proof. simpl. destruct (decide (f x = true)) as [->|E]; [done|]. by destruct (f x). Qed.

Lemma reinspect_loop_spec fuel l : ∀ p final, chain H p l → (List.length l <= fuel)%nat →
  reinspect_loop bpf di_mask ifid fuel H final p =
    Some (match subset_verdict l with Some x => Some x | None => final end).
Proof.
  revert l. induction fuel as [|fuel IH]; intros [|x l] p final; simpl List.length; try lia;
    [by intros ->|by intros ->|].
  intros [-> (r & Hr & Hc)] Hf. cbn [reinspect_loop]. rewrite Hr.
  assert (rl_matches x = npf_rule_inspect bpf di_mask ifid r) as Em by (unfold rl_matches; by rewrite Hr).
  assert (rl_final x = flag (r_attr r) NPF_RULE_FINAL) as Ef by (unfold rl_final, rl_attr; by rewrite Hr).
  unfold subset_verdict. rewrite list_find_cons_bool, filter_cons, Em, Ef.
  destruct (npf_rule_inspect bpf di_mask ifid r); cbn [negb andb].
  - destruct (flag _ _); [done|]. rewrite (IH l) by (done || lia). unfold subset_verdict.
    rewrite decide_True by done. destruct (list_find _ l) as [[i y]|]; [done|].
    destruct (filter _ l) as [|y l'] eqn:E; [done|]. simpl. f_equal.
    by destruct (last (y :: l')) eqn:El; [|by apply last_None in El].
  - rewrite (IH l) by (done || lia). unfold subset_verdict. rewrite decide_False by done.
    by destruct (list_find _ l) as [[i y]|].
Qed.

(** A ruleset as the nested groups it is written with: a rule, the rules
    that are skipped when it does not match, and the rules after those. *)
Inductive forest := FNil | FNode (rl : Z) (body rest : forest).

Fixpoint fsize (f : forest) : nat :=
  match f with FNil => 0 | FNode _ b r => S (fsize b + fsize r) end.
Fixpoint flatten (f : forest) : list Z :=
  match f with FNil => [] | FNode rl b r => rl :: flatten b ++ flatten r end.

(** The dynamic rules of a group. *)
Definition group_rules (rl : Z) : list Z :=
  match H !! rl with Some r => default [] (walk (list_fuel H) H (r_subset r)) | None => [] end.

Inductive verdict := Stop (rl : option Z) | Go (rl : option Z).

(** The meaning of a ruleset: the last matching rule counts; a final rule
    ends the search, and so does a group once something matched; a dynamic
    group decides if any of its rules matches; the body of a rule or group is
    considered only if the rule itself matches. *)
Fixpoint eval_forest (f : forest) (final : option Z) : verdict :=
  match f with
  | FNil => Go final
  | FNode rl body rest =>
      let group := flag (rl_attr rl) NPF_RULE_GROUP in
      let enter final :=
        if rl_final rl then Stop final
        else match eval_forest body final with Stop x => Stop x | Go x => eval_forest rest x end in
      if group && bool_decide (is_Some final) then Stop final
      else if negb (rl_matches rl) then eval_forest rest final
      else if NPF_DYNAMIC_GROUP_P (rl_attr rl) then
        match subset_verdict (group_rules rl) with Some x => Stop (Some x) | None => enter final end
      else enter (if group then final else Some rl)
  end.

Definition the_rule (v : verdict) : option Z := match v with Stop x | Go x => x end.

(** The skip-to slots of the rules of a forest that starts at slot [n]. *)
Fixpoint skips_ok (n : Z) (f : forest) : Prop :=
  match f with
  | FNil => True
  | FNode rl b r =>
      (∃ x, H !! rl = Some x ∧ r_skip_to x &&& SKIPTO_MASK = n + 1 + Z.of_nat (fsize b)) ∧
      skips_ok (n + 1) b ∧ skips_ok (n + 1 + Z.of_nat (fsize b)) r
  end.

(** The lists of the dynamic groups are proper. *)
Definition groups_ok (rules : list Z) : Prop :=
  ∀ rl r, rl ∈ rules → H !! rl = Some r → NPF_DYNAMIC_GROUP_P (r_attr r) = true →
    ∃ l, chain H (r_subset r) l.

Lemma npf_rule_reinspect_spec rl r : H !! rl = Some r → (∃ l, chain H (r_subset r) l) →
  npf_rule_reinspect bpf di_mask ifid H r = Some (subset_verdict (group_rules rl)).
Proof.
  intros Hr [l Hc]. unfold npf_rule_reinspect, group_rules. rewrite Hr.
  rewrite (walk_spec _ _ l), (reinspect_loop_spec _ l) by eauto using chain_fuel. simpl.
  by destruct (subset_verdict l).
Qed.

Abbreviation loop := (inspect_loop bpf di_mask ifid).

Lemma inspect_loop_mono fuel : ∀ fuel' rules n final x, (fuel <= fuel')%nat →
  loop fuel H rules n final = Some x → loop fuel' H rules n final = Some x.
Proof.
  induction fuel as [|fuel IH]; intros [|fuel'] rules n final x Hle; try lia; try done.
  - cbn [inspect_loop]. by case_if.
  - cbn [inspect_loop]. case_if; [done|]. destruct (rules !! _) as [rl|]; [|done].
    destruct (H !! rl) as [r|]; [|done]. repeat case_if; try done; try (apply IH; lia).
    all: destruct (npf_rule_reinspect _ _ _ _ _) as [[]|]; try done; try (apply IH; lia).
Qed.

Lemma length_flatten f : List.length (flatten f) = fsize f.
Proof. induction f as [|rl b IHb r IHr]; simpl; [done|]. rewrite length_app. lia. Qed.

Section tree.
Context (rules : list Z) (Hg : groups_ok rules).

(** One iteration of the loop at slot [n]. *)
Lemma inspect_loop_step fuel n rl r final : 0 <= n →
  rules !! Z.to_nat n = Some rl → H !! rl = Some r →
  loop (S fuel) H rules n final =
    let enter fin := if rl_final rl then Some fin else loop fuel H rules (n + 1) fin in
    if flag (rl_attr rl) NPF_RULE_GROUP && bool_decide (is_Some final) then Some final
    else if negb (rl_matches rl) then loop fuel H rules (r_skip_to r &&& SKIPTO_MASK) final
    else if NPF_DYNAMIC_GROUP_P (rl_attr rl) then
      match subset_verdict (group_rules rl) with Some x => Some (Some x) | None => enter final end
    else enter (if flag (rl_attr rl) NPF_RULE_GROUP then final else Some rl).
Proof.
  intros Hn Hrl Hr. cbn [inspect_loop].
  destruct (Z.of_nat (List.length rules) <=? n) eqn:E; bool_to_prop.
  { apply lookup_lt_Some in Hrl. lia. }
  rewrite Hrl, Hr. unfold rl_matches, rl_final, rl_attr. rewrite Hr.
  case_if; [done|]. case_if; [done|]. case_if.
  - rewrite (npf_rule_reinspect_spec rl r Hr); [by destruct (subset_verdict _)|].
    eapply Hg; [by eapply list_elem_of_lookup_2|done|done].
  - by destruct (flag _ NPF_RULE_GROUP).
Qed.

(** The result of a search that has the verdict [v] so far and goes on at
    slot [n]. *)
Definition outcome (v : verdict) (fuel : nat) (n : Z) (x : option Z) : Prop :=
  match v with Stop y => x = y | Go fin => loop fuel H rules n fin = Some x end.

Lemma inspect_forest f : ∀ n pre suf final fuel x,
  rules = pre ++ flatten f ++ suf → n = Z.of_nat (List.length pre) → skips_ok n f →
  outcome (eval_forest f final) fuel (n + Z.of_nat (fsize f)) x →
  loop (fsize f + fuel) H rules n final = Some x.
Proof.
  induction f as [|rl b IHb r IHr]; intros n pre suf final fuel x Hrules Hn Hsk.
  { simpl. by rewrite Z.add_0_r. }
  destruct Hsk as ((ru & Hru & Hskip) & Hb & Hr). cbn [flatten] in Hrules.
  assert (rules !! Z.to_nat n = Some rl) as Hrl.
  { by rewrite Hn, Nat2Z.id, Hrules, lookup_app_r, Nat.sub_diag by lia. }
  assert (∀ fin, outcome (eval_forest r fin) fuel (n + Z.of_nat (fsize (FNode rl b r))) x →
    loop (fsize r + fuel) H rules (n + 1 + Z.of_nat (fsize b)) fin = Some x) as Hrest.
  { intros fin Ho. apply (IHr _ (pre ++ rl :: flatten b) suf); [| |done|].
    - rewrite Hrules. rewrite <- app_assoc. simpl. by rewrite <- app_assoc.
    - rewrite length_app. simpl. rewrite length_flatten. lia.
    - unfold outcome in *. destruct (eval_forest r fin); [done|]. rewrite <- Ho. f_equal. simpl. lia. }
  assert (∀ fin, outcome (match eval_forest b fin with Stop y => Stop y | Go y => eval_forest r y end)
      fuel (n + Z.of_nat (fsize (FNode rl b r))) x →
    loop (fsize b + (fsize r + fuel)) H rules (n + 1) fin = Some x) as Henter.
  { intros fin Ho. apply (IHb _ (pre ++ [rl]) (flatten r ++ suf)); [| |done|].
    - rewrite Hrules. simpl. rewrite <- !app_assoc. simpl. done.
    - rewrite length_app. simpl. lia.
    - destruct (eval_forest b fin); [done|]. by apply Hrest. }
  replace (fsize (FNode rl b r) + fuel)%nat with (S (fsize b + (fsize r + fuel))) by (simpl; lia).
  rewrite (inspect_loop_step _ n rl ru) by (done || lia). rewrite Hskip. cbn [eval_forest]. cbn zeta.
  destruct (_ && _); [by intros ->|]. destruct (negb _).
  { intros Ho. eapply inspect_loop_mono; [|by apply Hrest]. lia. }
  destruct (NPF_DYNAMIC_GROUP_P _); [destruct (subset_verdict _); [by intros ->|]|];
    (destruct (rl_final rl); [by intros ->|apply Henter]).
Qed.

End tree.

(** ** Any ruleset: termination and soundness *)

(** Every slot holds a rule whose skip-to slot is further on. *)
Definition slots_ok (rules : list Z) : Prop :=
  ∀ n rl, rules !! n = Some rl →
    ∃ r, H !! rl = Some r ∧ Z.of_nat n < r_skip_to r &&& SKIPTO_MASK.

Lemma subset_verdict_In l x : subset_verdict l = Some x → x ∈ l ∧ rl_matches x = true.
Proof.
  unfold subset_verdict. destruct (list_find _ l) as [[i y]|] eqn:E.
  - intros [= <-]. apply list_find_Some in E as (Hi & Hb & _). apply andb_prop in Hb as [Hm _].
    split; [by eapply list_elem_of_lookup_2|done].
  - intros Hl. apply last_Some_elem_of in Hl. by apply list_elem_of_filter in Hl as [? ?].
Qed.

(** A rule of the ruleset, static or dynamic, that matches the packet. *)
Definition sound_result (rules : list Z) (final : option Z) : Prop :=
  ∀ x, final = Some x → rl_matches x = true ∧ (x ∈ rules ∨ ∃ g, g ∈ rules ∧ x ∈ group_rules g).

Lemma inspect_loop_total rules : groups_ok rules → slots_ok rules →
  ∀ fuel n final, 0 <= n → Z.of_nat (List.length rules) <= n + Z.of_nat fuel → sound_result rules final →
  ∃ x, loop fuel H rules n final = Some x ∧ sound_result rules x.
Proof.
  intros Hg Hs. induction fuel as [|fuel IH]; intros n final Hn Hf Hsound.
  { exists final. cbn [inspect_loop]. by rewrite (proj2 (Z.leb_le _ n)) by lia. }
  destruct (rules !! Z.to_nat n) as [rl|] eqn:Hrl.
  2:{ apply lookup_ge_None in Hrl. exists final. cbn [inspect_loop]. by rewrite (proj2 (Z.leb_le _ n)) by lia. }
  destruct (Hs _ _ Hrl) as (r & Hr & Hskip). rewrite (inspect_loop_step rules Hg _ n rl r) by done. cbn zeta.
  case_if; [by exists final|]. destruct (rl_matches rl) eqn:Em; cbn [negb]; [|apply IH; (done || lia)].
  assert (sound_result rules (Some rl)) as Hrls.
  { intros y [= <-]. split; [done|left]. by eapply list_elem_of_lookup_2. }
  assert (∀ fin, sound_result rules fin → ∃ x,
    (if rl_final rl then Some fin else loop fuel H rules (n + 1) fin) = Some x ∧ sound_result rules x) as Henter.
  { intros fin Hfin. case_if; [by exists fin|apply IH; (done || lia)]. }
  case_if.
  - destruct (subset_verdict (group_rules rl)) as [x|] eqn:Ev; [|by apply Henter].
    exists (Some x). split; [done|]. intros y [= <-]. apply subset_verdict_In in Ev as [Hin Hm].
    split; [done|]. right. exists rl. split; [by eapply list_elem_of_lookup_2|done].
  - apply Henter. by case_if.
Qed.

End verdict.

Definition ruleset_ok (H : rheap) (rs : npf_ruleset) : Prop :=
  slots_ok H (rs_rules rs) ∧ groups_ok H (rs_rules rs).

Lemma lor_skip n : 0 <= n < 2 ^ 31 → (SKIPTO_ADJ_FLAG ||| n) &&& SKIPTO_MASK = n.
Proof.
  intros Hn. change SKIPTO_MASK with (2 ^ 31 - 1). rewrite land_ones_mod by done.
  change SKIPTO_ADJ_FLAG with (1 <<< 31). rewrite lor_add_disjoint by done.
  rewrite Z.add_comm, Z.mod_add, Z.mod_small by lia. done.
Qed.

Lemma npf_ruleset_insert_spec H rs rl r H' rs' : ruleset_ok H rs → H !! rl = Some r → rl ∉ rs_rules rs →
  0 <= r_skip_to r < 2 ^ 31 → Z.of_nat (List.length (rs_rules rs)) < 2 ^ 31 - 1 → r_subset r = None →
  npf_ruleset_insert H rs rl = (H', rs') → ruleset_ok H' rs' ∧ rs_rules rs' = rs_rules rs ++ [rl].
Proof.
  intros [Hs Hg] Hr Hnin Hskip Hlen Hsub. unfold npf_ruleset_insert. rewrite Hr.
  set (r1 := if NPF_DYNAMIC_GROUP_P (r_attr r) then r else _).
  set (r2 := if r_skip_to (set_id _ r1) <? _ then _ else _). intros [= <- <-]. cbn [rs_rules].
  assert (r_skip_to r1 = r_skip_to r ∧ r_next r1 = r_next r ∧ r_subset r1 = r_subset r) as (E1 & E2 & E3)
    by (unfold r1; by case_if).
  assert (r_next r2 = r_next r ∧ r_subset r2 = r_subset r) as [E4 E5]
    by (unfold r2; case_if; simpl; by rewrite ?E2, ?E3).
  split; [split|done]; cbn [rs_rules].
  - intros n x Hx. apply lookup_snoc_Some in Hx as [[Hn Hx]|[-> <-]].
    + destruct (Hs n x Hx) as (rx & Hrx & Hlt). exists rx.
      rewrite lookup_insert_ne; [done|]. intros <-. apply Hnin. by eapply list_elem_of_lookup_2.
    + exists r2. rewrite lookup_insert_eq. split; [done|]. unfold r2. simpl. rewrite E1. case_if; bool_to_prop.
      * cbn [set_skip_to r_skip_to]. rewrite lor_skip by lia. lia.
      * simpl. rewrite E1. change SKIPTO_MASK with (2 ^ 31 - 1).
        rewrite land_ones_mod, Z.mod_small by lia. lia.
  - intros x rx Hx Hrx Hd.
    assert (∀ p l, chain H p l → chain (<[rl := r2]> H) p l) as Hframe.
    { intros p l Hc. eapply chain_frame; [done|]. intros y ry _ Hy. destruct (decide (rl = y)) as [<-|].
      - exists r2. rewrite lookup_insert_eq. split; [done|]. congruence.
      - exists ry. by rewrite lookup_insert_ne. }
    apply elem_of_app in Hx as [Hx|Hx%list_elem_of_singleton].
    + rewrite lookup_insert_ne in Hrx by (intros <-; done). destruct (Hg x rx Hx Hrx Hd) as [l Hl]. eauto.
    + subst x. rewrite lookup_insert_eq in Hrx. injection Hrx as <-. exists []. simpl. congruence.
Qed.

(** C27: the inspection of any ruleset terminates and is sound.  The slots
    filled by [npf_ruleset_insert] keep every skip-to slot ahead of its rule
    (given a configured skip-to below 2^31), so that inspection visits each
    slot at most once; the rule it returns is one of the ruleset, static or in
    a dynamic group, and matches interface, direction and code. *)
Theorem npf_ruleset_inspect_total bpf di ifid H rs rl r H' rs' :
  ruleset_ok H rs → H !! rl = Some r → rl ∉ rs_rules rs →
  0 <= r_skip_to r < 2 ^ 31 → Z.of_nat (List.length (rs_rules rs)) < 2 ^ 31 - 1 → r_subset r = None →
  npf_ruleset_insert H rs rl = (H', rs') →
  ruleset_ok H' rs' ∧
  ∃ x, npf_ruleset_inspect bpf di ifid H' rs' = Some x ∧
    sound_result bpf (if flag di PFIL_IN then NPF_RULE_IN else NPF_RULE_OUT) ifid H' (rs_rules rs') x.
Proof.
  intros Hok Hr Hnin Hskip Hlen Hsub Hins.
  destruct (npf_ruleset_insert_spec _ _ _ _ _ _ Hok Hr Hnin Hskip Hlen Hsub Hins) as [[Hs' Hg'] _].
  split; [done|]. apply inspect_loop_total; [done|done|lia|lia|]. by intros y [=].
Qed.

(** Inspection follows the nested groups. *)
Lemma inspect_nested bpf di ifid H rs f :
  groups_ok H (rs_rules rs) → rs_rules rs = flatten f → skips_ok H 0 f →
  npf_ruleset_inspect bpf di ifid H rs
    = Some (the_rule (eval_forest bpf (if flag di PFIL_IN then NPF_RULE_IN else NPF_RULE_OUT) ifid H f None)).
Proof.
  intros Hg Hrules Hsk. unfold npf_ruleset_inspect. set (dm := if flag di PFIL_IN then _ else _).
  assert (List.length (rs_rules rs) = (fsize f + 0)%nat) as Hlen
    by (rewrite Hrules, length_flatten; lia).
  rewrite Hlen. eapply (inspect_forest _ _ _ _ (rs_rules rs) Hg f 0 [] []); [by rewrite app_nil_r|done|done|].
  unfold outcome. destruct (eval_forest bpf dm ifid H f None) as [x|x]; [done|].
  cbn [inspect_loop]. by rewrite (proj2 (Z.leb_le _ _)) by lia.
Qed.

(** C16: inspection implements the nested reading of the ruleset: the last
    matching rule counts, a final rule ends the search, a group is entered
    only if it matches and ends the search if something matched before it, and
    a dynamic group decides if one of its rules matches. *)
Theorem npf_ruleset_inspect_nested bpf di ifid H rs f :
  groups_ok H (rs_rules rs) → rs_rules rs = flatten f → skips_ok H 0 f →
  npf_ruleset_inspect bpf di ifid H rs
    = Some (the_rule (eval_forest bpf (if flag di PFIL_IN then NPF_RULE_IN else NPF_RULE_OUT) ifid H f None)).
Proof. apply inspect_nested. Qed.

(** A configured skip-to of 2^31 passes [npf_ruleset_insert] and makes the
    rule skip to itself: when it does not match, inspection never ends. *)
Theorem npf_ruleset_inspect_diverges :
  let '(H, rs) := npf_ruleset_insert
    {[ 1 := mk_rule NPF_RULE_PASS 7 (2 ^ 31) None None None None 0 None None 0 "" [] None ]}
    (npf_ruleset_create 1) 1 in
  ∀ fuel, inspect_loop (λ _, true) NPF_RULE_IN 3 fuel H (rs_rules rs) 0 None = None.
Proof.
  destruct (npf_ruleset_insert _ _ _) as [H rs] eqn:E. vm_compute in E. injection E as <- <-.
  intros fuel. induction fuel as [|fuel IH]; [done|]. exact IH.
Qed.

(** ** List segments and updates of a group's list *)

Fixpoint seg (H : rheap) (p : option Z) (l : list Z) (q : option Z) : Prop :=
  match l with
  | [] => p = q
  | x :: l => p = Some x ∧ ∃ r, H !! x = Some r ∧ seg H (r_next r) l q
  end.

Lemma chain_app_seg H l1 l2 : ∀ p, chain H p (l1 ++ l2) ↔ ∃ q, seg H p l1 q ∧ chain H q l2.
Proof.
  induction l1 as [|x l1 IH]; intros p; simpl; [naive_solver|]. split.
  - intros [-> (r & Hr & (q & Hs & Hc)%IH)]. exists q. eauto.
  - intros (q & [-> (r & Hr & Hs)] & Hc). split; [done|]. exists r. split; [done|]. apply IH. eauto.
Qed.

Lemma seg_snoc H l x : ∀ p q, seg H p (l ++ [x]) q ↔ seg H p l (Some x) ∧ ∃ r, H !! x = Some r ∧ r_next r = q.
Proof.
  induction l as [|y l IH]; intros p q; simpl; [naive_solver|].
  setoid_rewrite IH. naive_solver.
Qed.

Lemma seg_frame H H' l : ∀ p q, seg H p l q →
  (∀ x r, x ∈ l → H !! x = Some r → ∃ r', H' !! x = Some r' ∧ r_next r' = r_next r) → seg H' p l q.
Proof.
  induction l as [|x l IH]; intros p q; [done|]. intros [-> (r & Hr & Hc)] Hf. split; [done|].
  destruct (Hf x r) as (r' & Hr' & E); [apply list_elem_of_here|done|]. exists r'. split; [done|].
  rewrite E. apply IH; [done|]. intros y ry Hy. apply Hf. by apply list_elem_of_further.
Qed.

(** Setting the [r_next] of the last rule of a segment. *)
Lemma seg_set_last H p l t q q' : seg H p (l ++ [t]) q → t ∉ l → seg (alter (set_next q') t H) p (l ++ [t]) q'.
Proof.
  intros [Hs (r & Hr & _)]%seg_snoc Hnin. apply seg_snoc. split.
  - eapply seg_frame; [done|]. intros x rx Hx Hrx. exists rx. rewrite lookup_alter_ne; [done|].
    intros ->. done.
  - exists (set_next q' r). by rewrite lookup_alter_eq, Hr.
Qed.

Lemma chain_alter H p l x f : chain H p l → x ∉ l → chain (alter f x H) p l.
Proof.
  intros Hc Hnin. eapply chain_frame; [done|]. intros y r Hy Hr. exists r.
  rewrite lookup_alter_ne; [done|]. intros ->. done.
Qed.

Lemma seg_alter H p l q x f : seg H p l q → x ∉ l → seg (alter f x H) p l q.
Proof.
  intros Hc Hnin. eapply seg_frame; [done|]. intros y r Hy Hr. exists r.
  rewrite lookup_alter_ne; [done|]. intros ->. done.
Qed.

(** Linking [rl] in front of the list [l2] at the end of segment [l1]. *)
Lemma chain_link H p l1 t tr l2 rl r : chain H p (l1 ++ t :: l2) → H !! t = Some tr → H !! rl = Some r →
  rl ∉ l1 ++ t :: l2 →
  chain (alter (set_next (Some rl)) t (alter (set_next (r_next tr)) rl H)) p (l1 ++ t :: rl :: l2).
Proof.
  intros Hc Htr Hr Hnin. pose proof (chain_nodup _ _ _ Hc) as Hnd.
  replace (l1 ++ t :: l2) with ((l1 ++ [t]) ++ l2) in Hc, Hnin, Hnd by (by rewrite <- app_assoc).
  replace (l1 ++ t :: rl :: l2) with ((l1 ++ [t]) ++ rl :: l2) by (by rewrite <- app_assoc).
  apply chain_app_seg in Hc as (q & Hs & Hc). apply NoDup_app in Hnd as (Hnd1 & Hnd2 & Hnd3).
  rewrite elem_of_app in Hnin. apply chain_app_seg. exists (Some rl). split.
  - apply (seg_set_last _ _ _ _ q); [apply seg_alter; naive_solver|].
    apply NoDup_app in Hnd1 as (_ & Hn & _). intros Ht. apply (Hn t Ht). by apply list_elem_of_here.
  - split; [done|]. exists (set_next (r_next tr) r). split.
    + rewrite lookup_alter_ne; [by rewrite lookup_alter_eq, Hr|]. intros ->. apply Hnin. left. set_solver.
    + apply seg_snoc in Hs as [_ (tr' & Htr' & E)]. simplify_eq. simpl.
      apply chain_alter; [apply chain_alter; naive_solver|]. intros Ht. apply (Hnd2 t); [set_solver|done].
Qed.

(** Unlinking the rule after segment [l1]. *)
Lemma chain_unlink H p l1 t x r l2 : chain H p (l1 ++ t :: x :: l2) → H !! x = Some r →
  chain (alter (set_next (r_next r)) t H) p (l1 ++ t :: l2).
Proof.
  intros Hc Hr. pose proof (chain_nodup _ _ _ Hc) as Hnd.
  replace (l1 ++ t :: x :: l2) with ((l1 ++ [t]) ++ x :: l2) in Hc, Hnd by (by rewrite <- app_assoc).
  replace (l1 ++ t :: l2) with ((l1 ++ [t]) ++ l2) by (by rewrite <- app_assoc).
  apply chain_app_seg in Hc as (q & Hs & -> & r' & Hr' & Hc). assert (r' = r) as -> by congruence.
  apply NoDup_app in Hnd as (Hnd1 & Hnd2 & Hnd3). apply chain_app_seg. exists (r_next r). split.
  - apply (seg_set_last _ _ _ _ (Some x)); [done|].
    apply NoDup_app in Hnd1 as (_ & Hn & _). intros Ht. apply (Hn t Ht). by apply list_elem_of_here.
  - apply chain_alter; [done|]. intros Ht. apply (Hnd2 t); [set_solver|by apply list_elem_of_further].
Qed.

(** ** Where a dynamic rule goes *)

Definition prio_of (H : rheap) (x : Z) : Z := match H !! x with Some r => r_priority r | None => 0 end.

(** The leading rules with a priority not above [prio], and the rest. *)
Fixpoint split_prio (H : rheap) (prio : Z) (l : list Z) : list Z * list Z :=
  match l with
  | [] => ([], [])
  | x :: l =>
      if prio_of H x <=? prio then let '(a, b) := split_prio H prio l in (x :: a, b) else ([], x :: l)
  end.

Lemma split_prio_app H prio l : fst (split_prio H prio l) ++ snd (split_prio H prio l) = l.
Proof. induction l as [|x l IH]; [done|]. simpl. case_if; [|done]. destruct (split_prio H prio l). simpl in *. by rewrite IH. Qed.

Lemma add_target_spec fuel H prio l : ∀ p t, chain H p l → (List.length l <= fuel)%nat →
  add_target fuel H prio t p =
    Some (match last (fst (split_prio H prio l)) with Some x => Some x | None => t end).
Proof.
  revert l. induction fuel as [|fuel IH]; intros [|x l] p t; simpl List.length; try lia; [by intros ->|by intros ->|].
  intros [-> (r & Hr & Hc)] Hf. cbn [add_target split_prio]. rewrite Hr. unfold prio_of at 1. rewrite Hr.
  case_if; [|done]. rewrite (IH l) by (done || lia). destruct (split_prio H prio l) as [a b]. cbn [fst].
  rewrite last_cons. by destruct (last a).
Qed.

(** ** The invariant of the dynamic groups *)

Fixpoint sorted_by (f : Z → Z) (l : list Z) : Prop :=
  match l with [] => True | x :: l => (∀ y, y ∈ l → f x <= f y) ∧ sorted_by f l end.

Lemma sorted_by_app f l1 l2 :
  sorted_by f (l1 ++ l2) ↔ sorted_by f l1 ∧ sorted_by f l2 ∧ ∀ x y, x ∈ l1 → y ∈ l2 → f x <= f y.
Proof.
  induction l1 as [|x l1 IH]; simpl; [set_solver|]. rewrite IH. setoid_rewrite elem_of_app.
  setoid_rewrite elem_of_cons. naive_solver.
Qed.

Lemma sorted_by_ext f g l : (∀ x, x ∈ l → f x = g x) → sorted_by f l → sorted_by g l.
Proof.
  induction l as [|x l IH]; intros Hfg; simpl; [done|]. intros [Hx Hs]. split.
  - intros y Hy. rewrite <- !Hfg by set_solver. auto.
  - apply IH; [|done]. intros y Hy. apply Hfg. set_solver.
Qed.

Definition id_of (H : rheap) (x : Z) : Z := match H !! x with Some r => r_id r | None => 0 end.

(** The rule belongs to group [rg] and was added with one of the first [cnt] IDs. *)
Definition member_ok (cnt rg : Z) (r : npf_rule) : Prop :=
  NPF_DYNAMIC_RULE_P (r_attr r) = true ∧ r_parent r = Some rg ∧ 0 <= r_priority r ∧ 1 <= r_id r <= cnt.

Record group_ok (H : rheap) (cnt rg : Z) (l : list Z) : Prop := {
  go_group : ∃ g, H !! rg = Some g ∧ NPF_DYNAMIC_GROUP_P (r_attr g) = true ∧ chain H (r_subset g) l;
  go_rules : ∀ x, x ∈ l → ∃ r, H !! x = Some r ∧ member_ok cnt rg r;
  go_sorted : sorted_by (prio_of H) l;
  go_ids : NoDup (id_of H <$> l);
}.

Definition dyn_inv (H : rheap) (rs : npf_ruleset) : Prop :=
  ∀ rg, rg ∈ rs_dynamic rs → ∃ l, group_ok H (rs_idcnt rs) rg l.

Lemma group_rules_ok H cnt rg l : group_ok H cnt rg l → group_rules H rg = l.
Proof.
  intros [(g & Hg & _ & Hc) _ _ _]. unfold group_rules. rewrite Hg.
  rewrite (walk_spec _ _ l) by eauto using chain_fuel. done.
Qed.

Lemma dyn_kinds a : NPF_DYNAMIC_RULE_P a = true → NPF_DYNAMIC_GROUP_P a = true → False.
Proof. unfold NPF_DYNAMIC_RULE_P, NPF_DYNAMIC_GROUP_P. intros. bool_to_prop. by rewrite H in H0. Qed.

(** The fields the invariant reads. *)
Definition same_member (r r' : npf_rule) : Prop :=
  r_attr r' = r_attr r ∧ r_parent r' = r_parent r ∧ r_priority r' = r_priority r ∧ r_id r' = r_id r.

Lemma same_member_ok cnt cnt' rg r r' : cnt <= cnt' → same_member r r' → member_ok cnt rg r → member_ok cnt' rg r'.
Proof. intros Hle (E1 & E2 & E3 & E4) (H1 & H2 & H3 & H4). unfold member_ok. rewrite E1, E2, E3, E4. split_and!; (done || lia). Qed.

Lemma group_members (H H' : rheap) cnt cnt' rg (l : list Z) : cnt <= cnt' →
  (∀ x, x ∈ l → ∃ r, H !! x = Some r ∧ member_ok cnt rg r) →
  (∀ x r, x ∈ l → H !! x = Some r → ∃ r', H' !! x = Some r' ∧ same_member r r') →
  (∀ x, x ∈ l → ∃ r, H' !! x = Some r ∧ member_ok cnt' rg r) ∧
  (∀ x, x ∈ l → prio_of H x = prio_of H' x) ∧ id_of H' <$> l = id_of H <$> l.
Proof.
  intros Hle Hm Hs. split_and!.
  - intros x Hx. destruct (Hm x Hx) as (r & Hr & Hok), (Hs x r Hx Hr) as (r' & Hr' & Hsame).
    eauto using same_member_ok.
  - intros x Hx. destruct (Hm x Hx) as (r & Hr & Hok), (Hs x r Hx Hr) as (r' & Hr' & _ & _ & E & _).
    unfold prio_of. by rewrite Hr, Hr'.
  - apply list_fmap_ext. intros i x Hx%list_elem_of_lookup_2.
    destruct (Hm x Hx) as (r & Hr & Hok), (Hs x r Hx Hr) as (r' & Hr' & _ & _ & _ & E).
    unfold id_of. by rewrite Hr, Hr'.
Qed.

Lemma group_frame H H' cnt cnt' rg l : group_ok H cnt rg l → cnt <= cnt' →
  (∀ x, x = rg ∨ x ∈ l → H' !! x = H !! x) → group_ok H' cnt' rg l.
Proof.
  intros [(g & Hg & Hd & Hc) Hm Hs Hi] Hle Hsame.
  destruct (group_members H H' cnt cnt' rg l Hle Hm) as (Hm' & Hp & Hid).
  { intros x r Hx Hr. exists r. rewrite Hsame by auto. done. }
  split; [|done|by eapply sorted_by_ext|by rewrite Hid].
  exists g. rewrite Hsame by auto. split_and!; [done..|]. eapply chain_frame; [done|].
  intros x r Hx Hr. exists r. rewrite Hsame by auto. done.
Qed.

(** A list with [rl] linked between [l1] and [l2]. *)
Lemma group_link H cnt rg l1 l2 rl r g : group_ok H cnt rg (l1 ++ l2) → 0 <= cnt →
  H !! rg = Some g → H !! rl = Some r → member_ok (cnt + 1) rg r → r_id r = cnt + 1 → rl ∉ l1 ++ l2 →
  (∀ x, x ∈ l1 → prio_of H x <= r_priority r) → (∀ x, x ∈ l2 → r_priority r <= prio_of H x) →
  let H' := match last l1 with
            | None => alter (set_subset (Some rl)) rg (alter (set_next (r_subset g)) rl H)
            | Some t => alter (set_next (Some rl)) t
                (alter (set_next (match H !! t with Some tr => r_next tr | None => None end)) rl H)
            end in
  group_ok H' (cnt + 1) rg (l1 ++ rl :: l2) ∧
  ∀ x, x ≠ rg → x ≠ rl → x ∉ l1 ++ l2 → H' !! x = H !! x.
Proof.
  intros [(g' & Hg & Hd & Hc) Hm Hs Hi] Hcnt Hg' Hr Hrok Hrid Hnin Hle1 Hle2 H'. assert (g' = g) as -> by congruence.
  assert (rl ≠ rg) as Hrlrg by (intros ->; destruct Hrok as [Hd' _]; simplify_eq; by eapply dyn_kinds).
  assert (∀ x, x ∈ l1 ++ l2 → x ≠ rg) as Hrg.
  { intros x Hx ->. destruct (Hm rg Hx) as (r' & Hr' & [Hd' _]). simplify_eq. by eapply dyn_kinds. }
  assert (∀ x rx, x ∈ l1 ++ rl :: l2 → H !! x = Some rx → ∃ rx', H' !! x = Some rx' ∧ same_member rx rx') as Hsame.
  { intros x rx Hx Hrx. assert (x ≠ rg) as Hxg.
    { apply elem_of_app in Hx as [?|[->|?]%elem_of_cons]; [apply Hrg; set_solver|done|apply Hrg; set_solver]. }
    assert (∀ y f, (∀ ry, same_member ry (f ry)) →
      ∀ (K : rheap) ry, K !! x = Some ry → ∃ ry', alter f y K !! x = Some ry' ∧ same_member ry ry') as Halt.
    { intros y f Hf K ry Hy. destruct (decide (y = x)) as [->|].
      - exists (f ry). by rewrite lookup_alter_eq, Hy.
      - exists ry. by rewrite lookup_alter_ne. }
    unfold H'. destruct (last l1) as [t|].
    - destruct (Halt rl (set_next (match H !! t with Some tr => r_next tr | None => None end)) ltac:(done) H rx Hrx)
        as (r1 & Hr1 & Hsm). destruct (Halt t (set_next (Some rl)) ltac:(done) _ r1 Hr1) as (r2 & Hr2 & Hsm2).
      exists r2. split; [done|]. unfold same_member in *. intuition congruence.
    - rewrite lookup_alter_ne by done. by apply Halt. }
  assert (∀ x, x ∈ l1 ++ rl :: l2 → ∃ rx, H !! x = Some rx ∧ member_ok (cnt + 1) rg rx) as Hm1.
  { intros x Hx. destruct (decide (x = rl)) as [->|]; [eauto|]. destruct (Hm x) as (rx & Hrx & Hok); [set_solver|].
    exists rx. split; [done|]. by apply (same_member_ok cnt _ _ rx); [lia| |]. }
  destruct (group_members H H' (cnt + 1) (cnt + 1) rg (l1 ++ rl :: l2) ltac:(lia) Hm1 Hsame) as (Hm' & Hp & Hid).
  assert (prio_of H rl = r_priority r) as Hprl by (unfold prio_of; by rewrite Hr).
  split; [split|].
  - unfold H'. destruct (last l1) as [t|] eqn:El.
    + apply last_Some in El as [l1' ->]. rewrite <- app_assoc in Hc. simpl in Hc.
      assert (t ∈ (l1' ++ [t]) ++ l2) as Ht by set_solver.
      destruct (Hm t Ht) as (tr & Htr & _). rewrite Htr.
      exists g. rewrite lookup_alter_ne by exact (Hrg t Ht). rewrite lookup_alter_ne by done.
      split_and!; [done..|]. rewrite <- app_assoc. simpl. apply (chain_link _ _ _ _ _ _ _ r); try done.
      by rewrite <- app_assoc in Hnin.
    + apply last_None in El as ->. simpl in *. exists (set_subset (Some rl) g). rewrite lookup_alter_eq.
      rewrite lookup_alter_ne, Hg by done. split_and!; [done..|]. simpl.
      exists (set_next (r_subset g) r). rewrite lookup_alter_ne, lookup_alter_eq, Hr by done. split; [done|].
      simpl. apply chain_alter; [apply chain_alter; [done|set_solver]|]. intros Hx. by apply (Hrg rg Hx).
  - done.
  - eapply sorted_by_ext; [exact Hp|]. apply sorted_by_app in Hs as (Hs1 & Hs2 & Hs3). apply sorted_by_app.
    split_and!; [done| |].
    + split; [|done]. intros y Hy. rewrite Hprl. by apply Hle2.
    + intros x y Hx [->|Hy]%elem_of_cons; [rewrite Hprl; by apply Hle1|by apply Hs3].
  - rewrite Hid, fmap_app, fmap_cons. rewrite <- Permutation_middle. constructor; [|by rewrite <- fmap_app].
    rewrite <- fmap_app. intros (x & E & Hx)%list_elem_of_fmap. destruct (Hm x Hx) as (rx & Hrx & _ & _ & _ & Hidx).
    unfold id_of in E. rewrite Hr, Hrx in E. lia.
  - intros x Hxg Hxr Hx. unfold H'. destruct (last l1) as [t|] eqn:El.
    + apply last_Some in El as [l1' ->]. rewrite !lookup_alter_ne; [done|done|set_solver].
    + by rewrite !lookup_alter_ne.
Qed.

(** ** Operations on dynamic rules *)

Lemma npf_ruleset_lookup_In H rs name rg : npf_ruleset_lookup H rs name = Some rg → rg ∈ rs_dynamic rs.
Proof.
  unfold npf_ruleset_lookup. induction (rs_dynamic rs) as [|x l IH]; simpl; [done|].
  destruct (H !! x); [case_if|]; try (intros [= <-]; apply list_elem_of_here);
    intros Hf; apply list_elem_of_further; auto.
Qed.

Lemma split_prio_ext H H' prio l : (∀ x, x ∈ l → prio_of H x = prio_of H' x) →
  split_prio H prio l = split_prio H' prio l.
Proof.
  induction l as [|x l IH]; intros Hp; simpl; [done|]. rewrite Hp by set_solver.
  rewrite IH; [done|]. intros y Hy. apply Hp. set_solver.
Qed.

Lemma split_prio_spec H prio l : sorted_by (prio_of H) l →
  (∀ x, x ∈ fst (split_prio H prio l) → prio_of H x <= prio) ∧
  (∀ x, x ∈ snd (split_prio H prio l) → prio <= prio_of H x).
Proof.
  induction l as [|x l IH]; simpl; [set_solver|]. intros [Hx Hs]. case_if; bool_to_prop.
  - destruct (split_prio H prio l) as [a b]. simpl in *. destruct (IH Hs) as [Ha Hb]. split; [|done].
    intros y [->|Hy]%elem_of_cons; [done|by apply Ha].
  - simpl. split; [set_solver|]. intros y [->|Hy]%elem_of_cons; [lia|]. specialize (Hx y Hy). lia.
Qed.

(** The rule as it is entered into group [rg] with ID [id]. *)
Definition enter_rule (rg id : Z) (r : npf_rule) : npf_rule :=
  set_priority (if r_priority r <? 0 then 0 else r_priority r) (set_parent (Some rg) (set_id id r)).

(** The order of the list after adding a rule with priority command [cmd]. *)
Definition insert_prio (H : rheap) (cmd rl : Z) (l : list Z) : list Z :=
  if cmd =? NPF_PRI_FIRST then rl :: l
  else let '(a, b) := split_prio H (if cmd <? 0 then 0 else cmd) l in a ++ rl :: b.

Lemma dyn_inv_other H rs rl r rg : dyn_inv H rs → H !! rl = Some r → NPF_DYNAMIC_RULE_P (r_attr r) = true →
  rg ∈ rs_dynamic rs → rl ≠ rg.
Proof.
  intros Hinv Hr Hd Hin ->. destruct (Hinv rg Hin) as [l [(g & Hg & Hgd & _) _ _ _]]. simplify_eq.
  by eapply dyn_kinds.
Qed.

(** Two groups share no rule. *)
Lemma groups_disjoint H cnt cnt' rg rg' l l' x : group_ok H cnt rg l → group_ok H cnt' rg' l' →
  x ∈ l → x ∈ l' → rg = rg'.
Proof.
  intros [_ Hm _ _] [_ Hm' _ _] Hx Hx'.
  destruct (Hm x Hx) as (r & Hr & _ & Hp & _), (Hm' x Hx') as (r' & Hr' & _ & Hp' & _). congruence.
Qed.

(** The whole effect of linking the entered rule [rl] into group [rg] whose
    list is split at the place of the rule. *)
Section add.
Context (H : rheap) (rs : npf_ruleset) (rl rg : Z) (r : npf_rule).
Context (Hinv : dyn_inv H rs) (Hr : H !! rl = Some r) (Hd : NPF_DYNAMIC_RULE_P (r_attr r) = true).
Context (Hcnt : 0 <= rs_idcnt rs) (Hfresh : ∀ g, g ∈ rs_dynamic rs → rl ∉ group_rules H g).
Context (Hin : rg ∈ rs_dynamic rs).
Let cnt := rs_idcnt rs.
Let r1 := enter_rule rg (cnt + 1) r.
Let H1 := <[rl := r1]> H.

Lemma add_ne g : g ∈ rs_dynamic rs → rl ≠ g.
Proof using Hinv Hr Hd. intros Hg. exact (dyn_inv_other H rs rl r g Hinv Hr Hd Hg). Qed.

Lemma add_frame g lg : g ∈ rs_dynamic rs → group_ok H cnt g lg → group_ok H1 cnt g lg.
Proof using Hinv Hr Hd Hfresh.
  intros Hg Hokg. eapply group_frame; [done|lia|]. intros x Hx. unfold H1. rewrite lookup_insert_ne; [done|].
  intros <-. destruct Hx as [E|Hx]; [exact (add_ne g Hg E)|].
  apply (Hfresh g Hg). by rewrite (group_rules_ok _ _ _ _ Hokg).
Qed.

Lemma add_member : member_ok (cnt + 1) rg r1.
Proof using Hd Hcnt. unfold r1, enter_rule. split_and!; simpl; [done|done|case_if; bool_to_prop; lia|unfold cnt; lia|lia]. Qed.

Definition add_heap (g : npf_rule) (l1 : list Z) : rheap :=
  match last l1 with
  | None => alter (set_subset (Some rl)) rg (alter (set_next (r_subset g)) rl H1)
  | Some t => alter (set_next (Some rl)) t
      (alter (set_next (match H1 !! t with Some tr => r_next tr | None => None end)) rl H1)
  end.

Lemma add_heap_id g l1 : id_of (add_heap g l1) rl = cnt + 1.
Proof using Hinv Hr Hd Hin.
  assert (∀ K y f, (∀ ry, r_id (f ry) = r_id ry) → id_of (alter f y K) rl = id_of K rl) as Halt.
  { intros K y f Hf. unfold id_of. destruct (decide (y = rl)) as [->|];
      [rewrite lookup_alter_eq; by destruct (K !! rl); simpl; rewrite ?Hf|by rewrite lookup_alter_ne]. }
  unfold add_heap. destruct (last l1); rewrite !Halt by done; unfold id_of, H1; by rewrite lookup_insert_eq.
Qed.

Lemma add_link g l1 l2 : H1 !! rg = Some g → group_ok H cnt rg (l1 ++ l2) →
  (∀ x, x ∈ l1 → prio_of H1 x <= r_priority r1) → (∀ x, x ∈ l2 → r_priority r1 <= prio_of H1 x) →
  (∀ g0, g0 ∈ rs_dynamic rs → ∃ lg, group_ok (add_heap g l1) (cnt + 1) g0 lg) ∧
  (∀ g0, g0 ∈ rs_dynamic rs → group_rules (add_heap g l1) g0 =
     if decide (g0 = rg) then l1 ++ rl :: l2 else group_rules H g0).
Proof using Hinv Hr Hd Hcnt Hfresh Hin.
  intros Hg Hok Hl1 Hl2. pose proof (group_rules_ok _ _ _ _ Hok) as El.
  destruct (group_link H1 cnt rg l1 l2 rl r1 g) as [Hok' Hsame]; try done;
    [by apply add_frame|apply lookup_insert_eq|apply add_member|rewrite <- El; by apply Hfresh|].
  fold (add_heap g l1) in Hok', Hsame.
  assert (∀ g0 lg, g0 ∈ rs_dynamic rs → g0 ≠ rg → group_ok H cnt g0 lg →
    group_ok (add_heap g l1) (cnt + 1) g0 lg) as Hoth.
  { intros g0 lg Hg0 Hne Hokg. eapply (group_frame H1 _ cnt); [by apply add_frame|lia|].
    intros x Hx. apply Hsame.
    - intros ->. destruct Hx as [|Hx]; [congruence|]. destruct (go_rules _ _ _ _ Hokg _ Hx) as (rx & Hrx & Hdx & _).
      by destruct (dyn_inv_other H rs rg rx rg Hinv Hrx Hdx Hin).
    - intros ->. destruct Hx as [E|Hx]; [exact (add_ne g0 Hg0 E)|].
      apply (Hfresh g0 Hg0). by rewrite (group_rules_ok _ _ _ _ Hokg).
    - intros Hx'. destruct Hx as [->|Hx]; [|exact (Hne (eq_sym (groups_disjoint _ _ _ _ _ _ _ x Hok Hokg Hx' Hx)))].
      destruct (go_rules _ _ _ _ Hok _ Hx') as (rx & Hrx & Hdx & _).
      by destruct (dyn_inv_other H rs g0 rx g0 Hinv Hrx Hdx Hg0). }
  split; intros g0 Hg0; destruct (decide (g0 = rg)) as [->|Hne]; destruct (Hinv g0 Hg0) as [lg Hlg] || idtac; eauto.
  - by eapply group_rules_ok.
  - by erewrite !group_rules_ok by eauto.
Qed.

End add.

Lemma npf_ruleset_add_spec H rs rname rl r rg : dyn_inv H rs → H !! rl = Some r →
  0 <= rs_idcnt rs < 2 ^ 64 - 1 → (∀ g, g ∈ rs_dynamic rs → rl ∉ group_rules H g) →
  NPF_DYNAMIC_RULE_P (r_attr r) = true → npf_ruleset_lookup H rs rname = Some rg →
  ∃ H' rs', npf_ruleset_add H rs rname rl = Some (0, H', rs') ∧ dyn_inv H' rs' ∧
    rs_idcnt rs' = rs_idcnt rs + 1 ∧ rs_dynamic rs' = rs_dynamic rs ∧ id_of H' rl = rs_idcnt rs + 1 ∧
    (∀ g, g ∈ rs_dynamic rs → group_rules H' g =
       if decide (g = rg) then insert_prio H (r_priority r) rl (group_rules H rg) else group_rules H g).
Proof.
  intros Hinv Hr [Hcnt Hcnt'] Hfresh Hd Hlk. pose proof (npf_ruleset_lookup_In _ _ _ _ Hlk) as Hin.
  unfold npf_ruleset_add. rewrite Hr, Hd, Hlk. cbn [negb]. rewrite (wrap_small 64) by (unfold inw; lia).
  set (cnt := rs_idcnt rs) in *. fold (enter_rule rg (cnt + 1) r).
  set (H1 := <[rl := enter_rule rg (cnt + 1) r]> H).
  destruct (Hinv rg Hin) as [l Hok]. pose proof (group_rules_ok _ _ _ _ Hok) as El. rewrite El.
  assert (rl ∉ l) as Hnl by (rewrite <- El; by apply Hfresh).
  destruct (add_frame H rs rl rg r Hinv Hr Hd Hfresh rg l Hin Hok) as [(g & Hg & Hgd & Hc) Hm Hs _]. fold cnt H1 in Hg, Hc, Hm, Hs.
  rewrite Hg.
  pose proof (add_link H rs rl rg r Hinv Hr Hd Hcnt Hfresh Hin g) as Hlink.
  destruct (r_priority r =? NPF_PRI_FIRST) eqn:Ef; bool_to_prop.
  - destruct (Hlink [] l Hg Hok) as [Hi1 Hi2]; [set_solver| |].
    { intros x Hx. change (r_priority (enter_rule rg (cnt + 1) r) <= prio_of H1 x).
      destruct (Hm x Hx) as (rx & Hrx & _ & _ & Hp & _).
      unfold prio_of. rewrite Hrx. unfold enter_rule. by rewrite Ef. }
    eexists _, _. split; [reflexivity|]. split_and!; try done.
    + apply (add_heap_id H rs rl rg r Hinv Hr Hd Hin g []).
    + intros g0 Hg0. unfold insert_prio. rewrite Ef. exact (Hi2 g0 Hg0).
  - set (prio := if r_priority r <? 0 then 0 else r_priority r).
    rewrite (add_target_spec _ _ _ l) by eauto using chain_fuel.
    destruct (split_prio H1 prio l) as [l1 l2] eqn:Esp.
    pose proof (split_prio_app H1 prio l) as Eapp. pose proof (split_prio_spec H1 prio l Hs) as [Hsp1 Hsp2].
    rewrite Esp in Eapp, Hsp1, Hsp2. cbn [fst snd] in *. clear El. subst l.
    destruct (Hlink l1 l2 Hg Hok Hsp1 Hsp2) as [Hi1 Hi2].
    pose proof (add_heap_id H rs rl rg r Hinv Hr Hd Hin g l1) as Hid. fold cnt in Hid.
    assert (insert_prio H (r_priority r) rl (l1 ++ l2) = l1 ++ rl :: l2) as Eins.
    { unfold insert_prio. rewrite (proj2 (Z.eqb_neq _ _) Ef). fold prio. rewrite (split_prio_ext H H1), Esp; [done|].
      intros x Hx. unfold prio_of, H1. rewrite lookup_insert_ne; [done|]. intros <-. done. }
    unfold add_heap in Hi1, Hi2, Hid. fold cnt H1 in Hi1, Hi2, Hid. destruct (last l1) as [t|] eqn:Et.
    + destruct (Hm t) as (tr & Htr & _); [apply elem_of_app; left; by apply last_Some_elem_of|].
      rewrite Htr in Hi1, Hi2, Hid |- *. eexists _, _. split; [reflexivity|]. split_and!; try done. intros g0 Hg0. rewrite Eins. by apply Hi2.
    + eexists _, _. split; [reflexivity|]. split_and!; try done. intros g0 Hg0. rewrite Eins. by apply Hi2.
Qed.

Definition name_of (H : rheap) (x : Z) : option string := r_name <$> H !! x.

Lemma name_of_alter (H : rheap) y f : (∀ r, r_name (f r) = r_name r) → ∀ x, name_of (alter f y H) x = name_of H x.
Proof.
  intros Hf x. unfold name_of. destruct (decide (y = x)) as [->|].
  - rewrite lookup_alter_eq. destruct (H !! x); simpl; by rewrite ?Hf.
  - by rewrite lookup_alter_ne.
Qed.

Lemma lookup_names H H' rs rs' name : (∀ x, name_of H' x = name_of H x) → rs_dynamic rs' = rs_dynamic rs →
  npf_ruleset_lookup H' rs' name = npf_ruleset_lookup H rs name.
Proof.
  intros Hn Hd. unfold npf_ruleset_lookup. rewrite Hd. clear Hd. induction (rs_dynamic rs) as [|x l IH]; [done|]. simpl.
  pose proof (Hn x) as Hx. clear Hn. rename Hx into Hn. unfold name_of in Hn. destruct (H !! x) as [r|], (H' !! x) as [r'|]; try done.
  simpl in Hn. injection Hn as Hn. by rewrite Hn, IH.
Qed.

Lemma npf_ruleset_add_names H rs rname rl r e H' rs' : H !! rl = Some r →
  npf_ruleset_add H rs rname rl = Some (e, H', rs') → ∀ x, name_of H' x = name_of H x.
Proof.
  intros Hr. unfold npf_ruleset_add. rewrite Hr. case_if; [by intros [= <- <- <-]|].
  destruct (npf_ruleset_lookup H rs rname) as [rg|]; [|by intros [= <- <- <-]].
  fold (enter_rule rg (u64 (rs_idcnt rs + 1)) r). set (H1 := <[rl := _]> H).
  assert (∀ x, name_of H1 x = name_of H x) as H1n.
  { intros x. unfold name_of, H1. destruct (decide (rl = x)) as [<-|]; [by rewrite lookup_insert_eq, Hr|].
    by rewrite lookup_insert_ne. }
  destruct (H1 !! rg) as [g|]; [|done]. case_if.
  { intros [= <- <- <-] x. by rewrite !name_of_alter. }
  destruct (add_target _ _ _ _ _) as [[t|]|]; [destruct (H1 !! t); [|done]| |done];
    intros [= <- <- <-] x; by rewrite !name_of_alter.
Qed.

Lemma alter_same_member (H : rheap) y f : (∀ r, same_member r (f r)) →
  ∀ x r, H !! x = Some r → ∃ r', alter f y H !! x = Some r' ∧ same_member r r'.
Proof.
  intros Hf x r Hr. destruct (decide (y = x)) as [->|].
  - exists (f r). by rewrite lookup_alter_eq, Hr.
  - exists r. by rewrite lookup_alter_ne.
Qed.

(** A list with the rule [x] after [l1] unlinked. *)
Lemma group_unlink H rs cnt rg l1 x r l2 : group_ok H cnt rg (l1 ++ x :: l2) → H !! x = Some r →
  let H' := fst (npf_ruleset_unlink H rs x r (last l1)) in
  group_ok H' cnt rg (l1 ++ l2) ∧ (∀ y, y ≠ rg → y ∉ l1 → H' !! y = H !! y) ∧ (∀ y, name_of H' y = name_of H y).
Proof.
  intros [(g & Hg & Hd & Hc) Hm Hs Hi] Hr H'.
  assert (∀ y, y ∈ l1 ++ x :: l2 → y ≠ rg) as Hrg.
  { intros y Hy ->. destruct (Hm rg Hy) as (r' & Hr' & [Hd' _]). simplify_eq. by eapply dyn_kinds. }
  assert (r_parent r = Some rg) as Hpar
    by (destruct (Hm x) as (r' & Hr' & _ & Hp & _); [set_solver|congruence]).
  assert (∀ y ry, y ∈ l1 ++ l2 → H !! y = Some ry → ∃ ry', H' !! y = Some ry' ∧ same_member ry ry') as Hsame.
  { intros y ry Hy Hry. unfold H', npf_ruleset_unlink. destruct (last l1); simpl; [|rewrite Hpar; simpl].
    - by apply alter_same_member.
    - rewrite lookup_alter_ne by (symmetry; apply Hrg; set_solver). by exists ry. }
  destruct (group_members H H' cnt cnt rg (l1 ++ l2) ltac:(lia)) as (Hm' & Hp & Hid);
    [intros y Hy; apply Hm; set_solver|done|].
  split_and!; [split| |].
  - unfold H', npf_ruleset_unlink. destruct (last l1) as [t|] eqn:El; simpl.
    + apply last_Some in El as [l1' ->]. exists g. rewrite lookup_alter_ne by (apply Hrg; set_solver).
      split_and!; [done..|]. rewrite <- app_assoc in Hc |- *. exact (chain_unlink H _ l1' t x r l2 Hc Hr).
    + apply last_None in El as ->. rewrite Hpar. simpl. exists (set_subset (r_next r) g).
      rewrite lookup_alter_eq, Hg. split_and!; [done..|]. simpl in *.
      destruct Hc as (_ & r' & Hr' & Hc). simplify_eq. apply chain_alter; [done|].
      intros Hx. apply (Hrg rg); [by apply list_elem_of_further|done].
  - done.
  - eapply sorted_by_ext; [exact Hp|]. apply sorted_by_app in Hs as (Hs1 & [_ Hs2] & Hs3). apply sorted_by_app.
    split_and!; [done|done|]. intros y z Hy Hz. apply Hs3; [done|by apply list_elem_of_further].
  - rewrite Hid, fmap_app. rewrite fmap_app, fmap_cons, <- Permutation_middle in Hi. by inv Hi.
  - intros y Hyg Hy. unfold H', npf_ruleset_unlink. destruct (last l1) as [t|] eqn:El; simpl; [|rewrite Hpar; simpl].
    + rewrite lookup_alter_ne; [done|]. intros ->. apply Hy. by apply last_Some_elem_of.
    + by rewrite lookup_alter_ne.
  - intros y. unfold H', npf_ruleset_unlink. destruct (last l1); simpl; [|rewrite Hpar; simpl]; by apply name_of_alter.
Qed.

(** The other groups keep their lists. *)
Lemma unlink_inv H rs rg l1 x r l2 : dyn_inv H rs → rg ∈ rs_dynamic rs →
  group_ok H (rs_idcnt rs) rg (l1 ++ x :: l2) → H !! x = Some r →
  let '(H', rs') := npf_ruleset_unlink H rs x r (last l1) in
  dyn_inv H' rs' ∧ (∀ y, name_of H' y = name_of H y) ∧
  ∀ g, g ∈ rs_dynamic rs → group_rules H' g = if decide (g = rg) then l1 ++ l2 else group_rules H g.
Proof.
  intros Hinv Hin Hok Hr. destruct (group_unlink H rs _ rg l1 x r l2 Hok Hr) as (Hok' & Hsame & Hn).
  destruct (npf_ruleset_unlink H rs x r (last l1)) as [H' rs'] eqn:E. cbn [fst] in *.
  assert (rs_dynamic rs' = rs_dynamic rs ∧ rs_idcnt rs' = rs_idcnt rs) as [Ed Ec]
    by (unfold npf_ruleset_unlink in E; by injection E as <- <-).
  assert (∀ g lg, g ∈ rs_dynamic rs → g ≠ rg → group_ok H (rs_idcnt rs) g lg →
    group_ok H' (rs_idcnt rs) g lg) as Hoth.
  { intros g lg Hg Hne Hokg. eapply (group_frame H _ (rs_idcnt rs)); [done|lia|]. intros y Hy. apply Hsame.
    - intros ->. destruct Hy as [|Hy]; [congruence|]. destruct (go_rules _ _ _ _ Hokg _ Hy) as (rx & Hrx & Hdx & _).
      by destruct (dyn_inv_other H rs rg rx rg Hinv Hrx Hdx Hin).
    - intros Hy'. assert (y ∈ l1 ++ x :: l2) as Hy2 by set_solver. destruct Hy as [->|Hy].
      + destruct (go_rules _ _ _ _ Hok _ Hy2) as (rx & Hrx & Hdx & _).
        by destruct (dyn_inv_other H rs g rx g Hinv Hrx Hdx Hg).
      + exact (Hne (eq_sym (groups_disjoint _ _ _ _ _ _ _ y Hok Hokg Hy2 Hy))). }
  split_and!; [|done|].
  - intros g Hg. rewrite Ed in Hg. rewrite Ec. destruct (decide (g = rg)) as [->|Hne]; [eauto|].
    destruct (Hinv g Hg) as [lg Hlg]. eauto.
  - intros g Hg. destruct (decide (g = rg)) as [->|Hne]; [by eapply group_rules_ok|].
    destruct (Hinv g Hg) as [lg Hlg]. by erewrite !group_rules_ok by eauto.
Qed.

Lemma list_remove_notin x k : x ∉ k → list_remove x k = k.
Proof.
  induction k as [|y k IH]; intros Hk; [done|]. unfold list_remove. rewrite filter_cons, decide_True by set_solver.
  f_equal. apply IH. set_solver.
Qed.

Lemma list_remove_elem x y k : y ∈ list_remove x k ↔ y ∈ k ∧ y ≠ x.
Proof. unfold list_remove. rewrite list_elem_of_filter. tauto. Qed.

Lemma list_remove_NoDup x k : NoDup k → NoDup (list_remove x k).
Proof. apply NoDup_filter. Qed.

Lemma list_remove_middle x a b : x ∉ a → x ∉ b → list_remove x (a ++ x :: b) = a ++ b.
Proof.
  intros Ha Hb. unfold list_remove. rewrite filter_app, filter_cons, decide_False by (by intros []).
  fold (list_remove x a) (list_remove x b). by rewrite !list_remove_notin.
Qed.

(** The loops that look for a rule report the one found and its predecessor. *)
Lemma remove_loop_spec fuel H rs id l : ∀ pre p, chain H p l → (List.length l <= fuel)%nat →
  (∃ l1 x r l2, l = l1 ++ x :: l2 ∧ H !! x = Some r ∧ r_id r = id ∧ (∀ y, y ∈ l1 → id_of H y ≠ id) ∧
     remove_loop fuel H rs id (last pre) p =
       Some (0, fst (npf_ruleset_unlink H rs x r (last (pre ++ l1))),
               snd (npf_ruleset_unlink H rs x r (last (pre ++ l1))))) ∨
  ((∀ y, y ∈ l → id_of H y ≠ id) ∧ remove_loop fuel H rs id (last pre) p = Some (ENOENT, H, rs)).
Proof.
  revert l. induction fuel as [|fuel IH]; intros [|x l] pre p; simpl List.length; try lia.
  1-2: intros ->; right; split; [set_solver|done].
  intros [-> (r & Hr & Hc)] Hf. cbn [remove_loop]. rewrite Hr. destruct (r_id r =? id) eqn:E; bool_to_prop.
  - left. exists [], x, r, l. split_and!; [done|done|done|set_solver|]. by rewrite app_nil_r.
  - assert (id_of H x ≠ id) as Hx by (unfold id_of; by rewrite Hr).
    assert (Some x = last (pre ++ [x])) as -> by (by rewrite last_snoc).
    destruct (IH l (pre ++ [x]) (r_next r) Hc ltac:(lia)) as [(l1 & y & ry & l2 & -> & Hy & Hid & Hl1 & Hrun)|[Hn Hrun]].
    + left. exists (x :: l1), y, ry, l2. split_and!; [done|done|done| |by rewrite Hrun, <- app_assoc].
      intros z [->|Hz]%elem_of_cons; [done|by apply Hl1].
    + right. split; [|done]. intros y [->|Hy]%elem_of_cons; [done|by apply Hn].
Qed.

Lemma npf_ruleset_remove_spec H rs rname rg id : dyn_inv H rs → npf_ruleset_lookup H rs rname = Some rg →
  (∃ x H' rs', x ∈ group_rules H rg ∧ id_of H x = id ∧
     npf_ruleset_remove H rs rname id = Some (0, H', rs') ∧ dyn_inv H' rs' ∧ rs_gc rs' = x :: rs_gc rs ∧
     (∀ y, name_of H' y = name_of H y) ∧
     ∀ g, g ∈ rs_dynamic rs →
       group_rules H' g = if decide (g = rg) then list_remove x (group_rules H rg) else group_rules H g) ∨
  ((∀ x, x ∈ group_rules H rg → id_of H x ≠ id) ∧ npf_ruleset_remove H rs rname id = Some (ENOENT, H, rs)).
Proof.
  intros Hinv Hlk. pose proof (npf_ruleset_lookup_In _ _ _ _ Hlk) as Hin.
  destruct (Hinv rg Hin) as [l Hok]. rewrite (group_rules_ok _ _ _ _ Hok).
  destruct (go_group _ _ _ _ Hok) as (g & Hg & _ & Hc). unfold npf_ruleset_remove. rewrite Hlk, Hg.
  destruct (remove_loop_spec (list_fuel H) H rs id l [] (r_subset g) Hc (chain_fuel _ _ _ Hc))
    as [(l1 & x & r & l2 & -> & Hr & Hid & _ & Hrun)|[Hn Hrun]]; [left|right; by split].
  pose proof (unlink_inv H rs rg l1 x r l2 Hinv Hin Hok Hr) as Hun.
  destruct (npf_ruleset_unlink H rs x r (last l1)) as [H' rs'] eqn:E. destruct Hun as (Hinv' & Hn' & Hgr).
  exists x, H', rs'. split_and!; try done.
  - set_solver.
  - unfold id_of. by rewrite Hr.
  - rewrite app_nil_l, E in Hrun. exact Hrun.
  - unfold npf_ruleset_unlink in E. by injection E as _ <-.
  - intros g' Hg'. rewrite Hgr by done. case_decide; [|done].
    pose proof (chain_nodup _ _ _ Hc) as Hnd. apply NoDup_app in Hnd as (Hnd1 & Hnd2 & [Hx _]%NoDup_cons).
    rewrite list_remove_middle; [done| |done]. intros Hx1. apply (Hnd2 x Hx1). by apply list_elem_of_here.
Qed.

(** C39: Adding a dynamic rule, in a ruleset in which the lists of the groups are
    sorted by priority, have distinct IDs and no ID larger than the counter ([dyn_inv]; the flush of a group resets the counter and breaks the
    last part, after which IDs repeat, [npf_ruleset_flush_reuses_ids]).  A rule
    without the dynamic attribute or for an unknown group is refused and
    nothing changes.  Otherwise the rule, which is in no list yet, gets the
    next ID and is put into the group's list at its place: first for the
    command "first", else after all rules of the same or a more urgent
    priority.  These properties of the lists and IDs are kept, and no other
    group changes. *)
Theorem npf_ruleset_add_priority H rs rname rl r :
  dyn_inv H rs → H !! rl = Some r → 0 <= rs_idcnt rs < 2 ^ 64 - 1 →
  (∀ g, g ∈ rs_dynamic rs → rl ∉ group_rules H g) →
  if NPF_DYNAMIC_RULE_P (r_attr r) then
    match npf_ruleset_lookup H rs rname with
    | None => npf_ruleset_add H rs rname rl = Some (ESRCH, H, rs)
    | Some rg =>
        ∃ H' rs', npf_ruleset_add H rs rname rl = Some (0, H', rs') ∧ dyn_inv H' rs' ∧
          id_of H' rl = rs_idcnt rs + 1 ∧
          ∀ g, g ∈ rs_dynamic rs → group_rules H' g =
            if decide (g = rg) then insert_prio H (r_priority r) rl (group_rules H rg) else group_rules H g
    end
  else npf_ruleset_add H rs rname rl = Some (EINVAL, H, rs).
Proof.
  intros Hinv Hr Hcnt Hfresh. destruct (NPF_DYNAMIC_RULE_P (r_attr r)) eqn:Hd.
  2:{ unfold npf_ruleset_add. by rewrite Hr, Hd. }
  destruct (npf_ruleset_lookup H rs rname) as [rg|] eqn:Hlk.
  2:{ unfold npf_ruleset_add. by rewrite Hr, Hd, Hlk. }
  destruct (npf_ruleset_add_spec H rs rname rl r rg Hinv Hr Hcnt Hfresh Hd Hlk)
    as (H' & rs' & Hadd & Hinv' & _ & _ & Hid & Hgr). eauto 10.
Qed.

Lemma insert_prio_remove H cmd rl l : rl ∉ l → list_remove rl (insert_prio H cmd rl l) = l.
Proof.
  intros Hnin. unfold insert_prio. case_if; [apply (list_remove_middle rl []); [set_solver|done]|].
  set (prio := if cmd <? 0 then 0 else cmd).
  pose proof (split_prio_app H prio l) as E. destruct (split_prio H prio l) as [a b]. simpl in E. subst l.
  apply list_remove_middle; set_solver.
Qed.

(** Removing the rule that was just added, by the ID it was given,
    restores the lists of all dynamic groups and puts the rule on the garbage
    list; an ID that no rule of the group has is reported and nothing changes. *)
Theorem npf_ruleset_add_remove H rs rname rl r rg :
  dyn_inv H rs → H !! rl = Some r → 0 <= rs_idcnt rs < 2 ^ 64 - 1 →
  (∀ g, g ∈ rs_dynamic rs → rl ∉ group_rules H g) →
  NPF_DYNAMIC_RULE_P (r_attr r) = true → npf_ruleset_lookup H rs rname = Some rg →
  ∃ H1 rs1 H2 rs2, npf_ruleset_add H rs rname rl = Some (0, H1, rs1) ∧
    npf_ruleset_remove H1 rs1 rname (rs_idcnt rs + 1) = Some (0, H2, rs2) ∧ dyn_inv H2 rs2 ∧
    rs_gc rs2 = rl :: rs_gc rs1 ∧
    (∀ g, g ∈ rs_dynamic rs → group_rules H2 g = group_rules H g) ∧
    npf_ruleset_remove H rs rname (rs_idcnt rs + 1) = Some (ENOENT, H, rs).
Proof.
  intros Hinv Hr Hcnt Hfresh Hd Hlk. pose proof (npf_ruleset_lookup_In _ _ _ _ Hlk) as Hin.
  destruct (npf_ruleset_add_spec H rs rname rl r rg Hinv Hr Hcnt Hfresh Hd Hlk)
    as (H1 & rs1 & Hadd & Hinv1 & Hc1 & Hd1 & Hid1 & Hgr1).
  pose proof (npf_ruleset_add_names _ _ _ _ _ _ _ _ Hr Hadd) as Hn1.
  assert (npf_ruleset_lookup H1 rs1 rname = Some rg) as Hlk1 by (by rewrite (lookup_names H H1 rs rs1)).
  assert (group_rules H1 rg = insert_prio H (r_priority r) rl (group_rules H rg)) as Eg
    by (rewrite Hgr1 by done; by rewrite decide_True).
  assert (rl ∈ group_rules H1 rg) as Hrl.
  { rewrite Eg. unfold insert_prio. case_if; [apply list_elem_of_here|]. destruct (split_prio _ _ _). set_solver. }
  assert (∀ x, x ∈ group_rules H rg → id_of H x ≠ rs_idcnt rs + 1) as Hold.
  { destruct (Hinv rg Hin) as [l Hok]. rewrite (group_rules_ok _ _ _ _ Hok). intros x Hx.
    destruct (go_rules _ _ _ _ Hok x Hx) as (rx & Hrx & _ & _ & _ & Hidx). unfold id_of. rewrite Hrx. lia. }
  destruct (npf_ruleset_remove_spec H1 rs1 rname rg (rs_idcnt rs + 1) Hinv1 Hlk1)
    as [(x & H2 & rs2 & Hx & Hidx & Hrem & Hinv2 & Hgc & _ & Hgr2)|[Hn _]]; [|by destruct (Hn rl Hrl)].
  assert (x = rl) as ->.
  { destruct (Hinv1 rg ltac:(by rewrite Hd1)) as [l1 Hok1]. rewrite (group_rules_ok _ _ _ _ Hok1) in Hx, Hrl.
    pose proof (go_ids _ _ _ _ Hok1) as Hnd. apply list_elem_of_lookup in Hx as [i Hi], Hrl as [j Hj].
    assert (i = j) as ->; [|congruence].
    eapply (NoDup_lookup _ i j (rs_idcnt rs + 1) Hnd); rewrite list_lookup_fmap, ?Hi, ?Hj; simpl; by f_equal. }
  exists H1, rs1, H2, rs2. split_and!; try done.
  - intros g Hg. rewrite Hgr2 by (by rewrite Hd1). case_decide as E.
    + subst g. rewrite Eg. apply insert_prio_remove. by apply Hfresh.
    + rewrite Hgr1 by done. by rewrite decide_False.
  - destruct (npf_ruleset_remove_spec H rs rname rg (rs_idcnt rs + 1) Hinv Hlk) as [(y & ? & ? & Hy & Hidy & _)|[_ ?]]; [|done].
    by destruct (Hold y Hy).
Qed.

(** ** Reload *)

Definition next_of (H : rheap) (x : Z) : option (option Z) := r_next <$> H !! x.
Definition subset_of (H : rheap) (x : Z) : option (option Z) := r_subset <$> H !! x.

(** The heap changes that keep the links and names of all rules. *)
Definition links_kept (H H' : rheap) : Prop :=
  ∀ x, next_of H' x = next_of H x ∧ name_of H' x = name_of H x.

Lemma links_chain H H' p l : links_kept H H' → chain H p l → chain H' p l.
Proof.
  intros Hk Hc. eapply chain_frame; [done|]. intros x r _ Hr. destruct (Hk x) as [Hx _]. unfold next_of in Hx.
  rewrite Hr in Hx. destruct (H' !! x) as [r'|]; [|done]. injection Hx as Hx. by exists r'.
Qed.

Lemma alter_links (H : rheap) f y : (∀ r, r_next (f r) = r_next r ∧ r_name (f r) = r_name r) →
  links_kept H (alter f y H).
Proof.
  intros Hf x. split; [|apply name_of_alter; apply Hf]. unfold next_of.
  destruct (decide (y = x)) as [->|]; [|by rewrite lookup_alter_ne].
  rewrite lookup_alter_eq. destruct (H !! x); simpl; [|done]. f_equal. apply Hf.
Qed.

Lemma links_trans H1 H2 H3 : links_kept H1 H2 → links_kept H2 H3 → links_kept H1 H3.
Proof. intros H12 H23 x. destruct (H12 x), (H23 x). split; congruence. Qed.

Lemma migrate_spec l rg : ∀ H na oa,
  let '(H', _, _) := migrate l rg H na oa in links_kept H H' ∧ ∀ x, subset_of H' x = subset_of H x.
Proof.
  induction l as [|x l IH]; intros H na oa; simpl; [done|].
  specialize (IH (alter (set_parent (Some rg)) x H) (x :: na) (list_remove x oa)).
  destruct (migrate _ _ _ _ _) as [[H' na'] oa']. destruct IH as [Hk Hs]. split.
  - eapply links_trans; [|done]. by apply alter_links.
  - intros y. rewrite Hs. unfold subset_of. destruct (decide (x = y)) as [->|]; [|by rewrite lookup_alter_ne].
    rewrite lookup_alter_eq. by destruct (H !! y).
Qed.

(** The groups of the active ruleset have proper lists. *)
Definition active_ok (H : rheap) (oldset : npf_ruleset) : Prop :=
  ∀ a, a ∈ rs_dynamic oldset → ∃ ra l, H !! a = Some ra ∧ chain H (r_subset ra) l.

Lemma subset_of_alter (H : rheap) p y x : subset_of (alter (set_subset p) y H) x =
  if decide (y = x) then (λ _, p) <$> H !! x else subset_of H x.
Proof.
  unfold subset_of. case_decide as E; [subst|by rewrite lookup_alter_ne].
  rewrite lookup_alter_eq. by destruct (H !! x).
Qed.

Lemma links_dom H H' x : links_kept H H' → is_Some (H !! x) ↔ is_Some (H' !! x).
Proof.
  intros Hk. destruct (Hk x) as [E _]. unfold next_of in E.
  destruct (H !! x), (H' !! x); naive_solver.
Qed.

Lemma reload_groups_spec l : ∀ H newset oldset, active_ok H oldset →
  (∀ g, g ∈ l → is_Some (H !! g) ∧ g ∉ rs_dynamic oldset) →
  ∃ H' ns os, reload_groups l H newset oldset = Some (H', ns, os) ∧ links_kept H H' ∧
    rs_dynamic ns = rs_dynamic newset ∧
    (∀ x, x ∉ l → subset_of H' x = subset_of H x) ∧
    (∀ g name, g ∈ l → name_of H g = Some name →
       subset_of H' g = match npf_ruleset_lookup H oldset name with
                        | Some a => subset_of H a | None => subset_of H g end).
Proof.
  induction l as [|rg l IH]; intros H newset oldset Hact Hl.
  { exists H, newset, oldset. split_and!; try done. set_solver. }
  assert (∀ H1 ns os, links_kept H H1 → active_ok H1 os → rs_dynamic os = rs_dynamic oldset →
    (∀ a, a ∈ rs_dynamic oldset → subset_of H1 a = subset_of H a) →
    (∀ x, x ≠ rg → subset_of H1 x = subset_of H x) → rs_dynamic ns = rs_dynamic newset →
    (∀ name, name_of H rg = Some name → subset_of H1 rg = match npf_ruleset_lookup H oldset name with
        | Some a => subset_of H a | None => subset_of H rg end) →
    ∃ H' ns' os', reload_groups l H1 ns os = Some (H', ns', os') ∧ links_kept H H' ∧
      rs_dynamic ns' = rs_dynamic newset ∧
      (∀ x, x ∉ rg :: l → subset_of H' x = subset_of H x) ∧
      (∀ g name, g ∈ rg :: l → name_of H g = Some name →
         subset_of H' g = match npf_ruleset_lookup H oldset name with
                          | Some a => subset_of H a | None => subset_of H g end)) as Hgo.
  { intros H1 ns os Hk Hact1 Hod Hsub Hsub' Hnd Hrg.
    destruct (IH H1 ns os Hact1) as (H' & ns' & os' & Hrun & Hk' & Hnd' & Hs1 & Hs2).
    { intros g Hg. rewrite Hod, <- (links_dom H H1 g Hk). apply Hl. by apply list_elem_of_further. }
    exists H', ns', os'. split_and!; [done|by eapply links_trans|congruence| |].
    - intros x Hx. rewrite Hs1 by set_solver. apply Hsub'. set_solver.
    - intros g name Hg Hname. destruct (decide (g ∈ l)) as [Hgl|Hgl].
      + rewrite (Hs2 g name Hgl) by (destruct (Hk g) as [_ ->]; done).
        rewrite (lookup_names H H1 oldset os) by (done || apply Hk).
        destruct (npf_ruleset_lookup H oldset name) as [a|] eqn:E.
        * apply Hsub. by eapply npf_ruleset_lookup_In.
        * destruct (decide (g = rg)) as [->|]; [|by apply Hsub']. rewrite (Hrg name Hname). by rewrite E.
      + assert (g = rg) as -> by set_solver. rewrite Hs1 by done. by apply Hrg. }
  destruct (Hl rg) as [[g Hg] Hrg]; [apply list_elem_of_here|]. cbn [reload_groups]. rewrite Hg.
  assert (name_of H rg = Some (r_name g)) as Hname by (unfold name_of; by rewrite Hg).
  destruct (npf_ruleset_lookup H oldset (r_name g)) as [a|] eqn:E.
  2:{ apply Hgo; try done. intros name. rewrite Hname. intros [= <-]. by rewrite E. }
  pose proof (npf_ruleset_lookup_In _ _ _ _ E) as Ha. destruct (Hact a Ha) as (ra & la & Hra & Hc).
  rewrite Hra, (walk_spec _ _ la) by eauto using chain_fuel.
  pose proof (migrate_spec la rg (alter (set_subset (r_subset ra)) rg H) (rs_all newset) (rs_all oldset)) as Hm.
  destruct (migrate _ _ _ _ _) as [[H1 na] oa]. destruct Hm as [Hk1 Hs1].
  assert (links_kept H H1) as Hk by (eapply links_trans; [|done]; by apply alter_links).
  assert (∀ x, x ≠ rg → subset_of H1 x = subset_of H x) as Hoth.
  { intros x Hx. rewrite Hs1, subset_of_alter. by rewrite decide_False. }
  apply Hgo; try done.
  - intros b Hb. destruct (Hact b Hb) as (rb & lb & Hrb & Hcb). assert (b ≠ rg) as Hbr by (intros ->; done).
    pose proof (Hoth b Hbr) as Hsb. unfold subset_of in Hsb. rewrite Hrb in Hsb.
    destruct (H1 !! b) as [rb'|] eqn:Eb; [|done]. injection Hsb as Hsb. exists rb', lb. split; [done|].
    rewrite Hsb. by eapply links_chain.
  - intros b Hb. apply Hoth. intros ->. done.
  - intros name. rewrite Hname. intros [= <-]. rewrite E, Hs1, subset_of_alter, decide_True, Hg by done.
    simpl. unfold subset_of. by rewrite Hra.
Qed.

Lemma alter_subset (H : rheap) f y : (∀ r, r_subset (f r) = r_subset r) →
  ∀ x, subset_of (alter f y H) x = subset_of H x.
Proof.
  intros Hf x. unfold subset_of. destruct (decide (y = x)) as [->|]; [|by rewrite lookup_alter_ne].
  rewrite lookup_alter_eq. destruct (H !! x); simpl; by rewrite ?Hf.
Qed.

Lemma reload_policies_spec {X} {RE : rule_env X} l oldall : ∀ H nid (x : X),
  links_kept H (fst (reload_policies l H oldall nid x)) ∧
  ∀ y, subset_of (fst (reload_policies l H oldall nid x)) y = subset_of H y.
Proof.
  induction l as [|rl l IH]; intros H nid x; [done|]. cbn [reload_policies].
  destruct (H !! rl ≫= r_natp) as [np|]; [|apply IH].
  destruct (find_policy oldall H x np) as [[actrl anp]|]; [|apply IH].
  set (H1 := alter _ actrl _).
  assert (links_kept H H1) as Hk by (eapply links_trans; by apply alter_links).
  assert (∀ y, subset_of H1 y = subset_of H y) as Hs by (intros y; unfold H1; by rewrite !alter_subset).
  destruct (IH H1 (u64 (nid + 1)) (natpolicy_destroy (nat_setid x anp (u64 (nid + 1))) np)) as [Hk' Hs'].
  split; [by eapply links_trans|]. intros y. by rewrite Hs'.
Qed.

Lemma group_rules_links H H' g a : links_kept H H' → is_Some (H' !! g) → subset_of H' g = subset_of H a →
  (∃ ra l, H !! a = Some ra ∧ chain H (r_subset ra) l) → group_rules H' g = group_rules H a.
Proof.
  intros Hk [g' Hg'] Hs (ra & l & Hra & Hc). unfold subset_of in Hs. rewrite Hg', Hra in Hs. injection Hs as Hs.
  unfold group_rules. rewrite Hg', Hra, Hs. rewrite (walk_spec _ _ l), (walk_spec _ _ l);
    eauto using chain_fuel, links_chain.
Qed.

(** Dynamic rules survive a reload.  Every dynamic group of the new ruleset
    has, after [npf_ruleset_reload], the rules (in order) of the active group
    of the same name; a group with a new name starts empty. *)
Theorem npf_ruleset_reload_keeps_dynamic {X} {RE : rule_env X} H newset oldset load (x : X) rg g :
  active_ok H oldset →
  (∀ g, g ∈ rs_dynamic newset → is_Some (H !! g) ∧ g ∉ rs_dynamic oldset) →
  rg ∈ rs_dynamic newset → H !! rg = Some g → r_subset g = None →
  ∃ H' ns os x', npf_ruleset_reload H newset oldset load x = Some (H', ns, os, x') ∧
    rs_dynamic ns = rs_dynamic newset ∧
    group_rules H' rg = match npf_ruleset_lookup H oldset (r_name g) with
                        | Some a => group_rules H a | None => [] end.
Proof.
  intros Hact Hnew Hin Hg Hsub. unfold npf_ruleset_reload.
  destruct (reload_groups_spec (rs_dynamic newset) H newset oldset Hact Hnew)
    as (H1 & ns & os & -> & Hk & Hd & _ & Hs).
  specialize (Hs rg (r_name g) Hin ltac:(unfold name_of; by rewrite Hg)).
  assert (∀ H', links_kept H H' → subset_of H' rg = subset_of H1 rg →
    group_rules H' rg = match npf_ruleset_lookup H oldset (r_name g) with
                        | Some a => group_rules H a | None => [] end) as Hres.
  { intros H' Hk' Hs'. rewrite Hs in Hs'. assert (is_Some (H' !! rg)) as Hsome
      by (rewrite <- (links_dom H H' rg Hk'); eauto).
    destruct (npf_ruleset_lookup H oldset (r_name g)) as [a|] eqn:E.
    - apply group_rules_links; [done..|]. apply Hact. by eapply npf_ruleset_lookup_In.
    - rewrite (group_rules_links H H' rg rg) by (eauto || (exists g, []; by rewrite Hsub)).
      unfold group_rules. rewrite Hg, Hsub. by destruct (list_fuel H). }
  destruct load; [exists H1, ns, os, x; split_and!; [done..|by apply Hres]|].
  destruct (reload_policies_spec (rs_all ns) (rs_all os) H1 0 x) as [Hk2 Hs2].
  destruct (reload_policies (rs_all ns) H1 (rs_all os) 0 x) as [H2 x2] eqn:E. eexists H2, _, os, x2.
  split; [reflexivity|]. split; [done|]. apply Hres; [by eapply links_trans|apply Hs2].
Qed.

(** ** Witnesses and cases *)

Definition plain_rule (attr skip : Z) (code : option Z) : npf_rule :=
  mk_rule attr 0 skip code None None None 0 None None 0 "" [] None.
Definition dyn_group (name : string) : npf_rule :=
  mk_rule (NPF_DYNAMIC_GROUP ||| NPF_RULE_DIMASK) 0 0 None None None None 0 None None 0 name [] None.
Definition dyn_rule (prio : Z) : npf_rule :=
  mk_rule (NPF_RULE_DYNAMIC ||| NPF_RULE_PASS) 0 0 (Some 7) None None None prio None None 0 "" [] None.

(** A group with a blocking rule and a final passing rule, then a default. *)
Definition sample_rules : rheap :=
  {[ 1 := plain_rule (NPF_RULE_GROUP ||| NPF_RULE_IN) 3 None;
     2 := plain_rule NPF_RULE_DIMASK 0 (Some 22);
     3 := plain_rule (NPF_RULE_PASS ||| NPF_RULE_FINAL ||| NPF_RULE_DIMASK) 0 (Some 80);
     4 := plain_rule (NPF_RULE_PASS ||| NPF_RULE_DIMASK) 0 None ]}.

Definition insert_all (H : rheap) (l : list Z) : rheap * npf_ruleset :=
  fold_left (λ '(H, rs) rl, npf_ruleset_insert H rs rl) l (H, npf_ruleset_create 8).

Lemma npf_ruleset_inspect_total_witness :
  let '(H', rs') := npf_ruleset_insert sample_rules (npf_ruleset_create 8) 4 in
  ∃ x, npf_ruleset_inspect (λ c, c =? 80) PFIL_IN 1 H' rs' = Some x.
Proof.
  destruct (npf_ruleset_insert sample_rules (npf_ruleset_create 8) 4) as [H' rs'] eqn:E.
  destruct (npf_ruleset_inspect_total (λ c, c =? 80) PFIL_IN 1 sample_rules (npf_ruleset_create 8) 4
    (plain_rule (NPF_RULE_PASS ||| NPF_RULE_DIMASK) 0 None) H' rs') as [_ (x & Hx & _)]; try done.
  - split; intros n rl; simpl; [by rewrite lookup_nil|].
    intros Hn. by apply not_elem_of_nil in Hn.
  - apply not_elem_of_nil.
  - by exists x.
Defined.

Definition sample_forest : forest := FNode 1 (FNode 2 FNil (FNode 3 FNil FNil)) (FNode 4 FNil FNil).

(** A packet that matches code 80 is passed by rule 3; one that matches no
    code of the group falls to rule 4; outbound, the group is skipped. *)
Lemma npf_ruleset_inspect_nested_witness :
  let '(H, rs) := insert_all sample_rules [1; 2; 3; 4] in
  npf_ruleset_inspect (λ c, c =? 80) PFIL_IN 1 H rs = Some (Some 3) ∧
  npf_ruleset_inspect (λ c, false) PFIL_IN 1 H rs = Some (Some 4) ∧
  npf_ruleset_inspect (λ c, true) PFIL_OUT 1 H rs = Some (Some 4).
Proof.
  destruct (insert_all sample_rules [1; 2; 3; 4]) as [H rs] eqn:E.
  assert (groups_ok H (rs_rules rs)) as Hg.
  { vm_compute in E. injection E as <- <-. intros rl r Hrl Hr Hd. exfalso. revert Hr Hd.
    cbn [rs_rules] in Hrl. rewrite !elem_of_cons, elem_of_nil in Hrl.
    destruct Hrl as [->|[->|[->|[->|[]]]]]; vm_compute; by intros [= <-]. }
  assert (rs_rules rs = flatten sample_forest) as Hf by (vm_compute in E; by injection E as <- <-).
  assert (skips_ok H 0 sample_forest) as Hs.
  { vm_compute in E. injection E as <- <-. cbn [skips_ok sample_forest]. split_and!; try done;
      (eexists; split; [vm_compute; reflexivity|done]). }
  rewrite !(npf_ruleset_inspect_nested _ _ _ H rs sample_forest Hg Hf Hs).
  vm_compute in E. injection E as <- <-. by vm_compute.
Defined.

(** Two dynamic groups and four rules to add. *)
Definition sample_dyn : rheap * npf_ruleset :=
  insert_all {[ 1 := dyn_group "blocklist"; 2 := dyn_group "other"; 10 := dyn_rule 5; 11 := dyn_rule 1;
                12 := dyn_rule NPF_PRI_FIRST; 13 := dyn_rule 9 ]} [1; 2].

Lemma sample_dyn_inv : dyn_inv (fst sample_dyn) (snd sample_dyn).
Proof.
  intros rg Hrg. exists []. vm_compute in Hrg.
  assert (rg = 2 ∨ rg = 1) as [-> | ->] by set_solver;
    (split; [eexists; split_and!; [vm_compute; reflexivity|done|done]|set_solver|done|constructor]).
Qed.

Lemma sample_dyn_fresh g : g ∈ rs_dynamic (snd sample_dyn) → 10 ∉ group_rules (fst sample_dyn) g.
Proof.
  intros Hg. vm_compute in Hg. assert (g = 2 ∨ g = 1) as [-> | ->] by set_solver; vm_compute; set_solver.
Qed.

Lemma npf_ruleset_add_priority_witness :
  ∃ H' rs', npf_ruleset_add (fst sample_dyn) (snd sample_dyn) "blocklist" 10 = Some (0, H', rs') ∧
    group_rules H' 1 = [10].
Proof.
  pose proof (npf_ruleset_add_priority (fst sample_dyn) (snd sample_dyn) "blocklist" 10 (dyn_rule 5)
    sample_dyn_inv eq_refl ltac:(vm_compute; done) sample_dyn_fresh) as H.
  assert (npf_ruleset_lookup (fst sample_dyn) (snd sample_dyn) "blocklist" = Some 1) as E by (by vm_compute).
  rewrite E in H. destruct H as (H' & rs' & Hadd & _ & _ & Hg). exists H', rs'. split; [done|].
  rewrite Hg by (vm_compute; set_solver). by vm_compute.
Defined.

Lemma npf_ruleset_add_remove_witness :
  ∃ H1 rs1 H2 rs2, npf_ruleset_add (fst sample_dyn) (snd sample_dyn) "blocklist" 10 = Some (0, H1, rs1) ∧
    npf_ruleset_remove H1 rs1 "blocklist" 3 = Some (0, H2, rs2) ∧ group_rules H2 1 = [].
Proof.
  destruct (npf_ruleset_add_remove (fst sample_dyn) (snd sample_dyn) "blocklist" 10 (dyn_rule 5) 1
    sample_dyn_inv eq_refl ltac:(vm_compute; done) sample_dyn_fresh eq_refl ltac:(by vm_compute))
    as (H1 & rs1 & H2 & rs2 & Hadd & Hrem & _ & _ & Hg & _).
  exists H1, rs1, H2, rs2. split_and!; [done|done|]. rewrite Hg by (vm_compute; set_solver). by vm_compute.
Defined.

(** No NAT policies and rule procedures. *)
#[export] Instance null_env : rule_env unit := {
  natpolicy_cmp _ _ _ := false; nat_setid _ _ _ := tt; nat_getid _ _ := 0; natpolicy_destroy _ _ := tt;
  rproc_acquire _ _ := tt; rproc_release _ _ := tt;
}.

(** The heap of [sample_dyn] with rule 10 in "blocklist", and a new ruleset
    whose group 21 has the same name. *)
Definition sample_reload : option (rheap * npf_ruleset * npf_ruleset) :=
  match npf_ruleset_add (fst sample_dyn) (snd sample_dyn) "blocklist" 10 with
  | Some (_, H, rs) =>
      let '(H, ns) := npf_ruleset_insert (<[21 := dyn_group "blocklist"]> H) (npf_ruleset_create 8) 21 in
      Some (H, ns, rs)
  | None => None
  end.

Lemma npf_ruleset_reload_keeps_dynamic_witness :
  ∃ H ns os H' ns' os' x', sample_reload = Some (H, ns, os) ∧
    npf_ruleset_reload H ns os false tt = Some (H', ns', os', x') ∧ group_rules H' 21 = [10].
Proof.
  destruct sample_reload as [[[H ns] os]|] eqn:E; [|by vm_compute in E]. exists H, ns, os.
  destruct (npf_ruleset_reload_keeps_dynamic H ns os false tt 21
    (set_skip_to (SKIPTO_ADJ_FLAG ||| 1) (set_id 1 (dyn_group "blocklist"))))
    as (H' & ns' & os' & x' & Hrun & _ & Hg).
  - vm_compute in E. injection E as <- <- <-. intros a Ha. cbn [rs_dynamic] in Ha.
    assert (a = 2 ∨ a = 1) as [-> | ->] by set_solver.
    + eexists _, []. split; [vm_compute; reflexivity|done].
    + eexists _, [10]. split; [vm_compute; reflexivity|]. split; [done|].
      eexists. split; [vm_compute; reflexivity|done].
  - vm_compute in E. injection E as <- <- <-. intros g Hg. cbn [rs_dynamic] in *.
    assert (g = 21) as -> by set_solver. split; [by eexists|set_solver].
  - vm_compute in E. injection E as <- <- <-. cbn [rs_dynamic]. set_solver.
  - vm_compute in E. injection E as <- <- <-. by vm_compute.
  - done.
  - exists H', ns', os', x'. split; [done|]. split; [done|]. rewrite Hg.
    vm_compute in E. injection E as <- <- <-. by vm_compute.
Defined.

Definition add_list (st : option (Z * rheap * npf_ruleset)) (l : list Z) : option (Z * rheap * npf_ruleset) :=
  fold_left (λ st rl, match st with Some (_, H, rs) => npf_ruleset_add H rs "blocklist" rl | None => None end) l st.

(** Flushing one group resets the ID counter of the whole ruleset: the fourth
    rule added afterwards has the ID of a rule still in use. *)
Theorem npf_ruleset_flush_reuses_ids :
  match add_list (Some (0, fst sample_dyn, snd sample_dyn)) [10] with
  | Some (_, H1, rs1) =>
      match add_list (npf_ruleset_flush H1 rs1 "other") [11; 12; 13] with
      | Some (_, H2, _) => group_rules H2 1 = [12; 11; 10; 13] ∧ id_of H2 13 = id_of H2 10
      | None => False
      end
  | None => False
  end.
Proof. by vm_compute. Qed.

End Ruleset.
