(* ===== verification/Tableset.v ===== *)
(** * Tableset: address tables (src/kern/npf_tableset.c)

    A table stores its entries in a hash map (IPSET), a longest-prefix-match
    structure (LPM), a constant database (CONST) or plain arrays (IFADDR), and
    links them in a list.  [thmap], [lpm] and [cdbr] are libraries the program
    calls: they are the classes [thmap_ops], [lpm_ops] and [cdbr_ops]. *)

From Stdlib Require Import String.
From stdpp Require Import strings.
From S2P Require Import Prelude Addr Thmap IfMap.
Open Scope Z_scope.
Open Scope npf_scope.

Module Tableset.
Export Addr Thmap IfMap.

Definition NPF_TABLE_IPSET : Z := 1.
Definition NPF_TABLE_LPM : Z := 2.
Definition NPF_TABLE_CONST : Z := 3.
Definition NPF_TABLE_IFADDR : Z := 4.
Definition NPF_TABLE_MAXNAMELEN : nat := 32.
Definition NPF_IFADDR_STEP : Z := 4.
Definition NPF_ADDRLEN2IDX (alen : Z) : nat := Z.to_nat (alen >>> 4).

(** An entry; [te_id] is its address. *)
Record npf_tblent := mk_tblent { te_id : Z; te_preflen : Z; te_alen : Z; te_addr : npf_addr_t }.

#[global] Instance npf_tblent_eq_dec : EqDecision npf_tblent.
Proof. solve_decision. Defined.

(** ** The libraries *)

Class lpm_ops (V L : Type) := {
  lpm_create : L;
  lpm_lookup : L → npf_addr_t → Z → option V;
  lpm_insert : L → npf_addr_t → Z → Z → V → Z * L;
  lpm_remove : L → npf_addr_t → Z → Z → L;
  lpm_clear : L → L;
}.

(** The [alen] bytes of an address. *)
Definition akey (alen : Z) (addr : npf_addr_t) : list Z := take (nwords alen) addr.

(** A prefix: address length, prefix length and the prefix bits. *)
Definition prefix_of (addr : npf_addr_t) (alen preflen : Z) : Z * Z * Z :=
  (alen, preflen, addr_int (akey alen addr) / 2 ^ (8 * alen - preflen)).

(** The longest prefix of [addr] in [m], of length [p] or less. *)
Fixpoint longest {V} (m : gmap (Z * Z * Z) V) (addr : npf_addr_t) (alen : Z) (p : nat) : option V :=
  match m !! prefix_of addr alen (Z.of_nat p) with
  | Some v => Some v
  | None => match p with O => None | S p => longest m addr alen p end
  end.

(** The documented behaviour: a finite map of prefixes, looked up by longest
    match. *)
Class lpm_laws (V L : Type) `{lpm_ops V L} := {
  lpm_rep : L → gmap (Z * Z * Z) V;
  lpm_rep_create : lpm_rep lpm_create = ∅;
  lpm_rep_lookup : ∀ l addr alen, lpm_lookup l addr alen = longest (lpm_rep l) addr alen (Z.to_nat (8 * alen));
  lpm_rep_insert : ∀ l addr alen preflen v,
    (fst (lpm_insert l addr alen preflen v) = 0 ∧
     lpm_rep (snd (lpm_insert l addr alen preflen v)) = <[prefix_of addr alen preflen := v]> (lpm_rep l)) ∨
    (fst (lpm_insert l addr alen preflen v) ≠ 0 ∧
     lpm_rep (snd (lpm_insert l addr alen preflen v)) = lpm_rep l);
  lpm_rep_remove : ∀ l addr alen preflen,
    lpm_rep (lpm_remove l addr alen preflen) = delete (prefix_of addr alen preflen) (lpm_rep l);
  lpm_rep_clear : ∀ l, lpm_rep (lpm_clear l) = ∅;
}.

#[global] Instance gmap_lpm V : lpm_ops V (gmap (Z * Z * Z) V) := {
  lpm_create := ∅;
  lpm_lookup m addr alen := longest m addr alen (Z.to_nat (8 * alen));
  lpm_insert m addr alen preflen v := (0, <[prefix_of addr alen preflen := v]> m);
  lpm_remove m addr alen preflen := delete (prefix_of addr alen preflen) m;
  lpm_clear _ := ∅;
}.

#[global] Instance gmap_lpm_laws V : lpm_laws V (gmap (Z * Z * Z) V).
Proof. refine {| lpm_rep := λ m : gmap (Z * Z * Z) V, m |}; try done. intros. by left. Defined.

(** The constant database: opened from a blob; [cdbr_find] returns the data
    recorded for the hash of a key. *)
Class cdbr_ops (C : Type) := {
  cdbr_open_mem : list Z → option C;
  cdbr_entries : C → Z;
  cdbr_find : C → npf_addr_t → Z → option (npf_addr_t * Z);
  cdbr_get : C → Z → option (npf_addr_t * Z);
}.

Section tables.
Context {M L C : Type} `{TL : thmap_laws npf_tblent M} `{LL : lpm_laws npf_tblent L} {CO : cdbr_ops C}.

Inductive table_store :=
| ST_IPSET (t_map : M) (t_gc : list npf_tblent)
| ST_LPM (t_lpm : L)
| ST_CONST (t_cdb : C)
| ST_IFADDR (t_elements : list (list npf_tblent)) (t_allocated : list Z).

Record npf_table := mk_table {
  t_store : table_store;
  t_list : list npf_tblent;
  t_nitems : Z;
  t_id : Z;
  t_refcnt : Z;
  t_name : string;
}.

Definition t_type (t : npf_table) : Z :=
  match t_store t with
  | ST_IPSET _ _ => NPF_TABLE_IPSET | ST_LPM _ => NPF_TABLE_LPM
  | ST_CONST _ => NPF_TABLE_CONST | ST_IFADDR _ _ => NPF_TABLE_IFADDR
  end.

Definition set_content (t : npf_table) (st : table_store) (l : list npf_tblent) (n : Z) : npf_table :=
  mk_table st l n (t_id t) (t_refcnt t) (t_name t).

Definition npf_table_create (name : string) (tid type : Z) (blob : list Z) : option npf_table :=
  let mk st n := Some (mk_table st [] n tid 0 (strlcpy name NPF_TABLE_MAXNAMELEN)) in
  if type =? NPF_TABLE_LPM then mk (ST_LPM lpm_create) 0
  else if type =? NPF_TABLE_IPSET then mk (ST_IPSET thmap_create []) 0
  else if type =? NPF_TABLE_CONST then
    match cdbr_open_mem blob with
    | None => None
    | Some cdb => mk (ST_CONST cdb) (cdbr_entries cdb)
    end
  else if type =? NPF_TABLE_IFADDR then mk (ST_IFADDR [[]; []] [0; 0]) 0
  else None.

Definition ent_key (e : npf_tblent) : list Z := akey (te_alen e) (te_addr e).

Fixpoint ipset_flush_loop (l : list npf_tblent) (m : M) : M :=
  match l with [] => m | e :: l => ipset_flush_loop l (snd (thmap_del m (ent_key e))) end.

Definition table_ipset_flush (t : npf_table) (m : M) (gc : list npf_tblent) : npf_table :=
  set_content t (ST_IPSET (ipset_flush_loop (t_list t) m) gc) [] 0.

Definition table_tree_flush (t : npf_table) (l : L) : npf_table :=
  set_content t (ST_LPM (lpm_clear l)) [] 0.

Definition table_ifaddr_flush (t : npf_table) : npf_table :=
  set_content t (ST_IFADDR [[]; []] [0; 0]) [] 0.

(** [kmem] tells whether the array can be enlarged. *)
Definition table_ifaddr_insert (kmem : bool) (els : list (list npf_tblent)) (alloc : list Z) (alen : Z)
    (e : npf_tblent) : Z * list (list npf_tblent) * list Z :=
  let aidx := NPF_ADDRLEN2IDX alen in
  let allocated := default 0 (alloc !! aidx) in
  let elements := default [] (els !! aidx) in
  let used := Z.of_nat (List.length elements) in
  if allocated <=? used then
    if kmem then
      let toalloc := ((allocated + 1 + (NPF_IFADDR_STEP - 1)) / NPF_IFADDR_STEP) * NPF_IFADDR_STEP in
      (0, <[aidx := elements ++ [e]]> els, <[aidx := toalloc]> alloc)
    else (ENOMEM, els, alloc)
  else (0, <[aidx := elements ++ [e]]> els, alloc).

(** [ent] is the address of the entry allocated for the insertion. *)
Definition npf_table_insert (kmem : bool) (ent : Z) (t : npf_table) (alen : Z) (addr : npf_addr_t)
    (mask : Z) : Z * npf_table :=
  let error := npf_netmask_check alen mask in
  if negb (error =? 0) then (error, t) else
  let e0 := mk_tblent ent 0 alen (akey alen addr) in
  match t_store t with
  | ST_IPSET m gc =>
      if negb (mask =? NPF_NO_NETMASK) then (EINVAL, t) else
      let '(ret, m) := thmap_put m (akey alen addr) e0 in
      if decide (ret = Some e0) then (0, set_content t (ST_IPSET m gc) (e0 :: t_list t) (u32 (t_nitems t + 1)))
      else (EEXIST, set_content t (ST_IPSET m gc) (t_list t) (t_nitems t))
  | ST_LPM l =>
      let preflen := if mask =? NPF_NO_NETMASK then alen * 8 else mask in
      let e := mk_tblent ent preflen alen (akey alen addr) in
      match lpm_lookup l addr alen with
      | Some _ => (EEXIST, t)
      | None =>
          let '(ret, l) := lpm_insert l addr alen preflen e in
          if ret =? 0 then (0, set_content t (ST_LPM l) (e :: t_list t) (u32 (t_nitems t + 1)))
          else (EEXIST, set_content t (ST_LPM l) (t_list t) (t_nitems t))
      end
  | ST_CONST _ => (EINVAL, t)
  | ST_IFADDR els alloc =>
      let '(error, els, alloc) := table_ifaddr_insert kmem els alloc alen e0 in
      if negb (error =? 0) then (error, t)
      else (0, set_content t (ST_IFADDR els alloc) (e0 :: t_list t) (u32 (t_nitems t + 1)))
  end.

(** [LIST_REMOVE]. *)
Definition ent_remove (e : npf_tblent) (l : list npf_tblent) : list npf_tblent :=
  filter (λ x, te_id x ≠ te_id e) l.

Definition npf_table_remove (t : npf_table) (alen : Z) (addr : npf_addr_t) (mask : Z) : Z * npf_table :=
  let error := npf_netmask_check alen mask in
  if negb (error =? 0) then (error, t) else
  match t_store t with
  | ST_IPSET m gc =>
      let '(ent, m) := thmap_del m (akey alen addr) in
      match ent with
      | Some e => (0, set_content t (ST_IPSET m (e :: gc)) (ent_remove e (t_list t)) (u32 (t_nitems t - 1)))
      | None => (ENOENT, set_content t (ST_IPSET m gc) (t_list t) (t_nitems t))
      end
  | ST_LPM l =>
      match lpm_lookup l addr alen with
      | Some e =>
          (0, set_content t (ST_LPM (lpm_remove l (te_addr e) (te_alen e) (te_preflen e)))
                (ent_remove e (t_list t)) (u32 (t_nitems t - 1)))
      | None => (ENOENT, t)
      end
  | _ => (EINVAL, t)
  end.

Definition npf_table_lookup (t : npf_table) (alen : Z) (addr : npf_addr_t) : Z :=
  let error := npf_netmask_check alen NPF_NO_NETMASK in
  if negb (error =? 0) then error else
  let found :=
    match t_store t with
    | ST_IPSET m _ => bool_decide (is_Some (thmap_get m (akey alen addr)))
    | ST_LPM l => bool_decide (is_Some (lpm_lookup l addr alen))
    | ST_CONST cdb =>
        match cdbr_find cdb addr alen with
        | Some (data, dlen) => (dlen =? alen) && bool_decide (akey alen addr = akey alen data)
        | None => false
        end
    | ST_IFADDR els _ =>
        existsb (λ e, bool_decide (akey alen (te_addr e) = akey alen addr))
          (default [] (els !! NPF_ADDRLEN2IDX alen))
    end in
  if found then 0 else ENOENT.

Definition npf_table_getsome (t : npf_table) (alen idx : Z) : option npf_addr_t :=
  match t_store t with
  | ST_IFADDR els _ =>
      let elements := default [] (els !! NPF_ADDRLEN2IDX alen) in
      let nitems := Z.of_nat (List.length elements) in
      if nitems =? 0 then None else te_addr <$> elements !! Z.to_nat (idx mod nitems)
  | _ => None
  end.

Definition npf_table_flush (t : npf_table) : Z * npf_table :=
  match t_store t with
  | ST_IPSET m gc => (0, table_ipset_flush t m gc)
  | ST_LPM l => (0, table_tree_flush t l)
  | _ => (EINVAL, t)
  end.

Definition npf_table_gc (t : npf_table) : npf_table :=
  match t_store t with
  | ST_IPSET m gc => set_content t (ST_IPSET m []) (t_list t) (t_nitems t)
  | _ => t
  end.

(** ** Listing: the entries copied out before the buffer of [len] bytes is full *)

Definition sizeof_npf_ioctl_ent : Z := 24.

Fixpoint table_list_loop (l : list (npf_addr_t * Z * Z)) (off len : Z) (out : list (npf_addr_t * Z * Z)) :
    Z * list (npf_addr_t * Z * Z) :=
  match l with
  | [] => (0, out)
  | e :: l =>
      let off := off + sizeof_npf_ioctl_ent in
      if len <? off then (ENOMEM, out) else table_list_loop l off len (out ++ [e])
  end.

Definition table_generic_list (t : npf_table) (len : Z) : Z * list (npf_addr_t * Z * Z) :=
  table_list_loop ((λ e, (te_addr e, te_alen e, te_preflen e)) <$> t_list t) 0 len [].

Fixpoint table_cdb_list (n : nat) (cdb : C) (i off len : Z) (out : list (npf_addr_t * Z * Z)) :
    Z * list (npf_addr_t * Z * Z) :=
  match n with
  | O => (0, out)
  | S n =>
      match cdbr_get cdb i with
      | None => (EINVAL, out)
      | Some (data, dlen) =>
          let off := off + sizeof_npf_ioctl_ent in
          if len <? off then (ENOMEM, out) else table_cdb_list n cdb (i + 1) off len (out ++ [(data, dlen, 0)])
      end
  end.

Definition npf_table_list (t : npf_table) (len : Z) : Z * list (npf_addr_t * Z * Z) :=
  match t_store t with
  | ST_CONST cdb => table_cdb_list (Z.to_nat (t_nitems t)) cdb 0 0 len []
  | _ => table_generic_list t len
  end.

(** ** Table sets

    The tables live in a heap, since a reload shares them between two sets;
    a set is the array of its slots. *)

Abbreviation theap := (gmap Z npf_table).
Abbreviation npf_tableset := (list (option Z)).

Definition npf_tableset_create (nitems : nat) : npf_tableset := replicate nitems None.

Definition set_refcnt (n : Z) (t : npf_table) : npf_table :=
  mk_table (t_store t) (t_list t) (t_nitems t) (t_id t) n (t_name t).
Definition set_tid (n : Z) (t : npf_table) : npf_table :=
  mk_table (t_store t) (t_list t) (t_nitems t) n (t_refcnt t) (t_name t).

Definition npf_tableset_insert (H : theap) (ts : npf_tableset) (p : Z) : Z * theap * npf_tableset :=
  match H !! p with
  | None => (EINVAL, H, ts)
  | Some t =>
      match ts !! Z.to_nat (t_id t) with
      | Some None => (0, <[p := set_refcnt (u32 (t_refcnt t + 1)) t]> H, <[Z.to_nat (t_id t) := Some p]> ts)
      | _ => (EEXIST, H, ts)
      end
  end.

Definition npf_tableset_swap (H : theap) (ts : npf_tableset) (newp : Z) : option Z * theap * npf_tableset :=
  match H !! newp with
  | None => (None, H, ts)
  | Some newt =>
      match ts !! Z.to_nat (t_id newt) with
      | Some (Some oldp) =>
          match H !! oldp with
          | Some oldt =>
              (Some oldp, <[oldp := set_refcnt 0 oldt]> (<[newp := set_refcnt (t_refcnt oldt) newt]> H),
               <[Z.to_nat (t_id newt) := Some newp]> ts)
          | None => (None, H, ts)
          end
      | _ => (None, H, ts)
      end
  end.

Fixpoint npf_tableset_getbyname (H : theap) (ts : npf_tableset) (name : string) : option Z :=
  match ts with
  | [] => None
  | None :: ts => npf_tableset_getbyname H ts name
  | Some p :: ts =>
      match H !! p with
      | Some t => if decide (name = t_name t) then Some p else npf_tableset_getbyname H ts name
      | None => npf_tableset_getbyname H ts name
      end
  end.

Definition npf_tableset_getbyid (ts : npf_tableset) (tid : Z) : option Z :=
  if tid <? Z.of_nat (List.length ts) then default None (ts !! Z.to_nat tid) else None.

(** [npf_table_destroy] frees the table. *)
Definition npf_table_destroy (H : theap) (p : Z) : theap := delete p H.

Fixpoint npf_tableset_destroy (H : theap) (ts : npf_tableset) : theap :=
  match ts with
  | [] => H
  | None :: ts => npf_tableset_destroy H ts
  | Some p :: ts =>
      match H !! p with
      | None => npf_tableset_destroy H ts
      | Some t =>
          let n := u32 (t_refcnt t - 1) in
          let H := <[p := set_refcnt n t]> H in
          npf_tableset_destroy (if n =? 0 then npf_table_destroy H p else H) ts
      end
  end.

(** The slots from [tid] on; the result is the heap and the new slots. *)
Fixpoint reload_loop (H : theap) (tid : Z) (nts ots : npf_tableset) : theap * npf_tableset :=
  match nts with
  | [] => (H, [])
  | slot :: nts =>
      let keep := let '(H', nts') := reload_loop H (tid + 1) nts ots in (H', slot :: nts') in
      match slot with
      | None => keep
      | Some p =>
          match H !! p with
          | None => keep
          | Some t =>
              if negb (t_nitems t =? 0) then keep
              else
                match npf_tableset_getbyname H ots (t_name t) with
                | None => keep
                | Some op =>
                    match H !! op with
                    | None => keep
                    | Some ot =>
                        if negb (t_type t =? t_type ot) then keep
                        else
                          let H := <[op := set_tid tid (set_refcnt (u32 (t_refcnt ot + 1)) ot)]> H in
                          let H := npf_table_destroy H p in
                          let '(H', nts') := reload_loop H (tid + 1) nts ots in (H', Some op :: nts')
                    end
                end
          end
      end
  end.
Definition npf_tableset_reload (H : theap) (nts ots : npf_tableset) : theap * npf_tableset :=
  reload_loop H 0 nts ots.

(** The exported description of a set: name, type and slot of each table. *)
Fixpoint tableset_export_loop (H : theap) (tid : Z) (ts : npf_tableset) : list (string * Z * Z) :=
  match ts with
  | [] => []
  | slot :: ts =>
      match slot ≫= (H !!.) with
      | Some t => (t_name t, t_type t, tid) :: tableset_export_loop H (tid + 1) ts
      | None => tableset_export_loop H (tid + 1) ts
      end
  end.
Definition npf_tableset_export (H : theap) (ts : npf_tableset) : list (string * Z * Z) :=
  tableset_export_loop H 0 ts.

Definition npf_table_check (H : theap) (ts : npf_tableset) (name : string) (tid type : Z) (replacing : bool) : Z :=
  if Z.of_nat (List.length ts) <=? tid then EINVAL
  else if negb replacing && bool_decide (is_Some (npf_tableset_getbyid ts tid)) then EEXIST
  else if negb ((type =? NPF_TABLE_LPM) || (type =? NPF_TABLE_IPSET) || (type =? NPF_TABLE_CONST)
                || (type =? NPF_TABLE_IFADDR)) then EINVAL
  else if (NPF_TABLE_MAXNAMELEN <=? String.length name)%nat then ENAMETOOLONG
  else
    match npf_tableset_getbyname H ts name with
    | Some p =>
        match H !! p with
        | Some t => if negb replacing || negb (t_id t =? tid) then EEXIST else 0
        | None => 0
        end
    | None => 0
    end.

(** ** The entries of a table *)

Definition ent_prefix (e : npf_tblent) : Z * Z * Z := prefix_of (te_addr e) (te_alen e) (te_preflen e).

(** The entry covers the address: by prefix in an LPM table, else exactly. *)
Definition ent_covers (t : npf_table) (e : npf_tblent) (alen : Z) (addr : npf_addr_t) : Prop :=
  match t_store t with
  | ST_LPM _ => prefix_of addr alen (te_preflen e) = ent_prefix e
  | _ => te_alen e = alen ∧ ent_key e = akey alen addr
  end.

(** The storage holds exactly the listed entries. *)
Definition store_ok (st : table_store) (l : list npf_tblent) : Prop :=
  match st with
  | ST_IPSET m _ => ∀ k e, thmap_get m k = Some e ↔ e ∈ l ∧ ent_key e = k
  | ST_LPM lp => (∀ k e, lpm_rep lp !! k = Some e ↔ e ∈ l ∧ ent_prefix e = k) ∧
                 ∀ e, e ∈ l → 0 <= te_preflen e <= 8 * te_alen e
  | ST_CONST _ => l = []
  | ST_IFADDR els _ => List.length els = 2%nat ∧
      ∀ i el e, els !! i = Some el → (e ∈ el ↔ e ∈ l ∧ NPF_ADDRLEN2IDX (te_alen e) = i)
  end.

Record table_ok (t : npf_table) : Prop := {
  tk_ids : NoDup (te_id <$> t_list t);
  tk_alen : ∀ e, e ∈ t_list t → alen_ok (te_alen e) ∧ List.length (te_addr e) = nwords (te_alen e);
  tk_store : store_ok (t_store t) (t_list t);
}.

Lemma akey_idem alen addr : akey alen (akey alen addr) = akey alen addr.
Proof. unfold akey. by rewrite take_take, Nat.min_id. Qed.

Lemma prefix_akey addr alen p : prefix_of (akey alen addr) alen p = prefix_of addr alen p.
Proof. unfold prefix_of. by rewrite akey_idem. Qed.

Lemma longest_Some {V} (m : gmap (Z * Z * Z) V) addr alen p v : longest m addr alen p = Some v →
  ∃ q, (q <= p)%nat ∧ m !! prefix_of addr alen (Z.of_nat q) = Some v.
Proof.
  induction p as [|p IH]; cbn [longest]; destruct (m !! prefix_of addr alen _) eqn:E; try done.
  - intros [= <-]. by exists 0%nat.
  - intros [= <-]. by exists (S p).
  - intros (q & Hq & Hm)%IH. exists q. split; [lia|done].
Qed.

Lemma longest_None {V} (m : gmap (Z * Z * Z) V) addr alen p : longest m addr alen p = None →
  ∀ q, (q <= p)%nat → m !! prefix_of addr alen (Z.of_nat q) = None.
Proof.
  induction p as [|p IH]; cbn [longest]; destruct (m !! prefix_of addr alen _) eqn:E; try done.
  - intros _ q Hq. by assert (q = 0%nat) as -> by lia.
  - intros Hn q Hq. destruct (decide (q = S p)) as [->|]; [done|]. apply IH; [done|lia].
Qed.

(** Looking up an address finds a covering entry. *)
Lemma akey_length alen addr : alen_ok alen → (nwords alen <= List.length addr)%nat →
  List.length (akey alen addr) = nwords alen.
Proof. intros _ Hl. unfold akey. rewrite length_take. lia. Qed.

Lemma nwords_inj a b : alen_ok a → alen_ok b → nwords a = nwords b → a = b.
Proof. by intros [-> | ->] [-> | ->]. Qed.

(** Equal keys have equal address lengths. *)
Lemma key_alen e alen addr : alen_ok (te_alen e) → List.length (te_addr e) = nwords (te_alen e) →
  alen_ok alen → (nwords alen <= List.length addr)%nat → ent_key e = akey alen addr → te_alen e = alen.
Proof.
  intros Hae Hle Ha Hl Hk. apply nwords_inj; [done..|].
  rewrite <- (akey_length (te_alen e) (te_addr e)), <- (akey_length alen addr) by (done || lia).
  unfold ent_key in Hk. by rewrite Hk.
Qed.

Lemma lpm_covers lp l alen addr : store_ok (ST_LPM lp) l → alen_ok alen →
  (∀ e, lpm_lookup lp addr alen = Some e → e ∈ l ∧ prefix_of addr alen (te_preflen e) = ent_prefix e) ∧
  (lpm_lookup lp addr alen = None → ∀ e, e ∈ l → prefix_of addr alen (te_preflen e) ≠ ent_prefix e).
Proof.
  intros [Hst Hpl] Ha. rewrite lpm_rep_lookup. split.
  - intros e (q & Hq & [He Hk]%Hst)%longest_Some. split; [done|].
    assert (te_preflen e = Z.of_nat q) as -> by (unfold ent_prefix, prefix_of in Hk; by injection Hk). done.
  - intros Hn e He Hc. pose proof (longest_None _ _ _ _ Hn (Z.to_nat (te_preflen e))) as Hq.
    assert (te_alen e = alen) as Eal by (unfold ent_prefix, prefix_of in Hc; by injection Hc).
    pose proof (Hpl e He). rewrite Z2Nat.id in Hq by lia. rewrite Hc in Hq.
    assert (lpm_rep lp !! ent_prefix e = Some e) as Hs by (by apply Hst).
    rewrite Hq in Hs; [done|]. rewrite Eal in *. lia.
Qed.

Lemma npf_netmask_check_none alen : alen_ok alen → npf_netmask_check alen NPF_NO_NETMASK = 0.
Proof. by intros [-> | ->]. Qed.

Definition not_const (t : npf_table) : Prop := match t_store t with ST_CONST _ => False | _ => True end.

Lemma npf_table_lookup_spec t alen addr : table_ok t → not_const t → alen_ok alen →
  (nwords alen <= List.length addr)%nat →
  npf_table_lookup t alen addr = 0 ↔ ∃ e, e ∈ t_list t ∧ ent_covers t e alen addr.
Proof.
  intros [_ Hal Hst] Hnc Ha Hlen. unfold npf_table_lookup, ent_covers. rewrite npf_netmask_check_none by done.
  cbn [Z.eqb negb].
  assert (∀ b : bool, (if b then 0 else ENOENT) = 0 ↔ b = true) as Hif by (by intros []).
  rewrite Hif. unfold not_const in Hnc. destruct (t_store t) as [m gc|lp|cdb|els alc].
  - rewrite bool_decide_eq_true. split.
    + intros [e [He Hk]%Hst]. exists e. split_and!; [done| |done]. destruct (Hal e He). by eapply key_alen.
    + intros (e & He & _ & Hk). exists e. by apply Hst.
  - rewrite bool_decide_eq_true. destruct (lpm_covers lp _ alen addr Hst Ha) as [Hs Hn]. split.
    + intros [e He]. exists e. by apply Hs.
    + intros (e & He & Hc). destruct (lpm_lookup lp addr alen) eqn:E; [done|]. by destruct (Hn eq_refl e He).
  - done.
  - destruct Hst as [Hl Hst]. rewrite existsb_exists.
    assert (∃ el, els !! NPF_ADDRLEN2IDX alen = Some el) as [el Hel].
    { apply lookup_lt_is_Some. rewrite Hl. by destruct Ha as [-> | ->]; vm_compute; lia. }
    rewrite Hel. simpl. setoid_rewrite <- list_elem_of_In. setoid_rewrite bool_decide_eq_true. split.
    + intros (e & He & Hk). apply (Hst _ _ e Hel) in He as [He Hi]. exists e. destruct (Hal e He) as [Hae _].
      assert (te_alen e = alen) as <- by (by destruct Ha as [-> | ->], Hae as [E|E]; rewrite E in Hi |- *).
      done.
    + intros (e & He & Hae & Hk). exists e. rewrite <- Hk. unfold ent_key. rewrite Hae. split; [|done].
      apply (Hst _ _ e Hel). by rewrite Hae.
Qed.

(** The invariant after adding an entry to the list and to the storage. *)
Lemma table_ok_cons t st e n : table_ok t → te_id e ∉ te_id <$> t_list t →
  alen_ok (te_alen e) → List.length (te_addr e) = nwords (te_alen e) →
  store_ok st (e :: t_list t) → table_ok (set_content t st (e :: t_list t) n).
Proof.
  intros [Hid Hal _] Hf Ha Hl Hst. split; cbn [set_content t_list t_store].
  - by constructor.
  - intros x [->|Hx]%elem_of_cons; [done|by apply Hal].
  - done.
Qed.

Lemma npf_netmask_check_ok alen mask : 0 <= mask → npf_netmask_check alen mask = 0 →
  alen_ok alen ∧ (mask = NPF_NO_NETMASK ∨ mask <= 8 * alen).
Proof.
  intros Hm. unfold npf_netmask_check, alen_ok, NPF_NO_NETMASK, EINVAL.
  repeat case_if; bool_to_prop; try lia; subst; intros _; split; auto;
    apply andb_false_iff in Heqb0 as [?|?] || apply andb_false_iff in Heqb1 as [?|?]; bool_to_prop; lia.
Qed.

(** The store after an insertion, for each kind of storage. *)
Lemma ipset_put_ok m gc m' l e : store_ok (ST_IPSET m gc) l → e ∉ l → thmap_get m (ent_key e) = None →
  (∀ k, thmap_get m' k = if decide (k = ent_key e) then Some e else thmap_get m k) →
  store_ok (ST_IPSET m' gc) (e :: l).
Proof.
  intros Hst Hnin Hnone Hget k x. cbn [store_ok] in *. rewrite Hget, elem_of_cons. case_decide as E.
  - subst k. split; [by intros [= <-]; auto|]. intros [[->|Hx] Hk]; [done|].
    assert (thmap_get m (ent_key e) = Some x) by (by apply Hst). congruence.
  - rewrite Hst. naive_solver.
Qed.

Lemma lpm_insert_ok lp lp' l e : store_ok (ST_LPM lp) l → e ∉ l → 0 <= te_preflen e <= 8 * te_alen e →
  lpm_rep lp !! ent_prefix e = None → lpm_rep lp' = <[ent_prefix e := e]> (lpm_rep lp) →
  store_ok (ST_LPM lp') (e :: l).
Proof.
  intros [Hst Hpl] Hnin Hp Hnone Hrep. split.
  - intros k x. rewrite Hrep, elem_of_cons. destruct (decide (ent_prefix e = k)) as [<-|Hne].
    + rewrite lookup_insert_eq. split; [by intros [= <-]; auto|]. intros [[->|Hx] Hk]; [done|].
      assert (lpm_rep lp !! ent_prefix e = Some x) by (by apply Hst). congruence.
    + rewrite lookup_insert_ne by done. rewrite Hst. naive_solver.
  - intros x [->|Hx]%elem_of_cons; [done|by apply Hpl].
Qed.

Lemma ifaddr_insert_ok kmem els alc l e els' alc' : store_ok (ST_IFADDR els alc) l → e ∉ l → alen_ok (te_alen e) →
  table_ifaddr_insert kmem els alc (te_alen e) e = (0, els', alc') → store_ok (ST_IFADDR els' alc') (e :: l).
Proof.
  intros [Hl Hst] Hnin Ha. unfold table_ifaddr_insert. set (i := NPF_ADDRLEN2IDX (te_alen e)).
  assert (∃ el, els !! i = Some el) as [el Hel].
  { apply lookup_lt_is_Some. rewrite Hl. unfold i. by destruct Ha as [-> | ->]; vm_compute; lia. }
  rewrite Hel. simpl. intros Hr. assert (els' = <[i := el ++ [e]]> els) as ->
    by (revert Hr; unfold ENOMEM; repeat case_if; by intros [= <- <-]).
  split; [by rewrite length_insert|]. intros j elj x Hj. rewrite elem_of_cons.
  destruct (decide (i = j)) as [<-|Hne].
  - rewrite list_lookup_insert_eq in Hj by (by eapply lookup_lt_Some). injection Hj as <-.
    rewrite elem_of_app, list_elem_of_singleton, (Hst i el x Hel). unfold i. naive_solver.
  - rewrite list_lookup_insert_ne in Hj by done. rewrite (Hst j elj x Hj). unfold i in Hne. naive_solver.
Qed.

(** What an insertion may do to a table. *)
Definition insert_result (t : npf_table) (alen : Z) (addr : npf_addr_t) (mask err : Z) (t' : npf_table) : Prop :=
  table_ok t' ∧ not_const t' ∧
  ((err = 0 ∧ ∃ e, t_list t' = e :: t_list t ∧ te_alen e = alen ∧ ent_covers t' e alen addr ∧
      te_preflen e = match t_store t with ST_LPM _ => if mask =? NPF_NO_NETMASK then 8 * alen else mask | _ => 0 end) ∨
   (err ≠ 0 ∧ t_list t' = t_list t)).

Lemma insert_refused t alen addr mask err : table_ok t → not_const t → err ≠ 0 → insert_result t alen addr mask err t.
Proof. intros. split_and!; [done|done|by right]. Qed.

Lemma insert_unchanged t st alen addr mask err : table_ok t → store_ok st (t_list t) → err ≠ 0 →
  (match st with ST_CONST _ => False | _ => True end) →
  insert_result t alen addr mask err (set_content t st (t_list t) (t_nitems t)).
Proof. intros [H1 H2 _] Hst He Hc. split_and!; [by split|done|by right]. Qed.

Section insert.
Context (t : npf_table) (alen : Z) (addr : npf_addr_t) (mask ent : Z) (Hok : table_ok t) (Ha : alen_ok alen).
Context (Hlen : (nwords alen <= List.length addr)%nat) (Hf : ent ∉ te_id <$> t_list t).

Lemma insert_fresh e : te_id e = ent → e ∉ t_list t.
Proof using Hf. intros He Hin. apply Hf, list_elem_of_fmap. by exists e. Qed.

Lemma insert_ipset m gc : t_store t = ST_IPSET m gc →
  let e0 := mk_tblent ent 0 alen (akey alen addr) in
  let '(ret, m') := thmap_put m (akey alen addr) e0 in
  if decide (ret = Some e0)
  then insert_result t alen addr mask 0 (set_content t (ST_IPSET m' gc) (e0 :: t_list t) (u32 (t_nitems t + 1)))
  else insert_result t alen addr mask EEXIST (set_content t (ST_IPSET m' gc) (t_list t) (t_nitems t)).
Proof using Hok Ha Hlen Hf TL.
  intros Es e0. pose proof (tk_store t Hok) as Hst. rewrite Es in Hst.
  assert (ent_key e0 = akey alen addr) as Ek by apply akey_idem.
  destruct (thmap_put m (akey alen addr) e0) as [ret m'] eqn:Ep.
  destruct (thmap_get m (akey alen addr)) as [w|] eqn:Eg.
  - rewrite (thmap_put_exists _ _ _ _ Eg) in Ep. injection Ep as <- <-.
    rewrite decide_False; [by apply insert_unchanged|]. intros [= E].
    apply Hst in Eg as [Hin _]. by apply (insert_fresh w); [rewrite E|].
  - destruct (thmap_put_new _ _ _ _ _ Eg Ep) as [[-> Hget] | [-> ->]].
    + rewrite decide_True by done. split_and!; [|done|].
      * apply table_ok_cons; try done; [by apply akey_length|].
        eapply ipset_put_ok; [done|by apply insert_fresh|by rewrite Ek|by rewrite Ek].
      * left. split; [done|]. exists e0. rewrite Es. split_and!; try done.
    + rewrite decide_False by done. by apply insert_unchanged.
Qed.

Lemma insert_lpm lp : t_store t = ST_LPM lp → mask = NPF_NO_NETMASK ∨ 0 <= mask <= 8 * alen →
  lpm_lookup lp addr alen = None →
  let pl := if mask =? NPF_NO_NETMASK then alen * 8 else mask in
  let e := mk_tblent ent pl alen (akey alen addr) in
  let '(ret, lp') := lpm_insert lp addr alen pl e in
  if ret =? 0
  then insert_result t alen addr mask 0 (set_content t (ST_LPM lp') (e :: t_list t) (u32 (t_nitems t + 1)))
  else insert_result t alen addr mask EEXIST (set_content t (ST_LPM lp') (t_list t) (t_nitems t)).
Proof using Hok Ha Hlen Hf LL.
  intros Es Hmask El pl e. pose proof (tk_store t Hok) as Hst. rewrite Es in Hst.
  assert (prefix_of addr alen pl = ent_prefix e) as Ek by (unfold ent_prefix; simpl; by rewrite prefix_akey).
  assert (0 <= pl <= 8 * alen) as Hpl
    by (unfold pl; destruct Ha as [-> | ->]; case_if; bool_to_prop; unfold NPF_NO_NETMASK in *; lia).
  assert (lpm_rep lp !! ent_prefix e = None) as Hnone.
  { rewrite lpm_rep_lookup in El. pose proof (longest_None _ _ _ _ El (Z.to_nat pl)) as Hn.
    rewrite Z2Nat.id, Ek in Hn by lia. apply Hn. lia. }
  pose proof (lpm_rep_insert lp addr alen pl e) as Hins.
  destruct (lpm_insert lp addr alen pl e) as [ret lp']. cbn [fst snd] in Hins.
  destruct Hins as [[-> Hrep] | [Hne Hrep]].
  - cbn [Z.eqb]. split_and!; [|done|].
    + apply table_ok_cons; try done; [by apply akey_length|].
      eapply lpm_insert_ok; [done|by apply insert_fresh|done|done|by rewrite <- Ek].
    + left. split; [done|]. exists e. rewrite Es. split_and!; try done. unfold e, pl. cbn. case_if; lia.
  - rewrite (proj2 (Z.eqb_neq _ _) Hne). apply insert_unchanged; try done.
    unfold store_ok in *. by rewrite Hrep.
Qed.

Lemma insert_ifaddr kmem els alc : t_store t = ST_IFADDR els alc →
  let e0 := mk_tblent ent 0 alen (akey alen addr) in
  let '(er, els', alc') := table_ifaddr_insert kmem els alc alen e0 in
  er = 0 →
  insert_result t alen addr mask 0 (set_content t (ST_IFADDR els' alc') (e0 :: t_list t) (u32 (t_nitems t + 1))).
Proof using Hok Ha Hlen Hf.
  intros Es e0. pose proof (tk_store t Hok) as Hst. rewrite Es in Hst.
  destruct (table_ifaddr_insert kmem els alc alen e0) as [[er els'] alc'] eqn:Ei. intros ->. split_and!; [|done|].
  - apply table_ok_cons; try done; [by apply akey_length|].
    apply (ifaddr_insert_ok kmem els alc _ e0); try done. by apply insert_fresh.
  - left. split; [done|]. exists e0. rewrite Es. split_and!; try done. split; [done|]. apply akey_idem.
Qed.

End insert.

Lemma npf_table_insert_spec kmem ent t alen addr mask err t' : table_ok t → not_const t → 0 <= mask →
  (nwords alen <= List.length addr)%nat → ent ∉ te_id <$> t_list t →
  npf_table_insert kmem ent t alen addr mask = (err, t') → insert_result t alen addr mask err t'.
Proof.
  intros Hok Hnc Hm Hlen Hf. unfold npf_table_insert.
  destruct (npf_netmask_check alen mask =? 0) eqn:Ec; bool_to_prop; cbn [negb].
  2:{ intros [= <- <-]. by apply insert_refused. }
  destruct (npf_netmask_check_ok alen mask Hm Ec) as [Ha Hmask].
  assert (not_const t) as Hnc' by done. unfold not_const in Hnc.
  destruct (t_store t) as [m gc|lp|cdb|els alc] eqn:Es; [| |done|].
  - case_if; [intros [= <- <-]; by apply insert_refused|].
    pose proof (insert_ipset t alen addr mask ent Hok Ha Hlen Hf m gc Es) as Hi. cbv zeta in Hi.
    destruct (thmap_put _ _ _) as [ret m']. destruct (decide _); by intros [= <- <-].
  - destruct (lpm_lookup lp addr alen) eqn:El; [intros [= <- <-]; by apply insert_refused|].
    pose proof (insert_lpm t alen addr mask ent Hok Ha Hlen Hf lp Es ltac:(lia) El) as Hi. cbv zeta in Hi.
    destruct (lpm_insert _ _ _ _ _) as [ret lp']. destruct (ret =? 0); by intros [= <- <-].
  - pose proof (insert_ifaddr t alen addr mask ent Hok Ha Hlen Hf kmem els alc Es) as Hi. cbv zeta in Hi.
    destruct (table_ifaddr_insert _ _ _ _ _) as [[er els'] alc'].
    case_if; bool_to_prop; intros [= <- <-]; [by apply insert_refused|by apply Hi].
Qed.

Lemma ent_remove_elem e l x : NoDup (te_id <$> l) → e ∈ l → x ∈ ent_remove e l ↔ x ∈ l ∧ x ≠ e.
Proof.
  intros Hnd He. unfold ent_remove. rewrite list_elem_of_filter. split.
  - intros [Hid Hx]. split; [done|]. by intros ->.
  - intros [Hx Hne]. split; [|done]. intros Hid. apply Hne.
    apply list_elem_of_lookup in He as [i Hi], Hx as [j Hj].
    assert (i = j) as ->; [|congruence].
    eapply (NoDup_lookup _ i j (te_id e) Hnd); rewrite list_lookup_fmap, ?Hi, ?Hj; simpl; by f_equal.
Qed.

Lemma table_ok_remove t st e n : table_ok t → e ∈ t_list t → store_ok st (ent_remove e (t_list t)) →
  table_ok (set_content t st (ent_remove e (t_list t)) n).
Proof.
  intros [Hid Hal _] He Hst. split; cbn [set_content t_list t_store]; [| |done].
  - unfold ent_remove. clear -Hid. induction (t_list t) as [|x l IH]; [constructor|]. rewrite filter_cons.
    apply NoDup_cons in Hid as [Hx Hid]. case_decide; [|by apply IH]. rewrite fmap_cons. constructor; [|by apply IH].
    intros (y & E & Hy)%list_elem_of_fmap. apply Hx. rewrite E. apply list_elem_of_filter in Hy as [_ Hy].
    apply list_elem_of_fmap. by exists y.
  - intros x Hx. apply Hal. by apply list_elem_of_filter in Hx as [_ Hx].
Qed.

(** Removing an address removes one covering entry, if there is any. *)
Lemma npf_table_remove_spec t alen addr mask err t' : table_ok t → not_const t → 0 <= mask →
  (nwords alen <= List.length addr)%nat → npf_table_remove t alen addr mask = (err, t') →
  table_ok t' ∧ not_const t' ∧
  ((err = 0 ∧ ∃ e, e ∈ t_list t ∧ ent_covers t e alen addr ∧ t_list t' = ent_remove e (t_list t)) ∨
   (err ≠ 0 ∧ t_list t' = t_list t)).
Proof.
  intros Hok Hnc Hm Hlen. unfold npf_table_remove.
  destruct (npf_netmask_check alen mask =? 0) eqn:Ec; bool_to_prop; cbn [negb].
  2:{ intros [= <- <-]. split_and!; [done|done|by right]. }
  destruct (npf_netmask_check_ok alen mask Hm Ec) as [Ha _].
  assert (not_const t) as Hnc' by done. unfold not_const in Hnc. pose proof (tk_store t Hok) as Hst.
  pose proof (tk_ids t Hok) as Hid. pose proof (tk_alen t Hok) as Hal. unfold ent_covers.
  destruct (t_store t) as [m gc|lp|cdb|els alc] eqn:Es; [| |done|].
  - destruct (thmap_del_get m (akey alen addr)) as [Hfst Hget].
    destruct (thmap_del m (akey alen addr)) as [ent m'] eqn:Ed. cbn [fst snd] in Hfst, Hget.
    destruct ent as [e|]; intros [= <- <-].
    + destruct (proj1 (Hst (akey alen addr) e) ltac:(done)) as [He Hk].
      split_and!; [apply table_ok_remove; [done..|]|done|].
      * intros k x. rewrite Hget, ent_remove_elem by done. case_decide as E.
        -- subst k. split; [done|]. intros [[Hx Hne] Hkx]. destruct Hne.
           assert (thmap_get m (akey alen addr) = Some x) by (by apply Hst). congruence.
        -- rewrite (Hst k x). split; [intros [Hx <-]; split_and!; try done; by intros ->|naive_solver].
      * left. split; [done|]. exists e. destruct (Hal e He). split_and!; try done. by eapply key_alen.
    + split_and!; [|done|by right]. destruct Hok as [H1 H2 H3]. split; [done|done|].
      intros k x. cbn [set_content t_list]. rewrite Hget. case_decide as E; [|by apply Hst].
      subst k. rewrite <- (Hst (akey alen addr) x), <- Hfst. done.
  - destruct (lpm_lookup lp addr alen) as [e|] eqn:El; intros [= <- <-].
    + destruct (lpm_covers lp _ alen addr Hst Ha) as [Hs _]. destruct (Hs e El) as [He Hc]. destruct Hst as [Hst Hpl].
      split_and!; [apply table_ok_remove; [done..|]|done|left; eauto].
      split; [|intros x Hx; apply Hpl; by apply (ent_remove_elem e) in Hx as [Hx _]].
      intros k x. rewrite lpm_rep_remove, ent_remove_elem by done. fold (ent_prefix e).
      destruct (decide (ent_prefix e = k)) as [<-|Hne].
      * rewrite lookup_delete_eq. split; [done|]. intros [[Hx Hne] Hkx]. destruct Hne.
        assert (lpm_rep lp !! ent_prefix e = Some x) by (by apply Hst).
        assert (lpm_rep lp !! ent_prefix e = Some e) by (by apply Hst). congruence.
      * rewrite lookup_delete_ne by done. rewrite (Hst k x).
        split; [intros [Hx <-]; split_and!; try done; by intros ->|naive_solver].
    + split_and!; [done|done|by right].
  - intros [= <- <-]. split_and!; [done|done|by right].
Qed.

Lemma ipset_flush_get l : ∀ m k, thmap_get (ipset_flush_loop l m) k =
  if decide (k ∈ ent_key <$> l) then None else thmap_get m k.
Proof.
  induction l as [|e l IH]; intros m k; cbn [ipset_flush_loop].
  - rewrite decide_False; [done|]. apply not_elem_of_nil.
  - rewrite IH. destruct (thmap_del_get m (ent_key e)) as [_ ->]. rewrite fmap_cons.
    repeat case_decide; set_solver.
Qed.

(** C37: the tables hold sets of entries.  A lookup succeeds exactly if an entry
    of the table covers the address (equal in an IPSET or IFADDR table, by
    prefix in an LPM table).  An insertion adds one entry that covers the
    address with the given prefix length or reports an error and changes
    nothing; a removal takes out one entry that covers the address or reports
    an error and changes nothing; a flush empties an IPSET or LPM table. *)
Theorem npf_table_is_set kmem ent t alen addr mask :
  table_ok t → not_const t → alen_ok alen → 0 <= mask → (nwords alen <= List.length addr)%nat →
  ent ∉ te_id <$> t_list t →
  (npf_table_lookup t alen addr = 0 ↔ ∃ e, e ∈ t_list t ∧ ent_covers t e alen addr) ∧
  (let '(err, t') := npf_table_insert kmem ent t alen addr mask in insert_result t alen addr mask err t') ∧
  (let '(err, t') := npf_table_remove t alen addr mask in
     table_ok t' ∧ not_const t' ∧
     ((err = 0 ∧ ∃ e, e ∈ t_list t ∧ ent_covers t e alen addr ∧ t_list t' = ent_remove e (t_list t)) ∨
      (err ≠ 0 ∧ t_list t' = t_list t))) ∧
  (let '(err, t') := npf_table_flush t in table_ok t' ∧ (err = 0 → t_list t' = []) ∧ (err ≠ 0 → t' = t)).
Proof.
  intros Hok Hnc Ha Hm Hlen Hf. split_and!.
  - by apply npf_table_lookup_spec.
  - destruct (npf_table_insert kmem ent t alen addr mask) as [err t'] eqn:E. by eapply npf_table_insert_spec.
  - destruct (npf_table_remove t alen addr mask) as [err t'] eqn:E. by eapply npf_table_remove_spec.
  - pose proof (tk_store t Hok) as Hst. unfold npf_table_flush. destruct (t_store t) as [m gc|lp|cdb|els alc]; try done.
    + split_and!; [|done|done]. split; [constructor|set_solver|]. cbn. intros k x. rewrite ipset_flush_get.
      split; [|set_solver]. case_decide as E; [done|]. intros [Hx <-]%Hst. destruct E.
      apply list_elem_of_fmap. by exists x.
    + split_and!; [|done|done]. split; [constructor|set_solver|]. cbn. rewrite lpm_rep_clear.
      split; [|set_solver]. intros k x. rewrite lookup_empty. set_solver.
Qed.

(** ** Reference counts and reload *)

Fixpoint refs (ts : npf_tableset) (p : Z) : Z :=
  match ts with
  | [] => 0
  | slot :: ts => (if decide (slot = Some p) then 1 else 0) + refs ts p
  end.

(** The live tables are those referenced, with the number of references. *)
Definition ref_inv (T : theap) (f : Z → Z) : Prop :=
  ∀ p, match T !! p with Some t => t_refcnt t = f p ∧ 0 < f p | None => f p = 0 end.

(** What a table is to its users: everything but its reference count and ID. *)
Definition view (T : theap) (p : Z) : option (table_store * list npf_tblent * Z * string) :=
  (λ t, (t_store t, t_list t, t_nitems t, t_name t)) <$> T !! p.

(** The table a slot holds after a reload. *)
Definition reload_target (T : theap) (ots : npf_tableset) (slot : option Z) : option Z :=
  match slot with
  | None => None
  | Some p =>
      match T !! p with
      | None => Some p
      | Some t =>
          match npf_tableset_getbyname T ots (t_name t) with
          | Some op =>
              match T !! op with
              | Some ot => if (t_nitems t =? 0) && (t_type t =? t_type ot) then Some op else Some p
              | None => Some p
              end
          | None => Some p
          end
      end
  end.

Lemma refs_range ts p : 0 <= refs ts p <= Z.of_nat (List.length ts).
Proof. induction ts as [|slot ts IH]; cbn [refs List.length]; [lia|]. case_decide; lia. Qed.

Lemma refs_app ts ts' p : refs (ts ++ ts') p = refs ts p + refs ts' p.
Proof. induction ts as [|slot ts IH]; cbn [refs app]; [lia|]. rewrite IH. lia. Qed.

Lemma getbyname_refs T ts name p : npf_tableset_getbyname T ts name = Some p → 0 < refs ts p.
Proof.
  induction ts as [|[q|] ts IH]; cbn [refs npf_tableset_getbyname]; [done| |].
  - pose proof (refs_range ts p). destruct (T !! q) as [t|]; [destruct (decide (name = t_name t))|].
    + intros [= <-]. rewrite decide_True by done. lia.
    + intros Hp%IH. case_decide; lia.
    + intros Hp%IH. case_decide; lia.
  - intros Hp%IH. case_decide; lia.
Qed.

Lemma getbyname_view T T' ts name : (∀ p, 0 < refs ts p → view T' p = view T p) →
  npf_tableset_getbyname T' ts name = npf_tableset_getbyname T ts name.
Proof.
  induction ts as [|[q|] ts IH]; intros Hv; cbn [npf_tableset_getbyname]; [done| |].
  - assert (view T' q = view T q) as Hq.
    { apply Hv. cbn [refs]. pose proof (refs_range ts q). rewrite decide_True by done. lia. }
    rewrite IH by (intros p Hp; apply Hv; cbn [refs]; case_decide; lia).
    unfold view in Hq. destruct (T' !! q) as [t'|], (T !! q) as [t|]; try done. by injection Hq as _ _ _ ->.
  - apply IH. intros p Hp. apply Hv. cbn [refs]. case_decide; lia.
Qed.

Lemma view_type T T' p t t' : view T' p = view T p → T' !! p = Some t' → T !! p = Some t →
  t_type t' = t_type t ∧ t_nitems t' = t_nitems t ∧ t_name t' = t_name t.
Proof.
  unfold view. intros Hv Ht' Ht. rewrite Ht, Ht' in Hv. injection Hv as E1 E2 E3 E4. unfold t_type.
  by rewrite E1, E3, E4.
Qed.

Lemma ref_inv_live T f p : ref_inv T f → 0 < f p → ∃ t, T !! p = Some t ∧ t_refcnt t = f p.
Proof. intros Hi Hp. specialize (Hi p). destruct (T !! p) as [t|]; [exists t; naive_solver|lia]. Qed.

Lemma ref_inv_ext T f g : (∀ p, f p = g p) → ref_inv T f → ref_inv T g.
Proof. intros Hfg Hi p. specialize (Hi p). cbv beta in *. by rewrite <- Hfg. Qed.

Lemma reload_target_view T T0 ots slot : (∀ p, slot = Some p ∨ 0 < refs ots p → view T p = view T0 p) →
  reload_target T0 ots slot = reload_target T ots slot.
Proof.
  intros Hv. destruct slot as [p|]; [|done]. cbn [reload_target]. pose proof (Hv p (or_introl eq_refl)) as Hp.
  destruct (T !! p) as [t|] eqn:Et; unfold view in Hp at 1; rewrite Et in Hp; unfold view in Hp;
    destruct (T0 !! p) as [t0|] eqn:Et0; try done.
  destruct (view_type T T0 p t t0) as (E1 & E2 & E3); [symmetry; apply Hv; by left|done|done|].
  rewrite E1, E2, E3. rewrite (getbyname_view T T0 ots) by (intros q Hq; symmetry; apply Hv; by right).
  destruct (npf_tableset_getbyname T ots (t_name t)) as [op|] eqn:Eo; [|done].
  apply getbyname_refs in Eo. pose proof (Hv op (or_intror Eo)) as Hop.
  destruct (T !! op) as [ot|] eqn:Eot, (T0 !! op) as [ot0|] eqn:Eot0;
    unfold view in Hop; rewrite Eot, Eot0 in Hop; try done.
  destruct (view_type T T0 op ot ot0) as (E4 & _ & _); [symmetry; apply Hv; by right|done|done|]. by rewrite E4.
Qed.

(** A reference moved from the new table [p] to the old table [op]. *)
Lemma ref_inv_move T f p op ot tid : ref_inv T f → T !! op = Some ot → f p = 1 → p ≠ op → f op + 1 < 2 ^ 32 →
  ref_inv (delete p (<[op := set_tid tid (set_refcnt (u32 (t_refcnt ot + 1)) ot)]> T))
    (λ q, if decide (q = p) then 0 else if decide (q = op) then f q + 1 else f q).
Proof.
  intros Hi Hop Hp Hne Hlt q. pose proof (Hi op) as Hiop. rewrite Hop in Hiop. destruct Hiop as [Hc Hpos].
  destruct (decide (q = p)) as [->|Hqp]; [by rewrite lookup_delete_eq|]. rewrite lookup_delete_ne by done.
  destruct (decide (q = op)) as [->|Hqo].
  - rewrite lookup_insert_eq. simpl. rewrite wrap_small by (unfold inw; lia). lia.
  - rewrite lookup_insert_ne by done. apply Hi.
Qed.

Lemma view_move T p op ot tid q : T !! op = Some ot → q ≠ p →
  view (delete p (<[op := set_tid tid (set_refcnt (u32 (t_refcnt ot + 1)) ot)]> T)) q = view T q.
Proof.
  intros Hop Hq. unfold view. rewrite lookup_delete_ne by done.
  destruct (decide (q = op)) as [->|]; [by rewrite lookup_insert_eq, Hop|by rewrite lookup_insert_ne].
Qed.

Section reload.
Context (T0 : theap) (ots : npf_tableset).

(** The loop has processed the slots [pre] and is at the slots [nts]. *)
Definition loop_pre (T : theap) (pre nts : npf_tableset) : Prop :=
  ref_inv T (λ p, refs pre p + refs nts p + refs ots p) ∧
  (∀ p, 0 < refs nts p → refs nts p = 1 ∧ refs pre p = 0 ∧ refs ots p = 0) ∧
  Z.of_nat (List.length pre) + Z.of_nat (List.length nts) + Z.of_nat (List.length ots) < 2 ^ 32 ∧
  (∀ p, 0 < refs nts p + refs ots p → view T p = view T0 p).

Definition loop_post (T : theap) (pre nts : npf_tableset) (r : theap * npf_tableset) : Prop :=
  snd r = reload_target T0 ots <$> nts ∧
  ref_inv (fst r) (λ p, refs pre p + refs (snd r) p + refs ots p) ∧
  (∀ p, 0 < refs (snd r) p + refs ots p → view (fst r) p = view T0 p) ∧
  (∀ p, 0 < refs pre p → view (fst r) p = view T p).

Lemma refs_one slot p : refs [slot] p = if decide (slot = Some p) then 1 else 0.
Proof. cbn [refs]. lia. Qed.

Lemma refs_cons slot nts p : refs (slot :: nts) p = refs [slot] p + refs nts p.
Proof. cbn [refs]. lia. Qed.

(** Prepending the processed slot to the result of the rest. *)
Lemma loop_post_cons T T1 pre slot slot' nts r :
  reload_target T0 ots slot = slot' → loop_post T1 (pre ++ [slot']) nts r →
  (∀ p, slot' = Some p → view T1 p = view T0 p) → (∀ p, 0 < refs pre p → view T1 p = view T p) →
  loop_post T pre (slot :: nts) (let '(T', nts') := r in (T', slot' :: nts')).
Proof.
  intros Ht (E & Hi & Hv & Hp) Hs Hpre. destruct r as [T' nts']. cbn [fst snd] in *. split_and!; cbn [fst snd].
  - by rewrite fmap_cons, Ht, E.
  - eapply ref_inv_ext; [|exact Hi]. intros p. cbv beta. rewrite refs_app, (refs_cons slot' nts'). lia.
  - intros p Hpp. rewrite (refs_cons slot' nts'), refs_one in Hpp. destruct (decide (slot' = Some p)) as [->|]; [|apply Hv; lia].
    rewrite Hp; [by apply Hs|]. rewrite refs_app, refs_one, decide_True by done. pose proof (refs_range pre p). lia.
  - intros p Hpp. rewrite Hp, Hpre; [done|done|]. rewrite refs_app. pose proof (refs_range [slot'] p). lia.
Qed.

Lemma loop_pre_keep T pre slot nts : loop_pre T pre (slot :: nts) → loop_pre T (pre ++ [slot]) nts.
Proof.
  intros (Hi & Hnew & Hlen & Hv). split_and!.
  - eapply ref_inv_ext; [|exact Hi]. intros p. cbv beta. rewrite refs_app, (refs_cons slot nts). lia.
  - intros p Hp. destruct (Hnew p) as (N1 & N2 & N3); rewrite (refs_cons slot nts) in *; pose proof (refs_range [slot] p); [lia|].
    rewrite refs_app. lia.
  - rewrite length_app. cbn [List.length] in *. lia.
  - intros p Hp. apply Hv. rewrite (refs_cons slot nts). pose proof (refs_range [slot] p). lia.
Qed.

Lemma reload_loop_spec nts : ∀ T tid pre, loop_pre T pre nts → loop_post T pre nts (reload_loop T tid nts ots).
Proof.
  induction nts as [|slot nts IH]; intros T tid pre Hpre; [destruct Hpre as (Hi & _ & _ & Hv); by split_and!|].
  assert (∀ p, slot = Some p → view T p = view T0 p) as Hslot.
  { intros p ->. apply Hpre. rewrite (refs_cons (Some p) nts), refs_one, decide_True by done.
    pose proof (refs_range nts p). pose proof (refs_range ots p). lia. }
  assert (reload_target T0 ots slot = reload_target T ots slot) as Htv.
  { apply reload_target_view. intros p [Hp|Hp]; [by apply Hslot|]. apply Hpre. pose proof (refs_range (slot :: nts) p). lia. }
  assert (reload_target T ots slot = slot → loop_post T pre (slot :: nts)
    (let '(T', nts') := reload_loop T (tid + 1) nts ots in (T', slot :: nts'))) as Hkeep.
  { intros Ht. eapply loop_post_cons; [by rewrite Htv|by apply IH, loop_pre_keep|done|done]. }
  cbn [reload_loop]. destruct slot as [p|]; [|by apply Hkeep]. cbn [reload_target] in Hkeep, Htv.
  destruct (T !! p) as [t|] eqn:Ep; [|by apply Hkeep].
  destruct (npf_tableset_getbyname T ots (t_name t)) as [op|] eqn:Eo;
    [|destruct (negb _); by apply Hkeep].
  destruct (T !! op) as [ot|] eqn:Eot; [|destruct (negb _); by apply Hkeep].
  destruct (t_nitems t =? 0); cbn [negb andb] in *; [|by apply Hkeep].
  destruct (t_type t =? t_type ot); cbn [negb] in *; [|by apply Hkeep]. clear Hkeep.
  apply getbyname_refs in Eo. destruct Hpre as (Hi & Hnew & Hlen & Hv).
  destruct (Hnew p) as (Hp1 & Hp2 & Hp3).
  { rewrite (refs_cons (Some p) nts), refs_one, decide_True by done. pose proof (refs_range nts p). lia. }
  assert (p ≠ op) as Hne by (intros ->; lia).
  assert (refs nts p = 0) as Hp4 by (rewrite (refs_cons (Some p) nts), refs_one, decide_True in Hp1 by done; lia).
  unfold npf_table_destroy. eapply (loop_post_cons _ _ _ _ (Some op)); [done|apply IH; split_and!| |].
  - eapply ref_inv_ext; [|apply (ref_inv_move T _ p op ot tid Hi Eot)]; [|cbv beta; lia|done|].
    + intros q. cbv beta. rewrite refs_app, (refs_cons (Some p) nts), !refs_one. repeat case_decide; simplify_eq; try congruence; lia.
    + cbv beta. rewrite (refs_cons (Some p) nts), refs_one, decide_False by congruence. cbn [List.length] in Hlen.
      pose proof (refs_range pre op). pose proof (refs_range nts op). pose proof (refs_range ots op). lia.
  - intros q Hq. destruct (Hnew q) as (N1 & N2 & N3); rewrite (refs_cons (Some p) nts) in *; pose proof (refs_range [Some p] q); [lia|].
    rewrite refs_app, refs_one. case_decide; simplify_eq; try congruence; lia.
  - rewrite length_app. cbn [List.length] in *. lia.
  - intros q Hq. rewrite view_move by (done || (intros ->; lia)). apply Hv. rewrite (refs_cons (Some p) nts).
    pose proof (refs_range [Some p] q). lia.
  - intros q [= <-]. rewrite view_move by done. apply Hv. pose proof (refs_range (Some p :: nts) op). lia.
  - intros q Hq. apply view_move; [done|]. intros ->. lia.
Qed.

End reload.

(** Dropping the references of a set. *)
Lemma npf_tableset_destroy_spec ts : ∀ T f, ref_inv T (λ p, f p + refs ts p) → (∀ p, 0 <= f p) →
  (∀ p, f p + refs ts p < 2 ^ 32) →
  ref_inv (npf_tableset_destroy T ts) f ∧
  ∀ p, 0 < f p → view (npf_tableset_destroy T ts) p = view T p.
Proof.
  induction ts as [|[p|] ts IH]; intros T f Hi Hf Hlt; cbn [npf_tableset_destroy].
  - split; [|done]. eapply ref_inv_ext; [|exact Hi]. intros q. cbn [refs]. lia.
  - destruct (ref_inv_live T _ p Hi) as (t & Ht & Hc).
    { rewrite (refs_cons _ ts), refs_one, decide_True by done. pose proof (refs_range ts p). specialize (Hf p). lia. }
    rewrite (refs_cons _ ts), refs_one, decide_True in Hc by done. rewrite Ht, Hc.
    pose proof (refs_range ts p) as Hr. pose proof (Hf p). specialize (Hlt p) as Hltp.
    rewrite (refs_cons _ ts), refs_one, decide_True in Hltp by done.
    rewrite wrap_small by (unfold inw; lia). set (n := f p + (1 + refs ts p) - 1).
    set (T1 := if n =? 0 then npf_table_destroy (<[p := set_refcnt n t]> T) p else <[p := set_refcnt n t]> T).
    destruct (IH T1 f) as [Hi' Hv'].
    + intros q. pose proof (Hi q) as Hq. cbv beta in Hq. rewrite (refs_cons _ ts), refs_one in Hq. unfold T1, npf_table_destroy.
      destruct (decide (q = p)) as [->|Hne].
      * destruct (n =? 0) eqn:En; bool_to_prop; [rewrite lookup_delete_eq; lia|].
        rewrite lookup_insert_eq. simpl. lia.
      * rewrite decide_False in Hq by congruence.
        destruct (n =? 0); rewrite ?lookup_delete_ne, ?lookup_insert_ne by done; exact Hq.
    + done.
    + intros q. specialize (Hlt q). rewrite (refs_cons _ ts) in Hlt. pose proof (refs_range [Some p] q). lia.
    + split; [done|]. intros q Hq. rewrite Hv' by done. unfold T1, npf_table_destroy, view.
      destruct (decide (q = p)) as [->|Hne].
      * rewrite (proj2 (Z.eqb_neq n 0)) by lia. by rewrite lookup_insert_eq, Ht.
      * destruct (n =? 0); by rewrite ?lookup_delete_ne, ?lookup_insert_ne by done.
  - by apply IH.
Qed.

(** A reload of the table set keeps tables and frees the rest.  Each slot
    of the new set ends up with the active table of the same name and type if
    the new table has no entries, and with the new table otherwise, entries
    unchanged; and once the old set is destroyed, the live tables are exactly
    those of the new set, with their number of references: nothing is leaked,
    freed twice or left dangling. *)
Theorem npf_tableset_reload_keeps T nts ots :
  ref_inv T (λ p, refs nts p + refs ots p) →
  (∀ p, 0 < refs nts p → refs nts p = 1 ∧ refs ots p = 0) →
  Z.of_nat (List.length nts) + Z.of_nat (List.length ots) < 2 ^ 32 →
  let '(T', nts') := npf_tableset_reload T nts ots in
  nts' = reload_target T ots <$> nts ∧
  ref_inv (npf_tableset_destroy T' ots) (refs nts') ∧
  ∀ p, 0 < refs nts' p → view (npf_tableset_destroy T' ots) p = view T p.
Proof.
  intros Hi Hnew Hlen. unfold npf_tableset_reload.
  destruct (reload_loop_spec T ots nts T 0 []) as (E & Hi' & Hv' & _).
  { split_and!; [eapply ref_inv_ext; [|exact Hi]; done|intros p Hp; destruct (Hnew p Hp); done|cbn; lia|done]. }
  destruct (reload_loop T 0 nts ots) as [T' nts']. cbn [fst snd] in *.
  destruct (npf_tableset_destroy_spec ots T' (refs nts')) as [Hd Hvd].
  - eapply ref_inv_ext; [|exact Hi']. done.
  - intros p. apply refs_range.
  - intros p. pose proof (refs_range nts' p). pose proof (refs_range ots p). rewrite E, length_fmap in *. lia.
  - split_and!; [done|done|]. intros p Hp. rewrite Hvd by done. apply Hv'. pose proof (refs_range ots p). lia.
Qed.

End tables.

(** ** Witnesses and cases *)

(** No constant databases. *)
#[export] Instance null_cdb : cdbr_ops unit := {
  cdbr_open_mem _ := None; cdbr_entries _ := 0; cdbr_find _ _ _ := None; cdbr_get _ _ := None;
}.

Abbreviation gtable := (npf_table (M := gmap (list Z) npf_tblent) (L := gmap (Z * Z * Z) npf_tblent) (C := unit)).

Definition ipset_table : gtable := mk_table (ST_IPSET thmap_create []) [] 0 0 0 "blocklist".
Definition lpm_table : gtable := mk_table (ST_LPM lpm_create) [] 0 1 0 "nets".

Lemma ipset_table_ok : table_ok ipset_table.
Proof. split; [constructor|set_solver|]. cbn. intros k e. rewrite lookup_empty. set_solver. Qed.

Lemma npf_table_is_set_witness :
  let r := npf_table_insert true 1 ipset_table 4 ip_10_1_2_3 NPF_NO_NETMASK in
  fst r = 0 ∧ table_ok (snd r) ∧ npf_table_lookup (snd r) 4 ip_10_1_2_3 = 0 ∧
  npf_table_lookup (snd r) 4 ip_192_168_1_77 = ENOENT.
Proof.
  intros r. destruct (npf_table_is_set true 1 ipset_table 4 ip_10_1_2_3 NPF_NO_NETMASK) as (_ & Hins & _);
    [exact ipset_table_ok|done|by left|done|done|apply not_elem_of_nil|].
  fold r in Hins. split_and!; [by vm_compute| |by vm_compute..].
  destruct r as [err t']. apply Hins.
Defined.

(** A new set with an empty table "blocklist", an old one with an entry in the
    table of that name. *)
Definition sample_tables : gmap Z gtable :=
  {[ 1 := set_refcnt 1 (snd (npf_table_insert true 7 ipset_table 4 ip_10_1_2_3 NPF_NO_NETMASK));
     2 := set_refcnt 1 ipset_table; 3 := set_refcnt 1 lpm_table ]}.

Lemma sample_tables_inv : ref_inv sample_tables (λ p, refs [Some 2; Some 3] p + refs [Some 1] p).
Proof.
  intros p. unfold sample_tables.
  destruct (decide (p = 1)) as [->|]; [by vm_compute|]. destruct (decide (p = 2)) as [->|]; [by vm_compute|].
  destruct (decide (p = 3)) as [->|]; [by vm_compute|].
  rewrite !lookup_insert_ne, lookup_singleton_ne by done. cbn [refs]. repeat (rewrite decide_False by congruence). lia.
Qed.

Lemma npf_tableset_reload_keeps_witness :
  let '(T', nts') := npf_tableset_reload sample_tables [Some 2; Some 3] [Some 1] in
  nts' = [Some 1; Some 3] ∧ ref_inv (npf_tableset_destroy T' [Some 1]) (refs nts') ∧
  view (npf_tableset_destroy T' [Some 1]) 1 = view sample_tables 1.
Proof.
  pose proof (npf_tableset_reload_keeps sample_tables [Some 2; Some 3] [Some 1] sample_tables_inv) as H.
  destruct (npf_tableset_reload sample_tables [Some 2; Some 3] [Some 1]) as [T' nts'].
  destruct H as (E & Hi & Hv); [|done|].
  - intros p. cbn [refs]. repeat case_decide; simplify_eq; lia.
  - assert (nts' = [Some 1; Some 3]) as En by (rewrite E; by vm_compute).
    split_and!; [done|done|]. apply Hv. by rewrite En.
Defined.

Definition net10 : npf_addr_t := [0x0000000a].        (* 10.0.0.0 *)
Definition net10_1_2 : npf_addr_t := [0x0002010a].    (* 10.1.2.0 *)

(** The LPM table refuses a more specific prefix once a covering one is there,
    and removing the more specific prefix removes the covering one. *)
Theorem npf_table_lpm_nested :
  let t1 := snd (npf_table_insert true 1 lpm_table 4 net10 8) in
  fst (npf_table_insert true 2 t1 4 net10_1_2 24) = EEXIST ∧
  fst (npf_table_remove t1 4 net10_1_2 24) = 0 ∧
  t_list (snd (npf_table_remove t1 4 net10_1_2 24)) = [] ∧
  (* in the other order both are accepted *)
  fst (npf_table_insert true 2 (snd (npf_table_insert true 1 lpm_table 4 net10_1_2 24)) 4 net10 8) = 0.
Proof. by vm_compute. Qed.

End Tableset.
