(* ===== verification/Conn.v ===== *)
(** * Conn: connections and the connection database
      (src/kern/npf_conn.c, src/kern/npf_conndb.c)

    Connections are heap objects; the database maps both keys of a connection
    to it, the stored pointer being tagged for the "forwards" key.  Three lists
    link the connections: new, all and to be garbage-collected.  The heap, the
    database and the counters are the state [conn_sys]; every operation is a
    function on it.  NAT entries and rule procedures are used through the class
    [conn_env]; a pointer returned by the pool allocator is fresh. *)

From S2P Require Import Prelude Nbuf Cache Rewrite Tcpopt StateTcp State IfMap ConnKey Thmap Ruleset.
From stdpp Require Import strings.
Open Scope Z_scope.
Open Scope npf_scope.

Module Conn.
Export State ConnKey Thmap Ruleset.

Definition CONN_ACTIVE : Z := 0x004.
Definition CONN_PASS : Z := 0x008.
Definition CONN_EXPIRE : Z := 0x010.
Definition CONN_REMOVED : Z := 0x020.

Definition NPF_CONNCACHE (alen : Z) : Z := (alen >>> 4) &&& 0x1.

Definition NPF_NATIN : Z := 1.
Definition NPF_NATOUT : Z := 2.

Record npf_conn := mk_conn {
  c_proto : Z;
  c_alen : Z;
  c_ifid : Z;
  c_flags : Z;
  c_retfl : Z;
  c_rid : Z;
  c_rproc : option Z;
  c_nat : option Z;
  c_refcnt : Z;
  c_atime : Z;
  c_state : npf_state_t;
  c_forw : npf_connkey_t;
  c_back : npf_connkey_t;
}.

Definition set_flags (f : Z) (c : npf_conn) : npf_conn :=
  mk_conn (c_proto c) (c_alen c) (c_ifid c) f (c_retfl c) (c_rid c) (c_rproc c) (c_nat c) (c_refcnt c)
    (c_atime c) (c_state c) (c_forw c) (c_back c).
Definition set_ref (n : Z) (c : npf_conn) : npf_conn :=
  mk_conn (c_proto c) (c_alen c) (c_ifid c) (c_flags c) (c_retfl c) (c_rid c) (c_rproc c) (c_nat c) n
    (c_atime c) (c_state c) (c_forw c) (c_back c).
Definition set_atime (t : Z) (c : npf_conn) : npf_conn :=
  mk_conn (c_proto c) (c_alen c) (c_ifid c) (c_flags c) (c_retfl c) (c_rid c) (c_rproc c) (c_nat c) (c_refcnt c)
    t (c_state c) (c_forw c) (c_back c).
Definition set_state (s : npf_state_t) (c : npf_conn) : npf_conn :=
  mk_conn (c_proto c) (c_alen c) (c_ifid c) (c_flags c) (c_retfl c) (c_rid c) (c_rproc c) (c_nat c) (c_refcnt c)
    (c_atime c) s (c_forw c) (c_back c).
Definition set_nat (nt : option Z) (c : npf_conn) : npf_conn :=
  mk_conn (c_proto c) (c_alen c) (c_ifid c) (c_flags c) (c_retfl c) (c_rid c) (c_rproc c) nt (c_refcnt c)
    (c_atime c) (c_state c) (c_forw c) (c_back c).
Definition set_back (k : npf_connkey_t) (c : npf_conn) : npf_conn :=
  mk_conn (c_proto c) (c_alen c) (c_ifid c) (c_flags c) (c_retfl c) (c_rid c) (c_rproc c) (c_nat c) (c_refcnt c)
    (c_atime c) (c_state c) (c_forw c) k.
Definition set_rule (retfl rid : Z) (rp : option Z) (c : npf_conn) : npf_conn :=
  mk_conn (c_proto c) (c_alen c) (c_ifid c) (c_flags c) retfl rid rp (c_nat c) (c_refcnt c)
    (c_atime c) (c_state c) (c_forw c) (c_back c).

(** [atomic_or_uint(&con->c_flags, f)]. *)
Definition or_flags (f : Z) (c : npf_conn) : npf_conn := set_flags (c_flags c ||| f) c.

(** The NAT entries and rule procedures, as connections use them. *)
Class conn_env (X : Type) := {
  env_nat_destroy : X → Z → Z → X;
  env_rproc_release : X → Z → X;
  env_nat_gettrans : X → Z → npf_addr_t * Z;
}.

(** Saving and restoring of NAT entries. *)
Class conn_nat_io (X NV : Type) := {
  env_nat_export : X → Z → NV;
  env_nat_import : X → NV → Z → option Z * X;
}.

Record npf_conndb_params := mk_conndb_params { gc_step : Z; interval_min : Z; interval_max : Z }.

(** The parameters of connection tracking. *)
Record conn_params := mk_conn_params {
  cp_key : npf_connkey_params;
  cp_state : npf_all_state_params;
  cp_db : npf_conndb_params;
  (* [c_retfl] and [c_rid] of a connection from the pool: npf_conn_establish
     does not set them, they are read once npf_conn_setpass has *)
  cp_mem : Z * Z;
}.

Section conn.
Context {MB : npf_mbufops_t} {TM X : Type} `{TL : thmap_laws (Z * npf_flow_t) TM} {CE : conn_env X}.
Context (params : conn_params).

Record npf_conndb := mk_conndb {
  cd_map : TM;
  cd_new : list Z;
  cd_list : list Z;
  cd_gclist : list Z;
  cd_marker : option Z;
}.

Record conn_sys := mk_csys {
  conns : gmap Z npf_conn;
  conn_db : npf_conndb;
  conn_tracking : bool;
  worker_wait_time : Z;
  next_conn : Z;                (* the next fresh object *)
  pool_used : Z * Z;            (* objects taken from the IPv4 and IPv6 pools *)
  conn_create : Z;              (* NPF_STAT_CONN_CREATE *)
  conn_destroy : Z;             (* NPF_STAT_CONN_DESTROY *)
  env : X;
}.

Definition set_conns (s : conn_sys) (cs : gmap Z npf_conn) : conn_sys :=
  mk_csys cs (conn_db s) (conn_tracking s) (worker_wait_time s) (next_conn s) (pool_used s) (conn_create s)
    (conn_destroy s) (env s).
Definition set_db (s : conn_sys) (cd : npf_conndb) : conn_sys :=
  mk_csys (conns s) cd (conn_tracking s) (worker_wait_time s) (next_conn s) (pool_used s) (conn_create s)
    (conn_destroy s) (env s).
Definition upd_conn (s : conn_sys) (p : Z) (f : npf_conn → npf_conn) : conn_sys :=
  set_conns s (alter f p (conns s)).
Definition set_map (cd : npf_conndb) (m : TM) : npf_conndb :=
  mk_conndb m (cd_new cd) (cd_list cd) (cd_gclist cd) (cd_marker cd).
Definition set_lists (cd : npf_conndb) (n l g : list Z) (mk : option Z) : npf_conndb :=
  mk_conndb (cd_map cd) n l g mk.

(** Adjust the count of objects taken from the pool of index [idx]. *)
Definition pool_add (idx n : Z) (pl : Z * Z) : Z * Z :=
  if idx =? 0 then (fst pl + n, snd pl) else (fst pl, snd pl + n).

(** ** The database (npf_conndb.c) *)

Definition npf_conndb_create : npf_conndb := mk_conndb thmap_create [] [] [] None.

(** The bytes of a key that the map sees. *)
Definition key_bytes (k : npf_connkey_t) : list Z := take (Z.to_nat (NPF_CONNKEY_LEN k / 4)) k.

Definition npf_conndb_lookup (s : conn_sys) (ck : npf_connkey_t) : option (Z * npf_flow_t) * conn_sys :=
  match thmap_get (cd_map (conn_db s)) (key_bytes ck) with
  | None => (None, s)
  | Some (con, flow) =>
      (Some (con, flow), upd_conn s con (λ c, set_ref (u32 (c_refcnt c + 1)) c))
  end.

Definition npf_conndb_insert (cd : npf_conndb) (ck : npf_connkey_t) (con : Z) (flow : npf_flow_t) :
    bool * npf_conndb :=
  let '(ret, m) := thmap_put (cd_map cd) (key_bytes ck) (con, flow) in
  (bool_decide (ret = Some (con, flow)), set_map cd m).

Definition npf_conndb_remove (cd : npf_conndb) (ck : npf_connkey_t) : option Z * npf_conndb :=
  let '(ret, m) := thmap_del (cd_map cd) (key_bytes ck) in
  (fst <$> ret, set_map cd m).

Definition npf_conndb_enqueue (cd : npf_conndb) (con : Z) : npf_conndb :=
  set_lists cd (con :: cd_new cd) (cd_list cd) (cd_gclist cd) (cd_marker cd).

Definition npf_conndb_update (cd : npf_conndb) : npf_conndb :=
  set_lists cd [] (rev (cd_new cd) ++ cd_list cd) (cd_gclist cd) (cd_marker cd).

(** [LIST_NEXT]. *)
Fixpoint list_next (l : list Z) (x : Z) : option Z :=
  match l with
  | [] => None
  | y :: l => if decide (y = x) then head l else list_next l x
  end.

Definition npf_conndb_getlist (cd : npf_conndb) : option Z * npf_conndb :=
  let cd := npf_conndb_update cd in (head (cd_list cd), cd).

Definition npf_conndb_getnext (cd : npf_conndb) (con : option Z) : option Z :=
  match con ≫= list_next (cd_list cd) with
  | Some next => Some next
  | None => head (cd_list cd)
  end.

(** ** Connections (npf_conn.c) *)

Definition npf_conn_trackable_p (s : conn_sys) (npc : npf_cache_t) : bool :=
  if negb (conn_tracking s) then false
  else if negb (npf_iscached npc NPC_IP46) || negb (npf_iscached npc NPC_LAYER4) then false
  else true.

(** [nbuf] is the interface of the packet, [None] without a packet. *)
Definition npf_conn_check (con : npf_conn) (nbuf : option Z) (di : Z) (flow : npf_flow_t) : bool :=
  let flags := c_flags con in
  if negb (flags &&& (CONN_ACTIVE ||| CONN_EXPIRE) =? CONN_ACTIVE) then false else
  match nbuf with
  | Some nb_ifid =>
      if negb (c_ifid con =? 0) then
        let pflow := if flags &&& PFIL_ALL =? di then NPF_FLOW_FORW else NPF_FLOW_BACK in
        if decide (flow ≠ pflow) then false
        else if negb (c_ifid con =? nb_ifid) then false
        else true
      else true
  | None => true
  end.

Definition npf_conn_lookup (s : conn_sys) (npc : npf_cache_t) (di now : Z) :
    option (Z * npf_flow_t) * conn_sys :=
  match npf_conn_conkey (cp_key params) npc di NPF_FLOW_FORW with
  | None => (None, s)
  | Some (key, _) =>
      match npf_conndb_lookup s key with
      | (None, s) => (None, s)
      | (Some (con, flow), s) =>
          match conns s !! con with
          | None => (None, s)
          | Some c =>
              if negb (npf_conn_check c (Some (nb_ifid (npc_nbuf npc))) di flow) then
                (None, upd_conn s con (λ c, set_ref (u32 (c_refcnt c - 1)) c))
              else (Some (con, flow), upd_conn s con (set_atime (u32 now)))
          end
      end
  end.

Definition npf_conn_release (s : conn_sys) (con : Z) : conn_sys :=
  upd_conn s con (λ c,
    let c := if c_flags c &&& (CONN_ACTIVE ||| CONN_EXPIRE) =? 0 then or_flags CONN_ACTIVE c else c in
    set_ref (u32 (c_refcnt c - 1)) c).

(** [alg] is [npf_alg_conn]: the connection an ALG found, with its reference.
    The result is the connection, the error and whether the packet had an
    invalid state. *)
Definition npf_conn_inspect (alg : conn_sys → npf_cache_t → Z → option (option Z * conn_sys * npf_cache_t))
    (s : conn_sys) (npc : npf_cache_t) (di now : Z) :
    option (option Z * Z * bool * conn_sys * npf_cache_t) :=
  if negb (npf_conn_trackable_p s npc) then Some (None, 0, false, s, npc) else
  '(acon, s, npc) ← alg s npc di;
  match acon with
  | Some con => Some (Some con, 0, false, s, npc)
  | None =>
      if bool_decide (nbuf_head_mbuf (npc_nbuf npc) = []) then Some (None, ENOMEM, false, s, npc) else
      match npf_conn_lookup s npc di now with
      | (None, s) => Some (None, 0, false, s, npc)
      | (Some (con, flow), s) =>
          match conns s !! con with
          | None => None
          | Some c =>
              match npf_state_inspect (cp_state params) npc (c_state c) flow with
              | None => None
              | Some (ok, _, nst, npc) =>
                  let s := upd_conn s con (set_state nst) in
                  if ok then Some (Some con, 0, false, s, npc)
                  else Some (None, 0, true, npf_conn_release s con, npc)
              end
          end
      end
  end.

Definition npf_conn_destroy (s : conn_sys) (con : Z) : conn_sys :=
  match conns s !! con with
  | None => s
  | Some c =>
      let x := match c_nat c with Some nt => env_nat_destroy (env s) con nt | None => env s end in
      let x := match c_rproc c with Some rp => env_rproc_release x rp | None => x end in
      mk_csys (delete con (conns s)) (conn_db s) (conn_tracking s) (worker_wait_time s) (next_conn s)
        (pool_add (NPF_CONNCACHE (c_alen c)) (-1) (pool_used s)) (conn_create s) (conn_destroy s + 1) x
  end.

(** The allocation of an object from the pool of index [idx]. *)
Definition conn_alloc (s : conn_sys) (idx : Z) (c : npf_conn) : conn_sys :=
  mk_csys (<[next_conn s := c]> (conns s)) (conn_db s) (conn_tracking s) (worker_wait_time s) (next_conn s + 1)
    (pool_add idx 1 (pool_used s)) (conn_create s + 1) (conn_destroy s) (env s).

(** Insert both keys, or none; the result tells whether it is a duplicate. *)
Definition insert_keys (cd : npf_conndb) (con : Z) (fw bk : npf_connkey_t) : bool * npf_conndb :=
  let '(ok, cd) := npf_conndb_insert cd fw con NPF_FLOW_FORW in
  if negb ok then (false, cd) else
  let '(ok, cd) := npf_conndb_insert cd bk con NPF_FLOW_BACK in
  if negb ok then (false, snd (npf_conndb_remove cd fw)) else (true, cd).

(** [avail] tells whether the pool has an object. *)
Definition npf_conn_establish (s : conn_sys) (npc : npf_cache_t) (di now : Z) (global avail : bool) :
    option (option Z * conn_sys * npf_cache_t) :=
  let alen := npc_alen npc in
  if negb (npf_conn_trackable_p s npc) then Some (None, s, npc)
  else if negb avail then Some (None, s, npc) else
  let con := next_conn s in
  let c := mk_conn (npc_proto npc) alen 0 (di &&& PFIL_ALL) (fst (cp_mem params)) (snd (cp_mem params)) None None 0 0 nst_zero [] [] in
  let s := conn_alloc s (NPF_CONNCACHE alen) c in
  match npf_state_init (cp_state params) npc with
  | None => None
  | Some (false, _, _, npc) => Some (None, npf_conn_destroy s con, npc)
  | Some (true, _, nst, npc) =>
      match npf_conn_conkey (cp_key params) npc di NPF_FLOW_FORW,
            npf_conn_conkey (cp_key params) npc (di ^^^ PFIL_ALL) NPF_FLOW_BACK with
      | Some (fw, _), Some (bk, _) =>
          let ifid := if global then nb_ifid (npc_nbuf npc) else 0 in
          let c := mk_conn (c_proto c) alen ifid (c_flags c) (c_retfl c) (c_rid c) None None 1 (u32 now) nst fw bk in
          let '(ok, cd) := insert_keys (conn_db s) con fw bk in
          let c := if ok then c
                   else set_ref (u32 (c_refcnt c - 1)) (or_flags (CONN_REMOVED ||| CONN_EXPIRE) c) in
          let s := set_db (set_conns s (<[con := c]> (conns s))) (npf_conndb_enqueue cd con) in
          Some (if ok then Some con else None, s, npc)
      | _, _ => Some (None, npf_conn_destroy s con, npc)
      end
  end.

(** [nat_type_which]. *)
Definition nat_type_which (ntype : Z) : npf_which := if ntype =? NPF_NATOUT then NPF_DST else NPF_SRC.

Definition npf_conn_setnat (s : conn_sys) (con nt ntype : Z) : Z * conn_sys :=
  match conns s !! con with
  | None => (EINVAL, s)
  | Some c =>
      let '(taddr, tport) := env_nat_gettrans (env s) nt in
      if flag (c_flags c) CONN_EXPIRE then (EINVAL, s) else
      match c_nat c with
      | Some _ => (EISCONN, s)
      | None =>
          let bk := c_back c in
          let '(_, cd) := npf_conndb_remove (conn_db s) bk in
          let bk := npf_conn_adjkey bk taddr tport (nat_type_which ntype) in
          let '(ok, cd) := npf_conndb_insert cd bk con NPF_FLOW_BACK in
          if negb ok then
            let '(_, cd) := npf_conndb_remove cd (c_forw c) in
            (EISCONN, set_db (upd_conn s con (λ c, or_flags (CONN_REMOVED ||| CONN_EXPIRE) (set_back bk c))) cd)
          else (0, set_db (upd_conn s con (λ c, set_nat (Some nt) (set_back bk c))) cd)
      end
  end.

Definition npf_conn_expire (s : conn_sys) (con : Z) : conn_sys := upd_conn s con (or_flags CONN_EXPIRE).

(** The rule of a "pass" connection: flags, ID and rule procedure. *)
Definition npf_conn_pass (c : npf_conn) : option (Z * Z * option Z) :=
  if flag (c_flags c) CONN_PASS then Some (c_retfl c, c_rid c, c_rproc c) else None.

Definition npf_conn_setpass (s : conn_sys) (con : Z) (retfl rid : Z) (rp : option Z) : conn_sys :=
  upd_conn s con (λ c,
    let c := or_flags CONN_PASS c in
    match rp with
    | Some _ => set_rule retfl rid rp c
    | None => set_rule (c_retfl c) (c_rid c) rp c
    end).

Definition npf_conn_getnat (c : npf_conn) : option Z := c_nat c.

Definition npf_conn_expired (c : npf_conn) (tsnow : Z) : bool :=
  let etime := npf_state_etime (cp_state params) (c_state c) (c_proto c) in
  if flag (c_flags c) CONN_EXPIRE then true
  else let elapsed := s32 (tsnow - c_atime c) in etime <? elapsed.

Definition npf_conn_remove (s : conn_sys) (con : Z) : conn_sys :=
  match conns s !! con with
  | None => s
  | Some c =>
      let cd := conn_db s in
      let cd := if negb (flag (c_flags c) CONN_REMOVED) then
                  snd (npf_conndb_remove (snd (npf_conndb_remove cd (c_forw c))) (c_back c))
                else cd in
      set_db (upd_conn s con (or_flags (CONN_REMOVED ||| CONN_EXPIRE))) cd
  end.

(** ** Garbage collection (npf_conndb.c) *)

(** Move [con] from the list of all connections to the G/C list. *)
Definition to_gclist (s : conn_sys) (con : Z) : conn_sys :=
  let cd := conn_db s in
  set_db s (set_lists cd (cd_new cd) (list_remove con (cd_list cd)) (con :: cd_gclist cd) (cd_marker cd)).

Definition set_marker (s : conn_sys) (mk : option Z) : conn_sys :=
  let cd := conn_db s in set_db s (set_lists cd (cd_new cd) (cd_list cd) (cd_gclist cd) mk).

(** The loop of [npf_conndb_gc_incr]: [target] connections are left to scan. *)
Fixpoint gc_incr_loop (target : nat) (s : conn_sys) (con : option Z) (now gc_conns : Z) : Z * conn_sys :=
  match con, target with
  | Some p, S target =>
      let next := npf_conndb_getnext (conn_db s) (Some p) in
      match conns s !! p with
      | None => (gc_conns, set_marker s con)
      | Some c =>
          if npf_conn_expired c now then
            let s := npf_conn_remove (to_gclist s p) p in
            let gc_conns := u32 (gc_conns + 1) in
            let next := if decide (next = Some p) then None else next in
            if decide (cd_marker (conn_db s) = Some p) then
              gc_incr_loop target (set_marker s next) next now gc_conns
            else if decide (next = cd_marker (conn_db s)) then (gc_conns, set_marker s next)
            else gc_incr_loop target s next now gc_conns
          else if decide (next = cd_marker (conn_db s)) then (gc_conns, set_marker s next)
          else gc_incr_loop target s next now gc_conns
      end
  | _, _ => (gc_conns, set_marker s con)
  end.

Definition npf_conndb_gc_incr (s : conn_sys) (now : Z) : Z * conn_sys :=
  let '(con, s) :=
    match cd_marker (conn_db s) with
    | Some p => (Some p, s)
    | None => let con := npf_conndb_getnext (conn_db s) None in (con, set_marker s con)
    end in
  gc_incr_loop (Z.to_nat (gc_step (cp_db params))) s con now 0.

Definition gc_freq_tune (wait n : Z) : Z :=
  let wtime := if negb (n =? 0) then wait >>> 1 else s32 (wait <<< 1) in
  Z.max (Z.min wtime (interval_max (cp_db params))) (interval_min (cp_db params)).

Fixpoint gc_flush_loop (l : list Z) (s : conn_sys) : conn_sys :=
  match l with
  | [] => s
  | con :: l => gc_flush_loop l (npf_conn_remove (to_gclist s con) con)
  end.

(** Destroy the unreferenced connections at the head of the G/C list. *)
Fixpoint gc_destroy_loop (l : list Z) (s : conn_sys) : conn_sys :=
  match l with
  | [] => s
  | con :: l' =>
      match conns s !! con with
      | None => s
      | Some c =>
          if negb (c_refcnt c =? 0) then s
          else
            let cd := conn_db s in
            gc_destroy_loop l' (npf_conn_destroy
              (set_db s (set_lists cd (cd_new cd) (cd_list cd) (list_remove con (cd_gclist cd)) (cd_marker cd))) con)
      end
  end.

(** With [flush] the loop waits where a connection is still referenced: the
    state returned is the one in which it waits. *)
Definition npf_conndb_gc (s : conn_sys) (now : Z) (flush : bool) : conn_sys :=
  let s := set_db s (npf_conndb_update (conn_db s)) in
  let '(gc_conns, s) :=
    if flush then (0, set_marker (gc_flush_loop (cd_list (conn_db s)) s) None)
    else npf_conndb_gc_incr s now in
  let s := mk_csys (conns s) (conn_db s) (conn_tracking s) (gc_freq_tune (worker_wait_time s) gc_conns)
             (next_conn s) (pool_used s) (conn_create s) (conn_destroy s) (env s) in
  gc_destroy_loop (cd_gclist (conn_db s)) s.

Definition npf_conn_worker (s : conn_sys) (now : Z) : conn_sys := npf_conndb_gc s now false.

Definition npf_conn_tracking (s : conn_sys) (track : bool) : conn_sys :=
  mk_csys (conns s) (conn_db s) track (worker_wait_time s) (next_conn s) (pool_used s) (conn_create s)
    (conn_destroy s) (env s).

(** With a new database the old one is flushed (and waits for references). *)
Definition npf_conn_load (s : conn_sys) (ndb : option npf_conndb) (track : bool) (now : Z) : conn_sys :=
  let s := if track then npf_conn_tracking s true else s in
  match ndb with
  | None => s
  | Some ndb => set_db (npf_conndb_gc s now true) ndb
  end.

(** ** The invariant *)

Definition conn_key (flow : npf_flow_t) (c : npf_conn) : npf_connkey_t :=
  match flow with NPF_FLOW_FORW => c_forw c | NPF_FLOW_BACK => c_back c end.

Definition removed (c : npf_conn) : bool := flag (c_flags c) CONN_REMOVED.

Definition all_lists (cd : npf_conndb) : list Z := cd_new cd ++ cd_list cd ++ cd_gclist cd.

(** The map holds both keys of every connection that is not removed, and
    nothing else. *)
Definition map_ok (m : TM) (cs : gmap Z npf_conn) : Prop :=
  ∀ k p flow, thmap_get m k = Some (p, flow) ↔
    ∃ c, cs !! p = Some c ∧ removed c = false ∧ k = key_bytes (conn_key flow c).

Record conn_inv (s : conn_sys) : Prop := {
  ci_map : map_ok (cd_map (conn_db s)) (conns s);
  ci_lists : ∀ p, is_Some (conns s !! p) ↔ p ∈ all_lists (conn_db s);
  ci_nodup : NoDup (all_lists (conn_db s));
  ci_gc : ∀ p c, p ∈ cd_gclist (conn_db s) → conns s !! p = Some c → removed c = true;
  ci_expire : ∀ p c, conns s !! p = Some c → removed c = true → flag (c_flags c) CONN_EXPIRE = true;
  ci_fresh : ∀ p, is_Some (conns s !! p) → p < next_conn s;
  ci_count : conn_create s - conn_destroy s = Z.of_nat (size (conns s));
}.

(** The marker of the incremental scan is on the list it scans. *)
Definition marker_ok (s : conn_sys) : Prop :=
  ∀ p, cd_marker (conn_db s) = Some p → p ∈ cd_list (conn_db s).

(** Fields that the invariant reads. *)
Definition same_conn (c c' : npf_conn) : Prop :=
  removed c' = removed c ∧ c_forw c' = c_forw c ∧ c_back c' = c_back c ∧
  (flag (c_flags c) CONN_EXPIRE = true → flag (c_flags c') CONN_EXPIRE = true).

Lemma same_conn_key c c' flow : same_conn c c' → conn_key flow c' = conn_key flow c.
Proof. intros (_ & E1 & E2 & _). by destruct flow. Qed.

Lemma size_alter (cs : gmap Z npf_conn) f p : size (alter f p cs) = size cs.
Proof. by rewrite <- !size_dom, dom_alter_L. Qed.

Lemma lookup_alter_conn (cs : gmap Z npf_conn) f p q :
  alter f p cs !! q = if decide (p = q) then f <$> cs !! q else cs !! q.
Proof. case_decide as E; [subst; apply lookup_alter_eq|by apply lookup_alter_ne]. Qed.

(** A change of one connection, with the map it leaves. *)
Lemma inv_alter s p f m : conn_inv s → map_ok m (alter f p (conns s)) →
  (∀ c, conns s !! p = Some c → (removed c = true → removed (f c) = true) ∧
     (removed (f c) = true → flag (c_flags (f c)) CONN_EXPIRE = true)) →
  conn_inv (set_db (upd_conn s p f) (set_map (conn_db s) m)).
Proof.
  intros [_ Hl Hn Hg He Hf Hc] Hm Hr.
  split; cbn [set_db upd_conn set_conns set_map conns conn_db next_conn conn_create conn_destroy cd_map cd_gclist];
    rewrite ?size_alter; try done.
  - intros q. rewrite lookup_alter_conn. unfold all_lists. cbn [cd_new cd_list cd_gclist]. rewrite <- (Hl q).
    case_decide; [|done]. by rewrite fmap_is_Some.
  - intros q d Hq. rewrite lookup_alter_conn. case_decide as E; [subst q|by apply Hg].
    destruct (conns s !! p) as [c|] eqn:Ec; [|done]. intros [= <-]. apply (Hr c eq_refl). by eapply Hg.
  - intros q d. rewrite lookup_alter_conn. case_decide as E; [subst q|by apply He].
    destruct (conns s !! p) as [c|] eqn:Ec; [|done]. intros [= <-]. by apply (Hr c eq_refl).
  - intros q. rewrite lookup_alter_conn. case_decide; [rewrite fmap_is_Some|]; apply Hf.
Qed.

(** Updates of the other fields of a connection. *)
Lemma inv_upd s p f : conn_inv s → (∀ c, conns s !! p = Some c → same_conn c (f c)) →
  conn_inv (upd_conn s p f).
Proof.
  intros Hi Hsame.
  assert (upd_conn s p f = set_db (upd_conn s p f) (set_map (conn_db s) (cd_map (conn_db s)))) as ->
    by (unfold upd_conn, set_conns, set_db, set_map; simpl; by destruct (conn_db s)).
  apply inv_alter; [done|..].
  - intros k q flow. rewrite (ci_map s Hi k q flow), lookup_alter_conn. case_decide as E; [subst q|done].
    destruct (conns s !! p) as [c|] eqn:Ec; [|naive_solver]. pose proof (Hsame c eq_refl) as Hc'.
    pose proof (same_conn_key _ _ flow Hc') as Ek. destruct Hc' as (E1 & _). simpl.
    split; intros (c' & [= <-] & Hr & ->); eexists; (split; [reflexivity|]); rewrite ?E1, ?Ek in *; done.
  - intros c Hc. destruct (Hsame c Hc) as (-> & _ & _ & Hx). split; [done|]. intros Hr. by apply Hx, (ci_expire s Hi p).
Qed.

Lemma or_flags_removed c : removed (or_flags (CONN_REMOVED ||| CONN_EXPIRE) c) = true ∧
  flag (c_flags (or_flags (CONN_REMOVED ||| CONN_EXPIRE) c)) CONN_EXPIRE = true.
Proof. unfold removed, or_flags. cbn [set_flags c_flags]. by rewrite !flag_lor, !orb_true_r. Qed.

Lemma same_conn_flags c f : flag f CONN_REMOVED = false → same_conn c (or_flags f c).
Proof.
  intros Hf. unfold same_conn, removed, or_flags. simpl. rewrite !flag_lor, Hf, orb_false_r.
  split_and!; try done. by intros ->.
Qed.

(** Lookups, releases and the flags. *)
Lemma npf_conndb_lookup_inv s ck : conn_inv s → conn_inv (snd (npf_conndb_lookup s ck)).
Proof.
  intros Hi. unfold npf_conndb_lookup. destruct (thmap_get _ _) as [[con flow]|]; [|done].
  by apply inv_upd.
Qed.

Lemma npf_conn_release_inv s p : conn_inv s → conn_inv (npf_conn_release s p).
Proof.
  intros Hi. apply inv_upd; [done|]. intros c _. case_if; [|done].
  unfold same_conn. destruct (same_conn_flags c CONN_ACTIVE eq_refl) as (H1 & H2 & H3 & H4). by split_and!.
Qed.

Lemma npf_conn_lookup_inv s npc di now : conn_inv s → conn_inv (snd (npf_conn_lookup s npc di now)).
Proof.
  intros Hi. unfold npf_conn_lookup. destruct (npf_conn_conkey _ _ _ _) as [[key len]|]; [|done].
  pose proof (npf_conndb_lookup_inv s key Hi) as Hi'. destruct (npf_conndb_lookup s key) as [[[con flow]|] s']; [|done].
  destruct (conns s' !! con); [|done]. case_if; by apply inv_upd.
Qed.

Lemma npf_conn_expire_inv s p : conn_inv s → conn_inv (npf_conn_expire s p).
Proof. intros Hi. apply inv_upd; [done|]. intros c _. by apply same_conn_flags. Qed.

Lemma npf_conn_setpass_inv s p retfl rid rp : conn_inv s → conn_inv (npf_conn_setpass s p retfl rid rp).
Proof.
  intros Hi. apply inv_upd; [done|]. intros c _. destruct (same_conn_flags c CONN_PASS eq_refl) as (H1 & H2 & H3 & H4).
  destruct rp; by split_and!.
Qed.

(** Relinking the connections. *)
Lemma inv_relink s n l g mk : conn_inv s →
  n ++ l ++ g ≡ₚ all_lists (conn_db s) →
  (∀ p c, p ∈ g → conns s !! p = Some c → removed c = true) →
  conn_inv (set_db s (set_lists (conn_db s) n l g mk)).
Proof.
  intros [Hm Hl Hn Hg He Hf Hc] Hp Hgc. split; try done; cbn [conns conn_db set_db].
  - intros p. rewrite Hl. unfold all_lists. cbn [cd_new cd_list cd_gclist set_lists]. by rewrite Hp.
  - unfold all_lists. cbn [cd_new cd_list cd_gclist set_lists]. by rewrite Hp.
Qed.

Lemma set_marker_inv s mk : conn_inv s → conn_inv (set_marker s mk).
Proof. intros Hi. apply inv_relink; [done..|]. apply ci_gc. done. Qed.

Lemma npf_conndb_update_inv s : conn_inv s → conn_inv (set_db s (npf_conndb_update (conn_db s))).
Proof.
  intros Hi. apply inv_relink; [done| |by apply ci_gc]. simpl. unfold all_lists. rewrite <- app_assoc, <- (Permutation_rev (cd_new (conn_db s))). done.
Qed.

(** The live keys are pairwise distinct. *)
Lemma live_keys_inj s p q c d flow flow' : conn_inv s → conns s !! p = Some c → conns s !! q = Some d →
  removed c = false → removed d = false →
  key_bytes (conn_key flow c) = key_bytes (conn_key flow' d) → p = q ∧ flow = flow'.
Proof.
  intros Hi Hp Hq Hrc Hrd E.
  assert (thmap_get (cd_map (conn_db s)) (key_bytes (conn_key flow c)) = Some (p, flow)) as H1
    by (apply (ci_map s Hi); eauto).
  assert (thmap_get (cd_map (conn_db s)) (key_bytes (conn_key flow' d)) = Some (q, flow')) as H2
    by (apply (ci_map s Hi); eauto).
  rewrite E, H2 in H1. by injection H1.
Qed.

Lemma remove_get cd ck k : thmap_get (cd_map (snd (npf_conndb_remove cd ck))) k =
  if decide (k = key_bytes ck) then None else thmap_get (cd_map cd) k.
Proof.
  unfold npf_conndb_remove. destruct (thmap_del_get (cd_map cd) (key_bytes ck)) as [_ E].
  specialize (E k). destruct (thmap_del _ _); exact E.
Qed.

Lemma remove_lists cd ck : cd_new (snd (npf_conndb_remove cd ck)) = cd_new cd ∧
  cd_list (snd (npf_conndb_remove cd ck)) = cd_list cd ∧
  cd_gclist (snd (npf_conndb_remove cd ck)) = cd_gclist cd ∧
  cd_marker (snd (npf_conndb_remove cd ck)) = cd_marker cd.
Proof. unfold npf_conndb_remove. by destruct (thmap_del _ _). Qed.

(** Unlinking a live connection: both of its keys leave the map. *)
Lemma map_ok_remove s p c f m : conn_inv s → conns s !! p = Some c → removed c = false →
  removed (f c) = true →
  (∀ k, thmap_get m k = if decide (k = key_bytes (c_forw c) ∨ k = key_bytes (c_back c)) then None
                        else thmap_get (cd_map (conn_db s)) k) →
  map_ok m (alter f p (conns s)).
Proof.
  intros Hi Hp Hc Hf Hk k q flow. rewrite (Hk k), lookup_alter_conn. case_decide as E.
  - split; [done|]. intros (d & Hd & Hr & ->). case_decide as Eq; [subst q; rewrite Hp in Hd; simpl in Hd; congruence|].
    destruct E as [E|E].
    + by destruct (live_keys_inj s q p d c flow NPF_FLOW_FORW Hi Hd Hp Hr Hc E).
    + by destruct (live_keys_inj s q p d c flow NPF_FLOW_BACK Hi Hd Hp Hr Hc E).
  - rewrite (ci_map s Hi k q flow). case_decide as Eq; [subst q|done]. rewrite Hp. simpl.
    split; intros (d & [= <-] & Hr & ->); [|congruence]. exfalso. apply E. by destruct flow; [left|right].
Qed.

(** [npf_conn_remove] of a connection that is on the G/C list already: what is
    left to establish is that it is removed. *)
Lemma npf_conn_remove_map s p c : conn_inv s → conns s !! p = Some c →
  map_ok (cd_map (conn_db (npf_conn_remove s p))) (conns (npf_conn_remove s p)).
Proof.
  intros Hi Hp. unfold npf_conn_remove. rewrite Hp. cbn [conn_db conns set_db upd_conn set_conns].
  assert (removed (or_flags (CONN_REMOVED ||| CONN_EXPIRE) c) = true) as Hr.
  { apply or_flags_removed. }
  destruct (flag (c_flags c) CONN_REMOVED) eqn:Ef; simpl.
  - intros k q flow. rewrite (ci_map s Hi k q flow), lookup_alter_conn. case_decide; [subst q|done].
    rewrite Hp. simpl. split; intros (d & [= <-] & Hd & _); [unfold removed in Hd|]; congruence.
  - eapply map_ok_remove; [done..|]. intros k. rewrite !remove_get. repeat case_decide; naive_solver.
Qed.

Lemma npf_conn_remove_spec s p c : conns s !! p = Some c →
  conns (npf_conn_remove s p) = alter (or_flags (CONN_REMOVED ||| CONN_EXPIRE)) p (conns s) ∧
  cd_new (conn_db (npf_conn_remove s p)) = cd_new (conn_db s) ∧
  cd_list (conn_db (npf_conn_remove s p)) = cd_list (conn_db s) ∧
  cd_gclist (conn_db (npf_conn_remove s p)) = cd_gclist (conn_db s) ∧
  cd_marker (conn_db (npf_conn_remove s p)) = cd_marker (conn_db s) ∧
  next_conn (npf_conn_remove s p) = next_conn s ∧
  conn_create (npf_conn_remove s p) = conn_create s ∧
  conn_destroy (npf_conn_remove s p) = conn_destroy s.
Proof.
  intros Hp. unfold npf_conn_remove. rewrite Hp. cbn [conn_db conns set_db upd_conn set_conns next_conn conn_create conn_destroy].
  destruct (negb _); [|done].
  destruct (remove_lists (snd (npf_conndb_remove (conn_db s) (c_forw c))) (c_back c)) as (-> & -> & -> & ->).
  by destruct (remove_lists (conn_db s) (c_forw c)) as (-> & -> & -> & ->).
Qed.

Lemma npf_conn_remove_inv s p : conn_inv s → conn_inv (npf_conn_remove s p).
Proof.
  intros Hi. destruct (conns s !! p) as [c|] eqn:Hp; [|unfold npf_conn_remove; by rewrite Hp].
  pose proof (npf_conn_remove_map s p c Hi Hp) as Hmap.
  assert (npf_conn_remove s p = set_db (upd_conn s p (or_flags (CONN_REMOVED ||| CONN_EXPIRE)))
    (set_map (conn_db s) (cd_map (conn_db (npf_conn_remove s p))))) as E.
  { unfold npf_conn_remove. rewrite Hp. destruct (negb _); cbn [conn_db set_db]; [|by destruct (conn_db s)].
    unfold npf_conndb_remove. destruct (thmap_del _ (key_bytes (c_forw c))) as [r m]. cbn [snd set_map cd_map].
    by destruct (thmap_del m _). }
  rewrite E. apply inv_alter; [done| |intros d _; split; intros; apply or_flags_removed].
  by rewrite E in Hmap.
Qed.

(** Unlinking from the list of all connections and from the map commute. *)
Lemma gc_move_comm s p : npf_conn_remove (to_gclist s p) p = to_gclist (npf_conn_remove s p) p.
Proof.
  unfold npf_conn_remove, to_gclist. cbn [conns set_db]. destruct (conns s !! p) as [c|]; [|done].
  destruct (negb _); [|done]. unfold npf_conndb_remove. cbn [conn_db set_db cd_map set_lists].
  destruct (thmap_del (cd_map (conn_db s)) _) as [r m]. cbn [snd set_map cd_map]. by destruct (thmap_del m _).
Qed.

Lemma list_remove_perm p (l : list Z) : NoDup l → p ∈ l → p :: list_remove p l ≡ₚ l.
Proof.
  intros Hn Hp. apply list_elem_of_split in Hp as (a & b & ->).
  apply NoDup_app in Hn as (_ & Ha & Hb%NoDup_cons). destruct Hb as [Hb _].
  rewrite list_remove_middle; [by apply Permutation_middle| |done].
  intros Hin. apply (Ha p Hin). left.
Qed.

Lemma all_lists_nodup s : conn_inv s → NoDup (cd_list (conn_db s)) ∧ NoDup (cd_gclist (conn_db s)).
Proof.
  intros Hi. pose proof (ci_nodup s Hi) as Hn. apply NoDup_app in Hn as (_ & _ & Hn). apply NoDup_app in Hn. tauto.
Qed.

Lemma gc_move_inv s p : conn_inv s → p ∈ cd_list (conn_db s) → conn_inv (npf_conn_remove (to_gclist s p) p).
Proof.
  intros Hi Hin. rewrite gc_move_comm. pose proof (npf_conn_remove_inv s p Hi) as Hi'.
  assert (is_Some (conns s !! p)) as [c Hp] by (apply (ci_lists s Hi), elem_of_app; right; apply elem_of_app; by left).
  destruct (npf_conn_remove_spec s p c Hp) as (Ec & En & El & Eg & _).
  unfold to_gclist. apply inv_relink; [done|..].
  - unfold all_lists. apply Permutation_app_head. rewrite <- Permutation_middle, app_comm_cons. apply Permutation_app_tail.
    rewrite El. apply list_remove_perm; [by apply all_lists_nodup|done].
  - intros q d [->|Hq]%elem_of_cons; [|by apply (ci_gc _ Hi')].
    rewrite Ec, lookup_alter_conn, decide_True, Hp by done. intros [= <-].
    apply or_flags_removed.
Qed.

(** The connections that are not removed stay; a pass of the collector only
    flags and relinks. *)
Lemma list_next_elem l x y : list_next l x = Some y → y ∈ l.
Proof.
  induction l as [|z l IH]; simpl; [done|]. case_decide; [|intros; right; auto].
  intros E. right. destruct l; simpl in E; [done|]. injection E as ->. left.
Qed.

Lemma npf_conndb_getnext_elem cd con y : npf_conndb_getnext cd con = Some y → y ∈ cd_list cd.
Proof.
  unfold npf_conndb_getnext. destruct (con ≫= list_next (cd_list cd)) as [z|] eqn:E.
  - intros [= <-]. destruct con as [x|]; simpl in E; [|done]. by apply list_next_elem in E.
  - destruct (cd_list cd); simpl; [done|]. intros [= ->]. left.
Qed.

Lemma gc_move_spec s p : is_Some (conns s !! p) →
  let s' := npf_conn_remove (to_gclist s p) p in
  conns s' = alter (or_flags (CONN_REMOVED ||| CONN_EXPIRE)) p (conns s) ∧
  cd_new (conn_db s') = cd_new (conn_db s) ∧
  cd_list (conn_db s') = list_remove p (cd_list (conn_db s)) ∧
  cd_gclist (conn_db s') = p :: cd_gclist (conn_db s) ∧
  cd_marker (conn_db s') = cd_marker (conn_db s) ∧ next_conn s' = next_conn s.
Proof.
  intros [c Hc] s'. destruct (npf_conn_remove_spec (to_gclist s p) p c Hc) as (? & ? & ? & ? & ? & ? & _).
  by split_and!.
Qed.

Definition on_list (s : conn_sys) (con : option Z) : Prop := ∀ p, con = Some p → p ∈ cd_list (conn_db s).

Lemma on_list_conn s p : conn_inv s → on_list s (Some p) → is_Some (conns s !! p).
Proof.
  intros Hi Hp. apply (ci_lists s Hi), elem_of_app. right. apply elem_of_app. left. by apply Hp.
Qed.

Lemma set_marker_ok s con : on_list s con → marker_ok (set_marker s con).
Proof. done. Qed.

Lemma set_marker_inv' s con : conn_inv s → on_list s con → conn_inv (set_marker s con) ∧ marker_ok (set_marker s con).
Proof. intros. split; [by apply set_marker_inv|by apply set_marker_ok]. Qed.

Lemma on_list_next s p : on_list s (npf_conndb_getnext (conn_db s) p).
Proof. intros q. apply npf_conndb_getnext_elem. Qed.

Lemma on_list_move s p con : is_Some (conns s !! p) → on_list s con → con ≠ Some p →
  on_list (npf_conn_remove (to_gclist s p) p) con.
Proof.
  intros Hp Hon Hne q ->. destruct (gc_move_spec s p Hp) as (_ & _ & -> & _).
  apply list_remove_elem. split; [by apply Hon|congruence].
Qed.

(** The incremental scan keeps the invariant, and so does its marker. *)
Lemma gc_incr_loop_inv target s con now n : conn_inv s → marker_ok s → on_list s con →
  let s' := snd (gc_incr_loop target s con now n) in conn_inv s' ∧ marker_ok s'.
Proof.
  revert s con n. induction target as [|target IH]; intros s con n Hi Hmk Hon; simpl.
  { destruct con; by apply set_marker_inv'. }
  destruct con as [p|]; [|by apply set_marker_inv'].
  destruct (on_list_conn s p Hi Hon) as [c Hc]. rewrite Hc.
  destruct (npf_conn_expired c now).
  - set (next := if decide (_ = Some p) then None else _).
    assert (on_list s next ∧ next ≠ Some p) as [Hnx Hne].
    { unfold next. case_decide; [done|]. split; [apply on_list_next|done]. }
    pose proof (gc_move_inv s p Hi (Hon p eq_refl)) as Hi'.
    assert (is_Some (conns s !! p)) as Hs by eauto.
    pose proof (on_list_move s p next Hs Hnx Hne) as Hon'.
    destruct (gc_move_spec s p Hs) as (_ & _ & _ & _ & Emk & _).
    case_decide as Em.
    + apply IH; [by apply set_marker_inv|done|done].
    + case_decide; [by apply set_marker_inv'|]. apply IH; [done| |done].
      intros q Hq. apply (on_list_move s p (Some q)); [done| |congruence|done].
      intros ? [= <-]. apply Hmk. by rewrite <- Emk.
  - case_decide; [|apply IH; [done..|apply on_list_next]]. apply set_marker_inv'; [done|apply on_list_next].
Qed.

Lemma npf_conndb_gc_incr_inv s now : conn_inv s → marker_ok s →
  let s' := snd (npf_conndb_gc_incr s now) in conn_inv s' ∧ marker_ok s'.
Proof.
  intros Hi Hmk. unfold npf_conndb_gc_incr. destruct (cd_marker (conn_db s)) as [p|] eqn:E.
  - apply gc_incr_loop_inv; [done..|]. intros q [= <-]. by apply Hmk.
  - apply gc_incr_loop_inv; [by apply set_marker_inv| |]; apply (on_list_next s None).
Qed.

(** The flush unlinks every connection. *)
Lemma gc_flush_loop_inv s : conn_inv s →
  let s' := gc_flush_loop (cd_list (conn_db s)) s in
  conn_inv s' ∧ cd_list (conn_db s') = [] ∧ cd_new (conn_db s') = cd_new (conn_db s).
Proof.
  remember (cd_list (conn_db s)) as l eqn:El. revert s El. induction l as [|p l IH]; intros s El Hi; [done|]. simpl.
  assert (p ∈ cd_list (conn_db s)) as Hin by (rewrite <- El; left).
  destruct (gc_move_spec s p) as (_ & <- & El' & _); [apply (on_list_conn s p Hi); intros ? [= <-]; done|].
  apply IH; [|by apply gc_move_inv]. rewrite El'.
  destruct (all_lists_nodup s Hi) as [Hnd _]. rewrite <- El in Hnd |- *. apply NoDup_cons in Hnd as [Hnd _].
  symmetry. by apply (list_remove_middle p []); [set_solver|].
Qed.

(** Destruction of a removed connection that is unlinked from the G/C list. *)
Lemma gc_destroy_inv s p c : conn_inv s → p ∈ cd_gclist (conn_db s) → conns s !! p = Some c →
  let cd := conn_db s in
  conn_inv (npf_conn_destroy
    (set_db s (set_lists cd (cd_new cd) (cd_list cd) (list_remove p (cd_gclist cd)) (cd_marker cd))) p).
Proof.
  intros Hi Hin Hp cd. unfold npf_conn_destroy. cbn [conns set_db]. rewrite Hp.
  pose proof (ci_gc s Hi p c Hin Hp) as Hr.
  assert (∀ q, q ∈ all_lists (conn_db s) ↔ q = p ∨ q ∈ cd_new cd ++ cd_list cd ++ list_remove p (cd_gclist cd)) as Hall.
  { intros q. unfold all_lists. rewrite !elem_of_app, list_remove_elem. destruct (decide (q = p)); set_solver. }
  assert (p ∉ cd_new cd ++ cd_list cd ++ list_remove p (cd_gclist cd)) as Hout.
  { pose proof (ci_nodup s Hi) as Hn. unfold all_lists in Hn. rewrite app_assoc in Hn.
    apply NoDup_app in Hn as (_ & Hn & _). rewrite app_assoc, elem_of_app, list_remove_elem. intros [Hq|[_ ?]]; [|done].
    by apply (Hn p). }
  subst cd. split; cbn [conns conn_db next_conn conn_create conn_destroy set_db set_lists cd_map cd_gclist].
  - intros k q flow. rewrite (ci_map s Hi k q flow).
    destruct (decide (q = p)) as [->|]; [|by rewrite lookup_delete_ne]. rewrite lookup_delete_eq, Hp.
    split; [intros (d & [= <-] & Hd & _); congruence|by intros (? & ? & _)].
  - intros q. unfold all_lists. cbn [cd_new cd_list cd_gclist set_lists]. pose proof (ci_lists s Hi q) as Hq.
    rewrite (Hall q) in Hq. destruct (decide (q = p)) as [->|Hne].
    + rewrite lookup_delete_eq. split; [by intros []|done].
    + rewrite lookup_delete_ne by done. rewrite Hq. naive_solver.
  - unfold all_lists. cbn [cd_new cd_list cd_gclist set_lists].
    apply (sublist_NoDup _ (all_lists (conn_db s))); [apply (ci_nodup s Hi)|].
    apply sublist_app; [done|]. apply sublist_app; [done|]. apply sublist_filter.
  - intros q d [Hq Hne]%list_remove_elem. rewrite lookup_delete_ne by done. by apply (ci_gc s Hi).
  - intros q d. destruct (decide (q = p)) as [->|]; [by rewrite lookup_delete_eq|]. rewrite lookup_delete_ne by done. apply (ci_expire s Hi).
  - intros q. destruct (decide (q = p)) as [->|]; [rewrite lookup_delete_eq; by intros []|]. rewrite lookup_delete_ne by done. apply (ci_fresh s Hi).
  - pose proof (ci_count s Hi). assert (size (conns s) = S (size (delete p (conns s)))) as E.
    { rewrite map_size_delete, Hp. assert (size (conns s) ≠ 0%nat); [|lia].
      rewrite map_size_ne_0_lookup. eauto. }
    lia.
Qed.

Lemma gc_destroy_marker s p : cd_marker (conn_db (npf_conn_destroy s p)) = cd_marker (conn_db s) ∧
  cd_list (conn_db (npf_conn_destroy s p)) = cd_list (conn_db s) ∧
  cd_gclist (conn_db (npf_conn_destroy s p)) = cd_gclist (conn_db s).
Proof. unfold npf_conn_destroy. by destruct (conns s !! p). Qed.

(** What the destroying loop leaves: a suffix of the G/C list, the head of
    which is referenced, and every connection outside of the prefix. *)
Lemma gc_destroy_loop_spec s : conn_inv s → marker_ok s →
  let s' := gc_destroy_loop (cd_gclist (conn_db s)) s in
  conn_inv s' ∧ marker_ok s' ∧
  (∀ p c, conns s !! p = Some c → conns s' !! p = Some c ∨ removed c = true ∧ c_refcnt c = 0) ∧
  (∀ p c, conns s' !! p = Some c → conns s !! p = Some c) ∧
  (∀ p c, head (cd_gclist (conn_db s')) = Some p → conns s' !! p = Some c → c_refcnt c ≠ 0).
Proof.
  remember (cd_gclist (conn_db s)) as l eqn:El. revert s El. induction l as [|p l IH]; intros s El Hi Hmk; simpl.
  { split_and!; try done; [auto|]. intros p c. by rewrite <- El. }
  assert (p ∈ cd_gclist (conn_db s)) as Hin by (rewrite <- El; left).
  assert (is_Some (conns s !! p)) as [c Hc].
  { apply (ci_lists s Hi), elem_of_app. right. apply elem_of_app. by right. }
  rewrite Hc. destruct (c_refcnt c =? 0) eqn:E0; bool_to_prop; simpl.
  2: { split_and!; try done; [auto|]. intros q d. rewrite <- El. simpl. intros [= <-] Hq. congruence. }
  set (s1 := npf_conn_destroy _ p).
  assert (conns s1 = delete p (conns s)) as Ec by (unfold s1, npf_conn_destroy; cbn [conns set_db]; by rewrite Hc).
  destruct (IH s1) as (H1 & H2 & H3 & H4 & H5).
  - unfold s1. destruct (gc_destroy_marker (set_db s (set_lists (conn_db s) (cd_new (conn_db s)) (cd_list (conn_db s))
      (list_remove p (cd_gclist (conn_db s))) (cd_marker (conn_db s)))) p) as (_ & _ & ->).
    cbn [cd_gclist set_lists conn_db set_db]. destruct (all_lists_nodup s Hi) as [_ Hnd]. rewrite <- El in Hnd |- *.
    apply NoDup_cons in Hnd as [Hnd _]. symmetry. by apply (list_remove_middle p []); [set_solver|].
  - by eapply gc_destroy_inv.
  - intros q. unfold s1. destruct (gc_destroy_marker (set_db s (set_lists (conn_db s) (cd_new (conn_db s)) (cd_list (conn_db s))
      (list_remove p (cd_gclist (conn_db s))) (cd_marker (conn_db s)))) p) as (-> & -> & _). apply Hmk.
  - split_and!; [done..| | |done].
    + intros q d Hq. destruct (decide (q = p)) as [->|Hne].
      * right. rewrite Hc in Hq. injection Hq as <-. split; [by apply (ci_gc s Hi p)|done].
      * apply H3. by rewrite Ec, lookup_delete_ne.
    + intros q d Hq%H4. rewrite Ec in Hq. by apply lookup_delete_Some in Hq as [_ Hq].
Qed.

(** What a pass of the collector may do to a connection. *)
Definition gc_rel (flush : bool) (now : Z) (c c' : npf_conn) : Prop :=
  c_refcnt c' = c_refcnt c ∧
  (c' = c ∨ (flush = true ∨ npf_conn_expired c now = true) ∧ removed c' = true).

Definition gc_sim (flush : bool) (now : Z) (s s' : conn_sys) : Prop :=
  ∀ p, match conns s !! p, conns s' !! p with
       | Some c, Some c' => gc_rel flush now c c'
       | None, None => True
       | _, _ => False
       end.

Lemma gc_sim_refl flush now s : gc_sim flush now s s.
Proof. intros p. destruct (conns s !! p); [|done]. split; [done|by left]. Qed.

Lemma gc_sim_trans flush now s s' s'' : gc_sim flush now s s' → gc_sim flush now s' s'' → gc_sim flush now s s''.
Proof.
  intros H1 H2 p. specialize (H1 p). specialize (H2 p).
  destruct (conns s !! p) as [c|], (conns s' !! p) as [c1|], (conns s'' !! p) as [c2|]; try done.
  destruct H1 as [E1 H1], H2 as [E2 H2]. split; [congruence|].
  destruct H1 as [->|[H1 R1]]; [done|]. destruct H2 as [->|[H2 R2]]; auto.
Qed.

Lemma gc_sim_conns flush now s s' s'' : conns s'' = conns s' → gc_sim flush now s s' → gc_sim flush now s s''.
Proof. intros E Hs p. rewrite E. apply Hs. Qed.

Lemma gc_sim_move flush now s p c : conns s !! p = Some c → flush = true ∨ npf_conn_expired c now = true →
  gc_sim flush now s (npf_conn_remove (to_gclist s p) p).
Proof.
  intros Hp He q. destruct (gc_move_spec s p) as (-> & _); [eauto|]. rewrite lookup_alter_conn. case_decide as E.
  - subst q. rewrite Hp. split; [done|]. right. split; [done|].
    apply or_flags_removed.
  - destruct (conns s !! q); [|done]. split; [done|by left].
Qed.

Lemma gc_incr_loop_sim target s con now n : gc_sim false now s (snd (gc_incr_loop target s con now n)).
Proof.
  revert s con n. induction target as [|target IH]; intros s con n; simpl.
  { destruct con; apply (gc_sim_conns _ _ _ s), gc_sim_refl; done. }
  destruct con as [p|]; [|apply (gc_sim_conns _ _ _ s), gc_sim_refl; done].
  destruct (conns s !! p) as [c|] eqn:Hc; [|apply (gc_sim_conns _ _ _ s), gc_sim_refl; done].
  destruct (npf_conn_expired c now) eqn:He.
  - pose proof (gc_sim_move false now s p c Hc (or_intror He)) as Hmv. repeat case_decide; try exact Hmv.
    all: try (eapply gc_sim_trans; [exact Hmv|apply IH]).
    all: eapply gc_sim_trans; [|apply IH]; exact Hmv.
  - case_decide; [apply (gc_sim_conns _ _ _ s), gc_sim_refl; done|apply IH].
Qed.

Lemma gc_flush_loop_sim l s now : (∀ p, p ∈ l → is_Some (conns s !! p)) → gc_sim true now s (gc_flush_loop l s).
Proof.
  revert s. induction l as [|p l IH]; intros s Hl; [apply gc_sim_refl|]. simpl.
  destruct (Hl p) as [c Hc]; [left|]. eapply gc_sim_trans; [by eapply gc_sim_move; eauto|].
  apply IH. intros q Hq. destruct (gc_move_spec s p) as (-> & _); [eauto|]. rewrite lookup_alter_conn.
  case_decide; [rewrite fmap_is_Some|]; apply Hl; by right.
Qed.

(** ** The incremental scan visits the whole circle *)

Lemma list_next_middle a p b : p ∉ a → list_next (a ++ p :: b) p = head b.
Proof.
  induction a as [|x a IH]; intros Ha; simpl; [by rewrite decide_True|].
  rewrite decide_False by set_solver. apply IH. set_solver.
Qed.

Definition rot (l r : list Z) : Prop := ∃ a b, l = a ++ b ∧ r = b ++ a.

Lemma rot_perm l r : rot l r → l ≡ₚ r.
Proof. intros (a & b & -> & ->). apply Permutation_app_comm. Qed.

Lemma getnext_rot cd p r : NoDup (cd_list cd) → rot (cd_list cd) (p :: r) →
  npf_conndb_getnext cd (Some p) = head (r ++ [p]) ∧ rot (cd_list cd) (r ++ [p]) ∧
  rot (list_remove p (cd_list cd)) r.
Proof.
  intros Hn (a & b & El & Er). unfold npf_conndb_getnext. simpl. rewrite El in Hn |- *.
  destruct b as [|x b]; simpl in Er.
  - destruct a as [|x a]; [done|]. injection Er as <- ->. rewrite app_nil_r in Hn |- *. apply NoDup_cons in Hn as [Hn _].
    pose proof (list_next_middle [] p a ltac:(set_solver)) as E. simpl in E. simpl. rewrite E.
    pose proof (list_remove_middle p [] a ltac:(set_solver) Hn) as E'. simpl in E'. rewrite E'.
    split_and!; [by destruct a|exists [p], a; done|exists [], a; by rewrite app_nil_r].
  - injection Er as <- ->. apply NoDup_app in Hn as (_ & Ha & Hb%NoDup_cons).
    assert (p ∉ a) as Hpa by (intros Hin; apply (Ha p Hin); left).
    rewrite list_next_middle by done. rewrite list_remove_middle by tauto.
    split_and!; [by destruct b, a|exists (a ++ [p]), b; by rewrite <- !app_assoc|by exists a, b].
Qed.

Definition all_fresh (s : conn_sys) (now : Z) (l : list Z) : Prop :=
  ∀ q c, q ∈ l → conns s !! q = Some c → npf_conn_expired c now = false.

Lemma all_fresh_move s p now l : is_Some (conns s !! p) → p ∉ l → all_fresh s now l →
  all_fresh (npf_conn_remove (to_gclist s p) p) now l.
Proof.
  intros Hp Hl Hf q c Hq. destruct (gc_move_spec s p Hp) as (-> & _). rewrite lookup_alter_ne by set_solver. by apply Hf.
Qed.

Lemma all_fresh_rot s now l r : rot l r → all_fresh s now r → all_fresh s now l.
Proof. intros Hr Hf q c Hq. apply Hf. by rewrite <- (rot_perm _ _ Hr). Qed.

(** [visited] are the connections scanned since the marker, all of them kept. *)
Lemma gc_incr_loop_complete target s now n todo visited : conn_inv s →
  rot (cd_list (conn_db s)) (todo ++ visited) → cd_marker (conn_db s) = head (visited ++ todo) →
  (visited = [] ∨ todo ≠ []) → all_fresh s now visited → (length todo ≤ target)%nat →
  let s' := snd (gc_incr_loop target s (head todo) now n) in all_fresh s' now (cd_list (conn_db s')).
Proof.
  revert s n todo visited. induction target as [|target IH]; intros s n todo visited Hi Hr Hmk Hv Hf Hlen.
  { destruct todo; simpl in Hlen; [|lia]. destruct Hv as [->|]; [|done]. simpl. eapply all_fresh_rot; [exact Hr|done]. }
  destruct todo as [|p t]; simpl in Hlen.
  { destruct Hv as [->|]; [|done]. simpl. eapply all_fresh_rot; [exact Hr|done]. }
  destruct (all_lists_nodup s Hi) as [Hnd _].
  assert (NoDup ((p :: t) ++ visited)) as Hnd' by (by rewrite <- (rot_perm _ _ Hr)).
  simpl in Hnd'. apply NoDup_cons in Hnd' as [Hpn Hnd'].
  assert (p ∈ cd_list (conn_db s)) as Hin by (rewrite (rot_perm _ _ Hr); left).
  destruct (getnext_rot (conn_db s) p (t ++ visited) Hnd Hr) as (Enext & Hrot & Hrm).
  destruct (on_list_conn s p Hi) as [c Hc]; [by intros ? [= <-]|].
  cbn [head gc_incr_loop]. rewrite Hc, Enext. destruct (npf_conn_expired c now) eqn:He.
  - assert (is_Some (conns s !! p)) as Hs by eauto.
    pose proof (gc_move_inv s p Hi Hin) as Hi'. destruct (gc_move_spec s p Hs) as (_ & _ & El & _ & Emk & _).
    rewrite <- El in Hrm. pose proof (all_fresh_move s p now visited Hs ltac:(set_solver) Hf) as Hf'.
    assert ((if decide (head ((t ++ visited) ++ [p]) = Some p) then None else head ((t ++ visited) ++ [p])) = head (t ++ visited)) as ->.
    { destruct (t ++ visited) as [|x r] eqn:E; simpl; [by rewrite decide_True|].
      rewrite decide_False; [done|]. intros [= ->]. apply Hpn. left. }
    rewrite Emk, Hmk. destruct visited as [|v visited].
    + simpl. rewrite decide_True by done. rewrite !app_nil_r in *.
      apply (IH _ _ t []); [by apply set_marker_inv|by rewrite app_nil_r|done|by left|done|lia].
    + cbn [app head]. rewrite decide_False by (intros [= ->]; set_solver).
      destruct t as [|x t]; cbn [app head].
      * rewrite decide_True by done. eapply all_fresh_rot; [exact Hrm|exact Hf'].
      * rewrite decide_False by (intros [= ->]; apply NoDup_cons in Hnd' as [Hnd' _]; set_solver).
        apply (IH _ _ (x :: t) (v :: visited)); [done|done|by rewrite Emk, Hmk|by right|done|simpl in *; lia].
  - assert (all_fresh s now (visited ++ [p])) as Hf'.
    { intros q d [Hq|Hq%list_elem_of_singleton]%elem_of_app; [by apply Hf|]. subst q. rewrite Hc. by intros [= <-]. }
    rewrite Hmk. destruct t as [|x t]; cbn [app].
    + rewrite decide_True by (by destruct visited). eapply all_fresh_rot; [exact Hrot|exact Hf'].
    + cbn [head]. rewrite decide_False.
      2: { destruct visited as [|v visited]; simpl; intros [= ->]; [apply Hpn; left|].
           apply NoDup_cons in Hnd' as [Hnd' _]. set_solver. }
      apply (IH _ _ (x :: t) (visited ++ [p])); [done| | |by right|done|simpl in *; lia].
      * by rewrite <- app_assoc in Hrot.
      * rewrite Hmk. by destruct visited.
Qed.

Lemma rot_at l p : p ∈ l → ∃ r, rot l (p :: r).
Proof. intros (a & b & ->)%list_elem_of_split. exists (b ++ a), a, (p :: b). done. Qed.

Lemma npf_conndb_gc_incr_complete s now : conn_inv s → marker_ok s →
  Z.of_nat (length (cd_list (conn_db s))) ≤ gc_step (cp_db params) →
  let s' := snd (npf_conndb_gc_incr s now) in all_fresh s' now (cd_list (conn_db s')).
Proof.
  intros Hi Hmk Hlen. unfold npf_conndb_gc_incr. destruct (cd_marker (conn_db s)) as [p|] eqn:E.
  - destruct (rot_at _ _ (Hmk p E)) as [r Hr].
    apply (gc_incr_loop_complete _ s now 0 (p :: r) []); [done|by rewrite app_nil_r|by rewrite E|by left|by intros ? ? ?%elem_of_nil|].
    rewrite <- (Permutation_length (rot_perm _ _ Hr)). lia.
  - set (l := cd_list (conn_db s)) in *.
    apply (gc_incr_loop_complete _ (set_marker s (head l)) now 0 l []);
      [by apply set_marker_inv|exists [], l; done|done|by left|by intros ? ? ?%elem_of_nil|lia].
Qed.

Definition set_wait (s : conn_sys) (w : Z) : conn_sys :=
  mk_csys (conns s) (conn_db s) (conn_tracking s) w (next_conn s) (pool_used s) (conn_create s) (conn_destroy s) (env s).

Lemma set_wait_inv s w : conn_inv s → conn_inv (set_wait s w).
Proof. by intros []. Qed.

Lemma gc_incr_loop_new target s con now n :
  cd_new (conn_db (snd (gc_incr_loop target s con now n))) = cd_new (conn_db s).
Proof.
  revert s con n. induction target as [|target IH]; intros s con n; simpl; [by destruct con|].
  destruct con as [p|]; [|done]. destruct (conns s !! p) as [c|] eqn:Hc; [|done].
  destruct (gc_move_spec s p) as (_ & E & _); [eauto|].
  destruct (npf_conn_expired c now); repeat case_decide; rewrite ?IH; simpl; done.
Qed.

Lemma npf_conndb_gc_incr_new s now : cd_new (conn_db (snd (npf_conndb_gc_incr s now))) = cd_new (conn_db s).
Proof. unfold npf_conndb_gc_incr. destruct (cd_marker (conn_db s)); by rewrite gc_incr_loop_new. Qed.

Lemma npf_conndb_gc_incr_sim s now : gc_sim false now s (snd (npf_conndb_gc_incr s now)).
Proof.
  unfold npf_conndb_gc_incr. destruct (cd_marker (conn_db s)) as [p|]; [apply gc_incr_loop_sim|].
  apply (gc_sim_trans _ _ _ (set_marker s (npf_conndb_getnext (conn_db s) None))); [|apply gc_incr_loop_sim].
  apply (gc_sim_conns _ _ _ s), gc_sim_refl; done.
Qed.

Lemma npf_conndb_gc_phases s now flush : conn_inv s → marker_ok s →
  ∃ s1, conn_inv s1 ∧ marker_ok s1 ∧ gc_sim flush now s s1 ∧
    npf_conndb_gc s now flush = gc_destroy_loop (cd_gclist (conn_db s1)) s1 ∧
    cd_new (conn_db s1) = [] ∧
    (flush = true → cd_list (conn_db s1) = []) ∧
    (flush = false → Z.of_nat (length (cd_new (conn_db s) ++ cd_list (conn_db s))) ≤ gc_step (cp_db params) →
       all_fresh s1 now (cd_list (conn_db s1))).
Proof.
  intros Hi Hmk. unfold npf_conndb_gc. set (s0 := set_db s (npf_conndb_update (conn_db s))).
  assert (conn_inv s0) as Hi0 by (by apply npf_conndb_update_inv).
  assert (marker_ok s0) as Hmk0 by (intros p Hp; apply elem_of_app; right; by apply Hmk).
  destruct flush.
  - destruct (gc_flush_loop_inv s0 Hi0) as (Hi1 & El & En).
    set (s1 := set_marker (gc_flush_loop (cd_list (conn_db s0)) s0) None).
    exists (set_wait s1 (gc_freq_tune (worker_wait_time s1) 0)).
    split_and!; try done.
    + by apply set_wait_inv, set_marker_inv.
    + eapply (gc_sim_conns _ _ _ (gc_flush_loop (cd_list (conn_db s0)) s0)); [done|].
      apply (gc_flush_loop_sim _ s0). intros p Hp. apply (on_list_conn s0 p Hi0). by intros ? [= <-].
  - destruct (npf_conndb_gc_incr s0 now) as [n s1] eqn:E1.
    exists (set_wait s1 (gc_freq_tune (worker_wait_time s1) n)).
    destruct (npf_conndb_gc_incr_inv s0 now Hi0 Hmk0) as [Hi1 Hmk1]. rewrite E1 in Hi1, Hmk1.
    split_and!; try done.
    + by apply set_wait_inv.
    + eapply (gc_sim_conns _ _ _ s1); [done|]. pose proof (npf_conndb_gc_incr_sim s0 now) as Hs. by rewrite E1 in Hs.
    + pose proof (npf_conndb_gc_incr_new s0 now) as Hn. by rewrite E1 in Hn.
    + intros _ Hl. pose proof (npf_conndb_gc_incr_complete s0 now Hi0 Hmk0) as Hc. rewrite E1 in Hc. apply Hc.
      simpl. rewrite length_app, length_rev. by rewrite length_app in Hl.
Qed.

Lemma removed_expired s p c now : conn_inv s → conns s !! p = Some c → removed c = true → npf_conn_expired c now = true.
Proof. intros Hi Hp Hr. unfold npf_conn_expired. by rewrite (ci_expire s Hi p c Hp Hr). Qed.

Lemma npf_conndb_gc_spec s now flush : conn_inv s → marker_ok s →
  let s' := npf_conndb_gc s now flush in
  conn_inv s' ∧ marker_ok s' ∧
  (∀ p c, conns s !! p = Some c →
     conns s' !! p = Some c ∨
     (flush = true ∨ npf_conn_expired c now = true) ∧
     match conns s' !! p with
     | Some c' => removed c' = true ∧ c_refcnt c' = c_refcnt c
     | None => c_refcnt c = 0
     end) ∧
  (∀ p, is_Some (conns s' !! p) → is_Some (conns s !! p)).
Proof.
  intros Hi Hmk. destruct (npf_conndb_gc_phases s now flush Hi Hmk) as (s1 & Hi1 & Hmk1 & Hsim & -> & _).
  destruct (gc_destroy_loop_spec s1 Hi1 Hmk1) as (Hi2 & Hmk2 & Hkeep & Hsub & _). cbv zeta. split_and!; [done..| |].
  - intros p c Hp. pose proof (Hsim p) as Hs. rewrite Hp in Hs. destruct (conns s1 !! p) as [c1|] eqn:Hp1; [|done].
    destruct Hs as [Er Hc]. destruct (Hkeep p c1 Hp1) as [->|[Hr H0]].
    + destruct Hc as [->|[He Hr]]; [by left|]. right. auto.
    + destruct (conns (gc_destroy_loop _ s1) !! p) as [c2|] eqn:Hp2.
      * apply Hsub in Hp2 as Hp3. rewrite Hp1 in Hp3. injection Hp3 as <-.
        destruct Hc as [->|[He _]]; [by left|]. right. auto.
      * right. split; [|congruence]. destruct Hc as [->|[He _]]; [|done]. right. exact (removed_expired s p c now Hi Hp Hr).
  - intros p [c Hp%Hsub]. pose proof (Hsim p) as Hs. rewrite Hp in Hs. destruct (conns s !! p); [eauto|done].
Qed.

Lemma gc_destroy_loop_lists l s : cd_list (conn_db (gc_destroy_loop l s)) = cd_list (conn_db s) ∧
  cd_new (conn_db (gc_destroy_loop l s)) = cd_new (conn_db s).
Proof.
  revert s. induction l as [|p l IH]; intros s; simpl; [done|]. destruct (conns s !! p) as [c|] eqn:Hp; [|done].
  case_if; [done|]. match goal with |- context [gc_destroy_loop l ?t] => destruct (IH t) as [-> ->] end.
  unfold npf_conn_destroy. cbn [conns set_db]. by rewrite Hp.
Qed.

(** C23: The garbage collector is safe: after any pass of [npf_conndb_gc] the
    database is consistent (every key of the map leads to a connection that
    exists), a connection that is neither expired nor flushed is untouched,
    and one that is has been destroyed only if nobody referenced it; else it
    is still there, marked as removed, its references intact. *)
Theorem npf_conndb_gc_safe s now flush : conn_inv s → marker_ok s →
  let s' := npf_conndb_gc s now flush in
  conn_inv s' ∧ marker_ok s' ∧
  (∀ p c, conns s !! p = Some c →
     conns s' !! p = Some c ∨
     (flush = true ∨ npf_conn_expired c now = true) ∧
     match conns s' !! p with
     | Some c' => removed c' = true ∧ c_refcnt c' = c_refcnt c
     | None => c_refcnt c = 0
     end) ∧
  (∀ p, is_Some (conns s' !! p) → is_Some (conns s !! p)).
Proof. apply npf_conndb_gc_spec. Qed.

(** C28: The garbage collector collects: when no connection is referenced, a
    flush, or an incremental pass whose step covers the list (from wherever
    the marker was left), destroys every expired connection and keeps exactly
    the connections that have not expired. *)
Theorem npf_conndb_gc_collects s now flush : conn_inv s → marker_ok s →
  (∀ p c, conns s !! p = Some c → c_refcnt c = 0) →
  flush = true ∨ Z.of_nat (length (cd_new (conn_db s) ++ cd_list (conn_db s))) ≤ gc_step (cp_db params) →
  ∀ p c, conns (npf_conndb_gc s now flush) !! p = Some c ↔
    flush = false ∧ conns s !! p = Some c ∧ npf_conn_expired c now = false.
Proof.
  intros Hi Hmk Href Hall p c. pose proof (npf_conndb_gc_spec s now flush Hi Hmk) as (_ & _ & Hkeep & _).
  destruct (npf_conndb_gc_phases s now flush Hi Hmk) as (s1 & Hi1 & Hmk1 & Hsim & E & En & Hfl & Hin).
  split; cycle 1.
  { intros (-> & Hp & He). destruct (Hkeep p c Hp) as [?|[[?|?] _]]; [done|done|congruence]. }
  clear Hkeep. rewrite E. destruct (gc_destroy_loop_spec s1 Hi1 Hmk1) as (Hi2 & _ & _ & Hsub & Hhd).
  pose proof (gc_destroy_loop_lists (cd_gclist (conn_db s1)) s1) as (El & Enew).
  set (s2 := gc_destroy_loop _ s1) in *. intros Hp. pose proof (Hsub p c Hp) as Hp1.
  assert (cd_gclist (conn_db s2) = []) as Egc.
  { destruct (cd_gclist (conn_db s2)) as [|q l] eqn:Eg; [done|]. exfalso.
    assert (is_Some (conns s2 !! q)) as [d Hd] by (apply (ci_lists s2 Hi2); unfold all_lists; rewrite Eg; set_solver).
    apply (Hhd q d eq_refl Hd). apply Hsub in Hd. pose proof (Hsim q) as Hs. rewrite Hd in Hs.
    destruct (conns s !! q) as [d0|] eqn:Hq; [|done]. destruct Hs as [-> _]. by eapply Href. }
  assert (p ∈ cd_list (conn_db s1)) as Hl.
  { pose proof (proj1 (ci_lists s2 Hi2 p) ltac:(eauto)) as Hl. unfold all_lists in Hl.
    by rewrite Egc, Enew, En, El, app_nil_r in Hl. }
  destruct flush; [rewrite Hfl in Hl by done; by apply elem_of_nil in Hl|]. destruct Hall as [|Hall]; [done|].
  pose proof (Hin eq_refl Hall p c Hl Hp1) as He. split_and!; [done| |done].
  pose proof (Hsim p) as Hs. rewrite Hp1 in Hs. destruct (conns s !! p) as [c0|]; [|done].
  destruct Hs as [_ [->|[_ Hr]]]; [done|]. pose proof (removed_expired s1 p c now Hi1 Hp1 Hr). congruence.
Qed.

(** The G/C interval stays within its bounds. *)
Lemma gc_freq_tune_bounds wait n : interval_min (cp_db params) ≤ interval_max (cp_db params) →
  interval_min (cp_db params) ≤ gc_freq_tune wait n ≤ interval_max (cp_db params).
Proof. unfold gc_freq_tune. lia. Qed.

(** ** Insertion of the keys *)

Lemma insert_spec cd ck con flow : thmap_get (cd_map cd) (key_bytes ck) ≠ Some (con, flow) →
  let '(ok, cd') := npf_conndb_insert cd ck con flow in
  (∀ k, thmap_get (cd_map cd') k =
     if ok then (if decide (k = key_bytes ck) then Some (con, flow) else thmap_get (cd_map cd) k)
     else thmap_get (cd_map cd) k) ∧
  (ok = true → thmap_get (cd_map cd) (key_bytes ck) = None) ∧
  cd' = set_map cd (cd_map cd').
Proof.
  intros Hne. unfold npf_conndb_insert. destruct (thmap_get (cd_map cd) (key_bytes ck)) as [w|] eqn:E.
  - rewrite (thmap_put_exists _ _ _ _ E). rewrite bool_decide_eq_false_2 by done. by split_and!.
  - destruct (thmap_put _ _ _) as [r m] eqn:Ep.
    destruct (thmap_put_new _ _ _ _ _ E Ep) as [[-> Hm]|[-> ->]].
    + rewrite bool_decide_eq_true_2 by done. split_and!; [exact Hm|done|done].
    + rewrite bool_decide_eq_false_2 by done. by split_and!.
Qed.

Lemma insert_keys_spec cd con fw bk : (∀ k flow, thmap_get (cd_map cd) k ≠ Some (con, flow)) →
  let '(ok, cd') := insert_keys cd con fw bk in
  (∀ k, thmap_get (cd_map cd') k =
     if ok then
       (if decide (k = key_bytes bk) then Some (con, NPF_FLOW_BACK)
        else if decide (k = key_bytes fw) then Some (con, NPF_FLOW_FORW) else thmap_get (cd_map cd) k)
     else thmap_get (cd_map cd) k) ∧
  (ok = true → thmap_get (cd_map cd) (key_bytes fw) = None ∧ thmap_get (cd_map cd) (key_bytes bk) = None ∧
     key_bytes fw ≠ key_bytes bk) ∧
  cd' = set_map cd (cd_map cd').
Proof.
  intros Hne. unfold insert_keys. pose proof (insert_spec cd fw con NPF_FLOW_FORW (Hne _ _)) as Hs.
  destruct (npf_conndb_insert cd fw con NPF_FLOW_FORW) as [ok cd1]. destruct Hs as (H1 & H2 & E1).
  destruct ok; simpl; [|by split_and!]. specialize (H2 eq_refl).
  assert (thmap_get (cd_map cd1) (key_bytes bk) ≠ Some (con, NPF_FLOW_BACK)) as Hne1.
  { rewrite H1. case_decide; [done|apply Hne]. }
  pose proof (insert_spec cd1 bk con NPF_FLOW_BACK Hne1) as Hs.
  destruct (npf_conndb_insert cd1 bk con NPF_FLOW_BACK) as [ok cd2]. destruct Hs as (H3 & H4 & E2).
  destruct ok; simpl.
  - specialize (H4 eq_refl). rewrite H1 in H4. case_decide as Ek; [done|].
    split_and!; [intros k; rewrite H3, H1; done|done|]. rewrite E2, E1. done.
  - split_and!; [|done|].
    + intros k. rewrite remove_get, H3, H1. case_decide; [by subst|done].
    + unfold npf_conndb_remove. destruct (thmap_del _ _). cbn [snd set_map cd_map cd_new]. rewrite E2, E1. done.
Qed.

Lemma no_fresh_key s k flow : conn_inv s → thmap_get (cd_map (conn_db s)) k ≠ Some (next_conn s, flow).
Proof. intros Hi Hk. apply (ci_map s Hi) in Hk as (c & Hc & _). pose proof (ci_fresh s Hi (next_conn s) ltac:(eauto)). lia. Qed.

(** A new connection, with both keys in the map or removed. *)
Definition add_conn (s : conn_sys) (pl : Z * Z) (m : TM) (c : npf_conn) : conn_sys :=
  mk_csys (<[next_conn s := c]> (conns s)) (npf_conndb_enqueue (set_map (conn_db s) m) (next_conn s))
    (conn_tracking s) (worker_wait_time s) (next_conn s + 1) pl (conn_create s + 1) (conn_destroy s) (env s).

Lemma add_conn_inv s pl m c : conn_inv s → (removed c = true → flag (c_flags c) CONN_EXPIRE = true) →
  (∀ k, thmap_get m k =
     if removed c then thmap_get (cd_map (conn_db s)) k
     else if decide (k = key_bytes (c_back c)) then Some (next_conn s, NPF_FLOW_BACK)
     else if decide (k = key_bytes (c_forw c)) then Some (next_conn s, NPF_FLOW_FORW)
     else thmap_get (cd_map (conn_db s)) k) →
  (removed c = false → thmap_get (cd_map (conn_db s)) (key_bytes (c_forw c)) = None ∧
     thmap_get (cd_map (conn_db s)) (key_bytes (c_back c)) = None ∧ key_bytes (c_forw c) ≠ key_bytes (c_back c)) →
  conn_inv (add_conn s pl m c).
Proof.
  intros Hi He Hm Hnew.
  assert (conns s !! next_conn s = None) as Hnone.
  { destruct (conns s !! next_conn s) eqn:E; [|done]. pose proof (ci_fresh s Hi (next_conn s) ltac:(eauto)). lia. }
  assert (next_conn s ∉ all_lists (conn_db s)) as Hnl.
  { intros Hin%(ci_lists s Hi). rewrite Hnone in Hin. by destruct Hin. }
  split; cbn [add_conn conns conn_db next_conn conn_create conn_destroy cd_map npf_conndb_enqueue set_lists set_map cd_gclist].
  - intros k q flow. rewrite (Hm k). destruct (decide (q = next_conn s)) as [->|Hq].
    + rewrite lookup_insert_eq. destruct (removed c) eqn:Er.
      * split; [intros Hk; by apply no_fresh_key in Hk|intros (d & [= <-] & Hd & _); congruence].
      * destruct (Hnew eq_refl) as (Hn1 & Hn2 & Hne). repeat case_decide.
        -- subst. split; [intros [= <-]; eauto|intros (d & [= <-] & _ & Ek)]. by destruct flow; simpl in Ek.
        -- subst. split; [intros [= <-]; eauto|intros (d & [= <-] & _ & Ek)]. by destruct flow; simpl in Ek.
        -- split; [intros Hk; by apply no_fresh_key in Hk|intros (d & [= <-] & _ & Ek)]. by destruct flow; simpl in Ek.
    + rewrite lookup_insert_ne by done. rewrite <- (ci_map s Hi k q flow). destruct (removed c); [done|].
      destruct (Hnew eq_refl) as (Hn1 & Hn2 & Hne). repeat case_decide; [subst; rewrite Hn2|subst; rewrite Hn1|done]; (split; [intros [= ? ?]; congruence|done]).
  - intros q. destruct (decide (q = next_conn s)) as [->|Hq].
    + rewrite lookup_insert_eq. split; [intros _; left|done].
    + rewrite lookup_insert_ne by done. rewrite (ci_lists s Hi q). unfold all_lists. simpl. set_solver.
  - unfold all_lists. simpl. apply NoDup_cons. split; [exact Hnl|apply (ci_nodup s Hi)].
  - intros q d Hq. rewrite lookup_insert_ne; [by apply (ci_gc s Hi)|]. intros <-. apply Hnl. unfold all_lists. set_solver.
  - intros q d. destruct (decide (q = next_conn s)) as [->|Hq]; [rewrite lookup_insert_eq; by intros [= <-]|].
    rewrite lookup_insert_ne by done. apply (ci_expire s Hi).
  - intros q. destruct (decide (q = next_conn s)) as [->|Hq]; [lia|]. rewrite lookup_insert_ne by done.
    intros Hs%(ci_fresh s Hi). lia.
  - rewrite map_size_insert_None by done. pose proof (ci_count s Hi). lia.
Qed.

(** An allocated object that is destroyed at once leaves only the counters. *)
Lemma alloc_destroy_inv s idx c : conn_inv s →
  let s' := npf_conn_destroy (conn_alloc s idx c) (next_conn s) in
  conns s' = conns s ∧ conn_db s' = conn_db s ∧ conn_inv s'.
Proof.
  intros Hi. unfold npf_conn_destroy, conn_alloc. cbn [conns]. rewrite lookup_insert_eq.
  assert (conns s !! next_conn s = None) as Hnone.
  { destruct (conns s !! next_conn s) eqn:E; [|done]. pose proof (ci_fresh s Hi (next_conn s) ltac:(eauto)). lia. }
  cbn [conns conn_db]. rewrite delete_insert_id by done. split_and!; [done|done|].
  destruct Hi as [Hm Hl Hn Hg He Hf Hc]. split; cbn [conns conn_db next_conn conn_create conn_destroy]; try done; [|lia].
  intros q Hq%Hf. lia.
Qed.

Lemma dir_flags_clear di f : f = CONN_REMOVED ∨ f = CONN_EXPIRE ∨ f = CONN_ACTIVE ∨ f = CONN_PASS →
  flag (di &&& PFIL_ALL) f = false.
Proof. intros Hf. unfold flag. rewrite <- Z.land_assoc. destruct Hf as [->|[->|[->| ->]]]; simpl; by rewrite Z.land_0_r. Qed.

(** The connection that [npf_conn_establish] makes visible. *)
Definition new_conn (npc : npf_cache_t) (di now ifid : Z) (nst : npf_state_t) (fw bk : npf_connkey_t) : npf_conn :=
  mk_conn (npc_proto npc) (npc_alen npc) ifid (di &&& PFIL_ALL) (fst (cp_mem params)) (snd (cp_mem params)) None None 1 (u32 now) nst fw bk.

Lemma npf_conn_establish_cases s npc di now global avail r s' npc' : conn_inv s →
  npf_conn_establish s npc di now global avail = Some (r, s', npc') →
  (r = None ∧ conns s' = conns s ∧ conn_db s' = conn_db s ∧ conn_inv s') ∨
  ∃ nst fw bk ifid lf lb m c pl,
    npf_conn_conkey (cp_key params) npc' di NPF_FLOW_FORW = Some (fw, lf) ∧
    npf_conn_conkey (cp_key params) npc' (di ^^^ PFIL_ALL) NPF_FLOW_BACK = Some (bk, lb) ∧
    s' = add_conn s pl m c ∧ conn_inv s' ∧ c_forw c = fw ∧ c_back c = bk ∧
    ifid = (if global then nb_ifid (npc_nbuf npc') else 0) ∧
    (r = Some (next_conn s) ∧ c = new_conn npc di now ifid nst fw bk ∨
     r = None ∧ removed c = true ∧ (c_refcnt c = 0 ∧ c_rproc c = None ∧ flag (c_flags c) CONN_PASS = false) ∧
       ∀ k, thmap_get m k = thmap_get (cd_map (conn_db s)) k).
Proof.
  intros Hi. unfold npf_conn_establish.
  case_if; [intros [= <- <- <-]; by left|]. case_if; [intros [= <- <- <-]; by left|].
  set (c0 := mk_conn _ _ _ _ _ _ _ _ _ _ _ _ _). set (s0 := conn_alloc s _ c0).
  destruct (alloc_destroy_inv s (NPF_CONNCACHE (npc_alen npc)) c0 Hi) as (Ed1 & Ed2 & Hd). fold s0 in Ed1, Ed2, Hd.
  destruct (npf_state_init _ npc) as [[[[ok b] nst] npc1]|]; [|done].
  destruct ok; [|intros [= <- <- <-]; by left].
  destruct (npf_conn_conkey (cp_key params) npc1 di NPF_FLOW_FORW) as [[fw lf]|] eqn:Ef; [|intros [= <- <- <-]; by left].
  destruct (npf_conn_conkey (cp_key params) npc1 _ NPF_FLOW_BACK) as [[bk lb]|] eqn:Eb; [|intros [= <- <- <-]; by left].
  set (ifid := if global then _ else _).
  pose proof (insert_keys_spec (conn_db s0) (next_conn s) fw bk (λ k flow, no_fresh_key s k flow Hi)) as Hk.
  destruct (insert_keys (conn_db s0) (next_conn s) fw bk) as [ok cd]. destruct Hk as (Hget & Hnew & Ecd).
  intros E. right. exists nst, fw, bk, ifid, lf, lb, (cd_map cd),
    (if ok then new_conn npc di now ifid nst fw bk
     else set_ref 0 (or_flags (CONN_REMOVED ||| CONN_EXPIRE) (new_conn npc di now ifid nst fw bk))), (pool_used s0).
  set (c := if ok then _ else _). assert (s' = add_conn s (pool_used s0) (cd_map cd) c) as Es.
  { injection E as _ <- _. unfold s0, conn_alloc, set_conns, set_db, add_conn.
    cbn [conns conn_db conn_tracking worker_wait_time next_conn pool_used conn_create conn_destroy env].
    rewrite insert_insert_eq, Ecd. by destruct ok. }
  assert (removed c = negb ok) as Hr.
  { unfold c, removed. destruct ok; cbn [new_conn c_flags set_ref or_flags set_flags negb].
    - apply dir_flags_clear. auto.
    - by rewrite flag_lor, orb_true_r. }
  split_and!; [by injection E as _ _ <-|by injection E as _ _ <-|done| |by unfold c; destruct ok|by unfold c; destruct ok|by injection E as _ _ <-|].
  - rewrite Es. apply add_conn_inv; [done|..].
    + unfold c. destruct ok; cbn [c_flags set_ref or_flags set_flags new_conn]; [|by rewrite flag_lor, orb_true_r].
      unfold removed, new_conn. cbn [c_flags]. by rewrite dir_flags_clear by auto.
    + intros k. rewrite Hr, Hget. by destruct ok.
    + rewrite Hr. intros Hok. apply negb_false_iff in Hok. subst ok. by apply Hnew.
  - destruct ok; injection E as <- _ _; [by left|]. right. split_and!; try done.
    cbn [c c_flags set_ref or_flags set_flags new_conn]. by rewrite flag_lor, dir_flags_clear by auto.
Qed.

(** ** NAT association *)

Lemma map_ok_rekey s p c f m bk : conn_inv s → conns s !! p = Some c → removed c = false →
  removed (f c) = false → c_forw (f c) = c_forw c → c_back (f c) = bk →
  key_bytes bk = key_bytes (c_back c) ∨ thmap_get (cd_map (conn_db s)) (key_bytes bk) = None →
  (∀ k, thmap_get m k = if decide (k = key_bytes bk) then Some (p, NPF_FLOW_BACK)
                        else if decide (k = key_bytes (c_back c)) then None
                        else thmap_get (cd_map (conn_db s)) k) →
  map_ok m (alter f p (conns s)).
Proof.
  intros Hi Hp Hc Hfc Efw Ebk Hbk Hk k q flow. rewrite (Hk k), lookup_alter_conn.
  assert (∀ d fl, conns s !! q = Some d → removed d = false → p ≠ q → key_bytes (conn_key fl d) ≠ key_bytes bk) as Hoth.
  { intros d fl Hd Hr Hne Ek. destruct Hbk as [E|E].
    - rewrite E in Ek. by destruct (live_keys_inj s q p d c fl NPF_FLOW_BACK Hi Hd Hp Hr Hc Ek).
    - assert (thmap_get (cd_map (conn_db s)) (key_bytes bk) = Some (q, fl)); [|congruence].
      apply (ci_map s Hi). exists d. by split_and!. }
  assert (key_bytes (c_forw c) ≠ key_bytes bk) as Hfw.
  { intros Ek. destruct Hbk as [E|E].
    - rewrite E in Ek. by destruct (live_keys_inj s p p c c NPF_FLOW_FORW NPF_FLOW_BACK Hi Hp Hp Hc Hc Ek).
    - assert (thmap_get (cd_map (conn_db s)) (key_bytes bk) = Some (p, NPF_FLOW_FORW)); [|congruence].
      apply (ci_map s Hi). exists c. by split_and!. }
  destruct (decide (p = q)) as [<-|Hne].
  - rewrite Hp. cbn [fmap option_fmap option_map]. split.
    + case_decide as E1; [intros [= <-]; exists (f c); by rewrite <- Ebk in E1|]. case_decide as E2; [done|].
      intros (d & Hd & Hr & E)%(ci_map s Hi). rewrite Hp in Hd. injection Hd as <-. exists (f c).
      destruct flow; [by simpl in *; rewrite Efw|done].
    + intros (d & [= <-] & _ & ->). destruct flow; cbn [conn_key]; rewrite ?Efw, ?Ebk; [|by rewrite decide_True].
      rewrite decide_False by done. rewrite decide_False.
      * apply (ci_map s Hi). exists c. by split_and!.
      * intros Ek. by destruct (live_keys_inj s p p c c NPF_FLOW_FORW NPF_FLOW_BACK Hi Hp Hp Hc Hc Ek).
  - case_decide as E1; [|case_decide as E2].
    + split; [intros [= ? ?]; congruence|]. intros (d & Hd & Hr & E). exfalso. apply (Hoth d flow Hd Hr Hne). congruence.
    + split; [done|]. intros (d & Hd & Hr & E).
      destruct (live_keys_inj s q p d c flow NPF_FLOW_BACK Hi Hd Hp Hr Hc); [simpl; congruence|done].
    + apply (ci_map s Hi).
Qed.

Lemma remove_set_map cd ck : snd (npf_conndb_remove cd ck) = set_map cd (cd_map (snd (npf_conndb_remove cd ck))).
Proof. unfold npf_conndb_remove. by destruct (thmap_del _ _). Qed.

Lemma npf_conn_setnat_inv s p nt ntype : conn_inv s →
  conn_inv (snd (npf_conn_setnat s p nt ntype)) ∧
  (marker_ok s → marker_ok (snd (npf_conn_setnat s p nt ntype))).
Proof.
  intros Hi. unfold npf_conn_setnat. destruct (conns s !! p) as [c|] eqn:Hp; [|done].
  destruct (env_nat_gettrans (env s) nt) as [taddr tport].
  destruct (flag (c_flags c) CONN_EXPIRE) eqn:Ee; [done|]. destruct (c_nat c); [done|].
  assert (removed c = false) as Hr.
  { destruct (removed c) eqn:E; [|done]. pose proof (ci_expire s Hi p c Hp E). congruence. }
  set (bk := npf_conn_adjkey _ _ _ _).
  destruct (npf_conndb_remove (conn_db s) (c_back c)) as [ret cd1] eqn:E1.
  pose proof (remove_get (conn_db s) (c_back c)) as Hg1. pose proof (remove_set_map (conn_db s) (c_back c)) as Es1.
  rewrite E1 in Hg1, Es1. cbn [snd] in Hg1, Es1.
  assert (thmap_get (cd_map cd1) (key_bytes bk) ≠ Some (p, NPF_FLOW_BACK)) as Hne.
  { rewrite Hg1. case_decide as E; [done|]. intros (d & Hd & _ & Ek)%(ci_map s Hi). rewrite Hp in Hd. injection Hd as <-. done. }
  pose proof (insert_spec cd1 bk p NPF_FLOW_BACK Hne) as Hins.
  destruct (npf_conndb_insert cd1 bk p NPF_FLOW_BACK) as [ok cd2]. destruct Hins as (Hg2 & Hnone & Es2). destruct ok; simpl.
  - rewrite Es2, Es1. split; [|done]. apply (inv_alter s p _ (cd_map cd2) Hi).
    + eapply (map_ok_rekey s p c _ _ bk); [done..| |intros k; by rewrite Hg2, Hg1].
      specialize (Hnone eq_refl). rewrite Hg1 in Hnone. case_decide; auto.
    + intros d Hd. assert (d = c) as -> by congruence. unfold removed in *. cbn. rewrite Hr. split; done.
  - destruct (npf_conndb_remove cd2 (c_forw c)) as [ret2 cd3] eqn:E3.
    pose proof (remove_get cd2 (c_forw c)) as Hg3. pose proof (remove_set_map cd2 (c_forw c)) as Es3.
    rewrite E3 in Hg3, Es3. cbn [snd] in Hg3, Es3. cbn [snd].
    rewrite Es3, Es2, Es1. split; [|done]. apply (inv_alter s p _ (cd_map cd3) Hi).
    + eapply (map_ok_remove s p c); [done..|apply or_flags_removed|]. intros k. rewrite Hg3, Hg2, Hg1.
      repeat case_decide; naive_solver.
    + intros d _. split; intros; apply or_flags_removed.
Qed.

(** ** Packets of a connection *)

Lemma npf_conn_lookup_live s p c npc di now flow k l : conn_inv s → conns s !! p = Some c → removed c = false →
  npf_conn_conkey (cp_key params) npc di NPF_FLOW_FORW = Some (k, l) → k = conn_key flow c →
  fst (npf_conn_lookup s npc di now) =
    if npf_conn_check c (Some (nb_ifid (npc_nbuf npc))) di flow then Some (p, flow) else None.
Proof.
  intros Hi Hp Hr Hk ->. unfold npf_conn_lookup, npf_conndb_lookup. rewrite Hk.
  assert (thmap_get (cd_map (conn_db s)) (key_bytes (conn_key flow c)) = Some (p, flow)) as ->
    by (apply (ci_map s Hi); eauto).
  unfold upd_conn. cbn [conns set_conns]. rewrite lookup_alter_eq, Hp. cbn [fmap option_fmap option_map].
  assert (∀ n, npf_conn_check (set_ref n c) (Some (nb_ifid (npc_nbuf npc))) di flow
    = npf_conn_check c (Some (nb_ifid (npc_nbuf npc))) di flow) as -> by done.
  by destruct (npf_conn_check _ _ _ _).
Qed.

(** Packets that have no explicit key, by what a connection key is made of. *)
Definition same_flow (npc npc2 : npf_cache_t) : Prop :=
  npc_ckey npc2 = None ∧ npc_alen npc2 = npc_alen npc ∧ npc_proto npc2 = npc_proto npc ∧
  npc_addrs npc2 = npc_addrs npc ∧ conkey_ids npc2 = conkey_ids npc ∧
  nb_ifid (npc_nbuf npc2) = nb_ifid (npc_nbuf npc).

Definition swap {A} (p : A * A) : A * A := (snd p, fst p).

Definition reply_to (npc npc2 : npf_cache_t) : Prop :=
  npc_ckey npc2 = None ∧ npc_alen npc2 = npc_alen npc ∧ npc_proto npc2 = npc_proto npc ∧
  npc_addrs npc2 = swap (npc_addrs npc) ∧ conkey_ids npc2 = swap <$> conkey_ids npc ∧
  nb_ifid (npc_nbuf npc2) = nb_ifid (npc_nbuf npc).

Lemma conkey_same kp npc npc2 di : npc_ckey npc = None → same_flow npc npc2 →
  npf_conn_conkey kp npc2 di NPF_FLOW_FORW = npf_conn_conkey kp npc di NPF_FLOW_FORW.
Proof. intros E0 (E1 & E2 & E3 & E4 & E5 & E6). unfold npf_conn_conkey. by rewrite E0, E1, E2, E3, E4, E5, E6. Qed.

Lemma conkey_reply kp npc npc2 di : npc_ckey npc = None → reply_to npc npc2 →
  npf_conn_conkey kp npc2 di NPF_FLOW_FORW = npf_conn_conkey kp npc di NPF_FLOW_BACK.
Proof.
  intros E0 (E1 & E2 & E3 & E4 & E5 & E6). unfold npf_conn_conkey. rewrite E0, E1, E2, E3, E4, E5, E6.
  destruct (conkey_ids npc) as [[i j]|]; [|done]. by destruct (npc_addrs npc).
Qed.

(** The connection's interface and direction, as [npf_conn_check] sees them. *)
Lemma check_active c fl di ifid flow : di = PFIL_IN ∨ di = PFIL_OUT →
  c_flags c = (di &&& PFIL_ALL) ||| fl → fl = CONN_ACTIVE → c_ifid c = 0 ∨ c_ifid c = ifid →
  npf_conn_check c (Some ifid) (match flow with NPF_FLOW_FORW => di | NPF_FLOW_BACK => di ^^^ PFIL_ALL end) flow = true.
Proof.
  intros Hdi Ef -> Hif. unfold npf_conn_check. rewrite Ef.
  assert (negb (c_ifid c =? ifid) = false ∨ negb (c_ifid c =? 0) = false) as Hc.
  { destruct Hif as [->| ->]; [by right|left]. by rewrite Z.eqb_refl. }
  destruct Hdi as [-> | ->], flow; simpl; destruct Hc as [-> | ->]; simpl; by try case_if.
Qed.

Lemma npf_conn_release_lookup s p c : conns s !! p = Some c → flag (c_flags c) (CONN_ACTIVE ||| CONN_EXPIRE) = false →
  conns (npf_conn_release s p) !! p = Some (set_ref (u32 (c_refcnt c - 1)) (or_flags CONN_ACTIVE c)).
Proof.
  intros Hp Hf. unfold npf_conn_release, upd_conn. cbn [conns set_conns]. rewrite lookup_alter_eq, Hp. simpl.
  unfold flag in Hf. apply negb_false_iff in Hf. by rewrite Hf.
Qed.

(** C2: Connections work as documented.  A connection that
    [npf_conn_establish] returns is a new object with one reference and is not
    visible to lookups until that reference is released.  From then on every
    packet of the flow in the same direction finds it as "forwards", and every
    reply (addresses and ports swapped, other direction) as "backwards",
    whatever the key parameters are. *)
Theorem npf_conn_establish_lookup s npc di now global avail con s1 npc1 : conn_inv s →
  di = PFIL_IN ∨ di = PFIL_OUT → npc_ckey npc1 = None →
  npf_conn_establish s npc di now global avail = Some (Some con, s1, npc1) →
  let s2 := npf_conn_release s1 con in
  conns s !! con = None ∧ (∃ c, conns s1 !! con = Some c ∧ c_refcnt c = 1) ∧
  (∀ npc2 now2, same_flow npc1 npc2 →
     fst (npf_conn_lookup s1 npc2 di now2) = None ∧
     fst (npf_conn_lookup s2 npc2 di now2) = Some (con, NPF_FLOW_FORW)) ∧
  (∀ npc2 now2, reply_to npc1 npc2 →
     fst (npf_conn_lookup s1 npc2 (di ^^^ PFIL_ALL) now2) = None ∧
     fst (npf_conn_lookup s2 npc2 (di ^^^ PFIL_ALL) now2) = Some (con, NPF_FLOW_BACK)).
Proof.
  intros Hi Hdi Hck He s2.
  destruct (npf_conn_establish_cases _ _ _ _ _ _ _ _ _ Hi He) as
    [(? & _)|(nst & fw & bk & ifid & lf & lb & m & c & pl & Ef & Eb & Es & Hi1 & Efw & Ebk & Eif & Hc)]; [done|].
  destruct Hc as [[[= ->] Ec]|[? _]]; [|done].
  assert (conns s1 !! next_conn s = Some c) as Hp by (rewrite Es; apply lookup_insert_eq).
  assert (c_flags c = di &&& PFIL_ALL) as Efl by (by rewrite Ec).
  assert (flag (c_flags c) (CONN_ACTIVE ||| CONN_EXPIRE) = false) as Hina by (rewrite Efl; by destruct Hdi as [-> | ->]).
  pose proof (npf_conn_release_lookup s1 _ c Hp Hina) as Hp2. fold s2 in Hp2.
  pose proof (npf_conn_release_inv s1 (next_conn s) Hi1) as Hi2. fold s2 in Hi2.
  assert (removed c = false) as Hr by (unfold removed; rewrite Efl; apply dir_flags_clear; auto).
  set (c2 := set_ref _ (or_flags CONN_ACTIVE c)) in *.
  assert (removed c2 = false) as Hr2 by (unfold c2, removed; cbn [c_flags set_ref or_flags set_flags]; rewrite flag_lor; fold (removed c); by rewrite Hr).
  assert (∀ i d fl, npf_conn_check c (Some i) d fl = false) as Hoff.
  { intros i d fl. unfold npf_conn_check. unfold flag in Hina. apply negb_false_iff, Z.eqb_eq in Hina. by rewrite Hina. }
  assert (∀ i flow, i = nb_ifid (npc_nbuf npc1) → npf_conn_check c2 (Some i)
    (match flow with NPF_FLOW_FORW => di | NPF_FLOW_BACK => di ^^^ PFIL_ALL end) flow = true) as Hon.
  { intros i flow ->. eapply check_active; [done|by unfold c2; cbn; rewrite Efl|done|].
    unfold c2. cbn. rewrite Ec. cbn [c_ifid new_conn]. rewrite Eif. destruct global; auto. }
  split_and!.
  - destruct (conns s !! next_conn s) eqn:E; [|done]. pose proof (ci_fresh s Hi (next_conn s) ltac:(eauto)). lia.
  - exists c. split; [done|]. by rewrite Ec.
  - intros npc2 now2 Hs. pose proof (conkey_same (cp_key params) npc1 npc2 di Hck Hs) as Ek. rewrite Ef in Ek.
    destruct Hs as (_ & _ & _ & _ & _ & Eifid).
    rewrite (npf_conn_lookup_live s1 _ c npc2 di now2 NPF_FLOW_FORW _ _ Hi1 Hp Hr Ek) by done.
    rewrite (npf_conn_lookup_live s2 _ c2 npc2 di now2 NPF_FLOW_FORW _ _ Hi2 Hp2 Hr2 Ek) by done.
    rewrite Hoff. by rewrite (Hon _ NPF_FLOW_FORW).
  - intros npc2 now2 Hs. pose proof (conkey_reply (cp_key params) npc1 npc2 (di ^^^ PFIL_ALL) Hck Hs) as Ek. rewrite Eb in Ek.
    destruct Hs as (_ & _ & _ & _ & _ & Eifid).
    rewrite (npf_conn_lookup_live s1 _ c npc2 _ now2 NPF_FLOW_BACK _ _ Hi1 Hp Hr Ek) by done.
    rewrite (npf_conn_lookup_live s2 _ c2 npc2 _ now2 NPF_FLOW_BACK _ _ Hi2 Hp2 Hr2 Ek) by done.
    rewrite Hoff. by rewrite (Hon _ NPF_FLOW_BACK).
Qed.

(** ** Export, import and the lookup by a serialised key *)

Section io.
Context {NV W ifnet : Type} {IO : npf_ifops_t W ifnet} {NI : conn_nat_io X NV}.

(** The serialised connection; [cn_state] is absent when the member is missing
    or has another size than the state. *)
Record conn_nv := mk_conn_nv {
  cn_flags : Z;
  cn_proto : Z;
  cn_ifname : option string;
  cn_state : option npf_state_t;
  cn_forw : option key_nv;
  cn_back : option key_nv;
  cn_alen : Z;
  cn_nat : option NV;
}.

(** [None] is the error ESRCH. *)
Definition npf_conn_export (m : ifmap_t) (x : X) (con : npf_conn) : option conn_nv :=
  let flags := c_flags con in
  if negb (flags &&& (CONN_ACTIVE ||| CONN_EXPIRE) =? CONN_ACTIVE) then None else
  let fw := c_forw con in
  Some (mk_conn_nv flags (c_proto con)
    (if negb (c_ifid con =? 0) then Some (npf_ifmap_copyname m (c_ifid con)) else None)
    (Some (c_state con)) (Some (npf_connkey_export m fw)) (Some (npf_connkey_export m (c_back con)))
    (NPF_CONNKEY_ALEN fw) (env_nat_export x <$> c_nat con)).

(** The loop of [npf_conndb_export]: it stops where the circle closes. *)
Fixpoint export_loop (fuel : nat) (m : ifmap_t) (s : conn_sys) (hd : Z) (con : option Z) : option (list conn_nv) :=
  match fuel with
  | O => None
  | S fuel =>
      match con with
      | None => Some []
      | Some p =>
          let r := option_list (conns s !! p ≫= npf_conn_export m (env s)) in
          let con := npf_conndb_getnext (conn_db s) (Some p) in
          if decide (con = Some hd) then Some r
          else l ← export_loop fuel m s hd con; Some (r ++ l)
      end
  end.

Definition npf_conndb_export (fuel : nat) (m : ifmap_t) (s : conn_sys) : option (list conn_nv * conn_sys) :=
  if negb (conn_tracking s) then Some ([], s) else
  let '(head, cd) := npf_conndb_getlist (conn_db s) in
  let s := set_db s cd in
  l ← export_loop fuel m s (default 0 head) head; Some (l, s).

Definition set_env (s : conn_sys) (x : X) : conn_sys :=
  mk_csys (conns s) (conn_db s) (conn_tracking s) (worker_wait_time s) (next_conn s) (pool_used s) (conn_create s)
    (conn_destroy s) x.

(** Reconstruct a connection and insert it into the database [cd], which is
    not (yet) the active one. *)
Definition npf_conn_import (s : conn_sys) (cd : npf_conndb) (m : ifmap_t) (w : W) (cdict : conn_nv) (now : Z) :
    Z * conn_sys * npf_conndb * ifmap_t * W :=
  let alen := cn_alen cdict in
  let con := next_conn s in
  let flags := u32 (cn_flags cdict) &&& (PFIL_ALL ||| CONN_ACTIVE ||| CONN_PASS) in
  let c := mk_conn (u16 (cn_proto cdict)) 0 0 flags 0 0 None None 0 (u32 now) nst_zero [] [] in
  let s := conn_alloc s (NPF_CONNCACHE alen) c in
  let err c x m w :=
    (EINVAL, npf_conn_destroy (set_env (set_conns s (<[con := c]> (conns s))) x) con, cd, m, w) in
  let '(ifid, m, w) :=
    match cn_ifname cdict with
    | None => (Some 0, m, w)
    | Some ifname => let '(ifid, m, w) := npf_ifmap_register m w ifname in
                     (if ifid =? 0 then None else Some ifid, m, w)
    end in
  match ifid, cn_state cdict with
  | Some ifid, Some st =>
      let '(nat, x) :=
        match cn_nat cdict with
        | None => (Some None, env s)
        | Some nv => match env_nat_import (env s) nv con with
                     | (Some nt, x) => (Some (Some nt), x)
                     | (None, x) => (None, x)
                     end
        end in
      match nat with
      | None => err c x m w
      | Some nt =>
          let c := mk_conn (c_proto c) 0 ifid flags 0 0 None nt 0 (u32 now) st [] [] in
          match cn_forw cdict with
          | None => err c x m w
          | Some kf =>
              let '(fw, m, w) := npf_connkey_import m w kf in
              match fw, cn_back cdict with
              | Some (fw, _), Some kb =>
                  let '(bk, m, w) := npf_connkey_import m w kb in
                  match bk with
                  | None => err c x m w
                  | Some (bk, _) =>
                      if negb (NPF_CONNKEY_ALEN fw =? alen) || negb (NPF_CONNKEY_ALEN bk =? alen) then err c x m w else
                      let c := mk_conn (c_proto c) 0 ifid flags 0 0 None nt 0 (u32 now) st fw bk in
                      let '(ok, cd') := insert_keys cd con fw bk in
                      if negb ok then
                        (EINVAL, npf_conn_destroy (set_env (set_conns s (<[con := c]> (conns s))) x) con, cd', m, w)
                      else (0, set_env (set_conns s (<[con := c]> (conns s))) x, npf_conndb_enqueue cd' con, m, w)
                  end
              | _, _ => err c x m w
              end
          end
      end
  | _, _ => err c (env s) m w
  end.

(** The error, the exported connection and its flow. *)
Definition npf_conn_find (s : conn_sys) (m : ifmap_t) (w : W) (key_nv : option key_nv) :
    Z * option conn_nv * npf_flow_t * conn_sys * ifmap_t * W :=
  match key_nv with
  | None => (EINVAL, None, NPF_FLOW_FORW, s, m, w)
  | Some nv =>
      let '(key, m, w) := npf_connkey_import m w nv in
      match key with
      | None => (EINVAL, None, NPF_FLOW_FORW, s, m, w)
      | Some (key, _) =>
          match npf_conndb_lookup s key with
          | (None, s) => (ESRCH, None, NPF_FLOW_FORW, s, m, w)
          | (Some (con, flow), s) =>
              let s' := upd_conn s con (λ c, set_ref (u32 (c_refcnt c - 1)) c) in
              match conns s !! con with
              | None => (ESRCH, None, flow, s', m, w)
              | Some c =>
                  if negb (npf_conn_check c None 0 NPF_FLOW_FORW) then (ESRCH, None, flow, s', m, w)
                  else match npf_conn_export m (env s) c with
                       | Some nv => (0, Some nv, flow, s', m, w)
                       | None => (ESRCH, None, flow, s', m, w)
                       end
              end
          end
      end
  end.

(** The export visits every connection of the list once, in order. *)
Lemma export_loop_spec fuel m s hd a b p : cd_list (conn_db s) = a ++ p :: b → NoDup (cd_list (conn_db s)) →
  head (cd_list (conn_db s)) = Some hd → (length b < fuel)%nat →
  export_loop fuel m s hd (Some p)
    = Some (omap (λ q, conns s !! q ≫= npf_conn_export m (env s)) (p :: b)).
Proof.
  revert a b p. induction fuel as [|fuel IH]; intros a b p El Hn Hhd Hlen; [lia|].
  assert (p ∉ a) as Hpa by (rewrite El in Hn; apply NoDup_app in Hn as (_ & Hn & _); intros Hp; apply (Hn p Hp); left).
  cbn [export_loop]. unfold npf_conndb_getnext. cbn [mbind option_bind].
  assert (list_next (cd_list (conn_db s)) p = head b) as -> by (rewrite El; by apply list_next_middle).
  destruct b as [|q b].
  - cbn [head]. rewrite Hhd, decide_True by done. simpl. by destruct (conns s !! p ≫= _).
  - cbn [head]. rewrite decide_False.
    + rewrite (IH (a ++ [p]) b q); [|by rewrite <- app_assoc|done|done|simpl in Hlen; lia].
      cbn [mbind option_bind omap list_omap]. by destruct (conns s !! p ≫= _).
    + intros [= ->]. rewrite El in Hn, Hhd. destruct a as [|x a]; cbn in Hhd; injection Hhd as ->;
        apply NoDup_cons in Hn as [Hn _]; set_solver.
Qed.

Lemma npf_conndb_export_spec fuel m s : conn_inv s →
  (length (cd_new (conn_db s) ++ cd_list (conn_db s)) < fuel)%nat →
  npf_conndb_export fuel m s
    = if negb (conn_tracking s) then Some ([], s)
      else let s' := set_db s (npf_conndb_update (conn_db s)) in
           Some (omap (λ q, conns s' !! q ≫= npf_conn_export m (env s')) (cd_list (conn_db s')), s').
Proof.
  intros Hi Hfuel. unfold npf_conndb_export. case_if; [done|]. unfold npf_conndb_getlist.
  set (s' := set_db s (npf_conndb_update (conn_db s))).
  destruct (all_lists_nodup s' (npf_conndb_update_inv s Hi)) as [Hn _].
  assert (length (cd_list (conn_db s')) = length (cd_new (conn_db s) ++ cd_list (conn_db s))) as El
    by (unfold s'; simpl; by rewrite !length_app, length_rev).
  change (npf_conndb_update (conn_db s)) with (conn_db s'). destruct (cd_list (conn_db s')) as [|p l] eqn:E.
  - destruct fuel; [lia|]. done.
  - cbn [head from_option id]. change (id p) with p. rewrite (export_loop_spec fuel m s' p [] l p); [done|done|by rewrite E|by rewrite E|simpl in El; lia].
Qed.

(** An imported connection does not carry its address length: it is 0, so the
    object of an IPv6 connection is later returned to the IPv4 pool. *)
Lemma npf_conn_import_alen s cd m w cdict now s' cd' m' w' :
  npf_conn_import s cd m w cdict now = (0, s', cd', m', w') →
  ∃ c, conns s' !! next_conn s = Some c ∧ c_alen c = 0.
Proof.
  unfold npf_conn_import. destruct (match cn_ifname cdict with None => _ | Some _ => _ end) as [[[ifid|] m1] w1]; [|done].
  destruct (cn_state cdict) as [st|]; [|done].
  destruct (match cn_nat cdict with None => _ | Some _ => _ end) as [[nt|] x]; [|done].
  destruct (cn_forw cdict) as [kf|]; [|done]. destruct (npf_connkey_import m1 w1 kf) as [[[[fw lf]|] m2] w2]; [|done].
  destruct (cn_back cdict) as [kb|]; [|done]. destruct (npf_connkey_import m2 w2 kb) as [[[[bk lb]|] m3] w3]; [|done].
  case_if; [done|]. destruct (insert_keys cd _ fw bk) as [[|] cd2]; cbn [negb]; [|done].
  intros [= <- <- <- <-]. eexists. split; [apply lookup_insert_eq|done].
Qed.

End io.

(** ** Reachable states *)

(** The state after [npf_conn_init]. *)
Definition npf_conn_init (x : X) : conn_sys := mk_csys ∅ npf_conndb_create false 0 1 (0, 0) 0 0 x.

(** An ALG that looks connections up, without side effects on the database. *)
Definition alg_keeps (alg : conn_sys → npf_cache_t → Z → option (option Z * conn_sys * npf_cache_t)) : Prop :=
  ∀ s npc di r s' npc', alg s npc di = Some (r, s', npc') → conn_inv s → marker_ok s → conn_inv s' ∧ marker_ok s'.

Inductive conn_step (s : conn_sys) : conn_sys → Prop :=
  | step_inspect alg npc di now r e b s' npc' : alg_keeps alg →
      npf_conn_inspect alg s npc di now = Some (r, e, b, s', npc') → conn_step s s'
  | step_lookup npc di now : conn_step s (snd (npf_conn_lookup s npc di now))
  | step_establish npc di now global avail r s' npc' :
      npf_conn_establish s npc di now global avail = Some (r, s', npc') → conn_step s s'
  | step_release con : conn_step s (npf_conn_release s con)
  | step_setnat con nt ntype : conn_step s (snd (npf_conn_setnat s con nt ntype))
  | step_setpass con retfl rid rp : conn_step s (npf_conn_setpass s con retfl rid rp)
  | step_expire con : conn_step s (npf_conn_expire s con)
  | step_gc now flush : conn_step s (npf_conndb_gc s now flush)
  | step_tracking track : conn_step s (npf_conn_tracking s track)
  | step_getlist : conn_step s (set_db s (snd (npf_conndb_getlist (conn_db s)))).

Lemma npf_conn_init_inv x : conn_inv (npf_conn_init x) ∧ marker_ok (npf_conn_init x).
Proof.
  split; [|done]. unfold npf_conn_init, npf_conndb_create. split; unfold all_lists;
    cbn [conns conn_db cd_map cd_new cd_list cd_gclist app next_conn conn_create conn_destroy].
  - intros k p flow. rewrite thmap_get_create. split; [done|].
    intros (c & Hc & _). by rewrite lookup_empty in Hc.
  - intros p. rewrite lookup_empty, elem_of_nil. split; [by intros []|done].
  - constructor.
  - by intros p c ?%elem_of_nil.
  - intros p c. by rewrite lookup_empty.
  - intros p. rewrite lookup_empty. by intros [].
  - by rewrite map_size_empty.
Qed.

Lemma npf_conn_lookup_db s npc di now : conn_db (snd (npf_conn_lookup s npc di now)) = conn_db s.
Proof.
  unfold npf_conn_lookup, npf_conndb_lookup. destruct (npf_conn_conkey _ _ _ _) as [[key len]|]; [|done].
  destruct (thmap_get _ _) as [[con flow]|]; [|done]. cbn [conns upd_conn set_conns].
  destruct (alter _ _ _ !! con); [|done]. by destruct (negb _).
Qed.

Lemma marker_ok_db s s' : conn_db s' = conn_db s → marker_ok s → marker_ok s'.
Proof. unfold marker_ok. by intros ->. Qed.

Lemma npf_conn_inspect_inv alg s npc di now r e b s' npc' : alg_keeps alg → conn_inv s → marker_ok s →
  npf_conn_inspect alg s npc di now = Some (r, e, b, s', npc') → conn_inv s' ∧ marker_ok s'.
Proof.
  intros Halg Hi Hmk. unfold npf_conn_inspect. case_if; [by intros [= <- <- <- <- <-]|].
  destruct (alg s npc di) as [[[acon s1] npc1]|] eqn:Ea; [|done]. cbn [mbind option_bind]. destruct (Halg _ _ _ _ _ _ Ea Hi Hmk) as [Hi1 Hmk1].
  destruct acon; [by intros [= <- <- <- <- <-]|]. case_if; [by intros [= <- <- <- <- <-]|].
  pose proof (npf_conn_lookup_inv s1 npc1 di now Hi1) as Hi2. pose proof (npf_conn_lookup_db s1 npc1 di now) as Ed.
  destruct (npf_conn_lookup s1 npc1 di now) as [[[con flow]|] s2]; cbn [snd] in *;
    apply (marker_ok_db _ _ Ed) in Hmk1; [|by intros [= <- <- <- <- <-]].
  destruct (conns s2 !! con) as [c|] eqn:Ec; [|done].
  destruct (npf_state_inspect _ _ _ _) as [[[[ok st] nst] npc2]|]; [|done].
  assert (conn_inv (upd_conn s2 con (set_state nst))) as Hi3 by (by apply inv_upd).
  destruct ok; intros [= <- <- <- <- <-]; (split; [|done]); [done|by apply npf_conn_release_inv].
Qed.

Lemma conn_step_inv s s' : conn_step s s' → conn_inv s → marker_ok s → conn_inv s' ∧ marker_ok s'.
Proof.
  intros Hs Hi Hmk. destruct Hs as [alg npc di now r e b s' npc' Ha E|npc di now|npc di now global avail r s' npc' E
    |con|con nt ntype|con retfl rid rp|con|now flush|track|].
  - by eapply npf_conn_inspect_inv.
  - split; [by apply npf_conn_lookup_inv|]. by apply (marker_ok_db s); [apply npf_conn_lookup_db|].
  - destruct (npf_conn_establish_cases _ _ _ _ _ _ _ _ _ Hi E) as
      [(_ & _ & Ed & Hi')|(? & ? & ? & ? & ? & ? & ? & ? & ? & _ & _ & -> & Hi' & _)]; (split; [done|]).
    + by apply (marker_ok_db s).
    + done.
  - split; [by apply npf_conn_release_inv|done].
  - split; [by apply npf_conn_setnat_inv|by apply npf_conn_setnat_inv].
  - split; [by apply npf_conn_setpass_inv|done].
  - split; [by apply npf_conn_expire_inv|done].
  - destruct (npf_conndb_gc_spec s now flush Hi Hmk) as (? & ? & _). done.
  - split; [by destruct Hi|done].
  - split; [by apply npf_conndb_update_inv|]. intros p Hp. apply elem_of_app. right. by apply Hmk.
Qed.

(** C1: The connection database is consistent in every state reachable from
    [npf_conn_init] by any interleaving of the operations (packet inspection,
    lookup, establishment, release, NAT association, expiry, garbage
    collection, listing): the map holds exactly the two keys of every
    connection that is not removed, tagged with the right flow; every
    connection is on exactly one of the lists; those on the G/C list are
    removed and expired; the scan marker is on the list; and the statistics
    count the live objects. *)
Theorem conn_reachable_inv x s : rtc conn_step (npf_conn_init x) s → conn_inv s ∧ marker_ok s.
Proof.
  intros Hr. remember (npf_conn_init x) as s0 eqn:E. assert (conn_inv s0 ∧ marker_ok s0) as [Hi Hmk] by (subst; apply npf_conn_init_inv).
  clear E. induction Hr as [|s0 s1 s2 Hs _ IH]; [done|]. destruct (conn_step_inv _ _ Hs Hi Hmk) as [? ?]. by apply IH.
Qed.

End conn.

(** ** Witnesses *)

#[local] Instance unit_env : conn_env unit := {
  env_nat_destroy x _ _ := x; env_rproc_release x _ := x; env_nat_gettrans _ _ := ([1], 80) }.

Definition sample_conn_params : conn_params :=
  mk_conn_params (mk_connkey_params true true) default_state_params (mk_conndb_params 256 500 5000) (7, 9).

Abbreviation sample_TM := (gmap (list Z) (Z * npf_flow_t)).

Definition sample_sys : conn_sys (TM := sample_TM) (X := unit) := npf_conn_tracking (npf_conn_init tt) true.

(** The database with the connection of a TCP SYN. *)
Definition sample_establish : option (option Z * conn_sys (TM := sample_TM) (X := unit) * npf_cache_t) :=
  npf_conn_establish (MB := linear_mbufops) sample_conn_params sample_sys sample_syn_npc PFIL_OUT 100 true true.

Lemma sample_sys_inv : conn_inv sample_sys ∧ marker_ok sample_sys.
Proof.
  eapply (conn_step_inv (MB := linear_mbufops) sample_conn_params); [apply step_tracking|apply npf_conn_init_inv..].
Qed.

Definition sample_sys1 : conn_sys (TM := sample_TM) (X := unit) :=
  match sample_establish with Some (_, s, _) => s | None => sample_sys end.

Lemma sample_establish_eq : ∃ npc1, sample_establish = Some (Some 1, sample_sys1, npc1) ∧ npc_ckey npc1 = None.
Proof.
  assert (match sample_establish with Some (r, _, n) => (r, npc_ckey n) | None => (None, None) end = (Some 1, None)) as E
    by (vm_compute; reflexivity).
  unfold sample_sys1. destruct sample_establish as [[[r s] npc1]|]; [|discriminate E].
  injection E as -> Hck. by exists npc1.
Qed.

Lemma npf_conn_establish_lookup_witness :
  fst (npf_conn_lookup sample_conn_params (npf_conn_release sample_sys1 1) sample_syn_npc PFIL_OUT 101)
    = Some (1, NPF_FLOW_FORW).
Proof.
  destruct sample_establish_eq as (npc1 & E & Hck).
  destruct (npf_conn_establish_lookup (MB := linear_mbufops) sample_conn_params sample_sys sample_syn_npc PFIL_OUT 100 true true 1
    sample_sys1 npc1 (proj1 sample_sys_inv) (or_intror eq_refl) Hck E) as (_ & _ & Hf & _).
  apply (Hf sample_syn_npc 101).
  assert (∃ n, n = npc1 ∧ same_flow n sample_syn_npc) as (? & -> & ?); [|done].
  exists (match sample_establish with Some (_, _, n) => n | None => sample_syn_npc end).
  split; [by rewrite E|]. unfold same_flow. split_and!; vm_compute; reflexivity.
Defined.

Lemma sample_step : rtc (conn_step (MB := linear_mbufops) sample_conn_params) (npf_conn_init tt) sample_sys1.
Proof.
  apply rtc_l with sample_sys; [apply step_tracking|]. destruct sample_establish_eq as (npc1 & E & _).
  apply rtc_once. eapply step_establish. exact E.
Qed.

Lemma conn_reachable_inv_witness : conn_inv sample_sys1 ∧ marker_ok sample_sys1.
Proof. exact (conn_reachable_inv (MB := linear_mbufops) sample_conn_params tt sample_sys1 sample_step). Defined.

Lemma sample_sys1_inv : conn_inv sample_sys1 ∧ marker_ok sample_sys1.
Proof.
  destruct sample_establish_eq as (npc1 & E & _). destruct sample_sys_inv as [Hi Hmk].
  eapply (conn_step_inv (MB := linear_mbufops) sample_conn_params); [eapply step_establish; exact E|done|done].
Qed.

(** The connection is referenced: an expired pass keeps it. *)
Lemma npf_conndb_gc_safe_witness :
  ∃ c', conns (npf_conndb_gc sample_conn_params sample_sys1 1000000 false) !! 1 = Some c' ∧ removed c' = true.
Proof.
  destruct sample_sys1_inv as [Hi Hmk].
  destruct (npf_conndb_gc_safe sample_conn_params sample_sys1 1000000 false Hi Hmk) as (_ & _ & Hk & _).
  assert (∃ c, conns sample_sys1 !! 1 = Some c ∧ c_refcnt c = 1 ∧ removed c = false ∧
    (removed <$> conns (npf_conndb_gc sample_conn_params sample_sys1 1000000 false) !! 1 = Some true)) as (c & Hc & Hr & Hn & Hd).
  { eexists. split; [vm_compute; reflexivity|]. vm_compute. done. }
  destruct (Hk 1 c Hc) as [Hs|[_ Hs]].
  - rewrite Hs in Hd. simpl in Hd. congruence.
  - destruct (conns (npf_conndb_gc _ _ _ _) !! 1) as [c'|]; [|lia]. exists c'. tauto.
Defined.

Lemma npf_conndb_gc_collects_witness :
  conns (npf_conndb_gc sample_conn_params (npf_conn_release sample_sys1 1) 1000000 false) !! 1 = None.
Proof.
  destruct sample_sys1_inv as [Hi Hmk].
  pose proof (npf_conn_release_inv sample_sys1 1 Hi) as Hi2.
  destruct (conns (npf_conndb_gc sample_conn_params (npf_conn_release sample_sys1 1) 1000000 false) !! 1) as [c|] eqn:E; [|done].
  apply (npf_conndb_gc_collects sample_conn_params (npf_conn_release sample_sys1 1) 1000000 false Hi2 Hmk) in E
    as (_ & Hc & He).
  - assert (match conns (npf_conn_release sample_sys1 1) !! 1 with
            | Some c => npf_conn_expired sample_conn_params c 1000000 | None => true end = true) as Hx by (vm_compute; reflexivity).
    rewrite Hc in Hx. congruence.
  - intros p d Hp. assert (forallb (λ kc, c_refcnt kc.2 =? 0) (map_to_list (conns (npf_conn_release sample_sys1 1))) = true) as Hf
      by (vm_compute; reflexivity).
    rewrite forallb_forall in Hf. apply Z.eqb_eq. apply (Hf (p, d)), list_elem_of_In, elem_of_map_to_list, Hp.
  - right. vm_compute. discriminate.
Defined.

End Conn.
