(* ===== verification/Sendpkt.v ===== *)
(** * Sendpkt: packets the firewall sends (src/kern/npf_sendpkt.c)

    [npf_return_block] answers a blocked TCP packet with a reset and a blocked
    UDP packet with an ICMP error.  The checksum routines, the IPv6 scopes and
    the output routines belong to the network stack: they are the class
    [ip_stack], with the documented behaviour of [in_cksum] as a law.  A packet
    handed to the stack is the result [option] of the functions; the return
    value of the output routine is an argument. *)

From S2P Require Import Prelude Nbuf Cache Cksum Addr Rewrite Tcpopt StateTcp Ruleset.
Open Scope Z_scope.
Open Scope npf_scope.

Module Sendpkt.
Export Tcpopt StateTcp Ruleset.

Definition DEFAULT_IP_TTL : Z := 64.
Definition IPV6_DEFHLIM : Z := 64.
Definition IPV6_VERSION : Z := 0x60.
Definition IPTOS_LOWDELAY : Z := 0x10.

Class ip_stack := {
  in_cksum : list Z → Z → Z;                       (* bytes, length *)
  in6_cksum : list Z → Z → Z → Z → Z;              (* bytes, next header, offset, length *)
  in6_clearscope : list Z → Z * list Z;            (* error, the address *)
  in6_setscope : list Z → Z → Z * list Z;          (* with the interface *)
}.

(** [in_cksum]: the complement of the one's-complement sum of the words. *)
Class ip_stack_laws `{ip_stack} := {
  in_cksum_sum : ∀ p n, bytes_ok p → length p = (2 * n)%nat →
    in_cksum p (2 * Z.of_nat n) = 65535 - ocsum (words_at p 0 n);
}.

(** Fields stored into a zeroed buffer. *)
Definition b16 (v : Z) : list Z := [v &&& 0xff; v >>> 8].
Definition b32 (v : Z) : list Z := b16 (v &&& 0xffff) ++ b16 (v >>> 16).

(** What an answer carries. *)
Record rst_info := mk_rst { rst_sport : Z; rst_dport : Z; rst_seq : Z; rst_ack : Z }.

(** The TCP header of the reset; [th_off] is 5, the flags are ACK and RST. *)
Definition rst_th (r : rst_info) (sum : Z) : list Z :=
  b16 (rst_sport r) ++ b16 (rst_dport r) ++ b32 (htonl (rst_seq r)) ++ b32 (htonl (rst_ack r)) ++
  [(sizeof_tcphdr >>> 2) <<< 4; TH_ACK ||| TH_RST] ++ b16 0 ++ b16 sum ++ b16 0.

(** The IPv4 header while the TCP checksum is computed, and the final one. *)
Definition rst_ip_partial (src dst : Z) : list Z :=
  [0; 0] ++ b16 (htons sizeof_tcphdr) ++ b16 0 ++ b16 0 ++ [0; IPPROTO_TCP] ++ b16 0 ++ b32 src ++ b32 dst.
Definition rst_ip (src dst len : Z) : list Z :=
  [(4 <<< 4) ||| (sizeof_ip >>> 2); IPTOS_LOWDELAY] ++ b16 (htons len) ++ b16 0 ++ b16 0 ++
  [DEFAULT_IP_TTL; IPPROTO_TCP] ++ b16 0 ++ b32 src ++ b32 dst.

(** The IPv6 header.  Note that the payload length is that of the packet. *)
Definition rst_ip6 (src dst : list Z) (len : Z) : list Z :=
  [IPV6_VERSION; 0; 0; 0] ++ b16 (htons len) ++ [IPPROTO_TCP; IPV6_DEFHLIM] ++ src ++ dst.

Section send.
Context {stk : ip_stack}.

Definition npf_ip6_setscope (ifid : Z) (src dst : list Z) : Z * list Z * list Z :=
  let '(e, src) := in6_clearscope src in
  if negb (e =? 0) then (EINVAL, src, dst) else
  let '(e, dst) := in6_clearscope dst in
  if negb (e =? 0) then (EINVAL, src, dst) else
  let '(e, src) := in6_setscope src ifid in
  if negb (e =? 0) then (EINVAL, src, dst) else
  let '(e, dst) := in6_setscope dst ifid in
  if negb (e =? 0) then (EINVAL, src, dst) else (0, src, dst).

Definition bytes_at (p : list Z) (o : Z) (n : nat) : list Z := (λ i, rd8 p (o + Z.of_nat i)) <$> seq 0 n.

(** [alloc]: whether a buffer is available; [out]: the result of the output. *)
Definition npf_return_tcp (npc : npf_cache_t) (alloc : bool) (out : Z) : Z * option (list Z) :=
  let saw := npf_tcpsaw npc in
  let p := pkt npc in
  let oth := l4ptr npc in
  if flag (th_flags p oth) TH_RST then (0, None)
  else if negb (npf_iscached npc NPC_IP4) && negb (npf_iscached npc NPC_IP6) then (EINVAL, None)
  else if negb alloc then (ENOMEM, None) else
  let tcpdlen := if flag (th_flags p oth) TH_SYN then saw_len saw + 1 else saw_len saw in
  let r := mk_rst (th_dport p oth) (th_sport p oth) (saw_ack saw) (u32 (saw_seq saw + tcpdlen)) in
  let oip := npc_ip npc in
  if npf_iscached npc NPC_IP4 then
    let len := sizeof_ip + sizeof_tcphdr in
    let src := rd32 p (oip + 16) in
    let dst := rd32 p (oip + 12) in
    let sum := in_cksum (rst_ip_partial src dst ++ rst_th r 0) len in
    (out, Some (rst_ip src dst len ++ rst_th r sum))
  else
    let len := sizeof_ip6_hdr + sizeof_tcphdr in
    let src := bytes_at p (oip + 24) 16 in
    let dst := bytes_at p (oip + 8) 16 in
    let sum := in6_cksum (rst_ip6 src dst len ++ rst_th r 0) IPPROTO_TCP sizeof_ip6_hdr sizeof_tcphdr in
    let '(e, src, dst) := npf_ip6_setscope (nb_ifid (npc_nbuf npc)) src dst in
    if negb (e =? 0) then (EINVAL, None) else (out, Some (rst_ip6 src dst len ++ rst_th r sum)).

(** The result tells whether an ICMP error was given to the stack, which then
    owns the packet. *)
Definition npf_return_icmp (npc : npf_cache_t) : Z :=
  if npf_iscached npc NPC_IP4 then 0
  else if npf_iscached npc NPC_IP6 then
    let p := concat (nbuf_head_mbuf (npc_nbuf npc)) in
    let '(e, _, _) := npf_ip6_setscope (nb_ifid (npc_nbuf npc)) (bytes_at p 8 16) (bytes_at p 24 16) in
    if negb (e =? 0) then EINVAL else 0
  else EINVAL.

(** Whether the packet was consumed, and the reset that was sent. *)
Definition npf_return_block (npc : npf_cache_t) (retfl : Z) (alloc : bool) (out : Z) : bool * option (list Z) :=
  if negb (npf_iscached npc NPC_IP46) || negb (npf_iscached npc NPC_LAYER4) then (false, None)
  else if npc_proto npc =? IPPROTO_TCP then
    if flag retfl NPF_RULE_RETRST then (false, snd (npf_return_tcp npc alloc out)) else (false, None)
  else if npc_proto npc =? IPPROTO_UDP then
    if flag retfl NPF_RULE_RETICMP then (npf_return_icmp npc =? 0, None) else (false, None)
  else (false, None).
End send.

(** ** The reset *)

Section laws.
Context {stk : ip_stack} {stk_laws : ip_stack_laws}.

Lemma b16_spec v : inw 16 v → bytes_ok (b16 v) ∧ rd16 (b16 v) 0 = v.
Proof.
  unfold b16, inw. intros Hv. rewrite land_ff, Z.shiftr_div_pow2 by lia. change (2 ^ 8) with 256. change (2 ^ 16) with 65536 in Hv.
  split; [repeat constructor; unfold inw; change (2 ^ 8) with 256; Z.to_euclidean_division_equations; lia|].
  unfold rd16, rd8. simpl. Z.to_euclidean_division_equations; lia.
Qed.

(** The complement makes a range verify. *)
Lemma complement_verifies ws ws' : Forall (inw 16) ws → Forall (inw 16) ws' → Exists (λ w, w ≠ 0) ws →
  zsum ws' = zsum ws + (65535 - ocsum ws) → cksum_verifies ws'.
Proof.
  intros H1 H2 Hne Hz. apply cksum_verifies_iff; [done|]. rewrite Hz.
  unfold ocsum. change (foldl ocadd 0 ws) with (foldl ocadd (rep 0) ws). rewrite foldl_ocadd_rep by (done || lia).
  pose proof (zsum_pos ws H1 Hne) as Hp. unfold rep. rewrite (proj2 (Z.eqb_neq (0 + zsum ws) 0)) by lia.
  unfold sum_ok. replace (0 + zsum ws) with (zsum ws) by lia. Z.to_euclidean_division_equations; lia.
Qed.

(** The words of the reset's TCP header and of its pseudo-header. *)
Definition rst_th_words (r : rst_info) (sum : Z) : list Z :=
  [rst_sport r; rst_dport r; htonl (rst_seq r) &&& 0xffff; htonl (rst_seq r) >>> 16;
   htonl (rst_ack r) &&& 0xffff; htonl (rst_ack r) >>> 16; 80 + 256 * 20; 0; sum; 0].
Definition pseudo_words (m : list Z) : list Z :=
  words_at m 12 4 ++ [htons IPPROTO_TCP; htons sizeof_tcphdr] ++ words_at m sizeof_ip 10.

Lemma b16_val v : (v &&& 0xff) + 256 * (v >>> 8) = v.
Proof. rewrite land_ff, Z.shiftr_div_pow2 by lia. change (2 ^ 8) with 256. Z.to_euclidean_division_equations; lia. Qed.
Lemma b32_val v : (v &&& 0xffff) + 65536 * (v >>> 16) = v.
Proof.
  change 0xffff with (Z.ones 16). rewrite Z.land_ones, Z.shiftr_div_pow2 by lia. change (2 ^ 16) with 65536.
  Z.to_euclidean_division_equations; lia.
Qed.

(** [mw l]: the 16-bit fields of a buffer laid out by [b16]. *)
Definition mw (ws : list Z) : list Z := concat (b16 <$> ws).

Lemma words_at_cons a b m n o : 0 <= o → words_at (a :: b :: m) (o + 2) n = words_at m o n.
Proof.
  revert o. induction n as [|n IH]; intros o Ho; [done|]. cbn [words_at]. f_equal; [|by apply IH; lia].
  unfold rd16, rd8. replace (Z.to_nat (o + 2)) with (2 + Z.to_nat o)%nat by lia.
  by replace (Z.to_nat (o + 2 + 1)) with (2 + Z.to_nat (o + 1))%nat by lia.
Qed.

Lemma words_at_mw ws : ∀ k n, (k + n <= length ws)%nat → words_at (mw ws) (2 * Z.of_nat k) n = take n (drop k ws).
Proof.
  induction ws as [|w ws IH]; intros k n Hk; simpl in Hk.
  { assert (k = O ∧ n = O) as [-> ->] by lia. done. }
  change (mw (w :: ws)) with ((w &&& 0xff) :: (w >>> 8) :: mw ws).
  destruct k as [|k].
  - destruct n as [|n]; [done|]. cbn [words_at drop take]. f_equal; [apply b16_val|].
    change (2 * Z.of_nat 0 + 2) with (0 + 2). rewrite words_at_cons by lia. by apply (IH 0%nat); lia.
  - replace (2 * Z.of_nat (S k)) with (2 * Z.of_nat k + 2) by lia. rewrite words_at_cons by lia. simpl. apply IH. lia.
Qed.

Lemma mw_bytes ws : Forall (inw 16) ws → bytes_ok (mw ws).
Proof. induction 1 as [|w ws Hw _ IH]; [constructor|]. apply Forall_app. split; [by apply b16_spec|done]. Qed.

Lemma rst_layout src dst r sum : 
  rst_ip_partial src dst ++ rst_th r sum =
    mw ([0; htons sizeof_tcphdr; 0; 0; 256 * IPPROTO_TCP; 0; src &&& 0xffff; src >>> 16; dst &&& 0xffff; dst >>> 16] ++ rst_th_words r sum) ∧
  rst_ip src dst 40 ++ rst_th r sum =
    mw ([0x45 + 256 * IPTOS_LOWDELAY; htons 40; 0; 0; DEFAULT_IP_TTL + 256 * IPPROTO_TCP; 0;
         src &&& 0xffff; src >>> 16; dst &&& 0xffff; dst >>> 16] ++ rst_th_words r sum).
Proof. done. Qed.

Lemma half_range v : inw 32 v → inw 16 (v &&& 0xffff) ∧ inw 16 (v >>> 16).
Proof.
  intros Hv. unfold inw in *. change 0xffff with (Z.ones 16) in *.
  rewrite Z.land_ones, Z.shiftr_div_pow2 in * by lia. change (2 ^ 16) with 65536 in *. change (2 ^ 32) with 4294967296 in *.
  Z.to_euclidean_division_equations; lia.
Qed.

Lemma rst_th_words_ok r sum : inw 16 (rst_sport r) → inw 16 (rst_dport r) → inw 32 (rst_seq r) → inw 32 (rst_ack r) →
  inw 16 sum → Forall (inw 16) (rst_th_words r sum).
Proof.
  intros H1 H2 H3%bswap32_range%half_range H4%bswap32_range%half_range H5. unfold rst_th_words.
  destruct H3, H4. repeat (constructor; [first [done | unfold inw; lia]|]). constructor.
Qed.

Lemma ocsum_range ws : Forall (inw 16) ws → inw 16 (ocsum ws).
Proof.
  intros Hws. unfold ocsum. assert (∀ a, inw 16 a → inw 16 (foldl ocadd a ws)) as H; [|apply H; unfold inw; lia].
  induction Hws as [|w ws Hw _ IH]; intros a Ha; simpl; [done|]. apply IH. by apply ocadd_range.
Qed.

(** The checksum of the partially filled packet makes the reset verify. *)
Lemma rst_verifies src dst r :
  inw 16 (rst_sport r) → inw 16 (rst_dport r) → inw 32 (rst_seq r) → inw 32 (rst_ack r) → inw 32 src → inw 32 dst →
  cksum_verifies (pseudo_words (rst_ip src dst 40 ++ rst_th r (in_cksum (rst_ip_partial src dst ++ rst_th r 0) 40))).
Proof.
  intros H1 H2 H3 H4 [Hs1 Hs2]%half_range [Hd1 Hd2]%half_range.
  set (ws := [0; htons sizeof_tcphdr; 0; 0; 256 * IPPROTO_TCP; 0; src &&& 0xffff; src >>> 16; dst &&& 0xffff; dst >>> 16] ++ rst_th_words r 0).
  assert (Forall (inw 16) ws) as Hws.
  { apply Forall_app. split; [|by apply rst_th_words_ok; try (unfold inw; lia)].
    repeat (constructor; [first [done | unfold inw; vm_compute; split; congruence]|]). constructor. }
  rewrite (proj1 (rst_layout src dst r 0)). fold ws.
  change 40 with (2 * Z.of_nat 20) at 2. rewrite (in_cksum_sum (mw ws) 20) by (done || by apply mw_bytes).
  pose proof (words_at_mw ws 0 20 ltac:(done)) as Hw0. change (2 * Z.of_nat 0) with 0 in Hw0. rewrite Hw0, drop_0.
  rewrite (take_ge _ 20) by done.
  pose proof (ocsum_range ws Hws) as Hr. set (sum := 65535 - ocsum ws) in *.
  assert (inw 16 sum) as Hsum by (unfold inw, sum in *; change (2 ^ 16) with 65536 in *; lia).
  rewrite (proj2 (rst_layout src dst r sum)). unfold pseudo_words.
  change 12 with (2 * Z.of_nat 6). change sizeof_ip with (2 * Z.of_nat 10).
  rewrite !words_at_mw by (simpl; lia). apply (complement_verifies ws); [done| | |].
  - apply Forall_app. split; [apply Forall_take, Forall_drop, Forall_app; split; [|by apply rst_th_words_ok]|].
    2: apply Forall_app; split; [|by apply rst_th_words_ok].
    all: repeat (apply Forall_cons; split; [first [done | unfold inw; vm_compute; split; congruence]|]); apply Forall_nil_2.
  - apply Exists_exists. exists (htons sizeof_tcphdr). split; [unfold ws; set_solver|done].
  - subst sum. unfold ws at 1. simpl. change (htons IPPROTO_TCP) with (256 * IPPROTO_TCP). lia.
Qed.

Lemma npf_return_block_tcp npc retfl out : npf_iscached npc NPC_IP46 = true → npf_iscached npc NPC_LAYER4 = true →
  npc_proto npc = IPPROTO_TCP → flag retfl NPF_RULE_RETRST = true →
  npf_return_block npc retfl true out = (false, snd (npf_return_tcp npc true out)).
Proof. intros H1 H2 H3 H4. unfold npf_return_block. by rewrite H1, H2, H3, H4. Qed.

Lemma ip4_ip46 npc : npf_iscached npc NPC_IP4 = true → npf_iscached npc NPC_IP46 = true.
Proof.
  unfold npf_iscached, flag, NPC_IP46. rewrite Z.land_lor_distr_r, !negb_true_iff, !Z.eqb_neq.
  intros H [H0 _]%Z.lor_eq_0_iff. done.
Qed.

Lemma rst_read32 m o v : rd16 m o = v &&& 0xffff → rd16 m (o + 2) = v >>> 16 → rd32 m o = v.
Proof. intros H1 H2. unfold rd32. rewrite H1, H2. apply b32_val. Qed.

(** C13: a blocked IPv4 TCP segment whose rule says return-rst, and which is not
    itself a reset, is answered with one 40-byte packet, if it can be allocated:
    addresses and ports are swapped, the sequence number is the one the sender
    expects (its ACK), the payload is acknowledged and a SYN as one more (a FIN
    is not counted, [return_rst_fin]), the flags are ACK and RST, and the TCP
    checksum verifies.  The segment stays the caller's. *)
Theorem npf_return_block_resets npc retfl out :
  npf_iscached npc NPC_IP4 = true → npf_iscached npc NPC_LAYER4 = true → npc_proto npc = IPPROTO_TCP →
  flag retfl NPF_RULE_RETRST = true → bytes_ok (pkt npc) → flag (th_flags (pkt npc) (l4ptr npc)) TH_RST = false →
  ∃ m, npf_return_block npc retfl true out = (false, Some m) ∧ length m = 40%nat ∧
    let p := pkt npc in
    let th := l4ptr npc in
    let saw := npf_tcpsaw npc in
    rd8 m 0 = 0x45 ∧ ntohs (ip_len m 0) = 40 ∧ rd8 m 9 = IPPROTO_TCP ∧
    rd32 m 12 = rd32 p (npc_ip npc + 16) ∧ rd32 m 16 = rd32 p (npc_ip npc + 12) ∧
    th_sport m 20 = th_dport p th ∧ th_dport m 20 = th_sport p th ∧ th_off m 20 = 5 ∧
    ntohl (th_seq m 20) = ntohl (th_ack p th) ∧
    ntohl (th_ack m 20) = u32 (ntohl (th_seq p th) + saw_len saw + b2z (flag (th_flags p th) TH_SYN)) ∧
    th_flags m 20 = TH_ACK ||| TH_RST ∧ cksum_verifies (pseudo_words m).
Proof.
  intros H4 Hl4 Htcp Hrst Hb Hnr.
  assert (npf_iscached npc NPC_IP46 = true) as H46 by (by apply ip4_ip46).
  rewrite npf_return_block_tcp by done. unfold npf_return_tcp. rewrite Hnr, H4. cbn [negb andb].
  set (p := pkt npc) in *. set (th := l4ptr npc) in *.
  set (r := mk_rst _ _ _ _). set (src := rd32 p (npc_ip npc + 16)). set (dst := rd32 p (npc_ip npc + 12)).
  change (sizeof_ip + sizeof_tcphdr) with 40. set (sum := in_cksum _ 40). eexists. split; [reflexivity|]. split; [reflexivity|].
  assert (inw 32 (rst_seq r) ∧ inw 32 (rst_ack r)) as [Hs Ha].
  { split; [by apply bswap32_range, rd32_range|apply wrap_range; lia]. }
  cbv zeta. split_and!; try reflexivity.
  all: try exact (b16_val _).
  - apply rst_read32; exact (b16_val _).
  - apply rst_read32; exact (b16_val _).
  - transitivity (ntohl (htonl (rst_seq r))); [|by rewrite bswap32_involutive].
    f_equal. apply rst_read32; exact (b16_val _).
  - transitivity (ntohl (htonl (rst_ack r))); [f_equal; apply rst_read32; exact (b16_val _)|].
    rewrite bswap32_involutive by done. subst r. cbn [rst_ack].
    change (saw_seq (npf_tcpsaw npc)) with (ntohl (th_seq p th)).
    destruct (flag (th_flags p th) TH_SYN); cbn [b2z]; f_equal; lia.
  - apply rst_verifies; try done; try (by apply rd16_range); by apply rd32_range.
Qed.

End laws.

(** ** Samples *)

(** A stack with the textbook checksum and no scopes. *)
#[global] Instance plain_stack : ip_stack := {|
  in_cksum p n := 65535 - ocsum (words_at p 0 (Z.to_nat (n / 2)));
  in6_cksum p nxt off n := 65535 - ocsum (words_at p 8 16 ++ [htons nxt; htons n] ++ words_at p off (Z.to_nat (n / 2)));
  in6_clearscope a := (0, a);
  in6_setscope a _ := (0, a);
|}.
#[global] Instance plain_stack_laws : ip_stack_laws.
Proof.
  constructor. intros p n _ _. cbn [in_cksum plain_stack]. do 3 f_equal.
  rewrite Z.mul_comm, Z.div_mul by lia. lia.
Qed.

Lemma npf_return_block_resets_witness : ∃ m,
  npf_return_block sample_syn_npc NPF_RULE_RETRST true 0 = (false, Some m) ∧ cksum_verifies (pseudo_words m) ∧
  ntohl (th_ack m 20) = 2 ∧ th_sport m 20 = htons 80.
Proof.
  destruct (npf_return_block_resets sample_syn_npc NPF_RULE_RETRST 0)
    as (m & H & _ & _ & _ & _ & _ & _ & Hp & _ & _ & _ & Ha & _ & Hc);
    [vm_compute; reflexivity..|apply bytes_ok_concrete; vm_compute; reflexivity|vm_compute; reflexivity|].
  exists m. split_and!; [exact H|exact Hc|rewrite Ha; vm_compute; reflexivity|rewrite Hp; vm_compute; reflexivity].
Defined.

(** The FIN that ends the data takes a number of the sequence space as the SYN
    does, but is not counted: the reset for a FIN segment with sequence number
    1 acknowledges 1, where the one for a SYN acknowledges 2. *)
Definition sample_fin_npc : npf_cache_t :=
  mk_npc no_drop (NPC_IP4 ||| NPC_LAYER4 ||| NPC_TCP) (mk_nbuf [take 33 sample_syn ++ [TH_FIN ||| TH_ACK] ++ drop 34 sample_syn] 0 0 1 0)
    12 16 4 20 IPPROTO_TCP 0 (Some 20) None.

Theorem return_rst_fin : let acked npc := (λ m, ntohl (th_ack m 20)) <$> snd (npf_return_block npc NPF_RULE_RETRST true 0) in
  ntohl (th_seq (pkt sample_fin_npc) 20) = 1 ∧ acked sample_fin_npc = Some 1 ∧ acked sample_syn_npc = Some 2.
Proof. vm_compute. split_and!; reflexivity. Qed.

(** An IPv6 segment: a SYN from fe80::1 port 12345 to fe80::2 port 80. *)
Definition sample_syn6 : list Z :=
  [0x60; 0; 0; 0; 0; 20; 6; 64] ++ [0xfe; 0x80; 0; 0; 0; 0; 0; 0; 0; 0; 0; 0; 0; 0; 0; 1] ++
  [0xfe; 0x80; 0; 0; 0; 0; 0; 0; 0; 0; 0; 0; 0; 0; 0; 2] ++
  [0x30; 0x39; 0; 80; 0; 0; 0; 1; 0; 0; 0; 0; 0x50; 2; 0x20; 0; 0; 0; 0; 0].
Definition sample_syn6_npc : npf_cache_t :=
  mk_npc no_drop (NPC_IP6 ||| NPC_LAYER4 ||| NPC_TCP) (mk_nbuf [sample_syn6] 0 0 1 0)
    8 24 16 40 IPPROTO_TCP 0 (Some 40) None.

(** The IPv6 reset claims a payload of 60 bytes and has 20: the length counts
    the fixed header, which the IPv6 payload length does not. *)
Theorem npf_return_tcp_ip6_plen :
  match snd (npf_return_block sample_syn6_npc NPF_RULE_RETRST true 0) with
  | Some m => length m = 60%nat ∧ ntohs (ip6_plen m 0) = 60 | None => False end.
Proof. vm_compute. split; reflexivity. Qed.

End Sendpkt.
