(* ===== verification/Bpf.v ===== *)
(** * Bpf: the BPF machine and its validator (src/kern/stand/bpf_filter.c)

    A program is a list of instructions; the machine has an accumulator, an
    index register and a memory store.  [bpf_step] is one iteration of the
    interpreter loop, [bpf_filter_ext] runs it with fuel.  What C leaves
    undefined (an access outside of the packet, the store, the program or the
    coprocessor table, a read of an uninitialised word, a division by zero, a
    shift by 32 or more) and the [abort] of an unknown instruction are faults
    of the model.  [kernel] selects between the two configurations of the
    source: [_KERNEL], where the packet is an mbuf chain, and the standalone
    one, where it is a flat buffer.  The numeric instruction encoding is that
    of the BPF ABI, bpf(4). *)

From S2P Require Import Prelude Nbuf Cache.
Open Scope Z_scope.
Open Scope npf_scope.

Module Bpf.
Export Cache.

(** ** Instructions *)

Record bpf_insn := mk_insn { i_code : Z; i_jt : Z; i_jf : Z; i_k : Z }.

Definition insn_wf (p : bpf_insn) : Prop :=
  inw 16 (i_code p) ∧ inw 8 (i_jt p) ∧ inw 8 (i_jf p) ∧ inw 32 (i_k p).

Definition BPF_CLASS (c : Z) : Z := c &&& 0x07.
Definition BPF_MODE (c : Z) : Z := c &&& 0xe0.
Definition BPF_OP (c : Z) : Z := c &&& 0xf0.
Definition BPF_SRC (c : Z) : Z := c &&& 0x08.
Definition BPF_MISCOP (c : Z) : Z := c &&& 0xf8.

Definition BPF_LD : Z := 0x00.
Definition BPF_LDX : Z := 0x01.
Definition BPF_ST : Z := 0x02.
Definition BPF_STX : Z := 0x03.
Definition BPF_ALU : Z := 0x04.
Definition BPF_JMP : Z := 0x05.
Definition BPF_RET : Z := 0x06.
Definition BPF_MISC : Z := 0x07.

Definition BPF_W : Z := 0x00.
Definition BPF_H : Z := 0x08.
Definition BPF_B : Z := 0x10.

Definition BPF_IMM : Z := 0x00.
Definition BPF_ABS : Z := 0x20.
Definition BPF_IND : Z := 0x40.
Definition BPF_MEM : Z := 0x60.
Definition BPF_LEN : Z := 0x80.
Definition BPF_MSH : Z := 0xa0.

Definition BPF_ADD : Z := 0x00.
Definition BPF_SUB : Z := 0x10.
Definition BPF_MUL : Z := 0x20.
Definition BPF_DIV : Z := 0x30.
Definition BPF_OR : Z := 0x40.
Definition BPF_AND : Z := 0x50.
Definition BPF_LSH : Z := 0x60.
Definition BPF_RSH : Z := 0x70.
Definition BPF_NEG : Z := 0x80.
Definition BPF_MOD : Z := 0x90.
Definition BPF_XOR : Z := 0xa0.

Definition BPF_JA : Z := 0x00.
Definition BPF_JEQ : Z := 0x10.
Definition BPF_JGT : Z := 0x20.
Definition BPF_JGE : Z := 0x30.
Definition BPF_JSET : Z := 0x40.

Definition BPF_K : Z := 0x00.
Definition BPF_X : Z := 0x08.
Definition BPF_A : Z := 0x10.

Definition BPF_TAX : Z := 0x00.
Definition BPF_TXA : Z := 0x80.
Definition BPF_COP : Z := 0x20.
Definition BPF_COPX : Z := 0x40.

Definition BPF_MEMWORDS : Z := 16.
Definition BPF_MAX_MEMWORDS : Z := 30.
Definition BPF_MEMWORD_INIT (k : Z) : Z := u32 (1 <<< k).
Definition BPF_MAXINSNS : Z := 512.

(** The case labels of the interpreter. *)
Inductive alu := A_ADD | A_SUB | A_MUL | A_DIV | A_MOD | A_AND | A_OR | A_XOR | A_LSH | A_RSH.
Inductive jump := J_GT | J_GE | J_EQ | J_SET.
Inductive size := S_W | S_H | S_B.
Inductive source := Src_K | Src_X.

Inductive bpf_op :=
| O_RET_K | O_RET_A
| O_LD_ABS (sz : size) | O_LD_LEN | O_LDX_LEN | O_LD_IND (sz : size) | O_LDX_MSH
| O_LD_IMM | O_LDX_IMM | O_LD_MEM | O_LDX_MEM | O_ST | O_STX
| O_JA | O_JMP (j : jump) (s : source) | O_ALU (a : alu) (s : source) | O_NEG
| O_TAX | O_TXA | O_COP | O_COPX.

Definition size_code (sz : size) : Z := match sz with S_W => BPF_W | S_H => BPF_H | S_B => BPF_B end.
Definition source_code (s : source) : Z := match s with Src_K => BPF_K | Src_X => BPF_X end.
Definition alu_code (a : alu) : Z :=
  match a with
  | A_ADD => BPF_ADD | A_SUB => BPF_SUB | A_MUL => BPF_MUL | A_DIV => BPF_DIV | A_MOD => BPF_MOD
  | A_AND => BPF_AND | A_OR => BPF_OR | A_XOR => BPF_XOR | A_LSH => BPF_LSH | A_RSH => BPF_RSH
  end.
Definition jump_code (j : jump) : Z :=
  match j with J_GT => BPF_JGT | J_GE => BPF_JGE | J_EQ => BPF_JEQ | J_SET => BPF_JSET end.

Definition op_code (o : bpf_op) : Z :=
  match o with
  | O_RET_K => BPF_RET ||| BPF_K
  | O_RET_A => BPF_RET ||| BPF_A
  | O_LD_ABS sz => BPF_LD ||| size_code sz ||| BPF_ABS
  | O_LD_LEN => BPF_LD ||| BPF_W ||| BPF_LEN
  | O_LDX_LEN => BPF_LDX ||| BPF_W ||| BPF_LEN
  | O_LD_IND sz => BPF_LD ||| size_code sz ||| BPF_IND
  | O_LDX_MSH => BPF_LDX ||| BPF_MSH ||| BPF_B
  | O_LD_IMM => BPF_LD ||| BPF_IMM
  | O_LDX_IMM => BPF_LDX ||| BPF_IMM
  | O_LD_MEM => BPF_LD ||| BPF_MEM
  | O_LDX_MEM => BPF_LDX ||| BPF_MEM
  | O_ST => BPF_ST
  | O_STX => BPF_STX
  | O_JA => BPF_JMP ||| BPF_JA
  | O_JMP j s => BPF_JMP ||| jump_code j ||| source_code s
  | O_ALU a s => BPF_ALU ||| alu_code a ||| source_code s
  | O_NEG => BPF_ALU ||| BPF_NEG
  | O_TAX => BPF_MISC ||| BPF_TAX
  | O_TXA => BPF_MISC ||| BPF_TXA
  | O_COP => BPF_MISC ||| BPF_COP
  | O_COPX => BPF_MISC ||| BPF_COPX
  end.

Definition all_ops : list bpf_op :=
  [O_RET_K; O_RET_A] ++ (O_LD_ABS <$> [S_W; S_H; S_B]) ++ [O_LD_LEN; O_LDX_LEN] ++ (O_LD_IND <$> [S_W; S_H; S_B]) ++
  [O_LDX_MSH; O_LD_IMM; O_LDX_IMM; O_LD_MEM; O_LDX_MEM; O_ST; O_STX; O_JA] ++
  (s ← [Src_K; Src_X]; (λ j, O_JMP j s) <$> [J_GT; J_GE; J_EQ; J_SET]) ++
  (s ← [Src_X; Src_K]; (λ a, O_ALU a s) <$> [A_ADD; A_SUB; A_MUL; A_DIV; A_MOD; A_AND; A_OR; A_XOR; A_LSH; A_RSH]) ++
  [O_NEG; O_TAX; O_TXA; O_COP; O_COPX].

(** The [switch (pc->code)]. *)
Definition decode (code : Z) : option bpf_op := List.find (λ o, op_code o =? code) all_ops.

(** ** The machine *)

Inductive fault := F_packet | F_memory | F_uninit | F_code | F_div | F_shift | F_cop | F_abort.

(** [bpf_args_t]: [pkt] are the bytes at the packet pointer, [chain] is the
    mbuf chain it points to in the kernel configuration.  A word of the store
    that was not written is [None]. *)
Record bpf_args := mk_args {
  a_pkt : list Z;
  a_chain : list mbuf;
  a_wirelen : Z;
  a_buflen : Z;
  a_mem : list (option Z);
}.

Definition set_mem (args : bpf_args) (m : list (option Z)) : bpf_args :=
  mk_args (a_pkt args) (a_chain args) (a_wirelen args) (a_buflen args) m.

(** A coprocessor function returns A and may write to the store. *)
Definition bpf_copfunc_t : Type := bpf_args → Z → Z * bpf_args.

Record bpf_ctx := mk_ctx {
  copfuncs : option (list bpf_copfunc_t);
  extwords : Z;
  preinited : Z;
}.

Definition nfuncs (bc : bpf_ctx) : Z := Z.of_nat (length (default [] (copfuncs bc))).

Definition bpf_create : bpf_ctx := mk_ctx None 0 0.

Definition bpf_set_cop (bc : bpf_ctx) (funcs : list bpf_copfunc_t) : bpf_ctx :=
  mk_ctx (Some funcs) (extwords bc) (preinited bc).

Definition bpf_set_extmem (bc : bpf_ctx) (nwords preinit : Z) : Z * bpf_ctx :=
  if (BPF_MAX_MEMWORDS <? nwords) || negb (preinit >>> nwords =? 0) then (EINVAL, bc)
  else (0, mk_ctx (copfuncs bc) nwords preinit).

(** Bytes [k ..] in network byte-order. *)
Definition byte_at (p : list Z) (k : Z) : option Z := p !! Z.to_nat k.
Definition be16dec (p : list Z) (k : Z) : option Z :=
  a ← byte_at p k; b ← byte_at p (k + 1); Some ((a <<< 8) ||| b).
Definition be32dec (p : list Z) (k : Z) : option Z :=
  a ← byte_at p k; b ← byte_at p (k + 1); c ← byte_at p (k + 2); d ← byte_at p (k + 3);
  Some ((a <<< 24) ||| (b <<< 16) ||| (c <<< 8) ||| d).

(** Result of an mbuf access: the error flag, a value, or a bad read. *)
Inductive xres := X_err | X_val (v : Z) | X_bad.

Definition of_read (o : option Z) : xres := match o with Some v => X_val v | None => X_bad end.

(** [MINDEX]: the mbuf that holds byte [k], with its successor. *)
Fixpoint mindex (m : list mbuf) (k : Z) : option (mbuf * option mbuf * Z) :=
  match m with
  | [] => None
  | b :: m => if k <? m_buflen b then Some (b, head m, k) else mindex m (k - m_buflen b)
  end.

Definition m_xword (m : list mbuf) (k : Z) : xres :=
  match mindex m k with
  | None => X_err
  | Some (b, m0, k) =>
      let len := m_buflen b in
      if 4 <=? len - k then of_read (be32dec b k) else
      match m0 with
      | None => X_err
      | Some np =>
          if len - k + m_buflen np <? 4 then X_err
          else
            let c := byte_at b in
            let n := byte_at np in
            let word a b c d := a ← a; b ← b; c ← c; d ← d;
              Some ((a <<< 24) ||| (b <<< 16) ||| (c <<< 8) ||| d) in
            of_read (if len - k =? 1 then word (c k) (n 0) (n 1) (n 2)
                     else if len - k =? 2 then word (c k) (c (k + 1)) (n 0) (n 1)
                     else word (c k) (c (k + 1)) (c (k + 2)) (n 0))
      end
  end.

Definition m_xhalf (m : list mbuf) (k : Z) : xres :=
  match mindex m k with
  | None => X_err
  | Some (b, m0, k) =>
      if 2 <=? m_buflen b - k then of_read (be16dec b k) else
      match m0 with
      | None => X_err
      | Some np => of_read (x ← byte_at b k; y ← byte_at np 0; Some ((x <<< 8) ||| y))
      end
  end.

Definition m_xbyte (m : list mbuf) (k : Z) : xres :=
  match mindex m k with
  | None => X_err
  | Some (b, _, k) => of_read (byte_at b k)
  end.

(** ** The interpreter *)

Inductive ld_result := L_ret0 | L_val (v : Z) | L_bad.

Definition ld_read (o : option Z) : ld_result := match o with Some v => L_val v | None => L_bad end.

Definition ld_chain (x : xres) : ld_result :=
  match x with X_err => L_ret0 | X_val v => L_val v | X_bad => L_bad end.

Section machine.
Context (kernel : bool) (bc : option bpf_ctx).

Definition extract (args : bpf_args) (sz : size) (k : Z) : ld_result :=
  match sz with
  | S_W => ld_read (be32dec (a_pkt args) k)
  | S_H => ld_read (be16dec (a_pkt args) k)
  | S_B => ld_read (byte_at (a_pkt args) k)
  end.

(** The load at [k] when it does not fit the buffer; [ovf]: the address
    overflowed. *)
Definition beyond (args : bpf_args) (sz : size) (k : Z) (ovf : bool) : ld_result :=
  if kernel then
    if ovf || negb (a_buflen args =? 0) then L_ret0
    else ld_chain (match sz with
                   | S_W => m_xword (a_chain args) k
                   | S_H => m_xhalf (a_chain args) k
                   | S_B => m_xbyte (a_chain args) k
                   end)
  else L_ret0.

Definition size_len (sz : size) : Z := match sz with S_W => 4 | S_H => 2 | S_B => 1 end.

Definition load_abs (args : bpf_args) (sz : size) (k : Z) : ld_result :=
  let out := match sz with
             | S_B => a_buflen args <=? k
             | _ => (a_buflen args <? k) || (a_buflen args - k <? size_len sz)
             end in
  if out then beyond args sz k false else extract args sz k.

Definition load_ind (args : bpf_args) (sz : size) (X pk : Z) : ld_result :=
  let k := u32 (X + pk) in
  let out := match sz with
             | S_B => (k <? X) || (a_buflen args <=? k)
             | _ => (k <? X) || (a_buflen args <=? k) || (a_buflen args - k <? size_len sz)
             end in
  if out then beyond args sz k (k <? X) else extract args sz k.

Definition alu_exec (a : alu) (A v : Z) : Z + fault :=
  match a with
  | A_ADD => inl (u32 (A + v))
  | A_SUB => inl (u32 (A - v))
  | A_MUL => inl (u32 (A * v))
  | A_DIV => if v =? 0 then inr F_div else inl (A / v)
  | A_MOD => if v =? 0 then inr F_div else inl (A mod v)
  | A_AND => inl (A &&& v)
  | A_OR => inl (A ||| v)
  | A_XOR => inl (A ^^^ v)
  | A_LSH => if 32 <=? v then inr F_shift else inl (u32 (A <<< v))
  | A_RSH => if 32 <=? v then inr F_shift else inl (A >>> v)
  end.

(** The instructions that check X for 0 at run time. *)
Definition div_by_X (a : alu) (s : source) : bool :=
  match a, s with A_DIV, Src_X | A_MOD, Src_X => true | _, _ => false end.

Definition jump_cond (j : jump) (A v : Z) : bool :=
  match j with J_GT => v <? A | J_GE => v <=? A | J_EQ => A =? v | J_SET => flag A v end.

Record bpf_state := mk_st { s_A : Z; s_X : Z; s_args : bpf_args }.

Inductive bpf_result := R_next (pc : Z) (st : bpf_state) | R_ret (v : Z) | R_fault (f : fault).

Definition set_A (st : bpf_state) (A : Z) : bpf_state := mk_st A (s_X st) (s_args st).
Definition set_X (st : bpf_state) (X : Z) : bpf_state := mk_st (s_A st) X (s_args st).

Definition ld_A (pc : Z) (st : bpf_state) (l : ld_result) : bpf_result :=
  match l with L_ret0 => R_ret 0 | L_bad => R_fault F_packet | L_val v => R_next (pc + 1) (set_A st v) end.

Definition mem_get (args : bpf_args) (k : Z) : Z + fault :=
  match a_mem args !! Z.to_nat k with
  | None => inr F_memory
  | Some None => inr F_uninit
  | Some (Some v) => inl v
  end.

Definition mem_put (pc : Z) (st : bpf_state) (k v : Z) : bpf_result :=
  let m := a_mem (s_args st) in
  if Z.of_nat (length m) <=? k then R_fault F_memory
  else R_next (pc + 1) (mk_st (s_A st) (s_X st) (set_mem (s_args st) (<[Z.to_nat k := Some v]> m))).

(** Call of the coprocessor function with number [k]. *)
Definition cop_call (pc : Z) (st : bpf_state) (k : Z) : bpf_result :=
  match bc with
  | None => R_fault F_cop
  | Some bc =>
      if k <? nfuncs bc then
        match default [] (copfuncs bc) !! Z.to_nat k with
        | None => R_fault F_cop
        | Some fn => let '(A, args) := fn (s_args st) (s_A st) in R_next (pc + 1) (mk_st A (s_X st) args)
        end
      else R_ret 0
  end.

Definition bpf_exec (o : bpf_op) (p : bpf_insn) (pc : Z) (st : bpf_state) : bpf_result :=
  let A := s_A st in
  let X := s_X st in
  let args := s_args st in
  let k := i_k p in
  let next := R_next (pc + 1) in
  match o with
  | O_RET_K => R_ret k
  | O_RET_A => R_ret A
  | O_LD_ABS sz => ld_A pc st (load_abs args sz k)
  | O_LD_LEN => next (set_A st (u32 (a_wirelen args)))
  | O_LDX_LEN => next (set_X st (u32 (a_wirelen args)))
  | O_LD_IND sz => ld_A pc st (load_ind args sz X k)
  | O_LDX_MSH =>
      match load_abs args S_B k with
      | L_ret0 => R_ret 0
      | L_bad => R_fault F_packet
      | L_val v => next (set_X st ((v &&& 0xf) <<< 2))
      end
  | O_LD_IMM => next (set_A st k)
  | O_LDX_IMM => next (set_X st k)
  | O_LD_MEM => match mem_get args k with inl v => next (set_A st v) | inr f => R_fault f end
  | O_LDX_MEM => match mem_get args k with inl v => next (set_X st v) | inr f => R_fault f end
  | O_ST => mem_put pc st k A
  | O_STX => mem_put pc st k X
  | O_JA => R_next (pc + 1 + k) st
  | O_JMP j s =>
      let v := match s with Src_K => k | Src_X => X end in
      R_next (pc + 1 + (if jump_cond j A v then i_jt p else i_jf p)) st
  | O_ALU a s =>
      let v := match s with Src_K => k | Src_X => X end in
      if div_by_X a s && (X =? 0) then R_ret 0 else
      match alu_exec a A v with inl v => next (set_A st v) | inr f => R_fault f end
  | O_NEG => next (set_A st (u32 (- A)))
  | O_TAX => next (set_X st A)
  | O_TXA => next (set_A st X)
  | O_COP => cop_call pc st k
  | O_COPX => cop_call pc st X
  end.

Definition bpf_step (prog : list bpf_insn) (pc : Z) (st : bpf_state) : bpf_result :=
  match prog !! Z.to_nat pc with
  | None => R_fault F_code
  | Some p =>
      match decode (i_code p) with
      | None => if kernel then R_ret 0 else R_fault F_abort
      | Some o => bpf_exec o p pc st
      end
  end.

(** [None] when the fuel does not suffice. *)
Fixpoint bpf_loop (fuel : nat) (prog : list bpf_insn) (pc : Z) (st : bpf_state) : option (Z + fault) :=
  match fuel with
  | O => None
  | S fuel =>
      match bpf_step prog pc st with
      | R_ret v => Some (inl v)
      | R_fault f => Some (inr f)
      | R_next pc st => bpf_loop fuel prog pc st
      end
  end.

Definition bpf_filter_ext (prog : option (list bpf_insn)) (args : bpf_args) : option (Z + fault) :=
  match prog with
  | None => Some (inl (u32 (-1)))
  | Some prog => bpf_loop (S (length prog)) prog 0 (mk_st 0 0 args)
  end.

(** ** The validator *)

Definition memwords : Z :=
  let ext := match bc with Some bc => extwords bc | None => 0 end in
  if negb (ext =? 0) then ext else BPF_MEMWORDS.

Definition preinit : Z :=
  match bc with Some bc => if negb (extwords bc =? 0) then preinited bc else 0 | None => 0 end.

(** One instruction at [i]: the new invalid bits and the marks of the jump
    destinations, or [None] for [goto out]. *)
Definition validate_insn (p : bpf_insn) (i len invalid : Z) (mem : list Z) : option (Z * list Z) :=
  let code := i_code p in
  let k := i_k p in
  let cls := BPF_CLASS code in
  let mark j m := <[Z.to_nat j := default 0 (m !! Z.to_nat j) ||| invalid]> m in
  if (cls =? BPF_LD) || (cls =? BPF_LDX) then
    let mode := BPF_MODE code in
    if mode =? BPF_MEM then
      if memwords <=? k then None
      else if flag invalid (BPF_MEMWORD_INIT k) then None
      else Some (invalid, mem)
    else if (mode =? BPF_ABS) || (mode =? BPF_IND) || (mode =? BPF_MSH) || (mode =? BPF_IMM) || (mode =? BPF_LEN)
    then Some (invalid, mem)
    else None
  else if (cls =? BPF_ST) || (cls =? BPF_STX) then
    if memwords <=? k then None
    else Some (invalid &&& u32 (Z.lnot (BPF_MEMWORD_INIT k)), mem)
  else if cls =? BPF_ALU then
    let op := BPF_OP code in
    if existsb (Z.eqb op) [BPF_ADD; BPF_SUB; BPF_MUL; BPF_OR; BPF_XOR; BPF_AND; BPF_LSH; BPF_RSH; BPF_NEG]
    then Some (invalid, mem)
    else if (op =? BPF_DIV) || (op =? BPF_MOD) then
      if (BPF_SRC code =? BPF_K) && (k =? 0) then None else Some (invalid, mem)
    else None
  else if cls =? BPF_JMP then
    let from := u32 (i + 1) in
    let op := BPF_OP code in
    if op =? BPF_JA then
      if len <=? u32 (from + k) then None
      else if u32 (from + k) <? from then None
      else Some (0, mark (u32 (from + k)) mem)
    else if existsb (Z.eqb op) [BPF_JEQ; BPF_JGT; BPF_JGE; BPF_JSET] then
      if (len <=? u32 (from + i_jt p)) || (len <=? u32 (from + i_jf p)) then None
      else Some (0, mark (u32 (from + i_jf p)) (mark (u32 (from + i_jt p)) mem))
    else None
  else if cls =? BPF_RET then Some (invalid, mem)
  else if cls =? BPF_MISC then
    let op := BPF_MISCOP code in
    if (op =? BPF_COP) || (op =? BPF_COPX) then
      match bc with
      | Some (mk_ctx (Some _) _ _ as bc) => if (op =? BPF_COP) && (nfuncs bc <=? k) then None else Some (invalid, mem)
      | _ => None
      end
    else Some (invalid, mem)
  else None.

(** The loop: instructions [i ..] of the program. *)
Fixpoint validate_loop (f : list bpf_insn) (i len invalid : Z) (mem : list Z) : bool :=
  match f with
  | [] => true
  | p :: f =>
      let invalid := invalid ||| default 0 (mem !! Z.to_nat i) in
      match validate_insn p i len invalid mem with
      | None => false
      | Some (invalid, mem) => validate_loop f (i + 1) len invalid mem
      end
  end.

Definition bpf_validate_ext (f : list bpf_insn) : bool :=
  let len := Z.of_nat (length f) in
  if len <? 1 then false
  else if BPF_MAXINSNS <? len then false
  else match last f with
       | Some p =>
           if negb (i_code p =? BPF_RET ||| BPF_K) && negb (i_code p =? BPF_RET ||| BPF_A) then false
           else validate_loop f 0 len (u32 (Z.lnot preinit)) (replicate (length f) 0)
       | None => false
       end.

End machine.

Definition bpf_filter (kernel : bool) (prog : option (list bpf_insn)) (p : list Z) (chain : list mbuf) (wirelen buflen : Z) :
    option (Z + fault) :=
  bpf_filter_ext kernel None prog (mk_args p chain wirelen buflen (replicate (Z.to_nat BPF_MEMWORDS) None)).

Definition bpf_validate (f : list bpf_insn) : bool := bpf_validate_ext None f.

(** ** What the validator guarantees *)

Lemma decode_code c o : decode c = Some o → op_code o = c.
Proof. intros [_ E]%List.find_some. by apply Z.eqb_eq. Qed.

Lemma memword_testbit x k : 0 <= k < 32 → flag x (BPF_MEMWORD_INIT k) = Z.testbit x k.
Proof.
  intros Hk. unfold flag, BPF_MEMWORD_INIT. rewrite Z.shiftl_1_l.
  rewrite wrap_small by (unfold inw; split; [lia|apply Z.pow_lt_mono_r; lia]).
  destruct (Z.testbit x k) eqn:E.
  - apply negb_true_iff, Z.eqb_neq. intros E0. apply (f_equal (λ z, Z.testbit z k)) in E0.
    rewrite Z.land_spec, E, Z.pow2_bits_true, Z.bits_0 in E0 by lia. done.
  - apply negb_false_iff, Z.eqb_eq, Z.bits_inj'. intros n Hn. rewrite Z.land_spec, Z.bits_0.
    destruct (decide (n = k)) as [->|]; [by rewrite E|]. by rewrite Z.pow2_bits_false, andb_false_r.
Qed.

Lemma u32_testbit x i : 0 <= i < 32 → Z.testbit (u32 x) i = Z.testbit x i.
Proof. intros Hi. unfold wrap. apply Z.mod_pow2_bits_low. lia. Qed.

Section safety.
Context (kernel : bool) (bc : option bpf_ctx).

(** A context as [bpf_set_extmem] leaves it. *)
Definition ctx_ok : Prop :=
  match bc with
  | None => True
  | Some bc => 0 <= extwords bc <= BPF_MAX_MEMWORDS
  end.

Lemma memwords_range : ctx_ok → 0 < memwords bc <= 30.
Proof.
  unfold ctx_ok, memwords. destruct bc as [c|]; [|done]. intros Hc.
  destruct (extwords c =? 0) eqn:E; bool_to_prop; simpl; [done|]. unfold BPF_MAX_MEMWORDS in Hc. lia.
Qed.

(** The arguments of a run: the packet is all there (in the kernel
    configuration, no mbuf of the chain is empty). *)
Record args_ok (args : bpf_args) : Prop := {
  ao_pkt : bytes_ok (a_pkt args);
  ao_len : 0 <= a_buflen args <= Z.of_nat (length (a_pkt args));
  ao_chain : Forall (λ m, bytes_ok m ∧ m ≠ []) (a_chain args);
  ao_mem : memwords bc <= Z.of_nat (length (a_mem args));
  ao_vals : ∀ i v, a_mem args !! i = Some (Some v) → inw 32 v;
}.

(** The words of the store that are not marked invalid are initialised. *)
Definition covers (mask : Z) (m : list (option Z)) : Prop :=
  ∀ w, 0 <= w < memwords bc → Z.testbit mask w = false → ∃ v, m !! Z.to_nat w = Some (Some v).

(** A coprocessor function writes words, and reads nothing it should not. *)
Definition cop_ok (fn : bpf_copfunc_t) : Prop :=
  ∀ args A, inw 32 A → args_ok args →
    let '(A', args') := fn args A in
    inw 32 A' ∧ args_ok args' ∧ ∀ i v, a_mem args !! i = Some (Some v) → ∃ v', a_mem args' !! i = Some (Some v').

Definition cops_ok : Prop :=
  match bc with Some bc => Forall cop_ok (default [] (copfuncs bc)) | None => True end.

Record st_ok (st : bpf_state) : Prop := {
  so_A : inw 32 (s_A st);
  so_X : inw 32 (s_X st);
  so_args : args_ok (s_args st);
}.

Lemma covers_weaken x y m : (∀ w, Z.testbit y w = false → Z.testbit x w = false) → covers x m → covers y m.
Proof. intros Hw Hc w Hr Hy. by apply Hc, Hw. Qed.

Lemma covers_lor_l x y m : covers x m → covers (x ||| y) m.
Proof. apply covers_weaken. intros w. rewrite Z.lor_spec. by intros [? _]%orb_false_iff. Qed.

Lemma covers_lor_r x y m : covers y m → covers (x ||| y) m.
Proof. rewrite Z.lor_comm. apply covers_lor_l. Qed.

(** *** Loads *)

Lemma bytes_at p k v : bytes_ok p → byte_at p k = Some v → inw 8 v.
Proof. intros Hp Hv. eapply Forall_lookup_1; [exact Hp|exact Hv]. Qed.

Lemma shl_inw a s n : 0 <= s → inw 8 a → 8 + s <= n → inw n (a <<< s).
Proof.
  intros Hs Ha Hn. rewrite Z.shiftl_mul_pow2 by done. unfold inw in *. split; [lia|].
  assert (2 ^ (8 + s) <= 2 ^ n) by (apply Z.pow_le_mono_r; lia). rewrite Z.pow_add_r in * by lia. nia.
Qed.

Lemma be16dec_inw p k v : bytes_ok p → be16dec p k = Some v → inw 32 v.
Proof.
  intros Hp. unfold be16dec. destruct (byte_at p k) as [a|] eqn:Ea; [|done]. simpl.
  destruct (byte_at p (k + 1)) as [b|] eqn:Eb; [|done]. simpl. intros [= <-].
  pose proof (bytes_at _ _ _ Hp Ea). pose proof (bytes_at _ _ _ Hp Eb).
  apply lor_inw; [lia|apply shl_inw; [lia|done|lia]|]. unfold inw in *. lia.
Qed.

Lemma be32dec_inw p k v : bytes_ok p → be32dec p k = Some v → inw 32 v.
Proof.
  intros Hp. unfold be32dec. destruct (byte_at p k) as [a|] eqn:Ea; [|done]. simpl.
  destruct (byte_at p (k + 1)) as [b|] eqn:Eb; [|done]. simpl.
  destruct (byte_at p (k + 2)) as [c|] eqn:Ec; [|done]. simpl.
  destruct (byte_at p (k + 3)) as [d|] eqn:Ed; [|done]. simpl. intros [= <-].
  pose proof (bytes_at _ _ _ Hp Ea). pose proof (bytes_at _ _ _ Hp Eb).
  pose proof (bytes_at _ _ _ Hp Ec). pose proof (bytes_at _ _ _ Hp Ed).
  repeat (apply lor_inw; [lia| |]); [apply shl_inw; [lia|done|lia]..|]. unfold inw in *. lia.
Qed.

Lemma byte_at_lt p k : 0 <= k < Z.of_nat (length p) → ∃ v, byte_at p k = Some v.
Proof. intros Hk. apply lookup_lt_is_Some_2. lia. Qed.

(** A read that lies inside of the bytes. *)
Lemma be16dec_lt p k : 0 <= k → k + 2 <= Z.of_nat (length p) → ∃ v, be16dec p k = Some v.
Proof.
  intros Hk Hl. unfold be16dec. destruct (byte_at_lt p k) as [a ->]; [lia|].
  destruct (byte_at_lt p (k + 1)) as [b ->]; [lia|]. simpl. eauto.
Qed.

Lemma be32dec_lt p k : 0 <= k → k + 4 <= Z.of_nat (length p) → ∃ v, be32dec p k = Some v.
Proof.
  intros Hk Hl. unfold be32dec. destruct (byte_at_lt p k) as [a ->]; [lia|].
  destruct (byte_at_lt p (k + 1)) as [b ->]; [lia|]. destruct (byte_at_lt p (k + 2)) as [c ->]; [lia|].
  destruct (byte_at_lt p (k + 3)) as [d ->]; [lia|]. simpl. eauto.
Qed.

(** *** Reads from an mbuf chain *)

Lemma mindex_spec m k b m0 j : 0 <= k → mindex m k = Some (b, m0, j) →
  ∃ pre post, m = pre ++ b :: post ∧ head post = m0 ∧ k = Z.of_nat (length (concat pre)) + j ∧
    0 <= j < m_buflen b.
Proof.
  revert k. induction m as [|b' m IH]; intros k Hk; simpl; [done|].
  destruct (k <? m_buflen b') eqn:E; bool_to_prop.
  - intros [= <- <- <-]. exists [], m. simpl. split_and!; try done; lia.
  - intros Hm. destruct (IH (k - m_buflen b')) as (pre & post & -> & Hh & Ek & Hj); [lia|done|].
    exists (b' :: pre), post. split_and!; [done|done| |lia..]. simpl. rewrite length_app. unfold m_buflen in *. lia.
Qed.

Lemma byte_at_chain pre b post j v : 0 <= j → byte_at b j = Some v →
  byte_at (concat (pre ++ b :: post)) (Z.of_nat (length (concat pre)) + j) = Some v.
Proof.
  intros Hj Hb. unfold byte_at in *. rewrite concat_app. simpl. rewrite lookup_app_r by lia.
  rewrite lookup_app_l by (apply lookup_lt_Some in Hb; lia). by replace (_ - _)%nat with (Z.to_nat j) by lia.
Qed.

Lemma byte_at_chain_next pre b np post j v : 0 <= j → byte_at np j = Some v →
  byte_at (concat (pre ++ b :: np :: post)) (Z.of_nat (length (concat pre)) + (m_buflen b + j)) = Some v.
Proof.
  intros Hj Hb. unfold m_buflen. replace (pre ++ b :: np :: post) with ((pre ++ [b]) ++ np :: post) by (by rewrite <- app_assoc).
  rewrite <- (byte_at_chain (pre ++ [b]) np post j v Hj Hb). f_equal. rewrite concat_app, length_app. simpl.
  rewrite app_nil_r. lia.
Qed.

Lemma head_inv {A} (l : list A) x : head l = Some x → ∃ l', l = x :: l'.
Proof. destruct l; simpl; [done|]. intros [= <-]. eauto. Qed.

(** What the accessors return is what a flat buffer holds there; with no empty
    mbuf in the chain they read nothing else. *)
Lemma m_xbyte_flat m k : 0 <= k →
  match m_xbyte m k with X_val v => byte_at (concat m) k = Some v | X_bad => False | X_err => True end.
Proof.
  intros Hk. unfold m_xbyte. destruct (mindex m k) as [[[b m0] j]|] eqn:E; [|done].
  destruct (mindex_spec _ _ _ _ _ Hk E) as (pre & post & -> & _ & -> & Hj).
  destruct (byte_at_lt b j) as [v Hv]; [exact Hj|]. rewrite Hv. simpl. apply byte_at_chain; [lia|done].
Qed.

Lemma m_xhalf_flat m k : 0 <= k → Forall (λ m, m ≠ []) m →
  match m_xhalf m k with X_val v => be16dec (concat m) k = Some v | X_bad => False | X_err => True end.
Proof.
  intros Hk Hne. unfold m_xhalf. destruct (mindex m k) as [[[b m0] j]|] eqn:E; [|done].
  destruct (mindex_spec _ _ _ _ _ Hk E) as (pre & post & -> & Hh & -> & Hj).
  destruct (2 <=? m_buflen b - j) eqn:E2; bool_to_prop.
  - unfold be16dec. destruct (byte_at_lt b j) as [x Hx]; [exact Hj|].
    destruct (byte_at_lt b (j + 1)) as [y Hy]; [unfold m_buflen in *; lia|].
    rewrite Hx, Hy. simpl. rewrite (byte_at_chain pre b post j x) by (try lia; done). simpl.
    rewrite <- Z.add_assoc, (byte_at_chain pre b post (j + 1) y) by (try lia; done). done.
  - destruct m0 as [np|]; [|done]. apply head_inv in Hh as [post' ->].
    destruct np as [|y np]; [by apply Forall_app in Hne as [_ [_ [? _]%Forall_cons]%Forall_cons]|].
    destruct (byte_at_lt b j) as [x Hx]; [exact Hj|]. rewrite Hx. simpl. unfold be16dec.
    rewrite (byte_at_chain pre b _ j x) by (try lia; done). simpl.
    pose proof (byte_at_chain_next pre b (y :: np) post' 0 y ltac:(lia) eq_refl) as Hy.
    replace (_ + j + 1) with (Z.of_nat (length (concat pre)) + (m_buflen b + 0)) by lia. by rewrite Hy.
Qed.

Lemma m_xword_flat m k : 0 <= k →
  match m_xword m k with X_val v => be32dec (concat m) k = Some v | X_bad => False | X_err => True end.
Proof.
  intros Hk. unfold m_xword. destruct (mindex m k) as [[[b m0] j]|] eqn:E; [|done].
  destruct (mindex_spec _ _ _ _ _ Hk E) as (pre & post & -> & Hh & -> & Hj).
  assert (∀ i, 0 <= i → j + i < m_buflen b → ∃ v, byte_at b (j + i) = Some v ∧
    byte_at (concat (pre ++ b :: post)) (Z.of_nat (length (concat pre)) + j + i) = Some v) as Hb.
  { intros i Hi Hlt. destruct (byte_at_lt b (j + i)) as [v Hv]; [unfold m_buflen in *; lia|]. exists v. split; [done|].
    rewrite <- Z.add_assoc. apply byte_at_chain; [lia|done]. }
  destruct (4 <=? m_buflen b - j) eqn:E2; bool_to_prop.
  - destruct (Hb 0) as (x0 & H0 & H0'); [lia..|]. destruct (Hb 1) as (x1 & H1 & H1'); [lia..|].
    destruct (Hb 2) as (x2 & H2 & H2'); [lia..|]. destruct (Hb 3) as (x3 & H3 & H3'); [lia..|].
    rewrite Z.add_0_r in H0, H0'. unfold be32dec. by rewrite H0, H0', H1, H1', H2, H2', H3, H3'.
  - destruct m0 as [np|]; [|done]. apply head_inv in Hh as [post' ->].
    destruct (m_buflen b - j + m_buflen np <? 4) eqn:E3; bool_to_prop; [done|].
    assert (∀ i q, 0 <= i < m_buflen np → q = m_buflen b - j + i → ∃ v, byte_at np i = Some v ∧
      byte_at (concat (pre ++ b :: np :: post')) (Z.of_nat (length (concat pre)) + j + q) = Some v) as Hn.
    { intros i q Hi ->. destruct (byte_at_lt np i) as [v Hv]; [exact Hi|]. exists v. split; [done|].
      rewrite <- (byte_at_chain_next pre b np post' i v) by (try lia; done). f_equal. lia. }
    destruct (Hb 0) as (x0 & H0 & H0'); [lia..|]. rewrite Z.add_0_r in H0, H0'.
    destruct (m_buflen b - j =? 1) eqn:E4; bool_to_prop; [|destruct (m_buflen b - j =? 2) eqn:E5; bool_to_prop].
    + destruct (Hn 0 1) as (x1 & H1 & H1'); [lia..|]. destruct (Hn 1 2) as (x2 & H2 & H2'); [lia..|].
      destruct (Hn 2 3) as (x3 & H3 & H3'); [lia..|]. 
      unfold be32dec. by rewrite H0, H0', H1, H1', H2, H2', H3, H3'.
    + destruct (Hb 1) as (x1 & H1 & H1'); [lia..|]. destruct (Hn 0 2) as (x2 & H2 & H2'); [lia..|].
      destruct (Hn 1 3) as (x3 & H3 & H3'); [lia..|].
      unfold be32dec. by rewrite H0, H0', H1, H1', H2, H2', H3, H3'.
    + assert (m_buflen b - j = 3) as E6 by lia.
      destruct (Hb 1) as (x1 & H1 & H1'); [lia..|]. destruct (Hb 2) as (x2 & H2 & H2'); [lia..|].
      destruct (Hn 0 3) as (x3 & H3 & H3'); [lia..|].
      unfold be32dec. by rewrite H0, H0', H1, H1', H2, H2', H3, H3'.
Qed.

(** *** One instruction *)

Definition ld_ok (l : ld_result) : Prop :=
  match l with L_bad => False | L_val v => inw 32 v | L_ret0 => True end.

Lemma bytes_concat m : Forall (λ m, bytes_ok m ∧ m ≠ []) m → bytes_ok (concat m).
Proof. induction 1 as [|b m [Hb _] _ IH]; [constructor|]. simpl. by apply Forall_app. Qed.

Lemma byte_inw32 v : inw 8 v → inw 32 v.
Proof. unfold inw. lia. Qed.

Lemma beyond_ok args sz k ovf : args_ok args → 0 <= k → ld_ok (beyond kernel args sz k ovf).
Proof.
  intros Ha Hk. unfold beyond. destruct kernel; [|done]. case_if; [done|].
  pose proof (ao_chain args Ha) as Hc. pose proof (bytes_concat _ Hc) as Hb. destruct sz.
  - pose proof (m_xword_flat (a_chain args) k Hk) as Hx. destruct (m_xword _ _); simpl in *; try done. by eapply be32dec_inw.
  - pose proof (m_xhalf_flat (a_chain args) k Hk) as Hx. destruct (m_xhalf _ _); simpl in *; try done.
    + eapply be16dec_inw; [exact Hb|]. apply Hx. by eapply Forall_impl; [exact Hc|intros ? []].
    + apply Hx. by eapply Forall_impl; [exact Hc|intros ? []].
  - pose proof (m_xbyte_flat (a_chain args) k Hk) as Hx. destruct (m_xbyte _ _); simpl in *; try done.
    eapply byte_inw32, bytes_at; eauto.
Qed.

Lemma extract_ok args sz k : args_ok args → 0 <= k → k + size_len sz <= a_buflen args → ld_ok (extract args sz k).
Proof.
  intros Ha Hk Hl. pose proof (ao_len args Ha). pose proof (ao_pkt args Ha) as Hp. destruct sz; simpl in *.
  - destruct (be32dec_lt (a_pkt args) k) as [v E]; [lia..|]. rewrite E. by eapply be32dec_inw.
  - destruct (be16dec_lt (a_pkt args) k) as [v E]; [lia..|]. rewrite E. by eapply be16dec_inw.
  - destruct (byte_at_lt (a_pkt args) k) as [v E]; [lia..|]. rewrite E. by eapply byte_inw32, bytes_at.
Qed.

Lemma load_abs_ok args sz k : args_ok args → 0 <= k → ld_ok (load_abs kernel args sz k).
Proof.
  intros Ha Hk. unfold load_abs. case_if; [by apply beyond_ok|]. apply extract_ok; [done..|].
  destruct sz; bool_to_prop; simpl; simpl in *; lia.
Qed.

Lemma load_ind_ok args sz X k : args_ok args → ld_ok (load_ind kernel args sz X k).
Proof.
  intros Ha. unfold load_ind. pose proof (wrap_range 32 (X + k) ltac:(lia)) as [Hk _].
  case_if; [by apply beyond_ok|]. apply extract_ok; [done..|]. destruct sz; bool_to_prop; simpl; simpl in *; lia.
Qed.

Definition divides (a : alu) : bool := match a with A_DIV | A_MOD => true | _ => false end.

Lemma alu_ok a A v : inw 32 A → inw 32 v → (divides a = true → v ≠ 0) →
  match alu_exec a A v with inl r => inw 32 r | inr f => f = F_shift end.
Proof.
  intros HA Hv Hd. destruct a; cbn [alu_exec]; try (apply wrap_range; lia).
  - destruct (v =? 0) eqn:E; bool_to_prop; [by destruct Hd|]. unfold inw in *. pose proof (Z.div_pos A v). pose proof (Z.div_le_upper_bound A v A). nia.
  - destruct (v =? 0) eqn:E; bool_to_prop; [by destruct Hd|]. unfold inw in *. pose proof (Z.mod_pos_bound A v). lia.
  - by apply land_inw.
  - by apply lor_inw.
  - by apply lxor_inw.
  - case_if; [done|apply wrap_range; lia].
  - case_if; [done|]. bool_to_prop. rewrite Z.shiftr_div_pow2 by (unfold inw in *; lia). unfold inw in *.
    assert (0 < 2 ^ v) by (apply Z.pow_pos_nonneg; lia). pose proof (Z.div_pos A (2 ^ v)).
    pose proof (Z.div_le_upper_bound A (2 ^ v) A). nia.
Qed.

(** What the run may do next from instruction [i]: return, or go on ahead with
    a store that covers the invalid bits there. *)
Definition step_safe (len i inv' : Z) (mem' : list Z) (r : bpf_result) : Prop :=
  match r with
  | R_ret v => inw 32 v
  | R_fault f => f = F_shift
  | R_next j st' => st_ok st' ∧ i < j ∧
      (j = i + 1 ∧ covers inv' (a_mem (s_args st')) ∨
       j < len ∧ covers (default 0 (mem' !! Z.to_nat j)) (a_mem (s_args st')))
  end.

Lemma next_safe len i inv mem st : st_ok st → covers inv (a_mem (s_args st)) →
  step_safe len i inv mem (R_next (i + 1) st).
Proof. intros Hst Hc. split_and!; [done|lia|]. by left. Qed.

Lemma set_A_ok st v : st_ok st → inw 32 v → st_ok (set_A st v).
Proof. by intros []. Qed.

Lemma set_X_ok st v : st_ok st → inw 32 v → st_ok (set_X st v).
Proof. by intros []. Qed.

Lemma mem_get_ok args inv k : ctx_ok → args_ok args → covers inv (a_mem args) →
  0 <= k < memwords bc → flag inv (BPF_MEMWORD_INIT k) = false →
  ∃ v, mem_get args k = inl v ∧ inw 32 v.
Proof.
  intros Hctx Ha Hc Hk Hf. pose proof (memwords_range Hctx). rewrite memword_testbit in Hf by lia.
  destruct (Hc k Hk Hf) as [v Hv]. exists v. unfold mem_get. rewrite Hv. split; [done|]. by eapply ao_vals.
Qed.

Lemma mem_put_ok len i inv mem st k v : ctx_ok → st_ok st → covers inv (a_mem (s_args st)) →
  0 <= k < memwords bc → inw 32 v →
  step_safe len i (inv &&& u32 (Z.lnot (BPF_MEMWORD_INIT k))) mem (mem_put i st k v).
Proof.
  intros Hctx Hst Hc Hk Hv. pose proof (memwords_range Hctx). destruct Hst as [HA HX Ha]. unfold mem_put.
  pose proof (ao_mem _ Ha). destruct (Z.of_nat _ <=? k) eqn:E; bool_to_prop; [lia|]. apply next_safe.
  - split; [done..|]. destruct Ha as [H1 H2 H3 H4 H5]. split; simpl; [done..| |].
    + by rewrite length_insert.
    + intros w x Hw. destruct (decide (w = Z.to_nat k)) as [->|].
      * rewrite list_lookup_insert_eq in Hw by lia. by injection Hw as <-.
      * rewrite list_lookup_insert_ne in Hw by done. by eapply H5.
  - intros w Hw Hb. simpl. destruct (decide (w = k)) as [->|Hne].
    + rewrite list_lookup_insert_eq by lia. eauto.
    + rewrite list_lookup_insert_ne by lia. apply Hc; [done|].
      rewrite Z.land_spec in Hb. apply andb_false_iff in Hb as [Hb|Hb]; [done|].
      rewrite u32_testbit, Z.lnot_spec in Hb by lia. apply negb_false_iff in Hb.
      unfold BPF_MEMWORD_INIT in Hb. rewrite u32_testbit, Z.shiftl_1_l, Z.pow2_bits_false in Hb by lia. done.
Qed.

Lemma cop_call_ok len i inv mem st k : cops_ok → (∃ c, bc = Some c) → st_ok st → covers inv (a_mem (s_args st)) →
  0 <= k → step_safe len i inv mem (cop_call bc i st k).
Proof.
  intros Hcops [c Ec] [HA HX Ha] Hc Hk. unfold cop_call, cops_ok in *. rewrite Ec in Hcops |- *.
  destruct (k <? nfuncs c) eqn:E; bool_to_prop; [|done]. unfold nfuncs, bpf_copfunc_t in *.
  destruct (_ !! Z.to_nat k) as [fn|] eqn:Hfn; [|exfalso; apply lookup_ge_None in Hfn; lia].
  pose proof (Forall_lookup_1 _ _ _ _ Hcops Hfn (s_args st) (s_A st) HA Ha) as Hf.
  destruct (fn (s_args st) (s_A st)) as [A' args']. destruct Hf as (HA' & Ha' & Hm). apply next_safe; [by split|].
  intros w Hw Hb. destruct (Hc w Hw Hb) as [v Hv]. by eapply Hm.
Qed.

Lemma lookup_mark (m : list Z) (a b : nat) x : (a < length m)%nat → (b < length m)%nat →
  default 0 (<[a := default 0 (m !! a) ||| x]> m !! b) = (if decide (a = b) then default 0 (m !! b) ||| x else default 0 (m !! b)).
Proof.
  intros Ha Hb. case_decide as E; [subst; by rewrite list_lookup_insert_eq|by rewrite list_lookup_insert_ne].
Qed.

Lemma jump_target i k len : 0 <= i → i + 1 < 2 ^ 31 → len < 2 ^ 31 → inw 32 k → u32 (u32 (i + 1) + k) < len →
  u32 (i + 1) <= u32 (u32 (i + 1) + k) → u32 (u32 (i + 1) + k) = i + 1 + k.
Proof.
  intros Hi Hi2 Hlen Hk Hl Hf. rewrite (wrap_small 32 (i + 1)) in * by (unfold inw; lia).
  destruct (decide (i + 1 + k < 2 ^ 32)); [by apply wrap_small; unfold inw in *; lia|].
  exfalso. unfold inw in *. assert (u32 (i + 1 + k) = i + 1 + k - 2 ^ 32); [|lia].
  unfold wrap. symmetry. apply (Z.mod_unique _ _ 1); lia.
Qed.

Lemma jump_safe len i inv mem st j : st_ok st → covers inv (a_mem (s_args st)) → i < j < len →
  (∀ w, Z.testbit (default 0 (mem !! Z.to_nat j)) w = false → Z.testbit inv w = false) →
  step_safe len i 0 mem (R_next j st).
Proof. intros Hst Hc Hj Hm. split_and!; [done|lia|]. right. split; [lia|]. by eapply covers_weaken. Qed.

(** The destinations of a conditional jump are marked. *)
Lemma marks_cover (mem : list Z) (a b : nat) inv : (a < length mem)%nat → (b < length mem)%nat →
  let mem' := <[b := default 0 (<[a := default 0 (mem !! a) ||| inv]> mem !! b) ||| inv]>
                (<[a := default 0 (mem !! a) ||| inv]> mem) in
  ∀ j w, j = a ∨ j = b → Z.testbit (default 0 (mem' !! j)) w = false → Z.testbit inv w = false.
Proof.
  intros Ha Hb mem' j w Hj. unfold mem'. rewrite lookup_mark by (rewrite length_insert; destruct Hj; lia).
  case_decide as E; [rewrite Z.lor_spec; by intros [_ ?]%orb_false_iff|].
  destruct Hj as [-> | ->]; [|done]. rewrite lookup_mark, decide_True, Z.lor_spec by done. by intros [_ ?]%orb_false_iff.
Qed.

(** Evaluate the tests of the validator on a known instruction code. *)
Ltac eval_test H t := let r := eval vm_compute in t in change t with r in H.
Ltac eval_code H :=
  repeat match type of H with
  | context [BPF_CLASS ?c =? ?b] => eval_test H (BPF_CLASS c =? b)
  | context [BPF_MODE ?c =? ?b] => eval_test H (BPF_MODE c =? b)
  | context [BPF_OP ?c =? ?b] => eval_test H (BPF_OP c =? b)
  | context [BPF_SRC ?c =? ?b] => eval_test H (BPF_SRC c =? b)
  | context [BPF_MISCOP ?c =? ?b] => eval_test H (BPF_MISCOP c =? b)
  | context [existsb (Z.eqb (BPF_OP ?c)) ?l] => eval_test H (existsb (Z.eqb (BPF_OP c)) l)
  end;
  cbn [orb andb] in H.

Section exec.
Context (p : bpf_insn) (i len inv : Z) (mem : list Z) (st : bpf_state).
Context (Hctx : ctx_ok) (Hcops : cops_ok) (Hp : insn_wf p) (Hi : 0 <= i < len) (Hlen : len <= BPF_MAXINSNS).
Context (Hml : Z.of_nat (length mem) = len) (Hst : st_ok st) (Hcov : covers inv (a_mem (s_args st))).

Lemma ld_A_safe l : ld_ok l → step_safe len i inv mem (ld_A i st l).
Proof. destruct l; cbn [ld_A ld_ok]; [done| |done]. intros Hv. apply next_safe; [by apply set_A_ok|done]. Qed.

Lemma exec_load_safe o : match o with O_LD_ABS _ | O_LD_IND _ | O_LDX_MSH | O_LD_LEN | O_LDX_LEN | O_LD_IMM | O_LDX_IMM => True | _ => False end →
  step_safe len i inv mem (bpf_exec kernel bc o p i st).
Proof.
  pose proof (so_args _ Hst) as Ha. destruct Hp as (_ & _ & _ & Hk). assert (0 <= i_k p) by (unfold inw in Hk; lia).
  destruct o; try done; intros _; cbn [bpf_exec].
  - by apply ld_A_safe, load_abs_ok.
  - apply next_safe; [apply set_A_ok; [done|apply wrap_range; lia]|done].
  - apply next_safe; [apply set_X_ok; [done|apply wrap_range; lia]|done].
  - by apply ld_A_safe, load_ind_ok.
  - pose proof (load_abs_ok (s_args st) S_B (i_k p) Ha ltac:(done)) as Hl. destruct (load_abs _ _ _ _) as [|v|]; try done.
    apply next_safe; [|done]. apply set_X_ok; [done|]. change 15 with (Z.ones 4). rewrite Z.land_ones by lia.
    rewrite Z.shiftl_mul_pow2 by lia. pose proof (Z.mod_pos_bound v (2 ^ 4)). unfold inw. lia.
  - apply next_safe; [by apply set_A_ok|done].
  - apply next_safe; [by apply set_X_ok|done].
Qed.

Lemma exec_jump_safe j s inv' mem' : validate_insn bc p i len inv mem = Some (inv', mem') →
  i_code p = op_code (O_JMP j s) → step_safe len i inv' mem' (bpf_exec kernel bc (O_JMP j s) p i st).
Proof.
  intros Hv Hc. destruct Hp as (_ & Hjt & Hjf & _). unfold validate_insn in Hv. rewrite Hc in Hv. unfold BPF_MAXINSNS in Hlen.
  assert (∀ x, inw 8 x → u32 (u32 (i + 1) + x) = i + 1 + x) as Ht.
  { intros x Hx. rewrite (wrap_small 32 (i + 1)) by (unfold inw; lia). apply wrap_small. unfold inw in *. lia. }
  rewrite (Ht (i_jt p)), (Ht (i_jf p)) in Hv by done.
  assert (((len <=? i + 1 + i_jt p) || (len <=? i + 1 + i_jf p)) = false ∧ inv' = 0 ∧
    mem' = <[Z.to_nat (i + 1 + i_jf p) := default 0 (<[Z.to_nat (i + 1 + i_jt p) := default 0 (mem !! Z.to_nat (i + 1 + i_jt p)) ||| inv]> mem
              !! Z.to_nat (i + 1 + i_jf p)) ||| inv]> (<[Z.to_nat (i + 1 + i_jt p) := default 0 (mem !! Z.to_nat (i + 1 + i_jt p)) ||| inv]> mem)) as (Hl & -> & ->).
  { destruct j, s; eval_code Hv; destruct (_ || _) eqn:El in Hv; done || (by injection Hv as <- <-). }
  bool_to_prop. unfold inw in *. cbn [bpf_exec].
  match goal with |- step_safe _ _ _ _ (R_next ?x _) => set (t := x) end.
  assert (t = i + 1 + i_jt p ∨ t = i + 1 + i_jf p) as Ht' by (unfold t; destruct (jump_cond _ _ _); auto).
  apply (jump_safe len i inv); [done|done|destruct Ht'; lia|].
  intros w. apply marks_cover; [lia|lia|destruct Ht' as [-> | ->]; auto].
Qed.

Lemma exec_ja_safe inv' mem' : validate_insn bc p i len inv mem = Some (inv', mem') →
  i_code p = op_code O_JA → step_safe len i inv' mem' (bpf_exec kernel bc O_JA p i st).
Proof.
  intros Hv Hc. destruct Hp as (_ & _ & _ & Hk). unfold validate_insn in Hv. rewrite Hc in Hv. unfold BPF_MAXINSNS in Hlen.
  eval_code Hv. destruct (len <=? u32 _) eqn:E1; [done|]. destruct (u32 (u32 (i + 1) + i_k p) <? u32 (i + 1)) eqn:E2; [done|].
  bool_to_prop. assert (u32 (u32 (i + 1) + i_k p) = i + 1 + i_k p) as Et by (apply (jump_target i (i_k p) len); try done; lia).
  rewrite Et in Hv, E1. injection Hv as <- <-. cbn [bpf_exec]. unfold inw in Hk.
  apply (jump_safe len i inv); [done|done|lia|]. intros w. rewrite lookup_mark, decide_True, Z.lor_spec by (done || lia).
  by intros [_ ?]%orb_false_iff.
Qed.

Lemma exec_alu_safe a s inv' mem' : validate_insn bc p i len inv mem = Some (inv', mem') →
  i_code p = op_code (O_ALU a s) → step_safe len i inv' mem' (bpf_exec kernel bc (O_ALU a s) p i st).
Proof.
  intros Hv Hc. destruct Hp as (_ & _ & _ & Hk). destruct Hst as [HA HX Ha].
  assert (inv' = inv ∧ mem' = mem ∧ (divides a = true → s = Src_K → i_k p ≠ 0)) as (-> & -> & Hd).
  { unfold validate_insn in Hv. rewrite Hc in Hv.
    destruct a, s; eval_code Hv; try (by injection Hv as <- <-);
      destruct (i_k p =? 0) eqn:E; bool_to_prop; try done; injection Hv as <- <-; split_and!; try done. }
  cbn [bpf_exec]. destruct (div_by_X a s && (s_X st =? 0)) eqn:E; [done|].
  set (v := match s with Src_K => i_k p | Src_X => s_X st end).
  assert (inw 32 v ∧ (divides a = true → v ≠ 0)) as [Hv1 Hv2].
  { unfold v. destruct s; [split; [done|intros; by apply Hd]|]. split; [done|]. intros Ed E0.
    destruct a; try done; by rewrite E0 in E. }
  pose proof (alu_ok a (s_A st) v HA Hv1 Hv2) as Hr. destruct (alu_exec a (s_A st) v); [|done].
  apply next_safe; [apply set_A_ok; [by split|done]|done].
Qed.

Lemma exec_safe o inv' mem' : validate_insn bc p i len inv mem = Some (inv', mem') →
  decode (i_code p) = Some o → step_safe len i inv' mem' (bpf_exec kernel bc o p i st).
Proof.
  intros Hv Hd. apply decode_code in Hd as Hc. symmetry in Hc. pose proof Hst as [HA HX Ha]. pose proof Hp as (_ & _ & _ & Hk).
  assert (0 <= i_k p) by (unfold inw in Hk; lia).
  assert (∀ o', i_code p = op_code o' → match o' with O_LD_ABS _ | O_LD_IND _ | O_LDX_MSH | O_LD_LEN | O_LDX_LEN | O_LD_IMM | O_LDX_IMM
    | O_RET_K | O_RET_A | O_NEG | O_TAX | O_TXA => True | _ => False end → inv' = inv ∧ mem' = mem) as Hsame.
  { intros o' Ho Hm. unfold validate_insn in Hv. rewrite Ho in Hv.
    destruct o' as [| | []| | | []| | | | | | | | | | | | | | |]; try done; eval_code Hv; by injection Hv as <- <-. }
  destruct o; try (destruct (Hsame _ Hc I) as [-> ->]); try (by apply exec_load_safe); cbn [bpf_exec].
  - exact Hk.
  - exact HA.
  - unfold validate_insn in Hv. rewrite Hc in Hv. eval_code Hv. destruct (memwords bc <=? _) eqn:E1; [done|]. destruct (flag inv _) eqn:E2; [done|]. injection Hv as <- <-. bool_to_prop.
    destruct (mem_get_ok (s_args st) inv (i_k p)) as (v & -> & Hv'); [done..|]. apply next_safe; [by apply set_A_ok|done].
  - unfold validate_insn in Hv. rewrite Hc in Hv. eval_code Hv. destruct (memwords bc <=? _) eqn:E1; [done|]. destruct (flag inv _) eqn:E2; [done|]. injection Hv as <- <-. bool_to_prop.
    destruct (mem_get_ok (s_args st) inv (i_k p)) as (v & -> & Hv'); [done..|]. apply next_safe; [by apply set_X_ok|done].
  - unfold validate_insn in Hv. rewrite Hc in Hv. eval_code Hv. destruct (memwords bc <=? _) eqn:E1; [done|]. injection Hv as <- <-. bool_to_prop.
    by apply mem_put_ok.
  - unfold validate_insn in Hv. rewrite Hc in Hv. eval_code Hv. destruct (memwords bc <=? _) eqn:E1; [done|]. injection Hv as <- <-. bool_to_prop.
    by apply mem_put_ok.
  - by apply exec_ja_safe.
  - by apply exec_jump_safe.
  - by apply exec_alu_safe.
  - apply next_safe; [apply set_A_ok; [done|apply wrap_range; lia]|done].
  - apply next_safe; [by apply set_X_ok|done].
  - apply next_safe; [by apply set_A_ok|done].
  - unfold validate_insn in Hv. rewrite Hc in Hv. eval_code Hv. destruct bc as [[[fs|] e pr]|] eqn:Ebc; [|done|done].
    destruct (_ <=? _); [done|]. injection Hv as <- <-. rewrite <- Ebc. apply cop_call_ok; eauto.
  - unfold validate_insn in Hv. rewrite Hc in Hv. eval_code Hv. destruct bc as [[[fs|] e pr]|] eqn:Ebc; [|done|done].
    injection Hv as <- <-. rewrite <- Ebc. apply cop_call_ok; eauto. unfold inw in HX. lia.
Qed.

End exec.

(** *** The whole program *)

(** Instructions that the interpreter has, without shifts it leaves undefined. *)
Definition implemented (p : bpf_insn) : bool :=
  match decode (i_code p) with
  | None => false
  | Some (O_ALU A_LSH Src_X) | Some (O_ALU A_RSH Src_X) => false
  | Some (O_ALU A_LSH Src_K) | Some (O_ALU A_RSH Src_K) => i_k p <? 32
  | Some _ => true
  end.

Lemma exec_no_shift o p i st : decode (i_code p) = Some o → implemented p = true →
  bpf_exec kernel bc o p i st ≠ R_fault F_shift.
Proof.
  unfold implemented. intros -> Him.
  destruct o as [| | | | | | | | | | | | | |j s|a s| | | | |]; cbn [bpf_exec]; try done.
  - by destruct (load_abs _ _ _ _).
  - by destruct (load_ind _ _ _ _ _).
  - by destruct (load_abs _ _ _ _).
  - unfold mem_get. by destruct (_ !! _) as [[]|].
  - unfold mem_get. by destruct (_ !! _) as [[]|].
  - unfold mem_put. by case_if.
  - unfold mem_put. by case_if.
  - case_if; [done|]. destruct a, s; cbn [alu_exec]; try done; try (by case_if);
      bool_to_prop; destruct (32 <=? i_k p) eqn:E; bool_to_prop; [lia|done|lia|done].
  - unfold cop_call. destruct bc; [|done]. case_if; [|done]. destruct (_ !! _) as [fn|]; [|done]. by destruct (fn _ _).
  - unfold cop_call. destruct bc; [|done]. case_if; [|done]. destruct (_ !! _) as [fn|]; [|done]. by destruct (fn _ _).
Qed.

Definition run_safe (prog : list bpf_insn) (r : option (Z + fault)) : Prop :=
  match r with
  | None => False
  | Some (inl v) => inw 32 v
  | Some (inr f) => (f = F_shift ∨ f = F_abort ∧ kernel = false) ∧ ¬ Forall (λ p, implemented p = true) prog
  end.

Lemma mark_mono (m : list Z) (a b : nat) x w :
  Z.testbit (default 0 (<[a := default 0 (m !! a) ||| x]> m !! b)) w = false → Z.testbit (default 0 (m !! b)) w = false.
Proof.
  destruct (decide (a = b)) as [<-|]; [|by rewrite list_lookup_insert_ne].
  destruct (decide (a < length m)%nat); [|by rewrite list_insert_ge by lia].
  rewrite list_lookup_insert_eq by done. simpl. rewrite Z.lor_spec. by intros [? _]%orb_false_iff.
Qed.

Lemma validate_mono p i len inv mem inv' mem' : validate_insn bc p i len inv mem = Some (inv', mem') →
  length mem' = length mem ∧
  ∀ j w, Z.testbit (default 0 (mem' !! j)) w = false → Z.testbit (default 0 (mem !! j)) w = false.
Proof.
  unfold validate_insn.
  repeat (match goal with |- context [if ?b then _ else _] => destruct b end; try done);
    try (by intros [= <- <-]); try (destruct bc as [[[fs|] e pr]|]; [|done|done]; repeat case_if; by intros [= <- <-]).
  - intros [= <- <-]. rewrite length_insert. split; [done|]. intros j w. apply mark_mono.
  - intros [= <- <-]. rewrite !length_insert. split; [done|]. intros j w Hw. by eapply mark_mono, mark_mono.
Qed.

Section program.
Context (prog : list bpf_insn) (Hctx : ctx_ok) (Hcops : cops_ok) (Hwf : Forall insn_wf prog).
Context (Hlen : Z.of_nat (length prog) <= BPF_MAXINSNS).
Context (Hlast : ∃ p, last prog = Some p ∧ (i_code p = op_code O_RET_K ∨ i_code p = op_code O_RET_A)).

Lemma validate_loop_safe f pre inv mem fuel j st :
  let i := Z.of_nat (length pre) in
  prog = pre ++ f → length mem = length prog →
  validate_loop bc f i (Z.of_nat (length prog)) inv mem = true →
  st_ok st → i <= j < Z.of_nat (length prog) →
  (j = i ∧ covers (inv ||| default 0 (mem !! Z.to_nat i)) (a_mem (s_args st)) ∨
   i < j ∧ covers (default 0 (mem !! Z.to_nat j)) (a_mem (s_args st))) →
  Z.of_nat (length prog) - j <= Z.of_nat fuel →
  run_safe prog (bpf_loop kernel bc fuel prog j st).
Proof.
  revert pre inv mem fuel j st. induction f as [|p f IH]; intros pre inv mem fuel j st i Eprog Hml Hv Hst Hj Hcov Hfuel.
  { rewrite app_nil_r in Eprog. subst prog. unfold i in Hj. lia. }
  cbn [validate_loop] in Hv.
  destruct (validate_insn _ _ _ _ _ _) as [[inv' mem']|] eqn:Ev; [|done].
  destruct (validate_mono _ _ _ _ _ _ _ Ev) as [Hml' Hmono].
  assert (i + 1 = Z.of_nat (length (pre ++ [p]))) as Ei by (rewrite length_app; simpl; unfold i; lia).
  assert (prog = (pre ++ [p]) ++ f) as Eprog' by (by rewrite <- app_assoc).
  fold i in Hv. rewrite Ei in Hv.
  destruct Hcov as [[-> Hcov]|[Hij Hcov]]; cycle 1.
  { apply (IH (pre ++ [p]) inv' mem' fuel j st); [done|lia|done|done|lia| |done]. rewrite <- Ei.
    assert (covers (default 0 (mem' !! Z.to_nat j)) (a_mem (s_args st))) as Hc' by (eapply covers_weaken; [|exact Hcov]; apply Hmono).
    destruct (decide (j = i + 1)) as [->|]; [left; split; [done|by apply covers_lor_r]|right; split; [lia|done]]. }
  destruct fuel as [|fuel]; [lia|]. cbn [bpf_loop]. unfold bpf_step.
  assert (prog !! Z.to_nat i = Some p) as Hp by (rewrite Eprog; unfold i; rewrite Nat2Z.id; by apply list_lookup_middle).
  rewrite Hp. destruct (decode (i_code p)) as [o|] eqn:Ed; cycle 1.
  { destruct kernel eqn:Ek; [done|]. split; [by right|]. intros Him.
    pose proof (Forall_lookup_1 _ _ _ _ Him Hp) as Hi. unfold implemented in Hi. by rewrite Ed in Hi. }
  pose proof (Forall_lookup_1 _ _ _ _ Hwf Hp) as Hpw.
  assert (0 <= i < Z.of_nat (length prog)) as Hir by (unfold i in *; lia).
  pose proof (exec_safe p i _ _ mem st Hctx Hcops Hpw Hir Hlen ltac:(lia) Hst Hcov o inv' mem' Ev Ed) as Hs.
  destruct (bpf_exec kernel bc o p i st) as [j' st'|v|e] eqn:Ex; simpl in Hs.
  - destruct Hs as (Hst' & Hij & Hc).
    assert (i + 1 < Z.of_nat (length prog)) as Hnext.
    { destruct f as [|q f]; [|rewrite Eprog, length_app; simpl; unfold i; lia]. exfalso.
      destruct Hlast as (r & Hr & Hcode). rewrite Eprog, last_app in Hr. simpl in Hr. injection Hr as <-.
      destruct Hcode as [Hcode|Hcode]; rewrite Hcode in Ed; vm_compute in Ed; injection Ed as <-; done. }
    destruct Hc as [[-> Hc]|[Hjl Hc]].
    + apply (IH (pre ++ [p]) inv' mem' fuel); [done|lia|done|done|lia| |lia].
      left. rewrite <- Ei. split; [done|]. by apply covers_lor_l.
    + apply (IH (pre ++ [p]) inv' mem' fuel); [done|lia|done|done|lia| |lia]. rewrite <- Ei.
      destruct (decide (j' = i + 1)) as [->|]; [left; split; [done|by apply covers_lor_r]|right; split; [lia|done]].
  - done.
  - subst e. split; [by left|]. intros Him. by apply (exec_no_shift o p i st Ed (Forall_lookup_1 _ _ _ _ Him Hp)).
Qed.

End program.

(** The words that the caller initialises. *)
Definition preinit_ok (args : bpf_args) : Prop :=
  ∀ w, 0 <= w < memwords bc → Z.testbit (preinit bc) w = true → ∃ v, a_mem args !! Z.to_nat w = Some (Some v).

Lemma bpf_validate_safe f args : ctx_ok → cops_ok → Forall insn_wf f → args_ok args → preinit_ok args →
  bpf_validate_ext bc f = true → run_safe f (bpf_filter_ext kernel bc (Some f) args).
Proof.
  intros Hctx Hcops Hwf Ha Hpre Hv. unfold bpf_validate_ext in Hv.
  destruct (_ <? 1) eqn:E1; [done|]. destruct (BPF_MAXINSNS <? _) eqn:E2; [done|]. bool_to_prop.
  destruct (last f) as [p|] eqn:El; [|done]. destruct (negb _ && negb _) eqn:Er; [done|].
  apply (validate_loop_safe f Hctx Hcops Hwf E2) with (f := f) (pre := []) (inv := u32 (Z.lnot (preinit bc))) (mem := replicate (length f) 0).
  - exists p. split; [done|]. apply andb_false_iff in Er as [Er|Er]; bool_to_prop; auto.
  - done.
  - by rewrite length_replicate.
  - exact Hv.
  - split; [unfold inw; simpl; lia..|done].
  - simpl. lia.
  - left. split; [done|]. simpl. intros w Hw Hb. apply Hpre; [done|]. pose proof (memwords_range Hctx).
    rewrite Z.lor_spec in Hb. apply orb_false_iff in Hb as [Hb _]. rewrite u32_testbit, Z.lnot_spec in Hb by lia.
    by apply negb_false_iff in Hb.
  - lia.
Qed.

(** C18: A validated BPF program is safe to run, in the kernel and the standalone
    configuration, on a packet with arguments that describe it ([args_ok]): the
    chain has no empty mbufs (the loads run past an empty one,
    [m_xhalf_empty_mbuf]), the length of the buffer is at most that of the
    packet, and the store has its words and the pre-initialised ones of the
    context are set.  It returns after at most one step per instruction; it
    never reads outside of the packet, never touches the store outside of its
    words nor reads a word that was not written, never leaves the program or
    the coprocessor table, and never divides by zero.  The only faults left are
    a shift by 32 or more, and the [abort] of the standalone interpreter on an
    instruction it does not implement; a validated program without those
    instructions always returns a 32-bit value.  The functions of the
    coprocessor are assumed to keep the store and to return. *)
Theorem bpf_validate_sound f args : ctx_ok → cops_ok → Forall insn_wf f → args_ok args → preinit_ok args →
  bpf_validate_ext bc f = true →
  ∃ r, bpf_filter_ext kernel bc (Some f) args = Some r ∧
    match r with inl v => inw 32 v | inr e => e = F_shift ∨ e = F_abort ∧ kernel = false end ∧
    (Forall (λ p, implemented p = true) f → ∃ v, r = inl v).
Proof.
  intros Hctx Hcops Hwf Ha Hpre Hv. pose proof (bpf_validate_safe f args Hctx Hcops Hwf Ha Hpre Hv) as Hr.
  destruct (bpf_filter_ext kernel bc (Some f) args) as [[v|e]|]; [exists (inl v)|exists (inr e)|done].
  - split_and!; eauto.
  - destruct Hr as [He Hn]. split_and!; done.
Qed.

End safety.

(** ** Witnesses and limits *)

(** Accept IPv4 packets: load the version nibble, compare. *)
Definition sample_prog : list bpf_insn :=
  [mk_insn (op_code (O_LD_ABS S_B)) 0 0 0; mk_insn (op_code (O_ALU A_RSH Src_K)) 0 0 4;
   mk_insn (op_code O_ST) 0 0 1; mk_insn (op_code O_LD_MEM) 0 0 1;
   mk_insn (op_code (O_JMP J_EQ Src_K)) 0 1 4;
   mk_insn (op_code O_RET_K) 0 0 (2 ^ 32 - 1); mk_insn (op_code O_RET_K) 0 0 0].

Definition sample_args : bpf_args := mk_args sample_tcp4 [] 40 40 (replicate 16 None).

Lemma sample_args_ok : args_ok None sample_args.
Proof.
  split; [apply bytes_ok_concrete; vm_compute; reflexivity|vm_compute; split; discriminate|constructor|vm_compute; discriminate|].
  intros i v Hi. apply list_elem_of_lookup_2 in Hi. simpl in Hi. set_solver.
Qed.

Lemma bpf_validate_sound_witness :
  bpf_validate_ext None sample_prog = true ∧ ∃ v, bpf_filter_ext false None (Some sample_prog) sample_args = Some (inl v).
Proof.
  assert (bpf_validate_ext None sample_prog = true) as Hv by (vm_compute; reflexivity). split; [done|].
  destruct (bpf_validate_sound false None sample_prog sample_args) as (r & E & _ & Hr).
  - exact I.
  - exact I.
  - repeat (constructor; [unfold insn_wf, inw; vm_compute; repeat split; done || discriminate|]). constructor.
  - exact sample_args_ok.
  - intros w _. unfold preinit. by rewrite Z.bits_0.
  - exact Hv.
  - destruct Hr as [v ->]; [repeat (constructor; [vm_compute; reflexivity|]); constructor|]. by exists v.
Defined.

(** The validator checks class and mode separately, so it lets through
    combinations that the interpreter does not have: the standalone one then
    aborts. *)
Theorem bpf_validate_unimplemented :
  let f := [mk_insn (BPF_LDX ||| BPF_W ||| BPF_ABS) 0 0 0; mk_insn (BPF_RET ||| BPF_K) 0 0 1] in
  bpf_validate f = true ∧ bpf_filter false (Some f) sample_tcp4 [] 40 40 = Some (inr F_abort).
Proof. vm_compute. done. Qed.

(** A half-word that ends in an empty mbuf is read past its end. *)
Theorem m_xhalf_empty_mbuf : m_xhalf [[1]; []; [2]] 0 = X_bad.
Proof. reflexivity. Qed.

End Bpf.
