(* ===== verification/NpfBpf.v ===== *)
(** * NpfBpf: BPF for NPF rules (src/kern/npf_bpf.c)

    The coprocessor functions, which give rule code the parsed layer 3 data
    and table lookups, and the preparation of the arguments of a run.  The
    functions are closed over the packet and the table set that the source
    reaches through [args->arg]. *)

From S2P Require Import Prelude Nbuf Addr Cache Rewrite Thmap ConnKey Tableset Bpf.
Open Scope Z_scope.
Open Scope npf_scope.

Module NpfBpf.
Export Bpf Tableset ConnKey.

Definition NPF_COP_L3 : Z := 0.
Definition NPF_COP_TABLE : Z := 1.

Definition BPF_MW_IPVER : Z := 0.
Definition BPF_MW_L4OFF : Z := 1.
Definition BPF_MW_L4PROTO : Z := 2.
Definition NPF_BPF_NWORDS : Z := 3.
Definition BPF_MW_ALLMASK : Z := (1 <<< BPF_MW_IPVER) ||| (1 <<< BPF_MW_L4OFF) ||| (1 <<< BPF_MW_L4PROTO).

(** The IP version of an address length. *)
Definition alen_version (alen : Z) : Z := u32 ((alen &&& 4) ||| ((alen >>> 4) * 6)).

(** The words the rule code finds in the store. *)
Definition store_l3 (npc : npf_cache_t) (m : list (option Z)) : list (option Z) :=
  <[Z.to_nat BPF_MW_L4PROTO := Some (u32 (npc_proto npc))]>
    (<[Z.to_nat BPF_MW_L4OFF := Some (u32 (npc_hlen npc))]>
       (<[Z.to_nat BPF_MW_IPVER := Some (alen_version (npc_alen npc))]> m)).

Definition npf_cop_l3 (npc : npf_cache_t) : bpf_copfunc_t :=
  λ args _, (alen_version (npc_alen npc), set_mem args (store_l3 npc (a_mem args))).

Definition SRC_FLAG_BIT : Z := 1 <<< 31.

Section cop.
Context {M L C : Type} `{TL : thmap_laws npf_tblent M} `{LL : lpm_laws npf_tblent L} {CO : cdbr_ops C}.
Context (T : gmap Z (npf_table (M := M) (L := L) (C := C))) (tblset : list (option Z)).

Definition npf_cop_table (npc : npf_cache_t) : bpf_copfunc_t := λ args A,
  let tid := A &&& (SRC_FLAG_BIT - 1) in
  if negb (npf_iscached npc NPC_IP46) then (0, args) else
  match npf_tableset_getbyid tblset tid ≫= (λ t, T !! t) with
  | None => (0, args)
  | Some t =>
      let ips := npc_addrs npc in
      let addr := if flag A SRC_FLAG_BIT then fst ips else snd ips in
      (b2z (npf_table_lookup t (npc_alen npc) addr =? 0), args)
  end.

Definition npf_bpfcop (npc : npf_cache_t) : list bpf_copfunc_t := [npf_cop_l3 npc; npf_cop_table npc].

(** [npf_bpf_sysinit]. *)
Definition npf_bpfctx (npc : npf_cache_t) : bpf_ctx :=
  snd (bpf_set_extmem (bpf_set_cop bpf_create (npf_bpfcop npc)) NPF_BPF_NWORDS BPF_MW_ALLMASK).

(** [M] is the caller's array of [NPF_BPF_NWORDS] words. *)
Definition npf_bpf_prepare (kernel : bool) (npc : npf_cache_t) (M : list (option Z)) : bpf_args :=
  let nbuf := npc_nbuf npc in
  let mbuf := nbuf_head_mbuf nbuf in
  let pktlen := m_length mbuf in
  let m := store_l3 npc M in
  if kernel then mk_args [] mbuf pktlen 0 m
  else mk_args (drop (Z.to_nat (nb_nptr nbuf)) (cur_mbuf nbuf)) mbuf pktlen pktlen m.

(** [jcode] is the compiled code, if there is any. *)
Definition npf_bpf_filter (kernel : bool) (npc : npf_cache_t) (args : bpf_args) (code : option (list bpf_insn))
    (jcode : option (bpf_args → Z)) : option (Z + fault) :=
  match jcode with
  | Some f => Some (inl (f args))
  | None => bpf_filter_ext kernel (Some (npf_bpfctx npc)) code args
  end.

(** The coprocessor table is the same for every packet: its size is all that
    the validation depends on. *)
Definition npf_bpf_validate (npc : npf_cache_t) (code : list bpf_insn) : bool :=
  bpf_validate_ext (Some (npf_bpfctx npc)) code.

(** ** Safety of rule code *)

Lemma npf_bpfctx_eq npc : npf_bpfctx npc = mk_ctx (Some (npf_bpfcop npc)) 3 7.
Proof. reflexivity. Qed.

(** Validation does not depend on the packet. *)
Lemma npf_bpf_validate_npc npc npc' code : npf_bpf_validate npc code = npf_bpf_validate npc' code.
Proof. reflexivity. Qed.

Lemma npf_ctx_ok npc : ctx_ok (Some (npf_bpfctx npc)).
Proof. vm_compute. split; discriminate. Qed.

Lemma store_l3_length npc m : length (store_l3 npc m) = length m.
Proof. unfold store_l3. by rewrite !length_insert. Qed.

(** Word [i] of the store afterwards. *)
Lemma store_l3_lookup npc m i v : store_l3 npc m !! i = Some (Some v) →
  inw 32 v ∨ m !! i = Some (Some v).
Proof.
  unfold store_l3. rewrite !list_lookup_insert_Some.
  intros [(_ & [= <-] & _)|(_ & [(_ & [= <-] & _)|(_ & [(_ & [= <-] & _)|(_ & Hm)])])]; [left; apply wrap_range; lia..|by right].
Qed.

Lemma store_l3_init npc m i v : m !! i = Some (Some v) → ∃ v', store_l3 npc m !! i = Some (Some v').
Proof.
  intros Hm. assert (i < length m)%nat by (by eapply lookup_lt_Some). unfold store_l3.
  repeat match goal with |- ∃ _, <[?j := _]> ?l !! _ = _ =>
    destruct (decide (j = i)) as [<-|]; [rewrite list_lookup_insert_eq by (rewrite ?length_insert; lia); eauto|rewrite list_lookup_insert_ne by done]
  end. eauto.
Qed.

Lemma store_l3_all npc m w : length m = 3%nat → 0 <= w < 3 → ∃ v, store_l3 npc m !! Z.to_nat w = Some (Some v).
Proof.
  intros Hm Hw. destruct m as [|a [|b [|c [|]]]]; try done.
  assert (w = 0 ∨ w = 1 ∨ w = 2) as [->|[->| ->]] by lia; simpl; eauto.
Qed.

Lemma npf_cop_l3_ok bc npc : cop_ok bc (npf_cop_l3 npc).
Proof.
  intros args A HA [H1 H2 H3 H4 H5]. unfold npf_cop_l3. split_and!; [apply wrap_range; lia|split; simpl; try done|].
  - by rewrite store_l3_length.
  - intros i v [Hv|Hv]%store_l3_lookup; [done|by eapply H5].
  - intros i v. apply store_l3_init.
Qed.

Lemma npf_cop_table_ok bc npc : cop_ok bc (npf_cop_table npc).
Proof.
  intros args A HA Ha. unfold npf_cop_table. case_if; [split_and!; [unfold inw; lia|done|eauto]|].
  destruct (_ ≫= _); [|split_and!; [unfold inw; lia|done|eauto]]. split_and!; [|done|eauto].
  unfold inw, b2z. by case_if.
Qed.

(** The packets the configuration can read: any chain without empty mbufs in
    the kernel, one mbuf in the standalone build. *)
Definition readable (kernel : bool) (nbuf : nbuf_t) : Prop :=
  Forall (λ m, bytes_ok m ∧ m ≠ []) (nb_mbuf0 nbuf) ∧
  (kernel = false → nb_mbuf nbuf = 0%nat ∧ nb_nptr nbuf = 0 ∧ ∃ m, nb_mbuf0 nbuf = [m]).

Lemma npf_bpf_prepare_ok kernel npc m : readable kernel (npc_nbuf npc) → length m = 3%nat →
  (∀ i v, m !! i = Some (Some v) → inw 32 v) →
  args_ok (Some (npf_bpfctx npc)) (npf_bpf_prepare kernel npc m).
Proof.
  intros [Hc Hs] Hm Hv. unfold npf_bpf_prepare.
  assert (∀ i v, store_l3 npc m !! i = Some (Some v) → inw 32 v) as Hv'.
  { intros i v [?|?]%store_l3_lookup; [done|by eapply Hv]. }
  destruct kernel; split; cbn [a_pkt a_buflen a_chain a_mem]; rewrite ?store_l3_length, ?Hm; try done.
  - constructor.
  - destruct (Hs eq_refl) as (E1 & E2 & b & E3). unfold cur_mbuf. rewrite E1, E2, E3 in *.
    by apply Forall_cons in Hc as [[? _] _].
  - destruct (Hs eq_refl) as (E1 & E2 & b & E3). unfold cur_mbuf, nbuf_head_mbuf, m_length. rewrite E1, E2, E3. simpl.
    rewrite app_nil_r, drop_0. lia.
Qed.

(** C19: The code of a rule that passed [npf_bpf_validate] when it was loaded
    can be run on any packet that the configuration can read: [npf_bpf_prepare]
    and the coprocessor functions meet what the validator assumes of them, so
    that [npf_bpf_filter] returns a 32-bit verdict (given that the code uses
    implemented instructions only). *)
Theorem npf_bpf_filter_safe kernel npc0 npc m code : readable kernel (npc_nbuf npc) → length m = 3%nat →
  (∀ i v, m !! i = Some (Some v) → inw 32 v) → Forall insn_wf code →
  Forall (λ p, implemented p = true) code → npf_bpf_validate npc0 code = true →
  ∃ v, npf_bpf_filter kernel npc (npf_bpf_prepare kernel npc m) (Some code) None = Some (inl v) ∧ inw 32 v.
Proof.
  intros Hr Hm Hvals Hwf Him Hv. unfold npf_bpf_filter.
  pose proof (bpf_validate_safe kernel (Some (npf_bpfctx npc)) code (npf_bpf_prepare kernel npc m)) as Hs.
  assert (run_safe kernel code (bpf_filter_ext kernel (Some (npf_bpfctx npc)) (Some code) (npf_bpf_prepare kernel npc m))) as Hrun.
  { apply Hs; [apply npf_ctx_ok| |done|by apply npf_bpf_prepare_ok| |].
    - constructor; [apply npf_cop_l3_ok|]. constructor; [apply npf_cop_table_ok|constructor].
    - intros w Hw _. destruct (store_l3_all npc m w Hm Hw) as [v E]. exists v. unfold npf_bpf_prepare. by destruct kernel.
    - change (npf_bpf_validate npc code = true). by rewrite (npf_bpf_validate_npc npc npc0). }
  destruct (bpf_filter_ext _ _ _ _) as [[v|e]|]; simpl in Hrun; [by exists v|by destruct Hrun|done].
Qed.

(** What the table coprocessor computes: a lookup of the source or the
    destination address in the table of that number. *)
Lemma npf_cop_table_spec npc args tid src p t :
  0 <= tid < 2 ^ 31 → npf_iscached npc NPC_IP46 = true →
  npf_tableset_getbyid tblset tid = Some p → T !! p = Some t →
  fst (npf_cop_table npc args (if src : bool then tid ||| SRC_FLAG_BIT else tid)) =
    b2z (npf_table_lookup t (npc_alen npc) (if src then fst (npc_addrs npc) else snd (npc_addrs npc)) =? 0).
Proof.
  intros Ht Hc Hp Ht'. unfold npf_cop_table. rewrite Hc. cbn [negb].
  assert ((if src then tid ||| SRC_FLAG_BIT else tid) &&& (SRC_FLAG_BIT - 1) = tid) as ->.
  { change (SRC_FLAG_BIT - 1) with (Z.ones 31). rewrite Z.land_ones by lia. destruct src; [|by apply Z.mod_small].
    change SRC_FLAG_BIT with (1 <<< 31). rewrite Z.lor_comm, lor_add_disjoint by (unfold inw; lia).
    rewrite Z.add_comm, Z.mod_add by lia. by apply Z.mod_small. }
  rewrite Hp. cbn [mbind option_bind]. rewrite Ht'. cbn [fst]. f_equal. f_equal. f_equal.
  destruct src.
  { assert (flag (tid ||| SRC_FLAG_BIT) SRC_FLAG_BIT = true) as ->; [|done].
    apply negb_true_iff, Z.eqb_neq. intros E. apply (f_equal (λ z, Z.testbit z 31)) in E.
    rewrite Z.land_spec, Z.lor_spec in E. change (Z.testbit SRC_FLAG_BIT 31) with true in E. by rewrite orb_true_r in E. }
  unfold flag. change SRC_FLAG_BIT with (2 ^ 31).
  assert (tid &&& 2 ^ 31 = 0) as ->; [|done]. apply Z.bits_inj'. intros n Hn. rewrite Z.land_spec, Z.bits_0.
  destruct (decide (n = 31)) as [->|]; [by rewrite (testbit_inw 31 tid)|]. by rewrite Z.pow2_bits_false, andb_false_r by lia.
Qed.

End cop.

(** ** Witnesses and limits *)

Abbreviation no_tables := (∅ : gmap Z gtable).

Definition flat_syn_npc : npf_cache_t := flat_npc no_drop sample_tcp4 1.

(** Ask the coprocessor for the IP version. *)
Definition l3_prog : list bpf_insn :=
  [mk_insn (op_code O_COP) 0 0 NPF_COP_L3; mk_insn (op_code O_LD_MEM) 0 0 BPF_MW_L4PROTO; mk_insn (op_code O_RET_A) 0 0 0].

Lemma npf_bpf_filter_safe_witness :
  ∃ v, npf_bpf_filter no_tables [] false flat_syn_npc (npf_bpf_prepare false flat_syn_npc (replicate 3 None))
         (Some l3_prog) None = Some (inl v) ∧ inw 32 v.
Proof.
  apply (npf_bpf_filter_safe no_tables [] false flat_syn_npc flat_syn_npc (replicate 3 None) l3_prog).
  - split; [|intros _; split; [done|split; [done|by exists sample_tcp4]]].
    constructor; [split; [apply bytes_ok_concrete; vm_compute; reflexivity|discriminate]|constructor].
  - reflexivity.
  - intros i v Hi. apply list_elem_of_lookup_2 in Hi. simpl in Hi. set_solver.
  - repeat (constructor; [unfold insn_wf, inw; vm_compute; repeat split; done || discriminate|]). constructor.
  - repeat (constructor; [vm_compute; reflexivity|]). constructor.
  - vm_compute. reflexivity.
Defined.

(** In the standalone build the buffer length given to the code is that of the
    whole chain, while the packet pointer covers the first mbuf only: code that
    looks into the rest reads past the mbuf. *)
Theorem npf_bpf_prepare_chain :
  let npc := chain_npc [take 20 sample_tcp4; drop 20 sample_tcp4] in
  let code := [mk_insn (op_code (O_LD_ABS S_H)) 0 0 22; mk_insn (op_code O_RET_A) 0 0 0] in
  npf_bpf_validate no_tables [] npc code = true ∧
  npf_bpf_filter no_tables [] false npc (npf_bpf_prepare false npc (replicate 3 None)) (Some code) None = Some (inr F_packet) ∧
  ∃ v, npf_bpf_filter no_tables [] true npc (npf_bpf_prepare true npc (replicate 3 None)) (Some code) None = Some (inl v).
Proof. vm_compute. split; [done|]. split; [done|]. eexists. reflexivity. Qed.

End NpfBpf.
