(* ===== verification/NpfVar.v ===== *)
(** * NpfVar: configuration variables (src/npfctl/npf_var.c)

    The grammar of npf.conf is parsed into variables: lists of typed elements
    that may refer to other variables by name.  Variables are heap objects;
    [vs_list] is the list of the named ones and [vs_num] the counter that
    bounds the resolution of references.  The ways npfctl ends with an error
    are the errors of the result type; [E_segv] is a use of memory that C
    leaves undefined. *)

From S2P Require Import Prelude.
From stdpp Require Import strings.
Open Scope Z_scope.
Open Scope npf_scope.

Module NpfVar.

(** ** Errors *)

Inductive comp_err := E_errx | E_assert | E_abort | E_yyerror | E_segv.

Abbreviation comp A := (A + comp_err)%type.

Definition cbind {A B : Type} (m : comp A) (f : A → comp B) : comp B :=
  match m with inl a => f a | inr e => inr e end.

Notation "'let!' x ':=' m 'in' k" := (cbind m (λ x, k)) (at level 10, x pattern, m at level 100, k at level 200) : npf_scope.

Definition assert (b : bool) : comp unit := if b then inl tt else inr E_assert.

Lemma cbind_inl {A B} (m : comp A) (f : A → comp B) b : cbind m f = inl b ↔ ∃ a, m = inl a ∧ f a = inl b.
Proof. destruct m; simpl; naive_solver. Qed.

Lemma assert_inl b u : assert b = inl u ↔ b = true.
Proof. destruct b, u; simpl; naive_solver. Qed.

(** ** Elements *)

Definition NPFVAR_STRING : Z := 0.
Definition NPFVAR_IDENTIFIER : Z := 1.
Definition NPFVAR_VAR_ID : Z := 2.
Definition NPFVAR_NUM : Z := 3.
Definition NPFVAR_PORT_RANGE : Z := 4.
Definition NPFVAR_PRIM : Z := NPFVAR_PORT_RANGE.
Definition NPFVAR_TYPE (x : Z) : Z := if NPFVAR_PRIM <? x then x else 0.
Definition NPFVAR_TABLE : Z := 5.
Definition NPFVAR_FAM : Z := 6.
Definition NPFVAR_PROC : Z := 7.
Definition NPFVAR_PROC_PARAM : Z := 8.
Definition NPFVAR_TCPFLAG : Z := 9.
Definition NPFVAR_ICMP : Z := 10.
Definition NPFVAR_INTERFACE : Z := 11.
Definition NPFVAR_PROTO : Z := 12.

(** An address with its family and mask; the address is 16 bytes, as four
    words in network byte order. *)
Record fam_addr_mask := mk_fam { fam_family : Z; fam_addr : list Z; fam_mask : Z; fam_ifindex : Z }.

(** What [e_data] points to, by the type of the element. *)
Inductive npf_element :=
| El_string (s : string)
| El_identifier (s : string)
| El_var_id (s : string)
| El_num (n : Z)
| El_port_range (pr_start pr_end : Z)
| El_table (tid : Z)
| El_fam (fam : fam_addr_mask)
| El_proc (pc_name : string) (pc_opts : option Z)
| El_proc_param (pp_param : string) (pp_value : option string)
| El_tcpflag (tf : Z)
| El_icmp (n : Z)
| El_interface (ifna_name : string) (ifna_index ifna_family : Z) (ifna_filter ifna_addrs : option Z)
| El_proto (op_proto : Z) (op_opts : option Z).

Definition e_type (el : npf_element) : Z :=
  match el with
  | El_string _ => NPFVAR_STRING | El_identifier _ => NPFVAR_IDENTIFIER | El_var_id _ => NPFVAR_VAR_ID
  | El_num _ => NPFVAR_NUM | El_port_range _ _ => NPFVAR_PORT_RANGE | El_table _ => NPFVAR_TABLE
  | El_fam _ => NPFVAR_FAM | El_proc _ _ => NPFVAR_PROC | El_proc_param _ _ => NPFVAR_PROC_PARAM
  | El_tcpflag _ => NPFVAR_TCPFLAG | El_icmp _ => NPFVAR_ICMP | El_interface _ _ _ _ _ => NPFVAR_INTERFACE
  | El_proto _ _ => NPFVAR_PROTO
  end.

Definition npfvar_types : list string :=
  ["string"; "identifier"; "variable-id"; "number"; "port-range"; "table"; "family-address-mask"; "procedure";
   "procedure-parameter"; "tcp-flag"; "icmp"; "interface-address"; "proto"]%string.

Definition npfvar_type (t : Z) : string := default "unknown"%string (npfvar_types !! Z.to_nat t).

(** ** Variables *)

Record npfvar := mk_var { v_key : option string; v_elements : list npf_element; v_count : Z }.

Record var_sys := mk_vars {
  vs_vars : gmap Z npfvar;
  vs_list : list Z;
  vs_num : Z;
  vs_next : Z;
}.

Definition set_vars (s : var_sys) (m : gmap Z npfvar) : var_sys := mk_vars m (vs_list s) (vs_num s) (vs_next s).

Definition var_get (s : var_sys) (p : Z) : comp npfvar := match vs_vars s !! p with Some v => inl v | None => inr E_segv end.

Definition npfvar_create (s : var_sys) : Z * var_sys :=
  let p := vs_next s in
  (p, mk_vars (<[p := mk_var None [] 0]> (vs_vars s)) (vs_list s) (vs_num s + 1) (p + 1)).

Fixpoint lookup_loop (s : var_sys) (l : list Z) (key : string) : comp (option Z) :=
  match l with
  | [] => inl None
  | p :: l =>
      let! v := var_get s p in
      match v_key v with
      | None => inr E_segv
      | Some k => if String.eqb k key then inl (Some p) else lookup_loop s l key
      end
  end.

Definition npfvar_lookup (s : var_sys) (key : string) : comp (option Z) := lookup_loop s (vs_list s) key.

Definition npfvar_add (s : var_sys) (vp : Z) (name : string) : comp var_sys :=
  let! v := var_get s vp in
  inl (mk_vars (<[vp := mk_var (Some name) (v_elements v) (v_count v)]> (vs_vars s)) (vp :: vs_list s) (vs_num s) (vs_next s)).

Definition npfvar_add_element (s : var_sys) (vp : Z) (el : npf_element) : comp (Z * var_sys) :=
  let! v := var_get s vp in
  inl (vp, set_vars s (<[vp := mk_var (v_key v) (v_elements v ++ [el]) (v_count v + 1)]> (vs_vars s))).

Definition npfvar_create_element (s : var_sys) (el : npf_element) : comp (Z * var_sys) :=
  let '(vp, s) := npfvar_create s in npfvar_add_element s vp el.

(** The counter is decremented; the list of the named variables is not
    searched. *)
Definition npfvar_destroy (s : var_sys) (vp : Z) : comp var_sys :=
  let! _ := var_get s vp in
  inl (mk_vars (delete vp (vs_vars s)) (vs_list s) (vs_num s - 1) (vs_next s)).

Definition npfvar_add_elements (s : var_sys) (vp vp2 : option Z) : comp (option Z * var_sys) :=
  match vp, vp2 with
  | vp, None => inl (vp, s)
  | None, vp2 => inl (vp2, s)
  | Some p, Some p2 =>
      let! v := var_get s p in
      let! v2 := var_get s p2 in
      let s :=
        (if negb (v_count v2 =? 0) then
           set_vars s (<[p2 := mk_var (v_key v2) [] 0]>
             (<[p := mk_var (v_key v) (v_elements v ++ v_elements v2) (v_count v + v_count v2)]> (vs_vars s)))
         else s) in
      let! s := npfvar_destroy s p2 in
      inl (Some p, s)
  end.

(** ** Reading variables *)

Definition npfvar_get_count (s : var_sys) (vp : option Z) : comp Z :=
  match vp with None => inl 0 | Some p => let! v := var_get s p in inl (v_count v) end.

(** [room] is [var_num - level]: at most that many variables are visited. *)
Fixpoint get_element_loop (room : nat) (s : var_sys) (vp : option Z) (idx : nat) : comp (option npf_element) :=
  match vp with
  | None => inl None
  | Some p =>
      match room with
      | O => inr E_yyerror
      | S room =>
          let! v := var_get s p in
          if v_count v <=? Z.of_nat idx then inr E_yyerror else
          match v_elements v !! idx with
          | None => inr E_segv
          | Some (El_var_id k) =>
              let! rvp := npfvar_lookup s k in
              get_element_loop room s rvp 0
          | Some el => inl (Some el)
          end
      end
  end.

Definition npfvar_get_element (s : var_sys) (vp : option Z) (idx : nat) : comp (option npf_element) :=
  get_element_loop (Z.to_nat (vs_num s)) s vp idx.

Definition npfvar_get_type (s : var_sys) (vp : option Z) (idx : nat) : comp Z :=
  let! el := npfvar_get_element s vp idx in
  inl (match el with Some el => e_type el | None => -1 end).

(** The element itself stands for the data; a missing element is
    dereferenced. *)
Definition npfvar_get_data (s : var_sys) (vp : option Z) (type : Z) (idx : nat) : comp npf_element :=
  let! el := npfvar_get_element s vp idx in
  match el with
  | None => inr E_segv
  | Some el => if negb (NPFVAR_TYPE (e_type el) =? NPFVAR_TYPE type) then inr E_yyerror else inl el
  end.

Definition npfvar_expand_string (s : var_sys) (vp : option Z) : comp npf_element :=
  let! n := npfvar_get_count s vp in
  if negb (n =? 1) then inr E_yyerror else npfvar_get_data s vp NPFVAR_STRING 0.

(** ** The invariant *)

Record var_ok (s : var_sys) : Prop := {
  vo_num : vs_num s = Z.of_nat (size (vs_vars s));
  vo_next : ∀ p v, vs_vars s !! p = Some v → p < vs_next s;
  vo_count : ∀ p v, vs_vars s !! p = Some v → v_count v = Z.of_nat (length (v_elements v));
  vo_list : ∀ p, p ∈ vs_list s → ∃ v, vs_vars s !! p = Some v ∧ is_Some (v_key v);
}.

Lemma var_get_inl s p v : var_get s p = inl v ↔ vs_vars s !! p = Some v.
Proof. unfold var_get. destruct (vs_vars s !! p); naive_solver. Qed.

(** Replacing a variable by one with the same key and a right count. *)
Lemma var_ok_upd s p v v' : var_ok s → vs_vars s !! p = Some v → (is_Some (v_key v) → is_Some (v_key v')) →
  v_count v' = Z.of_nat (length (v_elements v')) → var_ok (set_vars s (<[p := v']> (vs_vars s))).
Proof.
  intros [H1 H2 H3 H4] Hp Hk Hc. split; cbn.
  - rewrite map_size_insert_Some; [done|by eexists].
  - intros q w [[<- <-]|[? Hq]]%lookup_insert_Some; eauto.
  - intros q w [[<- <-]|[? Hq]]%lookup_insert_Some; eauto.
  - intros q (w & Hw & Hkw)%H4. destruct (decide (p = q)) as [<-|Hne].
    + exists v'. rewrite lookup_insert_eq. simplify_eq. auto.
    + exists w. by rewrite lookup_insert_ne.
Qed.

Lemma npfvar_create_ok s p s' : var_ok s → npfvar_create s = (p, s') →
  var_ok s' ∧ vs_vars s !! p = None ∧ vs_vars s' !! p = Some (mk_var None [] 0) ∧ p ∉ vs_list s'.
Proof.
  intros [H1 H2 H3 H4] [= <- <-]. assert (vs_vars s !! vs_next s = None) as Hn.
  { destruct (vs_vars s !! vs_next s) eqn:E; [|done]. apply H2 in E. lia. }
  split_and!; [|done|apply lookup_insert_eq|].
  - split; cbn.
    + rewrite map_size_insert_None by done. lia.
    + intros q w [[<- <-]|[? Hq]]%lookup_insert_Some; [lia|]. apply H2 in Hq. lia.
    + intros q w [[<- <-]|[? Hq]]%lookup_insert_Some; [done|eauto].
    + intros q (w & Hw & Hk)%H4. exists w. rewrite lookup_insert_ne; [done|]. congruence.
  - cbn. intros (w & Hw & _)%H4. congruence.
Qed.

Lemma npfvar_add_ok s vp name s' : var_ok s → npfvar_add s vp name = inl s' → var_ok s'.
Proof.
  intros Hs Ha. unfold npfvar_add in Ha. apply cbind_inl in Ha as (v & Hv%var_get_inl & [= <-]).
  destruct (var_ok_upd s vp v (mk_var (Some name) (v_elements v) (v_count v)) Hs Hv) as [U1 U2 U3 U4]; [done|exact (vo_count s Hs vp v Hv)|].
  split; try done. intros p [->|Hp]%elem_of_cons; [|by apply U4]. cbn. rewrite lookup_insert_eq. eauto.
Qed.

Lemma npfvar_add_element_ok s vp el r s' : var_ok s → npfvar_add_element s vp el = inl (r, s') → var_ok s' ∧ r = vp.
Proof.
  intros Hs Ha. unfold npfvar_add_element in Ha. apply cbind_inl in Ha as (v & Hv%var_get_inl & [= <- <-]). split; [|done].
  eapply var_ok_upd; [done|done|done|]. cbn. rewrite length_app, (vo_count s Hs _ _ Hv). cbn. lia.
Qed.

(** A variable can be destroyed unless it has a name. *)
Lemma npfvar_destroy_ok s vp s' : var_ok s → vp ∉ vs_list s → npfvar_destroy s vp = inl s' → var_ok s'.
Proof.
  intros [H1 H2 H3 H4] Hn Hd. unfold npfvar_destroy in Hd. apply cbind_inl in Hd as (v & Hv%var_get_inl & [= <-]). split; cbn.
  - rewrite H1. pose proof (map_size_delete_Some vp (vs_vars s) ltac:(by eexists)) as Hd. rewrite Hd.
    assert (size (vs_vars s) ≠ 0%nat) by (intros Hz%map_size_empty_inv; by rewrite Hz, lookup_empty in Hv). lia.
  - intros q w [_ Hq]%lookup_delete_Some. eauto.
  - intros q w [_ Hq]%lookup_delete_Some. eauto.
  - intros q Hq. destruct (H4 q Hq) as (w & Hw & Hk). exists w. rewrite lookup_delete_ne; [done|]. congruence.
Qed.

Lemma npfvar_add_elements_ok s vp vp2 r s' : var_ok s → vp ≠ vp2 → (∀ p2, vp2 = Some p2 → p2 ∉ vs_list s) →
  npfvar_add_elements s vp vp2 = inl (r, s') → var_ok s'.
Proof.
  intros Hs Hne Hn Ha. destruct vp as [p|], vp2 as [p2|]; cbn [npfvar_add_elements] in Ha; try (by injection Ha as <- <-).
  apply cbind_inl in Ha as (v & Hv%var_get_inl & Ha). apply cbind_inl in Ha as (v2 & Hv2%var_get_inl & Ha).
  apply cbind_inl in Ha as (s1 & Hd & [= <- <-]).
  destruct (negb (v_count v2 =? 0)); [|eapply npfvar_destroy_ok; [exact Hs|by apply Hn|exact Hd]].
  apply (λ Hok, npfvar_destroy_ok _ p2 _ Hok (Hn p2 eq_refl : p2 ∉ vs_list (set_vars s _)) Hd).
  assert (p2 ≠ p) by congruence.
  set (v' := mk_var (v_key v) (v_elements v ++ v_elements v2) (v_count v + v_count v2)).
  assert (var_ok (set_vars s (<[p := v']> (vs_vars s)))) as U1.
  { apply (var_ok_upd s p v); [done|done|done|]. cbn. rewrite length_app, (vo_count s Hs _ _ Hv), (vo_count s Hs _ _ Hv2). lia. }
  apply (var_ok_upd _ p2 v2 (mk_var (v_key v2) [] 0) U1); [|done|done]. cbn. by rewrite lookup_insert_ne.
Qed.

(** ** Resolution of references *)

(** Element [idx] of [p] is [el], through the variables of the path. *)
Inductive resolves (s : var_sys) : Z → nat → npf_element → list Z → Prop :=
| res_here p idx v el : vs_vars s !! p = Some v → v_elements v !! idx = Some el → (∀ k, el ≠ El_var_id k) →
    resolves s p idx el [p]
| res_ref p idx v k q el path : vs_vars s !! p = Some v → v_elements v !! idx = Some (El_var_id k) →
    npfvar_lookup s k = inl (Some q) → resolves s q 0 el path → resolves s p idx el (p :: path).

Lemma resolves_path s p idx el path : resolves s p idx el path → Forall (λ q, q ∈ dom (vs_vars s)) path.
Proof. induction 1; constructor; try apply elem_of_dom; eauto. Qed.

Lemma get_element_complete s room p idx el path : var_ok s → resolves s p idx el path → (length path <= room)%nat →
  get_element_loop room s (Some p) idx = inl (Some el).
Proof.
  intros Hs Hr. revert room. induction Hr as [p idx v el Hv He Hn|p idx v k q el path Hv He Hl Hr IH]; intros [|room] Hlen;
    cbn [length] in Hlen; try lia; cbn [get_element_loop].
  - rewrite (proj2 (var_get_inl _ _ _) Hv). cbn [cbind]. rewrite (vo_count s Hs _ _ Hv).
    rewrite (proj2 (Z.leb_gt _ _)) by (apply lookup_lt_Some in He; lia). rewrite He. destruct el; try done. by destruct (Hn s0).
  - rewrite (proj2 (var_get_inl _ _ _) Hv). cbn [cbind]. rewrite (vo_count s Hs _ _ Hv).
    rewrite (proj2 (Z.leb_gt _ _)) by (apply lookup_lt_Some in He; lia). rewrite He, Hl. cbn [cbind]. apply IH. lia.
Qed.

Lemma get_element_sound s room p idx el : get_element_loop room s (Some p) idx = inl (Some el) →
  ∃ path, resolves s p idx el path.
Proof.
  revert p idx. induction room as [|room IH]; intros p idx Hg; cbn [get_element_loop] in Hg; [done|].
  apply cbind_inl in Hg as (v & Hv%var_get_inl & Hg). destruct (_ <=? _); [done|].
  destruct (v_elements v !! idx) as [e|] eqn:He; [|done].
  assert ((∃ k, e = El_var_id k) ∨ (∀ k, e ≠ El_var_id k)) as [[k ->]|Hn] by (destruct e; naive_solver).
  - apply cbind_inl in Hg as ([q|] & Hl & Hg); [|by destruct room]. destruct (IH q 0%nat Hg) as [path Hr].
    exists (p :: path). by eapply res_ref.
  - assert (e = el) as -> by (destruct e; try (by injection Hg); by destruct (Hn s0)). exists [p]. eapply res_here; eauto.
Qed.

(** References between configuration variables are followed exactly.  The
    counter of variables bounds the search, so that it ends on circular
    definitions too; an element that is reached without visiting a variable
    twice is found (the bound never cuts a legitimate chain short), and what is
    found is the end of a chain of references. *)
Theorem npfvar_get_element_exact s p idx : var_ok s →
  (∀ el path, resolves s p idx el path → NoDup path → npfvar_get_element s (Some p) idx = inl (Some el)) ∧
  (∀ el, npfvar_get_element s (Some p) idx = inl (Some el) → ∃ path, resolves s p idx el path).
Proof.
  intros Hs. split; [|intros el; apply get_element_sound]. intros el path Hr Hnd. eapply get_element_complete; [done|done|].
  rewrite (vo_num s Hs), Nat2Z.id, <- size_dom.
  pose proof (resolves_path _ _ _ _ _ Hr) as Hp. rewrite Forall_forall in Hp.
  rewrite <- (size_list_to_set (C := gset Z) path Hnd). apply subseteq_size. intros q Hq%elem_of_list_to_set. by apply Hp.
Qed.

(** ** Samples *)

(** [$b = 80; $a = $b]. *)
Definition sample_vars : var_sys :=
  mk_vars {[1 := mk_var (Some "b"%string) [El_num 80] 1; 2 := mk_var (Some "a"%string) [El_var_id "b"] 1]} [2; 1] 2 3.

Lemma sample_vars_ok : var_ok sample_vars.
Proof.
  split; [done| | |].
  - unfold sample_vars. cbn [vs_vars]. intros p v [[<- <-]|[_ Hp]]%lookup_insert_Some; [done|]. by apply lookup_singleton_Some in Hp as [<- <-].
  - unfold sample_vars. cbn [vs_vars]. intros p v [[<- <-]|[_ Hp]]%lookup_insert_Some; [done|]. by apply lookup_singleton_Some in Hp as [<- <-].
  - intros p [->|[->|[]%elem_of_nil]%elem_of_cons]%elem_of_cons; eexists; (split; [reflexivity|by eexists]).
Qed.

Lemma npfvar_get_element_exact_witness : npfvar_get_element sample_vars (Some 2) 0 = inl (Some (El_num 80)).
Proof.
  apply (proj1 (npfvar_get_element_exact sample_vars 2 0 sample_vars_ok) (El_num 80) [2; 1]).
  - eapply res_ref; [reflexivity|reflexivity|reflexivity|]. eapply res_here; [reflexivity|reflexivity|done].
  - repeat (constructor; [set_solver|]). constructor.
Defined.

(** A circular definition ends in an error. *)
Example circular_variable :
  npfvar_get_element (mk_vars {[1 := mk_var (Some "a"%string) [El_var_id "a"] 1]} [1] 1 2) (Some 1) 0 = inr E_yyerror.
Proof. reflexivity. Qed.

(** A reference to a variable of several elements stands for the first one
    only. *)
Theorem reference_first_element :
  let s := mk_vars {[1 := mk_var (Some "b"%string) [El_num 80; El_num 443] 2; 2 := mk_var None [El_var_id "b"] 1]} [1] 2 3 in
  npfvar_get_count s (Some 2) = inl 1 ∧ npfvar_get_element s (Some 2) 0 = inl (Some (El_num 80)).
Proof. split; reflexivity. Qed.

(** The data of a reference to an undefined name is read through a null
    pointer. *)
Theorem undefined_reference_data :
  npfvar_get_data (mk_vars {[1 := mk_var None [El_var_id "x"] 1]} [] 1 2) (Some 1) NPFVAR_FAM 0 = inr E_segv.
Proof. reflexivity. Qed.

End NpfVar.
