(* ===== verification/BpfComp.v ===== *)
(** * BpfComp: generation of BPF code for rules (src/npfctl/npf_bpf_comp.c)

    [npf_bpf] is the compiler context; the operations of the source append
    code blocks to its program.  A jump to the failure path is emitted with
    the offset [JUMP_MAGIC] and resolved by [fixup_jumps], which in a group
    also swaps the two ways of a comparison.  [errx], [assert], [abort] and
    [yyerror] end npfctl: they are the errors of the result type.

    The second half shows what the generated code computes on the machine of
    [Bpf], and that the validator of the kernel accepts it. *)

From S2P Require Import Prelude NpfVar Nbuf Addr Cache Rewrite Tcpopt Thmap ConnKey Tableset Bpf NpfBpf.
Open Scope Z_scope.
Open Scope npf_scope.

Module BpfComp.
Export NpfBpf NpfVar.

(** ** Constants *)

Definition AF_UNSPEC : Z := 0.
Definition AF_INET : Z := 2.
Definition AF_INET6 : Z := 10.

Definition FETCHED_L3 : Z := 0x01.
Definition CHECKED_L4_PROTO : Z := 0x02.
Definition X_EQ_L4OFF : Z := 0x04.

Definition NPF_BPF_SUCCESS : Z := u32 (-1).
Definition NPF_BPF_FAILURE : Z := 0.
Definition JUMP_MAGIC : Z := 0xff.

Definition ALLOC_ROUND (x : Z) : Z := (x + 63) &&& Z.lnot 63.

Definition MATCH_DST : Z := 0x01.
Definition MATCH_SRC : Z := 0x02.
Definition MATCH_INVERT : Z := 0x04.

Definition BM_IPVER : Z := 0.
Definition BM_PROTO : Z := 1.
Definition BM_SRC_CIDR : Z := 2.
Definition BM_SRC_TABLE : Z := 3.
Definition BM_DST_CIDR : Z := 4.
Definition BM_DST_TABLE : Z := 5.
Definition BM_SRC_PORTS : Z := 6.
Definition BM_DST_PORTS : Z := 7.
Definition BM_TCPFL : Z := 8.
Definition BM_ICMP_TYPE : Z := 9.
Definition BM_ICMP_CODE : Z := 10.
Definition BM_SRC_NEG : Z := 11.
Definition BM_DST_NEG : Z := 12.

(** ** The context *)

(** The lengths [b_alen] and [b_malen] are in bytes; [mlen] of the source is
    four times the number of the mark words. *)
Record npf_bpf := mk_bpf {
  b_prog : list bpf_insn;
  b_alen : Z;
  b_nblocks : Z;
  b_af : Z;
  b_flags : Z;
  b_ingroup : Z;
  b_invert : bool;
  b_goff : Z;
  b_gblock : Z;
  b_invflags : Z;
  b_marks : list Z;
  b_malen : Z;
}.

Definition set_prog (c : npf_bpf) (p : list bpf_insn) : npf_bpf :=
  mk_bpf p (b_alen c) (b_nblocks c) (b_af c) (b_flags c) (b_ingroup c) (b_invert c) (b_goff c) (b_gblock c) (b_invflags c) (b_marks c) (b_malen c).
Definition set_alen (c : npf_bpf) (n : Z) : npf_bpf :=
  mk_bpf (b_prog c) n (b_nblocks c) (b_af c) (b_flags c) (b_ingroup c) (b_invert c) (b_goff c) (b_gblock c) (b_invflags c) (b_marks c) (b_malen c).
Definition set_nblocks (c : npf_bpf) (n : Z) : npf_bpf :=
  mk_bpf (b_prog c) (b_alen c) n (b_af c) (b_flags c) (b_ingroup c) (b_invert c) (b_goff c) (b_gblock c) (b_invflags c) (b_marks c) (b_malen c).
Definition set_af (c : npf_bpf) (af : Z) : npf_bpf :=
  mk_bpf (b_prog c) (b_alen c) (b_nblocks c) af (b_flags c) (b_ingroup c) (b_invert c) (b_goff c) (b_gblock c) (b_invflags c) (b_marks c) (b_malen c).
Definition or_bflags (c : npf_bpf) (f : Z) : npf_bpf :=
  mk_bpf (b_prog c) (b_alen c) (b_nblocks c) (b_af c) (b_flags c ||| f) (b_ingroup c) (b_invert c) (b_goff c) (b_gblock c) (b_invflags c) (b_marks c) (b_malen c).
Definition set_group (c : npf_bpf) (ingroup : Z) (invert : bool) (goff gblock : Z) : npf_bpf :=
  mk_bpf (b_prog c) (b_alen c) (b_nblocks c) (b_af c) (b_flags c) ingroup invert goff gblock (b_invflags c) (b_marks c) (b_malen c).
Definition or_invflags (c : npf_bpf) (f : Z) : npf_bpf :=
  mk_bpf (b_prog c) (b_alen c) (b_nblocks c) (b_af c) (b_flags c) (b_ingroup c) (b_invert c) (b_goff c) (b_gblock c) (b_invflags c ||| f) (b_marks c) (b_malen c).
Definition set_marks (c : npf_bpf) (m : list Z) (malen : Z) : npf_bpf :=
  mk_bpf (b_prog c) (b_alen c) (b_nblocks c) (b_af c) (b_flags c) (b_ingroup c) (b_invert c) (b_goff c) (b_gblock c) (b_invflags c) m malen.

Definition npfctl_bpf_create : npf_bpf := mk_bpf [] 0 0 0 0 0 false 0 0 0 [] 0.

(** Instruction macros. *)
Definition BPF_STMT (code k : Z) : bpf_insn := mk_insn code 0 0 k.
Definition BPF_JUMP (code k jt jf : Z) : bpf_insn := mk_insn code jt jf k.

Definition bf_len (c : npf_bpf) : Z := Z.of_nat (length (b_prog c)).

(** ** Building blocks *)

Definition fixup_insn (swap : bool) (fail_off : Z) (p : bpf_insn) : bpf_insn :=
  if negb (BPF_CLASS (i_code p) =? BPF_JMP) then p
  else if BPF_OP (i_code p) =? BPF_JA then
    if i_k p =? JUMP_MAGIC then mk_insn (i_code p) (i_jt p) (i_jf p) (if swap then 0 else fail_off) else p
  else
    let jt := if i_jt p =? JUMP_MAGIC then fail_off else i_jt p in
    let jf := if i_jf p =? JUMP_MAGIC then fail_off else i_jf p in
    let seen_magic := (i_jt p =? JUMP_MAGIC) || (i_jf p =? JUMP_MAGIC) in
    if seen_magic && swap then mk_insn (i_code p) jf jt (i_k p) else mk_insn (i_code p) jt jf (i_k p).

(** The instructions of the range; the failure offset of the last one is 1. *)
Fixpoint fixup_loop (swap : bool) (l : list bpf_insn) : comp (list bpf_insn) :=
  match l with
  | [] => inl []
  | p :: l' =>
      let fail_off := Z.of_nat (length l) in
      if JUMP_MAGIC <=? fail_off then inr E_errx else
      let! r := fixup_loop swap l' in
      inl (fixup_insn swap fail_off p :: r)
  end.

Definition fixup_jumps (ctx : npf_bpf) (start end_ : Z) (swap : bool) : comp npf_bpf :=
  let p := b_prog ctx in
  let! r := fixup_loop swap (take (Z.to_nat (end_ - start)) (drop (Z.to_nat start) p)) in
  inl (set_prog ctx (take (Z.to_nat start) p ++ r ++ drop (Z.to_nat end_) p)).

Definition add_insns (ctx : npf_bpf) (insns : list bpf_insn) : npf_bpf :=
  let offset := bf_len ctx * 8 in
  let len := Z.of_nat (length insns) * 8 in
  let reqlen := ALLOC_ROUND (offset + len) in
  let ctx := if b_alen ctx <? reqlen then set_alen ctx reqlen else ctx in
  set_prog ctx (b_prog ctx ++ insns).

Definition add_bmarks (ctx : npf_bpf) (m : list Z) : comp npf_bpf :=
  let nargs := default 0 (m !! 1%nat) in
  if negb (Z.of_nat (length m) - 2 =? nargs) then inr E_errx else
  let reqlen := ALLOC_ROUND (4 * Z.of_nat (length (b_marks ctx)) + 4 * Z.of_nat (length m)) in
  let malen := if b_malen ctx <? reqlen then reqlen else b_malen ctx in
  inl (set_marks ctx (b_marks ctx ++ m) malen).

Definition done_block (ctx : npf_bpf) (m : list Z) : comp npf_bpf :=
  let! ctx := add_bmarks ctx m in
  inl (set_nblocks ctx (b_nblocks ctx + 1)).

(** The program, [None] when there are no instructions. *)
Definition npfctl_bpf_complete (ctx : npf_bpf) : comp (option (list bpf_insn)) :=
  let retoff := bf_len ctx in
  if retoff =? 0 then inl None else
  let ctx := add_insns ctx [BPF_STMT (BPF_RET ||| BPF_K) NPF_BPF_SUCCESS; BPF_STMT (BPF_RET ||| BPF_K) NPF_BPF_FAILURE] in
  let! ctx := fixup_jumps ctx 0 retoff false in
  inl (Some (b_prog ctx)).

Definition npfctl_bpf_bmarks (ctx : npf_bpf) : list Z := b_marks ctx.

(** ** Groups *)

Definition npfctl_bpf_group_enter (ctx : npf_bpf) (invert : bool) : comp npf_bpf :=
  let! _ := assert (b_goff ctx =? 0) in
  let! _ := assert (b_gblock ctx =? 0) in
  inl (set_group ctx (b_ingroup ctx + 1) invert (bf_len ctx) (b_nblocks ctx)).

Definition npfctl_bpf_group_exit (ctx : npf_bpf) : comp npf_bpf :=
  let curoff := bf_len ctx in
  let! _ := assert (negb (b_ingroup ctx =? 0)) in
  let goff := b_goff ctx in
  let gblock := b_gblock ctx in
  let invert := b_invert ctx in
  let ctx := set_group ctx (b_ingroup ctx - 1) invert goff gblock in
  if negb invert && (b_nblocks ctx - gblock <=? 1) then inl (set_group ctx (b_ingroup ctx) invert 0 0) else
  let ctx := if invert then add_insns ctx [BPF_STMT (BPF_JMP ||| BPF_JA) 1] else ctx in
  let ctx := add_insns ctx [BPF_STMT (BPF_RET ||| BPF_K) NPF_BPF_FAILURE] in
  let! ctx := fixup_jumps ctx goff curoff true in
  inl (set_group ctx (b_ingroup ctx) invert 0 0).

(** ** Blocks *)

Definition af_version (af : Z) : comp Z :=
  if af =? AF_INET then inl 4
  else if af =? AF_INET6 then inl (0x60 >>> 4)
  else if af =? AF_UNSPEC then inl 0
  else inr E_abort.

(** The test of the IP version: [None] if no version was asked for. *)
Definition ipver_block (ver : Z) : list bpf_insn :=
  let jt := if negb (ver =? 0) then 0 else JUMP_MAGIC in
  let jf := if negb (ver =? 0) then JUMP_MAGIC else 0 in
  [BPF_STMT (BPF_LD ||| BPF_W ||| BPF_MEM) BPF_MW_IPVER; BPF_JUMP (BPF_JMP ||| BPF_JEQ ||| BPF_K) ver jt jf].

Definition fetch_l3 (ctx : npf_bpf) (af flags : Z) : comp npf_bpf :=
  let! ver := af_version af in
  let! ctx :=
    (if negb (flag (b_flags ctx) FETCHED_L3) || (negb (af =? 0) && (b_af ctx =? 0)) then
       let ingroup := negb (b_ingroup ctx =? 0) in
       let invert := b_invert ctx in
       let! ctx :=
         (if ingroup then
            let! _ := assert (b_nblocks ctx =? b_gblock ctx) in
            npfctl_bpf_group_exit ctx
          else inl ctx) in
       let ctx := set_af (or_bflags (add_insns ctx (ipver_block ver)) FETCHED_L3) af in
       let! ctx := (if negb (af =? 0) then add_bmarks ctx [BM_IPVER; 1; af] else inl ctx) in
       if ingroup then npfctl_bpf_group_enter ctx invert else inl ctx
     else if negb (af =? 0) && negb (af =? b_af ctx) then inr E_errx
     else inl ctx) in
  if flag flags X_EQ_L4OFF && negb (flag (b_flags ctx) X_EQ_L4OFF) then
    inl (or_bflags (add_insns ctx [BPF_STMT (BPF_LDX ||| BPF_MEM) BPF_MW_L4OFF]) X_EQ_L4OFF)
  else inl ctx.

Definition bm_invert_checkpoint (ctx : npf_bpf) (opts : Z) : comp npf_bpf :=
  if negb (b_ingroup ctx =? 0) && b_invert ctx then
    let seen := b_invflags ctx in
    let bm := if flag opts MATCH_SRC && negb (flag seen MATCH_SRC) then BM_SRC_NEG else 0 in
    let bm := if flag opts MATCH_DST && negb (flag seen MATCH_DST) then BM_DST_NEG else bm in
    let ctx := or_invflags ctx (opts &&& (MATCH_SRC ||| MATCH_DST)) in
    if negb (bm =? 0) then add_bmarks ctx [bm; 0] else inl ctx
  else inl ctx.

Definition npfctl_bpf_ipver (ctx : npf_bpf) (af : Z) : comp npf_bpf := fetch_l3 ctx af 0.

Definition npfctl_bpf_proto (ctx : npf_bpf) (proto : Z) : comp npf_bpf :=
  let ctx := add_insns ctx
    [BPF_STMT (BPF_LD ||| BPF_W ||| BPF_MEM) BPF_MW_L4PROTO;
     BPF_JUMP (BPF_JMP ||| BPF_JEQ ||| BPF_K) proto 0 JUMP_MAGIC] in
  let! ctx := done_block ctx [BM_PROTO; 1; proto] in
  inl (or_bflags ctx CHECKED_L4_PROTO).

(** The words that the mask covers, from the offset [off]. *)
Fixpoint cidr_loop (nwords : nat) (ctx : npf_bpf) (awords : list Z) (off length : Z) : npf_bpf :=
  match nwords with
  | O => ctx
  | S n =>
      let word := ntohl (default 0 (head awords)) in
      if length =? 0 then ctx else
      let wordmask := if 32 <=? length then 0 else u32 (0xffffffff <<< (32 - length)) in
      let length := if 32 <=? length then length - 32 else 0 in
      let ctx := add_insns ctx [BPF_STMT (BPF_LD ||| BPF_W ||| BPF_ABS) off] in
      let ctx := if negb (wordmask =? 0) then add_insns ctx [BPF_STMT (BPF_ALU ||| BPF_AND ||| BPF_K) wordmask] else ctx in
      let ctx := add_insns ctx [BPF_JUMP (BPF_JMP ||| BPF_JEQ ||| BPF_K) word 0 JUMP_MAGIC] in
      cidr_loop n ctx (tail awords) (off + 4) length
  end.

Definition one_side (opts : Z) : bool := xorb (flag opts MATCH_SRC) (flag opts MATCH_DST).

(** The longest mask, the offset of the address and the number of its words. *)
Definition cidr_family (af opts : Z) : comp (Z * Z * nat) :=
  if af =? AF_INET then inl (32, if flag opts MATCH_SRC then 12 else 16, 1%nat)
  else if af =? AF_INET6 then inl (128, if flag opts MATCH_SRC then 8 else 24, 4%nat)
  else inr E_abort.

Definition npfctl_bpf_cidr (ctx : npf_bpf) (opts af : Z) (addr : npf_addr_t) (mask : Z) : comp npf_bpf :=
  let! _ := assert (one_side opts) in
  let! _ := assert ((negb (mask =? 0) && (mask <=? NPF_MAX_NETMASK)) || (mask =? NPF_NO_NETMASK)) in
  let! (maxmask, off, nwords) := cidr_family af opts in
  let! ctx := fetch_l3 ctx af 0 in
  let length := if mask =? NPF_NO_NETMASK then maxmask else mask in
  let ctx := cidr_loop nwords ctx addr off length in
  let aw i := default 0 (addr !! i) in
  let! ctx := bm_invert_checkpoint ctx opts in
  done_block ctx [if flag opts MATCH_SRC then BM_SRC_CIDR else BM_DST_CIDR; 6; af; mask; aw 0%nat; aw 1%nat; aw 2%nat; aw 3%nat].

Definition port_test (from to : Z) : list bpf_insn :=
  if from =? to then [BPF_JUMP (BPF_JMP ||| BPF_JEQ ||| BPF_K) from 0 JUMP_MAGIC]
  else [BPF_JUMP (BPF_JMP ||| BPF_JGE ||| BPF_K) from 0 1;
        BPF_JUMP (BPF_JMP ||| BPF_JGT ||| BPF_K) to 0 1;
        BPF_STMT (BPF_JMP ||| BPF_JA) JUMP_MAGIC].

Definition npfctl_bpf_ports (ctx : npf_bpf) (opts from to : Z) : comp npf_bpf :=
  let! _ := assert (flag (b_flags ctx) CHECKED_L4_PROTO) in
  let! _ := assert (one_side opts) in
  let off := if flag opts MATCH_SRC then 0 else 2 in
  let! ctx := fetch_l3 ctx AF_UNSPEC X_EQ_L4OFF in
  let ctx := add_insns ctx [BPF_STMT (BPF_LD ||| BPF_H ||| BPF_IND) off] in
  let from := ntohs from in
  let to := ntohs to in
  let ctx := add_insns ctx (port_test from to) in
  done_block ctx [if flag opts MATCH_SRC then BM_SRC_PORTS else BM_DST_PORTS; 2; from; to].

Definition npfctl_bpf_tcpfl (ctx : npf_bpf) (tf tf_mask : Z) : comp npf_bpf :=
  let usingmask := negb (tf_mask =? tf) in
  let! ctx := fetch_l3 ctx AF_UNSPEC X_EQ_L4OFF in
  let! ctx :=
    (if negb (flag (b_flags ctx) CHECKED_L4_PROTO) then
       let jf := if usingmask then 3 else 2 in
       let! _ := assert (b_ingroup ctx =? 0) in
       inl (add_insns ctx
         [BPF_STMT (BPF_LD ||| BPF_W ||| BPF_MEM) BPF_MW_L4PROTO;
          BPF_JUMP (BPF_JMP ||| BPF_JEQ ||| BPF_K) IPPROTO_TCP 0 jf])
     else inl ctx) in
  let ctx := add_insns ctx [BPF_STMT (BPF_LD ||| BPF_B ||| BPF_IND) 13] in
  let ctx := if usingmask then add_insns ctx [BPF_STMT (BPF_ALU ||| BPF_AND ||| BPF_K) tf_mask] else ctx in
  let ctx := add_insns ctx [BPF_JUMP (BPF_JMP ||| BPF_JEQ ||| BPF_K) tf 0 JUMP_MAGIC] in
  done_block ctx [BM_TCPFL; 2; tf; tf_mask].

(** One comparison of a byte of the ICMP header. *)
Definition icmp_block (ctx : npf_bpf) (off bm v : Z) : comp npf_bpf :=
  let ctx := add_insns ctx
    [BPF_STMT (BPF_LD ||| BPF_B ||| BPF_IND) off; BPF_JUMP (BPF_JMP ||| BPF_JEQ ||| BPF_K) (u32 v) 0 JUMP_MAGIC] in
  done_block ctx [bm; 1; u32 v].

(** -1: not specified. *)
Definition npfctl_bpf_icmp (ctx : npf_bpf) (type code : Z) : comp npf_bpf :=
  let! _ := assert (flag (b_flags ctx) CHECKED_L4_PROTO) in
  let! _ := assert (negb (type =? -1) || negb (code =? -1)) in
  let! ctx := fetch_l3 ctx AF_UNSPEC X_EQ_L4OFF in
  let! ctx := (if negb (type =? -1) then icmp_block ctx 0 BM_ICMP_TYPE type else inl ctx) in
  if negb (code =? -1) then icmp_block ctx 1 BM_ICMP_CODE code else inl ctx.

Definition npfctl_bpf_table (ctx : npf_bpf) (opts tid : Z) : comp npf_bpf :=
  let src := flag opts MATCH_SRC in
  let ctx := add_insns ctx
    [BPF_STMT (BPF_LD ||| BPF_IMM) ((if src then SRC_FLAG_BIT else 0) ||| tid);
     BPF_STMT (BPF_MISC ||| BPF_COP) NPF_COP_TABLE;
     BPF_JUMP (BPF_JMP ||| BPF_JEQ ||| BPF_K) 0 JUMP_MAGIC 0] in
  let! ctx := bm_invert_checkpoint ctx opts in
  done_block ctx [if src then BM_SRC_TABLE else BM_DST_TABLE; 1; tid].

(** ** Code fragments

    All jumps of BPF are forward.  [run l skip st] runs a fragment after
    [skip] of its instructions are jumped over; [X_out n st] leaves it towards
    the [n]th instruction behind it. *)

Inductive exit := X_out (n : nat) (st : bpf_state) | X_ret (v : Z) | X_fault (f : fault).

Section fragments.
Context (kernel : bool) (bc : option bpf_ctx).

Fixpoint run (l : list bpf_insn) (skip : nat) (st : bpf_state) : exit :=
  match l with
  | [] => X_out skip st
  | p :: l =>
      match skip with
      | S k => run l k st
      | O =>
          match decode (i_code p) with
          | None => if kernel then X_ret 0 else X_fault F_abort
          | Some o =>
              match bpf_exec kernel bc o p 0 st with
              | R_next pc st => run l (Z.to_nat (pc - 1)) st
              | R_ret v => X_ret v
              | R_fault f => X_fault f
              end
          end
      end
  end.

Lemma run_app l1 l2 k st :
  run (l1 ++ l2) k st = match run l1 k st with X_out n st' => run l2 n st' | r => r end.
Proof.
  revert k st. induction l1 as [|p l1 IH]; intros k st; [done|]. simpl. destruct k; [|apply IH].
  destruct (decode _); [|by destruct kernel]. destruct (bpf_exec _ _ _ _ _ _); [apply IH|done..].
Qed.

Lemma run_S p l k st : run (p :: l) (S k) st = run l k st.
Proof. done. Qed.

(** Jumping over a whole fragment. *)
Lemma run_skip l k st : run l (length l + k) st = X_out k st.
Proof. induction l as [|p l IH]; [done|]. exact IH. Qed.

Lemma exec_shift o p pc st :
  bpf_exec kernel bc o p pc st = match bpf_exec kernel bc o p 0 st with R_next d st' => R_next (pc + d) st' | r => r end.
Proof.
  destruct o; cbn [bpf_exec]; rewrite ?Z.add_0_l; try done.
  - unfold ld_A. by destruct (load_abs _ _ _ _).
  - unfold ld_A. by destruct (load_ind _ _ _ _ _).
  - by destruct (load_abs _ _ _ _).
  - by destruct (mem_get _ _).
  - by destruct (mem_get _ _).
  - unfold mem_put. by case_if.
  - unfold mem_put. by case_if.
  - f_equal. lia.
  - f_equal. lia.
  - case_if; [done|]. by destruct (alu_exec _ _ _).
  - unfold cop_call. destruct bc; [|done]. case_if; [|done]. destruct (_ !! _) as [fn|]; [|done]. by destruct (fn _ _).
  - unfold cop_call. destruct bc; [|done]. case_if; [|done]. destruct (_ !! _) as [fn|]; [|done]. by destruct (fn _ _).
Qed.

Lemma exec_forward o p st d st' : insn_wf p → bpf_exec kernel bc o p 0 st = R_next d st' → 1 <= d.
Proof.
  intros (_ & [Ht _] & [Hf _] & [Hk _]). destruct o; cbn [bpf_exec]; unfold ld_A, mem_put, cop_call; try (by intros [= <- _]);
    repeat case_if; repeat case_match; try done; try (by intros [= <- _]); intros [= <- _]; try case_if; lia.
Qed.

(** The interpreter runs the whole program as one fragment. *)
Lemma loop_run l pre k fuel st : Forall insn_wf l → (length l < fuel)%nat →
  bpf_loop kernel bc fuel (pre ++ l) (Z.of_nat (length pre) + Z.of_nat k) st =
  match run l k st with X_ret v => Some (inl v) | X_fault f => Some (inr f) | X_out _ _ => Some (inr F_code) end.
Proof.
  revert pre k fuel st. induction l as [|p l IH]; intros pre k fuel st Hwf Hf.
  { destruct fuel; [simpl in Hf; lia|]. simpl. unfold bpf_step. rewrite app_nil_r, lookup_ge_None_2; [done|lia]. }
  apply Forall_cons in Hwf as [Hp Hwf]. destruct k as [|k].
  - destruct fuel as [|fuel]; [simpl in Hf; lia|]. cbn [bpf_loop run]. unfold bpf_step.
    replace (Z.to_nat _) with (length pre) by lia. rewrite list_lookup_middle by done.
    destruct (decode (i_code p)) as [o|]; [|by destruct kernel].
    rewrite exec_shift. destruct (bpf_exec kernel bc o p 0 st) as [d st'| |] eqn:E; [|done..].
    apply exec_forward in E; [|done]. rewrite (cons_middle p), app_assoc.
    rewrite <- (IH (pre ++ [p]) (Z.to_nat (d - 1)) fuel st'); [|done|simpl in Hf; lia].
    f_equal. rewrite length_app. simpl. lia.
  - simpl in Hf. rewrite (cons_middle p), app_assoc. cbn [run].
    rewrite <- (IH (pre ++ [p]) k fuel st); [|done|lia]. f_equal. rewrite length_app. simpl. lia.
Qed.

Lemma filter_run prog args : Forall insn_wf prog →
  bpf_filter_ext kernel bc (Some prog) args =
  match run prog 0 (mk_st 0 0 args) with X_ret v => Some (inl v) | X_fault f => Some (inr f) | X_out _ _ => Some (inr F_code) end.
Proof. intros Hwf. apply (loop_run prog [] 0 (S (length prog))); [done|lia]. Qed.

(** *** The instructions in use *)

Lemma run_ret k l st : run (BPF_STMT (BPF_RET ||| BPF_K) k :: l) 0 st = X_ret k.
Proof. reflexivity. Qed.

Lemma run_ld_mem k l st v : mem_get (s_args st) k = inl v →
  run (BPF_STMT (BPF_LD ||| BPF_W ||| BPF_MEM) k :: l) 0 st = run l 0 (set_A st v).
Proof. intros E. cbn [run]. change (decode _) with (Some O_LD_MEM). cbn [bpf_exec BPF_STMT i_k]. by rewrite E. Qed.

Lemma run_ldx_mem k l st v : mem_get (s_args st) k = inl v →
  run (BPF_STMT (BPF_LDX ||| BPF_MEM) k :: l) 0 st = run l 0 (set_X st v).
Proof. intros E. cbn [run]. change (decode _) with (Some O_LDX_MEM). cbn [bpf_exec BPF_STMT i_k]. by rewrite E. Qed.

Lemma run_ld_imm k l st : run (BPF_STMT (BPF_LD ||| BPF_IMM) k :: l) 0 st = run l 0 (set_A st k).
Proof. reflexivity. Qed.

Lemma run_and k l st : run (BPF_STMT (BPF_ALU ||| BPF_AND ||| BPF_K) k :: l) 0 st = run l 0 (set_A st (s_A st &&& k)).
Proof. reflexivity. Qed.

Definition after_load (r : ld_result) (l : list bpf_insn) (st : bpf_state) : exit :=
  match r with L_ret0 => X_ret 0 | L_bad => X_fault F_packet | L_val v => run l 0 (set_A st v) end.

Lemma run_ld_abs k l st :
  run (BPF_STMT (BPF_LD ||| BPF_W ||| BPF_ABS) k :: l) 0 st = after_load (load_abs kernel (s_args st) S_W k) l st.
Proof. cbn [run]. change (decode _) with (Some (O_LD_ABS S_W)). cbn [bpf_exec BPF_STMT i_k]. by destruct (load_abs _ _ _ _). Qed.

Lemma run_ld_ind sz k l st :
  run (BPF_STMT (BPF_LD ||| size_code sz ||| BPF_IND) k :: l) 0 st = after_load (load_ind kernel (s_args st) sz (s_X st) k) l st.
Proof.
  cbn [run]. replace (decode _) with (Some (O_LD_IND sz)) by (by destruct sz).
  cbn [bpf_exec BPF_STMT i_k]. by destruct (load_ind _ _ _ _ _).
Qed.

Lemma run_jump j k jt jf l st :
  run (BPF_JUMP (BPF_JMP ||| jump_code j ||| BPF_K) k jt jf :: l) 0 st =
  run l (Z.to_nat (if jump_cond j (s_A st) k then jt else jf)) st.
Proof.
  cbn [run]. replace (decode _) with (Some (O_JMP j Src_K)) by (by destruct j).
  cbn [bpf_exec BPF_JUMP i_k i_jt i_jf]. f_equal. lia.
Qed.

Lemma run_ja k l st : run (BPF_STMT (BPF_JMP ||| BPF_JA) k :: l) 0 st = run l (Z.to_nat k) st.
Proof. cbn [run]. change (decode _) with (Some O_JA). cbn [bpf_exec BPF_STMT i_k]. f_equal. lia. Qed.

End fragments.

(** ** Resolved jumps *)

(** The fragment with its failure jumps leading to the second instruction
    behind the [n] ones that follow it. *)
Fixpoint fixl (swap : bool) (n : Z) (l : list bpf_insn) : list bpf_insn :=
  match l with
  | [] => []
  | p :: l' => fixup_insn swap (n + Z.of_nat (length l)) p :: fixl swap n l'
  end.

Lemma fixl_length swap n l : length (fixl swap n l) = length l.
Proof. induction l; simpl; congruence. Qed.

Lemma fixl_app swap n l1 l2 : fixl swap n (l1 ++ l2) = fixl swap (n + Z.of_nat (length l2)) l1 ++ fixl swap n l2.
Proof.
  induction l1 as [|p l1 IH]; [done|]. cbn [app fixl]. rewrite IH. f_equal. f_equal. cbn [length].
  rewrite length_app. lia.
Qed.

Lemma fixup_loop_eq swap l : fixup_loop swap l = if JUMP_MAGIC <=? Z.of_nat (length l) then inr E_errx else inl (fixl swap 0 l).
Proof.
  induction l as [|p l IH]; [done|]. cbn [fixup_loop fixl]. destruct (JUMP_MAGIC <=? Z.of_nat (length (p :: l))) eqn:E; [done|].
  rewrite IH. cbn [length] in E. bool_to_prop. rewrite (proj2 (Z.leb_gt _ _)) by lia. done.
Qed.

Definition no_magic (p : bpf_insn) : Prop := ∀ swap n, fixup_insn swap n p = p.

Lemma fixl_id swap n l : Forall no_magic l → fixl swap n l = l.
Proof. induction 1 as [|p l Hp _ IH]; [done|]. cbn [fixl]. by rewrite Hp, IH. Qed.

Lemma stmt_no_magic code k : BPF_CLASS code ≠ BPF_JMP → no_magic (BPF_STMT code k).
Proof. intros Hc swap n. unfold fixup_insn. cbn [BPF_STMT i_code]. by rewrite (proj2 (Z.eqb_neq _ _) Hc). Qed.

(** Once resolved, an instruction stays as it is. *)
Lemma fixup_no_magic swap n p : n ≠ JUMP_MAGIC → no_magic (fixup_insn swap n p).
Proof.
  intros Hn swap' n'.
  set (jt := if i_jt p =? JUMP_MAGIC then n else i_jt p). set (jf := if i_jf p =? JUMP_MAGIC then n else i_jf p).
  assert (jt =? JUMP_MAGIC = false) as Ht by (subst jt; case_if; [by apply Z.eqb_neq|done]).
  assert (jf =? JUMP_MAGIC = false) as Hf by (subst jf; case_if; [by apply Z.eqb_neq|done]).
  remember (fixup_insn swap n p) as q eqn:Eq. unfold fixup_insn in Eq. fold jt jf in Eq.
  destruct (BPF_CLASS (i_code p) =? BPF_JMP) eqn:Ec; cbn [negb] in Eq.
  2:{ subst q. unfold fixup_insn. by rewrite Ec. }
  destruct (BPF_OP (i_code p) =? BPF_JA) eqn:Eo.
  - assert ((if swap then 0 else n) =? JUMP_MAGIC = false) as Hk by (destruct swap; [done|by apply Z.eqb_neq]).
    unfold fixup_insn. destruct (i_k p =? JUMP_MAGIC) eqn:Ek; subst q; cbn [i_code i_k]; rewrite Ec, Eo; cbn [negb]; [by rewrite Hk|by rewrite Ek].
  - unfold fixup_insn. destruct (_ && swap); subst q; cbn [i_code i_jt i_jf i_k]; rewrite Ec, Eo, ?Ht, ?Hf; done.
Qed.

Lemma fixl_no_magic swap l : Z.of_nat (length l) < JUMP_MAGIC → Forall no_magic (fixl swap 0 l).
Proof.
  induction l as [|p l IH]; intros Hl; [constructor|]. cbn [fixl]. constructor; [apply fixup_no_magic; lia|].
  apply IH. simpl in Hl. lia.
Qed.

(** ** What a fragment tests *)

(** Outcomes of a test: a packet that is too short is [None]. *)
Definition and3 (a b : option bool) : option bool := match a with Some true => b | _ => a end.
Definition or3 (a b : option bool) : option bool := match a with Some false => b | _ => a end.

(** A group: the rule fails at its end unless an alternative holds ([invert]:
    unless none does). *)
Definition group3 (invert : bool) (r : option bool) : option bool :=
  match r with Some v => if eqb v invert then None else Some true | None => None end.

Section semantics.
Context {M L C : Type} `{TL : thmap_laws npf_tblent M} `{LL : lpm_laws npf_tblent L} {CO : cdbr_ops C}.
Context (T : gmap Z (npf_table (M := M) (L := L) (C := C))) (tblset : list (option Z)).
Context (kernel : bool) (npc : npf_cache_t) (args : bpf_args) (ver hlen proto : Z).

Abbreviation bctx := (Some (npf_bpfctx T tblset npc)).
Abbreviation exec := (run kernel bctx).

(** The arguments as [npf_bpf_prepare] makes them. *)
Record prepared : Prop := {
  pr_args : args_ok bctx args;
  pr_ver : mem_get args BPF_MW_IPVER = inl ver;
  pr_hlen : mem_get args BPF_MW_L4OFF = inl hlen;
  pr_proto : mem_get args BPF_MW_L4PROTO = inl proto;
}.

(** Words of the packet and fields of the layer 4 header. *)
Definition ld_val (r : ld_result) : option Z := match r with L_val v => Some v | _ => None end.
Definition word_at (k : Z) : option Z := ld_val (load_abs kernel args S_W k).
Definition l4_at (sz : size) (k : Z) : option Z := ld_val (load_ind kernel args sz hlen k).

(** The states between blocks; [x]: the index register holds the offset of
    the layer 4 header. *)
Definition sok (x : bool) (st : bpf_state) : Prop := s_args st = args ∧ (x = true → s_X st = hlen).

(** The fragment computes [r].  Its failure jumps lead to the [n + 1]th
    instruction behind it; in a group it is the success that does. *)
Definition sem (swap : bool) (b : list bpf_insn) (x x' : bool) (r : option bool) : Prop :=
  ∀ n st, sok x st →
    match r with
    | None => exec (fixl swap (Z.of_nat n) b) 0 st = X_ret 0
    | Some v => ∃ st', exec (fixl swap (Z.of_nat n) b) 0 st = X_out (if eqb v swap then S n else 0) st' ∧
                  (v || swap = true → sok x' st')
    end.

(** Code without tests. *)
Definition straight (s : list bpf_insn) (x x' : bool) : Prop :=
  Forall no_magic s ∧ ∀ st, sok x st → ∃ st', exec s 0 st = X_out 0 st' ∧ sok x' st'.

Lemma straight_nil x : straight [] x x.
Proof. split; [constructor|]. intros st Hs. by exists st. Qed.

Lemma straight_app s1 s2 x x' x'' : straight s1 x x' → straight s2 x' x'' → straight (s1 ++ s2) x x''.
Proof.
  intros [H1 R1] [H2 R2]. split; [by apply Forall_app|]. intros st Hs. destruct (R1 st Hs) as (st' & E & Hs').
  rewrite run_app, E. eauto.
Qed.

Lemma sem_straight_l swap s b x x' x'' r : straight s x x' → sem swap b x' x'' r → sem swap (s ++ b) x x'' r.
Proof.
  intros [Hm R] Hb n st Hs. destruct (R st Hs) as (st' & E & Hs'). rewrite fixl_app, (fixl_id _ _ s Hm), run_app, E.
  apply Hb, Hs'.
Qed.

Lemma sem_straight_r s b x x' x'' r : sem false b x x' r → straight s x' x'' → sem false (b ++ s) x x'' r.
Proof.
  intros Hb [Hm R] n st Hs. rewrite fixl_app, run_app, (fixl_id _ _ s Hm).
  specialize (Hb (n + length s)%nat st Hs). rewrite Nat2Z.inj_add in Hb. destruct r as [[]|]; [| |by rewrite Hb].
  - destruct Hb as (st' & E & Hs'). rewrite E. simpl. destruct (R st' (Hs' eq_refl)) as (st'' & E' & Hs''). eauto.
  - destruct Hb as (st' & E & _). rewrite E. simpl. exists st'. split; [|done].
    replace (S (n + length s)) with (length s + S n)%nat by lia. apply run_skip.
Qed.

Lemma sem_and b1 b2 x x' x'' r1 r2 : sem false b1 x x' r1 → sem false b2 x' x'' r2 → sem false (b1 ++ b2) x x'' (and3 r1 r2).
Proof.
  intros H1 H2 n st Hs. rewrite fixl_app, run_app. specialize (H1 (n + length b2)%nat st Hs). rewrite Nat2Z.inj_add in H1.
  destruct r1 as [[]|]; cbn [and3]; [| |by rewrite H1].
  - destruct H1 as (st' & E & Hs'). rewrite E. simpl. apply H2, Hs'. done.
  - destruct H1 as (st' & E & _). rewrite E. simpl. exists st'. split; [|done].
    replace (S (n + length b2)) with (length (fixl false (Z.of_nat n) b2) + S n)%nat by (rewrite fixl_length; lia).
    apply run_skip.
Qed.

Lemma sem_or b1 b2 x x' r1 r2 : sem true b1 x x' r1 → sem true b2 x' x' r2 → sem true (b1 ++ b2) x x' (or3 r1 r2).
Proof.
  intros H1 H2 n st Hs. rewrite fixl_app, run_app. specialize (H1 (n + length b2)%nat st Hs). rewrite Nat2Z.inj_add in H1.
  destruct r1 as [[]|]; cbn [or3]; [| |by rewrite H1].
  - destruct H1 as (st' & E & Hs'). rewrite E. simpl. exists st'. split; [|by auto].
    replace (S (n + length b2)) with (length (fixl true (Z.of_nat n) b2) + S n)%nat by (rewrite fixl_length; lia).
    apply run_skip.
  - destruct H1 as (st' & E & Hs'). rewrite E. simpl. apply H2, Hs'. done.
Qed.

(** The end of a group. *)
Definition group_code (invert : bool) (g : list bpf_insn) : list bpf_insn :=
  fixl true 0 g ++ (if invert then [BPF_STMT (BPF_JMP ||| BPF_JA) 1] else []) ++ [BPF_STMT (BPF_RET ||| BPF_K) NPF_BPF_FAILURE].

Lemma ja_no_magic k : k ≠ JUMP_MAGIC → no_magic (BPF_STMT (BPF_JMP ||| BPF_JA) k).
Proof.
  intros Hk swap n. unfold fixup_insn. cbn [BPF_STMT i_code i_k]. rewrite (proj2 (Z.eqb_neq _ _) Hk).
  reflexivity.
Qed.

Lemma group_no_magic invert g : Z.of_nat (length g) < JUMP_MAGIC → Forall no_magic (group_code invert g).
Proof.
  intros Hg. apply Forall_app. split; [by apply fixl_no_magic|]. apply Forall_app. split.
  - destruct invert; [|constructor]. constructor; [by apply ja_no_magic|constructor].
  - constructor; [by apply stmt_no_magic|constructor].
Qed.

Lemma sem_group invert g x x' r : Z.of_nat (length g) < JUMP_MAGIC → sem true g x x' r →
  sem false (group_code invert g) x x' (group3 invert r).
Proof.
  intros Hl Hg n st Hs. rewrite (fixl_id _ _ _ (group_no_magic invert g Hl)). unfold group_code. rewrite run_app.
  specialize (Hg 0%nat st Hs). change (Z.of_nat 0) with 0 in Hg. destruct r as [v|]; [|by rewrite Hg].
  destruct Hg as (st' & E & Hs'). rewrite E.
  destruct v, invert; cbn [eqb group3]; try done; exists st'; (split; [done|]); intros _; apply Hs'; done.
Qed.

(** *** Comparisons *)

(** The code puts a value in A. *)
Definition loads (s : list bpf_insn) (x x' : bool) (rd : option Z) : Prop :=
  Forall no_magic s ∧ ∀ st, sok x st →
    match rd with
    | None => exec s 0 st = X_ret 0
    | Some v => ∃ st', exec s 0 st = X_out 0 st' ∧ s_A st' = v ∧ sok x' st'
    end.

Lemma run_cmp swap j k n st :
  exec (fixl swap (Z.of_nat n) [BPF_JUMP (BPF_JMP ||| jump_code j ||| BPF_K) k 0 JUMP_MAGIC]) 0 st =
  X_out (if eqb (jump_cond j (s_A st) k) swap then S n else 0) st.
Proof.
  cbn [fixl length]. assert (fixup_insn swap (Z.of_nat n + Z.of_nat 1) (BPF_JUMP (BPF_JMP ||| jump_code j ||| BPF_K) k 0 JUMP_MAGIC) =
    BPF_JUMP (BPF_JMP ||| jump_code j ||| BPF_K) k (if swap then Z.of_nat (S n) else 0) (if swap then 0 else Z.of_nat (S n))) as ->.
  { replace (Z.of_nat n + Z.of_nat 1) with (Z.of_nat (S n)) by lia. by destruct j, swap. }
  rewrite run_jump. destruct (jump_cond _ _ _), swap; cbn [eqb]; rewrite ?Nat2Z.id; done.
Qed.

(** The comparison with 0 that succeeds on other values. *)
Lemma run_cmp_not0 swap n st :
  exec (fixl swap (Z.of_nat n) [BPF_JUMP (BPF_JMP ||| BPF_JEQ ||| BPF_K) 0 JUMP_MAGIC 0]) 0 st =
  X_out (if eqb (negb (s_A st =? 0)) swap then S n else 0) st.
Proof.
  cbn [fixl length]. assert (fixup_insn swap (Z.of_nat n + Z.of_nat 1) (BPF_JUMP (BPF_JMP ||| BPF_JEQ ||| BPF_K) 0 JUMP_MAGIC 0) =
    BPF_JUMP (BPF_JMP ||| jump_code J_EQ ||| BPF_K) 0 (if swap then 0 else Z.of_nat (S n)) (if swap then Z.of_nat (S n) else 0)) as ->.
  { replace (Z.of_nat n + Z.of_nat 1) with (Z.of_nat (S n)) by lia. by destruct swap. }
  rewrite run_jump. cbn [jump_cond]. destruct (s_A st =? 0), swap; cbn [eqb negb]; rewrite ?Nat2Z.id; done.
Qed.

Lemma sem_cmp swap s x x' rd j k : loads s x x' rd →
  sem swap (s ++ [BPF_JUMP (BPF_JMP ||| jump_code j ||| BPF_K) k 0 JUMP_MAGIC]) x x' ((λ v, jump_cond j v k) <$> rd).
Proof.
  intros [Hm R] n st Hs. rewrite fixl_app, (fixl_id _ _ s Hm), run_app. specialize (R st Hs).
  destruct rd as [v|]; cbn [fmap option_fmap option_map]; [|by rewrite R].
  destruct R as (st' & E & <- & Hs'). rewrite E, run_cmp. eauto.
Qed.

Lemma sem_cmp_not0 swap s x x' rd : loads s x x' rd →
  sem swap (s ++ [BPF_JUMP (BPF_JMP ||| BPF_JEQ ||| BPF_K) 0 JUMP_MAGIC 0]) x x' ((λ v, negb (v =? 0)) <$> rd).
Proof.
  intros [Hm R] n st Hs. rewrite fixl_app, (fixl_id _ _ s Hm), run_app. specialize (R st Hs).
  destruct rd as [v|]; cbn [fmap option_fmap option_map]; [|by rewrite R].
  destruct R as (st' & E & <- & Hs'). rewrite E, run_cmp_not0. eauto.
Qed.

Lemma loads_and s x x' rd m : loads s x x' rd →
  loads (s ++ [BPF_STMT (BPF_ALU ||| BPF_AND ||| BPF_K) m]) x x' ((λ v, v &&& m) <$> rd).
Proof.
  intros [Hm R]. split; [apply Forall_app; split; [done|constructor; [by apply stmt_no_magic|constructor]]|].
  intros st Hs. specialize (R st Hs). rewrite run_app. destruct rd as [v|]; cbn [fmap option_fmap option_map]; [|by rewrite R].
  destruct R as (st' & E & <- & Hs'). rewrite E, run_and. by exists (set_A st' (s_A st' &&& m)).
Qed.

Context (P : prepared).

Lemma loads_mem k v x : mem_get args k = inl v → loads [BPF_STMT (BPF_LD ||| BPF_W ||| BPF_MEM) k] x x (Some v).
Proof.
  intros E. split; [constructor; [by apply stmt_no_magic|constructor]|]. intros st [Ha Hx].
  exists (set_A st v). rewrite (run_ld_mem kernel _ k [] st v) by (by rewrite Ha). done.
Qed.

Lemma loads_word k x : 0 <= k → loads [BPF_STMT (BPF_LD ||| BPF_W ||| BPF_ABS) k] x x (word_at k).
Proof.
  intros Hk. split; [constructor; [by apply stmt_no_magic|constructor]|]. intros st [Ha Hx].
  rewrite run_ld_abs, Ha. unfold word_at. pose proof (load_abs_ok kernel _ args S_W k (pr_args P) Hk) as Hok.
  destruct (load_abs _ _ _ _) as [|v|]; [done| |done]. by exists (set_A st v).
Qed.

Lemma loads_l4 sz k : loads [BPF_STMT (BPF_LD ||| size_code sz ||| BPF_IND) k] true true (l4_at sz k).
Proof.
  split; [constructor; [apply stmt_no_magic; by destruct sz|constructor]|]. intros st [Ha Hx].
  rewrite run_ld_ind, Ha, Hx by done. unfold l4_at. pose proof (load_ind_ok kernel _ args sz hlen k (pr_args P)) as Hok.
  destruct (load_ind _ _ _ _ _) as [|v|]; [done| |done]. by exists (set_A st v).
Qed.

Lemma straight_ldx x : straight [BPF_STMT (BPF_LDX ||| BPF_MEM) BPF_MW_L4OFF] x true.
Proof.
  split; [constructor; [by apply stmt_no_magic|constructor]|]. intros st [Ha Hx].
  exists (set_X st hlen). rewrite (run_ldx_mem kernel _ _ [] st hlen) by (rewrite Ha; apply P). done.
Qed.

(** The lookup that the coprocessor does. *)
Definition table_test (src : bool) (tid : Z) : bool :=
  negb (fst (npf_cop_table T tblset npc args ((if src then SRC_FLAG_BIT else 0) ||| tid)) =? 0).

Lemma loads_table x A : loads [BPF_STMT (BPF_LD ||| BPF_IMM) A; BPF_STMT (BPF_MISC ||| BPF_COP) NPF_COP_TABLE] x x
  (Some (fst (npf_cop_table T tblset npc args A))).
Proof.
  split; [repeat (constructor; [by apply stmt_no_magic|]); constructor|]. intros st [Ha Hx].
  assert (npf_cop_table T tblset npc args A = (fst (npf_cop_table T tblset npc args A), args)) as E.
  { unfold npf_cop_table. case_if; [done|]. by destruct (_ ≫= _). }
  exists (mk_st (fst (npf_cop_table T tblset npc args A)) (s_X st) args). rewrite run_ld_imm. cbn [run].
  change (decode _) with (Some O_COP). cbn [bpf_exec BPF_STMT i_k]. unfold cop_call.
  change (NPF_COP_TABLE <? nfuncs _) with true. cbn [set_A s_args s_A s_X].
  change (default [] (copfuncs _) !! Z.to_nat NPF_COP_TABLE) with (Some (npf_cop_table T tblset npc)). rewrite Ha, E. done.
Qed.

(** *** The blocks *)

Definition ipver_ok (af : Z) : bool :=
  if af =? AF_INET then ver =? 4 else if af =? AF_INET6 then ver =? 6 else negb (ver =? 0).

Lemma sem_ipver swap x af v : af_version af = inl v → sem swap (ipver_block v) x x (Some (ipver_ok af)).
Proof.
  intros E. unfold ipver_block. change [?a; ?b] with ([a] ++ [b]). pose proof (loads_mem _ _ x (pr_ver P)) as Hl.
  revert E. unfold af_version, ipver_ok. destruct (af =? AF_INET); [intros [= <-]; exact (sem_cmp swap _ x x _ J_EQ 4 Hl)|].
  destruct (af =? AF_INET6); [intros [= <-]; exact (sem_cmp swap _ x x _ J_EQ 6 Hl)|].
  destruct (af =? AF_UNSPEC); [|done]. intros [= <-]. exact (sem_cmp_not0 swap _ x x _ Hl).
Qed.

Definition proto_block (p : Z) : list bpf_insn :=
  [BPF_STMT (BPF_LD ||| BPF_W ||| BPF_MEM) BPF_MW_L4PROTO; BPF_JUMP (BPF_JMP ||| BPF_JEQ ||| BPF_K) p 0 JUMP_MAGIC].

Lemma sem_proto swap x p : sem swap (proto_block p) x x (Some (proto =? p)).
Proof. exact (sem_cmp swap [_] x x _ J_EQ p (loads_mem _ _ x (pr_proto P))). Qed.

(** One word of an address against the first [length] bits. *)
Definition word_mask (length : Z) : Z := if 32 <=? length then 0 else u32 (0xffffffff <<< (32 - length)).
Definition next_length (length : Z) : Z := if 32 <=? length then length - 32 else 0.

Definition word_block (off length word : Z) : list bpf_insn :=
  [BPF_STMT (BPF_LD ||| BPF_W ||| BPF_ABS) off] ++
  (if negb (word_mask length =? 0) then [BPF_STMT (BPF_ALU ||| BPF_AND ||| BPF_K) (word_mask length)] else []) ++
  [BPF_JUMP (BPF_JMP ||| BPF_JEQ ||| BPF_K) word 0 JUMP_MAGIC].

Definition word_test (off length word : Z) : option bool :=
  (λ v, (if word_mask length =? 0 then v else v &&& word_mask length) =? word) <$> word_at off.

Lemma sem_word swap x off length word : 0 <= off → sem swap (word_block off length word) x x (word_test off length word).
Proof.
  intros Ho. pose proof (loads_word off x Ho) as Hl. unfold word_block, word_test.
  destruct (word_mask length =? 0); cbn [negb]; [exact (sem_cmp swap _ x x _ J_EQ word Hl)|].
  rewrite app_assoc. pose proof (sem_cmp swap _ x x _ J_EQ word (loads_and _ x x _ (word_mask length) Hl)) as Hc.
  rewrite <- option_fmap_compose in Hc. exact Hc.
Qed.

(** The words of an address that the mask covers. *)
Fixpoint cidr_block (nwords : nat) (awords : list Z) (off length : Z) : list bpf_insn :=
  match nwords with
  | O => []
  | S n =>
      if length =? 0 then [] else
      word_block off length (ntohl (default 0 (head awords))) ++ cidr_block n (tail awords) (off + 4) (next_length length)
  end.

Fixpoint cidr_test (nwords : nat) (awords : list Z) (off length : Z) : option bool :=
  match nwords with
  | O => Some true
  | S n =>
      if length =? 0 then Some true else
      and3 (word_test off length (ntohl (default 0 (head awords)))) (cidr_test n (tail awords) (off + 4) (next_length length))
  end.

Lemma sem_true_nil x : sem false [] x x (Some true).
Proof. intros n st Hs. by exists st. Qed.

Lemma sem_cidr n x awords off length : 0 <= off → sem false (cidr_block n awords off length) x x (cidr_test n awords off length).
Proof.
  revert awords off length. induction n as [|n IH]; intros awords off length Ho; [apply sem_true_nil|].
  cbn [cidr_block cidr_test]. case_if; [apply sem_true_nil|].
  apply (sem_and _ _ x x x); [by apply sem_word|apply IH; lia].
Qed.

(** One word is a single comparison. *)
Definition one_word (nwords : nat) (length : Z) : Prop := length ≠ 0 ∧ (nwords = 1%nat ∨ (∃ n, nwords = S n) ∧ 0 < length <= 32).

Lemma sem_cidr_word n swap x awords off length : 0 <= off → one_word n length →
  sem swap (cidr_block n awords off length) x x (cidr_test n awords off length).
Proof.
  intros Ho [Hz Hn].
  assert (∃ m, n = S m ∧ cidr_block m (tail awords) (off + 4) (next_length length) = [] ∧
            cidr_test m (tail awords) (off + 4) (next_length length) = Some true) as (m & -> & Eb & Et).
  { destruct Hn as [->|[[m ->] Hl]]; [by exists O|]. exists m. split; [done|].
    assert (next_length length = 0) as -> by (unfold next_length; case_if; bool_to_prop; lia). by destruct m. }
  cbn [cidr_block cidr_test]. rewrite (proj2 (Z.eqb_neq _ _) Hz), Eb, Et, app_nil_r.
  assert (∀ r, and3 r (Some true) = r) as -> by (by intros [[]|]). by apply sem_word.
Qed.

(** Ports. *)
Definition ports_block (off from to : Z) : list bpf_insn :=
  [BPF_STMT (BPF_LD ||| BPF_H ||| BPF_IND) off] ++ port_test from to.

Definition ports_test (off from to : Z) : option bool := (λ p, (from <=? p) && (p <=? to)) <$> l4_at S_H off.

Lemma sem_port swap off p : sem swap (ports_block off p p) true true (ports_test off p p).
Proof.
  unfold ports_block, port_test, ports_test. rewrite Z.eqb_refl.
  pose proof (sem_cmp swap _ true true _ J_EQ p (loads_l4 S_H off)) as Hc.
  assert (((λ v, (p <=? v) && (v <=? p)) <$> l4_at S_H off) = ((λ v, jump_cond J_EQ v p) <$> l4_at S_H off)) as ->; [|exact Hc].
  destruct (l4_at S_H off) as [v|]; [|done]. cbn [fmap option_fmap option_map jump_cond]. f_equal.
  destruct (Z.eqb_spec v p) as [->|Hn]; [by rewrite Z.leb_refl|].
  apply andb_false_iff. rewrite !Z.leb_gt. lia.
Qed.

Lemma sem_ports off from to : sem false (ports_block off from to) true true (ports_test off from to).
Proof.
  destruct (decide (from = to)) as [->|Hne]; [apply sem_port|].
  unfold ports_block, port_test, ports_test. rewrite (proj2 (Z.eqb_neq _ _) Hne).
  intros n st Hs. destruct (loads_l4 S_H off) as [Hm R]. specialize (R st Hs). rewrite fixl_app, (fixl_id _ _ _ Hm), run_app.
  destruct (l4_at S_H off) as [v|]; cbn [fmap option_fmap option_map]; [|by rewrite R].
  destruct R as (st' & E & <- & Hs'). rewrite E. cbn [fixl length].
  change (fixup_insn false _ (BPF_JUMP (BPF_JMP ||| BPF_JGE ||| BPF_K) from 0 1)) with (BPF_JUMP (BPF_JMP ||| jump_code J_GE ||| BPF_K) from 0 1).
  change (fixup_insn false _ (BPF_JUMP (BPF_JMP ||| BPF_JGT ||| BPF_K) to 0 1)) with (BPF_JUMP (BPF_JMP ||| jump_code J_GT ||| BPF_K) to 0 1).
  change (fixup_insn false ?m (BPF_STMT (BPF_JMP ||| BPF_JA) JUMP_MAGIC)) with (BPF_STMT (BPF_JMP ||| BPF_JA) m).
  exists st'. split; [|done]. rewrite run_jump. cbn [jump_cond]. destruct (from <=? s_A st'); cbn [andb].
  - change (Z.to_nat 0) with 0%nat. rewrite run_jump. cbn [jump_cond]. rewrite Z.leb_antisym.
    destruct (to <? s_A st'); cbn [negb eqb]; [|done]. change (Z.to_nat 0) with 0%nat. rewrite run_ja. cbn [run]. f_equal. lia.
  - change (Z.to_nat 1) with 1%nat. rewrite run_S, run_ja. cbn [run eqb]. f_equal. lia.
Qed.

(** A test of one byte of the layer 4 header. *)
Definition byte_block (off mask v : Z) : list bpf_insn :=
  [BPF_STMT (BPF_LD ||| BPF_B ||| BPF_IND) off] ++
  (if negb (mask =? v) then [BPF_STMT (BPF_ALU ||| BPF_AND ||| BPF_K) mask] else []) ++
  [BPF_JUMP (BPF_JMP ||| BPF_JEQ ||| BPF_K) v 0 JUMP_MAGIC].

Definition byte_test (off mask v : Z) : option bool :=
  (λ b, (if mask =? v then b else b &&& mask) =? v) <$> l4_at S_B off.

Lemma sem_byte swap off mask v : sem swap (byte_block off mask v) true true (byte_test off mask v).
Proof.
  pose proof (loads_l4 S_B off) as Hl. unfold byte_block, byte_test.
  destruct (mask =? v); cbn [negb]; [exact (sem_cmp swap _ true true _ J_EQ v Hl)|].
  rewrite app_assoc. pose proof (sem_cmp swap _ true true _ J_EQ v (loads_and _ true true _ mask Hl)) as Hc.
  rewrite <- option_fmap_compose in Hc. exact Hc.
Qed.

(** Code that is run for TCP packets only. *)
Lemma sem_if_tcp b x r : Z.of_nat (length b) < JUMP_MAGIC → sem false b x x r →
  sem false ([BPF_STMT (BPF_LD ||| BPF_W ||| BPF_MEM) BPF_MW_L4PROTO;
              BPF_JUMP (BPF_JMP ||| BPF_JEQ ||| BPF_K) IPPROTO_TCP 0 (Z.of_nat (length b))] ++ b) x x
    (if proto =? IPPROTO_TCP then r else Some true).
Proof.
  intros Hl Hb n st Hs. rewrite fixl_app. cbn [fixl length].
  change (fixup_insn false _ (BPF_STMT (BPF_LD ||| BPF_W ||| BPF_MEM) ?k)) with (BPF_STMT (BPF_LD ||| BPF_W ||| BPF_MEM) k).
  assert (∀ m, fixup_insn false m (BPF_JUMP (BPF_JMP ||| BPF_JEQ ||| BPF_K) IPPROTO_TCP 0 (Z.of_nat (length b))) =
               BPF_JUMP (BPF_JMP ||| jump_code J_EQ ||| BPF_K) IPPROTO_TCP 0 (Z.of_nat (length b))) as ->.
  { intros m. unfold fixup_insn. cbn [BPF_JUMP i_code i_jt i_jf]. rewrite (proj2 (Z.eqb_neq (Z.of_nat (length b)) _)) by lia. reflexivity. }
  cbn [app]. destruct Hs as [Ha Hx]. rewrite (run_ld_mem kernel _ _ _ st proto) by (rewrite Ha; apply P).
  rewrite run_jump. cbn [jump_cond s_A set_A]. destruct (proto =? IPPROTO_TCP).
  - apply Hb. done.
  - rewrite Nat2Z.id. exists (set_A st proto). split; [|done].
    replace (length b) with (length (fixl false (Z.of_nat n) b) + 0)%nat by (rewrite fixl_length; lia). apply run_skip.
Qed.

Definition table_block (src : bool) (tid : Z) : list bpf_insn :=
  [BPF_STMT (BPF_LD ||| BPF_IMM) ((if src then SRC_FLAG_BIT else 0) ||| tid);
   BPF_STMT (BPF_MISC ||| BPF_COP) NPF_COP_TABLE; BPF_JUMP (BPF_JMP ||| BPF_JEQ ||| BPF_K) 0 JUMP_MAGIC 0].

Lemma sem_table swap x src tid : sem swap (table_block src tid) x x (Some (table_test src tid)).
Proof. exact (sem_cmp_not0 swap [_; _] x x _ (loads_table x _)). Qed.


(** ** Contexts *)

Definition acc (r : option bool) : bool := match r with Some true => true | _ => false end.

Lemma acc_and a b : acc (and3 a b) = acc a && acc b.
Proof. by destruct a as [[]|]. Qed.

(** The code and the marks fit the memory that is allocated for them. *)
Definition fits (c : npf_bpf) : Prop :=
  8 * bf_len c <= b_alen c ∧ 4 * Z.of_nat (length (b_marks c)) <= b_malen c.

Lemma alloc_round x : 0 <= x → x <= ALLOC_ROUND x.
Proof.
  intros Hx. unfold ALLOC_ROUND. change (Z.lnot 63) with (Z.lnot (Z.ones 6)). rewrite <- Z.ldiff_land, Z.ldiff_ones_r by lia.
  rewrite Z.shiftr_div_pow2, Z.shiftl_mul_pow2 by lia. change (2 ^ 6) with 64. pose proof (Z.div_mod (x + 63) 64 ltac:(lia)).
  pose proof (Z.mod_pos_bound (x + 63) 64 ltac:(lia)). lia.
Qed.

Lemma fits_insns c l : fits c → fits (add_insns c l).
Proof.
  intros [H1 H2]. unfold fits, add_insns. set (req := ALLOC_ROUND _).
  assert (8 * bf_len c + 8 * Z.of_nat (length l) <= req) by (etrans; [|apply alloc_round; unfold bf_len; lia]; lia).
  unfold bf_len in *. destruct (b_alen c <? req) eqn:E; bool_to_prop; cbn [set_prog set_alen b_prog b_alen b_marks b_malen]; rewrite length_app; lia.
Qed.

Lemma fits_marks c m c' : fits c → add_bmarks c m = inl c' → fits c'.
Proof.
  intros [H1 H2]. unfold fits, add_bmarks. case_if; [done|]. intros [= <-]. split; [done|]. cbn. rewrite length_app.
  set (req := ALLOC_ROUND _). assert (4 * Z.of_nat (length (b_marks c)) + 4 * Z.of_nat (length m) <= req) by (apply alloc_round; lia).
  case_if; bool_to_prop; lia.
Qed.

(** Code [b], [k] blocks and the flags [f] are added, and nothing else of what
    matters to the code. *)
Record emit (c : npf_bpf) (b : list bpf_insn) (k f : Z) (c' : npf_bpf) : Prop := {
  em_prog : b_prog c' = b_prog c ++ b;
  em_nblocks : b_nblocks c' = b_nblocks c + k;
  em_flags : b_flags c' = b_flags c ||| f;
  em_af : b_af c' = b_af c;
  em_ingroup : b_ingroup c' = b_ingroup c;
  em_invert : b_invert c' = b_invert c;
  em_goff : b_goff c' = b_goff c;
  em_gblock : b_gblock c' = b_gblock c;
  em_fits : fits c → fits c';
}.

Lemma emit_app c b1 k1 f1 c1 b2 k2 f2 c2 : emit c b1 k1 f1 c1 → emit c1 b2 k2 f2 c2 → emit c (b1 ++ b2) (k1 + k2) (f1 ||| f2) c2.
Proof.
  intros [] []. split; try congruence.
  - rewrite app_assoc. congruence.
  - lia.
  - rewrite Z.lor_assoc. congruence.
  - auto.
Qed.

Lemma emit_insns c l : emit c l 0 0 (add_insns c l).
Proof.
  pose proof (fits_insns c l) as Hf. unfold add_insns in *.
  destruct (b_alen c <? _); split; cbn; rewrite ?Z.lor_0_r, ?Z.add_0_r; done.
Qed.

Lemma emit_flags c f : emit c [] 0 f (or_bflags c f).
Proof. split; cbn; rewrite ?app_nil_r, ?Z.add_0_r; done. Qed.

Lemma emit_refl c : emit c [] 0 0 c.
Proof. split; rewrite ?app_nil_r, ?Z.lor_0_r, ?Z.add_0_r; done. Qed.

Lemma emit_marks c m c' : add_bmarks c m = inl c' → emit c [] 0 0 c'.
Proof.
  intros Hm. assert (fits c → fits c') by (intros; by eapply fits_marks). revert Hm. unfold add_bmarks. case_if; [done|]. intros [= <-].
  split; cbn; rewrite ?app_nil_r, ?Z.lor_0_r, ?Z.add_0_r; done.
Qed.

Lemma emit_done c m c' : done_block c m = inl c' → emit c [] 1 0 c'.
Proof.
  intros Hd. unfold done_block in Hd. apply cbind_inl in Hd as (c1 & Hm & [= <-]). apply emit_marks in Hm as [].
  split; try done. cbn. lia.
Qed.

Lemma emit_invert c opts c' : bm_invert_checkpoint c opts = inl c' → emit c [] 0 0 c'.
Proof.
  unfold bm_invert_checkpoint. destruct (negb _ && b_invert c); [|intros [= <-]; apply emit_refl].
  assert (emit c [] 0 0 (or_invflags c (opts &&& (MATCH_SRC ||| MATCH_DST)))) as Hi
    by (split; cbn; rewrite ?app_nil_r, ?Z.lor_0_r, ?Z.add_0_r; done).
  destruct (negb (_ =? 0)); [|intros [= <-]; done]. intros Hm%emit_marks. exact (emit_app _ _ _ _ _ _ _ _ _ Hi Hm).
Qed.

(** Nothing between two emissions. *)
Lemma emit_then c b k f c1 b' k' f' c2 : emit c b k f c1 → emit c1 [] k' f' c2 →
  b' = b → emit c b' (k + k') (f ||| f') c2.
Proof. intros H1 H2 ->. rewrite <- (app_nil_r b). by eapply emit_app. Qed.

Lemma emit_cidr n c awords off length :
  emit c (cidr_block n awords off length) 0 0 (cidr_loop n c awords off length).
Proof.
  revert c awords off length. induction n as [|n IH]; intros c awords off length; [apply emit_refl|].
  cbn [cidr_block cidr_loop]. case_if; [apply emit_refl|]. fold (word_mask length). fold (next_length length).
  eapply (emit_app _ _ 0 0 _ _ 0 0); [|apply IH]. unfold word_block.
  eapply (emit_app _ _ 0 0 _ _ 0 0); [apply emit_insns|]. eapply (emit_app _ _ 0 0 _ _ 0 0); [|apply emit_insns].
  case_if; [apply emit_insns|apply emit_refl].
Qed.

Lemma bpf_proto_emit c p c' : npfctl_bpf_proto c p = inl c' → emit c (proto_block p) 1 CHECKED_L4_PROTO c'.
Proof.
  intros Hp. unfold npfctl_bpf_proto in Hp. apply cbind_inl in Hp as (c1 & Hd & [= <-]).
  eapply (emit_then _ _ 1 0 _ _ 0); [|apply emit_flags|done].
  eapply (emit_then _ _ 0 0 _ _ 1 0); [apply emit_insns|by eapply emit_done|done].
Qed.

Lemma bpf_table_emit c opts tid c' : npfctl_bpf_table c opts tid = inl c' →
  emit c (table_block (flag opts MATCH_SRC) tid) 1 0 c'.
Proof.
  intros Hp. unfold npfctl_bpf_table in Hp. apply cbind_inl in Hp as (c1 & Hi%emit_invert & Hd%emit_done).
  eapply (emit_then _ _ 0 0 _ _ 1 0); [|exact Hd|done].
  eapply (emit_then _ _ 0 0 _ _ 0 0); [apply emit_insns|exact Hi|done].
Qed.

Lemma bpf_cidr_emit c opts af addr mask c' : npfctl_bpf_cidr c opts af addr mask = inl c' →
  ∃ maxmask off nwords c1, cidr_family af opts = inl (maxmask, off, nwords) ∧ fetch_l3 c af 0 = inl c1 ∧
    (mask ≠ 0 ∧ mask <= NPF_MAX_NETMASK ∨ mask = NPF_NO_NETMASK) ∧
    emit c1 (cidr_block nwords addr off (if mask =? NPF_NO_NETMASK then maxmask else mask)) 1 0 c'.
Proof.
  intros Hp. unfold npfctl_bpf_cidr in Hp. apply cbind_inl in Hp as (u & _ & Hp).
  apply cbind_inl in Hp as (u' & Hm%assert_inl & Hp). apply cbind_inl in Hp as ([[maxmask off] nwords] & Hf & Hp).
  apply cbind_inl in Hp as (c1 & H1 & Hp). apply cbind_inl in Hp as (c2 & Hi%emit_invert & Hd%emit_done).
  exists maxmask, off, nwords, c1. split_and!; try done.
  - apply orb_true_iff in Hm as [Hm|Hm]; bool_to_prop; auto.
  - eapply (emit_then _ _ 0 0 _ _ 1 0); [|exact Hd|done].
    eapply (emit_then _ _ 0 0 _ _ 0 0); [apply emit_cidr|exact Hi|done].
Qed.

Lemma bpf_ports_emit c opts from to c' : npfctl_bpf_ports c opts from to = inl c' →
  ∃ c1, fetch_l3 c AF_UNSPEC X_EQ_L4OFF = inl c1 ∧
    emit c1 (ports_block (if flag opts MATCH_SRC then 0 else 2) (ntohs from) (ntohs to)) 1 0 c'.
Proof.
  intros Hp. unfold npfctl_bpf_ports in Hp. apply cbind_inl in Hp as (u & _ & Hp).
  apply cbind_inl in Hp as (u' & _ & Hp). apply cbind_inl in Hp as (c1 & H1 & Hd%emit_done).
  exists c1. split; [done|]. eapply (emit_then _ _ 0 0 _ _ 1 0); [|exact Hd|done].
  eapply (emit_app _ _ 0 0 _ _ 0 0); apply emit_insns.
Qed.

(** The test of the TCP flags, for TCP packets only if the protocol was not
    checked before. *)
Definition tcpfl_block (checked : bool) (tf tf_mask : Z) : list bpf_insn :=
  (if checked then [] else
   [BPF_STMT (BPF_LD ||| BPF_W ||| BPF_MEM) BPF_MW_L4PROTO;
    BPF_JUMP (BPF_JMP ||| BPF_JEQ ||| BPF_K) IPPROTO_TCP 0 (Z.of_nat (length (byte_block 13 tf_mask tf)))]) ++
  byte_block 13 tf_mask tf.

Lemma bpf_tcpfl_emit c tf tf_mask c' : npfctl_bpf_tcpfl c tf tf_mask = inl c' →
  ∃ c1, fetch_l3 c AF_UNSPEC X_EQ_L4OFF = inl c1 ∧
    emit c1 (tcpfl_block (flag (b_flags c1) CHECKED_L4_PROTO) tf tf_mask) 1 0 c'.
Proof.
  intros Hp. unfold npfctl_bpf_tcpfl in Hp. apply cbind_inl in Hp as (c1 & H1 & Hp).
  apply cbind_inl in Hp as (c2 & H2 & Hd%emit_done). exists c1. split; [done|].
  eapply (emit_then _ _ 0 0 _ _ 1 0); [|exact Hd|done]. unfold tcpfl_block.
  eapply (emit_app _ _ 0 0 _ _ 0 0).
  - revert H2. destruct (flag _ _); cbn [negb]; [intros [= <-]; apply emit_refl|].
    intros Hq. apply cbind_inl in Hq as (u & _ & [= <-]).
    replace (if negb (tf_mask =? tf) then 3 else 2) with (Z.of_nat (length (byte_block 13 tf_mask tf))); [apply emit_insns|].
    unfold byte_block. by destruct (tf_mask =? tf).
  - unfold byte_block. eapply (emit_app _ _ 0 0 _ _ 0 0); [apply emit_insns|]. eapply (emit_app _ _ 0 0 _ _ 0 0); [|apply emit_insns].
    case_if; [apply emit_insns|apply emit_refl].
Qed.

(** Type and code, where specified. *)
Definition icmp_code (type code : Z) : list bpf_insn :=
  (if negb (type =? -1) then byte_block 0 (u32 type) (u32 type) else []) ++
  (if negb (code =? -1) then byte_block 1 (u32 code) (u32 code) else []).

Lemma icmp_block_emit c off bm v c' : icmp_block c off bm v = inl c' → emit c (byte_block off (u32 v) (u32 v)) 1 0 c'.
Proof.
  intros Hd%emit_done. unfold byte_block. rewrite Z.eqb_refl.
  eapply (emit_then _ _ 0 0 _ _ 1 0); [apply emit_insns|exact Hd|done].
Qed.

Lemma bpf_icmp_emit c type code c' : npfctl_bpf_icmp c type code = inl c' →
  ∃ c1 k, fetch_l3 c AF_UNSPEC X_EQ_L4OFF = inl c1 ∧ 0 <= k ∧ emit c1 (icmp_code type code) k 0 c'.
Proof.
  intros Hp. unfold npfctl_bpf_icmp in Hp. apply cbind_inl in Hp as (u & _ & Hp). apply cbind_inl in Hp as (u' & _ & Hp).
  apply cbind_inl in Hp as (c1 & H1 & Hp). apply cbind_inl in Hp as (c2 & H2 & H3).
  exists c1, (b2z (negb (type =? -1)) + b2z (negb (code =? -1))). split_and!; [done|unfold b2z; repeat case_if; lia|].
  unfold icmp_code. apply (emit_app _ _ _ 0 c2 _ _ 0).
  - revert H2. case_if; [apply icmp_block_emit|intros [= <-]; apply emit_refl].
  - revert H3. case_if; [apply icmp_block_emit|intros [= <-]; apply emit_refl].
Qed.

(** ** From operations to tests *)

Abbreviation Xf c := (flag (b_flags c) X_EQ_L4OFF).

(** Outside of groups: the code so far accepts the packet iff [φ]. *)
Record top (c : npf_bpf) (φ : bool) : Prop := {
  tp_ingroup : b_ingroup c = 0;
  tp_goff : b_goff c = 0;
  tp_gblock : b_gblock c = 0;
  tp_nblocks : 0 <= b_nblocks c;
  tp_sem : ∃ r, sem false (b_prog c) false (Xf c) r ∧ acc r = φ;
  tp_l3 : flag (b_flags c) FETCHED_L3 = true → φ = true → ipver_ok (b_af c) = true;
}.

(** In a group: the code before it accepts iff [φ], its [nb] blocks so far
    compute [r] ([swap]: as alternatives). *)
Record grp (swap : bool) (c : npf_bpf) (φ : bool) (nb : nat) (r : option bool) : Prop := {
  gr_ingroup : b_ingroup c = 1;
  gr_nblocks : b_nblocks c = b_gblock c + Z.of_nat nb;
  gr_gblock : 0 <= b_gblock c;
  gr_code : ∃ pre g x0, b_prog c = pre ++ g ∧ b_goff c = Z.of_nat (length pre) ∧
    (∃ r0, sem false pre false x0 r0 ∧ acc r0 = φ) ∧ sem swap g x0 (Xf c) r ∧
    (nb = O → straight g x0 (Xf c) ∧ r = Some (negb swap));
  gr_l3 : flag (b_flags c) FETCHED_L3 = true → φ = true → ipver_ok (b_af c) = true;
}.

Lemma top_create : top npfctl_bpf_create true.
Proof. split; try done. exists (Some true). split; [apply sem_true_nil|done]. Qed.

Lemma straight_sem swap g x x' : straight g x x' → sem swap g x x' (Some (negb swap)).
Proof.
  intros [Hm R] n st Hs. rewrite (fixl_id _ _ _ Hm). destruct (R st Hs) as (st' & E & Hs'). exists st'.
  split; [|done]. rewrite E. by destruct swap.
Qed.

Lemma top_emit c φ b k f c' r : top c φ → emit c b k f c' → 0 <= k → flag f FETCHED_L3 = false →
  sem false b (Xf c) (Xf c') r → top c' (φ && acc r).
Proof.
  intros [H1 H2 H3 H4 (r0 & Hs & Ha) H5] [] Hk Hf Hb. split; try congruence; [lia| |].
  - exists (and3 r0 r). rewrite em_prog0, acc_and, Ha. split; [by eapply sem_and|done].
  - rewrite em_flags0, flag_lor, Hf, orb_false_r, em_af0. intros Hl [Hφ _]%andb_true_iff. by apply H5.
Qed.

(** A block as the next alternative; only the first one sets the index
    register. *)
Lemma grp_emit swap c φ nb b k f c' r rb : grp swap c φ nb r → emit c b k f c' → 0 <= k → flag f FETCHED_L3 = false →
  (nb = O ∨ swap = true ∧ Xf c' = Xf c) → k = 1 →
  sem swap b (Xf c) (Xf c') rb → grp swap c' φ (S nb) (match nb with O => rb | _ => or3 r rb end).
Proof.
  intros [H1 H2 H3 (pre & g & x0 & Hp & Hg & Hpre & Hs & Hst) H5] [] Hk Hf Hnb -> Hb.
  split; [congruence|lia|lia| |].
  - exists pre, (g ++ b), x0. rewrite em_prog0, Hp, app_assoc. split_and!; [done|congruence|done| |done].
    destruct nb as [|nb]; [eapply sem_straight_l; [by apply Hst|done]|].
    destruct Hnb as [|[-> EX]]; [done|]. rewrite EX in Hb |- *. by apply sem_or.
  - rewrite em_flags0, flag_lor, Hf, orb_false_r, em_af0. done.
Qed.

Lemma group_enter_grp swap c φ inv c' : top c φ → npfctl_bpf_group_enter c inv = inl c' →
  grp swap c' φ 0 (Some (negb swap)) ∧ b_invert c' = inv ∧ b_flags c' = b_flags c ∧ b_af c' = b_af c.
Proof.
  intros [H1 H2 H3 H4 (r & Hs & Ha) H5] He. unfold npfctl_bpf_group_enter in He.
  apply cbind_inl in He as (u & _ & He). apply cbind_inl in He as (u' & _ & [= <-]). split; [|done].
  split; cbn; [lia|lia|done| |done]. exists (b_prog c), [], (Xf c). rewrite app_nil_r. split_and!; [done|done|by eauto| |].
  - apply straight_sem, straight_nil.
  - intros _. split; [apply straight_nil|done].
Qed.

(** What the end of a group does to the context. *)
Lemma group_exit_code c c' pre g : npfctl_bpf_group_exit c = inl c' → b_prog c = pre ++ g → b_goff c = Z.of_nat (length pre) →
  b_ingroup c' = b_ingroup c - 1 ∧ b_goff c' = 0 ∧ b_gblock c' = 0 ∧ b_nblocks c' = b_nblocks c ∧ b_flags c' = b_flags c ∧
  b_af c' = b_af c ∧ b_invert c' = b_invert c ∧
  if negb (b_invert c) && (b_nblocks c - b_gblock c <=? 1) then b_prog c' = pre ++ g
  else Z.of_nat (length g) < JUMP_MAGIC ∧ b_prog c' = pre ++ group_code (b_invert c) g.
Proof.
  intros He Hp Hg. unfold npfctl_bpf_group_exit in He. apply cbind_inl in He as (u & _ & He). cbn [set_group b_nblocks] in He.
  destruct (negb (b_invert c) && _) eqn:E; [injection He as <-; cbn; by rewrite Hp|].
  set (c1 := set_group c _ _ _ _) in He.
  set (jmp := if b_invert c then [BPF_STMT (BPF_JMP ||| BPF_JA) 1] else []).
  set (c2 := if b_invert c then _ else c1) in He.
  assert (emit c1 jmp 0 0 c2) as E2 by (subst c2 jmp; case_if; [apply emit_insns|apply emit_refl]).
  pose proof (emit_app _ _ _ _ _ _ _ _ _ E2 (emit_insns c2 [BPF_STMT (BPF_RET ||| BPF_K) NPF_BPF_FAILURE])) as [].
  apply cbind_inl in He as (c3 & Hf & [= <-]). unfold fixup_jumps in Hf. apply cbind_inl in Hf as (l & Hl & [= <-]).
  cbn in *. rewrite Z.lor_0_r in em_flags0. rewrite em_nblocks0, em_flags0, em_af0, em_ingroup0.
  rewrite em_prog0 in Hl |- *. unfold bf_len in *. rewrite Hp, Hg in Hl |- *. rewrite length_app in Hl |- *.
  rewrite Nat2Z.id, <- app_assoc, drop_app_length in Hl.
  replace (Z.to_nat (Z.of_nat (length pre + length g) - Z.of_nat (length pre))) with (length g) in Hl by lia.
  rewrite take_app_length, fixup_loop_eq in Hl. destruct (JUMP_MAGIC <=? _) eqn:Elen; [done|]. injection Hl as <-. bool_to_prop.
  split_and!; [done|done|done|lia|done|done|done|lia|].
  rewrite !Nat2Z.id, <- app_assoc, take_app_length, <- length_app, (app_assoc pre g), drop_app_length. done.
Qed.

Lemma group_exit_empty swap c φ r c' : grp swap c φ 0 r → npfctl_bpf_group_exit c = inl c' →
  top c' φ ∧ b_flags c' = b_flags c ∧ b_af c' = b_af c ∧ b_invert c' = b_invert c.
Proof.
  intros [H1 H2 H3 (pre & g & x0 & Hp & Hg & (r0 & Hpre & Ha) & Hs & Hst) H5] He.
  destruct (Hst eq_refl) as [Hstr _]. destruct (group_exit_code c c' pre g He Hp Hg) as (E1 & E2 & E3 & E4 & E5 & E6 & E7 & E8).
  split; [|done]. split; rewrite ?E5, ?E6; try lia; [|done].
  destruct (negb _ && _) eqn:Ec.
  - exists r0. rewrite E8. split; [by eapply sem_straight_r|done].
  - destruct E8 as [Hl E8]. rewrite H2, Z.add_0_r, Z.sub_diag in Ec. apply andb_false_iff in Ec as [Ec|Ec]; [|done].
    apply negb_false_iff in Ec. rewrite Ec in E8.
    exists (and3 r0 (Some true)). rewrite E8, acc_and, Ha, andb_true_r. split; [|done].
    eapply sem_and; [exact Hpre|]. apply (sem_group true g x0 _ (Some false)); [done|]. by apply (straight_sem true).
Qed.

Lemma group_exit_grp swap c φ nb r c' : grp swap c φ nb r → npfctl_bpf_group_exit c = inl c' →
  (if swap then (2 <= nb)%nat ∨ b_invert c = true else (nb <= 1)%nat ∧ b_invert c = false) →
  top c' (φ && acc (if swap then group3 (b_invert c) r else r)) ∧ b_flags c' = b_flags c ∧ b_af c' = b_af c.
Proof.
  intros [H1 H2 H3 (pre & g & x0 & Hp & Hg & (r0 & Hpre & Ha) & Hs & _) H5] He Hm.
  destruct (group_exit_code c c' pre g He Hp Hg) as (E1 & E2 & E3 & E4 & E5 & E6 & E7 & E8).
  split; [|done]. split; rewrite ?E5, ?E6; try lia.
  - destruct swap.
    + destruct (negb _ && _) eqn:Ec.
      { bool_to_prop. destruct Hm; [lia|congruence]. }
      destruct E8 as [Hl E8]. exists (and3 r0 (group3 (b_invert c) r)). rewrite E8, acc_and, Ha. split; [|done].
      eapply sem_and; [exact Hpre|]. by apply sem_group.
    + destruct Hm as [Hn Hi]. rewrite Hi in E8. rewrite (proj2 (Z.leb_le _ 1)) in E8 by lia. cbn in E8.
      exists (and3 r0 r). rewrite E8, acc_and, Ha. split; [by eapply sem_and|done].
  - intros Hf [Hφ _]%andb_true_iff. by apply H5.
Qed.

Lemma ipver_ok_unspec af : ipver_ok af = true → ipver_ok AF_UNSPEC = true.
Proof.
  unfold ipver_ok at 1. change (ipver_ok AF_UNSPEC) with (negb (ver =? 0)).
  repeat case_if; intros; bool_to_prop; apply negb_true_iff, Z.eqb_neq; lia.
Qed.

(** The flags that [fetch_l3] leaves. *)
Record fetched (c c' : npf_bpf) (fl : Z) : Prop := {
  fe_X : Xf c' = Xf c || flag fl X_EQ_L4OFF;
  fe_checked : flag (b_flags c') CHECKED_L4_PROTO = flag (b_flags c) CHECKED_L4_PROTO;
  fe_invert : b_invert c' = b_invert c;
}.

(** The block that checks the version. *)
Lemma l3_emit c φ af v c' : top c φ → af_version af = inl v →
  cbind (A := npf_bpf) (if negb (af =? 0) then add_bmarks (set_af (or_bflags (add_insns c (ipver_block v)) FETCHED_L3) af) [BM_IPVER; 1; af]
         else inl (set_af (or_bflags (add_insns c (ipver_block v)) FETCHED_L3) af)) inl = inl c' →
  top c' (φ && ipver_ok af) ∧ fetched c c' 0.
Proof.
  intros Ht Ev Hm. apply cbind_inl in Hm as (c1 & Hm & [= <-]). set (c2 := set_af _ _) in Hm.
  assert (emit c2 [] 0 0 c1) as [] by (revert Hm; case_if; [apply emit_marks|intros [= <-]; apply emit_refl]).
  destruct (emit_insns c (ipver_block v)) as [Q1 Q2 Q3 Q4 Q5 Q6 Q7 Q8 _].
  subst c2. cbn [set_af or_bflags b_prog b_nblocks b_flags b_af b_ingroup b_invert b_goff b_gblock] in *.
  rewrite Z.lor_0_r, Q3, Z.lor_0_r in em_flags0. rewrite app_nil_r, Q1 in em_prog0.
  destruct Ht as [H1 H2 H3 H4 (r & Hs & Ha) H5].
  assert (Xf c1 = Xf c) as EX by (by rewrite em_flags0, flag_lor, orb_false_r).
  split; [split; [congruence|congruence|congruence|lia| |]|split].
  - exists (and3 r (Some (ipver_ok af))). rewrite em_prog0, EX, acc_and, Ha. split; [|by destruct (ipver_ok af)].
    eapply sem_and; [exact Hs|by apply sem_ipver].
  - intros _ [_ ?]%andb_true_iff. by rewrite em_af0.
  - by rewrite EX, orb_false_r.
  - by rewrite em_flags0, flag_lor, orb_false_r.
  - congruence.
Qed.

(** No block if the version is known. *)
Lemma l3_known c φ af : (flag (b_flags c) FETCHED_L3 = true → φ = true → ipver_ok (b_af c) = true) →
  negb (flag (b_flags c) FETCHED_L3) || (negb (af =? 0) && (b_af c =? 0)) = false →
  negb (af =? 0) && negb (af =? b_af c) = false → φ && ipver_ok af = φ.
Proof.
  intros Hl He Hn. apply orb_false_iff in He as [He _]. apply negb_false_iff in He. destruct φ; [|done]. cbn [andb].
  specialize (Hl He eq_refl). apply andb_false_iff in Hn as [Hn|Hn]; bool_to_prop; subst; [by eapply ipver_ok_unspec|done].
Qed.

Lemma ldx_emit c : emit c [BPF_STMT (BPF_LDX ||| BPF_MEM) BPF_MW_L4OFF] 0 X_EQ_L4OFF
  (or_bflags (add_insns c [BPF_STMT (BPF_LDX ||| BPF_MEM) BPF_MW_L4OFF]) X_EQ_L4OFF).
Proof. eapply (emit_then _ _ 0 0 _ _ 0); [apply emit_insns|apply emit_flags|done]. Qed.

Lemma ldx_fetched c c1 fl c' : fetched c c1 0 →
  (if flag fl X_EQ_L4OFF && negb (Xf c1) then c' = or_bflags (add_insns c1 [BPF_STMT (BPF_LDX ||| BPF_MEM) BPF_MW_L4OFF]) X_EQ_L4OFF
   else c' = c1) → fetched c c' fl.
Proof.
  intros [F1 F2 F3] Hc. change (flag 0 X_EQ_L4OFF) with false in F1. rewrite orb_false_r in F1.
  destruct (flag fl X_EQ_L4OFF) eqn:Ef, (Xf c1) eqn:E1; cbn [andb negb] in Hc; subst c';
    try (split; [by rewrite ?E1, <- F1, ?orb_true_r, ?orb_false_r|done|done]).
  pose proof (ldx_emit c1) as []. split.
  - rewrite em_flags0, flag_lor, Ef, orb_true_r. by rewrite orb_true_r.
  - by rewrite em_flags0, flag_lor, orb_false_r.
  - congruence.
Qed.

Lemma fetch_l3_top c φ af fl c' : top c φ → fetch_l3 c af fl = inl c' → top c' (φ && ipver_ok af) ∧ fetched c c' fl.
Proof.
  intros Ht Hf. unfold fetch_l3 in Hf. apply cbind_inl in Hf as (v & Ev & Hf). apply cbind_inl in Hf as (c1 & H1 & H2).
  assert (top c1 (φ && ipver_ok af) ∧ fetched c c1 0) as [T1 F1].
  { rewrite (tp_ingroup _ _ Ht) in H1. cbn [Z.eqb negb cbind] in H1. destruct (_ || _) eqn:Ee.
    - eapply l3_emit; [exact Ht|exact Ev|]. revert H1. by destruct (if negb (af =? 0) then _ else _).
    - destruct (negb (af =? 0) && negb (af =? b_af c)) eqn:En; [done|]. injection H1 as <-.
      rewrite (l3_known c φ af (tp_l3 _ _ Ht) Ee En). split; [done|]. split; [by rewrite orb_false_r|done..]. }
  split; [|eapply ldx_fetched; [exact F1|]; revert H2; case_if; by intros [= <-]].
  revert H2. destruct (flag fl X_EQ_L4OFF && _) eqn:Ex; [|intros [= <-]; done]. intros [= <-].
  pose proof (top_emit _ _ _ _ _ _ (Some true) T1 (ldx_emit c1)) as Ht'. rewrite andb_true_r in Ht'.
  apply Ht'; [done|done|]. set (c2 := or_bflags _ _). assert (Xf c2 = true) as ->.
  { subst c2. rewrite (em_flags _ _ _ _ _ (ldx_emit c1)), flag_lor. apply orb_true_r. }
  apply (straight_sem false), straight_ldx.
Qed.

(** In a group, before its first block. *)
Lemma fetch_l3_grp swap c φ r af fl c' : grp swap c φ 0 r → fetch_l3 c af fl = inl c' →
  grp swap c' (φ && ipver_ok af) 0 (Some (negb swap)) ∧ fetched c c' fl.
Proof.
  intros Hg Hf. unfold fetch_l3 in Hf. apply cbind_inl in Hf as (v & Ev & Hf). apply cbind_inl in Hf as (c1 & H1 & H2).
  assert (grp swap c1 (φ && ipver_ok af) 0 (Some (negb swap)) ∧ fetched c c1 0) as [G1 F1].
  { rewrite (gr_ingroup _ _ _ _ _ Hg) in H1. cbn [Z.eqb negb] in H1. destruct (_ || _) eqn:Ee.
    - apply cbind_inl in H1 as (c2 & Hx & H1). apply cbind_inl in Hx as (u & _ & Hx).
      destruct (group_exit_empty _ _ _ _ _ Hg Hx) as (T2 & Q1 & Q2 & Q3).
      apply cbind_inl in H1 as (c3 & Hm & H1).
      destruct (l3_emit c2 φ af v c3) as [T3 [F1 F2 F3]]; [exact T2|exact Ev|by rewrite Hm|].
      destruct (group_enter_grp swap _ _ _ _ T3 H1) as (G & W1 & W2 & W3). split; [done|].
      split; rewrite ?W2, ?F1, ?F2, ?Q1; [done|done|congruence].
    - destruct (negb (af =? 0) && negb (af =? b_af c)) eqn:En; [done|]. injection H1 as <-.
      rewrite (l3_known c φ af (gr_l3 _ _ _ _ _ Hg) Ee En). split; [|split; [by rewrite orb_false_r|done..]].
      pose proof Hg as [_ _ _ (pre & g & x0 & _ & _ & _ & _ & Hz) _]. destruct (Hz eq_refl) as [_ ->]. done. }
  split; [|eapply ldx_fetched; [exact F1|]; revert H2; case_if; by intros [= <-]].
  revert H2. destruct (flag fl X_EQ_L4OFF && _) eqn:Ex; [|intros [= <-]; done]. intros [= <-].
  set (c2 := or_bflags _ _). pose proof (ldx_emit c1) as He. fold c2 in He.
  assert (Xf c2 = true) as EX by (rewrite (em_flags _ _ _ _ _ He), flag_lor; apply orb_true_r).
  destruct G1 as [G1 G2 G3 (pre & g & x0 & Hp & Hgo & Hpre & Hs & Hz) G5]. destruct He. destruct (Hz eq_refl) as [Hstr _].
  assert (straight (g ++ [BPF_STMT (BPF_LDX ||| BPF_MEM) BPF_MW_L4OFF]) x0 true) as Hst
    by (eapply straight_app; [exact Hstr|apply straight_ldx]).
  split; [congruence|lia|lia| |].
  - exists pre, (g ++ [BPF_STMT (BPF_LDX ||| BPF_MEM) BPF_MW_L4OFF]), x0. rewrite EX.
    split_and!; [by rewrite em_prog0, Hp, app_assoc|congruence|done|by apply straight_sem|done].
  - rewrite em_flags0, flag_lor, orb_false_r, em_af0. done.
Qed.

(** After it, the version and the index register are there. *)
Lemma fetch_l3_next swap c φ nb r af fl c' : grp swap c φ (S nb) r → fetch_l3 c af fl = inl c' →
  (flag fl X_EQ_L4OFF = true → Xf c = true) → c' = c ∧ φ && ipver_ok af = φ.
Proof.
  intros Hg Hf HX. unfold fetch_l3 in Hf. apply cbind_inl in Hf as (v & Ev & Hf). apply cbind_inl in Hf as (c1 & H1 & H2).
  rewrite (gr_ingroup _ _ _ _ _ Hg) in H1. cbn [Z.eqb negb] in H1. destruct (_ || _) eqn:Ee.
  - apply cbind_inl in H1 as (c2 & Hx & _). apply cbind_inl in Hx as (u & Hn%assert_inl & _).
    rewrite (gr_nblocks _ _ _ _ _ Hg) in Hn. bool_to_prop. lia.
  - destruct (negb (af =? 0) && negb (af =? b_af c)) eqn:En; [done|]. injection H1 as <-.
    split; [|by apply (l3_known c φ af (gr_l3 _ _ _ _ _ Hg))].
    revert H2. destruct (flag fl X_EQ_L4OFF); cbn [andb]; [rewrite HX by done|]; by intros [= <-].
Qed.

End semantics.

(** ** The generated code is valid *)

(** The instructions in use, with jumps of the kind [J]. *)
Inductive vinsn (J : Z → Prop) : bpf_insn → Prop :=
| v_ld_mem k : 0 <= k < NPF_BPF_NWORDS → vinsn J (BPF_STMT (BPF_LD ||| BPF_W ||| BPF_MEM) k)
| v_ldx_mem k : 0 <= k < NPF_BPF_NWORDS → vinsn J (BPF_STMT (BPF_LDX ||| BPF_MEM) k)
| v_ld_abs k : inw 32 k → vinsn J (BPF_STMT (BPF_LD ||| BPF_W ||| BPF_ABS) k)
| v_ld_ind sz k : inw 32 k → vinsn J (BPF_STMT (BPF_LD ||| size_code sz ||| BPF_IND) k)
| v_ld_imm k : inw 32 k → vinsn J (BPF_STMT (BPF_LD ||| BPF_IMM) k)
| v_and k : inw 32 k → vinsn J (BPF_STMT (BPF_ALU ||| BPF_AND ||| BPF_K) k)
| v_ret k : inw 32 k → vinsn J (BPF_STMT (BPF_RET ||| BPF_K) k)
| v_cop : vinsn J (BPF_STMT (BPF_MISC ||| BPF_COP) NPF_COP_TABLE)
| v_ja k : J k → vinsn J (BPF_STMT (BPF_JMP ||| BPF_JA) k)
| v_jmp j k jt jf : inw 32 k → J jt → J jf → vinsn J (BPF_JUMP (BPF_JMP ||| jump_code j ||| BPF_K) k jt jf).

Lemma vinsn_mono (J J' : Z → Prop) p : (∀ j, J j → J' j) → vinsn J p → vinsn J' p.
Proof. intros HJ []; constructor; auto. Qed.

(** A jump of an instruction that [after] others of its fragment follow stays
    in the fragment, or leads right behind it, or to the failure path. *)
Definition inside (after j : Z) : Prop := 0 <= j <= after.
Definition jump_ok (after j : Z) : Prop := inside after j ∨ j = JUMP_MAGIC.

Fixpoint ublock (l : list bpf_insn) : Prop :=
  match l with [] => True | p :: l => vinsn (jump_ok (Z.of_nat (length l))) p ∧ ublock l end.

(** With [n] instructions behind a resolved fragment. *)
Fixpoint vblock (n : Z) (l : list bpf_insn) : Prop :=
  match l with [] => True | p :: l => vinsn (inside (n + Z.of_nat (length l))) p ∧ vblock n l end.

Lemma ublock_app l1 l2 : ublock l1 → ublock l2 → ublock (l1 ++ l2).
Proof.
  intros H1 H2. induction l1 as [|p l1 IH]; [done|]. destruct H1 as [Hp H1]. split; [|by apply IH].
  eapply vinsn_mono; [|exact Hp]. intros j. rewrite length_app. unfold jump_ok, inside. lia.
Qed.

Lemma vblock_app n l1 l2 : vblock (n + Z.of_nat (length l2)) l1 → vblock n l2 → vblock n (l1 ++ l2).
Proof.
  intros H1 H2. induction l1 as [|p l1 IH]; [done|]. destruct H1 as [Hp H1]. split; [|by apply IH].
  eapply vinsn_mono; [|exact Hp]. intros j. rewrite length_app. unfold inside. lia.
Qed.

Lemma vblock_ublock l : vblock 0 l → ublock l.
Proof.
  induction l as [|p l IH]; [done|]. intros [Hp Hl]. split; [|by apply IH].
  eapply vinsn_mono; [|exact Hp]. intros j Hj. by left.
Qed.

Lemma fixup_valid swap n after p : vinsn (jump_ok after) p → inside after n → 0 <= after → vinsn (inside after) (fixup_insn swap n p).
Proof.
  intros Hp Hn Ha.
  assert (∀ x, jump_ok after x → inside after (if x =? JUMP_MAGIC then n else x)) as Hj.
  { intros x [Hx|Hx]; case_if; bool_to_prop; [done..|]. congruence. }
  destruct Hp as [| | |sz| | | | |k Hk|j k jt jf Hk Ht Hf];
    try (rewrite stmt_no_magic by (done || by destruct sz); by constructor).
  - unfold fixup_insn. cbn [BPF_STMT i_code i_k i_jt i_jf]. change (BPF_CLASS _ =? BPF_JMP) with true. change (BPF_OP _ =? BPF_JA) with true.
    cbn [negb]. specialize (Hj k Hk). destruct (k =? JUMP_MAGIC) eqn:Ek; [|by apply v_ja].
    apply (v_ja _ (if swap then 0 else n)). destruct swap; [unfold inside; lia|done].
  - pose proof (Hj _ Ht). pose proof (Hj _ Hf). unfold fixup_insn. cbn [BPF_JUMP i_code i_k i_jt i_jf].
    replace (BPF_CLASS _ =? BPF_JMP) with true by (by destruct j). replace (BPF_OP _ =? BPF_JA) with false by (by destruct j).
    cbn [negb]. case_if; by apply v_jmp.
Qed.

Lemma fixl_valid swap n l m : ublock l → 0 <= n < m → vblock m (fixl swap n l).
Proof.
  intros Hl Hm. induction l as [|p l IH]; [done|]. destruct Hl as [Hp Hl]. cbn [fixl]. split; [|by apply IH].
  rewrite fixl_length. apply fixup_valid; [|unfold inside; cbn [length]; lia|lia].
  eapply vinsn_mono; [|exact Hp]. intros j. unfold jump_ok, inside. lia.
Qed.

Lemma ublock_group invert g : ublock g → ublock (group_code invert g).
Proof.
  intros Hg. apply vblock_ublock. unfold group_code. apply vblock_app.
  - apply fixl_valid; [done|]. rewrite length_app. cbn [length]. lia.
  - assert (vinsn (inside 0) (BPF_STMT (BPF_RET ||| BPF_K) NPF_BPF_FAILURE)) by (apply v_ret; unfold inw, NPF_BPF_FAILURE; lia).
    destruct invert; cbn; split_and!; try done. apply v_ja. unfold inside. lia.
Qed.

(** The validator accepts such code. *)
Definition low3 (x : Z) : Prop := ∀ i, 0 <= i < 3 → Z.testbit x i = false.

Lemma low3_lor x y : low3 x → low3 y → low3 (x ||| y).
Proof. intros Hx Hy i Hi. by rewrite Z.lor_spec, Hx, Hy. Qed.

Lemma low3_mark (mem : list Z) j x : Forall low3 mem → low3 x → Forall low3 (<[j := default 0 (mem !! j) ||| x]> mem).
Proof.
  intros Hm Hx. apply Forall_insert; [done|]. apply low3_lor; [|done].
  destruct (mem !! j) eqn:E; [by eapply Forall_lookup_1|]. intros i _. apply Z.bits_0.
Qed.

Section valid.
Context {M L C : Type} `{TL : thmap_laws npf_tblent M} `{LL : lpm_laws npf_tblent L} {CO : cdbr_ops C}.
Context (T : gmap Z (npf_table (M := M) (L := L) (C := C))) (tblset : list (option Z)) (npc : npf_cache_t).

Abbreviation bctx := (Some (npf_bpfctx T tblset npc)).

Lemma validate_vinsn p i len inv mem : vinsn (λ j, 0 <= j < len - i - 1) p → 0 <= i → len < 2 ^ 31 → low3 inv → Forall low3 mem →
  ∃ inv' mem', validate_insn bctx p i len inv mem = Some (inv', mem') ∧ low3 inv' ∧ Forall low3 mem'.
Proof.
  intros Hp Hi Hlen Hinv Hmem.
  assert (∀ k, 0 <= k < NPF_BPF_NWORDS → (memwords bctx <=? k) = false ∧ flag inv (BPF_MEMWORD_INIT k) = false) as Hw.
  { intros k Hk. change (memwords bctx) with 3. change NPF_BPF_NWORDS with 3 in Hk. split; [apply Z.leb_gt; lia|].
    rewrite memword_testbit by lia. by apply Hinv. }
  assert (∀ j, 0 <= j < len - i - 1 → u32 (u32 (i + 1) + j) = i + 1 + j ∧ u32 (i + 1) = i + 1) as Hj.
  { intros j Hj. rewrite !wrap_small by (rewrite ?wrap_small; unfold inw; lia). done. }
  destruct Hp as [k Hk|k Hk|k Hk|sz k Hk|k Hk|k Hk|k Hk| |k Hk|j k jt jf Hk Ht Hf].
  - destruct (Hw k Hk) as [E1 E2]. exists inv, mem. unfold validate_insn. cbn [BPF_STMT i_code i_k]. 
    change (BPF_CLASS _ =? BPF_LD) with true. cbn [orb]. change (BPF_MODE _ =? BPF_MEM) with true. cbv iota. by rewrite E1, E2.
  - destruct (Hw k Hk) as [E1 E2]. exists inv, mem. unfold validate_insn. cbn [BPF_STMT i_code i_k].
    change ((BPF_CLASS _ =? BPF_LD) || _) with true. change (BPF_MODE _ =? BPF_MEM) with true. cbv iota. by rewrite E1, E2.
  - by exists inv, mem.
  - exists inv, mem. by destruct sz.
  - by exists inv, mem.
  - by exists inv, mem.
  - by exists inv, mem.
  - by exists inv, mem.
  - destruct (Hj k Hk) as [E1 E2]. do 2 eexists. unfold validate_insn. cbn [BPF_STMT i_code i_k].
    repeat match goal with |- context [?a =? ?b] => let v := eval vm_compute in (a =? b) in lazymatch v with true => change (a =? b) with true | false => change (a =? b) with false end end.
    cbn [orb]. rewrite E1, E2. rewrite (proj2 (Z.leb_gt len _)), (proj2 (Z.ltb_ge _ (i + 1))) by lia. split_and!; [done| |by apply low3_mark].
    intros ? _. apply Z.bits_0.
  - destruct (Hj jt Ht) as [E1 E2]. destruct (Hj jf Hf) as [E3 _]. do 2 eexists. unfold validate_insn. cbn [BPF_JUMP i_code i_k i_jt i_jf].
    replace ((BPF_CLASS _ =? BPF_LD) || _) with false by (by destruct j). replace ((BPF_CLASS _ =? BPF_ST) || _) with false by (by destruct j).
    replace (BPF_CLASS _ =? BPF_ALU) with false by (by destruct j). replace (BPF_CLASS _ =? BPF_JMP) with true by (by destruct j).
    replace (BPF_OP _ =? BPF_JA) with false by (by destruct j). replace (existsb _ _) with true by (by destruct j).
    rewrite E1, E3. rewrite !(proj2 (Z.leb_gt len _)) by lia. cbn [orb]. split_and!; [done| |by apply low3_mark; [apply low3_mark|]].
    intros ? _. apply Z.bits_0.
Qed.

(** [vblock (-1)]: no jump leaves the program. *)
Lemma validate_vblock l i len inv mem : vblock (-1) l → len = i + Z.of_nat (length l) → 0 <= i → len < 2 ^ 31 →
  low3 inv → Forall low3 mem → validate_loop bctx l i len inv mem = true.
Proof.
  revert i inv mem. induction l as [|p l IH]; intros i inv mem Hl Elen Hi Hlen Hinv Hmem; [done|].
  destruct Hl as [Hp Hl]. cbn [validate_loop]. cbn [length] in Elen.
  destruct (validate_vinsn p i len (inv ||| default 0 (mem !! Z.to_nat i)) mem) as (inv' & mem' & E & Hi' & Hm'); [|done|done| |done|].
  - eapply vinsn_mono; [|exact Hp]. intros j. unfold inside. lia.
  - apply low3_lor; [done|]. destruct (mem !! _) eqn:E; [by eapply Forall_lookup_1|]. intros k _. apply Z.bits_0.
  - rewrite E. apply IH; [done|lia|lia|done|done|done].
Qed.

End valid.

(** *** Well-formed contexts *)

(** The code before the current group and the code of the group are fragments
    of their own. *)
Record cinv (c : npf_bpf) : Prop := {
  ci_goff : 0 <= b_goff c <= bf_len c;
  ci_pre : ublock (take (Z.to_nat (b_goff c)) (b_prog c));
  ci_grp : ublock (drop (Z.to_nat (b_goff c)) (b_prog c));
  ci_fits : fits c;
  ci_ingroup : 0 <= b_ingroup c;
  ci_out : b_ingroup c = 0 → b_goff c = 0;
}.

Lemma cinv_create : cinv npfctl_bpf_create.
Proof. done. Qed.

Lemma cinv_emit c b k f c' : cinv c → emit c b k f c' → ublock b → cinv c'.
Proof.
  intros [H1 H2 H3 H4 H5 H6] [] Hb. unfold bf_len in *. split; rewrite ?em_goff0, ?em_prog0, ?em_ingroup0; try done.
  - unfold bf_len. rewrite em_prog0, length_app. lia.
  - by rewrite take_app_le by lia.
  - rewrite drop_app_le by lia. by apply ublock_app.
  - auto.
Qed.

Lemma cinv_enter c inv c' : cinv c → npfctl_bpf_group_enter c inv = inl c' → cinv c' ∧ b_ingroup c' = b_ingroup c + 1.
Proof.
  intros [H1 H2 H3 H4 H5 _] He. unfold npfctl_bpf_group_enter in He. apply cbind_inl in He as (u & Hg%assert_inl & He).
  apply cbind_inl in He as (u' & _ & [= <-]). bool_to_prop. rewrite Hg in *. unfold bf_len in *.
  split; [|done]. split; cbn; [unfold bf_len; cbn; lia| | |done|lia|lia].
  - by rewrite firstn_all2 by lia.
  - by rewrite skipn_all2 by lia.
Qed.

Lemma cinv_exit c c' : cinv c → npfctl_bpf_group_exit c = inl c' → cinv c' ∧ b_ingroup c' = b_ingroup c - 1.
Proof.
  intros [H1 H2 H3 H4 H5 _] He. unfold bf_len in *.
  assert (b_ingroup c ≠ 0) as Hin.
  { unfold npfctl_bpf_group_exit in He. apply cbind_inl in He as (u & Hi%assert_inl & _). by bool_to_prop. }
  assert (fits c') as Hfits.
  { unfold npfctl_bpf_group_exit in He. apply cbind_inl in He as (u & _ & He).
    destruct (_ && _); [injection He as <-; exact H4|]. apply cbind_inl in He as (c3 & Hf & He).
    set (c2 := add_insns _ _) in Hf. assert (fits c2) as [F1 F2]. { apply fits_insns. case_if; [apply fits_insns|]; exact H4. }
    assert (length (b_prog c2) >= length (b_prog c))%nat as Hlen.
    { subst c2. rewrite (em_prog _ _ _ _ _ (emit_insns _ _)), length_app.
      case_if; [rewrite (em_prog _ _ _ _ _ (emit_insns _ _)), length_app|]; cbn; lia. }
    clearbody c2. injection He as <-. unfold fixup_jumps in Hf. apply cbind_inl in Hf as (l & Hl & Hf).
    rewrite fixup_loop_eq in Hl. destruct (JUMP_MAGIC <=? _); [done|]. injection Hl as <-. injection Hf as <-.
    split; [|exact F2]. etrans; [|exact F1]. unfold bf_len. cbn [set_prog set_group b_prog].
    rewrite !length_app, fixl_length, !length_take, !length_drop. lia. }
  destruct (group_exit_code c c' (take (Z.to_nat (b_goff c)) (b_prog c)) (drop (Z.to_nat (b_goff c)) (b_prog c)) He)
    as (E1 & E2 & E3 & E4 & E5 & E6 & E7 & E8); [by rewrite take_drop|rewrite length_take; lia|].
  split; [|done]. split; rewrite ?E2; [unfold bf_len; lia|done| |done|lia|done]. change (Z.to_nat 0) with 0%nat. rewrite drop_0.
  destruct (negb _ && _); [|destruct E8 as [_ E8]]; rewrite E8; apply ublock_app; auto using ublock_group.
Qed.

Lemma jok0 n : 0 <= n → jump_ok n 0.
Proof. left. unfold inside. lia. Qed.

Lemma ublock_ipver v : inw 32 v → ublock (ipver_block v).
Proof.
  intros Hv. split; [by apply v_ld_mem|]. split; [|done]. apply (v_jmp _ J_EQ); [done|case_if; first [by apply jok0|by right]..].
Qed.

Lemma af_version_range af v : af_version af = inl v → inw 32 v.
Proof. unfold af_version. repeat case_if; intros [= <-]; done. Qed.

Lemma cinv_fetch c af fl c' : cinv c → fetch_l3 c af fl = inl c' → cinv c' ∧ b_ingroup c' = b_ingroup c.
Proof.
  intros Hc Hf. unfold fetch_l3 in Hf. apply cbind_inl in Hf as (v & Ev & Hf). apply cbind_inl in Hf as (c1 & H1 & H2).
  assert (cinv c1 ∧ b_ingroup c1 = b_ingroup c) as [Hc1 Hi1].
  { destruct (_ || _); [|revert H1; case_if; [done|by intros [= <-]]].
    apply cbind_inl in H1 as (c2 & Hx & H1). apply cbind_inl in H1 as (c3 & Hm & H1).
    set (ing := negb (b_ingroup c =? 0)) in *.
    assert (cinv c2 ∧ b_ingroup c2 = b_ingroup c - b2z ing) as [Hc2 Hi2].
    { destruct ing; [|injection Hx as <-; split; [done|unfold b2z; lia]]. apply cbind_inl in Hx as (u & _ & Hx). by eapply cinv_exit. }
    pose proof (emit_insns c2 (ipver_block v)) as He.
    pose proof (cinv_emit _ _ _ _ _ Hc2 He (ublock_ipver _ (af_version_range _ _ Ev))) as [I1 I2 I3 I4 I5 I6].
    assert (cinv c3 ∧ b_ingroup c3 = b_ingroup c2) as [Hc3 Hi3].
    { rewrite <- (em_ingroup _ _ _ _ _ He). revert Hm. case_if.
      - intros Hm%emit_marks. split; [|by destruct Hm]. eapply cinv_emit; [|exact Hm|done]. split; assumption.
      - intros [= <-]. split; [|done]. split; assumption. }
    destruct ing; cbn [b2z] in Hi2; [|injection H1 as <-; split; [done|lia]].
    destruct (cinv_enter _ _ _ Hc3 H1) as [? ?]. split; [done|lia]. }
  revert H2. case_if; [|by intros [= <-]]. intros [= <-]. pose proof (ldx_emit c1) as He.
  split; [|destruct He; congruence]. eapply cinv_emit; [exact Hc1|exact He|]. split; [by apply v_ldx_mem|done].
Qed.

(** *** The operations keep contexts well-formed *)

Lemma ublock_proto p : inw 32 p → ublock (proto_block p).
Proof. intros Hp. split; [by apply v_ld_mem|]. split; [|done]. apply (v_jmp _ J_EQ); [done|by apply jok0|by right]. Qed.

Lemma ublock_cmp p : inw 32 p → ublock [BPF_JUMP (BPF_JMP ||| BPF_JEQ ||| BPF_K) p 0 JUMP_MAGIC].
Proof. intros Hp. split; [|done]. apply (v_jmp _ J_EQ); [done|by apply jok0|by right]. Qed.

Lemma ublock_cidr n awords off length : Forall (inw 32) awords → 0 <= off → off + 4 * Z.of_nat n < 2 ^ 32 →
  ublock (cidr_block n awords off length).
Proof.
  revert awords off length. induction n as [|n IH]; intros awords off length Ha Ho Hb; [done|].
  cbn [cidr_block]. case_if; [done|]. apply ublock_app.
  - apply ublock_app; [split; [apply v_ld_abs; unfold inw; lia|done]|]. apply ublock_app.
    + case_if; [|done]. split; [|done]. apply v_and. unfold word_mask. case_if; [done|]. by apply wrap_range.
    + apply ublock_cmp. apply bswap32_range. destruct awords; [done|]. by apply Forall_cons in Ha as [? _].
  - apply IH; [|lia..]. destruct awords; [done|]. by apply Forall_cons in Ha as [_ ?].
Qed.

Lemma ublock_ports off from to : inw 16 off → inw 16 from → inw 16 to → ublock (ports_block off from to).
Proof.
  intros Ho Hf Ht. assert (inw 32 off ∧ inw 32 from ∧ inw 32 to) as (Ho' & Hf' & Ht') by (unfold inw in *; lia).
  apply ublock_app; [split; [by apply (v_ld_ind _ S_H)|done]|]. unfold port_test. case_if; [by apply ublock_cmp|].
  split; [apply (v_jmp _ J_GE); [done|by apply jok0|left; unfold inside; cbn; lia]|].
  split; [apply (v_jmp _ J_GT); [done|by apply jok0|left; unfold inside; cbn; lia]|]. split; [|done]. apply v_ja. by right.
Qed.

Lemma ublock_byte off mask v : inw 32 off → inw 32 mask → inw 32 v → ublock (byte_block off mask v).
Proof.
  intros Ho Hm Hv. apply ublock_app; [split; [by apply (v_ld_ind _ S_B)|done]|]. apply ublock_app; [|by apply ublock_cmp].
  case_if; [|done]. split; [by apply v_and|done].
Qed.

Lemma ublock_tcpfl checked tf tf_mask : inw 8 tf → inw 8 tf_mask → ublock (tcpfl_block checked tf tf_mask).
Proof.
  intros Ht Hm. assert (ublock (byte_block 13 tf_mask tf)) as Hb by (apply ublock_byte; unfold inw in *; lia).
  unfold tcpfl_block. destruct checked; [done|]. cbn [app].
  split; [by apply v_ld_mem|]. split; [|done]. apply (v_jmp _ J_EQ); [done|apply jok0; lia|left; unfold inside; lia].
Qed.

Lemma ublock_icmp type code : ublock (icmp_code type code).
Proof. apply ublock_app; case_if; try done; apply ublock_byte; try done; by apply wrap_range. Qed.

Lemma ublock_table src tid : inw 32 tid → ublock (table_block src tid).
Proof.
  intros Ht. split; [apply v_ld_imm, lor_inw; [lia|by destruct src|done]|]. split; [apply v_cop|]. split; [|done].
  apply (v_jmp _ J_EQ); [done|by right|by apply jok0].
Qed.

Definition keeps (c c' : npf_bpf) : Prop := cinv c' ∧ b_ingroup c' = b_ingroup c.

Lemma keeps_emit c b k f c' : cinv c → emit c b k f c' → ublock b → keeps c c'.
Proof. intros Hc He Hb. split; [by eapply cinv_emit|by destruct He]. Qed.

(** After [fetch_l3]. *)
Lemma keeps_fetch c af fl c1 b k f c' : cinv c → fetch_l3 c af fl = inl c1 → emit c1 b k f c' → ublock b → keeps c c'.
Proof.
  intros Hc Hf He Hb. destruct (cinv_fetch _ _ _ _ Hc Hf) as [Hc1 Hi]. destruct (keeps_emit _ _ _ _ _ Hc1 He Hb). split; [done|congruence].
Qed.

Lemma bpf_proto_keeps c p c' : cinv c → inw 32 p → npfctl_bpf_proto c p = inl c' → keeps c c'.
Proof. intros Hc Hp He%bpf_proto_emit. eapply keeps_emit; [done|exact He|by apply ublock_proto]. Qed.

Lemma bpf_table_keeps c opts tid c' : cinv c → inw 32 tid → npfctl_bpf_table c opts tid = inl c' → keeps c c'.
Proof. intros Hc Hp He%bpf_table_emit. eapply keeps_emit; [done|exact He|by apply ublock_table]. Qed.

Lemma bpf_cidr_keeps c opts af addr mask c' : cinv c → Forall (inw 32) addr → npfctl_bpf_cidr c opts af addr mask = inl c' → keeps c c'.
Proof.
  intros Hc Ha (maxmask & off & n & c1 & Ef & Hf & _ & He)%bpf_cidr_emit. eapply keeps_fetch; [done|exact Hf|exact He|].
  assert (0 <= off <= 24 ∧ (n <= 4)%nat) as [??] by (revert Ef; unfold cidr_family; repeat case_if; intros [= <- <- <-]; lia).
  apply ublock_cidr; [done|lia|lia].
Qed.

Lemma bpf_ports_keeps c opts from to c' : cinv c → inw 16 from → inw 16 to → npfctl_bpf_ports c opts from to = inl c' → keeps c c'.
Proof.
  intros Hc Hf Ht (c1 & Hl & He)%bpf_ports_emit. eapply keeps_fetch; [done|exact Hl|exact He|].
  apply ublock_ports; [by case_if|by apply bswap16_range..].
Qed.

Lemma bpf_tcpfl_keeps c tf tf_mask c' : cinv c → inw 8 tf → inw 8 tf_mask → npfctl_bpf_tcpfl c tf tf_mask = inl c' → keeps c c'.
Proof. intros Hc Ht Hm (c1 & Hl & He)%bpf_tcpfl_emit. eapply keeps_fetch; [done|exact Hl|exact He|by apply ublock_tcpfl]. Qed.

Lemma bpf_icmp_keeps c type code c' : cinv c → npfctl_bpf_icmp c type code = inl c' → keeps c c'.
Proof. intros Hc (c1 & k & Hl & _ & He)%bpf_icmp_emit. eapply keeps_fetch; [done|exact Hl|exact He|by apply ublock_icmp]. Qed.

(** ** Complete programs *)

Definition ret_code : list bpf_insn :=
  [BPF_STMT (BPF_RET ||| BPF_K) NPF_BPF_SUCCESS; BPF_STMT (BPF_RET ||| BPF_K) NPF_BPF_FAILURE].

Lemma complete_code c prog : npfctl_bpf_complete c = inl (Some prog) →
  prog = fixl false 0 (b_prog c) ++ ret_code ∧ Z.of_nat (length (b_prog c)) < JUMP_MAGIC.
Proof.
  intros Hc. unfold npfctl_bpf_complete in Hc. destruct (bf_len c =? 0); [done|]. apply cbind_inl in Hc as (c1 & Hf & Hc).
  fold ret_code in Hf. set (c2 := add_insns c ret_code) in Hf.
  assert (b_prog c2 = b_prog c ++ ret_code) as Ep by exact (em_prog _ _ _ _ _ (emit_insns c ret_code)). clearbody c2.
  unfold fixup_jumps in Hf. apply cbind_inl in Hf as (l & Hl & Hf). injection Hf as <-. cbn [set_prog b_prog] in Hc. injection Hc as <-.
  unfold bf_len in *. rewrite Ep in Hl |- *. rewrite Z.sub_0_r, Nat2Z.id in Hl. change (Z.to_nat 0) with 0%nat in *. rewrite drop_0, take_app_length, fixup_loop_eq in Hl.
  destruct (JUMP_MAGIC <=? _) eqn:E; [done|]. injection Hl as <-. bool_to_prop. rewrite Nat2Z.id, drop_app_length. done.
Qed.

Lemma complete_vblock c prog : ublock (b_prog c) → npfctl_bpf_complete c = inl (Some prog) →
  vblock (-1) prog ∧ (length prog <= 256)%nat ∧ last prog = Some (BPF_STMT (BPF_RET ||| BPF_K) NPF_BPF_FAILURE).
Proof.
  intros Hc Hp. apply complete_code in Hp as [-> Hl]. unfold JUMP_MAGIC in Hl. split_and!.
  - apply vblock_app; [by apply fixl_valid|]. split; [by apply v_ret|]. split; [by apply v_ret|done].
  - rewrite length_app, fixl_length. cbn. lia.
  - by rewrite last_app.
Qed.

Lemma vblock_wf l : vblock (-1) l → (length l <= 256)%nat → Forall insn_wf l ∧ Forall (λ p, implemented p = true) l.
Proof.
  induction l as [|p l IH]; [done|]. intros [Hp Hl] Hlen. cbn [length] in Hlen. destruct IH as [I1 I2]; [done|lia|].
  split; constructor; try done.
  - destruct Hp as [k Hk|k Hk|k Hk|sz k Hk|k Hk|k Hk|k Hk| |k Hk|j k jt jf Hk Ht Hf]; unfold insn_wf; cbn [BPF_STMT BPF_JUMP i_code i_jt i_jf i_k];
      unfold inside, NPF_BPF_NWORDS, NPF_COP_TABLE in *; (split_and!; [try (by destruct sz); try (by destruct j); done|..]); unfold inw in *; try lia.
  - destruct Hp as [k Hk|k Hk|k Hk|sz k Hk|k Hk|k Hk|k Hk| |k Hk|j k jt jf Hk Ht Hf]; try done; [by destruct sz|by destruct j].
Qed.

Section complete.
Context {M L C : Type} `{TL : thmap_laws npf_tblent M} `{LL : lpm_laws npf_tblent L} {CO : cdbr_ops C}.
Context (T : gmap Z (npf_table (M := M) (L := L) (C := C))) (tblset : list (option Z)) (npc : npf_cache_t).

Lemma complete_validates c prog : ublock (b_prog c) → npfctl_bpf_complete c = inl (Some prog) →
  npf_bpf_validate T tblset npc prog = true.
Proof.
  intros Hc Hp. destruct (complete_vblock c prog Hc Hp) as (Hv & Hl & Hlast).
  unfold npf_bpf_validate, bpf_validate_ext. rewrite Hlast. cbn [BPF_STMT i_code]. rewrite Z.eqb_refl.
  assert (prog ≠ []) by (by destruct prog).
  rewrite (proj2 (Z.ltb_ge _ 1)) by (destruct prog; [done|cbn [length]; lia]).
  rewrite (proj2 (Z.ltb_ge _ _)) by (unfold BPF_MAXINSNS; lia). cbn [negb andb].
  apply validate_vblock; [done|lia|lia|lia| |].
  - intros i Hi. assert (i = 0 ∨ i = 1 ∨ i = 2) as [->|[->| ->]] by lia; reflexivity.
  - apply Forall_replicate. intros i _. apply Z.bits_0.
Qed.

Context (kernel : bool) (args : bpf_args) (ver hlen proto : Z).

Lemma complete_correct c φ prog : prepared T tblset npc args ver hlen proto →
  top T tblset kernel npc args ver hlen c φ → ublock (b_prog c) →
  npfctl_bpf_complete c = inl (Some prog) →
  npf_bpf_filter T tblset kernel npc args (Some prog) None = Some (inl (if φ then NPF_BPF_SUCCESS else NPF_BPF_FAILURE)).
Proof.
  intros P [_ _ _ _ (r & Hs & Ha) _] Hc Hp. destruct (complete_vblock c prog Hc Hp) as (Hv & Hl & _).
  destruct (vblock_wf prog Hv Hl) as [Hwf _]. unfold npf_bpf_filter. rewrite filter_run by done.
  apply complete_code in Hp as [-> _]. rewrite run_app. specialize (Hs 0%nat (mk_st 0 0 args)).
  change (Z.of_nat 0) with 0 in Hs. destruct r as [v|].
  - destruct Hs as (st' & E & _); [done|]. rewrite E. cbn [acc] in Ha. subst φ. by destruct v.
  - rewrite Hs by done. by subst φ.
Qed.

End complete.

End BpfComp.
