(* ===== verification/NpfBuild.v ===== *)
(** * NpfBuild: code for the filter options of rules (src/npfctl/npf_build.c)

    [npfctl_build_code] compiles the protocol, address and port options of a
    rule into BPF code, with the operations of [BpfComp] on the variables of
    [NpfVar].  The theorems relate the program to the options: on the machine
    of the kernel it accepts the packets that the options describe, and the
    kernel's validator accepts the program. *)

From S2P Require Import Prelude NpfVar Nbuf Addr Cache Rewrite Tcpopt StateTcp Thmap ConnKey Tableset Bpf NpfBpf BpfComp.
From stdpp Require Import strings.
Open Scope Z_scope.
Open Scope npf_scope.

Module NpfBuild.
Export BpfComp StateTcp.

Record addr_port := mk_ap { ap_netaddr : option Z; ap_portrange : option Z }.

Record filt_opts := mk_fopts { fo_from : addr_port; fo_to : addr_port; fo_finvert : bool; fo_tinvert : bool }.

Definition npfctl_addr_iszero (addr : npf_addr_t) : bool := forallb (Z.eqb 0) addr.

(** [for] loops over the elements of a variable. *)
Fixpoint cfold {A B : Type} (f : B → A → comp B) (l : list A) (b : B) : comp B :=
  match l with
  | [] => inl b
  | a :: l => let! b := f b a in cfold f l b
  end.

(** ** Single values *)

Section build.
Context (s : var_sys).

Definition npfctl_get_singleport (vp : option Z) : comp Z :=
  let! n := npfvar_get_count s vp in
  if 1 <? n then inr E_yyerror else
  let! pr := npfvar_get_data s vp NPFVAR_PORT_RANGE 0 in
  match pr with
  | El_port_range from to => if negb (from =? to) then inr E_yyerror else inl from
  | _ => inr E_segv
  end.

Definition npfctl_get_singlefam (vp : option Z) : comp fam_addr_mask :=
  let! t := npfvar_get_type s vp 0 in
  if negb (t =? NPFVAR_FAM) then inr E_yyerror else
  let! n := npfvar_get_count s vp in
  if 1 <? n then inr E_yyerror else
  let! am := npfvar_get_data s vp NPFVAR_FAM 0 in
  match am with El_fam am => inl am | _ => inr E_segv end.

Definition npfctl_get_singletable (vp : option Z) : comp Z :=
  let! n := npfvar_get_count s vp in
  if 1 <? n then inr E_yyerror else
  let! t := npfvar_get_data s vp NPFVAR_TABLE 0 in
  match t with El_table tid => inl tid | _ => inr E_segv end.

(** ** Addresses and ports *)

(** [None]: no code is needed. *)
Definition npfctl_build_fam (ctx : npf_bpf) (family : Z) (fam : fam_addr_mask) (opts : Z) : comp (bool * npf_bpf) :=
  if negb (family =? AF_UNSPEC) && negb (family =? fam_family fam) then
    if fam_ifindex fam =? 0 then inr E_yyerror else inl (false, ctx)
  else
    let family := fam_family fam in
    if negb (family =? AF_INET) && negb (family =? AF_INET6) then inr E_yyerror
    else if fam_mask fam =? 0 then
      if negb (npfctl_addr_iszero (fam_addr fam)) then inr E_yyerror else inl (false, ctx)
    else
      let! ctx := npfctl_bpf_cidr ctx opts family (fam_addr fam) (fam_mask fam) in
      inl (true, ctx).

Definition build_var (family : Z) (vars : option Z) (opts : Z) (ctx : npf_bpf) (i : nat) : comp npf_bpf :=
  let! type := npfvar_get_type s vars i in
  let! data := npfvar_get_data s vars type i in
  match data with
  | El_fam fam => let! r := npfctl_build_fam ctx family fam opts in inl (snd r)
  | El_port_range from to => npfctl_bpf_ports ctx opts from to
  | El_table tid => npfctl_bpf_table ctx opts tid
  | _ => inr E_yyerror
  end.

Definition npfctl_build_vars (ctx : npf_bpf) (family : Z) (vars : option Z) (opts : Z) : comp npf_bpf :=
  let! ctx := npfctl_bpf_group_enter ctx (flag opts MATCH_INVERT) in
  let! n := npfvar_get_count s vars in
  let! ctx := cfold (build_var family vars opts) (seq 0 (Z.to_nat n)) ctx in
  npfctl_bpf_group_exit ctx.

(** ** Protocols *)

(** The two options of a protocol block. *)
Definition proto_opts (popts type : Z) : comp (npf_element * npf_element) :=
  let! n := npfvar_get_count s (Some popts) in
  let! _ := assert (n =? 2) in
  let! a := npfvar_get_data s (Some popts) type 0 in
  let! b := npfvar_get_data s (Some popts) type 1 in
  inl (a, b).

Definition npfctl_build_proto_block (ctx : npf_bpf) (op_proto : Z) (popts : option Z) (multiple : bool) : comp npf_bpf :=
  let proto := u32 op_proto in
  if multiple && bool_decide (is_Some popts) then inr E_yyerror else
  let! ctx := npfctl_bpf_proto ctx proto in
  match popts with
  | None => inl ctx
  | Some popts =>
      if proto =? IPPROTO_TCP then
        let! r := proto_opts popts NPFVAR_TCPFLAG in
        match r with (El_tcpflag tf, El_tcpflag tf_mask) => npfctl_bpf_tcpfl ctx tf tf_mask | _ => inr E_segv end
      else if (proto =? IPPROTO_ICMP) || (proto =? IPPROTO_ICMPV6) then
        let! r := proto_opts popts NPFVAR_ICMP in
        match r with (El_icmp type, El_icmp code) => npfctl_bpf_icmp ctx type code | _ => inr E_segv end
      else inl ctx
  end.

(** [npfvar_get_data(vars, NPFVAR_PROTO, i)]. *)
Definition get_proto (vars : option Z) (i : nat) : comp (Z * option Z) :=
  let! op := npfvar_get_data s vars NPFVAR_PROTO i in
  match op with El_proto proto opts => inl (proto, opts) | _ => inr E_segv end.

Definition build_proto_at (vars : option Z) (ctx : npf_bpf) (i : nat) : comp npf_bpf :=
  let! (proto, opts) := get_proto vars i in
  npfctl_build_proto_block ctx proto opts true.

Definition npfctl_build_proto (ctx : npf_bpf) (vars : option Z) : comp npf_bpf :=
  let! count := npfvar_get_count s vars in
  if count =? 1 then
    let! (proto, opts) := get_proto vars 0 in
    npfctl_build_proto_block ctx proto opts false
  else
    let! ctx := npfctl_bpf_group_enter ctx false in
    let! ctx := cfold (build_proto_at vars) (seq 0 (Z.to_nat count)) ctx in
    npfctl_bpf_group_exit ctx.

(** Are there any, is one neither TCP nor UDP, and does TCP lack flags? *)
Definition check_proto (r : bool * bool) (op : Z * option Z) : bool * bool :=
  let '(non_tcpudp, tcp_with_nofl) := r in
  let '(proto, opts) := op in
  if proto =? IPPROTO_TCP then (non_tcpudp, negb (bool_decide (is_Some opts)))
  else if (proto =? IPPROTO_UDP) || (proto =? -1) then (non_tcpudp, tcp_with_nofl)
  else (true, tcp_with_nofl).

Definition npfctl_check_proto (vars : option Z) : comp (bool * bool * bool) :=
  match vars with
  | None => inl (false, false, false)
  | Some _ =>
      let! count := npfvar_get_count s vars in
      let! (a, b) := cfold (λ r i, let! op := get_proto vars i in inl (check_proto r op)) (seq 0 (Z.to_nat count)) (false, false) in
      inl (negb (count =? 0), a, b)
  end.

(** ** The code of a rule *)

Definition any_of (a b : option Z) : bool := bool_decide (is_Some a) || bool_decide (is_Some b).

(** The blocks, in their order. *)
Definition build_blocks (stateful : bool) (family : Z) (popts : option Z) (fopts : filt_opts) (any_l4proto tcp_with_nofl any_ports : bool) :
    comp npf_bpf :=
  let apfrom := fo_from fopts in
  let apto := fo_to fopts in
  let bc := npfctl_bpf_create in
  let! bc := (if negb (family =? AF_UNSPEC) then npfctl_bpf_ipver bc family else inl bc) in
  let! bc := (if any_l4proto then npfctl_build_proto bc popts else inl bc) in
  let! bc := (if stateful && (negb any_l4proto || tcp_with_nofl)
              then npfctl_bpf_tcpfl bc TH_SYN (TH_SYN ||| TH_ACK ||| TH_FIN ||| TH_RST) else inl bc) in
  let! bc := npfctl_build_vars bc family (ap_netaddr apfrom) (MATCH_SRC ||| (if fo_finvert fopts then MATCH_INVERT else 0)) in
  let! bc := npfctl_build_vars bc family (ap_netaddr apto) (MATCH_DST ||| (if fo_tinvert fopts then MATCH_INVERT else 0)) in
  let! bc :=
    (if any_ports && negb any_l4proto then
       let! bc := npfctl_bpf_group_enter bc false in
       let! bc := npfctl_bpf_proto bc IPPROTO_TCP in
       let! bc := npfctl_bpf_proto bc IPPROTO_UDP in
       npfctl_bpf_group_exit bc
     else inl bc) in
  let! bc := npfctl_build_vars bc family (ap_portrange apfrom) MATCH_SRC in
  npfctl_build_vars bc family (ap_portrange apto) MATCH_DST.

(** Are there filter criteria at all; the marks and the code for the rule.
    [stateful] is [npf_rule_getattr(rl) & NPF_RULE_STATEFUL]. *)
Definition npfctl_build_code (stateful : bool) (family : Z) (popts : option Z) (fopts : filt_opts) :
    comp (bool * list Z * option (list bpf_insn)) :=
  let apfrom := fo_from fopts in
  let apto := fo_to fopts in
  let! (any_l4proto, non_tcpudp, tcp_with_nofl) := npfctl_check_proto popts in
  let any_proto := negb (family =? AF_UNSPEC) || any_l4proto in
  let any_addrs := any_of (ap_netaddr apfrom) (ap_netaddr apto) in
  let any_ports := any_of (ap_portrange apfrom) (ap_portrange apto) in
  if negb any_proto && negb any_addrs && negb any_ports && negb stateful then inl (false, [], None) else
  if any_ports && non_tcpudp then inr E_yyerror else
  let! bc := build_blocks stateful family popts fopts any_l4proto tcp_with_nofl any_ports in
  let bmarks := npfctl_bpf_bmarks bc in
  let! bf := npfctl_bpf_complete bc in
  inl (true, bmarks, bf).

End build.

(** ** What the options mean *)

(** The list of elements behind a variable. *)
Definition var_holds (s : var_sys) (vars : option Z) (els : list npf_element) : Prop :=
  npfvar_get_count s vars = inl (Z.of_nat (length els)) ∧
  ∀ i el, els !! i = Some el → npfvar_get_element s vars i = inl (Some el).

Definition or_list (l : list (option bool)) : option bool := foldr or3 (Some false) l.

Lemma or3_assoc a b c : or3 (or3 a b) c = or3 a (or3 b c).
Proof. by destruct a as [[]|]. Qed.

Lemma or3_false a : or3 a (Some false) = a.
Proof. by destruct a as [[]|]. Qed.

Section spec.
Context {M L C : Type} `{TL : thmap_laws npf_tblent M} `{LL : lpm_laws npf_tblent L} {CO : cdbr_ops C}.
Context (T : gmap Z (npf_table (M := M) (L := L) (C := C))) (tblset : list (option Z)).
Context (kernel : bool) (npc : npf_cache_t) (args : bpf_args) (ver hlen proto : Z).

Abbreviation ipver_ok := (ipver_ok ver).

(** One address, table or port range against the packet. *)
Definition el_test (opts : Z) (el : npf_element) : option bool :=
  match el with
  | El_fam fam =>
      match cidr_family (fam_family fam) opts with
      | inl (maxmask, off, nwords) =>
          cidr_test kernel args nwords (fam_addr fam) off (if fam_mask fam =? NPF_NO_NETMASK then maxmask else fam_mask fam)
      | inr _ => None
      end
  | El_table tid => Some (table_test T tblset npc args (flag opts MATCH_SRC) tid)
  | El_port_range from to => ports_test kernel args hlen (if flag opts MATCH_SRC then 0 else 2) (ntohs from) (ntohs to)
  | _ => None
  end.

(** The IP version that an element asks for. *)
Definition el_ver (el : npf_element) : bool :=
  match el with El_fam fam => ipver_ok (fam_family fam) | El_port_range _ _ => ipver_ok AF_UNSPEC | _ => true end.

(** No elements: no restriction.  Otherwise one of them (inverted: none). *)
Definition vars_match (opts : Z) (els : list npf_element) : bool :=
  match els with
  | [] => true
  | _ => forallb el_ver els && acc (group3 (flag opts MATCH_INVERT) (or_list (el_test opts <$> els)))
  end.

(** Elements that are compared in one instruction. *)
Definition el_simple (el : npf_element) : Prop :=
  match el with
  | El_fam fam => fam_family fam = AF_INET ∨ 0 < fam_mask fam <= 32
  | El_table _ => True
  | El_port_range from to => from = to
  | _ => False
  end.

Definition is_port (el : npf_element) : bool := match el with El_port_range _ _ => true | _ => false end.

(** The lists that are compiled as they read: an address is not the zero
    network nor of another family; in a list of several elements and in an
    inverted one every element is simple. *)
Record vars_ok (family opts : Z) (els : list npf_element) : Prop := {
  vk_els : Forall (λ el, match el with
                         | El_fam fam => fam_mask fam ≠ 0 ∧ (family = AF_UNSPEC ∨ family = fam_family fam)
                         | El_table _ | El_port_range _ _ => True
                         | _ => False
                         end) els;
  vk_simple : (length els <= 1)%nat ∧ flag opts MATCH_INVERT = false ∨ Forall el_simple els;
  vk_ports : Forall (λ el, is_port el = true) els ∨ Forall (λ el, is_port el = false) els;
}.

Context (P : prepared T tblset npc args ver hlen proto).

Abbreviation top := (top T tblset kernel npc args ver hlen).
Abbreviation grp := (grp T tblset kernel npc args ver hlen).

Lemma acc_group r : acc (group3 false r) = acc r.
Proof. by destruct r as [[]|]. Qed.

(** The next alternative of a group. *)
Definition join (nb : nat) (r t : option bool) : option bool := match nb with O => t | _ => or3 r t end.

(** A loop that adds one block for each element. *)
Lemma cfold_grp swap (f : npf_bpf → nat → comp npf_bpf) (test : npf_element → option bool) (ok : npf_element → bool)
    (Q : npf_bpf → nat → Prop) els i c φ nb r c' :
  (∀ j el c φ nb r c', els !! j = Some el → f c (i + j)%nat = inl c' → grp swap c φ nb r → Q c nb → (swap = false → nb = O) →
     grp swap c' (φ && ok el) (S nb) (join nb r (test el)) ∧ Q c' (S nb)) →
  grp swap c φ nb r → Q c nb → (swap = false → (nb + length els <= 1)%nat) →
  cfold f (seq i (length els)) c = inl c' →
  ∃ r', grp swap c' (φ && forallb ok els) (nb + length els) r' ∧ Q c' (nb + length els)%nat ∧
    r' = match nb, els with O, [] => r | O, _ => or_list (test <$> els) | _, _ => or3 r (or_list (test <$> els)) end.
Proof.
  revert i c φ nb r. induction els as [|el els IH]; intros i c φ nb r Hstep Hg HQ Hs Hf.
  - injection Hf as <-. exists r. cbn [forallb length]. rewrite andb_true_r, Nat.add_0_r. split_and!; [done|done|].
    destruct nb; [done|]. by rewrite or3_false.
  - cbn [cfold seq length] in Hf. apply cbind_inl in Hf as (c1 & H1 & Hf).
    destruct (Hstep 0%nat el c φ nb r c1) as [Hg1 HQ1]; [done|by rewrite Nat.add_0_r|done|done| |].
    { intros E. specialize (Hs E). cbn [length] in Hs. lia. }
    edestruct (IH (S i) c1) as (r' & Hg' & HQ' & Er); [|exact Hg1|exact HQ1| |exact Hf|].
    { intros j el' c2 φ2 nb2 r2 c2' Hj. specialize (Hstep (S j) el' c2 φ2 nb2 r2 c2' Hj).
      by replace (S i + j)%nat with (i + S j)%nat by lia. }
    { intros E. specialize (Hs E). cbn [length] in Hs. lia. }
    exists r'. cbn [forallb length]. rewrite andb_assoc. replace (nb + S (length els))%nat with (S nb + length els)%nat by lia.
    split_and!; [done|done|]. rewrite Er. destruct nb; cbn [join fmap list_fmap or_list foldr]; [done|]. by rewrite or3_assoc.
Qed.

Lemma cidr_family_off af opts maxmask off n : cidr_family af opts = inl (maxmask, off, n) →
  0 <= off <= 24 ∧ (n = 1%nat ∨ n = 4%nat ∧ af = AF_INET6) ∧ 0 < maxmask.
Proof. unfold cidr_family. repeat case_if; intros [= <- <- <-]; bool_to_prop; subst; (split; [lia|split; [auto|lia]]). Qed.

(** Code that leaves the index register alone. *)
Lemma emit_X c b k f c' : emit c b k f c' → flag f X_EQ_L4OFF = false → flag (b_flags c') X_EQ_L4OFF = flag (b_flags c) X_EQ_L4OFF.
Proof. intros [] Hf. by rewrite em_flags0, flag_lor, Hf, orb_false_r. Qed.

(** A block of a group, after [fetch_l3]. *)
Lemma grp_block swap c φ nb r af fl c1 b c' t inv :
  grp swap c φ nb r → b_invert c = inv → fetch_l3 c af fl = inl c1 → emit c1 b 1 0 c' →
  (swap = false → nb = O) → (flag fl X_EQ_L4OFF = true → nb ≠ O → flag (b_flags c) X_EQ_L4OFF = true) →
  (∀ x, (flag fl X_EQ_L4OFF = true → x = true) → sem T tblset kernel npc args hlen swap b x x t) →
  grp swap c' (φ && ipver_ok af) (S nb) (join nb r t) ∧ b_invert c' = inv ∧
    (flag fl X_EQ_L4OFF = true → flag (b_flags c') X_EQ_L4OFF = true).
Proof.
  intros Hg Hi Hf He Hs HX Hb. destruct nb as [|nb].
  - destruct (fetch_l3_grp T tblset kernel npc args ver hlen proto P swap c φ r af fl c1 Hg Hf) as [Hg1 [F1 F2 F3]].
    assert (flag fl X_EQ_L4OFF = true → flag (b_flags c1) X_EQ_L4OFF = true) as HX1 by (intros E; by rewrite F1, E, orb_true_r).
    split_and!; [|destruct He; congruence|].
    + eapply (grp_emit T tblset kernel npc args ver hlen swap c1 _ 0 b 1 0 c' _ t Hg1 He); [lia|done|by left|done|].
      rewrite (emit_X _ _ _ _ _ He eq_refl). by apply Hb.
    + intros E. rewrite (emit_X _ _ _ _ _ He eq_refl). auto.
  - destruct (fetch_l3_next T tblset kernel npc args ver hlen swap c φ nb r af fl c1 Hg Hf) as [-> Eφ]; [intros E; by apply HX|].
    rewrite Eφ. split_and!; [|destruct He; congruence|].
    + eapply (grp_emit T tblset kernel npc args ver hlen swap c _ (S nb) b 1 0 c' _ t Hg He); [lia|done| |done|].
      * right. destruct swap; [|by specialize (Hs eq_refl)]. split; [done|]. by rewrite (emit_X _ _ _ _ _ He eq_refl).
      * rewrite (emit_X _ _ _ _ _ He eq_refl). apply Hb. intros E. by apply HX.
    + intros E. rewrite (emit_X _ _ _ _ _ He eq_refl). by apply HX.
Qed.

Context (s : var_sys).

Lemma get_data_own vars i el : npfvar_get_element s vars i = inl (Some el) →
  npfvar_get_type s vars i = inl (e_type el) ∧ npfvar_get_data s vars (e_type el) i = inl el.
Proof.
  intros E. unfold npfvar_get_type, npfvar_get_data. rewrite E. cbn [cbind]. by rewrite Z.eqb_refl.
Qed.

(** The blocks of one list. *)
Lemma build_var_grp swap family vars opts inv i el c φ nb r c' :
  npfvar_get_element s vars i = inl (Some el) → build_var s family vars opts c i = inl c' →
  match el with
  | El_fam fam => fam_mask fam ≠ 0 ∧ (family = AF_UNSPEC ∨ family = fam_family fam)
  | El_table _ | El_port_range _ _ => True
  | _ => False
  end → (swap = true → el_simple el) → (swap = false → nb = O) →
  (is_port el = true → nb ≠ O → flag (b_flags c) X_EQ_L4OFF = true) →
  grp swap c φ nb r → b_invert c = inv →
  grp swap c' (φ && el_ver el) (S nb) (join nb r (el_test opts el)) ∧ b_invert c' = inv ∧
    (is_port el = true → flag (b_flags c') X_EQ_L4OFF = true).
Proof.
  intros He Hv Hok Hsim Hs HX Hg Hi. destruct (get_data_own _ _ _ He) as [E1 E2]. unfold build_var in Hv.
  rewrite E1 in Hv. cbn [cbind] in Hv. rewrite E2 in Hv. cbn [cbind] in Hv.
  destruct el as [| | | |from to|tid|fam| | | | | |]; try done.
  - apply bpf_ports_emit in Hv as (c1 & Hf & Hem).
    destruct (grp_block swap c φ nb r AF_UNSPEC X_EQ_L4OFF c1 _ c' (el_test opts (El_port_range from to)) inv Hg Hi Hf Hem Hs) as (G & I & X);
      [by intros _; apply HX| |split_and!; [done|done|by intros _; apply X]].
    intros x Hx. rewrite (Hx eq_refl). destruct swap; [rewrite (Hsim eq_refl); by apply (sem_port T tblset kernel npc args ver hlen proto P)|].
    by apply (sem_ports T tblset kernel npc args ver hlen proto P).
  - apply bpf_table_emit in Hv. cbn [el_ver]. rewrite andb_true_r. split_and!; [|destruct Hv; congruence|done].
    eapply (grp_emit T tblset kernel npc args ver hlen swap c φ nb _ 1 0 c' r _ Hg Hv); [lia|done| |done|].
    + destruct nb; [by left|right]. destruct swap; [|by specialize (Hs eq_refl)]. split; [done|]. by rewrite (emit_X _ _ _ _ _ Hv eq_refl).
    + rewrite (emit_X _ _ _ _ _ Hv eq_refl). apply (sem_table T tblset kernel npc args hlen).
  - destruct Hok as [Hm Hfam]. apply cbind_inl in Hv as ([b c2] & Hb & [= <-]). unfold npfctl_build_fam in Hb.
    replace (negb (family =? AF_UNSPEC) && negb (family =? fam_family fam)) with false in Hb
      by (destruct Hfam as [->| ->]; by rewrite ?Z.eqb_refl, ?andb_false_r).
    destruct (negb (fam_family fam =? AF_INET) && negb (fam_family fam =? AF_INET6)); [done|].
    rewrite (proj2 (Z.eqb_neq _ _) Hm) in Hb. apply cbind_inl in Hb as (c3 & Hc & [= <- <-]).
    apply bpf_cidr_emit in Hc as (maxmask & off & n & c1 & Ef & Hf & Hmask & Hem).
    destruct (cidr_family_off _ _ _ _ _ Ef) as (Ho & Hn & Hmax).
    destruct (grp_block swap c φ nb r (fam_family fam) 0 c1 _ c3 (el_test opts (El_fam fam)) inv Hg Hi Hf Hem Hs) as (G & I & X); [done| |done].
    intros x _. cbn [el_test]. rewrite Ef. destruct swap; [|apply (sem_cidr T tblset kernel npc args ver hlen proto P); lia].
    apply (sem_cidr_word T tblset kernel npc args ver hlen proto P); [lia|]. specialize (Hsim eq_refl). cbn in Hsim.
    unfold one_word. destruct Hn as [->|[-> Haf]].
    + split; [|by left]. case_if; [lia|done].
    + destruct Hsim as [Hsim|Hsim]; [by rewrite Haf in Hsim|].
      rewrite (proj2 (Z.eqb_neq (fam_mask fam) _)) by (unfold NPF_NO_NETMASK; lia). split; [lia|]. right. split; [by eexists|lia].
Qed.

Lemma npfctl_build_vars_top c φ family vars opts els c' : var_holds s vars els → vars_ok family opts els →
  top c φ → npfctl_build_vars s c family vars opts = inl c' →
  top c' (φ && vars_match opts els).
Proof.
  intros [Hn Hh] [Hels Hsim Hports] Ht Hb. unfold npfctl_build_vars in Hb. apply cbind_inl in Hb as (c1 & He & Hb).
  rewrite Hn in Hb. cbn [cbind] in Hb. rewrite Nat2Z.id in Hb. apply cbind_inl in Hb as (c2 & Hf & Hx).
  assert (∃ swap : bool, (swap = true → Forall el_simple els ∧ (2 <= length els ∨ flag opts MATCH_INVERT = true)%nat) ∧
                  (swap = false → (length els <= 1)%nat ∧ flag opts MATCH_INVERT = false)) as (swap & Hsw1 & Hsw2).
  { destruct (decide ((length els <= 1)%nat ∧ flag opts MATCH_INVERT = false)) as [?|Hd]; [by exists false|]. exists true. split; [|done].
    intros _. destruct Hsim as [?|?]; [done|]. split; [done|]. destruct (flag opts MATCH_INVERT); [by right|left].
    destruct (decide (length els <= 1)%nat); [by destruct Hd|lia]. }
  destruct (group_enter_grp T tblset kernel npc args ver hlen swap c φ _ c1 Ht He) as (Hg & Hi & _).
  destruct (cfold_grp swap (build_var s family vars opts) (el_test opts) el_ver
    (λ c nb, b_invert c = flag opts MATCH_INVERT ∧ (Forall (λ el, is_port el = true) els → nb ≠ O → flag (b_flags c) X_EQ_L4OFF = true))
    els 0 c1 φ 0 (Some (negb swap)) c2) as (r' & Hg' & [HQ _] & Er); [|exact Hg|done| |exact Hf|].
  - intros j el c3 φ3 nb r c3' Hj Hv Hg3 [HQ1 HQ2] Hs3. rewrite Forall_lookup in Hels. specialize (Hels j el Hj).
    assert (is_port el = true → Forall (λ el, is_port el = true) els) as Hp.
    { intros Hp. destruct Hports as [?|Hports]; [done|]. rewrite Forall_lookup in Hports. by rewrite (Hports j el Hj) in Hp. }
    destruct (build_var_grp swap family vars opts (flag opts MATCH_INVERT) j el c3 φ3 nb r c3') as (G & I & X); try done; [by apply Hh| | |].
    + intros E. destruct (Hsw1 E) as [Hall _]. rewrite Forall_lookup in Hall. by eapply Hall.
    + intros Hp' Hnb. by apply HQ2; [apply Hp|].
    + split; [done|]. split; [done|]. intros Hall _. apply X. rewrite Forall_lookup in Hall. by eapply Hall.
  - intros E. destruct (Hsw2 E). lia.
  - destruct (group_exit_grp T tblset kernel npc args ver hlen swap c2 _ _ r' c' Hg' Hx) as [Ht' _].
    { rewrite HQ. destruct swap; [by apply Hsw1|by apply Hsw2]. }
    rewrite HQ in Ht'. cbn [Nat.add] in *. destruct els as [|el els].
    + cbn [forallb vars_match] in *. rewrite !andb_true_r in *. subst r'. destruct swap; cbn [negb] in Ht'.
      * destruct (Hsw1 eq_refl) as [_ [Hlen|Hi2]]; [cbn in Hlen; lia|]. rewrite Hi2 in Ht'. cbn in Ht'. by rewrite andb_true_r in Ht'.
      * cbn in Ht'. by rewrite andb_true_r in Ht'.
    + unfold vars_match. rewrite andb_assoc. subst r'. destruct swap; [done|]. destruct (Hsw2 eq_refl) as [_ ->]. by rewrite acc_group.
Qed.

(** *** Protocols *)

(** Protocols with their options, in pairs. *)
Definition proto_list : Type := list (Z * option (npf_element * npf_element)).

Definition protos_hold (vars : option Z) (protos : proto_list) : Prop :=
  ∃ els, var_holds s vars els ∧
    Forall2 (λ el pr, ∃ o, el = El_proto (fst pr) o ∧
      match o, snd pr with None, None => True | Some p, Some (a, b) => var_holds s (Some p) [a; b] | _, _ => False end) els protos.

(** The options of the protocol. *)
Definition opts_match (p : Z) (a b : npf_element) : bool :=
  if p =? IPPROTO_TCP then
    match a, b with El_tcpflag tf, El_tcpflag tf_mask => ipver_ok AF_UNSPEC && acc (byte_test kernel args hlen 13 tf_mask tf) | _, _ => true end
  else if (p =? IPPROTO_ICMP) || (p =? IPPROTO_ICMPV6) then
    match a, b with
    | El_icmp type, El_icmp code =>
        ipver_ok AF_UNSPEC && ((type =? -1) || acc (byte_test kernel args hlen 0 (u32 type) (u32 type))) &&
        ((code =? -1) || acc (byte_test kernel args hlen 1 (u32 code) (u32 code)))
    | _, _ => true
    end
  else true.

Definition protos_match (protos : proto_list) : bool :=
  match protos with
  | [] => true
  | [(p, None)] => proto =? u32 p
  | [(p, Some (a, b))] => (proto =? u32 p) && opts_match (u32 p) a b
  | _ => existsb (λ pr, proto =? u32 (fst pr)) protos
  end.

Abbreviation checked c := (flag (b_flags c) CHECKED_L4_PROTO).

Lemma bpf_proto_top c φ p c' : top c φ → npfctl_bpf_proto c p = inl c' → top c' (φ && (proto =? p)) ∧ checked c' = true.
Proof.
  intros Ht Hp%bpf_proto_emit. split.
  - assert (acc (Some (proto =? p)) = (proto =? p)) as <- by (by destruct (proto =? p)).
    eapply (top_emit T tblset kernel npc args ver hlen _ _ _ 1 _ _ _ Ht Hp); [lia|done|].
    rewrite (emit_X _ _ _ _ _ Hp eq_refl). apply (sem_proto T tblset kernel npc args ver hlen proto P).
  - destruct Hp. rewrite em_flags0, flag_lor. apply orb_true_r.
Qed.

(** A test of the TCP flags; other protocols pass it unless the protocol was
    checked. *)
Definition tcpfl_match (ck : bool) (tf tf_mask : Z) : bool :=
  ipver_ok AF_UNSPEC && ((negb ck && negb (proto =? IPPROTO_TCP)) || acc (byte_test kernel args hlen 13 tf_mask tf)).

Lemma byte_block_length off mask v : (length (byte_block off mask v) <= 3)%nat.
Proof. unfold byte_block. destruct (mask =? v); cbn; lia. Qed.

Lemma bpf_tcpfl_top c φ tf tf_mask c' : top c φ → npfctl_bpf_tcpfl c tf tf_mask = inl c' →
  top c' (φ && tcpfl_match (checked c) tf tf_mask).
Proof.
  intros Ht Hb. apply bpf_tcpfl_emit in Hb as (c1 & Hf & He).
  destruct (fetch_l3_top T tblset kernel npc args ver hlen proto P c φ AF_UNSPEC X_EQ_L4OFF c1 Ht Hf) as [Ht1 [F1 F2 F3]].
  change (flag X_EQ_L4OFF X_EQ_L4OFF) with true in F1. rewrite orb_true_r in F1. unfold tcpfl_match. rewrite andb_assoc, F2 in *.
  pose proof (sem_byte T tblset kernel npc args ver hlen proto P false 13 tf_mask tf) as Hb. unfold tcpfl_block in He.
  pose proof (byte_block_length 13 tf_mask tf) as Hl.
  destruct (checked c); cbn [negb andb orb app] in *.
  - eapply (top_emit T tblset kernel npc args ver hlen _ _ _ 1 _ _ _ Ht1 He); [lia|done|].
    rewrite (emit_X _ _ _ _ _ He eq_refl), F1. exact Hb.
  - assert (acc (if proto =? IPPROTO_TCP then byte_test kernel args hlen 13 tf_mask tf else Some true) =
            negb (proto =? IPPROTO_TCP) || acc (byte_test kernel args hlen 13 tf_mask tf)) as <- by (by destruct (proto =? IPPROTO_TCP)).
    eapply (top_emit T tblset kernel npc args ver hlen _ _ _ 1 _ _ _ Ht1 He); [lia|done|].
    rewrite (emit_X _ _ _ _ _ He eq_refl), F1. apply (sem_if_tcp T tblset kernel npc args ver hlen proto P); [|exact Hb].
    unfold JUMP_MAGIC. lia.
Qed.

Lemma bpf_icmp_top c φ type code c' : top c φ → npfctl_bpf_icmp c type code = inl c' →
  top c' (φ && (ipver_ok AF_UNSPEC && ((type =? -1) || acc (byte_test kernel args hlen 0 (u32 type) (u32 type))) &&
                ((code =? -1) || acc (byte_test kernel args hlen 1 (u32 code) (u32 code))))).
Proof.
  intros Ht Hb. apply bpf_icmp_emit in Hb as (c1 & k & Hf & Hk & He).
  destruct (fetch_l3_top T tblset kernel npc args ver hlen proto P c φ AF_UNSPEC X_EQ_L4OFF c1 Ht Hf) as [Ht1 [F1 F2 F3]].
  change (flag X_EQ_L4OFF X_EQ_L4OFF) with true in F1. rewrite orb_true_r in F1.
  set (t off v := if v =? -1 then Some true else byte_test kernel args hlen off (u32 v) (u32 v)).
  assert (∀ off v, acc (t off v) = (v =? -1) || acc (byte_test kernel args hlen off (u32 v) (u32 v))) as Et by (intros off v; unfold t; by destruct (v =? -1)).
  rewrite <- !Et, <- (andb_assoc _ _ (acc (t 1 code))), <- acc_and, (andb_assoc φ).
  eapply (top_emit T tblset kernel npc args ver hlen _ _ _ k _ _ _ Ht1 He); [done|done|].
  rewrite (emit_X _ _ _ _ _ He eq_refl), F1. unfold icmp_code.
  apply (sem_and T tblset kernel npc args hlen _ _ true true true); unfold t.
  - destruct (type =? -1); cbn [negb]; [apply sem_true_nil|apply (sem_byte T tblset kernel npc args ver hlen proto P)].
  - destruct (code =? -1); cbn [negb]; [apply sem_true_nil|apply (sem_byte T tblset kernel npc args ver hlen proto P)].
Qed.

(** Data of a type that is no primitive one. *)
Lemma get_data_inl vars i type el el' : npfvar_get_element s vars i = inl (Some el) → npfvar_get_data s vars type i = inl el' → el' = el.
Proof.
  intros E. unfold npfvar_get_data. rewrite E. cbn [cbind]. case_if; [done|]. by intros [= <-].
Qed.

Lemma proto_block_top c φ p o pr c' : top c φ →
  match o, pr with None, None => True | Some p, Some (a, b) => var_holds s (Some p) [a; b] | _, _ => False end →
  npfctl_build_proto_block s c p o false = inl c' → top c' (φ && protos_match [(p, pr)]) ∧ checked c' = true.
Proof.
  intros Ht Ho Hb. unfold npfctl_build_proto_block in Hb. cbn [andb] in Hb. apply cbind_inl in Hb as (c1 & Hp & Hb).
  destruct (bpf_proto_top c φ (u32 p) c1 Ht Hp) as [Ht1 Hck]. cbn [protos_match].
  destruct o as [o|], pr as [[a b]|]; try done; [|by injection Hb as <-].
  destruct Ho as [Hn Hh]. pose proof (Hh 0%nat a eq_refl) as Ha. pose proof (Hh 1%nat b eq_refl) as Hb'.
  assert (∀ t r, proto_opts s o t = inl r → r = (a, b)) as Hpo.
  { intros t [a' b'] Hr. unfold proto_opts in Hr. apply cbind_inl in Hr as (n & _ & Hr). apply cbind_inl in Hr as (u & _ & Hr).
    apply cbind_inl in Hr as (a'' & H1 & Hr). apply cbind_inl in Hr as (b'' & H2 & [= <- <-]).
    by rewrite (get_data_inl _ _ _ _ _ Ha H1), (get_data_inl _ _ _ _ _ Hb' H2). }
  rewrite andb_assoc. unfold opts_match. destruct (u32 p =? IPPROTO_TCP).
  - apply cbind_inl in Hb as (r & Hr & Hb). apply Hpo in Hr as ->.
    destruct a as [| | | | | | | | |tf| | |]; try done. destruct b as [| | | | | | | | |tfm| | |]; try done.
    pose proof (bpf_tcpfl_top c1 _ tf tfm c' Ht1 Hb) as Ht2. unfold tcpfl_match in Ht2. rewrite Hck in Ht2. split; [done|].
    apply bpf_tcpfl_emit in Hb as (c2 & Hf & [] ).
    destruct (fetch_l3_top T tblset kernel npc args ver hlen proto P _ _ _ _ c2 Ht1 Hf) as [_ [_ F2 _]].
    rewrite em_flags0, flag_lor, F2, Hck. done.
  - destruct (_ || _); [|injection Hb as <-; by rewrite andb_true_r].
    apply cbind_inl in Hb as (r & Hr & Hb). apply Hpo in Hr as ->.
    destruct a as [| | | | | | | | | |ty| |]; try done. destruct b as [| | | | | | | | | |co| |]; try done.
    split; [by apply (bpf_icmp_top c1)|]. apply bpf_icmp_emit in Hb as (c2 & k & Hf & _ & []).
    destruct (fetch_l3_top T tblset kernel npc args ver hlen proto P _ _ _ _ c2 Ht1 Hf) as [_ [_ F2 _]].
    rewrite em_flags0, flag_lor, F2, Hck. done.
Qed.

(** A protocol as an alternative. *)
Lemma bpf_proto_grp c φ nb r p c' inv : grp true c φ nb r → b_invert c = inv → npfctl_bpf_proto c p = inl c' →
  grp true c' φ (S nb) (join nb r (Some (proto =? p))) ∧ b_invert c' = inv ∧ checked c' = true.
Proof.
  intros Hg Hi Hp%bpf_proto_emit. split_and!; [|destruct Hp; congruence|destruct Hp; rewrite em_flags0, flag_lor; apply orb_true_r].
  eapply (grp_emit T tblset kernel npc args ver hlen true c φ nb _ 1 _ c' r _ Hg Hp); [lia|done| |done|].
  - right. split; [done|]. by rewrite (emit_X _ _ _ _ _ Hp eq_refl).
  - rewrite (emit_X _ _ _ _ _ Hp eq_refl). apply (sem_proto T tblset kernel npc args ver hlen proto P).
Qed.

Lemma existsb_or_list (l : proto_list) :
  acc (group3 false (or_list ((λ pr : Z * option (npf_element * npf_element), Some (proto =? u32 (fst pr))) <$> l))) =
  existsb (λ pr : Z * option (npf_element * npf_element), proto =? u32 (fst pr)) l.
Proof.
  rewrite acc_group. induction l as [|pr l IH]; [done|]. cbn [fmap list_fmap or_list foldr existsb].
  destruct (proto =? u32 (fst pr)); [done|]. exact IH.
Qed.

Lemma get_proto_inl vars els protos i el pr op : var_holds s vars els →
  Forall2 (λ el pr, ∃ o, el = El_proto (fst pr) o ∧
      match o, snd pr with None, None => True | Some p, Some (a, b) => var_holds s (Some p) [a; b] | _, _ => False end) els protos →
  els !! i = Some el → protos !! i = Some pr → get_proto s vars i = inl op →
  ∃ o, op = (fst pr, o) ∧ el = El_proto (fst pr) o ∧
    match o, snd pr with None, None => True | Some p, Some (a, b) => var_holds s (Some p) [a; b] | _, _ => False end.
Proof.
  intros [_ Hh] Hf He Hp Hg. destruct (Forall2_lookup_lr _ _ _ _ _ _ Hf He Hp) as (o & -> & Ho).
  unfold get_proto in Hg. apply cbind_inl in Hg as (el & Hd & Hg). rewrite (get_data_inl _ _ _ _ _ (Hh i _ He) Hd) in Hg.
  injection Hg as <-. eauto.
Qed.

Lemma npfctl_build_proto_top c φ vars protos c' : protos_hold vars protos → protos ≠ [] → top c φ →
  npfctl_build_proto s c vars = inl c' → top c' (φ && protos_match protos) ∧ checked c' = true.
Proof.
  intros (els & Hv & Hf) Hne Ht Hb. pose proof (Forall2_length _ _ _ Hf) as Hlen. unfold npfctl_build_proto in Hb.
  rewrite (proj1 Hv) in Hb. cbn [cbind] in Hb. destruct (Z.of_nat (length els) =? 1) eqn:E1; bool_to_prop.
  - destruct els as [|el [|]]; cbn [length] in E1; try lia. destruct protos as [|[p pr] [|]]; try done.
    apply cbind_inl in Hb as (op & Hg & Hb).
    destruct (get_proto_inl vars [el] [(p, pr)] 0 el (p, pr) op Hv Hf eq_refl eq_refl Hg) as (o & -> & _ & Ho).
    by apply (proto_block_top c φ p o pr).
  - apply cbind_inl in Hb as (c1 & He & Hb). apply cbind_inl in Hb as (c2 & Hc & Hx). rewrite Nat2Z.id in Hc.
    destruct (group_enter_grp T tblset kernel npc args ver hlen true c φ _ c1 Ht He) as (Hg & Hi & _).
    set (test el := match el with El_proto p _ => Some (proto =? u32 p) | _ => None end).
    destruct (cfold_grp true (build_proto_at s vars) test (λ _, true) (λ c nb, b_invert c = false ∧ (nb ≠ O → checked c = true)) els 0 c1 φ 0 (Some false) c2)
      as (r' & Hg' & [HQ1 HQ2] & Er); [|exact Hg|done|done|exact Hc|].
    + intros j el c3 φ3 nb r c3' Hj Hb3 Hg3 [HQ _] _. apply cbind_inl in Hb3 as (op & Hgp & Hb3).
      destruct (lookup_lt_is_Some_2 protos j) as [pr Hpr]; [rewrite <- Hlen; by eapply lookup_lt_Some|].
      destruct (get_proto_inl vars els protos j el pr op Hv Hf Hj Hpr Hgp) as (o & -> & -> & Ho).
      unfold npfctl_build_proto_block in Hb3. destruct o as [o|]; [done|]. cbn in Hb3. apply cbind_inl in Hb3 as (c4 & Hp & [= <-]).
      destruct (bpf_proto_grp c3 φ3 nb r (u32 (fst pr)) c4 false Hg3 HQ Hp) as (G & I & K). rewrite andb_true_r. done.
    + destruct (group_exit_grp T tblset kernel npc args ver hlen true c2 _ _ r' c' Hg' Hx) as (Ht' & Ef & _).
      { left. cbn. destruct els as [|? [|]]; cbn [length] in *; try lia. by destruct protos. }
      rewrite HQ1 in Ht'. rewrite Ef. split; [|apply HQ2; destruct els; [by destruct protos|done]].
      assert (r' = or_list ((λ pr : Z * option (npf_element * npf_element), Some (proto =? u32 (fst pr))) <$> protos)) as ->.
      { rewrite Er. destruct els; [by destruct protos|]. f_equal. clear - Hf. induction Hf as [|? ? ? ? (o & -> & _) _ IH]; [done|].
        cbn [fmap list_fmap]. by f_equal. }
      rewrite existsb_or_list in Ht'. replace (forallb (λ _, true) els) with true in Ht' by (clear; by induction els).
      rewrite andb_true_r in Ht'. destruct protos as [|[p pr] [|q protos]]; [done|by destruct els as [|? [|]]|]. by destruct pr as [[]|].
Qed.

(** TCP or UDP, for ports without a protocol. *)
Lemma tcpudp_top c φ c' : top c φ →
  (let! bc := npfctl_bpf_group_enter c false in
   let! bc := npfctl_bpf_proto bc IPPROTO_TCP in
   let! bc := npfctl_bpf_proto bc IPPROTO_UDP in
   npfctl_bpf_group_exit bc) = inl c' → top c' (φ && ((proto =? IPPROTO_TCP) || (proto =? IPPROTO_UDP))).
Proof.
  intros Ht Hb. apply cbind_inl in Hb as (c1 & He & Hb). apply cbind_inl in Hb as (c2 & H2 & Hb). apply cbind_inl in Hb as (c3 & H3 & Hx).
  destruct (group_enter_grp T tblset kernel npc args ver hlen true c φ _ c1 Ht He) as (Hg & Hi & _).
  destruct (bpf_proto_grp c1 φ 0 _ IPPROTO_TCP c2 false Hg Hi H2) as (Hg2 & Hi2 & _).
  destruct (bpf_proto_grp c2 φ 1 _ IPPROTO_UDP c3 false Hg2 Hi2 H3) as (Hg3 & Hi3 & _).
  destruct (group_exit_grp T tblset kernel npc args ver hlen true c3 φ 2 _ c' Hg3 Hx) as (Ht' & _); [left; lia|].
  rewrite Hi3, acc_group in Ht'. by destruct (proto =? IPPROTO_TCP), (proto =? IPPROTO_UDP).
Qed.

(** ** The filter of a rule *)

(** Is the test for SYN packets added to a stateful rule? *)
Definition needs_syn (protos : proto_list) : bool :=
  match protos with [] => true | [(p, None)] => p =? IPPROTO_TCP | _ => false end.

Definition src_opts (fopts : filt_opts) : Z := MATCH_SRC ||| (if fo_finvert fopts then MATCH_INVERT else 0).
Definition dst_opts (fopts : filt_opts) : Z := MATCH_DST ||| (if fo_tinvert fopts then MATCH_INVERT else 0).

Definition any_ports (fopts : filt_opts) : bool := any_of (ap_portrange (fo_from fopts)) (ap_portrange (fo_to fopts)).

Record filter := mk_filter { f_protos : proto_list; f_from : list npf_element; f_to : list npf_element; f_sports : list npf_element; f_dports : list npf_element }.

Definition filter_match (stateful : bool) (family : Z) (fopts : filt_opts) (f : filter) : bool :=
  ((family =? AF_UNSPEC) || ipver_ok family) &&
  protos_match (f_protos f) &&
  (negb (stateful && needs_syn (f_protos f)) ||
   tcpfl_match (negb (bool_decide (f_protos f = []))) TH_SYN (TH_SYN ||| TH_ACK ||| TH_FIN ||| TH_RST)) &&
  vars_match (src_opts fopts) (f_from f) &&
  vars_match (dst_opts fopts) (f_to f) &&
  (negb (any_ports fopts && bool_decide (f_protos f = [])) || (proto =? IPPROTO_TCP) || (proto =? IPPROTO_UDP)) &&
  vars_match MATCH_SRC (f_sports f) &&
  vars_match MATCH_DST (f_dports f).

End spec.

(** ** Validity *)

(** The data of the elements is of its C type. *)
Definition el_wf (el : npf_element) : Prop :=
  match el with
  | El_fam fam => Forall (inw 32) (fam_addr fam)
  | El_table tid => inw 32 tid
  | El_port_range from to => inw 16 from ∧ inw 16 to
  | El_tcpflag tf => inw 8 tf
  | _ => True
  end.

Definition vars_wf (s : var_sys) : Prop := ∀ p v el, vs_vars s !! p = Some v → el ∈ v_elements v → el_wf el.

Section keeps.
Context (s : var_sys) (Hwf : vars_wf s).

Lemma resolves_wf p i el path : resolves s p i el path → el_wf el.
Proof. induction 1 as [p i v el Hv He _|]; [|done]. eapply Hwf; [exact Hv|by eapply list_elem_of_lookup_2]. Qed.

Lemma get_data_wf vars type i el : npfvar_get_data s vars type i = inl el → el_wf el.
Proof.
  intros Hd. unfold npfvar_get_data in Hd. apply cbind_inl in Hd as ([e|] & He & Hd); [|done].
  revert Hd. case_if; [done|]. intros [= <-]. destruct vars as [p|]; [|by unfold npfvar_get_element in He; destruct (Z.to_nat _)].
  destruct (get_element_sound _ _ _ _ _ He) as [path Hr]. by eapply resolves_wf.
Qed.

Lemma cfold_keeps {A} (f : npf_bpf → A → comp npf_bpf) l c c' : (∀ c a c', cinv c → f c a = inl c' → keeps c c') →
  cinv c → cfold f l c = inl c' → keeps c c'.
Proof.
  intros Hf. revert c. induction l as [|a l IH]; intros c Hc Hl; [injection Hl as <-; done|].
  cbn [cfold] in Hl. apply cbind_inl in Hl as (c1 & H1 & Hl). destruct (Hf _ _ _ Hc H1) as [Hc1 Hi1].
  destruct (IH c1 Hc1 Hl). split; [done|congruence].
Qed.

(** A group around code that keeps contexts well-formed. *)
Lemma group_keeps c inv c1 c2 c' : cinv c → npfctl_bpf_group_enter c inv = inl c1 → (cinv c1 → keeps c1 c2) →
  npfctl_bpf_group_exit c2 = inl c' → keeps c c'.
Proof.
  intros Hc He Hb Hx. destruct (cinv_enter _ _ _ Hc He) as [H1 I1]. destruct (Hb H1) as [H2 I2].
  destruct (cinv_exit _ _ H2 Hx) as [H3 I3]. split; [done|lia].
Qed.

Lemma build_var_keeps family vars opts c i c' : cinv c → build_var s family vars opts c i = inl c' → keeps c c'.
Proof.
  intros Hc Hb. unfold build_var in Hb. apply cbind_inl in Hb as (t & _ & Hb). apply cbind_inl in Hb as (el & Hd%get_data_wf & Hb).
  destruct el as [| | | |from to|tid|fam| | | | | |]; try done.
  - destruct Hd as [Hd1 Hd2]. exact (bpf_ports_keeps _ _ _ _ _ Hc Hd1 Hd2 Hb).
  - by eapply bpf_table_keeps.
  - apply cbind_inl in Hb as ([b c1] & Hb & [= <-]). revert Hb. unfold npfctl_build_fam.
    repeat (case_if; try done; try (by intros [= <- <-])). intros Hb. apply cbind_inl in Hb as (c2 & Hb & [= <- <-]).
    by eapply bpf_cidr_keeps.
Qed.

Lemma build_vars_keeps c family vars opts c' : cinv c → npfctl_build_vars s c family vars opts = inl c' → keeps c c'.
Proof.
  intros Hc Hb. unfold npfctl_build_vars in Hb. apply cbind_inl in Hb as (c1 & He & Hb). apply cbind_inl in Hb as (n & _ & Hb).
  apply cbind_inl in Hb as (c2 & Hf & Hx). eapply group_keeps; [done|exact He| |exact Hx]. intros H1.
  eapply cfold_keeps; [|exact H1|exact Hf]. intros c3 i c4. apply build_var_keeps.
Qed.

Lemma proto_opts_wf popts t a b : proto_opts s popts t = inl (a, b) → el_wf a ∧ el_wf b.
Proof.
  intros Hp. unfold proto_opts in Hp. apply cbind_inl in Hp as (n & _ & Hp). apply cbind_inl in Hp as (u & _ & Hp).
  apply cbind_inl in Hp as (a' & Ha%get_data_wf & Hp). apply cbind_inl in Hp as (b' & Hb%get_data_wf & [= <- <-]). done.
Qed.

Lemma proto_block_keeps c p o multiple c' : cinv c → npfctl_build_proto_block s c p o multiple = inl c' → keeps c c'.
Proof.
  intros Hc Hb. unfold npfctl_build_proto_block in Hb. destruct (multiple && _); [done|]. apply cbind_inl in Hb as (c1 & Hp & Hb).
  apply bpf_proto_keeps in Hp as [H1 I1]; [|done|by apply wrap_range].
  assert (keeps c1 c' → keeps c c') as Htr by (intros [? ?]; split; [done|congruence]). apply Htr. clear Htr.
  destruct o as [o|]; [|by injection Hb as <-]. destruct (_ =? IPPROTO_TCP).
  - apply cbind_inl in Hb as ([a b] & [Ha Hb']%proto_opts_wf & Hb). destruct a; try done. destruct b; try done. exact (bpf_tcpfl_keeps _ _ _ _ H1 Ha Hb' Hb).
  - destruct (_ || _); [|by injection Hb as <-]. apply cbind_inl in Hb as ([a b] & _ & Hb). destruct a; try done. destruct b; try done.
    by eapply bpf_icmp_keeps.
Qed.

Lemma build_proto_keeps c vars c' : cinv c → npfctl_build_proto s c vars = inl c' → keeps c c'.
Proof.
  intros Hc Hb. unfold npfctl_build_proto in Hb. apply cbind_inl in Hb as (n & _ & Hb). destruct (n =? 1).
  - apply cbind_inl in Hb as ([p o] & _ & Hb). by eapply proto_block_keeps.
  - apply cbind_inl in Hb as (c1 & He & Hb). apply cbind_inl in Hb as (c2 & Hf & Hx). eapply group_keeps; [done|exact He| |exact Hx].
    intros H1. eapply cfold_keeps; [|exact H1|exact Hf]. intros c3 i c4 H3 Hp. unfold build_proto_at in Hp.
    apply cbind_inl in Hp as ([p o] & _ & Hp). by eapply proto_block_keeps.
Qed.

End keeps.

(** The blocks of a rule. *)
Lemma build_blocks_keeps s stateful family popts fopts a b p c' : vars_wf s →
  build_blocks s stateful family popts fopts a b p = inl c' → cinv c' ∧ b_goff c' = 0.
Proof.
  intros Hwf Hb. unfold build_blocks in Hb.
  assert (∀ c c1 c2, keeps c c1 → (cinv c1 → keeps c1 c2) → keeps c c2) as Htr.
  { intros c c1 c2 [H1 I1] H2. destruct (H2 H1). split; [done|congruence]. }
  assert (keeps npfctl_bpf_create c') as [Hc Hi]; [|split; [done|by apply (ci_out _ Hc)]].
  apply cbind_inl in Hb as (c1 & H1 & Hb). apply cbind_inl in Hb as (c2 & H2 & Hb). apply cbind_inl in Hb as (c3 & H3 & Hb).
  apply cbind_inl in Hb as (c4 & H4 & Hb). apply cbind_inl in Hb as (c5 & H5 & Hb). apply cbind_inl in Hb as (c6 & H6 & Hb).
  apply cbind_inl in Hb as (c7 & H7 & Hb).
  apply (Htr _ c7); [|intros; by eapply build_vars_keeps]. apply (Htr _ c6); [|intros; by eapply build_vars_keeps].
  apply (Htr _ c5); [|intros Hc5; revert H6; case_if; [|by intros [= <-]]].
  2:{ intros H6. apply cbind_inl in H6 as (d1 & Q1 & H6). apply cbind_inl in H6 as (d2 & Q2 & H6). apply cbind_inl in H6 as (d3 & Q3 & Q4).
      eapply group_keeps; [done|exact Q1| |exact Q4]. intros Hd1. apply (Htr _ d2); [exact (bpf_proto_keeps _ IPPROTO_TCP _ Hd1 ltac:(done) Q2)|intros Hd2; exact (bpf_proto_keeps _ IPPROTO_UDP _ Hd2 ltac:(done) Q3)]. }
  apply (Htr _ c4); [|intros; by eapply build_vars_keeps]. apply (Htr _ c3); [|intros; by eapply build_vars_keeps].
  apply (Htr _ c2); [|intros; revert H3; case_if; [|by intros [= <-]]; by apply bpf_tcpfl_keeps].
  apply (Htr _ c1); [|intros; revert H2; case_if; [|by intros [= <-]]; by apply build_proto_keeps].
  revert H1. case_if; [|intros [= <-]; split; [apply cinv_create|done]]. apply cinv_fetch, cinv_create.
Qed.

(** The code of a rule is well-formed and the validator accepts it. *)
Lemma build_code_ok {M L C : Type} `{TL : thmap_laws npf_tblent M} `{LL : lpm_laws npf_tblent L} {CO : cdbr_ops C}
    (T : gmap Z (npf_table (M := M) (L := L) (C := C))) tblset npc s stateful family popts fopts any marks prog :
  vars_wf s → npfctl_build_code s stateful family popts fopts = inl (any, marks, Some prog) →
  npf_bpf_validate T tblset npc prog = true ∧ Forall insn_wf prog ∧ Forall (λ p, implemented p = true) prog ∧
  (length prog <= 256)%nat.
Proof.
  intros Hwf Hb. unfold npfctl_build_code in Hb. apply cbind_inl in Hb as ([[a n] b] & _ & Hb).
  destruct (_ && negb stateful); [done|]. destruct (_ && n); [done|]. apply cbind_inl in Hb as (c & Hc & Hb).
  apply cbind_inl in Hb as (bf & Hp & [= <- <- ->]).
  destruct (build_blocks_keeps _ _ _ _ _ _ _ _ _ Hwf Hc) as [Hi Hg].
  assert (ublock (b_prog c)) as Hu by (pose proof (ci_grp c Hi) as Hu; by rewrite Hg, drop_0 in Hu).
  destruct (complete_vblock c prog Hu Hp) as (Hv & Hl & _). destruct (vblock_wf prog Hv Hl).
  split_and!; [by eapply complete_validates|done..].
Qed.

(** C20: Whatever the options of a rule are, the program that npfctl generates
    for it is accepted by the validator of the kernel, for any set of tables;
    its instructions are well-formed and implemented by the interpreter, so that
    the kernel can run it on every packet. *)
Theorem npfctl_build_code_validates {M L C : Type} `{TL : thmap_laws npf_tblent M} `{LL : lpm_laws npf_tblent L} {CO : cdbr_ops C}
    (T : gmap Z (npf_table (M := M) (L := L) (C := C))) tblset npc s stateful family popts fopts any marks prog :
  vars_wf s → npfctl_build_code s stateful family popts fopts = inl (any, marks, Some prog) →
  npf_bpf_validate T tblset npc prog = true ∧ Forall insn_wf prog ∧ Forall (λ p, implemented p = true) prog ∧
  (length prog <= 256)%nat.
Proof. apply build_code_ok. Qed.

(** *** The meaning of the code *)

Section correct.
Context {M L C : Type} `{TL : thmap_laws npf_tblent M} `{LL : lpm_laws npf_tblent L} {CO : cdbr_ops C}.
Context (T : gmap Z (npf_table (M := M) (L := L) (C := C))) (tblset : list (option Z)).
Context (kernel : bool) (npc : npf_cache_t) (args : bpf_args) (ver hlen proto : Z).
Context (P : prepared T tblset npc args ver hlen proto) (s : var_sys).

(** The options are those of the filter, of the kind that is compiled as it
    reads; a stateful rule does not mix TCP with other protocols. *)
Record filter_ok (stateful : bool) (family : Z) (popts : option Z) (fopts : filt_opts) (f : filter) : Prop := {
  fk_protos : protos_hold s popts (f_protos f);
  fk_from : var_holds s (ap_netaddr (fo_from fopts)) (f_from f) ∧ vars_ok family (src_opts fopts) (f_from f);
  fk_to : var_holds s (ap_netaddr (fo_to fopts)) (f_to f) ∧ vars_ok family (dst_opts fopts) (f_to f);
  fk_sports : var_holds s (ap_portrange (fo_from fopts)) (f_sports f) ∧ vars_ok family MATCH_SRC (f_sports f);
  fk_dports : var_holds s (ap_portrange (fo_to fopts)) (f_dports f) ∧ vars_ok family MATCH_DST (f_dports f);
  fk_syn : stateful = true → (length (f_protos f) <= 1)%nat ∨ Forall (λ pr, fst pr ≠ IPPROTO_TCP) (f_protos f);
}.

Lemma check_fold vars els protos i l : var_holds s vars els →
  Forall2 (λ el pr, ∃ o, el = El_proto (fst pr) o ∧
      match o, snd pr with None, None => True | Some p, Some (a, b) => var_holds s (Some p) [a; b] | _, _ => False end) els protos →
  Forall (λ pr, fst pr ≠ IPPROTO_TCP) protos → ∀ r r', (i + l <= length els)%nat → snd r = false →
  cfold (λ r i, let! op := get_proto s vars i in inl (check_proto r op)) (seq i l) r = inl r' → snd r' = false.
Proof.
  intros Hv Hf Hn. revert i. induction l as [|l IH]; intros i r r' Hl Hr Hc; [by injection Hc as <-|].
  cbn [seq cfold] in Hc. apply cbind_inl in Hc as (r1 & H1 & Hc). apply cbind_inl in H1 as (op & Hg & [= <-]).
  eapply (IH (S i)); [lia| |exact Hc].
  destruct (lookup_lt_is_Some_2 els i) as [el Hel]; [lia|]. destruct (Forall2_lookup_l _ _ _ _ _ Hf Hel) as (pr & Hpr & _).
  destruct (get_proto_inl s vars els protos i el pr op Hv Hf Hel Hpr Hg) as (o & -> & _).
  rewrite Forall_lookup in Hn. specialize (Hn i pr Hpr). destruct r as [x y]. cbn in Hr. subst y. unfold check_proto. cbn [fst].
  rewrite (proj2 (Z.eqb_neq _ _) Hn). by case_if.
Qed.

Lemma check_proto_any stateful popts protos a n b : protos_hold s popts protos →
  (stateful = true → (length protos <= 1)%nat ∨ Forall (λ pr, fst pr ≠ IPPROTO_TCP) protos) →
  npfctl_check_proto s popts = inl (a, n, b) →
  a = negb (bool_decide (protos = [])) ∧ (stateful = true → negb a || b = needs_syn protos).
Proof.
  intros (els & Hv & Hf) Hs Hc. pose proof (Forall2_length _ _ _ Hf) as Hlen. destruct popts as [p|]; cbn [npfctl_check_proto] in Hc.
  2:{ injection Hc as <- <- <-. destruct Hv as [Hn _]. cbn in Hn. destruct els; [|done]. by destruct protos. }
  rewrite (proj1 Hv) in Hc. cbn [cbind] in Hc. rewrite Nat2Z.id in Hc. apply cbind_inl in Hc as ([x y] & Hr & [= <- <- <-]).
  assert (negb (Z.of_nat (length els) =? 0) = negb (bool_decide (protos = []))) as ->.
  { f_equal. destruct protos, els; try done. }
  split; [done|]. intros Hst. destruct protos as [|pr protos]; [done|]. cbn [needs_syn]. rewrite bool_decide_eq_false_2 by done. cbn [negb orb].
  destruct (decide (Forall (λ pr, fst pr ≠ IPPROTO_TCP) (pr :: protos))) as [Hn|Hn].
  - pose proof (check_fold (Some p) els (pr :: protos) 0 (length els) Hv Hf Hn (false, false) (x, y)) as Hy.
    cbn in Hy. rewrite Hy by done. apply Forall_cons in Hn as [Hn _]. destruct pr as [q [|]]; [by destruct protos|].
    destruct protos; [|done]. cbn in *. by rewrite (proj2 (Z.eqb_neq _ _) Hn).
  - destruct (Hs Hst) as [Hl|?]; [|done]. destruct protos; [|cbn in Hl; lia]. destruct els as [|el [|]]; try done.
    cbn [length seq cfold] in Hr. apply cbind_inl in Hr as (r1 & H1 & [= ->]). apply cbind_inl in H1 as (op & Hg & [= E1]).
    destruct (get_proto_inl s (Some p) [el] [pr] 0 el pr op Hv Hf eq_refl eq_refl Hg) as (o & -> & _ & Ho).
    destruct pr as [q pr]. cbn [fst snd] in *.
    assert (q = IPPROTO_TCP) as -> by (destruct (decide (q = IPPROTO_TCP)); [done|destruct Hn; by repeat constructor]).
    cbn in E1. injection E1 as <- <-. cbn. by destruct o, pr as [[]|].
Qed.

Abbreviation top := (top T tblset kernel npc args ver hlen).

(** The blocks of a rule together are its filter. *)
Lemma build_blocks_top stateful family popts fopts f a b c' : filter_ok stateful family popts fopts f →
  a = negb (bool_decide (f_protos f = [])) → (stateful = true → negb a || b = needs_syn (f_protos f)) →
  build_blocks s stateful family popts fopts a b (any_ports fopts) = inl c' →
  top c' (filter_match T tblset kernel npc args ver hlen proto stateful family fopts f).
Proof.
  intros [K1 [K2 K2'] [K3 K3'] [K4 K4'] [K5 K5'] _] Ea Eb Hb. unfold build_blocks in Hb.
  apply cbind_inl in Hb as (c1 & H1 & Hb). apply cbind_inl in Hb as (c2 & H2 & Hb). apply cbind_inl in Hb as (c3 & H3 & Hb).
  apply cbind_inl in Hb as (c4 & H4 & Hb). apply cbind_inl in Hb as (c5 & H5 & Hb). apply cbind_inl in Hb as (c6 & H6 & Hb).
  apply cbind_inl in Hb as (c7 & H7 & Hb). pose proof (top_create T tblset kernel npc args ver hlen) as Ht.
  assert (top c1 ((family =? AF_UNSPEC) || ipver_ok ver family) ∧ flag (b_flags c1) CHECKED_L4_PROTO = false) as [T1 F1].
  { destruct (family =? AF_UNSPEC); cbn [negb] in H1; [by injection H1 as <-|].
    unfold npfctl_bpf_ipver in H1.
    by destruct (fetch_l3_top T tblset kernel npc args ver hlen proto P _ _ _ _ _ Ht H1) as [? [_ -> _]]. }
  assert (top c2 (((family =? AF_UNSPEC) || ipver_ok ver family) && protos_match kernel args ver hlen proto (f_protos f)) ∧
          flag (b_flags c2) CHECKED_L4_PROTO = a) as [T2 F2].
  { case_bool_decide as En; cbn in Ea; subst a; [injection H2 as <-; rewrite En; cbn [protos_match]; by rewrite andb_true_r|].
    by eapply npfctl_build_proto_top. }
  unfold filter_match.
  eapply (npfctl_build_vars_top T tblset kernel npc args ver hlen proto P s c7 _ family); [exact K5|exact K5'| |exact Hb].
  eapply (npfctl_build_vars_top T tblset kernel npc args ver hlen proto P s c6 _ family); [exact K4|exact K4'| |exact H7].
  set (φ2 := ((family =? AF_UNSPEC) || ipver_ok ver family) && _) in *.
  assert (top c3 (φ2 && (negb (stateful && needs_syn (f_protos f)) || tcpfl_match kernel args ver hlen proto a TH_SYN (TH_SYN ||| TH_ACK ||| TH_FIN ||| TH_RST)))) as T3.
  { destruct stateful; cbn [andb negb orb] in H3 |- *; [|injection H3 as <-; by rewrite andb_true_r].
    rewrite Eb in H3 by done. destruct (needs_syn _); cbn [negb orb]; [|injection H3 as <-; by rewrite andb_true_r].
    rewrite <- F2. by apply (bpf_tcpfl_top T tblset kernel npc args ver hlen proto P c2). }
  pose proof (npfctl_build_vars_top T tblset kernel npc args ver hlen proto P s c3 _ family _ _ _ c4 K2 K2' T3 H4) as T4.
  pose proof (npfctl_build_vars_top T tblset kernel npc args ver hlen proto P s c4 _ family _ _ _ c5 K3 K3' T4 H5) as T5.
  rewrite <- Ea. assert (bool_decide (f_protos f = []) = negb a) as -> by (by subst a; rewrite negb_involutive).
  destruct (any_ports fopts && negb a); cbn [negb orb]; [|injection H6 as <-; rewrite andb_true_r; exact T5].
  exact (tcpudp_top T tblset kernel npc args ver hlen proto P c5 _ c6 T5 H6).
Qed.

(** Without criteria there is no restriction. *)
Lemma no_criteria family popts fopts f : filter_ok false family popts fopts f → f_protos f = [] → family = AF_UNSPEC →
  any_of (ap_netaddr (fo_from fopts)) (ap_netaddr (fo_to fopts)) = false → any_ports fopts = false →
  filter_match T tblset kernel npc args ver hlen proto false family fopts f = true.
Proof.
  intros [_ [K2 _] [K3 _] [K4 _] [K5 _] _] Ep -> Ha Hp. unfold filter_match. rewrite Hp, Ep. clear Ep.
  assert (∀ v els, var_holds s v els → bool_decide (is_Some v) = false → els = []) as Hnil.
  { intros [p|] els [Hn _] Hv; [by rewrite bool_decide_eq_false in Hv; destruct Hv; eauto|].
    cbn in Hn. by destruct els. }
  apply orb_false_iff in Ha as [Ha1 Ha2], Hp as [Hp1 Hp2].
  by rewrite (Hnil _ _ K2 Ha1), (Hnil _ _ K3 Ha2), (Hnil _ _ K4 Hp1), (Hnil _ _ K5 Hp2).
Qed.

(** The code of a rule on a packet. *)
Lemma build_code_correct stateful family popts fopts f any marks code : vars_wf s →
  filter_ok stateful family popts fopts f →
  npfctl_build_code s stateful family popts fopts = inl (any, marks, code) →
  let m := filter_match T tblset kernel npc args ver hlen proto stateful family fopts f in
  match code with
  | Some prog => npf_bpf_filter T tblset kernel npc args (Some prog) None =
                   Some (inl (if m then NPF_BPF_SUCCESS else NPF_BPF_FAILURE))
  | None => m = true
  end.
Proof.
  intros Hwf Hk Hb m. unfold npfctl_build_code in Hb. apply cbind_inl in Hb as ([[a n] b] & Hc & Hb).
  destruct (check_proto_any stateful popts (f_protos f) a n b (fk_protos _ _ _ _ _ Hk) (fk_syn _ _ _ _ _ Hk) Hc) as [Ea Eb].
  destruct (_ && negb stateful) eqn:En.
  { injection Hb as <- <- <-. apply andb_prop in En as [[[[Hf Ha]%negb_true_iff%orb_false_iff Haddr]%andb_prop Hports]%andb_prop ->%negb_true_iff].
    apply negb_true_iff in Haddr, Hports. apply negb_false_iff, Z.eqb_eq in Hf. subst m. rewrite Ea in Ha.
    apply no_criteria with popts; [done| |done..]. by rewrite negb_false_iff, bool_decide_eq_true in Ha. }
  destruct (_ && n); [done|]. apply cbind_inl in Hb as (c & Hbl & Hb). apply cbind_inl in Hb as (bf & Hp & [= <- <- <-]).
  destruct (build_blocks_keeps _ _ _ _ _ _ _ _ _ Hwf Hbl) as [Hi Hg].
  assert (ublock (b_prog c)) as Hu by (pose proof (ci_grp c Hi) as Hu; by rewrite Hg, drop_0 in Hu).
  pose proof (build_blocks_top _ _ _ _ _ _ _ _ Hk Ea Eb Hbl) as Ht. fold m in Ht.
  destruct bf as [prog|]; [by eapply complete_correct|].
  assert (b_prog c = []) as En'.
  { unfold npfctl_bpf_complete in Hp. destruct (bf_len c =? 0) eqn:El; [|by apply cbind_inl in Hp as (? & _ & ?)].
    apply Z.eqb_eq in El. unfold bf_len in El. by destruct (b_prog c). }
  destruct (tp_sem _ _ _ _ _ _ _ _ _ Ht) as (r & Hs & <-). rewrite En' in Hs.
  specialize (Hs 0%nat (mk_st 0 0 args)). destruct r as [[]|]; [done| |]; (lapply Hs; [|by repeat split]).
  - by intros (st' & E & _).
  - done.
Qed.

End correct.

Lemma prepare_prepared {M L C : Type} `{TL : thmap_laws npf_tblent M} `{LL : lpm_laws npf_tblent L} {CO : cdbr_ops C}
    (T : gmap Z (npf_table (M := M) (L := L) (C := C))) tblset kernel npc m :
  readable kernel (npc_nbuf npc) → length m = 3%nat → (∀ i v, m !! i = Some (Some v) → inw 32 v) →
  prepared T tblset npc (npf_bpf_prepare kernel npc m) (alen_version (npc_alen npc)) (u32 (npc_hlen npc)) (u32 (npc_proto npc)).
Proof.
  intros Hr Hm Hv. split; [by apply npf_bpf_prepare_ok|..]; destruct m as [|a [|b [|c [|]]]]; try done; by destruct kernel.
Qed.

(** C6: The BPF program that npfctl compiles from the options of a rule means,
    on the machine of the kernel, what the options say, for the options that
    are compiled as they read ([filter_ok]): no address is the zero network or
    of another family than the rule's; in a list of several elements, and in
    an inverted one, ports are single ones (no ranges) and IPv6 networks have
    a mask of 1 to 32 bits (no full IPv6 addresses); a list has ports only or
    no ports; a stateful rule has at most one protocol or TCP is not among
    them.  Outside of that the code is known to mean something else:
    [port_range_in_list], [ip6_addresses_in_list], [stateful_tcp_udp],
    [zero_network] and [interface_family] below.  Assumed too: the elements of
    the variables have the ranges of their C types, the mbufs of the packet
    are not empty (in the standalone configuration the packet is contiguous),
    and the compilation succeeds.  Then the program returns its success value
    if and only if the packet has the address family, one of the protocols
    (with the TCP flags or the ICMP type and code when there is one protocol),
    a source and a destination that are among (or, inverted, not among) the
    addresses, networks and tables, and ports among those listed.  A list asks
    for the IP version of every address in it, so that one of both families
    matches nothing; a field outside of the packet fails its test; a stateful
    rule without a protocol, or for TCP without flags, takes only SYN segments
    of TCP.  Without code, every packet matches. *)
Theorem npfctl_build_code_correct {M L C : Type} `{TL : thmap_laws npf_tblent M} `{LL : lpm_laws npf_tblent L} {CO : cdbr_ops C}
    (T : gmap Z (npf_table (M := M) (L := L) (C := C))) tblset kernel npc m s stateful family popts fopts f any marks code :
  readable kernel (npc_nbuf npc) → length m = 3%nat → (∀ i v, m !! i = Some (Some v) → inw 32 v) →
  vars_wf s → filter_ok s stateful family popts fopts f →
  npfctl_build_code s stateful family popts fopts = inl (any, marks, code) →
  let args := npf_bpf_prepare kernel npc m in
  let matches := filter_match T tblset kernel npc args (alen_version (npc_alen npc)) (u32 (npc_hlen npc)) (u32 (npc_proto npc))
                   stateful family fopts f in
  match code with
  | Some prog => npf_bpf_filter T tblset kernel npc args (Some prog) None =
                   Some (inl (if matches then NPF_BPF_SUCCESS else NPF_BPF_FAILURE))
  | None => matches = true
  end.
Proof.
  intros Hr Hm Hv. apply build_code_correct. by apply prepare_prepared.
Qed.

(** ** Samples *)

(** Compile the options and run the code on a packet of one mbuf.  The
    variables of the options: addresses 1 and 2, ports 3 and 4, protocols 5. *)
Definition mk_vars5 (from to sport dport protos : list npf_element) : var_sys :=
  let var l := mk_var None l (Z.of_nat (length l)) in
  mk_vars {[1 := var from; 2 := var to; 3 := var sport; 4 := var dport; 5 := var protos]} [] 5 6.

Definition opt_var (p : Z) (l : list npf_element) : option Z := match l with [] => None | _ => Some p end.

Record sample_rule := mk_sample {
  sr_stateful : bool; sr_family : Z; sr_protos : list npf_element;
  sr_from : list npf_element; sr_finvert : bool; sr_to : list npf_element;
  sr_sports : list npf_element; sr_dports : list npf_element;
}.

Definition sample_build (r : sample_rule) : comp (bool * list Z * option (list bpf_insn)) :=
  npfctl_build_code (mk_vars5 (sr_from r) (sr_to r) (sr_sports r) (sr_dports r) (sr_protos r))
    (sr_stateful r) (sr_family r) (opt_var 5 (sr_protos r))
    (mk_fopts (mk_ap (opt_var 1 (sr_from r)) (opt_var 3 (sr_sports r))) (mk_ap (opt_var 2 (sr_to r)) (opt_var 4 (sr_dports r)))
       (sr_finvert r) false).

Definition sample_match (r : sample_rule) (p : list Z) : option (Z + fault) :=
  '(_, npc) ← npf_cache_all (M := linear_mbufops) (flat_npc no_drop p 1);
  match sample_build r with
  | inl (_, _, Some code) =>
      npf_bpf_filter no_tables [] true npc (npf_bpf_prepare true npc (replicate 3 None)) (Some code) None
  | _ => None
  end.

(** UDP from 10.0.0.1 to 10.0.0.2 port 53; [sample_tcp4] is TCP between the
    same hosts, to port 80. *)
Definition sample_udp4 : list Z :=
  [0x45; 0; 0; 36; 0; 1; 0; 0; 64; 17; 0; 0; 10; 0; 0; 1; 10; 0; 0; 2; 4; 210; 0; 53; 0; 16; 0; 0; 1; 2; 3; 4; 5; 6; 7; 8].

Definition tcp_rule (dports : list npf_element) : sample_rule :=
  mk_sample false AF_UNSPEC [El_proto IPPROTO_TCP None] [] false [] [] dports.
Definition from_rule (family : Z) (invert : bool) (from : list npf_element) : sample_rule :=
  mk_sample false family [] from invert [] [] [].
Definition port (p : Z) : npf_element := El_port_range (htons p) (htons p).
Definition ip4 (a b c d mask : Z) : npf_element :=
  El_fam (mk_fam AF_INET [a ||| (b <<< 8) ||| (c <<< 16) ||| (d <<< 24); 0; 0; 0] mask 0).
(** The hosts 2001:db8::1 and 2001:db8::2, and a SYN from fe80::1 port 12345
    to fe80::2 port 80. *)
Definition ip6_doc (n : Z) : npf_element := El_fam (mk_fam AF_INET6 [0xb80d0120; 0; 0; n <<< 24] NPF_NO_NETMASK 0).
Definition sample_ll6 : list Z :=
  [0x60; 0; 0; 0; 0; 20; 6; 64] ++ [0xfe; 0x80; 0; 0; 0; 0; 0; 0; 0; 0; 0; 0; 0; 0; 0; 1] ++
  [0xfe; 0x80; 0; 0; 0; 0; 0; 0; 0; 0; 0; 0; 0; 0; 0; 2] ++
  [0x30; 0x39; 0; 80; 0; 0; 0; 1; 0; 0; 0; 0; 0x50; 2; 0x20; 0; 0; 0; 0; 0].

Abbreviation matched := (Some (inl NPF_BPF_SUCCESS)).
Abbreviation unmatched := (Some (inl NPF_BPF_FAILURE)).

(** A rule for TCP from two networks to a port. *)
Definition web_rule : sample_rule :=
  mk_sample false AF_INET [El_proto IPPROTO_TCP None] [ip4 192 168 0 0 16; ip4 10 0 0 0 8] false [] [] [port 80].
Definition web_filter : filter := mk_filter [(IPPROTO_TCP, None)] (sr_from web_rule) [] [] (sr_dports web_rule).
Definition rule_vars (r : sample_rule) : var_sys := mk_vars5 (sr_from r) (sr_to r) (sr_sports r) (sr_dports r) (sr_protos r).
Definition rule_fopts (r : sample_rule) : filt_opts :=
  mk_fopts (mk_ap (opt_var 1 (sr_from r)) (opt_var 3 (sr_sports r))) (mk_ap (opt_var 2 (sr_to r)) (opt_var 4 (sr_dports r)))
       (sr_finvert r) false.
Abbreviation web_code := (match sample_build web_rule with inl (_, _, Some code) => code | _ => [] end).
Abbreviation web_marks := (match sample_build web_rule with inl (_, m, _) => m | _ => [] end).
Abbreviation tcp4_npc := (match @npf_cache_all linear_mbufops (flat_npc no_drop sample_tcp4 1) with Some (_, npc) => npc | None => flat_npc no_drop [] 1 end).

Ltac holds_concrete :=
  split; [reflexivity|]; intros [|[|[|?]]] ? ?Hl; try discriminate Hl; injection Hl as <-; vm_compute; reflexivity.

Lemma web_vars_wf : vars_wf (rule_vars web_rule).
Proof.
  intros p v el Hv He. unfold rule_vars, mk_vars5 in Hv. cbn [vs_vars] in Hv. repeat setoid_rewrite lookup_insert_Some in Hv.
  destruct Hv as [[_ <-]|[_ [[_ <-]|[_ [[_ <-]|[_ [[_ <-]|[_ [[_ <-]|[_ Hv]]]]]]]]]]; [..|by rewrite lookup_empty in Hv];
    cbn in He; repeat (apply elem_of_cons in He as [->|He]; [cbn; repeat constructor; done|]); by apply elem_of_nil in He.
Qed.

Lemma web_filter_ok : filter_ok (rule_vars web_rule) false AF_INET (Some 5) (rule_fopts web_rule) web_filter.
Proof.
  assert (∀ family opts, vars_ok family opts []) as Hnil by (intros; repeat constructor).
  split; [exists (sr_protos web_rule); split; [holds_concrete|repeat econstructor]| | | | |done].
  - split; [holds_concrete|]. split; [|right; repeat constructor|right; by repeat constructor].
    repeat (apply Forall_cons; split; [split; [done|by right]|]). constructor.
  - split; [holds_concrete|apply Hnil].
  - split; [holds_concrete|apply Hnil].
  - split; [holds_concrete|]. split; [by repeat constructor|right; by repeat constructor|left; by repeat constructor].
Qed.

Lemma npfctl_build_code_validates_witness :
  npf_bpf_validate no_tables [] tcp4_npc web_code = true ∧ length web_code = 16%nat.
Proof.
  split; [|vm_compute; reflexivity].
  apply (npfctl_build_code_validates no_tables [] tcp4_npc (rule_vars web_rule) false AF_INET (Some 5) (rule_fopts web_rule) true web_marks web_code).
  - apply web_vars_wf.
  - vm_compute. reflexivity.
Defined.

Lemma npfctl_build_code_correct_witness :
  npf_bpf_filter no_tables [] true tcp4_npc (npf_bpf_prepare true tcp4_npc (replicate 3 None)) (Some web_code) None = matched.
Proof.
  refine (eq_trans (npfctl_build_code_correct no_tables [] true tcp4_npc (replicate 3 None) (rule_vars web_rule) false AF_INET (Some 5)
    (rule_fopts web_rule) web_filter true web_marks (Some web_code) _ eq_refl _ web_vars_wf web_filter_ok _) _).
  - split; [|done]. constructor; [|constructor]. split; [apply bytes_ok_concrete; vm_compute; reflexivity|vm_compute; discriminate].
  - intros [|[|[|]]] v Hv; discriminate Hv.
  - vm_compute. reflexivity.
  - vm_compute. reflexivity.
Defined.

(** ** Options that are not compiled as they read *)

(** A port range among several alternatives never matches: its block has no
    jump to the end of the group. *)
Theorem port_range_in_list : let range := El_port_range (htons 79) (htons 90) in
  sample_match (tcp_rule [range]) sample_tcp4 = matched ∧
  sample_match (tcp_rule [range; port 443]) sample_tcp4 = unmatched ∧
  sample_match (tcp_rule [port 443; port 80]) sample_tcp4 = matched.
Proof. vm_compute. split_and!; reflexivity. Qed.

(** In a list of IPv6 addresses each 32-bit word is an alternative of its own:
    fe80::1 matches the list of two hosts of 2001:db8::/32. *)
Theorem ip6_addresses_in_list :
  sample_match (from_rule AF_UNSPEC false [ip6_doc 1]) sample_ll6 = unmatched ∧
  sample_match (from_rule AF_UNSPEC false [ip6_doc 1; ip6_doc 2]) sample_ll6 = matched.
Proof. vm_compute. split; reflexivity. Qed.

(** Of a stateful rule for TCP and UDP, no UDP packet passes the test of the
    TCP flags; of one for UDP alone, it does. *)
Theorem stateful_tcp_udp : let rule protos := mk_sample true AF_UNSPEC protos [] false [] [] [] in
  sample_match (rule [El_proto IPPROTO_UDP None]) sample_udp4 = matched ∧
  sample_match (rule [El_proto IPPROTO_TCP None; El_proto IPPROTO_UDP None]) sample_udp4 = unmatched.
Proof. vm_compute. split; reflexivity. Qed.

(** An address after a table fails an assertion; before it, it does not. *)
Theorem table_before_address : let host := ip4 10 0 0 1 NPF_NO_NETMASK in
  sample_build (from_rule AF_UNSPEC false [El_table 1; host]) = inr E_assert ∧
  ∃ r, sample_build (from_rule AF_UNSPEC false [host; El_table 1]) = inl r.
Proof. split; [vm_compute; reflexivity|]. eexists. vm_compute. reflexivity. Qed.

(** The network of all addresses is left out: in a list, it does not make the
    list match all; inverted, it matches all. *)
Theorem zero_network : let all := ip4 0 0 0 0 0 in
  sample_match (from_rule AF_UNSPEC false [ip4 10 0 0 9 NPF_NO_NETMASK]) sample_udp4 = unmatched ∧
  sample_match (from_rule AF_UNSPEC false [all; ip4 10 0 0 9 NPF_NO_NETMASK]) sample_udp4 = unmatched ∧
  sample_match (from_rule AF_INET true [all]) sample_udp4 = matched.
Proof. vm_compute. split_and!; reflexivity. Qed.

(** Addresses of an interface that are of another family are left out: when all
    are, the rule matches every source. *)
Theorem interface_family :
  sample_match (from_rule AF_INET false [El_fam (mk_fam AF_INET6 [0xb80d0120; 0; 0; 0x02000000] NPF_NO_NETMASK 3)]) sample_udp4 = matched.
Proof. vm_compute. reflexivity. Qed.

End NpfBuild.
