(* ===== verification/NpfData.v ===== *)
(** * NpfData: numbers, addresses, ports and interfaces of the configuration (src/npfctl/npf_data.c)

    The actions of the grammar call these routines to turn the words of
    npf.conf into typed variables: masks, address families, port ranges, TCP
    flags, ICMP types, numbers with a unit and interface addresses; and
    [npfctl_npt66_calcadj] computes the adjustment of an NPTv6 mapping.  What
    the host answers ([getaddrinfo], [getifaddrs], [if_nametoindex],
    [getprotobyname], the ICMP names of the system's headers) is the record
    [netdb] of parameters.  [strtol], [atoll] and the [%lu] conversion are
    modelled, as the masks go through them. *)

From S2P Require Import Prelude NpfVar Nbuf Addr Cksum Cache Rewrite Tcpopt StateTcp Thmap ConnKey Tableset Bpf NpfBpf BpfComp NpfBuild.
From stdpp Require Import strings.
Open Scope Z_scope.
Open Scope npf_scope.

Module NpfData.
Export NpfBuild.

(** ** Numbers in strings *)

Definition ch (c : Ascii.ascii) : Z := Z.of_N (Ascii.N_of_ascii c).

Definition isspace (c : Ascii.ascii) : bool := (ch c =? 32) || (9 <=? ch c) && (ch c <=? 13).
Definition isdigit (c : Ascii.ascii) : bool := (48 <=? ch c) && (ch c <=? 57).
Definition isupper (c : Ascii.ascii) : bool := (65 <=? ch c) && (ch c <=? 90).
Definition islower (c : Ascii.ascii) : bool := (97 <=? ch c) && (ch c <=? 122).
Definition isalpha (c : Ascii.ascii) : bool := isupper c || islower c.
Definition isalnum (c : Ascii.ascii) : bool := isalpha c || isdigit c.
Definition tolower (c : Ascii.ascii) : Z := if isupper c then ch c + 32 else ch c.

Definition digit_val (base : Z) (c : Ascii.ascii) : option Z :=
  let v := (if isdigit c then ch c - 48 else if isupper c then ch c - 55 else if islower c then ch c - 87 else 36) in
  if v <? base then Some v else None.

Fixpoint skip_space (s : string) : string :=
  match s with String c s' => if isspace c then skip_space s' else s | EmptyString => s end.

Definition scan_sign (s : string) : bool * string :=
  match s with
  | String c s' => if ch c =? 45 then (true, s') else if ch c =? 43 then (false, s') else (false, s)
  | EmptyString => (false, s)
  end.

(** The base that a literal of base 0 has, and where its digits start. *)
Definition scan_base (base : Z) (s : string) : Z * string :=
  if negb (base =? 0) then (base, s) else
  match s with
  | String z (String x (String d s')) =>
      if (ch z =? 48) && (tolower x =? 120) && bool_decide (is_Some (digit_val 16 d)) then (16, String d s')
      else if ch z =? 48 then (8, s) else (10, s)
  | String z _ => if ch z =? 48 then (8, s) else (10, s)
  | EmptyString => (10, s)
  end.

Fixpoint scan_digits (base : Z) (s : string) (acc : Z) : Z * string :=
  match s with
  | String c s' => match digit_val base c with Some d => scan_digits base s' (acc * base + d) | None => (acc, s) end
  | EmptyString => (acc, s)
  end.

Definition LONG_MAX : Z := 2 ^ 63 - 1.
Definition LONG_MIN : Z := - 2 ^ 63.

(** The value, the end of the number ([None]: no digits, [ep == s]) and
    whether [errno] is [ERANGE]. *)
Definition strtol (s : string) (base : Z) : Z * option string * bool :=
  let '(neg, t) := scan_sign (skip_space s) in
  let '(base, t) := scan_base base t in
  let digits := match t with String c _ => bool_decide (is_Some (digit_val base c)) | EmptyString => false end in
  if negb digits then (0, None, false) else
  let '(v, ep) := scan_digits base t 0 in
  let v := if neg then - v else v in
  if LONG_MAX <? v then (LONG_MAX, Some ep, true) else if v <? LONG_MIN then (LONG_MIN, Some ep, true) else (v, Some ep, false).

(** As [strtoll] in base 10 (the same width). *)
Definition atoll (s : string) : Z := (strtol s 10).1.1.

Definition dec_char (d : Z) : Ascii.ascii := Ascii.ascii_of_N (Z.to_N (48 + d)).

Fixpoint dec_digits (fuel : nat) (n : Z) (acc : string) : string :=
  match fuel with
  | O => acc
  | S fuel => let acc := String (dec_char (n mod 10)) acc in if n / 10 =? 0 then acc else dec_digits fuel (n / 10) acc
  end.

(** [%lu]: at most twenty digits. *)
Definition print_lu (n : Z) : string := dec_digits 20 n EmptyString.

(** ** The host *)

Inductive sockaddr :=
| Sa_in (sin_port sin_addr : Z)
| Sa_in6 (sin6_port : Z) (sin6_addr : list Z)
| Sa_other (fam : Z).

Definition sa_family (sa : sockaddr) : Z := match sa with Sa_in _ _ => AF_INET | Sa_in6 _ _ => AF_INET6 | Sa_other f => f end.

Record ifaddrs := mk_ifa { ifa_name : string; ifa_addr : option sockaddr }.

(** ICMP names of the system's headers: the types of ICMP, the errors and the
    informational types of ICMPv6, and the codes of a type. *)
Record netdb := mk_netdb {
  getaddrinfo_host : string → option sockaddr;
  getaddrinfo_port : string → option (list sockaddr);
  getprotobyname : string → option Z;
  if_nametoindex : string → Z;
  getifaddrs : option (list ifaddrs);
  icmp_type : list string;
  icmp6_type_err : list string;
  icmp6_type_info : list string;
  icmp_code : Z → list string;
  icmp6_code : Z → list string;
}.

(** The static variables: the cached interface list, the counter of the
    dummy indexes, and the names noted when debugging. *)
Record data_sys := mk_data { d_ifs : option (list ifaddrs); d_dummy : Z; d_debug : option (list string) }.

Definition data_init (debug : bool) : data_sys := mk_data None (1 <<< 15) (if debug then Some [] else None).

Section data.
Context (N : netdb).

(** ** Interfaces *)

Definition npfctl_debug_addif (d : data_sys) (ifname : string) : bool * data_sys :=
  match d_debug d with
  | Some l => (bool_decide (String.substring 0 7 ifname = "npftest"%string), mk_data (d_ifs d) (d_dummy d) (Some (l ++ [ifname])))
  | None => (false, d)
  end.

Definition IFNAMSIZ : Z := 16.

Fixpoint ifname_chars (len : Z) (p : string) : bool :=
  match p with
  | EmptyString => true
  | String c p => if negb (isalnum c) || (IFNAMSIZ <? len) then false else ifname_chars (len + 1) p
  end.

Definition npfctl_note_interface (d : data_sys) (ifname : string) : comp data_sys :=
  let if_idx := if_nametoindex N ifname in
  let '(testif, d) := npfctl_debug_addif d ifname in
  if negb (if_idx =? 0) || testif then inl d else
  match ifname with
  | EmptyString => inr E_yyerror
  | _ => if ifname_chars 0 ifname then inl d else inr E_yyerror
  end.

Definition npfctl_find_ifindex (d : data_sys) (ifname : string) : comp (Z * data_sys) :=
  let if_idx := if_nametoindex N ifname in
  let '(testif, d) := npfctl_debug_addif d ifname in
  if if_idx =? 0 then
    if testif then let n := u32 (d_dummy d + 1) in inl (n, mk_data (d_ifs d) n (d_debug d))
    else inr E_yyerror
  else inl (if_idx, d).

(** ** Addresses *)

Definition npfctl_copy_address (sa : sockaddr) : comp npf_addr_t :=
  match sa with
  | Sa_in _ a => inl [a; 0; 0; 0]
  | Sa_in6 _ a => inl a
  | Sa_other _ => inr E_yyerror
  end.

Definition npfctl_parse_fam_addr (name : string) : comp (Z * npf_addr_t) :=
  match getaddrinfo_host N name with
  | None => inr E_yyerror
  | Some sa => let! addr := npfctl_copy_address sa in inl (sa_family sa, addr)
  end.

(** [addr.word8]. *)
Definition addr_bytes (a : npf_addr_t) : list Z :=
  a ≫= λ w, [w mod 256; w / 2 ^ 8 mod 256; w / 2 ^ 16 mod 256; w / 2 ^ 24 mod 256].

(** The bits of a byte, from the last one: the mask so far, and whether the
    scan ended. *)
Fixpoint mask_bits (j : nat) (b mask : Z) : Z * bool :=
  match j with
  | O => (mask, false)
  | S j =>
      if Z.testbit b 0 then (mask, true) else
      let mask := u8 (mask - 1) in
      if mask =? 0 then (mask, true) else mask_bits j (b >>> 1) mask
  end.

(** [n] is the index of [ap] plus one. *)
Fixpoint mask_loop (n : nat) (ap : list Z) (mask : Z) : comp (Z * bool) :=
  match n with
  | O => inl (mask, false)
  | S n =>
      match ap !! n with
      | None => inr E_segv
      | Some b => let '(mask, found) := mask_bits 8 b mask in if found then inl (mask, true) else mask_loop n ap mask
      end
  end.

Definition max_mask (fam : Z) : Z := if fam =? AF_INET then 32 else if fam =? AF_INET6 then 128 else NPF_MAX_NETMASK.

(** [None] is the return value [false]. *)
Definition npfctl_parse_mask (s : option string) (fam : Z) : comp (option Z) :=
  let! _ := assert ((fam =? AF_INET) || (fam =? AF_INET6)) in
  match s with
  | None => inl (Some NPF_NO_NETMASK)
  | Some s =>
      let '(v, ep, erange) := strtol s 0 in
      let mask := u8 v in
      let check fam mask := if mask <=? max_mask fam then Some mask else None in
      if bool_decide (ep = Some EmptyString) && negb erange then inl (check fam mask) else
      let! (fam, addr) := npfctl_parse_fam_addr s in
      let! (mask, found) := mask_loop (Z.to_nat (mask / 8)) (addr_bytes addr) mask in
      inl (if (found : bool) then check fam mask else Some NPF_NO_NETMASK)
  end.

Definition npfctl_parse_fam_addr_mask (s : var_sys) (addr : string) (mask : option string) (nummask : option Z) : comp (option Z * var_sys) :=
  let! (fam, a) := npfctl_parse_fam_addr addr in
  let mask := match nummask with Some n => Some (print_lu n) | None => mask end in
  let! m := npfctl_parse_mask mask fam in
  match m with
  | None => inl (None, s)
  | Some m => let! (p, s) := npfvar_create_element s (El_fam (mk_fam fam a m 0)) in inl (Some p, s)
  end.

Fixpoint strchr (c : Z) (s : string) : option (string * string) :=
  match s with
  | EmptyString => None
  | String c' s' => if ch c' =? c then Some (EmptyString, s') else prod_map (String c') id <$> strchr c s'
  end.

(** The text is cut at the end of the line and at the slash. *)
Definition npfctl_parse_cidr (cidr : string) : comp (option (fam_addr_mask * Z)) :=
  let cidr := match strchr 10 cidr with Some (l, _) => l | None => cidr end in
  let '(a, mask) := match strchr 47 cidr with Some (a, m) => (a, Some m) | None => (cidr, None) end in
  let! (fam, addr) := npfctl_parse_fam_addr a in
  let! m := npfctl_parse_mask mask fam in
  match m with
  | None => inl None
  | Some m =>
      let r := mk_fam fam addr m 0 in
      inl (if fam =? AF_INET then Some (r, 4) else if fam =? AF_INET6 then Some (r, 16) else None)
  end.

(** ** Protocols, ports, flags *)

Definition npfctl_protono (proto : string) : comp Z := match getprotobyname N proto with None => inr E_yyerror | Some p => inl p end.

Fixpoint first_port (l : list sockaddr) : Z :=
  match l with
  | [] => 0
  | Sa_in p _ :: _ => p
  | Sa_in6 p _ :: _ => p
  | Sa_other _ :: l => first_port l
  end.

Definition npfctl_portno (port : string) : comp Z :=
  match getaddrinfo_port N port with None => inr E_yyerror | Some l => inl (bswap16 (first_port l)) end.

(** The arguments are converted to [in_port_t]. *)
Definition npfctl_parse_port_range (s : var_sys) (st en : Z) : comp (Z * var_sys) :=
  npfvar_create_element s (El_port_range (bswap16 (u16 st)) (bswap16 (u16 en))).

Definition port_element (vp : option Z) (pvp : Z) (s : var_sys) (i : nat) : comp var_sys :=
  let! type := npfvar_get_type s vp i in
  let! data := npfvar_get_data s vp type i in
  match data with
  | El_identifier n | El_string n =>
      let! p := npfctl_portno n in
      let! (r, s) := npfctl_parse_port_range s p p in
      let! (_, s) := npfvar_add_elements s (Some pvp) (Some r) in inl s
  | El_port_range a b => let! (_, s) := npfvar_add_element s pvp (El_port_range a b) in inl s
  | El_num n =>
      let! (r, s) := npfctl_parse_port_range s (u16 n) (u16 n) in
      let! (_, s) := npfvar_add_elements s (Some pvp) (Some r) in inl s
  | _ => inr E_yyerror
  end.

Definition npfctl_parse_port_range_variable (s : var_sys) (vp : option Z) : comp (Z * var_sys) :=
  let! count := npfvar_get_count s vp in
  let '(pvp, s) := npfvar_create s in
  let! s := cfold (port_element vp pvp) (seq 0 (Z.to_nat count)) s in
  inl (pvp, s).

Definition TH_PUSH : Z := 0x08.
Definition TH_URG : Z := 0x20.
Definition TH_ECE : Z := 0x40.
Definition TH_CWR : Z := 0x80.

Definition tcp_flag (c : Ascii.ascii) : option Z :=
  if ch c =? 70 then Some TH_FIN else if ch c =? 83 then Some TH_SYN else if ch c =? 82 then Some TH_RST
  else if ch c =? 80 then Some TH_PUSH else if ch c =? 65 then Some TH_ACK else if ch c =? 85 then Some TH_URG
  else if ch c =? 69 then Some TH_ECE else if ch c =? 87 then Some TH_CWR else None.

Fixpoint tcp_flags (s : string) (tfl : Z) : comp Z :=
  match s with
  | EmptyString => inl tfl
  | String c s => match tcp_flag c with Some f => tcp_flags s (tfl ||| f) | None => inr E_yyerror end
  end.

Definition npfctl_parse_tcpflag (v : var_sys) (s : string) : comp (Z * var_sys) :=
  let! tfl := tcp_flags s 0 in npfvar_create_element v (El_tcpflag tfl).

(** The action for [flags X] without a mask: the byte of the flags is read as
    text, and the byte behind it when it is the letter of a flag. *)
Definition tcp_flags_and_mask (v : var_sys) (vp : Z) : comp (Z * var_sys) :=
  let! n := npfvar_get_count v (Some vp) in
  if negb (n =? 1) then inr E_yyerror else
  let! data := npfvar_get_data v (Some vp) NPFVAR_TCPFLAG 0 in
  match data with
  | El_tcpflag tfl =>
      if negb (tfl =? 0) then
        match tcp_flag (Ascii.ascii_of_N (Z.to_N tfl)) with Some _ => inr E_segv | None => inr E_yyerror end
      else
        let! (p, v) := npfctl_parse_tcpflag v EmptyString in
        let! (_, v) := npfvar_add_elements v (Some vp) (Some p) in inl (vp, v)
  | _ => inr E_segv
  end.

(** ** ICMP *)

Fixpoint index_of (l : list string) (ul : Z) (name : string) : option Z :=
  match l with
  | [] => None
  | n :: l => if String.eqb n name then Some ul else index_of l (u8 (ul + 1)) name
  end.

Definition npfctl_icmptype (proto : Z) (type : string) : comp Z :=
  if proto =? IPPROTO_ICMP then
    match index_of (icmp_type N) 0 type with Some ul => inl ul | None => inr E_yyerror end
  else if proto =? IPPROTO_ICMPV6 then
    match index_of (icmp6_type_err N) 0 type with
    | Some ul => inl ul
    | None => match index_of (icmp6_type_info N) 0 type with Some ul => inl (u8 (ul + 128)) | None => inr E_yyerror end
    end
  else inr E_assert.

(** The types with a list of codes: [ECHOREPLY], [UNREACH], [SOURCEQUENCH],
    [REDIRECT], [ALTHOSTADDR], [ECHO], [ROUTERADVERT], [ROUTERSOLICIT],
    [TIMXCEED], [PARAMPROB], [TSTAMP] to [MASKREPLY] and [PHOTURIS]. *)
Definition icmp_coded : list Z := [0; 3; 4; 5; 6; 8; 9; 10; 11; 12; 13; 14; 15; 16; 17; 18; 40].
(** [DST_UNREACH], [PACKET_TOO_BIG], [TIME_EXCEEDED], [PARAM_PROB], the echo,
    listener and neighbour discovery messages. *)
Definition icmp6_coded : list Z := [1; 2; 3; 4; 128; 129; 130; 131; 132; 133; 134; 135; 136; 137].

Definition npfctl_icmpcode (proto type : Z) (code : string) : comp Z :=
  let! arr := (if proto =? IPPROTO_ICMP then
                 if bool_decide (type ∈ icmp_coded) then inl (icmp_code N type) else inr E_yyerror
               else if proto =? IPPROTO_ICMPV6 then
                 if bool_decide (type ∈ icmp6_coded) then inl (icmp6_code N type) else inr E_yyerror
               else inr E_assert) in
  match index_of arr 0 code with Some ul => inl ul | None => inr E_yyerror end.

Definition npfctl_parse_icmp (v : var_sys) (type code : Z) : comp (Z * var_sys) :=
  let '(vp, v) := npfvar_create v in
  let! (_, v) := npfvar_add_element v vp (El_icmp type) in
  npfvar_add_element v vp (El_icmp code).

(** ** Numbers with a unit *)

Fixpoint find_unit (s : string) : option Ascii.ascii :=
  match s with EmptyString => None | String c s => if isalpha c then Some c else find_unit s end.

Definition npfctl_parse_snumber (val : string) (bm : Z) : Z * Z :=
  let numval := u64 (atoll val) in
  match find_unit val with
  | None => (0, numval)
  | Some unit =>
      let mul m := (0, u64 (numval * u64 m)) in
      if tolower unit =? 107 then mul bm
      else if tolower unit =? 109 then mul (bm * bm)
      else if tolower unit =? 103 then mul (bm * bm * bm)
      else if tolower unit =? 116 then mul (bm * bm * bm * bm)
      else (EINVAL, numval)
  end.

(** ** Addresses of an interface *)

Definition ifaddr_step (ifname : string) (family index vpa : Z) (s : var_sys) (ifa : ifaddrs) : comp var_sys :=
  if negb (String.eqb (ifa_name ifa) ifname) then inl s else
  match ifa_addr ifa with
  | None => inr E_segv
  | Some sa =>
      let f := sa_family sa in
      if negb (f =? AF_INET) && negb (f =? AF_INET6) then inl s else
      if negb (family =? AF_UNSPEC) && negb (f =? family) then inl s else
      let! addr := npfctl_copy_address sa in
      let! (_, s) := npfvar_add_element s vpa (El_fam (mk_fam f addr NPF_NO_NETMASK index)) in inl s
  end.

(** [ifna_family] and [ifna_filter] are not set by this function. *)
Definition npfctl_parse_ifnet (s : var_sys) (d : data_sys) (ifname : string) (family : Z) : comp (Z * var_sys * data_sys) :=
  let! d := (match d_ifs d with
             | Some _ => inl d
             | None => match getifaddrs N with None => inr E_errx | Some l => inl (mk_data (match l with [] => None | _ => Some l end) (d_dummy d) (d_debug d)) end
             end) in
  let '(vpa, s) := npfvar_create s in
  let! (index, d) := npfctl_find_ifindex d ifname in
  let! _ := assert (negb (index =? 0)) in
  let! s := cfold (ifaddr_step ifname family index vpa) (default [] (d_ifs d)) s in
  let! n := npfvar_get_count s (Some vpa) in
  if n =? 0 then inr E_yyerror else
  let! (p, s) := npfvar_create_element s (El_interface ifname index 0 None (Some vpa)) in
  inl (p, s, d).

(** ** The NPTv6 adjustment *)

(** [addr6[i]]: the address has eight words. *)
Definition addr6 (a : npf_addr_t) (i : Z) : comp Z := if i <? 8 then inl (word16 a (Z.to_nat i)) else inr E_segv.

Fixpoint sum_words (n : nat) (i : Z) (a : npf_addr_t) (sum : Z) : comp Z :=
  match n with
  | O => inl sum
  | S n => let! w := addr6 a i in sum_words n (i + 1) a (u32 (sum + w))
  end.

(** [while (sum >> 16)]: three turns fold any 32-bit sum. *)
Fixpoint fold16 (fuel : nat) (sum : Z) : Z :=
  match fuel with
  | O => sum
  | S f => if negb (sum >>> 16 =? 0) then fold16 f ((sum >>> 16) + (sum &&& 0xffff)) else sum
  end.

Definition prefix_sum (preflen wordmask : Z) (a : npf_addr_t) : comp Z :=
  let! sum := sum_words (Z.to_nat preflen) 0 a 0 in
  let! w := addr6 a preflen in
  inl (fold16 3 (u32 (sum + (w &&& wordmask)))).

Definition npfctl_npt66_calcadj (len : Z) (pref_in pref_out : npf_addr_t) : comp Z :=
  let preflen := len >>> 4 in
  let remnant := len - (preflen <<< 4) in
  let wordmask := u32 ((1 <<< remnant) - 1) in
  let! _ := assert ((wordmask =? 0) || negb (len mod 16 =? 0)) in
  let! isum := prefix_sum preflen wordmask pref_in in
  let! osum := prefix_sum preflen wordmask pref_out in
  inl (u16 (fold16 3 (u32 (isum + u32 (Z.lnot osum))))).

End data.

(** ** Decimal numbers *)

Lemma ch_dec_char d : 0 <= d < 10 → ch (dec_char d) = 48 + d.
Proof. intros Hd. unfold ch, dec_char. rewrite Ascii.N_ascii_embedding by lia. lia. Qed.

Lemma digit_val_dec base d : 0 <= d < 10 → d < base → digit_val base (dec_char d) = Some d.
Proof.
  intros Hd Hb. unfold digit_val, isdigit. rewrite ch_dec_char by done.
  rewrite (proj2 (Z.leb_le 48 _)), (proj2 (Z.leb_le _ 57)) by lia. cbn [andb].
  replace (48 + d - 48) with d by lia. by rewrite (proj2 (Z.ltb_lt d base)) by lia.
Qed.

(** Reading the digits of [n] shifts the value read so far. *)
Lemma scan_dec_digits fuel n acc : 0 <= n < 10 ^ Z.of_nat fuel →
  ∃ k, ∀ a, scan_digits 10 (dec_digits fuel n acc) a = scan_digits 10 acc (a * k + n).
Proof.
  revert n acc. induction fuel as [|fuel IH]; intros n acc Hn.
  - exists 1. intros a. cbn [dec_digits]. f_equal. change (10 ^ Z.of_nat 0) with 1 in Hn. lia.
  - cbn [dec_digits]. pose proof (Z.mod_pos_bound n 10 ltac:(lia)) as Hm. pose proof (Z.div_mod n 10 ltac:(lia)) as Hd.
    destruct (Z.eqb_spec (n / 10) 0) as [Hz|Hz].
    + exists 10. intros a. cbn [scan_digits]. rewrite digit_val_dec by lia. f_equal. lia.
    + rewrite Nat2Z.inj_succ, Z.pow_succ_r in Hn by lia.
      destruct (IH (n / 10) (String (dec_char (n mod 10)) acc)) as [k Hk].
      { split; [apply Z.div_pos; lia|apply Z.div_lt_upper_bound; lia]. }
      exists (k * 10). intros a. rewrite Hk. cbn [scan_digits]. rewrite digit_val_dec by lia. f_equal. lia.
Qed.

(** The first digit is not a zero, but for 0 itself. *)
Lemma dec_digits_head fuel n acc : 0 <= n < 10 ^ Z.of_nat (S fuel) → ∃ d s,
  dec_digits (S fuel) n acc = String (dec_char d) s ∧ 0 <= d < 10 ∧ (n = 0 → s = acc ∧ d = 0) ∧ (0 < n → 0 < d).
Proof.
  revert n acc. induction fuel as [|fuel IH]; intros n acc Hn.
  - change (10 ^ Z.of_nat 1) with 10 in Hn. exists n, acc. cbn [dec_digits]. rewrite Z.mod_small, Z.div_small by lia. cbn. auto with lia.
  - cbn [dec_digits]. pose proof (Z.mod_pos_bound n 10 ltac:(lia)) as Hm. pose proof (Z.div_mod n 10 ltac:(lia)) as Hd.
    destruct (Z.eqb_spec (n / 10) 0) as [Hz|Hz].
    + exists (n mod 10), acc. split_and!; try lia; [done|]. intros ->. done.
    + rewrite Nat2Z.inj_succ, Z.pow_succ_r in Hn by lia.
      destruct (IH (n / 10) (String (dec_char (n mod 10)) acc)) as (d & s & He & Hdr & H0 & Hp).
      { split; [apply Z.div_pos; lia|apply Z.div_lt_upper_bound; lia]. }
      exists d, s. split; [exact He|]. split; [done|]. split; [intros ->; done|].
      intros _. apply Hp. pose proof (Z.div_pos n 10 ltac:(lia) ltac:(lia)). lia.
Qed.

Lemma scan_base_dec d s : 0 < d < 10 → scan_base 0 (String (dec_char d) s) = (10, String (dec_char d) s).
Proof.
  intros Hd. unfold scan_base. cbn [Z.eqb negb]. rewrite ch_dec_char by lia.
  rewrite (proj2 (Z.eqb_neq (48 + d) 48)) by lia. cbn [andb]. by destruct s as [|? []].
Qed.

(** A number that is printed and read again is itself, or the largest value
    with the range error. *)
Lemma strtol_print_lu n : 0 <= n < 2 ^ 64 →
  strtol (print_lu n) 0 = if n <=? LONG_MAX then (n, Some EmptyString, false) else (LONG_MAX, Some EmptyString, true).
Proof.
  intros Hn. assert (0 <= n < 10 ^ Z.of_nat 20) as Hn' by (change (10 ^ Z.of_nat 20) with 100000000000000000000; change (2 ^ 64) with 18446744073709551616 in Hn; lia).
  destruct (dec_digits_head 19 n EmptyString Hn') as (d & s & He & Hd & H0 & Hp). unfold print_lu.
  destruct (Z.eq_dec n 0) as [->|Hz]; [reflexivity|].
  pose proof (scan_dec_digits 20 n EmptyString Hn') as [k Hk]. specialize (Hk 0). rewrite He in *. assert (0 < d) by (apply Hp; lia).
  unfold strtol. cbn [skip_space]. unfold isspace. rewrite ch_dec_char by lia.
  rewrite (proj2 (Z.eqb_neq _ 32)), (proj2 (Z.leb_gt _ 13)), andb_false_r by lia. cbn [orb scan_sign]. rewrite ch_dec_char by lia.
  rewrite (proj2 (Z.eqb_neq _ 45)), (proj2 (Z.eqb_neq _ 43)) by lia. cbv iota. rewrite scan_base_dec by lia. cbv iota beta.
  rewrite digit_val_dec by lia. rewrite bool_decide_eq_true_2 by eauto. cbn [negb]. rewrite Hk. cbn [scan_digits]. cbv iota beta.
  replace (0 * k + n) with n by lia. unfold LONG_MIN. rewrite (proj2 (Z.ltb_ge n _)) by lia.
  rewrite Z.leb_antisym. by destruct (LONG_MAX <? n).
Qed.

(** ** Masks *)

Section masks.
Context (N : netdb).

Lemma npfctl_parse_mask_number n fam : 0 <= n <= LONG_MAX → fam = AF_INET ∨ fam = AF_INET6 →
  npfctl_parse_mask N (Some (print_lu n)) fam = inl (if u8 n <=? max_mask fam then Some (u8 n) else None).
Proof.
  intros Hn Hf. unfold npfctl_parse_mask. rewrite strtol_print_lu by (unfold LONG_MAX in *; lia).
  rewrite (proj2 (Z.leb_le n _)) by lia. rewrite (proj2 (assert_inl _ tt)) by (by destruct Hf as [->| ->]). reflexivity.
Qed.
End masks.

(** ** Addresses with masks *)

Section fam_masks.
Context (N : netdb).

(** [addr/n] in a configuration: the variable that the grammar gets.  A
    length is accepted when its last eight bits are at most the length of the
    address, and these bits are the mask: exact for a length below 256. *)
Lemma npfctl_parse_fam_addr_mask_number s addr sa a n : getaddrinfo_host N addr = Some sa → npfctl_copy_address sa = inl a →
  0 <= n <= LONG_MAX →
  npfctl_parse_fam_addr_mask N s addr None (Some n) =
    if n mod 256 <=? max_mask (sa_family sa)
    then inl (Some (vs_next s), (set_vars (npfvar_create s).2 (<[vs_next s := mk_var None [El_fam (mk_fam (sa_family sa) a (n mod 256) 0)] 1]>
                                    (vs_vars (npfvar_create s).2))))
    else inl (None, s).
Proof.
  intros Hg Hc Hn. unfold npfctl_parse_fam_addr_mask, npfctl_parse_fam_addr. rewrite Hg, Hc. cbn [cbind].
  assert (sa_family sa = AF_INET ∨ sa_family sa = AF_INET6) as Hf by (destruct sa; cbn in *; auto; discriminate).
  rewrite (npfctl_parse_mask_number N n _ Hn Hf). cbn [cbind]. change (u8 n) with (n mod 256). case_if; [|done].
  unfold npfvar_create_element, npfvar_add_element, npfvar_create, var_get. cbn. by rewrite lookup_insert_eq.
Qed.

End fam_masks.

(** ** TCP flags *)

Definition flag_letter (i : nat) : Z := default 0 ([70; 83; 82; 80; 65; 85; 69; 87] !! i).

Fixpoint has_letter (c : Z) (s : string) : bool := match s with EmptyString => false | String c' s => (ch c' =? c) || has_letter c s end.

Lemma tcp_flag_bit c i : (i < 8)%nat → Z.testbit (default 0 (tcp_flag c)) (Z.of_nat i) = (ch c =? flag_letter i).
Proof.
  intros Hi. destruct c as [[] [] [] [] [] [] [] []]; do 8 (destruct i as [|i]; [reflexivity|]); lia.
Qed.

Lemma tcp_flags_bit s : ∀ t tfl i, (i < 8)%nat → tcp_flags s t = inl tfl →
  Z.testbit tfl (Z.of_nat i) = Z.testbit t (Z.of_nat i) || has_letter (flag_letter i) s.
Proof.
  induction s as [|c s IH]; intros t tfl i Hi Ht; cbn [tcp_flags has_letter] in *; [injection Ht as <-; by rewrite orb_false_r|].
  pose proof (tcp_flag_bit c i Hi) as Hb. destruct (tcp_flag c) as [f|] eqn:E; [|done]. cbn [default] in Hb. change (id f) with f in Hb.
  rewrite (IH _ _ _ Hi Ht), Z.lor_spec, Hb. by rewrite orb_assoc.
Qed.

(** [flags] with no mask is refused: the byte of the flags is parsed as text. *)
Theorem tcp_flags_without_mask v vp tfl : npfvar_get_count v (Some vp) = inl 1 →
  npfvar_get_data v (Some vp) NPFVAR_TCPFLAG 0 = inl (El_tcpflag tfl) → tfl ≠ 0 →
  ∃ e, tcp_flags_and_mask v vp = inr e.
Proof.
  intros Hc Hd Hz. unfold tcp_flags_and_mask. rewrite Hc. cbn [cbind Z.eqb Pos.eqb negb]. rewrite Hd. cbn [cbind].
  rewrite (proj2 (Z.eqb_neq _ _) Hz). cbn [negb]. destruct (tcp_flag _); eauto.
Qed.

Example flags_s_refused :
  (let! (vp, v) := npfctl_parse_tcpflag (mk_vars ∅ [] 0 1) "S" in tcp_flags_and_mask v vp) = inr E_yyerror.
Proof. reflexivity. Qed.

(** ** Sample masks *)

(** A resolver that knows the addresses of the samples. *)
Definition sample_host (s : string) : option sockaddr :=
  if String.eqb s "10.0.0.0" then Some (Sa_in 0 0x0000000a)
  else if String.eqb s "255.255.255.0" then Some (Sa_in 0 0x00ffffff)
  else if String.eqb s "128.0.0.0" then Some (Sa_in 0 0x00000080)
  else if String.eqb s "ffff:ffff::" then Some (Sa_in6 0 [0xffffffff; 0; 0; 0])
  else if String.eqb s "2001:db8::" then Some (Sa_in6 0 [0xb80d0120; 0; 0; 0])
  else None.

Definition sample_netdb : netdb :=
  mk_netdb sample_host (λ _, Some [Sa_in 0x5000 0]) (λ s, if String.eqb s "tcp" then Some 6 else None)
    (λ s, if String.eqb s "eth0" then 2 else 0) (Some [mk_ifa "eth0" (Some (Sa_in 0 0x0100000a)); mk_ifa "tun0" None])
    [] [] [] (λ _, []) (λ _, []).

Definition mask_of (addr mask : string) : comp (option Z) :=
  let! (fam, _) := npfctl_parse_fam_addr sample_netdb addr in npfctl_parse_mask sample_netdb (Some mask) fam.

(** A length is truncated to eight bits before it is checked: /256 and /264
    are taken for /0 and /8. *)
Theorem mask_truncated : mask_of "10.0.0.0" "24" = inl (Some 24) ∧ mask_of "10.0.0.0" "33" = inl None ∧
  mask_of "10.0.0.0" "256" = inl (Some 0) ∧ mask_of "10.0.0.0" "264" = inl (Some 8).
Proof. vm_compute. auto. Qed.

(** A dotted mask is scanned from a byte that the leading number of its text
    selects: with 255.255.255.0 from the 31st byte of the 16-byte address. *)
Theorem dotted_mask_out_of_bounds : mask_of "10.0.0.0" "255.255.255.0" = inr E_segv.
Proof. vm_compute. reflexivity. Qed.

(** ... and a mask in the notation of IPv6 has no leading number, so that it
    is ignored; only 128.0.0.0 is read as meant. *)
Theorem ipv6_mask_ignored : mask_of "2001:db8::" "ffff:ffff::" = inl (Some NPF_NO_NETMASK) ∧ mask_of "10.0.0.0" "128.0.0.0" = inl (Some 1).
Proof. vm_compute. auto. Qed.

(** The length check of a name comes one character late, twice: a name of
    seventeen characters passes. *)
Theorem ifname_length_check : IFNAMSIZ = 16 ∧ npfctl_note_interface sample_netdb (data_init false) "abcdefghijklmnopq" = inl (data_init false) ∧
  npfctl_note_interface sample_netdb (data_init false) "abcdefghijklmnopqr" = inr E_yyerror.
Proof. vm_compute. auto. Qed.

(** An interface of [getifaddrs] without an address is read through a null
    pointer. *)
Theorem ifnet_without_address s vpa : ifaddr_step "tun0" AF_UNSPEC 3 vpa s (mk_ifa "tun0" None) = inr E_segv.
Proof. reflexivity. Qed.

(** A port number is truncated to sixteen bits. *)
Theorem port_truncated s : npfctl_parse_port_range s 65616 65616 = npfctl_parse_port_range s 80 80.
Proof. reflexivity. Qed.

(** A number with a unit is multiplied modulo 2^64. *)
Example snumber_units : npfctl_parse_snumber "10k" 1000 = (0, 10000) ∧ npfctl_parse_snumber "2G" 1024 = (0, 2 * 2 ^ 30) ∧
  npfctl_parse_snumber "5x" 1000 = (EINVAL, 5) ∧ npfctl_parse_snumber "16777216t" 1024 = (0, 0).
Proof. vm_compute. auto. Qed.

End NpfData.
