(* ===== verification/Npt66.v ===== *)
(** * Npt66: NPTv6 from the configuration to the packets

    An NPTv6 mapping has an inner and an outer prefix of one length.  npfctl
    computes its adjustment ([npfctl_npt66_calcadj], src/npfctl/npf_data.c) and
    gives it to the outbound policy, and its complement to the inbound one; the
    kernel rewrites the addresses ([npf_npt66_rwr], src/kern/npf_inet.c).  The
    theorems join the two. *)

From S2P Require Import Prelude NpfVar Nbuf Addr Cksum Cache Rewrite NpfData.
Open Scope Z_scope.
Open Scope npf_scope.

Module Npt66.
Export NpfData Rewrite.

(** ** The sums *)

Lemma zsum_bound ws : Forall (inw 16) ws → 0 <= zsum ws <= 65535 * Z.of_nat (length ws).
Proof.
  induction 1 as [|w ws Hw _ IH]; [done|]. unfold inw in Hw. change (2 ^ 16) with 65536 in Hw.
  cbn [zsum foldr length] in *. fold (zsum ws) in *. lia.
Qed.

Lemma seq_words_ok a i n : addr_wf 4 a → (i + n <= 8)%nat → Forall (inw 16) (word16 a <$> seq i n).
Proof. intros Ha Hn. apply Forall_fmap, Forall_forall. intros j Hj%elem_of_seq. apply word16_range; [done|lia]. Qed.

Lemma pref_sum_bound a n : addr_wf 4 a → (n <= 8)%nat → 0 <= zsum (pref_words a n) <= 65535 * Z.of_nat n.
Proof.
  intros Ha Hn. pose proof (zsum_bound _ (seq_words_ok a 0 n Ha ltac:(lia))) as Hb. by rewrite length_fmap, length_seq in Hb.
Qed.

Lemma sum_words_spec a n : addr_wf 4 a → ∀ i sum, (i + n <= 8)%nat → 0 <= sum <= 65535 * Z.of_nat i →
  sum_words n (Z.of_nat i) a sum = inl (sum + zsum (word16 a <$> seq i n)).
Proof.
  intros Ha. induction n as [|n IH]; intros i sum Hi Hs; cbn [sum_words seq fmap list_fmap zsum foldr]; [f_equal; lia|].
  unfold addr6. rewrite (proj2 (Z.ltb_lt _ 8)) by lia. cbn [cbind]. rewrite Nat2Z.id.
  pose proof (word16_range a i Ha ltac:(lia)) as Hw. unfold inw in Hw. change (2 ^ 16) with 65536 in Hw.
  rewrite wrap_small by (unfold inw; lia). replace (Z.of_nat i + 1) with (Z.of_nat (S i)) by lia.
  rewrite IH by lia. f_equal. rewrite Z.add_assoc. done.
Qed.

(** Three turns fold any 32-bit sum. *)
Lemma fold16_spec x : 0 <= x < 2 ^ 32 → inw 16 (fold16 3 x) ∧ fold16 3 x mod 65535 = x mod 65535.
Proof.
  intros Hx. change (2 ^ 32) with 4294967296 in Hx.
  assert (∀ y, 0 <= y < 65536 → ∀ f, fold16 f y = y) as Hsmall.
  { intros y Hy [|f]; [done|]. cbn [fold16]. by rewrite shiftr_16, Z.div_small by lia. }
  destruct (Z.lt_ge_cases x 65536) as [Hs|Hs]; [rewrite Hsmall by lia; split; [unfold inw; change (2 ^ 16) with 65536; lia|done]|].
  assert (∀ f y, 65536 <= y → fold16 (S f) y = fold16 f (y - 65535 * (y / 65536))) as Hstep.
  { intros f y Hy. cbn [fold16]. rewrite shiftr_16, land_ffff.
    rewrite (proj2 (Z.eqb_neq _ 0)) by (Z.to_euclidean_division_equations; lia). cbn [negb]. f_equal.
    rewrite Z.mod_eq by lia. lia. }
  assert (∀ y, (y - 65535 * (y / 65536)) mod 65535 = y mod 65535) as Hmod.
  { intros y. replace (y - 65535 * (y / 65536)) with (y + (- (y / 65536)) * 65535) by lia. apply Z.mod_add. lia. }
  rewrite Hstep, <- (Hmod x) by lia. set (y := x - 65535 * (x / 65536)).
  assert (0 <= y < 131071) as Hy by (unfold y; Z.to_euclidean_division_equations; lia).
  destruct (Z.lt_ge_cases y 65536); [rewrite Hsmall by lia; split; [unfold inw; change (2 ^ 16) with 65536; lia|done]|].
  rewrite Hstep, <- (Hmod y) by lia. rewrite Hsmall; [split; [|done]|]; unfold inw; change (2 ^ 16) with 65536; Z.to_euclidean_division_equations; lia.
Qed.

(** The sum of a prefix of whole words, folded. *)
Definition word_sum (a : npf_addr_t) (n : nat) : Z := fold16 3 (zsum (pref_words a n)).

Lemma prefix_sum_spec a n : addr_wf 4 a → (n < 8)%nat → prefix_sum (Z.of_nat n) 0 a = inl (word_sum a n).
Proof.
  intros Ha Hn. unfold prefix_sum. pose proof (pref_sum_bound a n Ha ltac:(lia)) as Hb.
  rewrite Nat2Z.id. change 0 with (Z.of_nat 0) at 1. rewrite sum_words_spec by (done || lia). cbn [cbind].
  unfold addr6. rewrite (proj2 (Z.ltb_lt _ 8)) by lia. cbn [cbind]. rewrite Z.land_0_r, Z.add_0_r, Z.add_0_l.
  fold (pref_words a n). by rewrite wrap_small by (unfold inw; lia).
Qed.

Lemma word_sum_spec a n : addr_wf 4 a → (n <= 8)%nat → inw 16 (word_sum a n) ∧ word_sum a n mod 65535 = zsum (pref_words a n) mod 65535.
Proof. intros Ha Hn. pose proof (pref_sum_bound a n Ha Hn). apply fold16_spec. lia. Qed.

(** The adjustment of two prefixes of [n] words: the difference of the folded
    sums, less one when the inner sum is the larger one. *)
Lemma npfctl_npt66_calcadj_spec a b n : addr_wf 4 a → addr_wf 4 b → (n < 8)%nat →
  ∃ adj, npfctl_npt66_calcadj (16 * Z.of_nat n) a b = inl adj ∧ inw 16 adj ∧
    if word_sum a n <=? word_sum b n then adj mod 65535 = (word_sum a n - word_sum b n) mod 65535
    else adj = word_sum a n - word_sum b n - 1.
Proof.
  intros Ha Hb Hn. unfold npfctl_npt66_calcadj. rewrite Z.shiftr_div_pow2 by lia. change (2 ^ 4) with 16.
  rewrite (Z.mul_comm 16), Z.div_mul, (Z.shiftl_mul_pow2 (Z.of_nat n) 4) by lia. change (2 ^ 4) with 16. rewrite Z.sub_diag. change (u32 ((1 <<< 0) - 1)) with 0. cbn [Z.eqb orb assert cbind].
  rewrite !prefix_sum_spec by done. cbn [cbind].
  destruct (word_sum_spec a n Ha ltac:(lia)) as [Ra _]. destruct (word_sum_spec b n Hb ltac:(lia)) as [Rb _].
  set (x := word_sum a n) in *. set (y := word_sum b n) in *. unfold inw in Ra, Rb. change (2 ^ 16) with 65536 in Ra, Rb.
  assert (u32 (Z.lnot y) = 4294967295 - y) as ->.
  { unfold wrap, Z.lnot. change (2 ^ 32) with 4294967296. symmetry. apply Z.mod_unique with (-1); [left|]; lia. }
  destruct (Z.leb_spec x y) as [Hle|Hgt].
  - rewrite (wrap_small 32) by (unfold inw; change (2 ^ 32) with 4294967296; lia).
    destruct (fold16_spec (x + (4294967295 - y))) as [R M]; [change (2 ^ 32) with 4294967296; lia|].
    eexists. split; [reflexivity|]. rewrite (wrap_small 16) by done. split; [done|]. rewrite M.
    replace (x + (4294967295 - y)) with (x - y + 65537 * 65535) by lia. apply Z.mod_add. lia.
  - assert (u32 (x + (4294967295 - y)) = x - y - 1) as ->.
    { unfold wrap. change (2 ^ 32) with 4294967296. symmetry. apply Z.mod_unique with 1; [left|]; lia. }
    eexists. split; [reflexivity|]. cbn [fold16]. rewrite shiftr_16, Z.div_small by lia. cbn [Z.eqb negb].
    rewrite wrap_small by (unfold inw; change (2 ^ 16) with 65536; lia). split; [unfold inw; change (2 ^ 16) with 65536; lia|done].
Qed.

(** ** Rewriting an address *)

(** The value written for a word, which is never 0xffff. *)
Definition adjust (w adj : Z) : Z := let s := npt66_fold 3 (w + adj) in if s =? 0xffff then 0 else s.

Lemma adjust_spec w adj : inw 16 w → inw 16 adj → 0 <= adjust w adj < 65535 ∧ adjust w adj mod 65535 = (w + adj) mod 65535.
Proof.
  unfold inw. change (2 ^ 16) with 65536. intros Hw Ha. destruct (npt66_fold_spec (w + adj)) as [R M]; [change (2 ^ 17) with 131072; lia|].
  unfold inw in R. change (2 ^ 16) with 65536 in R. unfold adjust. rewrite <- M. destruct (Z.eqb_spec (npt66_fold 3 (w + adj)) 65535) as [->|]; [done|].
  split; [lia|done].
Qed.

(** The complement of the adjustment undoes it. *)
Lemma adjust_back w adj : inw 16 w → inw 16 adj → w ≠ 65535 → adjust (adjust w adj) (u16 (Z.lnot adj)) = w.
Proof.
  intros Hw Ha Hn. destruct (adjust_spec w adj Hw Ha) as [R1 M1]. unfold inw in *. change (2 ^ 16) with 65536 in *.
  assert (u16 (Z.lnot adj) = 65535 - adj) as ->.
  { unfold wrap, Z.lnot. change (2 ^ 16) with 65536. symmetry. apply Z.mod_unique with (-1); [left|]; lia. }
  destruct (adjust_spec (adjust w adj) (65535 - adj)) as [R2 M2]; [unfold inw; change (2 ^ 16) with 65536; lia..|].
  rewrite <- Zplus_mod_idemp_l, M1, Zplus_mod_idemp_l in M2. replace (w + adj + (65535 - adj)) with (w + 1 * 65535) in M2 by lia.
  rewrite Z.mod_add in M2 by lia. rewrite !Z.mod_small in M2 by lia. done.
Qed.

(** The word that is adjusted. *)
Definition npt66_word (p : list Z) (addr len : Z) : Z := if len <=? 48 then 3 else npt66_find_word p addr 4 4.

(** The packet with the prefix replaced and the word adjusted. *)
Definition npt66_step (p : list Z) (addr : Z) (pref : npf_addr_t) (n : nat) (word adj : Z) : list Z :=
  let p1 := npt66_prefix_loop p addr pref 0 n in put16 p1 (addr + 2 * word) (adjust (rd16 p1 (addr + 2 * word)) adj).

Lemma npf_npt66_rwr_eq npc which pref n adj : npf_iscached npc NPC_IP6 = true →
  npf_npt66_rwr npc which pref (16 * Z.of_nat n) adj =
    if npt66_allowed (pkt npc) (npc_ips npc which) (16 * Z.of_nat n)
    then (0, set_pkt npc (npt66_step (pkt npc) (npc_ips npc which) pref n (npt66_word (pkt npc) (npc_ips npc which) (16 * Z.of_nat n)) adj))
    else (EINVAL, npc).
Proof.
  intros H6. unfold npf_npt66_rwr, npt66_allowed, npt66_word, npt66_step, adjust. rewrite H6. cbn [negb].
  assert ((16 * Z.of_nat n) >>> 4 = Z.of_nat n) as ->.
  { rewrite Z.shiftr_div_pow2 by lia. change (2 ^ 4) with 16. by rewrite Z.mul_comm, Z.div_mul by lia. }
  assert (16 * Z.of_nat n - (Z.of_nat n <<< 4) = 0) as ->.
  { rewrite Z.shiftl_mul_pow2 by lia. change (2 ^ 4) with 16. lia. }
  cbn [Z.eqb negb]. cbv iota. rewrite Nat2Z.id. change (2 * 3) with 6.
  destruct (16 * Z.of_nat n <=? 48).
  - by destruct (rd16 _ (_ + 6) =? 65535).
  - by destruct ((rd32 _ _ =? 0) && (rd32 _ _ =? 0)), ((rd32 _ _ =? 0xffffffff) && (rd32 _ _ =? 0xffffffff)).
Qed.

Lemma npt66_word_range p addr n : bytes_ok p → n ∈ [1; 2; 3; 4]%nat → npt66_allowed p addr (16 * Z.of_nat n) = true →
  let w := npt66_word p addr (16 * Z.of_nat n) in Z.of_nat n <= w < 8 ∧ rd16 p (addr + 2 * w) ≠ 65535.
Proof.
  intros Hb Hn. unfold npt66_allowed, npt66_word. set_unfold in Hn. destruct_or!; subst n;
    match goal with |- context [?a <=? ?b] => let v := eval vm_compute in (a <=? b) in change (a <=? b) with v end; cbv iota zeta; intros Hal.
  1-3: change (addr + 2 * 3) with (addr + 6); destruct (Z.eqb_spec (rd16 p (addr + 6)) 65535); [done|]; lia.
  apply andb_true_iff in Hal as [_ Hal%negb_true_iff]. pose proof (npt66_find_word_range p addr Hb Hal) as Hr. split; [lia|].
  revert Hr. cbn [npt66_find_word].
  repeat match goal with |- context [negb (rd16 p ?o =? 65535)] => destruct (Z.eqb_spec (rd16 p o) 65535); cbn [negb]; [|done] end. lia.
Qed.

(** A step: the prefix and one word change. *)
Lemma npt66_step_spec p addr pref n word adj : bytes_ok p → 0 <= addr → addr + 16 <= blen p → addr_wf 4 pref →
  Z.of_nat n <= word < 8 → inw 16 adj →
  let p' := npt66_step p addr pref n word adj in
  length p' = length p ∧ bytes_ok p' ∧ words_at p' addr n = pref_words pref n ∧
  rd16 p' (addr + 2 * word) = adjust (rd16 p (addr + 2 * word)) adj ∧
  (∀ i, Z.of_nat n <= i < 8 → i ≠ word → rd16 p' (addr + 2 * i) = rd16 p (addr + 2 * i)) ∧
  (∀ i, 0 <= i < addr ∨ addr + 16 <= i → rd8 p' i = rd8 p i).
Proof.
  intros Hb Ha Hl Hp Hw Hadj p'. destruct (npt66_prefix_loop_spec addr pref n p 0) as (L1 & B1 & F1 & W1); try done; [lia|].
  unfold p', npt66_step. set (p1 := npt66_prefix_loop p addr pref 0 n) in *. rewrite Z.add_0_r in *.
  assert (∀ i, Z.of_nat n <= i < 8 → rd16 p1 (addr + 2 * i) = rd16 p (addr + 2 * i)) as Hrd
    by (intros i Hi; apply rd16_ext; apply F1; lia).
  destruct (adjust_spec (rd16 p1 (addr + 2 * word)) adj) as [R _]; [by apply rd16_range|done|].
  assert (inw 16 (adjust (rd16 p1 (addr + 2 * word)) adj)) as R' by (unfold inw; change (2 ^ 16) with 65536; lia).
  split_and!.
  - by rewrite put16_length.
  - by apply bytes_ok_put16.
  - rewrite words_at_put16_disjoint by lia. exact W1.
  - rewrite rd16_put16_eq by (try done; unfold blen in *; lia). by rewrite Hrd by lia.
  - intros i Hi Hne. rewrite rd16_put16_ne by lia. by apply Hrd.
  - intros i Hi. rewrite rd8_put16_ne by lia. apply F1; lia.
Qed.

Lemma words_at_rd16 p q n : ∀ o, (∀ i, (i < n)%nat → rd16 p (o + 2 * Z.of_nat i) = rd16 q (o + 2 * Z.of_nat i)) → words_at p o n = words_at q o n.
Proof.
  induction n as [|n IH]; intros o Hi; [done|]. cbn [words_at]. f_equal.
  - specialize (Hi 0%nat ltac:(lia)). by rewrite Z.add_0_r in Hi.
  - apply IH. intros i Hlt. specialize (Hi (S i) ltac:(lia)). by replace (o + 2 + 2 * Z.of_nat i) with (o + 2 * Z.of_nat (S i)) by lia.
Qed.

(** The translated address selects the word that was adjusted. *)
Lemma npt66_word_step p addr pref n adj : bytes_ok p → 0 <= addr → addr + 16 <= blen p → addr_wf 4 pref → inw 16 adj →
  n ∈ [1; 2; 3; 4]%nat → npt66_allowed p addr (16 * Z.of_nat n) = true →
  let w := npt66_word p addr (16 * Z.of_nat n) in npt66_word (npt66_step p addr pref n w adj) addr (16 * Z.of_nat n) = w.
Proof.
  intros Hb Ha Hl Hp Hadj Hn Hal w. destruct (npt66_word_range p addr n Hb Hn Hal) as [Hr Hne]. fold w in Hr, Hne.
  destruct (npt66_step_spec p addr pref n w adj) as (_ & _ & _ & Ew & Eo & _); try done.
  destruct (adjust_spec (rd16 p (addr + 2 * w)) adj (rd16_range _ _ Hb) Hadj) as [Hv _].
  set (p' := npt66_step p addr pref n w adj) in *. unfold npt66_word in *. destruct (16 * Z.of_nat n <=? 48) eqn:E; [done|].
  assert (n = 4%nat) as -> by (set_unfold in Hn; destruct_or!; subst n; done).
  clear E Hn Hal. clearbody p'. revert Hr Hne Ew Eo Hv. unfold w. clear w. cbn [npt66_find_word].
  repeat match goal with |- context [negb (rd16 p ?o =? 65535)] => destruct (Z.eqb_spec (rd16 p o) 65535); cbn [negb]; cbv iota end;
    intros Hr Hne Ew Eo Hv; try lia;
    repeat match goal with |- context [rd16 p' (addr + 2 * ?k)] =>
      first [rewrite Ew; rewrite (proj2 (Z.eqb_neq _ 65535)) by lia; cbn [negb]; done
            |rewrite (Eo k) by lia; match goal with H : rd16 p (addr + 2 * k) = 65535 |- _ => rewrite H end; cbn [negb Z.eqb Pos.eqb]; cbv iota] end.
Qed.

(** ** A mapping, out and back *)

(** C31: An NPTv6 mapping between two prefixes of 1 to 4 words.  npfctl's
    adjustment is defined; a packet from the inner network whose address the
    code does not refuse ([npt66_allowed]: the word to adjust is not 0xffff,
    and for prefixes longer than 48 bits the rest of the address is not all
    zeros or all ones) gets the outer prefix, and the translation of the
    opposite direction (the inner prefix with the complemented adjustment)
    restores every word of the address and leaves the rest of the packet alone,
    unless the same check refuses it.  The way back is open for every address
    when the length is at most 48.  The translation is checksum-neutral when
    the folded sum of the inner prefix is at most that of the outer one. *)
Theorem npt66_mapping_roundtrip npc which a b n :
  npf_iscached npc NPC_IP6 = true → bytes_ok (pkt npc) → 0 <= npc_ips npc which → npc_ips npc which + 16 <= blen (pkt npc) →
  n ∈ [1; 2; 3; 4]%nat → addr_wf 4 a → addr_wf 4 b → words_at (pkt npc) (npc_ips npc which) n = pref_words a n →
  npt66_allowed (pkt npc) (npc_ips npc which) (16 * Z.of_nat n) = true →
  ∃ adj npc1, npfctl_npt66_calcadj (16 * Z.of_nat n) a b = inl adj ∧
    npf_npt66_rwr npc which b (16 * Z.of_nat n) adj = (0, npc1) ∧ words_at (pkt npc1) (npc_ips npc which) n = pref_words b n ∧
    (word_sum a n <= word_sum b n →
      zsum (words_at (pkt npc1) (npc_ips npc which) 8) mod 65535 = zsum (words_at (pkt npc) (npc_ips npc which) 8) mod 65535) ∧
    ((n <= 3)%nat → npt66_allowed (pkt npc1) (npc_ips npc which) (16 * Z.of_nat n) = true) ∧
    (npt66_allowed (pkt npc1) (npc_ips npc which) (16 * Z.of_nat n) = true →
      ∃ npc2, npf_npt66_rwr npc1 which a (16 * Z.of_nat n) (u16 (Z.lnot adj)) = (0, npc2) ∧
        words_at (pkt npc2) (npc_ips npc which) 8 = words_at (pkt npc) (npc_ips npc which) 8 ∧
        (∀ i, 0 <= i < npc_ips npc which ∨ npc_ips npc which + 16 <= i → rd8 (pkt npc2) i = rd8 (pkt npc) i)).
Proof.
  intros H6 Hb Ha Hl Hn Hwa Hwb Hin Hal. assert (n < 5)%nat as Hn5 by (set_unfold in Hn; lia).
  destruct (npfctl_npt66_calcadj_spec a b n Hwa Hwb ltac:(lia)) as (adj & Hadj & Ra & Hdiff).
  set (addr := npc_ips npc which) in *. set (w := npt66_word (pkt npc) addr (16 * Z.of_nat n)).
  destruct (npt66_word_range (pkt npc) addr n Hb Hn Hal) as [Hw Hne]. fold w in Hw, Hne.
  pose proof (npt66_step_spec (pkt npc) addr b n w adj Hb Ha Hl Hwb Hw Ra) as (L1 & B1 & W1 & E1 & O1 & F1).
  pose proof (npt66_word_step (pkt npc) addr b n adj Hb Ha Hl Hwb Ra Hn Hal) as Hword. cbv zeta in Hword. fold w in Hword.
  set (p1 := npt66_step (pkt npc) addr b n w adj) in *. pose proof (pkt_set_pkt npc p1 L1) as Hp1.
  exists adj, (set_pkt npc p1). split; [exact Hadj|]. split; [rewrite npf_npt66_rwr_eq by done; fold addr; by rewrite Hal|].
  rewrite Hp1. split; [exact W1|]. split; [|split].
  - intros Hle. rewrite (proj2 (Z.leb_le _ _) Hle) in Hdiff.
    refine (proj1 (proj2 (proj2 (npt66_rewrite_spec (pkt npc) addr b n w adj Hb Ha Hl Hwb Hw Ra _)))).
    rewrite <- Zplus_mod_idemp_l, Hdiff, Zplus_mod_idemp_l, Hin.
    destruct (word_sum_spec a n Hwa ltac:(lia)) as [_ Ma]. destruct (word_sum_spec b n Hwb ltac:(lia)) as [_ Mb].
    rewrite <- Zplus_mod_idemp_r, <- Mb, Zplus_mod_idemp_r. by replace (word_sum a n - word_sum b n + word_sum b n) with (word_sum a n) by lia.
  - intros Hn3. unfold npt66_allowed. rewrite (proj2 (Z.leb_le (16 * Z.of_nat n) 48)) by lia.
    assert (w = 3) as Hw3 by (unfold w, npt66_word; by rewrite (proj2 (Z.leb_le (16 * Z.of_nat n) 48)) by lia).
    rewrite Hw3 in E1. change (2 * 3) with 6 in E1. rewrite E1.
    destruct (adjust_spec (rd16 (pkt npc) (addr + 6)) adj (rd16_range _ _ Hb) Ra) as [Hv _]. by rewrite (proj2 (Z.eqb_neq _ 65535)) by lia.
  - intros Hal1. assert (inw 16 (u16 (Z.lnot adj))) as Ra' by (apply wrap_range; lia).
    assert (addr + 16 <= blen p1) as Hl1 by (unfold blen in *; lia).
    pose proof (npt66_step_spec p1 addr a n w (u16 (Z.lnot adj)) B1 Ha Hl1 Hwa Hw Ra') as (L2 & B2 & W2 & E2 & O2 & F2).
    exists (set_pkt (set_pkt npc p1) (npt66_step p1 addr a n w (u16 (Z.lnot adj)))).
    rewrite (pkt_set_pkt (set_pkt npc p1)) by (rewrite Hp1; exact L2). split_and!.
    + rewrite npf_npt66_rwr_eq by exact H6. change (npc_ips (set_pkt npc p1) which) with addr. rewrite Hp1, Hal1, Hword. done.
    + replace 8%nat with (n + (8 - n))%nat by lia. rewrite !words_at_app, W2, Hin. f_equal. apply words_at_rd16. intros i Hi.
      replace (addr + 2 * Z.of_nat n + 2 * Z.of_nat i) with (addr + 2 * (Z.of_nat n + Z.of_nat i)) by lia.
      destruct (Z.eq_dec (Z.of_nat n + Z.of_nat i) w) as [->|Hd]; [|rewrite O2, O1 by lia; done].
      rewrite E2, E1. apply adjust_back; [by apply rd16_range|done|done].
    + intros i Hi. rewrite F2, F1 by done. done.
Qed.

(** The example of RFC 6296: fd01:203:405:1::1234 and 2001:db8:1:d550::1234. *)
Definition rfc_inner : npf_addr_t := [0x0302_01fd; 0x0000_0504; 0; 0].
Definition rfc_outer : npf_addr_t := [0xb80d_0120; 0x0000_0100; 0; 0].
Definition rfc_packet : list Z :=
  [0x60; 0; 0; 0; 0; 8; 17; 64] ++ [0xfd; 1; 2; 3; 4; 5; 0; 1; 0; 0; 0; 0; 0; 0; 0x12; 0x34] ++
  [0x20; 1; 0xd; 0xb8; 0; 2; 0; 0; 0; 0; 0; 0; 0; 0; 0; 1] ++ [0; 53; 0; 53; 0; 8; 0; 0].
Definition rfc_npc : npf_cache_t :=
  mk_npc no_drop (NPC_IP6 ||| NPC_LAYER4 ||| NPC_UDP) (mk_nbuf [rfc_packet] 0 0 1 0) 8 24 16 48 IPPROTO_UDP 0 (Some 48) None.

Lemma npt66_mapping_roundtrip_witness : ∃ adj npc1, npfctl_npt66_calcadj 48 rfc_inner rfc_outer = inl adj ∧
  npf_npt66_rwr rfc_npc NPF_SRC rfc_outer 48 adj = (0, npc1) ∧ words_at (pkt npc1) 8 3 = pref_words rfc_outer 3.
Proof.
  destruct (npt66_mapping_roundtrip rfc_npc NPF_SRC rfc_inner rfc_outer 3) as (adj & npc1 & H1 & H2 & H3 & _).
  - reflexivity.
  - apply bytes_ok_concrete. vm_compute. reflexivity.
  - vm_compute. discriminate.
  - vm_compute. discriminate.
  - set_solver.
  - addr_wf_concrete.
  - addr_wf_concrete.
  - vm_compute. reflexivity.
  - vm_compute. reflexivity.
  - exists adj, npc1. split; [exact H1|]. split; [exact H2|exact H3].
Defined.

Example rfc_translated : npfctl_npt66_calcadj 48 rfc_inner rfc_outer = inl (bswap16 0xd54f) ∧
  words_at (pkt (npf_npt66_rwr rfc_npc NPF_SRC rfc_outer 48 (bswap16 0xd54f)).2) 8 4 = pref_words rfc_outer 3 ++ [bswap16 0xd550].
Proof. vm_compute. auto. Qed.

(** When the sum of the inner prefix is the larger one, the complement of the
    32-bit sum loses the carry: the adjustment is one too small and the sum of
    a translated address changes.  The prefixes of the RFC, exchanged. *)
Theorem npt66_carry_lost : npfctl_npt66_calcadj 48 rfc_outer rfc_inner = inl (word_sum rfc_outer 3 - word_sum rfc_inner 3 - 1) ∧
  (word_sum rfc_outer 3 - word_sum rfc_inner 3 - 1 + zsum (pref_words rfc_inner 3)) mod 65535 ≠ zsum (pref_words rfc_outer 3) mod 65535.
Proof. split; [vm_compute; reflexivity|vm_compute; discriminate]. Qed.

(** The word behind the prefix is read in any case: for prefixes of 128 bits,
    and for addresses without a mask, outside of the address. *)
Theorem npt66_long_prefix : npfctl_npt66_calcadj 128 rfc_inner rfc_outer = inr E_segv ∧
  npfctl_npt66_calcadj NPF_NO_NETMASK rfc_inner rfc_outer = inr E_segv.
Proof. vm_compute. auto. Qed.

End Npt66.
