(* ===== verification/Stats.v ===== *)
(** * Stats: the statistics counters (src/kern/npf.c)

    Every CPU has its own counters, which only its own threads change;
    [npfk_stats] adds them up.  The counters of the CPUs are a list of arrays of
    64-bit numbers; [percpu_getref] gives the array of the CPU that runs the
    thread, an argument here. *)

From S2P Require Import Prelude.
Open Scope Z_scope.
Open Scope npf_scope.

Module Stats.

(** The counters in their order. *)
Inductive npf_stats_t :=
| NPF_STAT_PASS_DEFAULT | NPF_STAT_PASS_RULESET | NPF_STAT_PASS_CONN
| NPF_STAT_BLOCK_DEFAULT | NPF_STAT_BLOCK_RULESET
| NPF_STAT_CONN_CREATE | NPF_STAT_CONN_DESTROY | NPF_STAT_NAT_CREATE | NPF_STAT_NAT_DESTROY
| NPF_STAT_INVALID_STATE | NPF_STAT_INVALID_STATE_TCP1 | NPF_STAT_INVALID_STATE_TCP2 | NPF_STAT_INVALID_STATE_TCP3
| NPF_STAT_RACE_CONN | NPF_STAT_RACE_NAT
| NPF_STAT_FRAGMENTS | NPF_STAT_REASSEMBLY | NPF_STAT_REASSFAIL
| NPF_STAT_ERROR
| NPF_STAT_NBUF_NONCONTIG | NPF_STAT_NBUF_CONTIG_FAIL.

Definition stat_index (st : npf_stats_t) : nat :=
  match st with
  | NPF_STAT_PASS_DEFAULT => 0 | NPF_STAT_PASS_RULESET => 1 | NPF_STAT_PASS_CONN => 2
  | NPF_STAT_BLOCK_DEFAULT => 3 | NPF_STAT_BLOCK_RULESET => 4
  | NPF_STAT_CONN_CREATE => 5 | NPF_STAT_CONN_DESTROY => 6 | NPF_STAT_NAT_CREATE => 7 | NPF_STAT_NAT_DESTROY => 8
  | NPF_STAT_INVALID_STATE => 9 | NPF_STAT_INVALID_STATE_TCP1 => 10 | NPF_STAT_INVALID_STATE_TCP2 => 11 | NPF_STAT_INVALID_STATE_TCP3 => 12
  | NPF_STAT_RACE_CONN => 13 | NPF_STAT_RACE_NAT => 14
  | NPF_STAT_FRAGMENTS => 15 | NPF_STAT_REASSEMBLY => 16 | NPF_STAT_REASSFAIL => 17
  | NPF_STAT_ERROR => 18
  | NPF_STAT_NBUF_NONCONTIG => 19 | NPF_STAT_NBUF_CONTIG_FAIL => 20
  end.
Definition NPF_STATS_COUNT : nat := 21.

Abbreviation stats := (list Z).

(** [percpu_alloc] zeroes. *)
Definition stats_create (ncpu : nat) : list stats := replicate ncpu (replicate NPF_STATS_COUNT 0).

Definition npf_stats_inc (cpu : nat) (l : list stats) (st : npf_stats_t) : list stats := alter (alter (λ v, u64 (v + 1)) (stat_index st)) cpu l.
Definition npf_stats_dec (cpu : nat) (l : list stats) (st : npf_stats_t) : list stats := alter (alter (λ v, u64 (v - 1)) (stat_index st)) cpu l.

Definition npf_stats_collect (full percpu : stats) : stats := zip_with (λ a b, u64 (a + b)) full percpu.
Definition npf_stats_clear_cb (percpu : stats) : stats := const 0 <$> percpu.

Definition npfk_stats (l : list stats) : stats := foldl npf_stats_collect (replicate NPF_STATS_COUNT 0) l.
Definition npfk_stats_clear (l : list stats) : list stats := npf_stats_clear_cb <$> l.

(** ** One counter *)

(** What the threads do, one by one. *)
Inductive stat_op := S_inc (cpu : nat) (st : npf_stats_t) | S_dec (cpu : nat) (st : npf_stats_t) | S_clear.

Definition stat_step (l : list stats) (op : stat_op) : list stats :=
  match op with S_inc cpu st => npf_stats_inc cpu l st | S_dec cpu st => npf_stats_dec cpu l st | S_clear => npfk_stats_clear l end.

(** The counter that they stand for. *)
Definition count_step (i : nat) (n : Z) (op : stat_op) : Z :=
  match op with
  | S_inc _ st => if decide (stat_index st = i) then n + 1 else n
  | S_dec _ st => if decide (stat_index st = i) then n - 1 else n
  | S_clear => 0
  end.

Definition op_cpu (ncpu : nat) (op : stat_op) : Prop := match op with S_inc cpu _ | S_dec cpu _ => (cpu < ncpu)%nat | S_clear => True end.

Definition wf (ncpu : nat) (l : list stats) : Prop := length l = ncpu ∧ Forall (λ c, length c = NPF_STATS_COUNT) l.

(** The sum over the CPUs of one counter. *)
Definition total (i : nat) (l : list stats) : Z := foldr (λ c a, default 0 (c !! i) + a) 0 l.

Lemma stat_index_range st : (stat_index st < NPF_STATS_COUNT)%nat.
Proof. destruct st; cbn; unfold NPF_STATS_COUNT; lia. Qed.

Lemma alter_wf f st cpu ncpu l : wf ncpu l → wf ncpu (alter (alter f (stat_index st)) cpu l).
Proof.
  intros [Hl Hc]. split; [by rewrite length_alter|]. apply Forall_alter; [done|]. intros c Hc' Hx. by rewrite length_alter.
Qed.

Lemma step_wf ncpu l op : wf ncpu l → wf ncpu (stat_step l op).
Proof.
  intros Hl. destruct op; cbn [stat_step]; [by apply alter_wf|by apply alter_wf|]. destruct Hl as [Hl Hc]. unfold npfk_stats_clear. split; [by rewrite length_fmap|].
  apply Forall_fmap. eapply Forall_impl; [exact Hc|]. intros c Hx. unfold compose, npf_stats_clear_cb. rewrite length_fmap. exact Hx.
Qed.

Lemma total_alter f d i st cpu ncpu l : wf ncpu l → (cpu < ncpu)%nat → (∀ v, f v mod 2 ^ 64 = (v + d) mod 2 ^ 64) →
  total i (alter (alter f (stat_index st)) cpu l) mod 2 ^ 64 = (total i l + (if decide (stat_index st = i) then d else 0)) mod 2 ^ 64.
Proof.
  intros [Hl Hc] Hcpu Hf. revert cpu ncpu Hl Hcpu. induction Hc as [|c l Hcl _ IH]; intros cpu ncpu Hl Hcpu; [cbn in Hl; lia|].
  destruct cpu as [|cpu]; cbn [alter list_alter total foldr].
  - fold (total i l). case_decide as Hi.
    + subst i. rewrite list_lookup_alter_eq. destruct (lookup_lt_is_Some_2 c (stat_index st)) as [v Hv]; [rewrite Hcl; apply stat_index_range|].
      rewrite Hv. cbn [fmap option_fmap option_map default id]. rewrite Z.add_mod, Hf, <- Z.add_mod by lia. f_equal. lia.
    + rewrite list_lookup_alter_ne by done. f_equal. lia.
  - transitivity ((default 0 (c !! i) + total i (alter (alter f (stat_index st)) cpu l)) mod 2 ^ 64); [reflexivity|]. fold (total i l).
    cbn in Hl. rewrite Z.add_mod, (IH cpu (ncpu - 1)%nat) by lia. rewrite <- Z.add_mod by lia. f_equal. lia.
Qed.

Lemma total_clear i l : total i (npfk_stats_clear l) = 0.
Proof.
  induction l as [|c l IH]; [done|]. transitivity (default 0 (npf_stats_clear_cb c !! i) + total i (npfk_stats_clear l)); [reflexivity|].
  unfold npf_stats_clear_cb. rewrite IH, list_lookup_fmap. by destruct (c !! i).
Qed.

Lemma npfk_stats_lookup i ncpu l : wf ncpu l → (i < NPF_STATS_COUNT)%nat → npfk_stats l !! i = Some (total i l mod 2 ^ 64).
Proof.
  intros [_ Hc] Hi. unfold npfk_stats.
  assert (∀ full : stats, length full = NPF_STATS_COUNT → ∀ v, full !! i = Some v → inw 64 v →
    foldl npf_stats_collect full l !! i = Some ((v + total i l) mod 2 ^ 64)) as Hg.
  { induction Hc as [|c l Hcl _ IH]; intros full Hlen v Hv Hr; cbn [foldl total foldr].
    - rewrite Hv, Z.add_0_r, Z.mod_small; done.
    - destruct (lookup_lt_is_Some_2 c i) as [u Hu]; [by rewrite Hcl|]. rewrite Hu. cbn [default id]. fold (total i l).
      assert (length (npf_stats_collect full c) = NPF_STATS_COUNT) as Hl' by (unfold npf_stats_collect; rewrite length_zip_with, Hlen, Hcl; apply Nat.min_id).
      assert (npf_stats_collect full c !! i = Some (u64 (v + u))) as Hv' by (unfold npf_stats_collect; by rewrite lookup_zip_with, Hv, Hu).
      rewrite (IH _ Hl' _ Hv' ltac:(apply wrap_range; lia)). f_equal. unfold wrap. rewrite Z.add_mod_idemp_l by lia. f_equal. lia. }
  rewrite (Hg _ (length_replicate _ _) 0); [done|by apply lookup_replicate_2|done].
Qed.

(** The exported statistics count what happened.  After any sequence of
    increments, decrements and resets by the threads of any CPUs, each of the
    exported numbers is the increments less the decrements of that counter
    since the last reset, modulo 2^64. *)
Theorem npfk_stats_counts ncpu ops i : Forall (op_cpu ncpu) ops → (i < NPF_STATS_COUNT)%nat →
  npfk_stats (foldl stat_step (stats_create ncpu) ops) !! i = Some (u64 (foldl (count_step i) 0 ops)).
Proof.
  intros Ho Hi. assert (∀ l n, wf ncpu l → total i l mod 2 ^ 64 = n mod 2 ^ 64 →
    wf ncpu (foldl stat_step l ops) ∧ total i (foldl stat_step l ops) mod 2 ^ 64 = foldl (count_step i) n ops mod 2 ^ 64) as Hg.
  { induction Ho as [|op ops Hop _ IH]; intros l n Hl Hn; [done|]. cbn [foldl]. apply IH; [by apply step_wf|]. destruct op as [cpu st|cpu st|]; cbn [stat_step count_step].
    - unfold npf_stats_inc. rewrite (total_alter _ 1 i st cpu ncpu l Hl Hop); [|intros v; unfold wrap; by rewrite Z.mod_mod].
      rewrite Z.add_mod, Hn, <- Z.add_mod by lia. f_equal. case_decide; lia.
    - unfold npf_stats_dec. rewrite (total_alter _ (-1) i st cpu ncpu l Hl Hop); [|intros v; unfold wrap; by rewrite Z.mod_mod].
      rewrite Z.add_mod, Hn, <- Z.add_mod by lia. f_equal. case_decide; lia.
    - by rewrite total_clear. }
  destruct (Hg (stats_create ncpu) 0) as [Hw Ht].
  - split; [apply length_replicate|]. apply Forall_replicate. apply length_replicate.
  - f_equal. unfold stats_create. clear -Hi. induction ncpu as [|n IH]; [done|]. cbn [replicate total foldr]. fold (total i (replicate n (replicate NPF_STATS_COUNT 0))).
    by rewrite IH, lookup_replicate_2.
  - rewrite (npfk_stats_lookup i ncpu) by done. by rewrite Ht.
Qed.

Lemma npfk_stats_counts_witness :
  npfk_stats (foldl stat_step (stats_create 2) [S_inc 0 NPF_STAT_CONN_CREATE; S_inc 1 NPF_STAT_CONN_CREATE; S_inc 1 NPF_STAT_ERROR]) !! 5%nat = Some 2.
Proof.
  rewrite (npfk_stats_counts 2 [S_inc 0 NPF_STAT_CONN_CREATE; S_inc 1 NPF_STAT_CONN_CREATE; S_inc 1 NPF_STAT_ERROR] 5).
  - reflexivity.
  - repeat constructor.
  - unfold NPF_STATS_COUNT. lia.
Defined.

End Stats.
