(* ===== verification/Worker.v ===== *)
(** * Worker: the garbage collection workers (src/kern/npf_worker.c)

    Worker threads process the enlisted NPF instances: every pass runs the work
    functions of each instance, or takes it off the list when its owner waits
    for that.  A pass holds the lock from the first instance to the last and
    gives it up only to sleep, so that the states in which other threads run
    are those between the steps below: a call of [npf_worker_enlist], the first
    half of [npf_worker_discharge] (the request, up to its sleep), a turn of
    its waiting loop, a pass, a signal and the exit request.

    Both condition variables are modelled by the threads asleep on them: a
    thread that calls [cv_wait] or [cv_timedwait] is put to sleep, and an
    asleep thread takes no step until [cv_broadcast] or [cv_signal] wakes it,
    its time is over (workers) or it wakes up for no reason (callers).  The
    test of [npf_worker_discharge] before it takes the lock is one step with
    the request.  The work functions are a parameter; a failed assertion is
    [None]. *)

From S2P Require Import Prelude.
Open Scope Z_scope.
Open Scope npf_scope.

Module Worker.

Definition NPF_GC_MINWAIT : Z := 10.
Definition NPF_GC_MAXWAIT : Z := 10 * 1000.
Definition NPF_MAX_WORKS : nat := 4.

Definition WFLAG_ACTIVE : Z := 0x01.
Definition WFLAG_INITED : Z := 0x02.
Definition WFLAG_REMOVE : Z := 0x04.

Section worker.
(** A work function changes the environment; [wait_time] is the
    [worker_wait_time] that it leaves in the instance. *)
Context {E F : Type} (run : F → Z → E → E) (wait_time : E → Z → Z).

Record instance := mk_inst { worker_flags : Z; worker_funcs : list (option F) }.

(** Thread registrations and calls, by the worker. *)
Inductive event := Ev_register (w id : Z) | Ev_unregister (w id : Z) | Ev_work (w id : Z) (f : F).

(** The threads.  [worker] are those that run [npf_worker], [callers] those
    inside [npf_worker_discharge], with the instance; [cv] and [exit_cv] are
    the threads asleep on that condition variable. *)
Record npf_threads := mk_thr {
  cv : gset Z;
  exit_cv : gset Z;
  worker : gset Z;
  callers : gmap Z Z;
}.

Record npf_workerinfo := mk_winfo {
  wi_npf : gmap Z instance;
  instances : list Z;
  wi_exit : bool;
  wi_env : E;
  wi_log : list event;
  wi_thr : npf_threads;
}.

Definition set_inst (s : npf_workerinfo) (id : Z) (i : instance) : npf_workerinfo :=
  mk_winfo (<[id := i]> (wi_npf s)) (instances s) (wi_exit s) (wi_env s) (wi_log s) (wi_thr s).
Definition set_flags (i : instance) (f : Z) : instance := mk_inst f (worker_funcs i).
Definition log (s : npf_workerinfo) (e : event) : npf_workerinfo := mk_winfo (wi_npf s) (instances s) (wi_exit s) (wi_env s) (wi_log s ++ [e]) (wi_thr s).
Definition set_thr (s : npf_workerinfo) (t : npf_threads) : npf_workerinfo := mk_winfo (wi_npf s) (instances s) (wi_exit s) (wi_env s) (wi_log s) t.

(** ** The condition variables *)

Definition cv_broadcast_cv (s : npf_workerinfo) : npf_workerinfo :=
  let t := wi_thr s in set_thr s (mk_thr ∅ (exit_cv t) (worker t) (callers t)).
Definition cv_broadcast_exit_cv (s : npf_workerinfo) : npf_workerinfo :=
  let t := wi_thr s in set_thr s (mk_thr (cv t) ∅ (worker t) (callers t)).
(** Wakes one of the workers, [w] if it is asleep. *)
Definition cv_signal_cv (s : npf_workerinfo) (w : Z) : npf_workerinfo :=
  let t := wi_thr s in set_thr s (mk_thr (cv t ∖ {[w]}) (exit_cv t) (worker t) (callers t)).
Definition cv_wait_exit_cv (s : npf_workerinfo) (c : Z) : npf_workerinfo :=
  let t := wi_thr s in set_thr s (mk_thr (cv t) ({[c]} ∪ exit_cv t) (worker t) (callers t)).
Definition cv_timedwait_cv (s : npf_workerinfo) (w : Z) : npf_workerinfo :=
  let t := wi_thr s in set_thr s (mk_thr ({[w]} ∪ cv t) (exit_cv t) (worker t) (callers t)).

(** Calls of [npf_worker_discharge] begin and return, workers end. *)
Definition set_callers (s : npf_workerinfo) (m : gmap Z Z) : npf_workerinfo :=
  let t := wi_thr s in set_thr s (mk_thr (cv t) (exit_cv t) (worker t) m).
Definition kthread_exit (s : npf_workerinfo) (w : Z) : npf_workerinfo :=
  let t := wi_thr s in set_thr s (mk_thr (cv t) (exit_cv t) (worker t ∖ {[w]}) (callers t)).

(** ** Setting up an instance *)

Fixpoint first_free (n : nat) (l : list (option F)) (work : F) : option (list (option F)) :=
  match n, l with
  | S n, None :: l => Some (Some work :: l)
  | S n, Some f :: l => cons (Some f) <$> first_free n l work
  | _, _ => None
  end.

Definition npf_worker_addfunc (i : instance) (work : F) : option (Z * instance) :=
  if negb (worker_flags i =? 0) then None else
  Some (match first_free NPF_MAX_WORKS (worker_funcs i) work with
        | Some l => (0, mk_inst (worker_flags i) l)
        | None => (-1, i)
        end).

Definition npf_worker_enlist (s : npf_workerinfo) (id : Z) : option npf_workerinfo :=
  i ← wi_npf s !! id;
  if negb (worker_flags i =? 0) then None else
  Some (mk_winfo (<[id := set_flags i (worker_flags i ||| WFLAG_ACTIVE)]> (wi_npf s)) (id :: instances s) (wi_exit s) (wi_env s) (wi_log s) (wi_thr s)).

(** ** Discharging an instance *)

(** The condition of the wait, and the assertion when it is over. *)
Definition discharge_waits (s : npf_workerinfo) (id : Z) : bool :=
  match wi_npf s !! id with Some i => flag (worker_flags i) WFLAG_ACTIVE | None => false end.
Definition discharge_end (s : npf_workerinfo) (id : Z) : option npf_workerinfo :=
  i ← wi_npf s !! id; if negb (worker_flags i =? 0) then None else Some s.

(** A turn of the waiting loop of thread [c]: to sleep again, or out of the
    loop and back to the caller. *)
Definition discharge_loop (c : Z) (s : npf_workerinfo) (id : Z) : option npf_workerinfo :=
  if discharge_waits s id then Some (cv_wait_exit_cv s c)
  else s ← discharge_end s id; Some (set_callers s (delete c (callers (wi_thr s)))).

(** The call by thread [c], up to its first sleep; [false]: the instance is
    not enlisted and the call returns. *)
Definition npf_worker_discharge (c : Z) (s : npf_workerinfo) (id : Z) : option (bool * npf_workerinfo) :=
  i ← wi_npf s !! id;
  if negb (flag (worker_flags i) WFLAG_ACTIVE) then Some (false, s)
  else
    let s := set_inst s id (set_flags i (worker_flags i ||| WFLAG_REMOVE)) in
    let s := set_callers (cv_broadcast_cv s) (<[c := id]> (callers (wi_thr s))) in
    s ← discharge_loop c s id; Some (true, s).

(** ** A pass of a worker *)

Definition remove_npf_instance (w : Z) (s : npf_workerinfo) (id : Z) : option npf_workerinfo :=
  i ← wi_npf s !! id;
  if negb (flag (worker_flags i) WFLAG_ACTIVE) || negb (flag (worker_flags i) WFLAG_REMOVE) then None else
  let s := if flag (worker_flags i) WFLAG_INITED then log s (Ev_unregister w id) else s in
  let s := mk_winfo (<[id := set_flags i 0]> (wi_npf s)) (filter (λ j, j ≠ id) (instances s)) (wi_exit s) (wi_env s) (wi_log s) (wi_thr s) in
  Some (cv_broadcast_exit_cv s).

(** The functions up to the first free slot. *)
Fixpoint run_works (n : nat) (l : list (option F)) (w id : Z) (s : npf_workerinfo) : npf_workerinfo :=
  match n, l with
  | S n, Some f :: l =>
      run_works n l w id (mk_winfo (wi_npf s) (instances s) (wi_exit s) (run f id (wi_env s)) (wi_log s ++ [Ev_work w id f]) (wi_thr s))
  | _, _ => s
  end.

Definition process_npf_instance (w : Z) (s : npf_workerinfo) (id : Z) : option (Z * npf_workerinfo) :=
  i ← wi_npf s !! id;
  if flag (worker_flags i) WFLAG_REMOVE then
    s ← remove_npf_instance w s id; Some (NPF_GC_MAXWAIT, s)
  else
    let s := if negb (flag (worker_flags i) WFLAG_INITED)
             then set_inst (log s (Ev_register w id)) id (set_flags i (worker_flags i ||| WFLAG_INITED)) else s in
    let s := run_works NPF_MAX_WORKS (worker_funcs i) w id s in
    Some (Z.max (Z.min (wait_time (wi_env s) id) NPF_GC_MAXWAIT) NPF_GC_MINWAIT, s).

(** The successor is read before an instance is processed, and only the
    instance itself can be removed: the pass visits the list as it was. *)
Fixpoint pass_loop (w : Z) (ids : list Z) (wait : Z) (s : npf_workerinfo) : option (Z * npf_workerinfo) :=
  match ids with
  | [] => Some (wait, s)
  | id :: ids => '(t, s) ← process_npf_instance w s id; pass_loop w ids (Z.min wait t) s
  end.

(** The time to sleep, [None] when the worker ends instead (the list must be
    empty then). *)
Definition npf_worker (w : Z) (s : npf_workerinfo) : option (option Z * npf_workerinfo) :=
  '(t, s) ← pass_loop w (instances s) NPF_GC_MAXWAIT s;
  if wi_exit s then match instances s with [] => Some (None, kthread_exit s w) | _ => None end
  else Some (Some t, cv_timedwait_cv s w).

(** ** Start and end of the workers *)

(** [created]: whether the thread of a worker could be created.  Without
    workers there is no state; when a thread is missing the others are ended. *)
Definition npf_worker_sysinit (nworkers : nat) (created : nat → bool) (e : E) : Z * option npf_workerinfo :=
  if (nworkers =? 0)%nat then (0, None)
  else if forallb created (seq 0 nworkers) then (0, Some (mk_winfo ∅ [] false e [] (mk_thr ∅ ∅ (list_to_set (Z.of_nat <$> seq 0 nworkers)) ∅))) else (ENOMEM, None).

(** The workers are told to end; the caller waits for their last passes. *)
Definition npf_worker_sysfini (s : npf_workerinfo) : npf_workerinfo :=
  cv_broadcast_cv (mk_winfo (wi_npf s) (instances s) true (wi_env s) (wi_log s) (wi_thr s)).

(** Wakes a worker, [w] if it is asleep. *)
Definition npf_worker_signal (s : npf_workerinfo) (id w : Z) : option npf_workerinfo :=
  i ← wi_npf s !! id;
  if negb (flag (worker_flags i) WFLAG_ACTIVE) then Some s else Some (cv_signal_cv s w).

(** ** Steps *)

(** [W_discharge c id]: thread [c] calls [npf_worker_discharge] (it must not
    be inside a call).  [W_resume c]: a thread inside a call, and not asleep,
    takes a turn of the loop.  [W_pass w]: a worker that is not asleep makes a
    pass.  [W_timeout w]: the sleep of a worker ends.  [W_spurious c]: a caller
    wakes up without a broadcast. *)
Inductive wop :=
  | W_enlist (id : Z) | W_discharge (c id : Z) | W_resume (c : Z) | W_pass (w : Z)
  | W_signal (id w : Z) | W_timeout (w : Z) | W_spurious (c : Z) | W_exit.

#[global] Instance wop_eq_dec : EqDecision wop.
Proof. solve_decision. Defined.

Definition wstep (s : npf_workerinfo) (op : wop) : option npf_workerinfo :=
  match op with
  | W_enlist id => npf_worker_enlist s id
  | W_discharge c id =>
      match callers (wi_thr s) !! c with Some _ => None | None => snd <$> npf_worker_discharge c s id end
  | W_resume c =>
      id ← callers (wi_thr s) !! c;
      if bool_decide (c ∈ exit_cv (wi_thr s)) then None else discharge_loop c s id
  | W_pass w =>
      if bool_decide (w ∈ worker (wi_thr s) ∧ w ∉ cv (wi_thr s)) then snd <$> npf_worker w s else None
  | W_signal id w => npf_worker_signal s id w
  | W_timeout w => Some (cv_signal_cv s w)
  | W_spurious c =>
      let t := wi_thr s in Some (set_thr s (mk_thr (cv t) (exit_cv t ∖ {[c]}) (worker t) (callers t)))
  | W_exit => Some (npf_worker_sysfini s)
  end.

Fixpoint wsteps (s : npf_workerinfo) (ops : list wop) : option npf_workerinfo :=
  match ops with [] => Some s | op :: ops => s ← wstep s op; wsteps s ops end.

(** ** The invariant *)

(** The list has the enlisted instances, once each; the other flags are set
    only on enlisted ones. *)
Record winv (s : npf_workerinfo) : Prop := {
  wv_nodup : NoDup (instances s);
  wv_flags : ∀ id i, wi_npf s !! id = Some i → worker_flags i ∈ [0; 1; 3; 5; 7];
  wv_list : ∀ id, id ∈ instances s ↔ ∃ i, wi_npf s !! id = Some i ∧ worker_flags i ≠ 0;
}.

Lemma flags_bits f : f ∈ [0; 1; 3; 5; 7] → flag f WFLAG_ACTIVE = negb (f =? 0) ∧
  (f ≠ 0 → f ||| WFLAG_REMOVE ∈ [5; 7]) ∧ (flag f WFLAG_REMOVE = true → f ≠ 0 ∧ f ∈ [5; 7]) ∧
  (flag f WFLAG_REMOVE = false → f ≠ 0 → f ||| WFLAG_INITED = 3).
Proof. rewrite !elem_of_cons, elem_of_nil. intros [-> |[-> |[-> |[-> |[-> |[]]]]]]; split; try done; (split; [|split]); cbn; intros; try done; (split; [done|]) || idtac; rewrite ?elem_of_cons; auto. Qed.

Lemma winv_set s id i f : winv s → wi_npf s !! id = Some i → worker_flags i ≠ 0 → f ∈ [1; 3; 5; 7] → winv (set_inst s id (set_flags i f)).
Proof.
  intros [H1 H2 H3] Hi Hf Hn. assert (f ≠ 0 ∧ f ∈ [0; 1; 3; 5; 7]) as [Hf0 Hf5] by (set_unfold in Hn; split; [lia|set_solver]).
  split; cbn; [done| |].
  - intros j k [[<- <-]|[_ Hj]]%lookup_insert_Some; [done|eauto].
  - intros j. rewrite H3. split; intros (k & Hk & Hk0).
    + destruct (decide (id = j)) as [<-|Hne]; [|exists k; by rewrite lookup_insert_ne]. exists (set_flags i f). by rewrite lookup_insert_eq.
    + apply lookup_insert_Some in Hk as [[<- _]|[_ Hk]]; eauto.
Qed.

End worker.
(** ** What a pass does *)

Section passes.
Context {E F : Type} (run : F → Z → E → E) (wait_time : E → Z → Z).
Implicit Types (s : npf_workerinfo (E := E) (F := F)) (i : instance (F := F)).

(** The functions of an instance: the slots before the first free one. *)
Fixpoint works_of (n : nat) (l : list (option F)) : list F :=
  match n, l with S n, Some f :: l => f :: works_of n l | _, _ => [] end.

(** The calls that a pass of [w] makes for an instance. *)
Definition events_of (w id : Z) i : list (event (F := F)) :=
  if flag (worker_flags i) WFLAG_REMOVE then (if flag (worker_flags i) WFLAG_INITED then [Ev_unregister w id] else [])
  else (if flag (worker_flags i) WFLAG_INITED then [] else [Ev_register w id]) ++ (Ev_work w id <$> works_of NPF_MAX_WORKS (worker_funcs i)).

(** The flags after a pass. *)
Definition flags_after (f : Z) : Z := if f =? 0 then 0 else if flag f WFLAG_REMOVE then 0 else WFLAG_ACTIVE ||| WFLAG_INITED.

Lemma run_works_spec n l w id : ∀ s, let s' := run_works run n l w id s in
  wi_npf s' = wi_npf s ∧ instances s' = instances s ∧ wi_exit s' = wi_exit s ∧ wi_thr s' = wi_thr s ∧ wi_log s' = wi_log s ++ (Ev_work w id <$> works_of n l).
Proof.
  revert l. induction n as [|n IH]; intros [|[f|] l] s; cbn [run_works works_of fmap list_fmap]; try (by rewrite app_nil_r).
  match goal with |- context [run_works run n l w id ?x] => destruct (IH l x) as (E1 & E2 & E3 & E4 & E5) end.
  cbv zeta. rewrite E1, E2, E3, E4, E5. cbn. by rewrite <- app_assoc.
Qed.

Lemma filter_ext_in (P Q : Z → Prop) `{∀ x, Decision (P x), ∀ x, Decision (Q x)} (l : list Z) : (∀ x, x ∈ l → P x ↔ Q x) → filter P l = filter Q l.
Proof.
  induction l as [|x l IH]; intros Hx; [done|]. rewrite !filter_cons, IH by (intros y Hy; apply Hx; by right).
  pose proof (Hx x (list_elem_of_here _ _)). by repeat case_decide; try naive_solver.
Qed.

Lemma winv_remove s id i : winv s → wi_npf s !! id = Some i →
  winv (cv_broadcast_exit_cv (mk_winfo (<[id := set_flags i 0]> (wi_npf s)) (filter (λ j, j ≠ id) (instances s)) (wi_exit s) (wi_env s) (wi_log s) (wi_thr s))).
Proof.
  intros [H1 H2 H3] Hi. split; cbn.
  - by apply NoDup_filter.
  - intros j k [[<- <-]|[_ Hj]]%lookup_insert_Some; [cbn; set_solver|eauto].
  - intros j. rewrite list_elem_of_filter, H3. split.
    + intros (Hne & k & Hk & Hk0). exists k. by rewrite lookup_insert_ne.
    + intros (k & [[<- <-]|[Hne Hk]]%lookup_insert_Some & Hk0); [done|]. split; [done|]. by exists k.
Qed.

(** The callers of [npf_worker_discharge] are woken. *)
Definition woken (t : npf_threads) : npf_threads := mk_thr (cv t) ∅ (worker t) (callers t).

(** One instance of the list: its flags and the list change, the others stay. *)
Lemma process_spec w s id i : winv s → wi_npf s !! id = Some i → worker_flags i ≠ 0 →
  ∃ t s', process_npf_instance run wait_time w s id = Some (t, s') ∧ winv s' ∧ NPF_GC_MINWAIT <= t <= NPF_GC_MAXWAIT ∧
    wi_npf s' = <[id := set_flags i (flags_after (worker_flags i))]> (wi_npf s) ∧ wi_exit s' = wi_exit s ∧
    instances s' = (if flag (worker_flags i) WFLAG_REMOVE then filter (λ j, j ≠ id) (instances s) else instances s) ∧
    wi_log s' = wi_log s ++ events_of w id i ∧
    wi_thr s' = (if flag (worker_flags i) WFLAG_REMOVE then woken (wi_thr s) else wi_thr s).
Proof.
  intros Hs Hi Hf. destruct (flags_bits (worker_flags i) (wv_flags s Hs id i Hi)) as (Fa & _ & _ & Fi).
  unfold process_npf_instance, flags_after, events_of. rewrite Hi. cbn [mbind option_bind]. rewrite (proj2 (Z.eqb_neq _ _) Hf) in *. cbn [negb] in Fa.
  destruct (flag (worker_flags i) WFLAG_REMOVE) eqn:Er.
  - unfold remove_npf_instance. rewrite Hi. cbn [mbind option_bind]. rewrite Fa, Er. cbn [negb orb].
    eexists NPF_GC_MAXWAIT, _. split; [reflexivity|]. destruct (winv_remove s id i Hs Hi) as [H1 H2 H3].
    destruct (flag (worker_flags i) WFLAG_INITED); cbn; (split; [by split|]); rewrite ?app_nil_r; unfold NPF_GC_MINWAIT, NPF_GC_MAXWAIT; split_and!; (done || lia).
  - specialize (Fi eq_refl Hf). set (s1 := if negb _ then _ else s).
    assert (winv s1 ∧ wi_npf s1 = <[id := set_flags i 3]> (wi_npf s) ∧ instances s1 = instances s ∧ wi_exit s1 = wi_exit s ∧
      wi_log s1 = wi_log s ++ (if flag (worker_flags i) WFLAG_INITED then [] else [Ev_register w id]) ∧ wi_thr s1 = wi_thr s) as (W1 & W2 & W3 & W4 & W5 & W6).
    { unfold s1. destruct (flag (worker_flags i) WFLAG_INITED) eqn:Ei; cbn [negb].
      - split; [done|]. rewrite app_nil_r. split; [|done]. rewrite insert_id; [done|].
        assert (worker_flags i = 3) as E3 by (pose proof (wv_flags s Hs id i Hi) as Hx; set_unfold in Hx; destruct_or!; rewrite Hx in *; done).
        rewrite Hi. f_equal. destruct i as [fl fu]. cbn in *. by subst.
      - split; [|rewrite Fi; done]. rewrite Fi. destruct Hs as [H1 H2 H3].
        exact (winv_set (log s (Ev_register w id)) id i 3 ltac:(by split) Hi Hf ltac:(set_solver)). }
    destruct (run_works_spec NPF_MAX_WORKS (worker_funcs i) w id s1) as (R1 & R2 & R3 & R4 & R5). set (s2 := run_works _ _ _ _ _ s1) in *.
    eexists _, s2. split; [reflexivity|]. destruct W1 as [V1 V2 V3].
    split; [split; rewrite ?R1, ?R2; done|]. split; [unfold NPF_GC_MINWAIT, NPF_GC_MAXWAIT; lia|].
    rewrite R1, R2, R3, R4, R5, W2, W3, W4, W5, W6, app_assoc. done.
Qed.
End passes.

Section progress.
Context {E F : Type} (run : F → Z → E → E) (wait_time : E → Z → Z).
Implicit Types (s : npf_workerinfo (E := E) (F := F)) (i : instance (F := F)).

(** The instances of a pass, and the rest. *)
Definition pass_events (w : Z) s (ids : list Z) : list (event (F := F)) :=
  ids ≫= λ id, match wi_npf s !! id with Some i => events_of w id i | None => [] end.

Definition removing s (id : Z) : bool := match wi_npf s !! id with Some i => flag (worker_flags i) WFLAG_REMOVE | None => false end.

Lemma pass_events_ext w s s' ids : (∀ id, id ∈ ids → wi_npf s' !! id = wi_npf s !! id) → pass_events w s' ids = pass_events w s ids.
Proof.
  induction ids as [|id ids IH]; intros Hx; [done|]. unfold pass_events in *. cbn. rewrite (Hx id) by left. f_equal. apply IH. intros j Hj. apply Hx. by right.
Qed.

Lemma pass_loop_spec w ids : ∀ wait s, winv s → NoDup ids → (∀ id, id ∈ ids → id ∈ instances s) → NPF_GC_MINWAIT <= wait <= NPF_GC_MAXWAIT →
  ∃ t s', pass_loop run wait_time w ids wait s = Some (t, s') ∧ winv s' ∧ NPF_GC_MINWAIT <= t <= NPF_GC_MAXWAIT ∧ wi_exit s' = wi_exit s ∧
    (∀ id, wi_npf s' !! id = if decide (id ∈ ids) then (λ i, set_flags i (flags_after (worker_flags i))) <$> wi_npf s !! id else wi_npf s !! id) ∧
    instances s' = filter (λ id, ¬ (id ∈ ids ∧ removing s id = true)) (instances s) ∧ wi_log s' = wi_log s ++ pass_events w s ids ∧
    wi_thr s' = (if existsb (removing s) ids then woken (wi_thr s) else wi_thr s).
Proof.
  induction ids as [|id ids IH]; intros wait s Hs Hd Hin Hw.
  - exists wait, s. cbn [pass_loop]. split_and!; try done; try lia.
    + rewrite (filter_ext_in _ (λ _, True)); [|intros j _; split; [done|intros _ [[]%elem_of_nil _]]].
      clear. induction (instances s) as [|j l IH]; [done|]. rewrite filter_cons, decide_True by done. by f_equal.
    + by rewrite app_nil_r.
  - apply NoDup_cons in Hd as [Hn Hd]. destruct (proj1 (wv_list s Hs id) (Hin id (list_elem_of_here _ _))) as (i & Hi & Hf).
    destruct (process_spec run wait_time w s id i Hs Hi Hf) as (t1 & s1 & Hp & W1 & Ht1 & E1 & E2 & E3 & E4 & E5).
    assert (∀ j, j ≠ id → wi_npf s1 !! j = wi_npf s !! j) as Hother by (intros j Hj; by rewrite E1, lookup_insert_ne).
    assert (∀ j, j ∈ ids → j ≠ id) as Hne by (intros j Hj ->; done).
    destruct (IH (Z.min wait t1) s1 W1 Hd) as (t & s' & Hl & W & Ht & X1 & X2 & X3 & X4 & X5).
    { intros j Hj. rewrite E3. assert (j ∈ instances s) by (apply Hin; by right). case_if; [|done]. apply list_elem_of_filter. auto. }
    { lia. }
    exists t, s'. cbn [pass_loop]. rewrite Hp. cbn [mbind option_bind]. split; [exact Hl|]. split; [done|]. split; [done|]. split; [congruence|]. split_and!.
    + intros j. rewrite X2. destruct (decide (j = id)) as [->|Hj].
      * rewrite decide_False, decide_True by (done || left). by rewrite E1, lookup_insert_eq, Hi.
      * rewrite Hother by done. destruct (decide (j ∈ ids)); [rewrite decide_True by (by right)|rewrite decide_False by (intros []%elem_of_cons; done)]; done.
    + rewrite X3, E3. assert (∀ j, removing s1 j = true ∧ j ∈ ids ↔ removing s j = true ∧ j ∈ ids) as Hrem.
      { intros j. unfold removing. split; intros [Hr Hj]; (split; [|done]); rewrite Hother in * by auto; done. }
      assert (removing s id = flag (worker_flags i) WFLAG_REMOVE) as Hri by (unfold removing; by rewrite Hi).
      destruct (flag (worker_flags i) WFLAG_REMOVE).
      * rewrite list_filter_filter. apply list_filter_iff. intros j. rewrite elem_of_cons. specialize (Hrem j). naive_solver.
      * apply list_filter_iff. intros j. rewrite elem_of_cons. specialize (Hrem j). split; [|naive_solver].
        intros Hx [[->|Hj] Hr]; [congruence|]. naive_solver.
    + rewrite X4, E4, <- app_assoc. unfold pass_events at 2. cbn. rewrite Hi. do 2 f_equal. apply pass_events_ext. intros j Hj. auto.
    + cbn [existsb]. unfold removing at 1. rewrite Hi, X5, E5.
      assert (existsb (removing s1) ids = existsb (removing s) ids) as ->.
      { clear -Hother Hne. induction ids as [|j ids IH]; [done|]. cbn [existsb]. unfold removing at 1 3. rewrite Hother by (apply Hne; left). f_equal. apply IH. intros k Hk. apply Hne. by right. }
      by destruct (flag (worker_flags i) WFLAG_REMOVE), (existsb (removing s) ids).
Qed.

(** A pass of a worker never fails an assertion and keeps the list exact.
    It calls, for every enlisted instance and in the order of the list, all of
    its work functions (after registering the thread the first time); an
    instance whose owner asked for its removal is unregistered and taken off
    the list instead, with its flags cleared.  The worker then sleeps between
    10 ms and 10 s, and is asleep on the condition variable of the workers; the
    callers that wait for a removal have been woken if there was one. *)
Theorem npf_worker_pass w s : winv s → wi_exit s = false →
  ∃ t s', npf_worker run wait_time w s = Some (Some t, s') ∧ winv s' ∧ NPF_GC_MINWAIT <= t <= NPF_GC_MAXWAIT ∧
    (∀ id i, wi_npf s !! id = Some i → wi_npf s' !! id = Some (set_flags i (flags_after (worker_flags i)))) ∧
    instances s' = filter (λ id, removing s id = false) (instances s) ∧ wi_log s' = wi_log s ++ pass_events w s (instances s) ∧
    cv (wi_thr s') = {[w]} ∪ cv (wi_thr s) ∧ exit_cv (wi_thr s') = (if existsb (removing s) (instances s) then ∅ else exit_cv (wi_thr s)).
Proof.
  intros Hs He. destruct (pass_loop_spec w (instances s) NPF_GC_MAXWAIT s Hs (wv_nodup s Hs)) as (t & s' & Hl & W & Ht & X1 & X2 & X3 & X4 & X5);
    [done|unfold NPF_GC_MINWAIT, NPF_GC_MAXWAIT; lia|].
  exists t, (cv_timedwait_cv s' w). unfold npf_worker. rewrite Hl. cbn [mbind option_bind]. rewrite X1, He. split; [done|]. split; [by destruct W|]. split; [done|]. split_and!.
  - intros id i Hi. cbn. rewrite X2, Hi. case_decide as Hin; [done|]. assert (worker_flags i = 0) as E0.
    { destruct (Z.eq_dec (worker_flags i) 0); [done|]. exfalso. apply Hin, (wv_list s Hs). eauto. }
    rewrite E0. destruct i. cbn in *. by subst.
  - cbn. rewrite X3. apply filter_ext_in. intros id Hid. destruct (removing s id); naive_solver.
  - exact X4.
  - cbn. rewrite X5. by case_if.
  - cbn. rewrite X5. by case_if.
Qed.
End progress.

(** ** Runs *)

Section runs.
Context {E F : Type} (run : F → Z → E → E) (wait_time : E → Z → Z).
Implicit Types (s : npf_workerinfo (E := E) (F := F)) (i : instance (F := F)).

Lemma npf_worker_enlist_inv s id s' : winv s → npf_worker_enlist s id = Some s' →
  winv s' ∧ ∃ i, wi_npf s !! id = Some i ∧ worker_flags i = 0 ∧ wi_npf s' = <[id := set_flags i WFLAG_ACTIVE]> (wi_npf s) ∧ wi_thr s' = wi_thr s.
Proof.
  intros [H1 H2 H3] He. unfold npf_worker_enlist in He. destruct (wi_npf s !! id) as [i|] eqn:Hi; [|done]. cbn [mbind option_bind] in He.
  destruct (Z.eqb_spec (worker_flags i) 0) as [Hf|]; [|done]. injection He as <-. rewrite Hf. split; [|by exists i].
  assert (id ∉ instances s) as Hn by (rewrite H3; intros (k & Hk & Hk0); congruence). split; cbn.
  - by constructor.
  - intros j k [[<- <-]|[_ Hj]]%lookup_insert_Some; [cbn; set_solver|eauto].
  - intros j. rewrite elem_of_cons, H3. destruct (decide (j = id)) as [->|Hne].
    + rewrite lookup_insert_eq. split; [|auto]. intros _. eexists. split; [done|]. done.
    + rewrite lookup_insert_ne by done. naive_solver.
Qed.

(** The request: the removal is marked, all workers are awake, and the caller
    sleeps. *)
Lemma npf_worker_discharge_inv c s id b s' : winv s → npf_worker_discharge c s id = Some (b, s') →
  winv s' ∧ ∃ i, wi_npf s !! id = Some i ∧
  if b then worker_flags i ≠ 0 ∧ wi_npf s' = <[id := set_flags i (worker_flags i ||| WFLAG_REMOVE)]> (wi_npf s) ∧
    wi_thr s' = mk_thr ∅ ({[c]} ∪ exit_cv (wi_thr s)) (worker (wi_thr s)) (<[c := id]> (callers (wi_thr s)))
  else s' = s.
Proof.
  intros Hs Hd. unfold npf_worker_discharge in Hd. destruct (wi_npf s !! id) as [i|] eqn:Hi; [|done]. cbn [mbind option_bind] in Hd.
  destruct (flags_bits (worker_flags i) (wv_flags s Hs id i Hi)) as (Fa & Fr & _). rewrite Fa, negb_involutive in Hd.
  destruct (Z.eqb_spec (worker_flags i) 0) as [|Hf]; [injection Hd as <- <-; eauto|]. specialize (Fr Hf).
  unfold discharge_loop, discharge_waits in Hd. cbn [set_callers cv_broadcast_cv set_thr set_inst wi_npf] in Hd. rewrite lookup_insert_eq in Hd.
  cbn [set_flags worker_flags] in Hd.
  assert (flag (worker_flags i ||| WFLAG_REMOVE) WFLAG_ACTIVE = true) as Hw by (set_unfold in Fr; destruct Fr as [->|[->|[]]]; done).
  rewrite Hw in Hd. cbn [mbind option_bind] in Hd. injection Hd as <- <-.
  assert (winv (set_inst s id (set_flags i (worker_flags i ||| WFLAG_REMOVE)))) as [V1 V2 V3] by (apply winv_set; [done|done|done|set_solver]).
  split; [by split|]. by exists i.
Qed.

Lemma npf_worker_inv w s r s' : winv s → npf_worker run wait_time w s = Some (r, s') →
  winv s' ∧ (∀ id, wi_npf s' !! id = (λ i, set_flags i (flags_after (worker_flags i))) <$> wi_npf s !! id) ∧
  callers (wi_thr s') = callers (wi_thr s) ∧
  (exit_cv (wi_thr s') ⊆ exit_cv (wi_thr s)) ∧ (existsb (removing s) (instances s) = true → exit_cv (wi_thr s') = ∅).
Proof.
  intros Hs Hp. destruct (pass_loop_spec run wait_time w (instances s) NPF_GC_MAXWAIT s Hs (wv_nodup s Hs)) as (t & s1 & Hl & W & _ & _ & X2 & _ & _ & X5);
    [done|unfold NPF_GC_MINWAIT, NPF_GC_MAXWAIT; lia|].
  unfold npf_worker in Hp. rewrite Hl in Hp. cbn [mbind option_bind] in Hp.
  assert (wi_npf s' = wi_npf s1 ∧ instances s' = instances s1 ∧ callers (wi_thr s') = callers (wi_thr s1) ∧ exit_cv (wi_thr s') = exit_cv (wi_thr s1)) as (S1 & S2 & S3 & S4)
    by (repeat case_match; by simplify_eq).
  split; [destruct W; split; by rewrite ?S1, ?S2|]. rewrite S1, S3, S4, X5. split; [|case_if; cbn; set_solver].
  intros id. rewrite X2. case_decide as Hin; [done|].
  destruct (wi_npf s !! id) as [i|] eqn:Hi; [|done]. assert (worker_flags i = 0) as E0.
  { destruct (Z.eq_dec (worker_flags i) 0); [done|]. exfalso. apply Hin, (wv_list s Hs). eauto. }
  cbn. rewrite E0. destruct i. cbn in *. by subst.
Qed.

(** A turn of the loop changes the caller only. *)
Lemma discharge_loop_inv c s id s' : discharge_loop c s id = Some s' →
  wi_npf s' = wi_npf s ∧ instances s' = instances s ∧ cv (wi_thr s') = cv (wi_thr s) ∧
  if discharge_waits s id then exit_cv (wi_thr s') = {[c]} ∪ exit_cv (wi_thr s) ∧ callers (wi_thr s') = callers (wi_thr s)
  else exit_cv (wi_thr s') = exit_cv (wi_thr s) ∧ callers (wi_thr s') = delete c (callers (wi_thr s)).
Proof.
  unfold discharge_loop. destruct (discharge_waits s id); [by intros [= <-]|]. unfold discharge_end.
  destruct (wi_npf s !! id); [|done]. cbn [mbind option_bind]. destruct (negb _); cbn [mbind option_bind]; [done|]. by intros [= <-].
Qed.

(** The steps that leave the instances alone. *)
Definition thread_op (op : wop) : bool :=
  match op with W_resume _ | W_signal _ _ | W_timeout _ | W_spurious _ | W_exit => true | _ => false end.

Lemma wstep_thread s op s' : thread_op op = true → wstep run wait_time s op = Some s' →
  wi_npf s' = wi_npf s ∧ instances s' = instances s ∧ cv (wi_thr s') ⊆ cv (wi_thr s).
Proof.
  intros Ht Ho. destruct op as [id|c id|c|w|id w|w|c|]; try done; cbn [wstep] in Ho.
  - destruct (callers (wi_thr s) !! c) as [id|]; [|done]. cbn [mbind option_bind] in Ho. case_bool_decide; [done|].
    destruct (discharge_loop_inv _ _ _ _ Ho) as (-> & -> & -> & _). done.
  - unfold npf_worker_signal in Ho. destruct (wi_npf s !! id); [|done]. cbn [mbind option_bind] in Ho. destruct (negb _); injection Ho as <-; [done|]. cbn. split; [done|]. split; [done|set_solver].
  - injection Ho as <-. cbn. split; [done|]. split; [done|set_solver].
  - injection Ho as <-. done.
  - injection Ho as <-. cbn. split; [done|]. split; [done|set_solver].
Qed.

Lemma wstep_discharge s c id s' : wstep run wait_time s (W_discharge c id) = Some s' →
  callers (wi_thr s) !! c = None ∧ ∃ b, npf_worker_discharge c s id = Some (b, s').
Proof.
  cbn [wstep]. destruct (callers (wi_thr s) !! c); [done|]. intros ([b s1] & Hd & ->)%fmap_Some. eauto.
Qed.

Lemma wstep_pass s w s' : wstep run wait_time s (W_pass w) = Some s' →
  w ∈ worker (wi_thr s) ∧ w ∉ cv (wi_thr s) ∧ ∃ r, npf_worker run wait_time w s = Some (r, s').
Proof.
  cbn [wstep]. case_bool_decide as Hw; [|done]. intros ([r s1] & Hd & ->)%fmap_Some. destruct Hw. eauto.
Qed.

Lemma wstep_inv s op s' : winv s → wstep run wait_time s op = Some s' → winv s'.
Proof.
  intros Hs Ho. destruct (thread_op op) eqn:Ht.
  { destruct (wstep_thread s op s' Ht Ho) as (E1 & E2 & _), Hs. split; by rewrite ?E1, ?E2. }
  destruct op as [id|c id|c|w|id w|w|c|]; try done.
  - by eapply npf_worker_enlist_inv.
  - apply wstep_discharge in Ho as (_ & b & Hd). by eapply npf_worker_discharge_inv.
  - apply wstep_pass in Ho as (_ & _ & r & Hp). by eapply npf_worker_inv.
Qed.

(** An instance whose removal was requested, and one that was removed. *)
Definition pending s (id : Z) : Prop := ∃ i, wi_npf s !! id = Some i ∧ worker_flags i ∈ [5; 7].
Definition cleared s (id : Z) : Prop := ∃ i, wi_npf s !! id = Some i ∧ worker_flags i = 0.

Definition is_pass (op : wop) : bool := match op with W_pass _ => true | _ => false end.

Lemma wstep_pending s op s' id : winv s → pending s id → wstep run wait_time s op = Some s' →
  if is_pass op then cleared s' id else pending s' id.
Proof.
  intros Hs (i & Hi & Hf) Ho. assert (worker_flags i ≠ 0) as H0 by (set_unfold in Hf; lia).
  destruct (thread_op op) eqn:Ht.
  { destruct (wstep_thread s op s' Ht Ho) as (E1 & _). destruct op; try done; cbn [is_pass]; exists i; by rewrite E1. }
  destruct op as [j|c j|c|w|j w|w|c|]; try done; cbn [is_pass].
  - destruct (npf_worker_enlist_inv s j s' Hs Ho) as (_ & k & Hk & Hk0 & Hw & _). exists i. split; [|done].
    rewrite Hw, lookup_insert_ne; [done|]. intros ->. congruence.
  - apply wstep_discharge in Ho as (_ & b & Hd). destruct (npf_worker_discharge_inv c s j b s' Hs Hd) as (_ & k & Hk & Hb).
    destruct b; [|subst; by exists i]. destruct Hb as (_ & Hb & _). unfold pending. rewrite Hb. destruct (decide (j = id)) as [->|Hne].
    + rewrite lookup_insert_eq. eexists. split; [done|]. cbn. simplify_eq. set_unfold in Hf. destruct Hf as [Hf|[Hf|[]]]; rewrite Hf; rewrite !elem_of_cons; auto.
    + rewrite lookup_insert_ne by done. by exists i.
  - apply wstep_pass in Ho as (_ & _ & r & Hp). destruct (npf_worker_inv w s r s' Hs Hp) as (_ & Hx & _).
    exists (set_flags i 0). rewrite Hx, Hi. cbn. split; [|done]. do 2 f_equal. set_unfold in Hf. destruct Hf as [->|[->|[]]]; done.
Qed.

Lemma wstep_cleared s op s' id : winv s → cleared s id → op ≠ W_enlist id → wstep run wait_time s op = Some s' → cleared s' id.
Proof.
  intros Hs (i & Hi & Hf) Hne Ho. destruct (thread_op op) eqn:Ht.
  { destruct (wstep_thread s op s' Ht Ho) as (E1 & _). exists i. by rewrite E1. }
  destruct op as [j|c j|c|w|j w|w|c|]; try done.
  - destruct (npf_worker_enlist_inv s j s' Hs Ho) as (_ & k & Hk & Hk0 & Hw & _). exists i. by rewrite Hw, lookup_insert_ne by congruence.
  - apply wstep_discharge in Ho as (_ & b & Hd). destruct (npf_worker_discharge_inv c s j b s' Hs Hd) as (_ & k & Hk & Hb).
    destruct b; [|subst; by exists i]. destruct Hb as (Hb0 & Hb & _). exists i. rewrite Hb, lookup_insert_ne; [done|]. intros ->. congruence.
  - apply wstep_pass in Ho as (_ & _ & r & Hp). destruct (npf_worker_inv w s r s' Hs Hp) as (_ & Hx & _). exists i.
    rewrite Hx, Hi. cbn. rewrite Hf. cbn. destruct i. cbn in *. by subst.
Qed.

Lemma pending_waits s id : pending s id → discharge_waits s id = true.
Proof. intros (i & Hi & Hf). unfold discharge_waits. rewrite Hi. set_unfold in Hf. by destruct Hf as [->|[->|[]]]. Qed.

Lemma cleared_leaves c s id : cleared s id →
  discharge_waits s id = false ∧ discharge_loop c s id = Some (set_callers s (delete c (callers (wi_thr s)))).
Proof.
  intros (i & Hi & Hf). unfold discharge_loop, discharge_end, discharge_waits. rewrite Hi. cbn [mbind option_bind]. rewrite Hf. done.
Qed.

(** The caller of a pending removal is inside its call, and the workers are
    awake; the caller of one that was made has returned or is awake. *)
Definition waiting s (c id : Z) : Prop := pending s id ∧ callers (wi_thr s) !! c = Some id ∧ cv (wi_thr s) = ∅.
Definition leaving s (c id : Z) : Prop :=
  cleared s id ∧ (callers (wi_thr s) !! c = None ∨ callers (wi_thr s) !! c = Some id ∧ c ∉ exit_cv (wi_thr s)).

(** What the other threads do to a caller and to the sleeping workers. *)
Lemma wstep_caller s op s' c : winv s → (∀ j, op ≠ W_discharge c j) → op ≠ W_resume c → is_pass op = false →
  wstep run wait_time s op = Some s' →
  callers (wi_thr s') !! c = callers (wi_thr s) !! c ∧ (c ∈ exit_cv (wi_thr s') → c ∈ exit_cv (wi_thr s)) ∧
  (cv (wi_thr s) = ∅ → cv (wi_thr s') = ∅).
Proof.
  intros Hs Hnd Hnr Hp Ho. destruct op as [j|d j|d|w|j w|w|d|]; try done; cbn [wstep] in Ho.
  - destruct (npf_worker_enlist_inv s j s' Hs Ho) as (_ & k & _ & _ & _ & ->). done.
  - apply wstep_discharge in Ho as (_ & b & Hd). destruct (npf_worker_discharge_inv d s j b s' Hs Hd) as (_ & k & Hk & Hb).
    destruct b; [|by subst]. destruct Hb as (_ & _ & ->). cbn. assert (d ≠ c) by (intros ->; by apply (Hnd j)).
    split; [by rewrite lookup_insert_ne|]. set_solver.
  - destruct (callers (wi_thr s) !! d) as [j|] eqn:Hd; [|done]. cbn [mbind option_bind] in Ho. case_bool_decide; [done|].
    assert (d ≠ c) by (intros ->; done). destruct (discharge_loop_inv _ _ _ _ Ho) as (_ & _ & -> & Hx).
    destruct (discharge_waits s j); destruct Hx as [-> ->]; rewrite ?lookup_delete_ne by done; set_solver.
  - unfold npf_worker_signal in Ho. destruct (wi_npf s !! j); [|done]. cbn [mbind option_bind] in Ho. destruct (negb _); injection Ho as <-; [done|]. cbn. set_solver.
  - injection Ho as <-. cbn. set_solver.
  - injection Ho as <-. cbn. set_solver.
  - injection Ho as <-. done.
Qed.

Lemma wstep_waiting s op s' c id : winv s → waiting s c id → (∀ j, op ≠ W_discharge c j) → wstep run wait_time s op = Some s' →
  if is_pass op then leaving s' c id else waiting s' c id.
Proof.
  intros Hs (Hp & Hc & Hcv) Hnd Ho. pose proof (wstep_pending s op s' id Hs Hp Ho) as Hp'. destruct (is_pass op) eqn:Eo.
  - destruct op as [| | |w| | | |]; try done. apply wstep_pass in Ho as (_ & _ & r & Hw).
    destruct (npf_worker_inv w s r s' Hs Hw) as (_ & _ & E1 & _ & E3). split; [done|]. right. rewrite E1. split; [done|].
    rewrite E3; [set_solver|]. destruct Hp as (i & Hi & Hf). apply existsb_exists. exists id. split.
    + apply list_elem_of_In, (wv_list s Hs). exists i. split; [done|]. set_unfold in Hf. lia.
    + unfold removing. rewrite Hi. set_unfold in Hf. by destruct Hf as [->|[->|[]]].
  - split; [done|]. destruct (decide (op = W_resume c)) as [->|Hnr].
    + cbn [wstep] in Ho. rewrite Hc in Ho. cbn [mbind option_bind] in Ho. case_bool_decide; [done|].
      destruct (discharge_loop_inv _ _ _ _ Ho) as (_ & _ & -> & Hx). rewrite (pending_waits s id Hp) in Hx. destruct Hx as [_ ->]. done.
    + destruct (wstep_caller s op s' c Hs Hnd Hnr Eo Ho) as (-> & _ & Hcv'). auto.
Qed.

Lemma wstep_leaving s op s' c id : winv s → leaving s c id → (∀ j, op ≠ W_discharge c j) → op ≠ W_enlist id →
  wstep run wait_time s op = Some s' → leaving s' c id.
Proof.
  intros Hs [Hcl Hc] Hnd Hne Ho. split; [by eapply wstep_cleared|]. destruct (is_pass op) eqn:Eo.
  - destruct op as [| | |w| | | |]; try done. apply wstep_pass in Ho as (_ & _ & r & Hw).
    destruct (npf_worker_inv w s r s' Hs Hw) as (_ & _ & -> & E2 & _). destruct Hc as [?|[? ?]]; [by left|]. right. set_solver.
  - destruct (decide (op = W_resume c)) as [->|Hnr].
    + cbn [wstep] in Ho. destruct Hc as [Hc|[Hc _]]; rewrite Hc in Ho; [done|]. cbn [mbind option_bind] in Ho. case_bool_decide; [done|].
      rewrite (proj2 (cleared_leaves c s id Hcl)) in Ho. injection Ho as <-. left. cbn. apply lookup_delete_eq.
    + destruct (wstep_caller s op s' c Hs Hnd Hnr Eo Ho) as (-> & Hex & _). destruct Hc as [?|[? ?]]; [by left|]. right. auto.
Qed.

Lemma wsteps_waiting ops : ∀ s s2 c id, winv s → (∀ j, W_discharge c j ∉ ops) → W_enlist id ∉ ops →
  wsteps run wait_time s ops = Some s2 →
  (leaving s c id → winv s2 ∧ leaving s2 c id) ∧
  (waiting s c id → winv s2 ∧ if existsb is_pass ops then leaving s2 c id else waiting s2 c id).
Proof.
  induction ops as [|op ops IH]; intros s s2 c id Hs Hnd Hne Hr; cbn [wsteps] in Hr; [by injection Hr as <-|].
  destruct (wstep run wait_time s op) as [s'|] eqn:Eo; [|done]. cbn [mbind option_bind] in Hr.
  assert (∀ j, op ≠ W_discharge c j) as Hn1 by (intros j ->; apply (Hnd j); left).
  assert (op ≠ W_enlist id) as Hn2 by (intros ->; apply Hne; left).
  pose proof (wstep_inv _ _ _ Hs Eo) as Hs'.
  destruct (IH s' s2 c id Hs' (λ j Hj, Hnd j (list_elem_of_further _ _ _ Hj)) (λ Hj, Hne (list_elem_of_further _ _ _ Hj)) Hr) as [I1 I2].
  split; intros Hx; [eauto using wstep_leaving|]. pose proof (wstep_waiting _ _ _ c id Hs Hx Hn1 Eo) as Hy.
  cbn [existsb]. destruct (is_pass op); cbn [orb]; auto.
Qed.

(** A pass is enabled for every worker that is awake. *)
Lemma wstep_pass_enabled s w : winv s → wi_exit s = false → w ∈ worker (wi_thr s) → w ∉ cv (wi_thr s) → is_Some (wstep run wait_time s (W_pass w)).
Proof.
  intros Hs He Hw Hc. cbn [wstep]. rewrite bool_decide_eq_true_2 by done.
  destruct (pass_loop_spec run wait_time w (instances s) NPF_GC_MAXWAIT s Hs (wv_nodup s Hs)) as (t & s1 & Hl & _ & _ & X1 & _);
    [done|unfold NPF_GC_MINWAIT, NPF_GC_MAXWAIT; lia|].
  unfold npf_worker. rewrite Hl. cbn [mbind option_bind]. rewrite X1, He. done.
Qed.

(** C33: A discharge returns.  Thread [c] calls [npf_worker_discharge] on an
    enlisted instance; then the threads take any steps (enlisting, discharges
    of this or other instances, passes, signals, timeouts, spurious wake-ups,
    the exit request) in any order, where asleep threads take none, and where
    [c] makes no second call and the instance is not enlisted again.  As long
    as no worker has made a pass, the call has not returned, but no worker is
    asleep, and every worker can make a pass (unless the exit was requested:
    the workers then check that all instances have been discharged).  Once a
    worker has made one, the instance is off the list, and the call has
    returned or [c] is awake and its next step returns from the call, with the
    closing assertion fulfilled.  So the call returns as soon as a worker and
    then the caller have been scheduled. *)
Theorem npf_worker_discharge_completes c s id s1 ops s2 : winv s → callers (wi_thr s) !! c = None →
  npf_worker_discharge c s id = Some (true, s1) →
  wsteps run wait_time s1 ops = Some s2 → W_enlist id ∉ ops → (∀ j, W_discharge c j ∉ ops) →
  if existsb is_pass ops
  then id ∉ instances s2 ∧
    (callers (wi_thr s2) !! c = None ∨
     ∃ s3, wstep run wait_time s2 (W_resume c) = Some s3 ∧ callers (wi_thr s3) !! c = None)
  else callers (wi_thr s2) !! c = Some id ∧ cv (wi_thr s2) = ∅ ∧
    (wi_exit s2 = false → ∀ w, w ∈ worker (wi_thr s2) → is_Some (wstep run wait_time s2 (W_pass w))).
Proof.
  intros Hs _ Hd Hr Hne Hnd. destruct (npf_worker_discharge_inv c s id true s1 Hs Hd) as (Hs1 & i & Hi & Hf & Hnpf & Hthr).
  assert (waiting s1 c id) as Hw.
  { split; [|rewrite Hthr; cbn; by rewrite lookup_insert_eq]. exists (set_flags i (worker_flags i ||| WFLAG_REMOVE)).
    rewrite Hnpf, lookup_insert_eq. split; [done|]. by apply (flags_bits (worker_flags i) (wv_flags s Hs id i Hi)). }
  destruct (proj2 (wsteps_waiting ops s1 s2 c id Hs1 Hnd Hne Hr) Hw) as [Hs2 Hx]. destruct (existsb is_pass ops).
  - destruct Hx as [Hcl Hc]. split.
    + destruct Hcl as (k & Hk & Hk0). rewrite (wv_list s2 Hs2). intros (k' & Hk' & Hk0'). congruence.
    + destruct Hc as [?|[Hc Hex]]; [by left|]. right. eexists. cbn [wstep]. rewrite Hc. cbn [mbind option_bind].
      rewrite bool_decide_eq_false_2 by done. split; [apply (proj2 (cleared_leaves c s2 id Hcl))|]. cbn. apply lookup_delete_eq.
  - destruct Hx as (_ & Hc & Hcv). split; [done|]. split; [done|]. intros He w Hin. apply wstep_pass_enabled; [done|done|done|set_solver].
Qed.

End runs.

(** ** Samples *)

(** Two instances, one of them with a job; the environment counts the runs. *)
Definition w_start : npf_workerinfo (E := Z) (F := Z) :=
  mk_winfo {[1 := mk_inst 0 [Some 7; None; None; None]; 2 := mk_inst 0 [None; None; None; None]]} [] false 0 [] (mk_thr ∅ ∅ {[0; 1]} ∅).
Definition w_run (f id n : Z) : Z := n + f.
Definition w_wait (n id : Z) : Z := 5.

Definition w_both : npf_workerinfo (E := Z) (F := Z) := default w_start (wsteps w_run w_wait w_start [W_enlist 1; W_enlist 2]).

Lemma w_both_inv : winv w_both.
Proof.
  assert (winv w_start) as H0.
  { split; cbn; [constructor| |].
    - intros id i [[<- <-]|[_ [<- <-]%lookup_singleton_Some]]%lookup_insert_Some; set_solver.
    - intros id. split; [intros []%elem_of_nil|]. intros (i & [[<- <-]|[_ [<- <-]%lookup_singleton_Some]]%lookup_insert_Some & Hf); done. }
  destruct (wstep w_run w_wait w_start (W_enlist 1)) as [s1|] eqn:E1; [|done]. pose proof (wstep_inv w_run w_wait _ _ _ H0 E1) as H1.
  destruct (wstep w_run w_wait s1 (W_enlist 2)) as [s2|] eqn:E2; [|vm_compute in E1; simplify_eq; done]. pose proof (wstep_inv w_run w_wait _ _ _ H1 E2) as H2.
  unfold w_both. cbn [wsteps]. rewrite E1. cbn [mbind option_bind]. rewrite E2. exact H2.
Qed.

Lemma npf_worker_pass_witness : ∃ t s', npf_worker w_run w_wait 0 w_both = Some (Some t, s') ∧ 10 <= t <= 10000 ∧ instances s' = [2; 1] ∧
  wi_log s' = [Ev_register 0 2; Ev_register 0 1; Ev_work 0 1 7].
Proof.
  destruct (npf_worker_pass w_run w_wait 0 w_both w_both_inv eq_refl) as (t & s' & H1 & _ & H2 & _ & H3 & H4 & _).
  exists t, s'. split; [exact H1|]. split; [exact H2|]. split; [rewrite H3; vm_compute; reflexivity|rewrite H4; vm_compute; reflexivity].
Defined.

(** Both workers are asleep after a pass each; thread 8 discharges instance 1
    and thread 9 instance 2; worker 1 makes the pass that serves both. *)
Definition w_asleep : npf_workerinfo (E := Z) (F := Z) := default w_start (wsteps w_run w_wait w_both [W_pass 0; W_pass 1]).
Definition w_ops : list wop := [W_discharge 9 2; W_spurious 8; W_resume 8; W_pass 1; W_resume 9].

Lemma w_asleep_inv : winv w_asleep.
Proof.
  destruct (wsteps w_run w_wait w_both [W_pass 0; W_pass 1]) as [s|] eqn:Es; [|vm_compute in Es; discriminate Es].
  unfold w_asleep. rewrite Es. cbn [default]. cbn [wsteps] in Es.
  destruct (wstep w_run w_wait w_both (W_pass 0)) as [s1|] eqn:E1; [|discriminate Es]. pose proof (wstep_inv w_run w_wait _ _ _ w_both_inv E1) as H1.
  cbn [mbind option_bind] in Es.
  destruct (wstep w_run w_wait s1 (W_pass 1)) as [s2|] eqn:E2; [|discriminate Es]. pose proof (wstep_inv w_run w_wait _ _ _ H1 E2) as H2.
  cbn [mbind option_bind] in Es. by injection Es as <-.
Qed.

Lemma npf_worker_discharge_completes_witness : ∃ s1 s2 s3, cv (wi_thr w_asleep) = {[0; 1]} ∧
  npf_worker_discharge 8 w_asleep 1 = Some (true, s1) ∧ 8 ∈ exit_cv (wi_thr s1) ∧ wsteps w_run w_wait s1 w_ops = Some s2 ∧
  callers (wi_thr s2) !! 8 = Some 1 ∧ wstep w_run w_wait s2 (W_resume 8) = Some s3 ∧ callers (wi_thr s3) !! 8 = None.
Proof.
  destruct (npf_worker_discharge 8 w_asleep 1) as [[b s1]|] eqn:E1; [|vm_compute in E1; discriminate E1].
  assert (b = true ∧ bool_decide (8 ∈ exit_cv (wi_thr s1)) = true) as [-> H8]
    by (vm_compute in E1; injection E1 as <- <-; split; vm_compute; reflexivity).
  destruct (wsteps w_run w_wait s1 w_ops) as [s2|] eqn:E2; [|vm_compute in E1; injection E1 as <-; vm_compute in E2; discriminate E2].
  assert (callers (wi_thr s2) !! 8 = Some 1) as H2 by (vm_compute in E1; injection E1 as <-; vm_compute in E2; injection E2 as <-; vm_compute; reflexivity).
  pose proof (npf_worker_discharge_completes w_run w_wait 8 w_asleep 1 s1 w_ops s2 w_asleep_inv ltac:(vm_compute; reflexivity) E1 E2) as Hx.
  destruct Hx as (_ & [Hx|(s3 & H3 & H4)]).
  - unfold w_ops. set_unfold. intros H. repeat (destruct H as [H|H]; [discriminate H|]). exact H.
  - unfold w_ops. intros j H. set_unfold in H. repeat (destruct H as [H|H]; [first [discriminate H|injection H; discriminate]|]). exact H.
  - congruence.
  - exists s1, s2, s3. split; [vm_compute; reflexivity|]. split; [done|]. split; [by apply bool_decide_eq_true in H8|]. split_and!; done.
Defined.

(** With two workers, one of them registers its thread with an instance, and
    the other, which was never registered, unregisters itself. *)
Theorem worker_thread_mismatch :
  wi_log <$> wsteps w_run w_wait w_start [W_enlist 2; W_pass 0; W_discharge 8 2; W_pass 1] = Some [Ev_register 0 2; Ev_unregister 1 2].
Proof. vm_compute. reflexivity. Qed.

(** A fifth work function is refused. *)
Example works_full (i : instance (F := Z)) : worker_flags i = 0 → worker_funcs i = [Some 1; Some 2; Some 3; Some 4] → npf_worker_addfunc i 5 = Some (-1, i).
Proof. intros Hf Hw. unfold npf_worker_addfunc. by rewrite Hf, Hw. Qed.

End Worker.
