(* ===== verification/Params.v ===== *)
(** * Params: the named parameters (src/kern/npf_params.c)

    A parameter has a name, the variable it controls, a default and a range.
    The variables of all components are one store, [pi_vals]; the tables below
    are those that the components register at start, in the order of
    [npfk_create]. *)

From S2P Require Import Prelude Thmap.
From stdpp Require Import strings.
Open Scope Z_scope.
Open Scope npf_scope.

Module Params.
Export Thmap.

Definition INT_MAX : Z := 2 ^ 31 - 1.

Record npf_param_t := mk_param {
  p_name : string;
  p_valp : Z;           (* the address of the variable *)
  p_default : Z;
  p_min : Z;
  p_max : Z;
}.

#[global] Instance npf_param_eq_dec : EqDecision npf_param_t.
Proof. solve_decision. Defined.

(** The variables. *)
Inductive param_var :=
| V_ip4_reassembly | V_ip4_drop_options | V_ip6_reassembly | V_ip6_drop_options
| V_generic_closed | V_generic_new | V_generic_established | V_gre
| V_tcp_new | V_tcp_established | V_tcp_half_close | V_tcp_close | V_tcp_time_wait
| V_strict_order_rst | V_max_ack_win
| V_connkey_interface | V_connkey_direction
| V_gc_step | V_gc_interval_min | V_gc_interval_max
| V_min_port | V_max_port.

(** Where a variable is; they do not overlap. *)
Definition var_addr (v : param_var) : Z :=
  match v with
  | V_ip4_reassembly => 1 | V_ip4_drop_options => 2 | V_ip6_reassembly => 3 | V_ip6_drop_options => 4
  | V_generic_closed => 5 | V_generic_new => 6 | V_generic_established => 7 | V_gre => 8
  | V_tcp_new => 9 | V_tcp_established => 10 | V_tcp_half_close => 11 | V_tcp_close => 12 | V_tcp_time_wait => 13
  | V_strict_order_rst => 14 | V_max_ack_win => 15
  | V_connkey_interface => 16 | V_connkey_direction => 17
  | V_gc_step => 18 | V_gc_interval_min => 19 | V_gc_interval_max => 20
  | V_min_port => 21 | V_max_port => 22
  end.

Definition param (name : string) (v : param_var) (d lo hi : Z) : npf_param_t := mk_param name (var_addr v) d lo hi.

Definition general_params : list npf_param_t :=
  [param "ip4.reassembly" V_ip4_reassembly 1 0 1;
   param "ip4.drop_options" V_ip4_drop_options 0 0 1;
   param "ip6.reassembly" V_ip6_reassembly 0 0 1;
   param "ip6.drop_options" V_ip6_drop_options 0 0 1].

Definition generic_state_params : list npf_param_t :=
  [param "state.generic.timeout.closed" V_generic_closed 0 0 INT_MAX;
   param "state.generic.timeout.new" V_generic_new 30 0 INT_MAX;
   param "state.generic.timeout.established" V_generic_established 60 0 INT_MAX;
   param "state.generic.timeout.gre" V_gre (24 * 60 * 60) 0 INT_MAX].

Definition tcp_state_params : list npf_param_t :=
  [param "state.tcp.timeout.new" V_tcp_new 30 0 INT_MAX;
   param "state.tcp.timeout.established" V_tcp_established (60 * 60 * 24) 0 INT_MAX;
   param "state.tcp.timeout.half_close" V_tcp_half_close (60 * 60 * 6) 0 INT_MAX;
   param "state.tcp.timeout.close" V_tcp_close 10 0 INT_MAX;
   param "state.tcp.timeout.time_wait" V_tcp_time_wait (60 * 2 * 2) 0 INT_MAX;
   param "state.tcp.strict_order_rst" V_strict_order_rst 1 0 1;
   param "state.tcp.max_ack_win" V_max_ack_win 66000 0 INT_MAX].

Definition conn_key_params : list npf_param_t :=
  [param "state.key.interface" V_connkey_interface 1 0 1;
   param "state.key.direction" V_connkey_direction 1 0 1].

Definition conndb_params : list npf_param_t :=
  [param "gc.step" V_gc_step 256 1 INT_MAX;
   param "gc.interval_min" V_gc_interval_min 50 10 10000;
   param "gc.interval_max" V_gc_interval_max 5000 10 10000].

Definition portmap_params : list npf_param_t :=
  [param "portmap.min_port" V_min_port 1024 1024 65535;
   param "portmap.max_port" V_max_port 49151 1024 65535].

(** The key of a name: its characters. *)
Definition name_key (name : string) : list Z := Z.of_nat ∘ Ascii.nat_of_ascii <$> String.list_ascii_of_string name.

Section params.
Context {TM : Type} `{TL : thmap_laws npf_param_t TM}.

Record npf_paraminfo := mk_pinfo {
  pi_list : list (list npf_param_t);
  pi_map : TM;
  pi_vals : gmap Z Z;
}.

(** One parameter: map the name, assign the default value. *)
Definition register_one (pi : npf_paraminfo) (p : npf_param_t) : npf_paraminfo :=
  mk_pinfo (pi_list pi) (snd (thmap_put (pi_map pi) (name_key (p_name p)) p))
    (<[p_valp p := p_default p]> (pi_vals pi)).

Definition npf_param_register (pi : npf_paraminfo) (params : list npf_param_t) : npf_paraminfo :=
  let pi := foldl register_one pi params in
  mk_pinfo (params :: pi_list pi) (pi_map pi) (pi_vals pi).

Definition npf_param_init : npf_paraminfo :=
  npf_param_register (mk_pinfo [] thmap_create ∅) general_params.

(** [npfk_create]: the components register theirs. *)
Definition npf_params_create : npf_paraminfo :=
  foldl npf_param_register npf_param_init
    [generic_state_params; tcp_state_params; conn_key_params; conndb_params; portmap_params].

Definition npf_param_lookup (pi : npf_paraminfo) (name : string) : option npf_param_t :=
  thmap_get (pi_map pi) (name_key name).

Definition npf_param_check (pi : npf_paraminfo) (name : string) (val : Z) : Z :=
  match npf_param_lookup pi name with
  | None => ENOENT
  | Some p => if (val <? p_min p) || (p_max p <? val) then EINVAL else 0
  end.

(** The error and the value. *)
Definition npfk_param_get (pi : npf_paraminfo) (name : string) : Z * option Z :=
  match npf_param_lookup pi name with
  | None => (ENOENT, None)
  | Some p => (0, pi_vals pi !! p_valp p)
  end.

Definition npfk_param_set (pi : npf_paraminfo) (name : string) (val : Z) : Z * npf_paraminfo :=
  match npf_param_lookup pi name with
  | None => (ENOENT, pi)
  | Some p =>
      if (val <? p_min p) || (p_max p <? val) then (EINVAL, pi)
      else (0, mk_pinfo (pi_list pi) (pi_map pi) (<[p_valp p := val]> (pi_vals pi)))
  end.

(** Names with the active and the default values. *)
Definition npf_params_export (pi : npf_paraminfo) : list (string * option Z * Z) :=
  (λ p, (p_name p, pi_vals pi !! p_valp p, p_default p)) <$> concat (pi_list pi).

Definition npf_param_fini (pi : npf_paraminfo) : TM :=
  foldl (λ m p, snd (thmap_del m (name_key (p_name p)))) (pi_map pi) (concat (pi_list pi)).

(** ** Properties *)

Lemma name_key_inj a b : name_key a = name_key b → a = b.
Proof.
  unfold name_key. intros E. rewrite <- (String.string_of_list_ascii_of_string a), <- (String.string_of_list_ascii_of_string b). f_equal.
  revert E. generalize (String.list_ascii_of_string a), (String.list_ascii_of_string b). induction l as [|x l IH]; intros [|y l']; try done.
  simpl. intros [= E1 E2]. apply Nat2Z.inj in E1. apply (f_equal Ascii.ascii_of_nat) in E1.
  rewrite !Ascii.ascii_nat_embedding in E1. f_equal; [done|by apply IH].
Qed.

(** The registered parameters [ps]: distinct names and variables, each mapped
    to itself and holding a value of its range. *)
Record reg_inv (pi : npf_paraminfo) (ps : list npf_param_t) : Prop := {
  ri_names : NoDup (p_name <$> ps);
  ri_vars : NoDup (p_valp <$> ps);
  ri_map : ∀ name p, npf_param_lookup pi name = Some p ↔ p ∈ ps ∧ p_name p = name;
  ri_vals : ∀ p, p ∈ ps → ∃ v, pi_vals pi !! p_valp p = Some v ∧ p_min p <= v <= p_max p;
}.

Definition params_ok (pi : npf_paraminfo) : Prop := reg_inv pi (concat (pi_list pi)).

Lemma reg_inv_perm pi ps ps' : ps ≡ₚ ps' → reg_inv pi ps → reg_inv pi ps'.
Proof.
  intros Hp [H1 H2 H3 H4]. split.
  - by rewrite <- Hp.
  - by rewrite <- Hp.
  - intros name p. by rewrite <- Hp.
  - intros p. rewrite <- Hp. apply H4.
Qed.

Lemma var_inj ps p q : NoDup (p_valp <$> ps) → p ∈ ps → q ∈ ps → p_valp p = p_valp q → p = q.
Proof.
  intros Hn Hp Hq E. induction ps as [|r ps IH]; [by apply elem_of_nil in Hp|]. simpl in Hn. apply NoDup_cons in Hn as [Hr Hn].
  apply elem_of_cons in Hp as [->|Hp], Hq as [->|Hq]; [done| | |by apply IH]; destruct Hr.
  - rewrite E. by apply list_elem_of_fmap_2.
  - rewrite <- E. by apply list_elem_of_fmap_2.
Qed.

(** [thmap_put] finds memory (the registration may sleep for it). *)
Context (Hput : ∀ (m : TM) k v, fst (thmap_put m k v) ≠ None).

Lemma register_one_inv pi ps p : reg_inv pi ps → p_name p ∉ p_name <$> ps → p_valp p ∉ p_valp <$> ps →
  p_min p <= p_default p <= p_max p → reg_inv (register_one pi p) (p :: ps).
Proof.
  intros [H1 H2 H3 H4] Hn Hv Hd.
  assert (thmap_get (pi_map pi) (name_key (p_name p)) = None) as Hnone.
  { destruct (thmap_get _ _) as [q|] eqn:E; [|done]. apply H3 in E as [Hq E]. destruct Hn. rewrite <- E. by apply list_elem_of_fmap_2. }
  split.
  - simpl. by apply NoDup_cons.
  - simpl. by apply NoDup_cons.
  - intros name q. unfold npf_param_lookup, register_one. cbn [pi_map].
    destruct (thmap_put (pi_map pi) (name_key (p_name p)) p) as [r m] eqn:E. cbn [snd].
    destruct (thmap_put_new _ _ _ _ _ Hnone E) as [[-> Hm]|[-> _]]; [|by pose proof (Hput (pi_map pi) (name_key (p_name p)) p) as Hx; rewrite E in Hx].
    rewrite (Hm (name_key name)). rewrite elem_of_cons. case_decide as Ek.
    + apply name_key_inj in Ek as ->. split; [intros [= <-]; auto|]. intros [[->|Hq] Eq]; [done|].
      destruct Hn. rewrite <- Eq. by apply list_elem_of_fmap_2.
    + fold (npf_param_lookup pi name). rewrite (H3 name q). split; [tauto|]. intros [[->|Hq] Eq]; [by subst|done].
  - intros q [->|Hq]%elem_of_cons; cbn [register_one pi_vals].
    + rewrite lookup_insert_eq. eauto.
    + rewrite lookup_insert_ne; [by apply H4|]. intros E. destruct Hv. rewrite E. by apply list_elem_of_fmap_2.
Qed.

(** A table is well-formed: defaults in range, distinct names and variables. *)
Definition table_wf (ps : list npf_param_t) : Prop := Forall (λ p, p_min p <= p_default p <= p_max p) ps.

Lemma npf_param_register_inv pi ps params : reg_inv pi ps → table_wf params →
  NoDup (p_name <$> params ++ ps) → NoDup (p_valp <$> params ++ ps) →
  reg_inv (npf_param_register pi params) (params ++ ps).
Proof.
  intros Hi Hw Hn Hv. assert (reg_inv (foldl register_one pi params) (params ++ ps)) as [H1 H2 H3 H4]; [|by split].
  revert pi ps Hi Hn Hv. induction Hw as [|p params Hp _ IH]; intros pi ps Hi Hn Hv; [done|].
  rewrite <- app_comm_cons in *. rewrite fmap_cons in Hn. rewrite fmap_cons in Hv. cbn [foldl].
  apply NoDup_cons in Hn as [Hn1 Hn2]. apply NoDup_cons in Hv as [Hv1 Hv2].
  pose proof Hn1 as Hn1'. pose proof Hv1 as Hv1'. rewrite fmap_app, not_elem_of_app in Hn1'. rewrite fmap_app, not_elem_of_app in Hv1'.
  apply (reg_inv_perm _ (params ++ p :: ps)); [by rewrite Permutation_middle|]. apply IH.
  - apply register_one_inv; [done|tauto|tauto|done].
  - rewrite fmap_app. simpl. rewrite <- Permutation_middle. rewrite <- fmap_app. by apply NoDup_cons.
  - rewrite fmap_app. simpl. rewrite <- Permutation_middle. rewrite <- fmap_app. by apply NoDup_cons.
Qed.

Definition all_params : list npf_param_t :=
  portmap_params ++ conndb_params ++ conn_key_params ++ tcp_state_params ++ generic_state_params ++ general_params.

Lemma reg_inv_empty : reg_inv (mk_pinfo [] thmap_create ∅) [].
Proof.
  split; [constructor|constructor| |by intros p ?%elem_of_nil].
  intros name p. unfold npf_param_lookup. cbn [pi_map]. rewrite thmap_get_create, elem_of_nil. split; [done|tauto].
Qed.

Lemma npf_params_create_inv : reg_inv npf_params_create all_params.
Proof.
  unfold npf_params_create, npf_param_init, all_params. cbn [foldl]. rewrite <- (app_nil_r general_params).
  repeat (apply npf_param_register_inv; [|repeat (constructor; [cbn; unfold INT_MAX; lia|]); constructor
    |apply (bool_decide_unpack _); vm_compute; exact I..]). apply reg_inv_empty.
Qed.

Lemma npfk_param_set_inv pi name val : params_ok pi → params_ok (snd (npfk_param_set pi name val)).
Proof.
  intros [H1 H2 H3 H4]. unfold npfk_param_set. destruct (npf_param_lookup pi name) as [p|] eqn:E; [|done].
  case_if; [done|]. bool_to_prop. apply H3 in E as [Hp _]. split; cbn [snd pi_list pi_vals]; [done..|].
  intros q Hq. destruct (decide (p_valp q = p_valp p)) as [Ev|].
  - rewrite Ev, lookup_insert_eq. exists val. rewrite (var_inj _ _ _ H2 Hq Hp Ev). split; [done|lia].
  - rewrite lookup_insert_ne by done. by apply H4.
Qed.

(** The states reachable by setting parameters. *)
Inductive params_reach : npf_paraminfo → Prop :=
| pr_create : params_reach npf_params_create
| pr_set pi name val : params_reach pi → params_reach (snd (npfk_param_set pi name val)).

Lemma params_reach_ok pi : params_reach pi → params_ok pi ∧ concat (pi_list pi) = all_params.
Proof.
  induction 1 as [|pi name val _ [IH1 IH2]].
  - unfold params_ok. assert (concat (pi_list npf_params_create) = all_params) as E by reflexivity.
    rewrite E. split; [apply npf_params_create_inv|done].
  - split; [by apply npfk_param_set_inv|]. unfold npfk_param_set. destruct (npf_param_lookup pi name); [|done]. by case_if.
Qed.

(** Every parameter of the program always has a value of its range.
    Whatever was set before: setting a parameter succeeds exactly for a known
    name and a value of the range, the value is then what is read back and
    every other parameter is as before; a failed setting (ENOENT for an unknown
    name, EINVAL for a bad value, as [npf_param_check] predicts) changes
    nothing.  The export lists every parameter with its value and default. *)
Theorem npf_params_in_range pi : params_reach pi →
  (∀ p, p ∈ all_params → ∃ v, npfk_param_get pi (p_name p) = (0, Some v) ∧ p_min p <= v <= p_max p) ∧
  (∀ name val, fst (npfk_param_set pi name val) = npf_param_check pi name val ∧
     (npf_param_check pi name val = 0 ↔ ∃ p, p ∈ all_params ∧ p_name p = name ∧ p_min p <= val <= p_max p)) ∧
  (∀ name val, npf_param_check pi name val ≠ 0 → snd (npfk_param_set pi name val) = pi) ∧
  (∀ name val name', npf_param_check pi name val = 0 →
     npfk_param_get (snd (npfk_param_set pi name val)) name' =
       if decide (name' = name) then (0, Some val) else npfk_param_get pi name') ∧
  npf_params_export pi = (λ p, (p_name p, snd (npfk_param_get pi (p_name p)), p_default p)) <$> all_params.
Proof.
  intros Hr. destruct (params_reach_ok pi Hr) as [[H1 H2 H3 H4] El]. rewrite El in *.
  assert (∀ p, p ∈ all_params → npf_param_lookup pi (p_name p) = Some p) as Hl by (intros p Hp; by apply H3).
  split_and!.
  - intros p Hp. destruct (H4 p Hp) as (v & Hv & Hb). exists v. unfold npfk_param_get. by rewrite (Hl p Hp), Hv.
  - intros name val. unfold npfk_param_set, npf_param_check. destruct (npf_param_lookup pi name) as [p|] eqn:E.
    + apply H3 in E as [Hp En]. destruct ((val <? p_min p) || (p_max p <? val)) eqn:Eb; (split; [done|]); bool_to_prop.
      * split; [done|]. intros (q & Hq & Eq & Hb). pose proof (Hl p Hp) as E1. rewrite En, <- Eq, (Hl q Hq) in E1.
        injection E1 as ->. apply orb_true_iff in Eb as [Eb|Eb]; bool_to_prop; lia.
      * split; [|done]. intros _. exists p. split_and!; [done..|lia|lia].
    + split; [done|]. split; [done|]. intros (q & Hq & Eq & _). rewrite <- Eq, (Hl q Hq) in E. done.
  - intros name val. unfold npfk_param_set, npf_param_check. destruct (npf_param_lookup pi name); [|done]. by case_if.
  - intros name val name'. unfold npfk_param_set, npf_param_check, npfk_param_get.
    destruct (npf_param_lookup pi name) as [p|] eqn:E; [|done]. case_if; [done|]. intros _. cbn [snd].
    change (npf_param_lookup (mk_pinfo _ (pi_map pi) _) name') with (npf_param_lookup pi name').
    case_decide as En; [subst name'; rewrite E; cbn [pi_vals]; by rewrite lookup_insert_eq|].
    destruct (npf_param_lookup pi name') as [q|] eqn:E'; [|done]. cbn [pi_vals]. rewrite lookup_insert_ne; [done|].
    intros Ev. apply H3 in E as [Hp <-]. apply H3 in E' as [Hq <-]. apply En. f_equal. by apply (var_inj all_params).
  - unfold npf_params_export. rewrite El. apply list_fmap_ext. intros i p Hp%list_elem_of_lookup_2.
    unfold npfk_param_get. by rewrite (Hl p Hp).
Qed.

End params.

(** ** Witness *)

Lemma gmap_put_some (m : gmap (list Z) npf_param_t) k v : fst (thmap_put m k v) ≠ None.
Proof. simpl. by destruct (m !! k). Qed.

Lemma npf_params_in_range_witness :
  let pi := npf_params_create (TM := gmap (list Z) npf_param_t) in
  npfk_param_get (snd (npfk_param_set pi "gc.step" 16)) "gc.step" = (0, Some 16) ∧
  fst (npfk_param_set pi "gc.step" 0) = EINVAL ∧ fst (npfk_param_set pi "gc.stop" 0) = ENOENT.
Proof.
  intros pi. destruct (npf_params_in_range gmap_put_some pi pr_create) as (_ & Hs & _ & Hget & _). split_and!.
  - rewrite (Hget "gc.step"%string 16 "gc.step"%string); [reflexivity|vm_compute; reflexivity].
  - rewrite (proj1 (Hs "gc.step"%string 0)). vm_compute. reflexivity.
  - rewrite (proj1 (Hs "gc.stop"%string 0)). vm_compute. reflexivity.
Defined.

(** Each interval of the garbage collector has its own range: nothing keeps
    the minimum below the maximum. *)
Theorem gc_interval_unordered :
  let pi := npf_params_create (TM := gmap (list Z) npf_param_t) in
  let pi := snd (npfk_param_set (snd (npfk_param_set pi "gc.interval_min" 10000)) "gc.interval_max" 10) in
  npfk_param_get pi "gc.interval_min" = (0, Some 10000) ∧ npfk_param_get pi "gc.interval_max" = (0, Some 10).
Proof. vm_compute. done. Qed.

End Params.
