(* ===== verification/Nvlist.v ===== *)
(** * Nvlist: the name/value lists the program receives its configuration in

    The nv library is linked against; the program reads numbers, booleans,
    strings and binaries by name, with a default, and adds them when it exports
    its state.  The class [nvlist_ops] names the operations in use, and
    [nvlist_laws] states the documented behaviour: a value added under a name
    is what a later read of that name and type returns, and other names and
    types are not affected.  Adding a name that exists is an error of the
    caller, so the laws say nothing about it.  [nv_map] is a concrete
    instance. *)

From S2P Require Import Prelude.
From stdpp Require Import strings.
Open Scope Z_scope.
Open Scope npf_scope.

Module Nvlist.

(** Binaries are byte strings. *)
Class nvlist_ops (NV : Type) := {
  nvlist_create : NV;
  nvlist_exists_number : NV → string → bool;
  dnvlist_get_number : NV → string → Z → Z;
  dnvlist_get_bool : NV → string → bool → bool;
  dnvlist_get_string : NV → string → option string;
  dnvlist_get_binary : NV → string → option (list Z);
  nvlist_add_number : NV → string → Z → NV;
  nvlist_add_string : NV → string → string → NV;
  nvlist_add_binary : NV → string → list Z → NV;
}.

(** What reads see of a list, per type. *)
Definition nv_number {NV} `{nvlist_ops NV} (nv : NV) (n : string) : option Z :=
  if nvlist_exists_number nv n then Some (dnvlist_get_number nv n 0) else None.

Class nvlist_laws (NV : Type) `{nvlist_ops NV} := {
  nv_create_empty : ∀ n, nv_number nvlist_create n = None ∧ dnvlist_get_string nvlist_create n = None ∧
    dnvlist_get_binary nvlist_create n = None;
  (** Numbers are 64 bits wide. *)
  nv_number_range : ∀ nv n d, inw 64 d → inw 64 (dnvlist_get_number nv n d);
  nv_number_default : ∀ nv n d, dnvlist_get_number nv n d = default d (nv_number nv n);
  nv_add_number : ∀ nv n v, nv_number nv n = None →
    (∀ m, nv_number (nvlist_add_number nv n v) m = if decide (m = n) then Some (u64 v) else nv_number nv m) ∧
    (∀ m, dnvlist_get_string (nvlist_add_number nv n v) m = dnvlist_get_string nv m) ∧
    (∀ m, dnvlist_get_binary (nvlist_add_number nv n v) m = dnvlist_get_binary nv m);
  nv_add_string : ∀ nv n v, dnvlist_get_string nv n = None →
    (∀ m, nv_number (nvlist_add_string nv n v) m = nv_number nv m) ∧
    (∀ m, dnvlist_get_string (nvlist_add_string nv n v) m = if decide (m = n) then Some v else dnvlist_get_string nv m) ∧
    (∀ m, dnvlist_get_binary (nvlist_add_string nv n v) m = dnvlist_get_binary nv m);
  nv_add_binary : ∀ nv n v, dnvlist_get_binary nv n = None →
    (∀ m, nv_number (nvlist_add_binary nv n v) m = nv_number nv m) ∧
    (∀ m, dnvlist_get_string (nvlist_add_binary nv n v) m = dnvlist_get_string nv m) ∧
    (∀ m, dnvlist_get_binary (nvlist_add_binary nv n v) m = if decide (m = n) then Some v else dnvlist_get_binary nv m);
}.

(** ** A concrete instance *)

Record nv_map := mk_nv {
  nv_numbers : gmap string Z;
  nv_bools : gmap string bool;
  nv_strings : gmap string string;
  nv_binaries : gmap string (list Z);
}.

#[global] Instance nv_map_ops : nvlist_ops nv_map := {
  nvlist_create := mk_nv ∅ ∅ ∅ ∅;
  nvlist_exists_number nv n := bool_decide (is_Some (nv_numbers nv !! n));
  dnvlist_get_number nv n d := match nv_numbers nv !! n with Some v => u64 v | None => d end;
  dnvlist_get_bool nv n d := default d (nv_bools nv !! n);
  dnvlist_get_string nv n := nv_strings nv !! n;
  dnvlist_get_binary nv n := nv_binaries nv !! n;
  nvlist_add_number nv n v := mk_nv (<[n := v]> (nv_numbers nv)) (nv_bools nv) (nv_strings nv) (nv_binaries nv);
  nvlist_add_string nv n v := mk_nv (nv_numbers nv) (nv_bools nv) (<[n := v]> (nv_strings nv)) (nv_binaries nv);
  nvlist_add_binary nv n v := mk_nv (nv_numbers nv) (nv_bools nv) (nv_strings nv) (<[n := v]> (nv_binaries nv));
}.

Lemma nv_map_number nv n : nv_number nv n = (λ v, u64 v) <$> nv_numbers nv !! n.
Proof. unfold nv_number. simpl. by destruct (nv_numbers nv !! n). Qed.

#[global] Instance nv_map_laws : nvlist_laws nv_map.
Proof.
  assert (∀ {V} (m : gmap string V) n k v, <[n := v]> m !! k = if decide (k = n) then Some v else m !! k) as Hi.
  { intros V m n k v. case_decide as E; [subst; apply lookup_insert_eq|by apply lookup_insert_ne]. }
  split.
  - done.
  - intros nv n d Hd. simpl. destruct (nv_numbers nv !! n); [by apply wrap_range|done].
  - intros nv n d. rewrite nv_map_number. simpl. by destruct (nv_numbers nv !! n).
  - intros nv n v _. split_and!; try done. intros m. rewrite !nv_map_number. simpl. rewrite Hi. by case_decide.
  - intros nv n v _. split_and!; try done. intros m. apply Hi.
  - intros nv n v _. split_and!; try done. intros m. apply Hi.
Qed.

(** ** Arrays of lists, and booleans *)

Class nvlist_array_ops (NV : Type) := {
  (** [nvlist_exists_nvlist_array] and [nvlist_get_nvlist_array]. *)
  nvlist_get_nvlist_array : NV → string → option (list NV);
  nvlist_append_nvlist_array : NV → string → NV → NV;
  (** The list without the array that is taken. *)
  nvlist_take_nvlist_array : NV → string → NV;
  nvlist_move_nvlist_array : NV → string → list NV → NV;
  nvlist_add_bool : NV → string → bool → NV;
  (** The list without the number that is taken. *)
  nvlist_take_number : NV → string → NV;
}.

(** Equal in all numbers, strings and binaries. *)
Definition same_scalars {NV} `{nvlist_ops NV} (nv nv' : NV) : Prop := ∀ m,
  nv_number nv' m = nv_number nv m ∧ dnvlist_get_string nv' m = dnvlist_get_string nv m ∧
  dnvlist_get_binary nv' m = dnvlist_get_binary nv m.

(** Equal in all arrays and booleans. *)
Definition same_others {NV} `{nvlist_ops NV, !nvlist_array_ops NV} (nv nv' : NV) : Prop :=
  (∀ m, nvlist_get_nvlist_array nv' m = nvlist_get_nvlist_array nv m) ∧
  ∀ m d, dnvlist_get_bool nv' m d = dnvlist_get_bool nv m d.

Class nvlist_array_laws (NV : Type) `{nvlist_ops NV, !nvlist_array_ops NV} := {
  nv_create_arrays : ∀ m, nvlist_get_nvlist_array nvlist_create m = None ∧ ∀ d, dnvlist_get_bool nvlist_create m d = d;
  nv_add_number_others : ∀ nv n v, nv_number nv n = None → same_others nv (nvlist_add_number nv n v);
  nv_add_string_others : ∀ nv n v, dnvlist_get_string nv n = None → same_others nv (nvlist_add_string nv n v);
  nv_add_binary_others : ∀ nv n v, dnvlist_get_binary nv n = None → same_others nv (nvlist_add_binary nv n v);
  nv_append : ∀ nv n x, same_scalars nv (nvlist_append_nvlist_array nv n x) ∧
    (∀ m, nvlist_get_nvlist_array (nvlist_append_nvlist_array nv n x) m =
       if decide (m = n) then Some (default [] (nvlist_get_nvlist_array nv n) ++ [x]) else nvlist_get_nvlist_array nv m) ∧
    ∀ m d, dnvlist_get_bool (nvlist_append_nvlist_array nv n x) m d = dnvlist_get_bool nv m d;
  nv_take_array : ∀ nv n, same_scalars nv (nvlist_take_nvlist_array nv n) ∧
    (∀ m, nvlist_get_nvlist_array (nvlist_take_nvlist_array nv n) m =
       if decide (m = n) then None else nvlist_get_nvlist_array nv m) ∧
    ∀ m d, dnvlist_get_bool (nvlist_take_nvlist_array nv n) m d = dnvlist_get_bool nv m d;
  nv_move_array : ∀ nv n l, nvlist_get_nvlist_array nv n = None → same_scalars nv (nvlist_move_nvlist_array nv n l) ∧
    (∀ m, nvlist_get_nvlist_array (nvlist_move_nvlist_array nv n l) m =
       if decide (m = n) then Some l else nvlist_get_nvlist_array nv m) ∧
    ∀ m d, dnvlist_get_bool (nvlist_move_nvlist_array nv n l) m d = dnvlist_get_bool nv m d;
  nv_add_bool : ∀ nv n b, same_scalars nv (nvlist_add_bool nv n b) ∧
    (∀ m, nvlist_get_nvlist_array (nvlist_add_bool nv n b) m = nvlist_get_nvlist_array nv m) ∧
    ∀ m d, dnvlist_get_bool (nvlist_add_bool nv n b) m d = if decide (m = n) then b else dnvlist_get_bool nv m d;
  nv_take_number : ∀ nv n,
    (∀ m, nv_number (nvlist_take_number nv n) m = if decide (m = n) then None else nv_number nv m) ∧
    (∀ m, dnvlist_get_string (nvlist_take_number nv n) m = dnvlist_get_string nv m) ∧
    (∀ m, dnvlist_get_binary (nvlist_take_number nv n) m = dnvlist_get_binary nv m) ∧
    same_others nv (nvlist_take_number nv n);
}.

(** A concrete instance: trees. *)
Inductive nv_tree := NVT (scalars : nv_map) (arrays : list (string * list nv_tree)).

Definition nvt_scalars (t : nv_tree) : nv_map := let '(NVT s _) := t in s.
Definition nvt_arrays (t : nv_tree) : list (string * list nv_tree) := let '(NVT _ a) := t in a.
Definition nvt_set (t : nv_tree) (s : nv_map) : nv_tree := NVT s (nvt_arrays t).

Fixpoint nvt_array (l : list (string * list nv_tree)) (n : string) : option (list nv_tree) :=
  match l with
  | [] => None
  | (m, x) :: l => if decide (m = n) then Some x else nvt_array l n
  end.

Fixpoint nvt_without (l : list (string * list nv_tree)) (n : string) : list (string * list nv_tree) :=
  match l with
  | [] => []
  | (m, x) :: l => if decide (m = n) then nvt_without l n else (m, x) :: nvt_without l n
  end.

#[global] Instance nv_tree_ops : nvlist_ops nv_tree := {
  nvlist_create := NVT nvlist_create [];
  nvlist_exists_number t n := nvlist_exists_number (nvt_scalars t) n;
  dnvlist_get_number t n d := dnvlist_get_number (nvt_scalars t) n d;
  dnvlist_get_bool t n d := dnvlist_get_bool (nvt_scalars t) n d;
  dnvlist_get_string t n := dnvlist_get_string (nvt_scalars t) n;
  dnvlist_get_binary t n := dnvlist_get_binary (nvt_scalars t) n;
  nvlist_add_number t n v := nvt_set t (nvlist_add_number (nvt_scalars t) n v);
  nvlist_add_string t n v := nvt_set t (nvlist_add_string (nvt_scalars t) n v);
  nvlist_add_binary t n v := nvt_set t (nvlist_add_binary (nvt_scalars t) n v);
}.

#[global] Instance nv_tree_array_ops : nvlist_array_ops nv_tree := {
  nvlist_get_nvlist_array t n := nvt_array (nvt_arrays t) n;
  nvlist_append_nvlist_array t n x :=
    NVT (nvt_scalars t) ((n, default [] (nvt_array (nvt_arrays t) n) ++ [x]) :: nvt_without (nvt_arrays t) n);
  nvlist_take_nvlist_array t n := NVT (nvt_scalars t) (nvt_without (nvt_arrays t) n);
  nvlist_move_nvlist_array t n l := NVT (nvt_scalars t) ((n, l) :: nvt_arrays t);
  nvlist_add_bool t n b :=
    let s := nvt_scalars t in nvt_set t (mk_nv (nv_numbers s) (<[n := b]> (nv_bools s)) (nv_strings s) (nv_binaries s));
  nvlist_take_number t n :=
    let s := nvt_scalars t in nvt_set t (mk_nv (delete n (nv_numbers s)) (nv_bools s) (nv_strings s) (nv_binaries s));
}.

#[global] Instance nv_tree_laws : nvlist_laws nv_tree.
Proof.
  split.
  - done.
  - intros t n d. exact (nv_number_range (nvt_scalars t) n d).
  - intros t n d. exact (nv_number_default (nvt_scalars t) n d).
  - intros t n v. exact (nv_add_number (nvt_scalars t) n v).
  - intros t n v. exact (nv_add_string (nvt_scalars t) n v).
  - intros t n v. exact (nv_add_binary (nvt_scalars t) n v).
Qed.

Lemma nvt_array_without l n m : nvt_array (nvt_without l n) m = if decide (m = n) then None else nvt_array l m.
Proof.
  induction l as [|[k x] l IH]; [cbn; by case_decide|]. cbn [nvt_without nvt_array].
  destruct (decide (k = n)) as [->|Hn]; rewrite ?IH.
  - destruct (decide (m = n)) as [->|]; [done|]. by rewrite decide_False.
  - cbn [nvt_array]. rewrite IH. destruct (decide (k = m)) as [->|]; [by rewrite decide_False|done].
Qed.

#[global] Instance nv_tree_array_laws : nvlist_array_laws nv_tree.
Proof.
  assert (∀ {V} (m : gmap string V) n k v, <[n := v]> m !! k = if decide (k = n) then Some v else m !! k) as Hi.
  { intros V m n k v. case_decide as E; [subst; apply lookup_insert_eq|by apply lookup_insert_ne]. }
  split; try done.
  - intros t n x. split_and!; try done. intros m. cbn. rewrite nvt_array_without.
    destruct (decide (n = m)) as [->|]; [by rewrite decide_True|by rewrite !decide_False by congruence].
  - intros t n. split_and!; try done. intros m. apply nvt_array_without.
  - intros t n l _. split_and!; try done. intros m. cbn.
    destruct (decide (n = m)) as [->|]; [by rewrite decide_True|by rewrite decide_False by congruence].
  - intros t n b. split_and!; try done. intros m d. cbn. rewrite Hi. by case_decide.
  - intros t n. split_and!; try done. intros m. unfold nv_number. cbn. case_decide as E.
    + subst. by rewrite lookup_delete_eq.
    + by rewrite lookup_delete_ne by done.
Qed.

End Nvlist.
