(* ===== verification/Rproc.v ===== *)
(** * Rproc: rule procedures and their extensions (src/kern/npf_rproc.c)

    Extensions are registered by name; a rule procedure is a sequence of calls
    of extensions, each with the meta-data its constructor made.  Both are heap
    objects with reference counts: of an extension, the calls that use it; of a
    rule procedure, its set, the rules and the connections that refer to it.
    Freed objects leave the heap; an access to one, like a failed assertion,
    sets [rp_fault].  The meta-data of the extensions is the type [W].
    Modules are not loaded on demand, as in the standalone build, where
    [module_autoload] always fails. *)

From S2P Require Import Prelude Nbuf Cache Ruleset Nvlist.
From stdpp Require Import strings.
Open Scope Z_scope.
Open Scope npf_scope.

Module Rproc.
Export Cache Ruleset Nvlist.

Definition EXT_NAME_LEN : nat := 32.
Definition RPROC_NAME_LEN : nat := 32.
Definition RPROC_EXT_COUNT : Z := 16.

(** [strlcpy] into a buffer of [n] bytes. *)
Definition strlcpy (s : string) (n : nat) : string := String.substring 0 (n - 1) s.

Section rproc.
Context {M : npf_mbufops_t} {W P NV : Type} `{NO : nvlist_ops NV}.

(** The functions of an extension.  The constructor returns an error or the
    meta-data it assigns to the call; the packet function returns whether to
    continue, the decision and the packet. *)
Record npf_ext_ops_t := mk_ext_ops {
  op_ctor : W → P → Z + Z * W;
  op_dtor : W → Z → W;
  op_proc : W → npf_cache_t → Z → npf_match_info → Z → bool * Z * npf_cache_t * W;
}.

Record npf_ext := mk_ext { ext_callname : string; ext_ops : npf_ext_ops_t; ext_refcnt : Z }.

(** The calls: extension and meta-data. *)
Record npf_rproc := mk_rproc {
  rp_flags : Z;
  rp_refcnt : Z;
  rp_ext : list (Z * Z);
  rp_name : string;
}.

Record rproc_sys := mk_rsys {
  exts : gmap Z npf_ext;
  ext_list : list Z;
  rprocs : gmap Z npf_rproc;
  next_obj : Z;
  world : W;
  rp_fault : bool;
}.

Definition set_exts (s : rproc_sys) (e : gmap Z npf_ext) (l : list Z) : rproc_sys :=
  mk_rsys e l (rprocs s) (next_obj s) (world s) (rp_fault s).
Definition set_rprocs (s : rproc_sys) (r : gmap Z npf_rproc) : rproc_sys :=
  mk_rsys (exts s) (ext_list s) r (next_obj s) (world s) (rp_fault s).
Definition set_world (s : rproc_sys) (w : W) : rproc_sys :=
  mk_rsys (exts s) (ext_list s) (rprocs s) (next_obj s) w (rp_fault s).
Definition fault (s : rproc_sys) : rproc_sys :=
  mk_rsys (exts s) (ext_list s) (rprocs s) (next_obj s) (world s) true.

Definition npf_ext_init (w : W) : rproc_sys := mk_rsys ∅ [] ∅ 1 w false.

(** ** Extensions *)

Fixpoint ext_find (e : gmap Z npf_ext) (l : list Z) (name : string) : option Z :=
  match l with
  | [] => None
  | p :: l => if decide ((ext_callname <$> e !! p) = Some name) then Some p else ext_find e l name
  end.

Definition npf_ext_lookup (s : rproc_sys) (name : string) : option Z := ext_find (exts s) (ext_list s) name.

Definition npf_ext_register (s : rproc_sys) (name : string) (ops : npf_ext_ops_t) : option Z * rproc_sys :=
  let ext := next_obj s in
  let s := mk_rsys (exts s) (ext_list s) (rprocs s) (ext + 1) (world s) (rp_fault s) in
  match npf_ext_lookup s name with
  | Some _ => (None, s)
  | None => (Some ext, set_exts s (<[ext := mk_ext (strlcpy name EXT_NAME_LEN) ops 0]> (exts s)) (ext :: ext_list s))
  end.

Definition npf_ext_unregister (s : rproc_sys) (ext : Z) : Z * rproc_sys :=
  match exts s !! ext with
  | None => (0, fault s)
  | Some e =>
      if negb (ext_refcnt e =? 0) then (EBUSY, s)
      else (0, set_exts s (delete ext (exts s)) (list_remove ext (ext_list s)))
  end.

Definition ext_incr (n : Z) (e : npf_ext) : npf_ext := mk_ext (ext_callname e) (ext_ops e) (u32 (ext_refcnt e + n)).
Definition add_call (c : Z * Z) (r : npf_rproc) : npf_rproc :=
  mk_rproc (rp_flags r) (rp_refcnt r) (rp_ext r ++ [c]) (rp_name r).

(** The constructor stores its meta-data with [npf_rproc_assign] in the slot of
    the call being added. *)
Definition npf_ext_construct (s : rproc_sys) (name : string) (rp : Z) (params : P) : Z * rproc_sys :=
  match rprocs s !! rp with
  | None => (0, fault s)
  | Some r =>
      if RPROC_EXT_COUNT <=? Z.of_nat (length (rp_ext r)) then (ENOSPC, s) else
      match npf_ext_lookup s name with
      | None => (ENOENT, s)
      | Some ext =>
          match exts s !! ext with
          | None => (0, fault s)
          | Some e =>
              let s := set_exts s (alter (ext_incr 1) ext (exts s)) (ext_list s) in
              match op_ctor (ext_ops e) (world s) params with
              | inl error => (error, set_exts s (alter (ext_incr (-1)) ext (exts s)) (ext_list s))
              | inr (meta, w) => (0, set_rprocs (set_world s w) (alter (add_call (ext, meta)) rp (rprocs s)))
              end
          end
      end
  end.

(** ** Rule procedures *)

Definition npf_rproc_create (s : rproc_sys) (nv : NV) : option Z * rproc_sys :=
  match dnvlist_get_string nv "name" with
  | None => (None, s)
  | Some name =>
      let rp := next_obj s in
      let r := mk_rproc (u32 (dnvlist_get_number nv "flags" 0)) 1 [] (strlcpy name RPROC_NAME_LEN) in
      (Some rp, mk_rsys (exts s) (ext_list s) (<[rp := r]> (rprocs s)) (rp + 1) (world s) (rp_fault s))
  end.

Definition rp_incr (n : Z) (r : npf_rproc) : npf_rproc :=
  mk_rproc (rp_flags r) (u32 (rp_refcnt r + n)) (rp_ext r) (rp_name r).

Definition npf_rproc_acquire (s : rproc_sys) (rp : Z) : rproc_sys :=
  match rprocs s !! rp with
  | None => fault s
  | Some _ => set_rprocs s (alter (rp_incr 1) rp (rprocs s))
  end.

(** The destructors of the calls, in order. *)
Fixpoint release_calls (calls : list (Z * Z)) (s : rproc_sys) : rproc_sys :=
  match calls with
  | [] => s
  | (ext, meta) :: calls =>
      match exts s !! ext with
      | None => fault s
      | Some e =>
          let s := set_world s (op_dtor (ext_ops e) (world s) meta) in
          release_calls calls (set_exts s (alter (ext_incr (-1)) ext (exts s)) (ext_list s))
      end
  end.

Definition npf_rproc_release (s : rproc_sys) (rp : Z) : rproc_sys :=
  match rprocs s !! rp with
  | None => fault s
  | Some r =>
      if rp_refcnt r <=? 0 then fault s else
      let r := rp_incr (-1) r in
      if negb (rp_refcnt r =? 0) then set_rprocs s (<[rp := r]> (rprocs s))
      else let s := release_calls (rp_ext r) s in set_rprocs s (delete rp (rprocs s))
  end.

(** [None] when the re-caching of the packet has no result. *)
Fixpoint run_calls (calls : list (Z * Z)) (s : rproc_sys) (npc : npf_cache_t) (mi : npf_match_info) (decision : Z) :
    option (bool * Z * npf_cache_t * rproc_sys) :=
  match calls with
  | [] => Some (true, decision, npc, s)
  | (ext, meta) :: calls =>
      match exts s !! ext with
      | None => Some (true, decision, npc, fault s)
      | Some e =>
          if ext_refcnt e <=? 0 then Some (true, decision, npc, fault s) else
          let '(ok, decision, npc, w) := op_proc (ext_ops e) (world s) npc meta mi decision in
          let s := set_world s w in
          if negb ok then Some (false, decision, npc, s) else
          npc ← (if nbuf_flag_p (npc_nbuf npc) NBUF_DATAREF_RESET then npf_recache npc else Some npc);
          run_calls calls s npc mi decision
      end
  end.

Definition npf_rproc_run (s : rproc_sys) (npc : npf_cache_t) (rp : Z) (mi : npf_match_info) (decision : Z) :
    option (bool * Z * npf_cache_t * rproc_sys) :=
  match rprocs s !! rp with
  | None => Some (true, decision, npc, fault s)
  | Some r =>
      if rp_refcnt r <=? 0 then Some (true, decision, npc, fault s)
      else run_calls (rp_ext r) s npc mi decision
  end.

(** ** Sets of rule procedures *)

Definition npf_rprocset_create : list Z := [].

Definition npf_rprocset_insert (rpset : list Z) (rp : Z) : list Z := rp :: rpset.

(** [strncmp] over the length of the buffer. *)
Fixpoint npf_rprocset_lookup (s : rproc_sys) (rpset : list Z) (name : string) : option Z :=
  match rpset with
  | [] => None
  | rp :: rpset =>
      if decide ((rp_name <$> rprocs s !! rp) = Some (String.substring 0 RPROC_NAME_LEN name)) then Some rp
      else npf_rprocset_lookup s rpset name
  end.

Fixpoint npf_rprocset_destroy (s : rproc_sys) (rpset : list Z) : rproc_sys :=
  match rpset with
  | [] => s
  | rp :: rpset => npf_rprocset_destroy (npf_rproc_release s rp) rpset
  end.

(** Names and flags of the rule procedures. *)
Definition npf_rprocset_export (s : rproc_sys) (rpset : list Z) : list NV :=
  (λ r, nvlist_add_number (nvlist_add_string nvlist_create "name" (rp_name r)) "flags" (rp_flags r))
    <$> omap (λ rp, rprocs s !! rp) rpset.

(** ** Reference counts *)

Definition calls_of (ext : Z) (r : npf_rproc) : Z := Z.of_nat (length (filter (λ c, fst c = ext) (rp_ext r))).

(** The calls of an extension, over all rule procedures. *)
Definition ext_uses (s : rproc_sys) (ext : Z) : Z := msum (calls_of ext) (rprocs s).

(** [refs] are the references that the callers hold on each rule procedure. *)
Record rp_inv (refs : Z → Z) (s : rproc_sys) : Prop := {
  ri_ok : rp_fault s = false;
  ri_uses : ∀ p e, exts s !! p = Some e → ext_refcnt e = ext_uses s p;
  ri_calls : ∀ rp r, rprocs s !! rp = Some r →
    Z.of_nat (length (rp_ext r)) <= RPROC_EXT_COUNT ∧ ∀ c, c ∈ rp_ext r → is_Some (exts s !! fst c);
  ri_refs : ∀ rp, refs rp = match rprocs s !! rp with Some r => rp_refcnt r | None => 0 end;
  ri_live : ∀ rp r, rprocs s !! rp = Some r → 0 < rp_refcnt r < 2 ^ 32;
  ri_list : ∀ p, is_Some (exts s !! p) ↔ p ∈ ext_list s;
  ri_nodup : NoDup (ext_list s);
  ri_fresh : ∀ p, is_Some (exts s !! p) ∨ is_Some (rprocs s !! p) → p < next_obj s;
  ri_size : Z.of_nat (size (rprocs s)) < 2 ^ 27;
}.

Definition upd (refs : Z → Z) (p n : Z) : Z → Z := λ q, if decide (q = p) then n else refs q.

(** A step of a client: it acts on rule procedures it has a reference on. *)
Inductive rp_step : (Z → Z) * rproc_sys → (Z → Z) * rproc_sys → Prop :=
  | S_register refs s name ops : rp_step (refs, s) (refs, snd (npf_ext_register s name ops))
  | S_unregister refs s ext : is_Some (exts s !! ext) → rp_step (refs, s) (refs, snd (npf_ext_unregister s ext))
  | S_create refs s nv rp s' : Z.of_nat (size (rprocs s)) + 1 < 2 ^ 27 → npf_rproc_create s nv = (Some rp, s') →
      rp_step (refs, s) (upd refs rp 1, s')
  | S_construct refs s name rp params : 0 < refs rp → rp_step (refs, s) (refs, snd (npf_ext_construct s name rp params))
  | S_acquire refs s rp : 0 < refs rp < 2 ^ 32 - 1 → rp_step (refs, s) (upd refs rp (refs rp + 1), npf_rproc_acquire s rp)
  | S_release refs s rp : 0 < refs rp → rp_step (refs, s) (upd refs rp (refs rp - 1), npf_rproc_release s rp)
  | S_run refs s npc rp mi d ok d' npc' s' : 0 < refs rp →
      npf_rproc_run s npc rp mi d = Some (ok, d', npc', s') → rp_step (refs, s) (refs, s').

Lemma calls_of_nonneg ext r : 0 <= calls_of ext r.
Proof. unfold calls_of. lia. Qed.

Lemma ext_uses_bound refs s ext : rp_inv refs s → 0 <= ext_uses s ext < 2 ^ 32 - 1.
Proof.
  intros Hi. split; [apply msum_nonneg; intros; apply calls_of_nonneg|].
  assert (ext_uses s ext <= 16 * Z.of_nat (size (rprocs s))); [|pose proof (ri_size _ _ Hi); lia].
  apply msum_le. intros rp r Hr. unfold calls_of. destruct (ri_calls _ _ Hi rp r Hr) as [Hl _].
  pose proof (length_filter (λ c, fst c = ext) (rp_ext r)). unfold RPROC_EXT_COUNT in Hl. lia.
Qed.

(** A call is counted. *)
Lemma ext_uses_pos s rp r c : rprocs s !! rp = Some r → c ∈ rp_ext r → 0 < ext_uses s (fst c).
Proof.
  intros Er Hc.
  assert (calls_of (fst c) r <= ext_uses s (fst c)) as Hle by (eapply msum_elem; [intros; apply calls_of_nonneg|exact Er]).
  assert (c ∈ filter (λ c', fst c' = fst c) (rp_ext r)) as Hf by (by apply list_elem_of_filter).
  unfold calls_of in Hle. destruct (filter _ _); [by apply not_elem_of_nil in Hf|simpl in Hle; lia].
Qed.

Lemma calls_of_zero ext r : (∀ c, c ∈ rp_ext r → fst c ≠ ext) → calls_of ext r = 0.
Proof.
  intros Hc. unfold calls_of. destruct (filter _ _) as [|c l] eqn:E; [done|].
  assert (c ∈ filter (λ c, fst c = ext) (rp_ext r)) as [Hf Hin]%list_elem_of_filter by (rewrite E; left).
  by apply (Hc c Hin) in Hf.
Qed.

Lemma calls_of_add ext c r : calls_of ext (add_call c r) = calls_of ext r + b2z (bool_decide (fst c = ext)).
Proof.
  unfold calls_of. cbn [add_call rp_ext]. rewrite filter_app, length_app.
  destruct (decide (fst c = ext)) as [E|E].
  - rewrite filter_cons_True, bool_decide_true by done. simpl. lia.
  - rewrite filter_cons_False, bool_decide_false by done. simpl. lia.
Qed.

Lemma ext_find_elem e l name p : ext_find e l name = Some p → p ∈ l ∧ is_Some (e !! p).
Proof.
  induction l as [|q l IH]; simpl; [done|]. case_decide as E.
  - intros [= ->]. split; [left|]. by destruct (e !! p).
  - intros H. destruct (IH H). split; [by right|done].
Qed.

Lemma rproc_live refs s rp : rp_inv refs s → 0 < refs rp → ∃ r, rprocs s !! rp = Some r ∧ rp_refcnt r = refs rp.
Proof.
  intros Hi H. pose proof (ri_refs _ _ Hi rp) as E. destruct (rprocs s !! rp) as [r|]; [|lia]. by exists r.
Qed.

Lemma npf_ext_register_inv refs s name ops : rp_inv refs s → rp_inv refs (snd (npf_ext_register s name ops)).
Proof.
  intros Hi. pose proof Hi as [H1 H2 H3 H4 H5 H6 H7 H8 H9]. unfold npf_ext_register. cbn [exts ext_list rprocs world rp_fault].
  assert (exts s !! next_obj s = None) as Hnew.
  { destruct (exts s !! next_obj s) eqn:E; [|done]. pose proof (H8 (next_obj s) ltac:(left; eauto)). lia. }
  destruct (npf_ext_lookup _ _); cbn [snd]; split; cbn [exts ext_list rprocs world rp_fault next_obj set_exts]; try done.
  - intros p Hp. pose proof (H8 p Hp). lia.
  - intros p e. rewrite lookup_insert_if. case_decide as E; [|apply H2]. intros [= <-]. cbn [ext_refcnt]. symmetry.
    apply msum_zero. intros rp r Hr. apply calls_of_zero. intros c Hc Hp. subst p.
    destruct (H3 rp r Hr) as [_ Hin]. rewrite <- Hp in Hnew. destruct (Hin c Hc). congruence.
  - intros rp r Hr. destruct (H3 rp r Hr) as [Hl Hin]. split; [done|]. intros c Hc. rewrite lookup_insert_if.
    case_decide; [eauto|by apply Hin].
  - intros p. rewrite lookup_insert_if, elem_of_cons, <- H6. case_decide; naive_solver.
  - apply NoDup_cons. split; [|done]. rewrite <- H6, Hnew. by intros [].
  - intros p. rewrite lookup_insert_if. case_decide; [lia|]. intros Hp. pose proof (H8 p Hp). lia.
Qed.

Lemma npf_ext_unregister_inv refs s ext : rp_inv refs s → is_Some (exts s !! ext) →
  rp_inv refs (snd (npf_ext_unregister s ext)) ∧
  (fst (npf_ext_unregister s ext) = if ext_uses s ext =? 0 then 0 else EBUSY).
Proof.
  intros Hi [e He]. pose proof Hi as [H1 H2 H3 H4 H5 H6 H7 H8 H9]. unfold npf_ext_unregister. rewrite He.
  rewrite (H2 _ _ He). destruct (ext_uses s ext =? 0) eqn:E; cbn [negb fst snd]; [|done]. bool_to_prop. split; [|done].
  split; cbn [exts ext_list rprocs world rp_fault next_obj set_exts]; try done.
  - intros p x. rewrite lookup_delete_if. case_decide; [done|]. apply H2.
  - intros rp r Hr. destruct (H3 rp r Hr) as [Hl Hin]. split; [done|]. intros c Hc. rewrite lookup_delete_if.
    case_decide as Ec; [|by apply Hin]. exfalso.
    pose proof (ext_uses_pos s rp r c Hr Hc) as Hu. rewrite Ec in Hu. lia.
  - intros p. rewrite lookup_delete_if, list_remove_elem, <- H6. case_decide; naive_solver.
  - by apply list_remove_NoDup.
  - intros p. rewrite lookup_delete_if. case_decide; [|apply H8]. subst p. intros _. apply H8. eauto.
Qed.

Lemma npf_rproc_create_inv refs s nv rp s' : rp_inv refs s → Z.of_nat (size (rprocs s)) + 1 < 2 ^ 27 →
  npf_rproc_create s nv = (Some rp, s') → rp_inv (upd refs rp 1) s'.
Proof.
  intros [H1 H2 H3 H4 H5 H6 H7 H8 H9] Hs. unfold npf_rproc_create. destruct (dnvlist_get_string _ _); [|done].
  intros [= <- <-].
  assert (rprocs s !! next_obj s = None) as Hnew.
  { destruct (rprocs s !! next_obj s) eqn:E; [|done]. pose proof (H8 (next_obj s) ltac:(right; eauto)). lia. }
  split; cbn [exts ext_list rprocs world rp_fault next_obj]; try done.
  - intros p e He. rewrite (H2 p e He). unfold ext_uses. simpl. rewrite msum_insert_new by done. unfold calls_of. simpl. lia.
  - intros rp r. rewrite lookup_insert_if. case_decide; [|apply H3]. intros [= <-]. simpl. split; [unfold RPROC_EXT_COUNT; lia|].
    by intros c ?%not_elem_of_nil.
  - intros rp. unfold upd. rewrite lookup_insert_if. case_decide; [done|apply H4].
  - intros rp r. rewrite lookup_insert_if. case_decide; [|apply H5]. intros [= <-]. simpl. lia.
  - intros p Hp. rewrite lookup_insert_if in Hp. case_decide; [lia|]. pose proof (H8 p Hp). lia.
  - rewrite map_size_insert_None by done. lia.
Qed.

(** A changed rule procedure with the same calls. *)
Lemma rp_inv_insert refs s rp r r' : rp_inv refs s → rprocs s !! rp = Some r → rp_ext r' = rp_ext r →
  0 < rp_refcnt r' < 2 ^ 32 → rp_inv (upd refs rp (rp_refcnt r')) (set_rprocs s (<[rp := r']> (rprocs s))).
Proof.
  intros [H1 H2 H3 H4 H5 H6 H7 H8 H9] Hr Hx Hc.
  split; cbn [exts ext_list rprocs world rp_fault next_obj set_rprocs]; try done.
  - intros p e He. rewrite (H2 p e He). unfold ext_uses. simpl. rewrite (msum_insert _ _ _ _ r) by done.
    unfold calls_of. rewrite Hx. lia.
  - intros q x. rewrite lookup_insert_if. case_decide; [|apply H3]. intros [= <-]. rewrite Hx. by apply (H3 rp r).
  - intros q. unfold upd. rewrite lookup_insert_if. case_decide; [done|apply H4].
  - intros q x. rewrite lookup_insert_if. case_decide; [|apply H5]. by intros [= <-].
  - intros p. rewrite lookup_insert_if. case_decide; [|apply H8]. subst p. intros _. apply H8. eauto.
  - rewrite map_size_insert_Some by eauto. done.
Qed.

Lemma rp_incr_pos n r : 0 <= rp_refcnt r + n < 2 ^ 32 → rp_refcnt (rp_incr n r) = rp_refcnt r + n.
Proof. intros. cbn [rp_incr rp_refcnt]. by apply wrap_small. Qed.

Lemma npf_rproc_acquire_inv refs s rp : rp_inv refs s → 0 < refs rp < 2 ^ 32 - 1 →
  rp_inv (upd refs rp (refs rp + 1)) (npf_rproc_acquire s rp).
Proof.
  intros Hi Hr. destruct (rproc_live refs s rp Hi ltac:(lia)) as (r & Er & Ec). unfold npf_rproc_acquire. rewrite Er.
  replace (alter (rp_incr 1) rp (rprocs s)) with (<[rp := rp_incr 1 r]> (rprocs s))
    by (apply map_eq; intros q; rewrite lookup_insert_if, lookup_alter_if; case_decide; [subst q; by rewrite Er|done]).
  pose proof (rp_incr_pos 1 r ltac:(lia)) as E. rewrite <- Ec, <- E. apply (rp_inv_insert refs s rp r); [done..|lia].
Qed.

Lemma release_calls_spec calls : ∀ s (u : Z → Z),
  (∀ c, c ∈ calls → is_Some (exts s !! fst c)) →
  (∀ p e, exts s !! p = Some e → 0 <= u p ∧ ext_refcnt e < 2 ^ 32 ∧
     ext_refcnt e = u p + Z.of_nat (length (filter (λ c, fst c = p) calls))) →
  let s' := release_calls calls s in
  rp_fault s' = rp_fault s ∧ ext_list s' = ext_list s ∧ rprocs s' = rprocs s ∧ next_obj s' = next_obj s ∧
  (∀ p, is_Some (exts s' !! p) ↔ is_Some (exts s !! p)) ∧ (∀ p e, exts s' !! p = Some e → ext_refcnt e = u p).
Proof.
  induction calls as [|[ext meta] calls IH]; intros s u Hc Hu; cbn [release_calls].
  - split_and!; try done. intros p e He. destruct (Hu p e He) as (_ & _ & ->). simpl. lia.
  - destruct (Hc (ext, meta)) as [e He]; [left|]. cbn [fst] in He. rewrite He.
    set (s1 := set_exts _ _ _).
    assert (∀ p, is_Some (exts s1 !! p) ↔ is_Some (exts s !! p)) as Hdom.
    { intros p. unfold s1. cbn [exts set_exts set_world]. rewrite lookup_alter_if. case_decide; [|done]. by rewrite fmap_is_Some. }
    destruct (IH s1 u) as (E1 & E2 & E3 & E4 & E5 & E6).
    + intros c Hin. apply Hdom, Hc. by right.
    + intros p x. unfold s1. cbn [exts set_exts set_world]. rewrite lookup_alter_if. case_decide as E.
      * subst p. rewrite He. intros [= <-]. destruct (Hu ext e He) as (U1 & U2 & U3).
        rewrite filter_cons_True in U3 by done. cbn [length] in U3. cbn [ext_incr ext_refcnt].
        rewrite wrap_small by (unfold inw; lia). lia.
      * intros Hx. destruct (Hu p x Hx) as (U1 & U2 & U3). rewrite filter_cons_False in U3 by (simpl; congruence). lia.
    + split_and!; try done. intros p. by rewrite E5, Hdom.
Qed.

Lemma npf_rproc_release_inv refs s rp : rp_inv refs s → 0 < refs rp →
  rp_inv (upd refs rp (refs rp - 1)) (npf_rproc_release s rp).
Proof.
  intros Hi Hr. destruct (rproc_live refs s rp Hi Hr) as (r & Er & Ec). unfold npf_rproc_release. rewrite Er.
  pose proof (ri_live _ _ Hi rp r Er) as Hl. rewrite (proj2 (Z.leb_gt _ 0)) by lia.
  pose proof (rp_incr_pos (-1) r ltac:(lia)) as E. rewrite E. destruct (rp_refcnt r + -1 =? 0) eqn:E0; bool_to_prop; cbn [negb].
  2:{ replace (refs rp - 1) with (rp_refcnt (rp_incr (-1) r)) by lia. apply (rp_inv_insert refs s rp r); [done..|lia]. }
  cbn [rp_incr rp_ext]. pose proof Hi as [H1 H2 H3 H4 H5 H6 H7 H8 H9].
  assert (∀ p, msum (calls_of p) (delete rp (rprocs s)) = ext_uses s p - calls_of p r) as Hsum by (intros p; by apply msum_delete).
  destruct (release_calls_spec (rp_ext r) s (λ p, msum (calls_of p) (delete rp (rprocs s)))) as (E1 & E2 & E3 & E4 & E5 & E6).
  { by apply (H3 rp r). }
  { intros p e He. pose proof (ext_uses_bound refs s p Hi). rewrite (H2 p e He), Hsum. split; [|unfold calls_of; lia].
    assert (calls_of p r <= ext_uses s p); [|lia]. eapply msum_elem; [intros; apply calls_of_nonneg|exact Er]. }
  split; cbn [set_rprocs exts ext_list rprocs rp_fault next_obj]; rewrite ?E1, ?E2, ?E3, ?E4; try done.
  - intros q x. rewrite lookup_delete_if. case_decide; [done|]. intros Hx. destruct (H3 q x Hx) as [Hx1 Hx2]. split; [done|].
    intros c Hin. by apply E5, Hx2.
  - intros q. unfold upd. rewrite lookup_delete_if. case_decide; [lia|apply H4].
  - intros q x. rewrite lookup_delete_if. case_decide; [done|apply H5].
  - intros p. rewrite E5. apply H6.
  - intros p. rewrite E5, lookup_delete_if. case_decide; [|apply H8]. intros [?|[? ?]]; [apply H8; by left|done].
  - rewrite map_size_delete_Some by eauto. lia.
Qed.

(** The world is not part of the invariant. *)
Lemma rp_inv_world refs s w : rp_inv refs s → rp_inv refs (set_world s w).
Proof. intros [H1 H2 H3 H4 H5 H6 H7 H8 H9]. by split. Qed.

(** A call and a reference on its extension are added together. *)
Lemma add_call_inv refs s rp r ext meta e : rp_inv refs s → rprocs s !! rp = Some r → exts s !! ext = Some e →
  Z.of_nat (length (rp_ext r)) < RPROC_EXT_COUNT →
  rp_inv refs (set_rprocs (set_exts s (alter (ext_incr 1) ext (exts s)) (ext_list s))
                 (alter (add_call (ext, meta)) rp (rprocs s))).
Proof.
  intros Hi Er Ee Hl. pose proof Hi as [H1 H2 H3 H4 H5 H6 H7 H8 H9].
  assert (∀ p, is_Some (alter (ext_incr 1) ext (exts s) !! p) ↔ is_Some (exts s !! p)) as Hdom
    by (intros p; rewrite lookup_alter_if; case_decide; [by rewrite fmap_is_Some|done]).
  assert (∀ p, is_Some (alter (add_call (ext, meta)) rp (rprocs s) !! p) ↔ is_Some (rprocs s !! p)) as Hdomr
    by (intros p; rewrite lookup_alter_if; case_decide; [by rewrite fmap_is_Some|done]).
  split; cbn [set_rprocs set_exts exts ext_list rprocs rp_fault next_obj]; try done.
  - intros p x. unfold ext_uses. cbn [set_rprocs rprocs]. rewrite (msum_alter _ _ _ _ r) by done. rewrite calls_of_add.
    cbn [fst]. fold (ext_uses s p). pose proof (ext_uses_bound refs s p Hi). rewrite lookup_alter_if. case_decide as E.
    + subst p. rewrite Ee. intros [= <-]. cbn [ext_incr ext_refcnt]. rewrite (H2 ext e Ee), bool_decide_true by done.
      rewrite wrap_small by (unfold inw; lia). simpl. lia.
    + intros Hx. rewrite (H2 p x Hx), bool_decide_false by congruence. simpl. lia.
  - intros q x. rewrite lookup_alter_if. case_decide as E.
    + subst q. rewrite Er. intros [= <-]. destruct (H3 rp r Er) as [_ Hin]. cbn [add_call rp_ext]. rewrite length_app. simpl.
      split; [lia|]. intros c [Hc|Hc]%elem_of_app; [by apply Hdom, Hin|].
      apply list_elem_of_singleton in Hc as ->. apply Hdom. by eexists.
    + intros Hx. destruct (H3 q x Hx) as [Hx1 Hx2]. split; [done|]. intros c Hc. by apply Hdom, Hx2.
  - intros q. rewrite (H4 q), lookup_alter_if. case_decide; [|done]. by destruct (rprocs s !! q).
  - intros q x. rewrite lookup_alter_if. case_decide; [|apply H5]. destruct (rprocs s !! q) eqn:Eq; [|done].
    intros [= <-]. exact (H5 q _ Eq).
  - intros p. rewrite Hdom. apply H6.
  - intros p. rewrite Hdom, Hdomr. apply H8.
  - replace (size (alter _ _ _)) with (size (rprocs s)); [done|]. by rewrite <- !size_dom, dom_alter_L.
Qed.

(** The failed constructor gives the reference back. *)
Lemma ext_incr_undo refs s ext : rp_inv refs s → is_Some (exts s !! ext) →
  alter (ext_incr (-1)) ext (alter (ext_incr 1) ext (exts s)) = exts s.
Proof.
  intros Hi [e He]. apply map_eq. intros p. rewrite !lookup_alter_if. case_decide; [|done]. subst p. rewrite He. simpl.
  pose proof (ext_uses_bound refs s ext Hi) as Hb. rewrite <- (ri_uses _ _ Hi ext e He) in Hb. unfold ext_incr. simpl.
  rewrite (wrap_small 32 (ext_refcnt e + 1)), wrap_small by (unfold inw; lia).
  replace (ext_refcnt e + 1 + -1) with (ext_refcnt e) by lia. by destruct e.
Qed.

Lemma npf_ext_construct_inv refs s name rp params : rp_inv refs s → 0 < refs rp →
  rp_inv refs (snd (npf_ext_construct s name rp params)).
Proof.
  intros Hi Hr. destruct (rproc_live refs s rp Hi Hr) as (r & Er & _). unfold npf_ext_construct. rewrite Er.
  destruct (RPROC_EXT_COUNT <=? _) eqn:E; [done|]. bool_to_prop.
  destruct (npf_ext_lookup s name) as [ext|] eqn:El; [|done].
  destruct (ext_find_elem _ _ _ _ El) as [_ [e He]]. rewrite He. cbn [set_exts world].
  destruct (op_ctor _ _ _) as [error|[meta w]]; cbn [snd].
  - unfold set_exts. cbn [exts ext_list rprocs next_obj world rp_fault]. rewrite (ext_incr_undo refs) by eauto. by destruct s.
  - exact (rp_inv_world refs _ w (add_call_inv refs s rp r ext meta e Hi Er He E)).
Qed.

Lemma run_calls_inv refs calls : ∀ s npc mi d ok d' npc' s', rp_inv refs s →
  (∀ c, c ∈ calls → ∃ e, exts s !! fst c = Some e ∧ 0 < ext_refcnt e) →
  run_calls calls s npc mi d = Some (ok, d', npc', s') → rp_inv refs s'.
Proof.
  induction calls as [|[ext meta] calls IH]; intros s npc mi d ok d' npc' s' Hi Hc; cbn [run_calls]; [by intros [= _ _ _ <-]|].
  destruct (Hc (ext, meta)) as (e & He & Hpos); [left|]. cbn [fst] in He. rewrite He, (proj2 (Z.leb_gt _ 0)) by lia.
  destruct (op_proc _ _ _ _ _ _) as [[[ok1 d1] npc1] w]. destruct ok1; cbn [negb]; [|intros [= _ _ _ <-]; by apply rp_inv_world].
  destruct (if nbuf_flag_p _ _ then _ else _) as [npc2|]; [|done]. simpl. apply IH; [by apply rp_inv_world|].
  intros c Hin. apply Hc. by right.
Qed.

Lemma npf_rproc_run_inv refs s npc rp mi d ok d' npc' s' : rp_inv refs s → 0 < refs rp →
  npf_rproc_run s npc rp mi d = Some (ok, d', npc', s') → rp_inv refs s'.
Proof.
  intros Hi Hr. destruct (rproc_live refs s rp Hi Hr) as (r & Er & _). unfold npf_rproc_run. rewrite Er.
  pose proof (ri_live _ _ Hi rp r Er). rewrite (proj2 (Z.leb_gt _ 0)) by lia. apply run_calls_inv; [done|].
  intros c Hc. destruct (ri_calls _ _ Hi rp r Er) as [_ Hx]. destruct (Hx c Hc) as [e He]. exists e. split; [done|].
  rewrite (ri_uses _ _ Hi _ _ He).
  by apply (ext_uses_pos s rp r c).
Qed.

Lemma rp_step_inv a b : rp_step a b → rp_inv (fst a) (snd a) → rp_inv (fst b) (snd b).
Proof.
  intros Hs Hi. destruct Hs; simpl in *.
  - by apply npf_ext_register_inv.
  - by apply npf_ext_unregister_inv.
  - by eapply npf_rproc_create_inv.
  - by apply npf_ext_construct_inv.
  - by apply npf_rproc_acquire_inv.
  - by apply npf_rproc_release_inv.
  - by eapply npf_rproc_run_inv.
Qed.

Lemma npf_ext_init_inv w : rp_inv (λ _, 0) (npf_ext_init w).
Proof.
  split; cbn [npf_ext_init exts ext_list rprocs rp_fault next_obj]; try done.
  - intros p. rewrite lookup_empty. split; [by intros []|by intros ?%not_elem_of_nil].
  - constructor.
  - by intros p [[]|[]].
Qed.

(** Reference counting of rule procedures and extensions.  In every state
    that registrations and clients can lead to, no freed object has been
    accessed and no assertion has failed; a rule procedure exists exactly as
    long as references on it are held, with their number as its count; the
    count of an extension is the number of calls of it; and an extension that
    a rule procedure calls cannot be unregistered. *)
Theorem rproc_refcounts w refs s : rtc rp_step (λ _, 0, npf_ext_init w) (refs, s) →
  rp_fault s = false ∧
  (∀ rp, is_Some (rprocs s !! rp) ↔ 0 < refs rp) ∧
  (∀ rp r, rprocs s !! rp = Some r → rp_refcnt r = refs rp) ∧
  (∀ ext e, exts s !! ext = Some e → ext_refcnt e = ext_uses s ext) ∧
  (∀ rp r c, rprocs s !! rp = Some r → c ∈ rp_ext r →
     is_Some (exts s !! fst c) ∧ npf_ext_unregister s (fst c) = (EBUSY, s)).
Proof.
  intros Hr. assert (rp_inv refs s) as Hi.
  { change (rp_inv (fst (refs, s)) (snd (refs, s))). remember (refs, s) as b eqn:Eb. clear Eb.
    remember (λ _, 0, npf_ext_init w) as a eqn:Ea. assert (rp_inv (fst a) (snd a)) as Ha by (subst; apply npf_ext_init_inv).
    clear Ea. induction Hr; [done|]. by apply IHHr, rp_step_inv with x. }
  split_and!; [apply (ri_ok _ _ Hi)| | |apply (ri_uses _ _ Hi)|].
  - intros rp. rewrite (ri_refs _ _ Hi). destruct (rprocs s !! rp) as [r|] eqn:Er; [|split; [by intros []|lia]].
    split; [|eauto]. intros _. by apply (ri_live _ _ Hi rp).
  - intros rp r Er. by rewrite (ri_refs _ _ Hi), Er.
  - intros rp r c Er Hc. destruct (ri_calls _ _ Hi rp r Er) as [_ Hx]. destruct (Hx c Hc) as [e He]. split; [eauto|].
    unfold npf_ext_unregister. rewrite He, (ri_uses _ _ Hi _ _ He).
    pose proof (ext_uses_pos s rp r c Er Hc). by rewrite (proj2 (Z.eqb_neq _ 0)) by lia.
Qed.

End rproc.

(** ** Samples *)

(** An extension without meta-data that drops what it sees. *)
Definition drop_ops : npf_ext_ops_t (W := unit) (P := unit) :=
  mk_ext_ops (λ w _, inr (0, w)) (λ w _, w) (λ w npc _ _ d, (false, d, npc, w)).

Definition rproc_nv (name : string) : nv_map := mk_nv ∅ ∅ {["name"%string := name]} ∅.

(** One extension, and a rule procedure that calls it. *)
Definition sample_rsys0 : rproc_sys (W := unit) (P := unit) := snd (npf_ext_register (npf_ext_init ()) "drop" drop_ops).
Definition sample_rsys1 := snd (npf_rproc_create sample_rsys0 (rproc_nv "logdrop")).
Definition sample_rsys := snd (npf_ext_construct sample_rsys1 "drop" 2 ()).

Lemma sample_rsys_reach : rtc (rp_step (M := linear_mbufops) (NV := nv_map)) (λ _, 0, npf_ext_init ()) (upd (λ _, 0) 2 1, sample_rsys).
Proof.
  apply rtc_l with (λ _, 0, sample_rsys0); [apply S_register|].
  apply rtc_l with (upd (λ _, 0) 2 1, sample_rsys1); [by apply (S_create _ _ (rproc_nv "logdrop"))|].
  apply rtc_once, S_construct. done.
Qed.

Lemma rproc_refcounts_witness :
  rp_fault sample_rsys = false ∧ is_Some (rprocs sample_rsys !! 2) ∧ npf_ext_unregister sample_rsys 1 = (EBUSY, sample_rsys).
Proof.
  destruct (rproc_refcounts () (upd (λ _, 0) 2 1) sample_rsys sample_rsys_reach) as (H1 & H2 & _ & _ & H3).
  split; [exact H1|]. assert (is_Some (rprocs sample_rsys !! 2)) as [r Hr] by (by apply H2).
  split; [by exists r|]. apply (H3 2 r (1, 0) Hr). vm_compute in Hr. injection Hr as <-. left.
Defined.

End Rproc.
