(* ===== verification/Alg.v ===== *)
(** * Alg: application-level gateways (src/kern/npf_alg.c)

    An ALG is a name and a set of functions: matching a new translation,
    translating a packet, finding the connection of a packet and releasing what
    it keeps for a translation.  The set of ALGs has [NPF_MAX_ALGS] slots, an
    ALG is referred to by its slot.  The functions work on the private state of
    the ALGs [AS], the NAT entry [NT] and the connections [CS].  Modules are not
    loaded on demand, as in the standalone build.

    Translation and release act on the state of the ALGs only.  That is all
    the ICMP gateway needs; the PPTP gateway creates and ends connections and
    NAT entries when it translates, and AlgPptp models its functions on the
    whole state instead.  The theorems on NAT and on the handler that take a set
    of ALGs of this type are therefore about configurations without PPTP. *)

From S2P Require Import Prelude Nbuf Cache.
From stdpp Require Import strings.
Open Scope Z_scope.
Open Scope npf_scope.

Module Alg.
Export Cache.

Definition NPF_MAX_ALGS : nat := 4.

Section alg.
Context {AS NT CS : Type}.

(** Where parsing the packet has no result there is none.  [fa_translate] and
    [fa_destroy] cannot change connections. *)
Record npfa_funcs_t := mk_funcs {
  fa_match : option (AS → npf_cache_t → NT → Z → bool * NT * AS);
  fa_translate : option (AS → npf_cache_t → NT → npf_flow_t → option (bool * npf_cache_t * AS));
  fa_inspect : option (CS → npf_cache_t → Z → option (option Z * CS * npf_cache_t));
  fa_destroy : option (AS → NT → Z → AS);
}.

Definition no_funcs : npfa_funcs_t := mk_funcs None None None None.

(** Names ([na_name], NULL for a free slot) and functions by slot. *)
Record npf_algset := mk_algset {
  alg_list : list (option string);
  alg_count : nat;
  alg_funcs : list npfa_funcs_t;
}.

Definition npf_alg_init : npf_algset := mk_algset (replicate NPF_MAX_ALGS None) 0 (replicate NPF_MAX_ALGS no_funcs).

(** The first slot with the given contents. *)
Fixpoint find_slot (l : list (option string)) (i : nat) (x : option string) : option nat :=
  match l with
  | [] => None
  | y :: l => if decide (y = x) then Some i else find_slot l (S i) x
  end.

Definition npf_alg_lookup (aset : npf_algset) (name : string) : option nat :=
  find_slot (take (alg_count aset) (alg_list aset)) 0 (Some name).

(** Without modules to load this is the lookup. *)
Definition npf_alg_construct (aset : npf_algset) (name : string) : option nat := npf_alg_lookup aset name.

Definition npf_alg_register (aset : npf_algset) (name : string) (funcs : npfa_funcs_t) : option nat * npf_algset :=
  match npf_alg_lookup aset name with
  | Some _ => (None, aset)
  | None =>
      match find_slot (alg_list aset) 0 None with
      | None => (None, aset)
      | Some i => (Some i, mk_algset (<[i := Some name]> (alg_list aset)) (Nat.max (alg_count aset) (S i))
                             (<[i := funcs]> (alg_funcs aset)))
      end
  end.

(** [freealg] is [npf_ruleset_freealg] on the active NAT ruleset; it runs with
    only the destroy function left. *)
Definition npf_alg_unregister {X} (freealg : npf_algset → X → nat → X) (aset : npf_algset) (x : X) (i : nat) :
    npf_algset * X :=
  let f := default no_funcs (alg_funcs aset !! i) in
  let aset := mk_algset (alg_list aset) (alg_count aset) (<[i := mk_funcs None None None (fa_destroy f)]> (alg_funcs aset)) in
  let x := freealg aset x i in
  (mk_algset (<[i := None]> (alg_list aset)) (alg_count aset) (<[i := no_funcs]> (alg_funcs aset)), x).

Fixpoint match_loop (fs : list npfa_funcs_t) (a : AS) (npc : npf_cache_t) (nt : NT) (di : Z) : bool * NT * AS :=
  match fs with
  | [] => (false, nt, a)
  | f :: fs =>
      match fa_match f with
      | None => match_loop fs a npc nt di
      | Some m => let '(ok, nt, a) := m a npc nt di in if ok then (true, nt, a) else match_loop fs a npc nt di
      end
  end.

Definition npf_alg_match (aset : npf_algset) (a : AS) (npc : npf_cache_t) (nt : NT) (di : Z) : bool * NT * AS :=
  match_loop (take (alg_count aset) (alg_funcs aset)) a npc nt di.

Fixpoint exec_loop (fs : list npfa_funcs_t) (a : AS) (npc : npf_cache_t) (nt : NT) (flow : npf_flow_t) :
    option (npf_cache_t * AS) :=
  match fs with
  | [] => Some (npc, a)
  | f :: fs =>
      match fa_translate f with
      | None => exec_loop fs a npc nt flow
      | Some t => match t a npc nt flow with None => None | Some (_, npc, a) => exec_loop fs a npc nt flow end
      end
  end.

Definition npf_alg_exec (aset : npf_algset) (a : AS) (npc : npf_cache_t) (nt : NT) (flow : npf_flow_t) :
    option (npf_cache_t * AS) :=
  exec_loop (take (alg_count aset) (alg_funcs aset)) a npc nt flow.

Fixpoint conn_loop (fs : list npfa_funcs_t) (s : CS) (npc : npf_cache_t) (di : Z) : option (option Z * CS * npf_cache_t) :=
  match fs with
  | [] => Some (None, s, npc)
  | f :: fs =>
      match fa_inspect f with
      | None => conn_loop fs s npc di
      | Some g =>
          match g s npc di with
          | None => None
          | Some (Some con, s, npc) => Some (Some con, s, npc)
          | Some (None, s, npc) => conn_loop fs s npc di
          end
      end
  end.

Definition npf_alg_conn (aset : npf_algset) (s : CS) (npc : npf_cache_t) (di : Z) : option (option Z * CS * npf_cache_t) :=
  conn_loop (take (alg_count aset) (alg_funcs aset)) s npc di.

Definition npf_alg_destroy (aset : npf_algset) (a : AS) (alg : nat) (nt : NT) (con : Z) : AS :=
  match alg_funcs aset !! alg ≫= fa_destroy with
  | None => a
  | Some d => d a nt con
  end.

Definition npf_alg_export (aset : npf_algset) : list string := omap id (take (alg_count aset) (alg_list aset)).

(** ** The slots *)

Record alg_wf (aset : npf_algset) : Prop := {
  aw_len : length (alg_list aset) = NPF_MAX_ALGS ∧ length (alg_funcs aset) = NPF_MAX_ALGS;
  aw_names : ∀ i j n, alg_list aset !! i = Some (Some n) → alg_list aset !! j = Some (Some n) → i = j;
  aw_count : ∀ i n, alg_list aset !! i = Some (Some n) → (i < alg_count aset)%nat;
  aw_free : ∀ i, alg_list aset !! i = Some None → alg_funcs aset !! i = Some no_funcs;
}.

Lemma find_slot_spec l x : ∀ k, match find_slot l k x with
  | Some i => (k <= i)%nat ∧ l !! (i - k)%nat = Some x
  | None => x ∉ l
  end.
Proof.
  induction l as [|y l IH]; intros k; simpl; [set_solver|]. case_decide as E.
  - subst. split; [lia|]. by rewrite Nat.sub_diag.
  - specialize (IH (S k)). destruct (find_slot l (S k) x) as [i|]; [|set_solver]. destruct IH as [Hk Hi].
    split; [lia|]. by replace (i - k)%nat with (S (i - S k)) by lia.
Qed.

Lemma npf_alg_lookup_spec aset name i : alg_wf aset →
  npf_alg_lookup aset name = Some i ↔ alg_list aset !! i = Some (Some name).
Proof.
  intros Hw. unfold npf_alg_lookup. pose proof (find_slot_spec (take (alg_count aset) (alg_list aset)) (Some name) 0) as H.
  destruct (find_slot _ _ _) as [j|].
  - destruct H as [_ Hj]. rewrite Nat.sub_0_r in Hj. apply lookup_take_Some in Hj as [Hj _]. split.
    + by intros [= ->].
    + intros Hi. f_equal. by apply (aw_names _ Hw j i name).
  - split; [done|]. intros Hi. exfalso. apply H. apply (list_elem_of_lookup_2 _ i). apply lookup_take_Some. split; [done|].
    by apply (aw_count _ Hw i name).
Qed.

Lemma npf_alg_init_wf : alg_wf npf_alg_init.
Proof.
  split; unfold npf_alg_init; cbn [alg_list alg_funcs alg_count]; rewrite ?length_replicate; try done;
    try (intros; apply lookup_replicate in H as [? _]; done).
  intros i Hi. apply lookup_replicate in Hi as [_ Hi]. by apply lookup_replicate.
Qed.

Lemma npf_alg_register_wf aset name funcs : alg_wf aset → alg_wf (snd (npf_alg_register aset name funcs)).
Proof.
  intros Hw. unfold npf_alg_register. destruct (npf_alg_lookup aset name) eqn:El; [done|].
  pose proof (find_slot_spec (alg_list aset) None 0) as Hs. destruct (find_slot _ _ _) as [i|]; [|done]. cbn [snd].
  destruct Hs as [_ Hi]. rewrite Nat.sub_0_r in Hi. pose proof (lookup_lt_Some _ _ _ Hi) as Hlt.
  pose proof Hw as [[L1 L2] Hn Hc Hf].
  assert (∀ j, alg_list aset !! j ≠ Some (Some name)) as Hnew
    by (intros j Hj; apply (npf_alg_lookup_spec aset name j Hw) in Hj; congruence).
  assert (∀ j, <[i := Some name]> (alg_list aset) !! j = if decide (j = i) then Some (Some name) else alg_list aset !! j) as HL
    by (intros j; case_decide; [subst; by apply list_lookup_insert_eq|by apply list_lookup_insert_ne]).
  split; cbn [alg_list alg_funcs alg_count]; rewrite ?length_insert; try done.
  - intros j k n. rewrite !HL. repeat case_decide; subst; try done; [..|apply Hn].
    + intros [= <-] Hx. by apply Hnew in Hx.
    + intros Hx [= <-]. by apply Hnew in Hx.
  - intros j n. rewrite HL. case_decide; [subst; lia|]. intros Hj. pose proof (Hc j n Hj). lia.
  - intros j. rewrite HL. case_decide as E; [done|]. rewrite list_lookup_insert_ne by congruence. apply Hf.
Qed.

Lemma npf_alg_unregister_wf {X} (freealg : npf_algset → X → nat → X) aset x i : alg_wf aset → (i < NPF_MAX_ALGS)%nat →
  alg_wf (fst (npf_alg_unregister freealg aset x i)).
Proof.
  intros [[L1 L2] Hn Hc Hf] Hi. unfold npf_alg_unregister. cbn [alg_list alg_funcs alg_count fst].
  assert (∀ j, <[i := None]> (alg_list aset) !! j = if decide (j = i) then Some None else alg_list aset !! j) as HL
    by (intros j; case_decide; [subst; apply list_lookup_insert_eq; lia|by apply list_lookup_insert_ne]).
  split; cbn [alg_list alg_funcs alg_count]; rewrite ?length_insert; try done.
  - intros j k n. rewrite !HL. repeat case_decide; try done. apply Hn.
  - intros j n. rewrite HL. case_decide; [done|]. apply Hc.
  - intros j. rewrite HL. case_decide as E.
    + subst j. intros _. rewrite list_insert_insert_eq. apply list_lookup_insert_eq. lia.
    + intros Hj. rewrite !list_lookup_insert_ne by congruence. by apply Hf.
Qed.

(** Registration of ALGs.  With the slots well-formed (as they are
    initially and stay), registration of a new name takes a slot as long as
    one is free, refuses a name in use, and makes the name found at that slot;
    unregistration frees the slot, so that the name is not found and the
    functions of the ALG are not called any more; neither affects other ALGs. *)
Theorem npf_alg_registration {X} (freealg : npf_algset → X → nat → X) (aset : npf_algset) (x : X) name funcs :
  alg_wf aset →
  (npf_alg_lookup aset name ≠ None → npf_alg_register aset name funcs = (None, aset)) ∧
  (npf_alg_lookup aset name = None → None ∈ alg_list aset →
   ∃ i aset', npf_alg_register aset name funcs = (Some i, aset') ∧ alg_wf aset' ∧
     npf_alg_lookup aset' name = Some i ∧ alg_funcs aset' !! i = Some funcs ∧
     (∀ n, n ≠ name → npf_alg_lookup aset' n = npf_alg_lookup aset n) ∧
     let '(aset'', _) := npf_alg_unregister freealg aset' x i in
     alg_wf aset'' ∧ npf_alg_lookup aset'' name = None ∧ alg_funcs aset'' !! i = Some no_funcs ∧
     ∀ n, n ≠ name → npf_alg_lookup aset'' n = npf_alg_lookup aset n).
Proof.
  intros Hw. split.
  - intros Hl. unfold npf_alg_register. by destruct (npf_alg_lookup aset name).
  - intros Hl Hfree. pose proof (npf_alg_register_wf aset name funcs Hw) as Hw'. unfold npf_alg_register in *. rewrite Hl in *.
    pose proof (find_slot_spec (alg_list aset) None 0) as Hs. destruct (find_slot _ _ _) as [i|]; [|done].
    destruct Hs as [_ Hi]. rewrite Nat.sub_0_r in Hi. pose proof (lookup_lt_Some _ _ _ Hi) as Hlt.
    pose proof (proj1 (aw_len _ Hw)) as L1. pose proof (proj2 (aw_len _ Hw)) as L2. cbn [snd] in Hw'.
    set (aset' := mk_algset _ _ _) in *. exists i, aset'.
    pose proof (npf_alg_unregister_wf freealg aset' x i Hw' ltac:(lia)) as Hw''.
    assert (∀ A B n, alg_wf A → alg_wf B → (∀ j, alg_list A !! j = Some (Some n) ↔ alg_list B !! j = Some (Some n)) →
      npf_alg_lookup A n = npf_alg_lookup B n) as Hext.
    { intros A B n HA HB HAB. apply option_eq. intros j. by rewrite (npf_alg_lookup_spec A n j HA), (npf_alg_lookup_spec B n j HB). }
    assert (∀ n j, n ≠ name → alg_list aset' !! j = Some (Some n) ↔ alg_list aset !! j = Some (Some n)) as Hother.
    { intros n j Hn. unfold aset'. cbn [alg_list]. destruct (decide (j = i)) as [->|]; [|by rewrite list_lookup_insert_ne].
      rewrite list_lookup_insert_eq by done. rewrite Hi. split; congruence. }
    split; [done|]. split; [done|].
    assert (alg_list aset' !! i = Some (Some name)) as Hname by (by apply list_lookup_insert_eq).
    split; [by apply npf_alg_lookup_spec|]. split; [apply list_lookup_insert_eq; lia|].
    split; [intros n Hn; apply Hext; try done; intros j; by apply Hother|].
    destruct (npf_alg_unregister freealg aset' x i) as [aset'' x'] eqn:Eu.
    assert (alg_list aset'' = <[i := None]> (alg_list aset')) as HL by (unfold npf_alg_unregister in Eu; by injection Eu as <- _).
    assert (alg_list aset'' !! i = Some None) as Hi'' by (rewrite HL; apply list_lookup_insert_eq; by eapply lookup_lt_Some).
    split; [done|]. split_and!.
    + destruct (npf_alg_lookup aset'' name) as [j|] eqn:Ej; [|done]. apply npf_alg_lookup_spec in Ej; [|done].
      destruct (decide (j = i)) as [->|Hne]; [congruence|]. rewrite HL, list_lookup_insert_ne in Ej by congruence.
      by destruct (aw_names _ Hw' i j name Hname Ej).
    + by apply (aw_free _ Hw'').
    + intros n Hn. apply Hext; [done|done|]. intros j. rewrite <- (Hother n j Hn), HL.
      destruct (decide (j = i)) as [->|]; [|by rewrite list_lookup_insert_ne]. rewrite <- HL, Hi'', Hname. split; congruence.
Qed.

End alg.

Lemma npf_alg_registration_witness :
  ∃ i aset', npf_alg_register (npf_alg_init (AS := unit) (NT := unit) (CS := unit)) "icmp" no_funcs = (Some i, aset') ∧
    npf_alg_lookup aset' "icmp" = Some i.
Proof.
  destruct (npf_alg_registration (λ _ x _, x) (npf_alg_init (AS := unit) (NT := unit) (CS := unit)) tt "icmp" no_funcs
    npf_alg_init_wf) as [_ H].
  destruct H as (i & aset' & H1 & _ & H2 & _); [vm_compute; reflexivity|left|].
  exists i, aset'. split; [exact H1|exact H2].
Defined.

End Alg.
