(* ===== verification/NpfNat.v ===== *)
(** * NpfNat: network address translation (src/kern/npf_nat.c)

    A NAT policy belongs to a rule and is shared by the translation entries of
    the connections it applies to; both are heap objects.  A policy counts the
    references of its rule and of its entries; the last release frees it.  Freed
    objects leave the heap; an access to one, like a failed assertion, sets
    [nat_fault].  The heaps, the port map, the private state of the ALGs and the
    rule procedures are the state [nat_env]: it is what connections see of NAT
    (the instance [nat_conn_env] of [conn_env]), and what rules see of it
    together with the connections (the instance [nat_rule_env] of [rule_env]). *)

From S2P Require Import Prelude Nbuf Cache Cksum Addr Rewrite Tcpopt StateTcp State IfMap ConnKey Thmap Portmap Ruleset Tableset Conn Nvlist Rproc Alg.
From stdpp Require Import strings.
Open Scope Z_scope.
Open Scope npf_scope.

Module NpfNat.
Export Conn Portmap Tableset Rproc Nvlist Alg.

(** NPF_NATIN and NPF_NATOUT are defined with the connections. *)
Definition NPF_NAT_PORTS : Z := 0x01.
Definition NPF_NAT_PORTMAP : Z := 0x02.
Definition NPF_NAT_STATIC : Z := 0x04.
Definition NPF_NAT_PRIVMASK : Z := 0x0f000000.
Definition NPF_NAT_USETABLE : Z := 0x01000000 &&& NPF_NAT_PRIVMASK.

Definition NPF_ALGO_NONE : Z := 0.
Definition NPF_ALGO_NETMAP : Z := 1.
Definition NPF_ALGO_IPHASH : Z := 2.
Definition NPF_ALGO_RR : Z := 3.
Definition NPF_ALGO_NPT66 : Z := 4.

(** [n_aux] is the union of [n_rr_idx] (32 bits) and [n_npt66_adj] (its low
    16 bits). *)
Record npf_natpolicy := mk_np {
  n_nat_list : list Z;
  n_refcnt : Z;
  n_id : Z;
  n_type : Z;
  n_flags : Z;
  n_alen : Z;
  n_taddr : npf_addr_t;
  n_tmask : Z;
  n_tport : Z;
  n_tid : Z;
  n_algo : Z;
  n_aux : Z;
}.

Definition n_rr_idx (np : npf_natpolicy) : Z := n_aux np.
Definition n_npt66_adj (np : npf_natpolicy) : Z := u16 (n_aux np).

Record npf_nat := mk_nat {
  nt_natpolicy : Z;
  nt_ifid : Z;
  nt_alen : Z;
  nt_taddr : npf_addr_t;
  nt_oaddr : npf_addr_t;
  nt_oport : Z;
  nt_tport : Z;
  nt_alg : option nat;
  nt_alg_arg : Z;
  nt_conn : Z;
}.

Definition set_list (l : list Z) (n : Z) (np : npf_natpolicy) : npf_natpolicy :=
  mk_np l n (n_id np) (n_type np) (n_flags np) (n_alen np) (n_taddr np) (n_tmask np) (n_tport np) (n_tid np)
    (n_algo np) (n_aux np).
Definition set_np_id (id : Z) (np : npf_natpolicy) : npf_natpolicy :=
  mk_np (n_nat_list np) (n_refcnt np) id (n_type np) (n_flags np) (n_alen np) (n_taddr np) (n_tmask np) (n_tport np)
    (n_tid np) (n_algo np) (n_aux np).
Definition set_aux (aux : Z) (np : npf_natpolicy) : npf_natpolicy :=
  mk_np (n_nat_list np) (n_refcnt np) (n_id np) (n_type np) (n_flags np) (n_alen np) (n_taddr np) (n_tmask np)
    (n_tport np) (n_tid np) (n_algo np) aux.
Definition set_alg (alg : option nat) (arg : Z) (nt : npf_nat) : npf_nat :=
  mk_nat (nt_natpolicy nt) (nt_ifid nt) (nt_alen nt) (nt_taddr nt) (nt_oaddr nt) (nt_oport nt) (nt_tport nt) alg arg
    (nt_conn nt).

(** [npf_nat_setalg], [npf_nat_getalg], [npf_nat_getalgarg]. *)
Definition npf_nat_setalg (nt : npf_nat) (alg : nat) (arg : Z) : npf_nat := set_alg (Some alg) arg nt.
Definition npf_nat_getalg (nt : npf_nat) : option nat := nt_alg nt.
Definition npf_nat_getalgarg (nt : npf_nat) : Z := nt_alg_arg nt.

(** [npf_nat_gettrans] and [npf_nat_getorig] on an entry. *)
Definition nat_trans (nt : npf_nat) : npf_addr_t * Z := (nt_taddr nt, nt_tport nt).
Definition npf_nat_getorig (nt : npf_nat) : npf_addr_t * Z := (nt_oaddr nt, nt_oport nt).

(** The comparison of the raw bytes from [n_type] to the end of the structure. *)
Definition natpolicy_eq (np mnp : npf_natpolicy) : bool :=
  (n_type np =? n_type mnp) && (n_flags np =? n_flags mnp) && (n_alen np =? n_alen mnp) &&
  bool_decide (n_taddr np = n_taddr mnp) && (n_tmask np =? n_tmask mnp) && (n_tport np =? n_tport mnp) &&
  (n_tid np =? n_tid mnp) && (n_algo np =? n_algo mnp) && (n_aux np =? n_aux mnp).

Definition npf_nat_which (type : Z) (flow : npf_flow_t) : npf_which :=
  if type =? NPF_NATOUT then match flow with NPF_FLOW_FORW => NPF_SRC | NPF_FLOW_BACK => NPF_DST end
  else match flow with NPF_FLOW_FORW => NPF_DST | NPF_FLOW_BACK => NPF_SRC end.

(** The address of the packet, [alen] bytes of it. *)
Definition npc_addr (npc : npf_cache_t) (which : npf_which) : npf_addr_t :=
  rd_words (pkt npc) (npc_ips npc which) (Z.to_nat (npc_alen npc / 4)).

Definition npf_nat_algo_netmap (npc : npf_cache_t) (np : npf_natpolicy) (which : npf_which) : npf_addr_t :=
  let addr := npf_addr_mask (n_taddr np) (n_tmask np) (npc_alen npc) [] in
  npf_addr_bitor (npc_addr npc which) (n_tmask np) (npc_alen npc) addr.

(** ** Policies in the configuration *)

(** A copy of up to 16 bytes into a zeroed address, and the bytes back. *)
Definition addr_of_bytes (b : list Z) : npf_addr_t := rd_words (b ++ replicate 16 0) 0 4.
Definition bytes_of_addr (a : npf_addr_t) (alen : Z) : list Z := take (Z.to_nat alen) (put_words (replicate 16 0) 0 a).

Section config.
Context {NV : Type} `{NO : nvlist_ops NV}.

(** The policy described by the configuration, [None] where it is refused. *)
Definition natpolicy_parse (nv : NV) : option npf_natpolicy :=
  let type := u32 (dnvlist_get_number nv "type" 0) in
  let flags := u32 (dnvlist_get_number nv "flags" 0) &&& u32 (Z.lnot NPF_NAT_PRIVMASK) in
  let id := dnvlist_get_number nv "nat-policy" 0 in
  if negb (xorb (type =? NPF_NATIN) (type =? NPF_NATOUT)) then None else
  tgt ← (if nvlist_exists_number nv "nat-table-id" then
           if flag flags NPF_NAT_STATIC then None
           else Some (flags ||| NPF_NAT_USETABLE, 0, replicate 4 0, NPF_NO_NETMASK, u32 (dnvlist_get_number nv "nat-table-id" 0))
         else
           match dnvlist_get_binary nv "nat-addr" with
           | None => None
           | Some addr =>
               let len := Z.of_nat (length addr) in
               if (len =? 0) || (16 <? len) then None
               else
                 let tmask := u8 (dnvlist_get_number nv "nat-mask" NPF_NO_NETMASK) in
                 if negb (npf_netmask_check len tmask =? 0) then None
                 else Some (flags, len, addr_of_bytes addr, tmask, 0)
           end);
  let '(flags, alen, taddr, tmask, tid) := tgt in
  let tport := u16 (dnvlist_get_number nv "nat-port" 0) in
  let algo := u32 (dnvlist_get_number nv "nat-algo" 0) in
  aux ← (if algo =? NPF_ALGO_NPT66 then Some (u16 (dnvlist_get_number nv "npt66-adj" 0))
         else if algo =? NPF_ALGO_NETMAP then Some 0
         else if negb (tmask =? NPF_NO_NETMASK) then None else Some 0);
  Some (mk_np [] 1 id type flags alen taddr tmask tport tid algo aux).

Definition npf_natpolicy_export (np : npf_natpolicy) (nv : NV) : NV :=
  let nv := nvlist_add_number nv "nat-policy" (n_id np) in
  let nv := nvlist_add_number nv "type" (n_type np) in
  let nv := nvlist_add_number nv "flags" (n_flags np) in
  let nv := if flag (n_flags np) NPF_NAT_USETABLE then nvlist_add_number nv "nat-table-id" (n_tid np)
            else nvlist_add_number (nvlist_add_binary nv "nat-addr" (bytes_of_addr (n_taddr np) (n_alen np)))
                   "nat-mask" (n_tmask np) in
  let nv := nvlist_add_number nv "nat-port" (n_tport np) in
  let nv := nvlist_add_number nv "nat-algo" (n_algo np) in
  if n_algo np =? NPF_ALGO_NPT66 then nvlist_add_number nv "npt66-adj" (n_npt66_adj np) else nv.

End config.

(** ** The state *)

Section nat.
Context {MB : npf_mbufops_t} {TM PM TB LP CD AS W EP : Type}.
Context {TO : thmap_ops (Z * npf_flow_t) TM} {TL : thmap_laws (Z * npf_flow_t) TM}.
Context {PO : thmap_ops Z PM} {PL : thmap_laws Z PM} {BO : thmap_ops npf_tblent TB} {BL : thmap_laws npf_tblent TB}.
Context {LO : lpm_ops npf_tblent LP} {LL : lpm_laws npf_tblent LP} {CO : cdbr_ops CD}.

Record nat_env := mk_nenv {
  policies : gmap Z npf_natpolicy;
  nats : gmap Z npf_nat;
  nat_next : Z;                       (* the next fresh object *)
  portmap : npf_portmap (M := PM);
  alg_state : AS;
  rps : rproc_sys (W := W) (P := EP);
  nat_create : Z;                     (* NPF_STAT_NAT_CREATE *)
  nat_destroy : Z;                    (* NPF_STAT_NAT_DESTROY *)
  nat_fault : bool;
}.

(** The system: the connections with their NAT state. *)
Abbreviation nsys := (conn_sys (TM := TM) (X := nat_env)).

Definition set_policies (E : nat_env) (m : gmap Z npf_natpolicy) : nat_env :=
  mk_nenv m (nats E) (nat_next E) (portmap E) (alg_state E) (rps E) (nat_create E) (nat_destroy E) (nat_fault E).
Definition set_nats (E : nat_env) (m : gmap Z npf_nat) : nat_env :=
  mk_nenv (policies E) m (nat_next E) (portmap E) (alg_state E) (rps E) (nat_create E) (nat_destroy E) (nat_fault E).
Definition set_portmap (E : nat_env) (pm : npf_portmap (M := PM)) : nat_env :=
  mk_nenv (policies E) (nats E) (nat_next E) pm (alg_state E) (rps E) (nat_create E) (nat_destroy E) (nat_fault E).
Definition set_alg_state (E : nat_env) (a : AS) : nat_env :=
  mk_nenv (policies E) (nats E) (nat_next E) (portmap E) a (rps E) (nat_create E) (nat_destroy E) (nat_fault E).
Definition set_rps (E : nat_env) (r : rproc_sys (W := W) (P := EP)) : nat_env :=
  mk_nenv (policies E) (nats E) (nat_next E) (portmap E) (alg_state E) r (nat_create E) (nat_destroy E) (nat_fault E).
Definition nfault (E : nat_env) : nat_env :=
  mk_nenv (policies E) (nats E) (nat_next E) (portmap E) (alg_state E) (rps E) (nat_create E) (nat_destroy E) true.
Definition nat_stats (E : nat_env) (c d : Z) : nat_env :=
  mk_nenv (policies E) (nats E) (nat_next E) (portmap E) (alg_state E) (rps E) (nat_create E + c) (nat_destroy E + d)
    (nat_fault E).

Definition set_env (s : nsys) (E : nat_env) : nsys :=
  mk_csys (conns s) (conn_db s) (conn_tracking s) (worker_wait_time s) (next_conn s) (pool_used s) (conn_create s)
    (conn_destroy s) E.

(** ** Policies *)

Definition npf_natpolicy_create {NV} `{nvlist_ops NV} (E : nat_env) (nv : NV) : option Z * nat_env :=
  match natpolicy_parse nv with
  | None => (None, E)
  | Some np =>
      let p := nat_next E in
      (Some p, mk_nenv (<[p := np]> (policies E)) (nats E) (p + 1) (portmap E) (alg_state E) (rps E) (nat_create E)
                 (nat_destroy E) (nat_fault E))
  end.

Definition npf_natpolicy_release (E : nat_env) (p : Z) : nat_env :=
  match policies E !! p with
  | None => nfault E
  | Some np =>
      if n_refcnt np <=? 0 then nfault E else
      let n := u32 (n_refcnt np - 1) in
      if negb (n =? 0) then set_policies E (<[p := set_list (n_nat_list np) n np]> (policies E))
      else match n_nat_list np with
           | [] => set_policies E (delete p (policies E))
           | _ => nfault E
           end
  end.

(** Expire the connections of the entries. *)
Fixpoint expire_list (l : list Z) (s : nsys) : nsys :=
  match l with
  | [] => s
  | p :: l =>
      match nats (env s) !! p with
      | None => set_env s (nfault (env s))
      | Some nt => expire_list l (npf_conn_expire s (nt_conn nt))
      end
  end.

Definition npf_natpolicy_destroy (s : nsys) (p : Z) : nsys :=
  match policies (env s) !! p with
  | None => set_env s (nfault (env s))
  | Some np =>
      let s := if 1 <? n_refcnt np then expire_list (n_nat_list np) s else s in
      set_env s (npf_natpolicy_release (env s) p)
  end.

Definition npf_natpolicy_cmp (E : nat_env) (p m : Z) : bool :=
  match policies E !! p, policies E !! m with
  | Some np, Some mnp => natpolicy_eq np mnp
  | _, _ => false
  end.

Definition npf_nat_setid (E : nat_env) (p id : Z) : nat_env := set_policies E (alter (set_np_id id) p (policies E)).
Definition npf_nat_getid (E : nat_env) (p : Z) : Z := match policies E !! p with Some np => n_id np | None => 0 end.

(** ** Translation entries *)

Section algs.
(** The registered ALGs. *)
Context (algs : npf_algset (AS := AS) (NT := npf_nat) (CS := nsys)).
(** Whether memory for a bitmap of the port map is available. *)
Context (kmem : bool).

Fixpoint freealg_list (l : list Z) (alg : nat) (E : nat_env) : nat_env :=
  match l with
  | [] => E
  | p :: l =>
      match nats E !! p with
      | None => nfault E
      | Some nt =>
          freealg_list l alg
            (if decide (nt_alg nt = Some alg) then
               set_nats (set_alg_state E (npf_alg_destroy algs (alg_state E) alg nt (nt_conn nt)))
                 (<[p := set_alg None (nt_alg_arg nt) nt]> (nats E))
             else E)
      end
  end.

Definition npf_nat_freealg (E : nat_env) (p : Z) (alg : nat) : nat_env :=
  match policies E !! p with
  | None => nfault E
  | Some np => freealg_list (n_nat_list np) alg E
  end.

(** [npf_ruleset_freealg] *)
Fixpoint npf_ruleset_freealg (H : gmap Z npf_rule) (all : list Z) (E : nat_env) (alg : nat) : nat_env :=
  match all with
  | [] => E
  | rl :: all =>
      match H !! rl ≫= r_natp with
      | None => npf_ruleset_freealg H all E alg
      | Some np => npf_ruleset_freealg H all (npf_nat_freealg E np alg) alg
      end
  end.

Definition npf_nat_destroy (E : nat_env) (con p : Z) : nat_env :=
  match nats E !! p with
  | None => nfault E
  | Some nt =>
      match policies E !! nt_natpolicy nt with
      | None => nfault E
      | Some np =>
          let E := match npf_nat_getalg nt with
                   | Some alg => set_alg_state E (npf_alg_destroy algs (alg_state E) alg nt con)
                   | None => E
                   end in
          let E := if flag (n_flags np) NPF_NAT_PORTMAP && negb (nt_tport nt =? 0) then
                     match npf_portmap_put kmem (portmap E) (nt_alen nt) (nt_taddr nt) (nt_tport nt) with
                     | Some pm => set_portmap E pm
                     | None => nfault E
                     end
                   else E in
          let E := nat_stats E 0 1 in
          let E := set_policies E (alter (λ np, set_list (list_remove p (n_nat_list np)) (n_refcnt np) np)
                                     (nt_natpolicy nt) (policies E)) in
          let E := npf_natpolicy_release E (nt_natpolicy nt) in
          set_nats E (delete p (nats E))
      end
  end.

(** What connections and rules use. *)
#[local] Instance nat_conn_env : conn_env nat_env := {
  env_nat_destroy E con nt := npf_nat_destroy E con nt;
  env_rproc_release E rp := set_rps E (npf_rproc_release (rps E) rp);
  env_nat_gettrans E nt := match nats E !! nt with Some nt => nat_trans nt | None => ([], 0) end;
}.

#[local] Instance nat_rule_env : rule_env nsys := {
  natpolicy_cmp s p m := npf_natpolicy_cmp (env s) p m;
  nat_setid s p id := set_env s (npf_nat_setid (env s) p id);
  nat_getid s p := npf_nat_getid (env s) p;
  natpolicy_destroy s p := npf_natpolicy_destroy s p;
  rproc_acquire s rp := set_env s (set_rps (env s) (npf_rproc_acquire (rps (env s)) rp));
  rproc_release s rp := set_env s (set_rps (env s) (npf_rproc_release (rps (env s)) rp));
}.

(** The selection of an address from a table: [inr tt] where the code would use
    a table that does not exist. *)
Definition npf_nat_getaddr (npc : npf_cache_t) (np : npf_natpolicy) (alen : Z)
    (T : gmap Z (npf_table (M := TB) (L := LP) (C := CD))) (ts : list (option Z)) :
    (option npf_addr_t * npf_natpolicy) + unit :=
  let t := npf_tableset_getbyid ts (n_tid np) in
  let '(idx, np) :=
    if n_algo np =? NPF_ALGO_RR then let i := u32 (n_rr_idx np + 1) in (i, set_aux i np)
    else (npf_addr_mix alen (npc_addr npc NPF_SRC) (npc_addr npc NPF_DST), np) in
  match t ≫= λ t, T !! t with
  | None => inr tt
  | Some t => inl (npf_table_getsome t alen idx, np)
  end.

(** The port of the packet that the policy translates. *)
Definition nat_oport (npc : npf_cache_t) (np : npf_natpolicy) : Z :=
  rd16 (pkt npc) (l4ptr npc + if n_type np =? NPF_NATOUT then 0 else 2).

(** What an allocation of a port depends on. *)
Record port_args := mk_port_args { pa_alloc : Z → bool; pa_rnd : Z }.

(** [avail] tells whether the pool has an entry.  [None]: the port map gave no
    result, which does not happen. *)
Definition npf_nat_create (T : gmap Z (npf_table (M := TB) (L := LP) (C := CD))) (ts : list (option Z))
    (avail : bool) (pa : port_args) (E : nat_env) (npc : npf_cache_t) (p con : Z) : option (option Z * nat_env) :=
  match policies E !! p with
  | None => Some (None, nfault E)
  | Some np =>
      if negb avail then Some (None, E) else
      let proto := npc_proto npc in
      let alen := npc_alen npc in
      let n := Z.to_nat (alen / 4) in
      let E := nat_stats E 1 0 in
      let tgt :=
        if flag (n_flags np) NPF_NAT_USETABLE then npf_nat_getaddr npc np alen T ts
        else if n_algo np =? NPF_ALGO_NETMAP then
          inl (Some (npf_nat_algo_netmap npc np (npf_nat_which (n_type np) NPF_FLOW_FORW)), np)
        else inl (Some (n_taddr np), np) in
      match tgt with
      | inr _ => Some (None, nfault E)
      | inl (None, np) => Some (None, set_policies E (<[p := np]> (policies E)))
      | inl (Some taddr, np) =>
          let oaddr := npc_addr npc (if n_type np =? NPF_NATOUT then NPF_SRC else NPF_DST) in
          '(oport, tport, pm) ←
            (if negb (flag (n_flags np) NPF_NAT_PORTS) || (negb (proto =? IPPROTO_TCP) && negb (proto =? IPPROTO_UDP))
             then Some (0, 0, portmap E)
             else
               let oport := nat_oport npc np in
               if flag (n_flags np) NPF_NAT_PORTMAP then
                 '(port, pm) ← npf_portmap_get kmem (pa_alloc pa) (pa_rnd pa) (portmap E) alen taddr;
                 Some (oport, port, pm)
               else Some (oport, n_tport np, portmap E));
          let nt := mk_nat p (u16 (nb_ifid (npc_nbuf npc))) alen (take n taddr) oaddr oport tport None 0 con in
          let id := nat_next E in
          Some (Some id,
                mk_nenv (<[p := set_list (id :: n_nat_list np) (n_refcnt np) np]> (policies E)) (<[id := nt]> (nats E))
                  (id + 1) pm (alg_state E) (rps E) (nat_create E) (nat_destroy E) (nat_fault E))
      end
  end.

(** The result is the error, the packet and the state of the ALGs; [None] where
    parsing the packet has none. *)
Definition npf_dnat_translate (a : AS) (npc : npf_cache_t) (nt : npf_nat) (np : npf_natpolicy) (flow : npf_flow_t) :
    option (Z * npf_cache_t * AS) :=
  let which := npf_nat_which (n_type np) flow in
  let '(addr, port) := match flow with NPF_FLOW_FORW => nat_trans nt | NPF_FLOW_BACK => npf_nat_getorig nt end in
  '(npc, a) ←
    (if flag (npc_info npc) NPC_ALG_EXEC then Some (npc, a)
     else
       '(npc, a) ← npf_alg_exec algs a (set_info npc (npc_info npc ||| NPC_ALG_EXEC)) nt flow;
       npc ← npf_recache npc; Some (npc, a));
  let '(error, npc) := npf_napt_rwr npc which addr port in
  Some (error, npc, a).

Definition npf_snat_translate (npc : npf_cache_t) (np : npf_natpolicy) (flow : npf_flow_t) : Z * npf_cache_t :=
  let which := npf_nat_which (n_type np) flow in
  if n_algo np =? NPF_ALGO_NETMAP then npf_napt_rwr npc which (npf_nat_algo_netmap npc np which) (n_tport np)
  else if n_algo np =? NPF_ALGO_NPT66 then npf_npt66_rwr npc which (n_taddr np) (n_tmask np) (n_npt66_adj np)
  else npf_napt_rwr npc which (take (Z.to_nat (npc_alen npc / 4)) (n_taddr np)) (n_tport np).

(** *** The NAT ruleset and its tables, as the active configuration has them *)

Record nat_config := mk_ncfg {
  nc_rules : gmap Z npf_rule;
  nc_natset : npf_ruleset;
  nc_tables : gmap Z (npf_table (M := TB) (L := LP) (C := CD));
  nc_tableset : list (option Z);
  nc_bpf : npf_cache_t → Z → bool;      (* the byte-code of a rule on a packet *)
}.

(** What the environment decides: whether the pools have a connection and an
    entry, the time, the choice of a port. *)
Record nat_args := mk_nargs { na_conn : bool; na_nat : bool; na_now : Z; na_port : port_args }.

Context (params : conn_params).

(** Acquires a reference on the policy. *)
Definition npf_nat_inspect (cfg : nat_config) (E : nat_env) (npc : npf_cache_t) (di : Z) : option (option Z * nat_env) :=
  rl ← npf_ruleset_inspect (nc_bpf cfg npc) di (nb_ifid (npc_nbuf npc)) (nc_rules cfg) (nc_natset cfg);
  match rl with
  | None => Some (None, E)
  | Some rl =>
      match nc_rules cfg !! rl ≫= r_natp with
      | None => Some (None, nfault E)
      | Some p =>
          match policies E !! p with
          | None => Some (None, nfault E)
          | Some np => Some (Some p, set_policies E (<[p := set_list (n_nat_list np) (u32 (n_refcnt np + 1)) np]> (policies E)))
          end
      end
  end.

Definition npf_nat_lookup (s : nsys) (npc : npf_cache_t) (con di : Z) : option (Z * npf_flow_t) * bool :=
  match conns s !! con with
  | None => (None, true)
  | Some c =>
      match npf_conn_getnat c with
      | None => (None, false)
      | Some nt =>
          match nats (env s) !! nt with
          | None => (None, true)
          | Some e =>
              if negb (nt_ifid e =? nb_ifid (npc_nbuf npc)) then (None, false) else
              match policies (env s) !! nt_natpolicy e with
              | None => (None, true)
              | Some np => (Some (nt, if n_type np =? di then NPF_FLOW_FORW else NPF_FLOW_BACK), n_refcnt np <=? 0)
              end
          end
      end
  end.

(** Associate a new entry of the policy of [src] with a connection. *)
Definition npf_nat_share_policy (cfg : nat_config) (na : nat_args) (s : nsys) (npc : npf_cache_t) (con src : Z) :
    option (option Z * nsys) :=
  match nats (env s) !! src with
  | None => Some (None, set_env s (nfault (env s)))
  | Some snt =>
      let p := nt_natpolicy snt in
      '(nt, E) ← npf_nat_create (nc_tables cfg) (nc_tableset cfg) (na_nat na) (na_port na) (env s) npc p con;
      match nt with
      | None => Some (None, set_env s E)
      | Some nt =>
          match policies E !! p with
          | None => Some (None, set_env s (nfault E))
          | Some np =>
              let E := set_policies E (<[p := set_list (n_nat_list np) (u32 (n_refcnt np + 1)) np]> (policies E)) in
              let '(ret, s) := npf_conn_setnat (set_env s E) con nt (n_type np) in
              if negb (ret =? 0) then Some (None, set_env s (npf_nat_destroy (env s) con nt))
              else Some (Some nt, s)
          end
      end
  end.

(** The label [translate:]. *)
Definition nat_translate (s : nsys) (npc : npf_cache_t) (nt di : Z) (flow : npf_flow_t) :
    option (Z * nsys * npf_cache_t) :=
  match nats (env s) !! nt with
  | None => Some (EINVAL, set_env s (nfault (env s)), npc)
  | Some e =>
      match policies (env s) !! nt_natpolicy e with
      | None => Some (EINVAL, set_env s (nfault (env s)), npc)
      | Some np =>
          npc ← (if nbuf_cksum_barrier (npc_nbuf npc) di then npf_recache npc else Some npc);
          '(error, npc, a) ← npf_dnat_translate (alg_state (env s)) npc e np flow;
          Some (error, set_env s (set_alg_state (env s) a), npc)
      end
  end.

(** The label [out:]; [ncon] is the connection established for NAT, if any. *)
Definition nat_out (ncon : option Z) (r : Z * nsys * npf_cache_t) : Z * nsys * npf_cache_t :=
  let '(error, s, npc) := r in
  match ncon with
  | None => r
  | Some con =>
      let s := if negb (error =? 0) then npf_conn_expire s con else s in
      (error, npf_conn_release s con, npc)
  end.

(** A new entry for a packet that matches policy [p]; its reference is consumed. *)
Definition nat_establish (cfg : nat_config) (na : nat_args) (s : nsys) (npc : npf_cache_t) (p con di : Z) :
    option (Z * nsys * npf_cache_t) :=
  '(nt, E) ← npf_nat_create (nc_tables cfg) (nc_tableset cfg) (na_nat na) (na_port na) (env s) npc p con;
  match nt with
  | None => Some (ENOMEM, set_env s (npf_natpolicy_release E p), npc)
  | Some nt =>
      match nats E !! nt, policies E !! p with
      | Some e, Some np =>
          let '(_, e, a) := npf_alg_match algs (alg_state E) npc e di in
          let E := set_alg_state (set_nats E (<[nt := e]> (nats E))) a in
          let '(error, s) := npf_conn_setnat (set_env s E) con nt (n_type np) in
          if negb (error =? 0) then Some (error, set_env s (npf_nat_destroy (env s) con nt), npc)
          else nat_translate s npc nt di NPF_FLOW_FORW
      | _, _ => Some (EINVAL, set_env s (nfault E), npc)
      end
  end.

Definition npf_do_nat (cfg : nat_config) (na : nat_args) (s : nsys) (npc : npf_cache_t) (con : option Z) (di : Z) :
    option (Z * nsys * npf_cache_t) :=
  if negb (npf_iscached npc NPC_IP46) || negb (npf_iscached npc NPC_LAYER4) then Some (0, s, npc) else
  let '(found, bad) := match con with Some c => npf_nat_lookup s npc c di | None => (None, false) end in
  if bad : bool then Some (EINVAL, set_env s (nfault (env s)), npc) else
  match found with
  | Some (nt, flow) => nat_translate s npc nt di flow
  | None =>
      '(np, E) ← npf_nat_inspect cfg (env s) npc di;
      let s := set_env s E in
      match np with
      | None => Some (0, s, npc)
      | Some p =>
          match policies E !! p with
          | None => Some (EINVAL, set_env s (nfault E), npc)
          | Some np =>
              if flag (n_flags np) NPF_NAT_STATIC then
                npc ← (if nbuf_cksum_barrier (npc_nbuf npc) di then npf_recache npc else Some npc);
                let '(error, npc) := npf_snat_translate npc np NPF_FLOW_FORW in
                Some (error, set_env s (npf_natpolicy_release E p), npc)
              else
                match con with
                | Some c => nat_establish cfg na s npc p c di
                | None =>
                    '(ncon, s, npc) ← npf_conn_establish params s npc di (na_now na) true (na_conn na);
                    match ncon with
                    | None => Some (ENOMEM, set_env s (npf_natpolicy_release (env s) p), npc)
                    | Some c => r ← nat_establish cfg na s npc p c di; Some (nat_out (Some c) r)
                    end
                end
          end
      end
  end.

(** *** Saving and restoring entries *)

Section io.
Context {NV : Type} `{NO : nvlist_ops NV} {IFM : Type}.
(** [npf_ifmap_copyname] and [npf_ifmap_register] of the interface map. *)
Context (ifname : IFM → Z → string) (ifreg : IFM → string → Z * IFM).

Definition npf_nat_export (m : IFM) (E : nat_env) (p : Z) : NV :=
  match nats E !! p with
  | None => nvlist_create
  | Some nt =>
      let nv := nvlist_create in
      let nv := if negb (nt_ifid nt =? 0) then nvlist_add_string nv "ifname" (ifname m (nt_ifid nt)) else nv in
      let nv := nvlist_add_number nv "alen" (nt_alen nt) in
      let nv := nvlist_add_binary nv "oaddr" (bytes_of_addr (nt_oaddr nt) (nt_alen nt)) in
      let nv := nvlist_add_number nv "oport" (nt_oport nt) in
      let nv := nvlist_add_binary nv "taddr" (bytes_of_addr (nt_taddr nt) (nt_alen nt)) in
      let nv := nvlist_add_number nv "tport" (nt_tport nt) in
      nvlist_add_number nv "nat-policy" (npf_nat_getid E (nt_natpolicy nt))
  end.

(** [findnat] is [npf_ruleset_findnat] on the NAT rules being loaded.  The copies
    of the addresses read 16 bytes from the binaries; what lies beyond their
    [alen] bytes is not determined and is not used: the model has zeros there.
    Note that [nt_alen] stays 0. *)
Definition npf_nat_import (alloc : bool) (findnat : nat_env → Z → option Z) (m : IFM) (E : nat_env) (nv : NV) (con : Z) :
    option (option Z * nat_env * IFM) :=
  match findnat E (dnvlist_get_number nv "nat-policy" (2 ^ 64 - 1)) with
  | None => Some (None, E, m)
  | Some p =>
      match policies E !! p with
      | None => Some (None, nfault E, m)
      | Some np =>
          let '(ifid, m, bad) :=
            match dnvlist_get_string nv "ifname" with
            | Some name => let '(id, m) := ifreg m name in (u16 id, m, u16 id =? 0)
            | None => (0, m, false)
            end in
          if bad : bool then Some (None, E, m) else
          let alen := dnvlist_get_number nv "alen" 0 in
          if (alen =? 0) || (16 <? alen) then Some (None, E, m) else
          match dnvlist_get_binary nv "taddr", dnvlist_get_binary nv "oaddr" with
          | Some taddr, Some oaddr =>
              if negb (Z.of_nat (length taddr) =? alen) || negb (Z.of_nat (length oaddr) =? alen) then Some (None, E, m) else
              let nt := mk_nat p ifid 0 (addr_of_bytes taddr) (addr_of_bytes oaddr)
                          (u16 (dnvlist_get_number nv "oport" 0)) (u16 (dnvlist_get_number nv "tport" 0)) None 0 con in
              '(ok, pm) ←
                (if flag (n_flags np) NPF_NAT_PORTMAP && negb (nt_tport nt =? 0)
                 then npf_portmap_take kmem alloc (portmap E) (nt_alen nt) (nt_taddr nt) (nt_tport nt)
                 else Some (true, portmap E));
              let E := set_portmap E pm in
              if negb ok then Some (None, E, m) else
              let id := nat_next E in
              Some (Some id,
                    mk_nenv (<[p := set_list (id :: n_nat_list np) (u32 (n_refcnt np + 1)) np]> (policies E))
                      (<[id := nt]> (nats E)) (id + 1) (portmap E) (alg_state E) (rps E) (nat_create E + 1) (nat_destroy E)
                      (nat_fault E), m)
          | _, _ => Some (None, E, m)
          end
      end
  end.
End io.

End algs.
End nat.

End NpfNat.
