(* ===== verification/NatRefs.v ===== *)
(** * NatRefs: references, entries and ports of NAT

    The invariant of the NAT state: a policy's reference count is the number of
    references its holders have (the rule, an operation in progress) and of its
    entries; its list holds exactly its entries; and the ports taken from the
    port map are exactly those of the entries, each of a single one.  Every
    operation of npf_nat.c keeps it, on all of its paths. *)

From S2P Require Import Prelude Nbuf Cache Cksum Addr Rewrite Tcpopt StateTcp State IfMap ConnKey Thmap Portmap Ruleset Tableset Conn Nvlist Rproc Alg NpfNat.
From stdpp Require Import strings.
Open Scope Z_scope.
Open Scope npf_scope.

Module NatRefs.
Export NpfNat.

Section refs.
Context {MB : npf_mbufops_t} {TM PM TB LP CD AS W EP : Type}.
Context {TO : thmap_ops (Z * npf_flow_t) TM} {TL : thmap_laws (Z * npf_flow_t) TM}.
Context {PO : thmap_ops Z PM} {PL : thmap_laws Z PM} {BO : thmap_ops npf_tblent TB} {BL : thmap_laws npf_tblent TB}.
Context {LO : lpm_ops npf_tblent LP} {LL : lpm_laws npf_tblent LP} {CO : cdbr_ops CD}.

Abbreviation env_t := (nat_env (PM := PM) (AS := AS) (W := W) (EP := EP)).

(** The address and the port that an entry has taken from the port map. *)
Definition owned (E : env_t) (e : npf_nat) : option (list Z * Z) :=
  match policies E !! nt_natpolicy e with
  | Some np => if flag (n_flags np) NPF_NAT_PORTMAP && negb (nt_tport e =? 0)
               then Some (addr_key (nt_alen e) (nt_taddr e), ntohs (nt_tport e)) else None
  | None => None
  end.

(** [held] are the references other than those of the entries. *)
Record nat_inv (held : Z → Z) (E : env_t) : Prop := {
  ni_ok : nat_fault E = false;
  ni_refs : ∀ p, match policies E !! p with
    | Some np => n_refcnt np = held p + Z.of_nat (length (n_nat_list np)) ∧ 0 < n_refcnt np < 2 ^ 32 ∧ 0 <= held p
    | None => held p = 0
    end;
  ni_list : ∀ p np, policies E !! p = Some np → NoDup (n_nat_list np) ∧ (length (n_taddr np) = 4%nat ∧ inw 16 (n_tport np)) ∧
    ∀ nt, nt ∈ n_nat_list np ↔ ∃ e, nats E !! nt = Some e ∧ nt_natpolicy e = p;
  ni_pol : ∀ nt e, nats E !! nt = Some e → is_Some (policies E !! nt_natpolicy e);
  ni_fresh : ∀ q, is_Some (policies E !! q) ∨ is_Some (nats E !! q) → q < nat_next E;
  ni_pm : pm_wf (portmap E);
  ni_port : ∀ nt e, nats E !! nt = Some e → inw 16 (nt_tport e);
  ni_used : ∀ key q, port_ok q →
    pm_used (portmap E) key q = true ↔ ∃ nt e, nats E !! nt = Some e ∧ owned E e = Some (key, q);
  ni_excl : ∀ nt nt' e e' o, nats E !! nt = Some e → nats E !! nt' = Some e' →
    owned E e = Some o → owned E e' = Some o → nt = nt';
}.

Lemma owned_ext E E' e : (∀ p, n_flags <$> policies E' !! p = n_flags <$> policies E !! p) → owned E' e = owned E e.
Proof.
  intros H'. unfold owned. specialize (H' (nt_natpolicy e)).
  destruct (policies E' !! nt_natpolicy e), (policies E !! nt_natpolicy e); simplify_eq/=; [|done..]. by rewrite H'.
Qed.

(** A policy with the same flags, address and list. *)
Definition same_policy (np np' : npf_natpolicy) : Prop :=
  n_flags np' = n_flags np ∧ n_nat_list np' = n_nat_list np ∧ n_taddr np' = n_taddr np ∧ n_tport np' = n_tport np.

(** Replacing a policy by one with the same entries. *)
Lemma nat_inv_policy held E p np np' h : nat_inv held E → policies E !! p = Some np → same_policy np np' →
  n_refcnt np' = h + Z.of_nat (length (n_nat_list np')) → 0 < n_refcnt np' < 2 ^ 32 → 0 <= h →
  nat_inv (upd held p h) (set_policies E (<[p := np']> (policies E))).
Proof.
  intros [H1 H2 H3 H4 H5 H6 H7 H8 H9] Hp (Hf & Hl & Ht & Htp) Hr Hb Hh.
  assert (∀ e, owned (set_policies E (<[p := np']> (policies E))) e = owned E e) as Ho.
  { intros e. apply owned_ext. intros q. cbn [policies set_policies]. rewrite lookup_insert_if. case_decide; [|done].
    subst q. rewrite Hp. simpl. by rewrite Hf. }
  split; cbn [policies nats nat_next portmap nat_fault set_policies]; try done.
  - intros q. unfold upd. rewrite lookup_insert_if. case_decide; [done|]. apply H2.
  - intros q x. rewrite lookup_insert_if. case_decide; [|apply H3]. intros [= <-]. rewrite Hl, Ht, Htp. subst q. by apply H3.
  - intros nt e He. rewrite lookup_insert_if. case_decide; [eauto|by apply (H4 nt)].
  - intros q. rewrite lookup_insert_if. case_decide; [|apply H5]. subst q. intros _. apply H5. eauto.
  - intros key q Hq. rewrite (H8 key q Hq). by setoid_rewrite Ho.
  - intros nt nt' e e' o. rewrite !Ho. apply H9.
Qed.

Lemma held_pos held E p : nat_inv held E → 0 < held p → ∃ np, policies E !! p = Some np.
Proof. intros Hi Hh. pose proof (ni_refs _ _ Hi p) as Hr. destruct (policies E !! p); [eauto|lia]. Qed.

Lemma nat_inv_ext held held' E : (∀ p, held p = held' p) → nat_inv held E → nat_inv held' E.
Proof.
  intros Hh [H1 H2 H3 H4 H5 H6 H7 H8 H9]. split; try done. intros p. rewrite <- Hh. apply H2.
Qed.

(** Freeing a policy without entries. *)
Lemma nat_inv_free held E p np : nat_inv held E → policies E !! p = Some np → n_nat_list np = [] →
  nat_inv (upd held p 0) (set_policies E (delete p (policies E))).
Proof.
  intros [H1 H2 H3 H4 H5 H6 H7 H8 H9] Hp Hl.
  assert (∀ nt e, nats E !! nt = Some e → nt_natpolicy e ≠ p) as Hno.
  { intros nt e He E0. destruct (H3 p np Hp) as (_ & _ & Hin). rewrite Hl in Hin.
    apply (not_elem_of_nil nt), Hin. eauto. }
  assert (∀ nt e, nats E !! nt = Some e → owned (set_policies E (delete p (policies E))) e = owned E e) as Ho.
  { intros nt e He. unfold owned. cbn [policies set_policies]. rewrite lookup_delete_if.
    rewrite decide_False; [done|]. by apply (Hno nt). }
  split; cbn [policies nats nat_next portmap nat_fault set_policies]; try done.
  - intros q. unfold upd. rewrite lookup_delete_if. case_decide; [done|]. apply H2.
  - intros q x. rewrite lookup_delete_if. case_decide; [done|]. apply H3.
  - intros nt e He. rewrite lookup_delete_if, decide_False; [by apply (H4 nt)|by apply (Hno nt)].
  - intros q. rewrite lookup_delete_if. case_decide; [|apply H5]. subst q. intros [[? ?]|?]; [done|]. apply H5. by right.
  - intros key q Hq. rewrite (H8 key q Hq). split; intros (nt & e & He & Hoe); exists nt, e; split; try done;
      [by rewrite (Ho nt)|by rewrite (Ho nt) in Hoe].
  - intros nt nt' e e' o He He'. rewrite (Ho nt e He), (Ho nt' e' He'). by apply H9.
Qed.

Lemma npf_natpolicy_release_inv held E p : nat_inv held E → 0 < held p →
  nat_inv (upd held p (held p - 1)) (npf_natpolicy_release E p).
Proof.
  intros Hi Hh. destruct (held_pos held E p Hi Hh) as [np Hp]. pose proof (ni_refs _ _ Hi p) as Hr. rewrite Hp in Hr.
  destruct Hr as (Hr & Hb & _). unfold npf_natpolicy_release. rewrite Hp, (proj2 (Z.leb_gt _ 0)) by lia.
  rewrite wrap_small by (unfold inw; lia). destruct (n_refcnt np - 1 =? 0) eqn:E0; bool_to_prop; cbn [negb].
  - destruct (n_nat_list np) as [|x l] eqn:El; [|simpl in Hr; lia].
    apply (nat_inv_ext (upd held p 0)); [|by apply (nat_inv_free held E p np)].
    intros q. unfold upd. case_decide; [|done]. simpl in Hr. lia.
  - apply (nat_inv_policy held E p np); [done|done|by split_and!|..]; cbn [set_list n_refcnt n_nat_list]; lia.
Qed.

Lemma natpolicy_parse_spec {NV} `{nvlist_ops NV} (nv : NV) np : natpolicy_parse nv = Some np →
  n_nat_list np = [] ∧ n_refcnt np = 1 ∧ length (n_taddr np) = 4%nat ∧ inw 16 (n_tport np).
Proof.
  unfold natpolicy_parse. destruct (negb (xorb _ _)); [done|].
  destruct (if nvlist_exists_number _ _ then _ else _) as [[[[[fl al] ta] tm] ti]|] eqn:Et; [|done]. simpl.
  destruct (if _ =? NPF_ALGO_NPT66 then _ else _); [|done]. simpl. intros [= <-]. split_and!; try done; [|by apply wrap_range]. simpl.
  destruct (nvlist_exists_number _ _); [by destruct (flag _ _); simplify_eq|].
  destruct (dnvlist_get_binary _ _) as [b|]; [|done]. destruct (_ || _); [done|]. destruct (negb _); [done|].
  simplify_eq. apply rd_words_length.
Qed.

Lemma npf_natpolicy_create_inv {NV} `{nvlist_ops NV} held E (nv : NV) p E' : nat_inv held E →
  npf_natpolicy_create E nv = (Some p, E') → nat_inv (upd held p 1) E'.
Proof.
  intros [H1 H2 H3 H4 H5 H6 H7 H8 H9]. unfold npf_natpolicy_create. destruct (natpolicy_parse nv) as [np|] eqn:Ep; [|done].
  destruct (natpolicy_parse_spec nv np Ep) as (El & Er & Ea). intros [= <- <-]. set (p := nat_next E).
  assert (policies E !! p = None) as Hp.
  { destruct (policies E !! p) eqn:X; [|done]. pose proof (H5 p ltac:(left; eauto)). unfold p in *. lia. }
  assert (∀ nt e, nats E !! nt = Some e → nt_natpolicy e ≠ p) as Hno.
  { intros nt e He X. destruct (H4 nt e He). congruence. }
  set (E' := mk_nenv _ _ _ _ _ _ _ _ _).
  assert (∀ nt e, nats E !! nt = Some e → owned E' e = owned E e) as Ho.
  { intros nt e He. unfold owned, E'. cbn [policies]. rewrite lookup_insert_if, decide_False; [done|]. by apply (Hno nt). }
  split; unfold E'; cbn [policies nats nat_next portmap nat_fault]; fold E'; try done.
  - intros q. unfold upd. rewrite lookup_insert_if. case_decide; [rewrite El, Er; simpl; lia|]. apply H2.
  - intros q x. rewrite lookup_insert_if. case_decide; [|apply H3]. intros [= <-]. rewrite El. subst q.
    split; [constructor|]. split; [done|]. intros nt. rewrite elem_of_nil. split; [done|].
    intros (e & He & X). by apply (Hno nt e He).
  - intros nt e He. rewrite lookup_insert_if. case_decide; [eauto|by apply (H4 nt)].
  - intros q. rewrite lookup_insert_if. case_decide; [lia|]. intros Hq. pose proof (H5 q Hq). lia.
  - intros key q Hq. rewrite (H8 key q Hq). split; intros (nt & e & He & Hoe); exists nt, e; split; try done;
      [by rewrite (Ho nt)|by rewrite (Ho nt) in Hoe].
  - intros nt nt' e e' o He He'. rewrite (Ho nt e He), (Ho nt' e' He'). by apply H9.
Qed.

(** A reference more, as [npf_nat_inspect] takes it. *)
Lemma acquire_inv held E p np : nat_inv held E → policies E !! p = Some np → n_refcnt np < 2 ^ 32 - 1 →
  nat_inv (upd held p (held p + 1)) (set_policies E (<[p := set_list (n_nat_list np) (u32 (n_refcnt np + 1)) np]> (policies E))).
Proof.
  intros Hi Hp Hr. pose proof (ni_refs _ _ Hi p) as Hb. rewrite Hp in Hb. destruct Hb as (Hb & ? & ?).
  apply (nat_inv_policy held E p np); [done|done|by split_and!|..]; cbn [set_list n_refcnt n_nat_list];
    rewrite ?wrap_small by (unfold inw; lia); lia.
Qed.

(** Entries whose policy, address and port are those of others. *)
Definition same_nat (e e' : npf_nat) : Prop :=
  nt_natpolicy e' = nt_natpolicy e ∧ nt_alen e' = nt_alen e ∧ nt_taddr e' = nt_taddr e ∧ nt_tport e' = nt_tport e.

Lemma nat_inv_entry held E nt e e' : nat_inv held E → nats E !! nt = Some e → same_nat e e' →
  nat_inv held (set_nats E (<[nt := e']> (nats E))).
Proof.
  intros [H1 H2 H3 H4 H5 H6 H7 H8 H9] He (S1 & S2 & S3 & S4). set (E' := set_nats _ _).
  assert (∀ x, owned E' x = owned E x) as Ho by done.
  assert (owned E e' = owned E e) as Hoe by (unfold owned; by rewrite S1, S2, S3, S4).
  assert (∀ q x', <[nt := e']> (nats E) !! q = Some x' →
    ∃ x, nats E !! q = Some x ∧ nt_natpolicy x' = nt_natpolicy x ∧ nt_tport x' = nt_tport x ∧ owned E x' = owned E x) as Hback.
  { intros q x'. rewrite lookup_insert_if. case_decide; [subst q; intros [= <-]; eauto|eauto]. }
  assert (∀ q x, nats E !! q = Some x → ∃ x', <[nt := e']> (nats E) !! q = Some x' ∧ nt_natpolicy x' = nt_natpolicy x ∧
    owned E x' = owned E x) as Hforw.
  { intros q x Hx. setoid_rewrite lookup_insert_if. case_decide; [subst q; simplify_eq; eauto|eauto]. }
  split; unfold E'; cbn [policies nats nat_next portmap nat_fault set_nats]; fold E'; try done.
  - intros p np Hp. destruct (H3 p np Hp) as (Hn & Ht & Hin). split; [done|]. split; [done|]. intros q. rewrite Hin. split.
    + intros (x & Hx & <-). destruct (Hforw q x Hx) as (x' & Hx' & Hp' & _). eauto.
    + intros (x' & Hx' & <-). destruct (Hback q x' Hx') as (x & Hx & Hp' & _). eauto.
  - intros q x' Hx'. destruct (Hback q x' Hx') as (x & Hx & -> & _). by apply (H4 q).
  - intros q [Hq|[x' Hq]]; [apply H5; by left|]. destruct (Hback q x' Hq) as (x & Hx & _). apply H5. right. eauto.
  - intros q x' Hx'. destruct (Hback q x' Hx') as (x & Hx & _ & -> & _). by apply (H7 q).
  - intros key q Hq. rewrite (H8 key q Hq). setoid_rewrite Ho. split.
    + intros (r & x & Hx & Hox). destruct (Hforw r x Hx) as (x' & Hx' & _ & Hox'). exists r, x'. by rewrite Hox'.
    + intros (r & x' & Hx' & Hox). destruct (Hback r x' Hx') as (x & Hx & _ & _ & Hox'). exists r, x. by rewrite <- Hox'.
  - intros r r' x x' o Hx Hx'. rewrite !Ho. destruct (Hback r x Hx) as (y & Hy & _ & _ & ->).
    destruct (Hback r' x' Hx') as (y' & Hy' & _ & _ & ->). by apply H9.
Qed.

(** The state of the ALGs, the rule procedures and the counters are not part of
    the invariant. *)
Definition same_core (E E' : env_t) : Prop :=
  policies E' = policies E ∧ nats E' = nats E ∧ nat_next E' = nat_next E ∧ portmap E' = portmap E ∧ nat_fault E' = nat_fault E.

Lemma nat_inv_core held E E' : same_core E E' → nat_inv held E → nat_inv held E'.
Proof.
  intros (C1 & C2 & C3 & C4 & C5) [H1 H2 H3 H4 H5 H6 H7 H8 H9].
  assert (∀ e, owned E' e = owned E e) as Ho by (intros e; unfold owned; by rewrite C1).
  split; rewrite ?C1, ?C2, ?C3, ?C4, ?C5; try done.
  - intros key q Hq. rewrite (H8 key q Hq). by setoid_rewrite Ho.
  - intros nt nt' e e' o. rewrite !Ho. apply H9.
Qed.

(** A new entry: the reference the caller holds becomes that of the entry.  Its
    port is either none of the port map's, or one that was free and is taken. *)
Lemma nat_inv_add held E p np np' e pm : nat_inv held E → policies E !! p = Some np → same_policy np np' →
  n_refcnt np' = n_refcnt np → 0 < held p → nt_natpolicy e = p → inw 16 (nt_tport e) → pm_wf pm →
  let id := nat_next E in
  let port := if flag (n_flags np) NPF_NAT_PORTMAP && negb (nt_tport e =? 0)
              then Some (addr_key (nt_alen e) (nt_taddr e), ntohs (nt_tport e)) else None in
  (∀ o, port = Some o → pm_used (portmap E) (fst o) (snd o) = false) →
  (∀ k q, port_ok q → pm_used pm k q = if decide (port = Some (k, q)) then true else pm_used (portmap E) k q) →
  nat_inv (upd held p (held p - 1))
    (mk_nenv (<[p := set_list (id :: n_nat_list np') (n_refcnt np') np']> (policies E)) (<[id := e]> (nats E)) (id + 1) pm
       (alg_state E) (rps E) (nat_create E) (nat_destroy E) (nat_fault E)).
Proof.
  intros Hi Hp (Hf & Hl & Ht & Htp) Hrc Hh Hep Htport Hwf id port Hfree Hused.
  pose proof Hi as [H1 H2 H3 H4 H5 H6 H7 H8 H9]. set (E' := mk_nenv _ _ _ _ _ _ _ _ _).
  assert (nats E !! id = None) as Hid.
  { destruct (nats E !! id) eqn:X; [|done]. pose proof (H5 id ltac:(right; eauto)). unfold id in *. lia. }
  assert (∀ x, owned E' x = owned E x) as Ho.
  { intros x. apply owned_ext. intros q. unfold E'. cbn [policies]. rewrite lookup_insert_if. case_decide; [|done].
    subst q. rewrite Hp. simpl. by rewrite Hf. }
  assert (owned E e = port) as Hoe by (unfold owned, port; by rewrite Hep, Hp).
  assert (∀ q x, nats E !! q = Some x → q ≠ id) as Hne by (intros q x Hq ->; congruence).
  split; unfold E'; cbn [policies nats nat_next portmap nat_fault]; fold E'; try done.
  - intros q. unfold upd. rewrite lookup_insert_if. case_decide; [|apply H2]. subst q. cbn [set_list n_refcnt n_nat_list].
    specialize (H2 p). rewrite Hp in H2. rewrite Hrc, Hl. simpl. lia.
  - intros q x. rewrite lookup_insert_if. case_decide as Eq.
    + subst q. intros [= <-]. cbn [set_list n_nat_list n_taddr n_tport]. rewrite Hl, Ht, Htp.
      destruct (H3 p np Hp) as (Hn & Ha & Hin). split; [apply NoDup_cons; split; [|done]; rewrite Hin; intros (y & Hy & _); congruence|].
      split; [done|]. intros nt. rewrite elem_of_cons, Hin, lookup_insert_if. case_decide as En.
      * subst nt. split; [eauto|by left].
      * split; [intros [?|?]; [done|done]|by right].
    + intros Hx. destruct (H3 q x Hx) as (Hn & Ha & Hin). split; [done|]. split; [done|]. intros nt. rewrite Hin, lookup_insert_if.
      case_decide as En; [|done]. subst nt. split; [intros (y & Hy & _); congruence|]. intros (y & [= <-] & ?). congruence.
  - intros nt x. rewrite !lookup_insert_if. case_decide as En.
    + intros [= <-]. rewrite Hep, decide_True by done. eauto.
    + intros Hx. case_decide; [eauto|by apply (H4 nt)].
  - intros q. rewrite !lookup_insert_if. unfold id. destruct (decide (q = nat_next E)) as [->|Hq]; [lia|].
    intros Hs. assert (q < nat_next E); [|lia]. apply H5. destruct (decide (q = p)) as [->|]; [eauto|done].
  - intros nt x. rewrite lookup_insert_if. case_decide; [by intros [= <-]|apply H7].
  - intros key q Hq. setoid_rewrite Ho. rewrite (Hused key q Hq). case_decide as Ed.
    + split; [|done]. intros _. exists id, e. rewrite lookup_insert_if, decide_True by done. by rewrite Hoe.
    + rewrite (H8 key q Hq). split; intros (nt & x & Hx & Hox).
      * exists nt, x. rewrite lookup_insert_if, decide_False by (by apply (Hne nt x)). done.
      * rewrite lookup_insert_if in Hx. case_decide; [simplify_eq; congruence|eauto].
  - intros nt nt' x x' o. rewrite !Ho, !lookup_insert_if.
    assert (∀ nt x, nats E !! nt = Some x → owned E x = Some o → port ≠ Some o) as Hex.
    { intros r y Hy Hoy Hpo. pose proof (Hfree o Hpo) as Hfo. destruct o as [key q]. cbn [fst snd] in Hfo.
      assert (port_ok q) as Hpq.
      { unfold port in Hpo. destruct (_ && _); [|done]. injection Hpo as <- <-.
        pose proof (bswap16_range _ Htport) as Hb. unfold inw in Hb. unfold port_ok, PORTMAP_MAX_BITS. lia. }
      assert (pm_used (portmap E) key q = true) by (apply H8; eauto). congruence. }
    repeat case_decide; subst; try done.
    + intros [= <-] Hx' Ho1 Ho2. exfalso. apply (Hex nt' x' Hx' Ho2). congruence.
    + intros Hx [= <-] Ho1 Ho2. exfalso. apply (Hex nt x Hx Ho1). congruence.
    + by apply H9.
Qed.

(** The tables that the policies use exist, and their addresses are whole. *)
Definition tables_ok (T : gmap Z (npf_table (M := TB) (L := LP) (C := CD))) (ts : list (option Z)) (E : env_t) : Prop :=
  ∀ p np, policies E !! p = Some np → flag (n_flags np) NPF_NAT_USETABLE = true →
    ∃ i t, npf_tableset_getbyid ts (n_tid np) = Some i ∧ T !! i = Some t ∧
      ∀ alen idx a, npf_table_getsome t alen idx = Some a → (nwords alen <= length a)%nat.

Lemma addr_bitor_length n : ∀ a l out, (length out <= n)%nat → length (addr_bitor_loop n a l out) = n.
Proof.
  induction n as [|n IH]; intros a l out Ho; simpl; [lia|]. destruct (next_wordmask l). simpl. rewrite IH; [done|].
  destruct out; simpl in *; lia.
Qed.

Lemma addr_mask_length n : ∀ a l out, (length out <= n)%nat → length (addr_mask_loop n a l out) = n.
Proof.
  induction n as [|n IH]; intros a l out Ho; simpl; [lia|]. destruct (next_wordmask l). simpl. rewrite IH; [done|].
  destruct out; simpl in *; lia.
Qed.

Lemma netmap_length npc np which : alen_ok (npc_alen npc) →
  length (npf_nat_algo_netmap npc np which) = nwords (npc_alen npc).
Proof.
  intros Ha. unfold npf_nat_algo_netmap, npf_addr_bitor, npf_addr_mask.
  assert (Z.to_nat (npc_alen npc >>> 2) = nwords (npc_alen npc)) as -> by (destruct Ha as [-> | ->]; vm_compute; reflexivity).
  apply addr_bitor_length. rewrite addr_mask_length; simpl; lia.
Qed.

(** The choice of the translation address: the policy may have its round-robin
    index changed. *)
Definition nat_target (T : gmap Z (npf_table (M := TB) (L := LP) (C := CD))) (ts : list (option Z)) (npc : npf_cache_t)
    (np : npf_natpolicy) : (option npf_addr_t * npf_natpolicy) + unit :=
  if flag (n_flags np) NPF_NAT_USETABLE then npf_nat_getaddr npc np (npc_alen npc) T ts
  else if n_algo np =? NPF_ALGO_NETMAP then
    inl (Some (npf_nat_algo_netmap npc np (npf_nat_which (n_type np) NPF_FLOW_FORW)), np)
  else inl (Some (n_taddr np), np).

Lemma nat_target_spec T ts held E npc p np : nat_inv held E → policies E !! p = Some np → alen_ok (npc_alen npc) →
  tables_ok T ts E →
  ∃ taddr np', nat_target T ts npc np = inl (taddr, np') ∧ same_policy np np' ∧ n_refcnt np' = n_refcnt np ∧
    n_type np' = n_type np ∧ ∀ a, taddr = Some a → addr_arg (npc_alen npc) a.
Proof.
  intros Hi Hp Ha HT. destruct (ni_list _ _ Hi p np Hp) as (_ & (Hl & _) & _). unfold nat_target.
  destruct (flag (n_flags np) NPF_NAT_USETABLE) eqn:Ef; [|destruct (n_algo np =? NPF_ALGO_NETMAP)].
  - destruct (HT p np Hp Ef) as (i & t & E1 & E2 & Hlen). unfold npf_nat_getaddr. rewrite E1. simpl. rewrite E2.
    destruct (n_algo np =? NPF_ALGO_RR); eexists _, _; (split; [reflexivity|]); split_and!; try done; intros a Hs;
      split; try done; by eapply Hlen.
  - eexists _, _. split; [reflexivity|]. split_and!; try done. intros a [= <-]. split; [done|].
    by rewrite netmap_length.
  - eexists _, _. split; [reflexivity|]. split_and!; try done. intros a [= <-]. split; [done|].
    rewrite Hl. destruct Ha as [-> | ->]; vm_compute; lia.
Qed.

(** The ports of a new entry. *)
Definition nat_ports (kmem : bool) (pa : port_args) (pm : npf_portmap (M := PM)) (npc : npf_cache_t) (np : npf_natpolicy)
    (taddr : npf_addr_t) : option (Z * Z * npf_portmap (M := PM)) :=
  let proto := npc_proto npc in
  if negb (flag (n_flags np) NPF_NAT_PORTS) || (negb (proto =? IPPROTO_TCP) && negb (proto =? IPPROTO_UDP))
  then Some (0, 0, pm)
  else
    let oport := nat_oport npc np in
    if flag (n_flags np) NPF_NAT_PORTMAP then
      '(port, pm) ← npf_portmap_get kmem (pa_alloc pa) (pa_rnd pa) pm (npc_alen npc) taddr;
      Some (oport, port, pm)
    else Some (oport, n_tport np, pm).

Lemma addr_key_take alen (a : npf_addr_t) : addr_key alen (take (Z.to_nat (alen / 4)) a) = addr_key alen a.
Proof. unfold addr_key, nwords. by rewrite take_take, Nat.min_id. Qed.

Lemma nat_ports_spec kmem pa pm npc np taddr : pm_wf pm → addr_arg (npc_alen npc) taddr → 0 <= pa_rnd pa → inw 16 (n_tport np) →
  let key := addr_key (npc_alen npc) taddr in
  ∃ oport tport pm', nat_ports kmem pa pm npc np taddr = Some (oport, tport, pm') ∧ inw 16 tport ∧ pm_wf pm' ∧
    same_params pm pm' ∧
    let port := if flag (n_flags np) NPF_NAT_PORTMAP && negb (tport =? 0) then Some (key, ntohs tport) else None in
    (∀ o, port = Some o → pm_used pm (fst o) (snd o) = false) ∧
    (∀ k q, port_ok q → pm_used pm' k q = if decide (port = Some (k, q)) then true else pm_used pm k q).
Proof.
  intros Hwf Ha Hr Htp key. unfold nat_ports. destruct (negb _ || _).
  { exists 0, 0, pm. split; [done|]. change (0 =? 0) with true. rewrite andb_false_r. by split_and!. }
  destruct (flag (n_flags np) NPF_NAT_PORTMAP) eqn:Ef.
  - destruct (npf_portmap_get_spec kmem (pa_alloc pa) (pa_rnd pa) pm (npc_alen npc) taddr Hwf Ha Hr)
      as (port & pm' & -> & Hwf' & Hsp & Hcase & _). simpl. fold key in Hcase. exists (nat_oport npc np), port, pm'.
    split; [done|]. destruct Hcase as [[-> Hsame]|(p & -> & Hnz & Hrange & Hfree & Hused)].
    + change (0 =? 0) with true. cbn [negb andb]. by split_and!.
    + rewrite (proj2 (Z.eqb_neq (htons p) 0) Hnz). cbn [negb andb]. destruct (pm_ports pm Hwf) as [? ?].
      assert (inw 16 p) as Hp by (unfold inw; lia). rewrite bswap16_involutive by done.
      split_and!; try done; [by apply bswap16_range| |].
      * intros o [= <-]. exact Hfree.
      * intros k q Hq. rewrite (Hused k q Hq).
        by destruct (decide (k = key ∧ q = p)), (decide (Some (key, p) = Some (k, q))); try done; naive_solver.
  - exists (nat_oport npc np), (n_tport np), pm. split; [done|]. simpl. by split_and!.
Qed.

Lemma npf_nat_create_eq kmem T ts avail pa (E : env_t) npc p con np : policies E !! p = Some np → avail = true →
  npf_nat_create kmem T ts avail pa E npc p con =
  let E := nat_stats E 1 0 in
  match nat_target T ts npc np with
  | inr _ => Some (None, nfault E)
  | inl (None, np) => Some (None, set_policies E (<[p := np]> (policies E)))
  | inl (Some taddr, np) =>
      '(oport, tport, pm) ← nat_ports kmem pa (portmap E) npc np taddr;
      let e := mk_nat p (u16 (nb_ifid (npc_nbuf npc))) (npc_alen npc) (take (Z.to_nat (npc_alen npc / 4)) taddr)
                 (npc_addr npc (if n_type np =? NPF_NATOUT then NPF_SRC else NPF_DST)) oport tport None 0 con in
      let id := nat_next E in
      Some (Some id, mk_nenv (<[p := set_list (id :: n_nat_list np) (n_refcnt np) np]> (policies E)) (<[id := e]> (nats E))
              (id + 1) pm (alg_state E) (rps E) (nat_create E) (nat_destroy E) (nat_fault E))
  end.
Proof. intros Hp ->. unfold npf_nat_create. by rewrite Hp. Qed.

(** What an entry keeps of the packet it is made for. *)
Definition entry_of (npc : npf_cache_t) (np : npf_natpolicy) (e : npf_nat) : Prop :=
  nt_ifid e = u16 (nb_ifid (npc_nbuf npc)) ∧ nt_alen e = npc_alen npc ∧
  nt_oaddr e = npc_addr npc (if n_type np =? NPF_NATOUT then NPF_SRC else NPF_DST) ∧
  length (nt_taddr e) = nwords (npc_alen npc) ∧
  (nt_oport e = nat_oport npc np ∨ nt_oport e = 0 ∧ nt_tport e = 0).

Lemma nat_ports_oport kmem pa pm npc np taddr oport tport pm' :
  nat_ports kmem pa pm npc np taddr = Some (oport, tport, pm') → oport = nat_oport npc np ∨ oport = 0 ∧ tport = 0.
Proof.
  unfold nat_ports. case_if; [intros [= <- <- <-]; by right|]. case_if; [|intros [= <- <- <-]; by left].
  destruct (npf_portmap_get _ _ _ _ _ _) as [[? ?]|]; [|done]. simpl. intros [= <- <- <-]. by left.
Qed.

(** [npf_nat_create]: a new entry that consumes the reference, or none. *)
Lemma npf_nat_create_spec kmem T ts avail pa held E npc p con : nat_inv held E → 0 < held p → alen_ok (npc_alen npc) →
  tables_ok T ts E → 0 <= pa_rnd pa →
  ∃ r E', npf_nat_create kmem T ts avail pa E npc p con = Some (r, E') ∧
    (∀ q, n_type <$> policies E' !! q = n_type <$> policies E !! q) ∧
    match r with
    | Some nt => nt = nat_next E ∧ nat_inv (upd held p (held p - 1)) E' ∧
        ∃ e, nats E' = <[nt := e]> (nats E) ∧ nt_conn e = con ∧ nt_natpolicy e = p ∧
          ∀ np, policies E !! p = Some np → entry_of npc np e
    | None => nat_inv held E' ∧ nats E' = nats E
    end.
Proof.
  intros Hi Hh Ha HT Hrnd. destruct (held_pos held E p Hi Hh) as [np Hp]. destruct avail.
  2:{ exists None, E. unfold npf_nat_create. by rewrite Hp. }
  rewrite (npf_nat_create_eq kmem T ts true pa E npc p con np Hp eq_refl). cbv zeta.
  destruct (nat_target_spec T ts held E npc p np Hi Hp Ha HT) as (taddr & np' & -> & Hsame & Hrc & Hty & Harg).
  assert (nat_inv held (nat_stats E 1 0)) as Hi' by (eapply nat_inv_core; [|exact Hi]; done).
  pose proof (ni_refs _ _ Hi p) as Hr. rewrite Hp in Hr. destruct Hsame as (S1 & S2 & S3 & S4).
  assert (∀ m q, n_type m = n_type np' → n_type <$> <[p := m]> (policies E) !! q = n_type <$> policies E !! q) as Htypes.
  { intros m q Hm. rewrite lookup_insert_if. case_decide; [|done]. subst q. rewrite Hp. simpl. congruence. }
  destruct taddr as [taddr|].
  - destruct (ni_list _ _ Hi p np Hp) as (_ & (_ & Htp) & _).
    destruct (nat_ports_spec kmem pa (portmap E) npc np' taddr (ni_pm _ _ Hi) (Harg _ eq_refl) Hrnd ltac:(by rewrite S4))
      as (oport & tport & pm' & Eq & Htport & Hwf' & Hsp & Hfree & Hused).
    cbn [nat_stats portmap]. rewrite Eq. simpl. eexists _, _. split; [reflexivity|]. split; [intros q; by apply Htypes|].
    split; [done|]. split; [|eexists; split; [reflexivity|]; split; [done|]; split; [done|]].
    2:{ intros np0 Hnp0. assert (np0 = np) as -> by congruence. unfold entry_of. cbn. rewrite Hty. split_and!; try done.
        - rewrite length_take. destruct (Harg _ eq_refl) as [_ ?]. unfold nwords in *. lia.
        - destruct (nat_ports_oport _ _ _ _ _ _ _ _ _ Eq) as [->|]; [left; unfold nat_oport; by rewrite Hty|by right]. }
    rewrite S1 in Hfree. rewrite S1 in Hused.
    apply (nat_inv_add held (nat_stats E 1 0) p np); try done; cbn [nt_alen nt_taddr nt_tport]; rewrite addr_key_take; done.
  - eexists _, _. split; [reflexivity|]. split; [intros q; by apply Htypes|]. split; [|done].
    apply (nat_inv_ext (upd held p (held p))); [intros q; unfold upd; by case_decide; subst|].
    apply (nat_inv_policy held (nat_stats E 1 0) p np); try done; try (rewrite Hrc, ?S2); lia || done.
Qed.

(** Removing an entry leaves its reference to be released. *)
Lemma nat_inv_del held E nt e np pm : nat_inv held E → nats E !! nt = Some e → policies E !! nt_natpolicy e = Some np →
  pm_wf pm →
  (∀ k q, port_ok q → pm_used pm k q = if decide (owned E e = Some (k, q)) then false else pm_used (portmap E) k q) →
  nat_inv (upd held (nt_natpolicy e) (held (nt_natpolicy e) + 1))
    (set_nats (set_policies (set_portmap E pm)
       (alter (λ np, set_list (list_remove nt (n_nat_list np)) (n_refcnt np) np) (nt_natpolicy e) (policies E)))
       (delete nt (nats E))).
Proof.
  intros Hi He Hp Hwf Hused. pose proof Hi as [H1 H2 H3 H4 H5 H6 H7 H8 H9]. set (p := nt_natpolicy e) in *.
  set (E' := set_nats _ _).
  assert (∀ x, owned E' x = owned E x) as Ho.
  { intros x. apply owned_ext. intros q. unfold E'. cbn [policies set_nats set_policies]. rewrite lookup_alter_if.
    case_decide; [|done]. by destruct (policies E !! q). }
  destruct (H3 p np Hp) as (Hn & Ha & Hin).
  assert (nt ∈ n_nat_list np) as Hmem by (apply Hin; eauto).
  assert (Z.of_nat (length (n_nat_list np)) = Z.of_nat (length (list_remove nt (n_nat_list np))) + 1) as Hlen.
  { pose proof (list_remove_perm nt (n_nat_list np) Hn Hmem) as Hperm. apply Permutation_length in Hperm. simpl in Hperm. lia. }
  split; unfold E'; cbn [policies nats nat_next portmap nat_fault set_nats set_policies set_portmap]; fold E'; try done.
  - intros q. unfold upd. rewrite lookup_alter_if. case_decide; [|apply H2]. subst q. rewrite Hp. cbn [fmap option_fmap option_map set_list n_refcnt n_nat_list].
    specialize (H2 p). rewrite Hp in H2. lia.
  - intros q x. rewrite lookup_alter_if. case_decide as Eq.
    + subst q. rewrite Hp. intros [= <-]. cbn [set_list n_nat_list n_taddr n_tport]. split; [by apply list_remove_NoDup|].
      split; [done|]. intros r. rewrite list_remove_elem, Hin, lookup_delete_if. case_decide; [|naive_solver].
      subst r. split; [by intros [_ []]|by intros (? & ? & _)].
    + intros Hx. destruct (H3 q x Hx) as (Hn' & Ha' & Hin'). split; [done|]. split; [done|]. intros r.
      rewrite Hin', lookup_delete_if. case_decide; [|done]. subst r. split; [|by intros (? & ? & _)].
      intros (y & Hy & Hyq). simplify_eq.
  - intros r x. rewrite lookup_delete_if. case_decide; [done|]. intros Hx. rewrite lookup_alter_if.
    case_decide; [rewrite fmap_is_Some|]; by apply (H4 r).
  - intros q. rewrite lookup_delete_if, lookup_alter_if. intros Hq. apply H5.
    destruct Hq as [Hq|Hq]; [left|right]; [by case_decide; [apply fmap_is_Some in Hq|]|by case_decide; [destruct Hq|]].
  - intros r x. rewrite lookup_delete_if. case_decide; [done|]. apply H7.
  - intros key q Hq. setoid_rewrite Ho. rewrite (Hused key q Hq). case_decide as Ed.
    + split; [done|]. intros (r & x & Hx & Hox). rewrite lookup_delete_if in Hx. case_decide; [done|].
      by destruct (H9 nt r e x (key, q) He Hx Ed Hox).
    + rewrite (H8 key q Hq). split; intros (r & x & Hx & Hox); exists r, x; rewrite lookup_delete_if in *; case_decide; try done.
      subst r. simplify_eq.
  - intros r r' x x' o. rewrite !Ho, !lookup_delete_if. repeat case_decide; try done. apply H9.
Qed.

Lemma release_set_nats (E : env_t) m p : npf_natpolicy_release (set_nats E m) p = set_nats (npf_natpolicy_release E p) m.
Proof.
  unfold npf_natpolicy_release. cbn [policies set_nats]. destruct (policies E !! p) as [np|]; [|done].
  destruct (n_refcnt np <=? 0); [done|]. destruct (negb _); [done|]. by destruct (n_nat_list np).
Qed.

Lemma release_nats (E : env_t) p : nats (npf_natpolicy_release E p) = nats E ∧ portmap (npf_natpolicy_release E p) = portmap E.
Proof.
  unfold npf_natpolicy_release. destruct (policies E !! p) as [np|]; [|done]. destruct (n_refcnt np <=? 0); [done|].
  destruct (negb _); [done|]. by destruct (n_nat_list np).
Qed.

Lemma release_types (E : env_t) p q np : policies (npf_natpolicy_release E p) !! q = Some np →
  ∃ np', policies E !! q = Some np' ∧ n_type np = n_type np'.
Proof.
  unfold npf_natpolicy_release. destruct (policies E !! p) as [x|] eqn:Ep; [|eauto].
  destruct (n_refcnt x <=? 0); [eauto|]. destruct (negb _).
  - cbn [policies set_policies]. rewrite lookup_insert_if. case_decide; [|eauto]. subst q. intros [= <-]. eauto.
  - destruct (n_nat_list x); [|eauto]. cbn [policies set_policies]. rewrite lookup_delete_if. case_decide; [done|eauto].
Qed.

(** [npf_nat_destroy] gives back the port and the reference of the entry. *)
Lemma npf_nat_destroy_spec algs kmem held (E : env_t) con nt e : nat_inv held E → nats E !! nt = Some e →
  let E' := npf_nat_destroy (TM := TM) algs kmem E con nt in
  nat_inv held E' ∧ nats E' = delete nt (nats E) ∧
  (∀ o, owned E e = Some o → pm_used (portmap E') (fst o) (snd o) = false).
Proof.
  intros Hi He. destruct (ni_pol _ _ Hi nt e He) as [np Hp]. unfold npf_nat_destroy. rewrite He, Hp.
  set (E1 := match npf_nat_getalg e with Some alg => _ | None => E end).
  assert (same_core E E1) as Hc by (unfold E1; by destruct (npf_nat_getalg e)).
  pose proof Hc as (C1 & C2 & C3 & C4 & C5). pose proof (nat_inv_core held E E1 Hc Hi) as Hi1.
  set (E2 := if _ && _ then _ else E1).
  assert (∃ pm, E2 = set_portmap E1 pm ∧ pm_wf pm ∧
    ∀ k q, port_ok q → pm_used pm k q = if decide (owned E1 e = Some (k, q)) then false else pm_used (portmap E1) k q)
    as (pm & -> & Hwf & Hused).
  { unfold E2, owned. rewrite C1, Hp. destruct (flag (n_flags np) NPF_NAT_PORTMAP && negb (nt_tport e =? 0)) eqn:Ef.
    - set (q := ntohs (nt_tport e)). pose proof (ni_port _ _ Hi nt e He) as Hpt.
      assert (nt_tport e = htons q) as Eq by (unfold q; by rewrite bswap16_involutive).
      assert (port_ok q) as Hq by (pose proof (bswap16_range _ Hpt) as Hb; unfold inw in Hb; unfold port_ok, PORTMAP_MAX_BITS, q; lia).
      assert (pm_used (portmap E) (addr_key (nt_alen e) (nt_taddr e)) q = true) as Hu.
      { apply (ni_used _ _ Hi); [done|]. exists nt, e. split; [done|]. unfold owned. rewrite Hp, Ef. by unfold q. }
      rewrite Eq, C4. destruct (npf_portmap_put_spec kmem (portmap E) (nt_alen e) (nt_taddr e) q) as (pm & -> & Hw & _ & Hpu);
        [apply (ni_pm _ _ Hi)|done| |].
      { unfold pm_used in Hu. destruct (thmap_get _ _); [eauto|done]. }
      exists pm. split; [done|]. split; [done|]. intros k r Hr. rewrite (Hpu k r Hr).
      destruct (decide (k = addr_key (nt_alen e) (nt_taddr e) ∧ r = q)) as [[-> ->]|Hd]; [by rewrite decide_True|].
      rewrite decide_False; [done|]. intros [= <- <-]. by apply Hd.
    - exists (portmap E1). split; [by destruct E1|]. split; [apply (ni_pm _ _ Hi1)|]. done. }
  assert (owned E1 e = owned E e) as Hown by (unfold owned; by rewrite C1).
  pose proof (nat_inv_del held E1 nt e np pm Hi1 ltac:(by rewrite C2) ltac:(by rewrite C1) Hwf Hused) as Hdel.
  set (p := nt_natpolicy e) in *. cbv zeta. rewrite (proj1 (release_nats _ p)), <- release_set_nats.
  set (E3 := set_nats _ _) in Hdel. set (E4 := set_nats _ _).
  assert (same_core E3 E4) as Hc34 by (unfold E3, E4; by split_and!).
  pose proof (nat_inv_core _ _ _ Hc34 Hdel) as Hi4.
  pose proof (npf_natpolicy_release_inv _ _ p Hi4) as Hrel.
  assert (0 <= held p) by (pose proof (ni_refs _ _ Hi p) as Hr; rewrite Hp in Hr; lia).
  assert (upd held p (held p + 1) p = held p + 1) as Eup by (unfold upd; by rewrite decide_True).
  specialize (Hrel ltac:(lia)). split_and!.
  - eapply nat_inv_ext; [|exact Hrel]. intros q. rewrite Eup. unfold upd. case_decide; [subst; lia|done].
  - rewrite (proj1 (release_nats _ p)). unfold E4. cbn [nats set_nats set_policies nat_stats set_portmap]. by rewrite C2.
  - intros o Ho. rewrite (proj2 (release_nats _ p)). change (portmap E4) with pm.
    destruct o as [k q]. cbn [fst snd]. rewrite Hused; [by rewrite decide_True by (by rewrite Hown)|].
    unfold owned in Ho. fold p in Ho. rewrite Hp in Ho. destruct (_ && _); [|done]. injection Ho as _ <-.
    pose proof (bswap16_range _ (ni_port _ _ Hi nt e He)) as Hb. unfold inw in Hb. unfold port_ok, PORTMAP_MAX_BITS. lia.
Qed.

End refs.
End NatRefs.
