(* ===== verification/NatSys.v ===== *)
(** * NatSys: connections and their translation entries together

    The state of NAT is the environment of the connections: an association by
    [npf_conn_setnat] gives the connection its entry, and the destruction of the
    connection destroys the entry.  The invariant of the two together: on top of
    those of the connection database (Conn.v) and of NAT (NatRefs.v), the entry
    of a connection exists and leads back to it, and every entry belongs to a
    connection.  [npf_do_nat], the garbage collector and the destruction of a
    policy keep it, so that neither side ever holds a freed object. *)

From S2P Require Import Prelude Nbuf Cache Cksum Addr Rewrite Tcpopt StateTcp State IfMap ConnKey Thmap Portmap Ruleset Tableset Conn Nvlist Rproc Alg NpfNat NatRefs.
From stdpp Require Import strings.
Open Scope Z_scope.
Open Scope npf_scope.

Module NatSys.
Export NatRefs.

Section sys.
Context {MB : npf_mbufops_t} {TM PM TB LP CD AS W EP : Type}.
Context {TO : thmap_ops (Z * npf_flow_t) TM} {TL : thmap_laws (Z * npf_flow_t) TM}.
Context {PO : thmap_ops Z PM} {PL : thmap_laws Z PM} {BO : thmap_ops npf_tblent TB} {BL : thmap_laws npf_tblent TB}.
Context {LO : lpm_ops npf_tblent LP} {LL : lpm_laws npf_tblent LP} {CO : cdbr_ops CD}.

Abbreviation env_t := (nat_env (PM := PM) (AS := AS) (W := W) (EP := EP)).
Abbreviation nsys := (conn_sys (TM := TM) (X := env_t)).

Context (algs : npf_algset (AS := AS) (NT := npf_nat) (CS := nsys)) (kmem : bool) (params : conn_params).
#[local] Hint Extern 0 (conn_env _) => exact (nat_conn_env algs kmem) : typeclass_instances.

Abbreviation cfg_t := (nat_config (TB := TB) (LP := LP) (CD := CD)).
Abbreviation set_env := NpfNat.set_env.
Implicit Types (s : nsys) (E : env_t).

(** ** The links *)

Definition natof (s : nsys) (con : Z) : option Z := conns s !! con ≫= c_nat.

Definition links (s : nsys) : Prop := ∀ con nt,
  natof s con = Some nt ↔ ∃ e, nats (env s) !! nt = Some e ∧ nt_conn e = con.

Record sys_inv (held : Z → Z) (s : nsys) : Prop := {
  si_conn : conn_inv s;
  si_marker : marker_ok s;
  si_nat : nat_inv held (env s);
  si_links : links s;
}.

Lemma links_ext s s' : (∀ con, natof s' con = natof s con) →
  (∀ nt, nt_conn <$> nats (env s') !! nt = nt_conn <$> nats (env s) !! nt) → links s → links s'.
Proof.
  intros Hn He Hl con nt. rewrite Hn, (Hl con nt). specialize (He nt).
  destruct (nats (env s') !! nt), (nats (env s) !! nt); simplify_eq/=; naive_solver.
Qed.

Lemma natof_upd s p f con : (∀ c, c_nat (f c) = c_nat c) → natof (upd_conn s p f) con = natof s con.
Proof.
  intros Hf. unfold natof. cbn [conns upd_conn set_conns]. rewrite lookup_alter_conn. case_decide; [|done].
  destruct (conns s !! con) as [c|]; [|done]. apply Hf.
Qed.

Lemma set_env_conn s E : conn_inv s → conn_inv (set_env s E).
Proof. by intros []. Qed.

(** Changes of the environment that keep the entries' connections. *)
Lemma sys_inv_env held held' s E : sys_inv held s → nat_inv held' E →
  (∀ nt, nt_conn <$> nats E !! nt = nt_conn <$> nats (env s) !! nt) → sys_inv held' (set_env s E).
Proof. intros [H1 H2 H3 H4] Hi He. split; [by apply set_env_conn|done|done|]. by apply (links_ext s). Qed.

(** Changes of the connections that keep their entries. *)
Lemma sys_inv_conn held s s' : sys_inv held s → conn_inv s' → marker_ok s' → env s' = env s →
  (∀ con, natof s' con = natof s con) → sys_inv held s'.
Proof. intros [H1 H2 H3 H4] Hc Hm He Hn. split; [done|done|by rewrite He|]. apply (links_ext s); [done|by rewrite He|done]. Qed.

Lemma sys_inv_upd held s p f : sys_inv held s → conn_inv (upd_conn s p f) → (∀ c, c_nat (f c) = c_nat c) →
  sys_inv held (upd_conn s p f).
Proof. intros Hs Hc Hf. apply (sys_inv_conn held s); [done|done|apply Hs|done|]. intros con. by apply natof_upd. Qed.

Lemma npf_conn_expire_sys held s p : sys_inv held s → sys_inv held (npf_conn_expire s p).
Proof. intros Hs. apply sys_inv_upd; [done| |done]. apply npf_conn_expire_inv, Hs. Qed.

Lemma npf_conn_release_sys held s p : sys_inv held s → sys_inv held (npf_conn_release s p).
Proof.
  intros Hs. apply sys_inv_upd; [done|apply npf_conn_release_inv, Hs|]. intros c. by case_if.
Qed.

Lemma npf_conn_setpass_sys held s p retfl rid rp : sys_inv held s → sys_inv held (npf_conn_setpass s p retfl rid rp).
Proof.
  intros Hs. apply sys_inv_upd; [done|apply npf_conn_setpass_inv, Hs|]. intros c. by destruct rp.
Qed.

(** ** Destroying connections *)

Lemma npf_conn_destroy_sys held s p c : nat_inv held (env s) → links s → conns s !! p = Some c →
  nat_inv held (env (npf_conn_destroy s p)) ∧ links (npf_conn_destroy s p).
Proof.
  intros Hi Hl Hp. unfold npf_conn_destroy. rewrite Hp. set (x := match c_nat c with Some nt => _ | None => _ end).
  assert (nat_inv held x ∧ ∀ nt, nats x !! nt = if decide (c_nat c = Some nt) then None else nats (env s) !! nt) as [Hx Hnats].
  { unfold x. destruct (c_nat c) as [nt|] eqn:En; [|done].
    destruct (proj1 (Hl p nt)) as (e & He & _); [unfold natof; by rewrite Hp|].
    destruct (npf_nat_destroy_spec (TM := TM) algs kmem held (env s) p nt e Hi He) as (H1 & H2 & _). split; [exact H1|].
    intros q. simpl. rewrite H2, lookup_delete_if. repeat case_decide; congruence. }
  set (y := match c_rproc c with Some rp => _ | None => _ end).
  assert (same_core x y) as Hc by (unfold y; by destruct (c_rproc c)).
  split; [by apply (nat_inv_core held x)|]. destruct Hc as (_ & C2 & _).
  intros con nt. unfold natof. cbn [conns env]. rewrite C2, Hnats, lookup_delete_if.
  pose proof (Hl con nt) as Hcn. unfold natof in Hcn. case_decide as Ec.
  - subst con. rewrite Hp in Hcn. simpl in Hcn. case_decide; [naive_solver|]. split; [done|]. intros He. by apply Hcn in He.
  - rewrite Hcn. case_decide as Ed; [|done]. split; [|by intros (? & ? & _)]. intros (e & He & Hne).
    destruct (proj1 (Hl p nt)) as (e' & He' & Hne'); [unfold natof; by rewrite Hp|]. congruence.
Qed.

Lemma gc_destroy_loop_sys held l : ∀ s, nat_inv held (env s) → links s →
  nat_inv held (env (gc_destroy_loop l s)) ∧ links (gc_destroy_loop l s).
Proof.
  induction l as [|p l IH]; intros s Hi Hl; simpl; [done|]. destruct (conns s !! p) as [c|] eqn:Hp; [|done].
  case_if; [done|]. set (s1 := set_db s _). by destruct (npf_conn_destroy_sys held s1 p c Hi Hl Hp) as [H1 H2]; apply IH.
Qed.

(** What a pass of the collector leaves before it destroys. *)
Definition same_nats (s s' : nsys) : Prop := env s' = env s ∧ ∀ con, natof s' con = natof s con.

Lemma same_nats_trans s s' s'' : same_nats s s' → same_nats s' s'' → same_nats s s''.
Proof. intros [H1 H2] [H3 H4]. split; [congruence|]. intros con. by rewrite H4. Qed.

Lemma same_nats_move s p : same_nats s (npf_conn_remove (to_gclist s p) p).
Proof.
  unfold npf_conn_remove, to_gclist. cbn [conns set_db]. destruct (conns s !! p); [|done]. split; [done|].
  intros con. by apply (natof_upd s p).
Qed.

Lemma gc_incr_loop_same target : ∀ s con now n, same_nats s (snd (gc_incr_loop params target s con now n)).
Proof.
  induction target as [|target IH]; intros s con now n; simpl; [by destruct con|].
  destruct con as [p|]; [|done]. destruct (conns s !! p) as [c|]; [|done]. pose proof (same_nats_move s p) as Hm.
  destruct (npf_conn_expired params c now); repeat case_decide; try done; try apply IH;
    first [exact Hm | eapply same_nats_trans; [|apply IH]; exact Hm].
Qed.

Lemma gc_flush_loop_same l : ∀ s, same_nats s (gc_flush_loop l s).
Proof.
  induction l as [|p l IH]; intros s; simpl; [done|]. eapply same_nats_trans; [apply same_nats_move|apply IH].
Qed.

Lemma npf_conndb_gc_sys held s now flush : sys_inv held s → sys_inv held (npf_conndb_gc params s now flush).
Proof.
  intros [H1 H2 H3 H4]. destruct (npf_conndb_gc_spec params s now flush H1 H2) as (H1' & H2' & _).
  assert (∃ l s1, npf_conndb_gc params s now flush = gc_destroy_loop l s1 ∧ same_nats s s1) as (l & s1 & E & Ev & Hn).
  { unfold npf_conndb_gc. set (s0 := set_db s _). assert (same_nats s s0) as H0 by done. destruct flush.
    - eexists _, _. split; [reflexivity|]. eapply same_nats_trans; [exact H0|]. apply (gc_flush_loop_same (cd_list (conn_db s0)) s0).
    - destruct (npf_conndb_gc_incr params s0 now) as [n s1] eqn:E1. eexists _, _. split; [reflexivity|].
      assert (same_nats s0 s1) as Hs1.
      { unfold npf_conndb_gc_incr in E1. destruct (cd_marker (conn_db s0)).
        - pose proof (gc_incr_loop_same (Z.to_nat (gc_step (cp_db params))) s0 (Some z) now 0) as Hg. by rewrite E1 in Hg.
        - match type of E1 with gc_incr_loop _ _ ?t ?o _ _ = _ =>
            pose proof (gc_incr_loop_same (Z.to_nat (gc_step (cp_db params))) t o now 0) as Hg end.
          rewrite E1 in Hg. exact Hg. }
      exact Hs1. }
  destruct (gc_destroy_loop_sys held l s1) as [H3' H4'].
  - by rewrite Ev.
  - apply (links_ext s); [done|by rewrite Ev|done].
  - rewrite <- E in H3', H4'. by split.
Qed.

(** ** A new entry for a connection *)

(** [npf_conn_setnat] associates the entry, or leaves the associations. *)
Lemma npf_conn_setnat_natof s p nt ntype r s' : npf_conn_setnat s p nt ntype = (r, s') →
  env s' = env s ∧
  (if r =? 0 then natof s p = None ∧ ∀ con, natof s' con = if decide (con = p) then Some nt else natof s con
   else ∀ con, natof s' con = natof s con).
Proof.
  unfold npf_conn_setnat. destruct (conns s !! p) as [c|] eqn:Hp; [|by intros [= <- <-]].
  destruct (env_nat_gettrans (env s) nt) as [taddr tport]. case_if; [by intros [= <- <-]|].
  destruct (c_nat c) eqn:Hn; [by intros [= <- <-]|].
  destruct (npf_conndb_remove _ _) as [? cd1]. destruct (npf_conndb_insert _ _ _ _) as [ok cd2]. destruct ok; simpl.
  - intros [= <- <-]. split; [done|]. change (0 =? 0) with true. cbv iota. split; [unfold natof; by rewrite Hp|].
    intros con. unfold natof. cbn [conns set_db upd_conn set_conns]. rewrite lookup_alter_conn. case_decide.
    + subst con. rewrite Hp, decide_True by done. done.
    + by rewrite decide_False.
  - destruct (npf_conndb_remove cd2 _) as [? cd3]. intros [= <- <-]. split; [done|]. change (EISCONN =? 0) with false.
    intros con. by apply (natof_upd s p).
Qed.

Lemma npf_conn_establish_natof s npc di now global avail r s' npc' : conn_inv s →
  npf_conn_establish params s npc di now global avail = Some (r, s', npc') → same_nats s s' ∧
  (∀ c, r = Some c → is_Some (conns s' !! c)).
Proof.
  intros Hi. unfold npf_conn_establish. do 2 (case_if; [by intros [= <- <- <-]|]).
  assert (conns s !! next_conn s = None) as Hno.
  { destruct (conns s !! next_conn s) eqn:X; [|done]. pose proof (ci_fresh s Hi (next_conn s) ltac:(eauto)). lia. }
  set (c0 := mk_conn _ _ _ _ _ _ _ _ _ _ _ _ _). set (s0 := conn_alloc s _ c0).
  assert (∀ c, c_nat c = None → ∀ con, (<[next_conn s := c]> (conns s) !! con) ≫= c_nat = natof s con) as Hins.
  { intros c Hc con. rewrite lookup_insert_if. unfold natof. case_decide; [|done]. subst con. by rewrite Hno. }
  assert (same_nats s (npf_conn_destroy s0 (next_conn s))) as Hd.
  { unfold npf_conn_destroy, s0. cbn [conns conn_alloc]. rewrite lookup_insert_if, decide_True by done. split; [done|].
    intros con. unfold natof. cbn [conns]. rewrite lookup_delete_if, lookup_insert_if. case_decide; [|done]. subst con. by rewrite Hno. }
  destruct (npf_state_init _ npc) as [[[[ok b] nst] npc1]|]; [|done]. destruct ok; [|by intros [= <- <- <-]].
  destruct (npf_conn_conkey (cp_key params) npc1 di NPF_FLOW_FORW) as [[fw lf]|]; [|by intros [= <- <- <-]].
  destruct (npf_conn_conkey (cp_key params) npc1 _ NPF_FLOW_BACK) as [[bk lb]|]; [|by intros [= <- <- <-]].
  destruct (insert_keys (conn_db s0) (next_conn s) fw bk) as [ok cd]. intros [= <- <- <-]. split.
  - split; [done|]. intros con. unfold natof. cbn [conns set_db set_conns s0 conn_alloc]. rewrite insert_insert_eq.
    apply Hins. by destruct ok.
  - intros c Hc. destruct ok; [|done]. injection Hc as <-. cbn [conns set_db set_conns]. rewrite lookup_insert_if, decide_True; eauto.
Qed.

Lemma npf_conn_establish_sys held s npc di now global avail r s' npc' : sys_inv held s →
  npf_conn_establish params s npc di now global avail = Some (r, s', npc') → sys_inv held s'.
Proof.
  intros Hs E. destruct (npf_conn_establish_natof _ _ _ _ _ _ _ _ _ (si_conn _ _ Hs) E) as [[He Hn] _].
  destruct (conn_step_inv params s s') as [Hc Hm]; [by eapply step_establish|apply Hs..|]. by apply (sys_inv_conn held s).
Qed.

(** The functions of the ALGs that look at a new entry change no other field
    of it than those of the ALG. *)
Definition algs_ok : Prop := ∀ a npc e di, let '(_, e', _) := npf_alg_match algs a npc e di in
  ∃ alg arg, e' = set_alg alg arg e.

Context (Halgs : algs_ok).

Lemma nat_translate_sys held s npc nt di flow err s' npc' : sys_inv held s → is_Some (nats (env s) !! nt) →
  nat_translate algs s npc nt di flow = Some (err, s', npc') → sys_inv held s' ∧ ∀ p, is_Some (conns s !! p) → is_Some (conns s' !! p).
Proof.
  intros Hs [e He]. unfold nat_translate. rewrite He. destruct (ni_pol _ _ (si_nat _ _ Hs) nt e He) as [np ->].
  destruct (if nbuf_cksum_barrier _ _ then _ else _) as [npc1|]; [|done]. simpl.
  destruct (npf_dnat_translate _ _ _ _ _ _) as [[[err1 npc2] a]|]; [|done]. simpl. intros [= <- <- <-]. split; [|done].
  apply (sys_inv_env held held); [done| |done]. by apply (nat_inv_core held (env s)); [|apply Hs].
Qed.

(** What [npf_nat_create] depends on. *)
Definition create_ok (cfg : cfg_t) (na : nat_args) (E : env_t) (npc : npf_cache_t) : Prop :=
  alen_ok (npc_alen npc) ∧ tables_ok (nc_tables cfg) (nc_tableset cfg) E ∧ 0 <= pa_rnd (na_port na).

(** An entry that is not associated yet: the one the environment has more. *)
Lemma setnat_sys held s E con nt e ntype r s' : conn_inv s → marker_ok s → links s → nat_inv held E →
  nats E = <[nt := e]> (nats (env s)) → nats (env s) !! nt = None → nt_conn e = con →
  npf_conn_setnat (set_env s E) con nt ntype = (r, s') →
  if r =? 0 then sys_inv held s' ∧ is_Some (nats (env s') !! nt)
  else sys_inv held (set_env s' (npf_nat_destroy algs kmem (env s') con nt)).
Proof.
  intros Hc Hm Hl Hi He Hno Hcon Es.
  destruct (npf_conn_setnat_inv (set_env s E) con nt ntype (set_env_conn s E Hc)) as [Hc' Hm'].
  destruct (npf_conn_setnat_natof _ _ _ _ _ _ Es) as [Ee Hn]. rewrite Es in Hc', Hm'. cbn [snd] in Hc', Hm'.
  specialize (Hm' Hm). change (env (set_env s E)) with E in Ee. destruct (r =? 0).
  - destruct Hn as [Hnone Hn]. rewrite Ee, He, lookup_insert_if, decide_True by done. split; [|eauto].
    split; [done|done|by rewrite Ee|]. intros q t. rewrite Hn, Ee, He, lookup_insert_if. change (natof (set_env s E)) with (natof s) in *.
    pose proof (Hl q t) as Hq. case_decide as Eq; case_decide as Et; subst.
    + naive_solver.
    + rewrite Hnone in Hq. naive_solver.
    + rewrite Hno in Hq. naive_solver.
    + exact Hq.
  - assert (nats E !! nt = Some e) as Hte by (by rewrite He, lookup_insert_if, decide_True).
    destruct (npf_nat_destroy_spec (TM := TM) algs kmem held E con nt e Hi Hte) as (Hi' & Hd & _).
    rewrite Ee. split; [by apply set_env_conn|done|done|]. apply (links_ext s); [done| |done].
    intros q. cbn [env NpfNat.set_env]. rewrite Hd, He, lookup_delete_if, lookup_insert_if. case_decide; [|done].
    subst q. by rewrite Hno.
Qed.

Lemma release_sys held s E p : sys_inv held s → nat_inv held E → nats E = nats (env s) → 0 < held p →
  sys_inv (upd held p (held p - 1)) (set_env s (npf_natpolicy_release E p)).
Proof.
  intros Hs Hi He Hh. apply (sys_inv_env held); [done|by apply npf_natpolicy_release_inv|].
  intros nt. by rewrite (proj1 (release_nats E p)), He.
Qed.

Lemma conns_translate s npc nt di flow err s' npc' : nat_translate algs s npc nt di flow = Some (err, s', npc') →
  conns s' = conns s.
Proof.
  unfold nat_translate. destruct (nats (env s) !! nt); [|by intros [= <- <- <-]].
  destruct (policies (env s) !! _); [|by intros [= <- <- <-]].
  destruct (if nbuf_cksum_barrier _ _ then _ else _); [|done]. simpl.
  destruct (npf_dnat_translate _ _ _ _ _ _) as [[[? ?] ?]|]; [|done]. simpl. by intros [= <- <- <-].
Qed.

Lemma nat_establish_sys held cfg na s npc p con di err s' npc' : sys_inv held s → 0 < held p →
  create_ok cfg na (env s) npc →
  nat_establish algs kmem cfg na s npc p con di = Some (err, s', npc') → sys_inv (upd held p (held p - 1)) s'.
Proof.
  intros Hs Hh (Ha & HT & Hrnd). pose proof Hs as [Hc Hm Hi Hl]. unfold nat_establish.
  destruct (npf_nat_create_spec kmem (nc_tables cfg) (nc_tableset cfg) (na_nat na) (na_port na) held (env s) npc p con
    Hi Hh Ha HT Hrnd) as (r & E & -> & Hty & Hr). simpl. destruct r as [nt|].
  2:{ intros [= <- <- <-]. destruct Hr as [Hi' He]. by apply release_sys. }
  destruct Hr as (-> & Hi' & e & He & Hcon & Hp & _). set (nt := nat_next (env s)) in *.
  assert (nats (env s) !! nt = None) as Hno.
  { destruct (nats (env s) !! nt) eqn:X; [|done]. pose proof (ni_fresh _ _ Hi nt ltac:(right; eauto)). unfold nt in *. lia. }
  assert (nats E !! nt = Some e) as Hte by (by rewrite He, lookup_insert_if, decide_True). rewrite Hte.
  destruct (ni_pol _ _ Hi' nt e Hte) as [np Hnp]. rewrite Hp in Hnp. rewrite Hnp.
  pose proof (Halgs (alg_state E) npc e di) as Hal. destruct (npf_alg_match algs (alg_state E) npc e di) as [[mt e'] a].
  assert (same_nat e e' ∧ nt_conn e' = nt_conn e) as [Hsame Hcon'] by (by destruct Hal as (? & ? & ->)). set (E2 := set_alg_state _ a).
  assert (nat_inv (upd held p (held p - 1)) E2) as Hi2.
  { apply (nat_inv_core _ (set_nats E (<[nt := e']> (nats E)))); [done|]. by apply (nat_inv_entry _ E nt e e'). }
  assert (nats E2 = <[nt := e']> (nats (env s))) as He2.
  { unfold E2. cbn [nats set_alg_state set_nats]. by rewrite He, insert_insert_eq. }
  destruct (npf_conn_setnat (set_env s E2) con nt (n_type np)) as [r s2] eqn:Es.
  pose proof (setnat_sys _ s E2 con nt e' (n_type np) r s2 Hc Hm Hl Hi2 He2 Hno ltac:(congruence) Es) as Hset.
  destruct (r =? 0); simpl; [|by intros [= <- <- <-]]. destruct Hset as [Hs2 Hnt]. intros Et.
  by eapply nat_translate_sys.
Qed.

(** ** The NAT of a packet *)

(** The rules of the NAT ruleset have policies, which they hold. *)
Definition natset_ok (held : Z → Z) (cfg : cfg_t) : Prop := ∀ rl r, nc_rules cfg !! rl = Some r →
  NPF_DYNAMIC_GROUP_P (r_attr r) = false ∧
  (flag (r_attr r) NPF_RULE_GROUP = false → ∃ p, r_natp r = Some p ∧ 0 < held p).

Lemma inspect_loop_rule held cfg bpf dm ifid fuel : natset_ok held cfg → ∀ rules n final rl,
  let good x := ∃ r, nc_rules cfg !! x = Some r ∧ flag (r_attr r) NPF_RULE_GROUP = false in
  (∀ f, final = Some f → good f) → inspect_loop bpf dm ifid fuel (nc_rules cfg) rules n final = Some (Some rl) → good rl.
Proof.
  intros Hok. induction fuel as [|fuel IH]; intros rules n final rl good Hf; cbn [inspect_loop];
    (case_if; [intros [= ->]; by apply Hf|]); [done|].
  destruct (rules !! Z.to_nat n) as [x|]; [|done]. destruct (nc_rules cfg !! x) as [r|] eqn:Hx; [|done].
  destruct (Hok x r Hx) as [Hdyn _]. cbv zeta. case_if; [intros [= ->]; by apply Hf|]. case_if; [by apply IH|].
  rewrite Hdyn. destruct (flag (r_attr r) NPF_RULE_GROUP) eqn:Eg; cbn [negb].
  - case_if; [intros [= ->]; by apply Hf|by apply IH].
  - case_if; [intros [= <-]; by exists r|]. apply IH. intros f [= <-]. by exists r.
Qed.

(** The counters do not overflow. *)
Definition refs_bounded (E : env_t) : Prop := ∀ p np, policies E !! p = Some np → n_refcnt np < 2 ^ 32 - 1.

Lemma npf_nat_inspect_sys held cfg s npc di r E : sys_inv held s → natset_ok held cfg → refs_bounded (env s) →
  npf_nat_inspect cfg (env s) npc di = Some (r, E) → nats E = nats (env s) ∧
  (tables_ok (nc_tables cfg) (nc_tableset cfg) (env s) → tables_ok (nc_tables cfg) (nc_tableset cfg) E) ∧
  match r with
  | Some p => sys_inv (upd held p (held p + 1)) (set_env s E) ∧ 0 <= held p
  | None => E = env s
  end.
Proof.
  intros Hs Hok Hb. unfold npf_nat_inspect. destruct (npf_ruleset_inspect _ _ _ _ _) as [rl|] eqn:Er; [|done]. simpl.
  destruct rl as [rl|]; [|by intros [= <- <-]].
  destruct (inspect_loop_rule held cfg _ _ _ _ Hok _ _ None rl ltac:(done) Er) as (ru & Hru & Hg).
  destruct (Hok rl ru Hru) as [_ Hp]. destruct (Hp Hg) as (p & Hnp & Hh). rewrite Hru. simpl. rewrite Hnp.
  destruct (held_pos held (env s) p (si_nat _ _ Hs) Hh) as [np Enp]. rewrite Enp. intros [= <- <-]. split; [done|]. split.
  - intros HT q x. cbn [policies set_policies]. rewrite lookup_insert_if. case_decide; [|apply HT]. intros [= <-]. subst q. by apply (HT p np).
  - split; [|lia]. apply (sys_inv_env held); [done| |done]. apply acquire_inv; [apply Hs|done|by apply (Hb p)].
Qed.


(** Parsing the packet again leaves the address length one of the two. *)
Definition alen_next (npc npc' : npf_cache_t) : Prop := npc_alen npc' = npc_alen npc ∨ alen_ok (npc_alen npc').

Lemma npf_cache_ip4_alen npc : alen_next npc (snd (npf_cache_ip4 npc)).
Proof.
  unfold npf_cache_ip4. destruct (nbuf_ensure_contig _ _) as [[ip|] nb]; [|by left].
  do 2 (case_if; [by left|]). destruct (nbuf_ensure_contig _ _) as [[ip'|] nb']; [right; by left|by left].
Qed.

Lemma npf_ip6_ext_loop_alen fuel : ∀ npc hlen fp fl npc' r, npf_ip6_ext_loop fuel npc hlen fp fl = Some (npc', r) →
  npc_alen npc' = npc_alen npc.
Proof.
  induction fuel as [|fuel IH]; intros npc hlen fp fl npc' r; [done|]. cbn [npf_ip6_ext_loop].
  destruct (nbuf_advance _ _ _) as [[o|] nb]; [|by intros [= <- <-]].
  destruct (npf_ip6_ext_step _ _ _ _) as [[nb'|nb' fl'|nb' hl nx] fp']; [by intros [= <- <-]..|]. intros Hl. by rewrite (IH _ _ _ _ _ _ Hl).
Qed.

Lemma npf_cache_ip_alen npc fl npc' : npf_cache_ip npc = Some (fl, npc') → alen_next npc npc'.
Proof.
  unfold npf_cache_ip. case_if; [pose proof (npf_cache_ip4_alen npc) as H4; intros [= E]; by rewrite E in H4|].
  case_if; [|intros [= <- <-]; by left]. unfold npf_cache_ip6.
  destruct (nbuf_ensure_contig _ _) as [[ip|] nb]; [|intros [= <- <-]; by left].
  destruct (npf_ip6_ext_loop _ _ _ _ _) as [[npc1 [fl1|]]|] eqn:El; [| |done].
  - intros [= <- <-]. right. by right.
  - intros [= <- <-]. left. by rewrite (npf_ip6_ext_loop_alen _ _ _ _ _ _ _ El).
Qed.

Lemma npf_cache_l4_alen npc : npc_alen (snd (npf_cache_l4 npc)) = npc_alen npc.
Proof.
  unfold npf_cache_l4, npf_cache_tcp, npf_cache_l4_adv. repeat case_match; by simplify_eq.
Qed.

Lemma alen_next_trans npc npc' npc'' : alen_next npc npc' → alen_next npc' npc'' → alen_next npc npc''.
Proof. unfold alen_next. intros [E|E] [E'|E']; rewrite ?E', ?E; auto. Qed.

Lemma npf_cache_again_alen fuel : ∀ npc fl npc', npf_cache_again fuel npc = Some (fl, npc') → alen_next npc npc'.
Proof.
  induction fuel as [|fuel IH]; intros npc fl npc'; [done|]. cbn [npf_cache_again].
  destruct (npf_cache_ip _) as [[fl1 npc1]|] eqn:Ei; [|done]. apply npf_cache_ip_alen in Ei. case_if; [by intros [= <- <-]|].
  pose proof (npf_cache_l4_alen npc1) as E4. destruct (npf_cache_l4 npc1) as [fl4 npc4]. cbn [snd] in E4.
  assert (alen_next npc npc4) as H4 by (apply (alen_next_trans _ npc1); [exact Ei|by left]).
  case_if; [by intros [= <- <-]|]. case_if; [|by intros [= <- <-]]. intros Ha%IH. by apply (alen_next_trans _ npc4).
Qed.

Lemma npf_recache_alen npc npc' : npf_recache npc = Some npc' → alen_next npc npc'.
Proof.
  unfold npf_recache. destruct (npf_cache_all _) as [[fl npc1]|] eqn:E; [|done]. intros [= <-]. by apply npf_cache_again_alen in E.
Qed.

Lemma npf_fetch_tcpopts_alen npc mss ws r : npf_fetch_tcpopts npc mss ws = Some r → alen_next npc (snd r).
Proof.
  unfold npf_fetch_tcpopts, tcpopt_done. case_if; [intros [= <-]; by left|].
  destruct (nbuf_advance _ _ _) as [[cp|] nb].
  - destruct (fetch_tcpopts_loop _ _ _ _ _ _) as [[m w]|]; [|done]. simpl. case_if; simpl; [|intros [= <-]; by left].
    destruct (npf_recache _) eqn:E; [|done]. intros [= <-]. by apply npf_recache_alen in E.
  - case_if; simpl; [|intros [= <-]; by left]. destruct (npf_recache _) eqn:E; [|done]. intros [= <-]. by apply npf_recache_alen in E.
Qed.

Lemma npf_state_init_alen p npc ok st nst npc' : npf_state_init p npc = Some (ok, st, nst, npc') → alen_next npc npc'.
Proof.
  unfold npf_state_init. case_if; [|case_if; intros [= <- <- <- <-]; by left].
  unfold npf_state_tcp, npf_tcp_inwindow. change (nst_maxwin (nst_tcpst nst_zero NPF_FLOW_FORW) =? 0) with true. cbv iota.
  destruct (npf_fetch_tcpopts npc None 0) as [[[[o m] w] npc1]|] eqn:Ef; [|done]. apply npf_fetch_tcpopts_alen in Ef.
  simpl. intros Hr. repeat case_match; simplify_eq; exact Ef.
Qed.

Lemma npf_conn_establish_alen s npc di now global avail r s' npc' :
  npf_conn_establish params s npc di now global avail = Some (r, s', npc') → alen_next npc npc'.
Proof.
  unfold npf_conn_establish. do 2 (case_if; [intros [= <- <- <-]; by left|]).
  destruct (npf_state_init _ npc) as [[[[ok b] nst] npc1]|] eqn:E; [|done]. apply npf_state_init_alen in E.
  destruct ok; [|by intros [= <- <- <-]]. repeat case_match; intros; by simplify_eq.
Qed.

(** The hypotheses on what a packet is processed with. *)
Record nat_ctx_ok (held : Z → Z) (cfg : cfg_t) (na : nat_args) (s : nsys) (npc : npf_cache_t) (con : option Z) : Prop := {
  nc_set : natset_ok held cfg;
  nc_tab : tables_ok (nc_tables cfg) (nc_tableset cfg) (env s);
  nc_rnd : 0 <= pa_rnd (na_port na);
  nc_bound : refs_bounded (env s);
  nc_alen : npf_iscached npc NPC_IP46 = true → alen_ok (npc_alen npc);
  nc_con : ∀ c, con = Some c → is_Some (conns s !! c);
}.

Lemma npf_nat_lookup_ok held s npc c di : sys_inv held s → is_Some (conns s !! c) →
  let r := npf_nat_lookup s npc c di in
  snd r = false ∧ ∀ nt flow, fst r = Some (nt, flow) → is_Some (nats (env s) !! nt).
Proof.
  intros Hs [cn Hc]. unfold npf_nat_lookup. rewrite Hc. unfold npf_conn_getnat. destruct (c_nat cn) as [nt|] eqn:En; [|done].
  destruct (proj1 (si_links _ _ Hs c nt)) as (e & He & _); [unfold natof; by rewrite Hc|]. rewrite He.
  destruct (negb _); [done|]. destruct (ni_pol _ _ (si_nat _ _ Hs) nt e He) as [np Hp]. rewrite Hp.
  pose proof (ni_refs _ _ (si_nat _ _ Hs) (nt_natpolicy e)) as Hr. rewrite Hp in Hr. simpl. split; [bool_to_prop; lia|].
  intros ? ? [= <- <-]. eauto.
Qed.

Lemma upd_back (held : Z → Z) p q : upd (upd held p (held p + 1)) p (upd held p (held p + 1) p - 1) q = held q.
Proof. unfold upd. repeat case_decide; subst; lia. Qed.

Lemma sys_inv_ext held held' s : (∀ p, held p = held' p) → sys_inv held s → sys_inv held' s.
Proof. intros He [H1 H2 H3 H4]. split; try done. by apply (nat_inv_ext held). Qed.

Lemma npf_do_nat_sys held cfg na s npc con di err s' npc' : sys_inv held s → nat_ctx_ok held cfg na s npc con →
  npf_do_nat algs kmem params cfg na s npc con di = Some (err, s', npc') → sys_inv held s'.
Proof.
  intros Hs [Hset Htab Hrnd Hb Hal Hcon]. unfold npf_do_nat. destruct (npf_iscached npc NPC_IP46) eqn:E46; cbn [negb orb]; [|by intros [= <- <- <-]].
  destruct (npf_iscached npc NPC_LAYER4); cbn [negb orb]; [|by intros [= <- <- <-]].
  destruct (match con with Some c => _ | None => _ end) as [found bad] eqn:El.
  assert (bad = false ∧ ∀ nt flow, found = Some (nt, flow) → is_Some (nats (env s) !! nt)) as [-> Hfound].
  { destruct con as [c|]; [|by injection El as <- <-]. pose proof (npf_nat_lookup_ok held s npc c di Hs (Hcon c eq_refl)) as Hl.
    by rewrite El in Hl. }
  destruct found as [[nt flow]|]; [intros Et; eapply nat_translate_sys; [exact Hs|by eapply Hfound|exact Et]|].
  destruct (npf_nat_inspect cfg (env s) npc di) as [[r E]|] eqn:Ei; [|done]. cbn [mbind option_bind].
  destruct (npf_nat_inspect_sys held cfg s npc di r E Hs Hset Hb Ei) as (HeE & HtE & Hr).
  destruct r as [p|]; [|intros [= <- <- <-]; subst E; by apply (sys_inv_env held held); [|apply Hs|]].
  destruct Hr as [Hs1 Hh]. set (s1 := set_env s E) in *. set (h1 := upd held p (held p + 1)) in *.
  assert (0 < h1 p) as Hh1 by (unfold h1, upd; rewrite decide_True by done; lia).
  assert (∀ t, sys_inv (upd h1 p (h1 p - 1)) t → sys_inv held t) as Hback by (intros t; apply sys_inv_ext; intros q; apply upd_back).
  destruct (held_pos h1 E p (si_nat _ _ Hs1) Hh1) as [np ->].
  destruct (flag (n_flags np) NPF_NAT_STATIC).
  { destruct (if nbuf_cksum_barrier _ _ then _ else _) as [npc1|]; [|done]. cbn [mbind option_bind].
    destruct (npf_snat_translate npc1 np NPF_FLOW_FORW) as [err1 npc2]. intros [= <- <- <-]. apply Hback.
    apply (release_sys h1 s1 E p); [done|apply Hs1|done|done]. }
  destruct con as [c|].
  { intros Ee. apply Hback. eapply nat_establish_sys; [exact Hs1|done| |exact Ee]. split; [by apply Hal|]. split; [by apply HtE|done]. }
  destruct (npf_conn_establish params s1 npc di _ true _) as [[[r2 s2] npc2]|] eqn:E2; [|done]. simpl.
  pose proof (npf_conn_establish_sys h1 _ _ _ _ _ _ _ _ _ Hs1 E2) as Hs2.
  destruct (npf_conn_establish_natof _ _ _ _ _ _ _ _ _ (si_conn _ _ Hs1) E2) as [[He2 _] _].
  destruct r2 as [c|]; [|intros [= <- <- <-]; apply Hback; apply (release_sys h1 s2 (env s2) p); [done|apply Hs2|done|done]].
  destruct (nat_establish algs kmem cfg na s2 npc2 p c di) as [[[err3 s3] npc3]|] eqn:E3; [|done]. simpl.
  assert (sys_inv held s3) as Hs3.
  { apply Hback. eapply nat_establish_sys; [exact Hs2|done| |exact E3]. split; [|rewrite He2; split; [by apply HtE|done]].
    destruct (npf_conn_establish_alen _ _ _ _ _ _ _ _ _ E2) as [-> |]; [by apply Hal|done]. }
  intros [= <- <- <-]. apply npf_conn_release_sys. case_if; [by apply npf_conn_expire_sys|done].
Qed.


(** ** Policies and their connections *)

Lemma expire_list_sys held l : ∀ s, sys_inv held s → (∀ nt, nt ∈ l → is_Some (nats (env s) !! nt)) →
  sys_inv held (expire_list l s) ∧ env (expire_list l s) = env s.
Proof.
  induction l as [|nt l IH]; intros s Hs Hl; simpl; [done|]. destruct (Hl nt) as [e He]; [left|]. rewrite He.
  apply (IH (npf_conn_expire s (nt_conn e))); [by apply npf_conn_expire_sys|]. intros q Hq. apply Hl. by right.
Qed.

Lemma npf_natpolicy_destroy_sys held s p : sys_inv held s → 0 < held p →
  sys_inv (upd held p (held p - 1)) (npf_natpolicy_destroy s p).
Proof.
  intros Hs Hh. destruct (held_pos held (env s) p (si_nat _ _ Hs) Hh) as [np Hp]. unfold npf_natpolicy_destroy. rewrite Hp.
  assert (∀ s', sys_inv held s' → sys_inv (upd held p (held p - 1)) (set_env s' (npf_natpolicy_release (env s') p))) as Hrel.
  { intros s' Hs'. by apply release_sys; [|apply Hs'|..]. }
  case_if; [|by apply Hrel]. apply Hrel, expire_list_sys; [done|]. intros nt Hnt.
  destruct (ni_list _ _ (si_nat _ _ Hs) p np Hp) as (_ & _ & Hin). apply Hin in Hnt as (e & He & _). eauto.
Qed.

Lemma freealg_list_spec held l alg : ∀ E, nat_inv held E → (∀ nt, nt ∈ l → is_Some (nats E !! nt)) →
  nat_inv held (freealg_list (TM := TM) algs l alg E) ∧
  (∀ nt, nt_conn <$> nats (freealg_list (TM := TM) algs l alg E) !! nt = nt_conn <$> nats E !! nt) ∧
  (∀ nt e, nt ∈ l → nats (freealg_list (TM := TM) algs l alg E) !! nt = Some e → nt_alg e ≠ Some alg).
Proof.
  assert (∀ l E nt e, nats E !! nt = Some e → nt_alg e ≠ Some alg →
    ∀ e', nats (freealg_list (TM := TM) algs l alg E) !! nt = Some e' → nt_alg e' ≠ Some alg) as Hkeep.
  { clear. induction l as [|q l IH]; intros E nt e He Hne e'; simpl; [intros; by simplify_eq|].
    destruct (nats E !! q) as [x|] eqn:Hx; [|simpl; intros; by simplify_eq].
    destruct (decide (nt = q)) as [->|Hq].
    - assert (x = e) as -> by congruence. rewrite decide_False by done. by eapply IH.
    - apply (IH _ nt e); [|done]. case_decide; [|done]. cbn [nats set_nats]. by rewrite lookup_insert_ne. }
  induction l as [|nt l IH]; intros E Hi Hl; simpl; [split; [done|]; split; [done|by intros ? ? ?%elem_of_nil]|].
  destruct (Hl nt) as [e He]; [left|]. rewrite He. set (E1 := if decide _ then _ else E).
  assert (nat_inv held E1 ∧ (∀ q, nt_conn <$> nats E1 !! q = nt_conn <$> nats E !! q) ∧
    ∀ e', nats E1 !! nt = Some e' → nt_alg e' ≠ Some alg) as (Hi1 & Hc1 & Ha1).
  { unfold E1. case_decide; [|split; [done|]; split; [done|intros; by simplify_eq]]. split_and!.
    - apply (nat_inv_core held (set_nats E (<[nt := set_alg None (nt_alg_arg e) e]> (nats E)))); [done|].
      by apply (nat_inv_entry held E nt e).
    - intros q. cbn [nats set_nats set_alg_state]. rewrite lookup_insert_if. case_decide; [|done]. subst q. by rewrite He.
    - intros e'. cbn [nats set_nats set_alg_state]. rewrite lookup_insert_if, decide_True by done. by intros [= <-]. }
  destruct (IH E1 Hi1) as (H1 & H2 & H3).
  { intros q Hq. specialize (Hc1 q). destruct (Hl q) as [x Hx]; [by right|]. rewrite Hx in Hc1. destruct (nats E1 !! q); [eauto|done]. }
  split; [done|]. split; [intros q; by rewrite H2, Hc1|]. intros q x [->|Hq]%elem_of_cons Hx; [|by eapply H3].
  specialize (Hc1 nt). rewrite He in Hc1. destruct (nats E1 !! nt) as [e1|] eqn:He1; [|done].
  exact (Hkeep l E1 nt e1 He1 (Ha1 _ eq_refl) x Hx).
Qed.

Lemma npf_nat_freealg_sys held s p alg : sys_inv held s → is_Some (policies (env s) !! p) →
  sys_inv held (set_env s (npf_nat_freealg (TM := TM) algs (env s) p alg)).
Proof.
  intros Hs [np Hp]. unfold npf_nat_freealg. rewrite Hp.
  destruct (ni_list _ _ (si_nat _ _ Hs) p np Hp) as (_ & _ & Hin).
  destruct (freealg_list_spec held (n_nat_list np) alg (env s) (si_nat _ _ Hs)) as (H1 & H2 & _).
  { intros nt (e & He & _)%Hin. eauto. }
  by apply (sys_inv_env held).
Qed.

Lemma npf_nat_setid_sys held s p id : sys_inv held s → sys_inv held (set_env s (npf_nat_setid (env s) p id)).
Proof.
  intros Hs. apply (sys_inv_env held); [done| |done]. unfold npf_nat_setid.
  destruct (policies (env s) !! p) as [np|] eqn:Hp.
  - assert (alter (set_np_id id) p (policies (env s)) = <[p := set_np_id id np]> (policies (env s))) as ->.
    { apply map_eq. intros q. rewrite lookup_alter_if, lookup_insert_if. case_decide; [|done]. subst q. by rewrite Hp. }
    apply (nat_inv_ext (upd held p (held p))); [intros q; unfold upd; by case_decide; subst|].
    pose proof (ni_refs _ _ (si_nat _ _ Hs) p) as Hr. rewrite Hp in Hr.
    apply (nat_inv_policy held _ p np); [apply Hs|done|by split_and!|apply Hr..].
  - assert (alter (set_np_id id) p (policies (env s)) = policies (env s)) as ->.
    { apply map_eq. intros q. rewrite lookup_alter_if. case_decide; [|done]. subst q. by rewrite Hp. }
    apply (nat_inv_core held (env s)); [done|apply Hs].
Qed.

Lemma npf_natpolicy_create_sys {NV} `{nvlist_ops NV} held s (nv : NV) p E : sys_inv held s →
  npf_natpolicy_create (env s) nv = (Some p, E) → sys_inv (upd held p 1) (set_env s E).
Proof.
  intros Hs Ec. apply (sys_inv_env held); [done|by eapply npf_natpolicy_create_inv; [apply Hs|exact Ec]|].
  unfold npf_natpolicy_create in Ec. destruct (natpolicy_parse nv); [|done]. by injection Ec as <- <-.
Qed.

Lemma npf_conn_lookup_natof s npc di now : same_nats s (snd (npf_conn_lookup params s npc di now)).
Proof.
  unfold npf_conn_lookup, npf_conndb_lookup. destruct (npf_conn_conkey _ _ _ _) as [[k l]|]; [|done].
  destruct (thmap_get _ _) as [[con flow]|]; [|done]. set (s1 := upd_conn s con _).
  assert (same_nats s s1) as H1 by (split; [done|]; intros q; by apply natof_upd).
  destruct (conns s1 !! con) as [c|]; [|done]. case_if; (split; [done|]); intros q; cbn [snd];
    rewrite natof_upd by done; apply H1.
Qed.

Lemma npf_conn_lookup_sys held s npc di now : sys_inv held s → sys_inv held (snd (npf_conn_lookup params s npc di now)).
Proof.
  intros Hs. destruct (npf_conn_lookup_natof s npc di now) as [He Hn].
  destruct (conn_step_inv params s _ (step_lookup params s npc di now) (si_conn _ _ Hs) (si_marker _ _ Hs)).
  by apply (sys_inv_conn held s).
Qed.


(** ** Every interleaving of the operations *)

(** The ALGs that look a connection up for a packet keep the invariant. *)
Definition algs_conn_ok : Prop := ∀ held s npc di r s' npc', sys_inv held s →
  npf_alg_conn algs s npc di = Some (r, s', npc') → sys_inv held s'.

Context (Hconn : algs_conn_ok).

Lemma npf_conn_inspect_sys held s npc di now r e b s' npc' : sys_inv held s →
  npf_conn_inspect params (npf_alg_conn algs) s npc di now = Some (r, e, b, s', npc') → sys_inv held s'.
Proof.
  intros Hs. unfold npf_conn_inspect. case_if; [by intros [= <- <- <- <- <-]|].
  destruct (npf_alg_conn algs s npc di) as [[[acon s1] npc1]|] eqn:Ea; [|done]. cbn [mbind option_bind]. pose proof (Hconn held s npc di acon s1 npc1 Hs Ea) as Hs1.
  destruct acon; [by intros [= <- <- <- <- <-]|]. case_if; [by intros [= <- <- <- <- <-]|].
  pose proof (npf_conn_lookup_sys held s1 npc1 di now Hs1) as Hs2.
  destruct (npf_conn_lookup params s1 npc1 di now) as [[[con flow]|] s2]; cbn [snd] in Hs2; [|by intros [= <- <- <- <- <-]].
  destruct (conns s2 !! con) as [c|]; [|done]. destruct (npf_state_inspect _ _ _ _) as [[[[ok st] nst] npc2]|]; [|done].
  assert (sys_inv held (upd_conn s2 con (set_state nst))) as Hs3.
  { apply sys_inv_upd; [done| |done]. by apply inv_upd; [apply Hs2|]. }
  destruct ok; intros [= <- <- <- <- <-]; [done|by apply npf_conn_release_sys].
Qed.

(** A state, with the references that the rules have. *)
Inductive nat_step {NV : Type} {NO : nvlist_ops NV} : (Z → Z) * nsys → (Z → Z) * nsys → Prop :=
  | ns_do_nat held s cfg na npc con di err s' npc' : nat_ctx_ok held cfg na s npc con →
      npf_do_nat algs kmem params cfg na s npc con di = Some (err, s', npc') → nat_step (held, s) (held, s')
  | ns_inspect held s npc di now r e b s' npc' :
      npf_conn_inspect params (npf_alg_conn algs) s npc di now = Some (r, e, b, s', npc') → nat_step (held, s) (held, s')
  | ns_establish held s npc di now global avail r s' npc' :
      npf_conn_establish params s npc di now global avail = Some (r, s', npc') → nat_step (held, s) (held, s')
  | ns_release held s con : nat_step (held, s) (held, npf_conn_release s con)
  | ns_setpass held s con retfl rid rp : nat_step (held, s) (held, npf_conn_setpass s con retfl rid rp)
  | ns_expire held s con : nat_step (held, s) (held, npf_conn_expire s con)
  | ns_gc held s now flush : nat_step (held, s) (held, npf_conndb_gc params s now flush)
  | ns_tracking held s track : nat_step (held, s) (held, npf_conn_tracking s track)
  | ns_create held s nv p E : npf_natpolicy_create (env s) nv = (Some p, E) → nat_step (held, s) (upd held p 1, set_env s E)
  | ns_destroy held s p : 0 < held p → nat_step (held, s) (upd held p (held p - 1), npf_natpolicy_destroy s p)
  | ns_setid held s p id : nat_step (held, s) (held, set_env s (npf_nat_setid (env s) p id))
  | ns_freealg held s p alg : is_Some (policies (env s) !! p) →
      nat_step (held, s) (held, set_env s (npf_nat_freealg (TM := TM) algs (env s) p alg)).

Lemma nat_step_inv {NV} {NO : nvlist_ops NV} x y : nat_step (NV := NV) x y → sys_inv (fst x) (snd x) → sys_inv (fst y) (snd y).
Proof.
  intros Hst Hs. destruct Hst; cbn [fst snd] in *.
  - by eapply npf_do_nat_sys.
  - by eapply npf_conn_inspect_sys.
  - by eapply npf_conn_establish_sys.
  - by apply npf_conn_release_sys.
  - by apply npf_conn_setpass_sys.
  - by apply npf_conn_expire_sys.
  - by apply npf_conndb_gc_sys.
  - destruct (conn_step_inv params s _ (step_tracking params s track) (si_conn _ _ Hs) (si_marker _ _ Hs)).
    by apply (sys_inv_conn held s).
  - by eapply npf_natpolicy_create_sys.
  - by apply npf_natpolicy_destroy_sys.
  - by apply npf_nat_setid_sys.
  - by apply npf_nat_freealg_sys.
Qed.

(** The state before a configuration is loaded. *)
Definition nat_init (lo hi : Z) (a : AS) (r : rproc_sys (W := W) (P := EP)) : env_t :=
  mk_nenv ∅ ∅ 1 (npf_portmap_create lo hi) a r 0 0 false.

Lemma nat_init_inv lo hi a r : 1024 <= lo <= 65535 → 1024 <= hi <= 65535 →
  sys_inv (λ _, 0) (npf_conn_init (nat_init lo hi a r)).
Proof.
  intros Hlo Hhi. destruct (npf_conn_init_inv (TM := TM) (nat_init lo hi a r)) as [Hc Hm]. split; [done|done|..].
  - split; cbn [env npf_conn_init nat_init policies nats nat_fault portmap nat_next]; try done.
    + intros q [[? ?]|[? ?]]; by rewrite lookup_empty in *.
    + apply npf_portmap_create_wf; lia.
    + intros key q Hq. split; [|intros (? & ? & ? & _); by rewrite lookup_empty in *].
      unfold pm_used. cbn [addr_map npf_portmap_create]. by rewrite thmap_get_create.
  - intros con nt. unfold natof. cbn [conns env npf_conn_init nat_init nats]. rewrite !lookup_empty. split; [done|].
    by intros (? & ? & _).
Qed.

(** The states that a system with the given range of ports reaches. *)
Definition reachable (NV : Type) (NO : nvlist_ops NV) (lo hi : Z) (a : AS) (r : rproc_sys (W := W) (P := EP))
    (x : (Z → Z) * nsys) : Prop :=
  rtc (nat_step (NV := NV) (NO := NO)) (λ _, 0, npf_conn_init (nat_init lo hi a r)) x.

Lemma nat_reachable_inv {NV} {NO : nvlist_ops NV} lo hi a r held s : 1024 <= lo <= 65535 → 1024 <= hi <= 65535 →
  reachable NV NO lo hi a r (held, s) → sys_inv held s.
Proof.
  intros Hlo Hhi Hr. pose proof (nat_init_inv lo hi a r Hlo Hhi) as Hi.
  change (sys_inv (fst (held, s)) (snd (held, s))).
  assert (∀ x y, rtc (nat_step (NV := NV)) x y → sys_inv (fst x) (snd x) → sys_inv (fst y) (snd y)) as Hx.
  { intros x y Hxy. induction Hxy as [|x y z Hs _ IH]; [done|]. intros. by eapply IH, nat_step_inv. }
  by apply (Hx _ _ Hr).
Qed.

(** C3: Connections and NAT never hold a freed object of each other, and no
    reference leaks, whatever the order in which packets are translated
    ([npf_do_nat], all of its error paths included), connections are inspected,
    established, passed, expired and collected, and policies are loaded,
    destroyed and stripped of an ALG.  In every state so reached nothing has been
    used after it was freed and no assertion on a reference count has failed
    ([nat_fault]); the connection database is consistent; the entry of a
    connection exists and leads back to it, and every entry belongs to the
    connection it names; a policy has exactly the references of its rule and one
    per entry, and its list holds exactly its entries. *)
Theorem nat_refcounts {NV} {NO : nvlist_ops NV} lo hi a r held s : 1024 <= lo <= 65535 → 1024 <= hi <= 65535 →
  reachable NV NO lo hi a r (held, s) →
  nat_fault (env s) = false ∧ conn_inv s ∧
  (∀ con c nt, conns s !! con = Some c → c_nat c = Some nt → ∃ e, nats (env s) !! nt = Some e ∧ nt_conn e = con) ∧
  (∀ nt e, nats (env s) !! nt = Some e → ∃ c, conns s !! nt_conn e = Some c ∧ c_nat c = Some nt) ∧
  (∀ nt e, nats (env s) !! nt = Some e → is_Some (policies (env s) !! nt_natpolicy e)) ∧
  (∀ p np, policies (env s) !! p = Some np →
     n_refcnt np = held p + Z.of_nat (length (n_nat_list np)) ∧ NoDup (n_nat_list np) ∧
     ∀ nt, nt ∈ n_nat_list np ↔ ∃ e, nats (env s) !! nt = Some e ∧ nt_natpolicy e = p) ∧
  (∀ p, 0 < held p → is_Some (policies (env s) !! p)).
Proof.
  intros Hlo Hhi Hr. destruct (nat_reachable_inv lo hi a r held s Hlo Hhi Hr) as [Hc Hm Hi Hl].
  split_and!; [apply Hi|done|..].
  - intros con c nt Hco Hn. apply Hl. unfold natof. by rewrite Hco.
  - intros nt e He. apply bind_Some, Hl. eauto.
  - apply Hi.
  - intros p np Hp. pose proof (ni_refs _ _ Hi p) as Hrc. rewrite Hp in Hrc.
    destruct (ni_list _ _ Hi p np Hp) as (Hn & _ & Hin). by destruct Hrc.
  - intros p Hp. destruct (held_pos held (env s) p Hi Hp); eauto.
Qed.

(** C15: Distinct connections never share a translated address and port, in any
    sequence of the steps of packets (inspection, establishment, NAT), of the
    garbage collector and of the creation and destruction of policies, with a
    port range within 1024 to 65535.  Of the entries with a port, of policies
    that allocate ports: two that are translated to the same address have
    different ports, unless they are of the same connection, and the ports
    marked as used in the port map of an address are exactly those of the
    entries translated to it, so that none is lost.  Not covered: entries
    restored from a saved configuration by [npf_nat_import], whose port is not
    reserved ([npf_nat_import_port_unreserved]), those that the PPTP ALG makes,
    and entries whose port is 0, which stands for an exhausted map (the port is
    then not translated).  The NAT configuration is consistent (policies are
    held by their rules, their tables exist), an ALG's match only marks the
    entry and its lookup of connections keeps the invariant. *)
Theorem nat_ports_exclusive {NV} {NO : nvlist_ops NV} lo hi a r held s : 1024 <= lo <= 65535 → 1024 <= hi <= 65535 →
  reachable NV NO lo hi a r (held, s) →
  let mapped nt e := nats (env s) !! nt = Some e ∧ nt_tport e ≠ 0 ∧
    ∃ np, policies (env s) !! nt_natpolicy e = Some np ∧ flag (n_flags np) NPF_NAT_PORTMAP = true in
  (∀ nt nt' e e', mapped nt e → mapped nt' e' →
     addr_key (nt_alen e) (nt_taddr e) = addr_key (nt_alen e') (nt_taddr e') → nt_tport e = nt_tport e' →
     nt_conn e = nt_conn e') ∧
  (∀ key q, port_ok q → pm_used (portmap (env s)) key q = true ↔
     ∃ nt e, mapped nt e ∧ addr_key (nt_alen e) (nt_taddr e) = key ∧ ntohs (nt_tport e) = q).
Proof.
  intros Hlo Hhi Hr mapped. destruct (nat_reachable_inv lo hi a r held s Hlo Hhi Hr) as [Hc Hm Hi Hl].
  assert (∀ nt e o, nats (env s) !! nt = Some e → owned (env s) e = Some o ↔
    mapped nt e ∧ o = (addr_key (nt_alen e) (nt_taddr e), ntohs (nt_tport e))) as Hown.
  { intros nt e o He. unfold owned, mapped. destruct (policies (env s) !! nt_natpolicy e) as [np|]; [|naive_solver].
    destruct (flag (n_flags np) NPF_NAT_PORTMAP && negb (nt_tport e =? 0)) eqn:Ef.
    - apply andb_true_iff in Ef as [Ef E0%negb_true_iff%Z.eqb_neq]. split; [intros [= <-]; eauto 7|by intros [_ ->]].
    - apply andb_false_iff in Ef as [Ef|E0%negb_false_iff%Z.eqb_eq]; (split; [done|]); [|by intros [(_ & ? & _) _]].
      intros [(_ & _ & np' & [= <-] & ?) _]. congruence. }
  split.
  - intros nt nt' e e' M M' Ek Ep. assert (nt = nt') as <-; [|destruct M as [? _], M' as [? _]; congruence].
    apply (ni_excl _ _ Hi nt nt' e e' (addr_key (nt_alen e) (nt_taddr e), ntohs (nt_tport e))); [apply M|apply M'|..].
    + apply (Hown nt); [apply M|done].
    + apply (Hown nt'); [apply M'|]. by rewrite Ek, Ep.
  - intros key q Hq. rewrite (ni_used _ _ Hi key q Hq). split.
    + intros (nt & e & He & Ho). apply (Hown nt e _ He) in Ho as [M [= -> ->]]. eauto.
    + intros (nt & e & M & <- & <-). exists nt, e. split; [apply M|]. apply (Hown nt); [apply M|done].
Qed.


Lemma gc_flush_empty s now : conn_inv s → marker_ok s → (∀ p c, conns s !! p = Some c → c_refcnt c = 0) →
  conns (npf_conndb_gc params s now true) = ∅.
Proof.
  intros Hi Hmk H0. destruct (npf_conndb_gc_phases params s now true Hi Hmk) as (s1 & Hi1 & Hmk1 & Hsim & -> & Hn & Hl & _).
  destruct (gc_destroy_loop_spec s1 Hi1 Hmk1) as (Hi2 & _ & _ & Hsub & Hhead).
  destruct (gc_destroy_loop_lists (cd_gclist (conn_db s1)) s1) as [El En]. set (s2 := gc_destroy_loop _ s1) in *.
  assert (∀ p c, conns s2 !! p = Some c → c_refcnt c = 0) as Hz.
  { intros p c Hp%Hsub. specialize (Hsim p). rewrite Hp in Hsim. destruct (conns s !! p) as [d|] eqn:Hd; [|done].
    destruct Hsim as [-> _]. by apply (H0 p). }
  apply map_empty. intros p. apply eq_None_not_Some. intros Hp. apply (ci_lists s2 Hi2) in Hp. unfold all_lists in Hp.
  rewrite El, En, Hn, (Hl eq_refl) in Hp. simpl in Hp.
  destruct (cd_gclist (conn_db s2)) as [|q l] eqn:Eg; [by apply elem_of_nil in Hp|].
  assert (is_Some (conns s2 !! q)) as [c Hc].
  { apply (ci_lists s2 Hi2). unfold all_lists. rewrite Eg. set_solver. }
  by apply (Hhead q c eq_refl Hc), (Hz q).
Qed.

(** C29: A flush gives everything back: once no packet references a connection,
    a flushing pass of the collector leaves no connection and no translation
    entry, every port of every address is free again, and each policy is left
    with the references of its rule alone, so that the destruction of the rule
    frees it. *)
Theorem nat_flush_returns {NV} {NO : nvlist_ops NV} lo hi a r held s now : 1024 <= lo <= 65535 → 1024 <= hi <= 65535 →
  reachable NV NO lo hi a r (held, s) → (∀ p c, conns s !! p = Some c → c_refcnt c = 0) →
  let s' := npf_conndb_gc params s now true in
  conns s' = ∅ ∧ nats (env s') = ∅ ∧ (∀ key q, port_ok q → pm_used (portmap (env s')) key q = false) ∧
  (∀ p np, policies (env s') !! p = Some np → n_refcnt np = held p ∧ n_nat_list np = []) ∧
  (∀ p, held p = 1 → policies (env (npf_natpolicy_destroy s' p)) !! p = None).
Proof.
  intros Hlo Hhi Hr H0 s'. pose proof (nat_reachable_inv lo hi a r held s Hlo Hhi Hr) as Hs.
  pose proof (npf_conndb_gc_sys held s now true Hs) as Hs'. fold s' in Hs'. destruct Hs as [Hc Hm _ _].
  pose proof (gc_flush_empty s now Hc Hm H0) as He. fold s' in He. destruct Hs' as [Hc' Hm' Hi Hl].
  assert (nats (env s') = ∅) as Hn.
  { apply map_empty. intros nt. apply eq_None_not_Some. intros [e Hnt].
    assert (natof s' (nt_conn e) = Some nt) as X by (apply Hl; eauto). unfold natof in X. by rewrite He, lookup_empty in X. }
  assert (∀ p np, policies (env s') !! p = Some np → n_refcnt np = held p ∧ n_nat_list np = []) as Hpol.
  { intros p np Hp. destruct (ni_list _ _ Hi p np Hp) as (_ & _ & Hin). pose proof (ni_refs _ _ Hi p) as Hrf. rewrite Hp in Hrf.
    destruct (n_nat_list np) as [|x l]; [simpl in Hrf; split; [lia|done]|].
    destruct (proj1 (Hin x)) as (e & Hx & _); [left|]. by rewrite Hn, lookup_empty in Hx. }
  split_and!; try done.
  - intros key q Hq. apply not_true_is_false. intros (nt & e & Hx & _)%(ni_used _ _ Hi key q Hq). by rewrite Hn, lookup_empty in Hx.
  - intros p Hp. destruct (held_pos held (env s') p Hi ltac:(lia)) as [np Hnp]. destruct (Hpol p np Hnp) as [Hrc Hnl].
    unfold npf_natpolicy_destroy. rewrite Hnp, Hrc, Hp. simpl. unfold npf_natpolicy_release. rewrite Hnp, Hrc, Hp, Hnl. simpl.
    by rewrite lookup_delete_eq.
Qed.

End sys.

(** ** Witnesses *)

Abbreviation w_env := (nat_env (PM := gmap (list Z) Z) (AS := unit) (W := unit) (EP := unit)).
Abbreviation w_sys := (conn_sys (TM := sample_TM) (X := w_env)).
Abbreviation w_cfg := (nat_config (TB := gmap (list Z) npf_tblent) (LP := gmap (Z * Z * Z) npf_tblent) (CD := unit)).

Definition no_algs : npf_algset (AS := unit) (NT := npf_nat) (CS := w_sys) := npf_alg_init.

Lemma no_algs_ok : algs_ok no_algs.
Proof. intros a npc e di. by exists (nt_alg e), (nt_alg_arg e); destruct e. Qed.

Lemma no_algs_conn : algs_conn_ok no_algs.
Proof. intros held s npc di r s' npc' Hs [= <- <- <-]. exact Hs. Qed.

(** Outgoing packets are translated to 1.2.3.4, with a port of the port map. *)
Definition sample_natp : nv_map :=
  nvlist_add_binary (nvlist_add_number (nvlist_add_number nvlist_create "type" NPF_NATOUT)
    "flags" (NPF_NAT_PORTS ||| NPF_NAT_PORTMAP)) "nat-addr" [1; 2; 3; 4].

Definition sample_nat_rule : npf_rule :=
  mk_rule (NPF_RULE_PASS ||| NPF_RULE_DIMASK) 0 0 None (Some 1) None None 0 None None 0 "" [] None.

Definition sample_ncfg : w_cfg := mk_ncfg {[10 := sample_nat_rule]} (mk_ruleset [10] [] [] 0 1 [10]) ∅ [] (λ _ _, true).
Definition sample_nargs : nat_args := mk_nargs true true 100 (mk_port_args (λ _, true) 7).

Definition w_sys0 : w_sys := npf_conn_init (nat_init 1024 65535 tt (npf_ext_init tt)).
Definition w_sys1 : w_sys := npf_conn_tracking w_sys0 true.
Definition w_sys2 : w_sys := NpfNat.set_env w_sys1 (snd (npf_natpolicy_create (env w_sys1) sample_natp)).
Definition w_do_nat : option (Z * w_sys * npf_cache_t) :=
  npf_do_nat (MB := linear_mbufops) no_algs true sample_conn_params sample_ncfg sample_nargs w_sys2 sample_syn_npc None PFIL_OUT.
Definition w_sys3 : w_sys := match w_do_nat with Some (_, s, _) => s | None => w_sys2 end.

Abbreviation w_step := (nat_step (MB := linear_mbufops) (TB := gmap (list Z) npf_tblent)
  (LP := gmap (Z * Z * Z) npf_tblent) (CD := unit) no_algs true sample_conn_params (NV := nv_map)).

Lemma w_ctx : nat_ctx_ok (upd (λ _, 0) 1 1) sample_ncfg sample_nargs w_sys2 sample_syn_npc None.
Proof.
  assert (∀ p np, policies (env w_sys2) !! p = Some np → flag (n_flags np) NPF_NAT_USETABLE = false ∧ n_refcnt np < 2 ^ 32 - 1) as Hp.
  { apply (bool_decide_unpack (map_Forall (λ _ np, flag (n_flags np) NPF_NAT_USETABLE = false ∧ n_refcnt np < 2 ^ 32 - 1) _)).
    vm_compute. exact I. }
  split; try done.
  - intros rl r Hrl. cbn [nc_rules sample_ncfg] in Hrl. apply lookup_singleton_Some in Hrl as [<- <-]. split; [by vm_compute|]. intros _. by exists 1.
  - intros p np Hx. destruct (Hp p np Hx) as [? _]. congruence.
  - intros p np Hx. by apply (Hp p).
  - by left.
Qed.

Lemma w_reach : rtc w_step (λ _, 0, w_sys0) (upd (λ _, 0) 1 1, w_sys3).
Proof.
  apply rtc_l with (λ _, 0, w_sys1); [apply (ns_tracking _ _ _ (λ _, 0) w_sys0 true)|].
  apply rtc_l with (upd (λ _, 0) 1 1, w_sys2).
  { apply (ns_create _ _ _ (λ _, 0) w_sys1 sample_natp 1). by vm_compute. }
  apply rtc_once. assert (bool_decide (is_Some w_do_nat) = true) as Hsome by (vm_compute; reflexivity).
  destruct w_do_nat as [[[err s] npc]|] eqn:E; [clear Hsome|discriminate Hsome].
  unfold w_sys3. rewrite E. exact (ns_do_nat _ _ _ _ _ _ _ _ _ _ _ _ _ w_ctx E).
Qed.

(** The connection of the packet has an entry, and the policy the references of
    its rule and of the entry. *)
Lemma nat_refcounts_witness : natof w_sys3 1 = Some 2 ∧
  ∃ e np, nats (env w_sys3) !! 2 = Some e ∧ policies (env w_sys3) !! nt_natpolicy e = Some np ∧ n_refcnt np = 2.
Proof.
  destruct (nat_refcounts (MB := linear_mbufops) no_algs true sample_conn_params no_algs_ok no_algs_conn 1024 65535 tt (npf_ext_init tt)
    (upd (λ _, 0) 1 1) w_sys3 ltac:(lia) ltac:(lia) w_reach) as (_ & _ & Hl & _ & Hp & Hr & _).
  assert (natof w_sys3 1 = Some 2) as Hn by (by vm_compute). split; [done|].
  apply bind_Some in Hn as (c & Hc & Hn). destruct (Hl 1 c 2 Hc Hn) as (e & He & _). exists e.
  destruct (Hp 2 e He) as [np Hnp]. exists np. split_and!; [done|done|].
  assert (match nats (env w_sys3) !! 2 with Some e => nt_natpolicy e = 1 | None => True end) as E1 by (by vm_compute).
  rewrite He in E1. rewrite E1 in Hnp. destruct (Hr 1 np Hnp) as (-> & _).
  assert (match policies (env w_sys3) !! 1 with Some np => length (n_nat_list np) = 1%nat | None => True end) as E2 by (by vm_compute).
  rewrite Hnp in E2. by rewrite E2.
Defined.

Lemma nat_ports_exclusive_witness : pm_used (portmap (env w_sys3)) [0x04030201] 1031 = true ∧
  ∃ nt e, nats (env w_sys3) !! nt = Some e ∧ nt_taddr e = [0x04030201] ∧ ntohs (nt_tport e) = 1031.
Proof.
  destruct (nat_ports_exclusive (MB := linear_mbufops) no_algs true sample_conn_params no_algs_ok no_algs_conn 1024 65535 tt
    (npf_ext_init tt) (upd (λ _, 0) 1 1) w_sys3 ltac:(lia) ltac:(lia) w_reach) as [_ Hu].
  specialize (Hu [0x04030201] 1031 ltac:(unfold port_ok, PORTMAP_MAX_BITS; lia)).
  assert (pm_used (portmap (env w_sys3)) [0x04030201] 1031 = true) as H by (vm_compute; reflexivity). split; [exact H|].
  destruct (proj1 Hu H) as (nt & e & (He & _) & Ek & Eq). exists nt, e. split; [done|].
  split; [|done]. assert (map_Forall (λ _ e, nt_alen e = 4 ∧ length (nt_taddr e) = 1%nat) (nats (env w_sys3))) as Hall
    by (apply (bool_decide_unpack _); vm_compute; exact I).
  destruct (Hall nt e He) as [El Et]. rewrite El in Ek. unfold addr_key in Ek. change (nwords 4) with 1%nat in Ek.
  by rewrite take_ge in Ek by lia.
Defined.

Lemma nat_flush_returns_witness : conns w_sys3 ≠ ∅ ∧ nats (env w_sys3) ≠ ∅ ∧
  nats (env (npf_conndb_gc (CE := nat_conn_env no_algs true) sample_conn_params w_sys3 200 true)) = ∅.
Proof.
  split; [|split]; [by vm_compute..|].
  refine (proj1 (proj2 (nat_flush_returns (MB := linear_mbufops) no_algs true sample_conn_params no_algs_ok no_algs_conn 1024 65535 tt
    (npf_ext_init tt) (upd (λ _, 0) 1 1) w_sys3 200 _ _ w_reach _))); [lia|lia|].
  apply (bool_decide_unpack (map_Forall (λ _ c, c_refcnt c = 0) (conns w_sys3))). vm_compute. exact I.
Defined.

End NatSys.
