(* ===== verification/Handler.v ===== *)
(** * Handler: the packet handler (src/kern/npf_handler.c)

    [npfk_packet_handler] takes a packet through parsing, reassembly, the
    connections, the ruleset, NAT and the rule procedure, in this order.  Its
    labels [pass:], [block:] and [out:] are definitions over the local variables
    of the function.  The result tells what became of the packet: given back to
    the caller in [*mp] ([hr_mp], [[]] for NULL), freed, or taken by the
    reassembly, an extension or an ICMP error.

    Reassembly belongs to the IP stack: [ha_reass] is [ip_reass_packet] and
    [ip6_reass_packet], whose result is an error, no packet yet, or the packet. *)

From S2P Require Import Prelude Nbuf Cache Cksum Addr Rewrite Tcpopt StateTcp State IfMap ConnKey Thmap Portmap Ruleset Tableset Conn Sendpkt Nvlist Rproc Alg NpfNat NatRefs NatSys.
From stdpp Require Import strings.
Open Scope Z_scope.
Open Scope npf_scope.

Module Handler.
Export NatSys Sendpkt.

Definition NPF_NTAG_PASS : Z := 0x0001.

(** The statistics that the handler counts. *)
Inductive npf_stats_t :=
  | NPF_STAT_PASS_DEFAULT | NPF_STAT_PASS_RULESET | NPF_STAT_PASS_CONN
  | NPF_STAT_BLOCK_DEFAULT | NPF_STAT_BLOCK_RULESET
  | NPF_STAT_FRAGMENTS | NPF_STAT_REASSEMBLY | NPF_STAT_REASSFAIL.

Section handler.
Context {MB : npf_mbufops_t} {TM PM TB LP CD AS W EP : Type}.
Context {TO : thmap_ops (Z * npf_flow_t) TM} {TL : thmap_laws (Z * npf_flow_t) TM}.
Context {PO : thmap_ops Z PM} {PL : thmap_laws Z PM} {BO : thmap_ops npf_tblent TB} {BL : thmap_laws npf_tblent TB}.
Context {LO : lpm_ops npf_tblent LP} {LL : lpm_laws npf_tblent LP} {CO : cdbr_ops CD}.
Context {stk : ip_stack}.

Abbreviation env_t := (nat_env (PM := PM) (AS := AS) (W := W) (EP := EP)).
Abbreviation nsys := (conn_sys (TM := TM) (X := env_t)).

Context (algs : npf_algset (AS := AS) (NT := npf_nat) (CS := nsys)) (kmem : bool) (params : conn_params).
#[local] Hint Extern 0 (conn_env _) => exact (nat_conn_env algs kmem) : typeclass_instances.
#[local] Hint Extern 0 (rule_env _) => exact nat_rule_env : typeclass_instances.
Implicit Types (s : nsys) (E : env_t).

(** The active configuration. *)
Record handler_config := mk_hcfg {
  hc_ctx : npf_ip_params;
  hc_rules : gmap Z npf_rule;
  hc_ruleset : npf_ruleset;
  hc_default_pass : bool;
  hc_bpf : npf_cache_t → Z → bool;      (* the byte-code of a rule on a packet *)
  hc_nat : nat_config (TB := TB) (LP := LP) (CD := CD);
  hc_ip4_reassembly : bool;
  hc_ip6_reassembly : bool;
}.

(** What the environment decides: the stack garbage in [nbuf], the reassembly
    of a fragment (of IPv6?), whether the pool has a connection, what NAT needs,
    whether a buffer is available for an answer and the result of its output. *)
Record handler_args := mk_hargs {
  ha_nbuf : nbuf_t;
  ha_reass : bool → list mbuf → Z + list mbuf;
  ha_conn : bool;
  ha_nat : nat_args;
  ha_alloc : bool;
  ha_out : Z;
}.

(** The local variables, the system and the statistics. *)
Record handler_locals := mk_loc {
  l_npc : npf_cache_t;
  l_con : option Z;
  l_rp : option Z;
  l_error : Z;
  l_decision : Z;
  l_mi : npf_match_info;
  l_sys : nsys;
  l_stats : list npf_stats_t;
}.

Record handler_result := mk_hres {
  hr_error : Z;
  hr_mp : list mbuf;                 (* *mp; [] is NULL *)
  hr_freed : list mbuf;              (* what was given to m_freem *)
  hr_sent : option (list Z);         (* a reset that was sent *)
  hr_sys : nsys;
  hr_stats : list npf_stats_t;
}.

Definition sys_rproc_release (s : nsys) (rp : Z) : nsys :=
  NpfNat.set_env s (set_rps (env s) (npf_rproc_release (rps (env s)) rp)).

(** [m_freem] of the fragment and no packet left; or the error, [mff] and the
    packet to go on with. *)
Inductive reass_result := RFailed (error : Z) | RMore | RDone (error : Z) (npc : npf_cache_t).

(** The call of the IPv4 or IPv6 reassembly and what follows it. *)
Definition reass_packet (ha : handler_args) (npc : npf_cache_t) (v6 : bool) : option (reass_result * list npf_stats_t) :=
  match ha_reass ha v6 (nbuf_head_mbuf (npc_nbuf npc)) with
  | inl error => Some (RFailed error, [NPF_STAT_REASSFAIL])
  | inr [] => Some (RMore, [NPF_STAT_FRAGMENTS])
  | inr m =>
      let npc := set_nbuf npc (nbuf_init (npc_nbuf npc) m (nb_ifid (npc_nbuf npc))) in
      '(flags, npc) ← npf_cache_all (set_info npc 0);
      if flag flags (NPC_IPFRAG ||| NPC_FMTERR) then Some (RDone EINVAL npc, [])
      else Some (RDone 0 npc, [NPF_STAT_REASSEMBLY])
  end.

Definition npf_reassembly (cfg : handler_config) (ha : handler_args) (npc : npf_cache_t) :
    option (reass_result * list npf_stats_t) :=
  if npf_iscached npc NPC_IP4 && hc_ip4_reassembly cfg then reass_packet ha npc false
  else if npf_iscached npc NPC_IP6 && hc_ip6_reassembly cfg then reass_packet ha npc true
  else Some (RDone 0 npc, []).

Definition npf_packet_bypass_tag_p (nbuf : nbuf_t) : bool :=
  let '(err, ntag) := nbuf_find_tag nbuf in (err =? 0) && flag ntag NPF_NTAG_PASS.

(** The label [out:]. *)
Definition handler_out (ha : handler_args) (l : handler_locals) : handler_result :=
  let s := match l_con l, l_rp l with
           | Some con, _ => npf_conn_release (l_sys l) con
           | None, Some rp => sys_rproc_release (l_sys l) rp
           | None, None => l_sys l
           end in
  let mp := nbuf_head_mbuf (npc_nbuf (l_npc l)) in
  match mp with
  | [] => mk_hres (if negb (l_error l =? 0) then l_error l else ENOMEM) [] [] None s (l_stats l)
  | _ =>
      if (l_decision l =? NPF_DECISION_PASS) && (l_error l =? 0) then mk_hres 0 mp [] None s (l_stats l) else
      let retfl := mi_retfl (l_mi l) in
      let '(consumed, sent) :=
        if negb (retfl =? 0) then npf_return_block (l_npc l) retfl (ha_alloc ha) (ha_out ha) else (false, None) in
      mk_hres (if l_error l =? 0 then ENETUNREACH else l_error l) [] (if consumed : bool then [] else mp) sent s (l_stats l)
  end.

(** The label [block:]. *)
Definition handler_block (ha : handler_args) (l : handler_locals) : option handler_result :=
  match l_rp l with
  | None => Some (handler_out ha l)
  | Some rp =>
      '(ok, decision, npc, r) ← npf_rproc_run (rps (env (l_sys l))) (l_npc l) rp (l_mi l) (l_decision l);
      let s := NpfNat.set_env (l_sys l) (set_rps (env (l_sys l)) r) in
      if ok : bool then Some (handler_out ha (mk_loc npc (l_con l) (l_rp l) (l_error l) decision (l_mi l) s (l_stats l)))
      else
        let s := match l_con l with Some con => npf_conn_release s con | None => s end in
        Some (mk_hres 0 [] [] None (sys_rproc_release s rp) (l_stats l))
  end.

(** The label [pass:]. *)
Definition handler_pass (cfg : handler_config) (ha : handler_args) (di : Z) (l : handler_locals) : option handler_result :=
  '(error, s, npc) ← npf_do_nat algs kmem params (hc_nat cfg) (ha_nat ha) (l_sys l) (l_npc l) (l_con l) di;
  handler_block ha (mk_loc npc (l_con l) (l_rp l) error NPF_DECISION_PASS (l_mi l) s (l_stats l)).

(** A rule that matches: its procedure, its verdict and, for a stateful rule,
    the "pass" connection. *)
Definition handler_rule (cfg : handler_config) (ha : handler_args) (di : Z) (l : handler_locals) (r : npf_rule) :
    option handler_result :=
  let '(rp, s) := npf_rule_getrproc r (l_sys l) in
  let '(error, mi) := npf_rule_conclude r (l_mi l) in
  let l := mk_loc (l_npc l) (l_con l) rp error (l_decision l) mi s (l_stats l) in
  let stat st := mk_loc (l_npc l) (l_con l) (l_rp l) (l_error l) (l_decision l) (l_mi l) (l_sys l) (l_stats l ++ [st]) in
  if negb (error =? 0) then handler_block ha (stat NPF_STAT_BLOCK_RULESET) else
  let l := stat NPF_STAT_PASS_RULESET in
  match l_con l with
  | None =>
      if flag (mi_retfl mi) NPF_RULE_STATEFUL then
        '(con, s, npc) ← npf_conn_establish params (l_sys l) (l_npc l) di (na_now (ha_nat ha))
                           (negb (flag (mi_retfl mi) NPF_RULE_GSTATEFUL)) (ha_conn ha);
        let s := match con with Some c => npf_conn_setpass s c (mi_retfl mi) (mi_rid mi) rp | None => s end in
        handler_pass cfg ha di (mk_loc npc con rp (l_error l) (l_decision l) mi s (l_stats l))
      else handler_pass cfg ha di l
  | Some _ => handler_pass cfg ha di l
  end.

(** From the tag on: the connections, then the ruleset. *)
Definition handler_inspect (cfg : handler_config) (ha : handler_args) (di : Z) (l : handler_locals) : option handler_result :=
  if npf_packet_bypass_tag_p (npc_nbuf (l_npc l)) then handler_pass cfg ha di l else
  '(con, error, _, s, npc) ← npf_conn_inspect params (npf_alg_conn algs) (l_sys l) (l_npc l) di (na_now (ha_nat ha));
  let found := c ← con; c ← conns s !! c; npf_conn_pass c in
  match found with
  | Some (retfl, rid, rp) =>
      handler_pass cfg ha di
        (mk_loc npc con rp error (l_decision l) (mk_match_info retfl rid di) s (l_stats l ++ [NPF_STAT_PASS_CONN]))
  | None =>
      let l := mk_loc npc con (l_rp l) error (l_decision l) (l_mi l) s (l_stats l) in
      let stat st := mk_loc (l_npc l) (l_con l) (l_rp l) (l_error l) (l_decision l) (l_mi l) (l_sys l) (l_stats l ++ [st]) in
      if negb (error =? 0) then
        if error =? ENETUNREACH then handler_block ha l else Some (handler_out ha l)
      else
        rl ← npf_ruleset_inspect (hc_bpf cfg npc) di (nb_ifid (npc_nbuf npc)) (hc_rules cfg) (hc_ruleset cfg);
        match rl with
        | None =>
            if hc_default_pass cfg then handler_pass cfg ha di (stat NPF_STAT_PASS_DEFAULT)
            else handler_block ha (stat NPF_STAT_BLOCK_DEFAULT)
        | Some rl => r ← hc_rules cfg !! rl; handler_rule cfg ha di l r
        end
  end.

(** [ifid] is the identifier of [ifp], as [nbuf_init] finds it. *)
Definition npfk_packet_handler (cfg : handler_config) (ha : handler_args) (s : nsys) (mp : list mbuf) (ifid di : Z) :
    option handler_result :=
  let npc := mk_npc (hc_ctx cfg) 0 (nbuf_init (ha_nbuf ha) mp ifid) 0 0 0 0 0 0 None None in
  let mi := mk_match_info 0 0 di in
  '(flags, npc) ← npf_cache_all npc;
  let l := mk_loc npc None None 0 NPF_DECISION_BLOCK mi s [] in
  if flag flags NPC_FMTERR then Some (handler_out ha (mk_loc npc None None EINVAL NPF_DECISION_BLOCK mi s [])) else
  if flag flags NPC_IPFRAG then
    '(r, st) ← npf_reassembly cfg ha npc;
    match r with
    | RFailed error => Some (mk_hres error [] (nbuf_head_mbuf (npc_nbuf npc)) None s st)
    | RMore => Some (mk_hres 0 [] [] None s st)
    | RDone error npc =>
        let l := mk_loc npc None None error NPF_DECISION_BLOCK mi s st in
        if negb (error =? 0) then Some (handler_out ha l) else handler_inspect cfg ha di l
    end
  else handler_inspect cfg ha di l.

(** ** Frames: what an operation does to references *)

(** The references on a connection, its rule procedure and whether it passes. *)
Definition crule (c : npf_conn) : option Z * bool := (c_rproc c, flag (c_flags c) CONN_PASS).
Definition cview (s : nsys) (q : Z) : Z * (option Z * bool) :=
  match conns s !! q with Some c => (c_refcnt c, crule c) | None => (0, (None, false)) end.
Definition conn_refs (s : nsys) (q : Z) : Z := fst (cview s q).

(** [s'] has one reference more on the connection [k], if any, and nothing
    else that counts references has changed. *)
Record holds (s s' : nsys) (k : option Z) : Prop := {
  ho_rps : rps (env s') = rps (env s);
  ho_view : ∀ q, cview s' q =
    if decide (k = Some q) then (u32 (fst (cview s q) + 1), snd (cview s q)) else cview s q;
  ho_live : ∀ q, is_Some (conns s !! q) ∨ k = Some q → is_Some (conns s' !! q);
}.
Abbreviation frame s s' := (holds s s' None).

Lemma frame_same s s' : rps (env s') = rps (env s) → conns s' = conns s → frame s s'.
Proof. intros He Hc. split; [done| |]; unfold cview; rewrite Hc; [done|]. intros q [Hq|Hq]; done. Qed.

Lemma holds_frame s s1 s2 k : holds s s1 k → frame s1 s2 → holds s s2 k.
Proof.
  intros [E1 V1 L1] [E2 V2 L2]. split; [congruence| |].
  - intros q. rewrite V2. exact (V1 q).
  - intros q Hq. apply L2. left. by apply L1.
Qed.

Lemma frame_holds s s1 s2 k : frame s s1 → holds s1 s2 k → holds s s2 k.
Proof.
  intros [E1 V1 L1] [E2 V2 L2]. split; [congruence| |].
  - intros q. rewrite V2, (V1 q). done.
  - intros q [Hq|Hq]; apply L2; [left; apply L1; by left|by right].
Qed.

Lemma cview_upd s p f q : cview (upd_conn s p f) q =
  if decide (p = q) then match conns s !! q with Some c => (c_refcnt (f c), crule (f c)) | None => (0, (None, false)) end else cview s q.
Proof.
  unfold cview. cbn [conns upd_conn set_conns]. rewrite lookup_alter_conn. case_decide; [|done].
  by destruct (conns s !! q).
Qed.

Lemma upd_conn_live s p f q : is_Some (conns (upd_conn s p f) !! q) ↔ is_Some (conns s !! q).
Proof. cbn [conns upd_conn set_conns]. rewrite lookup_alter_conn. case_decide; [by rewrite fmap_is_Some|done]. Qed.

Lemma frame_upd s p f : (∀ c, c_refcnt (f c) = c_refcnt c ∧ crule (f c) = crule c) → frame s (upd_conn s p f).
Proof.
  intros Hf. split; [done| |].
  - intros q. rewrite cview_upd, (decide_False (P := None = Some q)) by done. case_decide; [|done]. unfold cview.
    destruct (conns s !! q) as [c|]; [|done]. by destruct (Hf c) as [-> ->].
  - intros q [Hq|Hq]; [by apply upd_conn_live|done].
Qed.

Lemma crule_or f c : flag f CONN_PASS = false → crule (or_flags f c) = crule c.
Proof. intros Hf. unfold crule. cbn [c_rproc c_flags or_flags set_flags]. by rewrite flag_lor, Hf, orb_false_r. Qed.

(** Reference counts are 32-bit numbers. *)
Definition refs_ok (s : nsys) : Prop := ∀ q, inw 32 (conn_refs s q).

Lemma holds_release s s' c : refs_ok s → holds s s' (Some c) → frame s (npf_conn_release s' c).
Proof.
  intros Hr [E V L]. split; [done| |].
  - intros q. unfold npf_conn_release. rewrite cview_upd, (decide_False (P := None = Some q)) by done.
    pose proof (V q) as Vq. destruct (decide (c = q)) as [<-|Ec].
    + rewrite decide_True in Vq by done. destruct (L c) as [cn Hc]; [by right|].
      unfold cview at 1 in Vq. rewrite Hc in *. injection Vq as Vr Vp.
      assert (∀ b : bool, c_refcnt (if b then or_flags CONN_ACTIVE cn else cn) = c_refcnt cn ∧
        crule (if b then or_flags CONN_ACTIVE cn else cn) = crule cn) as Hb by (intros []; by rewrite ?crule_or).
      change (crule (set_ref ?n ?c)) with (crule c). cbn [c_refcnt set_ref]. rewrite (proj1 (Hb _)), (proj2 (Hb _)), Vr, Vp.
      specialize (Hr c). unfold conn_refs, inw in Hr. destruct (cview s c) as [n rp]. cbn [fst snd] in *.
      f_equal. unfold wrap. rewrite Zminus_mod_idemp_l. rewrite Z.mod_small; lia.
    + rewrite decide_False in Vq by congruence. exact Vq.
  - intros q [Hq|Hq]; [|discriminate Hq]. apply upd_conn_live. apply L. by left.
Qed.

Lemma holds_refs_ok s s' k : refs_ok s → holds s s' k → refs_ok s'.
Proof.
  intros Hr [_ V _] q. unfold conn_refs. rewrite V. case_decide; [apply wrap_range; lia|apply Hr].
Qed.


(** *** Connections *)

Lemma frame_env s E : rps E = rps (env s) → frame s (NpfNat.set_env s E).
Proof. intros HE. by apply frame_same. Qed.

Lemma frame_refl s : frame s s.
Proof. by apply frame_same. Qed.

Lemma npf_conn_lookup_holds s npc di now : conn_inv s → refs_ok s →
  let '(r, s') := npf_conn_lookup params s npc di now in holds s s' (fst <$> r).
Proof.
  intros Hi Hr. unfold npf_conn_lookup, npf_conndb_lookup.
  destruct (npf_conn_conkey _ _ _ _) as [[key l]|]; [|apply frame_refl].
  destruct (thmap_get _ _) as [[con flow]|] eqn:Eg; [|apply frame_refl].
  apply (ci_map s Hi) in Eg as (c & Hc & _). set (s1 := upd_conn s con _).
  assert (holds s s1 (Some con)) as H1.
  { split; [done| |].
    - intros q. unfold s1. rewrite cview_upd. destruct (decide (con = q)) as [<-|Hq].
      + rewrite Hc, decide_True by done. unfold cview. by rewrite Hc.
      + by rewrite decide_False by congruence.
    - intros q [Hq|Hq]; apply upd_conn_live; [done|]. injection Hq as <-. eauto. }
  assert (conns s1 !! con = Some (set_ref (u32 (c_refcnt c + 1)) c)) as ->.
  { unfold s1. cbn [conns upd_conn set_conns]. rewrite lookup_alter_conn, decide_True, Hc by done. done. }
  destruct (negb _); simpl; [|by eapply holds_frame; [exact H1|apply frame_upd]].
  (* The reference is dropped like [npf_conn_release] does. *)
  pose proof (holds_release s s1 con Hr H1) as [E V L]. split; [done| |].
  - intros q. rewrite <- (V q). unfold npf_conn_release. rewrite !cview_upd. case_decide; [|done].
    destruct (conns s1 !! q) as [d|]; [|done]. case_if; [|done]. f_equal. symmetry. by apply (crule_or CONN_ACTIVE d).
  - intros q [Hq|Hq]; [|discriminate Hq]. apply upd_conn_live, (ho_live _ _ _ H1). by left.
Qed.

(** What the handler relies on in the ALGs that look connections up: the
    environment is left alone, no connection is made, one that is found is
    referenced, and a packet that counts as parsed has an address length. *)
Definition calen (npc : npf_cache_t) : Prop := npf_iscached npc NPC_IP46 = true → alen_ok (npc_alen npc).

Definition algs_hold : Prop := ∀ s npc di r s' npc', conn_inv s → refs_ok s →
  npf_alg_conn algs s npc di = Some (r, s', npc') →
  env s' = env s ∧ holds s s' r ∧ conn_inv s' ∧ (calen npc → calen npc') ∧
  ∀ q, is_Some (conns s' !! q) → is_Some (conns s !! q).

Lemma npf_conn_establish_holds s npc di now global avail r s' npc' : conn_inv s →
  npf_conn_establish params s npc di now global avail = Some (r, s', npc') → holds s s' r.
Proof.
  intros Hi E. destruct (npf_conn_establish_natof algs kmem params s npc di now global avail r s' npc' Hi E) as [[He _] _].
  assert (rps (env s') = rps (env s)) as Hrps by (by rewrite He).
  destruct (npf_conn_establish_cases params s npc di now global avail r s' npc' Hi E) as [(-> & Hc & _)|Hcase]; [by apply frame_same|].
  destruct Hcase as (nst & fw & bk & ifid & lf & lb & m & c & pl & Ef & Eb & Es & _ & _ & _ & _ & Hc).
  assert (conns s !! next_conn s = None) as Hno.
  { destruct (conns s !! next_conn s) eqn:X; [|done]. pose proof (ci_fresh s Hi (next_conn s) ltac:(eauto)). lia. }
  assert (conns s' = <[next_conn s := c]> (conns s)) as Hcs by (by rewrite Es).
  split; [done| |].
  - intros q. unfold cview. rewrite Hcs, lookup_insert_if. destruct (decide (next_conn s = q)) as [<-|Hq].
    + rewrite Hno. destruct Hc as [[-> ->]|(-> & _ & (Hc1 & Hc2 & Hc3) & _)].
      * rewrite !decide_True by done. unfold crule. cbn [new_conn c_rproc c_flags c_refcnt]. by rewrite dir_flags_clear by auto.
      * rewrite decide_True, decide_False by done. unfold crule. by rewrite Hc1, Hc2, Hc3.
    + rewrite !decide_False; [done| |done]. destruct Hc as [[-> _]|[-> _]]; congruence.
  - intros q Hq. rewrite Hcs, lookup_insert_if. case_decide; [eauto|]. destruct Hq as [|Hq]; [done|].
    destruct Hc as [[-> _]|[-> _]]; congruence.
Qed.


Lemma npf_conn_inspect_holds s npc di now r e b s' npc' : algs_hold → conn_inv s → refs_ok s →
  npf_conn_inspect params (npf_alg_conn algs) s npc di now = Some (r, e, b, s', npc') → holds s s' r.
Proof.
  intros Ha Hi Hr. unfold npf_conn_inspect. case_if; [intros [= <- <- <- <- <-]; apply frame_refl|].
  destruct (npf_alg_conn algs s npc di) as [[[acon s1] npc1]|] eqn:Ea; [|done]. cbn [mbind option_bind].
  destruct (Ha _ _ _ _ _ _ Hi Hr Ea) as (_ & H1 & Hi1 & _ & _).
  destruct acon as [con|]; [by intros [= <- <- <- <- <-]|]. case_if; [by intros [= <- <- <- <- <-]|].
  pose proof (holds_refs_ok _ _ _ Hr H1) as Hr1. pose proof (npf_conn_lookup_holds s1 npc1 di now Hi1 Hr1) as H2.
  destruct (npf_conn_lookup params s1 npc1 di now) as [[[con flow]|] s2]; simpl in H2;
    [|intros [= <- <- <- <- <-]; by eapply frame_holds].
  destruct (conns s2 !! con) as [c|]; [|done]. destruct (npf_state_inspect _ _ _ _) as [[[[ok st] nst] npc2]|]; [|done].
  assert (holds s1 (upd_conn s2 con (set_state nst)) (Some con)) as H3 by (by eapply holds_frame; [exact H2|apply frame_upd]).
  destruct ok; intros [= <- <- <- <- <-]; (eapply frame_holds; [exact H1|]); [done|by apply holds_release].
Qed.

(** *** NAT *)

Lemma npf_conn_setnat_frame s p nt ntype : frame s (snd (npf_conn_setnat s p nt ntype)).
Proof.
  unfold npf_conn_setnat. destruct (conns s !! p) as [c|]; [|apply frame_refl].
  destruct (env_nat_gettrans (env s) nt) as [taddr tport]. case_if; [apply frame_refl|].
  destruct (c_nat c); [apply frame_refl|]. destruct (npf_conndb_remove _ _) as [? cd1].
  destruct (npf_conndb_insert _ _ _ _) as [ok cd2]. destruct (npf_conndb_remove cd2 (c_forw c)) as [? cd3].
  destruct ok; simpl; (eapply holds_frame; [apply frame_upd|by apply frame_same]); [done|].
  intros d. split; [done|]. by apply (crule_or (CONN_REMOVED ||| CONN_EXPIRE) (set_back _ d)).
Qed.

Lemma release_rps E p : rps (npf_natpolicy_release E p) = rps E.
Proof. unfold npf_natpolicy_release. repeat case_match; done. Qed.

Lemma destroy_rps E con p : rps (npf_nat_destroy (TM := TM) algs kmem E con p) = rps E.
Proof.
  unfold npf_nat_destroy. destruct (nats E !! p) as [nt|]; [|done]. destruct (policies E !! _) as [np|]; [|done].
  cbv zeta. cbn [rps set_nats]. rewrite release_rps. cbn [rps set_policies nat_stats].
  unfold npf_nat_getalg. destruct (nt_alg nt); (case_if; [|done]); by destruct (npf_portmap_put _ _ _ _ _).
Qed.

Lemma create_rps T ts avail pa E npc p con r E' :
  npf_nat_create (TB := TB) (LP := LP) (CD := CD) kmem T ts avail pa E npc p con = Some (r, E') → rps E' = rps E.
Proof.
  unfold npf_nat_create. destruct (policies E !! p) as [np|]; [|by intros [= <- <-]]. case_if; [by intros [= <- <-]|].
  destruct (if flag _ NPF_NAT_USETABLE then _ else _) as [[[a|] np']|]; [|by intros [= <- <-]..].
  set (x := if negb _ || _ then _ else _). destruct x as [[[o t] pm]|]; [|done]. by intros [= <- <-].
Qed.

Lemma nat_translate_frame s npc nt di flow err s' npc' :
  nat_translate algs s npc nt di flow = Some (err, s', npc') → frame s s'.
Proof.
  unfold nat_translate. destruct (nats (env s) !! nt); [|by intros [= <- <- <-]; apply frame_env].
  destruct (policies (env s) !! _); [|by intros [= <- <- <-]; apply frame_env].
  destruct (if nbuf_cksum_barrier _ _ then _ else _); [|done]. simpl.
  destruct (npf_dnat_translate _ _ _ _ _ _) as [[[? ?] ?]|]; [|done]. simpl. intros [= <- <- <-]. by apply frame_env.
Qed.

Lemma nat_establish_frame cfg na s npc p con di err s' npc' :
  nat_establish (TB := TB) (LP := LP) (CD := CD) algs kmem cfg na s npc p con di = Some (err, s', npc') → frame s s'.
Proof.
  unfold nat_establish. destruct (npf_nat_create _ _ _ _ _ _ _ _ _) as [[nt E]|] eqn:Ec; [|done].
  apply create_rps in Ec. cbn [mbind option_bind].
  destruct nt as [nt|]; [|intros [= <- <- <-]; apply frame_env; by rewrite release_rps].
  destruct (nats E !! nt) as [e|]; [|by intros [= <- <- <-]; apply frame_env].
  destruct (policies E !! p) as [np|]; [|by intros [= <- <- <-]; apply frame_env].
  destruct (npf_alg_match algs (alg_state E) npc e di) as [[mt e'] a]. set (E2 := set_alg_state _ a).
  assert (frame s (NpfNat.set_env s E2)) as H1 by (by apply frame_env).
  pose proof (npf_conn_setnat_frame (NpfNat.set_env s E2) con nt (n_type np)) as H2.
  destruct (npf_conn_setnat (NpfNat.set_env s E2) con nt (n_type np)) as [error s2]. cbn [snd] in H2.
  pose proof (holds_frame _ _ _ _ H1 H2) as H3. case_if.
  - intros [= <- <- <-]. eapply holds_frame; [exact H3|]. apply frame_env, destroy_rps.
  - intros Et%nat_translate_frame. by eapply holds_frame.
Qed.

Lemma npf_do_nat_frame cfg na s npc con di err s' npc' : conn_inv s → refs_ok s →
  npf_do_nat (TB := TB) (LP := LP) (CD := CD) algs kmem params cfg na s npc con di = Some (err, s', npc') → frame s s'.
Proof.
  intros Hi Hr. unfold npf_do_nat. case_if; [intros [= <- <- <-]; apply frame_refl|].
  destruct (match con with Some c => _ | None => _ end) as [found bad]. case_if; [by intros [= <- <- <-]; apply frame_env|].
  destruct found as [[nt flow]|]; [by apply nat_translate_frame|].
  destruct (npf_nat_inspect cfg (env s) npc di) as [[r E]|] eqn:Ei; [|done]. cbn [mbind option_bind].
  assert (rps E = rps (env s)) as HE.
  { unfold npf_nat_inspect in Ei. destruct (npf_ruleset_inspect _ _ _ _ _) as [rl|]; [|done]. simpl in Ei. repeat case_match; by simplify_eq. }
  pose proof (frame_env s E HE) as H0. set (s0 := NpfNat.set_env s E) in *. destruct r as [p|]; [|by intros [= <- <- <-]].
  destruct (policies E !! p) as [np|]; [|by intros [= <- <- <-]; eapply holds_frame; [exact H0|apply frame_env]].
  case_if.
  { destruct (if nbuf_cksum_barrier _ _ then _ else _) as [npc1|]; [|done]. cbn [mbind option_bind].
    destruct (npf_snat_translate npc1 np NPF_FLOW_FORW). intros [= <- <- <-].
    eapply holds_frame; [exact H0|]. apply frame_env. by rewrite release_rps. }
  destruct con as [c|]; [intros He%nat_establish_frame; by eapply holds_frame|].
  assert (conn_inv s0) as Hi0 by (by apply set_env_conn).
  destruct (npf_conn_establish params s0 npc di _ true _) as [[[r2 s2] npc2]|] eqn:E2; [|done]. cbn [mbind option_bind].
  apply npf_conn_establish_holds in E2; [|done]. pose proof (frame_holds _ _ _ _ H0 E2) as H2.
  destruct r2 as [c|]; [|intros [= <- <- <-]; eapply holds_frame; [exact H2|apply frame_env; by rewrite release_rps]].
  destruct (nat_establish _ _ _ _ _ _ _ _ _) as [[[err3 s3] npc3]|] eqn:E3; [|done]. cbn [mbind option_bind nat_out].
  apply nat_establish_frame in E3. intros [= <- <- <-]. apply holds_release; [done|].
  eapply holds_frame; [eapply holds_frame; [exact H2|exact E3]|]. case_if; [|apply frame_refl].
  apply frame_upd. intros d. split; [done|by apply crule_or].
Qed.


(** *** A packet that counts as parsed has an address length *)

Lemma npf_ip6_ext_loop_info fuel : ∀ npc hlen fp fl npc' r, npf_ip6_ext_loop fuel npc hlen fp fl = Some (npc', r) →
  npc_info npc' = npc_info npc.
Proof.
  induction fuel as [|fuel IH]; intros npc hlen fp fl npc' r; [done|]. cbn [npf_ip6_ext_loop].
  destruct (nbuf_advance _ _ _) as [[o|] nb]; [|by intros [= <- <-]].
  destruct (npf_ip6_ext_step _ _ _ _) as [[nb'|nb' fl'|nb' hl nx] fp']; [by intros [= <- <-]..|]. intros Hl. by rewrite (IH _ _ _ _ _ _ Hl).
Qed.

Lemma npf_cache_ip_calen npc fl npc' : npf_cache_ip npc = Some (fl, npc') →
  npc_info npc' = npc_info npc ∧ (flag fl NPC_IP46 = true → alen_ok (npc_alen npc')).
Proof.
  unfold npf_cache_ip. case_if; [|case_if; [|by intros [= <- <-]]].
  - unfold npf_cache_ip4. destruct (nbuf_ensure_contig _ _) as [[ip|] nb]; [|by intros [= <- <-]].
    do 2 (case_if; [by intros [= <- <-]|]). destruct (nbuf_ensure_contig nb _) as [[ip'|] nb']; intros [= <- <-]; [|done].
    split; [done|]. intros _. by left.
  - unfold npf_cache_ip6. destruct (nbuf_ensure_contig _ _) as [[ip|] nb]; [|by intros [= <- <-]].
    destruct (npf_ip6_ext_loop _ _ _ _ _) as [[npc1 [fl1|]]|] eqn:El; [| |done]; apply npf_ip6_ext_loop_info in El; intros [= <- <-]; [|done].
    split; [done|]. intros _. by right.
Qed.

Lemma npf_cache_again_calen fuel : ∀ npc fl npc', npf_cache_again fuel npc = Some (fl, npc') →
  npc_info npc' = npc_info npc ||| fl ∧ (flag fl NPC_IP46 = true → alen_ok (npc_alen npc')).
Proof.
  induction fuel as [|fuel IH]; intros npc fl npc'; [done|]. cbn [npf_cache_again].
  destruct (npf_cache_ip _) as [[fl1 npc1]|] eqn:Ei; [|done]. apply npf_cache_ip_calen in Ei as [Hi Ha].
  change (npc_info (set_nbuf npc _)) with (npc_info npc) in Hi.
  case_if; [intros [= <- <-]; cbn; by rewrite Hi|].
  pose proof (npf_cache_l4_alen npc1) as E4. assert (npc_info (snd (npf_cache_l4 npc1)) = npc_info npc1) as I4.
  { unfold npf_cache_l4, npf_cache_tcp, npf_cache_l4_adv. repeat case_match; by simplify_eq. }
  assert (flag (fst (npf_cache_l4 npc1)) NPC_IP46 = false) as F4.
  { unfold npf_cache_l4, npf_cache_tcp, npf_cache_l4_adv. repeat case_match; by simplify_eq. }
  destruct (npf_cache_l4 npc1) as [fl4 npc4]. cbn [fst snd] in *.
  case_if; [intros [= <- <-]; cbn; by rewrite I4, Hi|].
  case_if; [intros [H1 H2]%IH; split; [by rewrite H1, I4, Hi|done]|].
  intros [= <- <-]. cbn. rewrite I4, Hi. split; [done|]. rewrite flag_lor, F4, orb_false_r, E4. exact Ha.
Qed.

Lemma npf_cache_all_calen npc fl npc' : npc_info npc = 0 → npf_cache_all npc = Some (fl, npc') → calen npc'.
Proof. intros H0 [H1 H2]%npf_cache_again_calen. unfold calen, npf_iscached. by rewrite H1, H0, Z.lor_0_l. Qed.

Lemma npf_recache_calen npc npc' : npf_recache npc = Some npc' → calen npc'.
Proof.
  unfold npf_recache. destruct (npf_cache_all _) as [[fl npc1]|] eqn:E; [|done]. intros [= <-]. by eapply npf_cache_all_calen in E.
Qed.

Lemma tcpopt_done_calen npc npc' : tcpopt_done npc = Some npc' → calen npc → calen npc'.
Proof. unfold tcpopt_done. case_if; [by intros ?%npf_recache_calen|by intros [= <-]]. Qed.

Lemma npf_fetch_tcpopts_calen npc mss ws r : npf_fetch_tcpopts npc mss ws = Some r → calen npc → calen (snd r).
Proof.
  unfold npf_fetch_tcpopts. case_if; [by intros [= <-]|]. destruct (nbuf_advance _ _ _) as [[cp|] nb].
  - destruct (fetch_tcpopts_loop _ _ _ _ _ _) as [[m w]|]; [|done]. simpl.
    destruct (tcpopt_done _) eqn:E; [|done]. intros [= <-]. exact (tcpopt_done_calen _ _ E).
  - destruct (tcpopt_done _) eqn:E; [|done]. intros [= <-]. exact (tcpopt_done_calen _ _ E).
Qed.

Lemma npf_state_tcp_calen p npc nst flow ok st nst' npc' :
  npf_state_tcp p npc nst flow = Some (ok, st, nst', npc') → calen npc → calen npc'.
Proof.
  unfold npf_state_tcp. destruct (npf_tcp_inwindow p npc nst flow) as [[[[o t] n] npc1]|] eqn:E; [|done].
  assert (calen npc → calen npc1) as H1.
  { unfold npf_tcp_inwindow in E. destruct (nst_maxwin _ =? 0).
    { destruct (npf_fetch_tcpopts npc None 0) as [[[[a b] c] d]|] eqn:Ef; [|done]. pose proof (npf_fetch_tcpopts_calen _ _ _ _ Ef) as Hf. by simplify_eq/=. }
    destruct (nst_end _ =? 0); [destruct (flag _ TH_SYN)|]; simpl in E.
    - destruct (npf_fetch_tcpopts npc None 0) as [[[[a b] c] d]|] eqn:Ef; [|done]. pose proof (npf_fetch_tcpopts_calen _ _ _ _ Ef) as Hf. simpl in E.
      destruct (tcp_boundaries _ _ _ _ _ _) as [[[? ?] ?] ?]. by simplify_eq/=.
    - destruct (tcp_boundaries _ _ _ _ _ _) as [[[? ?] ?] ?]. by simplify_eq/=.
    - destruct (tcp_boundaries _ _ _ _ _ _) as [[[? ?] ?] ?]. by simplify_eq/=. }
  simpl. intros Hr. repeat case_match; by simplify_eq.
Qed.

Lemma npf_state_inspect_calen p npc nst flow ok st nst' npc' :
  npf_state_inspect p npc nst flow = Some (ok, st, nst', npc') → calen npc → calen npc'.
Proof.
  unfold npf_state_inspect. case_if; [apply npf_state_tcp_calen|]. case_if; by intros [= <- <- <- <-].
Qed.

Lemma npf_state_init_calen p npc ok st nst npc' : npf_state_init p npc = Some (ok, st, nst, npc') → calen npc → calen npc'.
Proof. unfold npf_state_init. case_if; [apply npf_state_tcp_calen|]. case_if; by intros [= <- <- <- <-]. Qed.

Lemma npf_conn_establish_calen s npc di now global avail r s' npc' :
  npf_conn_establish params s npc di now global avail = Some (r, s', npc') → calen npc → calen npc'.
Proof.
  unfold npf_conn_establish. do 2 (case_if; [by intros [= <- <- <-]|]).
  destruct (npf_state_init _ npc) as [[[[ok b] nst] npc1]|] eqn:E; [|done]. pose proof (npf_state_init_calen _ _ _ _ _ _ E) as Hc.
  destruct ok; [|intros [= <- <- <-]; exact Hc]. repeat case_match; intros; simplify_eq; auto.
Qed.

(** What [npf_conn_inspect] leaves. *)
Lemma npf_conn_inspect_rest s npc di now r e b s' npc' : algs_hold → conn_inv s → refs_ok s →
  npf_conn_inspect params (npf_alg_conn algs) s npc di now = Some (r, e, b, s', npc') →
  env s' = env s ∧ (calen npc → calen npc').
Proof.
  intros Ha Hi Hr. unfold npf_conn_inspect. case_if; [by intros [= <- <- <- <- <-]|].
  destruct (npf_alg_conn algs s npc di) as [[[acon s1] npc1]|] eqn:Ea; [|done]. cbn [mbind option_bind].
  destruct (Ha _ _ _ _ _ _ Hi Hr Ea) as (E1 & _ & _ & C1 & _).
  destruct acon as [con|]; [by intros [= <- <- <- <- <-]|]. case_if; [by intros [= <- <- <- <- <-]|].
  destruct (npf_conn_lookup_natof params s1 npc1 di now) as [E2 _].
  destruct (npf_conn_lookup params s1 npc1 di now) as [[[con flow]|] s2]; cbn [snd] in E2;
    [|intros [= <- <- <- <- <-]; split; [congruence|done]].
  destruct (conns s2 !! con) as [c|]; [|done].
  destruct (npf_state_inspect _ _ _ _) as [[[[ok st] nst] npc2]|] eqn:Es; [|done]. pose proof (npf_state_inspect_calen _ _ _ _ _ _ _ _ Es) as Hc.
  destruct ok; intros [= <- <- <- <- <-]; (split; [cbn; congruence|auto]).
Qed.


(** ** The handler keeps the system and returns its references *)

(** The connection [k] has one reference more in [s] than in [s0]. *)
Definition crefs (s0 s : nsys) (k : option Z) : Prop :=
  (∀ q, conn_refs s q = if decide (k = Some q) then u32 (conn_refs s0 q + 1) else conn_refs s0 q) ∧
  (∀ q, k = Some q → is_Some (conns s !! q)).

Lemma holds_crefs s s' k : holds s s' k → crefs s s' k.
Proof.
  intros [_ V L]. split; [|intros q Hq; apply L; by right]. intros q. unfold conn_refs. rewrite V. by case_decide.
Qed.

Lemma crefs_frame s0 s s' k : crefs s0 s k → frame s s' → crefs s0 s' k.
Proof.
  intros [H1 H2] [_ V L]. split.
  - intros q. rewrite <- H1. unfold conn_refs. by rewrite (V q).
  - intros q Hq. apply L. left. by apply H2.
Qed.

Lemma crefs_env s0 s E k : crefs s0 s k → crefs s0 (NpfNat.set_env s E) k.
Proof. done. Qed.

Lemma crefs_release s0 s c : refs_ok s0 → crefs s0 s (Some c) → ∀ q, conn_refs (npf_conn_release s c) q = conn_refs s0 q.
Proof.
  intros Hr [H1 H2] q. specialize (H1 q). unfold conn_refs, npf_conn_release in *. rewrite cview_upd.
  destruct (decide (c = q)) as [<-|Hq]; [|rewrite decide_False in H1 by congruence; exact H1].
  rewrite decide_True in H1 by done. destruct (H2 c eq_refl) as [cn Hc]. unfold cview at 1 in H1. rewrite Hc in *.
  cbn [fst c_refcnt set_ref]. assert (∀ b : bool, c_refcnt (if b then or_flags CONN_ACTIVE cn else cn) = c_refcnt cn) as -> by (by intros []).
  cbn [fst] in H1. rewrite H1. specialize (Hr c). unfold conn_refs, inw in Hr. unfold wrap. rewrite Zminus_mod_idemp_l, Z.mod_small; lia.
Qed.

Lemma sys_inv_rps held s r : sys_inv held s → sys_inv held (NpfNat.set_env s (set_rps (env s) r)).
Proof. intros Hs. apply (sys_inv_env held); [done| |done]. by apply (nat_inv_core held (env s)); [|apply Hs]. Qed.

(** What holds of the local variables at the labels. *)
Record loc_ok (held : Z → Z) (s0 : nsys) (l : handler_locals) : Prop := {
  lo_sys : sys_inv held (l_sys l);
  lo_refs : crefs s0 (l_sys l) (l_con l);
}.

Definition result_ok (held : Z → Z) (s0 : nsys) (r : handler_result) : Prop :=
  sys_inv held (hr_sys r) ∧ ∀ q, conn_refs (hr_sys r) q = conn_refs s0 q.

Lemma handler_out_ok held s0 ha l : refs_ok s0 → loc_ok held s0 l → result_ok held s0 (handler_out ha l).
Proof.
  intros Hr [Hs Hc]. unfold handler_out. set (s := match l_con l with Some _ => _ | None => _ end).
  assert (sys_inv held s ∧ ∀ q, conn_refs s q = conn_refs s0 q) as Hok.
  { unfold s. destruct (l_con l) as [con|]; [split; [by apply npf_conn_release_sys|by apply crefs_release]|].
    split; [destruct (l_rp l); [by apply sys_inv_rps|done]|]. destruct Hc as [Hc _]. intros q. destruct (l_rp l); apply (Hc q). }
  clearbody s. destruct (nbuf_head_mbuf _); [exact Hok|]. case_if; [exact Hok|].
  by destruct (if negb _ then _ else _) as [cons sent].
Qed.

Lemma handler_block_ok held s0 ha l r : refs_ok s0 → loc_ok held s0 l → handler_block ha l = Some r → result_ok held s0 r.
Proof.
  intros Hr Hl. unfold handler_block. destruct (l_rp l) as [rp|]; [|intros [= <-]; by apply handler_out_ok].
  destruct (npf_rproc_run _ _ _ _ _) as [[[[ok d] npc] rs]|]; [|done]. cbn [mbind option_bind]. destruct Hl as [Hs Hc].
  pose proof (sys_inv_rps held (l_sys l) rs Hs) as Hs1. destruct ok.
  - intros [= <-]. apply handler_out_ok; [done|]. by split.
  - intros [= <-]. set (s1 := NpfNat.set_env (l_sys l) _) in *. change (crefs s0 s1 (l_con l)) in Hc. unfold result_ok. cbn [hr_sys].
    assert (∀ s, sys_inv held s ∧ (∀ q, conn_refs s q = conn_refs s0 q) →
      sys_inv held (sys_rproc_release s rp) ∧ ∀ q, conn_refs (sys_rproc_release s rp) q = conn_refs s0 q) as Hrel.
    { intros s [H1 H2]. split; [by apply sys_inv_rps|exact H2]. }
    apply Hrel. destruct (l_con l) as [con|]; [split; [by apply npf_conn_release_sys|by apply crefs_release]|].
    split; [done|]. intros q. apply (proj1 Hc q).
Qed.

Context (Hmatch : algs_ok algs) (Hconn : algs_conn_ok algs) (Hhold : algs_hold).

(** What the handler relies on in the configuration: the NAT rules hold their
    policies, their tables exist, and the reference counts do not overflow. *)
Record config_ok (held : Z → Z) (cfg : handler_config) (ha : handler_args) (E : env_t) : Prop := {
  co_set : natset_ok held (hc_nat cfg);
  co_tab : tables_ok (nc_tables (hc_nat cfg)) (nc_tableset (hc_nat cfg)) E;
  co_rnd : 0 <= pa_rnd (na_port (ha_nat ha));
  co_bound : refs_bounded E;
}.

Lemma config_ok_env held cfg ha E E' : policies E' = policies E → config_ok held cfg ha E → config_ok held cfg ha E'.
Proof. intros Hp [H1 H2 H3 H4]. split; [done| |done|]; unfold tables_ok, refs_bounded in *; by rewrite Hp. Qed.

Lemma handler_pass_ok held s0 cfg ha di l r : refs_ok s0 → loc_ok held s0 l → config_ok held cfg ha (env (l_sys l)) →
  calen (l_npc l) → handler_pass cfg ha di l = Some r → result_ok held s0 r.
Proof.
  intros Hr [Hs Hc] [C1 C2 C3 C4] Ha. unfold handler_pass.
  destruct (npf_do_nat _ _ _ _ _ _ _ _ _) as [[[err s] npc]|] eqn:En; [|done]. cbn [mbind option_bind].
  assert (sys_inv held s) as Hs1.
  { eapply (npf_do_nat_sys algs kmem params Hmatch); [exact Hs| |exact En]. split; try done. intros c Ec. by apply (proj2 Hc). }
  apply handler_block_ok; [done|]. split; [done|]. cbn [l_sys l_con]. eapply crefs_frame; [exact Hc|].
  eapply npf_do_nat_frame; [apply Hs| |exact En]. intros q. rewrite (proj1 Hc q). case_decide; [apply wrap_range; lia|apply Hr].
Qed.


Lemma crefs_holds s0 s s' k : crefs s0 s None → holds s s' k → crefs s0 s' k.
Proof.
  intros [H1 _] H. apply holds_crefs in H as [V L]. split; [|done]. intros q. by rewrite (V q), (H1 q).
Qed.

Lemma crefs_setpass s0 s c retfl rid rp k : crefs s0 s k → crefs s0 (npf_conn_setpass s c retfl rid rp) k.
Proof.
  intros [H1 H2]. split.
  - intros q. rewrite <- H1. unfold conn_refs, npf_conn_setpass. rewrite cview_upd. case_decide; [|done].
    unfold cview. destruct (conns s !! q); [|done]. by destruct rp.
  - intros q Hq. by apply upd_conn_live, H2.
Qed.

Lemma handler_rule_ok held s0 cfg ha di l ru r : refs_ok s0 → loc_ok held s0 l → config_ok held cfg ha (env (l_sys l)) →
  calen (l_npc l) → handler_rule cfg ha di l ru = Some r → result_ok held s0 r.
Proof.
  intros Hr [Hs Hc] Hcfg Ha. unfold handler_rule. destruct (npf_rule_getrproc ru (l_sys l)) as [rp s] eqn:Eg.
  assert (sys_inv held s ∧ crefs s0 s (l_con l) ∧ config_ok held cfg ha (env s)) as (Hs1 & Hc1 & Hcfg1).
  { unfold npf_rule_getrproc in Eg. destruct (r_rproc ru); injection Eg as <- <-; [|done].
    split_and!; [by apply sys_inv_rps|done|by apply (config_ok_env held cfg ha (env (l_sys l)))]. }
  destruct (npf_rule_conclude ru (l_mi l)) as [error mi]. cbn [l_npc l_con l_rp l_error l_decision l_mi l_sys l_stats].
  case_if; [by apply handler_block_ok|].
  destruct (l_con l) as [con|] eqn:Ec; [by apply handler_pass_ok|]. case_if; [|by apply handler_pass_ok].
  destruct (npf_conn_establish _ _ _ _ _ _ _) as [[[con s2] npc2]|] eqn:Ee; [|done]. cbn [mbind option_bind].
  pose proof (npf_conn_establish_sys algs kmem params held _ _ _ _ _ _ _ _ _ Hs1 Ee) as Hs2.
  pose proof (crefs_holds _ _ _ _ Hc1 (npf_conn_establish_holds _ _ _ _ _ _ _ _ _ (si_conn _ _ Hs1) Ee)) as Hc2.
  destruct (npf_conn_establish_natof algs kmem params _ _ _ _ _ _ _ _ _ (si_conn _ _ Hs1) Ee) as [[He _] _].
  pose proof (npf_conn_establish_calen _ _ _ _ _ _ _ _ _ Ee Ha) as Ha2.
  apply handler_pass_ok; cbn [l_npc l_sys l_con]; [done| | |done].
  - split; cbn [l_sys l_con]; destruct con; try done; [by apply npf_conn_setpass_sys|by apply crefs_setpass].
  - apply (config_ok_env held cfg ha (env s)); [|done]. destruct con; cbn; by rewrite He.
Qed.

Lemma handler_inspect_ok held s0 cfg ha di l r : refs_ok s0 → loc_ok held s0 l → l_con l = None →
  config_ok held cfg ha (env (l_sys l)) → calen (l_npc l) → handler_inspect cfg ha di l = Some r → result_ok held s0 r.
Proof.
  intros Hr Hl Hnone Hcfg Ha. unfold handler_inspect. case_if; [by apply handler_pass_ok|]. destruct Hl as [Hs Hc]. rewrite Hnone in Hc.
  assert (refs_ok (l_sys l)) as Hr1 by (intros q; rewrite (proj1 Hc q); apply Hr).
  destruct (npf_conn_inspect _ _ _ _ _ _) as [[[[[con error] b] s] npc]|] eqn:Ei; [|done]. cbn [mbind option_bind].
  pose proof (npf_conn_inspect_sys algs kmem params Hconn held _ _ _ _ _ _ _ _ _ Hs Ei) as Hs1.
  pose proof (crefs_holds _ _ _ _ Hc (npf_conn_inspect_holds _ _ _ _ _ _ _ _ _ Hhold (si_conn _ _ Hs) Hr1 Ei)) as Hc1.
  destruct (npf_conn_inspect_rest _ _ _ _ _ _ _ _ _ Hhold (si_conn _ _ Hs) Hr1 Ei) as [He Ha1]. specialize (Ha1 Ha).
  assert (config_ok held cfg ha (env s)) as Hcfg1 by (by apply (config_ok_env held cfg ha (env (l_sys l))); [rewrite He|]).
  cbv zeta. destruct (c ← con; c ← conns s !! c; npf_conn_pass c) as [[[retfl rid] rp]|]; [by apply handler_pass_ok|].
  cbn [l_npc l_con l_rp l_error l_decision l_mi l_sys l_stats].
  case_if; [case_if; [by apply handler_block_ok|intros [= <-]; by apply handler_out_ok]|].
  destruct (npf_ruleset_inspect _ _ _ _ _) as [[rl|]|]; [| |done]; cbn [mbind option_bind].
  - destruct (hc_rules cfg !! rl) as [ru|]; [|done]. by apply handler_rule_ok.
  - case_if; [by apply handler_pass_ok|by apply handler_block_ok].
Qed.

Lemma npf_reassembly_calen cfg ha npc error npc' st : npf_reassembly cfg ha npc = Some (RDone error npc', st) → calen npc → calen npc'.
Proof.
  assert (∀ v6, reass_packet ha npc v6 = Some (RDone error npc', st) → calen npc') as Hre.
  { intros v6. unfold reass_packet. destruct (ha_reass ha v6 _) as [|[|m ms]]; [done..|]. destruct (npf_cache_all _) as [[fl npc2]|] eqn:E2; [|done].
    cbn [mbind option_bind]. apply npf_cache_all_calen in E2; [|done]. case_if; by intros [= <- <- <-]. }
  unfold npf_reassembly. case_if; [by intros ?%Hre|]. case_if; [by intros ?%Hre|by intros [= <- <- <-]].
Qed.

Lemma crefs_refl s : crefs s s None.
Proof. by split. Qed.

(** C11: for every packet and ruleset that the handler returns from, it keeps
    the invariant of the connections and of NAT, and on every path (error,
    block, pass, an extension that takes the packet) it has returned exactly the
    references on connections that it took, of the connections it created too.
    The configuration must be consistent ([config_ok]): the rules of the NAT
    ruleset hold their policies, the tables that the policies name exist (the
    code does not check for an absent one), and the reference counts of
    policies and connections are below their limit.  The ALGs must respect the
    references too: a match only marks the entry, and a lookup of a connection
    creates none and takes a reference on the one it returns ([algs_ok],
    [algs_conn_ok], [algs_hold]); the PPTP ALG, which creates connections of
    its own, is treated apart and not covered here. *)
Theorem packet_handler_refs held cfg ha s mp ifid di r : sys_inv held s → refs_ok s → config_ok held cfg ha (env s) →
  npfk_packet_handler cfg ha s mp ifid di = Some r →
  sys_inv held (hr_sys r) ∧ ∀ con, conn_refs (hr_sys r) con = conn_refs s con.
Proof.
  intros Hs Hr Hcfg. unfold npfk_packet_handler. change (_ ∧ _) with (result_ok held s r).
  destruct (npf_cache_all _) as [[flags npc]|] eqn:E0; [|done]. cbn [mbind option_bind]. apply npf_cache_all_calen in E0; [|done].
  pose proof (crefs_refl s) as Hc. case_if; [intros [= <-]; by apply handler_out_ok|].
  case_if; [|by apply handler_inspect_ok].
  destruct (npf_reassembly cfg ha npc) as [[rr st]|] eqn:Er; [|done]. cbn [mbind option_bind].
  destruct rr as [error| |error npc1]; [by intros [= <-]..|]. case_if; [intros [= <-]; by apply handler_out_ok|].
  apply handler_inspect_ok; try done. cbn [l_npc]. by eapply npf_reassembly_calen.
Qed.


(** ** Nothing passes without a reason *)

(** Why a parsed packet may go on: the tag, its connection, the rule that has
    the last word on it, or the default of the configuration. *)
Inductive accepted (cfg : handler_config) (ha : handler_args) (s : nsys) (npc : npf_cache_t) (di : Z) : Prop :=
  | acc_tag : npf_packet_bypass_tag_p (npc_nbuf npc) = true → accepted cfg ha s npc di
  | acc_conn con error b s' npc' c :
      npf_conn_inspect params (npf_alg_conn algs) s npc di (na_now (ha_nat ha)) = Some (Some con, error, b, s', npc') →
      conns s' !! con = Some c → flag (c_flags c) CONN_PASS = true → accepted cfg ha s npc di
  | acc_rule con b s' npc' rl r :
      npf_conn_inspect params (npf_alg_conn algs) s npc di (na_now (ha_nat ha)) = Some (con, 0, b, s', npc') →
      npf_ruleset_inspect (hc_bpf cfg npc') di (nb_ifid (npc_nbuf npc')) (hc_rules cfg) (hc_ruleset cfg) = Some (Some rl) →
      hc_rules cfg !! rl = Some r → flag (r_attr r) NPF_RULE_PASS = true → accepted cfg ha s npc di
  | acc_default con b s' npc' :
      npf_conn_inspect params (npf_alg_conn algs) s npc di (na_now (ha_nat ha)) = Some (con, 0, b, s', npc') →
      npf_ruleset_inspect (hc_bpf cfg npc') di (nb_ifid (npc_nbuf npc')) (hc_rules cfg) (hc_ruleset cfg) = Some None →
      hc_default_pass cfg = true → accepted cfg ha s npc di.

(** The packet is given back, and only that. *)
Definition passes (r : handler_result) : Prop := hr_error r = 0 ∧ hr_freed r = [] ∧ hr_sent r = None.

Lemma handler_out_passes ha l : hr_mp (handler_out ha l) ≠ [] →
  l_error l = 0 ∧ l_decision l = NPF_DECISION_PASS ∧ passes (handler_out ha l).
Proof.
  unfold handler_out. set (s := match l_con l with Some _ => _ | None => _ end). clearbody s.
  destruct (nbuf_head_mbuf _); [done|]. destruct (_ && _) eqn:E.
  - apply andb_true_iff in E as [E1 E2]. bool_to_prop. done.
  - by destruct (if negb _ then _ else _) as [cons sent].
Qed.

Lemma handler_block_passes ha l r : handler_block ha l = Some r → hr_mp r ≠ [] →
  l_error l = 0 ∧ (l_rp l = None → l_decision l = NPF_DECISION_PASS) ∧ passes r.
Proof.
  unfold handler_block. destruct (l_rp l) as [rp|].
  - destruct (npf_rproc_run _ _ _ _ _) as [[[[ok d] npc] rs]|]; [|done]. cbn [mbind option_bind].
    destruct ok; intros [= <-] Hmp; [|done]. by apply handler_out_passes in Hmp as (He & _ & Hp).
  - intros [= <-] Hmp. apply handler_out_passes in Hmp as (He & Hd & Hp). done.
Qed.

Lemma handler_pass_passes cfg ha di l r : handler_pass cfg ha di l = Some r → hr_mp r ≠ [] → passes r.
Proof.
  unfold handler_pass. destruct (npf_do_nat _ _ _ _ _ _ _ _ _) as [[[err s] npc]|]; [|done]. cbn [mbind option_bind].
  intros Hb Hmp. by destruct (handler_block_passes _ _ _ Hb Hmp) as (_ & _ & Hp).
Qed.

Lemma handler_rule_passes cfg ha di l ru r : handler_rule cfg ha di l ru = Some r → hr_mp r ≠ [] →
  flag (r_attr ru) NPF_RULE_PASS = true ∧ passes r.
Proof.
  unfold handler_rule. destruct (npf_rule_getrproc ru (l_sys l)) as [rp s]. unfold npf_rule_conclude. cbn [l_npc l_con l_rp l_error l_decision l_mi l_sys l_stats].
  destruct (flag (r_attr ru) NPF_RULE_PASS) eqn:Ep; cbn [Z.eqb negb]; intros Hr Hmp.
  - split; [done|]. cbn in Hr. destruct (l_con l); [by eapply handler_pass_passes|]. destruct (flag _ NPF_RULE_STATEFUL); [|by eapply handler_pass_passes].
    destruct (npf_conn_establish _ _ _ _ _ _ _) as [[[con s2] npc2]|]; [|done]. by eapply handler_pass_passes in Hr.
  - by eapply handler_block_passes in Hr as [He _].
Qed.

Lemma handler_inspect_passes cfg ha di l r : l_rp l = None → l_decision l = NPF_DECISION_BLOCK →
  handler_inspect cfg ha di l = Some r → hr_mp r ≠ [] → accepted cfg ha (l_sys l) (l_npc l) di ∧ passes r.
Proof.
  intros Hrp Hd. unfold handler_inspect. case_if; [intros Hp Hmp; split; [by apply acc_tag|by eapply handler_pass_passes]|].
  destruct (npf_conn_inspect _ _ _ _ _ _) as [[[[[con error] b] s] npc]|] eqn:Ei; [|done]. cbn [mbind option_bind]. cbv zeta.
  destruct (c ← con; c ← conns s !! c; npf_conn_pass c) as [[[retfl rid] rp]|] eqn:Ec.
  { intros Hp Hmp. split; [|by eapply handler_pass_passes]. apply bind_Some in Ec as (c & -> & (cn & Hcn & Hpass)%bind_Some).
    eapply acc_conn; [exact Ei|exact Hcn|]. unfold npf_conn_pass in Hpass. by destruct (flag _ CONN_PASS). }
  cbn [l_npc l_con l_rp l_error l_decision l_mi l_sys l_stats]. destruct (error =? 0) eqn:Ee; cbn [negb]; bool_to_prop.
  2:{ case_if; intros Hp Hmp; [by eapply handler_block_passes in Hp as [He _]|].
      injection Hp as <-. by apply handler_out_passes in Hmp as [He _]. }
  subst error. destruct (npf_ruleset_inspect _ _ _ _ _) as [[rl|]|] eqn:Er; [| |done]; cbn [mbind option_bind].
  - destruct (hc_rules cfg !! rl) as [ru|] eqn:Hru; [|done]. cbn [mbind option_bind]. intros Hp Hmp.
    destruct (handler_rule_passes _ _ _ _ _ _ Hp Hmp) as [Hpass ?]. split; [by eapply acc_rule|done].
  - destruct (hc_default_pass cfg) eqn:Edp; intros Hp Hmp.
    + split; [by eapply acc_default|by eapply handler_pass_passes].
    + eapply handler_block_passes in Hp as (_ & Hdec & _); [|done]. cbn in Hdec. specialize (Hdec Hrp). by rewrite Hd in Hdec.
Qed.

(** C4: the handler gives a packet back only when it parsed (after reassembly,
    if it was a fragment), and for a reason: its tag, a "pass" connection, a
    pass rule with the last word, or the pass default when no rule matches.  The
    call then reports success, frees nothing and sends nothing. *)
Theorem packet_handler_policy cfg ha s mp ifid di r : npfk_packet_handler cfg ha s mp ifid di = Some r → hr_mp r ≠ [] →
  hr_error r = 0 ∧ hr_freed r = [] ∧ hr_sent r = None ∧
  ∃ flags npc npc', flag flags NPC_FMTERR = false ∧
    npf_cache_all (mk_npc (hc_ctx cfg) 0 (nbuf_init (ha_nbuf ha) mp ifid) 0 0 0 0 0 0 None None) = Some (flags, npc) ∧
    (if flag flags NPC_IPFRAG then ∃ st, npf_reassembly cfg ha npc = Some (RDone 0 npc', st) else npc' = npc) ∧
    accepted cfg ha s npc' di.
Proof.
  unfold npfk_packet_handler. destruct (npf_cache_all _) as [[flags npc]|] eqn:E0; [|done]. cbn [mbind option_bind].
  destruct (flag flags NPC_FMTERR) eqn:Ef; [intros [= <-] Hmp; by apply handler_out_passes in Hmp as [? _]|].
  destruct (flag flags NPC_IPFRAG) eqn:Eg.
  - destruct (npf_reassembly cfg ha npc) as [[rr st]|] eqn:Er; [|done]. cbn [mbind option_bind].
    destruct rr as [error| |error npc1]; [by intros [= <-]..|]. destruct (error =? 0) eqn:Ee; cbn [negb]; bool_to_prop.
    + subst error. intros Hp Hmp. apply handler_inspect_passes in Hp as [Hacc (H1 & H2 & H3)]; [|done..].
      split_and!; [done..|]. exists flags, npc, npc1. rewrite Eg. split_and!; [done|done|by exists st|done].
    + intros [= <-] Hmp. by apply handler_out_passes in Hmp as [? _].
  - intros Hp Hmp. apply handler_inspect_passes in Hp as [Hacc (H1 & H2 & H3)]; [|done..].
    split_and!; [done..|]. exists flags, npc, npc. by rewrite Eg.
Qed.


(** ** The references on rule procedures *)

(** The connections with rule procedure [rp]. *)
Definition rp_uses (s : nsys) (rp : Z) : Z := msum (λ c : npf_conn, b2z (bool_decide (c_rproc c = Some rp))) (conns s).

(** Rule procedures are referenced by the configuration ([base]) and by the
    connections. *)
Definition rp_sys_ok (base : Z → Z) (s : nsys) : Prop := rp_inv (λ rp, base rp + rp_uses s rp) (rps (env s)).

(** The extensions leave the packet to the handler. *)
Definition ext_continue (r : rproc_sys (W := W) (P := EP)) : Prop := ∀ p e w npc meta mi d,
  exts r !! p = Some e → fst (fst (fst (op_proc (ext_ops e) w npc meta mi d))) = true.

Lemma rp_inv_ext refs refs' (r : rproc_sys (W := W) (P := EP)) : (∀ p, refs p = refs' p) → rp_inv refs r → rp_inv refs' r.
Proof. intros He [H1 H2 H3 H4 H5 H6 H7 H8 H9]. split; try done. intros rp. by rewrite <- He. Qed.

Definition crproc (s : nsys) (q : Z) : option Z := fst (snd (cview s q)).

Lemma rp_uses_ext s s' rp : (∀ q, crproc s' q = crproc s q) → rp_uses s' rp = rp_uses s rp.
Proof.
  intros H. apply msum_ext. intros k. specialize (H k). unfold crproc, cview in H.
  destruct (conns s' !! k), (conns s !! k); simpl in *; first [done|by rewrite H|by rewrite <- H].
Qed.

Lemma holds_crproc s s' k q : holds s s' k → crproc s' q = crproc s q.
Proof. intros [_ V _]. unfold crproc. rewrite V. by case_decide. Qed.

Lemma crproc_upd s p f q : (∀ c, c_rproc (f c) = c_rproc c) → crproc (upd_conn s p f) q = crproc s q.
Proof.
  intros Hf. unfold crproc. rewrite cview_upd. unfold cview. case_decide; [|done]. destruct (conns s !! q) as [c|]; [|done].
  apply (Hf c).
Qed.

Lemma crproc_release s c q : crproc (npf_conn_release s c) q = crproc s q.
Proof. apply crproc_upd. intros d. by case_if. Qed.

Lemma rp_uses_nonneg s rp : 0 <= rp_uses s rp.
Proof. apply msum_nonneg. intros k v _. by case_bool_decide. Qed.

Lemma rp_uses_pos s c cn rp : conns s !! c = Some cn → c_rproc cn = Some rp → 0 < rp_uses s rp.
Proof.
  intros Hc Hrp. assert (b2z (bool_decide (c_rproc cn = Some rp)) <= rp_uses s rp) as H.
  { apply (msum_elem (λ x : npf_conn, b2z (bool_decide (c_rproc x = Some rp))) (conns s) c cn); [|done]. intros k v _. by case_bool_decide. }
  rewrite bool_decide_true in H by done. simpl in H. lia.
Qed.

(** [npf_conn_setpass] of a new connection. *)
Lemma rp_uses_setpass s c cn retfl rid rp q : conns s !! c = Some cn → c_rproc cn = None →
  rp_uses (npf_conn_setpass s c retfl rid rp) q = rp_uses s q + b2z (bool_decide (rp = Some q)).
Proof.
  intros Hc Hn. unfold rp_uses, npf_conn_setpass. cbn [conns upd_conn set_conns]. rewrite (msum_alter _ _ _ _ cn) by done.
  rewrite Hn. assert (c_rproc (match rp with Some _ => set_rule retfl rid rp (or_flags CONN_PASS cn)
    | None => set_rule (c_retfl (or_flags CONN_PASS cn)) (c_rid (or_flags CONN_PASS cn)) rp (or_flags CONN_PASS cn) end) = rp) as Hrp
    by (by destruct rp).
  cbv zeta. rewrite Hrp. rewrite (bool_decide_false (None = Some q)) by done. simpl. lia.
Qed.

Lemma run_calls_ok calls : ∀ (r : rproc_sys (W := W) (P := EP)) npc mi d ok d' npc' r', ext_continue r →
  run_calls calls r npc mi d = Some (ok, d', npc', r') → ok = true ∧ exts r' = exts r.
Proof.
  induction calls as [|[ext meta] calls IH]; intros r npc mi d ok d' npc' r' Hc; cbn [run_calls]; [by intros [= <- _ _ <-]|].
  destruct (exts r !! ext) as [e|] eqn:He; [|by intros [= <- _ _ <-]]. case_if; [by intros [= <- _ _ <-]|].
  pose proof (Hc ext e (world r) npc meta mi d He) as Hok. destruct (op_proc _ _ _ _ _ _) as [[[ok1 d1] npc1] w]. simpl in Hok. subst ok1.
  cbn [negb]. destruct (if nbuf_flag_p _ _ then _ else _) as [npc2|]; [|done]. simpl. intros Hr.
  by destruct (IH _ _ _ _ _ _ _ _ (Hc : ext_continue (set_world r w)) Hr).
Qed.

(** At the labels: a reference taken from the rule is held while there is no
    connection, and otherwise the connection's is used. *)
Record rp_loc_ok (base : Z → Z) (l : handler_locals) : Prop := {
  rl_inv : rp_inv (λ q, base q + rp_uses (l_sys l) q + b2z (bool_decide (l_con l = None ∧ l_rp l = Some q))) (rps (env (l_sys l)));
  rl_con : ∀ con rp, l_con l = Some con → l_rp l = Some rp → 0 < rp_uses (l_sys l) rp;
  rl_ext : ext_continue (rps (env (l_sys l)));
  rl_base : ∀ q, 0 <= base q;
}.

Lemma handler_out_rp base ha l : rp_loc_ok base l → rp_sys_ok base (hr_sys (handler_out ha l)).
Proof.
  intros [Hi Hc _ Hb]. unfold handler_out. set (s := match l_con l with Some _ => _ | None => _ end).
  assert (rp_sys_ok base s) as Hok.
  { unfold s, rp_sys_ok. destruct (l_con l) as [con|].
    - eapply rp_inv_ext; [|exact Hi]. intros p. cbv beta. rewrite bool_decide_false by naive_solver.
      rewrite (rp_uses_ext (l_sys l) (npf_conn_release _ _)) by (intros q; apply crproc_release). simpl. lia.
    - destruct (l_rp l) as [rp|].
      + eapply rp_inv_ext; [|apply (npf_rproc_release_inv _ _ rp Hi)].
        * intros p. cbv beta. unfold upd. change (rp_uses (sys_rproc_release (l_sys l) rp) p) with (rp_uses (l_sys l) p).
          case_decide; [subst p; rewrite bool_decide_true by done; simpl; lia|rewrite bool_decide_false by naive_solver; simpl; lia].
        * rewrite bool_decide_true by done. pose proof (rp_uses_nonneg (l_sys l) rp). specialize (Hb rp). simpl. lia.
      + eapply rp_inv_ext; [|exact Hi]. intros p. cbv beta. rewrite bool_decide_false by naive_solver. simpl. lia. }
  clearbody s. destruct (nbuf_head_mbuf _); [exact Hok|]. case_if; [exact Hok|].
  by destruct (if negb _ then _ else _) as [cons sent].
Qed.

Lemma handler_block_rp base ha l r : rp_loc_ok base l → handler_block ha l = Some r → rp_sys_ok base (hr_sys r).
Proof.
  intros Hl. unfold handler_block. destruct (l_rp l) as [rp|] eqn:Erp; [|intros [= <-]; by apply handler_out_rp].
  destruct (npf_rproc_run _ _ _ _ _) as [[[[ok d] npc] rs]|] eqn:Er; [|done]. cbn [mbind option_bind]. pose proof Hl as [Hi Hc He Hb].
  assert (ok = true ∧ exts rs = exts (rps (env (l_sys l)))) as [-> Hx].
  { unfold npf_rproc_run in Er. destruct (rprocs _ !! rp) as [x|]; [|by injection Er as <- _ _ <-].
    destruct (rp_refcnt x <=? 0); [by injection Er as <- _ _ <-|]. by eapply run_calls_ok in Er. }
  intros [= <-]. apply handler_out_rp. split; cbn [l_con l_rp l_sys]; rewrite ?Erp in *; [|done| |done].
  - eapply npf_rproc_run_inv; [exact Hi| |exact Er]. cbv beta. pose proof (rp_uses_nonneg (l_sys l) rp). specialize (Hb rp).
    change (rp_uses (NpfNat.set_env (l_sys l) _) rp) with (rp_uses (l_sys l) rp).
    destruct (l_con l) as [con|]; [pose proof (Hc con rp eq_refl eq_refl); case_bool_decide; simpl; lia|].
    rewrite bool_decide_true by done. simpl. lia.
  - intros p e. cbn [env NpfNat.set_env rps set_rps]. rewrite Hx. apply He.
Qed.


Lemma rp_loc_frame base l s' npc con rp e d mi st : rp_loc_ok base l → frame (l_sys l) s' → con = l_con l → rp = l_rp l →
  rp_loc_ok base (mk_loc npc con rp e d mi s' st).
Proof.
  intros [Hi Hc He Hb] Hf -> ->. assert (∀ q, rp_uses s' q = rp_uses (l_sys l) q) as Hu
    by (intros q; apply rp_uses_ext; intros p; by apply (holds_crproc _ _ None)).
  split; cbn [l_con l_rp l_sys]; rewrite ?(ho_rps _ _ _ Hf); [|intros; rewrite Hu; eauto|done|done].
  eapply rp_inv_ext; [|exact Hi]. intros q. cbv beta. by rewrite Hu.
Qed.

Lemma handler_pass_rp base cfg ha di l r : conn_inv (l_sys l) → refs_ok (l_sys l) → rp_loc_ok base l →
  handler_pass cfg ha di l = Some r → rp_sys_ok base (hr_sys r).
Proof.
  intros Hi Hr Hl. unfold handler_pass. destruct (npf_do_nat _ _ _ _ _ _ _ _ _) as [[[err s] npc]|] eqn:En; [|done].
  cbn [mbind option_bind]. apply handler_block_rp. apply npf_do_nat_frame in En; [|done..]. by apply (rp_loc_frame base l).
Qed.

(** The rules of the configuration hold their procedures, with room for more. *)
Record rules_ok (base : Z → Z) (cfg : handler_config) (s : nsys) : Prop := {
  ro_rules : ∀ rl ru rp, hc_rules cfg !! rl = Some ru → r_rproc ru = Some rp → 0 < base rp;
  ro_bound : ∀ rp, base rp + rp_uses s rp < 2 ^ 32 - 1;
  ro_ext : ext_continue (rps (env s));
  ro_base : ∀ rp, 0 <= base rp;
}.

Lemma acquire_exts (r : rproc_sys (W := W) (P := EP)) rp : exts (npf_rproc_acquire r rp) = exts r.
Proof. unfold npf_rproc_acquire. by destruct (rprocs r !! rp). Qed.

Lemma npf_conn_establish_new s npc di now global avail r s' npc' : conn_inv s →
  npf_conn_establish params s npc di now global avail = Some (r, s', npc') →
  conn_inv s' ∧ ∀ c, r = Some c → ∃ cn, conns s' !! c = Some cn ∧ c_rproc cn = None.
Proof.
  intros Hi E. destruct (npf_conn_establish_cases params s npc di now global avail r s' npc' Hi E) as [(-> & _ & _ & Hs)|Hcase]; [done|].
  destruct Hcase as (nst & fw & bk & ifid & lf & lb & m & c & pl & _ & _ & -> & Hs & _ & _ & _ & Hc). split; [done|].
  destruct Hc as [[-> ->]|[-> _]]; [|done]. intros q [= <-]. eexists. split; [apply lookup_insert_eq|done].
Qed.

Lemma refs_ok_setpass s c retfl rid rp : refs_ok s → refs_ok (npf_conn_setpass s c retfl rid rp).
Proof.
  intros Hr q. specialize (Hr q). unfold conn_refs, npf_conn_setpass in *. rewrite cview_upd. case_decide; [|done].
  unfold cview in Hr. destruct (conns s !! q); [|done]. by destruct rp.
Qed.

Lemma handler_rule_rp base cfg ha di l rl ru r : conn_inv (l_sys l) → refs_ok (l_sys l) → rp_sys_ok base (l_sys l) →
  rules_ok base cfg (l_sys l) → hc_rules cfg !! rl = Some ru → l_con l = None ∨ r_rproc ru = None →
  handler_rule cfg ha di l ru = Some r → rp_sys_ok base (hr_sys r).
Proof.
  intros Hi Hr Hrp [R1 R2 R3 R4] Hru Hcon. unfold handler_rule. destruct (npf_rule_getrproc ru (l_sys l)) as [rp s] eqn:Eg.
  assert (conns s = conns (l_sys l) ∧ conn_db s = conn_db (l_sys l) ∧ conn_inv s ∧ ext_continue (rps (env s)) ∧ rp = r_rproc ru ∧
    rp_inv (λ q, base q + rp_uses (l_sys l) q + b2z (bool_decide (rp = Some q))) (rps (env s))) as (Ec & _ & His & Hes & Erp & Hrps).
  { unfold npf_rule_getrproc in Eg. destruct (r_rproc ru) as [p|] eqn:Ep; injection Eg as <- <-.
    - split_and!; [done|done|by apply set_env_conn| |done|].
      + intros q e. cbn [env NpfNat.set_env rps set_rps]. rewrite acquire_exts. apply R3.
      + eapply rp_inv_ext; [|apply npf_rproc_acquire_inv; [exact Hrp|]].
        * intros q. unfold upd. case_decide; [subst; rewrite bool_decide_true by done|rewrite bool_decide_false by congruence]; simpl; lia.
        * specialize (R1 rl ru p Hru Ep). specialize (R2 p). pose proof (rp_uses_nonneg (l_sys l) p). lia.
    - split_and!; try done. eapply rp_inv_ext; [|exact Hrp]. intros q. rewrite bool_decide_false by done. simpl. lia. }
  assert (refs_ok s) as Hrs by (intros q; specialize (Hr q); unfold conn_refs, cview in *; by rewrite Ec).
  assert (∀ q, rp_uses s q = rp_uses (l_sys l) q) as Hu by (intros q; unfold rp_uses; by rewrite Ec).
  destruct (npf_rule_conclude ru (l_mi l)) as [error mi]. cbn [l_npc l_con l_rp l_error l_decision l_mi l_sys l_stats].
  assert (∀ npc e d mi st, rp_loc_ok base (mk_loc npc (l_con l) rp e d mi s st)) as Hloc.
  { intros. split; cbn [l_con l_rp l_sys]; [|intros con p Hc Hp; destruct Hcon; congruence|done|done].
    eapply rp_inv_ext; [|exact Hrps]. intros q. cbv beta. rewrite Hu. f_equal. f_equal. apply bool_decide_ext.
    destruct Hcon as [Hcon|Hcon]; [naive_solver|]. rewrite Erp, Hcon. naive_solver. }
  case_if; [by apply handler_block_rp|].
  destruct (l_con l) as [con|] eqn:Elc; [by apply handler_pass_rp|]. case_if; [|by apply handler_pass_rp].
  destruct (npf_conn_establish _ _ _ _ _ _ _) as [[[con s2] npc2]|] eqn:Ee; [|done]. cbn [mbind option_bind].
  pose proof (npf_conn_establish_holds _ _ _ _ _ _ _ _ _ His Ee) as Hh.
  destruct (npf_conn_establish_new _ _ _ _ _ _ _ _ _ His Ee) as [Hi2 Hnew]. pose proof (holds_refs_ok _ _ _ Hrs Hh) as Hr2.
  destruct con as [c|].
  - destruct (Hnew c eq_refl) as (cn & Hc & Hcn). set (s3 := npf_conn_setpass s2 c _ _ rp).
    assert (∀ q, rp_uses s3 q = rp_uses (l_sys l) q + b2z (bool_decide (rp = Some q))) as Hu3.
    { intros q. unfold s3. rewrite (rp_uses_setpass s2 c cn) by done. rewrite <- Hu. f_equal. apply rp_uses_ext.
      intros p. by apply (holds_crproc _ _ (Some c)). }
    apply handler_pass_rp; cbn [l_sys]; [by apply npf_conn_setpass_inv|by apply refs_ok_setpass|].
    split; cbn [l_con l_rp l_sys].
    + change (rps (env s3)) with (rps (env s2)). rewrite (ho_rps _ _ _ Hh). eapply rp_inv_ext; [|exact Hrps].
      intros q. cbv beta. rewrite Hu3, (bool_decide_false (Some c = None ∧ _)) by naive_solver. cbn [b2z]. lia.
    + intros ? p _ ->. rewrite Hu3, bool_decide_true by done. pose proof (rp_uses_nonneg (l_sys l) p). simpl. lia.
    + change (rps (env s3)) with (rps (env s2)). by rewrite (ho_rps _ _ _ Hh).
    + done.
  - apply handler_pass_rp; cbn [l_sys]; [done|done|]. by eapply (rp_loc_frame base (mk_loc npc2 None rp 0 0 mi s [])).
Qed.


(** A connection that is found was there. *)
Lemma npf_conn_inspect_old s npc di now r e b s' npc' : conn_inv s → refs_ok s →
  npf_conn_inspect params (npf_alg_conn algs) s npc di now = Some (r, e, b, s', npc') →
  ∀ c, r = Some c → is_Some (conns s !! c).
Proof.
  intros Hi Hr. unfold npf_conn_inspect. case_if; [by intros [= <- <- <- <- <-]|].
  destruct (npf_alg_conn algs s npc di) as [[[acon s1] npc1]|] eqn:Ea; [|done]. cbn [mbind option_bind]. destruct (Hhold _ _ _ _ _ _ Hi Hr Ea) as (_ & H1 & Hi1 & _ & Hd).
  destruct acon as [con|]; [intros [= <- <- <- <- <-] c [= <-]; apply Hd, H1; by right|].
  case_if; [by intros [= <- <- <- <- <-]|]. unfold npf_conn_lookup, npf_conndb_lookup.
  destruct (npf_conn_conkey _ _ _ _) as [[key l]|]; [|by intros [= <- <- <- <- <-]].
  destruct (thmap_get _ _) as [[con flow]|] eqn:Eg; [|by intros [= <- <- <- <- <-]].
  apply (ci_map s1 Hi1) in Eg as (cn & Hc & _). assert (is_Some (conns s !! con)) as Hcon by (apply Hd; eauto).
  intros Hres c ->. assert (c = con) as ->; [|done]. repeat case_match; by simplify_eq.
Qed.

(** A packet of a connection that does not pass does not end at a rule with a
    procedure. *)
Definition no_mixed (cfg : handler_config) (s : nsys) (di : Z) : Prop := ∀ npc now con e b s' npc' c rl ru,
  npf_conn_inspect params (npf_alg_conn algs) s npc di now = Some (Some con, e, b, s', npc') →
  conns s' !! con = Some c → npf_conn_pass c = None →
  npf_ruleset_inspect (hc_bpf cfg npc') di (nb_ifid (npc_nbuf npc')) (hc_rules cfg) (hc_ruleset cfg) = Some (Some rl) →
  hc_rules cfg !! rl = Some ru → r_rproc ru = None.

(** It is so when every connection passes. *)
Lemma no_mixed_pass held cfg s di : sys_inv held s → refs_ok s →
  (∀ con c, conns s !! con = Some c → flag (c_flags c) CONN_PASS = true) → no_mixed cfg s di.
Proof.
  intros Hs Hr Hmix npc now con e b s' npc' c rl ru Ei Hc Hp _ _. exfalso.
  pose proof (npf_conn_inspect_holds _ _ _ _ _ _ _ _ _ Hhold (si_conn _ _ Hs) Hr Ei) as Hh.
  destruct (npf_conn_inspect_old _ _ _ _ _ _ _ _ _ (si_conn _ _ Hs) Hr Ei con eq_refl) as [c0 Hc0].
  pose proof (ho_view _ _ _ Hh con) as V. unfold cview in V. rewrite Hc0, Hc, decide_True in V by done.
  assert (flag (c_flags c) CONN_PASS = true) as Hf by (injection V as _ _ ->; by eapply Hmix).
  unfold npf_conn_pass in Hp. by rewrite Hf in Hp.
Qed.

Lemma handler_inspect_rp held base cfg ha di l r : sys_inv held (l_sys l) → refs_ok (l_sys l) → rp_sys_ok base (l_sys l) →
  rules_ok base cfg (l_sys l) → no_mixed cfg (l_sys l) di → l_con l = None → l_rp l = None →
  handler_inspect cfg ha di l = Some r → rp_sys_ok base (hr_sys r).
Proof.
  intros Hs Hr Hrp [R1 R2 R3 R4] Hmix Hcon Hnrp. unfold handler_inspect.
  assert (∀ s, frame (l_sys l) s → rp_sys_ok base s) as Hframe.
  { intros s Hf. unfold rp_sys_ok. rewrite (ho_rps _ _ _ Hf). eapply rp_inv_ext; [|exact Hrp]. intros q. cbv beta. f_equal.
    symmetry. apply rp_uses_ext. intros p. by apply (holds_crproc _ _ None). }
  assert (∀ npc con e d mi s st, holds (l_sys l) s con → rp_loc_ok base (mk_loc npc con None e d mi s st)) as Hloc.
  { intros npc con e d mi s st Hh. split; cbn [l_con l_rp l_sys]; [|done|by rewrite (ho_rps _ _ _ Hh)|done].
    rewrite (ho_rps _ _ _ Hh). eapply rp_inv_ext; [|exact Hrp]. intros q. cbv beta. rewrite bool_decide_false by naive_solver.
    rewrite (rp_uses_ext (l_sys l) s); [simpl; lia|]. intros p. by apply (holds_crproc _ _ con). }
  case_if.
  { apply handler_pass_rp; [apply Hs|done|]. specialize (Hloc (l_npc l) None (l_error l) (l_decision l) (l_mi l) (l_sys l) (l_stats l) (frame_refl _)).
    destruct l. cbn in *. by subst. }
  destruct (npf_conn_inspect _ _ _ _ _ _) as [[[[[con error] b] s] npc]|] eqn:Ei; [|done]. cbn [mbind option_bind].
  pose proof (npf_conn_inspect_sys algs kmem params Hconn held _ _ _ _ _ _ _ _ _ Hs Ei) as Hs1.
  pose proof (npf_conn_inspect_holds _ _ _ _ _ _ _ _ _ Hhold (si_conn _ _ Hs) Hr Ei) as Hh.
  pose proof (holds_refs_ok _ _ _ Hr Hh) as Hr1. pose proof (ho_rps _ _ _ Hh) as Erps.
  assert (∀ q, rp_uses s q = rp_uses (l_sys l) q) as Hu by (intros q; apply rp_uses_ext; intros p; by apply (holds_crproc _ _ con)).
  cbv zeta. rewrite Hnrp. destruct (c ← con; c ← conns s !! c; npf_conn_pass c) as [[[retfl rid] rp]|] eqn:Ec.
  { apply handler_pass_rp; cbn [l_sys]; [apply Hs1|done|]. apply bind_Some in Ec as (c & -> & (cn & Hcn & Hpass)%bind_Some).
    unfold npf_conn_pass in Hpass. destruct (flag _ CONN_PASS); [|done]. injection Hpass as _ _ Hcrp.
    destruct (Hloc npc (Some c) 0 0 (mk_match_info 0 0 0) s [] Hh) as [L1 L2 L3 L4]. split; cbn [l_con l_rp l_sys] in *; [|intros ? p _ ->; by eapply rp_uses_pos|done|done].
    eapply rp_inv_ext; [|exact L1]. intros q. cbv beta. by rewrite !bool_decide_false by naive_solver. }
  cbn [l_npc l_con l_rp l_error l_decision l_mi l_sys l_stats].
  case_if; [case_if; [apply handler_block_rp; by apply Hloc|intros [= <-]; apply handler_out_rp; by apply Hloc]|].
  destruct (npf_ruleset_inspect _ _ _ _ _) as [[rl|]|] eqn:Erl; [| |done]; cbn [mbind option_bind].
  - destruct (hc_rules cfg !! rl) as [ru|] eqn:Hru; [|done]. apply (handler_rule_rp base cfg ha di _ rl); cbn [l_sys l_con].
    + apply Hs1.
    + done.
    + unfold rp_sys_ok. rewrite Erps. eapply rp_inv_ext; [|exact Hrp]. intros q. cbv beta. by rewrite Hu.
    + split; [done|intros p; rewrite Hu; apply R2|by rewrite Erps|done].
    + done.
    + destruct con as [c|]; [|by left]. right. destruct (ho_live _ _ _ Hh c) as [c1 Hc1]; [by right|].
      simpl in Ec. rewrite Hc1 in Ec. by eapply Hmix.
  - case_if; [apply handler_pass_rp; [apply Hs1|done|by apply Hloc]|apply handler_block_rp; by apply Hloc].
Qed.

(** C12: the references on rule procedures are those of the configuration and of
    the connections, before and after a packet: what the handler takes from the
    rule it gives to the connection it establishes, or releases.  This holds when
    the extensions leave the packet to the handler, and when no packet of a
    connection that does not pass ends at a rule with a procedure ([no_mixed]);
    both conditions are needed, see [handler_over_releases] and
    [handler_leaks_rproc].  Assumed too: the configuration holds a reference on
    the procedures of its rules and the counts are below 2^32 - 1, and an ALG
    that looks up a connection creates none and takes a reference on the one it
    returns ([algs_conn_ok], [algs_hold]). *)
Theorem packet_handler_rprocs held base cfg ha s mp ifid di r : sys_inv held s → refs_ok s → rp_sys_ok base s →
  rules_ok base cfg s → no_mixed cfg s di → npfk_packet_handler cfg ha s mp ifid di = Some r →
  rp_inv (λ rp, base rp + rp_uses (hr_sys r) rp) (rps (env (hr_sys r))).
Proof.
  intros Hs Hr Hrp Hru Hmix. change (rp_inv _ _) with (rp_sys_ok base (hr_sys r)). unfold npfk_packet_handler.
  destruct (npf_cache_all _) as [[flags npc]|]; [|done]. cbn [mbind option_bind].
  assert (∀ npc e d mi st, rp_loc_ok base (mk_loc npc None None e d mi s st)) as Hloc.
  { intros. split; cbn [l_con l_rp l_sys]; [|done|apply Hru|apply Hru]. eapply rp_inv_ext; [|exact Hrp].
    intros q. cbv beta. rewrite bool_decide_false by naive_solver. simpl. lia. }
  case_if; [intros [= <-]; by apply handler_out_rp|]. case_if; [|by apply (handler_inspect_rp held)].
  destruct (npf_reassembly cfg ha npc) as [[rr st]|]; [|done]. cbn [mbind option_bind].
  destruct rr as [error| |error npc1]; [by intros [= <-]..|]. case_if; [intros [= <-]; by apply handler_out_rp|].
  by apply (handler_inspect_rp held).
Qed.

End handler.

(** ** Samples *)

(** An extension that only looks, a rule procedure that calls it, and the
    reference of the rule. *)
Definition look_ops : npf_ext_ops_t (W := unit) (P := unit) :=
  mk_ext_ops (λ w _, inr (0, w)) (λ w _, w) (λ w npc _ _ d, (true, d, npc, w)).
Definition h_rps (ops : npf_ext_ops_t (W := unit) (P := unit)) : rproc_sys (W := unit) (P := unit) :=
  let r := snd (npf_ext_register (npf_ext_init ()) "log" ops) in
  let r := snd (npf_rproc_create r (rproc_nv "log")) in
  npf_rproc_acquire (snd (npf_ext_construct r "log" 2 ())) 2.

Definition h_rule (attr : Z) : npf_rule :=
  mk_rule (attr ||| NPF_RULE_DIMASK) 0 0 None None (Some 2) None 0 None None 0 "" [] None.
Definition h_sys (ops : npf_ext_ops_t (W := unit) (P := unit)) : w_sys :=
  npf_conn_tracking (npf_conn_init (nat_init 1024 65535 tt (h_rps ops))) true.
Definition h_cfg (attr : Z) (nat : w_cfg) : handler_config (TB := gmap (list Z) npf_tblent) (LP := gmap (Z * Z * Z) npf_tblent) (CD := unit) :=
  mk_hcfg no_drop {[20 := h_rule attr]} (mk_ruleset [20] [] [] 0 1 [20]) false (λ _ _, true) nat false false.
Definition no_nat : w_cfg := mk_ncfg ∅ (mk_ruleset [] [] [] 0 1 []) ∅ [] (λ _ _, true).
Definition h_args : handler_args := mk_hargs (mk_nbuf [] 0 0 0 0) (λ _ _, inl ENOTSUP) true sample_nargs true 0.

Definition h_run (cfg : handler_config (TB := gmap (list Z) npf_tblent) (LP := gmap (Z * Z * Z) npf_tblent) (CD := unit))
    (s : w_sys) (p : list Z) (di : Z) :=
  npfk_packet_handler (MB := linear_mbufops) no_algs true sample_conn_params cfg h_args s [p] 1 di.

Abbreviation h_cfg1 := (h_cfg (NPF_RULE_PASS ||| NPF_RULE_STATEFUL) no_nat).
Abbreviation h_res := (npfk_packet_handler (MB := linear_mbufops) no_algs true sample_conn_params h_cfg1 h_args (h_sys look_ops) [sample_syn] 1 PFIL_OUT).


Lemma h_sys_inv ops : sys_inv (λ _, 0) (h_sys ops).
Proof.
  apply (nat_step_inv (MB := linear_mbufops) (TB := gmap (list Z) npf_tblent) (LP := gmap (Z * Z * Z) npf_tblent) (CD := unit) no_algs true
    sample_conn_params no_algs_ok no_algs_conn (NV := nv_map) (λ _, 0, npf_conn_init (nat_init 1024 65535 tt (h_rps ops))) (λ _, 0, h_sys ops)).
  - apply ns_tracking.
  - apply nat_init_inv; lia.
Qed.

Lemma no_algs_hold : algs_hold no_algs.
Proof. intros s npc di r s' npc' Hi _ [= <- <- <-]. split_and!; [done|apply frame_refl|done|done|done]. Qed.

Lemma h_refs_ok ops : refs_ok (h_sys ops).
Proof. intros q. unfold inw. done. Qed.

Lemma h_config_ok attr ops : config_ok (λ _, 0) (h_cfg attr no_nat) h_args (env (h_sys ops)).
Proof. by split. Qed.

Lemma h_res_some : ∃ r, h_res = Some r ∧ hr_error r = 0 ∧ hr_mp r = [sample_syn] ∧ rp_uses (hr_sys r) 2 = 1 ∧
  (rp_refcnt <$> rprocs (rps (env (hr_sys r))) !! 2) = Some 3.
Proof.
  assert (match h_res with Some r => bool_decide (hr_error r = 0 ∧ hr_mp r = [sample_syn] ∧ rp_uses (hr_sys r) 2 = 1 ∧
    (rp_refcnt <$> rprocs (rps (env (hr_sys r))) !! 2) = Some 3) | None => false end = true) as H by (vm_compute; reflexivity).
  destruct h_res as [r|]; [|discriminate H]. exists r. split; [reflexivity|]. by apply bool_decide_eq_true in H.
Qed.

Lemma packet_handler_refs_witness : ∃ r, h_res = Some r ∧ hr_mp r = [sample_syn] ∧ sys_inv (λ _, 0) (hr_sys r) ∧
  ∀ con, conn_refs (hr_sys r) con = 0.
Proof.
  destruct h_res_some as (r & E & _ & Hmp & _). exists r. split; [exact E|]. split; [exact Hmp|].
  destruct (packet_handler_refs (MB := linear_mbufops) no_algs true sample_conn_params no_algs_ok no_algs_conn no_algs_hold
    (λ _, 0) h_cfg1 h_args (h_sys look_ops) [sample_syn] 1 PFIL_OUT r (h_sys_inv look_ops) (h_refs_ok look_ops) (h_config_ok _ look_ops) E) as [H1 H2].
  split; [exact H1|]. intros con. rewrite H2. reflexivity.
Defined.

Lemma packet_handler_policy_witness : ∃ r npc, h_res = Some r ∧ hr_mp r = [sample_syn] ∧ hr_freed r = [] ∧
  accepted (MB := linear_mbufops) no_algs sample_conn_params h_cfg1 h_args
    (h_sys look_ops) npc PFIL_OUT.
Proof.
  destruct h_res_some as (r & E & _ & Hmp & _).
  destruct (packet_handler_policy (MB := linear_mbufops) no_algs true sample_conn_params h_cfg1 h_args (h_sys look_ops) [sample_syn] 1 PFIL_OUT r E) as (_ & Hf & _ & fl & npc & npc' & _ & _ & _ & Ha).
  - rewrite Hmp. discriminate.
  - exists r, npc'. split; [exact E|]. split; [exact Hmp|]. split; [exact Hf|exact Ha].
Defined.

(** The references before: the set of the configuration and the rule. *)
Definition h_base : Z → Z := λ rp, if decide (rp = 2) then 2 else 0.

Lemma h_rps_inv : rp_inv h_base (h_rps look_ops).
Proof.
  set (r0 := snd (npf_ext_register (npf_ext_init ()) "log" look_ops)). set (r1 := snd (npf_rproc_create r0 (rproc_nv "log"))).
  set (r2 := snd (npf_ext_construct r1 "log" 2 ())).
  assert (rp_inv (λ _, 0) r0) as H0 by apply npf_ext_register_inv, npf_ext_init_inv.
  assert (rp_inv (upd (λ _, 0) 2 1) r1) as H1 by (by apply (npf_rproc_create_inv (λ _, 0) r0 (rproc_nv "log") 2)).
  assert (rp_inv (upd (λ _, 0) 2 1) r2) as H2 by (by apply npf_ext_construct_inv).
  apply (rp_inv_ext (upd (upd (λ _, 0) 2 1) 2 2)); [intros p; unfold upd, h_base; by repeat case_decide|].
  by apply (npf_rproc_acquire_inv _ r2 2 H2).
Qed.

Lemma packet_handler_rprocs_witness : ∃ r, h_res = Some r ∧ rp_uses (hr_sys r) 2 = 1 ∧
  ∃ x, rprocs (rps (env (hr_sys r))) !! 2 = Some x ∧ rp_refcnt x = h_base 2 + rp_uses (hr_sys r) 2.
Proof.
  destruct h_res_some as (r & E & _ & _ & Hu & Hrc). exists r. split; [exact E|]. split; [exact Hu|].
  assert (rp_inv (λ rp, h_base rp + rp_uses (hr_sys r) rp) (rps (env (hr_sys r)))) as Hi.
  { apply (packet_handler_rprocs (MB := linear_mbufops) no_algs true sample_conn_params no_algs_conn no_algs_hold (λ _, 0) h_base h_cfg1 h_args (h_sys look_ops) [sample_syn] 1 PFIL_OUT r
      (h_sys_inv look_ops) (h_refs_ok look_ops)).
    - apply (rp_inv_ext h_base); [|exact h_rps_inv]. intros p. unfold rp_uses. cbn [h_sys conns npf_conn_tracking npf_conn_init].
      rewrite msum_empty. lia.
    - split.
      + intros rl ru rp. cbn [hc_rules h_cfg]. intros [<- <-]%lookup_singleton_Some [= <-]. reflexivity.
      + intros rp. change (rp_uses (h_sys look_ops) rp) with 0. unfold h_base. case_decide; lia.
      + intros p e w npc meta mi d He. assert (map_Forall (λ _ e, ∀ w npc meta mi d, fst (fst (fst (op_proc (ext_ops e) w npc meta mi d))) = true) (exts (h_rps look_ops))) as Hall.
        { change (exts (h_rps look_ops)) with ({[1 := mk_ext (strlcpy "log" EXT_NAME_LEN) look_ops 1]} : gmap Z npf_ext).
          apply map_Forall_singleton. reflexivity. }
        exact (Hall p e He w npc meta mi d).
      + intros rp. unfold h_base. case_decide; lia.
    - apply (no_mixed_pass (MB := linear_mbufops) no_algs sample_conn_params no_algs_hold (λ _, 0)); [exact (h_sys_inv look_ops)|exact (h_refs_ok look_ops)|].
      intros con c. cbn. by rewrite lookup_empty.
    - exact E. }
  destruct (rprocs (rps (env (hr_sys r))) !! 2) as [x|] eqn:Ex; [|discriminate Hrc]. exists x. split; [reflexivity|].
  pose proof (ri_refs _ _ Hi 2) as Hr. rewrite Ex in Hr. symmetry. exact Hr.
Defined.

(** ** What the theorem on rule procedures excludes *)

(** The state and reference counts after a number of packets. *)
Fixpoint h_runs (n : nat) (cfg : handler_config (TB := gmap (list Z) npf_tblent) (LP := gmap (Z * Z * Z) npf_tblent) (CD := unit)) (s : w_sys) :
    option w_sys :=
  match n with O => Some s | S n => r ← h_run cfg s sample_syn PFIL_OUT; h_runs n cfg (hr_sys r) end.
Definition rp_count (s : w_sys) : option Z := rp_refcnt <$> rprocs (rps (env s)) !! 2.

(** Packets of a connection that NAT made (it does not pass) under a rule with
    a procedure: each leaves one more reference on the procedure, although no
    connection has it. *)
Theorem handler_leaks_rproc :
  let s := NpfNat.set_env (h_sys look_ops) (snd (npf_natpolicy_create (env (h_sys look_ops)) sample_natp)) in
  let count n := s' ← h_runs n (h_cfg NPF_RULE_PASS sample_ncfg) s; rp_count s' in
  count 1%nat = Some 2 ∧ count 2%nat = Some 3 ∧ count 3%nat = Some 4 ∧
  (s' ← h_runs 3 (h_cfg NPF_RULE_PASS sample_ncfg) s; Some (rp_uses s' 2)) = Some 0.
Proof. vm_compute. repeat split. Qed.

(** An extension that takes the packets of a "pass" connection: each takes a
    reference that the handler does not hold, until the procedure is freed while
    its connection (and its rule) still refer to it. *)
Theorem handler_over_releases :
  let s := h_sys drop_ops in
  let cfg := h_cfg (NPF_RULE_PASS ||| NPF_RULE_STATEFUL) no_nat in
  let count n := s' ← h_runs n cfg s; Some (rp_count s', rp_uses s' 2) in
  count 1%nat = Some (Some 2, 1) ∧ count 2%nat = Some (Some 1, 1) ∧ count 3%nat = Some (None, 1).
Proof. vm_compute. repeat split. Qed.

End Handler.
