(* ===== verification/HandlerFlow.v ===== *)
(** * HandlerFlow: stateful filtering, through the whole handler

    A packet that a stateful rule passes makes a connection; from then on the
    replies pass by it, whatever the ruleset says of them.  The theorem is about
    two calls of [npfk_packet_handler] (src/kern/npf_handler.c), with the
    connections (src/kern/npf_conn.c) between them, for the protocols whose state
    does not depend on the contents of the packets. *)

From S2P Require Import Prelude Nbuf Cache Cksum Addr Rewrite Tcpopt StateTcp State IfMap ConnKey Thmap Portmap Ruleset Tableset Conn Sendpkt Nvlist Rproc Alg NpfNat NatRefs NatSys Handler.
From stdpp Require Import strings.
Open Scope Z_scope.
Open Scope npf_scope.

Module HandlerFlow.
Export Handler.

Section flow.
Context {MB : npf_mbufops_t} {TM PM TB LP CD AS W EP : Type}.
Context {TO : thmap_ops (Z * npf_flow_t) TM} {TL : thmap_laws (Z * npf_flow_t) TM}.
Context {PO : thmap_ops Z PM} {PL : thmap_laws Z PM} {BO : thmap_ops npf_tblent TB} {BL : thmap_laws npf_tblent TB}.
Context {LO : lpm_ops npf_tblent LP} {LL : lpm_laws npf_tblent LP} {CO : cdbr_ops CD}.
Context {stk : ip_stack}.

Abbreviation env_t := (nat_env (PM := PM) (AS := AS) (W := W) (EP := EP)).
Abbreviation nsys := (conn_sys (TM := TM) (X := env_t)).

Context (algs : npf_algset (AS := AS) (NT := npf_nat) (CS := nsys)) (kmem : bool) (params : conn_params).
#[local] Hint Extern 0 (conn_env _) => exact (nat_conn_env algs kmem) : typeclass_instances.
Implicit Types (s : nsys) (E : env_t).
Abbreviation cfg_t := (handler_config (TB := TB) (LP := LP) (CD := CD)).

(** ** The connection of a stateful rule *)

(** A live connection in state [s] that the packets of a flow find. *)
Record pass_conn (s : nsys) (con : Z) (npc1 : npf_cache_t) (di : Z) (c : npf_conn) : Prop := {
  pc_conn : conns s !! con = Some c;
  pc_live : removed c = false;
  pc_pass : npf_conn_pass c = Some (c_retfl c, c_rid c, c_rproc c);
  pc_nat : c_nat c = None;
  pc_track : conn_tracking s = true;
  pc_check : ∀ flow, npf_conn_check c (Some (nb_ifid (npc_nbuf npc1)))
    (match flow with NPF_FLOW_FORW => di | NPF_FLOW_BACK => di ^^^ PFIL_ALL end) flow = true;
  pc_forw : ∃ l, npf_conn_conkey (cp_key params) npc1 di NPF_FLOW_FORW = Some (c_forw c, l);
  pc_back : ∃ l, npf_conn_conkey (cp_key params) npc1 (di ^^^ PFIL_ALL) NPF_FLOW_BACK = Some (c_back c, l);
}.

Lemma establish_tracking s npc di now global avail r s' npc' :
  npf_conn_establish params s npc di now global avail = Some (r, s', npc') → is_Some r → conn_tracking s' = true.
Proof.
  unfold npf_conn_establish. destruct (npf_conn_trackable_p s npc) eqn:Et; cbn [negb]; [|by intros [= <- _ _] []].
  assert (conn_tracking s = true) as Ht by (unfold npf_conn_trackable_p in Et; by destruct (conn_tracking s)).
  case_if; [by intros [= <- _ _] []|]. destruct (npf_state_init _ npc) as [[[[ok b] nst] npc1]|]; [|done].
  destruct ok; [|by intros [= <- _ _] []].
  destruct (npf_conn_conkey (cp_key params) npc1 di NPF_FLOW_FORW) as [[fw lf]|]; [|by intros [= <- _ _] []].
  destruct (npf_conn_conkey (cp_key params) npc1 _ NPF_FLOW_BACK) as [[bk lb]|]; [|by intros [= <- _ _] []].
  destruct (insert_keys _ _ fw bk) as [ok cd]. by intros [= <- <- _] _.
Qed.

Lemma established_pass s npc di now global avail con s1 npc1 retfl rid rp : conn_inv s → di = PFIL_IN ∨ di = PFIL_OUT →
  npf_conn_establish params s npc di now global avail = Some (Some con, s1, npc1) →
  let s2 := npf_conn_release (npf_conn_setpass s1 con retfl rid rp) con in
  conn_inv s2 ∧ ∃ c, pass_conn s2 con npc1 di c ∧ c_rproc c = rp.
Proof.
  intros Hi Hdi He s2.
  destruct (npf_conn_establish_cases params _ _ _ _ _ _ _ _ _ Hi He) as
    [(? & _)|(nst & fw & bk & ifid & lf & lb & m & c & pl & Ef & Eb & Es & Hi1 & Efw & Ebk & Eif & Hc)]; [done|].
  destruct Hc as [[[= ->] Ec]|[? _]]; [|done].
  split; [by apply npf_conn_release_inv, npf_conn_setpass_inv|].
  assert (conns s1 !! next_conn s = Some c) as Hp by (rewrite Es; apply lookup_insert_eq).
  set (c1 := or_flags CONN_PASS c).
  set (c2 := match rp with Some _ => set_rule retfl rid rp c1 | None => set_rule (c_retfl c1) (c_rid c1) rp c1 end).
  set (c3 := set_ref (u32 (c_refcnt c2 - 1)) (or_flags CONN_ACTIVE c2)).
  assert (c_flags c2 = (di &&& PFIL_ALL) ||| CONN_PASS) as Ef2 by (unfold c2, c1; rewrite Ec; by destruct rp).
  assert (c_flags c3 = ((di &&& PFIL_ALL) ||| CONN_PASS) ||| CONN_ACTIVE) as Ef3 by (unfold c3; cbn [c_flags set_ref or_flags set_flags]; by rewrite Ef2).
  assert (c_forw c3 = fw ∧ c_back c3 = bk ∧ c_nat c3 = None ∧ c_rproc c3 = rp ∧ c_ifid c3 = ifid) as (E1 & E2 & E3 & E4 & E5).
  { unfold c3, c2, c1. rewrite Ec. by destruct rp. }
  exists c3. split; [|done]. split.
  - unfold s2, npf_conn_release, npf_conn_setpass. cbn [conns upd_conn set_conns]. rewrite !lookup_alter_conn, !decide_True, Hp by done.
    cbn [fmap option_fmap option_map]. f_equal. fold c1. fold c2. rewrite Ef2. by destruct Hdi as [-> | ->].
  - unfold removed. rewrite Ef3. by destruct Hdi as [-> | ->].
  - unfold npf_conn_pass. rewrite Ef3. by destruct Hdi as [-> | ->].
  - done.
  - apply (establish_tracking _ _ _ _ _ _ _ _ _ He). eauto.
  - intros flow. unfold npf_conn_check. rewrite Ef3, E5, Eif. assert (∀ i, negb (i =? i) = false) as Hii by (intros i; by rewrite Z.eqb_refl).
    destruct Hdi as [-> | ->], global, flow; cbn; rewrite ?Hii; by try case_if.
  - rewrite E1. eauto.
  - rewrite E2. eauto.
Qed.

(** ** A packet of the connection *)

(** A configuration whose NAT ruleset has no rules. *)
Definition no_natrules (cfg : cfg_t) : Prop := rs_rules (nc_natset (hc_nat cfg)) = [].

(** The packet is not seen by an ALG before its connection. *)
Definition alg_ignores (npc : npf_cache_t) (di : Z) : Prop := ∀ s, npf_alg_conn algs s npc di = Some (None, s, npc).

(** What a packet [mp] on interface [ifid] is parsed to: no format error, not a
    fragment, not tagged, and with a header that connections need. *)
Record plain_packet (cfg : cfg_t) (ha : handler_args) (mp : list mbuf) (ifid di : Z) (npc : npf_cache_t) : Prop := {
  pp_parse : ∃ flags, npf_cache_all (mk_npc (hc_ctx cfg) 0 (nbuf_init (ha_nbuf ha) mp ifid) 0 0 0 0 0 0 None None) = Some (flags, npc) ∧
    flag flags NPC_FMTERR = false ∧ flag flags NPC_IPFRAG = false;
  pp_tag : npf_packet_bypass_tag_p (npc_nbuf npc) = false;
  pp_l34 : npf_iscached npc NPC_IP46 = true ∧ npf_iscached npc NPC_LAYER4 = true;
  pp_mbuf : nbuf_head_mbuf (npc_nbuf npc) ≠ [];
  pp_alg : alg_ignores npc di;
}.

Lemma no_nat_do cfg na s npc con di : no_natrules cfg → (∀ c, con = Some c → ∃ cn, conns s !! c = Some cn ∧ c_nat cn = None) →
  ∃ s', npf_do_nat algs kmem params (hc_nat cfg) na s npc con di = Some (0, s', npc) ∧ s' = NpfNat.set_env s (env s).
Proof.
  intros Hn Hc. exists (NpfNat.set_env s (env s)). split; [|done]. unfold npf_do_nat. case_if; [by destruct s|].
  assert ((match con with Some c => npf_nat_lookup s npc c di | None => (None, false) end) = (None, false)) as ->.
  { destruct con as [c|]; [|done]. destruct (Hc c eq_refl) as (cn & Hcn & Hcnat). unfold npf_nat_lookup. rewrite Hcn.
    unfold npf_conn_getnat. by rewrite Hcnat. }
  unfold npf_nat_inspect, npf_ruleset_inspect. rewrite Hn. done.
Qed.

Lemma set_env_id s : NpfNat.set_env s (env s) = s.
Proof. by destruct s. Qed.

(** The whole of [npf_conn_inspect] for a packet of a live connection. *)
Lemma inspect_live s con npc1 di c npc2 di2 flow now : conn_inv s → pass_conn s con npc1 di c →
  di2 = (match flow with NPF_FLOW_FORW => di | NPF_FLOW_BACK => di ^^^ PFIL_ALL end) →
  (∃ l, npf_conn_conkey (cp_key params) npc2 di2 NPF_FLOW_FORW = Some (conn_key flow c, l)) →
  nb_ifid (npc_nbuf npc2) = nb_ifid (npc_nbuf npc1) → generic_proto (npc_proto npc2) = true → npc_proto npc2 ≠ IPPROTO_TCP →
  npf_iscached npc2 NPC_IP46 = true ∧ npf_iscached npc2 NPC_LAYER4 = true → nbuf_head_mbuf (npc_nbuf npc2) ≠ [] → alg_ignores npc2 di2 →
  ∃ s' c', npf_conn_inspect params (npf_alg_conn algs) s npc2 di2 now = Some (Some con, 0, false, s', npc2) ∧
    conns s' !! con = Some c' ∧ npf_conn_pass c' = npf_conn_pass c ∧ c_nat c' = c_nat c ∧ c_rproc c' = c_rproc c.
Proof.
  intros Hi [P1 P2 P3 P4 P5 P6 _ _] -> [l Hk] Hif Hg Hnt [H46 Hl4] Hmb Halg. unfold npf_conn_inspect, npf_conn_trackable_p.
  rewrite P5, H46, Hl4. cbn [negb orb]. rewrite Halg. cbn [mbind option_bind]. rewrite bool_decide_false by done.
  unfold npf_conn_lookup, npf_conndb_lookup. rewrite Hk.
  assert (thmap_get (cd_map (conn_db s)) (key_bytes (conn_key flow c)) = Some (con, flow)) as -> by (apply (ci_map s Hi); eauto).
  set (s1 := upd_conn s con _). set (c1 := set_ref (u32 (c_refcnt c + 1)) c).
  assert (conns s1 !! con = Some c1) as Hc1 by (unfold s1; cbn [conns upd_conn set_conns]; by rewrite lookup_alter_conn, decide_True, P1).
  rewrite Hc1. change (npf_conn_check c1) with (npf_conn_check c). rewrite Hif, P6. cbn [negb].
  assert (∀ f, conns (upd_conn s1 con f) !! con = Some (f c1)) as Hup
    by (intros f; cbn [conns upd_conn set_conns]; by rewrite lookup_alter_conn, decide_True, Hc1).
  rewrite Hup. unfold npf_state_inspect. rewrite (proj2 (Z.eqb_neq _ _) Hnt), Hg.
  eexists _, _. split; [reflexivity|]. split; [cbn [conns upd_conn set_conns]; rewrite lookup_alter_conn, decide_True by done|].
  { change (conns (upd_conn s1 con _)) with (alter (set_atime (u32 now)) con (conns s1)). rewrite lookup_alter_conn, decide_True, Hc1 by done. reflexivity. }
  done.
Qed.

(** The handler passes it by the connection, without a look at the ruleset. *)
Lemma handler_by_conn cfg ha s con npc1 di c mp ifid npc2 di2 flow : conn_inv s → pass_conn s con npc1 di c → c_rproc c = None →
  no_natrules cfg → plain_packet cfg ha mp ifid di2 npc2 →
  di2 = (match flow with NPF_FLOW_FORW => di | NPF_FLOW_BACK => di ^^^ PFIL_ALL end) →
  (∃ l, npf_conn_conkey (cp_key params) npc2 di2 NPF_FLOW_FORW = Some (conn_key flow c, l)) →
  nb_ifid (npc_nbuf npc2) = nb_ifid (npc_nbuf npc1) → generic_proto (npc_proto npc2) = true → npc_proto npc2 ≠ IPPROTO_TCP →
  ∃ r, npfk_packet_handler algs kmem params cfg ha s mp ifid di2 = Some r ∧ hr_error r = 0 ∧
    hr_mp r = nbuf_head_mbuf (npc_nbuf npc2) ∧ hr_stats r = [NPF_STAT_PASS_CONN].
Proof.
  intros Hi Hpc Hrp Hn [(fl & Hp & Hf1 & Hf2) Ht H34 Hmb Ha] Hdi Hk Hif Hg Hnt. unfold npfk_packet_handler. rewrite Hp. cbn [mbind option_bind].
  rewrite Hf1, Hf2. unfold handler_inspect. cbn [l_npc l_con l_rp l_error l_decision l_mi l_sys l_stats]. rewrite Ht.
  destruct (inspect_live s con npc1 di c npc2 di2 flow (na_now (ha_nat ha)) Hi Hpc Hdi Hk Hif Hg Hnt H34 Hmb Ha)
    as (s' & c' & -> & Hc' & Hpass & Hnat & _). cbn [mbind option_bind]. rewrite Hc'. cbn [mbind option_bind]. rewrite Hpass, (pc_pass _ _ _ _ _ Hpc), Hrp.
  unfold handler_pass. cbn [l_npc l_con l_rp l_error l_decision l_mi l_sys l_stats].
  destruct (no_nat_do cfg (ha_nat ha) s' npc2 (Some con) di2 Hn) as (s2 & -> & ->).
  { intros ? [= <-]. exists c'. split; [done|]. rewrite Hnat. apply (pc_nat _ _ _ _ _ Hpc). }
  cbn [mbind option_bind]. eexists. split; [reflexivity|].
  unfold handler_out. cbn [l_npc l_con l_rp l_error l_decision l_mi l_sys l_stats]. by destruct (nbuf_head_mbuf (npc_nbuf npc2)).
Qed.


(** ** The packet that a stateful rule passes, and its replies *)

Lemma inspect_conn_inv s npc di now r e b s' npc' : alg_ignores npc di → conn_inv s →
  npf_conn_inspect params (npf_alg_conn algs) s npc di now = Some (r, e, b, s', npc') → conn_inv s'.
Proof.
  intros Ha Hi. unfold npf_conn_inspect. case_if; [by intros [= <- <- <- <- <-]|]. rewrite Ha. cbn [mbind option_bind].
  case_if; [by intros [= <- <- <- <- <-]|]. pose proof (npf_conn_lookup_inv params s npc di now Hi) as Hl.
  destruct (npf_conn_lookup params s npc di now) as [[[con flow]|] s1]; cbn [snd] in Hl; [|by intros [= <- <- <- <- <-]].
  destruct (conns s1 !! con) as [c|]; [|done]. destruct (npf_state_inspect _ _ _ _) as [[[[ok st] nst] npc2]|]; [|done].
  assert (conn_inv (upd_conn s1 con (set_state nst))) as H1 by (by apply inv_upd).
  destruct ok; intros [= <- <- <- <- <-]; [done|by apply npf_conn_release_inv].
Qed.

(** C10: stateful filtering, for UDP and ICMP.  A packet without a connection
    that a stateful pass rule passes is given back, and every reply to it
    (addresses and ports or query ID swapped, on the same interface, in the
    other direction) is then passed by its connection: with any later ruleset
    and default.  Premises: packet and reply are parsed without a format error
    up to their layer 4 header, are no fragments, have no bypass tag and are
    ignored by the ALGs ([plain_packet]); neither the configuration of the
    packet nor that of the reply has NAT rules; the rule has no rule procedure;
    and the connection for the packet is established (it is not when memory is
    short or one with the same key exists).  TCP is excluded here, and of other
    protocols, GRE among them, no layer 4 header is parsed. *)
Theorem stateful_rule_replies cfg ha s mp ifid di npc b s0 npc0 rl ru con s1 npc1 :
  conn_inv s → di = PFIL_IN ∨ di = PFIL_OUT → no_natrules cfg → plain_packet cfg ha mp ifid di npc →
  npf_conn_inspect params (npf_alg_conn algs) s npc di (na_now (ha_nat ha)) = Some (None, 0, b, s0, npc0) →
  npf_ruleset_inspect (hc_bpf cfg npc0) di (nb_ifid (npc_nbuf npc0)) (hc_rules cfg) (hc_ruleset cfg) = Some (Some rl) →
  hc_rules cfg !! rl = Some ru → flag (r_attr ru) NPF_RULE_PASS = true → flag (r_attr ru) NPF_RULE_STATEFUL = true →
  r_rproc ru = None →
  npf_conn_establish params s0 npc0 di (na_now (ha_nat ha)) (negb (flag (r_attr ru) NPF_RULE_GSTATEFUL)) (ha_conn ha)
    = Some (Some con, s1, npc1) →
  npc_ckey npc1 = None → nbuf_head_mbuf (npc_nbuf npc1) ≠ [] →
  generic_proto (npc_proto npc1) = true → npc_proto npc1 ≠ IPPROTO_TCP →
  ∃ r, npfk_packet_handler algs kmem params cfg ha s mp ifid di = Some r ∧ hr_error r = 0 ∧
    hr_mp r = nbuf_head_mbuf (npc_nbuf npc1) ∧ hr_stats r = [NPF_STAT_PASS_RULESET] ∧
    ∀ cfg2 ha2 mp2 npc2, no_natrules cfg2 → plain_packet cfg2 ha2 mp2 ifid (di ^^^ PFIL_ALL) npc2 → reply_to npc1 npc2 →
    ∃ r2, npfk_packet_handler algs kmem params cfg2 ha2 (hr_sys r) mp2 ifid (di ^^^ PFIL_ALL) = Some r2 ∧ hr_error r2 = 0 ∧
      hr_mp r2 = nbuf_head_mbuf (npc_nbuf npc2) ∧ hr_stats r2 = [NPF_STAT_PASS_CONN].
Proof.
  intros Hi Hdi Hn [(fl & Hp & Hf1 & Hf2) Ht H34 Hmb Ha] Hins Hrl Hru Hpass Hst Hrp Hest Hck Hmb1 Hg Hnt.
  pose proof (inspect_conn_inv _ _ _ _ _ _ _ _ _ Ha Hi Hins) as Hi0.
  set (s2 := npf_conn_release (npf_conn_setpass s1 con (r_attr ru) (r_id ru) None) con).
  destruct (established_pass s0 npc0 di _ _ _ con s1 npc1 (r_attr ru) (r_id ru) None Hi0 Hdi Hest) as (Hi2 & c & Hpc & Hcrp).
  fold s2 in Hi2, Hpc.
  assert (∃ r, npfk_packet_handler algs kmem params cfg ha s mp ifid di = Some r ∧ hr_error r = 0 ∧
    hr_mp r = nbuf_head_mbuf (npc_nbuf npc1) ∧ hr_stats r = [NPF_STAT_PASS_RULESET] ∧ hr_sys r = s2) as (r & E & H1 & H2 & H3 & H4).
  { unfold npfk_packet_handler. rewrite Hp. cbn [mbind option_bind]. rewrite Hf1, Hf2. unfold handler_inspect.
    cbn [l_npc l_con l_rp l_error l_decision l_mi l_sys l_stats]. rewrite Ht, Hins. cbn [mbind option_bind].
    change (negb (0 =? 0)) with false. cbv iota. rewrite Hrl. cbn [mbind option_bind]. rewrite Hru. cbn [mbind option_bind].
    unfold handler_rule, npf_rule_getrproc, npf_rule_conclude. rewrite Hrp. cbn [l_npc l_con l_rp l_error l_decision l_mi l_sys l_stats mi_retfl mi_rid].
    rewrite Hpass. change (negb (0 =? 0)) with false. cbv iota. rewrite Hst, Hest. cbn [mbind option_bind].
    unfold handler_pass. cbn [l_npc l_con l_rp l_error l_decision l_mi l_sys l_stats].
    destruct (no_nat_do cfg (ha_nat ha) (npf_conn_setpass s1 con (r_attr ru) (r_id ru) None) npc1 (Some con) di Hn) as (s3 & -> & ->).
    { intros ? [= <-]. pose proof (pc_conn _ _ _ _ _ Hpc) as Hc2. unfold s2, npf_conn_release in Hc2.
      cbn [conns upd_conn set_conns] in Hc2. rewrite lookup_alter_conn, decide_True in Hc2 by done.
      destruct (conns (npf_conn_setpass _ _ _ _ _) !! con) as [x|] eqn:Ex; [|done]. exists x. split; [done|].
      pose proof (pc_nat _ _ _ _ _ Hpc) as Hnt2. injection Hc2 as <-. revert Hnt2. cbn [c_nat set_ref]. by case_if. }
    cbn [mbind option_bind]. rewrite set_env_id. eexists. split; [reflexivity|].
    unfold handler_out. cbn [l_npc l_con l_rp l_error l_decision l_mi l_sys l_stats]. by destruct (nbuf_head_mbuf (npc_nbuf npc1)). }
  exists r. split_and!; [done..|]. intros cfg2 ha2 mp2 npc2 Hn2 Hpp Hre. rewrite H4.
  destruct (pc_back _ _ _ _ _ Hpc) as [l Hb]. pose proof (conkey_reply (cp_key params) npc1 npc2 (di ^^^ PFIL_ALL) Hck Hre) as Ek. rewrite Hb in Ek.
  destruct Hre as (_ & _ & Epr & _ & _ & Eif).
  apply (handler_by_conn cfg2 ha2 s2 con npc1 di c mp2 ifid npc2 _ NPF_FLOW_BACK); try done; [by exists l|by rewrite Epr|by rewrite Epr].
Qed.

End flow.

(** ** Samples *)

(** A query from 10.0.0.1 port 1234 to 10.0.0.2 port 53, and its answer. *)
Definition udp_query : list Z :=
  [0x45; 0; 0; 28; 0; 1; 0; 0; 64; 17; 0; 0; 10; 0; 0; 1; 10; 0; 0; 2; 4; 210; 0; 53; 0; 8; 0; 0].
Definition udp_answer : list Z :=
  [0x45; 0; 0; 28; 0; 9; 0; 0; 64; 17; 0; 0; 10; 0; 0; 2; 10; 0; 0; 1; 0; 53; 4; 210; 0; 8; 0; 0].

Definition f_npc (p : list Z) : npf_cache_t :=
  mk_npc no_drop (NPC_IP4 ||| NPC_LAYER4 ||| NPC_UDP) (mk_nbuf [p] 0 20 1 0) 12 16 4 20 IPPROTO_UDP 0 (Some 20) None.

Abbreviation w_hcfg := (handler_config (TB := gmap (list Z) npf_tblent) (LP := gmap (Z * Z * Z) npf_tblent) (CD := unit)).

(** "pass stateful out", everything else is blocked; and a ruleset without rules. *)
Definition f_rule : npf_rule :=
  mk_rule (NPF_RULE_PASS ||| NPF_RULE_STATEFUL ||| NPF_RULE_OUT) 0 0 None None None None 0 None None 0 "" [] None.
Definition f_cfg : w_hcfg :=
  mk_hcfg no_drop {[20 := f_rule]} (mk_ruleset [20] [] [] 0 1 [20]) false (λ _ _, true) no_nat false false.
Definition f_cfg2 : w_hcfg := mk_hcfg no_drop ∅ (mk_ruleset [] [] [] 0 1 []) false (λ _ _, true) no_nat false false.

Definition f_est : option (option Z * w_sys * npf_cache_t) :=
  npf_conn_establish (MB := linear_mbufops) (CE := nat_conn_env no_algs true) sample_conn_params (h_sys look_ops) (f_npc udp_query)
    PFIL_OUT 100 true true.
Definition f_sys1 : w_sys := match f_est with Some (_, s, _) => s | None => h_sys look_ops end.

Lemma f_plain cfg p di : hc_ctx cfg = no_drop → p = udp_query ∨ p = udp_answer →
  plain_packet (MB := linear_mbufops) no_algs (cfg : w_hcfg) h_args [p] 1 di (f_npc p).
Proof.
  intros Hc Hp. split.
  - exists (NPC_IP4 ||| NPC_LAYER4 ||| NPC_UDP). rewrite Hc. by destruct Hp as [-> | ->]; vm_compute.
  - done.
  - done.
  - done.
  - by intros s.
Qed.

Lemma stateful_rule_replies_witness : ∃ r r2,
  npfk_packet_handler (MB := linear_mbufops) no_algs true sample_conn_params f_cfg h_args (h_sys look_ops) [udp_query] 1 PFIL_OUT = Some r ∧
  npfk_packet_handler (MB := linear_mbufops) no_algs true sample_conn_params f_cfg2 h_args (hr_sys r) [udp_answer] 1 PFIL_IN = Some r2 ∧
  hr_mp r2 = [udp_answer] ∧ hr_stats r2 = [NPF_STAT_PASS_CONN].
Proof.
  destruct (stateful_rule_replies (MB := linear_mbufops) no_algs true sample_conn_params f_cfg h_args (h_sys look_ops) [udp_query] 1 PFIL_OUT
    (f_npc udp_query) false (h_sys look_ops) (f_npc udp_query) 20 f_rule 1 f_sys1 (f_npc udp_query)) as (r & E & _ & _ & _ & Hreply).
  - apply (h_sys_inv look_ops).
  - right. reflexivity.
  - reflexivity.
  - apply f_plain; [reflexivity|left; reflexivity].
  - vm_compute. reflexivity.
  - vm_compute. reflexivity.
  - vm_compute. reflexivity.
  - vm_compute. reflexivity.
  - vm_compute. reflexivity.
  - reflexivity.
  - vm_compute. reflexivity.
  - reflexivity.
  - discriminate.
  - reflexivity.
  - discriminate.
  - destruct (Hreply f_cfg2 h_args [udp_answer] (f_npc udp_answer)) as (r2 & E2 & _ & Hmp & Hst).
    + reflexivity.
    + apply f_plain; [reflexivity|right; reflexivity].
    + vm_compute. repeat split.
    + exists r, r2. split; [exact E|]. split; [exact E2|]. split; [exact Hmp|exact Hst].
Defined.

End HandlerFlow.
