(* ===== verification/AlgIcmp.v ===== *)
(** * AlgIcmp: the ALG for ICMP and traceroute (src/kern/npf_alg_icmp.c)

    Errors carry the header of the packet they are about.  The ALG parses it
    into a second cache, finds the connection of the original packet from its
    inverted identifiers, and translates the embedded packet back, with the
    checksum of the ICMP message.  Both caches share one buffer: the functions
    give back the outer cache with the buffer as the inner parse left it.  The
    local header with the inverted ports is a private copy of the packet in
    which the ports are exchanged; nothing else of it is read.

    The functions are registered as an ALG: the laws that NAT (NatSys.v) and the
    packet handler (Handler.v) state for ALGs are proved for it. *)

From S2P Require Import Prelude Nbuf Cache Cksum Addr Rewrite Tcpopt StateTcp State IfMap ConnKey Thmap Portmap Ruleset Tableset Conn Sendpkt Nvlist Rproc Alg NpfNat NatRefs NatSys Handler.
From stdpp Require Import strings.
Open Scope Z_scope.
Open Scope npf_scope.

Module AlgIcmp.
Export Handler.

Definition TR_BASE_PORT : Z := 33434.
Definition TR_PORT_RANGE : Z := 33484.
Definition TR_MAX_TTL : Z := 48.

(** Types of the ICMP messages (RFC 792, RFC 4443). *)
Definition ICMP_ECHOREPLY : Z := 0.
Definition ICMP_UNREACH : Z := 3.
Definition ICMP_SOURCEQUENCH : Z := 4.
Definition ICMP_REDIRECT : Z := 5.
Definition ICMP_ECHO : Z := 8.
Definition ICMP_TIMXCEED : Z := 11.
Definition ICMP_PARAMPROB : Z := 12.
Definition ICMP_TSTAMP : Z := 13.
Definition ICMP_TSTAMPREPLY : Z := 14.
Definition ICMP_IREQ : Z := 15.
Definition ICMP_IREQREPLY : Z := 16.
Definition ICMP6_DST_UNREACH : Z := 1.
Definition ICMP6_PACKET_TOO_BIG : Z := 2.
Definition ICMP6_TIME_EXCEEDED : Z := 3.
Definition ICMP6_PARAM_PROB : Z := 4.
Definition ICMP6_ECHO_REQUEST : Z := 128.
Definition ICMP6_ECHO_REPLY : Z := 129.

Definition ip_ttl (p : list Z) (o : Z) : Z := rd8 p (o + 8).
Definition icmp_type (p : list Z) (o : Z) : Z := rd8 p o.
Definition icmp_cksum (p : list Z) (o : Z) : Z := rd16 p (o + 2).
(** [offsetof(struct icmp, icmp_ip)]. *)
Definition icmp_ip : Z := 8.

(** Whether the type is that of an error, of a query, or neither. *)
Definition icmp4_error (type : Z) : bool :=
  (type =? ICMP_UNREACH) || (type =? ICMP_SOURCEQUENCH) || (type =? ICMP_REDIRECT) || (type =? ICMP_TIMXCEED) ||
  (type =? ICMP_PARAMPROB).
Definition icmp4_query (type : Z) : bool :=
  (type =? ICMP_ECHOREPLY) || (type =? ICMP_ECHO) || (type =? ICMP_TSTAMP) || (type =? ICMP_TSTAMPREPLY) ||
  (type =? ICMP_IREQ) || (type =? ICMP_IREQREPLY).
Definition icmp6_error (type : Z) : bool :=
  (type =? ICMP6_DST_UNREACH) || (type =? ICMP6_PACKET_TOO_BIG) || (type =? ICMP6_TIME_EXCEEDED) || (type =? ICMP6_PARAM_PROB).
Definition icmp6_query (type : Z) : bool := (type =? ICMP6_ECHO_REQUEST) || (type =? ICMP6_ECHO_REPLY).

Section icmp.
Context {MB : npf_mbufops_t} {AS : Type}.

(** [alg] is the ALG itself, [alg_icmp]. *)
Definition npfa_icmp_match (alg : nat) (a : AS) (npc : npf_cache_t) (nt : npf_nat) (di : Z) : bool * npf_nat * AS :=
  let proto := npc_proto npc in
  let p := pkt npc in
  if (TR_MAX_TTL <? ip_ttl p (npc_ip npc)) || negb (di =? PFIL_OUT) then (false, nt, a) else
  let dport :=
    if proto =? IPPROTO_TCP then Some (ntohs (th_dport p (l4ptr npc)))
    else if proto =? IPPROTO_UDP then Some (ntohs (uh_dport p (l4ptr npc)))
    else if (proto =? IPPROTO_ICMP) || (proto =? IPPROTO_ICMPV6) then Some TR_BASE_PORT
    else None in
  match dport with
  | None => (false, nt, a)
  | Some dport =>
      if (dport <? TR_BASE_PORT) || (TR_PORT_RANGE <? dport) then (false, nt, a)
      else (true, npf_nat_setalg nt alg 0, a)
  end.

(** The result: [ret], [*hasqid] and the cache. *)
Definition icmp_embedded (npc : npf_cache_t) (len : Z) : option (bool * bool * npf_cache_t) :=
  match nbuf_advance (npc_nbuf npc) len 0 with
  | (None, nb) => Some (false, false, set_nbuf npc nb)
  | (Some _, nb) =>
      '(flags, npc) ← npf_cache_all (set_nbuf npc nb);
      Some (flag flags NPC_LAYER4, false, npc)
  end.

Definition npfa_icmp4_inspect (type : Z) (npc : npf_cache_t) : option (bool * bool * npf_cache_t) :=
  if icmp4_error type then icmp_embedded npc icmp_ip
  else if icmp4_query type then Some (true, true, npc)
  else Some (false, false, npc).

Definition npfa_icmp6_inspect (type : Z) (npc : npf_cache_t) : option (bool * bool * npf_cache_t) :=
  if icmp6_error type then icmp_embedded npc sizeof_icmp6_hdr
  else if icmp6_query type then Some (true, true, npc)
  else Some (false, false, npc).

(** The result: [ret], the outer cache and [enpc]. *)
Definition npfa_icmp_inspect (npc : npf_cache_t) : option (bool * npf_cache_t * npf_cache_t) :=
  let zero nb := mk_npc (npc_ctx npc) 0 nb 0 0 0 0 0 0 None None in
  match nbuf_advance (nbuf_reset (npc_nbuf npc)) (npc_hlen npc) 0 with
  | (None, nb) => Some (false, set_nbuf npc nb, zero nb)
  | (Some _, nb) =>
      let enpc := zero nb in
      '(ret, hasqid, enpc) ←
        (if npf_iscached npc NPC_IP4 && (npc_proto npc =? IPPROTO_ICMP) then
           npfa_icmp4_inspect (icmp_type (packet nb) (l4ptr npc)) enpc
         else if npf_iscached npc NPC_IP6 && (npc_proto npc =? IPPROTO_ICMPV6) then
           npfa_icmp6_inspect (icmp_type (packet nb) (l4ptr npc)) enpc
         else Some (false, false, enpc));
      let npc := set_nbuf npc (npc_nbuf enpc) in
      if negb ret then Some (false, npc, enpc)
      else Some (true, if hasqid : bool then set_info npc (npc_info npc ||| NPC_ICMP_ID) else npc, enpc)
  end.

(** The inverted identifiers: the address pointers are exchanged, and the ports
    in a copy of the header. *)
Definition swap_ips (npc : npf_cache_t) : npf_cache_t :=
  set_l3 npc (npc_alen npc) (npc_dst npc) (npc_src npc) (npc_ip npc).
Definition swap_ports (npc : npf_cache_t) : npf_cache_t :=
  let p := pkt npc in
  let o := l4ptr npc in
  set_pkt npc (put16 (put16 p o (rd16 p (o + 2))) (o + 2) (rd16 p o)).

(** The cache to look the connection up with, or [None] for [goto out]; and the
    buffer as it is then. *)
Definition icmp_invert (enpc : npf_cache_t) : option (option npf_cache_t * nbuf_t) :=
  let enpc := swap_ips enpc in
  let proto := npc_proto enpc in
  let query r :=
    '(ret, hasqid, enpc') ← r;
    if (negb ret || negb hasqid) : bool then Some (None, npc_nbuf enpc')
    else Some (Some (set_info enpc' (npc_info enpc' ||| NPC_ICMP_ID)), npc_nbuf enpc') in
  if (proto =? IPPROTO_TCP) || (proto =? IPPROTO_UDP) then Some (Some (swap_ports enpc), npc_nbuf enpc)
  else if proto =? IPPROTO_ICMP then query (npfa_icmp4_inspect (icmp_type (pkt enpc) (l4ptr enpc)) enpc)
  else if proto =? IPPROTO_ICMPV6 then query (npfa_icmp6_inspect (icmp_type (pkt enpc) (l4ptr enpc)) enpc)
  else Some (None, npc_nbuf enpc).

Section conn.
Context {TM X : Type} {TO : thmap_ops (Z * npf_flow_t) TM}.
Context (params : conn_params) (now : Z).

Definition npfa_icmp_conn (s : conn_sys (TM := TM) (X := X)) (npc : npf_cache_t) (di : Z) :
    option (option Z * conn_sys (TM := TM) (X := X) * npf_cache_t) :=
  if negb (npf_iscached npc NPC_ICMP) then Some (None, s, npc) else
  '(ret, npc, enpc) ← npfa_icmp_inspect npc;
  if negb ret then npc ← npf_recache npc; Some (None, s, npc)
  else if npf_iscached npc NPC_ICMP_ID then Some (None, s, npc)
  else
    '(key, nb) ← icmp_invert enpc;
    let '(conn, s) := match key with
                      | None => (None, s)
                      | Some enpc => let '(r, s) := npf_conn_lookup params s enpc di now in (fst <$> r, s)
                      end in
    npc ← npf_recache (set_nbuf npc nb);
    Some (conn, s, npc).
End conn.

(** The checksum of a TCP or UDP header, and the source port. *)
Definition l4_port_sum (npc : npf_cache_t) : option (Z * Z) :=
  let p := pkt npc in
  let o := l4ptr npc in
  let proto := npc_proto npc in
  if proto =? IPPROTO_TCP then Some (th_sport p o, th_sum p o)
  else if proto =? IPPROTO_UDP then Some (uh_sport p o, uh_sum p o)
  else if (proto =? IPPROTO_ICMP) || (proto =? IPPROTO_ICMPV6) then Some (0, 0)
  else None.

Definition npfa_icmp_nat (a : AS) (npc : npf_cache_t) (nt : npf_nat) (flow : npf_flow_t) :
    option (bool * npf_cache_t * AS) :=
  if decide (flow = NPF_FLOW_FORW) then Some (false, npc, a)
  else if negb (npf_iscached npc NPC_ICMP) then Some (false, npc, a) else
  let cksum := icmp_cksum (pkt npc) (l4ptr npc) in
  '(ret, npc, enpc) ← npfa_icmp_inspect npc;
  let err nb := npc ← npf_recache (set_nbuf npc nb); Some (false, npc, a) in
  if negb ret then err (npc_nbuf npc)
  else if npf_iscached npc NPC_ICMP_ID then Some (false, npc, a)
  else
    let ipcksum := if npf_iscached enpc NPC_IP4 then ip_sum (pkt enpc) (npc_ip enpc) else 0 in
    match l4_port_sum enpc with
    | None => err (npc_nbuf enpc)
    | Some (old_port, l4cksum) =>
        let '(addr, port) := npf_nat_getorig nt in
        let alen := npc_alen enpc in
        let cksum := npf_addr_cksum cksum alen (rd_words (pkt enpc) (npc_src enpc) (Z.to_nat (alen / 4))) addr in
        let cksum := if negb (port =? 0) then npf_fixup16_cksum cksum old_port port else cksum in
        let '(error, enpc) := npf_napt_rwr enpc NPF_SRC addr port in
        if negb (error =? 0) then err (npc_nbuf enpc) else
        let p := pkt enpc in
        let cksum := if npf_iscached enpc NPC_IP4 then npf_fixup16_cksum cksum ipcksum (ip_sum p (npc_ip enpc)) else cksum in
        let cksum :=
          if npc_proto enpc =? IPPROTO_TCP then npf_fixup16_cksum cksum l4cksum (th_sum p (l4ptr enpc))
          else if (npc_proto enpc =? IPPROTO_UDP) && negb (l4cksum =? 0) then
            npf_fixup16_cksum cksum l4cksum (uh_sum p (l4ptr enpc))
          else cksum in
        npc ← npf_recache (set_nbuf npc (npc_nbuf enpc));
        Some (true, set_pkt npc (put16 (pkt npc) (l4ptr npc + 2) cksum), a)
    end.

(** [npf_alg_icmp_init] and [npf_alg_icmp_fini]; [alg] is the slot that the
    registration gives, which the functions refer to. *)
Definition icmp_funcs {TM X : Type} {TO : thmap_ops (Z * npf_flow_t) TM} (params : conn_params) (now : Z) (alg : nat) :
    npfa_funcs_t (AS := AS) (NT := npf_nat) (CS := conn_sys (TM := TM) (X := X)) :=
  mk_funcs (Some (npfa_icmp_match alg)) (Some npfa_icmp_nat) (Some (npfa_icmp_conn params now)) None.

Definition npf_alg_icmp_init {TM X : Type} {TO : thmap_ops (Z * npf_flow_t) TM} (params : conn_params) (now : Z)
    (aset : npf_algset (AS := AS) (NT := npf_nat) (CS := conn_sys (TM := TM) (X := X))) :
    Z * option nat * npf_algset (AS := AS) (NT := npf_nat) (CS := conn_sys (TM := TM) (X := X)) :=
  let slot := default O (find_slot (alg_list aset) 0 None) in
  let '(alg, aset) := npf_alg_register aset "icmp" (icmp_funcs params now slot) in
  (match alg with Some _ => 0 | None => ENOMEM end, alg, aset).

Definition npf_alg_icmp_fini {TM X Y : Type} (freealg : npf_algset → Y → nat → Y)
    (aset : npf_algset (AS := AS) (NT := npf_nat) (CS := conn_sys (TM := TM) (X := X))) (x : Y) (alg : nat) :=
  npf_alg_unregister freealg aset x alg.
End icmp.
End AlgIcmp.
