(* ===== verification/AlgPptp.v ===== *)
(** * AlgPptp: the ALG for PPTP (src/kern/npf_alg_pptp.c)

    PPTP has a TCP control connection and GRE tunnels identified by call IDs.
    Clients behind NAT may choose the same ID, so the ALG replaces the client's
    ID in the call request by one that is unique for the server, restores it in
    the reply, and establishes the connection of the GRE tunnel with the NAT
    policy of the control connection.

    A control connection has a context with the states of up to four tunnels.
    Contexts are heap objects at addresses that are multiples of 8; the state of
    tunnel [i] is at address [c + 1 + i], so that a pointer to a state determines
    its context: a state lives and dies with its context.  The translation
    entries are named by their pointers ([NT := Z]); the functions of the ALG
    change connections and NAT as well as the state of the ALG, [pptp_sys].
    [ps_fault] records the access to a freed context and misuse of its lock. *)

From S2P Require Import Prelude Nbuf Cache Cksum Addr Rewrite Tcpopt StateTcp State IfMap ConnKey Thmap Portmap Ruleset Tableset Conn Nvlist Rproc Alg NpfNat NatRefs NatSys.
From stdpp Require Import strings.
Open Scope Z_scope.
Open Scope npf_scope.

Module AlgPptp.
Export NpfNat NatSys.

(** Ports and IDs are kept in the byte order of the packet. *)
Definition PPTP_SERVER_PORT : Z := htons 1723.
Definition PPTP_OUTGOING_CALL_MIN_LEN : Z := 32.
Definition PPTP_MAGIC_COOKIE : Z := 0x1a2b3c4d.
Definition GRE_VER_FLD_MASK : Z := 0x7.
Definition GRE_ENHANCED_HDR_VER : Z := 1.
Definition PPTP_CTRL_MSG : Z := 1.
Definition PPTP_OUTGOING_CALL_REQUEST : Z := 7.
Definition PPTP_OUTGOING_CALL_REPLY : Z := 8.
Definition PPTP_CALL_DISCONNECT_NOTIFY : Z := 13.
Definition PPTP_WAN_ERROR_NOTIFY : Z := 14.
Definition GRE_STATE_USED : Z := 0x1.
Definition GRE_STATE_ESTABLISHED : Z := 0x2.
Definition GRE_STATE_SERVER_CALL_ID : Z := 0x4.
Definition PPTP_MAX_GRE_PER_CLIENT : nat := 4.

(** Packed structures: the fields of the messages and their sizes. *)
Definition sizeof_pptp_gre_hdr : Z := 8.
Definition sizeof_pptp_msg_hdr : Z := 14.
Definition sizeof_pptp_outgoing_call_req : Z := 30.
Definition sizeof_pptp_outgoing_call_reply : Z := 20.
Definition PPTP_MIN_MSG_SIZE : Z :=
  Z.min (sizeof_pptp_outgoing_call_req - sizeof_pptp_msg_hdr) (sizeof_pptp_outgoing_call_reply - sizeof_pptp_msg_hdr).
Definition gre_flags_ver (p : list Z) (o : Z) : Z := rd16 p o.
Definition gre_call_id (p : list Z) (o : Z) : Z := rd16 p (o + 6).
Definition pptp_len (p : list Z) (o : Z) : Z := rd16 p o.
Definition pptp_msg_type (p : list Z) (o : Z) : Z := rd16 p (o + 2).
Definition pptp_magic_cookie (p : list Z) (o : Z) : Z := rd32 p (o + 4).
Definition pptp_ctrl_msg_type (p : list Z) (o : Z) : Z := rd16 p (o + 8).
Definition CALL_ID : Z := 12.
Definition PEER_CALL_ID : Z := 14.

Record pptp_gre_state_t := mk_gre {
  client_call_id : Z;          (* call_id[CLIENT_CALL_ID] *)
  server_call_id : Z;          (* call_id[SERVER_CALL_ID] *)
  orig_client_call_id : Z;
  gre_flags : Z;
}.

Record pptp_tcp_ctx_t := mk_ctx { ctx_lock : bool; gre_conns : list pptp_gre_state_t }.

Definition used (g : pptp_gre_state_t) : bool := flag (gre_flags g) GRE_STATE_USED.
Definition set_gre_flags (g : pptp_gre_state_t) (f : Z) : pptp_gre_state_t :=
  mk_gre (client_call_id g) (server_call_id g) (orig_client_call_id g) f.
Definition clear_flag (g : pptp_gre_state_t) (f : Z) : pptp_gre_state_t := set_gre_flags g (gre_flags g &&& u16 (Z.lnot f)).
Definition add_flag (g : pptp_gre_state_t) (f : Z) : pptp_gre_state_t := set_gre_flags g (gre_flags g ||| f).

(** Pointers to contexts and to their states. *)
Definition ctx_size : Z := 8.
Definition gre_ptr (ctx : Z) (i : nat) : Z := ctx + 1 + Z.of_nat i.
Definition ptr_ctx (p : Z) : Z := ctx_size * (p / ctx_size).
Definition ptr_index (p : Z) : nat := Z.to_nat (p mod ctx_size - 1).

(** Whether a state has the ID and may be found by it. *)
Definition lookup_match (client : bool) (call_id : Z) (g : pptp_gre_state_t) : bool :=
  used g && ((if client then client_call_id g else server_call_id g) =? call_id) &&
  (flag (gre_flags g) GRE_STATE_SERVER_CALL_ID || client).

Fixpoint pptp_gre_lookup_state (l : list pptp_gre_state_t) (i : nat) (client : bool) (call_id : Z) : option nat :=
  match l with
  | [] => None
  | g :: l => if lookup_match client call_id g then Some i else pptp_gre_lookup_state l (S i) client call_id
  end.

Section pptp.
Context {MB : npf_mbufops_t} {TM PM TB LP CD AS W EP : Type}.
Context {TO : thmap_ops (Z * npf_flow_t) TM} {PO : thmap_ops Z PM} {BO : thmap_ops npf_tblent TB}.
Context {LO : lpm_ops npf_tblent LP} {CO : cdbr_ops CD}.

Abbreviation nsys := (conn_sys (TM := TM) (X := nat_env (PM := PM) (AS := AS) (W := W) (EP := EP))).

(** [pptp_alg] is [ps_tcp], [ps_gre] and [ps_pm]; the portmap is there between
    [npf_alg_pptp_init] and [npf_alg_pptp_fini]. *)
Record pptp_sys := mk_psys {
  ps_sys : nsys;
  ps_tcp : option nat;
  ps_gre : option nat;
  ps_pm : option (npf_portmap (M := PM));
  ps_ctx : gmap Z pptp_tcp_ctx_t;
  ps_next : Z;
  ps_fault : bool;
}.

Definition set_sys (s : pptp_sys) (x : nsys) : pptp_sys := mk_psys x (ps_tcp s) (ps_gre s) (ps_pm s) (ps_ctx s) (ps_next s) (ps_fault s).
Definition set_pm (s : pptp_sys) (pm : option (npf_portmap (M := PM))) : pptp_sys :=
  mk_psys (ps_sys s) (ps_tcp s) (ps_gre s) pm (ps_ctx s) (ps_next s) (ps_fault s).
Definition set_ctx (s : pptp_sys) (m : gmap Z pptp_tcp_ctx_t) : pptp_sys :=
  mk_psys (ps_sys s) (ps_tcp s) (ps_gre s) (ps_pm s) m (ps_next s) (ps_fault s).
Definition pfault (s : pptp_sys) : pptp_sys := mk_psys (ps_sys s) (ps_tcp s) (ps_gre s) (ps_pm s) (ps_ctx s) (ps_next s) true.

(** The state of a tunnel in memory, and its change. *)
Definition gre_get (s : pptp_sys) (ctx : Z) (i : nat) : option pptp_gre_state_t :=
  c ← ps_ctx s !! ctx; gre_conns c !! i.
Definition gre_upd (s : pptp_sys) (ctx : Z) (i : nat) (f : pptp_gre_state_t → pptp_gre_state_t) : pptp_sys :=
  match ps_ctx s !! ctx with
  | None => pfault s
  | Some c => set_ctx s (<[ctx := mk_ctx (ctx_lock c) (alter f i (gre_conns c))]> (ps_ctx s))
  end.

(** [mutex_enter] and [mutex_exit] of the lock of a context. *)
Definition ctx_set_lock (s : pptp_sys) (ctx : Z) (b : bool) : pptp_sys :=
  match ps_ctx s !! ctx with
  | None => pfault s
  | Some c => if Bool.eqb (ctx_lock c) b then pfault s else set_ctx s (<[ctx := mk_ctx b (gre_conns c)]> (ps_ctx s))
  end.

(** What the environment decides: whether memory for a context and for a bitmap
    is available, the choice of an ID, and what NAT depends on; [pe_stack] are
    the words on the stack that the key of the GRE connection is read from. *)
Record pptp_args := mk_pargs { pe_ctx : bool; pe_port : port_args; pe_nat : nat_args; pe_stack : list Z }.

Context (algs : npf_algset (AS := AS) (NT := npf_nat) (CS := nsys)) (kmem : bool) (params : conn_params).
Context (cfg : nat_config (TB := TB) (LP := LP) (CD := CD)) (pa : pptp_args).
#[local] Hint Extern 0 (conn_env _) => exact (nat_conn_env algs kmem) : typeclass_instances.

(** [None] where the portmap has no result. *)
Definition pptp_call_id_get (s : pptp_sys) (ip : npf_addr_t) : option (Z * pptp_sys) :=
  match ps_pm s with
  | None => Some (0, pfault s)
  | Some pm =>
      '(port, pm) ← npf_portmap_get kmem (pa_alloc (pe_port pa)) (pa_rnd (pe_port pa)) pm 4 ip;
      Some (u16 port, set_pm s (Some pm))
  end.

Definition pptp_call_id_put (s : pptp_sys) (ip : npf_addr_t) (call_id : Z) : pptp_sys :=
  match ps_pm s with
  | None => pfault s
  | Some pm =>
      match npf_portmap_put kmem pm 4 ip call_id with
      | Some pm => set_pm s (Some pm)
      | None => pfault s
      end
  end.

(** The cache for the GRE connection.  The source address points to the original
    address in the translation entry: it is placed after the bytes of the packet
    in a copy that only this cache uses.  The custom key is built in the
    caller's [ckey], but [npc_ckey] is the address of the parameter. *)
Definition pptp_gre_prepare_state (npc : npf_cache_t) (nt : npf_nat) (gre_state : pptp_gre_state_t) : npf_cache_t * npf_connkey_t :=
  let '(o_addr, _) := npf_nat_getorig nt in
  let nb := npc_nbuf npc in
  let mem := mk_nbuf (nb_mbuf0 nb ++ [bytes_of_addr o_addr 16]) (nb_mbuf nb) (nb_nptr nb) (nb_ifid nb) (nb_flags nb) in
  let gre_npc := mk_npc (npc_ctx npc) (NPC_IP46 ||| NPC_LAYER4) mem (Z.of_nat (length (pkt npc))) (npc_src npc) (npc_alen npc)
                   (npc_hlen npc) IPPROTO_GRE (npc_ip npc) (npc_l4 npc) (Some (pe_stack pa)) in
  let ckey := npf_connkey_setkey (npc_alen npc) IPPROTO_GRE (npc_addrs gre_npc) (server_call_id gre_state, 0) NPF_FLOW_FORW in
  (gre_npc, fst ckey).

Definition pptp_gre_establish_state (s : pptp_sys) (npc : npf_cache_t) (di ctx : Z) (i : nat) (pptp_tcp_nt : Z) : option (Z * pptp_sys) :=
  match nats (env (ps_sys s)) !! pptp_tcp_nt, gre_get s ctx i with
  | Some tnt, Some gre_state =>
      let '(gre_npc, _) := pptp_gre_prepare_state npc tnt gre_state in
      '(con, x, gre_npc) ← npf_conn_establish params (ps_sys s) gre_npc di (na_now (pe_nat pa)) true (na_conn (pe_nat pa));
      match con with
      | None => Some (ENOMEM, set_sys s x)
      | Some con =>
          '(nt, x) ← npf_nat_share_policy algs kmem cfg (pe_nat pa) x gre_npc con pptp_tcp_nt;
          match nt with
          | None => Some (ENOMEM, set_sys s (npf_conn_release (npf_conn_expire x con) con))
          | Some nt =>
              let s := gre_upd s ctx i (λ g, add_flag g GRE_STATE_ESTABLISHED) in
              let E := env x in
              let x := set_env x (set_nats E (alter (set_alg (ps_gre s) (gre_ptr ctx i)) nt (nats E))) in
              Some (0, set_sys s (npf_conn_release (npf_conn_setpass x con 0 0 None) con))
          end
      end
  | _, _ => Some (ENOMEM, pfault s)
  end.

Definition pptp_gre_destroy_state (s : pptp_sys) (ctx : Z) (i : nat) (ips : npf_addr_t * npf_addr_t) : pptp_sys :=
  match gre_get s ctx i with
  | None => pfault s
  | Some g =>
      let s :=
        if flag (gre_flags g) GRE_STATE_ESTABLISHED then
          let key := fst (npf_connkey_setkey 4 IPPROTO_GRE ips (server_call_id g, 0) NPF_FLOW_FORW) in
          let s := match npf_conndb_lookup (ps_sys s) key with
                   | (Some (con, _), x) => set_sys s (npf_conn_release (npf_conn_expire x con) con)
                   | (None, x) => set_sys s x
                   end in
          gre_upd s ctx i (λ g, clear_flag g GRE_STATE_ESTABLISHED)
        else if negb (client_call_id g =? 0) then pptp_call_id_put s (snd ips) (client_call_id g)
        else s in
      gre_upd s ctx i (λ g, clear_flag g GRE_STATE_USED)
  end.

(** The entry for a call ID: the one that has it, or the last unused one.
    The boolean tells whether its tunnel is to be destroyed first. *)
Fixpoint get_state_scan (l : list pptp_gre_state_t) (i : nat) (client_call_id : Z) (free : option nat) : option (nat * bool) :=
  match l with
  | [] => (λ i, (i, false)) <$> free
  | g :: l =>
      if negb (used g) then get_state_scan l (S i) client_call_id (Some i)
      else if orig_client_call_id g =? client_call_id then Some (i, true)
      else get_state_scan l (S i) client_call_id free
  end.

Definition pptp_gre_get_state (s : pptp_sys) (npc : npf_cache_t) (ctx call_id trans_client_call_id : Z) : option nat * pptp_sys :=
  let s := ctx_set_lock s ctx true in
  match ps_ctx s !! ctx with
  | None => (None, pfault s)
  | Some c =>
      let '(gre_state, s) :=
        match get_state_scan (gre_conns c) 0 call_id None with
        | None => (None, s)
        | Some (i, destroy) =>
            let s := if destroy then pptp_gre_destroy_state s ctx i (npc_addrs npc) else s in
            (Some i, gre_upd s ctx i (λ g, mk_gre trans_client_call_id (server_call_id g) call_id GRE_STATE_USED))
        end in
      (gre_state, ctx_set_lock s ctx false)
  end.

(** ** Contexts *)

Definition pptp_tcp_ctx_alloc (s : pptp_sys) : option Z * pptp_sys :=
  if negb (pe_ctx pa) then (None, s) else
  let c := ps_next s in
  (Some c, mk_psys (ps_sys s) (ps_tcp s) (ps_gre s) (ps_pm s)
             (<[c := mk_ctx false (replicate PPTP_MAX_GRE_PER_CLIENT (mk_gre 0 0 0 0))]> (ps_ctx s)) (c + ctx_size) (ps_fault s)).

Definition pptp_tcp_ctx_free (s : pptp_sys) (ctx : Z) : pptp_sys :=
  match ps_ctx s !! ctx with
  | None => pfault s
  | Some c => let s := set_ctx s (delete ctx (ps_ctx s)) in if ctx_lock c then pfault s else s
  end.

(** ** The ALG of the control connection *)

Definition nat_upd (s : pptp_sys) (nt : Z) (f : npf_nat → npf_nat) : pptp_sys :=
  let E := env (ps_sys s) in set_sys s (set_env (ps_sys s) (set_nats E (alter f nt (nats E)))).

Definition pptp_tcp_match (s : pptp_sys) (npc : npf_cache_t) (nt di : Z) : bool * Z * pptp_sys :=
  if negb (di =? PFIL_OUT) || negb (npf_iscached npc NPC_TCP) || negb (th_dport (pkt npc) (l4ptr npc) =? PPTP_SERVER_PORT)
  then (false, nt, s)
  else match pptp_tcp_ctx_alloc s with
       | (None, s) => (false, nt, s)
       | (Some tcp_ctx, s) => (true, nt, nat_upd s nt (set_alg (ps_tcp s) tcp_ctx))
       end.

(** Write an ID into the message and fix up the checksum of the segment. *)
Definition rewrite_id (npc : npf_cache_t) (o id : Z) : npf_cache_t :=
  let p := pkt npc in
  let th := l4ptr npc in
  let old := rd16 p o in
  set_pkt npc (put16 (put16 p o id) (th + 16) (npf_fixup16_cksum (th_sum p th) old id)).

(** The messages; [o] is the position of the message in the packet. *)
Definition call_request (s : pptp_sys) (npc : npf_cache_t) (tcp_ctx o : Z) : option (bool * npf_cache_t * pptp_sys) :=
  if pptp_len (pkt npc) o <? sizeof_pptp_outgoing_call_req then Some (false, npc, s) else
  let ip := snd (npc_addrs npc) in
  '(trans_client_call_id, s) ← pptp_call_id_get s ip;
  if trans_client_call_id =? 0 then Some (false, npc, s) else
  match pptp_gre_get_state s npc tcp_ctx (rd16 (pkt npc) (o + CALL_ID)) trans_client_call_id with
  | (None, s) => Some (false, npc, pptp_call_id_put s ip trans_client_call_id)
  | (Some _, s) => Some (true, rewrite_id npc (o + CALL_ID) trans_client_call_id, s)
  end.

Definition call_reply (s : pptp_sys) (npc : npf_cache_t) (nt tcp_ctx o : Z) : option (bool * npf_cache_t * pptp_sys) :=
  let p := pkt npc in
  if pptp_len p o <? sizeof_pptp_outgoing_call_reply then Some (false, npc, s) else
  let s := ctx_set_lock s tcp_ctx true in
  let exit s := ctx_set_lock s tcp_ctx false in
  match ps_ctx s !! tcp_ctx with
  | None => Some (false, npc, pfault s)
  | Some c =>
      match pptp_gre_lookup_state (gre_conns c) 0 true (rd16 p (o + PEER_CALL_ID)) with
      | None => Some (false, npc, exit s)
      | Some i =>
          match gre_conns c !! i with
          | None => Some (false, npc, pfault s)
          | Some g =>
              if flag (gre_flags g) GRE_STATE_SERVER_CALL_ID then Some (false, npc, exit s) else
              let s := gre_upd s tcp_ctx i (λ g, mk_gre (client_call_id g) (rd16 p (o + CALL_ID)) (orig_client_call_id g)
                                                   (gre_flags g ||| GRE_STATE_SERVER_CALL_ID)) in
              '(error, s) ← pptp_gre_establish_state s npc PFIL_OUT tcp_ctx i nt;
              if negb (error =? 0) then Some (false, npc, exit (gre_upd s tcp_ctx i (λ g, clear_flag g GRE_STATE_SERVER_CALL_ID)))
              else Some (true, rewrite_id npc (o + PEER_CALL_ID) (orig_client_call_id g), exit s)
          end
      end
  end.

Definition disconnect_notify (s : pptp_sys) (npc : npf_cache_t) (nt tcp_ctx o : Z) : option (bool * npf_cache_t * pptp_sys) :=
  let p := pkt npc in
  if pptp_len p o <? sizeof_pptp_msg_hdr then Some (false, npc, s) else
  let s := ctx_set_lock s tcp_ctx true in
  let exit s := ctx_set_lock s tcp_ctx false in
  match ps_ctx s !! tcp_ctx, nats (env (ps_sys s)) !! nt with
  | Some c, Some e =>
      match pptp_gre_lookup_state (gre_conns c) 0 false (rd16 p (o + CALL_ID)) with
      | None => Some (false, npc, exit s)
      | Some i => Some (true, npc, exit (pptp_gre_destroy_state s tcp_ctx i (fst (npf_nat_getorig e), fst (npc_addrs npc))))
      end
  | _, _ => Some (false, npc, pfault s)
  end.

Definition wan_error_notify (s : pptp_sys) (npc : npf_cache_t) (tcp_ctx o : Z) : option (bool * npf_cache_t * pptp_sys) :=
  let p := pkt npc in
  if pptp_len p o <? sizeof_pptp_msg_hdr then Some (false, npc, s) else
  let s := ctx_set_lock s tcp_ctx true in
  let exit s := ctx_set_lock s tcp_ctx false in
  match ps_ctx s !! tcp_ctx with
  | None => Some (false, npc, pfault s)
  | Some c =>
      match pptp_gre_lookup_state (gre_conns c) 0 true (rd16 p (o + CALL_ID)) ≫= λ i, gre_conns c !! i with
      | None => Some (false, npc, exit s)
      | Some g => Some (true, rewrite_id npc (o + CALL_ID) (orig_client_call_id g), exit s)
      end
  end.

(** The dispatch by the type of the message. *)
Definition pptp_message (s : pptp_sys) (npc : npf_cache_t) (nt tcp_ctx o : Z) : option (bool * npf_cache_t * pptp_sys) :=
  let type := ntohs (pptp_ctrl_msg_type (pkt npc) o) in
  if type =? PPTP_OUTGOING_CALL_REQUEST then call_request s npc tcp_ctx o
  else if type =? PPTP_OUTGOING_CALL_REPLY then call_reply s npc nt tcp_ctx o
  else if type =? PPTP_CALL_DISCONNECT_NOTIFY then disconnect_notify s npc nt tcp_ctx o
  else if type =? PPTP_WAN_ERROR_NOTIFY then wan_error_notify s npc tcp_ctx o
  else Some (false, npc, s).

Definition pptp_tcp_translate (s : pptp_sys) (npc : npf_cache_t) (nt : Z) (flow : npf_flow_t) : option (bool * npf_cache_t * pptp_sys) :=
  match nats (env (ps_sys s)) !! nt with
  | None => Some (false, npc, pfault s)
  | Some e =>
      let p := pkt npc in
      match npf_nat_getalg e, npc_l4 npc with
      | None, _ => Some (false, npc, s)
      | Some _, None => Some (false, npc, pfault s)
      | Some _, Some th =>
          if negb (th_dport p th =? PPTP_SERVER_PORT) && negb (th_sport p th =? PPTP_SERVER_PORT) then Some (false, npc, s) else
          match nbuf_advance (nbuf_reset (npc_nbuf npc)) (npc_hlen npc + (th_off p th <<< 2)) (sizeof_pptp_msg_hdr + PPTP_MIN_MSG_SIZE) with
          | (None, nb) => Some (false, set_nbuf npc nb, s)
          | (Some o, nb) =>
              npc ← npf_recache (set_nbuf npc nb);
              let p := pkt npc in
              if negb (pptp_msg_type p o =? htons PPTP_CTRL_MSG) || (pptp_len p o <? htons PPTP_OUTGOING_CALL_MIN_LEN) ||
                 negb (pptp_magic_cookie p o =? htonl PPTP_MAGIC_COOKIE) then Some (false, npc, s)
              else pptp_message s npc nt (npf_nat_getalgarg e) o
          end
      end
  end.

(** The loop over the states of a context that is destroyed. *)
Fixpoint destroy_states (s : pptp_sys) (ctx : Z) (i n : nat) (ips : npf_addr_t * npf_addr_t) : pptp_sys :=
  match n with
  | O => s
  | S n =>
      let s := match gre_get s ctx i with
               | None => pfault s
               | Some g => if used g then pptp_gre_destroy_state s ctx i ips else s
               end in
      destroy_states s ctx (S i) n ips
  end.

Definition pptp_tcp_destroy (s : pptp_sys) (nt con : Z) : pptp_sys :=
  match nats (env (ps_sys s)) !! nt, conns (ps_sys s) !! con with
  | Some e, Some c =>
      let tcp_ctx := npf_nat_getalgarg e in
      if tcp_ctx =? 0 then s else
      let '(_, _, ips, _) := npf_connkey_getkey (c_forw c) in
      pptp_tcp_ctx_free (destroy_states s tcp_ctx 0 PPTP_MAX_GRE_PER_CLIENT ips) tcp_ctx
  | _, _ => pfault s
  end.

(** ** The ALG of the tunnels *)

Definition pptp_gre_inspect (s : pptp_sys) (npc : npf_cache_t) (di : Z) : option (option Z * pptp_sys * npf_cache_t) :=
  if negb (npc_proto npc =? IPPROTO_GRE) then Some (None, s, npc) else
  match nbuf_advance (npc_nbuf npc) (npc_hlen npc) sizeof_pptp_gre_hdr with
  | (None, nb) => Some (None, s, set_nbuf npc nb)
  | (Some o, nb) =>
      let npc := set_nbuf npc nb in
      let p := pkt npc in
      if negb (ntohs (gre_flags_ver p o) &&& GRE_VER_FLD_MASK =? GRE_ENHANCED_HDR_VER) then Some (None, s, npc) else
      let ckey := fst (npf_connkey_setkey (npc_alen npc) IPPROTO_GRE (npc_addrs npc) (gre_call_id p o, 0) NPF_FLOW_FORW) in
      let '(r, x) := npf_conn_lookup params (ps_sys s) (set_ckey npc (Some ckey)) di (na_now (pe_nat pa)) in
      Some (fst <$> r, set_sys s x, set_ckey npc None)
  end.

Definition pptp_gre_translate (s : pptp_sys) (npc : npf_cache_t) (nt : Z) (flow : npf_flow_t) : option (bool * npf_cache_t * pptp_sys) :=
  if decide (flow = NPF_FLOW_FORW) then Some (false, npc, s)
  else if negb (npf_iscached npc NPC_IP4) then Some (false, npc, s)
  else
    match nats (env (ps_sys s)) !! nt with
    | None => Some (false, npc, pfault s)
    | Some e =>
        match npf_nat_getalg e with
        | None => Some (false, npc, s)
        | Some _ =>
            match nbuf_advance (nbuf_reset (npc_nbuf npc)) (npc_hlen npc) sizeof_pptp_gre_hdr with
            | (None, nb) => Some (false, set_nbuf npc nb, s)
            | (Some o, nb) =>
                let npc := set_nbuf npc nb in
                let p := pkt npc in
                if negb (ntohs (gre_flags_ver p o) &&& GRE_VER_FLD_MASK =? GRE_ENHANCED_HDR_VER) then Some (false, npc, s) else
                let arg := npf_nat_getalgarg e in
                match gre_get s (ptr_ctx arg) (ptr_index arg) with
                | None => Some (false, npc, pfault s)
                | Some g => Some (true, set_pkt npc (put16 p (o + 6) (orig_client_call_id g)), s)
                end
            end
        end
    end.

Definition pptp_gre_destroy (s : pptp_sys) (nt con : Z) : pptp_sys :=
  match nats (env (ps_sys s)) !! nt, conns (ps_sys s) !! con with
  | Some e, Some c =>
      let arg := npf_nat_getalgarg e in
      match gre_get s (ptr_ctx arg) (ptr_index arg) with
      | None => pfault s
      | Some g =>
          if negb (client_call_id g =? 0) then
            let '(_, _, ips, _) := npf_connkey_getkey (c_forw c) in
            pptp_call_id_put s (snd ips) (client_call_id g)
          else s
      end
  | _, _ => pfault s
  end.

(** ** Registration *)

Abbreviation algset := (npf_algset (AS := pptp_sys) (NT := Z) (CS := pptp_sys)).

Definition pptp_tcp : npfa_funcs_t (AS := pptp_sys) (NT := Z) (CS := pptp_sys) :=
  mk_funcs (Some pptp_tcp_match) (Some pptp_tcp_translate) None (Some pptp_tcp_destroy).
Definition pptp_gre : npfa_funcs_t (AS := pptp_sys) (NT := Z) (CS := pptp_sys) :=
  mk_funcs None (Some pptp_gre_translate) (Some pptp_gre_inspect) (Some pptp_gre_destroy).

(** [freealg] is [npf_ruleset_freealg] on the active NAT ruleset. *)
Definition npf_alg_pptp_fini (freealg : algset → pptp_sys → nat → pptp_sys) (aset : algset) (s : pptp_sys) : algset * pptp_sys :=
  let '(aset, s) := match ps_tcp s with Some i => npf_alg_unregister freealg aset s i | None => (aset, s) end in
  let s := mk_psys (ps_sys s) None (ps_gre s) (ps_pm s) (ps_ctx s) (ps_next s) (ps_fault s) in
  let '(aset, s) := match ps_gre s with Some i => npf_alg_unregister freealg aset s i | None => (aset, s) end in
  (aset, mk_psys (ps_sys s) (ps_tcp s) None None (ps_ctx s) (ps_next s) (ps_fault s)).

Definition npf_alg_pptp_init (freealg : algset → pptp_sys → nat → pptp_sys) (aset : algset) (s : pptp_sys) : Z * algset * pptp_sys :=
  let s := set_pm s (Some (npf_portmap_create 1 65535)) in
  let '(tcp, aset) := npf_alg_register aset "pptp_tcp" pptp_tcp in
  let s := mk_psys (ps_sys s) tcp (ps_gre s) (ps_pm s) (ps_ctx s) (ps_next s) (ps_fault s) in
  match tcp with
  | None => let '(aset, s) := npf_alg_pptp_fini freealg aset s in (ENOMEM, aset, s)
  | Some _ =>
      let '(gre, aset) := npf_alg_register aset "pptp_gre" pptp_gre in
      let s := mk_psys (ps_sys s) (ps_tcp s) gre (ps_pm s) (ps_ctx s) (ps_next s) (ps_fault s) in
      match gre with
      | None => let '(aset, s) := npf_alg_pptp_fini freealg aset s in (ENOMEM, aset, s)
      | Some _ => (0, aset, s)
      end
  end.

End pptp.

Section proofs.
Context {MB : npf_mbufops_t} {TM PM TB LP CD AS W EP : Type}.
Context {TO : thmap_ops (Z * npf_flow_t) TM} {PO : thmap_ops Z PM} {PL : thmap_laws Z PM} {BO : thmap_ops npf_tblent TB}.
Context {LO : lpm_ops npf_tblent LP} {CO : cdbr_ops CD}.
Abbreviation psys := (pptp_sys (TM := TM) (PM := PM) (AS := AS) (W := W) (EP := EP)).
Abbreviation nsys := (conn_sys (TM := TM) (X := nat_env (PM := PM) (AS := AS) (W := W) (EP := EP))).
Context (algs : npf_algset (AS := AS) (NT := npf_nat) (CS := nsys)) (kmem : bool) (params : conn_params).
Context (cfg : nat_config (TB := TB) (LP := LP) (CD := CD)) (pa : pptp_args).
#[local] Hint Extern 0 (conn_env _) => exact (nat_conn_env algs kmem) : typeclass_instances.

(** ** Addresses in the cache *)

(** Parsing leaves the length of addresses or sets it to 4 or 16. *)
Lemma ip6_loop_alen fuel : ∀ npc hlen fr fl npc' r, npf_ip6_ext_loop fuel npc hlen fr fl = Some (npc', r) → npc_alen npc' = npc_alen npc.
Proof.
  induction fuel as [|fuel IH]; [done|]. intros npc hlen fr fl npc' r. cbn [npf_ip6_ext_loop].
  destruct (nbuf_advance _ _ _) as [[o|] nb]; [|by intros [= <- <-]].
  destruct (npf_ip6_ext_step _ _ _ _) as [[nb'|nb' f'|nb' h' nx] fr']; [by intros [= <- <-]..|]. intros H. by apply IH in H.
Qed.

Lemma cache_ip_alen npc flags npc' : npf_cache_ip npc = Some (flags, npc') → 4 <= npc_alen npc → 4 <= npc_alen npc'.
Proof.
  unfold npf_cache_ip. case_match; [|case_match]; [| |by intros [= <- <-]].
  - intros [= E4] Ha. revert E4. unfold npf_cache_ip4. repeat case_match; intros [= <- <-]; cbn; (done || lia).
  - unfold npf_cache_ip6. destruct (nbuf_ensure_contig _ _) as [[o|] nb]; [|by intros [= <- <-]].
    destruct (npf_ip6_ext_loop _ _ _ _ _) as [[npc1 [fl|]]|] eqn:E; [| |done]; apply ip6_loop_alen in E; intros [= <- <-] Ha; cbn.
    + lia.
    + rewrite E. done.
Qed.

Lemma cache_l4_alen npc : npc_alen (snd (npf_cache_l4 npc)) = npc_alen npc.
Proof. unfold npf_cache_l4, npf_cache_tcp, npf_cache_l4_adv. repeat case_match; by simplify_eq/=. Qed.

Lemma cache_again_alen fuel : ∀ npc flags npc', npf_cache_again fuel npc = Some (flags, npc') → 4 <= npc_alen npc → 4 <= npc_alen npc'.
Proof.
  induction fuel as [|fuel IH]; [done|]. intros npc flags npc'. cbn [npf_cache_again]. cbv zeta.
  destruct (npf_cache_ip _) as [[fl npc1]|] eqn:E; [|done]. intros H Ha. apply cache_ip_alen in E; [|done].
  destruct (_ || _ || _); [by injection H as <- <-|]. pose proof (cache_l4_alen npc1) as E2.
  destruct (npf_cache_l4 npc1) as [l4 npc2]. cbn in E2. rewrite <- E2 in E.
  destruct (_ && _); [by injection H as <- <-|]. destruct (nbuf_flag_p _ _); [by apply IH in H|by injection H as <- <-].
Qed.

Lemma recache_alen npc npc' : npf_recache npc = Some npc' → 4 <= npc_alen npc → 4 <= npc_alen npc'.
Proof.
  unfold npf_recache, npf_cache_all. destruct (npf_cache_again _ _) as [[fl npc1]|] eqn:E; [|done]. intros [= <-] Ha.
  exact (cache_again_alen _ _ _ _ E Ha).
Qed.

(** ** The contexts *)

(** No two used entries have the same original call ID. *)
Definition calls_unique (l : list pptp_gre_state_t) : Prop :=
  ∀ i j g h, l !! i = Some g → l !! j = Some h → used g = true → used h = true →
    orig_client_call_id g = orig_client_call_id h → i = j.

Record ctx_ok (L : option Z) (a : Z) (c : pptp_tcp_ctx_t) : Prop := {
  co_addr : 0 < a ∧ a mod ctx_size = 0;
  co_len : length (gre_conns c) = PPTP_MAX_GRE_PER_CLIENT;
  co_unique : calls_unique (gre_conns c);
  co_ids : Forall (λ g, inw 16 (client_call_id g)) (gre_conns c);
  co_lock : ctx_lock c = bool_decide (L = Some a);
}.

(** [L] is the context whose lock is held, if any. *)
Record pinv (L : option Z) (s : psys) : Prop := {
  pi_fault : ps_fault s = false;
  pi_pm : ∃ pm, ps_pm s = Some pm ∧ pm_wf pm;
  pi_next : 0 < ps_next s ∧ ps_next s mod ctx_size = 0;
  pi_ctx : ∀ a c, ps_ctx s !! a = Some c → a < ps_next s ∧ ctx_ok L a c;
}.

Definition live (s : psys) (ctx : Z) : Prop := is_Some (ps_ctx s !! ctx).

Lemma pinv_set_sys L s x : pinv L s → pinv L (set_sys s x).
Proof. by intros []. Qed.

Lemma pinv_set_pm L s pm : pinv L s → pm_wf pm → pinv L (set_pm s (Some pm)).
Proof. intros [] ?. split; try done. by exists pm. Qed.

(** Changes of a state that keep it or take it out of use. *)
Definition mild (f : pptp_gre_state_t → pptp_gre_state_t) : Prop :=
  ∀ g, (used (f g) = true → used g = true ∧ orig_client_call_id (f g) = orig_client_call_id g) ∧ client_call_id (f g) = client_call_id g.

Lemma unique_alter l i f :
  (∀ g, l !! i = Some g → used (f g) = true →
     ∀ j h, j ≠ i → l !! j = Some h → used h = true → orig_client_call_id h ≠ orig_client_call_id (f g)) →
  calls_unique l → calls_unique (alter f i l).
Proof.
  intros Hf Hu j k g h Hj Hk Ug Uh E. destruct (decide (j = i)) as [->|Nj], (decide (k = i)) as [->|Nk]; try done.
  - rewrite list_lookup_alter_eq in Hj. rewrite list_lookup_alter_ne in Hk by done. destruct (l !! i) as [g0|] eqn:Ei; [|done].
    injection Hj as <-. by destruct (Hf g0 eq_refl Ug k h Nk Hk Uh).
  - rewrite list_lookup_alter_eq in Hk. rewrite list_lookup_alter_ne in Hj by done. destruct (l !! i) as [h0|] eqn:Ei; [|done].
    injection Hk as <-. by destruct (Hf h0 eq_refl Uh j g Nj Hj Ug).
  - rewrite list_lookup_alter_ne in Hj, Hk by done. by apply (Hu j k g h).
Qed.

Lemma gre_upd_inv L s ctx i f : pinv L s → live s ctx →
  (∀ c g, ps_ctx s !! ctx = Some c → gre_conns c !! i = Some g → inw 16 (client_call_id (f g)) ∧
     (used (f g) = true → ∀ j h, j ≠ i → gre_conns c !! j = Some h → used h = true → orig_client_call_id h ≠ orig_client_call_id (f g))) →
  pinv L (gre_upd s ctx i f) ∧ live (gre_upd s ctx i f) ctx.
Proof.
  intros [H1 H2 H3 H4] [c Hc] Hf. unfold gre_upd, live. rewrite Hc. cbn [ps_ctx set_ctx]. rewrite lookup_insert_eq. split; [|done].
  split; try done. intros a c'. cbn [ps_ctx set_ctx ps_next]. rewrite lookup_insert_Some. intros [[<- <-]|[Ne Ha]]; [|by apply H4].
  destruct (H4 ctx c Hc) as [Hn [A1 A2 A3 A4 A5]]. split; [done|]. split; cbn; [done|by rewrite length_alter| | |done].
  - apply unique_alter; [|done]. intros g Hg. by apply (Hf c g Hc Hg).
  - apply Forall_alter; [done|]. intros g Hg _. by apply (Hf c g Hc Hg).
Qed.

Lemma gre_upd_mild L s ctx i f : pinv L s → live s ctx → mild f → pinv L (gre_upd s ctx i f) ∧ live (gre_upd s ctx i f) ctx.
Proof.
  intros Hi Hl Hf. apply gre_upd_inv; [done|done|]. intros c g Hc Hg. destruct (Hf g) as [Hu ->].
  destruct (pi_ctx _ _ Hi ctx c Hc) as [_ Hok]. split; [by apply (Forall_lookup_1 _ _ _ _ (co_ids _ _ _ Hok) Hg)|].
  intros Ug j h Hne Hj Uh. destruct (Hu Ug) as [Ug' ->]. intros E. by destruct Hne, (co_unique _ _ _ Hok j i h g).
Qed.

Lemma clear_flag_mild f : mild (λ g, clear_flag g f).
Proof.
  intros g. split; [|done]. unfold used, clear_flag. cbn. unfold flag. rewrite !negb_true_iff, !Z.eqb_neq. intros H. split; [|done].
  intros E. apply H. rewrite <- Z.land_assoc, (Z.land_comm _ GRE_STATE_USED), Z.land_assoc, E. apply Z.land_0_l.
Qed.

Lemma add_flag_mild f : flag f GRE_STATE_USED = false → mild (λ g, add_flag g f).
Proof.
  intros Hf g. split; [|done]. unfold used, add_flag. cbn. unfold flag in *. rewrite !negb_true_iff, !Z.eqb_neq. intros H. split; [|done].
  intros E. apply H. rewrite negb_false_iff, Z.eqb_eq in Hf. by rewrite Z.land_lor_distr_l, E, Hf.
Qed.

(** *** Locks *)

Lemma lock_inv s ctx : pinv None s → live s ctx →
  pinv (Some ctx) (ctx_set_lock s ctx true) ∧ live (ctx_set_lock s ctx true) ctx ∧
  gre_conns <$> ps_ctx (ctx_set_lock s ctx true) !! ctx = gre_conns <$> ps_ctx s !! ctx.
Proof.
  intros [H1 H2 H3 H4] [c Hc]. unfold ctx_set_lock, live. rewrite Hc. destruct (H4 ctx c Hc) as [Hn Hok].
  rewrite (co_lock _ _ _ Hok), bool_decide_false by done. cbn. rewrite lookup_insert_eq. split_and!; [|done|done]. split; try done.
  intros a c'. cbn. rewrite lookup_insert_Some. intros [[<- <-]|[Ne Ha]].
  - split; [done|]. destruct Hok. split; cbn; try done. by rewrite bool_decide_true.
  - destruct (H4 a c' Ha) as [Hn' []]. split; [done|]. split; try done. rewrite bool_decide_false by congruence.
    by rewrite bool_decide_false in co_lock0.
Qed.

Lemma unlock_inv s ctx : pinv (Some ctx) s → live s ctx → pinv None (ctx_set_lock s ctx false).
Proof.
  intros [H1 H2 H3 H4] [c Hc]. unfold ctx_set_lock. rewrite Hc. destruct (H4 ctx c Hc) as [Hn Hok].
  rewrite (co_lock _ _ _ Hok), bool_decide_true by done. cbn. split; try done.
  intros a c'. cbn. rewrite lookup_insert_Some. intros [[<- <-]|[Ne Ha]].
  - split; [done|]. destruct Hok. by split.
  - destruct (H4 a c' Ha) as [Hn' []]. split; [done|]. split; try done. by rewrite bool_decide_false in co_lock0 by congruence.
Qed.

(** *** Call IDs *)

Lemma addr4_arg ip : (1 <= length ip)%nat → addr_arg 4 ip.
Proof. intros Hl. by split; [left|]. Qed.

Lemma call_id_put_inv L s ip id : pinv L s → (1 <= length ip)%nat → inw 16 id → pinv L (pptp_call_id_put kmem s ip id).
Proof.
  intros Hi Hip Hid. unfold pptp_call_id_put. destruct (pi_pm _ _ Hi) as (pm & -> & Hpm).
  destruct (npf_portmap_put_total kmem pm 4 ip id Hpm (addr4_arg ip Hip) Hid) as (pm' & -> & Hw & _). by apply pinv_set_pm.
Qed.

Lemma call_id_put_ctx (s : psys) ip id : ps_ctx (pptp_call_id_put kmem s ip id) = ps_ctx s.
Proof. unfold pptp_call_id_put. repeat case_match; done. Qed.

Lemma gre_get_live (s : psys) ctx i g : gre_get s ctx i = Some g → live s ctx.
Proof. unfold gre_get, live. by destruct (ps_ctx s !! ctx). Qed.

Lemma gre_get_upd (s : psys) ctx i f : gre_get (gre_upd s ctx i f) ctx i = f <$> gre_get s ctx i.
Proof.
  unfold gre_get, gre_upd. destruct (ps_ctx s !! ctx) as [c|] eqn:E; cbn; [|by rewrite E].
  rewrite lookup_insert_eq. cbn. apply list_lookup_alter_eq.
Qed.

(** *** Tunnels *)

Lemma pptp_gre_destroy_state_inv L s ctx i ips : pinv L s → (∃ g, gre_get s ctx i = Some g) → (1 <= length (snd ips))%nat →
  let s' := pptp_gre_destroy_state kmem s ctx i ips in
  pinv L s' ∧ live s' ctx ∧ ∀ j, j ≠ i → gre_get s' ctx j = gre_get s ctx j.
Proof.
  intros Hi [g Hg] Hip s'. unfold s', pptp_gre_destroy_state. rewrite Hg.
  assert (inw 16 (client_call_id g)) as Hid.
  { unfold gre_get in Hg. destruct (ps_ctx s !! ctx) as [c|] eqn:Hc; [|done]. cbn in Hg.
    exact (Forall_lookup_1 _ _ _ _ (co_ids _ _ _ (proj2 (pi_ctx _ _ Hi ctx c Hc))) Hg). }
  pose proof (gre_get_live _ _ _ _ Hg) as Hl.
  assert (∀ (s1 : psys) f, (∀ j, gre_get s1 ctx j = gre_get s ctx j) → ∀ j, j ≠ i → gre_get (gre_upd s1 ctx i f) ctx j = gre_get s ctx j) as Hother.
  { intros s1 f H1 j Hj. rewrite <- H1. unfold gre_get, gre_upd. destruct (ps_ctx s1 !! ctx) as [c|] eqn:E; cbn; [|by rewrite E].
    rewrite lookup_insert_eq. cbn. by apply list_lookup_alter_ne. }
  destruct (flag (gre_flags g) GRE_STATE_ESTABLISHED).
  - set (s1 := match npf_conndb_lookup _ _ with (Some (con, _), x) => _ | (None, x) => _ end).
    assert (pinv L s1 ∧ ps_ctx s1 = ps_ctx s) as [H1 E1].
    { unfold s1. destruct (npf_conndb_lookup _ _) as [[[con fl]|] x]; (split; [by apply pinv_set_sys|done]). }
    assert (live s1 ctx) as Hl1 by (unfold live; by rewrite E1).
    destruct (gre_upd_mild L s1 ctx i _ H1 Hl1 (clear_flag_mild GRE_STATE_ESTABLISHED)) as [H2 Hl2].
    destruct (gre_upd_mild L _ ctx i _ H2 Hl2 (clear_flag_mild GRE_STATE_USED)) as [H3 Hl3]. split_and!; [done|done|].
    intros j Hj. assert (∀ k, gre_get s1 ctx k = gre_get s ctx k) as Hs1 by (intros k; unfold gre_get; by rewrite E1).
    rewrite <- (Hother s1 (λ g, clear_flag g GRE_STATE_ESTABLISHED) Hs1 j Hj).
    unfold gre_get at 1, gre_upd at 1. destruct (ps_ctx (gre_upd s1 ctx i _) !! ctx) as [c|] eqn:E; cbn; [|by destruct Hl2 as [? Hx]; rewrite E in Hx].
    rewrite lookup_insert_eq. cbn. rewrite list_lookup_alter_ne by done. unfold gre_get. by rewrite E.
  - set (s1 := if negb _ then _ else _).
    assert (pinv L s1 ∧ ps_ctx s1 = ps_ctx s) as [H1 E1].
    { unfold s1. destruct (negb _); [|done]. split; [by apply call_id_put_inv|apply call_id_put_ctx]. }
    assert (live s1 ctx) as Hl1 by (unfold live; by rewrite E1).
    destruct (gre_upd_mild L _ ctx i _ H1 Hl1 (clear_flag_mild GRE_STATE_USED)) as [H3 Hl3]. split_and!; [done|done|].
    apply Hother. intros k. unfold gre_get. by rewrite E1.
Qed.

Lemma get_state_scan_spec l id : ∀ k free,
  match get_state_scan l k id free with
  | Some (i, true) => (k <= i)%nat ∧ ∃ g, l !! (i - k)%nat = Some g ∧ used g = true ∧ orig_client_call_id g = id
  | Some (i, false) => (free = Some i ∨ ((k <= i)%nat ∧ ∃ g, l !! (i - k)%nat = Some g)) ∧ ∀ g, g ∈ l → used g = true → orig_client_call_id g ≠ id
  | None => free = None ∧ ∀ g, g ∈ l → used g = true ∧ orig_client_call_id g ≠ id
  end.
Proof.
  induction l as [|g l IH]; intros k free; cbn [get_state_scan].
  - destruct free; cbn; [split; [by left|set_solver]|split; [done|set_solver]].
  - assert (∀ i, (S k <= i)%nat → (g :: l) !! (i - k)%nat = l !! (i - S k)%nat) as Hs
      by (intros i Hi; by replace (i - k)%nat with (S (i - S k)) by lia).
    destruct (negb (used g)) eqn:Eu; [|destruct (orig_client_call_id g =? id) eqn:Eo].
    + apply negb_true_iff in Eu. specialize (IH (S k) (Some k)). destruct (get_state_scan l (S k) id (Some k)) as [[i []]|].
      * destruct IH as [Hk IH]. split; [lia|]. by rewrite Hs.
      * destruct IH as [IH Hn]. split.
        -- right. destruct IH as [[= <-]|[Hk IH]]; [split; [lia|]; exists g; by rewrite Nat.sub_diag|split; [lia|]; by rewrite Hs].
        -- intros h [->|Hh]%elem_of_cons; [congruence|by apply Hn].
      * by destruct IH.
    + apply Z.eqb_eq in Eo. split; [lia|]. exists g. rewrite Nat.sub_diag. apply negb_false_iff in Eu. done.
    + apply negb_false_iff in Eu. apply Z.eqb_neq in Eo. specialize (IH (S k) free). destruct (get_state_scan l (S k) id free) as [[i []]|].
      * destruct IH as [Hk IH]. split; [lia|]. by rewrite Hs.
      * destruct IH as [IH Hn]. split; [destruct IH as [?|[Hk IH]]; [by left|right; split; [lia|]; by rewrite Hs]|].
        intros h [->|Hh]%elem_of_cons; [done|by apply Hn].
      * destruct IH as [-> IH]. split; [done|]. intros h [->|Hh]%elem_of_cons; [done|by apply IH].
Qed.

(** An entry is set to a call ID that no other used entry has. *)
Lemma gre_set_inv L s ctx i T id : pinv L s → live s ctx → inw 16 T →
  (∀ j h, j ≠ i → gre_get s ctx j = Some h → used h = true → orig_client_call_id h ≠ id) →
  let s' := gre_upd s ctx i (λ g, mk_gre T (server_call_id g) id GRE_STATE_USED) in
  pinv L s' ∧ live s' ctx.
Proof.
  intros Hi Hl HT Hne s'. apply gre_upd_inv; [done|done|]. intros c g Hc Hg. split; [done|]. intros _ j h Hj Hh Uh.
  apply (Hne j h Hj); [|done]. unfold gre_get. by rewrite Hc.
Qed.

Lemma gre_get_upd_ne (s : psys) ctx i j f : j ≠ i → gre_get (gre_upd s ctx i f) ctx j = gre_get s ctx j.
Proof.
  intros Hj. unfold gre_get, gre_upd. destruct (ps_ctx s !! ctx) as [c|] eqn:E; cbn; [|by rewrite E].
  rewrite lookup_insert_eq. cbn. by apply list_lookup_alter_ne.
Qed.

Lemma gre_get_conns (s s' : psys) ctx i : gre_conns <$> ps_ctx s' !! ctx = gre_conns <$> ps_ctx s !! ctx → gre_get s' ctx i = gre_get s ctx i.
Proof. unfold gre_get. intros E. destruct (ps_ctx s' !! ctx), (ps_ctx s !! ctx); cbn in *; simplify_eq/=; congruence. Qed.

Lemma set_lock_conns (s : psys) ctx b : gre_conns <$> ps_ctx (ctx_set_lock s ctx b) !! ctx = gre_conns <$> ps_ctx s !! ctx.
Proof.
  unfold ctx_set_lock. destruct (ps_ctx s !! ctx) as [c|] eqn:E; cbn; [|by rewrite E].
  destruct (Bool.eqb _ _); cbn; [by rewrite E|by rewrite lookup_insert_eq].
Qed.

Lemma set_lock_live (s : psys) ctx b : live s ctx → live (ctx_set_lock s ctx b) ctx.
Proof. unfold live. rewrite <- !not_eq_None_Some. pose proof (set_lock_conns s ctx b). intros H1 H2. rewrite H2 in H. by destruct (ps_ctx s !! ctx). Qed.

(** The entry for a call: it is set for the two IDs, and the other entries of
    the context are as before. *)
Lemma pptp_gre_get_state_spec s npc ctx id T : pinv None s → live s ctx → 4 <= npc_alen npc → inw 16 T →
  let '(r, s') := pptp_gre_get_state kmem s npc ctx id T in
  pinv None s' ∧ live s' ctx ∧
  match r with
  | None => (∀ j, gre_get s' ctx j = gre_get s ctx j) ∧ ∀ j g, gre_get s ctx j = Some g → used g = true
  | Some i => (∃ srv, gre_get s' ctx i = Some (mk_gre T srv id GRE_STATE_USED)) ∧ ∀ j, j ≠ i → gre_get s' ctx j = gre_get s ctx j
  end.
Proof.
  intros Hi Hl Ha HT. destruct (lock_inv s ctx Hi Hl) as (H1 & Hl1 & E1). unfold pptp_gre_get_state.
  set (s1 := ctx_set_lock s ctx true) in *. assert (∀ j, gre_get s1 ctx j = gre_get s ctx j) as Hg1 by (intros j; by apply gre_get_conns).
  destruct Hl1 as [c Hc]. rewrite Hc. pose proof (get_state_scan_spec (gre_conns c) id 0 None) as Hsc.
  assert (∀ j, gre_get s1 ctx j = gre_conns c !! j) as Hgc by (intros j; unfold gre_get; by rewrite Hc).
  assert (live s1 ctx) as Hl1 by by exists c.
  destruct (get_state_scan (gre_conns c) 0 id None) as [[i []]|].
  - destruct Hsc as (_ & g & Hg & Ug & Eo). rewrite Nat.sub_0_r in Hg.
    destruct (pptp_gre_destroy_state_inv (Some ctx) s1 ctx i (npc_addrs npc) H1) as (H2 & Hl2 & Hg2); [exists g; by rewrite Hgc| |].
    { unfold npc_addrs. cbn. rewrite rd_words_length. Z.to_euclidean_division_equations; lia. }
    set (s2 := pptp_gre_destroy_state _ _ _ _ _) in *.
    assert (∀ j h, j ≠ i → gre_get s2 ctx j = Some h → used h = true → orig_client_call_id h ≠ id) as Hne.
    { intros j h Hj Hh Uh Eh. rewrite Hg2, Hgc in Hh by done. destruct Hj.
      apply (co_unique _ _ _ (proj2 (pi_ctx _ _ H1 ctx c Hc)) j i h g); try done. congruence. }
    destruct (gre_set_inv (Some ctx) s2 ctx i T id H2 Hl2 HT Hne) as [H3 Hl3]. set (s3 := gre_upd _ _ _ _) in *.
    split_and!; [by apply unlock_inv|by apply set_lock_live| |].
    + assert (is_Some (gre_get s2 ctx i)) as [g2 Eg2].
      { destruct Hl2 as [c2 Hc2]. unfold gre_get. rewrite Hc2. cbn. apply lookup_lt_is_Some. rewrite (co_len _ _ _ (proj2 (pi_ctx _ _ H2 ctx c2 Hc2))).
        rewrite <- (co_len _ _ _ (proj2 (pi_ctx _ _ H1 ctx c Hc))). by apply lookup_lt_Some in Hg. }
      exists (server_call_id g2). rewrite (gre_get_conns s3) by apply set_lock_conns. unfold s3. by rewrite gre_get_upd, Eg2.
    + intros j Hj. rewrite (gre_get_conns s3) by apply set_lock_conns. unfold s3. by rewrite gre_get_upd_ne, Hg2.
  - destruct Hsc as [[?|(_ & g & Hg)] Hn]; [done|]. rewrite Nat.sub_0_r in Hg.
    assert (∀ j h, j ≠ i → gre_get s1 ctx j = Some h → used h = true → orig_client_call_id h ≠ id) as Hne.
    { intros j h Hj Hh Uh. rewrite Hgc in Hh. apply Hn; [|done]. by apply (list_elem_of_lookup_2 _ j). }
    destruct (gre_set_inv (Some ctx) s1 ctx i T id H1 Hl1 HT Hne) as [H3 Hl3]. set (s3 := gre_upd _ _ _ _) in *.
    split_and!; [by apply unlock_inv|by apply set_lock_live| |].
    + exists (server_call_id g). rewrite (gre_get_conns s3) by apply set_lock_conns. unfold s3. by rewrite gre_get_upd, Hgc, Hg.
    + intros j Hj. rewrite (gre_get_conns s3) by apply set_lock_conns. unfold s3. by rewrite gre_get_upd_ne.
  - destruct Hsc as [_ Hn]. split_and!; [by apply unlock_inv|by apply set_lock_live| |].
    + intros j. rewrite <- Hg1. by apply gre_get_conns, set_lock_conns.
    + intros j g Hj. rewrite <- Hg1, Hgc in Hj. apply Hn. by apply (list_elem_of_lookup_2 _ j).
Qed.

(** *** The messages *)

Lemma npc_addrs_length npc : 4 <= npc_alen npc → (1 <= length (fst (npc_addrs npc)))%nat ∧ (1 <= length (snd (npc_addrs npc)))%nat.
Proof. intros Ha. unfold npc_addrs. cbn. rewrite !rd_words_length. Z.to_euclidean_division_equations; lia. Qed.

(** Connections of GRE are established without a look at the packet. *)
Lemma establish_gre (s : nsys) npc di now g avail : npc_proto npc = IPPROTO_GRE →
  ∃ con s' npc', npf_conn_establish params s npc di now g avail = Some (con, s', npc') ∧ npc_proto npc' = IPPROTO_GRE.
Proof.
  intros Hp. unfold npf_conn_establish. destruct (negb (npf_conn_trackable_p s npc)); [by eexists _, _, _|].
  destruct (negb avail); [by eexists _, _, _|]. cbv zeta. unfold npf_state_init. rewrite Hp. cbn [Z.eqb IPPROTO_GRE IPPROTO_TCP Pos.eqb].
  change (generic_proto IPPROTO_GRE) with true. cbv iota.
  destruct (npf_conn_conkey _ _ _ NPF_FLOW_FORW) as [[fw ?]|]; [|by eexists _, _, _].
  destruct (npf_conn_conkey _ _ _ NPF_FLOW_BACK) as [[bk ?]|]; [|by eexists _, _, _].
  destruct (insert_keys _ _ _ _) as [ok cd]. by eexists _, _, _.
Qed.

Lemma share_policy_gre (s : nsys) npc con src : npc_proto npc = IPPROTO_GRE →
  ∃ r, npf_nat_share_policy algs kmem cfg (pe_nat pa) s npc con src = Some r.
Proof.
  intros Hp. unfold npf_nat_share_policy. destruct (nats (env s) !! src) as [e|]; [|eauto].
  unfold npf_nat_create. destruct (policies (env s) !! nt_natpolicy e) as [np|]; [|cbn; eauto].
  destruct (negb (na_nat (pe_nat pa))); [cbn; eauto|]. cbv zeta. set (tgt := if flag _ _ then _ else _).
  destruct tgt as [[[taddr|] np']|]; [|cbn; eauto|cbn; eauto].
  rewrite Hp. cbn [Z.eqb IPPROTO_GRE IPPROTO_TCP IPPROTO_UDP Pos.eqb negb andb]. rewrite orb_true_r.
  cbn [mbind option_bind]. repeat (case_match; eauto).
Qed.

Lemma establish_state_inv L s npc di ctx i nt : pinv L s → (∃ g, gre_get s ctx i = Some g) → is_Some (nats (env (ps_sys s)) !! nt) →
  ∃ error s', pptp_gre_establish_state algs kmem params cfg pa s npc di ctx i nt = Some (error, s') ∧ pinv L s' ∧ live s' ctx.
Proof.
  intros Hi [g Hg] [e He]. pose proof (gre_get_live _ _ _ _ Hg) as Hl. unfold pptp_gre_establish_state. rewrite He, Hg.
  destruct (pptp_gre_prepare_state pa npc e g) as [gnpc key] eqn:Ep.
  assert (npc_proto gnpc = IPPROTO_GRE) as Hp by (unfold pptp_gre_prepare_state in Ep; destruct (npf_nat_getorig e); by injection Ep as <- _).
  destruct (establish_gre (ps_sys s) gnpc di (na_now (pe_nat pa)) true (na_conn (pe_nat pa)) Hp) as (con & x & npc' & -> & Hp').
  cbn [mbind option_bind]. destruct con as [con|]; [|eexists _, _; split_and!; [done|by apply pinv_set_sys|done]].
  destruct (share_policy_gre x npc' con nt Hp') as [[[nt'|] x2] ->]; cbn [mbind option_bind];
    (eexists _, _; split; [done|]); [|split; [by apply pinv_set_sys|done]].
  destruct (gre_upd_mild L s ctx i _ Hi Hl (add_flag_mild GRE_STATE_ESTABLISHED eq_refl)) as [H2 Hl2].
  split; [by apply pinv_set_sys|done].
Qed.

Section message.
Context (Hrnd : 0 <= pa_rnd (pe_port pa)).

Lemma call_request_inv s npc ctx o : pinv None s → live s ctx → 4 <= npc_alen npc →
  ∃ ok npc' s', call_request kmem pa s npc ctx o = Some (ok, npc', s') ∧ pinv None s'.
Proof.
  intros Hi Hl Ha. unfold call_request. case_match; [by eexists _, _, _|]. cbv zeta. unfold pptp_call_id_get.
  destruct (pi_pm _ _ Hi) as (pm & Epm & Hpm). rewrite Epm. destruct (npc_addrs_length npc Ha) as [_ Hlen].
  destruct (npf_portmap_get_spec kmem (pa_alloc (pe_port pa)) (pa_rnd (pe_port pa)) pm 4 (snd (npc_addrs npc)) Hpm (addr4_arg _ Hlen) Hrnd)
    as (port & pm' & -> & Hw & _). cbn [mbind option_bind].
  assert (pinv None (set_pm s (Some pm'))) as H1 by by apply pinv_set_pm.
  destruct (u16 port =? 0); [by eexists _, _, _|].
  pose proof (pptp_gre_get_state_spec (set_pm s (Some pm')) npc ctx (rd16 (pkt npc) (o + CALL_ID)) (u16 port) H1 Hl Ha
    ltac:(apply wrap_range; lia)) as Hgs.
  destruct (pptp_gre_get_state kmem _ npc ctx _ _) as [[i|] s2]; destruct Hgs as (H2 & Hl2 & _); eexists _, _, _; (split; [done|]); [done|].
  apply call_id_put_inv; [done|done|apply wrap_range; lia].
Qed.

Lemma lookup_state_some client id l : ∀ k i, pptp_gre_lookup_state l k client id = Some i →
  (k <= i)%nat ∧ ∃ g, l !! (i - k)%nat = Some g ∧ lookup_match client id g = true ∧ ∀ j h, (j < i - k)%nat → l !! j = Some h → lookup_match client id h = false.
Proof.
  induction l as [|g l IH]; intros k i; cbn [pptp_gre_lookup_state]; [done|]. destruct (lookup_match client id g) eqn:E.
  - intros [= <-]. split; [lia|]. exists g. rewrite Nat.sub_diag. split_and!; [done|done|lia].
  - intros H. apply IH in H as (Hk & h & Hh & Hm & Hn). split; [lia|]. exists h. replace (i - k)%nat with (S (i - S k)) by lia.
    split_and!; [done|done|]. intros [|j] h' Hj; [by intros [= <-]|]. apply Hn. lia.
Qed.

Lemma call_reply_inv s npc nt ctx o : pinv None s → live s ctx → is_Some (nats (env (ps_sys s)) !! nt) →
  ∃ ok npc' s', call_reply algs kmem params cfg pa s npc nt ctx o = Some (ok, npc', s') ∧ pinv None s'.
Proof.
  intros Hi Hl Hnt. unfold call_reply. case_match; [by eexists _, _, _|]. cbv zeta.
  destruct (lock_inv s ctx Hi Hl) as (H1 & Hl1 & E1).
  assert (nats (env (ps_sys (ctx_set_lock s ctx true))) = nats (env (ps_sys s))) as En by (unfold ctx_set_lock; by repeat case_match).
  set (s1 := ctx_set_lock s ctx true) in *. pose proof Hl1 as [c Hc]. rewrite Hc.
  destruct (pptp_gre_lookup_state (gre_conns c) 0 true _) as [i|] eqn:El; [|eexists _, _, _; split; [done|by apply unlock_inv]].
  apply lookup_state_some in El as (_ & g & Hg & _). rewrite Nat.sub_0_r in Hg. rewrite Hg.
  destruct (flag (gre_flags g) GRE_STATE_SERVER_CALL_ID); [eexists _, _, _; split; [done|by apply unlock_inv]|].
  destruct (gre_upd_mild (Some ctx) s1 ctx i (λ g, mk_gre (client_call_id g) (rd16 (pkt npc) (o + CALL_ID)) (orig_client_call_id g)
    (gre_flags g ||| GRE_STATE_SERVER_CALL_ID)) H1 Hl1) as [H2 Hl2].
  { intros h. split; [|done]. apply (add_flag_mild GRE_STATE_SERVER_CALL_ID eq_refl h). }
  set (s2 := gre_upd s1 ctx i _) in *.
  destruct (establish_state_inv (Some ctx) s2 npc PFIL_OUT ctx i nt H2) as (error & s3 & -> & H3 & Hl3).
  { unfold s2. rewrite gre_get_upd. unfold gre_get. rewrite Hc. cbn. rewrite Hg. by eexists. }
  { unfold s2, gre_upd. rewrite Hc. cbn [ps_sys set_ctx]. by rewrite En. }
  cbn [mbind option_bind]. destruct (negb (error =? 0)).
  - destruct (gre_upd_mild (Some ctx) s3 ctx i _ H3 Hl3 (clear_flag_mild GRE_STATE_SERVER_CALL_ID)) as [H4 Hl4].
    eexists _, _, _. split; [done|by apply unlock_inv].
  - eexists _, _, _. split; [done|by apply unlock_inv].
Qed.

Lemma disconnect_inv s npc nt ctx o : pinv None s → live s ctx → 4 <= npc_alen npc → is_Some (nats (env (ps_sys s)) !! nt) →
  ∃ ok npc' s', disconnect_notify kmem s npc nt ctx o = Some (ok, npc', s') ∧ pinv None s'.
Proof.
  intros Hi Hl Ha [e He]. unfold disconnect_notify. case_match; [by eexists _, _, _|]. cbv zeta.
  destruct (lock_inv s ctx Hi Hl) as (H1 & Hl1 & E1).
  assert (nats (env (ps_sys (ctx_set_lock s ctx true))) = nats (env (ps_sys s))) as En by (unfold ctx_set_lock; by repeat case_match).
  set (s1 := ctx_set_lock s ctx true) in *. pose proof Hl1 as [c Hc]. rewrite Hc, En, He.
  destruct (pptp_gre_lookup_state (gre_conns c) 0 false _) as [i|] eqn:El; [|eexists _, _, _; split; [done|by apply unlock_inv]].
  apply lookup_state_some in El as (_ & g & Hg & _). rewrite Nat.sub_0_r in Hg.
  destruct (pptp_gre_destroy_state_inv (Some ctx) s1 ctx i (fst (npf_nat_getorig e), fst (npc_addrs npc)) H1) as (H2 & Hl2 & _).
  { exists g. unfold gre_get. by rewrite Hc. }
  { by apply npc_addrs_length. }
  eexists _, _, _. split; [done|by apply unlock_inv].
Qed.

Lemma wan_error_inv s npc ctx o : pinv None s → live s ctx →
  ∃ ok npc' s', wan_error_notify s npc ctx o = Some (ok, npc', s') ∧ pinv None s'.
Proof.
  intros Hi Hl. unfold wan_error_notify. case_match; [by eexists _, _, _|]. cbv zeta.
  destruct (lock_inv s ctx Hi Hl) as (H1 & Hl1 & E1). set (s1 := ctx_set_lock s ctx true) in *. pose proof Hl1 as [c Hc]. rewrite Hc.
  destruct (_ ≫= _) as [g|]; (eexists _, _, _; split; [done|by apply unlock_inv]).
Qed.

Lemma pptp_message_inv s npc nt ctx o : pinv None s → live s ctx → 4 <= npc_alen npc → is_Some (nats (env (ps_sys s)) !! nt) →
  ∃ ok npc' s', pptp_message algs kmem params cfg pa s npc nt ctx o = Some (ok, npc', s') ∧ pinv None s'.
Proof.
  intros Hi Hl Ha Hnt. unfold pptp_message. cbv zeta. case_match; [by apply call_request_inv|]. case_match; [by apply call_reply_inv|].
  case_match; [by apply disconnect_inv|]. case_match; [by apply wan_error_inv|]. by eexists _, _, _.
Qed.
End message.

(** ** Call IDs in the packets *)

(** A PPTP message of at least 20 bytes in a TCP segment. *)
Record msg_at (npc : npf_cache_t) (o : Z) : Prop := {
  ma_bytes : bytes_ok (pkt npc);
  ma_proto : npc_proto npc = IPPROTO_TCP;
  ma_alen : 4 <= npc_alen npc;
  ma_addrs : 0 <= npc_src npc ∧ 0 <= npc_dst npc ∧ npc_src npc + npc_alen npc <= l4ptr npc ∧ npc_dst npc + npc_alen npc <= l4ptr npc;
  ma_seg : 0 <= l4ptr npc ∧ l4ptr npc + 20 <= o ∧ (o - l4ptr npc) mod 2 = 0;
  ma_len : o + 20 <= blen (pkt npc);
}.

Lemma rewrite_id_spec npc o f v : msg_at npc o → (f = CALL_ID ∨ f = PEER_CALL_ID) → inw 16 v →
  let npc' := rewrite_id npc (o + f) v in
  rd16 (pkt npc') (o + f) = v ∧
  (cksum_verifies (l4_cksum_words npc (pkt npc)) → cksum_verifies (l4_cksum_words npc (pkt npc'))).
Proof.
  intros [Hb Hproto Halen Haddr Hseg Hlen] Hf Hv npc'. unfold npc', rewrite_id. cbv zeta. set (p := pkt npc) in *. set (th := l4ptr npc) in *.
  assert (f = 12 ∨ f = 14) as Hf' by done. set (c := npf_fixup16_cksum _ _ _). set (q := put16 _ _ _).
  assert (length q = length p) as Hq by (unfold q; by rewrite !put16_length).
  assert (blen q = blen p) as Hbq by (unfold blen; by rewrite Hq).
  assert (blen (put16 p (o + f) v) = blen p) as Hbp by (unfold blen; by rewrite put16_length).
  rewrite pkt_set_pkt by done. assert (inw 16 c) as Hc by apply npf_fixup16_cksum_range.
  assert (bytes_ok q) as Hbyq by (unfold q; auto using bytes_ok_put16).
  split. { unfold q. rewrite rd16_put16_ne by lia. by apply rd16_put16_eq; [lia|lia|]. }
  unfold l4_cksum_words. rewrite Hbq. fold th p. set (tlen := blen p - th). set (n := Z.to_nat (npc_alen npc / 4)).
  assert (∀ w, 0 <= w → w + npc_alen npc <= th → words_at q w (2 * n) = words_at p w (2 * n)) as Hw.
  { intros w Hw0 Hw1. apply words_at_ext. intros i Hi. unfold q.
    assert (4 * Z.of_nat n <= npc_alen npc) by (unfold n; Z.to_euclidean_division_equations; lia).
    by rewrite !rd8_put16_ne by lia. }
  destruct Haddr as (A1 & A2 & A3 & A4). rewrite (Hw _ A1 A3), (Hw _ A2 A4).
  assert (Forall (inw 16) [htons (npc_proto npc); htons (u16 tlen)]) as Hps.
  { rewrite Hproto. constructor; [done|constructor; [|constructor]]. apply bswap16_range, wrap_range. lia. }
  rewrite !cksum_verifies_iff by (rewrite !Forall_app; auto using words_at_range). intros Hok. eapply sum_ok_mod; [exact Hok| |].
  - apply zsum_pos; [rewrite !Forall_app; auto using words_at_range|]. do 2 (apply Exists_app; right). constructor. by rewrite Hproto.
  - rewrite !zsum_app. set (m := Z.to_nat ((tlen + 1) / 2)).
    set (k1 := Z.to_nat ((o + f - th) / 2)). assert (o + f = th + 2 * Z.of_nat k1) as E1 by (unfold k1; Z.to_euclidean_division_equations; lia).
    assert (k1 < m)%nat as K1 by (unfold k1, m, tlen; Z.to_euclidean_division_equations; lia).
    unfold q. rewrite (zsum_words_put16 _ _ _ m th 8); [|lia|lia|lia|lia|done].
    rewrite (zsum_words_put16 p _ _ m th k1 E1 K1) by (done || lia). rewrite rd16_put16_ne by lia.
    pose proof (npf_fixup16_cksum_mod (th_sum p th) (rd16 p (o + f)) v ltac:(by apply rd16_range) ltac:(by apply rd16_range) Hv) as Hmod.
    fold c in Hmod. unfold th_sum in *.
    match goal with |- _ = ?s mod 65535 => rewrite <- (mod_replace s _ _ _ _ Hmod) end. f_equal. lia.
Qed.

(** The outcome of a call request that is translated. *)
Lemma call_request_spec s npc ctx o npc1 s1 pm : 0 <= pa_rnd (pe_port pa) → pinv None s → live s ctx → msg_at npc o → ps_pm s = Some pm →
  call_request kmem pa s npc ctx o = Some (true, npc1, s1) →
  ∃ p i srv, let T := htons p in
    pm_used pm (addr_key 4 (snd (npc_addrs npc))) p = false ∧ inw 16 p ∧
    npc1 = rewrite_id npc (o + CALL_ID) T ∧
    gre_get s1 ctx i = Some (mk_gre T srv (rd16 (pkt npc) (o + CALL_ID)) GRE_STATE_USED) ∧
    ∀ j, j ≠ i → gre_get s1 ctx j = gre_get s ctx j.
Proof.
  intros Hrnd Hi Hl Hm Epm. unfold call_request. case_match; [done|]. cbv zeta. unfold pptp_call_id_get. rewrite Epm.
  destruct (pi_pm _ _ Hi) as (pm0 & E & Hpm). rewrite Epm in E. injection E as <-.
  destruct (npc_addrs_length npc (ma_alen _ _ Hm)) as [_ Hlen].
  destruct (npf_portmap_get_spec kmem (pa_alloc (pe_port pa)) (pa_rnd (pe_port pa)) pm 4 (snd (npc_addrs npc)) Hpm (addr4_arg _ Hlen) Hrnd)
    as (port & pm' & -> & Hw & _ & Hp & _). cbn [mbind option_bind].
  destruct Hp as [[-> _]|(p & -> & Hp0 & Hr & Hfree & _)]; [done|].
  assert (inw 16 p) as Hp16 by (destruct (pm_ports pm Hpm); unfold inw; lia).
  rewrite (wrap_small 16 (htons p)) by by apply bswap16_range. rewrite (proj2 (Z.eqb_neq _ _) Hp0).
  pose proof (pptp_gre_get_state_spec (set_pm s (Some pm')) npc ctx (rd16 (pkt npc) (o + CALL_ID)) (htons p)
    (pinv_set_pm None s pm' Hi Hw) Hl (ma_alen _ _ Hm) (bswap16_range p Hp16)) as Hgs.
  destruct (pptp_gre_get_state kmem _ npc ctx _ _) as [[i|] s2]; [|done]. destruct Hgs as (_ & _ & [srv Hg] & Hne).
  intros [= <- <-]. exists p, i, srv. split_and!; done.
Qed.

(** The outcome of a reply that is translated: the entry that has its ID. *)
Lemma call_reply_spec s npc nt ctx o npc1 s1 :
  call_reply algs kmem params cfg pa s npc nt ctx o = Some (true, npc1, s1) →
  ∃ i g, gre_get s ctx i = Some g ∧ lookup_match true (rd16 (pkt npc) (o + PEER_CALL_ID)) g = true ∧
    npc1 = rewrite_id npc (o + PEER_CALL_ID) (orig_client_call_id g).
Proof.
  unfold call_reply. case_match; [done|]. cbv zeta. pose proof (λ i, gre_get_conns s _ ctx i (set_lock_conns s ctx true)) as Hgc.
  destruct (ps_ctx (ctx_set_lock s ctx true) !! ctx) as [c|] eqn:Hc; [|done].
  destruct (pptp_gre_lookup_state (gre_conns c) 0 true _) as [i|] eqn:El; [|done].
  apply lookup_state_some in El as (_ & g & Hg & Hm & _). rewrite Nat.sub_0_r in Hg. rewrite Hg.
  destruct (flag (gre_flags g) GRE_STATE_SERVER_CALL_ID); [done|].
  destruct (pptp_gre_establish_state _ _ _ _ _ _ _ _ _ _ _) as [[error s2]|]; [|done]. cbn [mbind option_bind].
  destruct (negb (error =? 0)); [done|]. intros [= <- <-]. exists i, g. split_and!; try done.
  rewrite <- Hgc. unfold gre_get. by rewrite Hc.
Qed.
End proofs.

Section claims.
Context {MB : npf_mbufops_t} {TM PM TB LP CD AS W EP : Type}.
Context {TO : thmap_ops (Z * npf_flow_t) TM} {PO : thmap_ops Z PM} {PL : thmap_laws Z PM} {BO : thmap_ops npf_tblent TB}.
Context {LO : lpm_ops npf_tblent LP} {CO : cdbr_ops CD}.
Abbreviation psys := (pptp_sys (TM := TM) (PM := PM) (AS := AS) (W := W) (EP := EP)).
Abbreviation nsys := (conn_sys (TM := TM) (X := nat_env (PM := PM) (AS := AS) (W := W) (EP := EP))).
Context (algs : npf_algset (AS := AS) (NT := npf_nat) (CS := nsys)).

(** The translated IDs of the calls of a context are taken in the map of the
    server. *)
Definition ids_taken (s : psys) (ctx : Z) (ip : npf_addr_t) : Prop :=
  ∀ pm i g, ps_pm s = Some pm → gre_get s ctx i = Some g → used g = true → pm_used pm (addr_key 4 ip) (ntohs (client_call_id g)) = true.

(** C22: the call IDs of PPTP.  When a call request from a client is translated,
    its call ID becomes one that was free in the port map of the server, and the
    TCP checksum stays valid.  Let the IDs of the calls of the control connection
    be marked in that map before the request ([ids_taken]).  Then no call of the
    control connection has the new ID, and when the server's reply to it is
    translated, with the calls of the control connection as the request left
    them, the ID it carries becomes the client's again and its checksum stays
    valid too.  The condition is what the allocation of IDs establishes, but not
    an invariant of the code: a second request with the ID of an established
    call takes over its entry, and the end of the old tunnel then releases the
    ID of the new call ([reused_entry_released]). *)
Theorem pptp_call_ids s npc ctx o npc1 s1 pm kmem pa :
  0 <= pa_rnd (pe_port pa) → pinv None s → live s ctx → msg_at npc o → ps_pm s = Some pm →
  call_request kmem pa s npc ctx o = Some (true, npc1, s1) →
  let ip := snd (npc_addrs npc) in
  let id := rd16 (pkt npc1) (o + CALL_ID) in
  pm_used pm (addr_key 4 ip) (ntohs id) = false ∧
  (cksum_verifies (l4_cksum_words npc (pkt npc)) → cksum_verifies (l4_cksum_words npc (pkt npc1))) ∧
  (ids_taken s ctx ip →
    (∀ j g, gre_get s ctx j = Some g → used g = true → client_call_id g ≠ id) ∧
    ∀ s2 npc2 nt o2 npc3 s3 kmem' params cfg pa',
      (∀ j, gre_get s2 ctx j = gre_get s1 ctx j) → msg_at npc2 o2 → rd16 (pkt npc2) (o2 + PEER_CALL_ID) = id →
      call_reply (TB := TB) (LP := LP) (CD := CD) algs kmem' params cfg pa' s2 npc2 nt ctx o2 = Some (true, npc3, s3) →
      rd16 (pkt npc3) (o2 + PEER_CALL_ID) = rd16 (pkt npc) (o + CALL_ID) ∧
      (cksum_verifies (l4_cksum_words npc2 (pkt npc2)) → cksum_verifies (l4_cksum_words npc2 (pkt npc3)))).
Proof.
  intros Hrnd Hi Hl Hm Epm Hreq ip id. subst id.
  destruct (call_request_spec kmem pa s npc ctx o npc1 s1 pm Hrnd Hi Hl Hm Epm Hreq) as (p & i & srv & Hfree & Hp & -> & Hg & Hne).
  destruct (rewrite_id_spec npc o CALL_ID (htons p) Hm (or_introl eq_refl) (bswap16_range p Hp)) as [Hrd Hck]. rewrite Hrd in *.
  split; [by rewrite bswap16_involutive|]. split; [done|]. intros Hids.
  assert (∀ j g, gre_get s ctx j = Some g → used g = true → client_call_id g ≠ htons p) as Hfresh.
  { intros j g Hj Ug E. specialize (Hids pm j g Epm Hj Ug). rewrite E, bswap16_involutive in Hids by done. unfold ip in Hids. congruence. }
  split; [done|]. intros s2 npc2 nt o2 npc3 s3 kmem' params cfg pa' Hsame Hm2 Eid Hrep.
  destruct (call_reply_spec algs kmem' params cfg pa' s2 npc2 nt ctx o2 npc3 s3 Hrep) as (k & g & Hk & Hmatch & ->).
  assert (k = i) as ->.
  { destruct (decide (k = i)) as [|Hki]; [done|]. rewrite Hsame, (Hne k Hki) in Hk. unfold lookup_match in Hmatch.
    rewrite Eid in Hmatch. apply andb_true_iff in Hmatch as [[Ug Ei]%andb_true_iff _]. by destruct (Hfresh k g Hk Ug), (Z.eqb_spec (client_call_id g) (htons p)). }
  rewrite Hsame, Hg in Hk. injection Hk as <-. cbn [orig_client_call_id].
  exact (rewrite_id_spec npc2 o2 PEER_CALL_ID (rd16 (pkt npc) (o + CALL_ID)) Hm2 (or_intror eq_refl) (rd16_range _ _ (ma_bytes _ _ Hm))).
Qed.
End claims.

Section steps.
Context {MB : npf_mbufops_t} {TM PM TB LP CD AS W EP : Type}.
Context {TO : thmap_ops (Z * npf_flow_t) TM} {PO : thmap_ops Z PM} {PL : thmap_laws Z PM} {BO : thmap_ops npf_tblent TB}.
Context {LO : lpm_ops npf_tblent LP} {CO : cdbr_ops CD}.
Abbreviation psys := (pptp_sys (TM := TM) (PM := PM) (AS := AS) (W := W) (EP := EP)).
Abbreviation nsys := (conn_sys (TM := TM) (X := nat_env (PM := PM) (AS := AS) (W := W) (EP := EP))).
Context (algs : npf_algset (AS := AS) (NT := npf_nat) (CS := nsys)).

(** Translation entries whose argument points to a live context or state. *)
Definition tcp_entry (s : psys) (nt : Z) : Prop :=
  ∃ e, nats (env (ps_sys s)) !! nt = Some e ∧ (nt_alg e = None ∨ live s (nt_alg_arg e)).
Definition gre_entry (s : psys) (nt : Z) : Prop :=
  ∃ e, nats (env (ps_sys s)) !! nt = Some e ∧ (nt_alg e = None ∨ ∃ g, gre_get s (ptr_ctx (nt_alg_arg e)) (ptr_index (nt_alg_arg e)) = Some g).
(** A connection over IPv4. *)
Definition ip4_conn (s : psys) (con : Z) : Prop :=
  ∃ c, conns (ps_sys s) !! con = Some c ∧ length (c_forw c) = 4%nat ∧ kw (c_forw c) 0 >>> 28 = 1.

Inductive pptp_step : psys → psys → Prop :=
  | step_other s x : pptp_step s (set_sys s x)
  | step_match pa s npc nt di ok nt' s' : pptp_tcp_match pa s npc nt di = (ok, nt', s') → pptp_step s s'
  | step_translate kmem params (cfg : nat_config (TB := TB) (LP := LP) (CD := CD)) pa s npc nt flow ok npc' s' :
      0 <= pa_rnd (pe_port pa) → 4 <= npc_alen npc → is_Some (npc_l4 npc) → tcp_entry s nt →
      pptp_tcp_translate algs kmem params cfg pa s npc nt flow = Some (ok, npc', s') → pptp_step s s'
  | step_gre_inspect params pa s npc di con s' npc' :
      pptp_gre_inspect params pa s npc di = Some (con, s', npc') → pptp_step s s'
  | step_gre_translate s npc nt flow ok npc' s' : gre_entry s nt →
      pptp_gre_translate s npc nt flow = Some (ok, npc', s') → pptp_step s s'
  | step_tcp_destroy kmem s nt con : tcp_entry s nt → ip4_conn s con →
      (∀ e, nats (env (ps_sys s)) !! nt = Some e → nt_alg_arg e ≠ 0 → live s (nt_alg_arg e)) →
      pptp_step s (pptp_tcp_destroy kmem s nt con)
  | step_gre_destroy kmem s nt con : ip4_conn s con →
      (∃ e g, nats (env (ps_sys s)) !! nt = Some e ∧ gre_get s (ptr_ctx (nt_alg_arg e)) (ptr_index (nt_alg_arg e)) = Some g) →
      pptp_step s (pptp_gre_destroy kmem s nt con).

Lemma ip4_conn_ips s con c : ip4_conn s con → conns (ps_sys s) !! con = Some c →
  (1 <= length (snd (snd (fst (npf_connkey_getkey (c_forw c))))))%nat.
Proof.
  intros (c' & Hc & Hlen & Hk) Hc'. rewrite Hc in Hc'. injection Hc' as ->. unfold npf_connkey_getkey. rewrite Hk. cbn.
  rewrite length_take, length_drop, Hlen. by cbn.
Qed.

Lemma gre_get_some L (s : psys) ctx i : pinv L s → live s ctx → (i < PPTP_MAX_GRE_PER_CLIENT)%nat → ∃ g, gre_get s ctx i = Some g.
Proof.
  intros Hi [c Hc] Hlt. unfold gre_get. rewrite Hc. cbn. apply lookup_lt_is_Some. by rewrite (co_len _ _ _ (proj2 (pi_ctx _ _ Hi ctx c Hc))).
Qed.

Lemma destroy_states_inv kmem (s : psys) ctx ips n : ∀ i, pinv None s → live s ctx → (1 <= length (snd ips))%nat → (i + n <= PPTP_MAX_GRE_PER_CLIENT)%nat →
  pinv None (destroy_states kmem s ctx i n ips) ∧ live (destroy_states kmem s ctx i n ips) ctx.
Proof.
  revert s. induction n as [|n IH]; intros s i Hi Hl Hip Hn; [done|]. cbn [destroy_states].
  destruct (gre_get_some None s ctx i Hi Hl ltac:(lia)) as [g Hg]. rewrite Hg. destruct (used g); [|by apply IH; [..|lia]].
  destruct (pptp_gre_destroy_state_inv kmem None s ctx i ips Hi ltac:(eauto) Hip) as (H1 & Hl1 & _). by apply IH; [..|lia].
Qed.

Lemma ctx_free_inv (s : psys) ctx : pinv None s → live s ctx → pinv None (pptp_tcp_ctx_free s ctx).
Proof.
  intros [H1 H2 H3 H4] [c Hc]. unfold pptp_tcp_ctx_free. rewrite Hc. rewrite (co_lock _ _ _ (proj2 (H4 ctx c Hc))), bool_decide_false by done.
  split; try done. intros a c'. cbn. rewrite lookup_delete_Some. intros [_ Ha]. by apply H4.
Qed.

Lemma ctx_alloc_inv pa (s : psys) r s' : pinv None s → pptp_tcp_ctx_alloc pa s = (r, s') → pinv None s'.
Proof.
  intros [H1 H2 H3 H4]. unfold pptp_tcp_ctx_alloc. destruct (negb (pe_ctx pa)); [by intros [= <- <-]|]. intros [= <- <-].
  split; [done|done| |]; cbn [ps_next ps_ctx].
  - unfold ctx_size in *. split; [lia|]. rewrite <- Zplus_mod_idemp_l, (proj2 H3). done.
  - intros a c. rewrite lookup_insert_Some. intros [[<- <-]|[Hne Ha]]; [|destruct (H4 a c Ha); split; [unfold ctx_size; lia|done]].
    split; [unfold ctx_size; lia|]. split; cbn [gre_conns ctx_lock]; [done|done| | |done].
    + intros i j g h Hg _ Ug. assert (used g = false); [|congruence].
      apply (Forall_lookup_1 (λ g, used g = false) _ i g) in Hg; [done|by repeat constructor].
    + by repeat constructor.
Qed.

Lemma pptp_step_inv s s' : pptp_step s s' → pinv None s → pinv None s'.
Proof.
  intros Hstep Hi. destruct Hstep as [s x|pa s npc nt di ok nt' s' E|kmem params cfg pa s npc nt flow ok npc' s' Hrnd Ha [th Hth] (e & He & Harg) E|
    params pa s npc di con s' npc' E|s npc nt flow ok npc' s' (e & He & Harg) E|kmem s nt con (e & He & Harg) Hc Hlive|kmem s nt con Hc (e & g & He & Hg)].
  - by apply pinv_set_sys.
  - unfold pptp_tcp_match in E. case_match; [by injection E as _ _ <-|]. destruct (pptp_tcp_ctx_alloc pa s) as [[c|] s1] eqn:Ea;
      apply ctx_alloc_inv in Ea; try done; injection E as _ _ <-; [by apply pinv_set_sys|done].
  - unfold pptp_tcp_translate in E. rewrite He in E. cbv zeta in E. unfold npf_nat_getalg in E.
    destruct Harg as [Hn|Hl]; [rewrite Hn in E; by injection E as _ _ <-|]. destruct (nt_alg e); [|by injection E as _ _ <-]. rewrite Hth in E.
    destruct (_ && _); [by injection E as _ _ <-|]. destruct (nbuf_advance _ _ _) as [[o|] nb]; [|by injection E as _ _ <-].
    destruct (npf_recache _) as [npc1|] eqn:Er; [|done]. cbn [mbind option_bind] in E. apply recache_alen in Er; [|done].
    destruct (_ || _ || _); [by injection E as _ _ <-|].
    destruct (pptp_message_inv algs kmem params cfg pa Hrnd s npc1 nt (nt_alg_arg e) o Hi Hl Er ltac:(eauto)) as (ok2 & npc2 & s2 & E2 & H2).
    unfold npf_nat_getalgarg in E. rewrite E2 in E. by injection E as _ _ <-.
  - unfold pptp_gre_inspect in E. case_match; [by injection E as _ <- _|]. destruct (nbuf_advance _ _ _) as [[o|] nb]; [|by injection E as _ <- _].
    cbv zeta in E. case_match; [by injection E as _ <- _|]. destruct (npf_conn_lookup _ _ _ _ _) as [r x]. injection E as _ <- _. by apply pinv_set_sys.
  - unfold pptp_gre_translate in E. case_decide; [by injection E as _ _ <-|]. case_match; [by injection E as _ _ <-|]. rewrite He in E.
    unfold npf_nat_getalg, npf_nat_getalgarg in E. destruct Harg as [Hn|[g Hg]]; [rewrite Hn in E; by injection E as _ _ <-|].
    destruct (nt_alg e); [|by injection E as _ _ <-]. destruct (nbuf_advance _ _ _) as [[o|] nb]; [|by injection E as _ _ <-]. cbv zeta in E.
    destruct (negb (_ &&& _ =? _)); [by injection E as _ _ <-|]. rewrite Hg in E. by injection E as _ _ <-.
  - destruct Hc as (c & Hc & Hrest). pose proof (ip4_conn_ips s con c ltac:(by exists c) Hc) as Hips.
    unfold pptp_tcp_destroy. rewrite He, Hc. unfold npf_nat_getalgarg. destruct (nt_alg_arg e =? 0) eqn:E0; [done|]. apply Z.eqb_neq in E0.
    destruct (npf_connkey_getkey (c_forw c)) as [[[alen proto] ips] ids]. cbn in Hips.
    destruct (destroy_states_inv kmem s (nt_alg_arg e) ips PPTP_MAX_GRE_PER_CLIENT 0 Hi (Hlive e He E0) Hips ltac:(lia)). by apply ctx_free_inv.
  - destruct Hc as (c & Hc & Hrest). pose proof (ip4_conn_ips s con c ltac:(by exists c) Hc) as Hips.
    unfold pptp_gre_destroy. rewrite He, Hc. unfold npf_nat_getalgarg. rewrite Hg. destruct (negb _); [|done].
    destruct (npf_connkey_getkey (c_forw c)) as [[[alen proto] ips] ids]. cbn in Hips. apply call_id_put_inv; [done|done|].
    unfold gre_get in Hg. destruct (ps_ctx s !! _) as [cx|] eqn:Hcx; [|done].
    exact (Forall_lookup_1 _ _ _ _ (co_ids _ _ _ (proj2 (pi_ctx _ _ Hi _ cx Hcx))) Hg).
Qed.

(** Before the ALG is initialised. *)
Definition pptp_start (x : nsys) : psys := mk_psys x None None None ∅ ctx_size false.

(** C21: the contexts of the PPTP ALG.  From its initialisation on, in every
    interleaving of its functions with anything the rest of the system does to
    connections and translation entries - as long as the entries it is called
    for refer to contexts that exist - every context has four entries of which
    no two used ones have the same original call ID, its lock is free between
    the calls (every path releases it), translated IDs are 16-bit numbers, the
    portmap of the IDs is well-formed, and no freed memory is used. *)
Theorem pptp_contexts_ok x kmem params (cfg : nat_config (TB := TB) (LP := LP) (CD := CD)) pa freealg aset aset' s0 s :
  npf_alg_pptp_init algs kmem params cfg pa freealg aset (pptp_start x) = (0, aset', s0) → rtc pptp_step s0 s → pinv None s.
Proof.
  intros Hinit Hsteps. assert (pinv None s0) as H0.
  { unfold npf_alg_pptp_init in Hinit. destruct (npf_alg_register aset _ _) as [[tcp|] aset1]; [|by destruct (npf_alg_pptp_fini _ _ _)].
    destruct (npf_alg_register aset1 _ _) as [[gre|] aset2]; [|by destruct (npf_alg_pptp_fini _ _ _)]. injection Hinit as _ <-.
    split; [done| |done|done]. eexists. split; [done|]. apply npf_portmap_create_wf; lia. }
  clear Hinit. induction Hsteps as [s|s s1 s2 Hs _ IH]; [done|]. apply IH. by apply (pptp_step_inv s).
Qed.
End steps.

(** ** Cases *)

Section cases.
Context {MB : npf_mbufops_t} {TM PM TB LP CD AS W EP : Type}.
Context {TO : thmap_ops (Z * npf_flow_t) TM} {PO : thmap_ops Z PM} {PL : thmap_laws Z PM} {BO : thmap_ops npf_tblent TB}.
Context {LO : lpm_ops npf_tblent LP} {CO : cdbr_ops CD}.
Abbreviation psys := (pptp_sys (TM := TM) (PM := PM) (AS := AS) (W := W) (EP := EP)).

Lemma ptr_ctx_gre ctx i : ctx mod ctx_size = 0 → (i < PPTP_MAX_GRE_PER_CLIENT)%nat → ptr_ctx (gre_ptr ctx i) = ctx ∧ ptr_index (gre_ptr ctx i) = i.
Proof.
  unfold ptr_ctx, ptr_index, gre_ptr, ctx_size, PPTP_MAX_GRE_PER_CLIENT. intros Hm Hi. Z.to_euclidean_division_equations; lia.
Qed.

(** The context is freed with the control connection, and the entries of its
    tunnels keep pointing into it: their destruction uses freed memory. *)
Theorem gre_destroy_after_free kmem kmem' (s : psys) ctx nt con gnt gcon e i c : pinv None s → live s ctx →
  (nats (env (ps_sys s)) !! nt ≫= λ e, Some (nt_alg_arg e)) = Some ctx → ip4_conn s con →
  let s' := pptp_tcp_destroy kmem s nt con in
  nats (env (ps_sys s')) !! gnt = Some e → nt_alg_arg e = gre_ptr ctx i → (i < PPTP_MAX_GRE_PER_CLIENT)%nat → conns (ps_sys s') !! gcon = Some c →
  ps_fault (pptp_gre_destroy kmem' s' gnt gcon) = true.
Proof.
  intros Hi [c0 Hc0] Hnt Hcon s' He Harg Hlt Hgc. destruct (pi_ctx _ _ Hi ctx c0 Hc0) as [_ Hok]. destruct (co_addr _ _ _ Hok) as [Hpos Hmod].
  unfold pptp_gre_destroy. rewrite He, Hgc. unfold npf_nat_getalgarg. rewrite Harg. destruct (ptr_ctx_gre ctx i Hmod Hlt) as [-> ->].
  assert (gre_get s' ctx i = None) as ->; [|done].
  unfold s', pptp_tcp_destroy. destruct (nats (env (ps_sys s)) !! nt) as [tnt|]; [|done]. injection Hnt as Htnt.
  destruct Hcon as (cc & Hcc & Hk). pose proof (ip4_conn_ips s con cc ltac:(by exists cc) Hcc) as Hips. rewrite Hcc. unfold npf_nat_getalgarg. rewrite Htnt.
  destruct (ctx =? 0) eqn:E0; [lia|]. destruct (npf_connkey_getkey (c_forw cc)) as [[[alen proto] ips] ids]. cbn in Hips.
  destruct (destroy_states_inv kmem s ctx ips PPTP_MAX_GRE_PER_CLIENT 0 Hi ltac:(by exists c0) Hips ltac:(lia)) as [H1 [c1 Hc1]].
  unfold pptp_tcp_ctx_free. rewrite Hc1. unfold gre_get. destruct (ctx_lock c1); cbn; by rewrite lookup_delete_eq.
Qed.

(** A second request with the ID of an established call reuses its entry: the
    destruction of the old tunnel then releases the translated ID of the new
    call, which is in use. *)
Theorem reused_entry_released kmem (s : psys) npc ctx id T i s' gnt gcon e c : pinv None s → live s ctx → 4 <= npc_alen npc → inw 16 T → T ≠ 0 →
  pptp_gre_get_state kmem s npc ctx id T = (Some i, s') → (i < PPTP_MAX_GRE_PER_CLIENT)%nat →
  nats (env (ps_sys s')) !! gnt = Some e → nt_alg_arg e = gre_ptr ctx i → conns (ps_sys s') !! gcon = Some c →
  pptp_gre_destroy kmem s' gnt gcon = pptp_call_id_put kmem s' (snd (snd (fst (npf_connkey_getkey (c_forw c))))) T.
Proof.
  intros Hi [c0 Hc0] Ha HT HT0 Hget Hlt He Harg Hc. destruct (co_addr _ _ _ (proj2 (pi_ctx _ _ Hi ctx c0 Hc0))) as [Hpos Hmod].
  pose proof (pptp_gre_get_state_spec kmem s npc ctx id T Hi ltac:(by exists c0) Ha HT) as Hs. rewrite Hget in Hs. destruct Hs as (_ & _ & [srv Hg] & _).
  unfold pptp_gre_destroy. rewrite He, Hc. unfold npf_nat_getalgarg. rewrite Harg. destruct (ptr_ctx_gre ctx i Hmod Hlt) as [-> ->].
  rewrite Hg. cbn [client_call_id]. rewrite (proj2 (Z.eqb_neq _ _) HT0). cbn [negb]. by destruct (npf_connkey_getkey (c_forw c)) as [[[? ?] ?] ?].
Qed.

(** An entry of another ALG, whose argument is 0, is taken for one of the tunnel
    when the two bytes at the layer-4 header say version 1, as in an ICMP error
    of code 1. *)
Theorem gre_translate_other_alg (s : psys) npc nt e alg o nb : pinv None s → npf_iscached npc NPC_IP4 = true →
  nats (env (ps_sys s)) !! nt = Some e → nt_alg e = Some alg → nt_alg_arg e = 0 →
  nbuf_advance (nbuf_reset (npc_nbuf npc)) (npc_hlen npc) sizeof_pptp_gre_hdr = (Some o, nb) →
  ntohs (rd16 (packet nb) o) &&& GRE_VER_FLD_MASK = GRE_ENHANCED_HDR_VER →
  ∃ npc', pptp_gre_translate s npc nt NPF_FLOW_BACK = Some (false, npc', pfault s).
Proof.
  intros Hi H4 He Halg Harg Hadv Hver. unfold pptp_gre_translate. rewrite decide_False by done. rewrite H4, He. cbn [negb].
  unfold npf_nat_getalg, npf_nat_getalgarg. rewrite Halg, Hadv, Harg. cbv zeta.
  assert (ntohs (gre_flags_ver (pkt (set_nbuf npc nb)) o) &&& GRE_VER_FLD_MASK = GRE_ENHANCED_HDR_VER) as -> by exact Hver. cbn [Z.eqb GRE_ENHANCED_HDR_VER Pos.eqb negb].
  assert (gre_get s (ptr_ctx 0) (ptr_index 0) = None) as ->; [|eauto]. unfold gre_get. change (ptr_ctx 0) with 0.
  destruct (ps_ctx s !! 0) as [c|] eqn:E; [|done]. destruct (co_addr _ _ _ (proj2 (pi_ctx _ _ Hi 0 c E))). lia.
Qed.
End cases.

(** The length is compared in network byte order: a message of 256 bytes is
    taken to be shorter than 32. *)
Theorem length_in_network_order : (htons 256 <? htons PPTP_OUTGOING_CALL_MIN_LEN) = true ∧ (htons 31 <? htons PPTP_OUTGOING_CALL_MIN_LEN) = true ∧
  (htons 32 <? htons PPTP_OUTGOING_CALL_MIN_LEN) = false.
Proof. by vm_compute. Qed.

(** ** Witnesses *)

Definition w_pargs (stack : list Z) : pptp_args := mk_pargs true (mk_port_args (λ _, true) 7) sample_nargs stack.
Abbreviation w_psys := (pptp_sys (TM := gmap (list Z) (Z * npf_flow_t)) (PM := gmap (list Z) Z) (AS := unit) (W := unit) (EP := unit)).

(** A segment between the client 10.0.0.2 and the server 192.0.2.1 with a
    control message. *)
Definition w_segment (src dst sport dport msg : list Z) : list Z :=
  [0x45; 0; 0; 72; 0; 0; 0; 0; 64; 6; 0; 0] ++ src ++ dst ++ sport ++ dport ++
  [0; 0; 0; 1; 0; 0; 0; 1; 0x50; 0x18; 16; 0; 0; 0; 0; 0] ++ msg.
Definition w_npc (p : list Z) : npf_cache_t :=
  mk_npc (npc_ctx sample_syn_npc) (NPC_IP4 ||| NPC_LAYER4 ||| NPC_TCP) (mk_nbuf [p] 0 0 1 0) 12 16 4 20 IPPROTO_TCP 0 (Some 20) None.
Definition w_request : npf_cache_t :=
  w_npc (w_segment [10; 0; 0; 2] [192; 0; 2; 1] [3; 232] [6; 187]
    ([0; 168; 0; 1; 0x1a; 0x2b; 0x3c; 0x4d; 0; 7; 0; 0; 0x12; 0x34] ++ replicate 18 0)).
Definition w_reply (id : list Z) : npf_cache_t :=
  w_npc (w_segment [192; 0; 2; 1] [1; 2; 3; 4] [6; 187] [3; 232]
    ([0; 32; 0; 1; 0x1a; 0x2b; 0x3c; 0x4d; 0; 8; 0; 0; 0x55; 0x66] ++ id ++ replicate 16 0)).

Definition w_pinit := npf_alg_pptp_init (MB := linear_mbufops) no_algs true sample_conn_params sample_ncfg (w_pargs []) (λ _ s _, s) npf_alg_init (pptp_start w_sys3).
Definition w_ps0 : w_psys := snd w_pinit.
Definition w_ps1 : w_psys := snd (pptp_tcp_match (w_pargs []) w_ps0 w_request 2 PFIL_OUT).
Definition w_translate := pptp_tcp_translate (MB := linear_mbufops) no_algs true sample_conn_params sample_ncfg (w_pargs []) w_ps1 w_request 2 NPF_FLOW_FORW.
Definition w_ps2 : w_psys := match w_translate with Some (_, _, s) => s | None => w_ps1 end.

Abbreviation w_pstep := (pptp_step (MB := linear_mbufops) (TM := gmap (list Z) (Z * npf_flow_t)) (PM := gmap (list Z) Z) (TB := gmap (list Z) npf_tblent)
  (LP := gmap (Z * Z * Z) npf_tblent) (CD := unit) (AS := unit) (W := unit) (EP := unit) no_algs).

Lemma w_match_step : w_pstep w_ps0 w_ps1.
Proof.
  apply (step_match _ (w_pargs []) w_ps0 w_request 2 PFIL_OUT (fst (fst (pptp_tcp_match (w_pargs []) w_ps0 w_request 2 PFIL_OUT)))
    (snd (fst (pptp_tcp_match (w_pargs []) w_ps0 w_request 2 PFIL_OUT)))).
  unfold w_ps1. by destruct (pptp_tcp_match _ _ _ _ _) as [[? ?] ?].
Qed.

(** The control connection is recognised and its call request translated. *)
Lemma pptp_contexts_ok_witness : pinv None w_ps2 ∧ (orig_client_call_id <$> gre_get w_ps2 8 3) = Some 13330.
Proof.
  split; [|by vm_compute].
  apply (pptp_contexts_ok (MB := linear_mbufops) no_algs w_sys3 true sample_conn_params sample_ncfg (w_pargs []) (λ _ s _, s) npf_alg_init (snd (fst w_pinit)) w_ps0).
  - assert (fst (fst w_pinit) = 0) as E by by vm_compute. unfold w_ps0. change (npf_alg_pptp_init _ _ _ _ _ _ _ _) with w_pinit.
    destruct w_pinit as [[z a] s]. cbn in *. by subst z.
  - apply rtc_l with w_ps1; [exact w_match_step|]. apply rtc_once.
    assert (bool_decide (is_Some w_translate) = true) as Hsome by (vm_compute; reflexivity). unfold w_ps2.
    destruct w_translate as [[[ok npc] s]|] eqn:E; [clear Hsome|discriminate Hsome].
    apply (step_translate _ true sample_conn_params sample_ncfg (w_pargs []) w_ps1 w_request 2 NPF_FLOW_FORW ok npc s); [done|done|by eexists| |exact E].
    assert (nt_alg_arg <$> nats (env (ps_sys w_ps1)) !! 2 = Some 8) as E2 by by vm_compute.
    assert (bool_decide (is_Some (ps_ctx w_ps1 !! 8)) = true) as Hl by by vm_compute. apply bool_decide_eq_true in Hl.
    unfold tcp_entry. destruct (nats (env (ps_sys w_ps1)) !! 2) as [e|]; [|done]. injection E2 as E2. exists e. split; [done|]. right. by rewrite E2.
Defined.

Definition w_key : list Z := [0x12f00000; 0x66550000; 0x0200000a; 0x010200c0].
Definition w_req_result := call_request true (w_pargs []) w_ps1 w_request 8 40.
Definition w_rep_result (s : w_psys) :=
  call_reply (MB := linear_mbufops) no_algs true sample_conn_params sample_ncfg (w_pargs w_key) s (w_reply [0; 8]) 2 8 40.

Lemma w_pinv1 : pinv None w_ps1.
Proof.
  apply (pptp_step_inv _ _ _ w_match_step). split; [by vm_compute| |by vm_compute|].
  - eexists. split; [reflexivity|]. apply npf_portmap_create_wf; lia.
  - intros a c H. assert (ps_ctx w_ps0 = ∅) as E by by vm_compute. by rewrite E in H.
Qed.

Lemma w_msg p : (forallb (λ b, (0 <=? b) && (b <? 256)) p = true) → (60 <= length p)%nat → msg_at (w_npc p) 40.
Proof.
  intros Hb Hl. assert (pkt (w_npc p) = p) as E by (unfold pkt, packet; cbn; by rewrite app_nil_r). split; rewrite ?E; try done.
  - by apply bytes_ok_concrete.
  - unfold blen. lia.
Qed.

(** The request of the client with ID 0x1234 and the reply of the server: the
    IDs at the offsets of the messages (in the byte order of the packet). *)
Lemma pptp_call_ids_witness : ∃ npc1 s1 npc3 s3, w_req_result = Some (true, npc1, s1) ∧ w_rep_result s1 = Some (true, npc3, s3) ∧
  rd16 (pkt npc1) 52 = 2048 ∧ rd16 (pkt npc3) 54 = rd16 (pkt w_request) 52.
Proof.
  assert ((λ '(ok, npc, _), (ok, rd16 (pkt npc) 52)) <$> w_req_result = Some (true, 2048)) as E1 by by vm_compute.
  assert ((λ '(ok, _, _), ok) <$> (w_req_result ≫= λ '(_, _, s), w_rep_result s) = Some true) as E2 by by vm_compute.
  destruct w_req_result as [[[ok1 npc1] s1]|] eqn:R1; [|done]. cbn in E1, E2. injection E1 as -> Eid.
  destruct (w_rep_result s1) as [[[ok3 npc3] s3]|] eqn:R3; [|done]. cbn in E2. injection E2 as ->.
  exists npc1, s1, npc3, s3. split_and!; [done|done|done|].
  assert (bool_decide (is_Some (ps_ctx w_ps1 !! 8)) = true) as Hl by by vm_compute. apply bool_decide_eq_true in Hl.
  destruct (pi_pm _ _ w_pinv1) as (pm & Epm & _).
  destruct (pptp_call_ids (MB := linear_mbufops) (TB := gmap (list Z) npf_tblent) (LP := gmap (Z * Z * Z) npf_tblent) (CD := unit) no_algs
    w_ps1 w_request 8 40 npc1 s1 pm true (w_pargs []) ltac:(done) w_pinv1 Hl
    ltac:(apply w_msg; [by vm_compute|cbn; lia]) Epm R1) as (_ & _ & Hids).
  refine (proj1 (proj2 (Hids _) s1 (w_reply [0; 8]) 2 40 npc3 s3 true sample_conn_params sample_ncfg (w_pargs w_key) _ _ _ R3)).
  - intros pm' i g _ Hg Ug. exfalso. assert (Forall (λ g, used g = false) (default [] (gre_conns <$> ps_ctx w_ps1 !! 8))) as Hf
      by (apply (bool_decide_unpack _); by vm_compute).
    unfold gre_get in Hg. destruct (ps_ctx w_ps1 !! 8) as [c|]; [|done]. cbn in Hf, Hg. apply (Forall_lookup_1 _ _ _ _ Hf) in Hg. congruence.
  - done.
  - apply w_msg; [by vm_compute|cbn; lia].
  - etransitivity; [|symmetry; exact Eid]. by vm_compute.
Defined.

(** GRE is not a protocol the cache knows: a packet of a tunnel has no layer 4,
    so that the lookup of connections (with it [pptp_gre_inspect]) leaves it. *)
Definition w_gre : npf_cache_t :=
  flat_npc (npc_ctx sample_syn_npc)
    ([0x45; 0; 0; 36; 0; 0; 0; 0; 64; 47; 0; 0; 192; 0; 2; 1; 1; 2; 3; 4] ++ [0x30; 1; 0x88; 0x0b; 0; 0; 0; 8] ++ replicate 8 0) 1.
Definition w_gre_npc : npf_cache_t := match npf_cache_all (M := linear_mbufops) w_gre with Some (_, npc) => npc | None => w_gre end.

Theorem gre_not_tracked {TM X : Type} {TO : thmap_ops (Z * npf_flow_t) TM} {CE : conn_env X} params alg (s : conn_sys (TM := TM) (X := X)) di now :
  npc_proto w_gre_npc = IPPROTO_GRE ∧
  npf_conn_inspect (MB := linear_mbufops) params alg s w_gre_npc di now = Some (None, 0, false, s, w_gre_npc).
Proof.
  split; [by vm_compute|]. unfold npf_conn_inspect, npf_conn_trackable_p.
  assert (npf_iscached w_gre_npc NPC_LAYER4 = false) as -> by by vm_compute. rewrite orb_true_r. by destruct (negb (conn_tracking s)).
Qed.
End AlgPptp.
