(* ===== verification/NatFlow.v ===== *)
(** * NatFlow: the packets of a translated connection

    Stateful translation end to end: the first packet establishes a connection
    and an entry (npf_conn.c, npf_nat.c), the backwards key of the connection
    becomes that of the translated flow (npf_connkey.c), and a reply to the
    translated packet finds the connection, its entry, the flow "backwards" and
    the addresses to restore. *)

From S2P Require Import Prelude Nbuf Cache Cksum Addr Rewrite Tcpopt StateTcp State IfMap ConnKey Thmap Portmap Ruleset Tableset Conn Nvlist Rproc Alg NpfNat NatRefs NatSys.
From stdpp Require Import strings.
Open Scope Z_scope.
Open Scope npf_scope.

Module NatFlow.
Export NatSys.

(** ** Keys of a translated flow *)

(** The tuple of a packet that has no explicit key. *)
Definition npc_tuple (kp : npf_connkey_params) (npc : npf_cache_t) (di : Z) (ids : Z * Z) : conn_tuple :=
  mk_tuple (npc_alen npc) (npc_proto npc) (npc_addrs npc) ids
    (if connkey_interface kp then nb_ifid (npc_nbuf npc) else 0) (if connkey_direction kp then di &&& PFIL_ALL else 0).

Lemma conkey_tuple kp npc di flow ids : npc_ckey npc = None → conkey_ids npc = Some ids →
  ∃ l, npf_conn_conkey kp npc di flow = Some (tuple_key (npc_tuple kp npc di ids) flow, l).
Proof.
  intros E0 E1. unfold npf_conn_conkey, tuple_key, npc_tuple. rewrite E0, E1.
  cbn [tp_alen tp_proto tp_ips tp_ids tp_ifid tp_di]. destruct (npf_connkey_setkey _ _ _ _ _) as [k l]. by exists l.
Qed.

(** A packet as the keys need it. *)
Record packet_ok (npc : npf_cache_t) : Prop := {
  pk_alen : alen_ok (npc_alen npc);
  pk_proto : 0 <= npc_proto npc < 256;
  pk_bytes : bytes_ok (pkt npc);
  pk_ifid : 0 <= nb_ifid (npc_nbuf npc) < 2 ^ 16;
}.

Lemma conkey_ids_range npc i j : bytes_ok (pkt npc) → conkey_ids npc = Some (i, j) → inw 16 i ∧ inw 16 j.
Proof.
  intros Hb. unfold conkey_ids, th_sport, th_dport, uh_sport, uh_dport, icmp_id.
  repeat case_if; intros [= <- <-]; split; by apply rd16_range.
Qed.

Lemma nwords_div alen : alen_ok alen → Z.to_nat (alen / 4) = nwords alen.
Proof. by intros [-> | ->]. Qed.

Lemma npc_tuple_wf kp npc di ids : packet_ok npc → conkey_ids npc = Some ids → tuple_wf (npc_tuple kp npc di ids).
Proof.
  intros [Ha Hp Hb Hi] Hid. destruct ids as [i j]. destruct (conkey_ids_range npc i j Hb Hid) as [H1 H2].
  split; unfold npc_tuple; cbn [tp_alen tp_proto tp_ips tp_ids tp_ifid tp_di fst snd]; try done.
  - unfold npc_addrs. cbn [fst]. rewrite nwords_div by done. by apply rd_words_wf.
  - unfold npc_addrs. cbn [snd]. rewrite nwords_div by done. by apply rd_words_wf.
  - destruct (connkey_interface kp); lia.
  - destruct (connkey_direction kp); [|lia]. change PFIL_ALL with (2 ^ 2 - 1). rewrite land_ones_mod by lia.
    apply Z.mod_pos_bound. lia.
Qed.

(** A reply to the translation of [npc]: [which] of its addresses is replaced by
    [taddr], and the port too unless it is 0. *)
Definition reply_to_translated (npc r : npf_cache_t) (taddr : npf_addr_t) (tport : Z) (which : npf_which) : Prop :=
  npc_ckey r = None ∧ npc_alen r = npc_alen npc ∧ npc_proto r = npc_proto npc ∧
  nb_ifid (npc_nbuf r) = nb_ifid (npc_nbuf npc) ∧
  ∃ i j, conkey_ids npc = Some (i, j) ∧
    match which with
    | NPF_SRC => npc_addrs r = (snd (npc_addrs npc), taddr) ∧ conkey_ids r = Some (j, if tport =? 0 then i else tport)
    | NPF_DST => npc_addrs r = (taddr, fst (npc_addrs npc)) ∧ conkey_ids r = Some (if tport =? 0 then j else tport, i)
    end.

(** The backwards key that [npf_conn_setnat] gives the connection is the key of
    such a reply. *)
Lemma adjkey_reply kp npc r di taddr tport ntype bk lb : packet_ok npc → npc_ckey npc = None →
  npf_conn_conkey kp npc di NPF_FLOW_BACK = Some (bk, lb) → addr_wf (nwords (npc_alen npc)) taddr → inw 16 tport →
  reply_to_translated npc r taddr tport (if ntype =? NPF_NATOUT then NPF_SRC else NPF_DST) →
  ∃ l, npf_conn_conkey kp r di NPF_FLOW_FORW = Some (npf_conn_adjkey bk taddr tport (nat_type_which ntype), l).
Proof.
  intros Hpk Hck Hbk Hta Htp (R1 & R2 & R3 & R4 & i & j & Hid & Hr).
  destruct (conkey_tuple kp npc di NPF_FLOW_BACK (i, j) Hck Hid) as [l0 E0]. rewrite E0 in Hbk. injection Hbk as <- _.
  pose proof (npc_tuple_wf kp npc di (i, j) Hpk Hid) as Hwf.
  rewrite tuple_key_back, npf_conn_adjkey_spec by (try apply tuple_swap_wf; done).
  assert (∃ ids, conkey_ids r = Some ids ∧
    npc_tuple kp r di ids = tuple_adjust (tuple_swap (npc_tuple kp npc di (i, j))) taddr tport (nat_type_which ntype)) as (ids & Eids & Et).
  { unfold nat_type_which. destruct (ntype =? NPF_NATOUT); destruct Hr as [Ha Hi]; eexists; (split; [exact Hi|]);
      unfold npc_tuple, tuple_swap; cbn [tp_alen tp_proto tp_ips tp_ids tp_ifid tp_di fst snd tuple_adjust];
      by rewrite R2, R3, R4, Ha. }
  destruct (conkey_tuple kp r di NPF_FLOW_FORW ids R1 Eids) as [l E]. exists l. by rewrite E, Et.
Qed.

Section flow.
Context {MB : npf_mbufops_t} {TM PM TB LP CD AS W EP : Type}.
Context {TO : thmap_ops (Z * npf_flow_t) TM} {TL : thmap_laws (Z * npf_flow_t) TM}.
Context {PO : thmap_ops Z PM} {PL : thmap_laws Z PM} {BO : thmap_ops npf_tblent TB} {BL : thmap_laws npf_tblent TB}.
Context {LO : lpm_ops npf_tblent LP} {LL : lpm_laws npf_tblent LP} {CO : cdbr_ops CD}.

Abbreviation env_t := (nat_env (PM := PM) (AS := AS) (W := W) (EP := EP)).
Abbreviation nsys := (conn_sys (TM := TM) (X := env_t)).

Context (algs : npf_algset (AS := AS) (NT := npf_nat) (CS := nsys)) (kmem : bool) (params : conn_params).
#[local] Hint Extern 0 (conn_env _) => exact (nat_conn_env algs kmem) : typeclass_instances.
Abbreviation cfg_t := (nat_config (TB := TB) (LP := LP) (CD := CD)).
Implicit Types (s : nsys) (E : env_t).
Context (Halgs : algs_ok algs).

(** ** The entry of a new connection *)

Lemma npf_conn_setnat_ok s p nt ntype s' c : conns s !! p = Some c → npf_conn_setnat s p nt ntype = (0, s') →
  let '(taddr, tport) := env_nat_gettrans (env s) nt in
  conns s' !! p = Some (set_nat (Some nt) (set_back (npf_conn_adjkey (c_back c) taddr tport (nat_type_which ntype)) c)) ∧
  env s' = env s.
Proof.
  intros Hp. unfold npf_conn_setnat. rewrite Hp. destruct (env_nat_gettrans (env s) nt) as [taddr tport].
  case_if; [done|]. destruct (c_nat c); [done|]. destruct (npf_conndb_remove _ _) as [? cd1].
  destruct (npf_conndb_insert _ _ _ _) as [ok cd2]. destruct ok; cbn [negb].
  - intros [= <-]. split; [|done]. cbn [conns set_db upd_conn set_conns]. by rewrite lookup_alter_eq, Hp.
  - by destruct (npf_conndb_remove cd2 _).
Qed.

Lemma nat_translate_same s npc nt di flow err s' npc' : nat_translate algs s npc nt di flow = Some (err, s', npc') →
  conns s' = conns s ∧ nats (env s') = nats (env s) ∧ policies (env s') = policies (env s).
Proof.
  unfold nat_translate. destruct (nats (env s) !! nt); [|by intros [= <- <- <-]].
  destruct (policies (env s) !! _); [|by intros [= <- <- <-]].
  destruct (if nbuf_cksum_barrier _ _ then _ else _); [|done]. cbn [mbind option_bind].
  destruct (npf_dnat_translate _ _ _ _ _ _) as [[[? ?] ?]|]; [|done]. cbn [mbind option_bind]. by intros [= <- <- <-].
Qed.

(** A successful [nat_establish]: the entry, and what it makes of the connection. *)
Lemma nat_establish_ok held (cfg : cfg_t) na s npc p con di c np s' npc' : sys_inv held s → 0 < held p →
  create_ok cfg na (env s) npc → conns s !! con = Some c → policies (env s) !! p = Some np →
  nat_establish algs kmem cfg na s npc p con di = Some (0, s', npc') →
  ∃ nt e np', nats (env s') !! nt = Some e ∧ entry_of npc np e ∧ nt_natpolicy e = p ∧
    policies (env s') !! p = Some np' ∧ n_type np' = n_type np ∧ inw 16 (nt_tport e) ∧
    conns s' !! con = Some (set_nat (Some nt) (set_back
      (npf_conn_adjkey (c_back c) (nt_taddr e) (nt_tport e) (nat_type_which (n_type np))) c)).
Proof.
  intros Hs Hh (Ha & HT & Hrnd) Hc Hnp. pose proof (si_nat _ _ Hs) as Hi. unfold nat_establish.
  destruct (npf_nat_create_spec kmem (nc_tables cfg) (nc_tableset cfg) (na_nat na) (na_port na) held (env s) npc p con
    Hi Hh Ha HT Hrnd) as (r & E & -> & Hty & Hr). cbn [mbind option_bind]. destruct r as [nt|]; [|done].
  destruct Hr as (-> & Hi' & e & He & Hcon & Hp & Hent). specialize (Hent np Hnp). set (nt := nat_next (env s)) in *.
  assert (nats E !! nt = Some e) as Hte by (by rewrite He, lookup_insert_if, decide_True). rewrite Hte.
  destruct (ni_pol _ _ Hi' nt e Hte) as [np' Hnp']. rewrite Hp in Hnp'. rewrite Hnp'.
  assert (n_type np' = n_type np) as Ety by (specialize (Hty p); rewrite Hnp', Hnp in Hty; by injection Hty).
  pose proof (Halgs (alg_state E) npc e di) as Hal. destruct (npf_alg_match algs (alg_state E) npc e di) as [[mt e'] a].
  destruct Hal as (alg & arg & ->). set (E2 := set_alg_state _ a).
  destruct (npf_conn_setnat _ con nt (n_type np')) as [err s2] eqn:Es. destruct (err =? 0) eqn:E0; bool_to_prop; cbn [negb].
  2:{ intros [= -> _ _]. done. }
  subst err. pose proof (npf_conn_setnat_ok (NpfNat.set_env s E2) con nt (n_type np') s2 c Hc Es) as Hset. intros Et.
  destruct (nat_translate_same _ _ _ _ _ _ _ _ Et) as (Ec & En & Epol). rewrite Ec, En, Epol.
  cbn [env_nat_gettrans nat_conn_env env NpfNat.set_env] in Hset.
  assert (nats E2 !! nt = Some (set_alg alg arg e)) as Ht2 by (unfold E2; cbn [nats set_alg_state set_nats]; by rewrite lookup_insert_eq).
  rewrite Ht2 in Hset. destruct Hset as [Hco Hev]. exists nt, (set_alg alg arg e), np'.
  assert (env s2 = E2) as -> by exact Hev. split_and!; try done.
  - exact (ni_port _ _ Hi' nt e Hte).
  - by rewrite Hco, Ety.
Qed.

(** ** Replies *)

Definition orig_which (ntype : Z) : npf_which := if ntype =? NPF_NATOUT then NPF_SRC else NPF_DST.

(** The ID of the interface is kept in 16 bits.  With a larger one (the IDs
    grow by 64 with every flush of the interface map) the entry made for a
    packet is not found by the packets of that interface. *)
Theorem nat_ifid_truncated s con c nt e npc np r di :
  conns s !! con = Some c → npf_conn_getnat c = Some nt → nats (env s) !! nt = Some e → entry_of npc np e →
  nb_ifid (npc_nbuf r) = nb_ifid (npc_nbuf npc) → 2 ^ 16 <= nb_ifid (npc_nbuf npc) →
  npf_nat_lookup s r con di = (None, false).
Proof.
  intros Hc Hn He [Hif _] Hr Hb. unfold npf_nat_lookup. rewrite Hc, Hn, He, Hif, Hr.
  pose proof (wrap_range 16 (nb_ifid (npc_nbuf npc)) ltac:(lia)) as Hw. unfold inw in Hw.
  by rewrite (proj2 (Z.eqb_neq _ _)) by lia.
Qed.

(** C14: Replies to a translated flow come back.  Once the first packet of a flow
    has established a connection and an entry (policy and packet in the same
    direction, the translation did not fail), every reply to its translated
    form - addressed to the translated address and port, arriving in the other
    direction on the interface - finds that connection as "backwards" and, in
    it, that entry, also as "backwards".  The entry holds the original address
    and port of the packet, to be restored.  Assumed: the ID of the interface
    is below 2^16 (it is stored in 16 bits, see [nat_ifid_truncated]), the
    packet carries no key of its own (as the ALGs set one), the tables named
    by NAT policies exist, the translation address has as many words as the
    packet's, and an ALG that matches only marks the entry as its own. *)
Theorem nat_replies held (cfg : cfg_t) na s npc di now avail con s1 npc1 p np s2 npc2 : sys_inv held s → 0 < held p →
  di = PFIL_IN ∨ di = PFIL_OUT → policies (env s) !! p = Some np → n_type np = di →
  packet_ok npc1 → npc_ckey npc1 = None → create_ok cfg na (env s) npc1 →
  npf_conn_establish params s npc di now true avail = Some (Some con, s1, npc1) →
  nat_establish algs kmem cfg na s1 npc1 p con di = Some (0, s2, npc2) →
  ∃ nt e, nats (env s2) !! nt = Some e ∧ nt_oaddr e = npc_addr npc1 (orig_which di) ∧
    (nt_oport e = nat_oport npc1 np ∨ nt_oport e = 0 ∧ nt_tport e = 0) ∧
    (addr_wf (nwords (npc_alen npc1)) (nt_taddr e) →
     ∀ r now2, reply_to_translated npc1 r (nt_taddr e) (nt_tport e) (orig_which di) →
       let s3 := npf_conn_release s2 con in
       fst (npf_conn_lookup params s3 r (di ^^^ PFIL_ALL) now2) = Some (con, NPF_FLOW_BACK) ∧
       npf_nat_lookup s3 r con (di ^^^ PFIL_ALL) = (Some (nt, NPF_FLOW_BACK), false)).
Proof.
  intros Hs Hh Hdi Hnp Hty Hpk Hck Hcr Hest Hne.
  destruct (npf_conn_establish_cases _ _ _ _ _ _ _ _ _ _ (si_conn _ _ Hs) Hest) as
    [(? & _)|(nst & fw & bk & ifid & lf & lb & m & c & pl & Ef & Eb & Es1 & Hi1 & Efw & Ebk & Eif & Hc)]; [done|].
  destruct Hc as [[[= ->] Ec]|[? _]]; [|done]. set (con := next_conn s) in *.
  assert (conns s1 !! con = Some c) as Hp by (rewrite Es1; apply lookup_insert_eq).
  pose proof (npf_conn_establish_sys algs kmem params held _ _ _ _ _ _ _ _ _ Hs Hest) as Hs1.
  destruct (npf_conn_establish_natof algs kmem params _ _ _ _ _ _ _ _ _ (si_conn _ _ Hs) Hest) as [[He1 _] _].
  destruct (nat_establish_ok held cfg na s1 npc1 p con di c np s2 npc2 Hs1 Hh) as
    (nt & e & np' & He & (X1 & X2 & X3 & X4 & X5) & Hep & Hnp' & Hty' & Hpt & Hcon); [by rewrite He1|done|by rewrite He1|done|].
  pose proof (nat_establish_sys algs kmem Halgs held cfg na s1 npc1 p con di 0 s2 npc2 Hs1 Hh ltac:(by rewrite He1) Hne) as Hs2.
  exists nt, e. split; [done|]. split; [rewrite X3, Hty; done|]. split; [done|]. intros Hta r now2 Hr s3.
  set (c2 := set_nat _ _) in Hcon.
  assert (c_flags c2 = di &&& PFIL_ALL) as Efl by (unfold c2; by rewrite Ec).
  assert (flag (c_flags c2) (CONN_ACTIVE ||| CONN_EXPIRE) = false) as Hina by (rewrite Efl; by destruct Hdi as [-> | ->]).
  pose proof (npf_conn_release_lookup s2 con c2 Hcon Hina) as Hp3. fold s3 in Hp3. set (c3 := set_ref _ _) in Hp3.
  pose proof (npf_conn_release_inv s2 con (si_conn _ _ Hs2)) as Hi3. fold s3 in Hi3.
  assert (removed c3 = false) as Hrm.
  { unfold c3, removed. cbn [c_flags set_ref or_flags set_flags]. rewrite flag_lor, Efl, dir_flags_clear by auto. done. }
  destruct (adjkey_reply (cp_key params) npc1 r (di ^^^ PFIL_ALL) (nt_taddr e) (nt_tport e) (n_type np) bk lb) as [l Ek];
    try done; [by rewrite Hty|]. pose proof Hr as (_ & _ & _ & R4 & _).
  split.
  - rewrite (npf_conn_lookup_live params s3 con c3 r _ now2 NPF_FLOW_BACK _ l Hi3 Hp3 Hrm Ek).
    + rewrite (check_active c3 CONN_ACTIVE di (nb_ifid (npc_nbuf r)) NPF_FLOW_BACK); [done|done| |done|].
      * unfold c3. cbn [c_flags set_ref or_flags set_flags]. by rewrite Efl.
      * right. unfold c3, c2. cbn. rewrite Ec. cbn. by rewrite Eif, R4.
    + unfold c3, c2. cbn. by rewrite Ebk.
  - unfold npf_nat_lookup. rewrite Hp3. change (npf_conn_getnat c3) with (Some nt). change (env s3) with (env s2). cbv iota.
    rewrite He, X1, R4, (wrap_small 16) by (apply (pk_ifid _ Hpk)). rewrite Z.eqb_refl. cbn [negb]. rewrite Hep, Hnp', Hty', Hty.
    pose proof (ni_refs _ _ (si_nat _ _ Hs2) p) as Hrf. rewrite Hnp' in Hrf.
    rewrite (proj2 (Z.leb_gt (n_refcnt np') 0)) by lia.
    by destruct Hdi as [-> | ->].
Qed.

(** The packet as the translation sees it: after the ALGs, parsed again. *)
Definition alg_pass (a : AS) (npc : npf_cache_t) (nt : npf_nat) (flow : npf_flow_t) : option (npf_cache_t * AS) :=
  if flag (npc_info npc) NPC_ALG_EXEC then Some (npc, a)
  else '(npc, a) ← npf_alg_exec algs a (set_info npc (npc_info npc ||| NPC_ALG_EXEC)) nt flow;
       npc ← npf_recache npc; Some (npc, a).

(** The translation of the two flows of a connection.  With an entry of a
    policy, [npf_dnat_translate] of a TCP or UDP packet (as the ALGs leave it)
    succeeds and stores, forwards, the translated address and port in the source
    (NPF_NATOUT) or destination (NPF_NATIN); backwards, the original address and
    port in the opposite field; a port of 0 leaves the one of the packet.  The
    IPv4 and the TCP or UDP checksum of a packet that had valid ones are valid. *)
Theorem npf_dnat_translate_flows a npc e np flow npc1 a1 : alg_pass a npc e flow = Some (npc1, a1) → napt_pre npc1 →
  let addr := match flow with NPF_FLOW_FORW => nt_taddr e | NPF_FLOW_BACK => nt_oaddr e end in
  let port := match flow with NPF_FLOW_FORW => nt_tport e | NPF_FLOW_BACK => nt_oport e end in
  let which := match n_type np =? NPF_NATOUT, flow with
    | true, NPF_FLOW_FORW | false, NPF_FLOW_BACK => NPF_SRC
    | _, _ => NPF_DST
    end in
  addr_wf (nwords (npc_alen npc1)) addr → inw 16 port →
  ∃ npc2, npf_dnat_translate algs a npc e np flow = Some (0, npc2, a1) ∧
    rd_words (pkt npc2) (npc_ips npc1 which) (nwords (npc_alen npc1)) = addr ∧
    rd16 (pkt npc2) (port_off npc1 which) = (if port =? 0 then rd16 (pkt npc1) (port_off npc1 which) else port) ∧
    (npf_iscached npc1 NPC_IP4 = true → rd8 (pkt npc1) (npc_ip npc1) ≠ 0 →
      cksum_verifies (ip_cksum_words npc1 (pkt npc1)) → cksum_verifies (ip_cksum_words npc1 (pkt npc2))) ∧
    (no_cksum npc1 = false →
      cksum_verifies (l4_cksum_words npc1 (pkt npc1)) → cksum_verifies (l4_cksum_words npc1 (pkt npc2))).
Proof.
  intros Hpass Hpre addr port which Haddr Hport.
  assert (alen_ok (npc_alen npc1)) as Hal by (destruct (np_l3 _ Hpre) as [(_ & -> & _)|(_ & -> & _)]; [by left|by right]).
  rewrite <- (nwords_div _ Hal) in *. pose proof Haddr as [Hlen Hws].
  exists (set_pkt npc1 (napt_p4 npc1 which addr port)).
  assert (length (napt_p4 npc1 which addr port) = length (pkt npc1)) as Hl by apply napt_p4_length.
  rewrite (pkt_set_pkt _ _ Hl). split_and!.
  - unfold npf_dnat_translate. fold (alg_pass a npc e flow). rewrite Hpass. cbn [mbind option_bind].
    assert (npf_nat_which (n_type np) flow = which) as -> by (unfold npf_nat_which, which; by destruct (n_type np =? NPF_NATOUT), flow).
    pose proof (npf_napt_rwr_bytes npc1 which addr port Hpre Hlen) as Hrw.
    destruct flow; cbn [nat_trans npf_nat_getorig]; unfold addr, port in *; by rewrite Hrw.
  - by apply napt_addr_field.
  - destruct (port =? 0) eqn:E0; bool_to_prop; [|by apply napt_port_field].
    pose proof (napt_layout npc1 which addr Hpre Hlen) as HL. destruct_ands.
    pose proof (np_ip _ Hpre). apply rd16_ext; apply (napt_frame npc1 which addr port Hpre Hlen); lia || congruence.
  - intros. by apply napt_ip_cksum.
  - intros. by apply napt_l4_cksum.
Qed.

End flow.

(** ** Witnesses *)

Definition w_est : option (option Z * w_sys * npf_cache_t) :=
  npf_conn_establish (MB := linear_mbufops) (CE := nat_conn_env no_algs true) sample_conn_params w_sys2 sample_syn_npc PFIL_OUT
    100 true true.
Definition w_est_sys : w_sys := match w_est with Some (_, s, _) => s | None => w_sys2 end.
Definition w_est_npc : npf_cache_t := match w_est with Some (_, _, n) => n | None => sample_syn_npc end.
Definition w_nat : option (Z * w_sys * npf_cache_t) :=
  nat_establish (MB := linear_mbufops) no_algs true sample_ncfg sample_nargs w_est_sys w_est_npc 1 1 PFIL_OUT.
Definition w_nat_sys : w_sys := match w_nat with Some (_, s, _) => s | None => w_est_sys end.
Definition w_nat_npc : npf_cache_t := match w_nat with Some (_, _, n) => n | None => w_est_npc end.

Lemma w_est_eq : w_est = Some (Some 1, w_est_sys, w_est_npc).
Proof.
  assert (match w_est with Some (r, _, _) => r | None => None end = Some 1) as E by (vm_compute; reflexivity).
  unfold w_est_sys, w_est_npc. destruct w_est as [[[r s] n]|]; [by rewrite E|discriminate E].
Qed.

Lemma w_nat_eq : w_nat = Some (0, w_nat_sys, w_nat_npc).
Proof.
  assert (match w_nat with Some (r, _, _) => r | None => 1 end = 0) as E by (vm_compute; reflexivity).
  unfold w_nat_sys, w_nat_npc. destruct w_nat as [[[r s] n]|]; [by rewrite E|discriminate E].
Qed.

Lemma w_sys2_inv : sys_inv (upd (λ _, 0) 1 1) w_sys2.
Proof.
  eapply (nat_reachable_inv (MB := linear_mbufops) (TB := gmap (list Z) npf_tblent) (LP := gmap (Z * Z * Z) npf_tblent) (CD := unit)
    no_algs true sample_conn_params no_algs_ok no_algs_conn (NV := nv_map) 1024 65535 tt (npf_ext_init tt)); [lia..|].
  apply rtc_l with (λ _, 0, w_sys1); [apply (ns_tracking _ _ _ (λ _, 0) w_sys0 true)|].
  apply rtc_once, (ns_create _ _ _ (λ _, 0) w_sys1 sample_natp 1). by vm_compute.
Qed.

(** The answer to the translated packet: 10.0.0.2:80 to 1.2.3.4:1031. *)
Definition w_reply : npf_cache_t :=
  mk_npc no_drop (NPC_IP4 ||| NPC_LAYER4 ||| NPC_TCP)
    (mk_nbuf [put16 (put16 (put_words sample_syn 12 [0x0200000a; 0x04030201]) 20 (htons 80)) 22 (htons 1031)] 0 0 1 0)
    12 16 4 20 IPPROTO_TCP 0 (Some 20) None.

Lemma nat_replies_witness :
  fst (npf_conn_lookup sample_conn_params (npf_conn_release w_nat_sys 1) w_reply PFIL_IN 101) = Some (1, NPF_FLOW_BACK).
Proof.
  destruct (policies (env w_sys2) !! 1) as [np|] eqn:Enp; [|by vm_compute in Enp].
  assert (match policies (env w_sys2) !! 1 with Some np => n_type np = PFIL_OUT | None => True end) as Hty by (vm_compute; reflexivity).
  rewrite Enp in Hty.
  destruct (nat_replies (MB := linear_mbufops) no_algs true sample_conn_params no_algs_ok (upd (λ _, 0) 1 1) sample_ncfg sample_nargs
    w_sys2 sample_syn_npc PFIL_OUT 100 true 1 w_est_sys w_est_npc 1 np w_nat_sys w_nat_npc w_sys2_inv)
    as (nt & e & He & _ & _ & Hr); [done|by right|done|done| | | |exact w_est_eq|exact w_nat_eq|].
  - split; [by left|done| |done]. apply bytes_ok_concrete. vm_compute. reflexivity.
  - vm_compute. reflexivity.
  - split; [by left|]. split; [apply (nc_tab _ _ _ _ _ _ w_ctx)|done].
  - assert (map_Forall (λ _ e, nt_taddr e = [0x04030201] ∧ nt_tport e = htons 1031) (nats (env w_nat_sys))) as Hall
      by (apply (bool_decide_unpack _); vm_compute; exact I).
    destruct (Hall nt e He) as [Ea Ep]. rewrite Ea, Ep in Hr. refine (proj1 (Hr _ w_reply 101 _)).
    + split; [by vm_compute|]. repeat constructor; unfold inw; lia.
    + unfold reply_to_translated. split_and!; [vm_compute; reflexivity..|].
      exists (htons 12345), (htons 80). split; [vm_compute; reflexivity|]. split; vm_compute; reflexivity.
Defined.

Definition w_entry : npf_nat := mk_nat 1 1 4 ip_192_168_1_77 ip_10_1_2_3 (htons 1234) (htons 5000) None 0 1.
Definition w_np : npf_natpolicy := mk_np [2] 2 0 NPF_NATOUT (NPF_NAT_PORTS ||| NPF_NAT_PORTMAP) 4 ip_192_168_1_77 NPF_NO_NETMASK 0 0 0 0.
Definition w_npc4 : npf_cache_t := set_info sample_npc4 (npc_info sample_npc4 ||| NPC_ALG_EXEC).

Lemma npf_dnat_translate_flows_witness :
  ∃ npc2, npf_dnat_translate (MB := linear_mbufops) no_algs tt w_npc4 w_entry w_np NPF_FLOW_FORW = Some (0, npc2, tt) ∧
    rd_words (pkt npc2) 12 1 = ip_192_168_1_77 ∧ rd16 (pkt npc2) 20 = htons 5000.
Proof.
  destruct (npf_dnat_translate_flows (MB := linear_mbufops) no_algs tt w_npc4 w_entry w_np NPF_FLOW_FORW w_npc4 tt)
    as (npc2 & E & Ha & Hp & _); [reflexivity| | | |exists npc2; by split_and!].
  - split; [apply bytes_ok_concrete; vm_compute; reflexivity|simpl; lia| |reflexivity|].
    + left. vm_compute. repeat split; try reflexivity; discriminate.
    + left. split; [reflexivity|]. vm_compute. discriminate.
  - addr_wf_concrete.
  - by unfold inw.
Defined.

End NatFlow.
