(* ===== verification/NatConfig.v ===== *)
(** * NatConfig: NAT policies through the configuration

    A policy exported by [npf_natpolicy_export] and created again by
    [npf_natpolicy_create] is the same policy; what [npf_natpolicy_cmp] compares;
    and restored translation entries. *)

From S2P Require Import Prelude Nbuf Cache Cksum Addr Rewrite Tcpopt StateTcp State IfMap ConnKey Thmap Portmap Ruleset Tableset Conn Nvlist Rproc Alg NpfNat NatRefs NatSys.
From stdpp Require Import strings.
Open Scope Z_scope.
Open Scope npf_scope.

Module NatConfig.
Export NatSys.

(** ** Addresses as bytes *)

Lemma rd_words_bytes p q n : ∀ o, 0 <= o → bytes_ok p → bytes_ok q → rd_words p o n = rd_words q o n →
  ∀ i, o <= i < o + 4 * Z.of_nat n → rd8 p i = rd8 q i.
Proof.
  induction n as [|n IH]; intros o Ho Hp Hq E i Hi; [lia|]. cbn [rd_words] in E. injection E as E0 E1.
  destruct (Z.lt_ge_cases i (o + 4)); [|apply (IH (o + 4)); (done || lia)].
  unfold rd32, rd16 in E0. replace (o + 2 + 1) with (o + 3) in E0 by lia.
  pose proof (rd8_range p o Hp). pose proof (rd8_range p (o + 1) Hp). pose proof (rd8_range p (o + 2) Hp).
  pose proof (rd8_range p (o + 3) Hp). pose proof (rd8_range q o Hq). pose proof (rd8_range q (o + 1) Hq).
  pose proof (rd8_range q (o + 2) Hq). pose proof (rd8_range q (o + 3) Hq).
  assert (i = o ∨ i = o + 1 ∨ i = o + 2 ∨ i = o + 3) as [-> |[-> |[-> | ->]]] by lia; lia.
Qed.

Lemma bytes_eq (p q : list Z) : length p = length q → (∀ i, 0 <= i < Z.of_nat (length p) → rd8 p i = rd8 q i) → p = q.
Proof.
  intros Hl Hi. apply list_eq. intros i. destruct (decide (i < length p)%nat) as [Hlt|Hge].
  - specialize (Hi (Z.of_nat i) ltac:(lia)). unfold rd8 in Hi. rewrite Nat2Z.id in Hi.
    destruct (lookup_lt_is_Some_2 p i Hlt) as [x Hx]. destruct (lookup_lt_is_Some_2 q i ltac:(lia)) as [y Hy].
    rewrite Hx, Hy in *. simpl in Hi. congruence.
  - rewrite !lookup_ge_None_2 by lia. done.
Qed.

Lemma addr_bytes_roundtrip b : bytes_ok b → (length b <= 16)%nat →
  bytes_of_addr (addr_of_bytes b) (Z.of_nat (length b)) = b.
Proof.
  intros Hb Hl. unfold bytes_of_addr, addr_of_bytes. set (p := b ++ replicate 16 0). set (a := rd_words p 0 4).
  assert (bytes_ok p) as Hp by (apply Forall_app; split; [done|]; apply Forall_replicate; unfold inw; lia).
  assert (length a = 4%nat ∧ Forall (inw 32) a) as [Hla Hwa] by (by apply rd_words_wf).
  set (q := put_words (replicate 16 0) 0 a).
  assert (length q = 16%nat) as Hlq by (unfold q; by rewrite put_words_length, length_replicate).
  assert (bytes_ok q) as Hq by (apply bytes_ok_put_words; [apply Forall_replicate; unfold inw; lia|done]).
  assert (rd_words q 0 4 = a) as Ea.
  { unfold q. rewrite <- Hla at 1. apply rd_words_put_words; [lia| |done]. rewrite Hla. unfold blen. rewrite length_replicate. lia. }
  assert (q = take 16 p) as ->.
  { apply bytes_eq; [rewrite Hlq, length_take; unfold p; rewrite length_app, length_replicate; lia|].
    intros i Hi. rewrite Hlq in Hi. rewrite (rd_words_bytes q p 4 0 ltac:(lia) Hq Hp Ea i) by lia.
    unfold rd8. rewrite lookup_take_lt by lia. done. }
  unfold p. rewrite Nat2Z.id, take_take, Nat.min_l by lia. by rewrite take_app_length.
Qed.

(** Numbers by name. *)
Fixpoint assoc (l : list (string * Z)) (m : string) : option Z :=
  match l with [] => None | (n, v) :: l => if decide (m = n) then Some v else assoc l m end.

Lemma assoc_None l m : m ∉ l.*1 → assoc l m = None.
Proof.
  induction l as [|[n v] l IH]; [done|]. cbn [assoc fmap list_fmap fst]. intros Hm. rewrite decide_False by set_solver.
  apply IH. set_solver.
Qed.

Section config.
Context {NV : Type} {NO : nvlist_ops NV} {NL : nvlist_laws NV}.

(** ** The round trip *)

Definition natp_names : list string :=
  ["nat-policy"; "type"; "flags"; "nat-table-id"; "nat-mask"; "nat-port"; "nat-algo"; "npt66-adj"]%string.

(** The rule's own list, to which the policy is exported. *)
Definition natp_fresh (nv : NV) : Prop :=
  (∀ n, n ∈ natp_names → nv_number nv n = None) ∧ dnvlist_get_binary nv "nat-addr" = None.

Lemma number_add nv n v m : nv_number nv n = None →
  nv_number (nvlist_add_number nv n v) m = if decide (m = n) then Some (u64 v) else nv_number nv m.
Proof. intros Hn. by apply (nv_add_number nv n v Hn). Qed.

Lemma number_addb nv n v m : dnvlist_get_binary nv n = None → nv_number (nvlist_add_binary nv n v) m = nv_number nv m.
Proof. intros Hn. by apply (nv_add_binary nv n v Hn). Qed.

Lemma binary_add nv n v m : nv_number nv n = None →
  dnvlist_get_binary (nvlist_add_number nv n v) m = dnvlist_get_binary nv m.
Proof. intros Hn. by apply (nv_add_number nv n v Hn). Qed.

Lemma binary_addb nv n v m : dnvlist_get_binary nv n = None →
  dnvlist_get_binary (nvlist_add_binary nv n v) m = if decide (m = n) then Some v else dnvlist_get_binary nv m.
Proof. intros Hn. by apply (nv_add_binary nv n v Hn). Qed.

(** A list of numbers added under distinct names. *)
Fixpoint add_numbers (l : list (string * Z)) (nv : NV) : NV :=
  match l with [] => nv | (n, v) :: l => add_numbers l (nvlist_add_number nv n v) end.

Lemma add_numbers_spec l : ∀ nv, NoDup l.*1 → (∀ n, n ∈ l.*1 → nv_number nv n = None) →
  (∀ m, nv_number (add_numbers l nv) m = match assoc l m with Some v => Some (u64 v) | None => nv_number nv m end) ∧
  (∀ m, dnvlist_get_binary (add_numbers l nv) m = dnvlist_get_binary nv m).
Proof.
  induction l as [|[n v] l IH]; intros nv Hd Hf; [done|]. cbn [fmap list_fmap fst] in Hd, Hf.
  apply NoDup_cons in Hd as [Hn Hd]. assert (nv_number nv n = None) as Hfn by (apply Hf; left).
  destruct (IH (nvlist_add_number nv n v) Hd) as [H1 H2].
  { intros k Hk. rewrite number_add by done. rewrite decide_False by set_solver. apply Hf. by right. }
  cbn [add_numbers assoc]. split; intros m; [|by rewrite H2, binary_add].
  rewrite H1, number_add by done. case_decide as Em; [|done]. subst m. by rewrite assoc_None.
Qed.

(** The members of an exported policy. *)
Definition natp_numbers (np : npf_natpolicy) : list (string * Z) :=
  [("nat-policy", n_id np); ("type", n_type np); ("flags", n_flags np);
   if flag (n_flags np) NPF_NAT_USETABLE then ("nat-table-id", n_tid np) else ("nat-mask", n_tmask np);
   ("nat-port", n_tport np); ("nat-algo", n_algo np)]%string ++
  (if n_algo np =? NPF_ALGO_NPT66 then [("npt66-adj"%string, n_npt66_adj np)] else []).

Lemma natpolicy_export_view np nv : natp_fresh nv →
  (∀ m, m ∈ natp_names → nv_number (npf_natpolicy_export np nv) m = (λ v, u64 v) <$> assoc (natp_numbers np) m) ∧
  dnvlist_get_binary (npf_natpolicy_export np nv) "nat-addr" =
    if flag (n_flags np) NPF_NAT_USETABLE then None else Some (bytes_of_addr (n_taddr np) (n_alen np)).
Proof.
  intros [Hf Hb].
  set (tl := if n_algo np =? NPF_ALGO_NPT66 then [("npt66-adj"%string, n_npt66_adj np)] else []).
  set (l1 := [("nat-policy", n_id np); ("type", n_type np); ("flags", n_flags np)]%string).
  set (l2 := ([(if flag (n_flags np) NPF_NAT_USETABLE then ("nat-table-id", n_tid np) else ("nat-mask", n_tmask np))%string;
              ("nat-port", n_tport np)%string; ("nat-algo", n_algo np)%string] ++ tl)).
  set (mid := λ v, if flag (n_flags np) NPF_NAT_USETABLE then v else
    nvlist_add_binary v "nat-addr" (bytes_of_addr (n_taddr np) (n_alen np))).
  assert (npf_natpolicy_export np nv = add_numbers l2 (mid (add_numbers l1 nv))) as ->.
  { unfold npf_natpolicy_export, l1, l2, mid, tl. cbn [add_numbers app].
    by destruct (flag (n_flags np) NPF_NAT_USETABLE), (n_algo np =? NPF_ALGO_NPT66). }
  assert (NoDup (l1 ++ l2).*1 ∧ (l1 ++ l2).*1 ⊆ natp_names) as [Hd Hsub].
  { unfold l1, l2, tl. destruct (flag (n_flags np) NPF_NAT_USETABLE), (n_algo np =? NPF_ALGO_NPT66); (split;
      [apply (bool_decide_unpack _); vm_compute; exact I|intros x; cbn; unfold natp_names; set_solver]). }
  rewrite fmap_app in Hd, Hsub. apply NoDup_app in Hd as (Hd1 & Hdis & Hd2).
  destruct (add_numbers_spec l1 nv Hd1) as [A1 A2]; [intros n Hn; apply Hf, Hsub; set_solver|].
  set (nv1 := add_numbers l1 nv) in *.
  assert (dnvlist_get_binary nv1 "nat-addr" = None) as Hb1 by (by rewrite A2).
  assert ((∀ m, nv_number (mid nv1) m = nv_number nv1 m) ∧ dnvlist_get_binary (mid nv1) "nat-addr" =
    if flag (n_flags np) NPF_NAT_USETABLE then None else Some (bytes_of_addr (n_taddr np) (n_alen np))) as [B1 B2].
  { unfold mid. destruct (flag (n_flags np) NPF_NAT_USETABLE); [done|].
    split; [intros m; by apply number_addb|by rewrite binary_addb, decide_True by done]. }
  destruct (add_numbers_spec l2 (mid nv1) Hd2) as [C1 C2].
  { intros n Hn. rewrite B1, A1, assoc_None by (intros ?; by apply (Hdis n)). apply Hf, Hsub. set_solver. }
  split; [|by rewrite C2]. intros m Hm. rewrite C1, B1, A1, (Hf m Hm).
  change (natp_numbers np) with (l1 ++ l2). clear - Hdis.
  assert (∀ l, assoc (l1 ++ l) m = match assoc l1 m with Some v => Some v | None => assoc l m end) as Happ.
  { intros l. unfold l1. cbn [assoc app]. by repeat case_decide. }
  rewrite Happ. destruct (assoc l2 m) as [v|] eqn:E2; [|by destruct (assoc l1 m)].
  rewrite assoc_None; [done|]. intros Hm. apply (Hdis m Hm). destruct (decide (m ∈ l2.*1)) as [|Hn]; [done|].
  by rewrite assoc_None in E2.
Qed.

(** The public flags: the private ones are cleared, and set again by the code. *)
Lemma natp_flags x : let f := u32 x &&& u32 (Z.lnot NPF_NAT_PRIVMASK) in
  inw 32 f ∧ inw 32 (f ||| NPF_NAT_USETABLE) ∧
  f &&& u32 (Z.lnot NPF_NAT_PRIVMASK) = f ∧ (f ||| NPF_NAT_USETABLE) &&& u32 (Z.lnot NPF_NAT_PRIVMASK) = f ∧
  flag f NPF_NAT_USETABLE = false ∧ flag (f ||| NPF_NAT_USETABLE) NPF_NAT_USETABLE = true.
Proof.
  intros f. assert (inw 32 f) as Hf by (apply land_inw; [lia|apply wrap_range; lia..]).
  assert (f &&& u32 (Z.lnot NPF_NAT_PRIVMASK) = f) as Hm by (unfold f; by rewrite <- Z.land_assoc, Z.land_diag).
  assert (f &&& NPF_NAT_USETABLE = 0) as H0 by (unfold f; rewrite <- Z.land_assoc; apply Z.land_0_r).
  split_and!; try done.
  - apply lor_inw; [lia|done|unfold inw; vm_compute; split; congruence].
  - rewrite Z.land_lor_distr_l, Hm. apply Z.lor_0_r.
  - unfold flag. by rewrite H0.
  - unfold flag. rewrite Z.land_lor_distr_l, H0. done.
Qed.

Lemma u64_id w v : 0 <= w <= 64 → inw w v → u64 v = v.
Proof.
  intros Hw Hv. apply wrap_small. unfold inw in *. pose proof (Z.pow_le_mono_r 2 w 64). lia.
Qed.

(** What the numbers of an exported policy read as. *)
Lemma get_number_eq nv n d : dnvlist_get_number nv n d = default d (nv_number nv n).
Proof. apply nv_number_default. Qed.

Lemma exists_number_eq nv n : nvlist_exists_number nv n = bool_decide (is_Some (nv_number nv n)).
Proof. unfold nv_number. by destruct (nvlist_exists_number nv n). Qed.

(** A policy as [natpolicy_parse] makes it. *)
Record natp_wf (np : npf_natpolicy) : Prop := {
  nw_new : n_nat_list np = [] ∧ n_refcnt np = 1;
  nw_id : inw 64 (n_id np);
  nw_type : n_type np = NPF_NATIN ∨ n_type np = NPF_NATOUT;
  nw_flags : inw 32 (n_flags np);
  nw_target : if flag (n_flags np) NPF_NAT_USETABLE then
      let f := n_flags np &&& u32 (Z.lnot NPF_NAT_PRIVMASK) in
      n_flags np = f ||| NPF_NAT_USETABLE ∧ flag f NPF_NAT_STATIC = false ∧ n_alen np = 0 ∧ n_taddr np = replicate 4 0 ∧
      n_tmask np = NPF_NO_NETMASK ∧ inw 32 (n_tid np)
    else
      n_flags np &&& u32 (Z.lnot NPF_NAT_PRIVMASK) = n_flags np ∧ inw 8 (n_tmask np) ∧ n_tid np = 0 ∧
      npf_netmask_check (n_alen np) (n_tmask np) = 0 ∧
      ∃ b, bytes_ok b ∧ (0 < length b <= 16)%nat ∧ n_alen np = Z.of_nat (length b) ∧ n_taddr np = addr_of_bytes b;
  nw_port : inw 16 (n_tport np);
  nw_algo : inw 32 (n_algo np);
  nw_aux : if n_algo np =? NPF_ALGO_NPT66 then inw 16 (n_aux np)
           else n_aux np = 0 ∧ (n_algo np = NPF_ALGO_NETMAP ∨ n_tmask np = NPF_NO_NETMASK);
}.

Lemma natpolicy_parse_wf nv np : natpolicy_parse nv = Some np →
  (∀ b, dnvlist_get_binary nv "nat-addr" = Some b → bytes_ok b) → natp_wf np.
Proof.
  intros Hp Hbytes. unfold natpolicy_parse in Hp. set (f := u32 (dnvlist_get_number nv "flags" 0) &&& _) in Hp.
  destruct (natp_flags (dnvlist_get_number nv "flags" 0)) as (F1 & F2 & F3 & F4 & F5 & F6). fold f in F1, F2, F3, F4, F5, F6. clearbody f.
  assert (inw 64 (dnvlist_get_number nv "nat-policy" 0)) as Hid by (apply nv_number_range; unfold inw; lia).
  set (ty := u32 (dnvlist_get_number nv "type" 0)) in Hp.
  destruct (negb (xorb _ _)) eqn:Exor; [done|].
  assert (ty = NPF_NATIN ∨ ty = NPF_NATOUT) as Hty.
  { apply negb_false_iff in Exor. destruct (Z.eqb_spec ty NPF_NATIN), (Z.eqb_spec ty NPF_NATOUT); auto; done. }
  clear Exor. destruct (if nvlist_exists_number _ _ then _ else _) as [[[[[fl al] ta] tm] ti]|] eqn:Et; [|done]. cbn [mbind option_bind] in Hp.
  set (algo := u32 (dnvlist_get_number nv "nat-algo" 0)) in Hp.
  destruct (if algo =? NPF_ALGO_NPT66 then _ else _) as [aux|] eqn:Ea; [|done]. injection Hp as <-.
  split; cbn [n_nat_list n_refcnt n_id n_type n_flags n_alen n_taddr n_tmask n_tport n_tid n_algo n_aux]; try done.
  - destruct (nvlist_exists_number _ _); [by destruct (flag _ _); simplify_eq|].
    destruct (dnvlist_get_binary _ _); [|done]. repeat case_match; by simplify_eq.
  - destruct (nvlist_exists_number _ _).
    + destruct (flag f NPF_NAT_STATIC) eqn:Es; simplify_eq. rewrite F6, F4. split_and!; try done. apply wrap_range. lia.
    + destruct (dnvlist_get_binary _ _) as [b|] eqn:Eb; [|done]. destruct (_ || _) eqn:El; [done|].
      apply orb_false_iff in El as [El1%Z.eqb_neq El2%Z.ltb_ge]. destruct (negb (npf_netmask_check _ _ =? 0)) eqn:Em; [done|]. simplify_eq. rewrite F5.
      apply negb_false_iff, Z.eqb_eq in Em. split_and!; try done; [apply wrap_range; lia|]. exists b. split_and!; try done; try lia.
      by apply Hbytes.
  - apply wrap_range. lia.
  - apply wrap_range. lia.
  - destruct (algo =? NPF_ALGO_NPT66) eqn:E66; [injection Ea as <-; apply wrap_range; lia|].
    destruct (Z.eqb_spec algo NPF_ALGO_NETMAP); [injection Ea as <-; auto|].
    destruct (Z.eqb_spec tm NPF_NO_NETMASK); [injection Ea as <-; auto|done].
Qed.

Lemma natpolicy_reparse np nv : natp_wf np → natp_fresh nv → natpolicy_parse (npf_natpolicy_export np nv) = Some np.
Proof.
  intros [[W1 W2] Hid Hty Hfl Htgt Hpt Hal Hau] Hf.
  destruct (natpolicy_export_view np nv Hf) as [Hview Hbin]. set (nv' := npf_natpolicy_export np nv) in *.
  assert (∀ m w v, m ∈ natp_names → assoc (natp_numbers np) m = Some v → 0 <= w <= 64 → inw w v →
    nv_number nv' m = Some v) as Hread.
  { intros m w v Hm Hv Hw Hin. rewrite Hview, Hv by done. cbn [fmap option_fmap option_map]. by rewrite (u64_id w). }
  assert (nv_number nv' "type" = Some (n_type np)) as E1.
  { apply (Hread _ 32); [set_solver|done|lia|]. unfold inw. by destruct Hty as [-> | ->]. }
  assert (nv_number nv' "flags" = Some (n_flags np)) as E2 by (by apply (Hread _ 32); [set_solver|..]).
  assert (nv_number nv' "nat-policy" = Some (n_id np)) as E3 by (by apply (Hread _ 64); [set_solver|..]).
  assert (nv_number nv' "nat-port" = Some (n_tport np)) as E4.
  { apply (Hread _ 16); [set_solver| |lia|done]. unfold natp_numbers. by destruct (flag _ _). }
  assert (nv_number nv' "nat-algo" = Some (n_algo np)) as E5.
  { apply (Hread _ 32); [set_solver| |lia|done]. unfold natp_numbers. by destruct (flag _ _). }
  assert ((n_algo np =? NPF_ALGO_NPT66) = true → nv_number nv' "npt66-adj" = Some (n_aux np)) as E6.
  { intros E. rewrite E in Hau. apply (Hread _ 16); [set_solver| |lia|done]. unfold natp_numbers, n_npt66_adj.
    rewrite E, (wrap_small 16 (n_aux np)) by done. by destruct (flag _ _). }
  assert (nv_number nv' "nat-table-id" = if flag (n_flags np) NPF_NAT_USETABLE then Some (u64 (n_tid np)) else None) as E7.
  { rewrite Hview by set_solver. unfold natp_numbers. destruct (flag _ _), (_ =? _); done. }
  assert (nv_number nv' "nat-mask" = if flag (n_flags np) NPF_NAT_USETABLE then None else Some (u64 (n_tmask np))) as E8.
  { rewrite Hview by set_solver. unfold natp_numbers. destruct (flag _ _), (_ =? _); done. }
  unfold natpolicy_parse. rewrite exists_number_eq, !get_number_eq, E1, E2, E3, E4, E5, E7, E8, Hbin. simpl default.
  rewrite (wrap_small 32 (n_type np)) by (unfold inw; by destruct Hty as [-> | ->]).
  rewrite (wrap_small 32 (n_flags np)), (wrap_small 16 (n_tport np)), (wrap_small 32 (n_algo np)) by done.
  assert (negb (xorb (n_type np =? NPF_NATIN) (n_type np =? NPF_NATOUT)) = false) as -> by (by destruct Hty as [-> | ->]).
  assert (∀ tm, (n_algo np = NPF_ALGO_NETMAP ∨ tm = NPF_NO_NETMASK) ∨ (n_algo np =? NPF_ALGO_NPT66) = true → tm = n_tmask np →
    (if n_algo np =? NPF_ALGO_NPT66 then Some (u16 (default 0 (nv_number nv' "npt66-adj")))
     else if n_algo np =? NPF_ALGO_NETMAP then Some 0 else if negb (tm =? NPF_NO_NETMASK) then None else Some 0) = Some (n_aux np)) as Haux.
  { intros tm Htm ->. destruct (n_algo np =? NPF_ALGO_NPT66) eqn:E66.
    - rewrite (E6 eq_refl). cbn. by rewrite (wrap_small 16).
    - destruct Hau as [-> Hc]. destruct Hc as [-> | ->]; [done|]. by destruct (n_algo np =? NPF_ALGO_NETMAP). }
  assert ((n_algo np = NPF_ALGO_NETMAP ∨ n_tmask np = NPF_NO_NETMASK) ∨ (n_algo np =? NPF_ALGO_NPT66) = true) as Hdis.
  { destruct (n_algo np =? NPF_ALGO_NPT66); [by right|left; apply Hau]. }
  destruct (flag (n_flags np) NPF_NAT_USETABLE) eqn:Ef; cbn [bool_decide].
  - destruct Htgt as (T1 & T2 & T3 & T4 & T5 & T6). rewrite bool_decide_true by eauto. rewrite T2.
    cbn [mbind option_bind]; simpl default. rewrite Haux by (rewrite ?T5 in *; done). cbn [mbind option_bind].
    rewrite (u64_id 32), (wrap_small 32 (n_tid np)) by (lia || done). rewrite <- T1. destruct np. cbn in *. by subst.
  - destruct Htgt as (T1 & T2 & T3 & T4 & b & B1 & B2 & B3 & B4). rewrite bool_decide_false by (by intros []).
    rewrite B4, B3, addr_bytes_roundtrip by (done || lia). simpl default. rewrite (u64_id 8), (wrap_small 8 (n_tmask np)) by (lia || done).
    rewrite (proj2 (Z.eqb_neq (Z.of_nat (length b)) 0)), (proj2 (Z.ltb_ge 16 (Z.of_nat (length b)))) by lia. cbn [orb].
    rewrite <- B3, T4. cbn [Z.eqb negb mbind option_bind]; simpl default. rewrite Haux by done. cbn [mbind option_bind].
    rewrite T1, <- B4. destruct np. cbn in *. by subst.
Qed.

(** NAT policies survive a reload.  A policy that was created from a
    configuration (whatever references and entries it has now), exported with
    its rule and created from that export again, is the policy first created:
    type, flags, address and mask or table, port, algorithm and adjustment. *)
Theorem natpolicy_roundtrip nv np l n nv0 : natpolicy_parse nv = Some np →
  (∀ b, dnvlist_get_binary nv "nat-addr" = Some b → bytes_ok b) → natp_fresh nv0 →
  natpolicy_parse (npf_natpolicy_export (set_list l n np) nv0) = Some np.
Proof.
  intros Hp Hbytes Hf. change (npf_natpolicy_export (set_list l n np) nv0) with (npf_natpolicy_export np nv0).
  by apply natpolicy_reparse; [apply (natpolicy_parse_wf nv)|].
Qed.

End config.

(** ** Witnesses and cases *)

Lemma natpolicy_roundtrip_witness : ∃ np, natpolicy_parse sample_natp = Some np ∧
  natpolicy_parse (npf_natpolicy_export (set_list [2] 2 np) (nvlist_create (NV := nv_map))) = Some np.
Proof.
  destruct (natpolicy_parse sample_natp) as [np|] eqn:E; [|by vm_compute in E]. exists np. split; [done|].
  apply (natpolicy_roundtrip sample_natp np [2] 2 (nvlist_create (NV := nv_map)) E).
  - intros b. assert (dnvlist_get_binary sample_natp "nat-addr" = Some [1; 2; 3; 4]) as -> by (vm_compute; reflexivity).
    intros [= <-]. apply bytes_ok_concrete. vm_compute. reflexivity.
  - split; [|done]. intros n _. done.
Defined.

(** A round-robin policy over table 0. *)
Definition sample_rr : nv_map :=
  nvlist_add_number (nvlist_add_number (nvlist_add_number nvlist_create "type" NPF_NATOUT) "nat-table-id" 0)
    "nat-algo" NPF_ALGO_RR.

(** [npf_natpolicy_cmp] compares the whole structure after [n_type], the
    round-robin index included: once the policy has selected an address, the
    policy of the same configuration is another one, and a reload does not keep
    the translation entries. *)
Theorem npf_natpolicy_cmp_rr :
  match natpolicy_parse sample_rr with
  | Some np => natpolicy_eq np np = true ∧
      match npf_nat_getaddr sample_syn_npc np 4 {[1 := ipset_table]} [Some 1] with
      | inl (_, np') => natpolicy_eq np' np = false
      | inr _ => False
      end
  | None => False
  end.
Proof. vm_compute. done. Qed.

(** A restored entry: the entry of [w_sys3], which has the port 1031 of 1.2.3.4,
    exported and imported into a state with the same policy. *)
Definition w_saved : nv_map := npf_nat_export (λ (_ : unit) _, "eth0"%string) tt (env w_sys3) 2.
Definition w_import : option (option Z * w_env * unit) :=
  npf_nat_import true (λ (_ : unit) _, (1, tt)) true (λ _ _, Some 1) tt (env w_sys2) w_saved 1.

(** [npf_nat_import] never sets [nt_alen]: the port is taken for the address of
    length 0, so that it stays free for the translation address and is handed
    out to the next connection. *)
Theorem npf_nat_import_port_unreserved :
  match w_import with
  | Some (Some id, E, _) =>
      (match nats E !! id with Some e => nt_alen e = 0 ∧ nt_tport e = htons 1031 | None => False end) ∧
      pm_used (portmap E) [0x04030201] 1031 = false ∧ pm_used (portmap E) [] 1031 = true ∧
      match npf_portmap_get true (λ _, true) 7 (portmap E) 4 [0x04030201] with
      | Some (port, _) => port = htons 1031
      | None => False
      end
  | _ => False
  end.
Proof. vm_compute. done. Qed.

End NatConfig.
