(* ===== verification/Libnpf.v ===== *)
(** * Libnpf: building a configuration (src/libnpf/npf.c)

    Rules, tables, rule procedures and NAT policies are name/value lists; the
    configuration collects them and [npf_config_build] flattens the nested
    rules into one array with skip-to marks, the form that the kernel loads.
    An array element is a copy: [npf_rule_insert] frees the rule it inserts.
    The ioctl calls that carry the lists to the kernel are not modelled; the
    requests that they carry are. *)

From S2P Require Import Prelude NpfVar Nbuf Addr Cache Rewrite Tcpopt StateTcp Thmap ConnKey Tableset Bpf NpfBpf BpfComp IfMap Ruleset Nvlist Conn Rproc Alg NpfNat.
From stdpp Require Import strings.
Open Scope Z_scope.
Open Scope npf_scope.

Module Libnpf.
Export NpfNat NpfVar BpfComp Nvlist.

Definition NPF_VERSION : Z := 22.
Definition NPF_CODE_BPF : Z := 1.
Definition NPF_ITER_BEGIN : Z := 0.
Definition NPF_RULESET_MAP_PREF : string := "map:".
Definition NPF_CMD_RULE_ADD : Z := 1.
Definition NPF_CMD_RULE_REMOVE : Z := 3.
Definition NPF_CMD_RULE_REMKEY : Z := 4.
Definition NPF_CMD_RULE_LIST : Z := 5.
Definition NPF_CMD_RULE_FLUSH : Z := 6.
Definition NCF_REDUCE_LEN : nat := 16.

Section lib.
Context {NV : Type} `{NO : nvlist_ops NV} {NA : nvlist_array_ops NV}.

(** The configuration; the temporary rule list exists while it is built, and
    the iterator over rules keeps the levels that are open. *)
Record nl_config := mk_ncf {
  ncf_dict : NV;
  ncf_rule_list : list NV;
  ncf_reduce : list Z;
  ncf_nlevel : Z;
}.

Definition set_dict (ncf : nl_config) (d : NV) : nl_config := mk_ncf d (ncf_rule_list ncf) (ncf_reduce ncf) (ncf_nlevel ncf).

(** ** Helpers *)

Definition _npf_add_addr (nvl : NV) (name : string) (af : Z) (addr : npf_addr_t) : option NV :=
  if af =? AF_INET then Some (nvlist_add_binary nvl name (NpfNat.bytes_of_addr addr 4))
  else if af =? AF_INET6 then Some (nvlist_add_binary nvl name (NpfNat.bytes_of_addr addr 16))
  else None.

Definition has_name (key name : string) (item : NV) : bool :=
  match dnvlist_get_string item key with Some n => bool_decide (n = name) | None => false end.

Definition _npf_dataset_lookup (dict : NV) (dataset key name : string) : bool :=
  match nvlist_get_nvlist_array dict dataset with
  | None => false
  | Some items => existsb (has_name key name) items
  end.

Definition _npf_dataset_getelement (dict : NV) (dataset : string) (i : Z) : option NV :=
  items ← nvlist_get_nvlist_array dict dataset; items !! Z.to_nat i.

(** ** Rules *)

Definition npf_rule_create (name : option string) (attr : Z) (ifname : option string) : NV :=
  let rl := nvlist_add_number nvlist_create "attr" attr in
  let rl := match name with Some n => nvlist_add_string rl "name" n | None => rl end in
  match ifname with Some n => nvlist_add_string rl "ifname" n | None => rl end.

Definition npf_rule_setcode (rl : NV) (type : Z) (code : list Z) : Z * NV :=
  if negb (type =? NPF_CODE_BPF) then (ENOTSUP, rl)
  else (0, nvlist_add_binary (nvlist_add_number rl "code-type" type) "code" code).

Definition npf_rule_setkey (rl : NV) (key : list Z) : NV := nvlist_add_binary rl "key" key.
Definition npf_rule_setinfo (rl : NV) (info : list Z) : NV := nvlist_add_binary rl "info" info.
Definition npf_rule_setprio (rl : NV) (pri : Z) : NV := nvlist_add_number rl "prio" (u64 pri).
Definition npf_rule_setproc (rl : NV) (name : string) : NV := nvlist_add_string rl "rproc" name.

Definition npf_rule_getattr (rl : NV) : Z := u32 (dnvlist_get_number rl "attr" 0).

Definition npf_rule_exists_p (ncf : nl_config) (name : string) : bool :=
  let key := match nvlist_get_nvlist_array (ncf_dict ncf) "rules" with Some _ => "rules"%string | None => "__rules"%string end in
  _npf_dataset_lookup (ncf_dict ncf) key "name" name.

(** The parent is another rule or the configuration. *)
Definition npf_rule_insert_sub (parent rl : NV) : NV := nvlist_append_nvlist_array parent "subrules" rl.
Definition npf_rule_insert_top (ncf : nl_config) (rl : NV) : nl_config :=
  set_dict ncf (nvlist_append_nvlist_array (ncf_dict ncf) "__rules" rl).

(** The items of one level, with [rec] for the sub-rules. *)
Fixpoint rules_loop (rec : list NV → NV → string → option (list NV * NV)) (items : list NV) (l : list NV) : option (list NV) :=
  match items with
  | [] => Some l
  | rule_dict :: items =>
      let i := length l in
      let l := l ++ [rule_dict] in
      match nvlist_get_nvlist_array rule_dict "subrules" with
      | None => rules_loop rec items l
      | Some _ =>
          '(l, rule_dict) ← rec l rule_dict "subrules"%string;
          let idx := Z.of_nat (length l) in
          rules_loop rec items (<[i := nvlist_add_number rule_dict "skip-to" idx]> l)
      end
  end.

(** The rule list and the list whose array was taken; the fuel bounds the
    nesting. *)
Fixpoint _npf_rules_process (fuel : nat) (l : list NV) (dict : NV) (key : string) : option (list NV * NV) :=
  match nvlist_get_nvlist_array dict key with
  | None => Some (l, dict)
  | Some items =>
      match fuel with
      | O => None
      | S fuel => l ← rules_loop (_npf_rules_process fuel) items l; Some (l, nvlist_take_nvlist_array dict key)
      end
  end.

(** ** Configurations *)

Definition npf_config_create : nl_config :=
  mk_ncf (nvlist_add_number nvlist_create "version" NPF_VERSION) [] (replicate NCF_REDUCE_LEN 0) 0.

Definition npf_config_build (fuel : nat) (ncf : nl_config) : option nl_config :=
  '(l, dict) ← _npf_rules_process fuel (ncf_rule_list ncf) (ncf_dict ncf) "__rules";
  match l with
  | [] => Some (mk_ncf dict l (ncf_reduce ncf) (ncf_nlevel ncf))
  | _ => Some (mk_ncf (nvlist_move_nvlist_array dict "rules" l) [] (ncf_reduce ncf) (ncf_nlevel ncf))
  end.

(** The request to flush. *)
Definition npf_config_flush : option nl_config :=
  npf_config_build 0 (set_dict npf_config_create (nvlist_add_bool (ncf_dict npf_config_create) "flush" true)).

Definition npf_config_active_p (ncf : nl_config) : bool := dnvlist_get_bool (ncf_dict ncf) "active" false.
Definition npf_config_loaded_p (ncf : nl_config) : bool := bool_decide (is_Some (nvlist_get_nvlist_array (ncf_dict ncf) "rules")).

(** *** Iteration over the flat rules *)

(** The next rule and its level, the iterator and the configuration. *)
Definition _npf_rule_iterate1 (ncf : nl_config) (key : string) (iter : Z) : comp (option (NV * Z) * Z * nl_config) :=
  let i := iter in
  let '(red, nl) := if i =? 0 then (<[0%nat := 0]> (ncf_reduce ncf), 0) else (ncf_reduce ncf, ncf_nlevel ncf) in
  match _npf_dataset_getelement (ncf_dict ncf) key i with
  | None => inl (None, NPF_ITER_BEGIN, mk_ncf (ncf_dict ncf) (ncf_rule_list ncf) red nl)
  | Some rule_dict =>
      let level := nl in
      let skipto := u32 (dnvlist_get_number rule_dict "skip-to" 0) in
      let! (red, nl) :=
        (if negb (skipto =? 0) then
           let nl := nl + 1 in
           if nl <? Z.of_nat (length red) then inl (<[Z.to_nat nl := skipto]> red, nl) else inr E_segv
         else inl (red, nl)) in
      let! nl := (if default 0 (red !! Z.to_nat nl) =? i + 1
                  then let! _ := assert (0 <? nl) in inl (nl - 1) else inl nl) in
      inl (Some (rule_dict, level), i + 1, mk_ncf (ncf_dict ncf) (ncf_rule_list ncf) red nl)
  end.

Definition npf_rule_iterate (ncf : nl_config) (iter : Z) : comp (option (NV * Z) * Z * nl_config) :=
  _npf_rule_iterate1 ncf "rules" iter.

(** ** Rule procedures *)

Definition npf_ext_construct (name : string) : NV := nvlist_add_string nvlist_create "name" name.

Definition npf_rproc_create (name : string) : NV := nvlist_add_string nvlist_create "name" name.

(** A comparison with a missing name would be one with [NULL]. *)
Definition npf_rproc_extcall (rp ext : NV) : comp (Z * NV) :=
  let calls := default [] (nvlist_get_nvlist_array rp "extcalls") in
  match dnvlist_get_string ext "name" with
  | Some name =>
      if _npf_dataset_lookup rp "extcalls" "name" name then inl (EEXIST, rp)
      else inl (0, nvlist_append_nvlist_array rp "extcalls" ext)
  | None =>
      if existsb (λ c, bool_decide (is_Some (dnvlist_get_string c "name"))) calls then inr E_segv
      else inl (0, nvlist_append_nvlist_array rp "extcalls" ext)
  end.

Definition npf_rproc_exists_p (ncf : nl_config) (name : string) : bool :=
  _npf_dataset_lookup (ncf_dict ncf) "rprocs" "name" name.

Definition npf_rproc_insert (ncf : nl_config) (rp : NV) : Z * nl_config :=
  match dnvlist_get_string rp "name" with
  | None => (EINVAL, ncf)
  | Some name =>
      if npf_rproc_exists_p ncf name then (EEXIST, ncf)
      else (0, set_dict ncf (nvlist_append_nvlist_array (ncf_dict ncf) "rprocs" rp))
  end.

Definition npf_alg_load (ncf : nl_config) (name : string) : Z * nl_config :=
  if _npf_dataset_lookup (ncf_dict ncf) "algs" "name" name then (EEXIST, ncf)
  else (0, set_dict ncf (nvlist_append_nvlist_array (ncf_dict ncf) "algs" (nvlist_add_string nvlist_create "name" name))).

(** ** NAT policies *)

Definition npf_nat_create (type flags : Z) (ifname : option string) : NV :=
  let attr := NPF_RULE_PASS ||| NPF_RULE_FINAL ||| (if type =? NPF_NATOUT then NPF_RULE_OUT else NPF_RULE_IN) in
  let rl := npf_rule_create None attr ifname in
  nvlist_add_bool (nvlist_add_number (nvlist_add_number rl "type" type) "flags" flags) "nat-rule" true.

Definition npf_nat_insert (ncf : nl_config) (nt : NV) : nl_config :=
  set_dict ncf (nvlist_append_nvlist_array (ncf_dict ncf) "nat" nt).

Definition npf_nat_setaddr (nt : NV) (af : Z) (addr : npf_addr_t) (mask : Z) : NV :=
  match _npf_add_addr nt "nat-addr" af addr with
  | None => nt
  | Some nt => nvlist_add_number nt "nat-mask" mask
  end.

Definition npf_nat_setport (nt : NV) (port : Z) : NV := nvlist_add_number nt "nat-port" port.
Definition npf_nat_settable (nt : NV) (tid : Z) : NV := nvlist_add_number nt "nat-table-id" tid.
Definition npf_nat_setalgo (nt : NV) (algo : Z) : NV := nvlist_add_number nt "nat-algo" algo.
Definition npf_nat_setnpt66 (nt : NV) (adj : Z) : NV :=
  nvlist_add_number (npf_nat_setalgo nt NPF_ALGO_NPT66) "npt66-adj" adj.

Definition npf_nat_iterate (ncf : nl_config) (iter : Z) : comp (option (NV * Z) * Z * nl_config) :=
  _npf_rule_iterate1 ncf "nat" iter.

(** ** Tables *)

Definition npf_table_create (name : string) (id type : Z) : NV :=
  nvlist_add_number (nvlist_add_number (nvlist_add_string nvlist_create "name" name) "id" id) "type" (u64 type).

Definition npf_table_add_entry (tl : NV) (af : Z) (addr : npf_addr_t) (mask : Z) : Z * NV :=
  match _npf_add_addr nvlist_create "addr" af addr with
  | None => (EINVAL, tl)
  | Some entry => (0, nvlist_append_nvlist_array tl "entries" (nvlist_add_number entry "mask" mask))
  end.

(** The constant database is made from the entries and written to a file of
    [len] bytes, by [cdbw_put] and [cdbw_output]; [garbage] is the content of
    the buffer from [malloc]: the database is mapped and unmapped, but never
    copied to it. *)
Definition _npf_table_build_const (garbage : Z → list Z) (cdbw_output : list (list Z) → Z + Z) (tl : NV) : Z * NV :=
  if negb (dnvlist_get_number tl "type" 0 =? NPF_TABLE_CONST) then (0, tl) else
  match nvlist_get_nvlist_array tl "entries" with
  | None => (0, tl)
  | Some entries =>
      match mapM (λ entry, addr ← dnvlist_get_binary entry "addr";
                           if (length addr =? 0)%nat || (16 <? length addr)%nat then None else Some addr) entries with
      | None => (EINVAL, tl)
      | Some addrs =>
          match cdbw_output addrs with
          | inr error => (error, tl)
          | inl len => (0, nvlist_add_binary tl "data" (garbage len))
          end
      end
  end.

Definition npf_table_insert (garbage : Z → list Z) (cdbw_output : list (list Z) → Z + Z) (ncf : nl_config) (tl : NV) : Z * nl_config :=
  match dnvlist_get_string tl "name" with
  | None => (EINVAL, ncf)
  | Some name =>
      if _npf_dataset_lookup (ncf_dict ncf) "tables" "name" name then (EEXIST, ncf) else
      let '(error, tl) := _npf_table_build_const garbage cdbw_output tl in
      if negb (error =? 0) then (error, ncf)
      else (0, set_dict ncf (nvlist_append_nvlist_array (ncf_dict ncf) "tables" tl))
  end.

(** The table and the iterator. *)
Definition npf_table_iterate (ncf : nl_config) (iter : Z) : option NV * Z :=
  match _npf_dataset_getelement (ncf_dict ncf) "tables" iter with
  | None => (None, NPF_ITER_BEGIN)
  | Some t => (Some t, iter + 1)
  end.

Definition npf_table_getid (tl : NV) : Z := u32 (dnvlist_get_number tl "id" (2 ^ 32 - 1)).
Definition npf_table_getname (tl : NV) : option string := dnvlist_get_string tl "name".

(** ** Requests for dynamic rules *)

Definition _npf_nat_ruleset_p (name : string) : bool := bool_decide (String.substring 0 4 name = NPF_RULESET_MAP_PREF).

Definition rule_req (rname : string) (cmd : Z) (req : NV) : NV :=
  nvlist_add_number (nvlist_add_bool (nvlist_add_string req "ruleset-name" rname) "nat-ruleset" (_npf_nat_ruleset_p rname)) "command" cmd.

(** The request, or the error. *)
Definition npf_ruleset_add (rname : string) (rl : NV) : Z + NV :=
  let attr := dnvlist_get_number rl "attr" 0 in
  let rl := nvlist_add_number (nvlist_take_number rl "attr") "attr" (NPF_RULE_DYNAMIC ||| attr) in
  if _npf_nat_ruleset_p rname && negb (dnvlist_get_bool rl "nat-rule" false) then inl EINVAL
  else inr (rule_req rname NPF_CMD_RULE_ADD rl).

Definition npf_ruleset_remove (rname : string) (id : Z) : NV :=
  nvlist_add_number (rule_req rname NPF_CMD_RULE_REMOVE nvlist_create) "id" id.
Definition npf_ruleset_remkey (rname : string) (key : list Z) : NV :=
  nvlist_add_binary (rule_req rname NPF_CMD_RULE_REMKEY nvlist_create) "key" key.
Definition npf_ruleset_flush (rname : string) : NV := rule_req rname NPF_CMD_RULE_FLUSH nvlist_create.
Definition _npf_ruleset_list (rname : string) : NV := rule_req rname NPF_CMD_RULE_LIST nvlist_create.

End lib.

(** ** The flat form of nested rules *)

Section flat.
Context {NV : Type} `{NL : nvlist_laws NV} {NA : nvlist_array_ops NV} {AL : nvlist_array_laws NV}.

(** Nested rules: a rule, its sub-rules and the rules after it. *)
Inductive rforest := RNil | RNode (nv : NV) (body rest : rforest).

Fixpoint roots (f : rforest) : list NV := match f with RNil => [] | RNode nv _ r => nv :: roots r end.
Fixpoint rsize (f : rforest) : nat := match f with RNil => 0 | RNode _ b r => S (rsize b + rsize r) end.
Fixpoint rdepth (f : rforest) : nat :=
  match f with RNil => 0 | RNode _ b r => max (match b with RNil => 0 | _ => S (rdepth b) end) (rdepth r) end.

Definition subrules (f : rforest) : option (list NV) := match f with RNil => None | _ => Some (roots f) end.

(** The lists hold their sub-rules. *)
Fixpoint nested (f : rforest) : Prop :=
  match f with
  | RNil => True
  | RNode nv b r => nvlist_get_nvlist_array nv "subrules" = subrules b ∧ nested b ∧ nested r
  end.

(** The rules in order, from slot [n] on: a rule with sub-rules gets the slot
    behind them to skip to. *)
Definition flat_rule (n : nat) (nv : NV) (b : rforest) : NV :=
  match b with
  | RNil => nv
  | _ => nvlist_add_number (nvlist_take_nvlist_array nv "subrules") "skip-to" (Z.of_nat (n + 1 + rsize b))
  end.
Fixpoint flat (n : nat) (f : rforest) : list NV :=
  match f with
  | RNil => []
  | RNode nv b r => flat_rule n nv b :: flat (n + 1) b ++ flat (n + 1 + rsize b) r
  end.

Lemma flat_length f : ∀ n, length (flat n f) = rsize f.
Proof. induction f as [|nv b IHb r IHr]; intros n; [done|]. cbn. rewrite length_app, IHb, IHr. done. Qed.

Lemma rules_loop_flat fuel : ∀ f l, nested f → (rdepth f <= fuel)%nat →
  rules_loop (_npf_rules_process fuel) (roots f) l = Some (l ++ flat (length l) f).
Proof.
  induction fuel as [|fuel IHfuel]; intros f; induction f as [|nv b _ r IH]; intros l Hf Hd; try (cbn; by rewrite app_nil_r).
  - destruct Hf as (Hs & _ & Hr). cbn [rdepth] in Hd. destruct b as [|nvb bb br]; [|lia].
    cbn [roots rules_loop subrules] in *. rewrite Hs, IH by (done || lia). rewrite <- app_assoc. cbn. by rewrite length_app, Nat.add_0_r.
  - destruct Hf as (Hs & Hb & Hr). cbn [rdepth] in Hd. cbn [roots rules_loop]. rewrite Hs.
    destruct b as [|nvb bb br]; cbn [subrules].
    + rewrite IH by (done || lia). rewrite <- app_assoc. cbn. by rewrite length_app, Nat.add_0_r.
    + cbn [_npf_rules_process]. rewrite Hs. cbn [subrules].
      set (b := RNode nvb bb br) in *. rewrite IHfuel by (done || lia). cbn [mbind option_bind].
      rewrite IH by (done || lia). f_equal. rewrite length_insert, !length_app, flat_length. cbn [length].
      rewrite <- (app_assoc l), insert_app_r_alt, Nat.sub_diag by lia. cbn [app list_insert insert].
      rewrite <- app_assoc. cbn [flat flat_rule]. done.
Qed.

Lemma npf_config_build_flat fuel ncf f : ncf_rule_list ncf = [] → nvlist_get_nvlist_array (ncf_dict ncf) "__rules" = subrules f →
  nvlist_get_nvlist_array (ncf_dict ncf) "rules" = None → nested f → (rdepth f < fuel)%nat →
  ∃ ncf', npf_config_build fuel ncf = Some ncf' ∧ ncf_rule_list ncf' = [] ∧
    nvlist_get_nvlist_array (ncf_dict ncf') "__rules" = None ∧
    nvlist_get_nvlist_array (ncf_dict ncf') "rules" = (match f with RNil => None | _ => Some (flat 0 f) end) ∧
    same_scalars (ncf_dict ncf) (ncf_dict ncf') ∧
    (∀ m, m ≠ "rules"%string → m ≠ "__rules"%string →
       nvlist_get_nvlist_array (ncf_dict ncf') m = nvlist_get_nvlist_array (ncf_dict ncf) m).
Proof.
  intros Hl Ha Hr Hf Hd. unfold npf_config_build. rewrite Hl. destruct fuel as [|fuel]; [lia|]. cbn [_npf_rules_process]. rewrite Ha.
  destruct f as [|nv b r]; cbn [subrules]; [by eexists|]. set (f := RNode nv b r) in *.
  rewrite rules_loop_flat by (done || lia). cbn [mbind option_bind app length].
  destruct (flat 0 f) as [|x l'] eqn:Ef; [done|]. rewrite <- Ef.
  destruct (nv_take_array (ncf_dict ncf) "__rules") as (T1 & T2 & _).
  destruct (nv_move_array (nvlist_take_nvlist_array (ncf_dict ncf) "__rules") "rules" (flat 0 f)) as (M1 & M2 & _).
  { by rewrite T2, decide_False. }
  eexists. split; [done|]. cbn [ncf_rule_list ncf_dict]. split_and!; [done| | | |].
  - by rewrite M2, decide_False, T2, decide_True.
  - by rewrite M2, decide_True.
  - intros m. destruct (T1 m) as (<- & <- & <-). apply M1.
  - intros m Hm1 Hm2. by rewrite M2, decide_False, T2, decide_False by done.
Qed.

(** ** The fields of a rule *)

Record rfields := mk_rf {
  rf_attr : option Z;
  rf_prio : option Z;
  rf_ctype : option Z;
  rf_skip : option Z;
  rf_name : option string;
  rf_ifname : option string;
  rf_rproc : option string;
  rf_code : option (list Z);
  rf_info : option (list Z);
  rf_key : option (list Z);
}.

Definition no_fields : rfields := mk_rf None None None None None None None None None None.

(** What the kernel reads of a rule. *)
Record rule_nv (nv : NV) (F : rfields) : Prop := {
  rn_attr : nv_number nv "attr" = rf_attr F;
  rn_prio : nv_number nv "prio" = rf_prio F;
  rn_ctype : nv_number nv "code-type" = rf_ctype F;
  rn_skip : nv_number nv "skip-to" = rf_skip F;
  rn_name : dnvlist_get_string nv "name" = rf_name F;
  rn_ifname : dnvlist_get_string nv "ifname" = rf_ifname F;
  rn_rproc : dnvlist_get_string nv "rproc" = rf_rproc F;
  rn_code : dnvlist_get_binary nv "code" = rf_code F;
  rn_info : dnvlist_get_binary nv "info" = rf_info F;
  rn_key : dnvlist_get_binary nv "key" = rf_key F;
}.

End flat.

Arguments rforest : clear implicits.

(** Reads of a list to which one member was added. *)
Ltac nv_reads :=
  split; cbn [rf_attr rf_prio rf_ctype rf_skip rf_name rf_ifname rf_rproc rf_code rf_info rf_key];
  repeat match goal with E : ∀ m : string, _ = _ |- _ => rewrite E end;
  repeat first [rewrite decide_True by done|rewrite decide_False by done]; try done; try assumption.

Section fields.
Context {NV : Type} `{NL : nvlist_laws NV} {NA : nvlist_array_ops NV} {AL : nvlist_array_laws NV}.
Implicit Types (nv : NV).

Lemma rule_nv_create : rule_nv nvlist_create no_fields.
Proof. split; apply nv_create_empty. Qed.

Lemma same_rule_nv nv nv' F : same_scalars nv nv' → rule_nv nv F → rule_nv nv' F.
Proof. intros Hs []. split; match goal with |- context [?n] => match type of n with string => destruct (Hs n) as (E1 & E2 & E3) end end; congruence. Qed.

Lemma rule_nv_attr nv F v : rule_nv nv F → rf_attr F = None →
  rule_nv (nvlist_add_number nv "attr" v)
    (mk_rf (Some (u64 v)) (rf_prio F) (rf_ctype F) (rf_skip F) (rf_name F) (rf_ifname F) (rf_rproc F) (rf_code F) (rf_info F) (rf_key F)).
Proof. intros [] H0. destruct (nv_add_number nv "attr" v) as (E1 & E2 & E3); [congruence|]. nv_reads. Qed.

Lemma rule_nv_prio nv F v : rule_nv nv F → rf_prio F = None →
  rule_nv (nvlist_add_number nv "prio" v)
    (mk_rf (rf_attr F) (Some (u64 v)) (rf_ctype F) (rf_skip F) (rf_name F) (rf_ifname F) (rf_rproc F) (rf_code F) (rf_info F) (rf_key F)).
Proof. intros [] H0. destruct (nv_add_number nv "prio" v) as (E1 & E2 & E3); [congruence|]. nv_reads. Qed.

Lemma rule_nv_skip nv F v : rule_nv nv F → rf_skip F = None →
  rule_nv (nvlist_add_number nv "skip-to" v)
    (mk_rf (rf_attr F) (rf_prio F) (rf_ctype F) (Some (u64 v)) (rf_name F) (rf_ifname F) (rf_rproc F) (rf_code F) (rf_info F) (rf_key F)).
Proof. intros [] H0. destruct (nv_add_number nv "skip-to" v) as (E1 & E2 & E3); [congruence|]. nv_reads. Qed.

Lemma rule_nv_ctype nv F v : rule_nv nv F → rf_ctype F = None →
  rule_nv (nvlist_add_number nv "code-type" v)
    (mk_rf (rf_attr F) (rf_prio F) (Some (u64 v)) (rf_skip F) (rf_name F) (rf_ifname F) (rf_rproc F) (rf_code F) (rf_info F) (rf_key F)).
Proof. intros [] H0. destruct (nv_add_number nv "code-type" v) as (E1 & E2 & E3); [congruence|]. nv_reads. Qed.

Lemma rule_nv_name nv F v : rule_nv nv F → rf_name F = None →
  rule_nv (nvlist_add_string nv "name" v)
    (mk_rf (rf_attr F) (rf_prio F) (rf_ctype F) (rf_skip F) (Some v) (rf_ifname F) (rf_rproc F) (rf_code F) (rf_info F) (rf_key F)).
Proof. intros [] H0. destruct (nv_add_string nv "name" v) as (E1 & E2 & E3); [congruence|]. nv_reads. Qed.

Lemma rule_nv_ifname nv F v : rule_nv nv F → rf_ifname F = None →
  rule_nv (nvlist_add_string nv "ifname" v)
    (mk_rf (rf_attr F) (rf_prio F) (rf_ctype F) (rf_skip F) (rf_name F) (Some v) (rf_rproc F) (rf_code F) (rf_info F) (rf_key F)).
Proof. intros [] H0. destruct (nv_add_string nv "ifname" v) as (E1 & E2 & E3); [congruence|]. nv_reads. Qed.

Lemma rule_nv_rproc nv F v : rule_nv nv F → rf_rproc F = None →
  rule_nv (nvlist_add_string nv "rproc" v)
    (mk_rf (rf_attr F) (rf_prio F) (rf_ctype F) (rf_skip F) (rf_name F) (rf_ifname F) (Some v) (rf_code F) (rf_info F) (rf_key F)).
Proof. intros [] H0. destruct (nv_add_string nv "rproc" v) as (E1 & E2 & E3); [congruence|]. nv_reads. Qed.

Lemma rule_nv_code nv F v : rule_nv nv F → rf_code F = None →
  rule_nv (nvlist_add_binary nv "code" v)
    (mk_rf (rf_attr F) (rf_prio F) (rf_ctype F) (rf_skip F) (rf_name F) (rf_ifname F) (rf_rproc F) (Some v) (rf_info F) (rf_key F)).
Proof. intros [] H0. destruct (nv_add_binary nv "code" v) as (E1 & E2 & E3); [congruence|]. nv_reads. Qed.

Lemma rule_nv_info nv F v : rule_nv nv F → rf_info F = None →
  rule_nv (nvlist_add_binary nv "info" v)
    (mk_rf (rf_attr F) (rf_prio F) (rf_ctype F) (rf_skip F) (rf_name F) (rf_ifname F) (rf_rproc F) (rf_code F) (Some v) (rf_key F)).
Proof. intros [] H0. destruct (nv_add_binary nv "info" v) as (E1 & E2 & E3); [congruence|]. nv_reads. Qed.

End fields.

(** ** Limits *)

(** The levels that the iterator reports. *)
Fixpoint iter_levels (n : nat) (ncf : nl_config (NV := nv_tree)) (iter : Z) : comp (list Z) :=
  match n with
  | O => inl []
  | S n =>
      let! (r, iter, ncf) := npf_rule_iterate ncf iter in
      match r with
      | None => inl []
      | Some (_, level) => let! l := iter_levels n ncf iter in inl (level :: l)
      end
  end.

Definition plain (attr : Z) : nv_tree := npf_rule_create None attr None.

(** A rule in two nested groups that end together, and a rule after them: the
    iterator leaves only one level, and reports level 1 for the last rule. *)
Theorem rule_iterate_levels :
  let inner := npf_rule_insert_sub (plain NPF_RULE_GROUP) (plain NPF_RULE_PASS) in
  let outer := npf_rule_insert_sub (plain NPF_RULE_GROUP) inner in
  let ncf := npf_rule_insert_top (npf_rule_insert_top npf_config_create outer) (plain NPF_RULE_PASS) in
  (c ← npf_config_build 3 ncf; Some (iter_levels 5 c NPF_ITER_BEGIN)) = Some (inl [0; 1; 2; 1]).
Proof. vm_compute. reflexivity. Qed.

(** The data of a constant table is what the allocated buffer happened to
    hold; the entries stay in the list next to it. *)
Theorem table_build_const_data garbage cdbw_output len (tl : nv_tree) entries addrs :
  dnvlist_get_number tl "type" 0 = NPF_TABLE_CONST → nvlist_get_nvlist_array tl "entries" = Some entries → dnvlist_get_binary tl "data" = None →
  mapM (λ entry, addr ← dnvlist_get_binary entry "addr";
          if (length addr =? 0)%nat || (16 <? length addr)%nat then None else Some addr) entries = Some addrs →
  cdbw_output addrs = inl len →
  ∃ tl', _npf_table_build_const garbage cdbw_output tl = (0, tl') ∧ dnvlist_get_binary tl' "data" = Some (garbage len) ∧
    nvlist_get_nvlist_array tl' "entries" = Some entries.
Proof.
  intros Ht He Hd Hm Hc. unfold _npf_table_build_const. rewrite Ht, He, Hm, Hc. eexists. split; [done|].
  destruct (nv_add_binary tl "data" (garbage len) Hd) as (_ & _ & E). split; [by rewrite E, decide_True|].
  by rewrite (proj1 (nv_add_binary_others tl "data" (garbage len) Hd)).
Qed.

End Libnpf.
