(* ===== verification/NpfCtl.v ===== *)
(** * NpfCtl: loading a configuration (src/kern/npf_ctl.c)

    The kernel reads rules, NAT policies, tables and rule procedures from the
    name/value lists of the control interface ([npf_mk_*]).  Rules and their
    byte-code are heap objects; interfaces are registered by name.  What rules
    use of rule procedures and NAT policies is the class [load_env], over the
    class [rule_env] of [Ruleset].  The error texts of the response are not
    modelled. *)

From S2P Require Import Prelude Nbuf Addr Cache Rewrite Tcpopt StateTcp Thmap ConnKey Tableset Bpf NpfBpf IfMap Ruleset Nvlist NpfVar BpfComp Conn Rproc Alg NpfNat Libnpf.
From stdpp Require Import strings.
Open Scope Z_scope.
Open Scope npf_scope.

Module NpfCtl.
Export NpfBpf Ruleset Nvlist.
Export Libnpf (NPF_CODE_BPF, NPF_VERSION, rfields, rule_nv).

Definition E2BIG : Z := 7.

Definition NPF_MAX_RULES : Z := 1024 * 1024.
Definition NPF_MAX_TABLES : Z := 128.
Definition NPF_MAX_RPROCS : Z := 128.

(** ** Byte-code as binary data: [struct bpf_insn] *)

Definition bytes_of_insn (p : bpf_insn) : list Z :=
  let k := i_k p in
  [i_code p mod 256; i_code p / 256; i_jt p; i_jf p; k mod 256; k / 2 ^ 8 mod 256; k / 2 ^ 16 mod 256; k / 2 ^ 24].

Definition bytes_of_insns (l : list bpf_insn) : list Z := concat (bytes_of_insn <$> l).

Fixpoint insns_at (n : nat) (b : list Z) : list bpf_insn :=
  match n with
  | O => []
  | S n => mk_insn (rd16 b 0) (rd8 b 2) (rd8 b 3) (rd32 b 4) :: insns_at n (drop 8 b)
  end.

(** [len / sizeof(struct bpf_insn)] instructions. *)
Definition insns_of_bytes (b : list Z) : list bpf_insn := insns_at (length b / 8) b.

Lemma insns_of_bytes_of_insns l : Forall insn_wf l → insns_of_bytes (bytes_of_insns l) = l.
Proof.
  intros Hl. assert (length (bytes_of_insns l) = (length l * 8)%nat) as Hn.
  { clear. unfold bytes_of_insns. induction l as [|p l IH]; [done|]. cbn [fmap list_fmap concat]. rewrite length_app, IH. reflexivity. }
  unfold insns_of_bytes. rewrite Hn, Nat.div_mul by done. clear Hn. induction Hl as [|[c jt jf k] l (Hc & _ & _ & Hk) _ IH]; [done|].
  unfold bytes_of_insns. cbn [length fmap list_fmap concat insns_at]. fold (bytes_of_insns l).
  unfold inw in Hc, Hk. cbn [i_code i_jt i_jf i_k] in *. unfold bytes_of_insn. cbn [i_code i_jt i_jf i_k]. f_equal; [|exact IH].
  f_equal.
  - change (c mod 256 + 256 * (c / 256) = c). pose proof (Z.div_mod c 256 ltac:(lia)). lia.
  - change (k mod 256 + 256 * (k / 256 mod 256) + 65536 * (k / 2 ^ 16 mod 256 + 256 * (k / 2 ^ 24)) = k).
    replace (k / 2 ^ 16) with (k / 256 / 256) by (rewrite Z.div_div by lia; done).
    replace (k / 2 ^ 24) with (k / 256 / 256 / 256) by (rewrite !Z.div_div by lia; done).
    pose proof (Z.div_mod k 256 ltac:(lia)). pose proof (Z.div_mod (k / 256) 256 ltac:(lia)).
    pose proof (Z.div_mod (k / 256 / 256) 256 ltac:(lia)). lia.
Qed.

(** What loading uses of rule procedures and NAT policies. *)
Class load_env (X NV : Type) := {
  rproc_lookup : X → list Z → string → option Z;
  natpolicy_create : X → NV → option Z * X;
}.

Section ctl.
Context {X NV IW ifnet : Type} {RE : rule_env X} {LE : load_env X NV} {IO : npf_ifops_t IW ifnet}.
Context `{NO : nvlist_ops NV} {NA : nvlist_array_ops NV}.

Record ctl := mk_ctl {
  c_rules : rheap;
  c_next : Z;
  c_codes : gmap Z (list Z);
  c_ncode : Z;
  c_ifmap : ifmap_t;
  c_ifw : IW;
  c_x : X;
}.

Definition set_rules (c : ctl) (H : rheap) : ctl := mk_ctl H (c_next c) (c_codes c) (c_ncode c) (c_ifmap c) (c_ifw c) (c_x c).
Definition set_env (c : ctl) (x : X) : ctl := mk_ctl (c_rules c) (c_next c) (c_codes c) (c_ncode c) (c_ifmap c) (c_ifw c) x.

(** ** Rules *)

Definition rule_of_nv (rule : NV) (ifid : Z) : npf_rule :=
  let attr := u32 (dnvlist_get_number rule "attr" 0) &&& u32 (Z.lnot NPF_RULE_PRIVMASK) in
  let dyn := NPF_DYNAMIC_RULE_P attr in
  mk_rule attr ifid
    (if dyn then 0 else u32 (dnvlist_get_number rule "skip-to" 0)) None None None None
    (if dyn then s32 (dnvlist_get_number rule "prio" 0) else 0) None None 0
    (match dnvlist_get_string rule "name" with Some n => IfMap.strlcpy n NPF_RULE_MAXNAMELEN | None => ""%string end)
    (take NPF_RULE_MAXKEYLEN (default [] (dnvlist_get_binary rule "key") ++ replicate NPF_RULE_MAXKEYLEN 0))
    (dnvlist_get_binary rule "info").

Definition npf_rule_alloc (c : ctl) (rule : NV) : option Z * ctl :=
  let '(id, m, w) := match dnvlist_get_string rule "ifname" with
                     | Some n => npf_ifmap_register (c_ifmap c) (c_ifw c) n
                     | None => (0, c_ifmap c, c_ifw c)
                     end in
  let c := mk_ctl (c_rules c) (c_next c) (c_codes c) (c_ncode c) m w (c_x c) in
  if bool_decide (is_Some (dnvlist_get_string rule "ifname")) && (id =? 0) then (None, c) else
  match dnvlist_get_binary rule "key" with
  | Some key => if (NPF_RULE_MAXKEYLEN <? length key)%nat then (None, c)
                else (Some (c_next c), mk_ctl (<[c_next c := rule_of_nv rule id]> (c_rules c)) (c_next c + 1) (c_codes c) (c_ncode c) m w (c_x c))
  | None => (Some (c_next c), mk_ctl (<[c_next c := rule_of_nv rule id]> (c_rules c)) (c_next c + 1) (c_codes c) (c_ncode c) m w (c_x c))
  end.

(** The rule with its byte-code, rule procedure and NAT policy. *)
Definition rule_free (c : ctl) (rl : Z) : ctl :=
  let '(H, x) := npf_rule_free (c_rules c) (c_x c) rl in
  let codes := match c_rules c !! rl with
               | Some r => match r_code r with Some p => delete p (c_codes c) | None => c_codes c end
               | None => c_codes c
               end in
  mk_ctl H (c_next c) codes (c_ncode c) (c_ifmap c) (c_ifw c) x.

(** Assign a copy of the code. *)
Definition npf_rule_setcode (c : ctl) (rl : Z) (code : list Z) : ctl :=
  mk_ctl (alter (set_code (Some (c_ncode c))) rl (c_rules c)) (c_next c) (<[c_ncode c := code]> (c_codes c)) (c_ncode c + 1)
    (c_ifmap c) (c_ifw c) (c_x c).

(** The validator looks at the code alone ([npf_bpf_validate_npc]). *)
Definition code_valid (code : list Z) : bool := npf_bpf_validate no_tables [] flat_syn_npc (insns_of_bytes code).

(** A rule, or an error. *)
Definition npf_mk_singlerule (c : ctl) (req : NV) (rpset : option (list Z)) : (Z + Z) * ctl :=
  match npf_rule_alloc c req with
  | (None, c) => (inr EINVAL, c)
  | (Some rl, c) =>
      let rproc :=
        match dnvlist_get_string req "rproc", rpset with
        | None, _ => Some c
        | Some _, None => None
        | Some n, Some set =>
            match rproc_lookup (c_x c) set n, c_rules c !! rl with
            | Some rp, Some r =>
                let '(r, x) := npf_rule_setrproc r (c_x c) rp in Some (set_env (set_rules c (<[rl := r]> (c_rules c))) x)
            | _, _ => None
            end
        end in
      match rproc with
      | None => (inr EINVAL, rule_free c rl)
      | Some c =>
          match dnvlist_get_binary req "code" with
          | None => (inl rl, c)
          | Some code =>
              let type := s32 (dnvlist_get_number req "code-type" (2 ^ 64 - 1)) in
              if negb (type =? NPF_CODE_BPF) then (inr ENOTSUP, rule_free c rl)
              else if (length code =? 0)%nat then (inr EINVAL, rule_free c rl)
              else if negb (code_valid code) then (inr EINVAL, rule_free c rl)
              else (inl rl, npf_rule_setcode c rl code)
          end
      end
  end.

Fixpoint mk_rules_loop (rules : list NV) (rpset : option (list Z)) (c : ctl) (rs : npf_ruleset) : Z * npf_ruleset * ctl :=
  match rules with
  | [] => (0, rs, c)
  | rule :: rules =>
      match npf_mk_singlerule c rule rpset with
      | (inr error, c) => (error, rs, c)
      | (inl rl, c) =>
          let dup := match dnvlist_get_string rule "name" with
                     | Some name => bool_decide (is_Some (npf_ruleset_lookup (c_rules c) rs name))
                     | None => false
                     end in
          if dup then (EEXIST, rs, rule_free c rl) else
          let '(H, rs) := npf_ruleset_insert (c_rules c) rs rl in
          mk_rules_loop rules rpset (set_rules c H) rs
      end
  end.

(** The error, the ruleset of the new configuration (if it was created). *)
Definition npf_mk_rules (c : ctl) (req : NV) (rpset : option (list Z)) : Z * option npf_ruleset * ctl :=
  let rules := default [] (nvlist_get_nvlist_array req "rules") in
  if NPF_MAX_RULES <? Z.of_nat (length rules) then (E2BIG, None, c) else
  let '(error, rs, c) := mk_rules_loop rules rpset c (npf_ruleset_create (Z.of_nat (length rules))) in
  (error, Some rs, c).

End ctl.

Arguments ctl : clear implicits.

(** ** What is loaded *)

Section loaded.
Context {X NV IW ifnet : Type} {RE : rule_env X} {LE : load_env X NV} {IO : npf_ifops_t IW ifnet}.
Context `{NL : nvlist_laws NV} {NA : nvlist_array_ops NV}.
Implicit Types (c : ctl X IW).

Definition attr_of (F : rfields) : Z := u32 (default 0 (Libnpf.rf_attr F)) &&& u32 (Z.lnot NPF_RULE_PRIVMASK).
Definition skip_of (F : rfields) : Z := if NPF_DYNAMIC_RULE_P (attr_of F) then 0 else u32 (default 0 (Libnpf.rf_skip F)).

(** The rule for the fields, in a state that is at least [c]. *)
Record rule_for (c : ctl X IW) (F : rfields) (r : npf_rule) : Prop := {
  rr_subset : r_subset r = None;
  rr_ifid : match Libnpf.rf_ifname F with
            | None => r_ifid r = 0
            | Some n => r_ifid r ≠ 0 ∧ npf_ifmap_lookup (c_ifmap c) n = r_ifid r
            end;
  rr_code : match Libnpf.rf_code F with
            | None => r_code r = None
            | Some b => code_valid b = true ∧ ∃ p, r_code r = Some p ∧ p < c_ncode c ∧ c_codes c !! p = Some b
            end;
}.

(** Later states keep what is loaded. *)
Record extends (c c' : ctl X IW) : Prop := {
  ex_next : c_next c <= c_next c';
  ex_rules : ∀ p, p < c_next c → c_rules c' !! p = c_rules c !! p;
  ex_ncode : c_ncode c <= c_ncode c';
  ex_codes : ∀ p, p < c_ncode c → c_codes c' !! p = c_codes c !! p;
  ex_ifmap : ∀ n, npf_ifmap_lookup (c_ifmap c) n ≠ 0 → npf_ifmap_lookup (c_ifmap c') n = npf_ifmap_lookup (c_ifmap c) n;
}.

Lemma extends_refl c : extends c c.
Proof. split; (lia || done). Qed.

Lemma extends_trans c1 c2 c3 : extends c1 c2 → extends c2 c3 → extends c1 c3.
Proof.
  intros [] []. split; try lia.
  - intros p Hp. rewrite ex_rules1 by lia. by apply ex_rules0.
  - intros p Hp. rewrite ex_codes1 by lia. by apply ex_codes0.
  - intros n Hn. rewrite ex_ifmap1; rewrite ex_ifmap0; done.
Qed.

Lemma rule_for_extends c c' F r : extends c c' → rule_for c F r → rule_for c' F r.
Proof.
  intros [] [H1 H2 H3]. split; [done| |].
  - destruct (Libnpf.rf_ifname F) as [n|]; [|done]. destruct H2 as [Hn H2]. split; [done|]. rewrite ex_ifmap0; congruence.
  - destruct (Libnpf.rf_code F) as [b|]; [|done]. destruct H3 as (Hv & p & Hp & Hlt & Hc). split; [done|]. exists p.
    split_and!; [done|lia|]. by rewrite ex_codes0.
Qed.

Definition ctl_ok (c : ctl X IW) : Prop := ifmap_wf (c_ifmap c).
Definition names_fit (F : rfields) : Prop := match Libnpf.rf_ifname F with Some n => (String.length n < IFNAMSIZ)%nat | None => True end.

Lemma npf_rule_alloc_spec c nv F rl c' : rule_nv nv F → ctl_ok c → names_fit F → npf_rule_alloc c nv = (Some rl, c') →
  ∃ r, rl = c_next c ∧ c_rules c' = <[rl := r]> (c_rules c) ∧ c_next c' = rl + 1 ∧ c_ncode c' = c_ncode c ∧ c_codes c' = c_codes c ∧
    c_x c' = c_x c ∧ ctl_ok c' ∧ extends c c' ∧
    r_attr r = attr_of F ∧ r_skip_to r = skip_of F ∧ r_code r = None ∧ r_subset r = None ∧
    match Libnpf.rf_ifname F with
    | None => r_ifid r = 0
    | Some n => r_ifid r ≠ 0 ∧ npf_ifmap_lookup (c_ifmap c') n = r_ifid r
    end.
Proof.
  intros [] Hc Hn Ha. unfold npf_rule_alloc in Ha. rewrite rn_ifname in Ha.
  set (reg := match Libnpf.rf_ifname F with Some n => _ | None => _ end) in Ha.
  destruct reg as [[id m] w] eqn:Er.
  assert (bool_decide (is_Some (Libnpf.rf_ifname F)) && (id =? 0) = false) as E0 by (by destruct (_ && _)).
  rewrite E0 in Ha.
  assert (ifmap_wf m ∧ (∀ n, npf_ifmap_lookup (c_ifmap c) n ≠ 0 → npf_ifmap_lookup m n = npf_ifmap_lookup (c_ifmap c) n) ∧
    match Libnpf.rf_ifname F with None => id = 0 | Some n => id ≠ 0 ∧ npf_ifmap_lookup m n = id end) as (Hm & Hold & Hid).
  { unfold reg, names_fit in *. destruct (Libnpf.rf_ifname F) as [n|]; [|by injection Er as <- <- <-].
    assert (id ≠ 0) as Hid by (by apply Z.eqb_neq). destruct (npf_ifmap_register_spec _ _ _ _ _ _ Hc Hn Er Hid) as (? & ? & _ & ?). done. }
  exists (rule_of_nv nv id).
  assert (rl = c_next c ∧ c' = mk_ctl (<[c_next c := rule_of_nv nv id]> (c_rules c)) (c_next c + 1) (c_codes c) (c_ncode c) m w (c_x c)) as [-> ->].
  { destruct (dnvlist_get_binary nv "key") as [k|]; [destruct (_ <? _)%nat; [done|]|]; by injection Ha as <- <-. }
  split_and!; try done.
  - split; cbn; try lia; try done. intros p Hp. by rewrite lookup_insert_ne by lia.
  - unfold rule_of_nv, attr_of. cbn [r_attr]. by rewrite nv_number_default, rn_attr.
  - unfold rule_of_nv, skip_of, attr_of. cbn [r_skip_to]. by rewrite !nv_number_default, rn_attr, rn_skip.
Qed.

Lemma npf_mk_singlerule_spec c nv F rpset rl c' : rule_nv nv F → ctl_ok c → names_fit F →
  npf_mk_singlerule c nv rpset = (inl rl, c') →
  ∃ r, rl = c_next c ∧ c_rules c' = <[rl := r]> (c_rules c) ∧ c_next c' = rl + 1 ∧ ctl_ok c' ∧ extends c c' ∧
    r_attr r = attr_of F ∧ r_skip_to r = skip_of F ∧ rule_for c' F r.
Proof.
  intros Hnv Hc Hn Hm. unfold npf_mk_singlerule in Hm. destruct (npf_rule_alloc c nv) as [[rl0|] c0] eqn:Ea; [|done].
  destruct (npf_rule_alloc_spec c nv F rl0 c0 Hnv Hc Hn Ea) as (r & -> & Hr & Hnx & Hnc & Hcd & Hx & Hok & Hext & A1 & A2 & A3 & A4 & A5).
  set (rp := match dnvlist_get_string nv "rproc" with Some _ => _ | None => _ end) in Hm.
  destruct rp as [c1|] eqn:Erp; [|done].
  assert (∃ r1, c_rules c1 = <[c_next c := r1]> (c_rules c) ∧ c_next c1 = c_next c0 ∧ c_ncode c1 = c_ncode c0 ∧ c_codes c1 = c_codes c0 ∧
    c_ifmap c1 = c_ifmap c0 ∧ r_attr r1 = r_attr r ∧ r_skip_to r1 = r_skip_to r ∧ r_code r1 = None ∧ r_subset r1 = None ∧ r_ifid r1 = r_ifid r)
    as (r1 & B1 & B2 & B3 & B4 & B5 & B6 & B7 & B8 & B9 & B10).
  { unfold rp in Erp. destruct (dnvlist_get_string nv "rproc") as [n|]; [|injection Erp as <-; by exists r].
    destruct rpset as [set|]; [|done]. destruct (rproc_lookup _ _ _) as [q|]; [|done]. rewrite Hr, lookup_insert_eq in Erp.
    unfold npf_rule_setrproc in Erp. injection Erp as <-. exists (set_rproc (Some q) r). cbn. by rewrite insert_insert_eq. }
  clear Erp. clearbody rp. destruct Hext as [X1 X2 X3 X4 X5].
  rewrite (Libnpf.rn_code nv F Hnv) in Hm. destruct (Libnpf.rf_code F) as [b|] eqn:Eb.
  - destruct (negb _); [done|]. destruct (_ =? 0)%nat; [done|]. destruct (code_valid b) eqn:Ev; cbn [negb] in Hm; [|done].
    injection Hm as <- <-. exists (set_code (Some (c_ncode c1)) r1). cbn [npf_rule_setcode c_rules c_next]. rewrite B1, alter_insert_eq.
    split_and!; try (unfold ctl_ok in *; cbn; congruence).
    + split; cbn; rewrite ?B2, ?B3, ?B4, ?B5; try lia; try done.
      * intros p Hp. rewrite B1, alter_insert_eq. by rewrite lookup_insert_ne by lia.
      * intros p Hp. rewrite lookup_insert_ne by lia. by apply X4.
    + split; [done| |].
      * cbn. rewrite B10, B5. by destruct (Libnpf.rf_ifname F).
      * rewrite Eb. split; [done|]. exists (c_ncode c1). cbn. split_and!; [done|lia|by rewrite lookup_insert_eq].
  - injection Hm as <- <-. exists r1. split_and!; try (unfold ctl_ok in *; congruence).
    + split; rewrite ?B2, ?B3, ?B4, ?B5; try lia; try done. intros p Hp. rewrite B1. by rewrite lookup_insert_ne by lia.
    + split; [done| |by rewrite Eb]. rewrite B10, B5. by destruct (Libnpf.rf_ifname F).
Qed.

(** The slot that a rule at slot [n] skips to. *)
Definition slot_after (n : nat) (F : rfields) : Z := if skip_of F <? Z.of_nat n + 1 then Z.of_nat n + 1 else skip_of F.

(** The rule at slot [n] of a ruleset. *)
Record slot_for (c : ctl X IW) (n : nat) (F : rfields) (r : npf_rule) : Prop := {
  sf_rule : rule_for c F r;
  sf_attr : r_attr r = (if NPF_DYNAMIC_GROUP_P (attr_of F) then attr_of F else attr_of F &&& u32 (Z.lnot NPF_RULE_DYNAMIC));
  sf_skip : r_skip_to r &&& SKIPTO_MASK = slot_after n F;
}.

Lemma slot_for_extends c c' n F r : extends c c' → slot_for c n F r → slot_for c' n F r.
Proof. intros He []. split; [by eapply rule_for_extends|done..]. Qed.

Lemma npf_ruleset_insert_slot c rs rl r F RH rs' : c_rules c !! rl = Some r → rule_for c F r → r_attr r = attr_of F → r_skip_to r = skip_of F →
  Z.of_nat (length (rs_rules rs)) < 2 ^ 31 - 1 → skip_of F < 2 ^ 31 →
  npf_ruleset_insert (c_rules c) rs rl = (RH, rs') →
  ∃ r', RH = <[rl := r']> (c_rules c) ∧ slot_for c (length (rs_rules rs)) F r' ∧ rs_rules rs' = rs_rules rs ++ [rl].
Proof.
  intros Hr Hf Ha Hs Hlen Hsk Hi. unfold npf_ruleset_insert in Hi. rewrite Hr in Hi.
  set (n := Z.of_nat (List.length (rs_rules rs))) in *. set (r1 := if NPF_DYNAMIC_GROUP_P (r_attr r) then r else _) in Hi.
  set (r2 := if r_skip_to (set_id _ r1) <? _ then _ else _) in Hi. injection Hi as <- <-. exists r2. split; [done|]. split; [|done].
  assert (r_skip_to r1 = r_skip_to r ∧ r_subset r1 = r_subset r ∧ r_ifid r1 = r_ifid r ∧ r_code r1 = r_code r) as (E1 & E2 & E3 & E4)
    by (unfold r1; by case_if).
  assert (r_subset r2 = r_subset r ∧ r_ifid r2 = r_ifid r ∧ r_code r2 = r_code r ∧ r_attr r2 = r_attr r1) as (G1 & G2 & G3 & G4)
    by (unfold r2; case_if; cbn; by rewrite ?E2, ?E3, ?E4).
  split.
  - destruct Hf as [F1 F2 F3]. split; rewrite ?G1, ?G2, ?G3; done.
  - rewrite G4. unfold r1. rewrite Ha. by destruct (NPF_DYNAMIC_GROUP_P (attr_of F)).
  - unfold r2, slot_after. cbn [set_id r_skip_to]. rewrite E1, Hs. fold n.
    assert (0 <= skip_of F) by (unfold skip_of; case_if; [lia|by apply wrap_range]).
    case_if; cbn [set_skip_to set_id r_skip_to].
    + apply lor_skip. lia.
    + rewrite E1, Hs. change SKIPTO_MASK with (2 ^ 31 - 1). rewrite land_ones_mod, Z.mod_small by lia. done.
Qed.

(** The whole list. *)
Lemma mk_rules_loop_spec nvs Fs rpset : Forall2 rule_nv nvs Fs → Forall names_fit Fs → Forall (λ F, skip_of F < 2 ^ 31) Fs →
  ∀ c rs rs' c', ctl_ok c → Z.of_nat (length (rs_rules rs) + length nvs) < 2 ^ 31 - 1 →
  mk_rules_loop nvs rpset c rs = (0, rs', c') →
  ctl_ok c' ∧ extends c c' ∧ rs_rules rs' = rs_rules rs ++ seqZ (c_next c) (Z.of_nat (length nvs)) ∧
  ∀ i F, Fs !! i = Some F → ∃ r, c_rules c' !! (c_next c + Z.of_nat i) = Some r ∧ slot_for c' (length (rs_rules rs) + i) F r.
Proof.
  induction 1 as [|nv F nvs Fs Hnv _ IH]; intros Hfit Hsk c rs rs' c' Hc Hlen Hl.
  { injection Hl as <- <-. split_and!; [done|apply extends_refl|by rewrite app_nil_r|done]. }
  apply Forall_cons in Hfit as [Hf1 Hf2], Hsk as [Hs1 Hs2]. cbn [length mk_rules_loop] in Hl, Hlen.
  destruct (npf_mk_singlerule c nv rpset) as [[rl|e] c1] eqn:E1.
  2:{ exfalso. injection Hl as -> <- <-. clear -E1. unfold npf_mk_singlerule in E1. repeat case_match; simplify_eq. }
  destruct (npf_mk_singlerule_spec c nv F rpset rl c1 Hnv Hc Hf1 E1) as (r & -> & Hr & Hnx & Hok & Hext & Ha & Hs & Hrf).
  destruct (match dnvlist_get_string nv "name" with Some _ => _ | None => _ end); [done|].
  destruct (npf_ruleset_insert (c_rules c1) rs (c_next c)) as [RH rs1] eqn:Ei.
  destruct (npf_ruleset_insert_slot c1 rs (c_next c) r F RH rs1) as (r' & -> & Hslot & Hrs1); try done; [by rewrite Hr, lookup_insert_eq|lia|].
  set (c2 := set_rules c1 _) in Hl.
  assert (extends c c2) as He2.
  { destruct Hext. split; try done. intros p Hp. cbn. rewrite Hr, insert_insert_eq. by rewrite lookup_insert_ne by lia. }
  assert (slot_for c2 (length (rs_rules rs)) F r') as Hslot2 by (destruct Hslot as [[] ? ?]; split; [split|..]; done).
  destruct (IH Hf2 Hs2 c2 rs1 rs' c' Hok) as (Q1 & Q2 & Q3 & Q4); [|exact Hl|].
  { rewrite Hrs1, length_app. cbn [length]. lia. }
  assert (c_next c2 = c_next c + 1) as Enx by (cbn; lia).
  split_and!; [done|by eapply extends_trans| |].
  - rewrite Q3, Hrs1, Enx, <- app_assoc. f_equal. cbn [length]. rewrite (seqZ_cons (c_next c)) by lia. cbn. f_equal. f_equal; lia.
  - intros [|i] F0 HF; cbn in HF.
    + injection HF as <-. exists r'. rewrite !Nat.add_0_r, Z.add_0_r. split; [|by eapply slot_for_extends].
      destruct Q2 as [_ -> _ _ _]; [|cbn; lia]. cbn. by rewrite lookup_insert_eq.
    + destruct (Q4 i F0 HF) as (r0 & Hr0 & Hsl). exists r0. rewrite Hrs1, length_app in Hsl. cbn [length] in Hsl.
      replace (length (rs_rules rs) + S i)%nat with (length (rs_rules rs) + 1 + i)%nat by lia. split; [|done].
      rewrite <- Hr0, Enx. f_equal. lia.
Qed.

End loaded.

End NpfCtl.
