(* ===== verification/CtlSave.v ===== *)
(** * CtlSave: saving the rules (src/kern/npf_ruleset.c)

    The export of rules to name/value lists ([npf_rule_export]), of the static
    rules of a ruleset ([npf_ruleset_export]) and of the rules of a dynamic
    group ([npf_ruleset_list]), and what loading makes of it: the rules that a
    saved configuration loads are the rules that were saved. *)

From S2P Require Import Prelude Nbuf Addr Cache Rewrite Thmap ConnKey Tableset Bpf NpfBpf IfMap Ruleset Nvlist NpfVar BpfComp Conn Rproc Alg NpfNat Libnpf NpfCtl.
From stdpp Require Import strings.
Open Scope Z_scope.
Open Scope npf_scope.

Module CtlSave.
Export NpfCtl Nvlist IfMap Ruleset.

(** What saving uses of rule procedures and NAT policies. *)
Class save_env (X NV : Type) := {
  rproc_getname : X → Z → string;
  natpolicy_export : X → Z → NV → NV;
}.

Section save.
Context {X NV IW ifnet : Type} {RE : rule_env X} {LE : load_env X NV} {SE : save_env X NV} {IO : npf_ifops_t IW ifnet}.
Context `{NO : nvlist_ops NV} {NA : nvlist_array_ops NV}.
Implicit Types (c : ctl X IW).

(** The member [r_priority]: in a dynamic group it shares its place with the
    pointer to the first rule. *)
Definition priority_member (r : npf_rule) : Z :=
  if NPF_DYNAMIC_GROUP_P (r_attr r) then match r_subset r with Some p => s32 p | None => 0 end else r_priority r.

(** [r_type] is set with the code. *)
Definition r_type (r : npf_rule) : Z := match r_code r with Some _ => NPF_CODE_BPF | None => 0 end.

Definition npf_rule_export (c : ctl X IW) (r : npf_rule) : NV * ctl X IW :=
  let rule := nvlist_add_number nvlist_create "attr" (r_attr r) in
  let rule := nvlist_add_number rule "prio" (u64 (priority_member r)) in
  let skip_to := if r_skip_to r &&& SKIPTO_ADJ_FLAG =? 0 then r_skip_to r &&& SKIPTO_MASK else 0 in
  let rule := nvlist_add_number rule "skip-to" skip_to in
  let rule := nvlist_add_number rule "code-type" (r_type r) in
  let rule := match r_code r with
              | Some p => nvlist_add_binary rule "code" (default [] (c_codes c !! p))
              | None => rule
              end in
  let rule := if negb (r_ifid r =? 0) then nvlist_add_string rule "ifname" (npf_ifmap_copyname (c_ifmap c) (r_ifid r)) else rule in
  let rule := nvlist_add_number rule "id" (r_id r) in
  let rule := if negb (String.eqb (r_name r) "") then nvlist_add_string rule "name" (r_name r) else rule in
  let rule := if NPF_DYNAMIC_RULE_P (r_attr r) then nvlist_add_binary rule "key" (r_key r) else rule in
  let rule := match r_info r with Some info => nvlist_add_binary rule "info" info | None => rule end in
  match npf_rule_getrproc r (c_x c) with
  | (Some rp, x) => (nvlist_add_string rule "rproc" (rproc_getname x rp), set_env c (rproc_release x rp))
  | (None, x) => (rule, set_env c x)
  end.

(** [None] where a slot has no rule. *)
Fixpoint ruleset_export_loop (rules : list Z) (key : string) (c : ctl X IW) (npf_nv : NV) : option (NV * ctl X IW) :=
  match rules with
  | [] => Some (npf_nv, c)
  | rl :: rules =>
      r ← c_rules c !! rl;
      let '(rule, c) := npf_rule_export c r in
      let rule := match r_natp r with Some natp => natpolicy_export (c_x c) natp rule | None => rule end in
      ruleset_export_loop rules key c (nvlist_append_nvlist_array npf_nv key rule)
  end.

Definition npf_ruleset_export (c : ctl X IW) (rs : npf_ruleset) (key : string) (npf_nv : NV) : option (NV * ctl X IW) :=
  ruleset_export_loop (rs_rules rs) key c npf_nv.

(** The rules of the group that [it] starts. *)
Fixpoint list_loop (fuel : nat) (it : option Z) (c : ctl X IW) (nvl : NV) : option (NV * ctl X IW) :=
  match fuel, it with
  | _, None => Some (nvl, c)
  | O, _ => None
  | S fuel, Some p =>
      r ← c_rules c !! p;
      let '(rule, c) := npf_rule_export c r in
      list_loop fuel (r_next r) c (nvlist_append_nvlist_array nvl "rules" rule)
  end.

Definition npf_ruleset_list (c : ctl X IW) (rs : npf_ruleset) (rname : string) (nvl : NV) : option (Z * NV * ctl X IW) :=
  match npf_ruleset_lookup (c_rules c) rs rname with
  | None => Some (ESRCH, nvl, c)
  | Some rg =>
      g ← c_rules c !! rg;
      '(nvl, c) ← list_loop (list_fuel (c_rules c)) (r_subset g) c nvl;
      Some (0, nvl, c)
  end.

End save.



(** ** Loading what was saved *)

Section saved.
Context {X NV IW ifnet : Type} {RE : rule_env X} {LE : load_env X NV} {SE : save_env X NV} {IO : npf_ifops_t IW ifnet}.
Context `{NL : nvlist_laws NV} {NA : nvlist_array_ops NV} {AL : nvlist_array_laws NV}.
Implicit Types (c : ctl X IW) (nv : NV).

(** A static rule at slot [n], as loading makes it. *)
Record static_ok c (n : nat) (r : npf_rule) : Prop := {
  so_attr : r_attr r &&& u32 (Z.lnot NPF_RULE_PRIVMASK) = r_attr r ∧ inw 32 (r_attr r) ∧ NPF_DYNAMIC_RULE_P (r_attr r) = false ∧
    (NPF_DYNAMIC_GROUP_P (r_attr r) = false → r_attr r &&& u32 (Z.lnot NPF_RULE_DYNAMIC) = r_attr r);
  so_skip : r_skip_to r = SKIPTO_ADJ_FLAG ||| (Z.of_nat n + 1) ∨ Z.of_nat n + 1 <= r_skip_to r < 2 ^ 31;
  so_none : r_subset r = None ∧ r_natp r = None ∧ r_rproc r = None;
  so_name : (String.length (r_name r) < NPF_RULE_MAXNAMELEN)%nat;
  so_if : r_ifid r = 0 ∨ ∃ name, (String.length name < IFNAMSIZ)%nat ∧ r_ifid r = npf_ifmap_lookup (c_ifmap c) name ∧ r_ifid r ≠ 0;
  so_code : r_code r = None ∨ ∃ p b, r_code r = Some p ∧ c_codes c !! p = Some b ∧ p < c_ncode c ∧ b ≠ [] ∧ code_valid b = true;
}.

Definition nonempty (name : string) : option string := if String.eqb name "" then None else Some name.

(** What is read of a saved rule. *)
Definition saved_fields c (r : npf_rule) : rfields :=
  Libnpf.mk_rf (Some (u64 (r_attr r))) (Some (u64 (u64 (priority_member r)))) (Some (u64 (r_type r)))
    (Some (u64 (if r_skip_to r &&& SKIPTO_ADJ_FLAG =? 0 then r_skip_to r &&& SKIPTO_MASK else 0)))
    (nonempty (r_name r)) (if r_ifid r =? 0 then None else Some (npf_ifmap_copyname (c_ifmap c) (r_ifid r))) None
    ((λ p, default [] (c_codes c !! p)) <$> r_code r) (r_info r) None.

(** Reads of "id" are not affected by the other members. *)
Lemma add_number_id nv n v : n ≠ "id" → nv_number nv n = None → nv_number nv "id" = None → nv_number (nvlist_add_number nv n v) "id" = None.
Proof. intros Hn H1 H2. destruct (nv_add_number nv n v H1) as (-> & _). by rewrite decide_False by congruence. Qed.
Lemma add_string_id nv n v : dnvlist_get_string nv n = None → nv_number nv "id" = None → nv_number (nvlist_add_string nv n v) "id" = None.
Proof. intros H1 H2. destruct (nv_add_string nv n v H1) as (-> & _). done. Qed.
Lemma add_binary_id nv n v : dnvlist_get_binary nv n = None → nv_number nv "id" = None → nv_number (nvlist_add_binary nv n v) "id" = None.
Proof. intros H1 H2. destruct (nv_add_binary nv n v H1) as (-> & _). done. Qed.

Lemma rule_nv_id nv F v : nv_number nv "id" = None → rule_nv nv F → rule_nv (nvlist_add_number nv "id" v) F.
Proof. intros Hi []. destruct (nv_add_number nv "id" v Hi) as (E1 & E2 & E3). Libnpf.nv_reads. Qed.

Lemma export_fields c n r : static_ok c n r → rule_nv (fst (npf_rule_export c r)) (saved_fields c r) ∧ snd (npf_rule_export c r) = c.
Proof.
  intros [(_ & _ & Hd & _) _ (_ & _ & Hrp) _ _ _]. unfold npf_rule_export. rewrite Hd. unfold npf_rule_getrproc. rewrite Hrp. cbn [fst snd].
  split; [|by destruct c].
  set (v1 := nvlist_add_number nvlist_create "attr" _). set (v2 := nvlist_add_number v1 "prio" _).
  set (sk := if _ =? 0 then _ else _). set (v3 := nvlist_add_number v2 "skip-to" sk). set (v4 := nvlist_add_number v3 "code-type" _).
  assert (rule_nv v4 (Libnpf.mk_rf (Some (u64 (r_attr r))) (Some (u64 (u64 (priority_member r)))) (Some (u64 (r_type r))) (Some (u64 sk)) None None None None None None)
    ∧ nv_number v4 "id" = None) as [R4 I4].
  { pose proof (Libnpf.rule_nv_attr _ _ (r_attr r) Libnpf.rule_nv_create eq_refl) as R1.
    pose proof (Libnpf.rule_nv_prio _ _ (u64 (priority_member r)) R1 eq_refl) as R2.
    pose proof (Libnpf.rule_nv_skip _ _ sk R2 eq_refl) as R3.
    split; [exact (Libnpf.rule_nv_ctype _ _ (r_type r) R3 eq_refl)|].
    apply add_number_id; [done|apply R3|]. apply add_number_id; [done|apply R2|]. apply add_number_id; [done|apply R1|].
    apply add_number_id; [done|apply nv_create_empty|apply nv_create_empty]. }
  set (v5 := match r_code r with Some _ => _ | None => _ end).
  assert (rule_nv v5 (Libnpf.mk_rf (Some (u64 (r_attr r))) (Some (u64 (u64 (priority_member r)))) (Some (u64 (r_type r))) (Some (u64 sk)) None None None
    ((λ p, default [] (c_codes c !! p)) <$> r_code r) None None) ∧ nv_number v5 "id" = None) as [R5 I5].
  { unfold v5. destruct (r_code r) as [p|]; [|done]. split; [by apply (Libnpf.rule_nv_code _ _ _ R4)|]. apply add_binary_id; [apply R4|done]. }
  set (v6 := if negb (r_ifid r =? 0) then _ else _).
  assert (rule_nv v6 (Libnpf.mk_rf (Some (u64 (r_attr r))) (Some (u64 (u64 (priority_member r)))) (Some (u64 (r_type r))) (Some (u64 sk)) None
    (if r_ifid r =? 0 then None else Some (npf_ifmap_copyname (c_ifmap c) (r_ifid r))) None
    ((λ p, default [] (c_codes c !! p)) <$> r_code r) None None) ∧ nv_number v6 "id" = None) as [R6 I6].
  { unfold v6. destruct (r_ifid r =? 0); [done|]. split; [by apply (Libnpf.rule_nv_ifname _ _ _ R5)|]. apply add_string_id; [apply R5|done]. }
  apply rule_nv_id with (v := r_id r) in R6; [|done].
  set (v7 := nvlist_add_number v6 "id" _) in *.
  set (v8 := if negb (String.eqb (r_name r) "") then _ else _).
  assert (rule_nv v8 (Libnpf.mk_rf (Some (u64 (r_attr r))) (Some (u64 (u64 (priority_member r)))) (Some (u64 (r_type r))) (Some (u64 sk)) (nonempty (r_name r))
    (if r_ifid r =? 0 then None else Some (npf_ifmap_copyname (c_ifmap c) (r_ifid r))) None
    ((λ p, default [] (c_codes c !! p)) <$> r_code r) None None)) as R8.
  { unfold v8, nonempty. destruct (String.eqb _ _); [done|]. by apply (Libnpf.rule_nv_name _ _ _ R6). }
  destruct (r_info r) as [info|] eqn:Ei; unfold saved_fields; rewrite Ei; [|done]. by apply (Libnpf.rule_nv_info _ _ _ R8).
Qed.


Lemma copyname_lookup m name : ifmap_wf m → (String.length name < IFNAMSIZ)%nat → npf_ifmap_lookup m name ≠ 0 →
  npf_ifmap_copyname m (npf_ifmap_lookup m name) = name.
Proof.
  intros Hm Hn Hl. destruct (npf_ifmap_lookup_spec m name Hm Hl) as (i & Hi & -> & Hlk).
  pose proof (ifmap_wf_cnt m Hm). destruct (ifmap_wf_off m Hm) as [Ho1 Ho2].
  unfold npf_ifmap_copyname, NPF_IFMAP_ID2SLOT. replace (ifmap_off m + i + 1 - ifmap_off m - 1) with i by lia.
  rewrite wrap_small by (unfold inw, NPF_MAX_IFMAP in *; lia). rewrite (proj2 (Z.eqb_neq _ _)) by (unfold NPF_IFMAP_NOID; lia).
  rewrite (proj2 (Z.ltb_lt _ _)) by lia. cbn [negb andb]. rewrite Hlk. by apply strlcpy_fits.
Qed.

(** The rule [r'] of state [c'] is the rule [r] of state [c], but for its ID
    and the place of its code. *)
Record same_rule c (r : npf_rule) c' (r' : npf_rule) : Prop := {
  sr_attr : r_attr r' = r_attr r;
  sr_ifid : r_ifid r' = r_ifid r;
  sr_skip : r_skip_to r' = r_skip_to r;
  sr_name : r_name r' = r_name r;
  sr_info : r_info r' = r_info r;
  sr_subset : r_subset r' = r_subset r;
  sr_code : match r_code r with
            | None => r_code r' = None
            | Some p => ∃ p', r_code r' = Some p' ∧ p' < c_ncode c' ∧ c_codes c' !! p' = c_codes c !! p
            end;
}.

Lemma same_rule_extends c r c1 c2 r' : extends c1 c2 → same_rule c r c1 r' → same_rule c r c2 r'.
Proof.
  intros [] []. split; try done. destruct (r_code r); [|done]. destruct sr_code0 as (p' & ? & ? & <-). exists p'.
  split_and!; [done|lia|auto].
Qed.

(** The saved skip mark. *)
Definition saved_skip (r : npf_rule) : Z := if r_skip_to r &&& SKIPTO_ADJ_FLAG =? 0 then r_skip_to r &&& SKIPTO_MASK else 0.

Lemma saved_skip_restored c n r : static_ok c n r → Z.of_nat n + 1 < 2 ^ 31 →
  0 <= saved_skip r < 2 ^ 31 ∧
  (if saved_skip r <? Z.of_nat n + 1 then SKIPTO_ADJ_FLAG ||| (Z.of_nat n + 1) else saved_skip r) = r_skip_to r.
Proof.
  intros Ho Hn. unfold saved_skip. destruct (so_skip _ _ _ Ho) as [-> |Hs].
  - assert ((SKIPTO_ADJ_FLAG ||| (Z.of_nat n + 1)) &&& SKIPTO_ADJ_FLAG =? 0 = false) as ->.
    { apply Z.eqb_neq. intros E. assert (Z.testbit ((SKIPTO_ADJ_FLAG ||| (Z.of_nat n + 1)) &&& SKIPTO_ADJ_FLAG) 31 = true) as Ht.
      { rewrite Z.land_spec, Z.lor_spec. by rewrite orb_true_l. } by rewrite E in Ht. }
    split; [lia|]. by rewrite (proj2 (Z.ltb_lt _ _)) by lia.
  - assert (r_skip_to r &&& SKIPTO_ADJ_FLAG = 0) as ->.
    { apply Z.bits_inj'. intros k Hk. rewrite Z.land_spec, Z.bits_0. destruct (decide (k = 31)) as [->|Hk'].
      - rewrite (testbit_inw 31) by (unfold inw; lia). done.
      - unfold SKIPTO_ADJ_FLAG. rewrite Z.shiftl_1_l, Z.pow2_bits_false by lia. apply andb_false_r. }
    cbn [Z.eqb]. change SKIPTO_MASK with (2 ^ 31 - 1). rewrite land_ones_mod, Z.mod_small by lia.
    split; [lia|]. by rewrite (proj2 (Z.ltb_ge _ _)) by lia.
Qed.


(** One rule: [c0] is the state that was saved, [c] the one that loads. *)
Lemma mk_singlerule_saved c0 c n r nv rpset : static_ok c0 n r → Z.of_nat n + 1 < 2 ^ 31 → ctl_ok c0 → extends c0 c →
  rule_nv nv (saved_fields c0 r) →
  ∃ r' c', npf_mk_singlerule c nv rpset = (inl (c_next c), c') ∧ c_rules c' = <[c_next c := r']> (c_rules c) ∧
    c_next c' = c_next c + 1 ∧ extends c c' ∧ c_ifmap c' = c_ifmap c ∧
    r_attr r' = r_attr r ∧ r_ifid r' = r_ifid r ∧ r_skip_to r' = saved_skip r ∧ r_name r' = r_name r ∧ r_info r' = r_info r ∧
    r_subset r' = None ∧
    match r_code r with
    | None => r_code r' = None
    | Some p => ∃ p', r_code r' = Some p' ∧ p' < c_ncode c' ∧ c_codes c' !! p' = c_codes c0 !! p
    end.
Proof.
  intros Ho Hn Hc0 Hext Hnv. destruct (so_attr _ _ _ Ho) as (Ha & Ha32 & Hd & _).
  destruct (saved_skip_restored _ _ _ Ho Hn) as [Hsk _].
  assert (u32 (u64 (r_attr r)) = r_attr r) as Eat by (rewrite (wrap_small 64), wrap_small; unfold inw in *; (done || lia)).
  assert (rule_of_nv nv (r_ifid r) = mk_rule (r_attr r) (r_ifid r) (saved_skip r) None None None None 0 None None 0 (r_name r)
    (replicate NPF_RULE_MAXKEYLEN 0) (r_info r)) as Erule.
  { unfold rule_of_nv. destruct Hnv. cbn [saved_fields Libnpf.rf_attr Libnpf.rf_skip Libnpf.rf_name Libnpf.rf_key Libnpf.rf_info] in *.
    rewrite !nv_number_default, rn_attr, rn_skip, rn_name, rn_key, rn_info. cbn [default id]. rewrite Eat, Ha, Hd.
    fold (saved_skip r). rewrite (wrap_small 64), wrap_small by (unfold inw; lia). f_equal.
    unfold nonempty. destruct (String.eqb_spec (r_name r) "") as [-> |]; [done|]. apply substring_ge. pose proof (so_name _ _ _ Ho). lia. }
  assert (npf_rule_alloc c nv = (Some (c_next c), mk_ctl (<[c_next c := rule_of_nv nv (r_ifid r)]> (c_rules c)) (c_next c + 1) (c_codes c)
    (c_ncode c) (c_ifmap c) (c_ifw c) (c_x c))) as Eal.
  { unfold npf_rule_alloc. rewrite (Libnpf.rn_ifname _ _ Hnv), (Libnpf.rn_key _ _ Hnv).
    cbn [saved_fields Libnpf.rf_ifname Libnpf.rf_key]. destruct (so_if _ _ _ Ho) as [-> |(name & Hl & Hif & Hnz)]; [done|].
    rewrite (proj2 (Z.eqb_neq _ _) Hnz), Hif, copyname_lookup by (exact Hc0 || exact Hl || congruence). unfold npf_ifmap_register.
    rewrite (ex_ifmap _ _ Hext) by congruence.
    change NPF_IFMAP_NOID with 0. rewrite (proj2 (Z.eqb_neq _ _)) by congruence. cbn [negb].
    rewrite bool_decide_true by done. cbn [andb]. by rewrite (proj2 (Z.eqb_neq _ _)) by congruence. }
  unfold npf_mk_singlerule. rewrite Eal, (Libnpf.rn_rproc _ _ Hnv), (Libnpf.rn_code _ _ Hnv), nv_number_default, (Libnpf.rn_ctype _ _ Hnv).
  cbn [saved_fields Libnpf.rf_rproc Libnpf.rf_code Libnpf.rf_ctype]. rewrite Erule.
  assert (extends c (mk_ctl (<[c_next c := mk_rule (r_attr r) (r_ifid r) (saved_skip r) None None None None 0 None None 0 (r_name r)
    (replicate NPF_RULE_MAXKEYLEN 0) (r_info r)]> (c_rules c)) (c_next c + 1) (c_codes c) (c_ncode c) (c_ifmap c) (c_ifw c) (c_x c))) as Hx1.
  { split; cbn; try done; try lia. intros p Hp. by rewrite lookup_insert_ne by lia. }
  destruct (so_code _ _ _ Ho) as [Ec|(p & b & Ec & Hb & Hp & Hne & Hv)]; rewrite Ec; cbn [fmap option_fmap option_map].
  - eexists _, _. split; [done|]. split_and!; done.
  - rewrite Hb. cbn [default id]. unfold r_type. rewrite Ec. cbn [negb default id]. change (s32 (u64 NPF_CODE_BPF) =? NPF_CODE_BPF) with true.
    cbn [negb]. destruct b as [|b0 b]; [done|]. cbn [length Nat.eqb]. rewrite Hv. cbn [negb].
    eexists _, _. split; [done|]. cbn [npf_rule_setcode c_rules c_next c_ifmap]. rewrite alter_insert_eq. split_and!; try done.
    + split; cbn; try done; try lia.
      * intros q Hq. rewrite alter_insert_eq. by rewrite lookup_insert_ne by lia.
      * intros q Hq. by rewrite lookup_insert_ne by lia.
    + exists (c_ncode c). cbn. split_and!; [done|lia|by rewrite lookup_insert_eq].
Qed.


Lemma insert_saved c0 c rs rl r r' : static_ok c0 (length (rs_rules rs)) r → Z.of_nat (length (rs_rules rs)) + 1 < 2 ^ 31 →
  c_rules c !! rl = Some r' → r_attr r' = r_attr r → r_skip_to r' = saved_skip r →
  ∃ r2 rs2, npf_ruleset_insert (c_rules c) rs rl = (<[rl := r2]> (c_rules c), rs2) ∧ rs_rules rs2 = rs_rules rs ++ [rl] ∧
    rs_dynamic rs2 = (if NPF_DYNAMIC_GROUP_P (r_attr r) then rl :: rs_dynamic rs else rs_dynamic rs) ∧
    r_attr r2 = r_attr r ∧ r_skip_to r2 = r_skip_to r ∧ r_ifid r2 = r_ifid r' ∧ r_name r2 = r_name r' ∧ r_info r2 = r_info r' ∧
    r_subset r2 = r_subset r' ∧ r_code r2 = r_code r'.
Proof.
  intros Ho Hn Hr Ha Hs. destruct (saved_skip_restored _ _ _ Ho Hn) as [_ Hsk]. destruct (so_attr _ _ _ Ho) as (_ & _ & _ & Hdyn).
  unfold npf_ruleset_insert. rewrite Hr. rewrite Ha. eexists _, _. split; [done|]. cbn [rs_rules rs_dynamic]. split; [done|]. split; [done|].
  set (r1 := if NPF_DYNAMIC_GROUP_P (r_attr r) then r' else _).
  assert (r_attr r1 = r_attr r ∧ r_skip_to r1 = r_skip_to r' ∧ r_ifid r1 = r_ifid r' ∧ r_name r1 = r_name r' ∧ r_info r1 = r_info r' ∧
    r_subset r1 = r_subset r' ∧ r_code r1 = r_code r') as (E1 & E2 & E3 & E4 & E5 & E6 & E7).
  { unfold r1. destruct (NPF_DYNAMIC_GROUP_P (r_attr r)) eqn:Eg; [done|]. cbn. by rewrite Hdyn. }
  cbn [set_id r_skip_to]. rewrite E2, Hs. rewrite <- Hsk. destruct (saved_skip r <? _); cbn; rewrite ?E1, ?E2, ?E3, ?E4, ?E5, ?E6, ?E7, ?Hs; done.
Qed.

(** Names that are told apart: a name does not come back. *)
Definition names_ok (rules : list npf_rule) : Prop :=
  ∀ i j ri rj, rules !! i = Some ri → rules !! j = Some rj → (i < j)%nat → r_name rj ≠ ""%string → r_name ri ≠ r_name rj.

Lemma name_eq_short a b : (String.length a < NPF_RULE_MAXNAMELEN)%nat → (String.length b < NPF_RULE_MAXNAMELEN)%nat →
  name_eq a b = bool_decide (a = b).
Proof. intros. unfold name_eq. by rewrite !substring_ge by lia. Qed.

Lemma find_group_frame (T T' : rheap) l name : (∀ x, x ∈ l → T' !! x = T !! x) → find_group T' l name = find_group T l name.
Proof. induction l as [|x l IH]; intros Hl; [done|]. cbn. rewrite (Hl x) by set_solver. rewrite IH by set_solver. done. Qed.


(** No dynamic group of the ruleset has one of the names. *)
Definition names_free c (rs : npf_ruleset) (rules : list npf_rule) : Prop :=
  (∀ x, x ∈ rs_dynamic rs → x < c_next c) ∧
  ∀ r, r ∈ rules → r_name r ≠ ""%string → npf_ruleset_lookup (c_rules c) rs (r_name r) = None.

Lemma names_free_insert c c1 rs rs2 r r2 rules : names_free c rs (r :: rules) → names_ok (r :: rules) →
  Forall (λ r, (String.length (r_name r) < NPF_RULE_MAXNAMELEN)%nat) (r :: rules) →
  (∀ p, p < c_next c → c_rules c1 !! p = c_rules c !! p) → c_rules c1 !! c_next c = Some r2 → c_next c1 = c_next c + 1 →
  r_name r2 = r_name r →
  rs_dynamic rs2 = (if NPF_DYNAMIC_GROUP_P (r_attr r) then c_next c :: rs_dynamic rs else rs_dynamic rs) →
  names_free c1 rs2 rules.
Proof.
  intros [Hlt Hfree] Hok Hlen Hold Hnew Hnx Hname Hdyn. split.
  - intros x Hx. rewrite Hdyn in Hx. destruct (NPF_DYNAMIC_GROUP_P _); [apply elem_of_cons in Hx as [->|Hx]|]; [lia| |]; specialize (Hlt x Hx); lia.
  - intros r0 Hr0 Hne. pose proof (Hfree r0 ltac:(set_solver) Hne) as Hl. unfold npf_ruleset_lookup in *.
    assert (find_group (c_rules c1) (rs_dynamic rs) (r_name r0) = None) as E.
    { rewrite <- Hl. apply find_group_frame. intros x Hx. apply Hold. auto. }
    rewrite Hdyn. destruct (NPF_DYNAMIC_GROUP_P _); [|done]. cbn. rewrite Hnew, Hname, E.
    apply Forall_cons in Hlen as [Hl1 Hl2]. rewrite Forall_forall in Hl2. rewrite name_eq_short by auto.
    apply list_elem_of_lookup in Hr0 as [i Hi]. rewrite bool_decide_false; [done|].
    exact (Hok 0%nat (S i) r r0 eq_refl Hi ltac:(lia) Hne).
Qed.

Lemma mk_rules_saved c0 rpset rules nvs : Forall2 (λ r nv, rule_nv nv (saved_fields c0 r)) rules nvs → ctl_ok c0 →
  ∀ c rs, extends c0 c → (∀ i r, rules !! i = Some r → static_ok c0 (length (rs_rules rs) + i) r) → names_ok rules →
  Z.of_nat (length (rs_rules rs) + length rules) < 2 ^ 31 - 1 → names_free c rs rules →
  ∃ rs' c', mk_rules_loop nvs rpset c rs = (0, rs', c') ∧ extends c c' ∧
    rs_rules rs' = rs_rules rs ++ seqZ (c_next c) (Z.of_nat (length rules)) ∧
    ∀ i r, rules !! i = Some r → ∃ r', c_rules c' !! (c_next c + Z.of_nat i) = Some r' ∧ same_rule c0 r c' r'.
Proof.
  intros HF Hc0. induction HF as [|r nv rules nvs Hnv _ IH]; intros c rs Hext Hok Hnm Hlen Hfree.
  { exists rs, c. split_and!; [done|apply extends_refl|by rewrite app_nil_r|done]. }
  pose proof (Hok 0%nat r eq_refl) as Ho. rewrite Nat.add_0_r in Ho. cbn [length mk_rules_loop] in *.
  destruct (mk_singlerule_saved c0 c _ r nv rpset Ho ltac:(lia) Hc0 Hext Hnv)
    as (r1 & c1 & E1 & Hr1 & Hnx1 & Hx1 & Hif1 & A1 & A2 & A3 & A4 & A5 & A6 & A7).
  rewrite E1. rewrite (Libnpf.rn_name _ _ Hnv). cbn [saved_fields Libnpf.rf_name].
  assert (match nonempty (r_name r) with Some name => bool_decide (is_Some (npf_ruleset_lookup (c_rules c1) rs name)) | None => false end = false) as ->.
  { unfold nonempty. destruct (String.eqb_spec (r_name r) "") as [|Hne]; [done|]. apply bool_decide_eq_false.
    destruct Hfree as [Hlt Hfree]. unfold npf_ruleset_lookup. rewrite (find_group_frame (c_rules c)).
    - fold (npf_ruleset_lookup (c_rules c) rs (r_name r)). rewrite Hfree by (set_solver || done). by intros [? [=]].
    - intros x Hx. apply Hx1. auto. }
  destruct (insert_saved c0 c1 rs (c_next c) r r1 Ho ltac:(lia)) as (r2 & rs2 & Ei & B1 & B2 & B3 & B4 & B5 & B6 & B7 & B8 & B9); [|done|done|].
  { by rewrite Hr1, lookup_insert_eq. }
  rewrite Ei. set (c2 := set_rules c1 _).
  assert (extends c c2) as Hx2.
  { destruct Hx1. split; try done. intros p Hp. cbn. rewrite Hr1, insert_insert_eq. by rewrite lookup_insert_ne by lia. }
  destruct (IH c2 rs2) as (rs' & c' & E' & Hx' & Hrs' & Hall).
  - by eapply extends_trans.
  - intros i r0 Hi. rewrite B1, length_app. cbn [length]. replace (length (rs_rules rs) + 1 + i)%nat with (length (rs_rules rs) + S i)%nat by lia.
    by apply Hok.
  - intros i j ri rj Hi Hj Hij. exact (Hnm (S i) (S j) ri rj Hi Hj ltac:(lia)).
  - rewrite B1, length_app. cbn [length]. lia.
  - apply (names_free_insert c c2 rs rs2 r r2); [exact Hfree|exact Hnm| |apply Hx2| | |congruence|done].
    + apply Forall_forall. intros x Hx. apply list_elem_of_lookup in Hx as [i Hi]. apply (so_name _ _ _ (Hok i x Hi)).
    + cbn. by rewrite lookup_insert_eq.
    + done.
  - exists rs', c'. split; [exact E'|]. split; [by eapply extends_trans|]. assert (c_next c2 = c_next c + 1) as Enx by done.
    split; [rewrite Hrs', B1, Enx, <- app_assoc; f_equal; rewrite (seqZ_cons (c_next c)) by lia; cbn; do 2 f_equal; lia|].
    intros [|i] r0 Hi; cbn in Hi.
    + injection Hi as <-. exists r2. rewrite Z.add_0_r. split.
      * destruct Hx' as [_ -> _ _ _]; [|lia]. cbn. by rewrite lookup_insert_eq.
      * eapply same_rule_extends; [exact Hx'|]. destruct (so_none _ _ _ Ho) as (Hsub & _). split; try congruence. by rewrite B9.
    + destruct (Hall i r0 Hi) as (r' & Hr' & Hsame). exists r'. split; [|done]. rewrite <- Hr', Enx. f_equal. lia.
Qed.


(** ** The same verdicts *)

Section verdicts.
Context (bpf bpf' : Z → bool) (dm ifid : Z) (T T' : rheap) (rules rules' : list Z).
Hypothesis Hlen : length rules = length rules'.
Hypothesis Hsame : ∀ i rl rl', rules !! i = Some rl → rules' !! i = Some rl' → ∃ r r', T !! rl = Some r ∧ T' !! rl' = Some r' ∧
  r_attr r' = r_attr r ∧ r_skip_to r' = r_skip_to r ∧ r_subset r = None ∧ r_subset r' = None ∧
  npf_rule_inspect bpf' dm ifid r' = npf_rule_inspect bpf dm ifid r.

(** The same slot of either ruleset, or none. *)
Definition same_slot (x x' : option Z) : Prop :=
  (x = None ∧ x' = None) ∨ ∃ i, is_Some (rules !! i) ∧ x = rules !! i ∧ x' = rules' !! i.

Lemma inspect_same fuel : ∀ n x x', 0 <= n → same_slot x x' →
  match inspect_loop bpf dm ifid fuel T rules n x, inspect_loop bpf' dm ifid fuel T' rules' n x' with
  | Some y, Some y' => same_slot y y'
  | None, None => True
  | _, _ => False
  end.
Proof using Hlen Hsame.
  assert (∀ x x', same_slot x x' → bool_decide (is_Some x') = bool_decide (is_Some x)) as Hs.
  { intros x x' [[-> ->]|(i & Hi & -> & ->)]; [done|]. apply bool_decide_ext. by rewrite !lookup_lt_is_Some, Hlen. }
  induction fuel as [|fuel IH]; intros n x x' Hn Hx; cbn [inspect_loop]; rewrite <- Hlen.
  { by destruct (_ <=? _). }
  destruct (Z.of_nat (length rules) <=? n) eqn:En; [done|]. apply Z.leb_gt in En.
  destruct (rules !! Z.to_nat n) as [rl|] eqn:E; [|apply lookup_ge_None in E; lia].
  destruct (rules' !! Z.to_nat n) as [rl'|] eqn:E'; [|apply lookup_ge_None in E'; lia].
  destruct (Hsame _ _ _ E E') as (r & r' & -> & -> & -> & -> & Hsub & Hsub' & ->). rewrite (Hs _ _ Hx).
  destruct (_ && bool_decide _); [done|].
  destruct (npf_rule_inspect bpf dm ifid r); cbn [negb].
  2:{ apply IH; [|done]. apply Z.land_nonneg. by right. }
  assert (same_slot (Some rl) (Some rl')) as Hcur by (right; exists (Z.to_nat n); rewrite E, E'; by split_and!).
  assert (∀ y y', same_slot y y' → match (if flag (r_attr r) NPF_RULE_FINAL then Some y else inspect_loop bpf dm ifid fuel T rules (n + 1) y),
     (if flag (r_attr r) NPF_RULE_FINAL then Some y' else inspect_loop bpf' dm ifid fuel T' rules' (n + 1) y') with
     | Some z, Some z' => same_slot z z' | None, None => True | _, _ => False end) as Hnext.
  { intros y y' Hy. destruct (flag _ _); [done|]. apply IH; [lia|done]. }
  destruct (NPF_DYNAMIC_GROUP_P (r_attr r)).
  - unfold npf_rule_reinspect. rewrite Hsub, Hsub'.
    assert (∀ bp fl h, reinspect_loop bp dm ifid fl h None None = Some None) as Hre by (by intros ? [] ?). rewrite !Hre. by apply Hnext.
  - destruct (flag _ NPF_RULE_GROUP); cbn [negb]; by apply Hnext.
Qed.

End verdicts.

Lemma export_loop_ok key c rls rules : Forall2 (λ rl r, c_rules c !! rl = Some r ∧ ∃ n, static_ok c n r) rls rules → ∀ nv, ∃ nv' nvs,
  ruleset_export_loop rls key c nv = Some (nv', c) ∧
  default [] (nvlist_get_nvlist_array nv' key) = default [] (nvlist_get_nvlist_array nv key) ++ nvs ∧
  Forall2 (λ r nv, rule_nv nv (saved_fields c r)) rules nvs.
Proof.
  induction 1 as [|rl r rls rules (Hr & n & Ho) _ IH]; intros nv.
  { exists nv, []. split_and!; [done|by rewrite app_nil_r|constructor]. }
  cbn [ruleset_export_loop]. rewrite Hr. cbn [mbind option_bind]. destruct (export_fields c n r Ho) as [Hf Hc].
  destruct (npf_rule_export c r) as [rule c1]. cbn [fst snd] in *. subst c1. destruct (so_none _ _ _ Ho) as (_ & -> & _).
  destruct (IH (nvlist_append_nvlist_array nv key rule)) as (nv' & nvs & E & Ha & Hall).
  exists nv', (rule :: nvs). split_and!; [done| |by constructor]. rewrite Ha. destruct (nv_append nv key rule) as (_ & -> & _).
  rewrite decide_True by done. cbn [default id]. by rewrite <- app_assoc.
Qed.

(** Inspection of static rules terminates. *)
Lemma static_inspects c rs rules bpf di ifid : Forall2 (λ rl r, c_rules c !! rl = Some r) (rs_rules rs) rules →
  (∀ i r, rules !! i = Some r → static_ok c i r) → Z.of_nat (length rules) < 2 ^ 31 - 1 →
  ∃ y, npf_ruleset_inspect bpf di ifid (c_rules c) rs = Some y.
Proof.
  intros HF Hok Hlen. unfold npf_ruleset_inspect. set (dm := if flag di PFIL_IN then _ else _).
  destruct (inspect_loop_total bpf dm ifid (c_rules c) (rs_rules rs)) with (fuel := length (rs_rules rs)) (n := 0) (final := @None Z) as (y & -> & _);
    [| |lia|lia|done|by exists y].
  - intros rl r Hin Hr _. apply list_elem_of_lookup in Hin as [i Hi]. destruct (Forall2_lookup_l _ _ _ _ _ HF Hi) as (r' & Hr' & E).
    rewrite Hr in E. injection E as <-. exists []. destruct (so_none _ _ _ (Hok i r Hr')) as (-> & _). done.
  - intros n rl Hn. destruct (Forall2_lookup_l _ _ _ _ _ HF Hn) as (r & Hr & E). exists r. split; [done|].
    pose proof (lookup_lt_Some _ _ _ Hr). destruct (so_skip _ _ _ (Hok n r Hr)) as [->|Hs]; [rewrite lor_skip; lia|].
    change SKIPTO_MASK with (2 ^ 31 - 1). rewrite land_ones_mod, Z.mod_small; lia.
Qed.

Lemma same_rule_inspect c c' rls rls' rules run dm ifid : Forall2 (λ rl r, c_rules c !! rl = Some r) rls rules →
  Forall2 (λ rl r, ∃ r', c_rules c' !! rl = Some r' ∧ same_rule c r c' r') rls' rules → (∀ i r, rules !! i = Some r → static_ok c i r) →
  ∀ i rl rl', rls !! i = Some rl → rls' !! i = Some rl' → ∃ r r', c_rules c !! rl = Some r ∧ c_rules c' !! rl' = Some r' ∧
    r_attr r' = r_attr r ∧ r_skip_to r' = r_skip_to r ∧ r_subset r = None ∧ r_subset r' = None ∧
    npf_rule_inspect (λ p, run (default [] (c_codes c' !! p))) dm ifid r' = npf_rule_inspect (λ p, run (default [] (c_codes c !! p))) dm ifid r.
Proof.
  intros HF HF' Hok i rl rl' Hi Hi'. destruct (Forall2_lookup_l _ _ _ _ _ HF Hi) as (r & Hr & E).
  destruct (Forall2_lookup_lr _ _ _ _ _ _ HF' Hi' Hr) as (r' & E' & Hs). exists r, r'. destruct (so_none _ _ _ (Hok i r Hr)) as (Hsub & _).
  destruct Hs. split_and!; try done; [congruence|]. unfold npf_rule_inspect. rewrite sr_attr0, sr_ifid0.
  destruct (r_code r) as [p|]; [|by rewrite sr_code0]. destruct sr_code0 as (p' & -> & _ & ->). done.
Qed.

(** C8: Saving and loading static rules gives the same rules.  Take a ruleset
    of rules as loading makes them, none of which has a rule procedure or a NAT
    policy, or is a dynamic group with rules in it, and no two of which have
    the same name ([static_ok], [names_ok]; the load looks up the procedures
    of rules by name, and dynamic rules are saved nested in their group).
    [npf_ruleset_export] succeeds, and [npf_mk_rules] accepts the exported
    list in any later state: every slot of the new ruleset holds a rule with
    the attributes, the interface, the skip mark, the name, the information
    and the code of the rule of that slot, and for every packet the inspection
    of both rulesets ends at the same slot. *)
Theorem rules_save_load c rs rules nv : ctl_ok c →
  Forall2 (λ rl r, c_rules c !! rl = Some r) (rs_rules rs) rules → (∀ i r, rules !! i = Some r → static_ok c i r) → names_ok rules →
  Z.of_nat (length rules) <= NPF_MAX_RULES → nvlist_get_nvlist_array nv "rules" = None →
  ∃ nv', npf_ruleset_export c rs "rules" nv = Some (nv', c) ∧
  ∀ c1 rpset, extends c c1 → ∃ rs' c',
    npf_mk_rules c1 nv' rpset = (0, Some rs', c') ∧
    Forall2 (λ rl r, ∃ r', c_rules c' !! rl = Some r' ∧ same_rule c r c' r') (rs_rules rs') rules ∧
    ∀ (run : list Z → bool) di ifid,
      let code c p := run (default [] (c_codes c !! p)) in
      ∃ y y', npf_ruleset_inspect (code c) di ifid (c_rules c) rs = Some y ∧
        npf_ruleset_inspect (code c') di ifid (c_rules c') rs' = Some y' ∧ same_slot (rs_rules rs) (rs_rules rs') y y'.
Proof.
  intros Hc HF Hok Hnm Hmax Hnone. unfold NPF_MAX_RULES in Hmax.
  assert (Forall2 (λ rl r, c_rules c !! rl = Some r ∧ ∃ n, static_ok c n r) (rs_rules rs) rules) as HF2.
  { apply Forall2_same_length_lookup. split; [by eapply Forall2_length|]. intros i rl r Hi Hr. split; [|exists i; auto].
    by destruct (Forall2_lookup_lr _ _ _ _ _ _ HF Hi Hr). }
  destruct (export_loop_ok "rules" c _ _ HF2 nv) as (nv' & nvs & E & Ha & Hall). exists nv'. split; [done|]. intros c1 rpset Hext.
  rewrite Hnone in Ha. cbn [default app] in Ha. unfold npf_mk_rules. rewrite Ha.
  pose proof (Forall2_length _ _ _ Hall) as Hl. rewrite <- Hl. unfold NPF_MAX_RULES. rewrite (proj2 (Z.ltb_ge _ _)) by lia.
  destruct (mk_rules_saved c rpset rules nvs Hall Hc c1 (npf_ruleset_create (Z.of_nat (length rules))) Hext) as (rs' & c' & -> & Hx & Hrs & Hnew);
    [done|done|cbn; lia|by split; [intros x Hx%elem_of_nil|]|].
  exists rs', c'. split; [done|]. cbn [npf_ruleset_create rs_rules app] in Hrs.
  assert (Forall2 (λ rl r, ∃ r', c_rules c' !! rl = Some r' ∧ same_rule c r c' r') (rs_rules rs') rules) as HF'.
  { apply Forall2_same_length_lookup. rewrite Hrs, length_seqZ. split; [lia|]. intros i rl r Hi Hr.
    apply lookup_seqZ in Hi as [-> _]. by apply Hnew. }
  split; [done|]. intros run di ifid. set (code := λ (c : ctl X IW) p, run (default [] (c_codes c !! p))).
  change (λ p, run (default [] (c_codes c !! p))) with (code c). change (λ p, run (default [] (c_codes c' !! p))) with (code c').
  destruct (static_inspects c rs rules (code c) di ifid HF Hok ltac:(lia)) as (y & Hy). exists y. rewrite Hy.
  pose proof (inspect_same (code c) (code c') (if flag di PFIL_IN then NPF_RULE_IN else NPF_RULE_OUT) ifid (c_rules c) (c_rules c')
    (rs_rules rs) (rs_rules rs')) as Hsim.
  assert (length (rs_rules rs) = length (rs_rules rs')) as Hll by (rewrite (Forall2_length _ _ _ HF), (Forall2_length _ _ _ HF'); done).
  specialize (Hsim Hll). unfold npf_ruleset_inspect in *. rewrite <- Hll.
  specialize (Hsim ltac:(eapply same_rule_inspect; eauto) (length (rs_rules rs)) 0 None None ltac:(lia) ltac:(by left)).
  rewrite Hy in Hsim. destruct (inspect_loop _ _ _ _ (c_rules c') _ _ _) as [y'|]; [|done]. by exists y'.
Qed.

End saved.

(** ** A case *)

#[local] Instance no_load_env : load_env unit nv_tree := { rproc_lookup _ _ _ := None; natpolicy_create _ _ := (None, tt) }.
#[local] Instance no_save_env : save_env unit nv_tree := { rproc_getname _ _ := ""%string; natpolicy_export _ _ nv := nv }.

(** A group on an interface with one rule in it. *)
Definition saved_group : npf_rule :=
  mk_rule (NPF_RULE_GROUP ||| NPF_RULE_IN ||| NPF_RULE_OUT) 1 2 None None None None 0 None None 1 "external" [] None.
Definition saved_pass : npf_rule :=
  mk_rule (NPF_RULE_PASS ||| NPF_RULE_FINAL ||| NPF_RULE_IN ||| NPF_RULE_OUT) 0 (SKIPTO_ADJ_FLAG ||| 2) (Some 1) None None None 0 None None 2 "" []
    (Some [1; 2; 3]).
Definition saved_code : list Z := bytes_of_insns [mk_insn 0x6 0 0 1].
Definition saved_ctl : ctl unit net_world :=
  mk_ctl {[1 := saved_group; 2 := saved_pass]} 3 {[1 := saved_code]} 2 (mk_ifmap ["wm0"%string] 0) sample_world tt.
Definition saved_ruleset : npf_ruleset := mk_ruleset [2; 1] [] [] 2 2 [1; 2].

Lemma saved_static i r : [saved_group; saved_pass] !! i = Some r → static_ok saved_ctl i r.
Proof.
  intros Hi. destruct i as [|[|i]]; [| |done]; injection Hi as <-; split.
  - split_and!; by vm_compute.
  - right. by vm_compute.
  - done.
  - vm_compute. lia.
  - right. exists "wm0"%string. split_and!; [vm_compute; lia|by vm_compute..].
  - by left.
  - split_and!; by vm_compute.
  - by left.
  - done.
  - vm_compute. lia.
  - by left.
  - right. exists 1, saved_code. split_and!; try done; by vm_compute.
Qed.

Lemma rules_save_load_witness : ∃ nv' rs' c',
  npf_ruleset_export saved_ctl saved_ruleset "rules" nvlist_create = Some (nv', saved_ctl) ∧
  npf_mk_rules saved_ctl nv' None = (0, Some rs', c') ∧
  ∃ y y', npf_ruleset_inspect (λ _, true) PFIL_IN 1 (c_rules saved_ctl) saved_ruleset = Some y ∧
    npf_ruleset_inspect (λ _, true) PFIL_IN 1 (c_rules c') rs' = Some y' ∧ same_slot [1; 2] (rs_rules rs') y y'.
Proof.
  destruct (rules_save_load (NV := nv_tree) saved_ctl saved_ruleset [saved_group; saved_pass] nvlist_create) as (nv' & E & H).
  - split; [by vm_compute|split; by vm_compute|]. constructor; [vm_compute; lia|constructor].
  - repeat constructor.
  - exact saved_static.
  - intros [|[|i]] [|[|j]] ri rj Hi Hj Hij Hne; try lia; try done. injection Hj as <-. by destruct Hne.
  - vm_compute. done.
  - done.
  - destruct (H saved_ctl None (extends_refl _)) as (rs' & c' & El & _ & Hv). exists nv', rs', c'. split; [done|]. split; [done|].
    exact (Hv (λ _, true) PFIL_IN 1).
Defined.

(** The priority that is exported for a dynamic group is a part of the address
    of its first rule. *)
Theorem rule_export_group_pointer :
  let g := mk_rule (NPF_DYNAMIC_GROUP ||| NPF_RULE_IN) 0 1 None None None (Some 0x7f001234) 0 None None 1 "map:nat" [] None in
  nv_number (fst (npf_rule_export saved_ctl g)) "prio" = Some 0x7f001234.
Proof. by vm_compute. Qed.

End CtlSave.
