(* ===== verification/CtlTables.v ===== *)
(** * CtlTables: tables through the control interface (src/kern/npf_ctl.c)

    Tables are created from the lists that libnpf makes ([npf_mk_table],
    [npf_mk_tables]), replaced as a whole ([npfctl_table_replace]), and their
    entries are added, removed and looked up ([npfctl_table]).  Tables are heap
    objects of [Tableset]; entries get fresh identities. *)

From S2P Require Import Prelude Nbuf Addr Cache Rewrite Tcpopt StateTcp Thmap ConnKey Tableset Bpf NpfBpf IfMap Ruleset Nvlist NpfVar BpfComp Conn Rproc Alg NpfNat Libnpf NpfCtl.
From stdpp Require Import strings.
Open Scope Z_scope.
Open Scope npf_scope.

Module CtlTables.
Export Tableset Nvlist.
Export NpfCtl (E2BIG, NPF_MAX_TABLES).

Definition NPF_CMD_TABLE_LOOKUP : Z := 1.
Definition NPF_CMD_TABLE_ADD : Z := 2.
Definition NPF_CMD_TABLE_REMOVE : Z := 3.
Definition NPF_CMD_TABLE_LIST : Z := 4.
Definition NPF_CMD_TABLE_FLUSH : Z := 5.

Section tables.
Context {M L C NV : Type} `{TL : thmap_laws npf_tblent M} `{LL : lpm_laws npf_tblent L} {CO : cdbr_ops C}.
Context `{NO : nvlist_ops NV} {NA : nvlist_array_ops NV}.
(** Memory is available. *)
Context (kmem : bool).

Abbreviation table := (npf_table (M := M) (L := L) (C := C)).
Abbreviation heap := (gmap Z table).

(** Tables, the next address and the next entry. *)
Record tables := mk_tables { ts_heap : heap; ts_next : Z; ts_ent : Z }.

Fixpoint entries_loop (entries : list NV) (t : table) (ent : Z) : Z * table * Z :=
  match entries with
  | [] => (0, t, ent)
  | entry :: entries =>
      let addr := default [] (dnvlist_get_binary entry "addr") in
      let mask := u8 (dnvlist_get_number entry "mask" NPF_NO_NETMASK) in
      if (length addr =? 0)%nat then (EINVAL, t, ent) else
      let '(error, t) := npf_table_insert kmem ent t (Z.of_nat (length addr)) (NpfNat.addr_of_bytes addr) mask in
      if negb (error =? 0) then (error, t, ent + 1) else entries_loop entries t (ent + 1)
  end.

Definition npf_mk_table_entries (t : table) (req : NV) (ent : Z) : Z * table * Z :=
  match nvlist_get_nvlist_array req "entries" with
  | None => (0, t, ent)
  | Some entries => entries_loop entries t ent
  end.

(** The address of the table, or an error. *)
Definition npf_mk_table (s : tables) (tblset : list (option Z)) (req : NV) (replacing : bool) : (Z + Z) * tables :=
  match dnvlist_get_string req "name" with
  | None => (inr EINVAL, s)
  | Some name =>
      let tid := dnvlist_get_number req "id" (2 ^ 64 - 1) in
      let type := s32 (dnvlist_get_number req "type" (2 ^ 64 - 1)) in
      let error := npf_table_check (ts_heap s) tblset name tid (u64 type) replacing in
      if negb (error =? 0) then (inr error, s) else
      let blob := dnvlist_get_binary req "data" in
      if (type =? NPF_TABLE_CONST) && (length (default [] blob) =? 0)%nat then (inr EINVAL, s) else
      match npf_table_create name (u32 tid) type (default [] blob) with
      | None => (inr ENOMEM, s)
      | Some t =>
          let '(error, t, ent) := npf_mk_table_entries t req (ts_ent s) in
          if negb (error =? 0) then (inr error, mk_tables (ts_heap s) (ts_next s) ent)
          else (inl (ts_next s), mk_tables (<[ts_next s := t]> (ts_heap s)) (ts_next s + 1) ent)
      end
  end.

Fixpoint tables_loop (reqs : list NV) (s : tables) (tblset : list (option Z)) : Z * list (option Z) * tables :=
  match reqs with
  | [] => (0, tblset, s)
  | req :: reqs =>
      match npf_mk_table s tblset req false with
      | (inr error, s) => (error, tblset, s)
      | (inl p, s) =>
          let '(_, H, tblset) := npf_tableset_insert (ts_heap s) tblset p in
          tables_loop reqs (mk_tables H (ts_next s) (ts_ent s)) tblset
      end
  end.

Definition npf_mk_tables (s : tables) (req : NV) : Z * option (list (option Z)) * tables :=
  let reqs := default [] (nvlist_get_nvlist_array req "tables") in
  if NPF_MAX_TABLES <? Z.of_nat (length reqs) then (E2BIG, None, s) else
  let '(error, tblset, s) := tables_loop reqs s (npf_tableset_create (length reqs)) in
  (error, Some tblset, s).

Definition npfctl_table_replace (s : tables) (tblset : list (option Z)) (req : NV) : Z * list (option Z) * tables :=
  match npf_mk_table s tblset req true with
  | (inr error, s) => (error, tblset, s)
  | (inl tbl, s) =>
      match npf_tableset_swap (ts_heap s) tblset tbl with
      | (None, H, tblset) => (EINVAL, tblset, mk_tables (npf_table_destroy H tbl) (ts_next s) (ts_ent s))
      | (Some gc_tbl, H, tblset) => (0, tblset, mk_tables (npf_table_destroy H gc_tbl) (ts_next s) (ts_ent s))
      end
  end.

(** The commands on a table; [len] is the size of the buffer for a list. *)
Definition npfctl_table (s : tables) (tblset : list (option Z)) (tname : string) (cmd alen : Z) (addr : npf_addr_t) (mask len : Z) :
    Z * list (npf_addr_t * Z * Z) * tables :=
  match npf_tableset_getbyname (ts_heap s) tblset tname with
  | None => (EINVAL, [], s)
  | Some p =>
      match ts_heap s !! p with
      | None => (EINVAL, [], s)
      | Some t =>
          let '(error, out, t, ent) :=
            (if cmd =? NPF_CMD_TABLE_LOOKUP then (npf_table_lookup t alen addr, [], t, ts_ent s)
             else if cmd =? NPF_CMD_TABLE_ADD then
               let '(error, t) := npf_table_insert kmem (ts_ent s) t alen addr mask in (error, [], t, ts_ent s + 1)
             else if cmd =? NPF_CMD_TABLE_REMOVE then
               let '(error, t) := npf_table_remove t alen addr mask in (error, [], t, ts_ent s)
             else if cmd =? NPF_CMD_TABLE_LIST then let '(error, l) := npf_table_list t len in (error, l, t, ts_ent s)
             else if cmd =? NPF_CMD_TABLE_FLUSH then let '(error, t) := npf_table_flush t in (error, [], t, ts_ent s)
             else (EINVAL, [], t, ts_ent s)) in
          (error, out, mk_tables (<[p := npf_table_gc t]> (ts_heap s)) (ts_next s) ent)
      end
  end.

(** ** What a loaded table matches *)

Lemma table_insert_frame ent (t : table) alen addr mask err t' :
  npf_table_insert kmem ent t alen addr mask = (err, t') →
  t_type t' = t_type t ∧ t_name t' = t_name t ∧ (err = 0 → npf_netmask_check alen mask = 0) ∧
  te_id <$> t_list t' = (if err =? 0 then [ent] else []) ++ (te_id <$> t_list t).
Proof.
  unfold npf_table_insert, t_type. destruct (npf_netmask_check alen mask =? 0) eqn:E; cbn [negb].
  2:{ intros [= <- <-]. split_and!; try done. by rewrite E. }
  apply Z.eqb_eq in E. rewrite E.
  destruct (t_store t) as [m gc|lp|cdb|els alc] eqn:Es.
  - destruct (mask =? NPF_NO_NETMASK); cbn [negb]; [|by intros [= <- <-]; rewrite Es].
    destruct (thmap_put _ _ _) as [ret m']. destruct (decide _); by intros [= <- <-].
  - destruct (lpm_lookup lp addr alen); [by intros [= <- <-]; rewrite Es|].
    destruct (lpm_insert _ _ _ _ _) as [ret lp']. destruct (ret =? 0); by intros [= <- <-].
  - intros [= <- <-]. by rewrite Es.
  - destruct (table_ifaddr_insert _ _ _ _ _) as [[er els'] alc'].
    destruct (er =? 0) eqn:Er; cbn [negb]; intros [= <- <-]; [done|]. by rewrite Es, Er.
Qed.

(** The prefix length of an entry in an LPM table. *)
Definition entry_preflen (alen mask : Z) : Z := if mask =? NPF_NO_NETMASK then 8 * alen else mask.

(** An entry as it is written, of address length [alen], covers an address. *)
Definition entry_covers (type : Z) (ealen : Z) (eaddr : npf_addr_t) (mask : Z) (alen : Z) (addr : npf_addr_t) : Prop :=
  ealen = alen ∧
  if type =? NPF_TABLE_LPM
  then prefix_of addr alen (entry_preflen alen mask) = prefix_of eaddr alen (entry_preflen alen mask)
  else akey alen addr = akey alen eaddr.

Lemma ent_covers_entry (t t' : table) e ealen eaddr mask alen addr :
  t_type t' = t_type t → not_const t' → te_alen e = ealen → ent_covers t' e ealen eaddr →
  te_preflen e = match t_store t with ST_LPM _ => if mask =? NPF_NO_NETMASK then 8 * ealen else mask | _ => 0 end →
  ent_covers t' e alen addr ↔ entry_covers (t_type t) ealen eaddr mask alen addr.
Proof.
  unfold t_type, not_const, ent_covers, entry_covers. intros Ht Hnc Ha Hc Hp.
  destruct (t_store t') eqn:E', (t_store t) eqn:E; try done; cbn.
  - destruct Hc as [_ Hc]. rewrite Ha, Hc. split; intros [<- ?]; split; congruence.
  - fold (entry_preflen ealen mask) in Hp. rewrite Hp in *. rewrite <- Hc. unfold prefix_of. split.
    + intros [= ? ?]. subst alen. split; [done|]. congruence.
    + intros [<- ?]. congruence.
  - destruct Hc as [_ Hc]. rewrite Ha, Hc. split; intros [<- ?]; split; congruence.
Qed.

Lemma ent_covers_type (t t' : table) e alen addr : t_type t' = t_type t → ent_covers t' e alen addr ↔ ent_covers t e alen addr.
Proof. unfold t_type, ent_covers. by destruct (t_store t'), (t_store t). Qed.

(** What the loop reads of an entry. *)
Definition entry_of (entry : NV) : Z * npf_addr_t * Z :=
  let addr := default [] (dnvlist_get_binary entry "addr") in
  (Z.of_nat (length addr), NpfNat.addr_of_bytes addr, u8 (dnvlist_get_number entry "mask" NPF_NO_NETMASK)).

Definition nv_covers (type : Z) (alen : Z) (addr : npf_addr_t) (entry : NV) : Prop :=
  let '(ealen, eaddr, mask) := entry_of entry in entry_covers type ealen eaddr mask alen addr.

Lemma entries_loop_spec entries : ∀ (t : table) ent t' ent', table_ok t → not_const t →
  Forall (λ i, i < ent) (te_id <$> t_list t) → entries_loop entries t ent = (0, t', ent') →
  table_ok t' ∧ not_const t' ∧ t_type t' = t_type t ∧ t_name t' = t_name t ∧
  ∀ alen addr, (∃ e, e ∈ t_list t' ∧ ent_covers t' e alen addr) ↔
    (∃ e, e ∈ t_list t ∧ ent_covers t e alen addr) ∨ Exists (nv_covers (t_type t) alen addr) entries.
Proof.
  induction entries as [|entry entries IH]; intros t ent t' ent' Hok Hnc Hid; cbn [entries_loop].
  { intros [= <- <-]. split_and!; try done. intros alen addr. rewrite Exists_nil. tauto. }
  destruct (_ =? 0)%nat; [done|].
  destruct (npf_table_insert _ _ _ _ _ _) as [err t1] eqn:Ei.
  destruct (err =? 0) eqn:Ee; cbn [negb]; [|intros [= -> _ _]; done]. bool_to_prop. subst err. intros Hl.
  destruct (table_insert_frame _ _ _ _ _ _ _ Ei) as (Ht & Hn & Hck & Hids).
  assert (0 <= u8 (dnvlist_get_number entry "mask" NPF_NO_NETMASK)) as Hm0.
  { by apply wrap_range. }
  destruct (npf_netmask_check_ok _ _ Hm0 (Hck eq_refl)) as [Hal _].
  eapply npf_table_insert_spec in Ei as (Hok1 & Hnc1 & [(_ & e & Hle & Hea & Hec & Hep)|[? _]]); try done.
  2:{ destruct Hal as [-> | ->]; vm_compute; lia. }
  2:{ intros Hin. rewrite Forall_forall in Hid. specialize (Hid _ Hin). cbv beta in Hid. lia. }
  eapply IH in Hl as (Hok' & Hnc' & Ht' & Hn' & Hcov); try done.
  2:{ rewrite Hids. constructor; [lia|]. eapply Forall_impl; [exact Hid|]. cbn; lia. }
  split_and!; [done..|congruence|congruence|].
  intros alen addr. rewrite Hcov, Hle, Ht, Exists_cons.
  assert (nv_covers (t_type t) alen addr entry ↔ ent_covers t1 e alen addr) as ->.
  { unfold nv_covers, entry_of. symmetry. by eapply ent_covers_entry. }
  assert (∀ x, ent_covers t1 x alen addr ↔ ent_covers t x alen addr) as Hx by (intros; by apply ent_covers_type).
  split.
  - intros [(x & [-> |Hx1]%elem_of_cons & Hx2)|?]; [tauto| |tauto]. left. exists x. by rewrite <- Hx.
  - intros [(x & Hx1 & Hx2)|[?|?]]; [| |tauto]; left; [exists x; rewrite elem_of_cons, Hx|exists e; rewrite elem_of_cons]; tauto.
Qed.

(** ** The request as libnpf makes it *)

Definition entry_src : Type := Z * npf_addr_t * Z.   (* address family, address, mask *)

(** The calls of libnpf: a table is created and the entries are added. *)
Fixpoint add_entries (tl : NV) (es : list entry_src) : option NV :=
  match es with
  | [] => Some tl
  | (af, addr, mask) :: es =>
      let '(error, tl) := Libnpf.npf_table_add_entry tl af addr mask in
      if negb (error =? 0) then None else add_entries tl es
  end.

Definition af_alen (af : Z) : Z := if af =? BpfComp.AF_INET then 4 else 16.

(** Addresses are four words. *)
Definition entry_wf (e : entry_src) : Prop :=
  let '(af, addr, mask) := e in
  (af = BpfComp.AF_INET ∨ af = BpfComp.AF_INET6) ∧ length addr = 4%nat ∧ Forall (inw 32) addr ∧ inw 8 mask.

Definition src_covers (type alen : Z) (addr : npf_addr_t) (e : entry_src) : Prop :=
  let '(af, eaddr, mask) := e in entry_covers type (af_alen af) eaddr mask alen addr.

Lemma bytes_of_addr_length a alen : 0 <= alen <= 16 → length (NpfNat.bytes_of_addr a alen) = Z.to_nat alen.
Proof. intros Ha. unfold NpfNat.bytes_of_addr. rewrite length_take, Rewrite.put_words_length, length_replicate. lia. Qed.

(** The first [alen] bytes of an address survive the transfer. *)
Lemma addr_of_bytes_key a alen : alen_ok alen → length a = 4%nat → Forall (inw 32) a →
  akey alen (NpfNat.addr_of_bytes (NpfNat.bytes_of_addr a alen)) = akey alen a.
Proof.
  intros Ha Hl Hw. unfold NpfNat.addr_of_bytes, NpfNat.bytes_of_addr.
  set (q := Rewrite.put_words (replicate 16 0) 0 a).
  assert (Rewrite.rd_words q 0 4 = a) as Hq.
  { unfold q. pose proof (Rewrite.rd_words_put_words a (replicate 16 0) 0) as Hr. rewrite Hl in Hr. apply Hr; [lia|vm_compute; done|done]. }
  assert (length q = 16%nat) as Hlq by (unfold q; by rewrite Rewrite.put_words_length).
  clearbody q. rewrite <- Hq. destruct Ha as [-> | ->].
  - do 16 (destruct q as [|? q]; [done|]). done.
  - do 16 (destruct q as [|? q]; [done|]). done.
Qed.

Context {NL : nvlist_laws NV} {AL : nvlist_array_laws NV}.

Lemma mk_table_entries_loop (t : table) req ent :
  npf_mk_table_entries t req ent = entries_loop (default [] (nvlist_get_nvlist_array req "entries")) t ent.
Proof. unfold npf_mk_table_entries. by destruct (nvlist_get_nvlist_array req "entries"). Qed.

Lemma add_entry_covers tl tl' af addr mask type alen addr' : entry_wf (af, addr, mask) →
  Libnpf.npf_table_add_entry tl af addr mask = (0, tl') →
  ∃ nv, same_scalars tl tl' ∧
    nvlist_get_nvlist_array tl' "entries" = Some (default [] (nvlist_get_nvlist_array tl "entries") ++ [nv]) ∧
    (nv_covers type alen addr' nv ↔ src_covers type alen addr' (af, addr, mask)).
Proof.
  intros (Haf & Hl & Hw & Hm). unfold Libnpf.npf_table_add_entry.
  assert (Libnpf._npf_add_addr nvlist_create "addr" af addr =
    Some (nvlist_add_binary nvlist_create "addr" (NpfNat.bytes_of_addr addr (af_alen af)))) as ->.
  { by destruct Haf as [-> | ->]. }
  intros [= <-]. set (b := NpfNat.bytes_of_addr addr (af_alen af)).
  assert (alen_ok (af_alen af)) as Hal by (destruct Haf as [-> | ->]; [by left|by right]).
  destruct (nv_create_empty "addr") as (_ & _ & Hb).
  destruct (nv_add_binary nvlist_create "addr" b Hb) as (Bn & _ & Bb).
  assert (nv_number (nvlist_add_binary nvlist_create "addr" b) "mask" = None) as Hn0 by (rewrite Bn; apply nv_create_empty).
  destruct (nv_add_number _ "mask" mask Hn0) as (Mn & _ & Mb).
  set (nv := nvlist_add_number _ "mask" mask) in *. exists nv.
  destruct (nv_append tl "entries" nv) as (Hs & Ha & _). split_and!; [done|by rewrite Ha|].
  assert (entry_of nv = (af_alen af, NpfNat.addr_of_bytes b, mask)) as E.
  { unfold entry_of. rewrite Mb, Bb, nv_number_default, Mn. rewrite !decide_True by done. cbn [default id].
    unfold inw in Hm. rewrite (wrap_small 64 mask), (wrap_small 8 mask) by (unfold inw; lia). unfold b. rewrite bytes_of_addr_length by (destruct Hal as [-> | ->]; lia).
    by destruct Hal as [-> | ->]. }
  unfold nv_covers. rewrite E. unfold src_covers, entry_covers. pose proof (addr_of_bytes_key addr _ Hal Hl Hw) as Hk.
  fold b in Hk. split; intros [<- Hc]; (split; [done|]).
  - destruct (type =? NPF_TABLE_LPM); [|congruence]. rewrite Hc, <- prefix_akey, Hk. apply prefix_akey.
  - destruct (type =? NPF_TABLE_LPM); [|congruence]. rewrite Hc, <- prefix_akey, <- Hk. apply prefix_akey.
Qed.

Lemma add_entries_spec type alen addr' es : ∀ tl tl', Forall entry_wf es → add_entries tl es = Some tl' →
  same_scalars tl tl' ∧
  (Exists (nv_covers type alen addr') (default [] (nvlist_get_nvlist_array tl' "entries")) ↔
   Exists (nv_covers type alen addr') (default [] (nvlist_get_nvlist_array tl "entries")) ∨
   Exists (src_covers type alen addr') es).
Proof.
  induction es as [|[[af addr] mask] es IH]; intros tl tl' Hwf; cbn [add_entries].
  { intros [= <-]. rewrite Exists_nil. split; [done|tauto]. }
  apply Forall_cons in Hwf as [Hw Hwf].
  destruct (Libnpf.npf_table_add_entry _ _ _ _) as [err tl1] eqn:E.
  destruct (err =? 0) eqn:Ee; cbn [negb]; [|done]. apply Z.eqb_eq in Ee as ->. intros Ha.
  destruct (add_entry_covers _ _ _ _ _ type alen addr' Hw E) as (nv & Hs & Harr & Hc).
  destruct (IH _ _ Hwf Ha) as [Hs' Hx]. split.
  - intros m. destruct (Hs m) as (<- & <- & <-). apply Hs'.
  - rewrite Hx, Harr. cbn [default id]. rewrite Exists_app, !Exists_cons, Exists_nil, Hc. tauto.
Qed.

Lemma table_create_ok name id type (t : table) : (type = NPF_TABLE_LPM ∨ type = NPF_TABLE_IPSET ∨ type = NPF_TABLE_IFADDR) →
  npf_table_create name id type [] = Some t →
  table_ok t ∧ not_const t ∧ t_type t = type ∧ t_list t = [] ∧ t_name t = strlcpy name NPF_TABLE_MAXNAMELEN.
Proof.
  intros [-> |[-> | ->]] [= <-]; (split_and!; [split; cbn; [constructor|by intros ? ?%elem_of_nil|]|done..]).
  - split; [|by intros ? ?%elem_of_nil]. intros k e. rewrite lpm_rep_create, lookup_empty, elem_of_nil. by split; [|intros [? _]].
  - intros k e. rewrite thmap_get_create, elem_of_nil. by split; [|intros [? _]].
  - split; [done|]. intros i el e. rewrite elem_of_nil. destruct i as [|[|]]; intros [= <-]; rewrite elem_of_nil; tauto.
Qed.

Lemma lib_table_scalars name id type : let nv := Libnpf.npf_table_create name id type in
  dnvlist_get_string nv "name" = Some name ∧ nv_number nv "id" = Some (u64 id) ∧ nv_number nv "type" = Some (u64 type) ∧
  dnvlist_get_binary nv "data" = None ∧ nvlist_get_nvlist_array nv "entries" = None.
Proof.
  cbn zeta. unfold Libnpf.npf_table_create.
  assert (∀ m, nv_number nvlist_create m = None ∧ dnvlist_get_string nvlist_create m = None ∧ dnvlist_get_binary nvlist_create m = None) as Hc
    by (intros; apply nv_create_empty).
  destruct (nv_add_string nvlist_create "name" name) as (N1 & S1 & B1); [apply Hc|].
  destruct (nv_add_string_others nvlist_create "name" name) as [A1 _]; [apply Hc|].
  set (v1 := nvlist_add_string _ _ _) in *.
  destruct (nv_add_number v1 "id" id) as (N2 & S2 & B2); [rewrite N1; apply Hc|].
  destruct (nv_add_number_others v1 "id" id) as [A2 _]; [rewrite N1; apply Hc|].
  set (v2 := nvlist_add_number v1 _ _) in *.
  assert (nv_number v2 "type" = None) as Hn by (rewrite N2, N1; cbn; apply Hc).
  destruct (nv_add_number v2 "type" (u64 type) Hn) as (N3 & S3 & B3).
  destruct (nv_add_number_others v2 "type" (u64 type) Hn) as [A3 _].
  split_and!.
  - by rewrite S3, S2, S1.
  - by rewrite N3, N2.
  - rewrite N3. cbn. f_equal. apply wrap_small, wrap_range. lia.
  - rewrite B3, B2, B1. apply Hc.
  - rewrite A3, A2, A1. apply nv_create_arrays.
Qed.

Lemma table_check_name (T : heap) tblset name tid type replacing :
  npf_table_check T tblset name tid type replacing = 0 → (String.length name < NPF_TABLE_MAXNAMELEN)%nat.
Proof.
  unfold npf_table_check. destruct (_ <=? _); [done|]. destruct (_ && _); [done|]. destruct (negb _); [done|].
  destruct (_ <=? _)%nat eqn:E; [done|]. intros _. by apply Nat.leb_gt in E.
Qed.

Lemma strlcpy_short name n : (String.length name < n)%nat → strlcpy name n = name.
Proof.
  intros Hl. apply substring_ge. lia.
Qed.

(** C38: a table that libnpf describes and the kernel accepts matches exactly
    what was written.  From a table created with [npf_table_create] and filled
    with [npf_table_add_entry], in any number of calls, [npf_mk_table] makes a
    table of that name and type, and [npf_table_lookup] finds an address if
    and only if one of the entries covers it: by its prefix in an LPM table,
    exactly in the others. *)
Theorem npf_mk_table_matches s tblset replacing name tid type es req p s' :
  type = NPF_TABLE_LPM ∨ type = NPF_TABLE_IPSET ∨ type = NPF_TABLE_IFADDR → Forall entry_wf es →
  add_entries (Libnpf.npf_table_create name tid type) es = Some req →
  npf_mk_table s tblset req replacing = (inl p, s') →
  ∃ t, ts_heap s' !! p = Some t ∧ table_ok t ∧ t_type t = type ∧ t_name t = name ∧
    ∀ alen addr, alen_ok alen → (nwords alen <= length addr)%nat →
      npf_table_lookup t alen addr = 0 ↔ Exists (src_covers type alen addr) es.
Proof.
  intros Ht Hwf Hadd. unfold npf_mk_table.
  destruct (add_entries_spec type 0 [] es _ _ Hwf Hadd) as [Hs _].
  destruct (lib_table_scalars name tid type) as (Sn & Si & St & Sd & Sa). cbn zeta in *.
  destruct (Hs "name") as (_ & -> & _), (Hs "data") as (_ & _ & ->). rewrite Sn, Sd, !nv_number_default.
  destruct (Hs "id") as (-> & _), (Hs "type") as (-> & _). rewrite Si, St. cbn [default id length].
  assert (s32 (u64 type) = type) as -> by (by destruct Ht as [-> |[-> | ->]]).
  destruct (npf_table_check _ _ _ _ _ _ =? 0) eqn:Ec; cbn [negb]; [|done].
  assert (type =? NPF_TABLE_CONST = false) as -> by (by destruct Ht as [-> |[-> | ->]]). cbn [andb].
  destruct (npf_table_create _ _ _ _) as [t0|] eqn:E0; [|done].
  destruct (table_create_ok _ _ _ _ Ht E0) as (Hok & Hnc & Hty & Hl & Hnm).
  rewrite mk_table_entries_loop. destruct (entries_loop _ _ _) as [[err t] ent] eqn:El.
  destruct (err =? 0) eqn:Ee; cbn [negb]; [|done]. apply Z.eqb_eq in Ee as ->. intros [= <- <-].
  eapply entries_loop_spec in El as (Hok' & Hnc' & Hty' & Hnm' & Hcov); [|done|done|by rewrite Hl].
  exists t. cbn [ts_heap]. rewrite lookup_insert_eq. split_and!; [done|done|congruence| |].
  - rewrite Hnm', Hnm. apply strlcpy_short. apply Z.eqb_eq in Ec. by apply table_check_name in Ec.
  - intros alen addr Ha Hal. rewrite npf_table_lookup_spec by done. rewrite Hcov, Hl, Hty.
    destruct (add_entries_spec type alen addr es _ _ Hwf Hadd) as [_ ->]. rewrite Sa. cbn [default id].
    rewrite Exists_nil. split; [|tauto]. intros [(e & []%elem_of_nil & _)|[[]|He]]; done.
Qed.

(** A constant table whose list has entries is refused: its entries stay in
    the list beside the database, and insertion into a constant table fails. *)
Lemma const_entries_refused (t : table) cdb entry entries ent : t_store t = ST_CONST cdb →
  ∃ err ent', entries_loop (entry :: entries) t ent = (err, t, ent') ∧ err ≠ 0.
Proof.
  intros Hs. cbn [entries_loop]. destruct (_ =? 0)%nat; [by repeat eexists|].
  unfold npf_table_insert. rewrite Hs. destruct (npf_netmask_check _ _ =? 0) eqn:E; cbn [negb].
  - by repeat eexists.
  - rewrite E. cbn [negb]. repeat eexists. by apply Z.eqb_neq.
Qed.

End tables.

(** ** A case *)

Definition sample_entries : list entry_src :=
  [(BpfComp.AF_INET, [0x0002010a; 0; 0; 0], 24); (BpfComp.AF_INET, [0x4d01a8c0; 0; 0; 0], NPF_NO_NETMASK)].

(** 10.1.2.0/24 and 192.168.1.77. *)
Definition sample_req : option nv_tree := add_entries (Libnpf.npf_table_create "nets" 0 NPF_TABLE_LPM) sample_entries.

Definition no_tables : tables (M := gmap (list Z) npf_tblent) (L := gmap (Z * Z * Z) npf_tblent) (C := unit) := mk_tables ∅ 1 1.

Lemma npf_mk_table_matches_witness : ∃ req p s' t,
  sample_req = Some req ∧ npf_mk_table true no_tables [None] req false = (inl p, s') ∧ ts_heap s' !! p = Some t ∧
  npf_table_lookup t 4 [0x0302010a] = 0 ∧ npf_table_lookup t 4 [0x4d01a8c0] = 0 ∧ npf_table_lookup t 4 [0x0301010a] ≠ 0.
Proof.
  destruct sample_req as [req|] eqn:Er; [|by vm_compute in Er].
  destruct (npf_mk_table true no_tables [None] req false) as [[p|err] s'] eqn:Em.
  2:{ vm_compute in Er. injection Er as <-. by vm_compute in Em. }
  destruct (npf_mk_table_matches true no_tables [None] false "nets" 0 NPF_TABLE_LPM sample_entries req p s') as (t & Ht & _ & _ & _ & Hl).
  - by left.
  - repeat constructor; try done; unfold inw; lia.
  - exact Er.
  - exact Em.
  - exists req, p, s', t. split_and!; [done|done|done| | |].
    + apply Hl; [by left|vm_compute; lia|]. apply Exists_cons_hd. by vm_compute.
    + apply Hl; [by left|vm_compute; lia|]. apply Exists_cons_tl, Exists_cons_hd. by vm_compute.
    + intros Hf. apply Hl in Hf; [|by left|vm_compute; lia].
      apply Exists_cons in Hf as [[_ Hf]|[[_ Hf]|Hf]%Exists_cons]; [by vm_compute in Hf..|by apply Exists_nil in Hf].
Defined.

End CtlTables.
