(* ===== verification/NpfConf.v ===== *)
(** * NpfConf: the active configuration (src/kern/npf_conf.c, src/kern/npf_ctl.c)

    A configuration is made from the lists of a request: parameters, ALGs,
    tables, rule procedures, NAT policies, rules and connections
    ([npfctl_load]).  [npf_config_load] activates it: dynamic rules, tables and
    NAT policies of the active configuration are carried over, and the rest of
    the old configuration is destroyed.  [npfctl_rule] changes the dynamic rules
    of the active configuration.

    The state [npf] has the rules (with what they use, in [np_ctl]), the
    tables, the parameters, the active configuration and the configuration
    lock.  [np_fault] records that the lock was taken twice or released without
    being held, or that a rule was freed that is not there.  What is used of
    connections, rule procedures, ALGs and NAT is the interface [conf_env];
    [unit_conf_env] below is a small instance of it for the examples.  Waiting for
    readers ([npf_ebr_full_sync]) has no effect on this state, and interface
    addresses ([npf_ifaddr_syncall]) are not modelled. *)

From S2P Require Import Prelude Nbuf Addr Cache Rewrite Tcpopt StateTcp State IfMap ConnKey Thmap Portmap Ruleset Tableset Conn Bpf NpfBpf NpfVar BpfComp Params Nvlist Rproc Alg NpfNat Libnpf NpfCtl CtlSave CtlTables.
From stdpp Require Import strings.
Open Scope Z_scope.
Open Scope npf_scope.

Module NpfConf.
Export NpfCtl CtlSave CtlTables Params.
Export NpfCtl (NPF_MAX_RPROCS).
Export Libnpf (NPF_CMD_RULE_ADD, NPF_CMD_RULE_REMOVE, NPF_CMD_RULE_REMKEY, NPF_CMD_RULE_LIST, NPF_CMD_RULE_FLUSH).

(** The members of a nested list in their order, with their numbers; [None]
    for a member of another type. *)
Class nvlist_dict_ops (NV : Type) := { nvlist_dict : NV → string → option (list (string * option Z)) }.

Class conf_env (X DB NV IW : Type) := {
  alg_construct : X → string → bool;
  rproc_create : X → NV → option Z * X;
  ext_construct : X → string → Z → NV → Z * X;
  conndb_create : DB;
  conn_import : X → DB → rheap → list Z → ifmap_t → IW → NV → Z * X * DB * ifmap_t * IW;
  (** [npf_conndb_gc] of a database that is not active, and its destruction. *)
  conndb_flush : X → DB → X;
  conn_load : X → option DB → bool → X;
  conn_tracking : X → bool → X;
  portmap_flush : X → X;
}.

(** Its parts are absent until they are made. *)
Record npf_config := mk_config {
  cf_ruleset : option npf_ruleset;
  cf_nat_ruleset : option npf_ruleset;
  cf_rule_procs : option (list Z);
  cf_tableset : option (list (option Z));
  cf_default_pass : bool;
}.

Section conf.
Context {X DB NV IW ifnet TM M L C : Type} {RE : rule_env X} {LE : load_env X NV} {SE : save_env X NV} {CE : conf_env X DB NV IW}.
Context {IO : npf_ifops_t IW ifnet} `{NO : nvlist_ops NV} {NA : nvlist_array_ops NV} {ND : nvlist_dict_ops NV}.
Context {PO : thmap_ops npf_param_t TM} {BO : thmap_ops npf_tblent M} {LO : lpm_ops npf_tblent L} {CO : cdbr_ops C}.
Context (kmem : bool).

Abbreviation tbls := (tables (M := M) (L := L) (C := C)).
Abbreviation ctl_t := (ctl X IW).

Record npf := mk_npf {
  np_ctl : ctl_t;
  np_tables : tbls;
  np_params : npf_paraminfo (TM := TM);
  np_config : option npf_config;
  np_locked : bool;
  np_fault : bool;
}.

Definition set_ctl (s : npf) (c : ctl_t) : npf := mk_npf c (np_tables s) (np_params s) (np_config s) (np_locked s) (np_fault s).
Definition set_tables (s : npf) (t : tbls) : npf := mk_npf (np_ctl s) t (np_params s) (np_config s) (np_locked s) (np_fault s).
Definition set_params (s : npf) (p : npf_paraminfo) : npf := mk_npf (np_ctl s) (np_tables s) p (np_config s) (np_locked s) (np_fault s).
Definition set_config (s : npf) (nc : npf_config) : npf := mk_npf (np_ctl s) (np_tables s) (np_params s) (Some nc) (np_locked s) (np_fault s).
Definition set_lock (s : npf) (b : bool) : npf := mk_npf (np_ctl s) (np_tables s) (np_params s) (np_config s) b (np_fault s).
Definition nfault (s : npf) : npf := mk_npf (np_ctl s) (np_tables s) (np_params s) (np_config s) (np_locked s) true.
Definition upd_x (s : npf) (f : X → X) : npf := set_ctl s (set_env (np_ctl s) (f (c_x (np_ctl s)))).

Definition npf_config_enter (s : npf) : npf := if np_locked s then nfault s else set_lock s true.
Definition npf_config_exit (s : npf) : npf := if np_locked s then set_lock s false else nfault s.

Definition npf_config_create : npf_config := mk_config None None None None false.

(** ** The parts of a configuration *)

Fixpoint params_loop (l : list (string * option Z)) (set : bool) (pi : npf_paraminfo) : Z * npf_paraminfo :=
  match l with
  | [] => (0, pi)
  | (_, None) :: _ => (EINVAL, pi)
  | (name, Some v) :: l =>
      let val := s32 v in
      if set then params_loop l set (snd (npfk_param_set pi name val))
      else
        let error := npf_param_check pi name val in
        if error =? 0 then params_loop l set pi else (error, pi)
  end.

Definition npf_mk_params (pi : npf_paraminfo) (req : NV) (set : bool) : Z * npf_paraminfo :=
  match nvlist_dict req "params" with
  | None => (0, pi)
  | Some params => params_loop params set pi
  end.

Fixpoint extcalls_loop (calls : list NV) (rp : Z) (x : X) : option Z * X :=
  match calls with
  | [] => (Some rp, x)
  | extcall :: calls =>
      match dnvlist_get_string extcall "name" with
      | None => (None, rproc_release x rp)
      | Some name =>
          let '(error, x) := ext_construct x name rp extcall in
          if negb (error =? 0) then (None, rproc_release x rp) else extcalls_loop calls rp x
      end
  end.

Definition npf_mk_singlerproc (x : X) (rproc : NV) : option Z * X :=
  match rproc_create x rproc with
  | (None, x) => (None, x)
  | (Some rp, x) =>
      match nvlist_get_nvlist_array rproc "extcalls" with
      | None => (Some rp, x)
      | Some calls => extcalls_loop calls rp x
      end
  end.

Fixpoint rprocs_loop (rprocs : list NV) (rpset : list Z) (x : X) : Z * list Z * X :=
  match rprocs with
  | [] => (0, rpset, x)
  | rproc :: rprocs =>
      match npf_mk_singlerproc x rproc with
      | (None, x) => (EINVAL, rpset, x)
      | (Some rp, x) => rprocs_loop rprocs (Rproc.npf_rprocset_insert rpset rp) x
      end
  end.

Definition npf_mk_rprocs (x : X) (req : NV) : Z * option (list Z) * X :=
  let rprocs := default [] (nvlist_get_nvlist_array req "rprocs") in
  if NPF_MAX_RPROCS <? Z.of_nat (length rprocs) then (E2BIG, None, x) else
  let '(error, rpset, x) := rprocs_loop rprocs Rproc.npf_rprocset_create x in (error, Some rpset, x).

Fixpoint algs_loop (algs : list NV) (x : X) : Z :=
  match algs with
  | [] => 0
  | alg :: algs =>
      match dnvlist_get_string alg "name" with
      | None => EINVAL
      | Some name => if alg_construct x name then algs_loop algs x else EINVAL
      end
  end.

Definition npf_mk_algs (x : X) (req : NV) : Z := algs_loop (default [] (nvlist_get_nvlist_array req "algs")) x.

(** The error and the rule that is stored for the caller: it is stored before
    the rule can be freed on the error paths. *)
Definition npf_mk_singlenat (c : ctl_t) (tblset : list (option Z)) (nat : NV) : Z * option Z * ctl_t :=
  match npf_mk_singlerule c nat None with
  | (inr error, c) => (error, None, c)
  | (inl rl, c) =>
      if bool_decide (is_Some (dnvlist_get_string nat "name")) then (0, Some rl, c)
      else if nvlist_exists_number nat "nat-table-id" &&
              bool_decide (npf_tableset_getbyid tblset (u32 (dnvlist_get_number nat "nat-table-id" 0)) = None)
      then (EINVAL, Some rl, rule_free c rl)
      else
        match natpolicy_create (c_x c) nat with
        | (None, x) => (ENOMEM, Some rl, rule_free (set_env c x) rl)
        | (Some np, x) => (0, Some rl, set_env (set_rules c (alter (set_natp (Some np)) rl (c_rules c))) x)
        end
  end.

Fixpoint natlist_loop (nats : list NV) (tblset : list (option Z)) (c : ctl_t) (ntset : npf_ruleset) : Z * npf_ruleset * ctl_t :=
  match nats with
  | [] => (0, ntset, c)
  | nat :: nats =>
      match npf_mk_singlenat c tblset nat with
      | (error, rl, c) =>
          if negb (error =? 0) then (error, ntset, c) else
          match rl with
          | None => (0, ntset, c)
          | Some rl => let '(T, ntset) := npf_ruleset_insert (c_rules c) ntset rl in natlist_loop nats tblset (set_rules c T) ntset
          end
      end
  end.

Definition npf_mk_natlist (c : ctl_t) (tblset : list (option Z)) (req : NV) : Z * option npf_ruleset * ctl_t :=
  let nats := default [] (nvlist_get_nvlist_array req "nat") in
  if NPF_MAX_RULES <? Z.of_nat (length nats) then (E2BIG, None, c) else
  let '(error, ntset, c) := natlist_loop nats tblset c (npf_ruleset_create (Z.of_nat (length nats))) in (error, Some ntset, c).

Fixpoint connlist_loop (conns : list NV) (all : list Z) (c : ctl_t) (cd : DB) : Z * DB * ctl_t :=
  match conns with
  | [] => (0, cd, c)
  | conn :: conns =>
      let '(error, x, cd, m, w) := conn_import (c_x c) cd (c_rules c) all (c_ifmap c) (c_ifw c) conn in
      let c := mk_ctl (c_rules c) (c_next c) (c_codes c) (c_ncode c) m w x in
      if negb (error =? 0) then (error, cd, c) else connlist_loop conns all c cd
  end.

Definition npf_mk_connlist (c : ctl_t) (ntset : npf_ruleset) (req : NV) : Z * option DB * ctl_t :=
  match nvlist_get_nvlist_array req "conn-list" with
  | None => (0, None, c)
  | Some conns =>
      let '(error, cd, c) := connlist_loop conns (rs_all ntset) c conndb_create in
      if negb (error =? 0) then (error, None, set_env c (conndb_flush (c_x c) cd)) else (0, Some cd, c)
  end.


(** ** Destruction *)

(** Rules are freed with their code. *)
Definition free_rules (c : ctl_t) (l : list Z) : ctl_t := foldl rule_free c l.

Definition ruleset_gc (c : ctl_t) (rs : npf_ruleset) : npf_ruleset * ctl_t :=
  (mk_ruleset (rs_all rs) (rs_dynamic rs) [] (rs_idcnt rs) (rs_slots rs) (rs_rules rs), free_rules c (rs_gc rs)).

Definition ruleset_destroy (c : ctl_t) (rs : npf_ruleset) : ctl_t := snd (ruleset_gc (free_rules c (rs_all rs)) rs).

Definition npf_config_destroy (s : npf) (nc : npf_config) : npf :=
  let s := match cf_ruleset nc with Some rs => set_ctl s (ruleset_destroy (np_ctl s) rs) | None => s end in
  let s := match cf_nat_ruleset nc with Some rs => set_ctl s (ruleset_destroy (np_ctl s) rs) | None => s end in
  let s := match cf_rule_procs nc with Some l => upd_x s (λ x, foldl rproc_release x l) | None => s end in
  match cf_tableset nc with
  | Some ts => set_tables s (mk_tables (npf_tableset_destroy (ts_heap (np_tables s)) ts) (ts_next (np_tables s)) (ts_ent (np_tables s)))
  | None => s
  end.

(** ** Activation *)

Definition ifmap_flush (s : npf) : npf :=
  let c := np_ctl s in
  let '(m, w) := npf_ifmap_flush (c_ifmap c) (c_ifw c) in
  set_ctl s (mk_ctl (c_rules c) (c_next c) (c_codes c) (c_ncode c) m w (c_x c)).

(** The reload of one ruleset of the configuration: the new and the old one. *)
Definition ruleset_reload (s : npf) (newset oldset : option npf_ruleset) (load : bool) :
    option (option npf_ruleset * option npf_ruleset * npf) :=
  newset ← newset; oldset ← oldset;
  '(T, newset, oldset, x) ← npf_ruleset_reload (c_rules (np_ctl s)) newset oldset load (c_x (np_ctl s));
  Some (Some newset, Some oldset, set_ctl s (set_env (set_rules (np_ctl s) T) x)).

(** [None] where a part of a configuration is missing or a list is broken. *)
Definition npf_config_load (s : npf) (nc : npf_config) (conns : option DB) (flush : bool) : option npf :=
  let load := bool_decide (is_Some conns) in
  let s := npf_config_enter s in
  match np_config s with
  | None =>
      let s := set_config s (mk_config (cf_ruleset nc) (cf_nat_ruleset nc) (cf_rule_procs nc) (cf_tableset nc) flush) in
      let s := ifmap_flush s in
      Some (npf_config_exit (upd_x s (λ x, conn_load x conns (negb flush))))
  | Some onc =>
      '(rs, ors, s) ← ruleset_reload s (cf_ruleset nc) (cf_ruleset onc) load;
      nts ← cf_tableset nc; ots ← cf_tableset onc;
      let '(T, nts) := npf_tableset_reload (ts_heap (np_tables s)) nts ots in
      let s := set_tables s (mk_tables T (ts_next (np_tables s)) (ts_ent (np_tables s))) in
      '(ns, ons, s) ← ruleset_reload s (cf_nat_ruleset nc) (cf_nat_ruleset onc) load;
      let s := set_config s (mk_config rs ns (cf_rule_procs nc) (Some nts) flush) in
      let s := if flush || load then upd_x s (λ x, conn_tracking x false) else s in
      let s := if flush then ifmap_flush (upd_x s portmap_flush) else s in
      let s := upd_x s (λ x, conn_load x conns (negb flush)) in
      let s := npf_config_exit s in
      Some (npf_config_destroy s (mk_config ors ons (cf_rule_procs onc) (Some ots) (cf_default_pass onc)))
  end.

(** An empty configuration that passes everything. *)
Definition npf_config_init (s : npf) : option npf :=
  npf_config_load s (mk_config (Some (npf_ruleset_create 0)) (Some (npf_ruleset_create 0)) (Some Rproc.npf_rprocset_create)
                       (Some (npf_tableset_create 0)) true) None true.

Definition npf_config_fini (s : npf) : npf :=
  let s := npf_config_enter s in
  let s := upd_x s (λ x, conn_tracking x false) in
  let s := upd_x s (λ x, conn_load x (Some conndb_create) false) in
  let s := npf_config_exit (ifmap_flush s) in
  match np_config s with
  | Some nc => npf_config_destroy s nc
  | None => nfault s
  end.

(** The error; on failure what was made of the new configuration is destroyed. *)
Definition npfctl_load (s : npf) (req : NV) : option (Z * npf) :=
  let nc := npf_config_create in
  let fail error s nc := Some (error, npf_config_destroy s nc) in
  let '(error, _) := npf_mk_params (np_params s) req false in
  if negb (error =? 0) then fail error s nc else
  let error := npf_mk_algs (c_x (np_ctl s)) req in
  if negb (error =? 0) then fail error s nc else
  let '(error, ts, t) := npf_mk_tables kmem (np_tables s) req in
  let s := set_tables s t in let nc := mk_config None None None ts false in
  if negb (error =? 0) then fail error s nc else
  let '(error, rp, x) := npf_mk_rprocs (c_x (np_ctl s)) req in
  let s := upd_x s (λ _, x) in let nc := mk_config None None rp ts false in
  if negb (error =? 0) then fail error s nc else
  let '(error, ns, c) := npf_mk_natlist (np_ctl s) (default [] ts) req in
  let s := set_ctl s c in let nc := mk_config None ns rp ts false in
  if negb (error =? 0) then fail error s nc else
  let '(error, rs, c) := npf_mk_rules (np_ctl s) req rp in
  let s := set_ctl s c in let nc := mk_config rs ns rp ts false in
  if negb (error =? 0) then fail error s nc else
  let '(error, conndb, c) := npf_mk_connlist (np_ctl s) (default (npf_ruleset_create 0) ns) req in
  let s := set_ctl s c in
  if negb (error =? 0) then fail error s nc else
  s ← npf_config_load s nc conndb (dnvlist_get_bool req "flush" false);
  Some (0, set_params s (snd (npf_mk_params (np_params s) req true))).

(** ** Dynamic rules *)

Definition config_rules (nc : npf_config) (natset : bool) : option npf_ruleset :=
  if natset then cf_nat_ruleset nc else cf_ruleset nc.
Definition set_config_rules (nc : npf_config) (natset : bool) (rs : npf_ruleset) : npf_config :=
  if natset then mk_config (cf_ruleset nc) (Some rs) (cf_rule_procs nc) (cf_tableset nc) (cf_default_pass nc)
  else mk_config (Some rs) (cf_nat_ruleset nc) (cf_rule_procs nc) (cf_tableset nc) (cf_default_pass nc).

(** [npf_rule_free] of a rule that was freed before is recorded. *)
Definition free_rule (s : npf) (rl : Z) : npf :=
  match c_rules (np_ctl s) !! rl with
  | Some _ => set_ctl s (rule_free (np_ctl s) rl)
  | None => nfault s
  end.

Definition rule_add (s : npf) (nc : npf_config) (rs : npf_ruleset) (natset : bool) (name : string) (req : NV) : option (Z * option Z * npf) :=
  let '(error, rl, c) :=
    if natset then npf_mk_singlenat (np_ctl s) (default [] (cf_tableset nc)) req
    else match npf_mk_singlerule (np_ctl s) req None with (inl rl, c) => (0, Some rl, c) | (inr error, c) => (error, None, c) end in
  let s := set_ctl s c in
  let out error s rl := let s := npf_config_exit s in Some (error, None, match rl with Some rl => free_rule s rl | None => s end) in
  if negb (error =? 0) then out error s rl else
  rl ← rl;
  '(error, T, rs) ← npf_ruleset_add (c_rules (np_ctl s)) rs name rl;
  let s := set_config (set_ctl s (set_rules (np_ctl s) T)) (set_config_rules nc natset rs) in
  if error =? 0 then Some (0, r_id <$> T !! rl, npf_config_exit s) else out error s (Some rl).

(** After a removal: set the rules and, on success, destroy the removed ones. *)
Definition rules_removed (s : npf) (nc : npf_config) (natset : bool) (r : Z * rheap * npf_ruleset) : option (Z * option Z * NV * npf) :=
  let '(error, T, rs) := r in
  let s := set_ctl s (set_rules (np_ctl s) T) in
  let '(rs, c) := if error =? 0 then ruleset_gc (np_ctl s) rs else (rs, np_ctl s) in
  Some (error, None, nvlist_create, npf_config_exit (set_config (set_ctl s c) (set_config_rules nc natset rs))).

(** The error, the ID of an added rule, and the list for a listing. *)
Definition npfctl_rule (s : npf) (req : NV) : option (Z * option Z * NV * npf) :=
  let rcmd := u32 (dnvlist_get_number req "command" 0) in
  let natset := dnvlist_get_bool req "nat-ruleset" false in
  match dnvlist_get_string req "ruleset-name" with
  | None => Some (EINVAL, None, nvlist_create, npf_config_exit s)
  | Some name =>
      let s := npf_config_enter s in
      nc ← np_config s;
      rs ← config_rules nc natset;
      let T := c_rules (np_ctl s) in
      if rcmd =? NPF_CMD_RULE_ADD then '(error, id, s) ← rule_add s nc rs natset name req; Some (error, id, nvlist_create, s)
      else if rcmd =? NPF_CMD_RULE_REMOVE then npf_ruleset_remove T rs name (dnvlist_get_number req "id" (2 ^ 64 - 1)) ≫= rules_removed s nc natset
      else if rcmd =? NPF_CMD_RULE_REMKEY then
        let key := default [] (dnvlist_get_binary req "key") in
        if (length key =? 0)%nat || (NPF_RULE_MAXKEYLEN <? length key)%nat then Some (EINVAL, None, nvlist_create, npf_config_exit s)
        else npf_ruleset_remkey T rs name key ≫= rules_removed s nc natset
      else if rcmd =? NPF_CMD_RULE_LIST then
        '(error, nv, c) ← npf_ruleset_list (np_ctl s) rs name nvlist_create;
        Some (error, None, nv, npf_config_exit (set_ctl s c))
      else if rcmd =? NPF_CMD_RULE_FLUSH then npf_ruleset_flush T rs name ≫= rules_removed s nc natset
      else Some (EINVAL, None, nvlist_create, npf_config_exit s)
  end.

End conf.


(** ** Rules are owned by the rulesets *)

(** The rules in memory are those of the list, each once. *)
Definition owned (T : rheap) (l : list Z) : Prop := NoDup l ∧ ∀ p, is_Some (T !! p) ↔ p ∈ l.

Lemma owned_perm T l l' : l ≡ₚ l' → owned T l → owned T l'.
Proof. intros Hp [H1 H2]. split; [by rewrite <- Hp|]. intros p. by rewrite <- Hp. Qed.

(** A ruleset between requests: the lists of its groups are proper and made
    of its own rules, and no removed rule waits for destruction. *)
Record set_inv (T : rheap) (rs : npf_ruleset) : Prop := {
  si_dyn : dyn_inv T rs;
  si_all : ∀ g, g ∈ rs_dynamic rs → g ∈ rs_all rs ∧ ∀ x, x ∈ group_rules T g → x ∈ rs_all rs;
  si_cnt : 0 <= rs_idcnt rs;
  si_gc : rs_gc rs = [];
}.

Lemma group_rules_frame T T' g l : chain T (match T !! g with Some r => r_subset r | None => None end) l →
  (∀ x, x = g ∨ x ∈ l → T' !! x = T !! x) → group_rules T' g = group_rules T g.
Proof.
  intros Hc Hs. unfold group_rules. rewrite (Hs g) by auto. destruct (T !! g) as [r|]; [|done].
  assert (chain T' (r_subset r) l) as Hc' by (eapply chain_frame; [exact Hc|]; intros x y Hx Hy; exists y; rewrite Hs by auto; done).
  by rewrite (walk_spec _ _ l _ Hc (chain_fuel _ _ _ Hc)), (walk_spec _ _ l _ Hc' (chain_fuel _ _ _ Hc')).
Qed.

(** What a ruleset needs of memory are its own rules. *)
Lemma set_inv_frame T T' rs : set_inv T rs → (∀ p, p ∈ rs_all rs → T' !! p = T !! p) → set_inv T' rs.
Proof.
  intros [Hd Ha Hc Hg] Hs.
  assert (∀ g, g ∈ rs_dynamic rs → ∃ l, group_ok T (rs_idcnt rs) g l ∧ ∀ x, x = g ∨ x ∈ l → T' !! x = T !! x) as Hgr.
  { intros g Hin. destruct (Hd g Hin) as [l Hok]. exists l. split; [done|]. destruct (Ha g Hin) as [Hg1 Hg2].
    rewrite (group_rules_ok _ _ _ _ Hok) in Hg2. intros x [->|Hx]; apply Hs; auto. }
  split; try done.
  - intros g Hin. destruct (Hgr g Hin) as (l & Hok & Hx). exists l. eapply group_frame; [done|lia|done].
  - intros g Hin. destruct (Hgr g Hin) as (l & Hok & Hx). destruct (Ha g Hin) as [Hg1 Hg2]. split; [done|].
    destruct (go_group _ _ _ _ Hok) as (r & Hr & _ & Hch). rewrite (group_rules_frame T T' g l); [done| |done]. by rewrite Hr.
Qed.

Lemma member_group T rs g g' x : set_inv T rs → g ∈ rs_dynamic rs → g' ∈ rs_dynamic rs → x ∈ group_rules T g → x ∈ group_rules T g' → g = g'.
Proof.
  intros Hi Hg Hg' Hx Hx'. destruct (si_dyn _ _ Hi g Hg) as [l Hok], (si_dyn _ _ Hi g' Hg') as [l' Hok'].
  rewrite (group_rules_ok _ _ _ _ Hok) in Hx. rewrite (group_rules_ok _ _ _ _ Hok') in Hx'.
  destruct (go_rules _ _ _ _ Hok x Hx) as (r & Hr & _ & Hp & _), (go_rules _ _ _ _ Hok' x Hx') as (r' & Hr' & _ & Hp' & _). congruence.
Qed.

Lemma member_not_group T rs g g' x : set_inv T rs → g ∈ rs_dynamic rs → g' ∈ rs_dynamic rs → x ∈ group_rules T g → x ≠ g'.
Proof.
  intros Hi Hg Hg' Hx ->. destruct (si_dyn _ _ Hi g Hg) as [l Hok], (si_dyn _ _ Hi g' Hg') as [l' Hok'].
  rewrite (group_rules_ok _ _ _ _ Hok) in Hx. destruct (go_rules _ _ _ _ Hok g' Hx) as (r & Hr & Hd & _).
  destruct (go_group _ _ _ _ Hok') as (r' & Hr' & Hd' & _). eapply dyn_kinds; [exact Hd|]. congruence.
Qed.

(** The ruleset without the list of removed rules. *)
Definition no_gc (rs : npf_ruleset) : npf_ruleset := mk_ruleset (rs_all rs) (rs_dynamic rs) [] (rs_idcnt rs) (rs_slots rs) (rs_rules rs).

Lemma alter_dom (T : rheap) f q p : is_Some (alter f q T !! p) ↔ is_Some (T !! p).
Proof. rewrite lookup_alter_is_Some. done. Qed.

(** Removing a rule from its group and destroying it. *)
Lemma unlink_ok T rs rg l1 x r l2 : set_inv T rs → rg ∈ rs_dynamic rs → group_ok T (rs_idcnt rs) rg (l1 ++ x :: l2) → T !! x = Some r →
  let '(T', rs') := npf_ruleset_unlink T rs x r (last l1) in
  rs_all rs' = list_remove x (rs_all rs) ∧ rs_gc rs' = [x] ∧ x ∈ rs_all rs ∧
  (∀ p, is_Some (T' !! p) ↔ is_Some (T !! p)) ∧ (∀ p, p ∉ rs_all rs → T' !! p = T !! p) ∧
  ∀ T2, (∀ p, p ≠ x → T2 !! p = T' !! p) → set_inv T2 (no_gc rs').
Proof.
  intros Hi Hin Hok Hr. pose proof (unlink_inv T rs rg l1 x r l2 (si_dyn _ _ Hi) Hin Hok Hr) as Hun.
  destruct (si_all _ _ Hi rg Hin) as [Hrg Hmem]. pose proof (group_rules_ok _ _ _ _ Hok) as El. rewrite El in Hmem.
  assert (x ∈ group_rules T rg) as Hxg by (rewrite El; set_solver).
  assert (∀ p, last l1 = Some p → p ∈ rs_all rs) as Hlast by (intros p Hp%last_Some_elem_of; apply Hmem; set_solver).
  destruct (go_rules _ _ _ _ Hok x ltac:(set_solver)) as (r0 & Hr0 & _ & Hpar & _). rewrite Hr in Hr0. injection Hr0 as <-.
  destruct (npf_ruleset_unlink T rs x r (last l1)) as [T' rs'] eqn:E. destruct Hun as (Hd & _ & Hgr).
  assert (rs_all rs' = list_remove x (rs_all rs) ∧ rs_gc rs' = x :: rs_gc rs ∧ rs_dynamic rs' = rs_dynamic rs ∧ rs_idcnt rs' = rs_idcnt rs ∧
    (∀ p, is_Some (T' !! p) ↔ is_Some (T !! p)) ∧ (∀ p, p ∉ rs_all rs → T' !! p = T !! p)) as (E1 & E2 & E3 & E4 & E5 & E6).
  { unfold npf_ruleset_unlink in E. rewrite Hpar in E. injection E as <- <-. cbn. split_and!; try done.
    - intros p. destruct (last l1); apply alter_dom.
    - intros p Hp. destruct (last l1) as [q|]; rewrite lookup_alter_ne; try done; intros ->; apply Hp; auto. }
  rewrite (si_gc _ _ Hi) in E2. split_and!; try done; [apply Hmem; set_solver|].
  intros T2 HT2. assert (set_inv T' (no_gc rs')) as Hset.
  { split; cbn; [intros g Hg; exact (Hd g Hg)| |rewrite E4; apply (si_cnt _ _ Hi)|done].
    intros g Hg. rewrite E3 in Hg. rewrite E1, Hgr by done. destruct (si_all _ _ Hi g Hg) as [Hga Hgm]. split.
    - apply list_remove_elem. split; [done|]. intros ->. by eapply (member_not_group T rs rg x x).
    - intros y Hy. apply list_remove_elem. case_decide as Eg.
      + subst g. split; [apply Hmem; set_solver|]. intros ->. destruct (go_group _ _ _ _ Hok) as (g0 & _ & _ & Hch).
        apply chain_nodup in Hch. apply NoDup_app in Hch as (_ & Hd1 & [Hx _]%NoDup_cons). apply elem_of_app in Hy as [Hy|Hy]; [|done].
        apply (Hd1 x Hy). set_solver.
      + split; [by apply Hgm|]. intros ->. by destruct Eg, (member_group T rs g rg x Hi Hg Hin Hy Hxg). }
  apply (set_inv_frame T' T2); [done|]. intros p Hp. apply HT2. cbn in Hp. rewrite E1 in Hp. by apply list_remove_elem in Hp as [_ ?].
Qed.

(** The loop over the keys finds a rule of the list, with its predecessor. *)
Lemma remkey_loop_spec fuel T key l : ∀ pre p lst, chain T p l → (length l <= fuel)%nat →
  (∀ x r q, lst = Some (x, r, q) → ∃ l1 l2, pre = l1 ++ x :: l2 ∧ T !! x = Some r ∧ q = last l1) →
  ∃ res, remkey_loop fuel T key lst (last pre) p = Some res ∧
    ∀ x r q, res = Some (x, r, q) → ∃ l1 l2, pre ++ l = l1 ++ x :: l2 ∧ T !! x = Some r ∧ q = last l1.
Proof.
  revert l. induction fuel as [|fuel IH]; intros [|x l] pre p lst; cbn [length]; try lia.
  1-2: intros -> _ Hl; exists lst; rewrite app_nil_r; done.
  intros [-> (r & Hr & Hc)] Hf Hl. cbn [remkey_loop]. rewrite Hr.
  assert (Some x = last (pre ++ [x])) as -> by (by rewrite last_snoc).
  destruct (IH l (pre ++ [x]) (r_next r) (if decide (take (length key) (r_key r) = key) then Some (x, r, last pre) else lst) Hc ltac:(lia))
    as (res & E & Hres).
  - intros y ry q. case_decide.
    + intros [= <- <- <-]. exists pre, []. done.
    + intros Hy. destruct (Hl y ry q Hy) as (l1 & l2 & -> & Hry & ->). exists l1, (l2 ++ [x]). by rewrite <- app_assoc.
  - exists res. split; [done|]. intros y ry q Hy. destruct (Hres y ry q Hy) as (l1 & l2 & El & ?). exists l1, l2.
    by rewrite <- El, <- app_assoc.
Qed.

(** A removal finds nothing, or takes one rule of the ruleset off its list. *)
Definition removal (T : rheap) (rs : npf_ruleset) (res : option (Z * rheap * npf_ruleset)) : Prop :=
  (∃ e, e ≠ 0 ∧ res = Some (e, T, rs)) ∨
  ∃ x T' rs', res = Some (0, T', rs') ∧ rs_all rs' = list_remove x (rs_all rs) ∧ rs_gc rs' = [x] ∧ x ∈ rs_all rs ∧
    (∀ p, is_Some (T' !! p) ↔ is_Some (T !! p)) ∧ (∀ p, p ∉ rs_all rs → T' !! p = T !! p) ∧
    ∀ T2, (∀ p, p ≠ x → T2 !! p = T' !! p) → set_inv T2 (no_gc rs').

Lemma remove_removal T rs name id : set_inv T rs → removal T rs (npf_ruleset_remove T rs name id).
Proof.
  intros Hi. unfold npf_ruleset_remove. destruct (npf_ruleset_lookup T rs name) as [rg|] eqn:Hlk; [|by left; exists ESRCH].
  pose proof (npf_ruleset_lookup_In _ _ _ _ Hlk) as Hin. destruct (si_dyn _ _ Hi rg Hin) as [l Hok].
  destruct (go_group _ _ _ _ Hok) as (g & -> & _ & Hc).
  destruct (remove_loop_spec (list_fuel T) T rs id l [] (r_subset g) Hc (chain_fuel _ _ _ Hc))
    as [(l1 & x & r & l2 & -> & Hr & _ & _ & E)|[_ E]]; cbn [last app] in E; rewrite E; [right|by left; exists ENOENT].
  pose proof (unlink_ok T rs rg l1 x r l2 Hi Hin Hok Hr) as Hu.
  destruct (npf_ruleset_unlink T rs x r (last l1)) as [T' rs']. by exists x, T', rs'.
Qed.

Lemma remkey_removal T rs name key : set_inv T rs → removal T rs (npf_ruleset_remkey T rs name key).
Proof.
  intros Hi. unfold npf_ruleset_remkey. destruct (npf_ruleset_lookup T rs name) as [rg|] eqn:Hlk; [|by left; exists ESRCH].
  pose proof (npf_ruleset_lookup_In _ _ _ _ Hlk) as Hin. destruct (si_dyn _ _ Hi rg Hin) as [l Hok].
  destruct (go_group _ _ _ _ Hok) as (g & -> & _ & Hc).
  destruct (remkey_loop_spec (list_fuel T) T key l [] (r_subset g) None Hc (chain_fuel _ _ _ Hc)) as (res & E & Hres); [done|].
  cbn [last] in E. rewrite E. destruct res as [[[x r] q]|]; [right|by left; exists ENOENT].
  destruct (Hres x r q eq_refl) as (l1 & l2 & El & Hr & ->). cbn [app] in El. subst l.
  pose proof (unlink_ok T rs rg l1 x r l2 Hi Hin Hok Hr) as Hu.
  destruct (npf_ruleset_unlink T rs x r (last l1)) as [T' rs']. by exists x, T', rs'.
Qed.

(** Adding changes the rules of the ruleset and the new rule only. *)
Lemma add_frame_all T rs name rl r e T' rs' : set_inv T rs → T !! rl = Some r → rl ∉ rs_all rs →
  npf_ruleset_add T rs name rl = Some (e, T', rs') →
  (∀ p, is_Some (T' !! p) ↔ is_Some (T !! p)) ∧ (∀ p, p ∉ rl :: rs_all rs → T' !! p = T !! p) ∧
  (e = 0 → rs_all rs' = rl :: rs_all rs ∧ rs_gc rs' = rs_gc rs) ∧ (e ≠ 0 → T' = T ∧ rs' = rs).
Proof.
  intros Hi Hr Hfr. unfold npf_ruleset_add. rewrite Hr. destruct (negb _); [by intros [= <- <- <-]|].
  destruct (npf_ruleset_lookup T rs name) as [rg|] eqn:Hlk; [|by intros [= <- <- <-]].
  pose proof (npf_ruleset_lookup_In _ _ _ _ Hlk) as Hin. destruct (si_all _ _ Hi rg Hin) as [Hrg Hmem].
  assert (rg ≠ rl) as Hne by (intros ->; done).
  set (r1 := set_priority _ _). set (T1 := <[rl := r1]> T). unfold T1 at 1. rewrite lookup_insert_ne by done.
  destruct (si_dyn _ _ Hi rg Hin) as [l Hok]. destruct (go_group _ _ _ _ Hok) as (g & Hg & _ & Hc). rewrite Hg.
  rewrite (group_rules_ok _ _ _ _ Hok) in Hmem.
  assert (∀ f h, (∀ p, is_Some (alter f rg (alter h rl T1) !! p) ↔ is_Some (T !! p)) ∧
    ∀ p, p ∉ rl :: rs_all rs → alter f rg (alter h rl T1) !! p = T !! p) as Hfirst.
  { intros f h. split.
    - intros p. rewrite !alter_dom. unfold T1. destruct (decide (p = rl)) as [->|]; [rewrite lookup_insert_eq, Hr; by split; eexists|].
      by rewrite lookup_insert_ne.
    - intros p Hp. rewrite !lookup_alter_ne by (intros ->; set_solver). unfold T1. rewrite lookup_insert_ne; [done|]. intros ->; set_solver. }
  destruct (_ =? NPF_PRI_FIRST); [intros [= <- <- <-]; split_and!; (apply Hfirst || done)|].
  assert (chain T1 (r_subset g) l) as Hc1.
  { eapply chain_frame; [exact Hc|]. intros x y Hx Hy. exists y. unfold T1. rewrite lookup_insert_ne; [done|]. intros ->. by apply Hfr, Hmem. }
  rewrite (add_target_spec _ _ _ l _ _ Hc1 (chain_fuel _ _ _ Hc1)).
  set (pr := if r_priority r <? 0 then 0 else r_priority r).
  destruct (last (fst (split_prio T1 pr l))) as [t|] eqn:Et; [|intros [= <- <- <-]; split_and!; (apply Hfirst || done)].
  assert (t ∈ l) as Htl.
  { apply last_Some_elem_of in Et. rewrite <- (split_prio_app T1 pr l). set_solver. }
  assert (t ≠ rl) as Htr by (intros ->; by apply Hfr, Hmem).
  unfold T1 at 1. rewrite lookup_insert_ne by done. destruct (T !! t) as [tr|]; [|done]. intros [= <- <- <-]. split_and!; try done.
  - intros p. rewrite !alter_dom. unfold T1. destruct (decide (p = rl)) as [->|]; [rewrite lookup_insert_eq, Hr; by split; eexists|].
    by rewrite lookup_insert_ne.
  - intros p Hp. apply not_elem_of_cons in Hp as [Hp1 Hp2]. rewrite lookup_alter_ne by (intros ->; by apply Hp2, Hmem).
    rewrite lookup_alter_ne by done. unfold T1. by rewrite lookup_insert_ne.
Qed.

Lemma insert_prio_elem T cmd rl l x : x ∈ insert_prio T cmd rl l → x = rl ∨ x ∈ l.
Proof.
  unfold insert_prio. destruct (_ =? _); [by rewrite elem_of_cons|]. pose proof (split_prio_app T (if cmd <? 0 then 0 else cmd) l) as E.
  destruct (split_prio _ _ _) as [a b]. cbn in E. subst l. rewrite !elem_of_app, elem_of_cons. tauto.
Qed.

Lemma add_ok T rs name rl r : set_inv T rs → T !! rl = Some r → rl ∉ rs_all rs → rs_idcnt rs < 2 ^ 64 - 1 →
  ∃ e T' rs', npf_ruleset_add T rs name rl = Some (e, T', rs') ∧ (∀ p, is_Some (T' !! p) ↔ is_Some (T !! p)) ∧
    (∀ p, p ∉ rl :: rs_all rs → T' !! p = T !! p) ∧
    ((e = 0 ∧ rs_all rs' = rl :: rs_all rs ∧ set_inv T' rs') ∨ (e ≠ 0 ∧ T' = T ∧ rs' = rs)).
Proof.
  intros Hi Hr Hfr Hcnt. assert (∃ e T' rs', npf_ruleset_add T rs name rl = Some (e, T', rs') ∧ (e = 0 → set_inv T' (no_gc rs'))) as (e & T' & rs' & E & Hset).
  { destruct (NPF_DYNAMIC_RULE_P (r_attr r)) eqn:Ed.
    2:{ exists EINVAL, T, rs. unfold npf_ruleset_add. by rewrite Hr, Ed. }
    destruct (npf_ruleset_lookup T rs name) as [rg|] eqn:Hlk.
    2:{ exists ESRCH, T, rs. unfold npf_ruleset_add. by rewrite Hr, Ed, Hlk. }
    destruct (npf_ruleset_add_spec T rs name rl r rg (si_dyn _ _ Hi) Hr) as (T' & rs' & E & Hd & Hc & Hdy & _ & Hgr); try done.
    { split; [apply (si_cnt _ _ Hi)|done]. }
    { intros g Hg Hx. by apply Hfr, (si_all _ _ Hi g Hg). }
    exists 0, T', rs'. split; [done|]. intros _. destruct (add_frame_all _ _ _ _ _ _ _ _ Hi Hr Hfr E) as (_ & _ & Hall & _).
    destruct (Hall eq_refl) as [Ha Hg0]. split; cbn; [exact Hd| |pose proof (si_cnt _ _ Hi); lia|done].
    intros g Hg. rewrite Hdy in Hg. destruct (si_all _ _ Hi g Hg) as [Hga Hgm]. rewrite Ha. split; [set_solver|].
    intros x. rewrite Hgr by done. case_decide; [subst g; intros [->|Hx]%insert_prio_elem|]; set_solver. }
  exists e, T', rs'. destruct (add_frame_all _ _ _ _ _ _ _ _ Hi Hr Hfr E) as (Hdom & Hfrm & H0 & H1). split_and!; try done.
  destruct (decide (e = 0)) as [He|He]; [left|right; split; [done|by apply H1]]. destruct (H0 He) as [Ha Hg0]. split_and!; try done.
  destruct (Hset He) as [D1 D2 D3 D4]. split; try done. rewrite Hg0. apply (si_gc _ _ Hi).
Qed.

Section rules.
Context {X DB NV IW ifnet TM M L C : Type} {RE : rule_env X} {LE : load_env X NV} {SE : save_env X NV} {CE : conf_env X DB NV IW}.
Context {IO : npf_ifops_t IW ifnet} `{NO : nvlist_ops NV} {NA : nvlist_array_ops NV} {ND : nvlist_dict_ops NV}.
Context {PO : thmap_ops npf_param_t TM} {BO : thmap_ops npf_tblent M} {LO : lpm_ops npf_tblent L} {CO : cdbr_ops C}.
Implicit Types (c : ctl X IW) (nv : NV).

Lemma rule_free_rules c rl : c_rules (rule_free c rl) = delete rl (c_rules c) ∧ c_next (rule_free c rl) = c_next c.
Proof.
  unfold rule_free, npf_rule_free. destruct (c_rules c !! rl) as [r|] eqn:E; cbn; [done|]. split; [|done].
  by rewrite delete_id.
Qed.

(** A new rule is at the next address; where making one fails the rules are
    as before. *)
Lemma mk_singlerule_heap c nv rpset res c' : (∀ p, is_Some (c_rules c !! p) → p < c_next c) → npf_mk_singlerule c nv rpset = (res, c') →
  c_next c <= c_next c' ∧
  match res with
  | inl rl => rl = c_next c ∧ c_next c' = c_next c + 1 ∧ ∃ r, c_rules c' = <[rl := r]> (c_rules c)
  | inr e => e ≠ 0 ∧ c_rules c' = c_rules c
  end.
Proof.
  intros Hn. assert (c_rules c !! c_next c = None) as Hfr.
  { destruct (c_rules c !! c_next c) eqn:E; [|done]. specialize (Hn (c_next c) ltac:(by eexists)). lia. }
  unfold npf_mk_singlerule, npf_rule_alloc.
  destruct (match dnvlist_get_string nv "ifname" with Some _ => _ | None => _ end) as [[id m] w].
  destruct (bool_decide _ && _); [intros [= <- <-]; cbn; split; [lia|done]|].
  set (r := rule_of_nv nv id).
  set (al := match dnvlist_get_binary nv "key" with Some _ => _ | None => _ end).
  assert (al = (None, mk_ctl (c_rules c) (c_next c) (c_codes c) (c_ncode c) m w (c_x c)) ∨
    al = (Some (c_next c), mk_ctl (<[c_next c := r]> (c_rules c)) (c_next c + 1) (c_codes c) (c_ncode c) m w (c_x c))) as [->| ->].
  { unfold al. destruct (dnvlist_get_binary nv "key"); [destruct (_ <? _)%nat; [by left|]|]; by right. }
  { intros [= <- <-]. cbn. split; [lia|done]. }
  set (c1 := mk_ctl (<[c_next c := r]> _) _ _ _ _ _ _).
  set (rp := match dnvlist_get_string nv "rproc" with Some _ => _ | None => _ end).
  assert (∀ e c2 r2, c_rules c2 = <[c_next c := r2]> (c_rules c) → c_next c2 = c_next c + 1 → e ≠ 0 →
    c_next c <= c_next (rule_free c2 (c_next c)) ∧ e ≠ 0 ∧ c_rules (rule_free c2 (c_next c)) = c_rules c) as Hfree.
  { intros e c2 r2 Hr2 Hn2 He. destruct (rule_free_rules c2 (c_next c)) as [-> ->]. rewrite Hr2, delete_insert_eq, delete_id by done. split; [lia|done]. }
  destruct rp as [c2|] eqn:Erp; [|intros [= <- <-]; by eapply (Hfree EINVAL c1 r)].
  assert (∃ r2, c_rules c2 = <[c_next c := r2]> (c_rules c) ∧ c_next c2 = c_next c + 1) as (r2 & Hr2 & Hn2).
  { unfold rp in Erp. destruct (dnvlist_get_string nv "rproc") as [n|]; [|injection Erp as <-; by exists r].
    destruct rpset as [set|]; [|done]. destruct (rproc_lookup _ _ _) as [q|]; [|done]. unfold c1 in Erp. cbn [c_rules] in Erp.
    rewrite lookup_insert_eq in Erp. unfold npf_rule_setrproc in Erp. injection Erp as <-. exists (set_rproc (Some q) r). cbn. by rewrite insert_insert_eq. }
  destruct (dnvlist_get_binary nv "code") as [code|]; [|intros [= <- <-]; split; [lia|]; split_and!; [done|done|by exists r2]].
  destruct (negb _); [intros [= <- <-]; by eapply (Hfree ENOTSUP c2 r2)|]. destruct (_ =? 0)%nat; [intros [= <- <-]; by eapply (Hfree EINVAL c2 r2)|].
  destruct (negb _); [intros [= <- <-]; by eapply (Hfree EINVAL c2 r2)|]. intros [= <- <-]. cbn. rewrite Hr2, alter_insert_eq.
  split; [lia|]. split_and!; [done|done|by eexists].
Qed.

(** The rules in memory are those of the two rulesets. *)
Record inv2 (T : rheap) (rs os : npf_ruleset) (n : Z) : Prop := {
  i2_owned : owned T (rs_all rs ++ rs_all os);
  i2_set : set_inv T rs;
  i2_other : set_inv T os;
  i2_next : ∀ p, is_Some (T !! p) → p < n;
}.

Lemma inv2_sym T rs os n : inv2 T rs os n → inv2 T os rs n.
Proof. intros []. split; try done. eapply owned_perm; [|done]. apply Permutation_app_comm. Qed.

Lemma inv2_disjoint T rs os n p : inv2 T rs os n → p ∈ rs_all os → p ∉ rs_all rs.
Proof. intros [[Hn _] _ _ _] Ho Hr. apply NoDup_app in Hn as (_ & Hd & _). by apply (Hd p Hr). Qed.

(** A removal and the destruction of what it removed. *)
Lemma removal_inv2 T rs os n res : inv2 T rs os n → removal T rs res → ∃ e T' rs', res = Some (e, T', rs') ∧
  if e =? 0 then ∃ x, rs_gc rs' = [x] ∧ inv2 (delete x T') (no_gc rs') os n else inv2 T' rs' os n.
Proof.
  intros Hi [(e & He & ->)|(x & T' & rs' & -> & Ha & Hg & Hx & Hdom & Hfr & Hset)].
  { exists e, T, rs. split; [done|]. by rewrite (proj2 (Z.eqb_neq _ _) He). }
  exists 0, T', rs'. split; [done|]. cbn [Z.eqb]. exists x. split; [done|].
  assert (∀ p, p ∈ rs_all os → delete x T' !! p = T !! p) as Hos.
  { intros p Hp. pose proof (inv2_disjoint _ _ _ _ _ Hi Hp) as Hn. rewrite lookup_delete_ne by (intros ->; done). by apply Hfr. }
  destruct Hi as [[Hnd Hown] Hi1 Hi2 Hnx]. split; cbn.
  - split.
    + rewrite Ha. apply NoDup_app in Hnd as (N1 & N2 & N3). apply NoDup_app. split_and!; [by apply list_remove_NoDup| |done].
      intros y [Hy _]%list_remove_elem. by apply N2.
    + intros p. rewrite lookup_delete_is_Some, Hdom, Hown, !elem_of_app, Ha, list_remove_elem. split; [naive_solver|].
      intros [[? ?]|Hp]; [naive_solver|]. split; [|auto]. intros <-. apply NoDup_app in Hnd as (_ & N2 & _). by apply (N2 x).
  - apply Hset. intros p Hp. by rewrite lookup_delete_ne by congruence.
  - by eapply set_inv_frame.
  - intros p [_ Hp]%lookup_delete_is_Some. apply Hnx. by apply Hdom.
Qed.

(** Adding a rule that is in memory and in no ruleset. *)
Lemma add_inv2 T rs os n name rl r : inv2 T rs os n → T !! rl = None → rs_idcnt rs < 2 ^ 64 - 1 → rl < n + 1 →
  ∃ e T' rs', npf_ruleset_add (<[rl := r]> T) rs name rl = Some (e, T', rs') ∧
  if e =? 0 then inv2 T' rs' os (n + 1) else T' = <[rl := r]> T ∧ rs' = rs.
Proof.
  intros [[Hnd Hown] Hi1 Hi2 Hnx] Hfr Hcnt Hrl.
  assert (rl ∉ rs_all rs ++ rs_all os) as Hnin by (rewrite <- Hown; by rewrite Hfr; intros [? [=]]).
  assert (∀ p, p ∈ rs_all rs ++ rs_all os → <[rl := r]> T !! p = T !! p) as Hins.
  { intros p Hp. rewrite lookup_insert_ne; [done|]. by intros ->. }
  assert (set_inv (<[rl := r]> T) rs) as Hs1 by (apply (set_inv_frame T); [done|]; intros p Hp; apply Hins; set_solver).
  assert (set_inv (<[rl := r]> T) os) as Hs2 by (apply (set_inv_frame T); [done|]; intros p Hp; apply Hins; set_solver).
  destruct (add_ok (<[rl := r]> T) rs name rl r Hs1) as (e & T' & rs' & E & Hdom & Hframe & Hout); [by rewrite lookup_insert_eq|set_solver|done|].
  exists e, T', rs'. split; [done|]. destruct Hout as [(-> & Ha & Hset)|(He & -> & ->)]; [|by rewrite (proj2 (Z.eqb_neq _ _) He)]. cbn [Z.eqb].
  assert (∀ p, is_Some (T' !! p) ↔ p = rl ∨ p ∈ rs_all rs ++ rs_all os) as Hd'.
  { intros p. rewrite Hdom, lookup_insert_is_Some, Hown. destruct (decide (rl = p)); naive_solver. }
  split.
  - rewrite Ha. split; [by constructor|]. intros p. rewrite Hd'. cbn. by rewrite elem_of_cons.
  - done.
  - apply (set_inv_frame (<[rl := r]> T)); [done|]. intros p Hp. apply Hframe. apply not_elem_of_cons. split; [intros ->; set_solver|].
    intros Hp'. apply NoDup_app in Hnd as (_ & N2 & _). by apply (N2 p).
  - intros p [->|Hp]%Hd'; [done|]. apply Hown, Hnx in Hp. lia.
Qed.

(** Listing changes no rule. *)
Lemma list_loop_ok l fuel : ∀ p c nv, chain (c_rules c) p l → (length l <= fuel)%nat →
  ∃ nv' c', list_loop fuel p c nv = Some (nv', c') ∧ c_rules c' = c_rules c ∧ c_next c' = c_next c.
Proof.
  revert l. induction fuel as [|fuel IH]; intros [|x l] p c nv; cbn [length]; try lia.
  1-2: intros -> _; by exists nv, c.
  intros [-> (r & Hr & Hc)] Hf. cbn [list_loop]. rewrite Hr. cbn [mbind option_bind].
  assert (∃ rule x, npf_rule_export c r = (rule, set_env c x)) as (rule & y & ->).
  { unfold npf_rule_export. destruct (npf_rule_getrproc r (c_x c)) as [[rp|] y]; by repeat eexists. }
  destruct (IH l (r_next r) (set_env c y) (nvlist_append_nvlist_array nv "rules" rule) Hc ltac:(lia)) as (nv' & c' & E & E1 & E2).
  by exists nv', c'.
Qed.

Abbreviation npf_t := (npf (X := X) (IW := IW) (TM := TM) (M := M) (L := L) (C := C)).
Implicit Types (s : npf_t).

(** Between requests: the lock is free, nothing went wrong so far, and the
    rules in memory are those of the rulesets of the configuration. *)
Record conf_inv s : Prop := {
  ci_locked : np_locked s = false;
  ci_fault : np_fault s = false;
  ci_rules : ∃ nc rs ns, np_config s = Some nc ∧ cf_ruleset nc = Some rs ∧ cf_nat_ruleset nc = Some ns ∧
    inv2 (c_rules (np_ctl s)) rs ns (c_next (np_ctl s));
}.

Lemma conf_inv_pick s (natset : bool) : conf_inv s → ∃ nc rs os, np_config s = Some nc ∧ config_rules nc natset = Some rs ∧
  inv2 (c_rules (np_ctl s)) rs os (c_next (np_ctl s)) ∧
  ∀ s' rs', np_locked s' = false → np_fault s' = false → np_config s' = Some (set_config_rules nc natset rs') →
    inv2 (c_rules (np_ctl s')) rs' os (c_next (np_ctl s')) → conf_inv s'.
Proof.
  intros [_ _ (nc & rs & ns & E1 & E2 & E3 & Hi)]. destruct natset.
  - exists nc, ns, rs. split_and!; try done; [by apply inv2_sym|]. intros s' rs' H1 H2 H3 H4. split; try done.
    eexists _, rs, rs'. split; [exact H3|]. split_and!; try done. by apply inv2_sym.
  - exists nc, rs, ns. split_and!; try done. intros s' rs' H1 H2 H3 H4. split; try done.
    eexists _, rs', ns. split; [exact H3|]. by split_and!.
Qed.

Lemma set_config_rules_id nc natset rs : config_rules nc natset = Some rs → set_config_rules nc natset rs = nc.
Proof. destruct nc, natset; cbn; by intros ->. Qed.

(** The configuration has handed out less than 2^64 - 1 rule IDs. *)
Definition ids_left s (natset : bool) : Prop :=
  ∀ nc rs, np_config s = Some nc → config_rules nc natset = Some rs → rs_idcnt rs < 2 ^ 64 - 1.

(** One request, on the ruleset [rs] of the configuration. *)
Section request.
Context (s : npf_t) (natset : bool) (nc : npf_config) (rs os : npf_ruleset).
Hypothesis Hs : conf_inv s.
Hypothesis Ers : config_rules nc natset = Some rs.
Hypothesis Enc : np_config s = Some nc.
Hypothesis Hi : inv2 (c_rules (np_ctl s)) rs os (c_next (np_ctl s)).
Hypothesis Hput : ∀ s' rs', np_locked s' = false → np_fault s' = false → np_config s' = Some (set_config_rules nc natset rs') →
  inv2 (c_rules (np_ctl s')) rs' os (c_next (np_ctl s')) → conf_inv s'.

Lemma request_removed res : removal (c_rules (np_ctl s)) rs res →
  ∃ error id nv s', res ≫= rules_removed (set_lock s true) nc natset = Some (error, id, nv, s') ∧ conf_inv s'.
Proof using Hs Hi Hput.
  intros Hr. destruct (removal_inv2 _ _ _ _ _ Hi Hr) as (e & T' & rs' & -> & He). cbn [mbind option_bind].
  unfold rules_removed. cbn [np_ctl set_lock set_ctl]. destruct (e =? 0).
  - destruct He as (x & Hg & Hi'). unfold ruleset_gc. rewrite Hg. unfold free_rules. cbn [foldl]. eexists _, _, _, _. split; [done|].
    destruct (rule_free_rules (set_rules (np_ctl s) T') x) as [R1 R2].
    apply (Hput _ (no_gc rs')); cbn; try done; [by rewrite (ci_fault _ Hs)|]. by rewrite R1, R2.
  - eexists _, _, _, _. split; [done|]. apply (Hput _ rs'); cbn; try done. by rewrite (ci_fault _ Hs).
Qed.

Lemma request_same c : c_rules c = c_rules (np_ctl s) → c_next (np_ctl s) <= c_next c → conf_inv (npf_config_exit (set_ctl (set_lock s true) c)).
Proof using Hs Ers Enc Hi Hput.
  intros Hc Hn. apply (Hput _ rs); cbn; try done; [by rewrite (ci_fault _ Hs)|by rewrite (set_config_rules_id _ _ _ Ers)|].
  rewrite Hc. destruct Hi as [I1 I2 I3 I4]. split; try done. intros p Hp. specialize (I4 p Hp). lia.
Qed.

Lemma request_add name req : natset = false → rs_idcnt rs < 2 ^ 64 - 1 →
  ∃ error id s', rule_add (set_lock s true) nc rs natset name req = Some (error, id, s') ∧ conf_inv s'.
Proof using Hs Ers Enc Hi Hput.
  intros En Hids. unfold rule_add. assert (∀ A (x y : A), (if natset then x else y) = y) as Hif by (by rewrite En).
  rewrite Hif. cbn [np_ctl set_lock].
  destruct (npf_mk_singlerule (np_ctl s) req None) as [[rl|e] c1] eqn:E1;
    destruct (mk_singlerule_heap _ _ _ _ _ (i2_next _ _ _ _ Hi) E1) as [Hle H1].
  2:{ destruct H1 as [He H1]. rewrite (proj2 (Z.eqb_neq _ _) He). cbn [negb]. eexists _, _, _. split; [done|]. by apply request_same. }
  destruct H1 as (-> & Hn1 & r & Hr1). cbn [negb Z.eqb mbind option_bind np_ctl set_ctl].
  assert (c_rules (np_ctl s) !! c_next (np_ctl s) = None) as Hfr.
  { destruct (c_rules (np_ctl s) !! c_next (np_ctl s)) eqn:E; [|done]. pose proof (i2_next _ _ _ _ Hi _ ltac:(by eexists)). lia. }
  destruct (add_inv2 _ rs os _ name (c_next (np_ctl s)) r Hi Hfr Hids ltac:(lia)) as (e & T' & rs' & E & He).
  rewrite Hr1, E. cbn [mbind option_bind]. destruct (e =? 0).
  - eexists _, _, _. split; [done|]. apply (Hput _ rs'); cbn; try done; [by rewrite (ci_fault _ Hs)|by rewrite Hn1].
  - destruct He as [-> ->]. cbn [mbind option_bind]. eexists _, _, _. split; [done|]. unfold free_rule. cbn. rewrite lookup_insert_eq.
    destruct (rule_free_rules (set_rules c1 (<[c_next (np_ctl s) := r]> (c_rules (np_ctl s)))) (c_next (np_ctl s))) as [R1 R2].
    apply (Hput _ rs); cbn; [done|by rewrite (ci_fault _ Hs)|done|]. rewrite R1, R2. cbn. rewrite delete_insert_eq, delete_id by done.
    destruct Hi as [I1 I2 I3 I4]. split; try done. intros p Hp. specialize (I4 p Hp). lia.
Qed.

Lemma request_list name nv : ∃ error nv' c', npf_ruleset_list (np_ctl s) rs name nv = Some (error, nv', c') ∧
  c_rules c' = c_rules (np_ctl s) ∧ c_next c' = c_next (np_ctl s).
Proof using Hi.
  unfold npf_ruleset_list. destruct (npf_ruleset_lookup _ rs name) as [rg|] eqn:Hlk; [|by eexists _, _, _].
  pose proof (npf_ruleset_lookup_In _ _ _ _ Hlk) as Hin. destruct (si_dyn _ _ (i2_set _ _ _ _ Hi) rg Hin) as [l Hok].
  destruct (go_group _ _ _ _ Hok) as (g & -> & _ & Hc). cbn [mbind option_bind].
  destruct (list_loop_ok l _ (r_subset g) (np_ctl s) nv Hc (chain_fuel _ _ _ Hc)) as (nv' & c' & -> & L1 & L2). by eexists _, _, _.
Qed.

End request.

(** C7: Requests for dynamic rules keep the memory of rules in order.  In any
    state where the rules in memory are exactly those of the two rulesets, a
    request that names a ruleset completes: the configuration lock is released,
    no rule is freed twice or lost - the rules in memory are again exactly
    those of the rulesets, the removed ones being destroyed - and the lists of
    the dynamic groups are proper.  This covers adding, removing by ID or key,
    listing and unknown commands; flushing restarts the IDs (see
    npf_ruleset_flush_reuses_ids), and adding a NAT rule can fail with a double
    free (see singlenat_double_free). *)
Theorem npfctl_rule_owned s req name : conf_inv s → dnvlist_get_string req "ruleset-name" = Some name →
  let natset := dnvlist_get_bool req "nat-ruleset" false in
  let rcmd := u32 (dnvlist_get_number req "command" 0) in
  ids_left s natset → rcmd ≠ NPF_CMD_RULE_FLUSH → (rcmd = NPF_CMD_RULE_ADD → natset = false) →
  ∃ error id nv s', npfctl_rule s req = Some (error, id, nv, s') ∧ conf_inv s'.
Proof.
  intros Hs Hname natset rcmd Hids Hnf Hadd. destruct (conf_inv_pick s natset Hs) as (nc & rs & os & Enc & Ers & Hi & Hput).
  pose proof (request_removed s natset nc rs os Hs Hi Hput) as Hrem. pose proof (request_same s natset nc rs os Hs Ers Enc Hi Hput) as Hsame.
  unfold npfctl_rule. rewrite Hname. fold natset rcmd. unfold npf_config_enter. rewrite (ci_locked _ Hs).
  change (np_config (set_lock s true)) with (np_config s). change (np_ctl (set_lock s true)) with (np_ctl s).
  rewrite Enc. cbn [mbind option_bind]. rewrite Ers. cbn [mbind option_bind].
  assert (∀ e : Z, ∃ error (id : option Z) nv s', Some (e, None, nvlist_create, npf_config_exit (set_lock s true)) = Some (error, id, nv, s') ∧ conf_inv s') as Hnop.
  { intros e. eexists _, _, _, _. split; [done|]. apply (Hsame (np_ctl s)); [done|lia]. }
  destruct (rcmd =? NPF_CMD_RULE_ADD) eqn:Ea.
  { apply Z.eqb_eq, Hadd in Ea. destruct (request_add s natset nc rs os Hs Ers Enc Hi Hput name req Ea (Hids _ _ Enc Ers)) as (e & id & s' & E & Hs').
    rewrite E. by eexists _, _, _, _. }
  destruct (rcmd =? NPF_CMD_RULE_REMOVE); [apply Hrem, remove_removal, (i2_set _ _ _ _ Hi)|].
  destruct (rcmd =? NPF_CMD_RULE_REMKEY).
  { destruct (_ || _); [apply Hnop|apply Hrem, remkey_removal, (i2_set _ _ _ _ Hi)]. }
  destruct (rcmd =? NPF_CMD_RULE_LIST).
  { destruct (request_list s rs os Hi name nvlist_create) as (e & nv' & c' & -> & L1 & L2). cbn [mbind option_bind].
    eexists _, _, _, _. split; [done|]. apply Hsame; [done|lia]. }
  destruct (rcmd =? NPF_CMD_RULE_FLUSH) eqn:Ef; [by apply Z.eqb_eq in Ef|]. apply Hnop.
Qed.

End rules.

(** Validated parameters can be set, whatever is set before. *)
Lemma params_set_ok {TM} `{PO : thmap_ops npf_param_t TM} l (pi pi' : npf_paraminfo (TM := TM)) : params_loop l false pi = (0, pi') →
  Forall (λ '(name, v), ∃ n, v = Some n ∧ ∀ q : npf_paraminfo (TM := TM), pi_map q = pi_map pi → fst (npfk_param_set q name (s32 n)) = 0) l.
Proof.
  revert pi pi'. induction l as [|[name [n|]] l IH]; intros pi pi'; cbn [params_loop]; [constructor| |done].
  destruct (npf_param_check pi name (s32 n) =? 0) eqn:E; [|intros [= H0 _]; by rewrite H0 in E]. intros Hl.
  constructor; [|by eapply IH]. exists n. split; [done|]. intros q Hq. apply Z.eqb_eq in E.
  unfold npf_param_check, npfk_param_set, npf_param_lookup in *. rewrite Hq.
  destruct (thmap_get (pi_map pi) (name_key name)) as [p|]; [|done]. by destruct (_ || _).
Qed.

(** ** Cases *)

#[local] Instance unit_load_env : load_env unit nv_tree := { rproc_lookup _ _ _ := None; natpolicy_create _ _ := (None, tt) }.
#[local] Instance unit_save_env : save_env unit nv_tree := { rproc_getname _ _ := ""%string; natpolicy_export _ _ nv := nv }.
#[local] Instance unit_conf_env : conf_env unit unit nv_tree net_world := {
  alg_construct _ _ := false; rproc_create _ _ := (None, tt); ext_construct _ _ _ _ := (ENOENT, tt); conndb_create := tt;
  conn_import _ _ _ _ m w _ := (EINVAL, tt, tt, m, w); conndb_flush _ _ := tt; conn_load _ _ _ := tt; conn_tracking _ _ := tt;
  portmap_flush _ := tt;
}.

Abbreviation case_npf := (npf (X := unit) (IW := net_world) (TM := gmap (list Z) npf_param_t) (M := gmap (list Z) npf_tblent)
  (L := gmap (Z * Z * Z) npf_tblent) (C := unit)).

(** One dynamic group for rules, one for NAT. *)
Definition case_ruleset (p : Z) : npf_ruleset := mk_ruleset [p] [p] [] 1 1 [p].
Definition case_conf : npf_config := mk_config (Some (case_ruleset 1)) (Some (case_ruleset 2)) (Some []) (Some []) false.
Definition case_state : case_npf :=
  mk_npf (mk_ctl {[1 := dyn_group "blocked"; 2 := dyn_group "map:nat"]} 3 ∅ 1 (mk_ifmap [] 0) sample_world tt) (mk_tables ∅ 1 1)
    npf_param_init (Some case_conf) false false.

Definition case_request (name : string) (nat : bool) (cmd : Z) : nv_tree :=
  nvlist_add_number (nvlist_add_number (nvlist_add_bool (nvlist_add_string nvlist_create "ruleset-name" name) "nat-ruleset" nat)
    "command" cmd) "attr" (NPF_RULE_DYNAMIC ||| NPF_RULE_PASS ||| NPF_RULE_IN).

Lemma case_set_inv p name : p = 1 ∧ name = "blocked"%string ∨ p = 2 ∧ name = "map:nat"%string → set_inv (c_rules (np_ctl case_state)) (case_ruleset p).
Proof.
  intros Hp. assert (c_rules (np_ctl case_state) !! p = Some (dyn_group name)) as Hl by (by destruct Hp as [[-> ->]|[-> ->]]).
  assert (group_ok (c_rules (np_ctl case_state)) 1 p []) as Hok.
  { split; [|by intros x ?%elem_of_nil|done|constructor]. by exists (dyn_group name). }
  split; [| |cbn; lia|done]; change (rs_dynamic (case_ruleset p)) with [p].
  - intros g [->|[]%elem_of_nil]%elem_of_cons. by exists [].
  - intros g [->|[]%elem_of_nil]%elem_of_cons. split; [apply list_elem_of_here|]. rewrite (group_rules_ok _ _ _ _ Hok). by intros x ?%elem_of_nil.
Qed.

Lemma case_inv : conf_inv case_state.
Proof.
  split; [done|done|]. exists case_conf, (case_ruleset 1), (case_ruleset 2). split_and!; try done. split.
  - split; [repeat constructor; set_solver|]. intros p. cbn. rewrite lookup_insert_is_Some, lookup_singleton_is_Some. set_solver.
  - apply (case_set_inv 1 "blocked"). auto.
  - apply (case_set_inv 2 "map:nat"). auto.
  - intros p. cbn. rewrite lookup_insert_is_Some, lookup_singleton_is_Some. lia.
Qed.

Lemma case_add_result :
  (λ '(error, id, _, _), (error, id)) <$> npfctl_rule case_state (case_request "blocked" false NPF_CMD_RULE_ADD) = Some (0, Some 2).
Proof. by vm_compute. Qed.

Lemma npfctl_rule_owned_witness : ∃ error id nv s',
  npfctl_rule case_state (case_request "blocked" false NPF_CMD_RULE_ADD) = Some (error, id, nv, s') ∧ conf_inv s' ∧ error = 0 ∧ id = Some 2.
Proof.
  destruct (npfctl_rule_owned case_state (case_request "blocked" false NPF_CMD_RULE_ADD) "blocked" case_inv) as (error & id & nv & s' & E & Hs').
  - reflexivity.
  - intros nc rs [= <-] [= <-]. vm_compute. reflexivity.
  - vm_compute. discriminate.
  - reflexivity.
  - exists error, id, nv, s'. split; [exact E|]. split; [exact Hs'|].
    pose proof case_add_result as R. rewrite E in R. cbn in R. injection R as -> ->. done.
Defined.

(** A NAT rule whose policy is refused is freed by [npf_mk_singlenat] and again
    by [npfctl_rule]. *)
Theorem singlenat_double_free :
  (λ '(error, _, _, s'), (error, np_fault s')) <$> npfctl_rule case_state (case_request "map:nat" true NPF_CMD_RULE_ADD) = Some (ENOMEM, true).
Proof. by vm_compute. Qed.

(** A request without the name of a ruleset releases a lock it did not take. *)
Theorem rule_request_unlocks :
  (λ '(error, _, _, s'), (error, np_fault s')) <$> npfctl_rule case_state (nvlist_create : nv_tree) = Some (EINVAL, true).
Proof. by vm_compute. Qed.
End NpfConf.
