(* ===== verification/CtlOps.v ===== *)
(** * CtlOps: requests to the kernel (src/kern/npf_ctl.c)

    [npfctl_run_op] checks the version of a request and runs it: a load, a
    save, a change of dynamic rules, the lookup of a connection or the
    replacement of a table.  [npfctl_save] exports the whole configuration:
    the parameters with their defaults, the connections, both rulesets, the
    tables, the rule procedures and the ALGs.

    A list inside of a list ([nvlist_add_nvlist], [dnvlist_get_nvlist] and the
    iteration over its members) is the interface [nvlist_nest_ops].  What is
    exported of connections, rule procedures and ALGs is the interface
    [export_env]; the export functions themselves are [Conn.npf_conndb_export],
    [Rproc.npf_rprocset_export] and [Alg.npf_alg_export]. *)

From S2P Require Import Prelude Nbuf Addr Cache Rewrite Tcpopt StateTcp State IfMap ConnKey Thmap Portmap Ruleset Tableset Conn Bpf NpfBpf NpfVar BpfComp Params Nvlist Rproc Alg NpfNat Libnpf NpfCtl CtlSave CtlTables NpfConf.
From stdpp Require Import strings.
Open Scope Z_scope.
Open Scope npf_scope.

Module CtlOps.
Export NpfConf.

Definition ENOTSUP : Z := 95.
Definition EPROGMISMATCH : Z := ENOTSUP.
Definition ENOTTY : Z := 25.

(** The operations of a request. *)
Inductive npf_op := IOC_NPF_LOAD | IOC_NPF_SAVE | IOC_NPF_RULE | IOC_NPF_CONN_LOOKUP | IOC_NPF_TABLE_REPLACE | IOC_other (op : Z).

(** Lists in lists.  The members of a list with their numbers are in no
    particular order; [None] stands for a member that is no number. *)
Class nvlist_nest_ops (NV : Type) := {
  dnvlist_get_nvlist : NV → string → option NV;
  nvlist_add_nvlist : NV → string → NV → NV;
  nvlist_members : NV → list (string * option Z);
}.

#[global] Instance nest_dict {NV} `{!nvlist_nest_ops NV} : nvlist_dict_ops NV :=
  { nvlist_dict nv n := nvlist_members <$> dnvlist_get_nvlist nv n }.

(** Names are unique in a list, whatever their types. *)
Class nvlist_nest_laws (NV : Type) `{nvlist_ops NV, !nvlist_array_ops NV, !nvlist_nest_ops NV} := {
  nn_create : ∀ m, dnvlist_get_nvlist (nvlist_create : NV) m = None;
  nn_members_create : nvlist_members (nvlist_create : NV) = [];
  nn_members_add : ∀ nv n v, n ∉ fst <$> nvlist_members nv → nvlist_members (nvlist_add_number nv n v) ≡ₚ (n, Some (u64 v)) :: nvlist_members nv;
  nn_add_number : ∀ nv n v m, dnvlist_get_nvlist (nvlist_add_number nv n v) m = dnvlist_get_nvlist nv m;
  nn_add_bool : ∀ nv n b m, dnvlist_get_nvlist (nvlist_add_bool nv n b) m = dnvlist_get_nvlist nv m;
  nn_append : ∀ nv n x m, m ≠ n → dnvlist_get_nvlist (nvlist_append_nvlist_array nv n x) m = dnvlist_get_nvlist nv m;
  nn_add : ∀ nv n d, dnvlist_get_nvlist nv n = None → nvlist_get_nvlist_array nv n = None → ∀ m,
    dnvlist_get_nvlist (nvlist_add_nvlist nv n d) m = (if decide (m = n) then Some d else dnvlist_get_nvlist nv m) ∧
    (m ≠ n → nvlist_get_nvlist_array (nvlist_add_nvlist nv n d) m = nvlist_get_nvlist_array nv m);
}.

Class export_env (X NV IW : Type) := {
  conndb_export : X → ifmap_t → list NV * X;
  rprocset_export : X → list Z → list NV;
  alg_export : X → list string;
  active_p : X → bool;
  (** [npf_conn_find]: the error and the response. *)
  conn_find : X → ifmap_t → IW → NV → NV → Z * NV * X * ifmap_t * IW;
}.

Section ops.
Context {X DB NV IW ifnet TM M L C : Type} {RE : rule_env X} {LE : load_env X NV} {SE : save_env X NV} {CE : conf_env X DB NV IW} {EE : export_env X NV IW}.
Context {IO : npf_ifops_t IW ifnet} `{NO : nvlist_ops NV} {NA : nvlist_array_ops NV} {NN : nvlist_nest_ops NV}.
Context {PO : thmap_ops npf_param_t TM} {BO : thmap_ops npf_tblent M} {LO : lpm_ops npf_tblent L} {CO : cdbr_ops C}.
Context (kmem : bool).

Abbreviation npf := (npf (X := X) (IW := IW) (TM := TM) (M := M) (L := L) (C := C)).
Implicit Types (s : npf).

(** ** Saving *)

Definition append_all (key : string) (nv : NV) (l : list NV) : NV := foldl (λ nv x, nvlist_append_nvlist_array nv key x) nv l.

(** The values of all parameters; an [int] is widened. *)
Definition params_list (l : list (string * option Z * Z)) : NV * NV :=
  foldl (λ '(params, dparams) '(name, val, defval),
    (nvlist_add_number params name (u64 (default 0 val)), nvlist_add_number dparams name (u64 defval))) (nvlist_create, nvlist_create) l.

Definition params_export (pi : npf_paraminfo) (nv : NV) : NV :=
  let '(params, dparams) := params_list (Params.npf_params_export (TM := TM) pi) in
  nvlist_add_nvlist (nvlist_add_nvlist nv "params" params) "params-defaults" dparams.

Definition table_nv (t : string * Z * Z) : NV :=
  let '(name, type, tid) := t in
  nvlist_add_number (nvlist_add_number (nvlist_add_string nvlist_create "name" name) "type" type) "id" tid.

Definition alg_nv (name : string) : NV := nvlist_add_string nvlist_create "name" name.

(** The error and the response; the parts of a configuration are there once
    it is active. *)
Definition npfctl_save s : option (Z * NV * npf) :=
  let resp := nvlist_add_number nvlist_create "version" NPF_VERSION in
  let s := npf_config_enter s in
  nc ← np_config s;
  let resp := params_export (np_params s) resp in
  let '(conns, x) := conndb_export (c_x (np_ctl s)) (c_ifmap (np_ctl s)) in
  let resp := append_all "conn-list" resp conns in
  let s := upd_x s (λ _, x) in
  rs ← cf_ruleset nc;
  '(resp, c) ← npf_ruleset_export (np_ctl s) rs "rules" resp;
  ns ← cf_nat_ruleset nc;
  '(resp, c) ← npf_ruleset_export c ns "nat" resp;
  let s := set_ctl s c in
  ts ← cf_tableset nc;
  let resp := append_all "tables" resp (table_nv <$> npf_tableset_export (ts_heap (np_tables s)) ts) in
  rp ← cf_rule_procs nc;
  let resp := append_all "rprocs" resp (rprocset_export (c_x (np_ctl s)) rp) in
  let resp := append_all "algs" resp (alg_nv <$> alg_export (c_x (np_ctl s))) in
  let resp := nvlist_add_bool resp "active" (active_p (c_x (np_ctl s))) in
  Some (0, resp, npf_config_exit s).

(** ** Requests *)

(** [npfctl_table_replace] under the lock. *)
Definition table_replace s (req : NV) : option (Z * npf) :=
  let s := npf_config_enter s in
  nc ← np_config s; ts ← cf_tableset nc;
  let '(error, ts, t) := npfctl_table_replace kmem (np_tables s) ts req in
  let s := set_config (set_tables s t) (mk_config (cf_ruleset nc) (cf_nat_ruleset nc) (cf_rule_procs nc) (Some ts) (cf_default_pass nc)) in
  Some (error, npf_config_exit s).

Definition rule_response (id : option Z) (nv : NV) : NV := match id with Some id => nvlist_add_number nv "id" id | None => nv end.

(** The error, the response and the state. *)
Definition npfctl_run_op s (op : npf_op) (req : NV) : option (Z * NV * npf) :=
  let resp := nvlist_create in
  let ver := dnvlist_get_number req "version" (2 ^ 64 - 1) in
  if negb (ver =? NPF_VERSION) then Some (EPROGMISMATCH, resp, s) else
  '(error, resp, s) ←
    match op with
    | IOC_NPF_LOAD => '(error, s) ← npfctl_load kmem s req; Some (error, resp, s)
    | IOC_NPF_SAVE => npfctl_save s
    | IOC_NPF_RULE => '(error, id, nv, s) ← npfctl_rule s req; Some (error, rule_response id nv, s)
    | IOC_NPF_CONN_LOOKUP =>
        let c := np_ctl s in
        let '(error, resp, x, m, w) := conn_find (c_x c) (c_ifmap c) (c_ifw c) req resp in
        Some (error, resp, set_ctl s (mk_ctl (c_rules c) (c_next c) (c_codes c) (c_ncode c) m w x))
    | IOC_NPF_TABLE_REPLACE => '(error, s) ← table_replace s req; Some (error, resp, s)
    | IOC_other _ => Some (ENOTTY, resp, s)
    end;
  Some (error, nvlist_add_number resp "errno" error, s).

End ops.
(** ** Loading what was saved *)

Section saved.
Context {X DB NV IW ifnet TM M L C : Type} {RE : rule_env X} {LE : load_env X NV} {SE : save_env X NV} {CE : conf_env X DB NV IW} {EE : export_env X NV IW}.
Context {IO : npf_ifops_t IW ifnet} `{NLW : nvlist_laws NV} {NA : nvlist_array_ops NV} `{!nvlist_array_laws NV} {NN : nvlist_nest_ops NV} `{!nvlist_nest_laws NV}.
Context `{PL : thmap_laws npf_param_t TM} {BO : thmap_ops npf_tblent M} {LO : lpm_ops npf_tblent L} {CO : cdbr_ops C}.
Context (kmem : bool).

Abbreviation npf := (npf (X := X) (IW := IW) (TM := TM) (M := M) (L := L) (C := C)).
Abbreviation tbls := (tables (M := M) (L := L) (C := C)).
Implicit Types (s : npf) (nv : NV).

(** [nv'] has [l] behind the array [key] of [nv]; the other arrays and the
    nested lists are the same. *)
Definition appended (key : string) (l : list NV) nv nv' : Prop :=
  default [] (nvlist_get_nvlist_array nv' key) = default [] (nvlist_get_nvlist_array nv key) ++ l ∧
  ∀ m, m ≠ key → nvlist_get_nvlist_array nv' m = nvlist_get_nvlist_array nv m ∧ dnvlist_get_nvlist nv' m = dnvlist_get_nvlist nv m.

Lemma appended_one key x nv : appended key [x] nv (nvlist_append_nvlist_array nv key x).
Proof.
  destruct (nv_append nv key x) as (_ & Ha & _). split; [by rewrite Ha, decide_True|].
  intros m Hm. rewrite Ha, decide_False by done. split; [done|by apply nn_append].
Qed.

Lemma appended_trans key l1 l2 nv1 nv2 nv3 : appended key l1 nv1 nv2 → appended key l2 nv2 nv3 → appended key (l1 ++ l2) nv1 nv3.
Proof.
  intros [A1 O1] [A2 O2]. split; [by rewrite A2, A1, app_assoc|]. intros m Hm.
  destruct (O2 m Hm) as [E1 E2], (O1 m Hm) as [F1 F2]. split; congruence.
Qed.

Lemma append_all_appended key l nv : appended key l nv (append_all key nv l).
Proof.
  revert nv. induction l as [|x l IH]; intros nv; [split; [by rewrite app_nil_r|done]|].
  apply (appended_trans key [x] l _ (nvlist_append_nvlist_array nv key x)); [apply appended_one|apply IH].
Qed.

(** Exporting rules leaves all but the references of procedures alone. *)
Lemma ruleset_export_appended key rules (c : ctl X IW) nv : (∀ p, p ∈ rules → is_Some (c_rules c !! p)) →
  ∃ nv' c' l, ruleset_export_loop rules key c nv = Some (nv', c') ∧ appended key l nv nv' ∧ length l = length rules ∧ c_rules c' = c_rules c.
Proof.
  revert c nv. induction rules as [|rl rules IH]; intros c nv Hr; cbn [ruleset_export_loop].
  - exists nv, c, []. split_and!; try done. split; [by rewrite app_nil_r|done].
  - destruct (Hr rl) as [r Hrl]; [set_solver|]. rewrite Hrl. cbn [mbind option_bind].
    destruct (npf_rule_export c r) as [rule c1] eqn:Ee.
    assert (c_rules c1 = c_rules c) as E1 by (unfold npf_rule_export in Ee; destruct (npf_rule_getrproc r (c_x c)) as [[?|] ?]; by injection Ee as _ <-).
    set (rule' := match r_natp r with Some _ => _ | None => _ end).
    destruct (IH c1 (nvlist_append_nvlist_array nv key rule')) as (nv' & c' & l & -> & Ha & Hl & E2).
    { intros p Hp. rewrite E1. apply Hr. set_solver. }
    exists nv', c', (rule' :: l). split; [done|]. split; [|split; [cbn; lia|congruence]].
    by apply (appended_trans key [rule'] l _ _ _ (appended_one _ _ _)).
Qed.

(** *** Parameters *)

Definition pname (e : string * option Z * Z) : string := e.1.1.
Definition pmember (e : string * option Z * Z) : string * option Z := (e.1.1, Some (u64 (u64 (default 0 e.1.2)))).

Lemma params_list_members l : NoDup (pname <$> l) → nvlist_members (params_list (NV := NV) l).1 ≡ₚ pmember <$> l.
Proof.
  unfold params_list. assert (∀ (a b : NV), NoDup (pname <$> l) → (∀ n, n ∈ pname <$> l → n ∉ fst <$> nvlist_members a) →
    nvlist_members (foldl (λ '(params, dparams) '(name, val, defval),
      (nvlist_add_number params name (u64 (default 0 val)), nvlist_add_number dparams name (u64 defval))) (a, b) l).1
      ≡ₚ (pmember <$> l) ++ nvlist_members a) as Hg.
  { induction l as [|[[name val] d] l IH]; intros a b Hn Hf; [done|]. apply NoDup_cons in Hn as [Hn1 Hn2]. cbn [foldl].
    assert (name ∉ fst <$> nvlist_members a) as Hna by (apply Hf; left).
    pose proof (nn_members_add a name (u64 (default 0 val)) Hna) as Hm. rewrite IH; [|done|].
    - rewrite Hm. cbn [fmap list_fmap]. by rewrite <- Permutation_middle.
    - intros n Hl. rewrite Hm. cbn [fmap list_fmap fst]. apply not_elem_of_cons. split; [by intros ->|]. apply Hf. by right. }
  intros Hn. rewrite Hg; [by rewrite nn_members_create, app_nil_r|done|]. rewrite nn_members_create. intros n _. apply not_elem_of_nil.
Qed.

(** Values of parameters are [int]s. *)
Definition int_ranges (ps : list npf_param_t) : Prop := Forall (λ p, - 2 ^ 31 <= p_min p ∧ p_max p < 2 ^ 31) ps.

Lemma s32_u64 v : - 2 ^ 31 <= v < 2 ^ 31 → s32 (u64 (u64 v)) = v.
Proof.
  intros Hv. rewrite wrap_wrap. rewrite <- (swrap_small 32 v) at 2 by lia. apply swrap_mod. unfold wrap.
  by rewrite <- Znumtheory.Zmod_div_mod by (try lia; by exists (2 ^ 32)).
Qed.

(** The value that is saved of a parameter. *)
Definition saved_value (pi0 : npf_paraminfo (TM := TM)) (p : npf_param_t) : Z := default 0 (pi_vals pi0 !! p_valp p).

Section params.
Context (pi0 : npf_paraminfo (TM := TM)).
Abbreviation ps := (concat (pi_list pi0)).
Hypothesis Hok : params_ok pi0.
Hypothesis Hint : int_ranges ps.

(** A list of members that are saved parameters. *)
Definition saved_members (l : list (string * option Z)) : Prop :=
  Forall (λ '(name, v), ∃ p, p ∈ ps ∧ p_name p = name ∧ v = Some (u64 (u64 (saved_value pi0 p)))) l.

Lemma saved_param p (pi : npf_paraminfo (TM := TM)) : pi_map pi = pi_map pi0 → p ∈ ps →
  npf_param_lookup pi (p_name p) = Some p ∧ s32 (u64 (u64 (saved_value pi0 p))) = saved_value pi0 p ∧
  (saved_value pi0 p <? p_min p) || (p_max p <? saved_value pi0 p) = false ∧ pi_vals pi0 !! p_valp p = Some (saved_value pi0 p).
Proof.
  intros Hm Hp. unfold npf_param_lookup. rewrite Hm. fold (npf_param_lookup pi0 (p_name p)). destruct Hok as [_ _ H3 H4].
  destruct (H4 p Hp) as (v & Hv & Hr). pose proof (proj1 (Forall_forall _ _) Hint p Hp) as Hi. cbn beta in Hi.
  unfold saved_value. rewrite Hv. cbn [default id]. split; [by apply H3|]. split; [apply s32_u64; lia|]. split; [|done].
  apply orb_false_iff. split; [apply Z.ltb_ge; lia|apply Z.ltb_ge; lia].
Qed.

Lemma params_loop_check l : saved_members l → ∀ pi, pi_map pi = pi_map pi0 → params_loop l false pi = (0, pi).
Proof.
  induction 1 as [|[name v] l (p & Hp & <- & ->) _ IH]; intros pi Hm; cbn [params_loop]; [done|].
  destruct (saved_param p pi Hm Hp) as (Hl & -> & Hr & _). unfold npf_param_check. rewrite Hl, Hr. cbn [Z.eqb]. by apply IH.
Qed.

Lemma params_loop_set l : saved_members l → ∀ pi, pi_map pi = pi_map pi0 → ∃ pi', params_loop l true pi = (0, pi') ∧ pi_map pi' = pi_map pi0 ∧
  ∀ q, q ∈ ps → (p_name q ∈ fst <$> l ∨ pi_vals pi !! p_valp q = Some (saved_value pi0 q)) → pi_vals pi' !! p_valp q = Some (saved_value pi0 q).
Proof.
  induction 1 as [|[name v] l (p & Hp & <- & ->) _ IH]; intros pi Hm; cbn [params_loop].
  { exists pi. split_and!; try done. by intros q Hq [[]%elem_of_nil|]. }
  destruct (saved_param p pi Hm Hp) as (Hl & -> & Hr & _). unfold npfk_param_set. rewrite Hl, Hr. cbn [snd].
  destruct (IH (mk_pinfo (pi_list pi) (pi_map pi) (<[p_valp p:=saved_value pi0 p]> (pi_vals pi))) Hm) as (pi' & -> & Hm' & Hv).
  exists pi'. split_and!; [done|done|]. intros q Hq Hor. apply Hv; [done|]. cbn [pi_vals].
  destruct (decide (q = p)) as [->|Hne]; [right; apply lookup_insert_eq|]. destruct Hor as [Hin|Hin].
  - cbn [fmap list_fmap fst] in Hin. apply elem_of_cons in Hin as [Hin|Hin]; [|by left]. exfalso. apply Hne.
    destruct (saved_param q pi Hm Hq) as (Hlq & _). rewrite Hin, Hl in Hlq. by injection Hlq as ->.
  - right. rewrite lookup_insert_ne; [done|]. intros E. apply Hne. symmetry. by apply (var_inj ps _ _ (ri_vars _ _ Hok)).
Qed.

Lemma params_export_members : saved_members (nvlist_members (params_list (NV := NV) (Params.npf_params_export pi0)).1) ∧
  ∀ q, q ∈ ps → p_name q ∈ fst <$> nvlist_members (params_list (NV := NV) (Params.npf_params_export pi0)).1.
Proof.
  assert (pname <$> Params.npf_params_export pi0 = p_name <$> ps) as Hn by (unfold Params.npf_params_export; by rewrite <- list_fmap_compose).
  pose proof (params_list_members (Params.npf_params_export pi0)) as Hp. rewrite Hn in Hp. specialize (Hp (ri_names _ _ Hok)). split.
  - unfold saved_members. rewrite Hp. clear Hp. apply Forall_forall. intros [name v] He. unfold Params.npf_params_export in He. rewrite <- list_fmap_compose in He.
    apply list_elem_of_fmap in He as (p & E & Hp). unfold pmember in E. cbn in E. injection E as -> ->. exists p. split_and!; done.
  - intros q Hq. rewrite Hp, <- list_fmap_compose. change (fst ∘ pmember) with pname. rewrite Hn. by apply list_elem_of_fmap_2.
Qed.

End params.

(** *** Tables *)

(** Tables that can be saved and loaded again: every slot is in use, the
    names are distinct and short, and no table is a constant one. *)
Record tables_saved (T : gmap Z (npf_table (M := M) (L := L) (C := C))) (ts : list (option Z)) (l : list npf_table) : Prop := {
  td_slots : Forall2 (λ slot t, ∃ p, slot = Some p ∧ T !! p = Some t) ts l;
  td_names : NoDup (t_name <$> l);
  td_table : Forall (λ t, (String.length (t_name t) < NPF_TABLE_MAXNAMELEN)%nat ∧ t_type t ≠ NPF_TABLE_CONST) l;
  td_max : Z.of_nat (length ts) <= NPF_MAX_TABLES;
}.

Fixpoint descs (i : Z) (l : list (npf_table (M := M) (L := L) (C := C))) : list (string * Z * Z) :=
  match l with [] => [] | t :: l => (t_name t, t_type t, i) :: descs (i + 1) l end.

Lemma export_descs T ts l : Forall2 (λ slot t, ∃ p, slot = Some p ∧ T !! p = Some t) ts l → ∀ i, tableset_export_loop T i ts = descs i l.
Proof.
  induction 1 as [|slot t ts l (p & -> & Ht) _ IH]; intros i; cbn [tableset_export_loop descs]; [done|].
  cbn [mbind option_bind]. by rewrite Ht, IH.
Qed.

Lemma table_nv_fields name type tid : 0 <= type < 2 ^ 31 → 0 <= tid < 2 ^ 32 →
  let nv := table_nv (NV := NV) (name, type, tid) in
  dnvlist_get_string nv "name" = Some name ∧ (∀ d, dnvlist_get_number nv "id" d = tid) ∧ (∀ d, dnvlist_get_number nv "type" d = type) ∧
  dnvlist_get_binary nv "data" = None ∧ nvlist_get_nvlist_array nv "entries" = None.
Proof.
  intros Hty Htid nv. unfold nv, table_nv. destruct (nv_create_empty "name") as (_ & E0 & _).
  destruct (nv_add_string (nvlist_create : NV) "name" name E0) as (N1 & S1 & B1). pose proof (nv_add_string_others (nvlist_create : NV) "name" name E0) as [A1 _].
  set (n1 := nvlist_add_string nvlist_create "name" name) in *.
  assert (∀ m, nv_number n1 m = None) as Z1 by (intros m; rewrite N1; by destruct (nv_create_empty (NV := NV) m)).
  destruct (nv_add_number n1 "type" type (Z1 _)) as (N2 & S2 & B2). pose proof (nv_add_number_others n1 "type" type (Z1 _)) as [A2 _].
  set (n2 := nvlist_add_number n1 "type" type) in *.
  assert (nv_number n2 "id" = None) as Z2 by (rewrite N2, decide_False by done; apply Z1).
  destruct (nv_add_number n2 "id" tid Z2) as (N3 & S3 & B3). pose proof (nv_add_number_others n2 "id" tid Z2) as [A3 _].
  split_and!.
  - by rewrite S3, S2, S1, decide_True.
  - intros d. rewrite nv_number_default, N3, decide_True by done. cbn. apply wrap_small. unfold inw. lia.
  - intros d. rewrite nv_number_default, N3, decide_False, N2, decide_True by done. cbn. apply wrap_small. unfold inw. lia.
  - rewrite B3, B2, B1. by destruct (nv_create_empty (NV := NV) "data") as (_ & _ & ->).
  - rewrite A3, A2, A1. by destruct (nv_create_arrays (NV := NV) "entries") as [-> _].
Qed.

Lemma t_type_range (t : npf_table (M := M) (L := L) (C := C)) : 0 <= t_type t < 2 ^ 31 ∧
  (t_type t = NPF_TABLE_LPM ∨ t_type t = NPF_TABLE_IPSET ∨ t_type t = NPF_TABLE_CONST ∨ t_type t = NPF_TABLE_IFADDR).
Proof. unfold t_type. destruct (t_store t); (split; [done|]); auto. Qed.

(** A table as it is made again: empty. *)
Definition remade (t t' : npf_table (M := M) (L := L) (C := C)) (i : Z) : Prop :=
  t_name t' = t_name t ∧ t_type t' = t_type t ∧ t_id t' = i ∧ t_list t' = [] ∧ t_nitems t' = 0.

Lemma create_remade t i : (String.length (t_name t) < NPF_TABLE_MAXNAMELEN)%nat → t_type t ≠ NPF_TABLE_CONST →
  ∃ t', npf_table_create (t_name t) i (t_type t) [] = Some t' ∧ remade t t' i.
Proof.
  intros Hn Hc. assert (strlcpy (t_name t) NPF_TABLE_MAXNAMELEN = t_name t) as Es by (apply strlcpy_short; lia).
  unfold npf_table_create. rewrite Es. unfold remade, t_type in *. destruct (t_store t); try done; (eexists; split; [reflexivity|]); by repeat split.
Qed.

(** A name that no table of the set has. *)
Lemma getbyname_none (T : gmap Z (npf_table (M := M) (L := L) (C := C))) ts name : (∀ p t, Some p ∈ ts → T !! p = Some t → t_name t ≠ name) →
  npf_tableset_getbyname T ts name = None.
Proof.
  induction ts as [|[p|] ts IH]; intros Hf; cbn [npf_tableset_getbyname]; [done| |].
  - destruct (T !! p) as [t|] eqn:E; [|apply IH; intros q t Hq; apply Hf; by right].
    rewrite decide_False; [apply IH; intros q u Hq; apply Hf; by right|]. intros ->. by apply (Hf p t); [left|..].
  - apply IH. intros q t Hq. apply Hf. by right.
Qed.

(** The tables are made one by one, each in its slot. *)
Lemma tables_loop_saved l : ∀ i (tb : tbls) ts0 done (T0 := ts_heap tb), 
  NoDup (t_name <$> done ++ l) → Forall (λ t, (String.length (t_name t) < NPF_TABLE_MAXNAMELEN)%nat ∧ t_type t ≠ NPF_TABLE_CONST) l →
  i = Z.of_nat (length done) → Z.of_nat (length done + length l) < 2 ^ 32 → (∀ p, Some p ∈ ts0 → p < ts_next tb) →
  Forall2 (λ slot t, ∃ p t', slot = Some p ∧ T0 !! p = Some t' ∧ t_name t' = t_name t) ts0 done →
  ∃ new tb', tables_loop kmem (table_nv (NV := NV) <$> descs i l) tb (ts0 ++ replicate (length l) None) = (0, ts0 ++ new, tb') ∧
    (∀ p, p < ts_next tb → ts_heap tb' !! p = T0 !! p) ∧ length new = length l ∧
    ∀ k t, l !! k = Some t → ∃ p t', new !! k = Some (Some p) ∧ ts_heap tb' !! p = Some t' ∧ remade t t' (i + Z.of_nat k).
Proof.
  induction l as [|t l IH]; intros i tb ts0 don T0 Hn Hl Hi Hmax Hlt Hd; cbn [fmap list_fmap descs tables_loop replicate length].
  - exists [], tb. split_and!; done.
  - apply Forall_cons in Hl as [[Hlen Hc] Hl]. pose proof (Forall2_length _ _ _ Hd) as Hld. cbn [length] in Hmax.
    destruct (t_type_range t) as [Htr Hty].
    destruct (table_nv_fields (t_name t) (t_type t) i) as (F1 & F2 & F3 & F4 & F5); [lia|lia|]. set (nv := table_nv _) in *.
    unfold npf_mk_table. rewrite F1, F2, F3, F4. cbn [default id length].
    rewrite (swrap_small 32 (t_type t)) by lia. rewrite (wrap_small 64 (t_type t)) by (unfold inw; lia).
    rewrite (wrap_small 32 i) by (unfold inw; lia).
    assert (npf_table_check (ts_heap tb) (ts0 ++ None :: replicate (length l) None) (t_name t) i (t_type t) false = 0) as ->.
    { unfold npf_table_check. rewrite length_app. cbn [length]. rewrite (proj2 (Z.leb_gt _ _)) by lia.
      assert (npf_tableset_getbyid (ts0 ++ None :: replicate (length l) None) i = None) as ->.
      { unfold npf_tableset_getbyid. case_if; [|done]. rewrite Hi, Nat2Z.id, <- Hld, list_lookup_middle by done. done. }
      rewrite bool_decide_eq_false_2 by (by intros [? [=]]). cbn [negb andb].
      assert ((t_type t =? NPF_TABLE_LPM) || (t_type t =? NPF_TABLE_IPSET) || (t_type t =? NPF_TABLE_CONST) || (t_type t =? NPF_TABLE_IFADDR) = true) as ->
        by (destruct Hty as [-> | [-> | [-> | ->]]]; done).
      cbn [negb]. rewrite (proj2 (Nat.leb_gt _ _)) by lia. rewrite getbyname_none; [done|]. intros p u [Hp|Hp]%elem_of_app Hu.
      - apply list_elem_of_lookup in Hp as [k Hk]. destruct (Forall2_lookup_l _ _ _ _ _ Hd Hk) as (d & Hdk & q & d' & [= <-] & Hq & Hnm).
        fold T0 in Hu. rewrite Hu in Hq. injection Hq as <-. rewrite Hnm. intros E. rewrite fmap_app in Hn. apply NoDup_app in Hn as (_ & Hx & _).
        apply (Hx (t_name d)); [by apply list_elem_of_fmap_2, list_elem_of_lookup_2 in Hdk || apply list_elem_of_fmap_2; eapply list_elem_of_lookup_2|].
        rewrite E. left.
      - apply elem_of_cons in Hp as [[=]|Hp]. by apply elem_of_replicate in Hp as [? _]. }
    cbn [Z.eqb negb]. rewrite (proj2 (Z.eqb_neq _ _) Hc). cbn [andb].
    destruct (create_remade t i Hlen Hc) as (t' & Ht' & Hr). rewrite Ht'. unfold npf_mk_table_entries. rewrite F5. cbn [Z.eqb negb ts_heap].
    unfold npf_tableset_insert. rewrite lookup_insert_eq. destruct Hr as (R1 & R2 & R3 & R4 & R5). rewrite R3.
    replace (Z.to_nat i) with (length ts0 + 0)%nat by lia. rewrite list_lookup_middle by lia. rewrite insert_app_r. cbn [insert list_insert].
    set (p := ts_next tb). set (t'' := set_refcnt _ t').
    destruct (IH (i + 1) (mk_tables (<[p := t'']> (<[p := t']> (ts_heap tb))) (p + 1) (ts_ent tb)) (ts0 ++ [Some p]) (don ++ [t])) as (new & tb' & E & Hold & Hlen' & Hnew).
    + by rewrite <- app_assoc.
    + done.
    + rewrite length_app. cbn. lia.
    + rewrite length_app. cbn [length]. lia.
    + intros q [Hq|Hq]%elem_of_app; cbn [ts_next]; [specialize (Hlt q Hq); unfold p; lia|]. apply list_elem_of_singleton in Hq. injection Hq as ->. lia.
    + apply Forall2_app; [|constructor; [|constructor]].
      * apply Forall2_same_length_lookup. split; [done|]. intros k slot d Hs0 Hd0. destruct (Forall2_lookup_lr _ _ _ _ _ _ Hd Hs0 Hd0) as (q & d' & -> & Hq & Hnm). exists q, d'. cbn [ts_heap].
        split; [done|]. split; [|done]. assert (q < p) by (apply Hlt; by eapply list_elem_of_lookup_2). rewrite !lookup_insert_ne by lia. done.
      * exists p, t''. cbn [ts_heap]. rewrite lookup_insert_eq. done.
    + exists (Some p :: new), tb'. cbn [ts_heap ts_next] in *. rewrite <- !app_assoc in E. cbn [app] in E. split; [exact E|]. split_and!.
      * intros q Hq. rewrite Hold by (unfold p; lia). rewrite !lookup_insert_ne by (unfold p; lia). done.
      * cbn. lia.
      * intros [|k] u Hu; cbn in Hu |- *.
        -- injection Hu as <-. exists p, t''. split; [done|]. rewrite Hold by (unfold p; lia). rewrite lookup_insert_eq. split; [done|].
           repeat split; try done. cbn. lia.
        -- destruct (Hnew k u Hu) as (q & u' & Hq & Hu' & R). exists q, u'. split; [done|]. split; [done|].
           replace (i + Z.of_nat (S k)) with (i + 1 + Z.of_nat k) by lia. done.
Qed.

(** *** The whole configuration *)

(** An active configuration: its parts are there, its rules are in memory,
    its parameters are [int]s and its tables can be saved. *)
Record saveable s nc rs ns ts rp l : Prop := {
  sv_lock : np_locked s = false;
  sv_conf : np_config s = Some nc;
  sv_parts : cf_ruleset nc = Some rs ∧ cf_nat_ruleset nc = Some ns ∧ cf_tableset nc = Some ts ∧ cf_rule_procs nc = Some rp;
  sv_rules : ∀ p, p ∈ rs_rules rs ++ rs_rules ns → is_Some (c_rules (np_ctl s) !! p);
  sv_params : params_ok (np_params s);
  sv_ints : int_ranges (concat (pi_list (np_params s)));
  sv_tables : tables_saved (ts_heap (np_tables s)) ts l;
}.

(** The response after the parameters. *)
Lemma params_export_start (pi : npf_paraminfo (TM := TM)) : let nv := params_export pi (nvlist_add_number (nvlist_create : NV) "version" NPF_VERSION) in
  dnvlist_get_nvlist nv "params" = Some (params_list (Params.npf_params_export pi)).1 ∧
  ∀ m, m ≠ "params"%string → m ≠ "params-defaults"%string → nvlist_get_nvlist_array nv m = None.
Proof.
  cbn zeta. unfold params_export. destruct (params_list _) as [a b]. cbn [fst]. set (n0 := nvlist_add_number _ _ _).
  assert (∀ m, nvlist_get_nvlist_array n0 m = None ∧ dnvlist_get_nvlist n0 m = None) as H0'.
  { intros m. unfold n0. rewrite nn_add_number, nn_create. split; [|done].
    destruct (nv_add_number_others (nvlist_create : NV) "version" NPF_VERSION) as [-> _]; [by destruct (nv_create_empty (NV := NV) "version")|].
    by destruct (nv_create_arrays (NV := NV) m). }
  pose proof (nn_add n0 "params" a (proj2 (H0' _)) (proj1 (H0' _))) as H1'. set (n1 := nvlist_add_nvlist n0 "params" a) in *.
  assert (dnvlist_get_nvlist n1 "params-defaults" = None ∧ nvlist_get_nvlist_array n1 "params-defaults" = None) as [D1 D2].
  { destruct (H1' "params-defaults"%string) as [-> E]. rewrite E, decide_False by done. by split; apply H0'. }
  pose proof (nn_add n1 "params-defaults" b D1 D2) as H2'. split.
  - destruct (H2' "params"%string) as [-> _]. rewrite decide_False by done. destruct (H1' "params"%string) as [-> _]. by rewrite decide_True.
  - intros m Hm Hm'. destruct (H2' m) as [_ E]. rewrite E by done. destruct (H1' m) as [_ E']. rewrite E' by done. apply H0'.
Qed.

(** The parts of a response that loading reads again. *)
Lemma npfctl_save_parts s nc rs ns ts rp l : saveable s nc rs ns ts rp l →
  ∃ resp s', npfctl_save s = Some (0, resp, s') ∧ np_locked s' = false ∧ np_fault s' = np_fault s ∧
    np_config s' = np_config s ∧ np_tables s' = np_tables s ∧ np_params s' = np_params s ∧ c_rules (np_ctl s') = c_rules (np_ctl s) ∧
    dnvlist_get_nvlist resp "params" = Some (params_list (Params.npf_params_export (np_params s))).1 ∧
    default [] (nvlist_get_nvlist_array resp "tables") = table_nv <$> descs 0 l ∧
    length (default [] (nvlist_get_nvlist_array resp "rules")) = length (rs_rules rs) ∧
    length (default [] (nvlist_get_nvlist_array resp "nat")) = length (rs_rules ns).
Proof.
  intros [Hlk Hcf (P1 & P2 & P3 & P4) Hr _ _ Ht]. unfold npfctl_save, npf_config_enter. rewrite Hlk. cbn [np_config set_lock]. rewrite Hcf. cbn [mbind option_bind].
  destruct (conndb_export _ _) as [conns x]. rewrite P1. cbn [mbind option_bind]. unfold npf_ruleset_export.
  set (n1 := params_export _ _). set (n2 := append_all "conn-list" n1 conns).
  destruct (ruleset_export_appended "rules" (rs_rules rs) (np_ctl (upd_x (set_lock s true) (λ _, x))) n2) as (n3 & c3 & l3 & -> & A3 & L3 & C3).
  { intros p Hp. apply Hr. set_solver. }
  cbn [mbind option_bind]. rewrite P2. cbn [mbind option_bind].
  destruct (ruleset_export_appended "nat" (rs_rules ns) c3 n3) as (n4 & c4 & l4 & -> & A4 & L4 & C4).
  { intros p Hp. rewrite C3. apply Hr. set_solver. }
  cbn [mbind option_bind]. rewrite P3. cbn [mbind option_bind]. rewrite P4. cbn [mbind option_bind].
  set (n5 := append_all "tables" n4 _). set (n6 := append_all "rprocs" n5 _). set (n7 := append_all "algs" n6 _).
  destruct (params_export_start (np_params s)) as [S1 S2]. change (params_export _ _) with n1 in S1, S2.
  pose proof (append_all_appended "conn-list" conns n1) as [_ O2]. fold n2 in O2. destruct A3 as [A3 O3], A4 as [A4 O4].
  pose proof (append_all_appended "tables" (table_nv <$> npf_tableset_export (ts_heap (np_tables s)) ts) n4) as [A5 O5].
  change (append_all "tables" n4 _) with n5 in A5, O5.
  pose proof (append_all_appended "rprocs" (rprocset_export (c_x c4) rp) n5) as [_ O6]. change (append_all "rprocs" n5 _) with n6 in O6.
  pose proof (append_all_appended "algs" (alg_nv <$> alg_export (c_x c4)) n6) as [_ O7]. change (append_all "algs" n6 _) with n7 in O7.
  assert (∀ m, m ∉ ["algs"; "rprocs"]%string → nvlist_get_nvlist_array n7 m = nvlist_get_nvlist_array n5 m ∧ dnvlist_get_nvlist n7 m = dnvlist_get_nvlist n5 m) as O57.
  { intros m Hm. destruct (O7 m) as [-> ->]; [set_solver|]. apply O6. set_solver. }
  assert (∀ m, m ∉ ["params"; "params-defaults"; "conn-list"]%string → nvlist_get_nvlist_array n2 m = None) as S12.
  { intros m Hm. rewrite (proj1 (O2 m ltac:(set_solver))). apply S2; set_solver. }
  eexists _, _. split; [reflexivity|]. unfold npf_config_exit. cbn [np_locked set_ctl upd_x set_lock np_config np_tables np_params np_ctl np_fault].
  destruct (nv_add_bool n7 "active" (active_p (c_x c4))) as (_ & Hb & _). rewrite nn_add_bool, !Hb. split_and!; try done.
  - by rewrite C4, C3.
  - rewrite (proj2 (O57 "params"%string ltac:(set_solver))), (proj2 (O5 "params"%string ltac:(done))), (proj2 (O4 "params"%string ltac:(done))),
      (proj2 (O3 "params"%string ltac:(done))), (proj2 (O2 "params"%string ltac:(done))). exact S1.
  - rewrite (proj1 (O57 "tables"%string ltac:(set_solver))), A5, (proj1 (O4 "tables"%string ltac:(done))), (proj1 (O3 "tables"%string ltac:(done))), S12 by set_solver.
    cbn [default id app]. f_equal. apply export_descs, (td_slots _ _ _ Ht).
  - rewrite (proj1 (O57 "rules"%string ltac:(set_solver))), (proj1 (O5 "rules"%string ltac:(done))), (proj1 (O4 "rules"%string ltac:(done))), A3, S12 by set_solver. done.
  - rewrite (proj1 (O57 "nat"%string ltac:(set_solver))), (proj1 (O5 "nat"%string ltac:(done))), A4, (proj1 (O3 "nat"%string ltac:(done))), S12 by set_solver. done.
Qed.

(** C9: The parameters and the tables of a saved configuration load.  The
    export of an active configuration succeeds, takes and releases the lock
    and changes no rule, table or parameter; it has an entry for every rule
    and every NAT policy (the load of these entries is not part of this
    statement).  From the response, in a system with the same registered
    parameters, [npf_mk_params] accepts the parameters and sets every one of
    them to the saved value, and [npf_mk_tables] makes every table again: in
    the same slot, with its name and type, and empty, so that a reload keeps
    the entries of the active one.  This is for configurations in which every
    slot of the table set is used, no table is constant (those are saved
    without their content and refused, [const_table_unsaved]), the names of
    tables are short enough and distinct, and rules and NAT policies can be
    exported ([saveable]). *)
Theorem npfctl_save_load s nc rs ns ts rp l : saveable s nc rs ns ts rp l →
  ∃ resp s', npfctl_save s = Some (0, resp, s') ∧ np_locked s' = false ∧ np_fault s' = np_fault s ∧
    np_config s' = np_config s ∧ np_tables s' = np_tables s ∧ np_params s' = np_params s ∧ c_rules (np_ctl s') = c_rules (np_ctl s) ∧
    length (default [] (nvlist_get_nvlist_array resp "rules")) = length (rs_rules rs) ∧
    length (default [] (nvlist_get_nvlist_array resp "nat")) = length (rs_rules ns) ∧
    (∀ pi, pi_map pi = pi_map (np_params s) → npf_mk_params pi resp false = (0, pi) ∧
       ∃ pi', npf_mk_params pi resp true = (0, pi') ∧
         ∀ p, p ∈ concat (pi_list (np_params s)) → pi_vals pi' !! p_valp p = pi_vals (np_params s) !! p_valp p) ∧
    (∀ tb, ∃ ts' tb', npf_mk_tables kmem tb resp = (0, Some ts', tb') ∧ length ts' = length ts ∧
       ∀ i t, l !! i = Some t → ∃ p t', ts' !! i = Some (Some p) ∧ ts_heap tb' !! p = Some t' ∧ remade t t' (Z.of_nat i)).
Proof.
  intros Hs. destruct (npfctl_save_parts _ _ _ _ _ _ _ Hs) as (resp & s' & E & Q1 & Q2 & Q3 & Q4 & Q5 & Q6 & Rp & Rt & Rr & Rn).
  exists resp, s'. do 9 (split; [done|]). destruct Hs as [_ _ _ _ Hp Hi [T1 T2 T3 T4]]. split.
  - intros pi Hm. unfold npf_mk_params. cbn [nvlist_dict nest_dict]. rewrite Rp. cbn [fmap option_fmap option_map].
    destruct (params_export_members (np_params s) Hp) as [Hsm Hall]. split; [by apply (params_loop_check (np_params s) Hp Hi)|].
    destruct (params_loop_set (np_params s) Hp Hi _ Hsm pi Hm) as (pi' & -> & _ & Hv). exists pi'. split; [done|]. intros p Hpp.
    rewrite (Hv p Hpp) by auto. by destruct (saved_param (np_params s) Hp Hi p (np_params s) eq_refl Hpp) as (_ & _ & _ & ->).
  - intros tb. unfold npf_mk_tables. rewrite Rt. pose proof (Forall2_length _ _ _ T1) as Hl. unfold NPF_MAX_TABLES in *.
    assert (length (table_nv (NV := NV) <$> descs 0 l) = length l) as Hlen.
    { rewrite length_fmap. generalize 0. clear. induction l; intros z; cbn; auto. }
    rewrite Hlen. rewrite (proj2 (Z.ltb_ge _ _)) by lia. unfold npf_tableset_create.
    destruct (tables_loop_saved l 0 tb [] []) as (new & tb' & En & _ & Hn & Hnew); try done; [cbn; lia|by intros p []%elem_of_nil|].
    cbn [app] in En. rewrite En.
    exists new, tb'. split; [done|]. split; [by rewrite Hl|]. intros i t Ht. apply Hnew in Ht. exact Ht.
Qed.

End saved.

(** ** A case *)

(** In a tree a nested list is an array of one list. *)
#[global] Instance nv_tree_nest_ops : nvlist_nest_ops nv_tree := {
  dnvlist_get_nvlist t n := match nvt_array (nvt_arrays t) n with Some [d] => Some d | _ => None end;
  nvlist_add_nvlist t n d := NVT (nvt_scalars t) ((n, [d]) :: nvt_arrays t);
  nvlist_members t :=
    let s := nvt_scalars t in
    (prod_map id (Some ∘ wrap 64) <$> map_to_list (nv_numbers s)) ++ ((λ n, (n, None)) <$>
      (map_to_list (nv_bools s)).*1 ++ (map_to_list (nv_strings s)).*1 ++ (map_to_list (nv_binaries s)).*1 ++ (nvt_arrays t).*1);
}.

#[global] Instance nv_tree_nest_laws : nvlist_nest_laws nv_tree.
Proof.
  split; try done.
  - intros [[ns bs ss xs] ar] n v Hn. cbn in *. rewrite fmap_app, not_elem_of_app in Hn. destruct Hn as [Hn _].
    assert (ns !! n = None) as E.
    { destruct (ns !! n) as [w|] eqn:E; [|done]. destruct Hn. rewrite <- list_fmap_compose. apply list_elem_of_fmap. exists (n, w). split; [done|]. by apply elem_of_map_to_list. }
    by rewrite (map_to_list_insert _ _ _ E).
  - intros t n x m Hm. cbn. rewrite nvt_array_without, decide_False by done. by rewrite decide_False by congruence.
  - intros t n d Hd Ha m. cbn in *. split; [|intros Hm; by rewrite decide_False by congruence].
    destruct (decide (n = m)) as [->|]; [by rewrite decide_True|by rewrite (decide_False (P := m = n)) by congruence].
Qed.

#[local] Instance case_load_env : load_env unit nv_tree := { rproc_lookup _ _ _ := None; natpolicy_create _ _ := (None, tt) }.
#[local] Instance case_save_env : save_env unit nv_tree := { rproc_getname _ _ := ""%string; natpolicy_export _ _ nv := nv }.
#[local] Instance case_conf_env : conf_env unit unit nv_tree net_world := {
  alg_construct _ _ := false; rproc_create _ _ := (None, tt); ext_construct _ _ _ _ := (ENOENT, tt); conndb_create := tt;
  conn_import _ _ _ _ m w _ := (EINVAL, tt, tt, m, w); conndb_flush _ _ := tt; conn_load _ _ _ := tt; conn_tracking _ _ := tt;
  portmap_flush _ := tt;
}.
#[local] Instance case_export_env : export_env unit nv_tree net_world := {
  conndb_export _ _ := ([], tt); rprocset_export _ _ := []; alg_export _ := ["icmp"%string]; active_p _ := true;
  conn_find _ m w _ resp := (ESRCH, resp, tt, m, w);
}.

Definition case_table (name : string) (tid : Z) : npf_table (M := gmap (list Z) npf_tblent) (L := gmap (Z * Z * Z) npf_tblent) (C := unit) :=
  mk_table (ST_LPM lpm_create) [] 0 tid 1 name.

(** Two tables, one parameter changed. *)
Definition case_saved : case_npf :=
  mk_npf (np_ctl case_state) (mk_tables {[1 := case_table "white" 0; 2 := case_table "black" 1]} 3 1)
    (snd (npfk_param_set npf_params_create "gc.step" 16))
    (Some (mk_config (Some (case_ruleset 1)) (Some (case_ruleset 2)) (Some []) (Some [Some 1; Some 2]) false)) false false.

Lemma case_saveable : saveable case_saved (mk_config (Some (case_ruleset 1)) (Some (case_ruleset 2)) (Some []) (Some [Some 1; Some 2]) false)
  (case_ruleset 1) (case_ruleset 2) [Some 1; Some 2] [] [case_table "white" 0; case_table "black" 1].
Proof.
  split; [reflexivity|reflexivity|by repeat split| | | |].
  - intros p. cbn. rewrite lookup_insert_is_Some, lookup_singleton_is_Some. set_solver.
  - exact (proj1 (params_reach_ok gmap_put_some _ (pr_set _ "gc.step" 16 pr_create))).
  - cbn [np_params case_saved]. rewrite (proj2 (params_reach_ok gmap_put_some _ (pr_set _ "gc.step" 16 pr_create))). repeat (constructor; [split; vm_compute; congruence|]). constructor.
  - split; [|by apply (bool_decide_unpack _); vm_compute| |vm_compute; discriminate].
    + repeat constructor; by eexists.
    + repeat (constructor; [split; [vm_compute; lia|done]|]). constructor.
Qed.

Lemma npfctl_save_load_witness : ∃ resp s' ts' tb' p t', npfctl_save case_saved = Some (0, resp, s') ∧
  npf_mk_tables true (mk_tables ∅ 1 1) resp = (0, Some ts', tb') ∧ ts' !! 1%nat = Some (Some p) ∧ ts_heap tb' !! p = Some t' ∧ t_name t' = "black"%string.
Proof.
  destruct (npfctl_save_load true case_saved _ _ _ _ _ _ case_saveable) as (resp & s' & E & _ & _ & _ & _ & _ & _ & _ & _ & _ & Ht).
  destruct (Ht (mk_tables ∅ 1 1)) as (ts' & tb' & E' & _ & Hl). destruct (Hl 1%nat (case_table "black" 1) eq_refl) as (p & t' & Hp & Ht' & R).
  exists resp, s', ts', tb', p, t'. destruct R as (-> & _). done.
Defined.

(** A saved constant table has no data, and is refused. *)
Theorem const_table_unsaved : ∀ tb : tables (M := gmap (list Z) npf_tblent) (L := gmap (Z * Z * Z) npf_tblent) (C := unit),
  npf_mk_table true tb [None] (table_nv (NV := nv_tree) ("c"%string, NPF_TABLE_CONST, 0)) false = (inr EINVAL, tb).
Proof. intros tb. vm_compute. by destruct tb. Qed.

(** A request of another version is not run, and has no error number in its response. *)
Example run_op_version : npfctl_run_op (DB := unit) true case_saved IOC_NPF_SAVE (nvlist_add_number nvlist_create "version" 21 : nv_tree)
  = Some (EPROGMISMATCH, nvlist_create, case_saved).
Proof. reflexivity. Qed.

End CtlOps.
