(* ===== verification/NpfGroups.v ===== *)
(** * NpfGroups: groups and rules of a configuration (src/npfctl/npf_build.c)

    While npfctl parses a configuration it calls [npfctl_build_group],
    [npfctl_build_rule] and [npfctl_build_group_end]; open groups are on the
    stack [current_group], and a group is inserted into its parent when it
    ends.  [npfctl_config_build] inserts the default group last and flattens
    the rules.  Rules under construction are heap objects: inserting a rule
    copies its list into the parent and frees it.  A write outside of the
    stack of groups is [E_segv]. *)

From S2P Require Import Prelude Nbuf Addr Cache Rewrite Tcpopt StateTcp Thmap ConnKey Tableset Bpf NpfBpf NpfVar BpfComp NpfBuild IfMap Ruleset Nvlist Conn Rproc Alg NpfNat Libnpf NpfCtl.
From stdpp Require Import strings.
Open Scope Z_scope.
Open Scope npf_scope.

Module NpfGroups.
Export NpfBuild Nvlist.
Export Libnpf (nl_config, mk_ncf, ncf_dict, ncf_rule_list, NPF_CODE_BPF, rfields, mk_rf, rule_nv, rforest, RNil, RNode, roots, nested, flat, rdepth, subrules).
Export NpfCtl (bytes_of_insns, insns_of_bytes).
Export Ruleset (NPF_RULE_PASS, NPF_RULE_GROUP, NPF_RULE_FINAL, NPF_RULE_STATEFUL, NPF_RULE_DYNAMIC, NPF_RULE_IN, NPF_RULE_OUT, NPF_PRI_LAST).

Definition MAX_RULE_NESTING : nat := 16.

(** The marks as binary data. *)
Definition word_bytes (w : Z) : list Z := [w mod 256; w / 2 ^ 8 mod 256; w / 2 ^ 16 mod 256; w / 2 ^ 24 mod 256].

Section groups.
Context {NV : Type} `{NO : nvlist_ops NV} {NA : nvlist_array_ops NV}.
(** [pcap_compile_nopcap]. *)
Context (pcap_compile : string → option (list bpf_insn)).

(** [b_conf] is [None] when a single dynamic rule is parsed. *)
Record bconf := mk_bconf {
  b_conf : option (nl_config (NV := NV));
  b_rules : gmap Z NV;
  b_next : Z;
  b_defgroup : option Z;
  b_group : list (option Z);
  b_level : Z;
  b_the_rule : option Z;
  b_built : bool;
}.

Definition npfctl_config_init : bconf :=
  mk_bconf (Some Libnpf.npf_config_create) ∅ 1 None (replicate MAX_RULE_NESTING None) 0 None false.

Definition set_heap (s : bconf) (m : gmap Z NV) : bconf :=
  mk_bconf (b_conf s) m (b_next s) (b_defgroup s) (b_group s) (b_level s) (b_the_rule s) (b_built s).
Definition set_conf (s : bconf) (c : nl_config) : bconf :=
  mk_bconf (Some c) (b_rules s) (b_next s) (b_defgroup s) (b_group s) (b_level s) (b_the_rule s) (b_built s).
Definition set_stack (s : bconf) (g : list (option Z)) (n : Z) : bconf :=
  mk_bconf (b_conf s) (b_rules s) (b_next s) (b_defgroup s) g n (b_the_rule s) (b_built s).
Definition set_defgroup (s : bconf) (rl : Z) : bconf :=
  mk_bconf (b_conf s) (b_rules s) (b_next s) (Some rl) (b_group s) (b_level s) (b_the_rule s) (b_built s).

(** [npf_rule_create] allocates. *)
Definition new_rule (s : bconf) (nv : NV) : Z * bconf :=
  (b_next s, mk_bconf (b_conf s) (<[b_next s := nv]> (b_rules s)) (b_next s + 1) (b_defgroup s) (b_group s) (b_level s) (b_the_rule s) (b_built s)).

Definition get_rule (s : bconf) (rl : Z) : comp NV := match b_rules s !! rl with Some nv => inl nv | None => inr E_segv end.

Definition npf_rule_insert (s : bconf) (parent : option Z) (rl : Z) : comp bconf :=
  let! nv := get_rule s rl in
  match parent, b_conf s with
  | Some p, _ =>
      let! pnv := get_rule s p in
      inl (set_heap s (delete rl (<[p := Libnpf.npf_rule_insert_sub pnv nv]> (b_rules s))))
  | None, Some c => inl (set_heap (set_conf s (Libnpf.npf_rule_insert_top c nv)) (delete rl (b_rules s)))
  | None, None => inr E_segv
  end.

(** An element of [current_group]. *)
Definition group_at (s : bconf) (n : Z) : option Z := default None (b_group s !! Z.to_nat n).

Definition npfctl_build_group (s : bconf) (name : option string) (attr : Z) (ifname : option string) (def : bool) : comp bconf :=
  let attr_di := NPF_RULE_IN ||| NPF_RULE_OUT in
  let attr := if def || (attr &&& attr_di =? 0) then attr ||| attr_di else attr in
  let nv := Libnpf.npf_rule_setprio (Libnpf.npf_rule_create name (attr ||| NPF_RULE_GROUP) ifname) NPF_PRI_LAST in
  let '(rl, s) := new_rule s nv in
  let! s := (if def then
               if bool_decide (is_Some (b_defgroup s)) then inr E_yyerror
               else if negb (b_level s =? 0) then inr E_yyerror
               else inl (set_defgroup s rl)
             else inl s) in
  if Z.of_nat MAX_RULE_NESTING <=? b_level s then inr E_yyerror else
  let n := b_level s + 1 in
  if n <? Z.of_nat MAX_RULE_NESTING then inl (set_stack s (<[Z.to_nat n := Some rl]> (b_group s)) n) else inr E_segv.

Definition npfctl_build_group_end (s : bconf) : comp bconf :=
  let! _ := assert (0 <? b_level s) in
  let parent := group_at s (b_level s - 1) in
  let group := group_at s (b_level s) in
  let s := set_stack s (<[Z.to_nat (b_level s) := None]> (b_group s)) (b_level s - 1) in
  if bool_decide (group = b_defgroup s) then
    let! _ := assert (negb (bool_decide (is_Some parent))) in inl s
  else match group with Some rl => npf_rule_insert s parent rl | None => inr E_segv end.

(** The filter of a rule as members of its list: the marks and the code. *)
Definition rule_code (v : var_sys) (rl : NV) (attr family : Z) (popts : option Z) (fopts : filt_opts) (pcap_filter : option string) : comp NV :=
  match pcap_filter with
  | Some filter =>
      match pcap_compile filter with
      | None => inr E_yyerror
      | Some code => inl (snd (Libnpf.npf_rule_setcode rl NPF_CODE_BPF (bytes_of_insns code)))
      end
  | None =>
      let! (_, marks, code) := npfctl_build_code v (flag attr NPF_RULE_STATEFUL) family popts fopts in
      let rl := match marks with [] => rl | _ => Libnpf.npf_rule_setinfo rl (concat (word_bytes <$> marks)) end in
      match code with
      | None => inl rl
      | Some code => inl (snd (Libnpf.npf_rule_setcode rl NPF_CODE_BPF (bytes_of_insns code)))
      end
  end.

Definition npfctl_build_rule (v : var_sys) (s : bconf) (attr : Z) (ifname : option string) (family : Z) (popts : option Z)
    (fopts : filt_opts) (pcap_filter rproc : option string) : comp bconf :=
  let attr := attr ||| (match b_conf s with Some _ => 0 | None => NPF_RULE_DYNAMIC end) in
  let! nv := rule_code v (Libnpf.npf_rule_create None attr ifname) attr family popts fopts pcap_filter in
  let nv := match rproc with Some n => Libnpf.npf_rule_setproc nv n | None => nv end in
  match b_conf s with
  | Some conf =>
      let cg := group_at s (b_level s) in
      let undefined := match rproc with Some n => negb (Libnpf.npf_rproc_exists_p conf n) | None => false end in
      if undefined then inr E_yyerror else
      match cg with
      | None => inr E_assert
      | Some p =>
          let '(rl, s) := new_rule s (Libnpf.npf_rule_setprio nv NPF_PRI_LAST) in
          npf_rule_insert s (Some p) rl
      end
  | None =>
      let '(rl, s) := new_rule s nv in
      inl (mk_bconf (b_conf s) (b_rules s) (b_next s) (b_defgroup s) (b_group s) (b_level s) (Some rl) (b_built s))
  end.

(** Groups nest at most [MAX_RULE_NESTING] deep. *)
Definition npfctl_config_build (s : bconf) : comp bconf :=
  if b_built s then inl s else
  match b_defgroup s with
  | None => inr E_errx
  | Some rl =>
      let! _ := assert (b_level s =? 0) in
      let! s := npf_rule_insert s None rl in
      match b_conf s with
      | None => inr E_segv
      | Some conf =>
          match Libnpf.npf_config_build (S MAX_RULE_NESTING) conf with
          | None => inr E_abort
          | Some conf =>
              inl (mk_bconf (Some conf) (b_rules s) (b_next s) (b_defgroup s) (b_group s) (b_level s) (b_the_rule s) true)
          end
      end
  end.

(** ** Configurations as they are written *)

Record src_rule := mk_srule {
  ru_attr : Z;
  ru_ifname : option string;
  ru_family : Z;
  ru_popts : option Z;
  ru_fopts : filt_opts;
  ru_pcap : option string;
  ru_rproc : option string;
}.

Record src_group := mk_sgroup { gr_name : option string; gr_attr : Z; gr_ifname : option string }.

Inductive cfg := C_nil | C_rule (r : src_rule) (rest : cfg) | C_group (g : src_group) (body rest : cfg).

(** The calls that the parser makes. *)
Inductive bop := B_group (g : src_group) (def : bool) | B_end | B_rule (r : src_rule).

Fixpoint calls (c : cfg) : list bop :=
  match c with
  | C_nil => []
  | C_rule r rest => B_rule r :: calls rest
  | C_group g body rest => B_group g false :: calls body ++ B_end :: calls rest
  end.

Definition do_op (v : var_sys) (s : bconf) (op : bop) : comp bconf :=
  match op with
  | B_group g def => npfctl_build_group s (gr_name g) (gr_attr g) (gr_ifname g) def
  | B_end => npfctl_build_group_end s
  | B_rule r => npfctl_build_rule v s (ru_attr r) (ru_ifname r) (ru_family r) (ru_popts r) (ru_fopts r) (ru_pcap r) (ru_rproc r)
  end.

Definition do_ops (v : var_sys) (ops : list bop) (s : bconf) : comp bconf := cfold (do_op v) ops s.

(** A whole configuration: the default group may be anywhere among the groups. *)
Definition config_calls (before : cfg) (g : src_group) (body after : cfg) : list bop :=
  calls before ++ B_group g true :: calls body ++ B_end :: calls after.

Definition npfctl_compile (v : var_sys) (before : cfg) (g : src_group) (body after : cfg) : comp bconf :=
  let! s := do_ops v (config_calls before g body after) npfctl_config_init in
  npfctl_config_build s.

End groups.

(** ** The lists that are built *)

Section built.
Context {NV : Type} `{NL : nvlist_laws NV} {NA : nvlist_array_ops NV} {AL : nvlist_array_laws NV}.
Context (pcap_compile : string → option (list bpf_insn)) (v : var_sys).
Implicit Types (s : bconf (NV := NV)).

(** The byte-code of a rule. *)
Definition code_of (r : src_rule) (marks : list Z) (code : option (list bpf_insn)) : Prop :=
  match ru_pcap r with
  | Some filter => marks = [] ∧ is_Some code ∧ pcap_compile filter = code
  | None => ∃ any, npfctl_build_code v (flag (ru_attr r) NPF_RULE_STATEFUL) (ru_family r) (ru_popts r) (ru_fopts r) = inl (any, marks, code)
  end.

Definition rule_fields (r : src_rule) (marks : list Z) (code : option (list bpf_insn)) : rfields :=
  mk_rf (Some (u64 (ru_attr r))) (Some (u64 (u64 NPF_PRI_LAST))) (match code with Some _ => Some NPF_CODE_BPF | None => None end) None
    None (ru_ifname r) (ru_rproc r) (bytes_of_insns <$> code)
    (match marks with [] => None | _ => Some (concat (word_bytes <$> marks)) end) None.

Definition group_attr (g : src_group) (def : bool) : Z :=
  let attr_di := NPF_RULE_IN ||| NPF_RULE_OUT in
  (if def || (gr_attr g &&& attr_di =? 0) then gr_attr g ||| attr_di else gr_attr g) ||| NPF_RULE_GROUP.

Definition group_fields (g : src_group) (def : bool) : rfields :=
  mk_rf (Some (u64 (group_attr g def))) (Some (u64 (u64 NPF_PRI_LAST))) None None (gr_name g) (gr_ifname g) None None None None.

(** The list of a rule, as it is inserted. *)
Definition is_rule (r : src_rule) (nv : NV) : Prop := ∃ marks code, code_of r marks code ∧ rule_nv nv (rule_fields r marks code).

(** The nested lists of a configuration. *)
Fixpoint reps (c : cfg) (f : rforest NV) : Prop :=
  match c, f with
  | C_nil, RNil => True
  | C_rule r rest, RNode nv RNil f => is_rule r nv ∧ reps rest f
  | C_group g body rest, RNode nv fb fr => rule_nv nv (group_fields g false) ∧ reps body fb ∧ reps rest fr
  | _, _ => False
  end.

Lemma create_fields name attr ifname :
  rule_nv (Libnpf.npf_rule_create name attr ifname : NV) (mk_rf (Some (u64 attr)) None None None name ifname None None None None) ∧
  ∀ m, nvlist_get_nvlist_array (Libnpf.npf_rule_create name attr ifname : NV) m = None.
Proof.
  unfold Libnpf.npf_rule_create. set (nv1 := nvlist_add_number nvlist_create "attr" attr).
  assert (rule_nv nv1 (mk_rf (Some (u64 attr)) None None None None None None None None None)) as H1
    by (apply (Libnpf.rule_nv_attr nvlist_create Libnpf.no_fields attr); [apply Libnpf.rule_nv_create|done]).
  assert (∀ m, nvlist_get_nvlist_array nv1 m = None) as A1.
  { intros m. unfold nv1. rewrite (proj1 (nv_add_number_others nvlist_create "attr" attr (proj1 (nv_create_empty "attr")))). apply nv_create_arrays. }
  set (nv2 := match name with Some n => _ | None => nv1 end).
  assert (rule_nv nv2 (mk_rf (Some (u64 attr)) None None None name None None None None None) ∧ ∀ m, nvlist_get_nvlist_array nv2 m = None) as [H2 A2].
  { unfold nv2. destruct name as [n|]; [|done]. split; [by apply (Libnpf.rule_nv_name nv1 _ n H1)|].
    intros m. by rewrite (proj1 (nv_add_string_others nv1 "name" n (Libnpf.rn_name _ _ H1))). }
  destruct ifname as [n|]; [|done]. split; [by apply (Libnpf.rule_nv_ifname nv2 _ n H2)|].
  intros m. by rewrite (proj1 (nv_add_string_others nv2 "ifname" n (Libnpf.rn_ifname _ _ H2))).
Qed.

(** Members added to a rule leave its arrays alone. *)
Lemma add_number_array (nv : NV) n x m : nv_number nv n = None → nvlist_get_nvlist_array (nvlist_add_number nv n x) m = nvlist_get_nvlist_array nv m.
Proof. intros Hn. by apply nv_add_number_others. Qed.
Lemma add_string_array (nv : NV) n x m : dnvlist_get_string nv n = None → nvlist_get_nvlist_array (nvlist_add_string nv n x) m = nvlist_get_nvlist_array nv m.
Proof. intros Hn. by apply nv_add_string_others. Qed.
Lemma add_binary_array (nv : NV) n x m : dnvlist_get_binary nv n = None → nvlist_get_nvlist_array (nvlist_add_binary nv n x) m = nvlist_get_nvlist_array nv m.
Proof. intros Hn. by apply nv_add_binary_others. Qed.

Lemma setcode_fields nv F prog : rule_nv nv F → Libnpf.rf_ctype F = None → Libnpf.rf_code F = None →
  let nv' := snd (Libnpf.npf_rule_setcode nv NPF_CODE_BPF (bytes_of_insns prog)) in
  rule_nv nv' (mk_rf (Libnpf.rf_attr F) (Libnpf.rf_prio F) (Some NPF_CODE_BPF) (Libnpf.rf_skip F) (Libnpf.rf_name F) (Libnpf.rf_ifname F)
    (Libnpf.rf_rproc F) (Some (bytes_of_insns prog)) (Libnpf.rf_info F) (Libnpf.rf_key F)) ∧
  ∀ m, nvlist_get_nvlist_array nv' m = nvlist_get_nvlist_array nv m.
Proof.
  intros Hn Ht Hc. pose proof (Libnpf.rule_nv_ctype nv F NPF_CODE_BPF Hn Ht) as H1. cbn.
  split; [by apply (Libnpf.rule_nv_code _ _ (bytes_of_insns prog) H1)|]. intros m.
  rewrite add_binary_array by exact (eq_trans (Libnpf.rn_code _ _ H1) Hc).
  by rewrite add_number_array by exact (eq_trans (Libnpf.rn_ctype _ _ Hn) Ht).
Qed.

Lemma rule_code_fields r nv : let nv0 := Libnpf.npf_rule_create None (ru_attr r) (ru_ifname r) in
  rule_code pcap_compile v nv0 (ru_attr r) (ru_family r) (ru_popts r) (ru_fopts r) (ru_pcap r) = inl nv →
  ∃ marks code, code_of r marks code ∧
    rule_nv nv (mk_rf (Some (u64 (ru_attr r))) None (match code with Some _ => Some NPF_CODE_BPF | None => None end) None
      None (ru_ifname r) None (bytes_of_insns <$> code) (match marks with [] => None | _ => Some (concat (word_bytes <$> marks)) end) None) ∧
    ∀ m, nvlist_get_nvlist_array nv m = None.
Proof.
  intros nv0 Hc. destruct (create_fields None (ru_attr r) (ru_ifname r)) as [H0 A0]. fold nv0 in H0, A0. unfold rule_code in Hc. unfold code_of.
  destruct (ru_pcap r) as [filter|].
  - destruct (pcap_compile filter) as [prog|] eqn:Ep; [|done]. injection Hc as <-. exists [], (Some prog).
    destruct (setcode_fields nv0 _ prog H0) as [H1 A1]; [done|done|]. split; [by eauto|]. split; [exact H1|]. intros m. by rewrite A1.
  - apply cbind_inl in Hc as ([[any marks] code] & Hb & Hc). exists marks, code. split; [eauto|].
    set (nv1 := match marks with [] => nv0 | _ => _ end) in Hc.
    set (info := match marks with [] => None | _ => Some (concat (word_bytes <$> marks)) end).
    assert (rule_nv nv1 (mk_rf (Some (u64 (ru_attr r))) None None None None (ru_ifname r) None None info None) ∧
            ∀ m, nvlist_get_nvlist_array nv1 m = None) as [H1 A1].
    { unfold nv1, info. destruct marks as [|w ws]; [done|]. split; [by apply (Libnpf.rule_nv_info nv0 _ _ H0)|].
      intros m. unfold Libnpf.npf_rule_setinfo. rewrite add_binary_array; [done|apply (Libnpf.rn_info _ _ H0)]. }
    destruct code as [prog|]; injection Hc as <-; [|done].
    destruct (setcode_fields nv1 _ prog H1) as [H2 A2]; [done|done|]. split; [exact H2|]. intros m. by rewrite A2.
Qed.

Lemma rule_list r nv : rule_code pcap_compile v (Libnpf.npf_rule_create None (ru_attr r) (ru_ifname r)) (ru_attr r) (ru_family r) (ru_popts r)
    (ru_fopts r) (ru_pcap r) = inl nv →
  let nv' := Libnpf.npf_rule_setprio (match ru_rproc r with Some n => Libnpf.npf_rule_setproc nv n | None => nv end) NPF_PRI_LAST in
  is_rule r nv' ∧ ∀ m, nvlist_get_nvlist_array nv' m = None.
Proof.
  intros Hc nv'. destruct (rule_code_fields r nv Hc) as (marks & code & Hco & H1 & A1).
  set (nv2 := match ru_rproc r with Some n => _ | None => nv end) in nv'.
  set (F := rule_fields r marks code).
  assert (rule_nv nv2 (mk_rf (Libnpf.rf_attr F) None (Libnpf.rf_ctype F) None None (ru_ifname r) (ru_rproc r) (Libnpf.rf_code F) (Libnpf.rf_info F) None) ∧
          ∀ m, nvlist_get_nvlist_array nv2 m = None) as [H2 A2].
  { unfold nv2. destruct (ru_rproc r) as [n|]; [|done]. split; [by apply (Libnpf.rule_nv_rproc nv _ n H1)|].
    intros m. unfold Libnpf.npf_rule_setproc. rewrite add_string_array; [done|apply (Libnpf.rn_rproc _ _ H1)]. }
  split.
  - exists marks, code. split; [done|]. by apply (Libnpf.rule_nv_prio nv2 _ (u64 NPF_PRI_LAST) H2).
  - intros m. unfold nv', Libnpf.npf_rule_setprio. rewrite add_number_array; [done|apply (Libnpf.rn_prio _ _ H2)].
Qed.

Lemma group_list g def :
  let nv := Libnpf.npf_rule_setprio (Libnpf.npf_rule_create (gr_name g) (group_attr g def) (gr_ifname g)) NPF_PRI_LAST : NV in
  rule_nv nv (group_fields g def) ∧ ∀ m, nvlist_get_nvlist_array nv m = None.
Proof.
  destruct (create_fields (gr_name g) (group_attr g def) (gr_ifname g)) as [H0 A0]. split; [by apply (Libnpf.rule_nv_prio _ _ (u64 NPF_PRI_LAST) H0)|].
  intros m. unfold Libnpf.npf_rule_setprio. rewrite add_number_array; [done|apply (Libnpf.rn_prio _ _ H0)].
Qed.

(** *** Insertion *)

Definition arr (l : list NV) : option (list NV) := match l with [] => None | _ => Some l end.

(** Rules go to the current group or, outside of groups, to the configuration. *)
Definition tkey (t : option Z) : string := match t with Some _ => "subrules" | None => "__rules" end.

(** The target's list, with the rules in it. *)
Record target s (t : option Z) (N : NV) (l : list NV) : Prop := {
  tg_at : group_at s (b_level s) = t;
  tg_nv : match t with
          | Some p => b_rules s !! p = Some N ∧ p < b_next s
          | None => ncf_dict <$> b_conf s = Some N
          end;
  tg_arr : nvlist_get_nvlist_array N (tkey t) = arr l;
  tg_level : 0 <= b_level s < 16;
  tg_len : length (b_group s) = MAX_RULE_NESTING;
  tg_conf : is_Some (b_conf s);
  tg_def : ∀ d, b_defgroup s = Some d → d < b_next s;
}.

(** What building leaves alone. *)
Record frame s s' (t : option Z) (N N' : NV) : Prop := {
  fr_level : b_level s' = b_level s;
  fr_next : b_next s <= b_next s';
  fr_def : b_defgroup s' = b_defgroup s;
  fr_group : ∀ i, (i <= Z.to_nat (b_level s))%nat → b_group s' !! i = b_group s !! i;
  fr_rules : ∀ q, q < b_next s → t ≠ Some q → b_rules s' !! q = b_rules s !! q;
  fr_conf : match t with
            | Some _ => b_conf s' = b_conf s
            | None => b_conf s' = (λ c, Libnpf.set_dict c N') <$> b_conf s
            end;
  fr_scalars : same_scalars N N';
  fr_arrays : ∀ m, m ≠ tkey t → nvlist_get_nvlist_array N' m = nvlist_get_nvlist_array N m;
  fr_built : b_built s' = b_built s;
}.

Lemma same_scalars_refl (N : NV) : same_scalars N N.
Proof. intros m. done. Qed.

Lemma same_scalars_trans (N N' N'' : NV) : same_scalars N N' → same_scalars N' N'' → same_scalars N N''.
Proof. intros H1 H2 m. destruct (H1 m) as (<- & <- & <-). apply H2. Qed.

Lemma bframe_trans s1 s2 s3 t N1 N2 N3 : frame s1 s2 t N1 N2 → frame s2 s3 t N2 N3 → frame s1 s3 t N1 N3.
Proof.
  intros [] []. split; try congruence; try lia.
  - intros i Hi. rewrite fr_group1 by (rewrite fr_level0; lia). by apply fr_group0.
  - intros q Hq Ht. rewrite fr_rules1 by (done || lia). by apply fr_rules0.
  - destruct t; [congruence|]. rewrite fr_conf1, fr_conf0. by destruct (b_conf s1).
  - by eapply same_scalars_trans.
  - intros m Hm. rewrite fr_arrays1 by done. by apply fr_arrays0.
Qed.

Lemma bframe_refl s t N l : target s t N l → frame s s t N N.
Proof.
  intros [_ Hn _ _ _ Hc _]. split; try done; try lia.
  destruct t; [done|]. destruct (b_conf s) as [c|]; [|done]. injection Hn as <-. by destruct c.
Qed.

(** A rule made behind the objects of [s] is inserted into the target. *)
Lemma insert_target s s0 t N l rl nv s' : target s t N l →
  b_level s0 = b_level s → b_group s0 = b_group s ∨ (∀ i, (i <= Z.to_nat (b_level s))%nat → b_group s0 !! i = b_group s !! i) ∧ length (b_group s0) = MAX_RULE_NESTING →
  b_conf s0 = b_conf s → b_defgroup s0 = b_defgroup s → b_built s0 = b_built s → b_next s <= b_next s0 → b_next s <= rl → b_rules s0 !! rl = Some nv →
  (∀ q, q < b_next s → b_rules s0 !! q = b_rules s !! q) →
  npf_rule_insert s0 t rl = inl s' →
  ∃ N', target s' t N' (l ++ [nv]) ∧ frame s s' t N N'.
Proof.
  intros [T1 T2 T3 T4 T5 T6 T7] Hl Hg Hc Hd Hb Hn Hrl Hnv Hq Hi.
  assert ((∀ i, (i <= Z.to_nat (b_level s))%nat → b_group s0 !! i = b_group s !! i) ∧ length (b_group s0) = MAX_RULE_NESTING) as [Hg1 Hg2].
  { destruct Hg as [->|Hg]; [done|exact Hg]. }
  assert (group_at s0 (b_level s0) = t) as Hga by (unfold group_at in *; rewrite Hl, Hg1 by lia; done).
  unfold npf_rule_insert, get_rule in Hi. rewrite Hnv in Hi. cbn [cbind] in Hi.
  destruct (nv_append N (tkey t) nv) as (P1 & P2 & _).
  exists (nvlist_append_nvlist_array N (tkey t) nv).
  assert (nvlist_get_nvlist_array (nvlist_append_nvlist_array N (tkey t) nv) (tkey t) = arr (l ++ [nv])) as Ha.
  { rewrite P2, decide_True, T3 by done. by destruct l. }
  destruct t as [p|].
  - destruct T2 as [T2 T2']. rewrite Hq, T2 in Hi by done. cbn [cbind] in Hi. injection Hi as <-.
    split; split; cbn; try done; try congruence; try lia.
    + split; [|lia]. rewrite lookup_delete_ne by lia. apply lookup_insert_eq.
    + intros d Hd'. rewrite Hd in Hd'. specialize (T7 d Hd'). lia.
    + intros q Hq' Ht. rewrite lookup_delete_ne by lia. rewrite lookup_insert_ne by congruence. by apply Hq.
    + intros m Hm. by rewrite P2, decide_False.
  - rewrite Hc in Hi. destruct T6 as [c Ec]. rewrite Ec in Hi, T2. injection T2 as <-. injection Hi as <-.
    split; split; cbn; try done; try congruence; try lia.
    + intros d Hd'. rewrite Hd in Hd'. specialize (T7 d Hd'). lia.
    + intros q Hq' Ht. rewrite lookup_delete_ne by lia. by apply Hq.
    + by rewrite Ec.
    + intros m Hm. by rewrite P2, decide_False.
Qed.

Lemma cfold_app {A B} (f : B → A → comp B) l1 l2 b b' : cfold f (l1 ++ l2) b = inl b' → ∃ b1, cfold f l1 b = inl b1 ∧ cfold f l2 b1 = inl b'.
Proof.
  revert b. induction l1 as [|a l1 IH]; intros b Hf; [by eauto|]. cbn [app cfold] in Hf. apply cbind_inl in Hf as (b1 & H1 & Hf).
  destruct (IH b1 Hf) as (b2 & H2 & H3). exists b2. cbn [cfold]. by rewrite H1.
Qed.

Lemma arr_roots (f : rforest NV) : arr (roots f) = subrules f.
Proof. by destruct f. Qed.

(** A new group is the target of what follows. *)
Lemma build_group_target s t N l g def s1 : target s t N l →
  npfctl_build_group s (gr_name g) (gr_attr g) (gr_ifname g) def = inl s1 →
  let rl := b_next s in
  let nv := Libnpf.npf_rule_setprio (Libnpf.npf_rule_create (gr_name g) (group_attr g def) (gr_ifname g)) NPF_PRI_LAST in
  target s1 (Some rl) nv [] ∧ b_level s1 = b_level s + 1 ∧ b_next s1 = rl + 1 ∧ b_conf s1 = b_conf s ∧ b_built s1 = b_built s ∧
  b_defgroup s1 = (if def then Some rl else b_defgroup s) ∧ (def = true → b_defgroup s = None ∧ b_level s = 0) ∧
  b_rules s1 = <[rl := nv]> (b_rules s) ∧ ∀ i, (i <= Z.to_nat (b_level s))%nat → b_group s1 !! i = b_group s !! i.
Proof.
  intros [T1 T2 T3 T4 T5 T6 T7] Hb rl nv. unfold npfctl_build_group in Hb.
  cbn [new_rule] in Hb. apply cbind_inl in Hb as (s0 & H0 & Hb).
  assert (∃ d, s0 = mk_bconf (b_conf s) (<[rl := nv]> (b_rules s)) (rl + 1) d (b_group s) (b_level s) (b_the_rule s) (b_built s) ∧
    d = (if def then Some rl else b_defgroup s) ∧ (def = true → b_defgroup s = None ∧ b_level s = 0)) as (d & -> & Hd & Hd').
  { destruct def; [|injection H0 as <-; by eexists]. cbn [b_defgroup b_level] in H0. case_bool_decide as Es; [done|].
    destruct (negb (b_level s =? 0)) eqn:E0; [done|]. injection H0 as <-. eexists. split; [done|]. split; [done|]. intros _.
    apply negb_false_iff, Z.eqb_eq in E0. destruct (b_defgroup s); [destruct Es; eauto|done]. }
  cbn [b_level b_group] in Hb. destruct (_ <=? b_level s); [done|]. destruct (b_level s + 1 <? _) eqn:El; [|done]. injection Hb as <-.
  apply Z.ltb_lt in El. change (Z.of_nat MAX_RULE_NESTING) with 16 in El. unfold MAX_RULE_NESTING in T5.
  split_and!; cbn; try done.
  - split; cbn; try done; try lia.
    + unfold group_at. cbn. rewrite list_lookup_insert_eq by lia. done.
    + rewrite lookup_insert_eq. split; [done|lia].
    + apply group_list.
    + by rewrite length_insert.
    + intros d0 Hd0. rewrite Hd in Hd0. destruct def; [injection Hd0 as <-; lia|]. specialize (T7 d0 Hd0). lia.
  - intros i Hi. rewrite list_lookup_insert_ne by lia. done.
Qed.

(** The calls for a configuration insert its lists into the target. *)
Lemma do_cfg c : ∀ s t N l s', target s t N l → do_ops pcap_compile v (calls c) s = inl s' →
  ∃ f N', reps c f ∧ nested f ∧ (rdepth f + Z.to_nat (b_level s) <= 15)%nat ∧ target s' t N' (l ++ roots f) ∧ frame s s' t N N'.
Proof.
  induction c as [|r c IH|g b IHb c IH]; intros s t N l s' Ht Hd.
  - injection Hd as <-. exists RNil, N. pose proof (tg_level _ _ _ _ Ht). cbn. rewrite app_nil_r. split_and!; [done|done|lia|done|by eapply bframe_refl].
  - cbn [calls] in Hd. unfold do_ops in Hd. cbn [cfold do_op] in Hd. apply cbind_inl in Hd as (s1 & H1 & Hd). unfold npfctl_build_rule in H1.
    destruct (tg_conf _ _ _ _ Ht) as [conf Ec]. rewrite Ec, Z.lor_0_r in H1. apply cbind_inl in H1 as (nv & Hc & H1).
    destruct (match ru_rproc r with Some n => negb _ | None => false end); [done|].
    rewrite (tg_at _ _ _ _ Ht) in H1. destruct t as [p|]; [|done]. destruct (rule_list r nv Hc) as [Hr Ha]. cbn zeta in *.
    set (nv' := Libnpf.npf_rule_setprio _ _) in *. cbn [new_rule] in H1.
    match type of H1 with npf_rule_insert ?x _ _ = _ => destruct (insert_target s x (Some p) N l (b_next s) nv' s1 Ht) as (N1 & Ht1 & Hf1) end;
      cbn; try done; [by left|lia|by rewrite lookup_insert_eq|intros q Hq; by rewrite lookup_insert_ne by lia|].
    destruct (IH s1 (Some p) N1 (l ++ [nv']) s' Ht1 Hd) as (f & N' & R1 & R2 & R3 & R4 & R5).
    exists (RNode nv' RNil f), N'. rewrite <- app_assoc in R4. split; [done|]. split; [split; [by rewrite Ha|done]|].
    rewrite (fr_level _ _ _ _ _ Hf1) in R3. split; [exact R3|]. split; [exact R4|by eapply bframe_trans].
  - cbn [calls] in Hd. unfold do_ops in Hd. cbn [cfold] in Hd. apply cbind_inl in Hd as (s1 & H1 & Hd). cbn [do_op] in H1.
    apply cfold_app in Hd as (s2 & H2 & Hd). cbn [cfold do_op] in Hd. apply cbind_inl in Hd as (s3 & H3 & Hd).
    destruct (build_group_target s t N l g false s1 Ht H1) as (Ht1 & L1 & X1 & C1 & B1 & D1 & _ & R1 & G1). cbn zeta in *.
    set (rl := b_next s) in *. set (nv := Libnpf.npf_rule_setprio _ _) in *.
    destruct (IHb s1 (Some rl) nv [] s2 Ht1 H2) as (fb & N2 & Q1 & Q2 & Q3 & Ht2 & Hf2).
    destruct Hf2 as [Z1 Z2 Z3 Z4 Z5 Z6 Z7 Z8 Z9]. destruct (Ht) as [T1 T2 T3 T4 T5 T6 T7].
    unfold npfctl_build_group_end in H3. apply cbind_inl in H3 as (u & _ & H3). rewrite (tg_at _ _ _ _ Ht2), Z1, L1 in H3.
    replace (b_level s + 1 - 1) with (b_level s) in H3 by lia.
    assert (group_at s2 (b_level s) = t) as Hpar by (unfold group_at in *; rewrite Z4, G1 by lia; done).
    rewrite Hpar in H3. cbn [set_stack b_defgroup] in H3.
    rewrite bool_decide_eq_false_2 in H3 by (rewrite Z3, D1; intros E; symmetry in E; specialize (T7 _ E); unfold rl in T7; lia).
    match type of H3 with npf_rule_insert ?x _ _ = _ => destruct (insert_target s x t N l rl N2 s3 Ht) as (N3 & Ht3 & Hf3) end;
      cbn; try done; try congruence; try (unfold rl; lia).
    { right. split; [|rewrite length_insert; apply (tg_len _ _ _ _ Ht2)]. intros i Hi. rewrite list_lookup_insert_ne by lia. rewrite Z4 by lia. by apply G1. }
    { by destruct (tg_nv _ _ _ _ Ht2). }
    { intros q Hq. rewrite Z5 by first [lia|intros [= E]; unfold rl in *; lia]. rewrite R1. by rewrite lookup_insert_ne by (unfold rl; lia). }
    destruct (IH s3 t N3 (l ++ [N2]) s' Ht3 Hd) as (f & N' & P1 & P2 & P3 & P4 & P5).
    exists (RNode N2 fb f), N'. rewrite <- app_assoc in P4. split; [|split; [|split; [|split; [exact P4|by eapply bframe_trans]]]].
    + split; [|done]. eapply Libnpf.same_rule_nv; [exact Z7|]. apply group_list.
    + split; [|done]. rewrite <- arr_roots. apply (tg_arr _ _ _ _ Ht2).
    + cbn [rdepth]. rewrite (fr_level _ _ _ _ _ Hf3) in P3. rewrite L1 in Q3. destruct fb; cbn [rdepth] in *; lia.
Qed.

(** *** The whole configuration *)

Fixpoint capp (c d : cfg) : cfg :=
  match c with C_nil => d | C_rule r c => C_rule r (capp c d) | C_group g b c => C_group g b (capp c d) end.

Fixpoint rapp (f h : rforest NV) : rforest NV := match f with RNil => h | RNode nv b r => RNode nv b (rapp r h) end.

Lemma rapp_roots f h : roots (rapp f h) = roots f ++ roots h.
Proof. induction f as [|nv b _ r IH]; [done|]. cbn. by rewrite IH. Qed.

Lemma rapp_nested f h : nested f → nested h → nested (rapp f h).
Proof. induction f as [|nv b _ r IH]; [done|]. cbn. intros (H1 & H2 & H3) Hh. auto. Qed.

Lemma rapp_rdepth f h : rdepth (rapp f h) = max (rdepth f) (rdepth h).
Proof. induction f as [|nv b _ r IH]; [done|]. cbn [rapp rdepth]. rewrite IH. lia. Qed.

Lemma reps_app c d f h : reps c f → reps d h → reps (capp c d) (rapp f h).
Proof.
  revert f. induction c as [|r c IH|g b _ c IH]; intros [|nv fb fr] Hr Hd; cbn in *; try done.
  - destruct fb; [|done]. destruct Hr as [Hr1 Hr2]. split; [done|]. by apply IH.
  - destruct Hr as (Hr1 & Hr2 & Hr3). split; [done|]. split; [done|]. by apply IH.
Qed.

(** The default group applies in both directions and comes last. *)
Definition default_group (g : src_group) : src_group := mk_sgroup (gr_name g) (gr_attr g ||| (NPF_RULE_IN ||| NPF_RULE_OUT)) (gr_ifname g).
Definition whole (before : cfg) (g : src_group) (body after : cfg) : cfg :=
  capp before (capp after (C_group (default_group g) body C_nil)).

Lemma default_group_fields g : group_fields (default_group g) false = group_fields g true.
Proof.
  assert (group_attr (default_group g) false = group_attr g true) as E; [|unfold group_fields; by rewrite E].
  unfold group_attr, default_group. cbn [gr_attr orb]. set (di := NPF_RULE_IN ||| NPF_RULE_OUT).
  assert ((gr_attr g ||| di) &&& di = di) as ->; [|done].
  apply Z.bits_inj'. intros n Hn. rewrite Z.land_spec, Z.lor_spec. by destruct (Z.testbit (gr_attr g) n), (Z.testbit di n).
Qed.

Lemma npfctl_compile_flat before g body after s : npfctl_compile pcap_compile v before g body after = inl s →
  ∃ f conf, reps (whole before g body after) f ∧ nested f ∧ (rdepth f <= 16)%nat ∧ b_conf s = Some conf ∧
    nvlist_get_nvlist_array (ncf_dict conf) "rules" = Some (flat 0 f).
Proof.
  intros Hc. unfold npfctl_compile, config_calls in Hc. apply cbind_inl in Hc as (s5 & Hd & Hc). unfold do_ops in Hd.
  apply cfold_app in Hd as (s1 & Hd1 & Hd). cbn [cfold do_op] in Hd. apply cbind_inl in Hd as (s2 & H2 & Hd).
  apply cfold_app in Hd as (s3 & Hd3 & Hd). cbn [cfold do_op] in Hd. apply cbind_inl in Hd as (s4 & H4 & Hd).
  set (N0 := nvlist_add_number nvlist_create "version" Libnpf.NPF_VERSION : NV).
  assert (target npfctl_config_init None N0 []) as T0.
  { split; try done. cbn. unfold N0. rewrite add_number_array by apply nv_create_empty. apply nv_create_arrays. }
  destruct (do_cfg before _ None N0 [] s1 T0 Hd1) as (fb & N1 & Rb & Nb & Db & T1 & F1).
  assert (b_level s1 = 0) as L1 by apply (fr_level _ _ _ _ _ F1).
  destruct (build_group_target s1 None N1 (roots fb) g true s2 T1 H2) as (T2 & L2 & X2 & C2 & B2 & D2 & _ & R2 & G2). cbn zeta in *.
  set (rl := b_next s1) in *. set (nv := Libnpf.npf_rule_setprio _ _) in *.
  destruct (do_cfg body s2 (Some rl) nv [] s3 T2 Hd3) as (fd & N3 & Rd & Nd & Dd & T3 & F3).
  destruct F3 as [Z1 Z2 Z3 Z4 Z5 Z6 Z7 Z8 Z9]. unfold npfctl_build_group_end in H4. apply cbind_inl in H4 as (u & _ & H4).
  rewrite (tg_at _ _ _ _ T3), Z1, L2, L1 in H4. cbn [set_stack b_defgroup] in H4. rewrite bool_decide_eq_true_2 in H4 by (by rewrite Z3, D2).
  apply cbind_inl in H4 as (u' & _ & [= <-]). set (s4 := set_stack s3 _ _) in Hd.
  assert (target s4 None N1 (roots fb)) as T4.
  { destruct T1 as [A1 A2 A3 A4 A5 A6 A7]. split; cbn; try done; try lia.
    - unfold group_at in *. cbn. rewrite L1 in A1. rewrite list_lookup_insert_ne by done. rewrite Z4, G2 by (rewrite ?L2, ?L1; lia). done.
    - by rewrite Z6, C2.
    - rewrite length_insert. apply (tg_len _ _ _ _ T3).
    - by rewrite Z6, C2.
    - apply (tg_def _ _ _ _ T3). }
  destruct (do_cfg after s4 None N1 (roots fb) s5 T4 Hd) as (fa & N5 & Ra & Na & Da & T5 & F5).
  destruct F5 as [Y1 Y2 Y3 Y4 Y5 Y6 Y7 Y8 Y9]. unfold npfctl_config_build in Hc.
  assert (b_built s5 = false) as Eb by (rewrite Y9; cbn; rewrite Z9, B2, (fr_built _ _ _ _ _ F1); done).
  rewrite Eb, Y3 in Hc. cbn [set_stack s4 b_defgroup] in Hc. rewrite Z3, D2 in Hc. apply cbind_inl in Hc as (u2 & _ & Hc).
  apply cbind_inl in Hc as (s6 & H6 & Hc). unfold npf_rule_insert, get_rule in H6.
  assert (b_rules s5 !! rl = Some N3) as Hrl.
  { rewrite Y5; [apply (tg_nv _ _ _ _ T3)| |done]. cbn. pose proof (tg_nv _ _ _ _ T3) as [_ ?]. done. }
  rewrite Hrl in H6. cbn [cbind] in H6. destruct (b_conf s5) as [c5|] eqn:E5; [|done].
  pose proof (tg_nv _ _ _ _ T5) as HN5. cbn in HN5. rewrite E5 in HN5. injection HN5 as HN5.
  injection H6 as <-. cbn [set_heap set_conf b_conf] in Hc.
  set (f := rapp fb (rapp fa (RNode N3 fd RNil))).
  set (c6 := Libnpf.npf_rule_insert_top c5 N3) in Hc.
  assert (nested f) as Hnest.
  { apply rapp_nested; [done|]. apply rapp_nested; [done|]. split; [|done]. rewrite <- arr_roots. apply (tg_arr _ _ _ _ T3). }
  assert (rdepth f <= 16)%nat as Hdep.
  { unfold f. rewrite !rapp_rdepth. cbn [rdepth]. rewrite L2, L1 in Dd. destruct fd; lia. }
  assert (reps (whole before g body after) f) as Hreps.
  { apply reps_app; [done|]. apply reps_app; [done|]. cbn. split; [|done]. rewrite default_group_fields.
    eapply Libnpf.same_rule_nv; [exact Z7|]. apply group_list. }
  destruct (nv_append N5 "__rules" N3) as (P1 & P2 & _).
  assert (ncf_dict c6 = nvlist_append_nvlist_array N5 "__rules" N3) as E6 by (cbn; by rewrite HN5).
  assert (ncf_rule_list c6 = []) as El6.
  { assert (ncf_rule_list <$> b_conf s5 = Some []) as Hl; [|rewrite E5 in Hl; by injection Hl].
    rewrite <- E5 in *. rewrite E5. assert (ncf_rule_list <$> b_conf s1 = Some []) as Hl1 by (by rewrite (fr_conf _ _ _ _ _ F1)).
    rewrite <- E5, Y6. cbn. rewrite Z6, C2. by destruct (b_conf s1). }
  destruct (Libnpf.npf_config_build_flat (S MAX_RULE_NESTING) c6 f) as (c7 & H7 & _ & _ & Hr & _); [done| | |done|unfold MAX_RULE_NESTING; lia|].
  { rewrite E6, P2, decide_True by done. pose proof (tg_arr _ _ _ _ T5) as A5. cbn [tkey] in A5. rewrite A5. unfold f. rewrite <- arr_roots, !rapp_roots. cbn.
    rewrite app_assoc. by destruct (roots fb ++ roots fa). }
  { rewrite E6, P2, decide_False by done. rewrite Y8, (fr_arrays _ _ _ _ _ F1) by done. unfold N0.
    rewrite add_number_array by apply nv_create_empty. apply nv_create_arrays. }
  rewrite H7 in Hc. injection Hc as <-. exists f, c7. split_and!; try done. rewrite Hr. unfold f. by destruct fb, fa.
Qed.

End built.

(** ** Limits *)

(** The check for the nesting limit lets the 16th group through, which is
    written behind the end of [current_group]. *)
Theorem group_nesting_limit : let group := B_group (mk_sgroup None 0 None) false in
  let run n := do_ops (NV := nv_tree) (λ _, None) (mk_vars ∅ [] 0 1) (replicate n group) npfctl_config_init in
  (∃ s, run 15%nat = inl s ∧ b_level s = 15) ∧ run 16%nat = inr E_segv.
Proof. split; [eexists; split; vm_compute; reflexivity|vm_compute; reflexivity]. Qed.

End NpfGroups.
