(* ===== verification/ConfigFlow.v ===== *)
(** * ConfigFlow: from a configuration to the verdict on a packet

    A configuration as it is written (groups, rules and their filters) is
    compiled by npfctl ([NpfGroups], [NpfBuild]), flattened by libnpf
    ([Libnpf]), loaded by the kernel ([NpfCtl]) and inspected for a packet
    ([Ruleset], on the machine of [Bpf]).  [eval_cfg] gives the meaning of the
    configuration; the theorem says that the kernel's verdict is this one. *)

From S2P Require Import Prelude Nbuf Addr Cache Rewrite Tcpopt StateTcp Thmap ConnKey Tableset Bpf NpfBpf NpfVar BpfComp NpfBuild IfMap Ruleset Nvlist Conn Rproc Alg NpfNat Libnpf NpfCtl NpfGroups.
From stdpp Require Import strings.
Open Scope Z_scope.
Open Scope npf_scope.

Module ConfigFlow.
Export NpfGroups NpfCtl Ruleset.

Inductive cverdict := CStop (x : option (Z * src_rule)) | CGo (x : option (Z * src_rule)).

Definition decided (v : cverdict) : option (Z * src_rule) := match v with CStop x | CGo x => x end.

Fixpoint csize (c : cfg) : nat :=
  match c with C_nil => 0 | C_rule _ c => S (csize c) | C_group _ b c => S (csize b + csize c) end.

Section meaning.
(** Does the filter of a rule match the packet; the ID of an interface; the
    direction and the interface of the packet. *)
Context (filter_of : src_rule → bool) (ifnames : string → Z) (dm ifid : Z).

Definition if_match (ifname : option string) : bool := match ifname with Some n => ifnames n =? ifid | None => true end.
Definition dir_match (attr : Z) : bool := (attr &&& NPF_RULE_DIMASK =? NPF_RULE_DIMASK) || flag attr dm.

Definition rule_matches (r : src_rule) : bool := if_match (ru_ifname r) && dir_match (ru_attr r) && filter_of r.
Definition group_matches (g : src_group) : bool := if_match (gr_ifname g) && dir_match (group_attr g false).

(** The last matching rule counts; a final one ends the search, and so does
    the next group once a rule matched; a group is entered if it matches.  The
    rules are numbered in the order in which they are written. *)
Fixpoint eval_cfg (n : Z) (c : cfg) (final : option (Z * src_rule)) : cverdict :=
  match c with
  | C_nil => CGo final
  | C_rule r rest =>
      if negb (rule_matches r) then eval_cfg (n + 1) rest final
      else if flag (ru_attr r) NPF_RULE_FINAL then CStop (Some (n, r))
      else eval_cfg (n + 1) rest (Some (n, r))
  | C_group g body rest =>
      let next := n + 1 + Z.of_nat (csize body) in
      if bool_decide (is_Some final) then CStop final
      else if negb (group_matches g) then eval_cfg next rest final
      else if flag (gr_attr g) NPF_RULE_FINAL then CStop final
      else match eval_cfg (n + 1) body final with CStop x => CStop x | CGo x => eval_cfg next rest x end
  end.

End meaning.

(** Names of interfaces fit, and rules are not groups. *)
Definition ifname_ok (n : option string) : Prop := match n with Some n => (String.length n < IFNAMSIZ)%nat | None => True end.
Fixpoint cfg_ok (P : src_rule → Prop) (c : cfg) : Prop :=
  match c with
  | C_nil => True
  | C_rule r c => (ifname_ok (ru_ifname r) ∧ flag (ru_attr r) NPF_RULE_GROUP = false ∧ P r) ∧ cfg_ok P c
  | C_group g b c => ifname_ok (gr_ifname g) ∧ cfg_ok P b ∧ cfg_ok P c
  end.

(** ** The fields of the flat rules *)

Definition with_skip (F : rfields) (k : Z) : rfields :=
  mk_rf (Libnpf.rf_attr F) (Libnpf.rf_prio F) (Libnpf.rf_ctype F) (Some (u64 k)) (Libnpf.rf_name F) (Libnpf.rf_ifname F) (Libnpf.rf_rproc F)
    (Libnpf.rf_code F) (Libnpf.rf_info F) (Libnpf.rf_key F).

Section fields.
Context {NV : Type} `{NL : nvlist_laws NV} {NA : nvlist_array_ops NV} {AL : nvlist_array_laws NV}.
Context (pcap_compile : string → option (list bpf_insn)) (v : var_sys).

Fixpoint cfields (n : nat) (c : cfg) (Fs : list rfields) : Prop :=
  match c with
  | C_nil => Fs = []
  | C_rule r c => ∃ marks code Fs', code_of pcap_compile v r marks code ∧ Fs = rule_fields r marks code :: Fs' ∧ cfields (n + 1) c Fs'
  | C_group g b c => ∃ Fb Fc,
      Fs = (if (csize b =? 0)%nat then group_fields g false else with_skip (group_fields g false) (Z.of_nat (n + 1 + csize b))) :: Fb ++ Fc ∧
      cfields (n + 1) b Fb ∧ cfields (n + 1 + csize b) c Fc
  end.

Lemma cfields_length c : ∀ n Fs, cfields n c Fs → length Fs = csize c.
Proof.
  induction c as [|r c IH|g b IHb c IH]; intros n Fs; cbn.
  - by intros ->.
  - intros (marks & code & Fs' & _ & -> & Hc). cbn. by rewrite (IH _ _ Hc).
  - intros (Fb & Fc & -> & Hb & Hc). cbn. by rewrite length_app, (IHb _ _ Hb), (IH _ _ Hc).
Qed.

Lemma reps_size c : ∀ f : rforest NV, reps pcap_compile v c f → Libnpf.rsize f = csize c.
Proof.
  induction c as [|r c IH|g b IHb c IH]; intros [|nv fb fr] Hr; cbn in *; try done.
  - destruct fb; [|done]. cbn. by rewrite (IH _ (proj2 Hr)).
  - destruct Hr as (_ & Hb & Hc). by rewrite (IHb _ Hb), (IH _ Hc).
Qed.

Lemma flat_fields c : ∀ n f, reps pcap_compile v c f → ∃ Fs, Forall2 (rule_nv (NV := NV)) (flat n f) Fs ∧ cfields n c Fs.
Proof.
  induction c as [|r c IH|g b IHb c IH]; intros n [|nv fb fr] Hr; cbn in Hr; try done.
  - by exists [].
  - destruct fb; [|done]. destruct Hr as [(marks & code & Hco & Hnv) Hr]. destruct (IH (n + 1)%nat fr Hr) as (Fs & H1 & H2).
    exists (rule_fields r marks code :: Fs). cbn. rewrite Nat.add_0_r. split; [by constructor|]. by exists marks, code, Fs.
  - destruct Hr as (Hnv & Hb & Hr). pose proof (reps_size b fb Hb) as Hsz. cbn [flat]. rewrite Hsz.
    destruct (IHb (n + 1)%nat fb Hb) as (Fb & B1 & B2). destruct (IH (n + 1 + csize b)%nat fr Hr) as (Fc & C1 & C2).
    eexists. split; [|exists Fb, Fc; split; [reflexivity|done]]. constructor; [|by apply Forall2_app].
    destruct fb as [|nvb bb br]; cbn [Libnpf.rsize] in Hsz; rewrite <- Hsz; [done|]. cbn [Nat.eqb Libnpf.flat_rule].
    apply Libnpf.rule_nv_skip; [|done]. eapply Libnpf.same_rule_nv; [|exact Hnv]. apply nv_take_array.
Qed.

End fields.

(** ** The loaded rules *)

(** The bits of the attributes that loading keeps. *)
Definition KEPT : Z := u32 (Z.lnot (NPF_RULE_PRIVMASK ||| NPF_RULE_DYNAMIC)).

Lemma kept_land a b f : (b = u32 (u64 a) &&& u32 (Z.lnot NPF_RULE_PRIVMASK) ∨
    b = u32 (u64 a) &&& u32 (Z.lnot NPF_RULE_PRIVMASK) &&& u32 (Z.lnot NPF_RULE_DYNAMIC)) →
  f &&& KEPT = f → b &&& f = a &&& f.
Proof.
  intros Hb Hf. assert (u32 (u64 a) = a &&& (2 ^ 32 - 1)) as E.
  { rewrite land_ones_mod by lia. unfold wrap. apply Z.mod_mod_divide. by exists (2 ^ 32). }
  rewrite E in Hb. destruct Hb as [->| ->]; rewrite <- !Z.land_assoc; f_equal; rewrite <- Hf, (Z.land_comm f), !Z.land_assoc; f_equal.
Qed.

Lemma flag_kept a b f : b &&& f = a &&& f → flag b f = flag a f.
Proof. intros E. unfold flag. by rewrite E. Qed.

Lemma dyn_group_flag a : NPF_DYNAMIC_GROUP_P a = true → flag a NPF_RULE_GROUP = true.
Proof.
  unfold NPF_DYNAMIC_GROUP_P, flag. rewrite Z.eqb_eq, negb_true_iff, Z.eqb_neq. intros E1 E2.
  assert (a &&& NPF_DYNAMIC_GROUP &&& NPF_RULE_GROUP = 0) as E3.
  { rewrite <- Z.land_assoc. change (NPF_DYNAMIC_GROUP &&& NPF_RULE_GROUP) with NPF_RULE_GROUP. done. }
  by rewrite E1 in E3.
Qed.

(** The rules by their places in the heap. *)
Fixpoint cnumber (p : Z) (c : cfg) : forest :=
  match c with
  | C_nil => FNil
  | C_rule _ c => FNode p FNil (cnumber (p + 1) c)
  | C_group _ b c => FNode p (cnumber (p + 1) b) (cnumber (p + 1 + Z.of_nat (csize b)) c)
  end.

Lemma cnumber_size c : ∀ p, fsize (cnumber p c) = csize c.
Proof. induction c as [|r c IH|g b IHb c IH]; intros p; cbn; [done|by rewrite IH|by rewrite IHb, IH]. Qed.

Lemma cnumber_flatten c : ∀ p, flatten (cnumber p c) = seqZ p (Z.of_nat (csize c)).
Proof.
  induction c as [|r c IH|g b IHb c IH]; intros p; cbn [cnumber flatten csize]; [done|..].
  - rewrite IH, (seqZ_cons p) by lia. cbn. f_equal. f_equal; lia.
  - rewrite IHb, IH, (seqZ_cons p) by lia. f_equal.
    replace (Z.pred (Z.of_nat (S (csize b + csize c)))) with (Z.of_nat (csize b) + Z.of_nat (csize c)) by lia.
    rewrite seqZ_app by lia. f_equal.
Qed.

Definition verdict_of (x : cverdict) : verdict := match x with CStop x => Stop (fst <$> x) | CGo x => Go (fst <$> x) end.

Section flow.
Context {X IW : Type} (pcap_compile : string → option (list bpf_insn)) (v : var_sys).
Context (run_code : list bpf_insn → bool) (filter_of : src_rule → bool) (dm ifid : Z) (Hdm : dm = NPF_RULE_IN ∨ dm = NPF_RULE_OUT).
Context (c' : ctl X IW).

(** The byte-code at an address. *)
Definition code_at (p : Z) : bool := match c_codes c' !! p with Some b => run_code (insns_of_bytes b) | None => false end.

(** The byte-code of a rule means its filter. *)
Definition filter_code (r : src_rule) : Prop := ∀ marks code, code_of pcap_compile v r marks code →
  match code with
  | None => filter_of r = true
  | Some prog => insns_of_bytes (bytes_of_insns prog) = prog ∧ filter_of r = run_code prog
  end.

Abbreviation H := (c_rules c').
Abbreviation ifnames := (npf_ifmap_lookup (c_ifmap c')).

Lemma loaded_attr n F r a : slot_for c' n F r → Libnpf.rf_attr F = Some (u64 a) → ∀ f, f &&& KEPT = f → r_attr r &&& f = a &&& f.
Proof.
  intros [_ Ha _] Hf f Hk. apply kept_land; [|done]. rewrite Ha. clear Ha. unfold attr_of. rewrite Hf. change (default 0 (Some (u64 a))) with (u64 a).
  destruct (NPF_DYNAMIC_GROUP_P _); [by left|by right].
Qed.

Lemma dir_eq a b : (∀ f, f &&& KEPT = f → b &&& f = a &&& f) →
  negb (b &&& NPF_RULE_DIMASK =? NPF_RULE_DIMASK) && (b &&& dm =? 0) = negb (dir_match dm a).
Proof.
  intros Hk. unfold dir_match, flag. rewrite !Hk by (destruct Hdm as [->| ->]; done).
  by destruct (a &&& NPF_RULE_DIMASK =? NPF_RULE_DIMASK), (a &&& dm =? 0).
Qed.

Lemma if_eq n F r : slot_for c' n F r → negb (r_ifid r =? 0) && negb (r_ifid r =? ifid) = negb (if_match ifnames ifid (Libnpf.rf_ifname F)).
Proof.
  intros [[_ Hi _] _ _]. unfold if_match. destruct (Libnpf.rf_ifname F) as [nm|].
  - destruct Hi as [Hn ->]. by rewrite (proj2 (Z.eqb_neq _ _) Hn).
  - by rewrite Hi.
Qed.

Lemma rule_inspect n r src marks code : slot_for c' n (rule_fields src marks code) r → code_of pcap_compile v src marks code → filter_code src →
  npf_rule_inspect code_at dm ifid r = rule_matches filter_of ifnames dm ifid src.
Proof.
  intros Hs Hc Hf. unfold npf_rule_inspect, rule_matches. rewrite (if_eq _ _ _ Hs). cbn [Libnpf.rf_ifname rule_fields].
  rewrite (dir_eq (ru_attr src)) by (by eapply loaded_attr).
  destruct (if_match _ _ _); [|done]. destruct (dir_match dm (ru_attr src)); [|done]. cbn [negb andb].
  specialize (Hf marks code Hc). destruct Hs as [[_ _ Hco] _ _]. cbn [Libnpf.rf_code rule_fields] in Hco. destruct code as [prog|]; cbn in Hco.
  - destruct Hco as (_ & p & -> & _ & Hp). unfold code_at. rewrite Hp. destruct Hf as [-> ->]. done.
  - by rewrite Hco, Hf.
Qed.

Lemma group_inspect n r g F : slot_for c' n F r → Libnpf.rf_attr F = Some (u64 (group_attr g false)) → Libnpf.rf_ifname F = gr_ifname g → Libnpf.rf_code F = None →
  npf_rule_inspect code_at dm ifid r = group_matches ifnames dm ifid g.
Proof.
  intros Hs Ha Hi Hc. unfold npf_rule_inspect, group_matches. rewrite (if_eq _ _ _ Hs), Hi.
  rewrite (dir_eq (group_attr g false)) by (by eapply loaded_attr).
  destruct (if_match _ _ _); [|done]. destruct (dir_match dm (group_attr g false)); [|done]. cbn [negb andb].
  destruct Hs as [[_ _ Hco] _ _]. rewrite Hc in Hco. by rewrite Hco.
Qed.

(** The loaded rules at consecutive places. *)
Definition loaded_at (n : nat) (p : Z) (Fs : list rfields) : Prop :=
  ∀ i F, Fs !! i = Some F → ∃ r, H !! (p + Z.of_nat i) = Some r ∧ slot_for c' (n + i) F r.

Lemma loaded_cons n p F Fs : loaded_at n p (F :: Fs) → (∃ r, H !! p = Some r ∧ slot_for c' n F r) ∧ loaded_at (n + 1) (p + 1) Fs.
Proof.
  intros Hl. split.
  - destruct (Hl 0%nat F eq_refl) as (r & Hr & Hs). rewrite Z.add_0_r in Hr. rewrite Nat.add_0_r in Hs. eauto.
  - intros i F' Hi. destruct (Hl (S i) F' Hi) as (r & Hr & Hs). exists r. replace (p + 1 + Z.of_nat i) with (p + Z.of_nat (S i)) by lia.
    by replace (n + 1 + i)%nat with (n + S i)%nat by lia.
Qed.

Lemma loaded_app n p Fs Fs' : loaded_at n p (Fs ++ Fs') → loaded_at n p Fs ∧ loaded_at (n + length Fs) (p + Z.of_nat (length Fs)) Fs'.
Proof.
  intros Hl. split; intros i F Hi.
  - apply Hl. by apply lookup_app_l_Some.
  - destruct (Hl (length Fs + i)%nat F) as (r & Hr & Hs); [rewrite lookup_app_r by lia; by replace (length Fs + i - length Fs)%nat with i by lia|].
    exists r. replace (p + Z.of_nat (length Fs) + Z.of_nat i) with (p + Z.of_nat (length Fs + i)) by lia.
    by replace (n + length Fs + i)%nat with (n + (length Fs + i))%nat by lia.
Qed.

Lemma group_dyn_rule g : NPF_DYNAMIC_RULE_P (u32 (u64 (group_attr g false)) &&& u32 (Z.lnot NPF_RULE_PRIVMASK)) = false.
Proof.
  unfold NPF_DYNAMIC_RULE_P. apply Z.eqb_neq. intros E.
  assert (u32 (u64 (group_attr g false)) &&& u32 (Z.lnot NPF_RULE_PRIVMASK) &&& NPF_RULE_GROUP = group_attr g false &&& NPF_RULE_GROUP) as E1
    by (apply kept_land; [by left|done]).
  assert (flag (group_attr g false) NPF_RULE_GROUP = true) as E2 by (unfold group_attr; rewrite flag_lor; apply orb_true_r).
  unfold flag in E2. apply negb_true_iff, Z.eqb_neq in E2. rewrite <- E1 in E2. apply E2.
  change NPF_RULE_GROUP with (NPF_DYNAMIC_GROUP &&& NPF_RULE_GROUP). by rewrite Z.land_assoc, E.
Qed.

(** The skip-to slots. *)
Lemma loaded_skips c : ∀ n p Fs, cfields pcap_compile v n c Fs → loaded_at n p Fs → Z.of_nat (n + csize c) < 2 ^ 31 - 1 → skips_ok H (Z.of_nat n) (cnumber p c).
Proof.
  induction c as [|r c IH|g b IHb c IH]; intros n p Fs Hc Hl Hn; cbn [cnumber skips_ok]; [done|..]; cbn [csize] in Hn.
  - destruct Hc as (marks & code & Fs' & _ & -> & Hc). apply loaded_cons in Hl as [(x & Hx & Hs) Hl]. split; [|split; [done|]].
    + exists x. split; [done|]. rewrite (sf_skip _ _ _ _ Hs). unfold slot_after. cbn [fsize].
      assert (skip_of (rule_fields r marks code) = 0) as -> by (unfold skip_of; by case_if). rewrite (proj2 (Z.ltb_lt _ _)) by lia. lia.
    + cbn [fsize]. replace (Z.of_nat n + 1 + Z.of_nat 0) with (Z.of_nat (n + 1)) by lia. apply (IH _ _ Fs'); [done|done|lia].
  - destruct Hc as (Fb & Fc & -> & Hb & Hc). apply loaded_cons in Hl as [(x & Hx & Hs) Hl]. apply loaded_app in Hl as [Hlb Hlc].
    rewrite (cfields_length _ _ _ _ _ Hb) in Hlc. rewrite cnumber_size. split; [|split].
    + exists x. split; [done|]. rewrite (sf_skip _ _ _ _ Hs). clear Hs. unfold slot_after, skip_of, attr_of.
      assert (Libnpf.rf_attr (if (csize b =? 0)%nat then group_fields g false else with_skip (group_fields g false) (Z.of_nat (n + 1 + csize b))) =
              Some (u64 (group_attr g false))) as -> by (by destruct (csize b =? 0)%nat).
      change (default 0 (Some (u64 (group_attr g false)))) with (u64 (group_attr g false)). rewrite group_dyn_rule.
      destruct (csize b =? 0)%nat eqn:Ez; [apply Nat.eqb_eq in Ez|apply Nat.eqb_neq in Ez]; cbn [Libnpf.rf_skip group_fields with_skip].
      * rewrite Ez. rewrite (proj2 (Z.ltb_lt _ _)) by (change (u32 (default 0 None)) with 0; lia). lia.
      * change (default 0 (Some (u64 (Z.of_nat (n + 1 + csize b))))) with (u64 (Z.of_nat (n + 1 + csize b))).
        rewrite (wrap_small 64), (wrap_small 32) by (unfold inw; lia). rewrite (proj2 (Z.ltb_ge _ _)) by lia. lia.
    + replace (Z.of_nat n + 1) with (Z.of_nat (n + 1)) by lia. apply (IHb _ _ Fb); [done|done|lia].
    + replace (Z.of_nat n + 1 + Z.of_nat (csize b)) with (Z.of_nat (n + 1 + csize b)) by lia.
      apply (IH _ _ Fc); [done|done|lia].
Qed.

(** No dynamic rules yet. *)
Lemma loaded_group_rules n p F r : H !! p = Some r → slot_for c' n F r → subset_verdict code_at dm ifid H (group_rules H p) = None.
Proof. intros Hr [[Hs _ _] _ _]. unfold group_rules. rewrite Hr, Hs. by destruct (list_fuel H). Qed.

(** The verdicts agree. *)
Lemma loaded_eval c : ∀ n p Fs final, cfields pcap_compile v n c Fs → loaded_at n p Fs → cfg_ok filter_code c →
  eval_forest code_at dm ifid H (cnumber p c) (fst <$> final) = verdict_of (eval_cfg filter_of ifnames dm ifid p c final).
Proof.
  induction c as [|r c IH|g b IHb c IH]; intros n p Fs final Hc Hl Hk; cbn [cnumber eval_forest eval_cfg]; [done|..].
  - destruct Hc as (marks & code & Fs' & Hco & -> & Hc). apply loaded_cons in Hl as [(x & Hx & Hs) Hl]. destruct Hk as [(_ & Hg & Hf) Hk].
    assert (rl_attr H p = r_attr x) as Ea by (unfold rl_attr; by rewrite Hx).
    assert (rl_matches code_at dm ifid H p = rule_matches filter_of ifnames dm ifid r) as ->
      by (unfold rl_matches; rewrite Hx; by eapply rule_inspect).
    unfold rl_final. rewrite Ea.
    assert (∀ f, f &&& KEPT = f → flag (r_attr x) f = flag (ru_attr r) f) as Hfl.
    { intros f Hf0. apply flag_kept. by eapply loaded_attr. }
    rewrite !Hfl, Hg by done. cbn [andb].
    assert (NPF_DYNAMIC_GROUP_P (r_attr x) = false) as ->.
    { destruct (NPF_DYNAMIC_GROUP_P (r_attr x)) eqn:E; [|done]. apply dyn_group_flag in E. rewrite Hfl, Hg in E by done. done. }
    destruct (rule_matches _ _ _ _ r); cbn [negb].
    + destruct (flag (ru_attr r) NPF_RULE_FINAL); [done|]. exact (IH _ _ Fs' (Some (p, r)) Hc Hl Hk).
    + exact (IH _ _ Fs' final Hc Hl Hk).
  - destruct Hc as (Fb & Fc & -> & Hb & Hc). apply loaded_cons in Hl as [(x & Hx & Hs) Hl]. apply loaded_app in Hl as [Hlb Hlc].
    rewrite (cfields_length _ _ _ _ _ Hb) in Hlc. destruct Hk as (_ & Hkb & Hkc).
    set (F := if (csize b =? 0)%nat then _ else _) in Hs.
    assert (Libnpf.rf_attr F = Some (u64 (group_attr g false)) ∧ Libnpf.rf_ifname F = gr_ifname g ∧ Libnpf.rf_code F = None) as (F1 & F2 & F3)
      by (unfold F; by destruct (csize b =? 0)%nat).
    assert (rl_attr H p = r_attr x) as Ea by (unfold rl_attr; by rewrite Hx).
    assert (rl_matches code_at dm ifid H p = group_matches ifnames dm ifid g) as ->
      by (unfold rl_matches; rewrite Hx; by eapply group_inspect).
    unfold rl_final. rewrite Ea.
    assert (∀ f, f &&& KEPT = f → flag (r_attr x) f = flag (group_attr g false) f) as Hfl.
    { intros f Hf0. apply flag_kept. by eapply loaded_attr. }
    rewrite !Hfl by done.
    assert (flag (group_attr g false) NPF_RULE_GROUP = true) as -> by (unfold group_attr; rewrite flag_lor; apply orb_true_r).
    assert (flag (group_attr g false) NPF_RULE_FINAL = flag (gr_attr g) NPF_RULE_FINAL) as ->
      by (unfold group_attr; rewrite flag_lor; cbn [orb]; case_if; rewrite ?flag_lor; apply orb_false_r || (rewrite orb_false_r; apply orb_false_r)).
    rewrite (loaded_group_rules _ _ _ _ Hx Hs). cbn [andb].
    assert (bool_decide (is_Some (fst <$> final)) = bool_decide (is_Some final)) as -> by (by destruct final).
    case_bool_decide; [done|]. destruct (group_matches _ _ _ g); cbn [negb]; [|exact (IH _ _ Fc final Hc Hlc Hkc)].
    pose proof (IHb _ _ Fb final Hb Hlb Hkb) as Eb.
    destruct (NPF_DYNAMIC_GROUP_P (r_attr x)), (flag (gr_attr g) NPF_RULE_FINAL); try done;
      (rewrite Eb; destruct (eval_cfg _ _ _ _ (p + 1) b final) as [y|y]; cbn [verdict_of]; [done|exact (IH _ _ Fc y Hc Hlc Hkc)]).
Qed.

(** The rule that decides is loaded at its place with its attributes. *)
Lemma loaded_result c : ∀ n p Fs final q r, cfields pcap_compile v n c Fs → loaded_at n p Fs →
  decided (eval_cfg filter_of ifnames dm ifid p c final) = Some (q, r) →
  final = Some (q, r) ∨ ∃ rl, H !! q = Some rl ∧ ∀ f, f &&& KEPT = f → flag (r_attr rl) f = flag (ru_attr r) f.
Proof.
  induction c as [|r0 c IH|g b IHb c IH]; intros n p Fs final q r Hc Hl; cbn [eval_cfg]; [by left|..].
  - destruct Hc as (marks & code & Fs' & Hco & -> & Hc). apply loaded_cons in Hl as [(x & Hx & Hs) Hl].
    assert (∃ rl, H !! p = Some rl ∧ ∀ f, f &&& KEPT = f → flag (r_attr rl) f = flag (ru_attr r0) f) as Hp.
    { exists x. split; [done|]. intros f Hf. apply flag_kept. by eapply loaded_attr. }
    destruct (negb _); [by apply (IH (n + 1)%nat _ Fs')|]. destruct (flag _ _); [intros [= <- <-]; by right|].
    intros Hd. destruct (IH _ _ Fs' _ _ _ Hc Hl Hd) as [[= <- <-]|?]; by right.
  - destruct Hc as (Fb & Fc & -> & Hb & Hc). apply loaded_cons in Hl as [_ Hl]. apply loaded_app in Hl as [Hlb Hlc].
    rewrite (cfields_length _ _ _ _ _ Hb) in Hlc. cbn zeta.
    case_bool_decide; [by left|]. destruct (negb _); [by apply (IH (n + 1 + csize b)%nat _ Fc)|]. destruct (flag _ _); [by left|].
    pose proof (IHb _ _ Fb final q r Hb Hlb) as Hbody. destruct (eval_cfg _ _ _ _ (p + 1) b final) as [y|y]; [exact Hbody|].
    intros Hd. destruct (IH _ _ Fc _ _ _ Hc Hlc Hd) as [->|?]; [by apply Hbody|by right].
Qed.

Lemma cfields_ok (P : src_rule → Prop) c : ∀ n Fs, cfields pcap_compile v n c Fs → cfg_ok P c → Z.of_nat (n + csize c) < 2 ^ 31 - 1 →
  Forall names_fit Fs ∧ Forall (λ F, skip_of F < 2 ^ 31) Fs.
Proof.
  assert (∀ F, Libnpf.rf_skip F = None → skip_of F < 2 ^ 31) as Hnone.
  { intros F Hs. unfold skip_of. rewrite Hs. by case_if. }
  induction c as [|r c IH|g b IHb c IH]; intros n Fs Hc Hk Hn; cbn [csize] in Hn.
  - by rewrite Hc.
  - destruct Hc as (marks & code & Fs' & _ & -> & Hc). destruct Hk as [(Hi & _ & _) Hk]. destruct (IH _ Fs' Hc Hk ltac:(lia)) as [H1 H2].
    split; constructor; [exact Hi|done|by apply Hnone|done].
  - destruct Hc as (Fb & Fc & -> & Hb & Hc). destruct Hk as (Hi & Hkb & Hkc). destruct (IHb _ Fb Hb Hkb ltac:(lia)) as [B1 B2].
    destruct (IH _ Fc Hc Hkc ltac:(lia)) as [C1 C2]. split; constructor.
    + unfold names_fit. destruct (csize b =? 0)%nat; exact Hi.
    + by apply Forall_app.
    + destruct (csize b =? 0)%nat; [by apply Hnone|]. unfold skip_of. case_if; [done|]. cbn [Libnpf.rf_skip with_skip].
      change (default 0 (Some (u64 (Z.of_nat (n + 1 + csize b))))) with (u64 (Z.of_nat (n + 1 + csize b))).
      rewrite (wrap_small 64), (wrap_small 32) by (unfold inw; lia). lia.
    + by apply Forall_app.
Qed.

End flow.

(** ** The theorem *)

Section theorem.
Context {M L C : Type} `{TL : thmap_laws npf_tblent M} `{LL : lpm_laws npf_tblent L} {CO : cdbr_ops C}.
Context {X NV IW ifnet : Type} {RE : rule_env X} {LE : load_env X NV} {IO : npf_ifops_t IW ifnet}.
Context `{NL : nvlist_laws NV} {NA : nvlist_array_ops NV} {AL : nvlist_array_laws NV}.
Context (T : gmap Z (npf_table (M := M) (L := L) (C := C))) (tblset : list (option Z)) (kernel : bool) (npc : npf_cache_t) (m : list (option Z)).

(** [npf_bpf_filter(...) != 0] on the packet. *)
Definition run_code (prog : list bpf_insn) : bool :=
  match npf_bpf_filter T tblset kernel npc (npf_bpf_prepare kernel npc m) (Some prog) None with
  | Some (inl x) => negb (x =? 0)
  | _ => false
  end.

(** The filter of a rule: its options, or what libpcap makes of it. *)
Definition rule_filter (pcap_compile : string → option (list bpf_insn)) (flt : src_rule → filter) (r : src_rule) : bool :=
  match ru_pcap r with
  | Some fl => match pcap_compile fl with Some prog => run_code prog | None => false end
  | None => filter_match T tblset kernel npc (npf_bpf_prepare kernel npc m) (alen_version (npc_alen npc)) (u32 (npc_hlen npc)) (u32 (npc_proto npc))
              (flag (ru_attr r) NPF_RULE_STATEFUL) (ru_family r) (ru_fopts r) (flt r)
  end.

Definition options_ok (v : var_sys) (flt : src_rule → filter) (r : src_rule) : Prop :=
  ru_pcap r = None → filter_ok v (flag (ru_attr r) NPF_RULE_STATEFUL) (ru_family r) (ru_popts r) (ru_fopts r) (flt r).

Lemma options_code pcap_compile v flt r : readable kernel (npc_nbuf npc) → length m = 3%nat → (∀ i x, m !! i = Some (Some x) → inw 32 x) →
  vars_wf v → (∀ fl prog, pcap_compile fl = Some prog → Forall insn_wf prog) → options_ok v flt r →
  filter_code pcap_compile v run_code (rule_filter pcap_compile flt) r.
Proof.
  intros Hr Hm Hx Hv Hp Ho marks code Hc. unfold code_of, options_ok, rule_filter in *. destruct (ru_pcap r) as [fl|].
  - destruct Hc as (_ & [prog Hs] & Hc). rewrite Hs in *. rewrite Hc. split; [|done]. apply insns_of_bytes_of_insns. by eapply Hp.
  - destruct Hc as (any & Hc). specialize (Ho eq_refl).
    pose proof (build_code_correct T tblset kernel npc _ _ _ _ (prepare_prepared T tblset kernel npc m Hr Hm Hx) v _ _ _ _ _ any marks code Hv Ho Hc) as Hb.
    destruct code as [prog|]; [|exact Hb].
    destruct (build_code_ok T tblset npc v _ _ _ _ any marks prog Hv Hc) as (_ & Hwf & _). split; [by apply insns_of_bytes_of_insns|].
    unfold run_code. rewrite Hb. by destruct (filter_match _ _ _ _ _ _ _ _ _ _ _ _).
Qed.

Lemma cfg_ok_impl (P Q : src_rule → Prop) c : (∀ r, P r → Q r) → cfg_ok P c → cfg_ok Q c.
Proof. intros Hi. induction c as [|r c IH|g b IHb c IH]; cbn; [done|intros [(?&?&?) ?]|intros (?&?&?)]; auto. Qed.

(** C5: From a configuration to the verdict on a packet.  Take groups and rules
    as they are written, compiled by npfctl (options to BPF code, groups to
    nested lists, the default group last), flattened by libnpf and loaded
    without an error by the kernel.  On every packet that the kernel can read,
    the inspection of the loaded ruleset returns the rule that the written
    configuration decides for: the last matching rule, or the first final one,
    of the first group with a match; a rule matches by its interface, direction
    and filter (its options as [filter_match] reads them, or the program that
    libpcap makes of its pcap-filter).  The loaded rule has the attributes that
    were written (pass or block, stateful, return codes).  The options of every
    rule must be of the kind that npfctl compiles as it reads ([options_ok]):
    no zero network and no address of another family than the rule's, such as
    those of an interface; no port ranges and no full IPv6 addresses in lists
    of several elements or in inverted ones; no stateful rule for TCP together
    with other protocols.  For the excluded options the verdict is known to
    differ ([port_range_in_list], [ip6_addresses_in_list], [zero_network],
    [stateful_tcp_udp], [interface_family]).  Assumed too: the names of
    interfaces are shorter than IFNAMSIZ, the elements of the variables have
    the ranges of their C types, libpcap makes well-formed instructions, and
    the mbufs of the packet are not empty (standalone: it is contiguous). *)
Theorem configuration_verdict pcap_compile v flt before g body after s conf (c c' : ctl X IW) rpset rs di ifid :
  readable kernel (npc_nbuf npc) → length m = 3%nat → (∀ i x, m !! i = Some (Some x) → inw 32 x) → vars_wf v →
  (∀ fl prog, pcap_compile fl = Some prog → Forall insn_wf prog) →
  cfg_ok (options_ok v flt) (whole before g body after) →
  npfctl_compile (NV := NV) pcap_compile v before g body after = inl s → b_conf s = Some conf →
  ctl_ok c → npf_mk_rules c (ncf_dict conf) rpset = (0, Some rs, c') →
  let dm := if flag di PFIL_IN then NPF_RULE_IN else NPF_RULE_OUT in
  let meaning := decided (eval_cfg (rule_filter pcap_compile flt) (npf_ifmap_lookup (c_ifmap c')) dm ifid (c_next c) (whole before g body after) None) in
  npf_ruleset_inspect (code_at run_code c') di ifid (c_rules c') rs = Some (fst <$> meaning) ∧
  ∀ p r, meaning = Some (p, r) → ∃ rl, c_rules c' !! p = Some rl ∧ ∀ f, f &&& KEPT = f → flag (r_attr rl) f = flag (ru_attr r) f.
Proof.
  intros Hr Hm Hx Hv Hp Hk Hc Hconf Hok Hl dm meaning. destruct (npfctl_compile_flat pcap_compile v before g body after s Hc) as (f & conf' & R & _ & _ & E & Hrules).
  rewrite Hconf in E. injection E as <-. set (w := whole before g body after) in *. unfold npf_mk_rules in Hl. rewrite Hrules in Hl. cbn [default id] in Hl.
  destruct (flat_fields pcap_compile v w 0 f R) as (Fs & Hnv & Hf). pose proof (Forall2_length _ _ _ Hnv) as Hlen.
  rewrite (cfields_length _ _ _ _ _ Hf) in Hlen. destruct (NPF_MAX_RULES <? _) eqn:Emax; [done|]. apply Z.ltb_ge in Emax.
  unfold NPF_MAX_RULES in Emax. rewrite Hlen in *. destruct (mk_rules_loop _ _ _ _) as [[e rs0] c0] eqn:El. injection Hl as -> -> ->.
  destruct (cfields_ok pcap_compile v (options_ok v flt) w 0 Fs Hf Hk ltac:(cbn; lia)) as [Hfit Hskip].
  destruct (mk_rules_loop_spec _ _ rpset Hnv Hfit Hskip c (npf_ruleset_create (Z.of_nat (csize w))) rs c' Hok) as (_ & _ & Hrs & Hld); [|exact El|].
  { rewrite Hlen. change (Z.of_nat (csize w) < 2 ^ 31 - 1). lia. }
  cbn [rs_rules npf_ruleset_create length app] in Hrs, Hld. rewrite Hlen in Hrs.
  assert (loaded_at c' 0 (c_next c) Fs) as Hload by exact Hld.
  assert (dm = NPF_RULE_IN ∨ dm = NPF_RULE_OUT) as Hdm by (unfold dm; case_if; auto).
  split; [|intros p r Hd; by destruct (loaded_result pcap_compile v (rule_filter pcap_compile flt) dm ifid c' w 0 (c_next c) Fs None p r Hf Hload Hd)].
  assert (cfg_ok (filter_code pcap_compile v run_code (rule_filter pcap_compile flt)) w) as Hk'.
  { eapply cfg_ok_impl; [|exact Hk]. intros r. by apply options_code. }
  pose proof (loaded_eval pcap_compile v run_code (rule_filter pcap_compile flt) dm ifid Hdm c' w 0 (c_next c) Fs None Hf Hload Hk') as Hev.
  rewrite (inspect_nested _ di ifid (c_rules c') rs (cnumber (c_next c) w)).
  - f_equal. fold dm. cbn [fmap option_fmap option_map] in Hev. rewrite Hev. unfold meaning. by destruct (eval_cfg _ _ _ _ _ _ _).
  - intros q r Hq Hr' Hdyn. rewrite Hrs in Hq. apply elem_of_seqZ in Hq. destruct (lookup_lt_is_Some_2 Fs (Z.to_nat (q - c_next c))) as [F HF].
    { rewrite (cfields_length _ _ _ _ _ Hf). lia. }
    destruct (Hload _ _ HF) as (r' & Hr2 & Hs). replace (c_next c + Z.of_nat (Z.to_nat (q - c_next c))) with q in Hr2 by lia.
    rewrite Hr' in Hr2. injection Hr2 as <-. exists []. cbn. apply Hs.
  - rewrite Hrs. symmetry. apply cnumber_flatten.
  - apply (loaded_skips pcap_compile v c' w 0 (c_next c) Fs Hf Hload). cbn. lia.
Qed.

End theorem.

(** ** A configuration *)

#[export] Instance null_load_env : load_env unit nv_tree := { rproc_lookup _ _ _ := None; natpolicy_create _ _ := (None, tt) }.

(** [group "ext" on wm0 { pass in final family inet4 proto tcp from { 192.168/16, 10/8 } to any port 80 }]
    and [group default { block all }], which is written first. *)
Definition web_src : src_rule :=
  mk_srule (NPF_RULE_PASS ||| NPF_RULE_FINAL ||| NPF_RULE_IN) (Some "wm0"%string) AF_INET (Some 5) (rule_fopts web_rule) None None.
Definition block_src : src_rule :=
  mk_srule (NPF_RULE_IN ||| NPF_RULE_OUT) None AF_UNSPEC None (mk_fopts (mk_ap None None) (mk_ap None None) false false) None None.
Definition ext_group : src_group := mk_sgroup (Some "ext"%string) 0 (Some "wm0"%string).
Definition all_group : src_group := mk_sgroup None 0 None.
Definition sample_after : cfg := C_group ext_group (C_rule web_src C_nil) C_nil.
Definition sample_default : cfg := C_rule block_src C_nil.
Definition sample_flt (r : src_rule) : filter := match ru_popts r with Some _ => web_filter | None => mk_filter [] [] [] [] [] end.
Definition no_pcap (_ : string) : option (list bpf_insn) := None.

Abbreviation sample_conf := (match npfctl_compile (NV := nv_tree) no_pcap (rule_vars web_rule) C_nil all_group sample_default sample_after with
  | inl s => s | inr _ => npfctl_config_init end).
Abbreviation sample_dict := (match b_conf sample_conf with Some c => c | None => Libnpf.npf_config_create end).
Definition sample_ctl : ctl unit net_world := mk_ctl ∅ 1 ∅ 1 (mk_ifmap [] 0) sample_world tt.
Abbreviation sample_load := (npf_mk_rules sample_ctl (ncf_dict sample_dict) None).
Abbreviation sample_ruleset := (match sample_load with (_, Some rs, _) => rs | _ => npf_ruleset_create 0 end).

Lemma sample_cfg_ok : cfg_ok (options_ok (rule_vars web_rule) sample_flt) (whole C_nil all_group sample_default sample_after).
Proof.
  assert (∀ p, filter_ok (rule_vars web_rule) false AF_UNSPEC None (mk_fopts (mk_ap None None) (mk_ap None None) p p) (mk_filter [] [] [] [] [])) as He.
  { assert (∀ family opts, vars_ok family opts []) as Hnil by (intros; repeat constructor).
    intros p. split; try done; try (split; [holds_concrete|apply Hnil]). exists []. split; [holds_concrete|constructor]. }
  cbn. split_and!; try done; try (vm_compute; lia).
  - intros _. apply web_filter_ok.
  - intros _. apply He.
Qed.

Lemma configuration_verdict_witness :
  npf_ruleset_inspect (code_at (run_code no_tables [] true tcp4_npc (replicate 3 None)) (snd sample_load)) PFIL_IN 1
    (c_rules (snd sample_load)) sample_ruleset = Some (Some 2) ∧
  ∃ rl, c_rules (snd sample_load) !! 2 = Some rl ∧ flag (r_attr rl) NPF_RULE_PASS = true.
Proof.
  destruct (configuration_verdict no_tables [] true tcp4_npc (replicate 3 None) no_pcap (rule_vars web_rule) sample_flt C_nil all_group sample_default sample_after
    sample_conf sample_dict sample_ctl (snd sample_load) None sample_ruleset PFIL_IN 1) as [H1 H2].
  - split; [|done]. constructor; [|constructor]. split; [apply bytes_ok_concrete; vm_compute; reflexivity|vm_compute; discriminate].
  - reflexivity.
  - intros [|[|[|]]] v Hv; discriminate Hv.
  - apply web_vars_wf.
  - done.
  - apply sample_cfg_ok.
  - vm_compute. reflexivity.
  - vm_compute. reflexivity.
  - split; [vm_compute; discriminate|vm_compute; split; discriminate|constructor].
  - vm_compute. reflexivity.
  - split.
    + rewrite H1. vm_compute. reflexivity.
    + destruct (H2 2 web_src) as (rl & Hr & Hf); [vm_compute; reflexivity|]. exists rl. split; [exact Hr|]. rewrite Hf by reflexivity. reflexivity.
Defined.

End ConfigFlow.
