(* ===== verification/ExtRatelimit.v ===== *)
(** * ExtRatelimit: the rate limiting and random blocking extensions
      (src/kern/npf_ext_ratelimit.c, src/kern/npf_ext_rndblock.c)

    Both keep a small state per rule procedure, updated by every packet.  The
    limiter is a token bucket with an extended burst; its state is
    [car_state_t], the 64-bit counters wrap as in the source. *)

From S2P Require Import Prelude Nbuf Cache Nvlist.
From stdpp Require Import strings.
Open Scope Z_scope.
Open Scope npf_scope.

Module ExtRatelimit.
Export Cache Nvlist.

(** ** Rate limiting *)

Record car_state_t := mk_car {
  tc : Z;            (* int64_t *)
  compounded : Z;    (* uint64_t *)
  tslast : Z;
  cir_tok : Z;
  cbs : Z;
  ebs : Z;
}.

Definition MSEC_IN_SEC : Z := 1000.

Definition npf_ext_ratelimit_ctor {NV} `{nvlist_ops NV} (params : NV) : car_state_t :=
  let bitrate := dnvlist_get_number params "bitrate" 0 in
  let cir := (bitrate >>> 3) / MSEC_IN_SEC in
  let cbs := dnvlist_get_number params "normal-burst" 0 in
  let ebs := dnvlist_get_number params "extended-burst" 0 in
  let cbs := if cbs =? 0 then u64 ((bitrate >>> 3) + (bitrate >>> 4)) else cbs in
  let ebs := if ebs =? 0 then u64 (cbs * 2) else ebs in
  mk_car 0 0 0 cir cbs ebs.

(** The refill of the committed bucket. *)
Definition car_refill (car : car_state_t) (tsnow : Z) : car_state_t :=
  if tslast car <? tsnow then
    let tokens := u64 (u64 (tsnow - tslast car) * cir_tok car) in
    let t := s64 (tc car + tokens) in
    mk_car (Z.min t (s64 (cbs car))) (compounded car) tsnow (cir_tok car) (cbs car) (ebs car)
  else car.

Definition car_ratelimit (car : car_state_t) (tsnow nbytes : Z) : bool * car_state_t :=
  let car := car_refill car tsnow in
  let remaining := s64 (tc car - s64 nbytes) in
  if 0 <=? remaining then
    (true, mk_car (s64 (tc car - nbytes)) (compounded car) (tslast car) (cir_tok car) (cbs car) (ebs car))
  else
    let actual_debt := u64 (- tc car + nbytes) in
    let compounded_debt := u64 (compounded car + actual_debt) in
    let reset := mk_car (tc car) 0 (tslast car) (cir_tok car) (cbs car) (ebs car) in
    if ebs car <? actual_debt then (false, reset)
    else if ebs car <? compounded_debt then (false, reset)
    else (true, mk_car (s64 (- s64 actual_debt)) compounded_debt (tslast car) (cir_tok car) (cbs car) (ebs car)).

(** [tv_sec] and [tv_nsec] are the time since boot. *)
Definition npf_ext_ratelimit (npc : npf_cache_t) (rl : car_state_t) (tv_sec tv_nsec decision : Z) :
    bool * Z * car_state_t :=
  if decision =? NPF_DECISION_BLOCK then (true, decision, rl) else
  let pktlen := nbuf_datalen (npc_nbuf npc) in
  let ts_msec := u64 (tv_sec * 1000 + tv_nsec / 1000000) in
  let '(ok, rl) := car_ratelimit rl ts_msec pktlen in
  (true, if ok then decision else NPF_DECISION_BLOCK, rl).

(** ** Random blocking *)

Definition PERCENTAGE_BASE : Z := 10000.

Record npf_ext_rndblock_t := mk_rndblock { rb_mod : Z; rb_counter : Z; rb_percentage : Z }.

Definition npf_ext_rndblock_ctor {NV} `{nvlist_ops NV} (params : NV) : npf_ext_rndblock_t :=
  mk_rndblock (u32 (dnvlist_get_number params "mod" 0)) 0 (u32 (dnvlist_get_number params "percentage" 0)).

(** [rnd] is the value of [cprng_fast32]. *)
Definition npf_ext_rndblock (rb : npf_ext_rndblock_t) (rnd decision : Z) : bool * Z * npf_ext_rndblock_t :=
  if decision =? NPF_DECISION_BLOCK then (true, decision, rb) else
  let c := u64 (rb_counter rb + 1) in
  let rb := mk_rndblock (rb_mod rb) c (rb_percentage rb) in
  let decision := if negb (rb_mod rb =? 0) && (c mod rb_mod rb =? 0) then NPF_DECISION_BLOCK else decision in
  let decision := if negb (rb_percentage rb =? 0) && (rnd mod PERCENTAGE_BASE <=? rb_percentage rb)
                  then NPF_DECISION_BLOCK else decision in
  (true, decision, rb).

(** ** The token bucket *)

(** The configuration: a rate below 2^21 bytes per millisecond (16 Gbit/s), so
    that 68 years of tokens fit, and bursts with room to spare below 2^63. *)
Definition car_cfg (car : car_state_t) : Prop :=
  0 <= cir_tok car < 2 ^ 21 ∧ 0 <= cbs car < 2 ^ 62 ∧ 0 <= ebs car < 2 ^ 61.

(** The bucket never holds more than the normal burst, the debt never exceeds
    the extended burst. *)
Definition car_ok (car : car_state_t) : Prop :=
  car_cfg car ∧ - ebs car <= tc car <= cbs car ∧ 0 <= compounded car <= ebs car ∧ 0 <= tslast car < 2 ^ 31 * 1000.

(** A packet: its time (less than 68 years after boot) and its length. *)
Definition pkt_ok (p : Z * Z) : Prop := 0 <= fst p < 2 ^ 31 * 1000 ∧ 0 <= snd p < 2 ^ 31.

Definition same_cfg (car car' : car_state_t) : Prop :=
  cir_tok car' = cir_tok car ∧ cbs car' = cbs car ∧ ebs car' = ebs car.

Lemma s64_small x : - 2 ^ 63 <= x < 2 ^ 63 → s64 x = x.
Proof. intros. by apply swrap_small. Qed.

Lemma u64_small x : 0 <= x < 2 ^ 64 → u64 x = x.
Proof. intros. by apply wrap_small. Qed.

(** The refill adds the tokens of the elapsed time, up to the burst. *)
Lemma car_refill_spec car tsnow : car_ok car → 0 <= tsnow < 2 ^ 31 * 1000 →
  let car' := car_refill car tsnow in
  let dt := Z.max 0 (tsnow - tslast car) in
  car_ok car' ∧ same_cfg car car' ∧ tslast car' = Z.max (tslast car) tsnow ∧
  compounded car' = compounded car ∧
  tc car' = Z.min (tc car + dt * cir_tok car) (cbs car).
Proof.
  intros ((Hc & Hb & He) & Ht & Hd & Hl) Hts. unfold car_refill. destruct (tslast car <? tsnow) eqn:E; bool_to_prop.
  - rewrite (u64_small (tsnow - tslast car)) by lia.
    assert (0 <= (tsnow - tslast car) * cir_tok car < 2 ^ 62) by nia.
    rewrite u64_small, !s64_small by lia. cbn [tc tslast compounded].
    rewrite (Z.max_r 0) by lia. unfold car_ok, car_cfg, same_cfg. simpl. lia.
  - rewrite (Z.max_l 0), Z.mul_0_l, Z.add_0_r by lia. unfold car_ok, car_cfg, same_cfg. lia.
Qed.

(** One packet. *)
Lemma car_ratelimit_spec car tsnow nbytes : car_ok car → pkt_ok (tsnow, nbytes) →
  let '(ok, car') := car_ratelimit car tsnow nbytes in
  let avail := Z.min (tc car + Z.max 0 (tsnow - tslast car) * cir_tok car) (cbs car) in
  car_ok car' ∧ same_cfg car car' ∧ tslast car' = Z.max (tslast car) tsnow ∧
  tc car' = avail - (if ok then nbytes else 0) ∧
  (nbytes <= avail → ok = true).
Proof.
  intros Hok [Hts Hn]. simpl in Hts, Hn. unfold car_ratelimit.
  destruct (car_refill_spec car tsnow Hok Hts) as (Hok' & (E1 & E2 & E3) & E4 & E5 & E6). cbv zeta in *.
  set (c := car_refill car tsnow) in *. pose proof Hok' as ((Hc & Hb & He) & Ht & Hd & Hl).
  rewrite <- E6. clearbody c. unfold same_cfg. rewrite (s64_small nbytes), (s64_small (tc c - nbytes)) by lia.
  destruct (0 <=? tc c - nbytes) eqn:E; bool_to_prop.
  - unfold car_ok, car_cfg. cbn [tc compounded tslast cir_tok cbs ebs]. split_and!; lia.
  - rewrite (u64_small (- tc c + nbytes)), (u64_small (compounded c + _)), (s64_small (- tc c + nbytes)), s64_small by lia.
    destruct (ebs c <? _) eqn:E7; [|destruct (ebs c <? compounded c + _) eqn:E8]; bool_to_prop;
      unfold car_ok, car_cfg; cbn [tc compounded tslast cir_tok cbs ebs]; split_and!; lia.
Qed.

(** The limiter over a sequence of packets: the bytes passed. *)
Fixpoint car_run (car : car_state_t) (ps : list (Z * Z)) : Z * car_state_t :=
  match ps with
  | [] => (0, car)
  | (ts, n) :: ps =>
      let '(ok, car) := car_ratelimit car ts n in
      let '(passed, car) := car_run car ps in ((if ok then n else 0) + passed, car)
  end.

Lemma car_run_spec ps : ∀ car, car_ok car → Forall pkt_ok ps →
  let '(passed, car') := car_run car ps in
  car_ok car' ∧ same_cfg car car' ∧ tslast car <= tslast car' ∧
  passed <= tc car - tc car' + cir_tok car * (tslast car' - tslast car).
Proof.
  induction ps as [|[ts n] ps IH]; intros car Hok Hps.
  - simpl. unfold same_cfg. repeat split; try apply Hok; lia.
  - apply Forall_cons in Hps as [Hp Hps]. cbn [car_run].
    pose proof (car_ratelimit_spec car ts n Hok Hp) as H. destruct (car_ratelimit car ts n) as [ok c1].
    destruct H as (Hok1 & (E1 & E2 & E3) & E4 & E5 & _). cbv zeta in E5.
    specialize (IH c1 Hok1 Hps). destruct (car_run c1 ps) as [passed c2].
    destruct IH as (Hok2 & (F1 & F2 & F3) & F4 & F5). unfold same_cfg. rewrite E1 in *.
    split; [done|]. split; [lia|]. split; [lia|].
    assert (Z.max 0 (ts - tslast car) = tslast c1 - tslast car) as Hdt by lia. rewrite Hdt in E5. destruct ok; lia.
Qed.

(** Arrivals within a rate and a burst, as traffic contracts state it: from
    time [t0] on, every prefix of the packets has at most [b] bytes and those
    of the committed rate. *)
Fixpoint within (cir b t0 : Z) (ps : list (Z * Z)) : Prop :=
  match ps with
  | [] => True
  | (ts, n) :: ps => n <= b + cir * (ts - t0) ∧ within cir (b - n) t0 ps
  end.

(** Every group of consecutive packets is within the burst from the time of
    its first packet on. *)
Fixpoint within_burst (cir burst : Z) (ps : list (Z * Z)) : Prop :=
  match ps with
  | [] => True
  | (ts, n) :: rest => within cir burst ts ps ∧ within_burst cir burst rest
  end.

Fixpoint in_order (last : Z) (ps : list (Z * Z)) : Prop :=
  match ps with [] => True | (ts, _) :: ps => last <= ts ∧ in_order ts ps end.

(** Packets in order of time that are within the burst, and, from the state
    of the bucket on, within the tokens it holds. *)
Definition conforming (cir burst tok last : Z) (ps : list (Z * Z)) : Prop :=
  in_order last ps ∧ within_burst cir burst ps ∧ within cir tok last ps.

Fixpoint total_bytes (ps : list (Z * Z)) : Z :=
  match ps with [] => 0 | (_, n) :: ps => n + total_bytes ps end.

Lemma within_shift cir b t0 t1 ps : within cir b t0 ps → within cir (b + cir * (t1 - t0)) t1 ps.
Proof.
  revert b. induction ps as [|[ts n] ps IH]; intros b; cbn [within]; [done|]. intros [Hn Hw]. split; [lia|].
  replace (b + cir * (t1 - t0) - n) with (b - n + cir * (t1 - t0)) by lia. by apply IH.
Qed.

(** The bucket holds exactly what conforming packets may still use. *)
Lemma conforming_cons cir burst tok last ts n ps : conforming cir burst tok last ((ts, n) :: ps) →
  let avail := Z.min (tok + (ts - last) * cir) burst in
  last <= ts ∧ n <= avail ∧ conforming cir burst (avail - n) ts ps.
Proof.
  unfold conforming. cbn [in_order within_burst within]. intros ([Hl Ho] & [[Hb1 Hb2] Hb] & Hw1 & Hw2).
  cbv zeta. split; [done|]. split; [lia|]. split; [done|]. split; [done|].
  destruct (Z.min_spec (tok + (ts - last) * cir) burst) as [[_ ->]|[_ ->]]; [|done].
  replace (tok + (ts - last) * cir - n) with (tok - n + cir * (ts - last)) by lia. by apply within_shift.
Qed.

Lemma car_run_conforming ps : ∀ car, car_ok car → Forall pkt_ok ps →
  conforming (cir_tok car) (cbs car) (tc car) (tslast car) ps → fst (car_run car ps) = total_bytes ps.
Proof.
  induction ps as [|[ts n] ps IH]; intros car Hok Hps Hc; [done|].
  apply Forall_cons in Hps as [Hp Hps]. apply conforming_cons in Hc as (Hle & Hn & Hc). cbn [car_run total_bytes].
  pose proof (car_ratelimit_spec car ts n Hok Hp) as H. destruct (car_ratelimit car ts n) as [ok c1].
  destruct H as (Hok1 & (E1 & E2 & E3) & E4 & E5 & E6). cbv zeta in *. rewrite (Z.max_r 0) in * by lia.
  rewrite E6 in * by lia. specialize (IH c1 Hok1). destruct (car_run c1 ps) as [passed c2]. cbn [fst] in *.
  rewrite IH; [done|done|]. rewrite E1, E2, E4, E5. by rewrite Z.max_r by lia.
Qed.

(** The constructor makes such a state from a bit rate below 2^33 and bursts
    below 2^60 (absent ones are derived from the rate). *)
Lemma npf_ext_ratelimit_ctor_ok {NV} `{nvlist_ops NV} (params : NV) :
  0 <= dnvlist_get_number params "bitrate" 0 < 2 ^ 33 → 0 <= dnvlist_get_number params "normal-burst" 0 < 2 ^ 60 →
  0 <= dnvlist_get_number params "extended-burst" 0 < 2 ^ 60 → car_ok (npf_ext_ratelimit_ctor params).
Proof.
  unfold npf_ext_ratelimit_ctor. set (br := dnvlist_get_number params "bitrate" 0).
  set (nb := dnvlist_get_number params "normal-burst" 0). set (eb := dnvlist_get_number params "extended-burst" 0). intros H1 H2 H3.
  rewrite !Z.shiftr_div_pow2 by lia. unfold car_ok, car_cfg, MSEC_IN_SEC. cbn [tc compounded tslast cir_tok cbs ebs].
  assert (0 <= br / 2 ^ 3 < 2 ^ 30 ∧ 0 <= br / 2 ^ 4 < 2 ^ 29) as [H4 H5] by (Z.to_euclidean_division_equations; lia).
  assert (0 <= br / 2 ^ 3 / 1000 < 2 ^ 21) by (split; [apply Z.div_pos; lia|apply Z.div_lt_upper_bound; lia]).
  rewrite (u64_small (br / 2 ^ 3 + br / 2 ^ 4)) by lia.
  destruct (nb =? 0), (eb =? 0); rewrite ?(u64_small (_ * 2)) by lia; lia.
Qed.

(** C35: The rate limiter enforces its rate.  Assumed: a rate below 2^21 bytes
    per millisecond (about 16 Gbit/s), a normal burst below 2^62, an extended
    burst below 2^61, times within 68 years of the boot and packets shorter
    than 2^31 bytes.  The constructor does not check the first three (it keeps
    them for a bit rate below 2^33 and configured bursts below 2^60,
    [npf_ext_ratelimit_ctor_ok]; a negative bit rate breaks them).  From any
    state within the bounds of the bucket (tokens between minus the extended
    burst and the normal burst), over any sequence of packets, the bytes that
    pass are at most the normal burst, the extended burst and the committed
    rate times the elapsed time, and the bucket stays within its bounds.  And
    it is not stricter than its rate and burst: packets all pass, bursts
    included, if they arrive in order, every group of consecutive ones has at
    most the bytes of the normal burst and of the rate over its time, and the
    first ones have at most those of the tokens in the bucket and of the rate. *)
Theorem car_ratelimit_rate car ps : car_ok car → Forall pkt_ok ps →
  let '(passed, car') := car_run car ps in
  car_ok car' ∧
  passed <= cbs car + ebs car + cir_tok car * (tslast car' - tslast car) ∧
  (conforming (cir_tok car) (cbs car) (tc car) (tslast car) ps → passed = total_bytes ps).
Proof.
  intros Hok Hps. pose proof (car_run_spec ps car Hok Hps) as H.
  pose proof (λ Hc, car_run_conforming ps car Hok Hps Hc) as Hf.
  destruct (car_run car ps) as [passed car'].
  destruct H as (Hok' & (E1 & E2 & E3) & _ & Hp). split; [done|]. split; [|done].
  destruct Hok as (_ & Ht & _). destruct Hok' as (_ & Ht' & _). lia.
Qed.

(** ** Counted blocking *)

(** The decisions on a sequence of packets that would pass, given the random
    numbers; [true] is a blocked packet. *)
Fixpoint rndblock_run (rb : npf_ext_rndblock_t) (rnds : list Z) : list bool :=
  match rnds with
  | [] => []
  | rnd :: rnds =>
      let '(_, d, rb) := npf_ext_rndblock rb rnd NPF_DECISION_PASS in
      (d =? NPF_DECISION_BLOCK) :: rndblock_run rb rnds
  end.

Definition blocked (l : list bool) : Z := Z.of_nat (length (filter (λ b, b = true) l)).

Lemma blocked_cons b l : blocked (b :: l) = b2z b + blocked l.
Proof. unfold blocked. destruct b; rewrite ?filter_cons_True, ?filter_cons_False by done; simpl; lia. Qed.

Lemma div_step c m : 0 < m → (c + 1) / m = c / m + b2z ((c + 1) mod m =? 0).
Proof.
  intros Hm. pose proof (Z.div_mod c m ltac:(lia)). pose proof (Z.mod_pos_bound c m Hm).
  pose proof (Z.div_mod (c + 1) m ltac:(lia)). pose proof (Z.mod_pos_bound (c + 1) m Hm).
  destruct ((c + 1) mod m =? 0) eqn:E; bool_to_prop; unfold b2z; nia.
Qed.

Lemma rndblock_mod rnds : ∀ c m, 0 < m → 0 <= c → c + Z.of_nat (length rnds) < 2 ^ 64 →
  blocked (rndblock_run (mk_rndblock m c 0) rnds) = (c + Z.of_nat (length rnds)) / m - c / m.
Proof.
  induction rnds as [|rnd rnds IH]; intros c m Hm Hc Hl; [simpl; rewrite Z.add_0_r; unfold blocked; simpl; lia|].
  cbn [rndblock_run]. unfold npf_ext_rndblock. cbn [rb_mod rb_counter rb_percentage].
  cbn [length] in Hl. rewrite u64_small by lia. change (NPF_DECISION_PASS =? NPF_DECISION_BLOCK) with false. cbv iota.
  change (0 =? 0) with true. rewrite (proj2 (Z.eqb_neq m 0)) by lia. cbn [negb andb].
  rewrite blocked_cons, IH by lia. rewrite (div_step c m Hm). cbn [length].
  replace (c + 1 + Z.of_nat (length rnds)) with (c + Z.of_nat (S (length rnds))) by lia.
  destruct ((c + 1) mod m =? 0); simpl; lia.
Qed.

(** Of the 10000 equally likely random numbers, one more than the configured
    percentage blocks. *)
Theorem rndblock_percentage rb : rb_mod rb = 0 → 0 < rb_percentage rb < PERCENTAGE_BASE → 0 <= rb_counter rb →
  ∀ w, 0 <= w < PERCENTAGE_BASE →
    (snd (fst (npf_ext_rndblock rb w NPF_DECISION_PASS)) = NPF_DECISION_BLOCK ↔ w < rb_percentage rb + 1).
Proof.
  intros Hm Hp Hc w Hw. unfold npf_ext_rndblock. cbn [rb_mod rb_percentage]. rewrite Hm.
  change (NPF_DECISION_PASS =? NPF_DECISION_BLOCK) with false. cbv iota. change (0 =? 0) with true. cbn [negb andb snd fst].
  rewrite (proj2 (Z.eqb_neq (rb_percentage rb) 0)), (Z.mod_small w) by lia. cbn [negb andb].
  destruct (w <=? rb_percentage rb) eqn:E; bool_to_prop; unfold NPF_DECISION_PASS, NPF_DECISION_BLOCK; split; intros; lia.
Qed.

(** ** Samples *)

(** 8 Mbit/s, configured with the default bursts. *)
Definition sample_car : car_state_t :=
  npf_ext_ratelimit_ctor (mk_nv {["bitrate"%string := 8000000]} ∅ ∅ ∅).

Lemma sample_car_ok : car_ok sample_car.
Proof. vm_compute. repeat split; discriminate. Qed.

(** A burst of three packets at once after two seconds of silence, and one
    more a millisecond later. *)
Definition sample_burst : list (Z * Z) := [(2000, 500000); (2000, 500000); (2000, 500000); (2001, 1000)].

Lemma car_ratelimit_rate_witness :
  car_ok sample_car ∧
  let '(passed, car') := car_run sample_car sample_burst in
  passed = 1501000 ∧ passed <= cbs sample_car + ebs sample_car + cir_tok sample_car * (tslast car' - tslast sample_car).
Proof.
  split; [exact sample_car_ok|].
  pose proof (car_ratelimit_rate sample_car sample_burst sample_car_ok) as H.
  destruct (car_run _ _) as [passed car']. destruct H as (_ & H1 & H2).
  - repeat constructor; vm_compute; try done; discriminate.
  - split; [|exact H1]. apply H2. vm_compute. repeat split; discriminate.
Defined.

End ExtRatelimit.
