(* ===== verification/ExtNormalize.v ===== *)
(** * ExtNormalize: packet normalisation (src/kern/npf_ext_normalize.c)

    The extension rewrites fields of the IPv4 header (a random ID, the "do not
    fragment" flag, a minimum TTL) and clamps the MSS option of TCP SYN
    packets, and fixes up the checksums.  [nid] is the value of
    [ip_randomid]. *)

From S2P Require Import Prelude Nbuf Cache Cksum Addr Rewrite Tcpopt StateTcp Nvlist ExtRatelimit Ruleset.
From stdpp Require Import strings.
Open Scope Z_scope.
Open Scope npf_scope.

Module ExtNormalize.
Export Tcpopt StateTcp ExtRatelimit Ruleset.

Definition IP_DF : Z := 0x4000.

Record npf_normalize_t := mk_normalize {
  n_minttl : Z;
  n_maxmss : Z;
  n_random_id : bool;
  n_no_df : bool;
}.

Definition npf_normalize_ctor {NV} `{nvlist_ops NV} (params : NV) : npf_normalize_t :=
  mk_normalize (u32 (dnvlist_get_number params "min-ttl" 0)) (u32 (dnvlist_get_number params "max-mss" 0))
    (dnvlist_get_bool params "random-id" false) (dnvlist_get_bool params "no-df" false).

Definition npf_normalize_ip4 (npc : npf_cache_t) (np : npf_normalize_t) (nid : Z) : npf_cache_t :=
  let ip := npc_ip npc in
  let p := pkt npc in
  let cksum := rd16 p (ip + 10) in
  let ip_off := rd16 p (ip + 6) in
  let ttl := rd8 p (ip + 8) in
  let minttl := n_minttl np in
  let '(p, cksum) :=
    if n_random_id np then (put16 p (ip + 4) nid, npf_fixup16_cksum cksum (rd16 p (ip + 4)) nid)
    else (p, cksum) in
  let '(p, cksum) :=
    if n_no_df np && flag ip_off (htons IP_DF) then
      let nip_off := ip_off &&& u16 (Z.lnot (htons IP_DF)) in
      (put16 p (ip + 6) nip_off, npf_fixup16_cksum cksum ip_off nip_off)
    else (p, cksum) in
  let '(p, cksum) :=
    if negb (minttl =? 0) && (ttl <? minttl) then
      (put8 p (ip + 8) (u8 minttl), npf_fixup16_cksum cksum ttl (u16 minttl))
    else (p, cksum) in
  set_pkt npc (put16 p (ip + 10) cksum).

Section normalize.
Context {M : npf_mbufops_t}.

(** The result is the return value, the decision and the packet; [None] never
    occurs ([npf_fetch_tcpopts] and [npf_set_mss] terminate). *)
Definition npf_normalize (npc : npf_cache_t) (np : npf_normalize_t) (mi : npf_match_info) (nid decision : Z) :
    option (bool * Z * npf_cache_t) :=
  if decision =? NPF_DECISION_BLOCK then Some (true, decision, npc) else
  let npc := if npf_iscached npc NPC_IP4 && (n_random_id np || negb (n_minttl np =? 0))
             then npf_normalize_ip4 npc np nid else npc in
  let maxmss := u16 (n_maxmss np) in
  if (maxmss =? 0) || negb (npf_iscached npc NPC_TCP) || negb (flag (th_flags (pkt npc) (l4ptr npc)) TH_SYN)
  then Some (true, decision, npc) else
  '(ok, mss, _, npc) ← npf_fetch_tcpopts npc (Some 0) 0;
  if negb ok then Some (true, decision, npc) else
  let mss := default 0 mss in
  if ntohs mss <=? maxmss then Some (true, decision, npc) else
  let maxmss := htons maxmss in
  '(ok, out, npc) ← npf_set_mss npc maxmss (mk_mss_out false (0, 0) (0, 0));
  if ok && negb (nbuf_cksum_barrier (npc_nbuf npc) (mi_di mi)) then
    let th := l4ptr npc in
    let p := pkt npc in
    let cksum :=
      if mss_mid out then
        npf_fixup16_cksum (npf_fixup16_cksum (rd16 p (th + 16)) (fst (mss_old out)) (fst (mss_new out)))
          (snd (mss_old out)) (snd (mss_new out))
      else npf_fixup16_cksum (rd16 p (th + 16)) mss maxmss in
    Some (true, decision, set_pkt npc (put16 p (th + 16) cksum))
  else Some (true, decision, npc).

End normalize.

(** ** The IPv4 header *)

Section ip4.
Context (ip : Z) (n : nat) (Hip : 0 <= ip) (Hn : (10 <= n)%nat).

(** The header words: a store into one of them with the matching fix-up of the
    checksum kept aside does not change their sum. *)
Definition ip_sum (p : list Z) : Z := zsum (words_at p ip n).

Definition hdr_in (p : list Z) : Prop := bytes_ok p ∧ ip + 2 * Z.of_nat n <= blen p.

Lemma put16_sum p i v c : hdr_in p → (i < n)%nat → inw 16 v → inw 16 c →
  let p' := put16 p (ip + 2 * Z.of_nat i) v in
  let c' := npf_fixup16_cksum c (rd16 p (ip + 2 * Z.of_nat i)) v in
  hdr_in p' ∧ length p' = length p ∧ inw 16 c' ∧ (c' + ip_sum p') mod 65535 = (c + ip_sum p) mod 65535.
Proof.
  intros [Hb Hl] Hi Hv Hc p' c'. assert (length p' = length p) as HL by apply put16_length.
  split; [split; [by apply bytes_ok_put16|unfold blen in *; by rewrite HL]|]. split; [done|].
  split; [apply npf_fixup16_cksum_range|]. unfold ip_sum, p'.
  rewrite (zsum_words_put16 p _ v n ip i) by (done || lia).
  pose proof (npf_fixup16_cksum_mod c (rd16 p (ip + 2 * Z.of_nat i)) v Hc (rd16_range _ _ Hb) Hv) as Hm. fold c' in Hm.
  replace (c' + _) with ((c' + v) + (zsum (words_at p ip n) - rd16 p (ip + 2 * Z.of_nat i))) by lia.
  rewrite <- Zplus_mod_idemp_l, Hm, Zplus_mod_idemp_l. f_equal. lia.
Qed.

(** A store into the low byte of a word, as a store of the word. *)
Lemma put8_as_put16 p i v : hdr_in p → (i < n)%nat → inw 8 v →
  put8 p (ip + 2 * Z.of_nat i) v = put16 p (ip + 2 * Z.of_nat i) (v + 256 * rd8 p (ip + 2 * Z.of_nat i + 1)) ∧
  rd16 p (ip + 2 * Z.of_nat i) = rd8 p (ip + 2 * Z.of_nat i) + 256 * rd8 p (ip + 2 * Z.of_nat i + 1).
Proof.
  intros [Hb Hl] Hi Hv. set (q := ip + 2 * Z.of_nat i). split; [|done].
  pose proof (rd8_range p (q + 1) Hb) as Hr. unfold inw in Hv. change (2 ^ 8) with 256 in Hv.
  unfold put16. rewrite land_ff, Z.shiftr_div_pow2 by lia. change (2 ^ 8) with 256.
  rewrite Z.add_comm, (Z.mul_comm 256), Z.div_add_l, Z.div_small, Z.add_0_r by lia.
  rewrite Z.add_comm, Z.mod_add, Z.mod_small by lia.
  unfold put8. symmetry. apply list_insert_id. rewrite list_lookup_insert_ne by lia.
  unfold rd8. destruct (p !! Z.to_nat (q + 1)) eqn:E; [done|].
  apply lookup_ge_None in E. unfold blen in Hl. lia.
Qed.

(** The TTL is the low byte of its word: a fix-up by the bytes is one by the
    words. *)
Lemma put8_sum p i v c : hdr_in p → (i < n)%nat → inw 8 v → inw 16 c →
  let q := ip + 2 * Z.of_nat i in
  let p' := put8 p q v in
  let c' := npf_fixup16_cksum c (rd8 p q) v in
  hdr_in p' ∧ length p' = length p ∧ inw 16 c' ∧ (c' + ip_sum p') mod 65535 = (c + ip_sum p) mod 65535.
Proof.
  intros Hp Hi Hv Hc q p' c'. pose proof Hp as [Hb Hl]. destruct (put8_as_put16 p i v Hp Hi Hv) as [E1 E2]. fold q in E1, E2.
  pose proof (rd8_range p q Hb). pose proof (rd8_range p (q + 1) Hb). unfold inw in Hv. change (2 ^ 8) with 256 in Hv.
  destruct (put16_sum p i (v + 256 * rd8 p (q + 1)) c Hp Hi ltac:(unfold inw; lia) Hc) as (Hp' & HL & _ & _).
  fold q in Hp', HL. unfold p'. rewrite E1. split; [done|]. split; [done|]. split; [apply npf_fixup16_cksum_range|].
  unfold ip_sum. rewrite (zsum_words_put16 p q _ n ip i) by (done || lia || (unfold inw; lia)). rewrite E2.
  pose proof (npf_fixup16_cksum_mod c (rd8 p q) v Hc ltac:(unfold inw; lia) ltac:(unfold inw; lia)) as Hm. fold c' in Hm.
  replace (c' + _) with ((c' + v) + (zsum (words_at p ip n) - rd8 p q)) by lia.
  rewrite <- Zplus_mod_idemp_l, Hm, Zplus_mod_idemp_l. f_equal. lia.
Qed.

End ip4.

Lemma blen_put16 p o v : blen (put16 p o v) = blen p.
Proof. unfold blen. by rewrite put16_length. Qed.
Lemma blen_put8 p o v : blen (put8 p o v) = blen p.
Proof. unfold blen. by rewrite put8_length. Qed.

(** Reads after the stores of the header, by offset. *)
Ltac read_hdr :=
  repeat first
    [ rewrite blen_put16 | rewrite blen_put8
    | rewrite rd16_put16_eq by (rewrite ?blen_put16, ?blen_put8; done || lia)
    | rewrite rd16_put16_ne by lia
    | rewrite rd8_put8_eq by (rewrite ?blen_put16, ?blen_put8; lia)
    | rewrite rd8_put8_ne by lia
    | rewrite rd8_put16_ne by lia ].

Lemma rd16_put8_ne p o q v : 0 <= o → 0 <= q → q + 1 < o ∨ o < q → rd16 (put8 p o v) q = rd16 p q.
Proof. intros. unfold rd16. by rewrite !rd8_put8_ne by lia. Qed.

(** Clearing the flag, whether or not it was set. *)
Lemma clear_df x : inw 16 x → flag x (htons IP_DF) = false → x &&& u16 (Z.lnot (htons IP_DF)) = x.
Proof.
  intros Hx Hf. change (htons IP_DF) with 0x40 in *. change (u16 (Z.lnot 0x40)) with 0xffbf.
  unfold flag in Hf. apply negb_false_iff, Z.eqb_eq in Hf.
  assert (x &&& 0xffff = x) as E by (rewrite land_ffff; apply Z.mod_small, Hx).
  rewrite <- E at 2. change 0xffff with (Z.lor 0x40 0xffbf). by rewrite Z.land_lor_distr_r, Hf, Z.lor_0_l.
Qed.

(** What [npf_normalize_ip4] does to the header: the fields it is configured to
    change, the checksum, and nothing else. *)
Record normalized (ip : Z) (np : npf_normalize_t) (nid : Z) (p q : list Z) : Prop := {
  nz_len : length q = length p;
  nz_id : rd16 q (ip + 4) = if n_random_id np then nid else rd16 p (ip + 4);
  nz_off : rd16 q (ip + 6) = if n_no_df np then rd16 p (ip + 6) &&& u16 (Z.lnot (htons IP_DF)) else rd16 p (ip + 6);
  nz_ttl : rd8 q (ip + 8) = Z.max (rd8 p (ip + 8)) (n_minttl np);
  nz_frame : ∀ i, 0 <= i → i < ip + 4 ∨ i = ip + 9 ∨ ip + 12 <= i → rd8 q i = rd8 p i;
}.

Definition ip4_pre (npc : npf_cache_t) : Prop :=
  bytes_ok (pkt npc) ∧ 0 <= npc_ip npc ∧ 20 <= npc_hlen npc ∧ npc_hlen npc mod 4 = 0 ∧
  npc_ip npc + npc_hlen npc <= blen (pkt npc).

(** The stores with their fix-ups, in the order of the code. *)
Definition norm_id (ip : Z) (np : npf_normalize_t) (nid : Z) (pc : list Z * Z) : list Z * Z :=
  if n_random_id np then (put16 (fst pc) (ip + 4) nid, npf_fixup16_cksum (snd pc) (rd16 (fst pc) (ip + 4)) nid) else pc.
Definition norm_df (ip : Z) (np : npf_normalize_t) (off : Z) (pc : list Z * Z) : list Z * Z :=
  if n_no_df np && flag off (htons IP_DF) then
    let noff := off &&& u16 (Z.lnot (htons IP_DF)) in
    (put16 (fst pc) (ip + 6) noff, npf_fixup16_cksum (snd pc) off noff)
  else pc.
Definition norm_ttl (ip : Z) (np : npf_normalize_t) (ttl : Z) (pc : list Z * Z) : list Z * Z :=
  if negb (n_minttl np =? 0) && (ttl <? n_minttl np) then
    (put8 (fst pc) (ip + 8) (u8 (n_minttl np)), npf_fixup16_cksum (snd pc) ttl (u16 (n_minttl np)))
  else pc.

Definition norm_hdr (ip : Z) (np : npf_normalize_t) (nid : Z) (p : list Z) : list Z * Z :=
  norm_ttl ip np (rd8 p (ip + 8)) (norm_df ip np (rd16 p (ip + 6)) (norm_id ip np nid (p, rd16 p (ip + 10)))).

Lemma npf_normalize_ip4_eq npc np nid :
  npf_normalize_ip4 npc np nid =
  let '(p, c) := norm_hdr (npc_ip npc) np nid (pkt npc) in set_pkt npc (put16 p (npc_ip npc + 10) c).
Proof.
  unfold npf_normalize_ip4, norm_hdr, norm_ttl, norm_df, norm_id. cbn [fst snd].
  destruct (n_random_id np), (n_no_df np && _); cbn [fst snd]; by destruct (negb (n_minttl np =? 0) && _).
Qed.

Lemma norm_hdr_spec ip np nid p : bytes_ok p → 0 <= ip → ip + 20 <= blen p → inw 16 nid → 0 <= n_minttl np <= 255 →
  let '(p', c) := norm_hdr ip np nid p in
  inw 16 c ∧ normalized ip np nid p (put16 p' (ip + 10) c).
Proof.
  intros Hb Hip Hl Hid Ht. unfold norm_hdr.
  pose proof (rd16_range p (ip + 6) Hb) as Hoff. pose proof (rd8_range p (ip + 8) Hb) as Httl.
  set (off := rd16 p (ip + 6)) in *. set (ttl := rd8 p (ip + 8)) in *.
  set (noff := off &&& u16 (Z.lnot (htons IP_DF))).
  assert (inw 16 noff) as Hnoff.
  { apply land_inw; [done|done|]. by apply wrap_range. }
  assert (u8 (n_minttl np) = n_minttl np) as E8 by (apply wrap_small; unfold inw; lia).
  unfold norm_id, norm_df, norm_ttl.
  assert (n_no_df np = true → flag off (htons IP_DF) = false → noff = off) as Hdf by (intros; by apply clear_df).
  destruct (n_random_id np) eqn:E1, (n_no_df np) eqn:E2, (flag off (htons IP_DF)) eqn:E3,
    (negb (n_minttl np =? 0) && (ttl <? n_minttl np)) eqn:E4; cbn [andb fst snd]; fold noff.
  all: split; [by apply npf_fixup16_cksum_range || apply (rd16_range p (ip + 10) Hb)|].
  all: rewrite ?E8.
  all: assert (Z.max ttl (n_minttl np) = if negb (n_minttl np =? 0) && (ttl <? n_minttl np) then n_minttl np else ttl) as Hmax
    by (destruct (n_minttl np =? 0) eqn:Z0, (ttl <? n_minttl np) eqn:Z1; bool_to_prop; simpl; lia).
  all: rewrite E4 in Hmax.
  all: split; rewrite ?E1, ?E2; fold off ttl noff; rewrite ?Hmax, ?put16_length, ?put8_length, ?put16_length; try done.
  all: intros; read_hdr; try done; rewrite ?rd16_put8_ne by lia; read_hdr; try done.
  all: try (fold off; rewrite ?Hdf by done; done).
Qed.

(** The checksum kept aside accounts for the stores. *)
Lemma norm_hdr_sum ip n np nid p : (10 <= n)%nat → 0 <= ip → hdr_in ip n p → inw 16 nid → 0 <= n_minttl np <= 255 →
  let '(p', c) := norm_hdr ip np nid p in
  hdr_in ip n p' ∧ inw 16 c ∧ rd16 p' (ip + 10) = rd16 p (ip + 10) ∧
  (c + ip_sum ip n p') mod 65535 = (rd16 p (ip + 10) + ip_sum ip n p) mod 65535.
Proof.
  intros Hn Hip Hp Hid Ht. unfold norm_hdr. set (c0 := rd16 p (ip + 10)).
  assert (inw 16 c0) as Hc0 by (apply rd16_range, Hp).
  destruct (norm_id ip np nid (p, c0)) as [p1 c1] eqn:E1.
  assert (hdr_in ip n p1 ∧ inw 16 c1 ∧ (c1 + ip_sum ip n p1) mod 65535 = (c0 + ip_sum ip n p) mod 65535 ∧
    rd16 p1 (ip + 6) = rd16 p (ip + 6) ∧ rd8 p1 (ip + 8) = rd8 p (ip + 8) ∧ rd16 p1 (ip + 10) = c0) as
    (Hp1 & Hc1 & Hs1 & Ho1 & Ht1 & Hk1).
  { revert E1. unfold norm_id. cbn [fst snd]. case_if; intros [= <- <-]; [|done].
    destruct (put16_sum ip n Hip Hn p 2 nid c0 Hp ltac:(lia) Hid Hc0) as (A & _ & B & C).
    change (2 * Z.of_nat 2) with 4 in *. split_and!; try done; read_hdr; done. }
  rewrite <- Ho1, <- Ht1. clear E1 Ho1 Ht1. destruct (norm_df ip np _ (p1, c1)) as [p2 c2] eqn:E2.
  assert (hdr_in ip n p2 ∧ inw 16 c2 ∧ (c2 + ip_sum ip n p2) mod 65535 = (c1 + ip_sum ip n p1) mod 65535 ∧
    rd8 p2 (ip + 8) = rd8 p1 (ip + 8) ∧ rd16 p2 (ip + 10) = c0) as (Hp2 & Hc2 & Hs2 & Ht2 & Hk2).
  { revert E2. unfold norm_df. cbn [fst snd]. case_if; intros [= <- <-]; [|done].
    destruct (put16_sum ip n Hip Hn p1 3 (rd16 p1 (ip + 6) &&& u16 (Z.lnot (htons IP_DF))) c1 Hp1 ltac:(lia)
      ltac:(apply land_inw; [done|apply rd16_range, Hp1|by apply wrap_range]) Hc1) as (A & _ & B & C).
    change (2 * Z.of_nat 3) with 6 in *. split_and!; try done; read_hdr; done. }
  rewrite <- Ht2. clear E2 Ht2. destruct (norm_ttl ip np _ (p2, c2)) as [p3 c3] eqn:E3. revert E3. unfold norm_ttl. cbn [fst snd].
  case_if; intros [= <- <-]; [|split_and!; try done; by rewrite Hs2, Hs1].
  assert (inw 8 (n_minttl np)) as H8 by (unfold inw; lia).
  rewrite (wrap_small 8), (wrap_small 16) by (done || unfold inw; lia).
  destruct (put8_sum ip n Hip Hn p2 4 (n_minttl np) c2 Hp2 ltac:(lia) H8 Hc2) as (A & _ & B & C).
  change (2 * Z.of_nat 4) with 8 in *. split_and!; try done; [rewrite rd16_put8_ne by lia; done|by rewrite C, Hs2, Hs1].
Qed.

(** [npf_normalize_ip4] sets the fields it is configured to change (the
    IPv4 ID, the "do not fragment" flag, a TTL below the minimum) and keeps
    the header checksum valid; no other byte of the packet changes.  The
    minimum TTL has to fit the field. *)
Theorem npf_normalize_ip4_ok npc np nid : ip4_pre npc → inw 16 nid → 0 <= n_minttl np <= 255 →
  let npc' := npf_normalize_ip4 npc np nid in
  normalized (npc_ip npc) np nid (pkt npc) (pkt npc') ∧
  (rd8 (pkt npc) (npc_ip npc) ≠ 0 → cksum_verifies (ip_cksum_words npc (pkt npc)) →
   cksum_verifies (ip_cksum_words npc (pkt npc'))).
Proof.
  intros (Hb & Hip & Hh & Hm & Hl) Hid Ht npc'. unfold npc'. rewrite npf_normalize_ip4_eq. clear npc'.
  set (ip := npc_ip npc) in *. set (p := pkt npc) in *. set (n := Z.to_nat (npc_hlen npc / 2)).
  assert (2 * Z.of_nat n = npc_hlen npc) as Hn by (unfold n; Z.to_euclidean_division_equations; lia).
  pose proof (norm_hdr_spec ip np nid p Hb Hip ltac:(lia) Hid Ht) as Hs.
  pose proof (norm_hdr_sum ip n np nid p ltac:(lia) Hip ltac:(split; [done|lia]) Hid Ht) as Hz.
  destruct (norm_hdr ip np nid p) as [p3 c3]. destruct Hs as [Hc Hnz]. destruct Hz as ([Hb3 Hl3] & _ & Hk & Hz).
  rewrite pkt_set_pkt by apply Hnz. split; [exact Hnz|]. intros Hver Hok. unfold ip_cksum_words in *. fold ip n p in Hok |- *.
  assert (bytes_ok (put16 p3 (ip + 10) c3)) as Hbq by (by apply bytes_ok_put16).
  rewrite cksum_verifies_iff in * by (by apply words_at_range). eapply sum_ok_mod; [exact Hok| |].
  - apply zsum_pos; [by apply words_at_range|]. destruct n as [|n']; [lia|]. constructor. unfold rd16.
    rewrite (nz_frame _ _ _ _ _ Hnz ip) by lia. fold ip in Hver. pose proof (rd8_range p ip Hb).
    pose proof (rd8_range _ (ip + 1) Hbq). lia.
  - rewrite (zsum_words_put16 p3 (ip + 10) c3 n ip 5) by (done || lia). rewrite Hk. unfold ip_sum in Hz.
    replace (zsum (words_at p3 ip n) - rd16 p (ip + 10) + c3)
      with ((c3 + zsum (words_at p3 ip n)) + - rd16 p (ip + 10)) by lia.
    rewrite <- Zplus_mod_idemp_l, Hz, Zplus_mod_idemp_l. f_equal. lia.
Qed.

(** A header with TTL 3 and the "do not fragment" flag, with a valid checksum. *)
Definition sample_df : list Z :=
  [0x45; 0; 0; 40; 0x12; 0x34; 0x40; 0; 3; 6; 0x51; 0x9a; 10; 0; 0; 1; 10; 0; 0; 2] ++ replicate 20 0.
Definition sample_df_npc : npf_cache_t :=
  mk_npc no_drop (NPC_IP4 ||| NPC_LAYER4 ||| NPC_TCP) (mk_nbuf [sample_df] 0 0 1 0) 12 16 4 20 IPPROTO_TCP 0 (Some 20) None.
Definition sample_norm : npf_normalize_t := mk_normalize 64 0 true true.

Lemma npf_normalize_ip4_ok_witness :
  cksum_verifies (ip_cksum_words sample_df_npc (pkt sample_df_npc)) ∧
  cksum_verifies (ip_cksum_words sample_df_npc (pkt (npf_normalize_ip4 sample_df_npc sample_norm 0xbeef))).
Proof.
  assert (cksum_verifies (ip_cksum_words sample_df_npc (pkt sample_df_npc))) as Hv by (vm_compute; reflexivity).
  split; [exact Hv|].
  destruct (npf_normalize_ip4_ok sample_df_npc sample_norm 0xbeef) as [_ H].
  - split_and!; [apply bytes_ok_concrete; vm_compute; reflexivity|vm_compute; discriminate..| |vm_compute; discriminate]. reflexivity.
  - unfold inw; lia.
  - vm_compute; split; discriminate.
  - apply H; [vm_compute; discriminate|exact Hv].
Defined.

(** With a minimum TTL of 300 the field gets 44 and the checksum the fix-up of
    300: the header checksum does not verify any more. *)
Theorem npf_normalize_minttl_wide :
  cksum_verifies (ip_cksum_words sample_df_npc (pkt sample_df_npc)) ∧
  let q := pkt (npf_normalize_ip4 sample_df_npc (mk_normalize 300 0 false false) 0) in
  rd8 q 8 = 44 ∧ ¬ cksum_verifies (ip_cksum_words sample_df_npc q).
Proof. vm_compute. repeat split; discriminate. Qed.

(** "no-df" alone does nothing: the caller looks for the other two options. *)
Theorem npf_normalize_no_df_alone {M : npf_mbufops_t} npc mi nid : npf_iscached npc NPC_IP4 = true →
  npf_normalize npc (mk_normalize 0 0 false true) mi nid NPF_DECISION_PASS = Some (true, NPF_DECISION_PASS, npc).
Proof. intros Hi. unfold npf_normalize. cbn [n_random_id n_minttl n_maxmss]. by rewrite Hi. Qed.

(** A SYN with two MSS options (1460 and 1400). *)
Definition syn2 (sum0 sum1 : Z) : list Z :=
  [0x45; 0; 0; 48; 0; 1; 0; 0; 64; 6; 0; 0; 10; 0; 0; 1; 10; 0; 0; 2;
   0x30; 0x39; 0; 80; 0; 0; 0; 1; 0; 0; 0; 0; 0x70; 2; 0x20; 0; sum0; sum1; 0; 0;
   2; 4; 0x05; 0xb4; 2; 4; 0x05; 0x78].
Definition syn2_npc : npf_cache_t :=
  mk_npc no_drop (NPC_IP4 ||| NPC_LAYER4 ||| NPC_TCP) (mk_nbuf [syn2 28 26] 0 0 1 0) 12 16 4 20 IPPROTO_TCP 0 (Some 20) None.

(** The checksum is fixed up for the last MSS option only, while all of them are
    rewritten: a SYN with two of them leaves with a wrong TCP checksum. *)
Theorem npf_normalize_two_mss :
  cksum_verifies (l4_cksum_words syn2_npc (pkt syn2_npc)) ∧
  ∃ npc', @npf_normalize linear_mbufops syn2_npc (mk_normalize 0 1000 false false) (mk_match_info 0 0 0) 0
            NPF_DECISION_PASS = Some (true, NPF_DECISION_PASS, npc') ∧
    rd16 (pkt npc') 42 = htons 1000 ∧ rd16 (pkt npc') 46 = htons 1000 ∧
    ¬ cksum_verifies (l4_cksum_words syn2_npc (pkt npc')).
Proof.
  split; [vm_compute; reflexivity|]. eexists. split; [vm_compute; reflexivity|].
  vm_compute. repeat split; discriminate.
Qed.

End ExtNormalize.
