(* ===== verification/ExtLog.v ===== *)
(** * ExtLog: the logging extension (src/kern/npf_ext_log.c)

    A procedure with a [log] call hands every packet, behind a header that says
    what became of it, to the BPF listeners of the pseudo-interface that it
    names.  The interfaces of the operating system are the state [log_world]: by
    index, whether an interface has listeners, its counters of output packets
    and bytes, and what was handed to its listeners. *)

From S2P Require Import Prelude Nbuf Addr Cache Rewrite Tcpopt StateTcp State IfMap ConnKey Thmap Portmap Ruleset Nvlist Rproc.
From stdpp Require Import strings.
Open Scope Z_scope.
Open Scope npf_scope.

Module ExtLog.
Export Rproc.

Definition AF_UNSPEC : Z := 0.
Definition AF_INET : Z := 2.
Definition AF_INET6 : Z := 24.
Definition UID_MAX : Z := 2 ^ 31 - 1.
Definition NPFLOG_RULESET_NAME_SIZE : nat := 16.

Record npfloghdr := mk_hdr {
  h_length : Z; h_af : Z; h_action : Z; h_reason : Z;
  h_ifname : string; h_ruleset : string;
  h_rulenr : Z; h_subrulenr : Z; h_uid : Z; h_pid : Z; h_rule_uid : Z; h_rule_pid : Z; h_dir : Z;
}.

(** The offset of the padding: four bytes, two names, six words and a byte. *)
Definition NPFLOG_REAL_HDRLEN : Z := 4 + 16 + 16 + 4 * 6 + 1.

Record log_if := mk_lif { li_bpf : bool; li_opackets : Z; li_obytes : Z; li_taps : list (npfloghdr * list Z) }.

(** The interfaces, the meta-data of the calls and the next address. *)
Record log_world := mk_lw { lw_ifs : gmap Z log_if; lw_metas : gmap Z Z; lw_next : Z }.

Section log.
Context {NV : Type} `{NO : nvlist_ops NV} {MB : npf_mbufops_t}.
(** The map of the interfaces, for the name of the packet's interface. *)
Context (ifmap : ifmap_t).

Definition npf_log_ctor (w : log_world) (params : NV) : Z + Z * log_world :=
  let if_idx := u32 (dnvlist_get_number params "log-interface" 0) in
  inr (lw_next w, mk_lw (lw_ifs w) (<[lw_next w := if_idx]> (lw_metas w)) (lw_next w + 1)).

Definition npf_log_dtor (w : log_world) (meta : Z) : log_world := mk_lw (lw_ifs w) (delete meta (lw_metas w)) (lw_next w).

Definition log_header (npc : npf_cache_t) (mi : npf_match_info) (decision : Z) : npfloghdr :=
  let af := if npf_iscached npc NPC_IP4 then AF_INET else if npf_iscached npc NPC_IP6 then AF_INET6 else AF_UNSPEC in
  let dir := if mi_di mi =? PFIL_IN then 1 else if mi_di mi =? PFIL_OUT then 2 else 0 in
  mk_hdr NPFLOG_REAL_HDRLEN af (if decision =? NPF_DECISION_PASS then 0 else 1) 0
    (npf_ifmap_copyname ifmap (nb_ifid (npc_nbuf npc))) (Rproc.strlcpy "rules" NPFLOG_RULESET_NAME_SIZE)
    (bswap32 (u32 (mi_rid mi))) (bswap32 (u32 (mi_rid mi >>> 32))) UID_MAX (u32 (-1)) UID_MAX (u32 (-1)) dir.

(** The packet and the decision are left alone. *)
Definition npf_log (w : log_world) (npc : npf_cache_t) (meta : Z) (mi : npf_match_info) (decision : Z) : bool * Z * npf_cache_t * log_world :=
  let hdr := log_header npc mi decision in
  let if_idx := default 0 (lw_metas w !! meta) in
  match lw_ifs w !! if_idx with
  | None => (true, decision, npc, w)
  | Some ifp =>
      let ifp := mk_lif (li_bpf ifp) (u64 (li_opackets ifp + 1)) (u64 (li_obytes ifp + blen (pkt npc)))
                   (if li_bpf ifp then li_taps ifp ++ [(hdr, pkt npc)] else li_taps ifp) in
      (true, decision, npc, mk_lw (<[if_idx := ifp]> (lw_ifs w)) (lw_metas w) (lw_next w))
  end.

Definition npf_log_ops : npf_ext_ops_t (W := log_world) (P := NV) := mk_ext_ops npf_log_ctor npf_log_dtor npf_log.

(** The error; the number of the extension is kept for its end. *)
Definition npf_ext_log_init (s : rproc_sys) : Z * option Z * rproc_sys (W := log_world) (P := NV) :=
  match npf_ext_register s "log" npf_log_ops with
  | (Some id, s) => (0, Some id, s)
  | (None, s) => (EEXIST, None, s)
  end.

Definition npf_ext_log_fini (s : rproc_sys (W := log_world) (P := NV)) (id : Z) : Z * rproc_sys := npf_ext_unregister s id.

(** The number of the rule, from the two words of a header. *)
Definition header_rid (h : npfloghdr) : Z := bswap32 (h_rulenr h) + 2 ^ 32 * bswap32 (h_subrulenr h).

Lemma log_header_rid npc mi d : inw 64 (mi_rid mi) → header_rid (log_header npc mi d) = mi_rid mi.
Proof.
  intros Hr. unfold header_rid, log_header. cbn [h_rulenr h_subrulenr]. rewrite !bswap32_involutive by (apply wrap_range; lia).
  unfold inw in Hr. rewrite Z.shiftr_div_pow2 by lia. rewrite (wrap_small 32 (mi_rid mi / 2 ^ 32)).
  - unfold wrap. pose proof (Z.div_mod (mi_rid mi) (2 ^ 32) ltac:(lia)). lia.
  - split; [apply Z.div_pos; lia|apply Z.div_lt_upper_bound; lia].
Qed.

(** Logging observes.  A [log] call lets the procedure go on, with the packet
    and the decision as they are.  It changes nothing but the interface that
    the call names: with listeners, they get one record, of the whole packet
    behind a header that says whether the packet passes and which rule
    matched. *)
Theorem npf_log_observes w npc meta mi d idx : inw 64 (mi_rid mi) → lw_metas w !! meta = Some idx →
  ∃ w', npf_log w npc meta mi d = (true, d, npc, w') ∧ lw_metas w' = lw_metas w ∧ (∀ i, i ≠ idx → lw_ifs w' !! i = lw_ifs w !! i) ∧
    match lw_ifs w !! idx with
    | None => w' = w
    | Some ifp => ∃ ifp', lw_ifs w' !! idx = Some ifp' ∧ li_opackets ifp' = u64 (li_opackets ifp + 1) ∧
        if li_bpf ifp
        then ∃ h, li_taps ifp' = li_taps ifp ++ [(h, pkt npc)] ∧ header_rid h = mi_rid mi ∧ (h_action h = 0 ↔ d = NPF_DECISION_PASS)
        else li_taps ifp' = li_taps ifp
    end.
Proof.
  intros Hr Hm. unfold npf_log. rewrite Hm. cbn [default id]. destruct (lw_ifs w !! idx) as [ifp|] eqn:E; [|by exists w].
  eexists. split; [reflexivity|]. split; [done|]. split; [intros i Hi; cbn; by apply lookup_insert_ne|].
  eexists. split; [cbn; apply lookup_insert_eq|]. split; [done|]. cbn [li_bpf li_taps]. destruct (li_bpf ifp); [|done].
  exists (log_header npc mi d). split; [done|]. split; [by apply log_header_rid|]. cbn [h_action log_header].
  destruct (Z.eqb_spec d NPF_DECISION_PASS); split; congruence.
Qed.
End log.

End ExtLog.
