(* ===== verification/NpfExt.v ===== *)
(** * NpfExt: extension calls in a configuration (src/npfctl/npf_extmod.c and the modules of src/lib)

    A rule procedure names extensions with parameters.  npfctl loads the
    module of an extension once, creates the call and passes every parameter
    to the function of the module, which checks the value and adds it to the
    list that the constructor of the kernel reads.  What the dynamic linker
    finds is a parameter; the four modules of the repository are an instance.
    [atof] is modelled on the IEEE doubles of [SpecFloat], since the percentage
    of the random blocking goes through one. *)

From S2P Require Import Prelude NpfVar Nbuf Cache Nvlist Libnpf NpfBuild NpfData Rewrite Tcpopt StateTcp ExtRatelimit ExtNormalize.
From Stdlib Require Import SpecFloat.
From stdpp Require Import strings.
Open Scope Z_scope.
Open Scope npf_scope.

Module NpfExt.
Export NpfData Nvlist.
Import ExtRatelimit.
Export Libnpf (npf_ext_construct).

(** ** Doubles from text *)

Definition binary64_div (s : bool) (m d : positive) : spec_float :=
  let '(q, e, l) := SFdiv_core_binary 53 1024 (Zpos m) 0 (Zpos d) 0 in binary_round_aux 53 1024 s q e l.

(** The digits of a number: their value and how many they are. *)
Fixpoint scan_count (s : string) (acc n : Z) : Z * Z * string :=
  match s with
  | String c s' => match digit_val 10 c with Some d => scan_count s' (acc * 10 + d) (n + 1) | None => (acc, n, s) end
  | EmptyString => (acc, n, s)
  end.

(** Decimal numbers with an optional fraction and exponent; a number without
    digits is 0. *)
Definition atof (s : string) : spec_float :=
  let '(neg, t) := scan_sign (skip_space s) in
  let '(m, n, t) := scan_count t 0 0 in
  let '(m, k, t) := match t with
                    | String c t' => if ch c =? 46 then scan_count t' m 0 else (m, 0, t)
                    | EmptyString => (m, 0, t)
                    end in
  let e := match t with
           | String c t' =>
               if tolower c =? 101 then
                 let '(eneg, t') := scan_sign t' in
                 let v := (scan_count t' 0 0).1.1 in if (eneg : bool) then - v else v
               else 0
           | EmptyString => 0
           end in
  match m with
  | Zpos m =>
      if k <=? e then binary_normalize 53 1024 (cond_Zopp neg (Zpos m * 10 ^ (e - k))) 0 neg
      else binary64_div neg m (Z.to_pos (10 ^ (k - e)))
  | _ => S754_zero neg
  end.

(** The conversion to [long] drops the fraction. *)
Definition to_long (f : spec_float) : Z :=
  match f with
  | S754_finite s m e => let v := (if 0 <=? e then Zpos m * 2 ^ e else Zpos m / 2 ^ (- e)) in if s then - v else v
  | _ => 0
  end.

Definition SF100 : spec_float := binary_normalize 53 1024 100 0 false.

(** ** The parameters of the modules *)

Section params.
Context {NV : Type} {NO : nvlist_ops NV} {NA : nvlist_array_ops NV}.

Definition npf_ext_param_u32 (ext : NV) (key : string) (val : Z) : NV := nvlist_add_number ext key (u32 val).
Definition npf_ext_param_u64 (ext : NV) (key : string) (val : Z) : NV := nvlist_add_number ext key (u64 val).
Definition npf_ext_param_bool (ext : NV) (key : string) (val : bool) : NV := nvlist_add_bool ext key val.

Definition npfext_ratelimit_param (ext : NV) (param : string) (val : option string) : comp (Z * NV) :=
  inl (if bool_decide (param ∈ ["bitrate"; "normal-burst"; "extended-burst"]%string) then
         match val with
         | None => (EINVAL, ext)
         | Some val => let nval := u64 (atoll val) in if nval =? 0 then (EINVAL, ext) else (0, npf_ext_param_u64 ext param nval)
         end
       else (EINVAL, ext)).

Definition npfext_rndblock_param (ext : NV) (param : string) (val : option string) : comp (Z * NV) :=
  inl (match val with
       | None => (EINVAL, ext)
       | Some val =>
           let set ival mx := if (ival <? 1) || (mx <? ival) then (EINVAL, ext) else (0, npf_ext_param_u32 ext param ival) in
           if String.eqb "mod" param then set (atoll val) LONG_MAX
           else if String.eqb "percentage" param then set (to_long (SFmul 53 1024 (atof val) SF100)) 9999
           else (EINVAL, ext)
       end).

Definition npfext_normalize_param (ext : NV) (param : string) (val : option string) : comp (Z * NV) :=
  inl (if bool_decide (param ∈ ["random-id"; "no-df"]%string) then (0, npf_ext_param_bool ext param true)
       else if bool_decide (param ∈ ["min-ttl"; "max-mss"]%string) then
         match val with None => (EINVAL, ext) | Some val => (0, npf_ext_param_u32 ext param (atoll val)) end
       else (EINVAL, ext)).

(** [create]: the outcome of making the interface and bringing it up, an
    [errno] or the index. *)
Definition npfext_log_param (if_nametoindex : string → Z) (create : string → Z + Z) (ext : NV) (param : string) (val : option string) : comp (Z * NV) :=
  let if_idx := if_nametoindex param in
  inl (if if_idx =? 0 then
         match create param with
         | inr errno => (errno, ext)
         | inl if_idx => if if_idx =? 0 then (EINVAL, ext) else (0, npf_ext_param_u32 ext "log-interface" if_idx)
         end
       else (0, npf_ext_param_u32 ext "log-interface" if_idx)).

(** ** The modules *)

Record npf_extmod := mk_extmod {
  ext_name : string;
  ext_init : option Z;
  ext_cons : option (string → option NV);
  ext_param : NV → string → option string → comp (Z * NV);
}.

(** [dlopen] and [dlsym]: the symbols of a module, where the parameter
    function may be missing. *)
Record extlib := mk_extlib {
  lib_init : option Z;
  lib_cons : option (string → option NV);
  lib_param : option (NV → string → option string → comp (Z * NV));
}.

Context (dlopen : string → option extlib).

Definition npf_extmod_load (l : list npf_extmod) (name : string) : comp (option npf_extmod * list npf_extmod) :=
  match dlopen name with
  | None => inr E_errx
  | Some lib =>
      match lib_param lib with
      | None => inr E_errx
      | Some param =>
          let ext := mk_extmod name (lib_init lib) (lib_cons lib) param in
          match ext_init ext with
          | Some r => if negb (r =? 0) then inl (None, l) else inl (Some ext, ext :: l)
          | None => inl (Some ext, ext :: l)
          end
      end
  end.

Definition npf_extmod_get (l : list npf_extmod) (name : string) : comp (option (npf_extmod * NV) * list npf_extmod) :=
  let! (extmod, l) := (match find (λ e, String.eqb (ext_name e) name) l with
                       | Some e => inl (Some e, l)
                       | None => npf_extmod_load l name
                       end) in
  match extmod with
  | None => inl (None, l)
  | Some e =>
      match (match ext_cons e with Some f => f name | None => Some (npf_ext_construct name) end) with
      | Some call => inl (Some (e, call), l)
      | None => inl (None, l)
      end
  end.

Definition npf_extmod_param (e : npf_extmod) (ext : NV) (param : string) (val : option string) : comp (Z * NV) := ext_param e ext param val.

End params.

Arguments npf_extmod : clear implicits.
Arguments extlib : clear implicits.

(** The modules of the repository, without the one of the log. *)
Definition npf_extlibs {NV} {NO : nvlist_ops NV} {NA : nvlist_array_ops NV} (name : string) : option (extlib NV) :=
  if String.eqb name "ratelimit" then Some (mk_extlib None None (Some npfext_ratelimit_param))
  else if String.eqb name "rndblock" then Some (mk_extlib None None (Some npfext_rndblock_param))
  else if String.eqb name "normalize" then Some (mk_extlib None None (Some npfext_normalize_param))
  else None.

(** ** The registry *)

Section registry.
Context {NV : Type} {NO : nvlist_ops NV} {NA : nvlist_array_ops NV} (dlopen : string → option (extlib NV)).
Implicit Types (l : list (npf_extmod NV)).

(** A module is loaded once: the names of the loaded modules stay distinct,
    and a module that was found is found again without loading. *)
Lemma npf_extmod_get_once l name r l' : NoDup (ext_name <$> l) → npf_extmod_get dlopen l name = inl (r, l') →
  NoDup (ext_name <$> l') ∧ (∀ e call, r = Some (e, call) → ext_name e = name ∧ npf_extmod_get dlopen l' name = inl (Some (e, call), l')).
Proof.
  intros Hd Hg. unfold npf_extmod_get in Hg. apply cbind_inl in Hg as ([m l1] & Hm & Hg).
  assert (NoDup (ext_name <$> l1) ∧ ∀ e, m = Some e → find (λ e, String.eqb (ext_name e) name) l1 = Some e) as [Hd1 Hf].
  { destruct (find _ l) as [e|] eqn:Ef; [injection Hm as <- <-; split; [done|]; by intros e' [= <-]|].
    assert (name ∉ ext_name <$> l) as Hn.
    { intros (e & -> & He)%list_elem_of_fmap. apply list_elem_of_In, (find_none _ _ Ef) in He. by rewrite String.eqb_refl in He. }
    unfold npf_extmod_load in Hm. destruct (dlopen name) as [lib|]; [|done]. destruct (lib_param lib) as [p|]; [|done].
    cbn [ext_init] in Hm. destruct (lib_init lib) as [r0|]; [destruct (negb (r0 =? 0))|]; injection Hm as <- <-;
      (split; [try done; cbn; constructor; done|]); intros e [= <-]; cbn [find ext_name]; by rewrite String.eqb_refl. }
  destruct m as [e|]; [|by injection Hg as <- <-].
  destruct (match ext_cons e with Some f => f name | None => Some (npf_ext_construct name) end) as [call|] eqn:Ec; injection Hg as <- <-;
    (split; [done|]); intros e' call' Hr; [|done]. injection Hr as <- <-.
  specialize (Hf e eq_refl). split; [by apply find_some in Hf as [_ ->%String.eqb_eq]|].
  unfold npf_extmod_get. rewrite Hf. cbn [cbind]. by rewrite Ec.
Qed.

End registry.

(** ** From the configuration to the kernel *)

Section calls.
Context {NV : Type} {NO : nvlist_ops NV} {NA : nvlist_array_ops NV} {NL : nvlist_laws NV}.

Lemma digit_first n : 0 < n < 2 ^ 64 → strtol (print_lu n) 10 = strtol (print_lu n) 0.
Proof.
  intros Hn. assert (0 <= n < 10 ^ Z.of_nat 20) as Hn' by (change (10 ^ Z.of_nat 20) with 100000000000000000000; change (2 ^ 64) with 18446744073709551616 in Hn; lia).
  destruct (dec_digits_head 19 n EmptyString Hn') as (d & s & He & Hd & _ & Hp). unfold print_lu. rewrite He.
  unfold strtol. cbn [skip_space]. unfold isspace. rewrite ch_dec_char by lia.
  rewrite (proj2 (Z.eqb_neq _ 32)), (proj2 (Z.leb_gt _ 13)), andb_false_r by lia. cbn [orb scan_sign]. rewrite ch_dec_char by lia.
  rewrite (proj2 (Z.eqb_neq _ 45)), (proj2 (Z.eqb_neq _ 43)) by lia. cbv iota. by rewrite scan_base_dec by (split; [apply Hp|]; lia).
Qed.

Lemma atoll_print_lu n : 0 < n <= LONG_MAX → atoll (print_lu n) = n.
Proof.
  intros Hn. unfold LONG_MAX in Hn. unfold atoll. rewrite digit_first, strtol_print_lu by lia. by rewrite (proj2 (Z.leb_le n LONG_MAX)) by (unfold LONG_MAX; lia).
Qed.

(** A rate limit as it is written: the limiter of the kernel has the rate in
    bytes per millisecond and the default bursts of one and a half times and
    three times the rate. *)
Lemma ratelimit_configured n : 0 < n <= LONG_MAX → ∃ call,
  npfext_ratelimit_param (npf_ext_construct "ratelimit") "bitrate" (Some (print_lu n)) = inl (0, call) ∧
  npf_ext_ratelimit_ctor (NV := NV) call = mk_car 0 0 0 (n / 8 / 1000) (n / 8 + n / 16) ((n / 8 + n / 16) * 2).
Proof.
  intros Hn. unfold npfext_ratelimit_param. rewrite bool_decide_eq_true_2 by set_solver. rewrite atoll_print_lu by done. unfold LONG_MAX in Hn.
  rewrite (wrap_small 64 n) by (unfold inw; lia). rewrite (proj2 (Z.eqb_neq n 0)) by lia. eexists. split; [reflexivity|].
  destruct (nv_add_string (NV := NV) nvlist_create "name" "ratelimit") as (S1 & _ & _); [apply nv_create_empty|].
  assert (∀ m, nv_number (npf_ext_construct (NV := NV) "ratelimit") m = None) as Hs by (intros m; unfold npf_ext_construct; rewrite S1; apply nv_create_empty).
  unfold npf_ext_param_u64. rewrite (wrap_small 64 n) by (unfold inw; lia).
  destruct (nv_add_number (npf_ext_construct "ratelimit") "bitrate" n (Hs _)) as (A1 & _ & _).
  unfold npf_ext_ratelimit_ctor. rewrite !nv_number_default, !A1, !Hs. cbn [decide]. repeat case_decide; try done. cbn [default id].
  rewrite (wrap_small 64 n) by (unfold inw; lia). cbn [Z.eqb]. rewrite !Z.shiftr_div_pow2 by lia.
  change (2 ^ 3) with 8. change (2 ^ 4) with 16. unfold MSEC_IN_SEC.
  rewrite (wrap_small 64 (n / 8 + n / 16)) by (unfold inw; change (2 ^ 64) with 18446744073709551616; Z.to_euclidean_division_equations; lia).
  by rewrite (wrap_small 64 (_ * 2)) by (unfold inw; change (2 ^ 64) with 18446744073709551616; Z.to_euclidean_division_equations; lia).
Qed.

End calls.

(** ** Values out of range *)

Definition number_of (r : comp (Z * nv_tree)) (key : string) : comp (Z * option Z) :=
  let! (e, nv) := r in inl (e, nv_number nv key).

(** The percentage is a double times 100, cut to an integer: 0.29 and 1.15
    become 0.28 and 1.14. *)
Theorem percentage_truncated :
  number_of (npfext_rndblock_param nvlist_create "percentage" (Some "0.25")) "percentage" = inl (0, Some 25) ∧
  number_of (npfext_rndblock_param nvlist_create "percentage" (Some "0.29")) "percentage" = inl (0, Some 28) ∧
  number_of (npfext_rndblock_param nvlist_create "percentage" (Some "1.15")) "percentage" = inl (0, Some 114).
Proof. vm_compute. auto. Qed.

(** The modulus is checked as a [long] and stored in 32 bits: 2^32 passes the
    check, and blocks nothing. *)
Theorem mod_truncated :
  number_of (npfext_rndblock_param nvlist_create "mod" (Some "4294967296")) "mod" = inl (0, Some 0).
Proof. vm_compute. reflexivity. Qed.

(** A negative rate is accepted, as a huge one. *)
Theorem negative_bitrate :
  number_of (npfext_ratelimit_param nvlist_create "bitrate" (Some "-8")) "bitrate" = inl (0, Some (2 ^ 64 - 8)).
Proof. vm_compute. reflexivity. Qed.

End NpfExt.
