(* ===== verification/NpfMaps.v ===== *)
(** * NpfMaps: translation policies, procedures and tables of a configuration (src/npfctl/npf_build.c)

    The parts of a configuration besides its groups and rules.  A [map]
    statement becomes one or two NAT policies ([npfctl_build_natseg]), whose
    members the kernel reads again ([natpolicy_parse]); a [procedure] becomes
    the list of its extension calls; a [table] gets its identifier from a
    counter and its entries from the lines of a file.  The configuration is that
    of [NpfGroups]; the counter and the loaded extensions are passed along. *)

From S2P Require Import Prelude Nbuf Addr Cache Rewrite Tcpopt StateTcp Thmap ConnKey Tableset Bpf NpfBpf NpfVar BpfComp NpfBuild NpfData Npt66 IfMap Ruleset Nvlist Conn Rproc Alg NpfNat NatRefs NatSys NatConfig Libnpf NpfCtl NpfGroups NpfExt.
From stdpp Require Import strings.
Open Scope Z_scope.
Open Scope npf_scope.

Module NpfMaps.
Export NpfGroups NpfData NpfExt.
Export Conn (NPF_NATIN, NPF_NATOUT).
Export NpfNat (NPF_NAT_PORTS, NPF_NAT_PORTMAP, NPF_NAT_STATIC, NPF_ALGO_NONE, NPF_ALGO_NETMAP, NPF_ALGO_IPHASH, NPF_ALGO_RR, NPF_ALGO_NPT66).
Export Libnpf (npf_nat_create, npf_nat_insert, npf_nat_setaddr, npf_nat_setport, npf_nat_settable, npf_nat_setalgo, npf_nat_setnpt66, npf_rule_create, npf_rule_setprio, npf_rule_getattr, npf_table_create, npf_table_add_entry, npf_table_insert, npf_table_iterate, npf_table_getid, npf_table_getname, npf_rproc_create, npf_rproc_extcall, npf_rproc_insert, npf_alg_load).

Definition NPFCTL_NAT_DYNAMIC : Z := 1.
Definition NPFCTL_NAT_STATIC : Z := 2.
Definition NPF_IFNET_TABLE_PREF : string := ".ifnet-".

Section maps.
Context {NV : Type} {NO : nvlist_ops NV} {NA : nvlist_array_ops NV}.
Context (pcap_compile : string → option (list bpf_insn)) (N : netdb).

(** ** NAT policies *)

Definition npfctl_build_nat (v : var_sys) (type : Z) (ifname : option string) (ap : addr_port) (popts : option Z) (fopts : filt_opts) (flags : Z) : comp NV :=
  let! (port, flags) := (match ap_portrange ap with
                         | Some _ =>
                             let! port := npfctl_get_singleport v (ap_portrange ap) in
                             inl (port, (flags &&& u32 (Z.lnot NPF_NAT_PORTMAP)) ||| NPF_NAT_PORTS)
                         | None => inl (0, flags)
                         end) in
  let nat := npf_nat_create type flags ifname in
  let! t := npfvar_get_type v (ap_netaddr ap) 0 in
  let! (family, nat) := (if t =? NPFVAR_FAM then
                           let! am := npfctl_get_singlefam v (ap_netaddr ap) in
                           inl (fam_family am, npf_nat_setaddr nat (fam_family am) (fam_addr am) (fam_mask am))
                         else if t =? NPFVAR_TABLE then
                           let! tid := npfctl_get_singletable v (ap_netaddr ap) in inl (AF_UNSPEC, npf_nat_settable nat tid)
                         else inr E_yyerror) in
  let nat := npf_nat_setport nat port in
  rule_code pcap_compile v nat (npf_rule_getattr nat) family popts fopts None.

Definition npfctl_dnat_check (v : var_sys) (ap : addr_port) (algo : Z) : comp unit :=
  let! type := npfvar_get_type v (ap_netaddr ap) 0 in
  if algo =? NPF_ALGO_NETMAP then
    if type =? NPFVAR_FAM then inl tt else inr E_yyerror
  else if (algo =? NPF_ALGO_IPHASH) || (algo =? NPF_ALGO_RR) || (algo =? NPF_ALGO_NONE) then
    if negb (type =? NPFVAR_FAM) then inl tt else
    let! am := npfctl_get_singlefam v (ap_netaddr ap) in
    if fam_mask am =? NPF_NO_NETMASK then inl tt else inr E_yyerror
  else inr E_yyerror.

(** The condition [c] of an [if] whose body may fail. *)
Definition cwhen {A} (c : bool) (m : comp A) : comp (option A) := if c then let! a := m in inl (Some a) else inl None.

(** The [switch] on the algorithm of a static mapping: the adjustment. *)
Definition static_check (binat : bool) (am1 am2 : option fam_addr_mask) (algo : Z) : comp Z :=
  let mask am := fam_mask <$> am in
  if algo =? NPF_ALGO_NPT66 then
    match binat, am1, am2 with
    | true, Some a1, Some a2 =>
        if negb (fam_mask a1 =? fam_mask a2) then inr E_yyerror else npfctl_npt66_calcadj (fam_mask a1) (fam_addr a1) (fam_addr a2)
    | _, _, _ => inr E_yyerror
    end
  else if algo =? NPF_ALGO_NETMAP then
    if binat && negb (bool_decide (mask am1 = mask am2)) then inr E_yyerror else inl 0
  else if algo =? NPF_ALGO_NONE then
    if bool_decide (default NPF_NO_NETMASK (mask am1) ≠ NPF_NO_NETMASK) || bool_decide (default NPF_NO_NETMASK (mask am2) ≠ NPF_NO_NETMASK)
    then inr E_yyerror else inl 0
  else inr E_yyerror.

(** The flags and the adjustment. *)
Definition natseg_check (v : var_sys) (sd type : Z) (ap1 ap2 : addr_port) (algo : Z) : comp (Z * Z) :=
  let binat := NPF_NATIN ||| NPF_NATOUT =? type in
  if sd =? NPFCTL_NAT_DYNAMIC then
    let! _ := cwhen (flag type NPF_NATIN) (npfctl_dnat_check v ap1 algo) in
    let! _ := cwhen (flag type NPF_NATOUT) (npfctl_dnat_check v ap2 algo) in
    inl (if negb binat then NPF_NAT_PORTS ||| NPF_NAT_PORTMAP else 0, 0)
  else if sd =? NPFCTL_NAT_STATIC then
    let! am1 := cwhen (flag type NPF_NATIN) (npfctl_get_singlefam v (ap_netaddr ap1)) in
    let! am2 := cwhen (flag type NPF_NATOUT) (npfctl_get_singlefam v (ap_netaddr ap2)) in
    let! adj := static_check binat am1 am2 algo in
    inl (NPF_NAT_STATIC, adj)
  else inr E_abort.

Definition no_ap : addr_port := mk_ap None None.

(** The algorithm of a policy. *)
Definition set_algo (algo adj : Z) (nt : NV) : NV :=
  if algo =? NPF_ALGO_NONE then nt
  else if algo =? NPF_ALGO_NPT66 then npf_nat_setnpt66 nt (u16 adj)
  else npf_nat_setalgo nt algo.

(** The policies, inbound and outbound. *)
Definition natseg_policies (v : var_sys) (sd type mflags : Z) (ifname : string) (ap1 ap2 : addr_port) (popts : option Z) (fopts : option filt_opts) (algo : Z) :
    comp (option NV * option NV) :=
  if flag type NPF_NATIN && negb (bool_decide (is_Some (ap_netaddr ap1))) then inr E_yyerror else
  if flag type NPF_NATOUT && negb (bool_decide (is_Some (ap_netaddr ap2))) then inr E_yyerror else
  let! (flags, adj) := natseg_check v sd type ap1 ap2 algo in
  let flags := if flag mflags NPF_NAT_PORTS then flags &&& u32 (Z.lnot (NPF_NAT_PORTS ||| NPF_NAT_PORTMAP)) else flags in
  let fo im := default im fopts in
  let! nt1 := cwhen (flag type NPF_NATIN)
    (npfctl_build_nat v NPF_NATIN (Some ifname) ap1 popts (fo (mk_fopts no_ap ap2 false false)) flags) in
  let! nt2 := cwhen (flag type NPF_NATOUT)
    (npfctl_build_nat v NPF_NATOUT (Some ifname) ap2 popts (fo (mk_fopts ap1 no_ap false false)) flags) in
  let! _ := assert (negb (algo =? NPF_ALGO_NPT66) || bool_decide (is_Some nt1) && bool_decide (is_Some nt2)) in
  inl (set_algo algo (Z.lnot adj) <$> nt1, set_algo algo adj <$> nt2).

(** [npf_rule_setprio] and [npf_nat_insert]. *)
Definition insert_nat (nt : option NV) (conf : nl_config) : nl_config :=
  match nt with Some nt => npf_nat_insert conf (npf_rule_setprio nt NPF_PRI_LAST) | None => conf end.

Definition npfctl_build_natseg (v : var_sys) (s : bconf) (sd type mflags : Z) (ifname : string) (ap1 ap2 : addr_port) (popts : option Z)
    (fopts : option filt_opts) (algo : Z) : comp bconf :=
  let! (nt1, nt2) := natseg_policies v sd type mflags ifname ap1 ap2 popts fopts algo in
  match b_conf s with
  | Some conf => inl (set_conf s (insert_nat nt2 (insert_nat nt1 conf)))
  | None =>
      match nt1, nt2 with
      | Some _, Some _ => inr E_errx
      | Some nt, None | None, Some nt =>
          let '(rl, s) := new_rule s nt in
          inl (mk_bconf (b_conf s) (b_rules s) (b_next s) (b_defgroup s) (b_group s) (b_level s) (Some rl) (b_built s))
      | None, None => inl (mk_bconf (b_conf s) (b_rules s) (b_next s) (b_defgroup s) (b_group s) (b_level s) None (b_built s))
      end
  end.

(** ** NAT rulesets *)

Definition npfctl_nat_ruleset_p (name : string) : Z * bool :=
  let natset := bool_decide (String.substring 0 4 name = Libnpf.NPF_RULESET_MAP_PREF) in
  (if natset && (String.length name <=? 4)%nat then -1 else 0, natset).

Definition npfctl_build_maprset (s : bconf) (name : string) (attr : Z) (ifname : option string) : comp bconf :=
  let attr_di := NPF_RULE_IN ||| NPF_RULE_OUT in
  let '(err, natset) := npfctl_nat_ruleset_p name in
  if negb natset then inr E_yyerror else
  if negb (err =? 0) then inr E_yyerror else
  let attr := if attr &&& attr_di =? 0 then attr ||| attr_di else attr in
  let attr := NPF_RULE_GROUP ||| NPF_RULE_DYNAMIC ||| (attr &&& attr_di) in
  let rl := npf_rule_setprio (npf_rule_create (Some name) attr ifname) NPF_PRI_LAST in
  match b_conf s with Some conf => inl (set_conf s (npf_nat_insert conf rl)) | None => inr E_segv end.

End maps.
(** ** Rule procedures *)

Section procs.
Context {NV : Type} {NO : nvlist_ops NV} {NA : nvlist_array_ops NV} (dlopen : string → option (extlib NV)).

Definition rpcall_param (v : var_sys) (args : option Z) (extmod : npf_extmod NV) (call : NV) (i : nat) : comp NV :=
  let! p := npfvar_get_data v args NPFVAR_PROC_PARAM i in
  match p with
  | El_proc_param param value =>
      let! (error, call) := npf_extmod_param extmod call param value in
      if error =? EINVAL then inr E_yyerror else inl call
  | _ => inr E_segv
  end.

Definition npfctl_build_rpcall (v : var_sys) (st : list (npf_extmod NV) * NV) (name : string) (args : option Z) : comp (list (npf_extmod NV) * NV) :=
  let '(mods, rp) := st in
  let! (r, mods) := npf_extmod_get dlopen mods name in
  match r with
  | None => inr E_yyerror
  | Some (extmod, call) =>
      let! n := npfvar_get_count v args in
      let! call := cfold (rpcall_param v args extmod) (seq 0 (Z.to_nat n)) call in
      let! (error, rp) := npf_rproc_extcall rp call in
      if negb (error =? 0) then inr E_yyerror else inl (mods, rp)
  end.

(** The result of the insertion is not looked at. *)
Definition npfctl_build_rproc (v : var_sys) (mods : list (npf_extmod NV)) (conf : nl_config) (name : string) (procs : option Z) :
    comp (list (npf_extmod NV) * nl_config) :=
  let! n := npfvar_get_count v procs in
  let! (mods, rp) := cfold (λ st i, let! pc := npfvar_get_data v procs NPFVAR_PROC i in
                                    match pc with El_proc pc_name pc_opts => npfctl_build_rpcall v st pc_name pc_opts | _ => inr E_segv end)
                           (seq 0 (Z.to_nat n)) (mods, npf_rproc_create name) in
  inl (mods, (npf_rproc_insert conf rp).2).

Definition npfctl_build_alg (conf : nl_config) (al_name : string) : comp (nl_config (NV := NV)) :=
  let '(error, conf) := npf_alg_load conf al_name in if negb (error =? 0) then inr E_yyerror else inl conf.

End procs.

(** ** Tables *)

Section tables.
Context {NV : Type} {NO : nvlist_ops NV} {NA : nvlist_array_ops NV} (N : netdb) (garbage : Z → list Z) (cdbw_output : list (list Z) → Z + Z).

(** A table without a name is compared through a null pointer. *)
Fixpoint table_scan (f : NV → comp bool) (l : list NV) : comp (option NV) :=
  match l with
  | [] => inl None
  | tl :: l => let! b := f tl in if (b : bool) then inl (Some tl) else table_scan f l
  end.

(** The tables, in the order of [npf_table_iterate]. *)
Definition table_list (ncf : nl_config (NV := NV)) : list NV := default [] (nvlist_get_nvlist_array (ncf_dict ncf) "tables").

Definition npfctl_table_getbyname (ncf : option (nl_config (NV := NV))) (name : string) : comp (option NV) :=
  match ncf with
  | None => inl None
  | Some ncf => table_scan (λ tl, match npf_table_getname tl with Some n => inl (bool_decide (n = name)) | None => inr E_segv end) (table_list ncf)
  end.

Definition no_tid : Z := 2 ^ 32 - 1.

Definition npfctl_table_getid (ncf : option (nl_config (NV := NV))) (name : string) : comp Z :=
  let! tl := npfctl_table_getbyname ncf name in
  inl (match tl with Some tl => npf_table_getid tl | None => no_tid end).

(** The name, without the prefix of the interface tables. *)
Definition npfctl_table_getname (ncf : nl_config (NV := NV)) (tid : Z) : comp (option (string * bool)) :=
  let! tl := table_scan (λ tl, inl (npf_table_getid tl =? tid)) (table_list ncf) in
  inl (name ← tl ≫= npf_table_getname;
       if bool_decide (String.substring 0 7 name = NPF_IFNET_TABLE_PREF)
       then Some (String.substring 7 (String.length name - 7) name, true) else Some (name, false)).

Definition npfctl_parse_table_id (v : var_sys) (ncf : option (nl_config (NV := NV))) (name : string) : comp (Z * var_sys) :=
  let! tid := npfctl_table_getid ncf name in
  if tid =? no_tid then inr E_yyerror else npfvar_create_element v (El_table tid).

(** The lines of the file, as [getline] returns them. *)
Definition fill_line (type : Z) (tl : NV) (buf : string) : comp NV :=
  let skip := match buf with String c _ => (ch c =? 10) || (ch c =? 35) | EmptyString => false end in
  if skip then inl tl else
  let! r := npfctl_parse_cidr N buf in
  match r with
  | None => inr E_errx
  | Some (fam, _) =>
      if negb (type =? NPF_TABLE_LPM) && negb (fam_mask fam =? NPF_NO_NETMASK) then inr E_errx
      else inl (npf_table_add_entry tl (fam_family fam) (fam_addr fam) (fam_mask fam)).2
  end.

(** [file]: the lines of the named file, if it can be opened. *)
Definition npfctl_fill_table (tl : NV) (type : Z) (file : option (list string)) : comp NV :=
  match file with None => inr E_errx | Some lines => cfold (fill_line type) lines tl end.

Definition npfctl_load_table (tname : string) (tid type : Z) (fname : option (option (list string))) : comp NV :=
  let tl := npf_table_create tname tid type in
  match fname with Some file => npfctl_fill_table tl type file | None => inl tl end.

(** The counter and the configuration. *)
Definition npfctl_build_table (counter : Z) (conf : nl_config (NV := NV)) (tname : string) (type : Z) (fname : option (option (list string))) :
    comp (Z * nl_config (NV := NV)) :=
  if (type =? NPF_TABLE_CONST) && negb (bool_decide (is_Some fname)) then inr E_yyerror else
  let! tl := npfctl_load_table tname counter type fname in
  let '(error, conf) := npf_table_insert garbage cdbw_output conf tl in
  if negb (error =? 0) then inr E_yyerror else inl (u32 (counter + 1), conf).

(** [snprintf] into [NPF_TABLE_MAXNAMELEN] bytes. *)
Definition ifnet_table_name (ifname : string) : string := String.substring 0 (NPF_TABLE_MAXNAMELEN - 1) (NPF_IFNET_TABLE_PREF +:+ ifname).

Definition npfctl_ifnet_table (v : var_sys) (counter : Z) (conf : option (nl_config (NV := NV))) (ifname : string) :
    comp (Z * var_sys * Z * option (nl_config (NV := NV))) :=
  let tname := ifnet_table_name ifname in
  match conf with
  | None => inr E_errx
  | Some c =>
      let! tid := npfctl_table_getid conf tname in
      let '(tid, counter, c) :=
        (if tid =? no_tid then (counter, u32 (counter + 1), (npf_table_insert garbage cdbw_output c (npf_table_create tname counter NPF_TABLE_IFADDR)).2)
         else (tid, counter, c)) in
      let! (p, v) := npfvar_create_element v (El_table tid) in
      inl (p, v, counter, Some c)
  end.

End tables.

(** ** What a list holds *)

Section views.
Context {NV : Type} {NO : nvlist_ops NV} {NA : nvlist_array_ops NV} {NL : nvlist_laws NV} {AL : nvlist_array_laws NV}.
Implicit Types (nv : NV).

(** The whole content of a list, but for arrays and booleans. *)
Record nv_view nv (nums : gmap string Z) (bins : gmap string (list Z)) (strs : gmap string string) : Prop := {
  vw_num : ∀ m, nv_number nv m = (λ x, u64 x) <$> nums !! m;
  vw_bin : ∀ m, dnvlist_get_binary nv m = bins !! m;
  vw_str : ∀ m, dnvlist_get_string nv m = strs !! m;
}.

Lemma view_create : nv_view nvlist_create ∅ ∅ ∅.
Proof. split; intros m; rewrite lookup_empty; apply nv_create_empty. Qed.

Lemma decide_insert {V} (mp : gmap string V) n m v : (if decide (m = n) then Some v else mp !! m) = <[n := v]> mp !! m.
Proof. case_decide as E; [subst; by rewrite lookup_insert_eq|by rewrite lookup_insert_ne]. Qed.

Lemma view_number nv nums bins strs n v : nv_view nv nums bins strs → nums !! n = None → nv_view (nvlist_add_number nv n v) (<[n := v]> nums) bins strs.
Proof.
  intros [H1 H2 H3] Hn. destruct (nv_add_number nv n v) as (E1 & E2 & E3); [by rewrite H1, Hn|].
  split; intros m; [rewrite E1, H1|by rewrite E3|by rewrite E2]. rewrite <- decide_insert. by case_decide.
Qed.

Lemma view_binary nv nums bins strs n v : nv_view nv nums bins strs → bins !! n = None → nv_view (nvlist_add_binary nv n v) nums (<[n := v]> bins) strs.
Proof.
  intros [H1 H2 H3] Hn. destruct (nv_add_binary nv n v) as (E1 & E2 & E3); [by rewrite H2, Hn|].
  split; intros m; [by rewrite E1|rewrite E3, H2; apply decide_insert|by rewrite E2].
Qed.

Lemma view_string nv nums bins strs n v : nv_view nv nums bins strs → strs !! n = None → nv_view (nvlist_add_string nv n v) nums bins (<[n := v]> strs).
Proof.
  intros [H1 H2 H3] Hn. destruct (nv_add_string nv n v) as (E1 & E2 & E3); [by rewrite H3, Hn|].
  split; intros m; [by rewrite E1|by rewrite E3|rewrite E2, H3; apply decide_insert].
Qed.

Lemma view_bool nv nums bins strs n b : nv_view nv nums bins strs → nv_view (nvlist_add_bool nv n b) nums bins strs.
Proof. intros [H1 H2 H3]. destruct (nv_add_bool nv n b) as (E & _ & _). split; intros m; destruct (E m) as (E1 & E2 & E3); rewrite ?E1, ?E2, ?E3; auto. Qed.

(** The list of a new policy. *)
Lemma view_nat_create type flags ifname : ∃ strs,
  nv_view (npf_nat_create type flags ifname)
    (<["flags" := flags]> (<["type" := type]> {["attr" := NPF_RULE_PASS ||| NPF_RULE_FINAL ||| (if type =? NPF_NATOUT then NPF_RULE_OUT else NPF_RULE_IN)]})) ∅ strs.
Proof.
  assert (∀ attr, ∃ strs, nv_view (npf_rule_create None attr ifname) {["attr" := attr]} ∅ strs) as Hr.
  { intros attr. pose proof (view_number _ _ _ _ "attr" attr view_create (lookup_empty _)) as V. unfold npf_rule_create.
    destruct ifname as [i|]; [|by exists ∅]. exists (<["ifname" := i]> ∅). by apply view_string. }
  destruct (Hr (NPF_RULE_PASS ||| NPF_RULE_FINAL ||| (if type =? NPF_NATOUT then NPF_RULE_OUT else NPF_RULE_IN))) as [strs V].
  exists strs. unfold npf_nat_create. apply view_bool. by repeat apply view_number.
Qed.

(** The code of the filter adds its own members only. *)
Lemma view_rule_code pcap v nv attr family popts fopts nv' nums bins strs : nv_view nv nums bins strs →
  nums !! "code-type"%string = None → bins !! "code"%string = None → bins !! "info"%string = None →
  rule_code pcap v nv attr family popts fopts None = inl nv' →
  ∃ nums' bins', nv_view nv' nums' bins' strs ∧ (∀ m, m ≠ "code-type"%string → nums' !! m = nums !! m) ∧
    (∀ m, m ≠ "code"%string → m ≠ "info"%string → bins' !! m = bins !! m).
Proof.
  intros V Hc Hb Hi Hr. unfold rule_code in Hr. apply cbind_inl in Hr as ([[any marks] code] & _ & Hr).
  set (nv1 := match marks with [] => nv | _ => Libnpf.npf_rule_setinfo nv (concat (NpfGroups.word_bytes <$> marks)) end) in Hr.
  assert (∃ bins1, nv_view nv1 nums bins1 strs ∧ bins1 !! "code"%string = None ∧ (∀ m, m ≠ "info"%string → bins1 !! m = bins !! m)) as (bins1 & V1 & Hb1 & Ho1).
  { unfold nv1. destruct marks as [|x marks]; [by exists bins|]. exists (<["info"%string := concat (NpfGroups.word_bytes <$> x :: marks)]> bins).
    split_and!; [by apply view_binary|by rewrite lookup_insert_ne|]. intros m Hm. by rewrite lookup_insert_ne. }
  destruct code as [prog|]; [|injection Hr as <-; exists nums, bins1; auto].
  unfold Libnpf.npf_rule_setcode in Hr. cbn [Z.eqb negb NPF_CODE_BPF Pos.eqb snd] in Hr. injection Hr as <-.
  eexists _, _. split; [eapply view_binary; [eapply view_number; [exact V1|exact Hc]|exact Hb1]|]. split; intros m; intros.
  - by rewrite lookup_insert_ne.
  - rewrite lookup_insert_ne by done. auto.
Qed.

End views.

(** ** Addresses as the kernel reads them *)

Lemma addr_of_bytes_of_addr a alen : addr_wf 4 a → alen = 16 ∨ alen = 4 ∧ drop 1 a = [0; 0; 0] →
  NpfNat.addr_of_bytes (NpfNat.bytes_of_addr a alen) = a.
Proof.
  intros [Hl Hw] Ha. unfold NpfNat.addr_of_bytes, NpfNat.bytes_of_addr.
  set (q := put_words (replicate 16 0) 0 a). assert (rd_words q 0 4 = a) as Hq.
  { pose proof (rd_words_put_words a (replicate 16 0) 0) as Hx. rewrite Hl in Hx. apply Hx; [lia|unfold blen; rewrite length_replicate; lia|done]. }
  assert (length q = 16%nat) as Hlq by (unfold q; by rewrite put_words_length, length_replicate).
  transitivity (rd_words q 0 4); [|exact Hq]. apply rd_words_ext. intros i Hi.
  destruct (Z.lt_ge_cases i alen) as [Hlt|Hge].
  - unfold rd8. rewrite lookup_app_l by (rewrite length_take; lia). by rewrite lookup_take_lt by lia.
  - destruct Ha as [->|[-> Hd]]; [lia|]. destruct a as [|w [|a1 [|a2 [|a3 []]]]]; try done. cbn in Hd. injection Hd as -> -> ->.
    unfold rd8. rewrite lookup_app_r by (rewrite length_take; lia). rewrite length_take, Hlq.
    replace (Z.to_nat i - Z.to_nat 4 `min` 16)%nat with (Z.to_nat (i - 4)) by lia.
    rewrite (lookup_replicate_2 16 0 (Z.to_nat (i - 4))) by lia. symmetry.
    assert (∃ j, (j < 12)%nat ∧ Z.to_nat i = (4 + j)%nat) as (j & Hj & ->) by (exists (Z.to_nat (i - 4)); lia).
    clear. unfold q. do 12 (destruct j as [|j]; [reflexivity|]). done.
Qed.

(** ** Policies *)

Definition fam_alen (am : fam_addr_mask) : Z := if fam_family am =? AF_INET then 4 else 16.

(** An address as the parser makes it. *)
Definition fam_ok (am : fam_addr_mask) : Prop :=
  addr_wf 4 (fam_addr am) ∧ (0 <= fam_mask am <= max_mask (fam_family am) ∨ fam_mask am = NPF_NO_NETMASK) ∧
  (fam_family am = AF_INET ∧ drop 1 (fam_addr am) = [0; 0; 0] ∨ fam_family am = AF_INET6).

(** The policy that a segment stands for: an address or network, or a table. *)
Definition nat_policy (type flags : Z) (tgt : fam_addr_mask + Z) (port algo adj : Z) : NpfNat.npf_natpolicy :=
  let aux := if algo =? NPF_ALGO_NPT66 then u16 adj else 0 in
  match tgt with
  | inl am => NpfNat.mk_np [] 1 0 type flags (fam_alen am) (fam_addr am) (fam_mask am) port 0 algo aux
  | inr tid => NpfNat.mk_np [] 1 0 type (flags ||| NpfNat.NPF_NAT_USETABLE) 0 (replicate 4 0) NPF_NO_NETMASK port tid algo aux
  end.

Section policies.
Context {NV : Type} {NO : nvlist_ops NV} {NA : nvlist_array_ops NV} {NL : nvlist_laws NV} {AL : nvlist_array_laws NV}.
Implicit Types (nv : NV).

(** The members for the target. *)
Definition target_view (nums : gmap string Z) (bins : gmap string (list Z)) (flags algo : Z) (tgt : fam_addr_mask + Z) : Prop :=
  match tgt with
  | inl am => nums !! "nat-table-id" = None ∧ nums !! "nat-mask" = Some (fam_mask am) ∧
      bins !! "nat-addr" = Some (NpfNat.bytes_of_addr (fam_addr am) (fam_alen am)) ∧ fam_ok am ∧
      (algo = NPF_ALGO_NPT66 ∨ algo = NPF_ALGO_NETMAP ∨ fam_mask am = NPF_NO_NETMASK)
  | inr tid => nums !! "nat-table-id" = Some tid ∧ inw 32 tid ∧ flag flags NPF_NAT_STATIC = false
  end%string.

Lemma small_flags f : 0 <= f < 8 → u32 (u64 f) &&& u32 (Z.lnot NpfNat.NPF_NAT_PRIVMASK) = f.
Proof.
  intros Hf. assert (f = 0 ∨ f = 1 ∨ f = 2 ∨ f = 3 ∨ f = 4 ∨ f = 5 ∨ f = 6 ∨ f = 7) as Hc by lia. destruct_or!; subst f; reflexivity.
Qed.

Lemma fam_ok_check am : fam_ok am →
  let b := NpfNat.bytes_of_addr (fam_addr am) (fam_alen am) in
  Z.of_nat (length b) = fam_alen am ∧ (fam_alen am = 4 ∨ fam_alen am = 16) ∧ NpfNat.addr_of_bytes b = fam_addr am ∧
  inw 8 (fam_mask am) ∧ npf_netmask_check (fam_alen am) (fam_mask am) = 0.
Proof.
  intros ([Hl Hw] & Hm & Hf). assert (fam_alen am = 4 ∨ fam_alen am = 16) as Ha by (unfold fam_alen; destruct (_ =? _); auto).
  cbv zeta. split_and!.
  - unfold NpfNat.bytes_of_addr. rewrite length_take, put_words_length, length_replicate. destruct Ha as [-> | ->]; lia.
  - done.
  - apply addr_of_bytes_of_addr; [done|]. destruct Hf as [[Hf Hd]|Hf]; unfold fam_alen; rewrite Hf; [right|left]; done.
  - unfold inw, max_mask, AF_INET, AF_INET6, NPF_MAX_NETMASK, NPF_NO_NETMASK in *. change (2 ^ 8) with 256. repeat case_match; lia.
  - unfold npf_netmask_check, fam_alen, max_mask in *. destruct Hf as [[Hf _]|Hf]; rewrite Hf in *; cbn in *; (destruct Hm as [Hm| ->]; [|done]);
      rewrite (proj2 (Z.ltb_ge _ _)) by lia; done.
Qed.

Lemma natpolicy_parse_view nv nums bins strs type flags tgt port algo adj : nv_view nv nums bins strs →
  type = NPF_NATIN ∨ type = NPF_NATOUT → 0 <= flags < 8 → inw 16 port → inw 32 algo →
  nums !! "type"%string = Some type → nums !! "flags"%string = Some flags → nums !! "nat-policy"%string = None →
  nums !! "nat-port"%string = Some port → default 0 (nums !! "nat-algo"%string) = algo →
  (algo = NPF_ALGO_NPT66 → nums !! "npt66-adj"%string = Some (u16 adj)) → target_view nums bins flags algo tgt →
  NpfNat.natpolicy_parse nv = Some (nat_policy type flags tgt port algo adj).
Proof.
  intros [V1 V2 _] Hty Hfl Hpt Hal Et Ef Ei Ep Ea Eadj Htg. unfold NpfNat.natpolicy_parse.
  rewrite (NatConfig.exists_number_eq nv "nat-table-id"), !NatConfig.get_number_eq, !V1, V2, Et, Ef, Ei, Ep. cbn [fmap option_fmap option_map default id].
  rewrite small_flags by done.
  assert (u32 (u64 type) = type) as -> by (by destruct Hty as [-> | ->]).
  assert (negb (xorb (type =? NPF_NATIN) (type =? NPF_NATOUT)) = false) as -> by (by destruct Hty as [-> | ->]).
  rewrite (NatConfig.u64_id 16), (wrap_small 16 port) by (done || lia).
  assert (u32 (default 0 ((λ x, u64 x) <$> nums !! "nat-algo"%string)) = algo) as ->.
  { destruct (nums !! "nat-algo"%string); cbn in *; subst; [|done]. by rewrite (NatConfig.u64_id 32), wrap_small by (done || lia). }
  assert (∀ tm, algo = NPF_ALGO_NPT66 ∨ algo = NPF_ALGO_NETMAP ∨ tm = NPF_NO_NETMASK →
    (if algo =? NPF_ALGO_NPT66 then Some (u16 (default 0 ((λ x, u64 x) <$> nums !! "npt66-adj"%string)))
     else if algo =? NPF_ALGO_NETMAP then Some 0 else if negb (tm =? NPF_NO_NETMASK) then None else Some 0)
    = Some (if algo =? NPF_ALGO_NPT66 then u16 adj else 0)) as Haux.
  { intros tm Hd. destruct (Z.eqb_spec algo NPF_ALGO_NPT66) as [->|Hn].
    - rewrite (Eadj eq_refl). cbn. rewrite (NatConfig.u64_id 16) by (try lia; apply wrap_range; lia). by rewrite wrap_wrap.
    - destruct (Z.eqb_spec algo NPF_ALGO_NETMAP); [done|]. destruct Hd as [?|[?| ->]]; done. }
  destruct tgt as [am|tid]; cbn [target_view] in Htg.
  - destruct Htg as (T1 & T2 & T3 & Hok & Hd). rewrite T1, T2, T3. cbn [fmap option_fmap option_map default id].
    rewrite bool_decide_eq_false_2 by (by intros []). destruct (fam_ok_check am Hok) as (L1 & L2 & L3 & L4 & L5). rewrite L1, L3.
    rewrite (NatConfig.u64_id 8), (wrap_small 8) by (done || lia). rewrite L5.
    destruct (_ || _) eqn:E; [destruct L2 as [L2|L2]; by rewrite L2 in E|]. cbn [Z.eqb negb mbind option_bind].
    pose proof (Haux (fam_mask am) Hd) as Hx. unfold mbind, option_bind in *. cbn [default id] in *. by rewrite Hx.
  - destruct Htg as (T1 & T2 & T3). rewrite T1. cbn [fmap option_fmap option_map default id]. rewrite bool_decide_eq_true_2 by eauto.
    rewrite T3. cbn [mbind option_bind]. rewrite (NatConfig.u64_id 32), (wrap_small 32 tid) by (done || lia).
    pose proof (Haux NPF_NO_NETMASK ltac:(auto)) as Hx. cbn [default id] in *. by rewrite Hx.
Qed.

End policies.

(** ** From the statement to the policies of the kernel *)

(** Variables with data as the parser makes it. *)
Definition maps_wf (v : var_sys) : Prop :=
  vars_wf v ∧ ∀ p var am, vs_vars v !! p = Some var → El_fam am ∈ v_elements var → fam_ok am.

(** What a segment gives: its single address or table, its single port, and
    the flags with the port forwarding. *)
Definition seg_spec (v : var_sys) (ap : addr_port) (flags : Z) (tgt : fam_addr_mask + Z) (port fl : Z) : Prop :=
  match tgt with
  | inl am => npfctl_get_singlefam v (ap_netaddr ap) = inl am
  | inr tid => npfvar_get_type v (ap_netaddr ap) 0 = inl NPFVAR_TABLE ∧ npfctl_get_singletable v (ap_netaddr ap) = inl tid
  end ∧
  match ap_portrange ap with
  | None => port = 0 ∧ fl = flags
  | Some _ => npfctl_get_singleport v (ap_portrange ap) = inl port ∧ fl = (flags &&& u32 (Z.lnot NPF_NAT_PORTMAP)) ||| NPF_NAT_PORTS
  end.

(** The algorithms that fit a target. *)
Definition algo_ok (algo flags : Z) (tgt : fam_addr_mask + Z) : Prop :=
  match tgt with
  | inl am => algo = NPF_ALGO_NPT66 ∨ algo = NPF_ALGO_NETMAP ∨ fam_mask am = NPF_NO_NETMASK
  | inr _ => flag flags NPF_NAT_STATIC = false
  end.

Lemma get_element_fam v p i am : (∀ p var am, vs_vars v !! p = Some var → El_fam am ∈ v_elements var → fam_ok am) →
  npfvar_get_element v (Some p) i = inl (Some (El_fam am)) → fam_ok am.
Proof.
  intros Hv He. destruct (get_element_sound _ _ _ _ _ He) as [path Hr]. remember (El_fam am) as el eqn:E. revert E. clear He.
  induction Hr as [p i var el Hp Hi _|]; [|done]. intros ->. eapply Hv; [exact Hp|by eapply list_elem_of_lookup_2].
Qed.

Lemma singlefam_ok v vp am : maps_wf v → npfctl_get_singlefam v vp = inl am → fam_ok am.
Proof.
  intros [_ Hv] Hg. unfold npfctl_get_singlefam in Hg. apply cbind_inl in Hg as (t & _ & Hg). destruct (negb _); [done|].
  apply cbind_inl in Hg as (n & _ & Hg). destruct (1 <? n); [done|]. apply cbind_inl in Hg as (el & Hd & Hg).
  destruct el; try done. injection Hg as <-. unfold npfvar_get_data in Hd. apply cbind_inl in Hd as ([e|] & He & Hd); [|done].
  destruct (negb _); [done|]. injection Hd as ->. destruct vp as [p|]; [by eapply get_element_fam|].
  unfold npfvar_get_element in He. by destruct (Z.to_nat _).
Qed.

Lemma singletable_ok v vp tid : maps_wf v → npfctl_get_singletable v vp = inl tid → inw 32 tid.
Proof.
  intros [Hv _] Hg. unfold npfctl_get_singletable in Hg. apply cbind_inl in Hg as (n & _ & Hg). destruct (1 <? n); [done|].
  apply cbind_inl in Hg as (el & Hd & Hg). apply (get_data_wf v Hv) in Hd. destruct el; try done. by injection Hg as <-.
Qed.

Lemma singleport_ok v vp port : maps_wf v → npfctl_get_singleport v vp = inl port → inw 16 port.
Proof.
  intros [Hv _] Hg. unfold npfctl_get_singleport in Hg. apply cbind_inl in Hg as (n & _ & Hg). destruct (1 <? n); [done|].
  apply cbind_inl in Hg as (el & Hd & Hg). apply (get_data_wf v Hv) in Hd. destruct el; try done.
  destruct (negb _); [done|]. injection Hg as <-. apply Hd.
Qed.

Lemma singlefam_type v vp am : npfctl_get_singlefam v vp = inl am → npfvar_get_type v vp 0 = inl NPFVAR_FAM.
Proof.
  unfold npfctl_get_singlefam. intros (t & Ht & Hg)%cbind_inl. destruct (Z.eqb_spec t NPFVAR_FAM) as [->|]; done.
Qed.

Lemma port_flags f : 0 <= f < 8 → 0 <= (f &&& u32 (Z.lnot NPF_NAT_PORTMAP)) ||| NPF_NAT_PORTS < 8 ∧
  flag ((f &&& u32 (Z.lnot NPF_NAT_PORTMAP)) ||| NPF_NAT_PORTS) NPF_NAT_STATIC = flag f NPF_NAT_STATIC.
Proof.
  intros Hf. assert (f = 0 ∨ f = 1 ∨ f = 2 ∨ f = 3 ∨ f = 4 ∨ f = 5 ∨ f = 6 ∨ f = 7) as Hc by lia.
  destruct_or!; subst f; (split; [split; [vm_compute; discriminate|vm_compute; reflexivity]|reflexivity]).
Qed.

Section natseg.
Context {NV : Type} {NO : nvlist_ops NV} {NA : nvlist_array_ops NV} {NL : nvlist_laws NV} {AL : nvlist_array_laws NV}.
Context (pcap : string → option (list bpf_insn)).
Implicit Types (nv : NV).

(** The members of a policy before the algorithm is set. *)
Record nat_fields (nums : gmap string Z) (bins : gmap string (list Z)) (type fl port : Z) (tgt : fam_addr_mask + Z) : Prop := {
  nf_type : nums !! "type"%string = Some type;
  nf_flags : nums !! "flags"%string = Some fl;
  nf_port : nums !! "nat-port"%string = Some port;
  nf_none : ∀ m, m ∈ ["nat-policy"; "nat-algo"; "npt66-adj"; "prio"]%string → nums !! m = None;
  nf_target : ∀ algo, algo_ok algo fl tgt → target_view nums bins fl algo tgt;
}.

Lemma npfctl_build_nat_fields v type ifname ap popts fopts flags nt : maps_wf v → 0 <= flags < 8 →
  npfctl_build_nat pcap v type ifname ap popts fopts flags = inl nt →
  ∃ tgt port fl nums bins strs, seg_spec v ap flags tgt port fl ∧ nv_view nt nums bins strs ∧ nat_fields nums bins type fl port tgt ∧
    inw 16 port ∧ 0 <= fl < 8 ∧ flag fl NPF_NAT_STATIC = flag flags NPF_NAT_STATIC.
Proof.
  intros Hv Hf Hb. unfold npfctl_build_nat in Hb. apply cbind_inl in Hb as ([port fl] & Hpf & Hb).
  assert (inw 16 port ∧ 0 <= fl < 8 ∧ flag fl NPF_NAT_STATIC = flag flags NPF_NAT_STATIC ∧
    match ap_portrange ap with None => port = 0 ∧ fl = flags | Some _ => npfctl_get_singleport v (ap_portrange ap) = inl port ∧
      fl = (flags &&& u32 (Z.lnot NPF_NAT_PORTMAP)) ||| NPF_NAT_PORTS end) as (Hport & Hfl & Hst & Hseg).
  { destruct (ap_portrange ap) as [r|]; [|injection Hpf as <- <-; split_and!; (done || lia)].
    apply cbind_inl in Hpf as (p & Hp & Hpf). injection Hpf as <- <-. destruct (port_flags flags Hf).
    split_and!; try done; try lia. by eapply singleport_ok. }
  apply cbind_inl in Hb as (t & Ht & Hb). apply cbind_inl in Hb as ([family nat] & Hn & Hb).
  destruct (view_nat_create type fl ifname) as (strs & V). set (nums0 := <["flags"%string := fl]> _) in V.
  assert (∃ tgt nums1 bins1, nv_view nat nums1 bins1 strs ∧
    match tgt with inl am => npfctl_get_singlefam v (ap_netaddr ap) = inl am
      | inr tid => npfvar_get_type v (ap_netaddr ap) 0 = inl NPFVAR_TABLE ∧ npfctl_get_singletable v (ap_netaddr ap) = inl tid end ∧
    (∀ algo, algo_ok algo fl tgt → target_view nums1 bins1 fl algo tgt) ∧
    (∀ m, m ≠ "nat-mask"%string → m ≠ "nat-table-id"%string → nums1 !! m = nums0 !! m) ∧
    (∀ m, m ≠ "nat-addr"%string → bins1 !! m = None)) as (tgt & nums1 & bins1 & V1 & Htg & Hview & Ho & Hbo).
  { destruct (Z.eqb_spec t NPFVAR_FAM) as [Et|_]; [|destruct (Z.eqb_spec t NPFVAR_TABLE) as [Et|_]; [|done]].
    - apply cbind_inl in Hn as (am & Ham & Hn). injection Hn as <- <-. pose proof (singlefam_ok v _ am Hv Ham) as Hok.
      exists (inl am), (<["nat-mask"%string := fam_mask am]> nums0), (<["nat-addr"%string := NpfNat.bytes_of_addr (fam_addr am) (fam_alen am)]> ∅).
      split; [|split; [done|split; [by (intros algo Hal; split_and!)|split; [intros m Hm _|intros m Hm]; by rewrite lookup_insert_ne]]].
      unfold npf_nat_setaddr, Libnpf._npf_add_addr, fam_alen. destruct Hok as (_ & _ & [[Hfam _]|Hfam]); rewrite Hfam; cbn [Z.eqb Pos.eqb AF_INET AF_INET6];
        (apply view_number; [by apply view_binary|done]).
    - apply cbind_inl in Hn as (tid & Htid & Hn). injection Hn as <- <-. pose proof (singletable_ok v _ tid Hv Htid) as Hok.
      exists (inr tid), (<["nat-table-id"%string := tid]> nums0), ∅.
      split; [by apply view_number|]. split; [by subst t|]. split; [by (intros algo Hal; split_and!)|]. split; [intros m _ Hm; by rewrite lookup_insert_ne|done]. }
  pose proof (view_number nat nums1 bins1 strs "nat-port" port V1 ltac:(by rewrite Ho)) as V2.
  apply (view_rule_code pcap v _ _ _ _ _ nt _ _ _ V2) in Hb as (nums & bins & V3 & Hno & Hbi);
    [|by rewrite lookup_insert_ne, Ho by done|by apply Hbo|by apply Hbo].
  assert (∀ m, m ≠ "code-type"%string → m ≠ "nat-port"%string → nums !! m = nums1 !! m) as Hnums by (intros m H1 H2; by rewrite Hno, lookup_insert_ne by done).
  exists tgt, port, fl, nums, bins, strs. split_and!; try done; try lia. split.
  - by rewrite Hnums, Ho.
  - by rewrite Hnums, Ho.
  - by rewrite Hno, lookup_insert_eq.
  - intros m Hm. set_unfold in Hm. destruct_or!; subst m; by rewrite Hnums, Ho.
  - intros algo Hal. specialize (Hview algo Hal). destruct tgt as [am|tid]; cbn [target_view] in *; rewrite ?Hnums, ?Hbi by done; exact Hview.
Qed.

(** The policy after the algorithm and the priority are set. *)
Lemma set_algo_parse nt nums bins strs type fl port tgt algo adj pri : nv_view nt nums bins strs → nat_fields nums bins type fl port tgt →
  type = NPF_NATIN ∨ type = NPF_NATOUT → 0 <= fl < 8 → inw 16 port → inw 32 algo → algo_ok algo fl tgt →
  NpfNat.natpolicy_parse (npf_rule_setprio (set_algo algo adj nt) pri) = Some (nat_policy type fl tgt port algo adj).
Proof.
  intros V [F1 F2 F3 F4 F5] Hty Hfl Hp Hal Hok. specialize (F5 algo Hok).
  assert (nums !! "nat-algo"%string = None) as Ha by (apply F4; set_solver). assert (nums !! "npt66-adj"%string = None) as Hj by (apply F4; set_solver).
  set (nums1 := if algo =? NPF_ALGO_NONE then nums else if algo =? NPF_ALGO_NPT66 then <["npt66-adj"%string := u16 adj]> (<["nat-algo"%string := NPF_ALGO_NPT66]> nums)
    else <["nat-algo"%string := algo]> nums).
  assert (nv_view (set_algo algo adj nt) nums1 bins strs) as V1.
  { unfold set_algo, nums1. destruct (algo =? NPF_ALGO_NONE); [done|]. destruct (algo =? NPF_ALGO_NPT66).
    - apply view_number; [by apply view_number|by rewrite lookup_insert_ne].
    - by apply view_number. }
  assert (∀ m, m ≠ "nat-algo"%string → m ≠ "npt66-adj"%string → nums1 !! m = nums !! m) as Ho.
  { intros m H1 H2. unfold nums1. repeat case_match; by rewrite ?lookup_insert_ne by done. }
  apply (view_number _ _ _ _ "prio" (u64 pri)) in V1 as V2; [|rewrite Ho by done; apply F4; set_solver].
  eapply natpolicy_parse_view; try exact V2; try done; rewrite ?lookup_insert_ne by done; rewrite ?Ho by done; try done.
  - apply F4. set_solver.
  - unfold nums1. destruct (Z.eqb_spec algo NPF_ALGO_NONE) as [->|]; [by rewrite Ha|].
    destruct (Z.eqb_spec algo NPF_ALGO_NPT66) as [->|]; [by rewrite lookup_insert_ne, lookup_insert_eq|by rewrite lookup_insert_eq].
  - intros ->. unfold nums1. cbn [Z.eqb Pos.eqb NPF_ALGO_NPT66 NPF_ALGO_NONE]. by rewrite lookup_insert_eq.
  - destruct tgt as [am|tid]; cbn [target_view] in *; rewrite ?lookup_insert_ne by done; rewrite ?Ho by done; exact F5.
Qed.

End natseg.

(** ** The statement *)

(** The policies of a statement: direction, segment, adjustment. *)
Definition natseg_dirs (type : Z) (ap1 ap2 : addr_port) (adj : Z) : list (Z * addr_port * Z) :=
  (if flag type NPF_NATIN then [(NPF_NATIN, ap1, Z.lnot adj)] else []) ++ (if flag type NPF_NATOUT then [(NPF_NATOUT, ap2, adj)] else []).

Definition natseg_flags (mflags flags : Z) : Z :=
  if flag mflags NPF_NAT_PORTS then flags &&& u32 (Z.lnot (NPF_NAT_PORTS ||| NPF_NAT_PORTMAP)) else flags.

Lemma natseg_flags_ok mflags flags : flags ∈ [0; NPF_NAT_PORTS ||| NPF_NAT_PORTMAP; NPF_NAT_STATIC] →
  0 <= natseg_flags mflags flags < 8 ∧ flag (natseg_flags mflags flags) NPF_NAT_STATIC = flag flags NPF_NAT_STATIC.
Proof.
  unfold natseg_flags. rewrite !elem_of_cons, elem_of_nil. intros [-> |[-> |[-> |[]]]]; case_if; (split; [split; [vm_compute; discriminate|vm_compute; reflexivity]|reflexivity]).
Qed.

Lemma natseg_dirs_elem type ap1 ap2 adj ty ap a : (ty, ap, a) ∈ natseg_dirs type ap1 ap2 adj →
  (flag type NPF_NATIN = true ∧ ty = NPF_NATIN ∧ ap = ap1) ∨ (flag type NPF_NATOUT = true ∧ ty = NPF_NATOUT ∧ ap = ap2).
Proof. unfold natseg_dirs. destruct (flag type NPF_NATIN), (flag type NPF_NATOUT); set_unfold; naive_solver. Qed.

(** A target of a dynamic mapping that passed the check. *)
Lemma npfctl_dnat_check_ok v ap algo u am : npfctl_dnat_check v ap algo = inl u → npfctl_get_singlefam v (ap_netaddr ap) = inl am →
  algo = NPF_ALGO_NETMAP ∨ fam_mask am = NPF_NO_NETMASK.
Proof.
  intros Hd Ham. unfold npfctl_dnat_check in Hd. rewrite (singlefam_type _ _ _ Ham) in Hd. cbn [cbind] in Hd.
  destruct (Z.eqb_spec algo NPF_ALGO_NETMAP) as [->|Hn]; [by left|]. destruct (_ || _ || _); [|done].
  cbn [Z.eqb Pos.eqb negb NPFVAR_FAM] in Hd. rewrite Ham in Hd. cbn [cbind] in Hd.
  destruct (Z.eqb_spec (fam_mask am) NPF_NO_NETMASK); [by right|done].
Qed.

(** The targets of a static mapping that passed the check. *)
Lemma static_check_ok binat am1 am2 algo adj : static_check binat am1 am2 algo = inl adj →
  ∀ am, am1 = Some am ∨ am2 = Some am → algo = NPF_ALGO_NPT66 ∨ algo = NPF_ALGO_NETMAP ∨ fam_mask am = NPF_NO_NETMASK.
Proof.
  intros Hc am Ham. unfold static_check in Hc. destruct (Z.eqb_spec algo NPF_ALGO_NPT66); [by left|].
  destruct (Z.eqb_spec algo NPF_ALGO_NETMAP); [by right; left|]. destruct (algo =? NPF_ALGO_NONE); [|done]. right; right.
  destruct (_ || _) eqn:E; [done|]. apply orb_false_iff in E as [E1%bool_decide_eq_false_1%dec_stable E2%bool_decide_eq_false_1%dec_stable].
  destruct Ham as [-> | ->]; done.
Qed.

Lemma cwhen_true {A} c (m : comp A) r : cwhen c m = inl r → c = true → ∃ a, m = inl a ∧ r = Some a.
Proof. intros Hw ->. unfold cwhen in Hw. apply cbind_inl in Hw as (a & Ha & [= <-]). eauto. Qed.

(** The checks of the statement leave algorithms that fit the targets. *)
Lemma natseg_check_ok v sd type ap1 ap2 algo flags adj : natseg_check v sd type ap1 ap2 algo = inl (flags, adj) →
  flags ∈ [0; NPF_NAT_PORTS ||| NPF_NAT_PORTMAP; NPF_NAT_STATIC] ∧
  (∀ ty ap a tgt port fl fl', (ty, ap, a) ∈ natseg_dirs type ap1 ap2 adj → seg_spec v ap fl' tgt port fl →
    flag fl NPF_NAT_STATIC = flag flags NPF_NAT_STATIC → algo_ok algo fl tgt).
Proof.
  intros Hc. unfold natseg_check in Hc. destruct (sd =? NPFCTL_NAT_DYNAMIC).
  - apply cbind_inl in Hc as (o1 & H1 & Hc). apply cbind_inl in Hc as (o2 & H2 & Hc). injection Hc as <- <-.
    split; [case_if; rewrite !elem_of_cons; auto|]. intros ty ap a tgt port fl fl' Hin [Hseg _] Hst.
    destruct tgt as [am|tid]; cbn [algo_ok]; [right|rewrite Hst; by case_if].
    apply natseg_dirs_elem in Hin as [(Hf & _ & ->)|(Hf & _ & ->)].
    + apply cwhen_true in H1 as (u & Hu & _); [|done]. by eapply npfctl_dnat_check_ok.
    + apply cwhen_true in H2 as (u & Hu & _); [|done]. by eapply npfctl_dnat_check_ok.
  - destruct (sd =? NPFCTL_NAT_STATIC); [|done]. apply cbind_inl in Hc as (am1 & H1 & Hc). apply cbind_inl in Hc as (am2 & H2 & Hc).
    apply cbind_inl in Hc as (adj' & Hs & Hc). injection Hc as <- <-. split; [rewrite !elem_of_cons; auto|].
    intros ty ap a tgt port fl fl' Hin [Hseg _] _. pose proof (static_check_ok _ _ _ _ _ Hs) as Hok.
    apply natseg_dirs_elem in Hin as [(Hf & _ & ->)|(Hf & _ & ->)].
    + apply cwhen_true in H1 as (am & Hu & ->); [|done]. destruct tgt as [am'|tid]; cbn [algo_ok].
      * rewrite Hu in Hseg. injection Hseg as <-. apply Hok. by left.
      * destruct Hseg as [Hty _]. rewrite (singlefam_type _ _ _ Hu) in Hty. done.
    + apply cwhen_true in H2 as (am & Hu & ->); [|done]. destruct tgt as [am'|tid]; cbn [algo_ok].
      * rewrite Hu in Hseg. injection Hseg as <-. apply Hok. by right.
      * destruct Hseg as [Hty _]. rewrite (singlefam_type _ _ _ Hu) in Hty. done.
Qed.

Section statement.
Context {NV : Type} {NO : nvlist_ops NV} {NA : nvlist_array_ops NV} {NL : nvlist_laws NV} {AL : nvlist_array_laws NV}.
Context (pcap : string → option (list bpf_insn)).

(** A policy of the statement: the kernel creates it from the list. *)
Definition seg_policy (v : var_sys) (flags algo : Z) (d : Z * addr_port * Z) (nt : NV) : Prop :=
  let '(ty, ap, a) := d in ∃ tgt port fl, seg_spec v ap flags tgt port fl ∧ NpfNat.natpolicy_parse nt = Some (nat_policy ty fl tgt port algo a).

(** The policies to insert. *)
Definition policies_of (nts : option NV * option NV) : list NV :=
  (λ nt, npf_rule_setprio nt NPF_PRI_LAST) <$> (option_list nts.1 ++ option_list nts.2).

Lemma natseg_policies_ok v sd type mflags ifname ap1 ap2 popts fopts algo nts : maps_wf v → inw 32 algo →
  natseg_policies pcap v sd type mflags ifname ap1 ap2 popts fopts algo = inl nts →
  ∃ flags adj, natseg_check v sd type ap1 ap2 algo = inl (flags, adj) ∧
    Forall2 (seg_policy v (natseg_flags mflags flags) algo) (natseg_dirs type ap1 ap2 adj) (policies_of nts).
Proof.
  intros Hv Hal Hb. unfold natseg_policies in Hb. destruct (_ && _); [done|]. destruct (_ && _); [done|].
  apply cbind_inl in Hb as ([flags adj] & Hc & Hb). fold (natseg_flags mflags flags) in Hb.
  apply cbind_inl in Hb as (nt1 & H1 & Hb). apply cbind_inl in Hb as (nt2 & H2 & Hb). apply cbind_inl in Hb as (u & _ & Hb). injection Hb as <-.
  exists flags, adj. split; [done|]. destruct (natseg_check_ok _ _ _ _ _ _ _ _ Hc) as [Hfl Hok].
  destruct (natseg_flags_ok mflags flags Hfl) as [Hf Hst]. set (fl0 := natseg_flags mflags flags) in *.
  assert (∀ ty ap a fo nt, (ty, ap, a) ∈ natseg_dirs type ap1 ap2 adj → ty = NPF_NATIN ∨ ty = NPF_NATOUT →
    npfctl_build_nat pcap v ty (Some ifname) ap popts fo fl0 = inl nt →
    seg_policy v fl0 algo (ty, ap, a) (npf_rule_setprio (set_algo algo a nt) NPF_PRI_LAST)) as Hone.
  { intros ty ap a fo nt Hin Hty Hn. destruct (npfctl_build_nat_fields pcap v ty _ ap popts fo fl0 nt Hv Hf Hn)
      as (tgt & port & fl & nums & bins & strs & Hs & V & F & Hp & Hfl' & Hst'). exists tgt, port, fl. split; [done|].
    eapply set_algo_parse; try done. eapply Hok; [exact Hin|exact Hs|congruence]. }
  unfold policies_of, natseg_dirs in *. cbn [fst snd].
  assert (∀ ty ap a fo nt c, (c = true → (ty, ap, a) ∈ natseg_dirs type ap1 ap2 adj) → ty = NPF_NATIN ∨ ty = NPF_NATOUT →
    cwhen c (npfctl_build_nat pcap v ty (Some ifname) ap popts fo fl0) = inl nt →
    Forall2 (seg_policy v fl0 algo) (if c then [(ty, ap, a)] else [])
      ((λ nt, npf_rule_setprio nt NPF_PRI_LAST) <$> option_list (set_algo algo a <$> nt))) as Hpart.
  { intros ty ap a fo nt c Hin Hty Hw. destruct c; cbn [cwhen] in Hw; [|injection Hw as <-; constructor].
    apply cbind_inl in Hw as (n & Hn & [= <-]). cbn. constructor; [|constructor]. by eapply Hone; [apply Hin|..]. }
  rewrite fmap_app. apply Forall2_app; [eapply Hpart; [|by left|exact H1]|eapply Hpart; [|by right|exact H2]];
    unfold natseg_dirs; intros ->; set_solver.
Qed.

Lemma insert_nat_array nt (conf : nl_config (NV := NV)) :
  default [] (nvlist_get_nvlist_array (ncf_dict (insert_nat nt conf)) "nat") =
    default [] (nvlist_get_nvlist_array (ncf_dict conf) "nat") ++ ((λ nt, npf_rule_setprio nt NPF_PRI_LAST) <$> option_list nt).
Proof.
  destruct nt as [nt|]; cbn [insert_nat option_list fmap list_fmap]; [|by rewrite app_nil_r].
  unfold npf_nat_insert, Libnpf.set_dict. cbn [ncf_dict]. destruct (nv_append (ncf_dict conf) "nat" (npf_rule_setprio nt NPF_PRI_LAST)) as (_ & E & _).
  rewrite E. by rewrite decide_True by done.
Qed.

(** C30: A [map] statement that npfctl accepts becomes exactly its policies in
    the kernel.  Every list that [npfctl_build_natseg] adds to the
    configuration is accepted by [npf_natpolicy_create], in order: an inbound
    policy with the first segment and an outbound one with the second, as the
    direction of the statement says.  The policy read back has the single
    address, mask or table of its segment, its single port, the flags of the
    kind of mapping, the algorithm, and for NPTv6 the adjustment (complemented
    inbound). *)
Theorem natseg_accepted v s sd type mflags ifname ap1 ap2 popts fopts algo s' conf : maps_wf v → inw 32 algo → b_conf s = Some conf →
  npfctl_build_natseg (NV := NV) pcap v s sd type mflags ifname ap1 ap2 popts fopts algo = inl s' →
  ∃ conf' nts flags adj, b_conf s' = Some conf' ∧ natseg_check v sd type ap1 ap2 algo = inl (flags, adj) ∧
    default [] (nvlist_get_nvlist_array (ncf_dict conf') "nat") = default [] (nvlist_get_nvlist_array (ncf_dict conf) "nat") ++ nts ∧
    Forall2 (seg_policy v (natseg_flags mflags flags) algo) (natseg_dirs type ap1 ap2 adj) nts.
Proof.
  intros Hv Hal Hconf Hb. unfold npfctl_build_natseg in Hb. apply cbind_inl in Hb as ([nt1 nt2] & Hp & Hb). rewrite Hconf in Hb. injection Hb as <-.
  destruct (natseg_policies_ok _ _ _ _ _ _ _ _ _ _ _ Hv Hal Hp) as (flags & adj & Hc & Hall).
  eexists _, _, flags, adj. split; [reflexivity|]. split; [exact Hc|]. split; [|exact Hall].
  rewrite !insert_nat_array, <- app_assoc. unfold policies_of. by rewrite fmap_app.
Qed.

End statement.

(** ** Table identifiers *)

Section table_ids.
Context {NV : Type} {NO : nvlist_ops NV} {NA : nvlist_array_ops NV} {NL : nvlist_laws NV} {AL : nvlist_array_laws NV}.
Context (N : netdb) (garbage : Z → list Z) (cdbw_output : list (list Z) → Z + Z).
Implicit Types (tl : NV) (conf : nl_config (NV := NV)).

(** The tables are numbered in order and have distinct names. *)
Record tables_ok (counter : Z) (conf : nl_config (NV := NV)) : Prop := {
  to_count : counter = Z.of_nat (length (table_list conf));
  to_id : ∀ i tl, table_list conf !! i = Some tl → npf_table_getid tl = Z.of_nat i;
  to_name : ∀ tl, tl ∈ table_list conf → is_Some (npf_table_getname tl);
  to_nodup : NoDup (npf_table_getname <$> table_list conf);
}.

(** A table under construction. *)
Definition is_table (tl : NV) (name : string) (id : Z) : Prop :=
  nv_number tl "id" = Some id ∧ dnvlist_get_string tl "name" = Some name ∧ dnvlist_get_binary tl "data" = None.

Lemma same_table tl tl' name id : same_scalars tl tl' → is_table tl name id → is_table tl' name id.
Proof. intros Hs (H1 & H2 & H3). destruct (Hs "id"%string) as (E1 & _ & _), (Hs "name"%string) as (_ & E2 & _), (Hs "data"%string) as (_ & _ & E3). split_and!; congruence. Qed.

Lemma create_table name id type : inw 32 id → is_table (npf_table_create (NV := NV) name id type) name id.
Proof.
  intros Hi. pose proof (view_string _ _ _ _ "name" name (view_create (NV := NV)) (lookup_empty _)) as V.
  apply (view_number _ _ _ _ "id" id) in V; [|done]. apply (view_number _ _ _ _ "type" (u64 type)) in V as [V1 V2 V3]; [|done].
  unfold npf_table_create. split_and!; [rewrite V1|by rewrite V3|by rewrite V2].
  rewrite lookup_insert_ne, lookup_insert_eq by done. cbn [fmap option_fmap option_map]. by rewrite (NatConfig.u64_id 32) by (done || lia).
Qed.

Lemma create_table_type name id type : dnvlist_get_number (npf_table_create (NV := NV) name id type) "type" 0 = u64 type.
Proof.
  pose proof (view_string _ _ _ _ "name" name (view_create (NV := NV)) (lookup_empty _)) as V.
  apply (view_number _ _ _ _ "id" id) in V; [|done]. apply (view_number _ _ _ _ "type" (u64 type)) in V as [V1 _ _]; [|done].
  rewrite NatConfig.get_number_eq. unfold npf_table_create, Libnpf.npf_table_create in *. rewrite V1, lookup_insert_eq. cbn. by rewrite wrap_wrap.
Qed.

Lemma fill_line_table type tl buf tl' name id : is_table tl name id → fill_line N type tl buf = inl tl' → is_table tl' name id.
Proof.
  intros Ht Hf. unfold fill_line in Hf. destruct (match buf with EmptyString => _ | _ => _ end); [by injection Hf as <-|].
  apply cbind_inl in Hf as ([[fam alen]|] & _ & Hf); [|done]. destruct (_ && _); [done|]. injection Hf as <-.
  unfold npf_table_add_entry. destruct (Libnpf._npf_add_addr _ _ _ _) as [e|]; [|done]. cbn [snd].
  eapply same_table; [|exact Ht]. apply (nv_append tl).
Qed.

Lemma load_table name id type fname tl : inw 32 id → npfctl_load_table N name id type fname = inl tl → is_table tl name id.
Proof.
  intros Hi Hl. unfold npfctl_load_table in Hl. pose proof (create_table name id type Hi) as Ht.
  destruct fname as [file|]; [|by injection Hl as <-]. unfold npfctl_fill_table in Hl. destruct file as [lines|]; [|done].
  revert Hl Ht. generalize (npf_table_create (NV := NV) name id type). induction lines as [|b lines IH]; intros t Hl Ht; cbn [cfold] in Hl; [by injection Hl as <-|].
  apply cbind_inl in Hl as (t' & Hf & Hl). eapply IH; [exact Hl|]. by eapply fill_line_table.
Qed.

Lemma table_scan_name conf name : (∀ tl, tl ∈ table_list conf → is_Some (npf_table_getname tl)) →
  npfctl_table_getbyname (Some conf) name = inl (find (λ tl, bool_decide (npf_table_getname tl = Some name)) (table_list conf)).
Proof.
  unfold npfctl_table_getbyname. induction (table_list conf) as [|tl l IH]; intros Hn; cbn [table_scan find]; [done|].
  destruct (Hn tl (list_elem_of_here _ _)) as [n Hx]. rewrite Hx. cbn [cbind]. rewrite (bool_decide_ext (Some n = Some name) (n = name)) by naive_solver.
  case_bool_decide; [done|]. apply IH. intros t Ht. apply Hn. by right.
Qed.

Lemma dataset_lookup_false conf name : Libnpf._npf_dataset_lookup (ncf_dict conf) "tables" "name" name = false → Some name ∉ npf_table_getname <$> table_list conf.
Proof.
  unfold Libnpf._npf_dataset_lookup, table_list. destruct (nvlist_get_nvlist_array _ _) as [l|]; [|intros _ []%elem_of_nil]. cbn [default id].
  intros He (tl & Hn & Hin)%list_elem_of_fmap. apply list_elem_of_In in Hin.
  assert (existsb (Libnpf.has_name "name" name) l = true) as Ht; [|congruence]. apply existsb_exists. exists tl. split; [done|].
  unfold Libnpf.has_name. unfold npf_table_getname, Libnpf.npf_table_getname in Hn. rewrite <- Hn. by rewrite bool_decide_eq_true_2.
Qed.

(** An insertion that succeeds appends the table. *)
Lemma insert_table conf tl name counter conf' : tables_ok counter conf → is_table tl name counter → inw 32 counter →
  npf_table_insert garbage cdbw_output conf tl = (0, conf') →
  tables_ok (counter + 1) conf' ∧ ∃ tl', table_list conf' = table_list conf ++ [tl'] ∧ npf_table_getname tl' = Some name.
Proof.
  intros [T1 T2 T3 T4] Ht Hc Hi. pose proof Ht as (I1 & I2 & I3). unfold npf_table_insert, Libnpf.npf_table_insert in Hi. rewrite I2 in Hi.
  destruct (Libnpf._npf_dataset_lookup _ _ _ _) eqn:El; [done|]. apply dataset_lookup_false in El.
  destruct (Libnpf._npf_table_build_const garbage cdbw_output tl) as [error tl'] eqn:Eb. destruct (negb (error =? 0)) eqn:Ee; [injection Hi as -> ->; done|].
  injection Hi as <-.
  assert (nv_number tl' "id" = Some counter ∧ dnvlist_get_string tl' "name" = Some name) as [J1 J2].
  { unfold Libnpf._npf_table_build_const in Eb. destruct (negb _); [by injection Eb as <- <-|]. destruct (nvlist_get_nvlist_array tl "entries"); [|by injection Eb as <- <-].
    destruct (mapM _ _) as [addrs|]; [|by injection Eb as <- <-]. destruct (cdbw_output addrs) as [len|err]; [|by injection Eb as <- <-].
    injection Eb as <- <-. destruct (nv_add_binary tl "data" (garbage len) I3) as (E1 & E2 & _). by rewrite E1, E2. }
  assert (npf_table_getid tl' = counter) as Hid.
  { unfold npf_table_getid, Libnpf.npf_table_getid. rewrite NatConfig.get_number_eq, J1. cbn. by apply wrap_small. }
  assert (table_list (Libnpf.set_dict conf (nvlist_append_nvlist_array (ncf_dict conf) "tables" tl')) = table_list conf ++ [tl']) as Hl.
  { unfold table_list, Libnpf.set_dict. cbn [ncf_dict]. destruct (nv_append (ncf_dict conf) "tables" tl') as (_ & E & _). rewrite E. by rewrite decide_True. }
  split; [|by exists tl']. split; rewrite Hl.
  - rewrite length_app. cbn. lia.
  - intros i t [Hi|[Hi Ht']]%lookup_app_Some; [eauto|]. destruct (i - length (table_list conf))%nat as [|k] eqn:Ek; [|done].
    injection Ht' as <-. rewrite Hid. lia.
  - intros t [Hin| ->%list_elem_of_singleton]%elem_of_app; [auto|]. by exists name.
  - rewrite fmap_app. apply NoDup_app. split; [done|]. split; [|apply NoDup_singleton].
    intros x Hx ->%list_elem_of_singleton. apply El. unfold npf_table_getname at 1, Libnpf.npf_table_getname in Hx. by rewrite J2 in Hx.
Qed.

Lemma find_last {A} (f : A → bool) l x : (∀ y, y ∈ l → f y = false) → f x = true → find f (l ++ [x]) = Some x.
Proof. induction l as [|y l IH]; intros Hn Hx; cbn; [by rewrite Hx|]. rewrite (Hn y) by left. apply IH; [|done]. intros z Hz. apply Hn. by right. Qed.

(** The insertion of a table that is not found by its name does not fail. *)
Lemma ifnet_insert conf name counter error conf' : inw 32 counter →
  find (λ tl, bool_decide (npf_table_getname tl = Some name)) (table_list conf) = None →
  npf_table_insert garbage cdbw_output conf (npf_table_create name counter NPF_TABLE_IFADDR) = (error, conf') → error = 0.
Proof.
  intros Hc Ef Ei. unfold npf_table_insert, Libnpf.npf_table_insert in Ei. destruct (create_table name counter NPF_TABLE_IFADDR Hc) as (I1 & I2 & I3). rewrite I2 in Ei.
  destruct (Libnpf._npf_dataset_lookup _ _ _ _) eqn:El; [exfalso|].
  - unfold Libnpf._npf_dataset_lookup in El. unfold table_list in Ef. destruct (nvlist_get_nvlist_array _ _) as [l|]; [|done]. cbn [default id] in Ef.
    apply existsb_exists in El as (t & Hin & Hh). apply (find_none _ _ Ef) in Hin. unfold Libnpf.has_name in Hh. unfold npf_table_getname, Libnpf.npf_table_getname in Hin.
    destruct (dnvlist_get_string t "name") as [n|]; [|done]. apply bool_decide_eq_true in Hh as ->. by rewrite bool_decide_eq_true_2 in Hin.
  - unfold Libnpf._npf_table_build_const in Ei. rewrite (create_table_type name) in Ei. by injection Ei as <- _.
Qed.

(** The number found under a name is the position of the table in the list. *)
Lemma getid_find counter conf name : tables_ok counter conf →
  npfctl_table_getid (Some conf) name =
    inl (match find (λ tl, bool_decide (npf_table_getname tl = Some name)) (table_list conf) with Some tl => npf_table_getid tl | None => no_tid end).
Proof. intros Hok. unfold npfctl_table_getid. rewrite table_scan_name by apply (to_name _ _ Hok). done. Qed.

Lemma getid_some counter conf name tl : tables_ok counter conf → counter < 2 ^ 32 - 1 →
  find (λ tl, bool_decide (npf_table_getname tl = Some name)) (table_list conf) = Some tl →
  0 <= npf_table_getid tl < counter ∧ npf_table_getid tl ≠ no_tid.
Proof.
  intros Hok Hc [Hin _]%find_some. apply list_elem_of_In, list_elem_of_lookup in Hin as [i Hi].
  pose proof (lookup_lt_Some _ _ _ Hi). rewrite (to_id _ _ Hok i tl Hi). pose proof (to_count _ _ Hok). unfold no_tid. lia.
Qed.

Lemma find_app_l {A} (f : A → bool) l k x : find f l = Some x → find f (l ++ k) = Some x.
Proof. induction l as [|y l IH]; cbn; [done|]. by destruct (f y). Qed.

(** The tables found before are found with the same numbers. *)
Definition numbers_kept conf conf' : Prop :=
  ∀ name tid, npfctl_table_getid (Some conf) name = inl tid → tid ≠ no_tid → npfctl_table_getid (Some conf') name = inl tid.

(** The appended table gets the next number, the others keep theirs. *)
Lemma insert_table_id conf tl name counter conf' : tables_ok counter conf → is_table tl name counter → inw 32 counter →
  npf_table_insert garbage cdbw_output conf tl = (0, conf') →
  tables_ok (counter + 1) conf' ∧ npfctl_table_getid (Some conf') name = inl counter ∧ numbers_kept conf conf'.
Proof.
  intros Hok Ht Hcw Hi. destruct (insert_table _ _ _ _ _ Hok Ht Hcw Hi) as (Hok' & tl' & Hl & Hn). split; [done|]. split.
  - rewrite (getid_find _ _ _ Hok'), Hl. rewrite find_last; [|intros y Hy; apply bool_decide_eq_false_2|by rewrite bool_decide_eq_true_2].
    + f_equal. rewrite (to_id _ _ Hok' (length (table_list conf)) tl') by (rewrite Hl; by apply list_lookup_middle). by rewrite (to_count _ _ Hok).
    + intros Hy'. pose proof (to_nodup _ _ Hok') as Hd. rewrite Hl, fmap_app in Hd. apply NoDup_app in Hd as (_ & Hd & _).
      apply (Hd (Some name)); [apply list_elem_of_fmap; by exists y|]. cbn. rewrite Hn. by left.
  - intros n tid. rewrite (getid_find _ _ _ Hok), (getid_find _ _ _ Hok'), Hl. destruct (find _ (table_list conf)) as [t|] eqn:Ef; [|by intros [= <-]].
    by rewrite (find_app_l _ _ _ _ Ef).
Qed.

(** The reference that is returned: a new variable with the table number. *)
Lemma create_element_table v tid : ∃ p v', npfvar_create_element v (El_table tid) = inl (p, v') ∧ vs_vars v' !! p = Some (mk_var None [El_table tid] 1).
Proof.
  unfold npfvar_create_element, npfvar_create, npfvar_add_element, var_get. cbn [vs_vars]. rewrite lookup_insert_eq. cbn [cbind].
  eexists _, _. split; [reflexivity|]. cbn [set_vars vs_vars]. by rewrite lookup_insert_eq.
Qed.

(** A reference to a table that exists makes no table. *)
Lemma ifnet_table_found v counter conf ifname tid : npfctl_table_getid (Some conf) (ifnet_table_name ifname) = inl tid → tid ≠ no_tid →
  ∃ p v', npfctl_ifnet_table garbage cdbw_output v counter (Some conf) ifname = inl (p, v', counter, Some conf) ∧
    vs_vars v' !! p = Some (mk_var None [El_table tid] 1).
Proof.
  intros Hg Hne. destruct (create_element_table v tid) as (p & v' & Hc & Hv). exists p, v'. split; [|done].
  unfold npfctl_ifnet_table. rewrite Hg. cbn [cbind]. rewrite (proj2 (Z.eqb_neq _ _) Hne), Hc. done.
Qed.

(** C32: Tables get the numbers 0, 1, 2, ... in the order in which they are
    defined or first referenced, which are the slots that the kernel loads
    them into, and their names stay distinct; no operation changes the number
    of a table that was there before.  A table that was just defined is found
    under its name with the next number.  A reference to the addresses of an
    interface always succeeds: it yields a variable with the number of the
    interface's table, which is the old number when the table exists (the
    configuration is then unchanged) and the next one otherwise; a second
    reference yields the same number and makes no table.  (Assumed of the
    start: the tables in the list are numbered and named so far, which is the
    case for an empty configuration, and there are fewer than 2^32 - 1; "ifaddrs"
    in a dynamic rule, without a configuration, is an error and not covered.) *)
Theorem tables_numbered counter conf : tables_ok counter conf → 0 <= counter < 2 ^ 32 - 1 →
  (∀ name type fname counter' conf', npfctl_build_table N garbage cdbw_output counter conf name type fname = inl (counter', conf') →
     counter' = counter + 1 ∧ tables_ok counter' conf' ∧ npfctl_table_getid (Some conf') name = inl counter ∧ numbers_kept conf conf') ∧
  (∀ v ifname, ∃ p v' counter' conf' old tid,
     npfctl_ifnet_table garbage cdbw_output v counter (Some conf) ifname = inl (p, v', counter', Some conf') ∧
     npfctl_table_getid (Some conf) (ifnet_table_name ifname) = inl old ∧
     (if old =? no_tid then tid = counter ∧ counter' = counter + 1 else tid = old ∧ counter' = counter ∧ conf' = conf) ∧
     vs_vars v' !! p = Some (mk_var None [El_table tid] 1) ∧
     tables_ok counter' conf' ∧ numbers_kept conf conf' ∧ 0 <= tid < counter' ∧
     npfctl_table_getid (Some conf') (ifnet_table_name ifname) = inl tid ∧
     ∀ v2, ∃ p2 v2', npfctl_ifnet_table garbage cdbw_output v2 counter' (Some conf') ifname = inl (p2, v2', counter', Some conf') ∧
       vs_vars v2' !! p2 = Some (mk_var None [El_table tid] 1)).
Proof.
  intros Hok Hc. assert (inw 32 counter) as Hcw by (unfold inw; lia).
  assert (u32 (counter + 1) = counter + 1) as Hinc by (apply wrap_small; unfold inw; lia). split.
  - intros name type fname counter' conf' Hb. unfold npfctl_build_table in Hb. destruct (_ && _); [done|].
    apply cbind_inl in Hb as (tl & Hl & Hb). apply (load_table _ _ _ _ _ Hcw) in Hl.
    destruct (npf_table_insert garbage cdbw_output conf tl) as [error conf1] eqn:Ei. destruct (Z.eqb_spec error 0) as [->|]; [|done].
    injection Hb as <- <-. rewrite Hinc. split; [done|]. by apply (insert_table_id _ _ _ _ _ Hok Hl Hcw).
  - intros v ifname. set (name := ifnet_table_name ifname). pose proof (getid_find counter conf name Hok) as Hg.
    destruct (find _ _) as [tl|] eqn:Ef.
    + destruct (getid_some _ _ _ _ Hok ltac:(lia) Ef) as [Hr Hne]. destruct (ifnet_table_found v counter conf ifname _ Hg Hne) as (p & v' & Hi & Hv).
      exists p, v', counter, conf, (npf_table_getid tl), (npf_table_getid tl). rewrite (proj2 (Z.eqb_neq _ _) Hne).
      split_and!; try done; try lia; [by intros ? ? ?|]. intros v2. by apply ifnet_table_found.
    + destruct (npf_table_insert garbage cdbw_output conf (npf_table_create name counter NPF_TABLE_IFADDR)) as [error conf1] eqn:Ei.
      assert (error = 0) as -> by (by eapply ifnet_insert).
      destruct (insert_table_id _ _ _ _ _ Hok (create_table name counter NPF_TABLE_IFADDR Hcw) Hcw Ei) as (Hok' & Hg' & Hk).
      destruct (create_element_table v counter) as (p & v' & Hcr & Hv).
      exists p, v', (counter + 1), conf1, no_tid, counter. rewrite Z.eqb_refl. split_and!; try done; try lia.
      * unfold npfctl_ifnet_table. fold name. rewrite Hg. cbn [cbind]. rewrite Z.eqb_refl, Hinc, Ei. cbn [snd]. by rewrite Hcr.
      * intros v2. apply ifnet_table_found; [done|]. unfold no_tid. lia.
Qed.

End table_ids.

(** ** Samples *)

(** The mapping of RFC 6296, as [map eth0 static algo npt66 INNER <-> OUTER]. *)
Definition npt_vars : var_sys :=
  mk_vars {[1 := mk_var None [El_fam (mk_fam AF_INET6 Npt66.rfc_inner 48 0)] 1; 2 := mk_var None [El_fam (mk_fam AF_INET6 Npt66.rfc_outer 48 0)] 1]} [] 2 3.

Definition npt_seg (p : Z) : addr_port := mk_ap (Some p) None.

Lemma npt_vars_wf : maps_wf npt_vars.
Proof.
  assert (∀ p var el, vs_vars npt_vars !! p = Some var → el ∈ v_elements var → ∃ a, el = El_fam (mk_fam AF_INET6 a 48 0) ∧ addr_wf 4 a) as Hv.
  { unfold npt_vars. cbn [vs_vars]. intros p var el [[<- <-]|[_ [<- <-]%lookup_singleton_Some]]%lookup_insert_Some ->%list_elem_of_singleton;
      (eexists; split; [reflexivity|]; addr_wf_concrete). }
  split.
  - intros p var el Hp Hin. destruct (Hv p var el Hp Hin) as (a & -> & Ha). apply Ha.
  - intros p var am Hp Hin. destruct (Hv p var _ Hp Hin) as (a & [= ->] & Ha). split; [done|]. split; [left; vm_compute; split; discriminate|by right].
Qed.

Definition npt_build : comp (bconf (NV := nv_tree)) :=
  npfctl_build_natseg (λ _, None) npt_vars npfctl_config_init NPFCTL_NAT_STATIC (NPF_NATIN ||| NPF_NATOUT) 0 "eth0" (npt_seg 1) (npt_seg 2) None None NPF_ALGO_NPT66.

Lemma natseg_accepted_witness : ∃ s' conf' nts flags adj, npt_build = inl s' ∧ b_conf s' = Some conf' ∧
  natseg_check npt_vars NPFCTL_NAT_STATIC (NPF_NATIN ||| NPF_NATOUT) (npt_seg 1) (npt_seg 2) NPF_ALGO_NPT66 = inl (flags, adj) ∧
  default [] (nvlist_get_nvlist_array (ncf_dict conf') "nat") = nts ∧ length nts = 2%nat.
Proof.
  destruct npt_build as [s'|e] eqn:E; [|vm_compute in E; discriminate E]. exists s'.
  destruct (natseg_accepted (λ _, None) npt_vars npfctl_config_init NPFCTL_NAT_STATIC (NPF_NATIN ||| NPF_NATOUT) 0 "eth0" (npt_seg 1) (npt_seg 2) None None
    NPF_ALGO_NPT66 s' Libnpf.npf_config_create) as (conf' & nts & flags & adj & H1 & H2 & H3 & H4).
  - exact npt_vars_wf.
  - split; vm_compute; congruence.
  - reflexivity.
  - exact E.
  - exists conf', nts, flags, adj. split; [reflexivity|]. split; [exact H1|]. split; [exact H2|]. split; [exact H3|]. symmetry. exact (Forall2_length _ _ _ H4).
Defined.

(** The two policies of the sample: the inner prefix with the complement of
    the adjustment, and the outer one with the adjustment. *)
Example npt_policies :
  (let! s := npt_build in inl (NpfNat.natpolicy_parse <$> (c ← option_list (b_conf s); default [] (nvlist_get_nvlist_array (ncf_dict c) "nat")))) =
  inl [Some (NpfNat.mk_np [] 1 0 NPF_NATIN NPF_NAT_STATIC 16 Npt66.rfc_inner 48 0 0 NPF_ALGO_NPT66 (bswap16 (0xffff - 0xd54f)));
       Some (NpfNat.mk_np [] 1 0 NPF_NATOUT NPF_NAT_STATIC 16 Npt66.rfc_outer 48 0 0 NPF_ALGO_NPT66 (bswap16 0xd54f))].
Proof. vm_compute. reflexivity. Qed.

Lemma no_tables_ok : tables_ok (NV := nv_tree) 0 Libnpf.npf_config_create.
Proof.
  assert (table_list (NV := nv_tree) Libnpf.npf_config_create = []) as E by reflexivity. split; rewrite E; [done|done|by intros tl Hin%elem_of_nil|constructor].
Qed.

(** A table "white", then a reference to the addresses of an interface. *)
Lemma tables_numbered_witness : ∃ c1 conf1, npfctl_build_table (NV := nv_tree) sample_netdb (λ _, []) (λ _, inl 0) 0 Libnpf.npf_config_create "white" NPF_TABLE_LPM
    (Some (Some ["# nets"; "10.0.0.0/8"]%string)) = inl (c1, conf1) ∧ npfctl_table_getid (Some conf1) "white" = inl 0 ∧
  ∃ p v c2 conf2, npfctl_ifnet_table (λ _, []) (λ _, inl 0) (mk_vars ∅ [] 0 1) c1 (Some conf1) "eth0" = inl (p, v, c2, Some conf2) ∧ c2 = 2 ∧
    vs_vars v !! p = Some (mk_var None [El_table 1] 1) ∧ npfctl_table_getid (Some conf2) "white" = inl 0.
Proof.
  destruct (npfctl_build_table (NV := nv_tree) sample_netdb (λ _, []) (λ _, inl 0) 0 Libnpf.npf_config_create "white" NPF_TABLE_LPM
    (Some (Some ["# nets"; "10.0.0.0/8"]%string))) as [[c1 conf1]|e] eqn:E; [|vm_compute in E; discriminate E].
  exists c1, conf1. split; [reflexivity|].
  destruct (proj1 (tables_numbered sample_netdb (λ _, []) (λ _, inl 0) 0 Libnpf.npf_config_create no_tables_ok ltac:(split; vm_compute; congruence))
    "white"%string NPF_TABLE_LPM _ c1 conf1 E) as (-> & Hok & Hg & _).
  split; [exact Hg|].
  destruct (proj2 (tables_numbered sample_netdb (λ _, []) (λ _, inl 0) (0 + 1) conf1 Hok ltac:(split; vm_compute; congruence)) (mk_vars ∅ [] 0 1) "eth0"%string)
    as (p & v & c2 & conf2 & old & tid & H1 & H2 & H3 & H4 & H5 & H6 & H7 & H8 & H9).
  assert (old = no_tid) as -> by (vm_compute in E; injection E as <-; vm_compute in H2; by injection H2 as <-).
  destruct H3 as [-> ->]. exists p, v, (0 + 1 + 1), conf2. split; [exact H1|]. split; [reflexivity|]. split; [exact H4|].
  apply H6; [exact Hg|discriminate].
Defined.

(** A procedure that is defined twice is not reported: the second definition
    is dropped. *)
Theorem rproc_redefined_silently :
  let vars := mk_vars {[1 := mk_var None [El_proc "ratelimit" (Some 3)] 1; 2 := mk_var None [El_proc "normalize" None] 1;
                        3 := mk_var None [El_proc_param "bitrate" (Some "8000"%string)] 1]} [] 3 4 in
  (let! (m, c) := npfctl_build_rproc (NV := nv_tree) npf_extlibs vars [] Libnpf.npf_config_create "p" (Some 1) in
   let! (m, c') := npfctl_build_rproc npf_extlibs vars m c "p" (Some 2) in
   inl (length m, length (default [] (nvlist_get_nvlist_array (ncf_dict c') "rprocs")))) =
  inl (2%nat, 1%nat).
Proof. vm_compute. reflexivity. Qed.

End NpfMaps.
