(* ===== verification/IfAddr.v ===== *)
(** * IfAddr: the tables of interface addresses (src/kern/npf_ifaddr.c)

    A rule may refer to the addresses of an interface; npfctl makes a table
    named after it ([npfctl_ifnet_table]) and the kernel keeps the table in step
    with the interface: on a change it builds a new table, swaps it into the
    slot of the old one and destroys that.  The addresses of the interface are
    an argument; the tables are those of [Tableset]. *)

From S2P Require Import Prelude Nbuf Addr Cache IfMap Thmap Tableset NpfVar BpfComp NpfBuild NpfData NpfMaps.
From stdpp Require Import strings.
Open Scope Z_scope.
Open Scope npf_scope.

Module IfAddr.
Export Tableset.

(** An address of an interface. *)
Inductive if_sockaddr := IF_in (a : Z) | IF_in6 (a : list Z) | IF_other.

Definition if_alen (sa : if_sockaddr) : Z := match sa with IF_in _ => 4 | IF_in6 _ => 16 | IF_other => 0 end.
Definition if_words (sa : if_sockaddr) : npf_addr_t := match sa with IF_in a => [a] | IF_in6 a => a | IF_other => [] end.

(** [snprintf(tname, sizeof(tname), ".ifnet-%s", ifname)]. *)
Definition ifnet_tname (ifname : string) : string := strlcpy (".ifnet-" +:+ ifname) NPF_TABLE_MAXNAMELEN.

Section ifaddr.
Context {M L C : Type} `{TL : thmap_laws npf_tblent M} `{LL : lpm_laws npf_tblent L} {CO : cdbr_ops C}.
Implicit Types (t : npf_table (M := M) (L := L) (C := C)) (T : gmap Z (npf_table (M := M) (L := L) (C := C))).

(** The new table, if the interface has one. *)
Definition lookup_ifnet_table T (ts : list (option Z)) (ifname : string) : option npf_table :=
  p ← npf_tableset_getbyname T ts (ifnet_tname ifname);
  t ← T !! p;
  npf_table_create (ifnet_tname ifname) (t_id t) NPF_TABLE_IFADDR [].

(** The tables, the set and the old table, which is destroyed; [newp] is the
    address of the new one. *)
Definition replace_ifnet_table T (ts : list (option Z)) (newp : Z) t : gmap Z npf_table * list (option Z) :=
  let '(oldt, T, ts) := npf_tableset_swap (<[newp := t]> T) ts newp in
  (match oldt with Some p => npf_table_destroy T p | None => T end, ts).

(** The loop over the addresses; [ent] is the address of the next entry. *)
Fixpoint ifaddr_populate (kmem : bool) (ent : Z) t (l : list if_sockaddr) : npf_table :=
  match l with
  | [] => t
  | sa :: l =>
      let t := if negb (if_alen sa =? 0) then (npf_table_insert kmem ent t (if_alen sa) (if_words sa) NPF_NO_NETMASK).2 else t in
      ifaddr_populate kmem (ent + 1) t l
  end.

Definition npf_ifaddr_sync (kmem : bool) (newp ent : Z) T (ts : list (option Z)) (ifname : string) (l : list if_sockaddr) : gmap Z npf_table * list (option Z) :=
  match lookup_ifnet_table T ts ifname with
  | None => (T, ts)
  | Some t => replace_ifnet_table T ts newp (ifaddr_populate kmem ent t l)
  end.

Definition npf_ifaddr_flush (newp : Z) T (ts : list (option Z)) (ifname : string) : gmap Z npf_table * list (option Z) :=
  match lookup_ifnet_table T ts ifname with
  | None => (T, ts)
  | Some t => replace_ifnet_table T ts newp t
  end.

(** All interfaces; the addresses of the new tables are [newp], [newp + 1]... *)
Fixpoint npf_ifaddr_syncall (kmem : bool) (newp ent : Z) T (ts : list (option Z)) (ifs : list (string * list if_sockaddr)) : gmap Z npf_table * list (option Z) :=
  match ifs with
  | [] => (T, ts)
  | (ifname, l) :: ifs =>
      let '(T, ts) := npf_ifaddr_sync kmem newp ent T ts ifname l in
      npf_ifaddr_syncall kmem (newp + 1) (ent + Z.of_nat (length l)) T ts ifs
  end.

(** ** The new table *)

Definition if_ok (sa : if_sockaddr) : Prop := match sa with IF_in6 a => length a = 4%nat | _ => True end.

Lemma if_ok_alen sa : if_ok sa → if_alen sa ≠ 0 → alen_ok (if_alen sa) ∧ (nwords (if_alen sa) <= length (if_words sa))%nat.
Proof. destruct sa as [a|a|]; cbn; intros Ho Hn; [split; [by left|done]|split; [by right|by rewrite Ho]|done]. Qed.

Lemma ifaddr_insert_ok0 kmem els alc alen e : kmem = true → (table_ifaddr_insert kmem els alc alen e).1.1 = 0.
Proof. intros ->. unfold table_ifaddr_insert. by case_if. Qed.

(** An insertion into a table of addresses succeeds. *)
Lemma ifaddr_insert_step ent t sa els alc : table_ok t → t_store t = ST_IFADDR els alc → if_ok sa → if_alen sa ≠ 0 → ent ∉ te_id <$> t_list t →
  let t' := (npf_table_insert true ent t (if_alen sa) (if_words sa) NPF_NO_NETMASK).2 in
  table_ok t' ∧ (∃ els' alc', t_store t' = ST_IFADDR els' alc') ∧ t_id t' = t_id t ∧ t_name t' = t_name t ∧
  ∃ e, t_list t' = e :: t_list t ∧ te_id e = ent ∧ te_alen e = if_alen sa ∧ ent_key e = akey (if_alen sa) (if_words sa).
Proof.
  intros Hok Hst Hsa Hal Hent t'. destruct (if_ok_alen sa Hsa Hal) as [Ha Hl].
  pose proof (npf_table_insert_spec true ent t (if_alen sa) (if_words sa) NPF_NO_NETMASK) as Hi.
  unfold t'. clear t'. revert Hi. unfold npf_table_insert. rewrite npf_netmask_check_none by done. cbn [Z.eqb negb]. rewrite Hst.
  pose proof (ifaddr_insert_ok0 true els alc (if_alen sa) (mk_tblent ent 0 (if_alen sa) (akey (if_alen sa) (if_words sa))) eq_refl) as E0.
  destruct (table_ifaddr_insert _ _ _ _ _) as [[er els'] alc']. cbn in E0. subst er. cbn [Z.eqb negb snd]. intros Hi.
  edestruct Hi as (Hok' & _ & _); [exact Hok|unfold not_const; by rewrite Hst|done|done|done|reflexivity|].
  split; [done|]. split; [by eexists _, _|]. split; [done|]. split; [done|]. eexists. split; [done|]. split; [done|]. split; [done|]. cbn. apply akey_idem.
Qed.

Lemma ifaddr_populate_spec l : ∀ ent t els alc, table_ok t → t_store t = ST_IFADDR els alc → Forall if_ok l → (∀ e, e ∈ t_list t → te_id e < ent) →
  let t' := ifaddr_populate true ent t l in
  table_ok t' ∧ not_const t' ∧ (∃ els' alc', t_store t' = ST_IFADDR els' alc') ∧ t_id t' = t_id t ∧ t_name t' = t_name t ∧
  ∀ alen k, alen_ok alen → (∃ e, e ∈ t_list t' ∧ te_alen e = alen ∧ ent_key e = k) ↔
    (∃ e, e ∈ t_list t ∧ te_alen e = alen ∧ ent_key e = k) ∨ (∃ sa, sa ∈ l ∧ if_alen sa = alen ∧ akey alen (if_words sa) = k).
Proof.
  induction l as [|sa l IH]; intros ent t els alc Hok Hst Hl Hent; cbn [ifaddr_populate].
  - split_and!; try done; [unfold not_const; by rewrite Hst|by eauto|]. intros alen k _. split; [by left|]. intros [?|(sa & []%elem_of_nil & _)]; done.
  - apply Forall_cons in Hl as [Hsa Hl]. destruct (Z.eqb_spec (if_alen sa) 0) as [Hz|Hz]; cbn [negb].
    + destruct (IH (ent + 1) t els alc Hok Hst Hl) as (A & B & C0 & D & G & K); [intros e He; specialize (Hent e He); lia|].
      split_and!; try done. intros alen k Ha. rewrite K by done. split; [intros [?|(x & ? & ?)]; [by left|right; exists x; split; [by right|done]]|].
      intros [?|(x & [->|?]%elem_of_cons & Hx & ?)]; [by left| |right; by eauto]. destruct Ha as [-> | ->]; congruence.
    + assert (ent ∉ te_id <$> t_list t) as Hf by (intros (e & -> & He)%list_elem_of_fmap; specialize (Hent e He); lia).
      destruct (ifaddr_insert_step ent t sa els alc Hok Hst Hsa Hz Hf) as (Hok' & (els' & alc' & Hst') & D0 & G0 & e & He & He1 & He2 & He3).
      set (t' := (npf_table_insert true ent t _ _ _).2) in *.
      destruct (IH (ent + 1) t' els' alc' Hok' Hst' Hl) as (A & B & C0 & D & G & K).
      { intros x. rewrite He. intros [->|Hx]%elem_of_cons; [lia|]. specialize (Hent x Hx). lia. }
      split_and!; try done; [congruence|congruence|]. intros alen k Ha. rewrite K by done. rewrite He. split.
      * intros [(x & [->|Hx]%elem_of_cons & H1 & H2)|(x & Hx & H1 & H2)].
        -- right. exists sa. split; [by left|]. split; [congruence|]. by rewrite <- H2, He3, <- H1, He2.
        -- left. by eauto.
        -- right. exists x. split; [by right|done].
      * intros [(x & Hx & H1 & H2)|(x & [->|Hx]%elem_of_cons & H1 & H2)].
        -- left. exists x. split; [by right|done].
        -- left. exists e. split; [by left|]. split; [congruence|]. by rewrite He3, H1.
        -- right. by eauto.
Qed.

End ifaddr.
Lemma strlcpy_idem s n : strlcpy (strlcpy s n) n = strlcpy s n.
Proof.
  unfold strlcpy. generalize (n - 1)%nat. clear. intros n. revert s. induction n as [|n IH]; intros [|c s]; cbn; try done. by rewrite IH.
Qed.

(** The name that npfctl gives to the table is the name that the kernel looks
    for. *)
Lemma ifnet_tname_npfctl ifname : NpfMaps.ifnet_table_name ifname = ifnet_tname ifname.
Proof. reflexivity. Qed.

Section sync.
Context {M L C : Type} `{TL : thmap_laws npf_tblent M} `{LL : lpm_laws npf_tblent L} {CO : cdbr_ops C}.
Implicit Types (t : npf_table (M := M) (L := L) (C := C)) (T : gmap Z (npf_table (M := M) (L := L) (C := C))).

Lemma empty_ifaddr name tid : ∃ t, npf_table_create (M := M) (L := L) (C := C) name tid NPF_TABLE_IFADDR [] = Some t ∧ table_ok t ∧
  t_store t = ST_IFADDR [[]; []] [0; 0] ∧ t_list t = [] ∧ t_id t = tid ∧ t_name t = strlcpy name NPF_TABLE_MAXNAMELEN.
Proof.
  eexists. split; [reflexivity|]. split_and!; try done. split; cbn; [constructor|by intros e ?%elem_of_nil|]. split; [done|].
  intros i el e Hi. assert (el = []) as -> by (apply list_elem_of_lookup_2 in Hi; set_unfold in Hi; naive_solver). split; [intros []%elem_of_nil|intros [[]%elem_of_nil _]].
Qed.

(** C34: Synchronising the addresses of an interface replaces its table by one
    that matches exactly the present addresses: IPv4 and IPv6 addresses of the
    interface are found, every other address is not.  The new table takes the
    slot, the name, the identifier and the references of the old one, which is
    destroyed; all other tables and slots stay.  An interface that no rule
    refers to changes nothing.  The allocation of memory for the table and its
    entries is assumed to succeed, and the table to be in the slot of its
    identifier. *)
Theorem npf_ifaddr_sync_exact T (ts : list (option Z)) ifname l newp ent : T !! newp = None → Forall if_ok l →
  match npf_tableset_getbyname T ts (ifnet_tname ifname) with
  | None => npf_ifaddr_sync true newp ent T ts ifname l = (T, ts)
  | Some q => ∀ t0, T !! q = Some t0 → ts !! Z.to_nat (t_id t0) = Some (Some q) →
      ∃ T' t', npf_ifaddr_sync true newp ent T ts ifname l = (T', <[Z.to_nat (t_id t0) := Some newp]> ts) ∧
        T' !! q = None ∧ T' !! newp = Some t' ∧ (∀ p, p ≠ q → p ≠ newp → T' !! p = T !! p) ∧
        t_name t' = ifnet_tname ifname ∧ t_id t' = t_id t0 ∧ t_refcnt t' = t_refcnt t0 ∧
        ∀ alen addr, alen_ok alen → (nwords alen <= length addr)%nat →
          npf_table_lookup t' alen addr = 0 ↔ ∃ sa, sa ∈ l ∧ if_alen sa = alen ∧ akey alen (if_words sa) = akey alen addr
  end.
Proof.
  intros Hnew Hl. unfold npf_ifaddr_sync, lookup_ifnet_table. destruct (npf_tableset_getbyname T ts (ifnet_tname ifname)) as [q|]; [|done].
  intros t0 Hq Hslot. cbn [mbind option_bind]. rewrite Hq. cbn [mbind option_bind].
  destruct (empty_ifaddr (ifnet_tname ifname) (t_id t0)) as (t & Hc & Hok & Hst & Hli & Hid & Hna). rewrite Hc.
  destruct (ifaddr_populate_spec l ent t _ _ Hok Hst Hl) as (Hok' & Hnc & (els & alc & Hst') & Hid' & Hna' & Hin); [rewrite Hli; by intros e ?%elem_of_nil|].
  set (t' := ifaddr_populate true ent t l) in *. assert (q ≠ newp) as Hne by congruence.
  unfold replace_ifnet_table, npf_tableset_swap. rewrite lookup_insert_eq, Hid', Hid, Hslot. rewrite lookup_insert_ne, Hq by done.
  eexists _, (set_refcnt (t_refcnt t0) t'). split; [reflexivity|]. unfold npf_table_destroy. split_and!.
  - by rewrite lookup_delete_eq.
  - rewrite lookup_delete_ne, lookup_insert_ne, lookup_insert_eq by done. done.
  - intros p H1 H2. by rewrite lookup_delete_ne, !lookup_insert_ne by done.
  - cbn. rewrite Hna', Hna. apply strlcpy_idem.
  - cbn. congruence.
  - done.
  - intros alen addr Ha Hlen. change (npf_table_lookup (set_refcnt _ t') alen addr) with (npf_table_lookup t' alen addr).
    rewrite npf_table_lookup_spec by done. unfold ent_covers. rewrite Hst', Hin by done. rewrite Hli. split; [|eauto].
    intros [(e & []%elem_of_nil & _)|?]; done.
Qed.

End sync.

(** ** Samples *)

Definition eth0_tables : gmap Z gtable := {[1 := ipset_table; 2 := mk_table (ST_IFADDR [[]; []] [0; 0]) [] 0 1 1 ".ifnet-eth0"]}.
Definition eth0_addrs : list if_sockaddr := [IF_in 0x0100000a; IF_other; IF_in6 [0xb80d0120; 0; 0; 0x01000000]].

Lemma npf_ifaddr_sync_exact_witness : ∃ T' t', npf_ifaddr_sync true 3 100 eth0_tables [Some 1; Some 2] "eth0" eth0_addrs = (T', [Some 1; Some 3]) ∧
  T' !! 3 = Some t' ∧ npf_table_lookup t' 4 [0x0100000a] = 0 ∧ npf_table_lookup t' 4 [0x0200000a] ≠ 0.
Proof.
  pose proof (npf_ifaddr_sync_exact eth0_tables [Some 1; Some 2] "eth0" eth0_addrs 3 100 eq_refl) as Hx.
  assert (npf_tableset_getbyname eth0_tables [Some 1; Some 2] (ifnet_tname "eth0") = Some 2) as E by (vm_compute; reflexivity). rewrite E in Hx.
  destruct (Hx ltac:(repeat constructor) _ eq_refl eq_refl) as (T' & t' & H1 & _ & H2 & _ & _ & _ & _ & H3).
  exists T', t'. split; [exact H1|]. split; [exact H2|]. split.
  - apply (H3 4 [0x0100000a]); [by left|done|]. exists (IF_in 0x0100000a). split; [by left|done].
  - intros (sa & Hin & Ha & Hk)%(H3 4 [0x0200000a]); [|by left|done]. unfold eth0_addrs in Hin. set_unfold in Hin. destruct_or!; subst sa; [vm_compute in Hk; discriminate Hk|discriminate Ha..].
Defined.

End IfAddr.
