(* ===== verification/NpfShow.v ===== *)
(** * NpfShow: printing a configuration (src/npfctl/npf_show.c)

    npfctl prints the rules that are loaded, or that would be loaded.  The
    filter of a rule is printed from the marks that the compiler left beside
    its BPF code: a sequence of a mark, a number of words and the words.  The
    context is passed along; [sc_out] is the text printed so far.  How the host
    writes an address is a parameter. *)

From S2P Require Import Prelude Nbuf Addr Cache Rewrite Tcpopt StateTcp Thmap ConnKey Tableset Bpf NpfBpf NpfVar BpfComp NpfBuild NpfData IfMap Ruleset Nvlist Conn Rproc Alg NpfNat Libnpf NpfCtl NpfGroups NpfExt NpfMaps.
From stdpp Require Import strings.
Open Scope Z_scope.
Open Scope npf_scope.

Module NpfShow.
Export NpfMaps.
Export Ruleset (NPF_RULE_RETRST, NPF_RULE_RETICMP, NPF_RULE_GSTATEFUL, NPF_DYNAMIC_GROUP, NPF_RULE_DIMASK).

Definition SEEN_PROTO : Z := 0x01.
Definition LIST_PROTO : nat := 0.
Definition LIST_SADDR : nat := 1.
Definition LIST_DADDR : nat := 2.
Definition LIST_SPORT : nat := 3.
Definition LIST_DPORT : nat := 4.
Definition LIST_COUNT : nat := 5.

Record npf_conf_info := mk_show {
  sc_out : string;
  sc_fposln : nat;
  sc_glevel : Z;
  sc_flags : Z;
  sc_seen : Z;
  sc_list : list (list string);
}.

Definition npfctl_show_init : npf_conf_info := mk_show "" 0 (-1) 0 0 (replicate LIST_COUNT []).

Definition put (c : npf_conf_info) (s : string) : npf_conf_info := mk_show (sc_out c +:+ s) (sc_fposln c) (sc_glevel c) (sc_flags c) (sc_seen c) (sc_list c).
Definition set_glevel (c : npf_conf_info) (n : Z) : npf_conf_info := mk_show (sc_out c) (sc_fposln c) n (sc_flags c) (sc_seen c) (sc_list c).
Definition set_flags (c : npf_conf_info) (n : Z) : npf_conf_info := mk_show (sc_out c) (sc_fposln c) (sc_glevel c) n (sc_seen c) (sc_list c).
Definition set_seen (c : npf_conf_info) (n : Z) : npf_conf_info := mk_show (sc_out c) (sc_fposln c) (sc_glevel c) (sc_flags c) n (sc_list c).
Definition set_lists (c : npf_conf_info) (l : list (list string)) : npf_conf_info := mk_show (sc_out c) (sc_fposln c) (sc_glevel c) (sc_flags c) (sc_seen c) l.
Definition get_list (c : npf_conf_info) (i : nat) : list string := default [] (sc_list c !! i).

Definition list_push (c : npf_conf_info) (i : nat) (val : string) : npf_conf_info := set_lists c (<[i := get_list c i ++ [val]]> (sc_list c)).

(** The buffer is left with the separator after the last element cut off; no
    elements leave a null pointer. *)
Fixpoint join_loop (buflen : Z) (args : list string) (sep : string) : option string :=
  match args with
  | [] => Some ""%string
  | a :: args =>
      let len := Z.of_nat (String.length a + String.length sep) in
      if buflen <=? len then None else
      s ← join_loop (buflen - len) args sep;
      Some (match args with [] => a | _ => a +:+ sep +:+ s end)
  end.

Definition join (buflen : Z) (args : list string) (sep : string) : comp (option string) :=
  match args with [] => inr E_segv | _ => inl (join_loop buflen args sep) end.

Definition list_join_free (l : list string) (use_br : bool) (sep : string) : comp string :=
  let! s := join 2048 l sep in
  match s with
  | None => inr E_errx
  | Some s => inl (if use_br && (1 <? length l)%nat then "{ " +:+ s +:+ " }" else s)
  end.

Fixpoint tabs (n : nat) : string := match n with O => "" | S n => String (Ascii.ascii_of_nat 9) (tabs n) end.
Definition newline : string := String (Ascii.ascii_of_nat 10) "".
Definition quote (s : string) : string := let q := String (Ascii.ascii_of_nat 34) "" in q +:+ s +:+ q.

(** The end of a group. *)
Definition print_indent (c : npf_conf_info) (level : Z) : npf_conf_info :=
  let c := if (0 <=? sc_glevel c) && (level <=? sc_glevel c) then set_glevel (put c ("}" +:+ newline +:+ newline)) (-1) else c in
  put c (tabs (Z.to_nat level)).

Definition print_linesep (c : npf_conf_info) : npf_conf_info :=
  if negb (String.length (sc_out c) =? sc_fposln c)%nat then
    let c := put c newline in
    mk_show (sc_out c) (String.length (sc_out c)) (sc_glevel c) (sc_flags c) (sc_seen c) (sc_list c)
  else c.

Definition flag_chars : list (Z * string) :=
  [(TH_FIN, "F"); (TH_SYN, "S"); (TH_RST, "R"); (TH_PUSH, "P"); (TH_ACK, "A"); (TH_URG, "U"); (TH_ECE, "E"); (TH_CWR, "W")]%string.

Definition tcpflags2string (tfl : Z) : string := foldr (λ fs r, (if flag tfl fs.1 then fs.2 else "") +:+ r) ""%string flag_chars.

(** [%x] of a 64-bit number. *)
Fixpoint hex_digits (fuel : nat) (n : Z) (acc : string) : string :=
  match fuel with
  | O => acc
  | S fuel =>
      let d := n mod 16 in
      let acc := String (Ascii.ascii_of_N (Z.to_N (if d <? 10 then 48 + d else 87 + d))) acc in
      if n / 16 =? 0 then acc else hex_digits fuel (n / 16) acc
  end.
Definition print_hex (n : Z) : string := hex_digits 16 n "".

Section show.
Context {NV : Type} {NO : nvlist_ops NV} {NA : nvlist_array_ops NV}.
(** [sockaddr_snprintf] with the format of an address. *)
Context (addr_string : Z → npf_addr_t → string).
Implicit Types (c : npf_conf_info) (conf : nl_config (NV := NV)) (rl : NV).

Definition npf_rule_getname rl : option string := dnvlist_get_string rl "name".
Definition npf_rule_getinterface rl : option string := dnvlist_get_string rl "ifname".
Definition npf_rule_getinfo rl : option (list Z) := dnvlist_get_binary rl "info".
Definition npf_rule_getproc rl : option string := dnvlist_get_string rl "rproc".
Definition npf_rule_getid rl : Z := dnvlist_get_number rl "id" 0.
Definition npf_rule_getcode rl : Z * option (list Z) := (s32 (dnvlist_get_number rl "code-type" 0), dnvlist_get_binary rl "code").
Definition npf_nat_gettype rl : Z := s32 (dnvlist_get_number rl "type" 0).
Definition npf_nat_getflags rl : Z := u32 (dnvlist_get_number rl "flags" 0).
Definition npf_nat_getalgo rl : Z := u32 (dnvlist_get_number rl "nat-algo" 0).
Definition npf_nat_getaddr rl : option (list Z * Z) := a ← dnvlist_get_binary rl "nat-addr"; Some (a, u8 (dnvlist_get_number rl "nat-mask" 0)).
Definition npf_nat_getport rl : Z := u16 (dnvlist_get_number rl "nat-port" 0).
Definition npf_nat_gettable rl : Z := u32 (dnvlist_get_number rl "nat-table-id" 0).
Definition npf_table_gettype rl : Z := u32 (dnvlist_get_number rl "type" 0).
Definition npf_rproc_getname rl : option string := dnvlist_get_string rl "name".
Definition npf_rproc_iterate conf (iter : Z) : option NV * Z :=
  match Libnpf._npf_dataset_getelement (ncf_dict conf) "rprocs" iter with None => (None, Libnpf.NPF_ITER_BEGIN) | Some r => (Some r, iter + 1) end.

Definition addrmask (alen : Z) (addr : npf_addr_t) (mask : Z) : string :=
  addr_string alen addr +:+ (if negb (mask =? 0) && negb (mask =? NPF_NO_NETMASK) then "/" +:+ print_lu mask else "").
Definition npfctl_print_addrmask (alen : Z) (addr : npf_addr_t) (mask : Z) : comp string :=
  if (alen =? 4) || (alen =? 16) then inl (addrmask alen addr mask) else inr E_abort.

(** ** The values of marks *)

(** The word at an index of the mark's words. *)
Definition wd (words : list Z) (i : nat) : Z := default 0 (words !! i).

Definition print_family (words : list Z) : comp string :=
  if wd words 0 =? AF_INET then inl "inet4"%string else if wd words 0 =? AF_INET6 then inl "inet6"%string else inr E_errx.

Definition print_address (words : list Z) : comp string :=
  let addr := take 4 (drop 2 words) in
  if wd words 0 =? AF_INET then npfctl_print_addrmask 4 addr (u8 (wd words 1))
  else if wd words 0 =? AF_INET6 then npfctl_print_addrmask 16 addr (u8 (wd words 1))
  else inr E_errx.

Definition print_number (words : list Z) : comp string := inl (print_lu (wd words 0)).

(** A table that is not found leaves the name null and the kind unset. *)
Definition print_table conf (words : list Z) : comp string :=
  let! t := npfctl_table_getname conf (wd words 0) in
  match t with
  | None => inr E_segv
  | Some (tname, ifaddr) => inl (if (ifaddr : bool) then "ifaddrs(" +:+ tname +:+ ")" else "<" +:+ tname +:+ ">")
  end.

Definition print_proto c (words : list Z) : comp (string * npf_conf_info) :=
  let c := set_flags c (sc_flags c ||| SEEN_PROTO) in
  let p := wd words 0 in
  if p =? IPPROTO_TCP then inl ("tcp"%string, c) else if p =? IPPROTO_UDP then inl ("udp"%string, c)
  else if p =? IPPROTO_ICMP then inl ("icmp"%string, c) else if p =? IPPROTO_ICMPV6 then inl ("ipv6-icmp"%string, c)
  else let! s := print_number words in inl (s, c).

Definition print_tcpflags c (words : list Z) : option string :=
  if sc_flags c &&& SEEN_PROTO =? 0 then None else
  let tf := wd words 0 in
  let tf_mask := wd words 1 in
  Some (tcpflags2string tf +:+ (if negb (tf =? tf_mask) then "/" +:+ tcpflags2string tf_mask else "")).

Definition print_portrange (words : list Z) : comp string :=
  let fport := wd words 0 in
  let tport := wd words 1 in
  inl (if negb (fport =? tport) then print_lu fport +:+ "-" +:+ print_lu tport else print_lu fport).

Inductive printfn := P_none | P_family | P_proto | P_tcpflags | P_number | P_address | P_table | P_ports.

(** The mark, the words before the values, the list, the function, the number
    of words. *)
Record mark_keyword := mk_mark { mk_id : Z; mk_format : option string; mk_list : nat; mk_print : printfn; mk_fwords : Z }.

Definition mark_keyword_map : list mark_keyword :=
  [mk_mark BM_IPVER (Some "family "%string) LIST_PROTO P_family 1; mk_mark BM_PROTO (Some "proto "%string) LIST_PROTO P_proto 1;
   mk_mark BM_TCPFL (Some "flags "%string) LIST_PROTO P_tcpflags 2; mk_mark BM_ICMP_TYPE (Some "icmp-type "%string) LIST_PROTO P_number 1;
   mk_mark BM_ICMP_CODE (Some "code "%string) LIST_PROTO P_number 1;
   mk_mark BM_SRC_NEG None LIST_COUNT P_none 0; mk_mark BM_SRC_CIDR None LIST_SADDR P_address 6; mk_mark BM_SRC_TABLE None LIST_SADDR P_table 1;
   mk_mark BM_SRC_PORTS None LIST_SPORT P_ports 2;
   mk_mark BM_DST_NEG None LIST_COUNT P_none 0; mk_mark BM_DST_CIDR None LIST_DADDR P_address 6; mk_mark BM_DST_TABLE None LIST_DADDR P_table 1;
   mk_mark BM_DST_PORTS None LIST_DPORT P_ports 2].

(** [mk->printfn(ctx, marks)]. *)
Definition print_value conf c (f : printfn) (words : list Z) : comp (option string * npf_conf_info) :=
  let some m := let! s := m in inl (Some (s : string), c) in
  match f with
  | P_none => inl (None, c)
  | P_family => some (print_family words)
  | P_proto => let! (s, c) := print_proto c words in inl (Some s, c)
  | P_tcpflags => inl (print_tcpflags c words, c)
  | P_number => some (print_number words)
  | P_address => some (print_address words)
  | P_table => some (print_table conf words)
  | P_ports => some (print_portrange words)
  end.

(** The loop over the marks: the values found, in order.  Each turn takes two
    words at least. *)
Fixpoint scan_loop (fuel : nat) conf (mk : mark_keyword) (marks : list Z) c (vals : list string) : comp (list string * npf_conf_info) :=
  match fuel, marks with
  | S fuel, m :: nwords :: ((_ :: _) as rest) =>
      if Z.of_nat (length rest) <? nwords then inr E_errx else
      let! (vals, c) := (if m =? mk_id mk then
                           let c := set_seen c (1 <<< m) in
                           let! _ := assert (mk_fwords mk =? nwords) in
                           let! (v, c) := print_value conf c (mk_print mk) rest in
                           inl (match v with Some v => vals ++ [v] | None => vals end, c)
                         else inl (vals, c)) in
      scan_loop fuel conf mk (drop (Z.to_nat nwords) rest) c vals
  | _, _ => inl (vals, c)
  end.

Definition scan_marks conf c (mk : mark_keyword) (marks : list Z) : comp npf_conf_info :=
  let! (vals, c) := scan_loop (length marks) conf mk marks c [] in
  match mk_format mk with
  | None => inl (foldl (λ c v, list_push c (mk_list mk) v) c vals)
  | Some fmt =>
      match vals with
      | [] => inl c
      | _ => let! elements := list_join_free vals true ", " in inl (list_push c (mk_list mk) (fmt +:+ elements))
      end
  end.

(** ** Rules *)

Definition npfctl_print_id c rl : npf_conf_info :=
  let id := npf_rule_getid rl in
  if negb (id =? 0) then put c ("# id=" +:+ quote (print_hex id) +:+ " ") else c.

Definition npfctl_print_filter_generic c : comp npf_conf_info :=
  match get_list c LIST_PROTO with
  | [] => inl c
  | l => let! e := list_join_free l false " " in inl (put (set_lists c (<[LIST_PROTO := []]> (sc_list c))) (e +:+ " "))
  end.

Definition npfctl_print_filter_seg c (which : npf_which) : comp (bool * npf_conf_info) :=
  let '(kwd, alist, plist, negbm) := (match which with
                                      | NPF_SRC => ("from"%string, LIST_SADDR, LIST_SPORT, 1 <<< BM_SRC_NEG)
                                      | NPF_DST => ("to"%string, LIST_DADDR, LIST_DPORT, 1 <<< BM_DST_NEG)
                                      end) in
  let neg := if flag (sc_seen c) negbm then "! "%string else ""%string in
  let! (seen_filter, c) := (match get_list c alist with
                            | [] => inl (false, c)
                            | l => let! e := list_join_free l true ", " in
                                   inl (true, put (set_lists c (<[alist := []]> (sc_list c))) (kwd +:+ " " +:+ neg +:+ e +:+ " "))
                            end) in
  match get_list c plist with
  | [] => inl (seen_filter, c)
  | l =>
      let c := if negb seen_filter then put c (kwd +:+ " any ") else c in
      let! e := list_join_free l true ", " in
      inl (true, put (set_lists c (<[plist := []]> (sc_list c))) ("port " +:+ e +:+ " "))
  end.

(** The words of the marks. *)
Definition info_words (info : list Z) : list Z := rd_words info 0 (Nat.div (length info) 4).

Definition npfctl_print_filter conf c rl : comp (bool * npf_conf_info) :=
  match npf_rule_getinfo rl, npf_rule_getcode rl with
  | None, (type, Some _) => inl (true, put c (if type =? NPF_CODE_BPF then "pcap-filter " +:+ quote "..." +:+ " " else "unrecognized-bytecode "))
  | info, _ =>
      let c := set_flags c 0 in
      let! c := cfold (λ c mk, scan_marks conf c mk (info_words (default [] info))) mark_keyword_map c in
      let! c := npfctl_print_filter_generic c in
      let! (s1, c) := npfctl_print_filter_seg c NPF_SRC in
      let! (s2, c) := npfctl_print_filter_seg c NPF_DST in
      inl (s1 || s2, c)
  end.

Definition attr_keyword_map : list (Z * Z * string) :=
  let gd := NPF_RULE_GROUP ||| NPF_RULE_DYNAMIC in
  let gp := NPF_RULE_GROUP ||| NPF_RULE_PASS in
  let ret := NPF_RULE_RETRST ||| NPF_RULE_RETICMP in
  let st := NPF_RULE_STATEFUL ||| NPF_RULE_GSTATEFUL in
  [(gd, NPF_RULE_GROUP, "group"); (gd, gd, "ruleset"); (gp, 0, "block"); (gp, NPF_RULE_PASS, "pass"); (ret, ret, "return");
   (ret, NPF_RULE_RETRST, "return-rst"); (ret, NPF_RULE_RETICMP, "return-icmp"); (st, NPF_RULE_STATEFUL, "stateful"); (st, st, "stateful-all");
   (NPF_RULE_DIMASK, NPF_RULE_IN, "in"); (NPF_RULE_DIMASK, NPF_RULE_OUT, "out"); (NPF_RULE_FINAL, NPF_RULE_FINAL, "final")]%string.

(** The name comes before the third keyword. *)
Fixpoint print_attrs (attr : Z) (name : option string) (i : nat) (l : list (Z * Z * string)) c : npf_conf_info :=
  match l with
  | [] => c
  | (mask, fl, val) :: l =>
      let c := match name with Some n => if (i =? 2)%nat then put c (quote n +:+ " ") else c | None => c end in
      print_attrs attr name (S i) l (if attr &&& mask =? fl then put c (val +:+ " ") else c)
  end.

Definition npfctl_print_rule conf c rl (level : Z) : comp npf_conf_info :=
  let attr := npf_rule_getattr rl in
  let c := print_attrs attr (npf_rule_getname rl) 0 attr_keyword_map c in
  let ifname := npf_rule_getinterface rl in
  let c := match ifname with Some i => put c ("on " +:+ i +:+ " ") | None => c end in
  let c := if (attr =? NPF_RULE_GROUP ||| NPF_RULE_IN ||| NPF_RULE_OUT) && negb (bool_decide (is_Some ifname)) then put c "default " else c in
  let! c := (if attr &&& NPF_DYNAMIC_GROUP =? NPF_RULE_GROUP then inl (set_glevel (put c "{ ") level) else
             let dyn_ruleset := attr &&& NPF_DYNAMIC_GROUP =? NPF_DYNAMIC_GROUP in
             let! (seen, c) := npfctl_print_filter conf c rl in
             let c := if negb seen && negb dyn_ruleset then put c "all " else c in
             inl (match npf_rule_getproc rl with Some p => put c ("apply " +:+ quote p +:+ " ") | None => c end)) in
  inl (put (npfctl_print_id c rl) newline).

(** ** Translation policies and tables *)

Definition npfctl_print_nat conf c rl : comp npf_conf_info :=
  let dynamic_natset := NPF_RULE_GROUP ||| NPF_RULE_DYNAMIC in
  let flags := npf_nat_getflags rl in
  match npf_rule_getinterface rl with
  | None => inr E_assert
  | Some ifname =>
      if npf_rule_getattr rl &&& dynamic_natset =? dynamic_natset then
        match npf_rule_getname rl with
        | Some name => inl (put c ("map ruleset " +:+ quote name +:+ " on " +:+ ifname +:+ newline))
        | None => inr E_segv
        end
      else
      let! seg := (match npf_nat_getaddr rl with
                   | Some (addr, mask) =>
                       let alen := Z.of_nat (length addr) in
                       npfctl_print_addrmask alen (NpfNat.addr_of_bytes addr) mask
                   | None => print_table conf [npf_nat_gettable rl]
                   end) in
      let port := npf_nat_getport rl in
      let seg := if negb (port =? 0) then seg +:+ " port " +:+ print_lu (bswap16 port) else seg in
      let! (seg1, arrow, seg2) := (if npf_nat_gettype rl =? NPF_NATIN then inl (seg, "<-"%string, "any"%string)
                                   else if npf_nat_gettype rl =? NPF_NATOUT then inl ("any"%string, "->"%string, seg) else inr E_abort) in
      let a := npf_nat_getalgo rl in
      let algo := (if a =? NPF_ALGO_NETMAP then "algo netmap "%string else if a =? NPF_ALGO_IPHASH then "algo ip-hash "%string
                   else if a =? NPF_ALGO_RR then "algo round-robin "%string else if a =? NPF_ALGO_NPT66 then "algo npt66 "%string else ""%string) in
      let c := put c ("map " +:+ ifname +:+ " " +:+ (if flag flags NPF_NAT_STATIC then "static" else "dynamic") +:+ " " +:+ algo +:+
                      (if flag flags NPF_NAT_PORTS then "" else "no-ports ") +:+ seg1 +:+ " " +:+ arrow +:+ " " +:+ seg2 +:+ " pass ") in
      let! (_, c) := npfctl_print_filter conf c rl in
      inl (put (npfctl_print_id c rl) newline)
  end.

Definition npfctl_print_table c (tl : NV) : comp npf_conf_info :=
  match npf_table_getname tl with
  | None => inr E_segv
  | Some name =>
      if match name with String ch0 _ => ch ch0 =? 46 | EmptyString => false end then inl c else
      let type := npf_table_gettype tl in
      let! _ := assert (type <? 4) in
      let tname := (if type =? NPF_TABLE_IPSET then "ipset"%string else if type =? NPF_TABLE_LPM then "lpm"%string else if type =? NPF_TABLE_CONST then "const"%string else ""%string) in
      inl (put c ("table <" +:+ name +:+ "> type " +:+ tname +:+ newline))
  end.

(** ** The configuration *)

(** The rules in the order of the iterator; [fuel] bounds their number. *)
Fixpoint show_rules (fuel : nat) conf (iter : Z) c : comp npf_conf_info :=
  match fuel with
  | O => inl c
  | S fuel =>
      let! (r, iter, conf) := Libnpf.npf_rule_iterate conf iter in
      match r with
      | None => inl c
      | Some (rl, level) => let! c := npfctl_print_rule conf (print_indent c level) rl level in show_rules fuel conf iter c
      end
  end.

Definition array_of conf (key : string) : list NV := default [] (nvlist_get_nvlist_array (ncf_dict conf) key).

Definition show_parts conf c : comp npf_conf_info :=
  let! c := cfold npfctl_print_table (array_of conf "tables") c in
  let c := print_linesep c in
  let! c := cfold (λ c rp, match npf_rproc_getname rp with Some n => inl (put c ("procedure " +:+ quote n +:+ newline)) | None => inr E_segv end)
              (array_of conf "rprocs") c in
  let c := print_linesep c in
  let! c := cfold (npfctl_print_nat conf) (array_of conf "nat") c in
  let c := print_linesep c in
  let! c := show_rules (S (length (array_of conf "rules"))) conf Libnpf.NPF_ITER_BEGIN c in
  inl (print_indent c 0).

(** The rules of a dynamic ruleset, at level 0. *)
Definition npfctl_ruleset_show conf (rules : list NV) : comp npf_conf_info := cfold (λ c rl, npfctl_print_rule conf c rl 0) rules npfctl_show_init.

End show.
(** ** Flags *)

Lemma tcpflags_all : forallb (λ n, match tcp_flags (tcpflags2string (Z.of_nat n)) 0 with inl x => x =? Z.of_nat n | inr _ => false end) (seq 0 256) = true.
Proof. vm_compute. reflexivity. Qed.

(** What is printed for TCP flags is parsed as the same flags. *)
Lemma tcpflags_roundtrip t : inw 8 t → tcp_flags (tcpflags2string t) 0 = inl t.
Proof.
  intros Ht. unfold inw in Ht. change (2 ^ 8) with 256 in Ht. pose proof (proj1 (forallb_forall _ _) tcpflags_all (Z.to_nat t)) as Hx. cbv beta in Hx.
  rewrite Z2Nat.id in Hx by lia. destruct (tcp_flags (tcpflags2string t) 0) as [x|e]; [|discriminate Hx; apply in_seq; lia].
  f_equal. apply Z.eqb_eq, Hx, in_seq. lia.
Qed.

(** ** Marks *)

(** The words of a sequence of marks. *)
Definition enc_marks (l : list (Z * list Z)) : list Z := l ≫= λ e, e.1 :: Z.of_nat (length e.2) :: e.2.

(** A mark without words at the end is out of reach of the loop. *)
Definition ends_ok (l : list (Z * list Z)) : Prop := match last l with Some e => e.2 ≠ [] | None => True end.

Lemma ends_ok_cons e l : ends_ok (e :: l) → ends_ok l ∧ (l = [] → e.2 ≠ []).
Proof. unfold ends_ok. destruct l as [|e' l]; [cbn; auto|]. rewrite last_cons_cons. done. Qed.

Section scans.
Context {NV : Type} {NO : nvlist_ops NV} {NA : nvlist_array_ops NV} (addr_string : Z → npf_addr_t → string) (conf : nl_config (NV := NV)).

(** The functions whose result depends on the words only. *)
Definition print_pure (f : printfn) (words : list Z) : comp string :=
  match f with
  | P_family => print_family words
  | P_number => print_number words
  | P_address => print_address addr_string words
  | P_table => print_table conf words
  | P_ports => print_portrange words
  | _ => inr E_abort
  end.

Definition is_pure (f : printfn) : bool := match f with P_none | P_proto | P_tcpflags => false | _ => true end.

Definition words_needed (f : printfn) : nat := match f with P_address => 6 | P_ports => 2 | P_none => 0 | P_tcpflags => 2 | _ => 1 end.

Lemma wd_app (ws more : list Z) i : (i < length ws)%nat → wd (ws ++ more) i = wd ws i.
Proof. intros Hi. unfold wd. by rewrite lookup_app_l. Qed.

(** A value is read from the words of its own mark. *)
Lemma print_pure_app f ws more : is_pure f = true → length ws = words_needed f → print_pure f (ws ++ more) = print_pure f ws.
Proof.
  intros Hf Hl. destruct f; try done; cbn [print_pure words_needed] in *; unfold print_family, print_number, print_address, print_table, print_portrange;
    rewrite ?wd_app by lia; try done.
  rewrite drop_app_le, take_app_le by (rewrite ?length_drop; lia). done.
Qed.

Lemma print_value_pure c f words : is_pure f = true → print_value addr_string conf c f words = (let! s := print_pure f words in inl (Some s, c)).
Proof. by destruct f. Qed.

(** The marks of a kind, and their values. *)
Definition marks_of (m : Z) (l : list (Z * list Z)) : list (list Z) := snd <$> base.filter (λ e, e.1 = m) l.

Fixpoint print_all (f : printfn) (wss : list (list Z)) : comp (list string) :=
  match wss with [] => inl [] | ws :: wss => let! v := print_pure f ws in let! vs := print_all f wss in inl (v :: vs) end.

Definition seen_after (m : Z) (l : list (Z * list Z)) (c : npf_conf_info) : npf_conf_info := match marks_of m l with [] => c | _ => set_seen c (1 <<< m) end.

Lemma scan_loop_exact mk : is_pure (mk_print mk) = true → mk_fwords mk = Z.of_nat (words_needed (mk_print mk)) → ∀ l fuel c vals,
  ends_ok l → (length (enc_marks l) <= fuel)%nat → (∀ ws, ws ∈ marks_of (mk_id mk) l → length ws = words_needed (mk_print mk)) →
  scan_loop addr_string fuel conf mk (enc_marks l) c vals = (let! vs := print_all (mk_print mk) (marks_of (mk_id mk) l) in inl (vals ++ vs, seen_after (mk_id mk) l c)).
Proof.
  intros Hp Hw. induction l as [|[m ws] l IH]; intros fuel c vals He Hf Hok.
  - cbn. rewrite app_nil_r. by destruct fuel.
  - apply ends_ok_cons in He as [He Hlast]. change (enc_marks ((m, ws) :: l)) with (m :: Z.of_nat (length ws) :: ws ++ enc_marks l) in *.
    destruct fuel as [|fuel]; [cbn in Hf; lia|]. cbn [length] in Hf. rewrite length_app in Hf.
    assert (∃ x rest, ws ++ enc_marks l = x :: rest) as (x & rest & Hx).
    { destruct ws as [|x ws]; [|by eexists _, _]. destruct l as [|[m' ws'] l]; [by destruct (Hlast eq_refl)|]. by eexists _, _. }
    cbn [scan_loop]. rewrite Hx. rewrite <- Hx. clear x rest Hx. rewrite (proj2 (Z.ltb_ge _ _)) by (rewrite length_app; lia).
    rewrite Nat2Z.id, drop_app_length. unfold marks_of, seen_after, marks_of in *. rewrite filter_cons in *. cbn [fst] in *.
    destruct (Z.eqb_spec m (mk_id mk)) as [->|Hne].
    + rewrite decide_True in * by done. cbn [fmap list_fmap snd print_all] in *.
      assert (length ws = words_needed (mk_print mk)) as Hl by (apply Hok; by left). rewrite Hl, Hw, Z.eqb_refl. cbn [assert cbind].
      rewrite print_value_pure, print_pure_app by done. destruct (print_pure (mk_print mk) ws) as [v|e]; cbn [cbind]; [|done].
      rewrite IH; [|done|lia|intros ws' Hin; apply Hok; by right]. destruct (print_all _ _) as [vs|e]; cbn [cbind]; [|done].
      rewrite <- app_assoc. cbn [app]. do 2 f_equal. by case_match.
    + rewrite decide_False in * by done. cbn [cbind]. apply IH; [done|lia|done].
Qed.

Lemma push_all_list i vs : ∀ c, (i < length (sc_list c))%nat →
  let c' := foldl (λ c v, list_push c i v) c vs in
  get_list c' i = get_list c i ++ vs ∧ (∀ j, j ≠ i → get_list c' j = get_list c j) ∧ sc_out c' = sc_out c ∧ sc_seen c' = sc_seen c ∧ length (sc_list c') = length (sc_list c).
Proof.
  induction vs as [|v vs IH]; intros c Hi; cbn [foldl]; [by rewrite app_nil_r|].
  destruct (IH (list_push c i v)) as (A & B & C & D & E); [cbn; by rewrite length_insert|]. cbv zeta. rewrite A, C, D, E. split_and!.
  - unfold get_list at 1, list_push. cbn. rewrite list_lookup_insert_eq by done. cbn. by rewrite <- app_assoc.
  - intros j Hj. rewrite B by done. unfold get_list, list_push. cbn. by rewrite list_lookup_insert_ne.
  - done.
  - done.
  - cbn. by rewrite length_insert.
Qed.

(** The addresses, tables and ports that are printed for a rule are those that
    the compiler marked: for marks as it writes them, scanning for one of
    these kinds does not fail on the sequence, and appends the values of all
    its marks, in order, to its list; nothing else is changed but the last
    mark seen. *)
Theorem scan_marks_exact mk l c c' : mk ∈ mark_keyword_map → mk_format mk = None → mk_print mk ≠ P_none → ends_ok l →
  (∀ ws, ws ∈ marks_of (mk_id mk) l → Z.of_nat (length ws) = mk_fwords mk) → length (sc_list c) = LIST_COUNT →
  scan_marks addr_string conf c mk (enc_marks l) = inl c' →
  ∃ vs, print_all (mk_print mk) (marks_of (mk_id mk) l) = inl vs ∧ get_list c' (mk_list mk) = get_list c (mk_list mk) ++ vs ∧
    (∀ j, j ≠ mk_list mk → get_list c' j = get_list c j) ∧ sc_out c' = sc_out c.
Proof.
  intros Hin Hfm Hpr He Hws Hlen Hs.
  assert (is_pure (mk_print mk) = true ∧ mk_fwords mk = Z.of_nat (words_needed (mk_print mk)) ∧ (mk_list mk < LIST_COUNT)%nat) as (Hp & Hw & Hli).
  { unfold mark_keyword_map in Hin. rewrite !elem_of_cons, elem_of_nil in Hin. destruct_or!; subst mk; try done; cbn; unfold LIST_SADDR, LIST_DADDR, LIST_SPORT, LIST_DPORT, LIST_COUNT; split_and!; (done || lia). }
  unfold scan_marks in Hs. rewrite (scan_loop_exact mk Hp Hw l _ c [] He) in Hs; [|lia|intros ws Hx; specialize (Hws ws Hx); lia].
  destruct (print_all (mk_print mk) (marks_of (mk_id mk) l)) as [vs|e] eqn:Ev; [|done]. cbn [cbind app] in Hs. rewrite Hfm in Hs. injection Hs as <-.
  exists vs. split; [done|].
  assert (sc_list (seen_after (mk_id mk) l c) = sc_list c ∧ sc_out (seen_after (mk_id mk) l c) = sc_out c) as [E1 E2] by (unfold seen_after; by case_match).
  destruct (push_all_list (mk_list mk) vs (seen_after (mk_id mk) l c)) as (A & B & C & _); [rewrite E1, Hlen; done|].
  rewrite A, C, E2. unfold get_list in *. rewrite E1 in *. split_and!; [done| |done]. intros j Hj. by rewrite B.
Qed.

End scans.

(** ** Samples *)

(** IPv4 addresses as the host prints them. *)
Definition dotted (alen : Z) (a : npf_addr_t) : string :=
  match a with
  | w :: _ => print_lu (w mod 256) +:+ "." +:+ print_lu (w / 2 ^ 8 mod 256) +:+ "." +:+ print_lu (w / 2 ^ 16 mod 256) +:+ "." +:+ print_lu (w / 2 ^ 24 mod 256)
  | [] => ""
  end.

(** A passing rule with the marks of the options of a sample. *)
Definition marked_rule (r : sample_rule) : comp nv_tree :=
  let! (_, marks, _) := sample_build r in
  inl (Libnpf.npf_rule_setinfo (npf_rule_create None (NPF_RULE_PASS ||| NPF_RULE_IN) None) (concat (NpfGroups.word_bytes <$> marks))).

Definition shown (r : sample_rule) : comp string :=
  let! rl := marked_rule r in
  let! c := npfctl_print_rule dotted Libnpf.npf_config_create npfctl_show_init rl 0 in inl (sc_out c).

Example web_rule_shown : shown web_rule =
  inl ("pass in family inet4 proto tcp from { 192.168.0.0/16, 10.0.0.0/8 } to any port 80 " +:+ newline).
Proof. vm_compute. reflexivity. Qed.

(** An inverted match is printed as the plain one: every mark that is seen
    replaces the note of the ones before, the negation included. *)
Theorem negation_not_shown : shown (from_rule AF_INET true [ip4 10 0 0 0 8]) = shown (from_rule AF_INET false [ip4 10 0 0 0 8]) ∧
  shown (from_rule AF_INET true [ip4 10 0 0 0 8]) = inl ("pass in family inet4 from 10.0.0.0/8 " +:+ newline).
Proof. vm_compute. auto. Qed.

(** Only the innermost group is closed: two groups, one of them in the other,
    open two brackets and close one. *)
Definition nested_groups : comp bconf :=
  let g n := mk_sgroup (Some n) NPF_RULE_IN None in
  let r := mk_srule NPF_RULE_PASS None AF_UNSPEC None (mk_fopts no_ap no_ap false false) None None in
  npfctl_compile (NV := nv_tree) (λ _, None) (mk_vars ∅ [] 0 1) (C_group (g "a"%string) (C_group (g "b"%string) (C_rule r C_nil) C_nil) C_nil)
    (mk_sgroup None 0 None) C_nil C_nil.

Fixpoint count_char (k : Z) (s : string) : nat := match s with EmptyString => 0 | String c s => (if ch c =? k then 1 else 0) + count_char k s end.

Theorem nested_group_brackets :
  (let! s := nested_groups in
   match b_conf s with
   | Some conf => let! c := show_parts dotted conf npfctl_show_init in inl (count_char 123 (sc_out c), count_char 125 (sc_out c))
   | None => inr E_segv
   end) = inl (3, 2)%nat.
Proof. vm_compute. reflexivity. Qed.

(** A NAT ruleset without an interface is accepted, and cannot be shown. *)
Theorem maprset_without_interface :
  (let! s := npfctl_build_maprset (NV := nv_tree) npfctl_config_init "map:x" 0 None in
   match b_conf s with Some conf => let! c := show_parts dotted conf npfctl_show_init in inl (sc_out c) | None => inr E_segv end) = inr E_assert.
Proof. vm_compute. reflexivity. Qed.

(** A table of the main configuration is not among those of a dynamic ruleset
    that is listed, so that its name is read through a null pointer. *)
Theorem ruleset_table_unnamed : print_table (NV := nv_tree) Libnpf.npf_config_create [0] = inr E_segv.
Proof. vm_compute. reflexivity. Qed.

End NpfShow.
