(* ===== verification/NpfClient.v ===== *)
(** * NpfClient: requests from npfctl (src/libnpf/npf.c, src/npfctl/npf_cmd.c)

    The part of libnpf that talks to the kernel, and the commands of npfctl
    for dynamic rules, tables and connections.  The descriptor is a [channel]:
    what it is (a socket or the device), how a request is answered and how the
    kernel runs a table command; ClientFlow has the channels to the kernel.

    Parameters: the parser of a rule given as text, [nvlist_pack] and
    [nvlist_unpack], the hash of a rule, and how the host writes an address.
    [usage] and [errx] end the process: [E_errx]; a missing member that is read
    with [nvlist_get_number] ends it too: [E_abort]. *)

From S2P Require Import Prelude Nbuf Addr Cache Rewrite Tcpopt StateTcp State IfMap ConnKey Thmap Portmap Ruleset Tableset Conn Bpf NpfBpf NpfVar BpfComp NpfBuild NpfData Params Nvlist Rproc Alg NpfNat Libnpf NpfCtl CtlSave CtlTables NpfConf CtlOps NpfGroups NpfExt NpfMaps NpfShow.
From stdpp Require Import strings.
Open Scope Z_scope.
Open Scope npf_scope.

Module NpfClient.
Export NpfShow.
Export CtlOps (npf_op, IOC_NPF_LOAD, IOC_NPF_SAVE, IOC_NPF_RULE, IOC_NPF_CONN_LOOKUP, IOC_NPF_TABLE_REPLACE, IOC_other, EPROGMISMATCH, ENOTSUP,
  nvlist_nest_ops, dnvlist_get_nvlist, nvlist_add_nvlist, nvlist_members, nvlist_nest_laws).
Export Libnpf (NPF_CMD_RULE_ADD, NPF_CMD_RULE_REMOVE, NPF_CMD_RULE_REMKEY, NPF_CMD_RULE_LIST, NPF_CMD_RULE_FLUSH).
Export CtlTables (NPF_CMD_TABLE_LOOKUP, NPF_CMD_TABLE_ADD, NPF_CMD_TABLE_REMOVE, NPF_CMD_TABLE_LIST, NPF_CMD_TABLE_FLUSH).

Definition EIO : Z := 5.

(** The list without the nested list that is taken. *)
Class nvlist_take_ops (NV : Type) := { nvlist_take_nvlist : NV → string → NV }.

Class nvlist_take_laws (NV : Type) `{nvlist_ops NV, !nvlist_array_ops NV, !nvlist_nest_ops NV, !nvlist_take_ops NV} := {
  nt_take : ∀ nv n m, dnvlist_get_nvlist (nvlist_take_nvlist nv n) m = (if decide (m = n) then None else dnvlist_get_nvlist nv m);
  nt_array : ∀ nv n d, dnvlist_get_nvlist nv n = Some d → nvlist_get_nvlist_array (nvlist_take_nvlist nv n) n = None;
}.

(** What a descriptor is; the version that the device reports, or the error. *)
Inductive fd_kind := FD_socket | FD_device (kernver : Z + Z) | FD_other.

(** The sign, digits up to the first other character, clamped to 64 bits; as
    a number modulo 2^64. *)
Definition strtoull16 (s : string) : Z :=
  let '(neg, t) := scan_sign (skip_space s) in
  let t := match t with
           | String z (String x (String d t')) => if (ch z =? 48) && (tolower x =? 120) && bool_decide (is_Some (digit_val 16 d)) then String d t' else t
           | _ => t
           end in
  let v := (scan_digits 16 t 0).1 in
  if 2 ^ 64 - 1 <? v then 2 ^ 64 - 1 else u64 (if neg then - v else v).

(** ** Options of a command *)

(** [getopt]: the options with their arguments, and the rest.  [spec]: whether
    a known option has an argument.  An unknown option or a missing argument is
    reported, and the callers give up. *)
Section getopt.
Context (spec : Z → option bool).

Fixpoint cluster (s : string) (rest : list string) : option (list (Z * option string) * list string) :=
  match s with
  | EmptyString => Some ([], rest)
  | String c s =>
      has_arg ← spec (ch c);
      if negb has_arg then '(l, rest) ← cluster s rest; Some ((ch c, None) :: l, rest)
      else match s, rest with
           | String _ _, _ => Some ([(ch c, Some s)], rest)
           | EmptyString, arg :: rest => Some ([(ch c, Some arg)], rest)
           | EmptyString, [] => None
           end
  end.

Fixpoint getopt (fuel : nat) (args : list string) : option (list (Z * option string) * list string) :=
  match fuel, args with
  | S fuel, String d (String c s) :: rest =>
      if negb (ch d =? 45) then Some ([], args)
      else if (ch c =? 45) && bool_decide (s = EmptyString) then Some ([], rest)
      else '(l, rest) ← cluster (String c s) rest; '(l', rest) ← getopt fuel rest; Some (l ++ l', rest)
  | _, _ => Some ([], args)
  end.
End getopt.

(** ** libnpf *)

Section client.
Context {W NV : Type} {NO : nvlist_ops NV} {NA : nvlist_array_ops NV} {NN : nvlist_nest_ops NV} {NT : nvlist_take_ops NV}.

(** The answer of the kernel to a table command: the error, 0 for success, and
    the entries that it copied out. *)
Record channel := mk_chan {
  ch_code : npf_op → Z;
  ch_stat : W → Z + fd_kind;
  ch_xfer : W → npf_op → NV → (Z + NV) * W;
  ch_table : W → string → Z → Z → npf_addr_t → Z → Z → Z * list (npf_addr_t * Z * Z) * W;
}.

Context (dev : channel).
Implicit Types (w : W) (ncf : nl_config (NV := NV)).

Record npf_error := mk_nerr { ne_id : Z; ne_msg : option string; ne_file : option string; ne_line : Z }.

(** With the details if there is an error. *)
Definition _npf_extract_error (resp : NV) : Z * option npf_error :=
  let error := s32 (dnvlist_get_number resp "errno" 0) in
  (error, if negb (error =? 0)
          then Some (mk_nerr (s64 (dnvlist_get_number resp "id" 0)) (dnvlist_get_string resp "error-msg") (dnvlist_get_string resp "source-file")
                       (u32 (dnvlist_get_number resp "source-line" 0)))
          else None).

(** The response, or [errno] as the failed call left it. *)
Definition xfer w (op : npf_op) (req : NV) : (Z + NV) * W :=
  let req := if nvlist_exists_number req "version" then req else nvlist_add_number req "version" Libnpf.NPF_VERSION in
  let req := nvlist_add_number req "operation" (ch_code dev op) in
  match ch_stat dev w with
  | inl errno => (inl errno, w)
  | inr FD_socket => ch_xfer dev w op req
  | inr (FD_device (inl errno)) => (inl errno, w)
  | inr (FD_device (inr kernver)) => if negb (kernver =? Libnpf.NPF_VERSION) then (inl EPROGMISMATCH, w) else ch_xfer dev w op req
  | inr FD_other => (inl ENOTSUP, w)
  end.

Definition _npf_xfer_fd w (op : npf_op) (req : NV) : (Z + NV) * W :=
  match xfer w op req with
  | (inl errno, w) => (inl (if errno =? 0 then EIO else errno), w)
  | r => r
  end.

Definition _npf_xfer_fd_errno w (op : npf_op) (req : NV) : Z * W :=
  match _npf_xfer_fd w op req with
  | (inl error, w) => (error, w)
  | (inr resp, w) => ((_npf_extract_error resp).1, w)
  end.

(** [fuel] for the nesting of the rules, see [Libnpf.npf_config_build]. *)
Definition npf_config_submit (fuel : nat) w ncf : option (Z * option npf_error * W) :=
  ncf ← Libnpf.npf_config_build fuel ncf;
  Some (match _npf_xfer_fd w IOC_NPF_LOAD (ncf_dict ncf) with
        | (inl error, w) => (error, None, w)
        | (inr resp, w) => (_npf_extract_error resp, w)
        end).

Definition received (resp : NV) : nl_config := mk_ncf resp [] (replicate Libnpf.NCF_REDUCE_LEN 0) 0.

(** The configuration, or [errno] as it is left: an error that the response
    reports does not set it. *)
Definition npf_config_retrieve w : (Z + nl_config) * W :=
  match xfer w IOC_NPF_SAVE nvlist_create with
  | (inl errno, w) => (inl errno, w)
  | (inr resp, w) => (if (_npf_extract_error resp).1 =? 0 then inr (received resp) else inl 0, w)
  end.

Definition npf_config_export (nvlist_pack : NV → option (list Z)) (fuel : nat) ncf : option (option (list Z)) :=
  ncf ← Libnpf.npf_config_build fuel ncf; Some (nvlist_pack (ncf_dict ncf)).
Definition npf_config_import (nvlist_unpack : list Z → option NV) (blob : list Z) : option nl_config := received <$> nvlist_unpack blob.

(** *** Parameters *)

Definition npf_param_get ncf (name : string) : Z * option Z :=
  match dnvlist_get_nvlist (ncf_dict ncf) "params" with
  | Some params => if nvlist_exists_number params name then (0, Some (s32 (dnvlist_get_number params name 0))) else (ENOENT, None)
  | None => (ENOENT, None)
  end.

Definition npf_param_set ncf (name : string) (val : Z) : nl_config :=
  let dict := ncf_dict ncf in
  let '(params, dict) := match dnvlist_get_nvlist dict "params" with
                         | Some params => (params, nvlist_take_nvlist dict "params")
                         | None => (nvlist_create, dict)
                         end in
  let params := if nvlist_exists_number params name then nvlist_take_number params name else params in
  let params := nvlist_add_number params name (u64 val) in
  Libnpf.set_dict ncf (nvlist_add_nvlist dict "params" params).

(** The members from [iter] on; the ones that are no numbers are skipped. *)
Fixpoint next_number (l : list (string * option Z)) (iter : Z) : option (string * Z * Z) :=
  match l with
  | [] => None
  | (name, Some v) :: _ => Some (name, v, iter + 1)
  | (_, None) :: l => next_number l (iter + 1)
  end.

(** The name with its value and, if asked for, its default; and the iterator. *)
Definition npf_param_iterate ncf (iter : Z) (defval : bool) : comp (option (string * Z * option Z) * Z) :=
  match dnvlist_get_nvlist (ncf_dict ncf) "params" with
  | None => inl (None, iter)
  | Some params =>
      match next_number (drop (Z.to_nat iter) (nvlist_members params)) iter with
      | None => inl (None, Libnpf.NPF_ITER_BEGIN)
      | Some (name, v, iter') =>
          if defval then
            match dnvlist_get_nvlist (ncf_dict ncf) "params-defaults" with
            | None => inl (None, iter)
            | Some dparams =>
                if nvlist_exists_number dparams name then inl (Some (name, s32 v, Some (s32 (dnvlist_get_number dparams name 0))), iter')
                else inr E_abort
            end
          else inl (Some (name, s32 v, None), iter')
      end
  end.

(** *** Dynamic rules: the requests are those of [Libnpf] *)

Definition npf_ruleset_add w (rname : string) (rl : NV) : comp (Z * Z * W) :=
  match Libnpf.npf_ruleset_add rname rl with
  | inl error => inl (error, 0, w)
  | inr req =>
      match _npf_xfer_fd w IOC_NPF_RULE req with
      | (inl error, w) => inl (error, 0, w)
      | (inr resp, w) => if nvlist_exists_number resp "id" then inl (0, dnvlist_get_number resp "id" 0, w) else inr E_abort
      end
  end.

Definition npf_ruleset_remove w (rname : string) (id : Z) : Z * W := _npf_xfer_fd_errno w IOC_NPF_RULE (Libnpf.npf_ruleset_remove rname id).
Definition npf_ruleset_remkey w (rname : string) (key : list Z) : Z * W := _npf_xfer_fd_errno w IOC_NPF_RULE (Libnpf.npf_ruleset_remkey rname key).
Definition npf_ruleset_flush w (rname : string) : Z * W := _npf_xfer_fd_errno w IOC_NPF_RULE (Libnpf.npf_ruleset_flush rname).

(** The error and the rules. *)
Definition _npf_ruleset_list w (rname : string) : Z * list NV * W :=
  match _npf_xfer_fd w IOC_NPF_RULE (Libnpf._npf_ruleset_list rname) with
  | (inl error, w) => (error, [], w)
  | (inr resp, w) => (0, default [] (nvlist_get_nvlist_array resp "rules"), w)
  end.

(** *** Tables *)

(** [errno] is returned when the transfer fails. *)
Definition npf_table_replace (garbage : Z → list Z) (cdbw_output : list (list Z) → Z + Z) w (tl : NV) : Z * option npf_error * W :=
  let '(error, tl) := Libnpf._npf_table_build_const garbage cdbw_output tl in
  if negb (error =? 0) then (error, None, w) else
  match xfer w IOC_NPF_TABLE_REPLACE tl with
  | (inl errno, w) => (errno, None, w)
  | (inr resp, w) => (_npf_extract_error resp, w)
  end.

(** *** Connections *)

(** The length, 0 if it is none of an address; the buffer is left alone then. *)
Definition _npf_get_addr (nvl : NV) (name : string) (addr : npf_addr_t) : comp (Z * npf_addr_t) :=
  match dnvlist_get_binary nvl name with
  | None => inr E_abort
  | Some d =>
      if (length d =? 4)%nat || (length d =? 16)%nat
      then inl (Z.of_nat (length d), NpfNat.addr_of_bytes (d ++ drop (length d) (NpfNat.bytes_of_addr addr 16)))
      else inl (0, addr)
  end.

Definition get_port (nvl : NV) (name : string) : comp Z :=
  if nvlist_exists_number nvl name then inl (bswap16 (u16 (dnvlist_get_number nvl name 0))) else inr E_abort.

(** The key of a lookup; [None] for an unknown family. *)
Definition conn_key_nv (af : Z) (addr0 addr1 : npf_addr_t) (port0 port1 proto : Z) (ifname : option string) (di : Z) : option NV :=
  nv ← Libnpf._npf_add_addr nvlist_create "saddr" af addr0;
  nv ← Libnpf._npf_add_addr nv "daddr" af addr1;
  let nv := nvlist_add_number (nvlist_add_number (nvlist_add_number nv "sport" (bswap16 port0)) "dport" (bswap16 port1)) "proto" proto in
  let nv := match ifname with Some n => nvlist_add_string nv "ifname" n | None => nv end in
  Some (if negb (di =? 0) then nvlist_add_number nv "di" di else nv).

Record natpair := mk_pair { pa_addr0 : npf_addr_t; pa_addr1 : npf_addr_t; pa_port0 : Z; pa_port1 : Z }.

(** The addresses and ports are replaced by the original and translated ones. *)
Definition _npf_conn_lookup w (af : Z) (a : natpair) (proto : Z) (ifname : option string) (di : Z) : comp (Z * natpair * W) :=
  match conn_key_nv af (pa_addr0 a) (pa_addr1 a) (pa_port0 a) (pa_port1 a) proto ifname di with
  | None => inl (EINVAL, a, w)
  | Some key_nv =>
      match _npf_xfer_fd w IOC_NPF_CONN_LOOKUP (nvlist_add_nvlist nvlist_create "key" key_nv) with
      | (inl error, w) => inl (error, a, w)
      | (inr resp, w) =>
          match dnvlist_get_nvlist resp "nat" with
          | None => inl (ENOENT, a, w)
          | Some nat =>
              let! (l0, addr0) := _npf_get_addr nat "oaddr" (pa_addr0 a) in
              let a := mk_pair addr0 (pa_addr1 a) (pa_port0 a) (pa_port1 a) in
              if l0 =? 0 then inl (EINVAL, a, w) else
              let! (l1, addr1) := _npf_get_addr nat "taddr" (pa_addr1 a) in
              let a := mk_pair addr0 addr1 (pa_port0 a) (pa_port1 a) in
              if l1 =? 0 then inl (EINVAL, a, w) else
              let! p0 := get_port nat "oport" in
              let! p1 := get_port nat "tport" in
              inl (0, mk_pair addr0 addr1 p0 p1, w)
          end
      end
  end.

Definition npf_nat_lookup w (af : Z) (a : natpair) (proto di : Z) : comp (Z * natpair * W) :=
  let! (error, a, w) := _npf_conn_lookup w af (mk_pair (pa_addr0 a) (pa_addr1 a) (bswap16 (pa_port0 a)) (bswap16 (pa_port1 a))) proto None 0 in
  inl (error, mk_pair (pa_addr0 a) (pa_addr1 a) (bswap16 (pa_port0 a)) (bswap16 (pa_port1 a)), w).

Record npf_connpoint := mk_cp { cp_alen : Z; cp_proto : Z; cp_addr : list npf_addr_t; cp_port : list Z }.

Definition zero_addr : npf_addr_t := [0; 0; 0; 0].

Definition npf_connkey_handle (key_nv : option NV) : comp (option npf_connpoint) :=
  match key_nv with
  | None => inr E_segv
  | Some key =>
      let! (alen1, a0) := _npf_get_addr key "saddr" zero_addr in
      let! (alen2, a1) := _npf_get_addr key "daddr" zero_addr in
      if (alen1 =? 0) || negb (alen1 =? alen2) then inl None else
      let! p0 := get_port key "sport" in
      let! p1 := get_port key "dport" in
      if nvlist_exists_number key "proto" then inl (Some (mk_cp alen1 (u32 (dnvlist_get_number key "proto" 0)) [a0; a1; zero_addr] [p0; p1; 0]))
      else inr E_abort
  end.

(** What the function is called with; [None] if it is not called. *)
Definition npf_conn_handle (conn : NV) : comp (option (npf_connpoint * option string)) :=
  let ifname := dnvlist_get_string conn "ifname" in
  let! ep := npf_connkey_handle (dnvlist_get_nvlist conn "forw-key") in
  match ep with
  | None => inl None
  | Some ep =>
      match dnvlist_get_nvlist conn "nat" with
      | None => inl (Some (ep, ifname))
      | Some nat =>
          let! (l, a2) := _npf_get_addr nat "taddr" zero_addr in
          if negb (l =? cp_alen ep) then inl None else
          let! p2 := get_port nat "tport" in
          inl (Some (mk_cp (cp_alen ep) (cp_proto ep) (<[2%nat := a2]> (cp_addr ep)) (<[2%nat := p2]> (cp_port ep)), ifname))
      end
  end.

(** [func] with its state; the result is [errno]. *)
Definition npf_conn_list {A} w (func : npf_connpoint → option string → A → comp A) (a : A) : comp (Z * A * W) :=
  match npf_config_retrieve w with
  | (inl errno, w) => inl (errno, a, w)
  | (inr ncf, w) =>
      let! a := cfold (λ a conn, let! c := npf_conn_handle conn in match c with Some (ep, ifname) => func ep ifname a | None => inl a end)
                  (default [] (nvlist_get_nvlist_array (ncf_dict ncf) "conn-list")) a in
      inl (0, a, w)
  end.

(** ** Commands of npfctl *)

(** The hash of a rule, the packed form of a list, the parser ([true]: of a
    [map] statement), the files of the host and its notation of addresses
    ("%A": with the name of the host). *)
Context (sha1 : list Z → list Z) (nvlist_pack : NV → option (list Z)) (parse_string : string → bool → comp (option NV)).
Context (read_file : string → option (list string)) (addr_fmt : string → Z → npf_addr_t → string) (N : netdb).
Context (garbage : Z → list Z) (cdbw_output : list (list Z) → Z + Z).

Definition npfctl_generate_key (rl : NV) : comp (list Z) :=
  match nvlist_pack rl with
  | None => inr E_errx
  | Some meta => let md := sha1 meta in inl (md ++ replicate (Ruleset.NPF_RULE_MAXKEYLEN - length md) 0)
  end.

Definition npfctl_parse_rule (args : list string) (entry : bool) : comp NV :=
  let! s := join 1024 args " " in
  match s with
  | None => inr E_errx
  | Some s => let! rl := parse_string s entry in match rl with Some rl => inl rl | None => inr E_errx end
  end.

Definition ruleops : list (string * Z * bool) :=
  [("add", NPF_CMD_RULE_ADD, true); ("rem", NPF_CMD_RULE_REMKEY, true); ("del", NPF_CMD_RULE_REMKEY, true); ("rem-id", NPF_CMD_RULE_REMOVE, true);
   ("list", NPF_CMD_RULE_LIST, false); ("flush", NPF_CMD_RULE_FLUSH, false)]%string.

(** What is printed, and the state after it. *)
Definition npfctl_rule w (args : list string) : comp (string * W) :=
  match args with
  | ruleset_name :: cmd :: args =>
      match find (λ '(c, _, _), String.eqb cmd c) ruleops with
      | None => inr E_errx
      | Some (_, action, extra_arg) =>
          if extra_arg && bool_decide (args = []) then inr E_errx else
          let '(err, natset) := npfctl_nat_ruleset_p ruleset_name in
          if negb (err =? 0) then inr E_errx else
          let! (error, out, w) :=
            (if action =? NPF_CMD_RULE_ADD then
               let! rl := npfctl_parse_rule args natset in
               let! key := npfctl_generate_key rl in
               let! (error, id, w) := npf_ruleset_add w ruleset_name (Libnpf.npf_rule_setkey rl key) in
               inl (error, ("OK " +:+ print_hex id +:+ newline)%string, w)
             else if action =? NPF_CMD_RULE_REMKEY then
               let! rl := npfctl_parse_rule args natset in
               let! key := npfctl_generate_key rl in
               let '(error, w) := npf_ruleset_remkey w ruleset_name key in inl (error, ""%string, w)
             else if action =? NPF_CMD_RULE_REMOVE then
               let '(error, w) := npf_ruleset_remove w ruleset_name (strtoull16 (hd ""%string args)) in inl (error, ""%string, w)
             else if action =? NPF_CMD_RULE_LIST then
               let '(error, rules, w) := _npf_ruleset_list w ruleset_name in
               if negb (error =? 0) then inl (error, ""%string, w) else
               let! c := npfctl_ruleset_show (addr_fmt "%a") (Libnpf.npf_config_create (NV := NV)) rules in inl (0, sc_out c, w)
             else let '(error, w) := npf_ruleset_flush w ruleset_name in inl (error, ""%string, w)) in
          if error =? 0 then inl (out, w) else inr E_errx
      end
  | _ => inr E_segv
  end.

Definition npfctl_table_type (typename : string) : Z :=
  match find (λ '(n, _), String.eqb typename n) [("ipset", NPF_TABLE_IPSET); ("lpm", NPF_TABLE_LPM); ("const", NPF_TABLE_CONST)]%string with
  | Some (_, type) => type
  | None => 0
  end.

(** The table is made from the lines of the file ("-" for the standard
    input), under the number of the table that is replaced. *)
Definition npfctl_table_replace w (args : list string) : comp W :=
  match args with
  | name :: _ :: args =>
      match getopt (λ c, if (c =? 110) || (c =? 116) then Some true else None) (length args) args with
      | None => inr E_errx
      | Some (opts, rest) =>
          let opt c := (λ '(_, a), default "" a)%string <$> last (base.filter (λ '(k, _), k = c) opts) in
          let newname := default name (opt 110) in
          let type := match opt 116 with Some n => npfctl_table_type n | None => 0 end in
          if bool_decide (is_Some (opt 116)) && (type =? 0) then inr E_errx else
          match rest with
          | [path] =>
              match read_file path with
              | None => inr E_errx
              | Some lines =>
                  match npf_config_retrieve w with
                  | (inl _, _) => inr E_errx
                  | (inr ncf, w) =>
                      let! t := npfctl_table_getbyname (Some ncf) name in
                      match t with
                      | None => inr E_errx
                      | Some t =>
                          let tid := Libnpf.npf_table_getid t in
                          let type := if type =? 0 then npf_table_gettype t else type in
                          let! tl := npfctl_load_table N newname tid type (Some (Some lines)) in
                          let '(error, _, w) := npf_table_replace garbage cdbw_output w tl in
                          if negb (error =? 0) then inr E_errx else inl w
                      end
                  end
              end
          | _ => inr E_errx
          end
      end
  | _ => inr E_segv
  end.

(** *** Tables *)

Definition tblops : list (string * Z) :=
  [("add", NPF_CMD_TABLE_ADD); ("rem", NPF_CMD_TABLE_REMOVE); ("del", NPF_CMD_TABLE_REMOVE); ("test", NPF_CMD_TABLE_LOOKUP);
   ("list", NPF_CMD_TABLE_LIST); ("flush", NPF_CMD_TABLE_FLUSH)]%string.

(** A list is asked for with buffers of twice the size until it fits: the
    entries and the size of the buffer. *)
Fixpoint table_buffer (fuel : nat) w (name : string) (buflen : Z) : option (comp (list (npf_addr_t * Z * Z) * Z * W)) :=
  match fuel with
  | O => None
  | S fuel =>
      let '(error, out, w) := ch_table dev w name NPF_CMD_TABLE_LIST 0 zero_addr 0 buflen in
      if error =? 0 then Some (inl (out, buflen, w))
      else if error =? ENOMEM then table_buffer fuel w name (u64 (buflen <<< 1))
      else Some (inr E_errx)
  end.

(** The entries are at the start of the zeroed buffer of [buflen] bytes; the
    loop runs until an entry without a length, [n] times at most. *)
Fixpoint list_entries (n : nat) (buflen off : Z) (out : list (npf_addr_t * Z * Z)) : comp (list string) :=
  match n with
  | O => inl []
  | S n =>
      if buflen <? off + 4 then inr E_segv else
      match out with
      | [] => inl []
      | (addr, alen, mask) :: out =>
          if alen =? 0 then inl [] else
          let! buf := npfctl_print_addrmask (addr_fmt "%a") alen addr mask in
          let! l := list_entries n buflen (off + sizeof_npf_ioctl_ent) out in
          inl (buf :: l)
      end
  end.

(** [memcpy] of [alen] bytes into the zeroed request. *)
Definition ent_addr (addr : npf_addr_t) (alen : Z) : npf_addr_t := NpfNat.addr_of_bytes (NpfNat.bytes_of_addr addr alen).

(** The lines that are printed. *)
Definition npfctl_table (fuel : nat) w (args : list string) : option (comp (list string * W)) :=
  match args with
  | name :: cmd :: args =>
      match find (λ '(c, _), String.eqb cmd c) tblops with
      | None => Some (inr E_errx)
      | Some (_, action) =>
          if action =? NPF_CMD_TABLE_LIST then
            r ← table_buffer fuel w name 512;
            Some (let! (out, buflen, w) := r in let! l := list_entries (Z.to_nat buflen) buflen 0 out in inl (l, w))
          else if action =? NPF_CMD_TABLE_FLUSH then
            let '(error, _, w) := ch_table dev w name action 0 zero_addr 0 0 in
            Some (if error =? 0 then inl (["npfctl: success"%string], w) else inr E_errx)
          else
            match args with
            | [] => Some (inr E_errx)
            | arg :: _ =>
                Some (let! c := npfctl_parse_cidr N arg in
                      match c with
                      | None => inr E_errx
                      | Some (fam, alen) =>
                          let '(error, _, w) := ch_table dev w name action alen (ent_addr (fam_addr fam) alen) (fam_mask fam) 0 in
                          if error =? 0 then inl ([if action =? NPF_CMD_TABLE_LOOKUP then "npfctl: match"%string else "npfctl: success"%string], w)
                          else inr E_errx
                      end)
            end
      end
  | _ => Some (inr E_segv)
  end.

(** *** Connections *)

Record npf_conn_filter := mk_fil {
  fl_alen : Z; fl_ifname : option string; fl_nat : bool; fl_nowide : bool; fl_name : bool; fl_v4 : bool; fl_pwidth : nat;
}.

(** ["%-*s"]. *)
Definition pad (width : nat) (s : string) : string := s +:+ String.concat "" (replicate (width - String.length s) " "%string).

(** The line of a connection, if the filter lets it through. *)
Definition npfctl_conn_print (fil : npf_conn_filter) (ep : npf_connpoint) (ifname : option string) : comp (option string) :=
  let a i := default zero_addr (cp_addr ep !! i) in
  let p i := default 0 (cp_port ep !! i) in
  if negb (cp_alen ep =? fl_alen fil) then inl None
  else if bool_decide (is_Some (fl_ifname fil)) && negb (bool_decide (ifname = fl_ifname fil)) then inl None
  else
    let nat_conn := negb (npfctl_addr_iszero (a 2%nat)) || negb (p 2%nat =? 0) in
    if fl_nat fil && negb nat_conn then inl None else
    let fmt := (if fl_name fil then "%A" else if fl_v4 fil then "%a" else "[%a]")%string in
    let str i := npfctl_print_addrmask (addr_fmt fmt) (cp_alen ep) (a i) NPF_NO_NETMASK in
    let! src := str 0%nat in
    let! dst := str 1%nat in
    let line := pad (fl_pwidth fil) (src +:+ ":" +:+ print_lu (p 0%nat)) +:+ " " +:+ pad (fl_pwidth fil) (dst +:+ ":" +:+ print_lu (p 1%nat)) +:+ " " +:+
      pad 10 (default "-"%string ifname) +:+ " " in
    let! nat := (if nat_conn then let! s := str 2%nat in inl (s +:+ (if negb (p 2%nat =? 0) then ":" +:+ print_lu (p 2%nat) else "")) else inl ""%string) in
    inl (Some (line +:+ nat +:+ newline)).

Definition npf_conn_list_v w (alen : Z) (f : npf_conn_filter) (out : string) : comp (string * W) :=
  let v4 := alen =? 4 in
  let f := mk_fil alen (fl_ifname f) (fl_nat f) (fl_nowide f) (fl_name f) v4 (if fl_nowide f then 0 else (if v4 then 15 else 40) + 1 + 5) in
  let! (error, out, w) := npf_conn_list w (λ ep ifname out, let! s := npfctl_conn_print f ep ifname in inl (out +:+ default ""%string s)) out in
  if error =? 0 then inl (out, w) else inr E_errx.

(** The options -4, -6, -h, -i, -n, -N and -W; [args] after the command. *)
Definition conn_opt (c : Z) : option bool :=
  if existsb (Z.eqb c) [52; 54; 104; 110; 78; 87] then Some false else if c =? 105 then Some true else None.

Definition npfctl_conn_list w (args : list string) : comp (string * W) :=
  match getopt conn_opt (length args) args with
  | None => inr E_errx
  | Some (opts, _) =>
      let has c := existsb (λ o, o.1 =? c) opts in
      let alen := default 0 (last (omap (λ o, if o.1 =? 52 then Some 4 else if o.1 =? 54 then Some 16 else None) opts)) in
      let ifname := last (omap (λ o, if o.1 =? 105 then o.2 else None) opts) in
      let f := mk_fil 0 ifname (has 110) (has 87) (has 78) false 0 in
      let out := (if negb (has 104)
                  then "# " +:+ pad 19 "src-addr:port" +:+ " " +:+ pad 21 "dst-addr:port" +:+ " " +:+ pad 10 "interface" +:+ " nat-addr:port" +:+ newline
                  else "")%string in
      let! (out, w) := (if (alen =? 0) || (alen =? 4) then npf_conn_list_v w 4 f out else inl (out, w)) in
      if (alen =? 0) || (alen =? 16) then npf_conn_list_v w 16 f out else inl (out, w)
  end.

End client.

(** ** Numbers of rules *)

Definition hex_char (d : Z) : Ascii.ascii := Ascii.ascii_of_N (Z.to_N (if d <? 10 then 48 + d else 87 + d)).

(** A digit that [print_hex] writes: it is read as itself, and is neither a
    space nor a sign nor the letter of a prefix. *)
Lemma hex_char_spec d : 0 <= d < 16 → digit_val 16 (hex_char d) = Some d ∧ isspace (hex_char d) = false ∧ ch (hex_char d) =? 45 = false ∧
  ch (hex_char d) =? 43 = false ∧ tolower (hex_char d) =? 120 = false.
Proof.
  intros Hd. assert (Forall (λ d, digit_val 16 (hex_char d) = Some d ∧ isspace (hex_char d) = false ∧ ch (hex_char d) =? 45 = false ∧
    ch (hex_char d) =? 43 = false ∧ tolower (hex_char d) =? 120 = false) (seqZ 0 16)) as Hall by (repeat constructor).
  rewrite Forall_forall in Hall. apply Hall, elem_of_seqZ. lia.
Qed.

(** A string of such digits, whose value is [n]. *)
Lemma hex_digits_spec fuel n acc : 0 <= n < 16 ^ Z.of_nat (S fuel) → ∃ ds,
  ds ≠ [] ∧ Forall (λ d, 0 <= d < 16) ds ∧ foldl (λ a d, a * 16 + d) 0 ds = n ∧
  hex_digits (S fuel) n acc = foldr (λ d s, String (hex_char d) s) acc ds.
Proof.
  revert n acc. induction fuel as [|fuel IH]; intros n acc Hn.
  - change (16 ^ Z.of_nat 1) with 16 in Hn. exists [n]. split_and!; [done|by constructor|cbn; lia|].
    cbn [hex_digits foldr]. rewrite Z.mod_small, Z.div_small by lia. done.
  - cbn [hex_digits]. pose proof (Z.mod_pos_bound n 16 ltac:(lia)) as Hm. pose proof (Z.div_mod n 16 ltac:(lia)) as Hd.
    destruct (Z.eqb_spec (n / 16) 0) as [Hz|Hz].
    + exists [n mod 16]. split_and!; [done|by constructor|cbn; lia|done].
    + rewrite Nat2Z.inj_succ, Z.pow_succ_r in Hn by lia.
      destruct (IH (n / 16) (String (hex_char (n mod 16)) acc)) as (ds & H1 & H2 & H3 & H4).
      { split; [apply Z.div_pos; lia|apply Z.div_lt_upper_bound; lia]. }
      exists (ds ++ [n mod 16]). split_and!.
      * by destruct ds.
      * apply Forall_app. split; [done|by constructor].
      * rewrite foldl_app, H3. cbn. lia.
      * rewrite foldr_app. exact H4.
Qed.

Lemma scan_hex ds a : Forall (λ d, 0 <= d < 16) ds →
  scan_digits 16 (foldr (λ d s, String (hex_char d) s) ""%string ds) a = (foldl (λ a d, a * 16 + d) a ds, ""%string).
Proof.
  revert a. induction ds as [|d ds IH]; intros a Hds; [done|]. apply Forall_cons in Hds as [Hd Hds]. cbn [foldr scan_digits].
  destruct (hex_char_spec d Hd) as (-> & _). by apply IH.
Qed.

(** The number that is printed for an added rule is the one that [rem-id]
    reads. *)
Lemma strtoull16_print_hex n : inw 64 n → strtoull16 (print_hex n) = n.
Proof.
  intros Hn. unfold inw in Hn. change (2 ^ 64) with (16 ^ Z.of_nat 16) in Hn.
  destruct (hex_digits_spec 15 n ""%string Hn) as (ds & H1 & H2 & H3 & H4). unfold print_hex. rewrite H4. clear H4.
  unfold strtoull16. destruct ds as [|d ds]; [done|]. apply Forall_cons in H2 as [Hd Hds]. cbn [foldr skip_space].
  destruct (hex_char_spec d Hd) as (Ed & -> & Em & Ep & _). cbn [scan_sign]. rewrite Em, Ep.
  set (t := foldr _ _ ds).
  assert (match t with
    | String x (String d0 t') => if (ch (hex_char d) =? 48) && (tolower x =? 120) && bool_decide (is_Some (digit_val 16 d0)) then String d0 t' else String (hex_char d) t
    | _ => String (hex_char d) t end = String (hex_char d) t) as Et.
  { unfold t. destruct ds as [|x ds]; [done|]. cbn [foldr]. apply Forall_cons in Hds as [Hx _].
    destruct (hex_char_spec x Hx) as (_ & _ & _ & _ & ->). rewrite andb_false_r. cbn [andb]. by destruct (foldr _ _ ds). }
  assert (scan_digits 16 (String (hex_char d) t) 0 = (n, ""%string)) as Es.
  { rewrite <- H3. unfold t. apply (scan_hex (d :: ds) 0). by constructor. }
  replace (match t with EmptyString => _ | String x s => _ end) with (String (hex_char d) t).
  rewrite Es. cbn [fst]. change (16 ^ Z.of_nat 16) with (2 ^ 64) in Hn. rewrite (proj2 (Z.ltb_ge _ _)) by lia. by apply wrap_small.
Qed.

(** ** Parameters of a configuration *)

Section param_laws.
Context {NV : Type} {NO : nvlist_ops NV} {NL : nvlist_laws NV} {NA : nvlist_array_ops NV} {AL : nvlist_array_laws NV}
  {NN : nvlist_nest_ops NV} {NNL : nvlist_nest_laws NV} {NT : nvlist_take_ops NV} {NTL : nvlist_take_laws NV}.

(** A parameter that is set is read back; the others stay as they were. *)
Lemma npf_param_set_get (ncf : nl_config (NV := NV)) name val name' : - 2 ^ 31 <= val < 2 ^ 31 → nvlist_get_nvlist_array (ncf_dict ncf) "params" = None ∨
    is_Some (dnvlist_get_nvlist (ncf_dict ncf) "params") →
  npf_param_get (npf_param_set ncf name val) name' = if decide (name' = name) then (0, Some val) else npf_param_get ncf name'.
Proof.
  intros Hv Hok. unfold npf_param_set, npf_param_get.
  assert (∀ (params dict : NV), dnvlist_get_nvlist dict "params" = None → nvlist_get_nvlist_array dict "params" = None → 
    let params1 := (if nvlist_exists_number params name then nvlist_take_number params name else params) in
    match dnvlist_get_nvlist (nvlist_add_nvlist dict "params" (nvlist_add_number params1 name (u64 val))) "params" with
    | Some params => if nvlist_exists_number params name' then (0, Some (s32 (dnvlist_get_number params name' 0))) else (ENOENT, None)
    | None => (ENOENT, None)
    end = if decide (name' = name) then (0, Some val)
          else if nvlist_exists_number params name' then (0, Some (s32 (dnvlist_get_number params name' 0))) else (ENOENT, None)) as Hgen.
  { intros params dict Hn Ha params1. destruct (CtlOps.nn_add dict "params" (nvlist_add_number params1 name (u64 val)) Hn Ha "params"%string) as [-> _].
    rewrite decide_True by done.
    assert (∀ m, nv_number params1 m = if decide (m = name) then None else nv_number params m) as Hp1.
    { intros m. unfold params1. destruct (nvlist_exists_number params name) eqn:E; [apply nv_take_number|].
      case_decide; [subst; unfold nv_number; by rewrite E|done]. }
    assert (nv_number params1 name = None) as Hp2 by (by rewrite Hp1, decide_True).
    destruct (nv_add_number params1 name (u64 val) Hp2) as [Hadd _]. specialize (Hadd name'). rewrite nv_number_default. revert Hadd.
    unfold nv_number at 1. destruct (nvlist_exists_number (nvlist_add_number _ _ _) name') eqn:E.
    - unfold nv_number at 2. rewrite E. case_decide as En.
      + intros [= Hx]. cbn [default id]. rewrite Hx. by rewrite CtlOps.s32_u64.
      + rewrite Hp1, decide_False by done. intros Hx. cbn [default id]. unfold nv_number in Hx.
        destruct (nvlist_exists_number params name'); [|done]. by injection Hx as ->.
    - case_decide as En; [done|]. rewrite Hp1, decide_False by done. unfold nv_number. by destruct (nvlist_exists_number params name'). }
  destruct (dnvlist_get_nvlist (ncf_dict ncf) "params") as [params|] eqn:E; cbn [ncf_dict Libnpf.set_dict].
  - apply Hgen; [by rewrite nt_take, decide_True|by eapply nt_array].
  - rewrite Hgen; [|done|by destruct Hok as [|[? ?]]]. case_decide; [done|].
    pose proof (nv_create_empty (NV := NV) name') as (Hc & _). unfold nv_number in Hc. by destruct (nvlist_exists_number _ name').
Qed.
End param_laws.

End NpfClient.
