(* ===== verification/ClientFlow.v ===== *)
(** * ClientFlow: npfctl and the kernel together

    The channels of NpfClient that lead to the kernel side of CtlOps: the
    device [kernel_chan], which returns the error of a request instead of the
    response, and the socket [socket_chan], which always returns the response. *)

From S2P Require Import Prelude Nbuf Addr Cache Rewrite Tcpopt StateTcp State IfMap ConnKey Thmap Portmap Ruleset Tableset Conn Bpf NpfBpf NpfVar BpfComp NpfBuild NpfData Params Nvlist Rproc Alg NpfNat Libnpf NpfCtl CtlSave CtlTables NpfConf CtlOps NpfGroups NpfExt NpfMaps NpfShow NpfClient.
From stdpp Require Import strings.
Open Scope Z_scope.
Open Scope npf_scope.

Module ClientFlow.
Import CtlOps.
Import NpfVar (comp, cbind, comp_err, E_errx, E_assert, E_abort, E_yyerror, E_segv).

Section kernel.
Context {X DB NV IW ifnet TM M L C : Type} {RE : rule_env X} {LE : load_env X NV} {SE : save_env X NV} {CE : conf_env X DB NV IW} {EE : export_env X NV IW}.
Context {IO : npf_ifops_t IW ifnet} {NO : nvlist_ops NV} {NA : nvlist_array_ops NV} {NN : nvlist_nest_ops NV}.
Context {PO : thmap_ops npf_param_t TM} {BO : thmap_ops npf_tblent M} {LO : lpm_ops npf_tblent L} {CO : cdbr_ops C}.
Context (kmem : bool) (ioc : npf_op → Z).

Abbreviation npf := (npf (X := X) (IW := IW) (TM := TM) (M := M) (L := L) (C := C)).

(** [None] of the state is a kernel that failed. *)
Definition run (s : option npf) (op : npf_op) (req : NV) : option (Z * NV * npf) := s ← s; npfctl_run_op (DB := DB) kmem s op req.

(** [npfctl_table] on the tables of the active configuration. *)
Definition run_table (s : option npf) (name : string) (cmd alen : Z) (addr : npf_addr_t) (mask len : Z) : Z * list (npf_addr_t * Z * Z) * option npf :=
  match s with
  | None => (NpfClient.EIO, [], None)
  | Some s =>
      match np_config s ≫= cf_tableset with
      | None => (NpfClient.EIO, [], None)
      | Some ts =>
          let '(error, out, t) := CtlTables.npfctl_table kmem (np_tables s) ts name cmd alen addr mask len in
          (error, out, Some (set_tables s t))
      end
  end.

(** The device returns an error instead of the response. *)
Definition kernel_chan : NpfClient.channel (W := option npf) (NV := NV) :=
  NpfClient.mk_chan ioc (λ _, inr (NpfClient.FD_device (inr Libnpf.NPF_VERSION)))
    (λ s op req, match run s op req with
                 | Some (error, resp, s) => (if error =? 0 then inr resp else inl error, Some s)
                 | None => (inl NpfClient.EIO, None)
                 end) run_table.

Definition socket_chan : NpfClient.channel (W := option npf) (NV := NV) :=
  NpfClient.mk_chan ioc (λ _, inr NpfClient.FD_socket)
    (λ s op req, match run s op req with Some (_, resp, s) => (inr resp, Some s) | None => (inl 0, None) end) run_table.

End kernel.
(** ** Listing a table *)

(** The kernel copies all entries out, or reports that the buffer is too
    small. *)
Lemma table_list_loop_spec l off len out : table_list_loop l off len out =
  if off + sizeof_npf_ioctl_ent * Z.of_nat (length l) <=? Z.max len off then (0, out ++ l) else (ENOMEM, (table_list_loop l off len out).2).
Proof.
  revert off out. unfold sizeof_npf_ioctl_ent. induction l as [|e l IH]; intros off out; cbn [table_list_loop length].
  - rewrite (proj2 (Z.leb_le _ _)) by lia. by rewrite app_nil_r.
  - unfold sizeof_npf_ioctl_ent. rewrite Nat2Z.inj_succ. destruct (Z.ltb_spec len (off + 24)).
    + by rewrite (proj2 (Z.leb_gt _ _)) by lia.
    + rewrite IH. rewrite <- app_assoc. cbn [app snd].
      replace (off + 24 + 24 * Z.of_nat (length l)) with (off + 24 * Z.succ (Z.of_nat (length l))) by lia.
      replace (Z.max len (off + 24)) with (Z.max len off) by lia. by case_match.
Qed.

Lemma pow2_mod3 j : 0 <= j → 2 ^ j mod 3 ≠ 0.
Proof.
  intros Hj. rewrite <- (Z2Nat.id j Hj). induction (Z.to_nat j) as [|k IH]; [done|]. rewrite Nat2Z.inj_succ, Z.pow_succ_r by lia.
  intros E. apply IH. pose proof (Z.div_mod (2 * 2 ^ Z.of_nat k) 3 ltac:(lia)) as D. rewrite E in D.
  apply Z.mod_divide; [lia|]. apply (Z.gauss 3 2); [|done]. exists ((2 * 2 ^ Z.of_nat k) / 3). lia.
Qed.

(** A buffer of a power of two is never filled exactly: there is room for the
    length that ends the list. *)
Lemma list_room j n : 9 <= j → sizeof_npf_ioctl_ent * n <= 2 ^ j → sizeof_npf_ioctl_ent * n + 8 <= 2 ^ j.
Proof.
  intros Hj Hn. unfold sizeof_npf_ioctl_ent in *. replace j with (3 + (j - 3)) in * by lia. rewrite Z.pow_add_r in * by lia.
  change (2 ^ 3) with 8 in *. pose proof (pow2_mod3 (j - 3) ltac:(lia)) as Hm.
  assert (2 ^ (j - 3) ≠ 3 * n); [|lia]. intros E. apply Hm. rewrite E, Z.mul_comm. by apply Z.mod_mul.
Qed.

Lemma list_entries_all fmt n buflen off (out : list (npf_addr_t * Z * Z)) : (length out < n)%nat → Forall (λ e, e.1.2 = 4 ∨ e.1.2 = 16) out →
  off + sizeof_npf_ioctl_ent * Z.of_nat (length out) + 4 <= buflen →
  NpfClient.list_entries fmt n buflen off out = inl ((λ '(addr, alen, mask), NpfShow.addrmask (fmt "%a"%string) alen addr mask) <$> out).
Proof.
  unfold sizeof_npf_ioctl_ent. revert n off. induction out as [|[[addr alen] mask] out IH]; intros [|n] off Hn Hal Hb; cbn [length] in *; try lia;
    cbn [NpfClient.list_entries]; rewrite (proj2 (Z.ltb_ge _ _)) by lia; [done|].
  apply Forall_cons in Hal as [Ha Hal]. cbn in Ha. rewrite (proj2 (Z.eqb_neq alen 0)) by (destruct Ha as [-> | ->]; done).
  assert (NpfShow.npfctl_print_addrmask (fmt "%a"%string) alen addr mask = inl (NpfShow.addrmask (fmt "%a"%string) alen addr mask)) as -> by (by destruct Ha as [-> | ->]).
  cbn [cbind]. rewrite IH; [done|lia|done|unfold sizeof_npf_ioctl_ent; lia].
Qed.

Lemma table_gc_same {M L C} (t : npf_table (M := M) (L := L) (C := C)) : t_name (npf_table_gc t) = t_name t ∧ t_list (npf_table_gc t) = t_list t ∧
  (not_const t → not_const (npf_table_gc t)) ∧ npf_table_gc (npf_table_gc t) = npf_table_gc t.
Proof. unfold npf_table_gc, not_const. destruct (t_store t) eqn:E; cbn; rewrite ?E; done. Qed.

Section listing.
Context {X DB NV IW ifnet TM M L C : Type} {RE : rule_env X} {LE : load_env X NV} {SE : save_env X NV} {CE : conf_env X DB NV IW} {EE : export_env X NV IW}.
Context {IO : npf_ifops_t IW ifnet} {NO : nvlist_ops NV} {NA : nvlist_array_ops NV} {NN : nvlist_nest_ops NV} {NT : NpfClient.nvlist_take_ops NV}.
Context {PO : thmap_ops npf_param_t TM} {BO : thmap_ops npf_tblent M} {LO : lpm_ops npf_tblent L} {CO : cdbr_ops C}.
Context (kmem : bool) (ioc : npf_op → Z).

Abbreviation npf := (npf (X := X) (IW := IW) (TM := TM) (M := M) (L := L) (C := C)).
Implicit Types (s : npf).

Definition entries (t : npf_table (M := M) (L := L) (C := C)) : list (npf_addr_t * Z * Z) := (λ e, (te_addr e, te_alen e, te_preflen e)) <$> t_list t.

(** The table [t] of the active configuration has the name. *)
Record has_table s (name : string) (p : Z) (t : npf_table) : Prop := {
  ht_set : ∃ ts, np_config s ≫= cf_tableset = Some ts ∧ npf_tableset_getbyname (ts_heap (np_tables s)) ts name = Some p;
  ht_heap : ts_heap (np_tables s) !! p = Some t;
  ht_kind : not_const t;
}.

(** The state after a command on the table: its collected entries are freed. *)
Definition collected s (p : Z) (t : npf_table) : npf :=
  set_tables s (mk_tables (<[p := npf_table_gc t]> (ts_heap (np_tables s))) (ts_next (np_tables s)) (ts_ent (np_tables s))).

Lemma collected_has s name p t : has_table s name p t → has_table (collected s p t) name p (npf_table_gc t).
Proof.
  intros [(ts & Hc & Hn) Hh Hk]. destruct (table_gc_same t) as (G1 & _ & G3 & _). split; [|cbn; apply lookup_insert_eq|by apply G3].
  exists ts. split; [done|]. cbn [np_tables collected set_tables ts_heap]. rewrite <- Hn. clear Hn Hc.
  induction ts as [|[q|] ts IH]; cbn [npf_tableset_getbyname]; [done| |done].
  destruct (decide (q = p)) as [->|].
  - rewrite lookup_insert_eq, Hh, G1. by case_decide.
  - rewrite lookup_insert_ne by done. destruct (ts_heap (np_tables s) !! q); [|done]. by case_decide.
Qed.

Lemma collected_twice s p t : collected (collected s p t) p (npf_table_gc t) = collected s p t.
Proof.
  unfold collected. cbn [np_tables set_tables ts_heap ts_next ts_ent]. rewrite insert_insert_eq.
  destruct (table_gc_same t) as (_ & _ & _ & ->). reflexivity.
Qed.

Lemma run_list s name p t addr buflen : has_table s name p t → 0 <= buflen → ∃ out,
  run_table kmem (Some s) name NPF_CMD_TABLE_LIST 0 addr 0 buflen =
    ((if sizeof_npf_ioctl_ent * Z.of_nat (length (t_list t)) <=? buflen then 0 else ENOMEM, out), Some (collected s p t)) ∧
  (sizeof_npf_ioctl_ent * Z.of_nat (length (t_list t)) <= buflen → out = entries t).
Proof.
  intros [(ts & Hc & Hn) Hh Hk] Hb. unfold run_table. rewrite Hc. unfold CtlTables.npfctl_table. rewrite Hn, Hh.
  change (NPF_CMD_TABLE_LIST =? NPF_CMD_TABLE_LOOKUP) with false. change (NPF_CMD_TABLE_LIST =? NPF_CMD_TABLE_ADD) with false.
  change (NPF_CMD_TABLE_LIST =? NPF_CMD_TABLE_REMOVE) with false. change (NPF_CMD_TABLE_LIST =? NPF_CMD_TABLE_LIST) with true. cbv iota.
  assert (npf_table_list t buflen = table_list_loop (entries t) 0 buflen []) as ->.
  { unfold npf_table_list, not_const in *. by destruct (t_store t). }
  rewrite table_list_loop_spec. unfold entries at 1. rewrite length_fmap, Z.add_0_l. rewrite Z.max_l by lia.
  destruct (Z.leb_spec (sizeof_npf_ioctl_ent * Z.of_nat (length (t_list t))) buflen); eexists; (split; [reflexivity|]); [done|lia].
Qed.

Lemma table_buffer_list fuel : ∀ j s name p t, has_table s name p t → sizeof_npf_ioctl_ent * Z.of_nat (length (t_list t)) <= 2 ^ 62 → 9 <= j <= 62 →
  (Z.to_nat (62 - j) < fuel)%nat → ∃ j', 9 <= j' <= 62 ∧ sizeof_npf_ioctl_ent * Z.of_nat (length (t_list t)) <= 2 ^ j' ∧
    NpfClient.table_buffer (kernel_chan (DB := DB) kmem ioc) fuel (Some s) name (2 ^ j) = Some (inl (entries t, 2 ^ j', Some (collected s p t))).
Proof.
  induction fuel as [|fuel IH]; intros j s name p t Ht Hmax Hj Hf; [lia|]. cbn [NpfClient.table_buffer NpfClient.ch_table kernel_chan].
  destruct (run_list s name p t NpfClient.zero_addr (2 ^ j) Ht ltac:(lia)) as (out & -> & Hout). cbv iota beta.
  destruct (Z.leb_spec (sizeof_npf_ioctl_ent * Z.of_nat (length (t_list t))) (2 ^ j)) as [Hfit|Hfit].
  - exists j. split; [done|]. split; [done|]. rewrite Hout by done. reflexivity.
  - change (ENOMEM =? 0) with false. change (ENOMEM =? ENOMEM) with true. cbv iota.
    assert (j < 62) as Hj' by (destruct (Z.eq_dec j 62); [subst; lia|lia]).
    assert (u64 (2 ^ j <<< 1) = 2 ^ (j + 1)) as ->.
    { rewrite Z.shiftl_mul_pow2, <- Z.pow_add_r by lia. apply wrap_small. split; [lia|]. apply Z.pow_lt_mono_r; lia. }
    destruct (table_gc_same t) as (_ & G2 & _ & _).
    destruct (IH (j + 1) (collected s p t) name p (npf_table_gc t)) as (j' & H1 & H2 & H3); rewrite ?G2; [by apply collected_has|done|lia|lia|].
    exists j'. rewrite G2 in H2. split; [done|]. split; [done|]. rewrite H3, collected_twice. unfold entries. by rewrite G2.
Qed.

(** C36: [npfctl table <name> list] prints every entry of the table.  For a
    table that is not a constant one and whose entries are IPv4 and IPv6 addresses, with
    54 buffers of twice the size each (the last one of 2^62 bytes) at most, the
    command ends, prints one line for every entry in the order of the table
    and no other, and never reads behind the buffer that the kernel filled; the
    other tables stay as they are. *)
Theorem table_list_complete fmt N (s : npf) name p t : has_table s name p t →
  Forall (λ e, te_alen e = 4 ∨ te_alen e = 16) (t_list t) → sizeof_npf_ioctl_ent * Z.of_nat (length (t_list t)) <= 2 ^ 62 →
  NpfClient.npfctl_table (kernel_chan (DB := DB) kmem ioc) fmt N 54 (Some s) [name; "list"%string] =
    Some (inl ((λ e, NpfShow.addrmask (fmt "%a"%string) (te_alen e) (te_addr e) (te_preflen e)) <$> t_list t, Some (collected s p t))) ∧
  (∀ q, q ≠ p → ts_heap (np_tables (collected s p t)) !! q = ts_heap (np_tables s) !! q).
Proof.
  intros Ht Hal Hmax. split; [|intros q Hq; by apply lookup_insert_ne].
  destruct (table_buffer_list 54 9 s name p t Ht Hmax ltac:(lia) ltac:(vm_compute; lia)) as (j & Hj & Hfit & Hb).
  change (2 ^ 9) with 512 in Hb. unfold NpfClient.npfctl_table.
  change (find _ NpfClient.tblops) with (Some ("list"%string, NPF_CMD_TABLE_LIST)). cbv iota beta.
  change (NPF_CMD_TABLE_LIST =? NPF_CMD_TABLE_LIST) with true. cbv iota. rewrite Hb. cbn [mbind option_bind cbind].
  pose proof (list_room j _ (proj1 Hj) Hfit) as Hroom. assert (length (entries t) = length (t_list t)) as Hlen by apply length_fmap.
  assert (2 ^ 9 <= 2 ^ j) as Hmin by (apply Z.pow_le_mono_r; lia).
  rewrite list_entries_all.
  - cbn [cbind]. do 3 f_equal. unfold entries. by rewrite <- list_fmap_compose.
  - rewrite Hlen. unfold sizeof_npf_ioctl_ent in *. lia.
  - unfold entries. by apply Forall_fmap.
  - rewrite Hlen. lia.
Qed.
End listing.

(** ** Cases *)

#[global] Instance nv_tree_take_ops : NpfClient.nvlist_take_ops nv_tree :=
  { NpfClient.nvlist_take_nvlist t n := NVT (nvt_scalars t) (nvt_without (nvt_arrays t) n) }.

#[global] Instance nv_tree_take_laws : NpfClient.nvlist_take_laws nv_tree.
Proof.
  split.
  - intros t n m. cbn. rewrite nvt_array_without. by case_decide.
  - intros t n d _. cbn. by rewrite nvt_array_without, decide_True.
Qed.

#[local] Instance flow_load_env : load_env unit nv_tree := { rproc_lookup _ _ _ := None; natpolicy_create _ _ := (None, tt) }.
#[local] Instance flow_save_env : save_env unit nv_tree := { rproc_getname _ _ := ""%string; natpolicy_export _ _ nv := nv }.
#[local] Instance flow_conf_env : conf_env unit unit nv_tree net_world := {
  alg_construct _ _ := false; rproc_create _ _ := (None, tt); ext_construct _ _ _ _ := (ENOENT, tt); conndb_create := tt;
  conn_import _ _ _ _ m w _ := (EINVAL, tt, tt, m, w); conndb_flush _ _ := tt; conn_load _ _ _ := tt; conn_tracking _ _ := tt;
  portmap_flush _ := tt;
}.
#[local] Instance flow_export_env : export_env unit nv_tree net_world := {
  conndb_export _ _ := ([], tt); rprocset_export _ _ := []; alg_export _ := []; active_p _ := true;
  conn_find _ m w _ resp := (ESRCH, resp, tt, m, w);
}.

Definition flow_ioc (op : npf_op) : Z :=
  match op with IOC_NPF_LOAD => 102 | IOC_NPF_SAVE => 105 | IOC_NPF_RULE => 107 | IOC_NPF_CONN_LOOKUP => 108 | IOC_NPF_TABLE_REPLACE => 109 | IOC_other n => n end.

(** A table with the network 10.0.0.0/8. *)
Definition flow_table : npf_table (M := gmap (list Z) npf_tblent) (L := gmap (Z * Z * Z) npf_tblent) (C := unit) :=
  (npf_table_insert true 1 (case_table "black" 1) 4 [10; 0; 0; 0] 8).2.

Definition flow_state : case_npf :=
  set_tables case_saved (mk_tables {[1 := case_table "white" 0; 2 := flow_table]} 3 2).

Definition flow_fmt (_ : string) (alen : Z) (a : npf_addr_t) : string := NpfShow.dotted alen a.

Lemma table_list_complete_witness : ∃ s', NpfClient.npfctl_table (kernel_chan (DB := unit) (NV := nv_tree) true flow_ioc) flow_fmt NpfData.sample_netdb 54
  (Some flow_state) ["black"; "list"]%string = Some (inl (["10.0.0.0/8"%string], s')).
Proof.
  destruct (table_list_complete (DB := unit) (NV := nv_tree) true flow_ioc flow_fmt NpfData.sample_netdb flow_state "black" 2 flow_table) as [E _].
  - split; [exists [Some 1; Some 2]; split; vm_compute; reflexivity|vm_compute; reflexivity|vm_compute; exact I].
  - vm_compute. repeat constructor.
  - vm_compute. discriminate.
  - exists (Some (collected flow_state 2 flow_table)). rewrite E. apply (f_equal (λ l, Some (inl (l, Some (collected flow_state 2 flow_table))))).
    vm_compute. reflexivity.
Defined.

(** A rule for the cases: passing, inbound. *)
Definition flow_parse (s : string) (map : bool) : comp (option nv_tree) :=
  inl (Some (nvlist_add_number nvlist_create "attr" (NPF_RULE_PASS ||| NPF_RULE_IN))).

Definition flow_rule (dev : NpfClient.channel) (args : list string) : comp (string * option case_npf) :=
  NpfClient.npfctl_rule (NV := nv_tree) dev (λ l, take 20 (l ++ replicate 20 0)) (λ nv, Some [dnvlist_get_number nv "attr" 0]) flow_parse flow_fmt
    (Some case_state) args.

Abbreviation flow_dev := (kernel_chan (X := unit) (DB := unit) (NV := nv_tree) (IW := net_world) (TM := gmap (list Z) npf_param_t)
  (M := gmap (list Z) npf_tblent) (L := gmap (Z * Z * Z) npf_tblent) (C := unit) true flow_ioc).
Abbreviation flow_socket := (socket_chan (X := unit) (DB := unit) (NV := nv_tree) (IW := net_world) (TM := gmap (list Z) npf_param_t)
  (M := gmap (list Z) npf_tblent) (L := gmap (Z * Z * Z) npf_tblent) (C := unit) true flow_ioc).

(** An added rule: the command prints its number. *)
Example rule_add_prints : (λ r, match r with inl (out, _) => Some out | inr _ => None end) (flow_rule flow_dev ["blocked"; "add"; "pass"; "in"; "all"]%string)
  = Some ("OK 2" +:+ NpfShow.newline)%string.
Proof. vm_compute. reflexivity. Qed.

(** Over the socket an error of the kernel is in the response only, and the
    response to a refused addition has no number, which is read all the same:
    npfctl is aborted.  With the device the error is reported. *)
Theorem rule_add_refused_aborts : flow_rule flow_socket ["absent"; "add"; "pass"; "in"; "all"]%string = inr E_abort ∧
  flow_rule flow_dev ["absent"; "add"; "pass"; "in"; "all"]%string = inr E_errx.
Proof. vm_compute. auto. Qed.

(** ... and the list of a ruleset that does not exist is an empty one. *)
Theorem ruleset_list_ignores_error : (λ r, match r with inl (out, _) => Some out | inr _ => None end) (flow_rule flow_socket ["absent"; "list"]%string) = Some ""%string ∧
  flow_rule flow_dev ["absent"; "list"]%string = inr E_errx.
Proof. vm_compute. auto. Qed.

(** A network of all addresses is printed as the address. *)
Theorem zero_prefix_printed fmt alen addr : NpfShow.npfctl_print_addrmask fmt alen addr 0 = NpfShow.npfctl_print_addrmask fmt alen addr NPF_NO_NETMASK.
Proof. reflexivity. Qed.

End ClientFlow.
