(* ===== verification/NpfOs.v ===== *)
(** * NpfOs: hooks and the device in the kernel (src/kern/npf_os.c)

    Packets reach the handler through the pfil hooks of IPv4 and IPv6, which
    are installed while the filter is switched on; changes of interfaces and of
    their addresses are reported through two hooks that are installed at the
    start.  [os] has the variables of the source and, for each head of pfil,
    whether the hook is on its list ([pfil_add_hook] refuses a hook that is
    there).  Which heads exist is an argument, [heads].  The rest of the system
    is a state [W] with the operations that are called, modelled in CtlOps,
    CtlTables, Stats, IfMap and IfAddr. *)

From S2P Require Import Prelude Nvlist Libnpf CtlOps.
Open Scope Z_scope.
Open Scope npf_scope.

Module NpfOs.
Import Nvlist.

Definition EPERM : Z := 1.

Record heads := mk_heads { hd_if : bool; hd_inet : bool; hd_inet6 : bool }.

Record os := mk_os {
  pfil_registered : bool;
  npf_ph_if : bool;
  npf_ph_inet : bool;
  npf_ph_inet6 : bool;
  ifhook : bool;
  ifaddrhook : bool;
  hook_inet : bool;
  hook_inet6 : bool;
}.

(** The variables at load time. *)
Definition os_start : os := mk_os false false false false false false false false.

(** [pfil_add_hook] of a hook that must not be there; [None]: the assertion. *)
Definition add_hook (hook : bool) : option bool := if hook then None else Some true.

Section glue.
Context {W : Type} (npf_ifaddr_syncall : W → W).

(** The interface hooks, when the head is not known yet. *)
Definition register_ihooks (h : heads) (o : os) : option (Z * os) :=
  if npf_ph_if o then Some (0, o)
  else if negb (hd_if h) then Some (ENOENT, o)
  else
    i ← add_hook (ifhook o); a ← add_hook (ifaddrhook o);
    Some (0, mk_os (pfil_registered o) true (npf_ph_inet o) (npf_ph_inet6 o) i a (hook_inet o) (hook_inet6 o)).

Definition npf_pfil_register (h : heads) (init : bool) (o : os) (w : W) : option (Z * os * W) :=
  '(error, o) ← register_ihooks h o;
  if negb (error =? 0) || init then Some (error, o, w)
  else if pfil_registered o then Some (EEXIST, o, w)
  else
    let o := mk_os false (npf_ph_if o) (hd_inet h) (hd_inet6 h) (ifhook o) (ifaddrhook o) (hook_inet o) (hook_inet6 o) in
    if negb (hd_inet h) && negb (hd_inet6 h) then Some (ENOENT, o, w)
    else
      h4 ← (if hd_inet h then add_hook (hook_inet o) else Some (hook_inet o));
      h6 ← (if hd_inet6 h then add_hook (hook_inet6 o) else Some (hook_inet6 o));
      Some (0, mk_os true (npf_ph_if o) (hd_inet h) (hd_inet6 h) (ifhook o) (ifaddrhook o) h4 h6, npf_ifaddr_syncall w).

Definition npf_pfil_unregister (fini : bool) (o : os) : os :=
  let fin := fini && npf_ph_if o in
  mk_os false (npf_ph_if o) (npf_ph_inet o) (npf_ph_inet6 o) (if fin then false else ifhook o) (if fin then false else ifaddrhook o)
    (if npf_ph_inet o then false else hook_inet o) (if npf_ph_inet6 o then false else hook_inet6 o).

Definition npf_active_p (o : os) : bool := pfil_registered o.

Definition npfctl_switch (h : heads) (data : Z) (o : os) (w : W) : option (Z * os * W) :=
  if negb (data =? 0) then npf_pfil_register h false o w else Some (0, npf_pfil_unregister false o, w).

(** ** The module *)

Inductive modcmd := MODULE_CMD_INIT | MODULE_CMD_FINI | MODULE_CMD_AUTOUNLOAD | MODULE_CMD_other.

(** Start and end of the system: the error of [npfk_sysinit], and the states
    after [npfk_create] and [npfk_destroy]. *)
Context (sysinit : W → Z * W) (create destroy : W → W) (default_pass : W → bool).

Definition npf_fini (o : os) (w : W) : Z * os * W := (0, npf_pfil_unregister true o, destroy w).

(** [attach]: the error of [devsw_attach], 0 where the device is built in. *)
Definition npf_init (h : heads) (attach : Z) (o : os) (w : W) : option (Z * os * W) :=
  let '(error, w) := sysinit w in
  if negb (error =? 0) then Some (error, o, w) else
  '(_, o, w) ← npf_pfil_register h true o (create w);
  if negb (attach =? 0) then let '(_, o, w) := npf_fini o w in Some (attach, o, w) else Some (0, o, w).

(** Whether the module may go. *)
Definition npf_autounload_p (o : os) (w : W) : bool := if npf_active_p o then false else default_pass w.

Definition npf_modcmd (h : heads) (attach : Z) (cmd : modcmd) (o : os) (w : W) : option (Z * os * W) :=
  match cmd with
  | MODULE_CMD_INIT => npf_init h attach o w
  | MODULE_CMD_FINI => Some (npf_fini o w)
  | MODULE_CMD_AUTOUNLOAD => Some (if npf_autounload_p o w then EBUSY else 0, o, w)
  | MODULE_CMD_other => Some (CtlOps.ENOTTY, o, w)
  end.

(** ** Hooks *)

Context (ifnet : Type) (ifmap_attach ifmap_detach ifaddr_sync ifaddr_flush : W → ifnet → W).

Inductive ifcmd := PFIL_IFNET_ATTACH | PFIL_IFNET_DETACH | PFIL_other.

Definition npf_ifhook (cmd : ifcmd) (ifp : ifnet) (w : W) : W :=
  match cmd with
  | PFIL_IFNET_ATTACH => ifaddr_sync (ifmap_attach w ifp) ifp
  | PFIL_IFNET_DETACH => ifaddr_flush (ifmap_detach w ifp) ifp
  | PFIL_other => w
  end.

Inductive addrcmd := SIOCSIFADDR | SIOCAIFADDR | SIOCDIFADDR | SIOCSIFADDR_IN6 | SIOCAIFADDR_IN6 | SIOCDIFADDR_IN6 | SIOC_other.

Definition npf_ifaddrhook (cmd : addrcmd) (ifp : ifnet) (w : W) : W := match cmd with SIOC_other => w | _ => ifaddr_sync w ifp end.

(** ** The device *)

Context {NV T : Type} {NO : nvlist_ops NV}.
(** A request with the response of [npfctl_run_op], a table command, and the
    statistics. *)
Context (run_op : W → CtlOps.npf_op → NV → Z * NV * W) (table_op : W → T → Z * W) (stats : W → list Z).

(** A request is a list, or the error of copying it in. *)
Inductive ioctl := IOC_NPF_VERSION | IOC_NPF_SWITCH (data : Z) | IOC_NPF_TABLE (data : T) | IOC_NPF_STATS | IOC_request (op : CtlOps.npf_op) (req : Z + NV).

(** What is copied out. *)
Inductive reply := R_none | R_version (v : Z) | R_stats (l : list Z) | R_list (resp : NV).

Definition is_request (op : CtlOps.npf_op) : bool := match op with CtlOps.IOC_other _ => false | _ => true end.

Definition npf_dev_open (super : bool) : Z := if negb super then EPERM else 0.
Definition npf_dev_close : Z := 0.
Definition npf_dev_read : Z := CtlOps.ENOTSUP.

(** The response is copied out on success only; [copyout] is the error of
    copying out, or 0. *)
Definition npf_dev_ioctl (super : bool) (h : heads) (copyout : Z) (cmd : ioctl) (o : os) (w : W) : option (Z * reply * os * W) :=
  if negb super then Some (EPERM, R_none, o, w) else
  match cmd with
  | IOC_NPF_VERSION => Some (0, R_version Libnpf.NPF_VERSION, o, w)
  | IOC_NPF_SWITCH data => '(error, o, w) ← npfctl_switch h data o w; Some (error, R_none, o, w)
  | IOC_NPF_TABLE data => let '(error, w) := table_op w data in Some (error, R_none, o, w)
  | IOC_NPF_STATS => Some (copyout, R_stats (stats w), o, w)
  | IOC_request op req =>
      if negb (is_request op) then Some (EINVAL, R_none, o, w) else
      match req with
      | inl error => Some (error, R_none, o, w)
      | inr req =>
          let '(error, resp, w) := run_op w op req in
          Some (if error =? 0 then (copyout, R_list resp, o, w) else (error, R_none, o, w))
      end
  end.

End glue.

(** ** Switching on and off *)

(** The interface hooks are installed with their head; the packet hooks are
    installed exactly while the filter is on, on the heads that were found. *)
Record os_inv (o : os) : Prop := {
  oi_if : ifhook o = npf_ph_if o ∧ ifaddrhook o = npf_ph_if o;
  oi_off : pfil_registered o = false → hook_inet o = false ∧ hook_inet6 o = false;
  oi_on : pfil_registered o = true → hook_inet o = npf_ph_inet o ∧ hook_inet6 o = npf_ph_inet6 o ∧ (npf_ph_inet o || npf_ph_inet6 o = true);
}.

Lemma os_start_inv : os_inv os_start.
Proof. by split. Qed.

(** The packet hooks follow the switch.  Switching never installs a hook
    twice.  Off: no packet hook remains.  On: with success the hooks are on
    every head there is, and the tables of interface addresses have been
    synchronised; with an error (the filter was on, or there is no head)
    nothing has changed for packets. *)
Theorem npfctl_switch_hooks {W} (syncall : W → W) h data o w : os_inv o → ∃ error o' w', npfctl_switch syncall h data o w = Some (error, o', w') ∧ os_inv o' ∧
  (npf_active_p o' = hook_inet o' || hook_inet6 o') ∧
  if data =? 0 then error = 0 ∧ npf_active_p o' = false ∧ w' = w
  else if error =? 0 then npf_active_p o = false ∧ npf_active_p o' = true ∧ hook_inet o' = hd_inet h ∧ hook_inet6 o' = hd_inet6 h ∧ w' = syncall w
  else npf_active_p o' = npf_active_p o ∧ hook_inet o' = hook_inet o ∧ hook_inet6 o' = hook_inet6 o ∧ w' = w.
Proof.
  destruct o as [reg pif p4 p6 ih ah k4 k6], h as [hif h4 h6]. intros [[H1 H2] Hoff Hon]. cbn in H1, H2, Hoff, Hon. subst ih ah.
  unfold npfctl_switch, npf_active_p. destruct (data =? 0); cbn [negb].
  - eexists 0, _, w. split; [reflexivity|]. unfold npf_pfil_unregister. cbn.
    assert ((if p4 then false else k4) = false ∧ (if p6 then false else k6) = false) as [-> ->].
    { destruct reg; [destruct (Hon eq_refl) as (-> & -> & _)|destruct (Hoff eq_refl) as [-> ->]]; by destruct p4, p6. }
    by split_and!.
  - unfold npf_pfil_register, register_ihooks, add_hook. destruct reg.
    + destruct (Hon eq_refl) as (-> & -> & Hor). destruct pif, hif; cbn; eexists _, _, w; (split; [reflexivity|]); by split_and!.
    + destruct (Hoff eq_refl) as [-> ->]. destruct pif, hif, h4, h6; cbn; eexists _, _, _; (split; [reflexivity|]); by split_and!.
Qed.

Lemma npfctl_switch_hooks_witness : ∃ error o' w', npfctl_switch (λ n : Z, n + 1) (mk_heads true true true) 1 os_start 0 = Some (error, o', w') ∧
  error = 0 ∧ hook_inet o' = true ∧ w' = 1.
Proof.
  destruct (npfctl_switch_hooks (λ n : Z, n + 1) (mk_heads true true true) 1 os_start 0 os_start_inv) as (error & o' & w' & E & _ & _ & H).
  exists error, o', w'. split; [exact E|]. cbn in E. injection E as <- <- <-. done.
Defined.

(** The module may be unloaded automatically while it filters packets, and
    not while it is idle: the answer of [npf_autounload_p] is inverted. *)
Theorem autounload_inverted {W} (syncall : W → W) sysinit create destroy default_pass h attach o w :
  fst <$> (fst <$> npf_modcmd syncall sysinit create destroy default_pass h attach MODULE_CMD_AUTOUNLOAD o w) =
  Some (if npf_active_p o then 0 else if default_pass w then EBUSY else 0).
Proof. cbn. unfold npf_autounload_p. by destruct (npf_active_p o). Qed.

(** After the end and another start the interface hooks are missing: the head
    is still known. *)
Theorem restart_without_hooks : let h := mk_heads true true true in
  (λ '(_, o, _), (ifhook o, ifaddrhook o)) <$>
    ('(_, o, w) ← npf_init id (λ w : unit, (0, w)) id id h 0 os_start tt; let '(_, o, w) := npf_fini id o w in npf_init id (λ w, (0, w)) id id h 0 o w)
  = Some (false, false).
Proof. reflexivity. Qed.

End NpfOs.
